(* ===== verification/_CoqProject ===== *)
-Q . S2P
Prelude.v
CStd.v
Words.v
CUtils.v
Utf8.v
Utf8Facts.v
Utf8Encode.v
CUtilsProps.v
BigIntMp.v
BigIntMpFacts.v
BigIntDiv.v
BigInt.v
BigIntFacts.v
BigIntOps.v
BigIntDivRem.v
BigIntPow.v
BigIntProps.v
Digits.v
DigitsFacts.v
DigitsProps.v
BigIntText.v
BigIntToText.v
BigIntTextProps.v
DtoaMp.v
DtoaMpFacts.v
DtoaMpProps.v
Dtoa.v
Atod.v
DtoaRoundFacts.v
AtodFacts.v
AtodProps.v
DtoaFree.v
DtoaText.v
DtoaFrac.v
DtoaProps.v
Sort.v
SortFacts.v
SortStack.v
SortProps.v
CharRange.v
CharRangeFacts.v
CharRangeBuild.v
CharRangeProps.v
UniTable.v
UniCase.v
UniCaseFacts.v
UniCaseProps.v
UniProp.v
UniPropFacts.v
UniSets.v
UniProps.v
Lexer.v
LexerFacts.v
LexerInv.v
LexerProps.v
LexerText.v
MoeList.v
MoeListFacts.v
Heap.v
ListProps.v
MoeString.v
ProcMacro.v
Parser.v
JsBridge.v
Main.v
DebugScript.v
HeapLogic.v
StringFacts.v
ToolFacts.v
ParserSpec.v
BridgeSpec.v
MainSpec.v
ParserFacts.v
MainFacts.v
FileFacts.v
ToolProps.v
