(* ===== verification/Prelude.v ===== *)
(** * A verification development for moe-toolchain

    moe-toolchain generates C code from annotations: the tool reads a C file,
    finds the structures and the enumerations that carry a derive list, hands
    their tokens to handlers written in JavaScript and run by QuickJS, and writes
    the code the handlers return to an output file. This library models the tool
    and the C code it stands on, and parts of the QuickJS engine that comes with
    it, and proves what they promise.

    ** The program and the files of the library

    The tool, in [src/moe]:
    - [common/moe_common.h], the assertion macros: this file ([MOE_ASSERT],
      [MOE_ASSERT_MSG], [MOE_UNREACHABLE], class [BuildConfig] for [NDEBUG]).
    - [common/moe_alloc.c]: [Heap.v], with the memory of the program. Its objects
      are the structures of the sources; a freed block is gone, so a dangling
      pointer is an error, and the counters tell the leaks.
    - [common/moe_list.c], intrusive circular lists: [MoeList.v], over the class
      [NodeStore] of the memories that hold list nodes; [Heap.v] has the instance.
      [MoeListFacts.v], [ListProps.v]: every function refines one on lists.
    - [common/moe_string.c]: [MoeString.v]; [StringFacts.v] states its contracts.
    - [proc_macro/proc_macro.c]: [ProcMacro.v] (tokens, derive items, structures),
      [Parser.v] (the parser), [JsBridge.v] (the calls of the engine), [Main.v]
      (files and [main]). The state of the parser is the heap and the lexer, the
      one of [main] the heap, the engine and the files.
    - [proc_macro/scripts/debug.js]: [DebugScript.v], the handlers as functions,
      in an instance of the class [JSEngine], on which the tool runs.

    The lexer of the tool, [src/vendors/stb/stb_c_lexer.h]: [Lexer.v], in the
    configuration the tool compiles. [LexerFacts.v], [LexerInv.v], [LexerText.v]
    and [LexerProps.v] prove it.

    QuickJS, in [src/vendors/qjs/quickjs]:
    - [cutils.h], [cutils.c]: [CUtils.v] (machine integers, bytes, bounded
      strings) and [Utf8.v] (UTF-8 and UTF-16); [Utf8Facts.v], [Utf8Encode.v],
      [CUtilsProps.v].
    - [quickjs.c], the big integers: [BigIntMp.v] (the routines on limbs),
      [BigInt.v] (the operations, with their allocations that may fail) and
      [BigIntText.v] (from and to text); [BigIntMpFacts.v], [BigIntDiv.v] (long
      division), [BigIntFacts.v], [BigIntOps.v], [BigIntDivRem.v], [BigIntPow.v],
      [BigIntProps.v], [BigIntToText.v], [BigIntTextProps.v].
    - [dtoa.c]: [Digits.v] (integers to text), [DtoaMp.v] (multi-precision
      numbers), [Dtoa.v] ([js_dtoa], numbers to text) and [Atod.v] ([js_atod],
      text to numbers); [DigitsFacts.v] (with the table of logarithms),
      [DigitsProps.v], [DtoaMpFacts.v], [DtoaMpProps.v], [DtoaRoundFacts.v];
      for [js_atod] [AtodFacts.v] and [AtodProps.v]; for [js_dtoa] [DtoaFree.v]
      (the shortest digits), [DtoaText.v] (the text), [DtoaFrac.v] (a fixed number
      of digits), [DtoaProps.v].
    - [cutils.c], [rqsort]: [Sort.v], over any comparison; [SortFacts.v] (the
      partition and the heapsort), [SortStack.v] (the insertion and the stack of
      segments), [SortProps.v].
    - [libunicode.c], sets of code points: [CharRange.v] (the structure, its
      growth, its operations, and [rqsort] on its points); [CharRangeFacts.v],
      [CharRangeBuild.v] (the sorted pairs, and the routines that add intervals
      until an allocation is refused), [CharRangeProps.v].
    - [libunicode.c], characters: [UniCase.v] (case conversion and folding, of one
      character and of a set) and [UniProp.v] (the lookups of a property, and the
      sets of properties, categories and scripts by name), on the tables of
      [libunicode-table.h] in [UniTable.v]; [UniCaseFacts.v] and [UniCaseProps.v]
      for the first; [UniPropFacts.v] (a compressed table as a list of runs),
      [UniSets.v] (the operations on a stack of sets, the names, the lookups) and
      [UniProps.v] for the second.

    [CStd.v] models the functions of the C library the sources call, [Words.v] the
    machine words and the buffers read and written by index, this file the monad
    of states and errors, the loops with their fuel, and weakest preconditions.

    ** What is modelled of C

    A function is a computation over the part of the state it uses ([M S A]): it
    returns, or stops on an [error], an assertion that fails, undefined behaviour
    or a loop that runs out of fuel, with the state it had reached. What C leaves
    undefined is an error where the sources can meet it: null and dangling
    pointers, accesses out of the bounds of an array, indeterminate values,
    signed overflow, operands out of the domain of an operator. A loop has a
    fuel that the file computes from its arguments: the length of the input for
    the lexer, the parser and the texts, the length of an array, the number of
    bits or digits; the theorems show that it is enough, as they are about runs
    that return, and [get_token_progress] and [main_terminates_always] state it.
    [int] operations that the sources do on unbounded inputs are checked
    ([int_add], [int_check]); the others are on values the proofs bound.

    ** What the theorems show

    - The tool ([ToolProps.v]): [main] refines a specification with no heap, whose
      state is the engine and the files; the parser refines a function from
      tokens to syntax trees; [main] has no undefined behaviour on a file of text,
      always ends, only adds to the output file, frees all it allocates when
      it succeeds, and aborts when two handlers succeed on one structure; on the
      fixture of the tests it writes the expected text ([DebugScript.v]).
      [HeapLogic.v] is the separation logic behind this (with the proof mode of
      Iris); [ToolFacts.v], [ParserSpec.v], [BridgeSpec.v], [MainSpec.v],
      [ParserFacts.v], [MainFacts.v] and [FileFacts.v] its steps.
    - Lists ([ListProps.v]): insertions, removals and replacements refine those of
      the list of nodes; the iterations visit the nodes, in order.
    - The lexer ([LexerProps.v]): it goes forward, stays in the bounds of its
      storage, and reads no further than the terminator.
    - UTF-8, UTF-16, bytes ([CUtilsProps.v]): round trips, exact lengths, stores
      within the bounds, and the strings truncated where they must be.
    - Big integers ([BigIntProps.v], [BigIntTextProps.v]): the operations are the
      ones on the integers, in normal form, whatever the allocations that fail;
      what is printed in any radix is read back.
    - Numbers and text ([DigitsProps.v], [DtoaMpProps.v], [AtodProps.v],
      [DtoaProps.v]): integers printed in any radix are read back; scaling and
      rounding are exact; [js_atod] returns the double nearest to a numeral, in
      every radix; what [js_dtoa] prints with no precision given is read back by
      [js_atod] as the same double, and with a number of digits after the point
      it is the rounding of the exact value.
    - Sorting ([SortProps.v]): [rqsort] ends inside its array and its stack for
      any comparison, permutes the elements, and sorts when the comparison is an
      order.
    - Sets of code points ([CharRangeProps.v]): every call keeps the structure
      well formed, whatever the allocations that fail, and the operations are
      those of sets.
    - Characters ([UniCaseProps.v], [UniProps.v]): conversions end inside
      their tables and the folding is idempotent; a set through the folding is the
      image of it; the sets by name are those of the tables, read as runs; the
      lookup of one character, by an index, agrees with the set; a refused
      allocation makes [unicode_script] run for ever.

    ** What is not modelled

    - The interpreter, the compiler, the objects, the garbage collector, the
      regular expressions and the operating system library of QuickJS: the tool
      only reaches them through the calls listed in the class [JSEngine], a
      parameter of the model of the tool.
    - Of [cutils.c], the dynamic buffers and the threads; of [libunicode.c], the
      normalization of texts and its tables; of the big integers, their conversions
      from and to doubles, which are operations on the C type [double]. [js_dtoa]
      and [js_atod] only look at the bits of a double, and are modelled.
    - An allocation that fails in the tool: [moe_alloc.c] does not test it. The
      ones of the big integers and of the sets of code points may fail in the model.
    - The build files, the tests, the Python script that reads the messages of the
      allocator, and the code the configuration of the lexer removes.
    - The properties are about the tables of [libunicode-table.h] as they are: that
      these are the ones of the Unicode standard is not stated. *)
From stdpp Require Export base list gmap strings.
From Stdlib Require Export ZArith Lia.
From Stdlib Require Export Ascii.
#[global] Set Warnings "-clear-no-such-hyp".
#[global] Open Scope Z_scope.
#[global] Set Default Proof Using "Type".

(** ** Outcomes *)

(** Why an execution is undefined in C. *)
Inductive ub : Type :=
  | NullDeref        (** a null pointer is dereferenced *)
  | InvalidPtr       (** a freed, dangling or ill-typed object is accessed or freed *)
  | ReadOutOfBounds  (** a read outside the bounds of an array object *)
  | WriteOutOfBounds (** a write outside the bounds of an array object *)
  | Indeterminate    (** an uninitialised value is used *)
  | SignedOverflow   (** an [int] computation leaves its range *)
  | BadOperand       (** an operator or a builtin outside its domain: a division by
                         zero, [clz] of 0, a shift by the width or more *).

Inductive error : Type :=
  | AssertFailed         (** [assert] fired: the process aborts *)
  | Undefined (u : ub)   (** undefined behaviour *)
  | OutOfFuel            (** the bound given to a loop was not enough *).

Inductive outcome (A : Type) : Type :=
  | Ok (a : A)
  | Err (e : error).
Arguments Ok {A} a.
Arguments Err {A} e.

#[global] Instance ub_eq_dec : EqDecision ub.
Proof. solve_decision. Defined.
#[global] Instance error_eq_dec : EqDecision error.
Proof. solve_decision. Defined.

(** ** The state and error monad *)

(** A computation over a state [S]; the state reached is kept on an error, so
    that what a run did before it stopped can be stated. *)
Definition M (S A : Type) : Type := S → outcome A * S.

Definition ret {S A} (a : A) : M S A := λ s, (Ok a, s).
Definition bind {S A B} (m : M S A) (k : A → M S B) : M S B := λ s,
  match m s with
  | (Ok a, s') => k a s'
  | (Err e, s') => (Err e, s')
  end.

(** The computation comes first, so that the type of what it returns is known
    when its continuation is read. *)
Declare Scope moe_scope.
Delimit Scope moe_scope with moe.
Notation "x ← y ; z" := (bind y (λ x : _, z))
  (at level 20, y at level 100, z at level 200, only parsing) : moe_scope.
Notation "' x ← y ; z" := (bind y (λ x : _, z))
  (at level 20, x pattern, y at level 100, z at level 200, only parsing) : moe_scope.
Notation "y ;; z" := (bind y (λ _, z))
  (at level 100, z at level 200, only parsing, right associativity) : moe_scope.

#[global] Open Scope moe_scope.

Definition throw {S A} (e : error) : M S A := λ s, (Err e, s).
Definition gets {S A} (f : S → A) : M S A := λ s, (Ok (f s), s).
Definition modify {S} (f : S → S) : M S unit := λ s, (Ok tt, f s).
Definition skip {S} : M S unit := ret tt.

Definition of_option {S A} (u : ub) (o : option A) : M S A :=
  match o with Some a => ret a | None => throw (Undefined u) end.

(** Loops. The body returns [inl a] to go on with [a], [inr b] to stop. *)
Fixpoint loop {S A B} (fuel : nat) (body : A → M S (A + B)) (a : A) : M S B :=
  match fuel with
  | O => throw OutOfFuel
  | Datatypes.S fuel =>
      r ← body a;
      match r with
      | inl a' => loop fuel body a'
      | inr b => ret b
      end
  end.

(** Running [f] on the elements of a list in order. *)
Fixpoint for_each {S A} (f : A → M S unit) (l : list A) : M S unit :=
  match l with
  | [] => ret tt
  | x :: l => f x;; for_each f l
  end.

(** Running a computation on a part of the state. *)
Class Lens (S T : Type) := {
  view : S → T;
  put : T → S → S;
  view_put : ∀ t s, view (put t s) = t;
  put_view : ∀ s, put (view s) s = s;
  put_put : ∀ t t' s, put t (put t' s) = put t s;
}.

Definition zoom {S T} `{Lens S T} {A} (m : M T A) : M S A := λ s,
  match m (view s) with (r, t) => (r, put t s) end.

(** ** The build: whether assertions are compiled in *)

(** [NDEBUG] is the macro [<assert.h>] looks at: with it, [assert(e)] expands
    to nothing, and [e] is not evaluated. *)
Class BuildConfig := { NDEBUG : bool }.
Definition with_assertions : BuildConfig := {| NDEBUG := false |}.
Definition without_assertions : BuildConfig := {| NDEBUG := true |}.

Definition MOE_ASSERT `{BuildConfig} {S} (cond : M S bool) : M S unit :=
  if NDEBUG then ret tt
  else b ← cond; if (b : bool) then ret tt else throw AssertFailed.

Definition MOE_ASSERT_MSG `{BuildConfig} {S} (cond : bool) : M S unit :=
  MOE_ASSERT (ret cond).

(** The [assert] of the library, where QuickJS calls it: the same test. *)
Abbreviation c_assert := MOE_ASSERT_MSG (only parsing).

Definition MOE_UNREACHABLE `{BuildConfig} {S} : M S unit := MOE_ASSERT_MSG false.

(** ** Pointers *)

(** A pointer is null, or a place [o] bytes into the block of memory [b];
    [Pundef] is the value of a pointer object nothing was stored into. *)
Inductive ptr : Type :=
  | Pundef
  | NULL
  | Addr (b : positive) (o : Z).

#[global] Instance ptr_eq_dec : EqDecision ptr.
Proof. solve_decision. Defined.

(** ** Machine integers *)

Definition INT_MAX : Z := 2 ^ 31 - 1.
Definition INT_MIN : Z := - 2 ^ 31.
Definition LONG_MAX : Z := 2 ^ 63 - 1.
Definition LONG_MIN : Z := - 2 ^ 63.

(** Conversion to a signed integer type of [w] bits (two's complement). *)
Definition to_signed (w : Z) (z : Z) : Z :=
  (z + 2 ^ (w - 1)) mod 2 ^ w - 2 ^ (w - 1).

Definition to_char : Z → Z := to_signed 8.
Definition to_int : Z → Z := to_signed 32.
Definition to_uchar (z : Z) : Z := z mod 2 ^ 8.
Definition to_size_t (z : Z) : Z := z mod 2 ^ 64.

(** An [int] addition, undefined when it overflows. *)
Definition int_add {S} (a b : Z) : M S Z :=
  if (INT_MIN <=? a + b) && (a + b <=? INT_MAX) then ret (a + b)
  else throw (Undefined SignedOverflow).

(** ** Characters *)

(** A [char] object holds its (signed) value; string literals become lists of
    them. *)
Definition char_of (a : ascii) : Z := to_char (Z.of_N (N_of_ascii a)).

Notation "$ c" := (ltac:(let v := eval vm_compute in (char_of c%char) in exact v))
  (at level 1, c at level 0, only parsing).

(** The double quote, for the literals that hold one. *)
Definition dquote : string := String.String "034"%char EmptyString.

Fixpoint chars (s : string) : list Z :=
  match s with
  | EmptyString => []
  | String.String a s => char_of a :: chars s
  end.

(** ** Weakest preconditions *)

(** [wp m Q E s]: run from [s], [m] ends in [Q] when it returns and in [E] when
    it stops on an error. *)
Definition wp {S A} (m : M S A) (Q : A → S → Prop) (E : error → S → Prop) (s : S) : Prop :=
  match m s with
  | (Ok a, s') => Q a s'
  | (Err e, s') => E e s'
  end.

(** The errors other than a loop running out of fuel: the error postcondition
    of termination. *)
Definition terminates {S} (e : error) (_ : S) : Prop := e ≠ OutOfFuel.
(** No error at all. *)
Definition never {S} (_ : error) (_ : S) : Prop := False.

Section wp_rules.
Context {S : Type}.
Implicit Types s : S.

Lemma wp_ret {A} (a : A) (Q : A → S → Prop) E s : Q a s → wp (ret a) Q E s.
Proof. done. Qed.

Lemma wp_bind {A B} (m : M S A) (k : A → M S B) Q E s :
  wp m (λ a s', wp (k a) Q E s') E s → wp (bind m k) Q E s.
Proof. unfold wp, bind. by destruct (m s) as [[a|e] s']. Qed.

Lemma wp_bind_inv {A B} (m : M S A) (k : A → M S B) Q E s :
  wp (bind m k) Q E s → wp m (λ a s', wp (k a) Q E s') E s.
Proof. unfold wp, bind. by destruct (m s) as [[a|e] s']. Qed.

Lemma wp_mono {A} (m : M S A) (Q Q' : A → S → Prop) (E E' : error → S → Prop) s :
  wp m Q E s → (∀ a s', Q a s' → Q' a s') → (∀ e s', E e s' → E' e s') →
  wp m Q' E' s.
Proof. unfold wp. destruct (m s) as [[a|e] s']; auto. Qed.

Lemma wp_conj {A} (m : M S A) (Q Q' : A → S → Prop) (E E' : error → S → Prop) s :
  wp m Q E s → wp m Q' E' s →
  wp m (λ a s', Q a s' ∧ Q' a s') (λ e s', E e s' ∧ E' e s') s.
Proof. unfold wp. destruct (m s) as [[a|e] s']; auto. Qed.

Lemma wp_throw {A} e (Q : A → S → Prop) (E : error → S → Prop) s :
  E e s → wp (throw e) Q E s.
Proof. done. Qed.

Lemma wp_gets {A} (f : S → A) (Q : A → S → Prop) E s : Q (f s) s → wp (gets f) Q E s.
Proof. done. Qed.

Lemma wp_modify (f : S → S) (Q : unit → S → Prop) E s : Q tt (f s) → wp (modify f) Q E s.
Proof. done. Qed.

Lemma wp_of_option {A} u (o : option A) (Q : A → S → Prop) (E : error → S → Prop) s :
  (∀ a, o = Some a → Q a s) → (o = None → E (Undefined u) s) →
  wp (of_option u o) Q E s.
Proof. destruct o; cbn; intros H1 H2; [by apply H1 | by apply H2]. Qed.

(** A run is known exactly when its [wp] pins the result and the state. *)
Lemma wp_run {A} (m : M S A) a s s' :
  m s = (Ok a, s') ↔ wp m (λ a0 s0, a0 = a ∧ s0 = s') never s.
Proof.
  unfold wp, never. destruct (m s) as [[a0|e] s0]; split; [by intros [= -> ->]| |done|done].
  by intros [-> ->].
Qed.

Lemma wp_of_run {A} (m : M S A) (Q : A → S → Prop) E a s s' :
  m s = (Ok a, s') → Q a s' → wp m Q E s.
Proof. unfold wp. by intros ->. Qed.

Lemma bind_run {A B} (m : M S A) (k : A → M S B) a s s' :
  m s = (Ok a, s') → (bind m k) s = k a s'.
Proof. unfold bind. by intros ->. Qed.

Lemma bind_err {A B} (m : M S A) (k : A → M S B) e s s' :
  m s = (Err e, s') → (bind m k) s = (Err e, s').
Proof. unfold bind. by intros ->. Qed.

Lemma bind_Ok {A B} (m : M S A) (k : A → M S B) b s s' :
  (bind m k) s = (Ok b, s') → ∃ a s0, m s = (Ok a, s0) ∧ k a s0 = (Ok b, s').
Proof. unfold bind. destruct (m s) as [[a|e] s0]; [eauto|done]. Qed.

Lemma bind_ret {A B} (a : A) (k : A → M S B) s : bind (ret a) k s = k a s.
Proof. done. Qed.

Lemma bind_bind {A B C} (m : M S A) (k : A → M S B) (k' : B → M S C) s :
  bind (bind m k) k' s = bind m (λ a, bind (k a) k') s.
Proof. unfold bind. by destruct (m s) as [[a|e] s']. Qed.

(** The loop rule: an invariant the body keeps, and a measure it decreases,
    which bounds the fuel. *)
Lemma wp_loop {A B} (I : A → S → Prop) (μ : A → S → nat) (body : A → M S (A + B)) Q E :
  (∀ a s, I a s →
     wp (body a) (λ r s', match r with
                          | inl a' => I a' s' ∧ (μ a' s' < μ a s)%nat
                          | inr b => Q b s'
                          end) E s) →
  ∀ fuel a s, I a s → (μ a s < fuel)%nat → wp (loop fuel body a) Q E s.
Proof.
  intros Hbody fuel. induction fuel as [|fuel IH]; intros a s HI Hμ; [lia|].
  apply wp_bind. eapply wp_mono; [by apply Hbody| |done].
  intros [a'|b] s'; [|done]. intros [HI' Hlt]. apply IH; [done|lia].
Qed.

Lemma for_each_app {A} (f : A → M S unit) l1 l2 s :
  for_each f (l1 ++ l2) s = (for_each f l1;; for_each f l2) s.
Proof.
  revert s. induction l1 as [|x l1 IH]; intros s; [done|]. cbn.
  unfold bind in *. destruct (f x s) as [[[]|e] s']; [|done]. apply IH.
Qed.

Lemma MOE_ASSERT_true `{BuildConfig} s : MOE_ASSERT_MSG true s = (Ok tt, s).
Proof. unfold MOE_ASSERT_MSG, MOE_ASSERT. by destruct NDEBUG. Qed.
End wp_rules.

Lemma wp_zoom {S T} `{Lens S T} {A} (m : M T A) (Q : A → S → Prop) (E : error → S → Prop) s :
  wp m (λ a t, Q a (put t s)) (λ e t, E e (put t s)) (view s) → wp (zoom m) Q E s.
Proof. unfold wp, zoom. by destruct (m (view s)) as [[a|e] t]. Qed.

Lemma zoom_run {S T} `{Lens S T} {A} (m : M T A) a s t :
  m (view s) = (Ok a, t) → zoom m s = (Ok a, put t s).
Proof. unfold zoom. by intros ->. Qed.

(** One step of symbolic execution of a [wp] goal. *)
Ltac wp_step :=
  lazymatch goal with
  | |- wp (bind _ _) _ _ _ => apply wp_bind
  | |- wp (ret _) _ _ _ => apply wp_ret
  | |- wp (throw _) _ _ _ => apply wp_throw
  | |- wp (gets _) _ _ _ => apply wp_gets
  | |- wp (modify _) _ _ _ => apply wp_modify
  | |- wp skip _ _ _ => apply wp_ret
  | |- wp (if true then ?m else _) ?Q ?E ?s => change (wp m Q E s)
  | |- wp (if false then _ else ?m) ?Q ?E ?s => change (wp m Q E s)
  | |- wp (if ?b then _ else _) _ _ _ => let H := fresh "Hb" in destruct b eqn:H
  end.
Ltac wp_steps := repeat wp_step.

(** ** Lemmas on integers *)

Lemma to_signed_range w z : 0 < w → - 2 ^ (w - 1) ≤ to_signed w z < 2 ^ (w - 1).
Proof.
  intros Hw. unfold to_signed.
  assert (2 ^ w = 2 * 2 ^ (w - 1)) as ->.
  { rewrite <-Z.pow_succ_r by lia. f_equal. lia. }
  pose proof (Z.mod_pos_bound (z + 2 ^ (w - 1)) (2 * 2 ^ (w - 1))) as H.
  pose proof (Z.pow_pos_nonneg 2 (w - 1)). lia.
Qed.

Lemma to_signed_id w z :
  0 < w → - 2 ^ (w - 1) ≤ z < 2 ^ (w - 1) → to_signed w z = z.
Proof.
  intros Hw Hz. unfold to_signed.
  assert (2 ^ w = 2 * 2 ^ (w - 1)) as ->.
  { rewrite <-Z.pow_succ_r by lia. f_equal. lia. }
  rewrite Z.mod_small by lia. lia.
Qed.

Lemma to_char_range z : -128 ≤ to_char z ≤ 127.
Proof. pose proof (to_signed_range 8 z). unfold to_char. lia. Qed.

Lemma to_char_id z : -128 ≤ z ≤ 127 → to_char z = z.
Proof. intros. apply to_signed_id; lia. Qed.

Lemma to_int_id z : INT_MIN ≤ z ≤ INT_MAX → to_int z = z.
Proof. unfold INT_MIN, INT_MAX. intros. apply to_signed_id; lia. Qed.

Lemma to_int_range z : INT_MIN ≤ to_int z ≤ INT_MAX.
Proof.
  pose proof (to_signed_range 32 z). unfold to_int, INT_MIN, INT_MAX. lia.
Qed.

Lemma int_add_ok {S} a b (s : S) :
  INT_MIN ≤ a + b ≤ INT_MAX → int_add a b s = (Ok (a + b), s).
Proof.
  intros. unfold int_add. destruct (_ && _) eqn:E; [done|].
  apply andb_false_iff in E. lia.
Qed.

(** ** Lemmas on lists *)

Lemma lookup_Z_app_l {A} (l1 l2 : list A) (i : Z) :
  0 ≤ i < Z.of_nat (length l1) → (l1 ++ l2) !! Z.to_nat i = l1 !! Z.to_nat i.
Proof. intros. apply lookup_app_l. lia. Qed.

Lemma lookup_Z_middle {A} (l1 l2 : list A) x (i : Z) :
  i = Z.of_nat (length l1) → (l1 ++ x :: l2) !! Z.to_nat i = Some x.
Proof. intros ->. rewrite Nat2Z.id. by apply list_lookup_middle. Qed.

Lemma filter_all {A} (P : A → Prop) `{!∀ x, Decision (P x)} (l : list A) :
  (∀ x, x ∈ l → P x) → filter P l = l.
Proof.
  induction l as [|x l IH]; intros HP; [done|].
  rewrite filter_cons_True by (apply HP; left). f_equal. apply IH. intros y ?. apply HP. by right.
Qed.

Lemma fmap_all_id {A} (f : A → A) (l : list A) : (∀ x, x ∈ l → f x = x) → f <$> l = l.
Proof.
  induction l as [|x l IH]; intros Hf; cbn; [done|].
  f_equal; [apply Hf; left|apply IH; intros; apply Hf; by right].
Qed.
