(* ===== verification/CStd.v ===== *)
(** * The C standard library functions the program calls

    [strlen], [strcmp], [memcpy], [strrchr], [strtol] and [strtod] on character
    arrays. A [const char*] argument is given as the contents of the array it
    points into, from the pointed character to the end of the array, so that a
    function that runs off the end of its array is undefined ([None] here, the
    error [ReadOutOfBounds] for its callers). The functions that return a pointer
    into their argument return its offset. *)
From S2P Require Import Prelude.
From Stdlib Require Import SpecFloat.
#[local] Close Scope moe_scope.

(** ** String functions *)

Fixpoint strlen (s : list Z) : option Z :=
  match s with
  | [] => None
  | c :: s => if c =? 0 then Some 0 else n ← strlen s; Some (n + 1)
  end.

(** The sign of the first difference, compared as [unsigned char]. *)
Fixpoint strcmp (a b : list Z) : option Z :=
  match a, b with
  | x :: a, y :: b =>
      if x =? y then (if x =? 0 then Some 0 else strcmp a b)
      else Some (if to_uchar x <? to_uchar y then -1 else 1)
  | _, _ => None
  end.

(** [memcpy(dst, src, n)]: the contents of [dst] afterwards. *)
Definition memcpy (dst src : list Z) (n : Z) : option (list Z) :=
  if (0 <=? n) && (n <=? Z.of_nat (length dst)) && (n <=? Z.of_nat (length src))
  then Some (take (Z.to_nat n) src ++ drop (Z.to_nat n) dst)
  else None.

(** [strrchr(s, c)]: the offset of the last [c], the terminator included. *)
Fixpoint strrchr_from (i : Z) (s : list Z) (c : Z) (last : option Z) : option (option Z) :=
  match s with
  | [] => None
  | x :: s =>
      let last := if x =? c then Some i else last in
      if x =? 0 then Some last else strrchr_from (i + 1) s c last
  end.
Definition strrchr (s : list Z) (c : Z) : option (option Z) := strrchr_from 0 s c None.

(** ** [strtol] *)

Definition digit_val (c : Z) : Z :=
  if ($"0" <=? c) && (c <=? $"9") then c - $"0"
  else if ($"a" <=? c) && (c <=? $"z") then c - $"a" + 10
  else if ($"A" <=? c) && (c <=? $"Z") then c - $"A" + 10
  else 36.

(** The value of the digits in [base] at the start of [s] added to [acc], and
    how many they are. *)
Fixpoint scan_digits (base : Z) (s : list Z) (acc n : Z) : option (Z * Z) :=
  match s with
  | [] => None
  | c :: s =>
      if digit_val c <? base then scan_digits base s (acc * base + digit_val c) (n + 1)
      else Some (acc, n)
  end.

Definition isspace (c : Z) : bool := (c =? 32) || ((9 <=? c) && (c <=? 13)).

Fixpoint skip_space (s : list Z) (n : Z) : list Z * Z :=
  match s with
  | c :: s' => if isspace c then skip_space s' (n + 1) else (s, n)
  | [] => ([], n)
  end.

Definition scan_sign (s : list Z) : list Z * bool * Z :=
  match s with
  | c :: s' => if c =? $"-" then (s', true, 1) else if c =? $"+" then (s', false, 1) else (s, false, 0)
  | [] => ([], false, 0)
  end.

(** The optional [0x] of base 16, taken only when a digit follows it. *)
Definition scan_0x (base : Z) (s : list Z) : list Z * Z :=
  match s with
  | z :: x :: d :: s' =>
      if (base =? 16) && (z =? $"0") && ((x =? $"x") || (x =? $"X")) && (digit_val d <? 16)
      then (d :: s', 2) else (s, 0)
  | _ => (s, 0)
  end.

Definition clamp_long (z : Z) : Z := Z.max LONG_MIN (Z.min LONG_MAX z).

(** [strtol(s, &end, base)] for [base] 8, 10 or 16: the value, saturated at the
    bounds of [long], and the offset of [end]. *)
Definition strtol (s : list Z) (base : Z) : option (Z * Z) :=
  let '(s1, n1) := skip_space s 0 in
  let '(s2, neg, n2) := scan_sign s1 in
  let '(s3, n3) := scan_0x base s2 in
  '(v, n) ← scan_digits base s3 0 0;
  if n =? 0 then Some (0, 0)
  else Some (clamp_long (if neg then - v else v), n1 + n2 + n3 + n).

(** ** [strtod] *)

(** The double nearest to [m * 10^e], ties to even. *)
Definition double_of_decimal (m e : Z) : spec_float :=
  if m =? 0 then S754_zero false
  else if 0 <=? e then binary_normalize 53 1024 (m * 10 ^ e) 0 false
  else let '(q, e', l) := SFdiv_core_binary 53 1024 m 0 (10 ^ (- e)) 0 in
       binary_round_aux 53 1024 false q e' l.

Definition is_digit (c : Z) : bool := ($"0" <=? c) && (c <=? $"9").

(** The exponent part [e[+-]digits], when it is complete: its value and length. *)
Definition scan_exponent (s : list Z) : option (Z * Z) :=
  match s with
  | [] => None
  | c :: s' =>
      if (c =? $"e") || (c =? $"E") then
        let '(s2, neg, n2) := scan_sign s' in
        '(v, n) ← scan_digits 10 s2 0 0;
        if n =? 0 then Some (0, 0) else Some (if neg then - v else v, 1 + n2 + n)
      else Some (0, 0)
  end.

(** The fraction part [.digits]: the mantissa extended by its digits, how many
    they are, and its length. *)
Definition scan_fraction (s : list Z) (m : Z) : option (Z * Z * Z) :=
  match s with
  | [] => None
  | c :: s' =>
      if c =? $"." then '(m', k) ← scan_digits 10 s' m 0; Some (m', k, k + 1)
      else Some (m, 0, 0)
  end.

(** [strtod(s, &end)] where [s] starts with a decimal digit and is not
    hexadecimal: the double and the offset of [end]. *)
Definition strtod (s : list Z) : option (spec_float * Z) :=
  '(m, n) ← scan_digits 10 s 0 0;
  '(m', k, nf) ← scan_fraction (drop (Z.to_nat n) s) m;
  '(e, ne) ← scan_exponent (drop (Z.to_nat (n + nf)) s);
  Some (double_of_decimal m' (e - k), n + nf + ne).

(** Conversion of a [double] to [float], and back. *)
Definition spec_float_round (prec emax : Z) (f : spec_float) : spec_float :=
  match f with
  | S754_finite sg m e => binary_normalize prec emax (if sg then Z.neg m else Z.pos m) e sg
  | _ => f
  end.
Definition to_float : spec_float → spec_float := spec_float_round 24 128.
Definition to_double : spec_float → spec_float := spec_float_round 53 1024.

(** ** C strings *)

(** The string a character array holds: the characters before its terminator. *)
Fixpoint c_str (s : list Z) : list Z :=
  match s with
  | [] => []
  | c :: s => if c =? 0 then [] else c :: c_str s
  end.

(** The array is terminated. *)
Definition terminated (s : list Z) : Prop := 0 ∈ s.

(** ** Lemmas *)

Lemma strlen_spec s : terminated s → strlen s = Some (Z.of_nat (length (c_str s))).
Proof.
  unfold terminated. induction s as [|c s IH]; intros H; [by apply not_elem_of_nil in H|].
  cbn. destruct (Z.eqb_spec c 0); [done|].
  apply elem_of_cons in H as [?|H]; [done|]. rewrite (IH H). cbn. f_equal. lia.
Qed.

Lemma strlen_range s n : strlen s = Some n → 0 ≤ n < Z.of_nat (length s).
Proof.
  revert n. induction s as [|c s IH]; intros n; cbn; [done|].
  case_match; [intros [= <-]; lia|].
  destruct (strlen s) as [k|]; cbn; [intros [= <-]|done]. specialize (IH k eq_refl). lia.
Qed.

Lemma strlen_nth s n : strlen s = Some n → s !! Z.to_nat n = Some 0.
Proof.
  revert n. induction s as [|c s IH]; intros n; cbn; [done|].
  destruct (Z.eqb_spec c 0) as [->|]; [by intros [= <-]|].
  destruct (strlen s) as [k|] eqn:E; cbn; [intros [= <-]|done].
  pose proof (strlen_range s k E).
  replace (Z.to_nat (k + 1)) with (Datatypes.S (Z.to_nat k)) by lia. by apply IH.
Qed.

Lemma c_str_strlen s n : strlen s = Some n → c_str s = take (Z.to_nat n) s.
Proof.
  revert n. induction s as [|c s IH]; intros n; cbn; [done|].
  case_match; [by intros [= <-]|].
  destruct (strlen s) as [k|] eqn:E; cbn; [intros [= <-]|done].
  pose proof (strlen_range s k E).
  replace (Z.to_nat (k + 1)) with (Datatypes.S (Z.to_nat k)) by lia.
  cbn. f_equal. by apply IH.
Qed.

Lemma strcmp_spec a b r :
  strcmp a b = Some r → (r =? 0) = bool_decide (c_str a = c_str b).
Proof.
  revert b. induction a as [|x a IH]; intros [|y b]; cbn; [done..|].
  destruct (Z.eqb_spec x y) as [->|Hne].
  - destruct (Z.eqb_spec y 0); [by intros [= <-]|].
    intros ->%IH. apply bool_decide_ext. split; congruence.
  - intros [= <-]. assert (((if to_uchar x <? to_uchar y then -1 else 1) =? 0) = false) as ->.
    { by destruct (_ <? _). }
    symmetry. apply bool_decide_eq_false.
    destruct (Z.eqb_spec x 0), (Z.eqb_spec y 0); congruence.
Qed.

Lemma strcmp_total a b : terminated a → terminated b → is_Some (strcmp a b).
Proof.
  unfold terminated. revert b.
  induction a as [|x a IH]; intros [|y b] Ha Hb; try (by apply not_elem_of_nil in Ha || apply not_elem_of_nil in Hb).
  cbn. destruct (Z.eqb_spec x y) as [->|]; [|done].
  destruct (Z.eqb_spec y 0); [done|].
  apply elem_of_cons in Ha as [?|Ha]; [done|]. apply elem_of_cons in Hb as [?|Hb]; [done|].
  by apply IH.
Qed.

Lemma c_str_app_0 l r : 0 ∉ l → c_str (l ++ 0 :: r) = l.
Proof.
  induction l as [|c l IH]; intros H; cbn; [done|].
  apply not_elem_of_cons in H as [? H]. destruct (Z.eqb_spec c 0); [congruence|].
  f_equal. by apply IH.
Qed.

Lemma c_str_no_0 s : 0 ∉ c_str s.
Proof.
  induction s as [|c s IH]; cbn; [apply not_elem_of_nil|].
  destruct (Z.eqb_spec c 0); [apply not_elem_of_nil|]. by apply not_elem_of_cons.
Qed.

Lemma memcpy_length dst src n l : memcpy dst src n = Some l → length l = length dst.
Proof.
  unfold memcpy. case_match eqn:E; [intros [= <-]|done].
  apply andb_true_iff in E as [[? ?]%andb_true_iff ?].
  rewrite length_app, length_take, length_drop. lia.
Qed.

Lemma digit_val_lt_36 c b : digit_val c < b → b ≤ 36 → 0 ≤ digit_val c.
Proof. unfold digit_val. repeat case_match; lia. Qed.

Lemma scan_digits_bounds base s acc n v k :
  0 < base ≤ 36 → 0 ≤ acc → scan_digits base s acc n = Some (v, k) →
  0 ≤ v ∧ n ≤ k < n + Z.of_nat (length s).
Proof.
  intros Hb. revert acc n. induction s as [|c s IH]; intros acc n Ha; cbn; [done|].
  destruct (Z.ltb_spec (digit_val c) base) as [Hd|].
  - pose proof (digit_val_lt_36 _ _ Hd). intros Hs%IH; [|nia]. lia.
  - intros [= <- <-]. lia.
Qed.

Lemma scan_digits_total base s acc n :
  (∃ c, c ∈ s ∧ base ≤ digit_val c) → is_Some (scan_digits base s acc n).
Proof.
  revert acc n. induction s as [|c s IH]; intros acc n (d & Hd & Hv); cbn.
  { by apply not_elem_of_nil in Hd. }
  destruct (Z.ltb_spec (digit_val c) base); [|done]. apply IH.
  apply elem_of_cons in Hd as [->|Hd]; [lia|eauto].
Qed.

Lemma clamp_long_range z : LONG_MIN ≤ clamp_long z ≤ LONG_MAX.
Proof. unfold clamp_long, LONG_MIN, LONG_MAX. lia. Qed.

Lemma clamp_long_id z : LONG_MIN ≤ z ≤ LONG_MAX → clamp_long z = z.
Proof. unfold clamp_long. lia. Qed.

(** ** What the number scanners consume

    [stops s n]: [n] characters of [s] are before every terminator of [s]. *)
Definition stops (s : list Z) (n : Z) : Prop :=
  0 ≤ n ∧ ∀ j, s !! j = Some 0 → n ≤ Z.of_nat j.

Lemma stops_0 s : stops s 0.
Proof. split; [lia|]. intros; lia. Qed.

Lemma stops_cons c s n : c ≠ 0 → stops s n → stops (c :: s) (n + 1).
Proof.
  intros Hc [Hn Hs]. split; [lia|]. intros [|j]; cbn; [congruence|].
  intros H%Hs. lia.
Qed.

Lemma stops_drop s n m : stops s n → stops (drop (Z.to_nat n) s) m → stops s (n + m).
Proof.
  intros [Hn Hs] [Hm Hd]. split; [lia|]. intros j Hj. pose proof (Hs j Hj).
  assert (drop (Z.to_nat n) s !! (j - Z.to_nat n)%nat = Some 0) as H0%Hd.
  { rewrite lookup_drop. rewrite <-Hj. f_equal. lia. }
  lia.
Qed.

Lemma stops_terminated s n : terminated s → stops s n → terminated (drop (Z.to_nat n) s).
Proof.
  intros [j Hj]%list_elem_of_lookup [Hn Hs]. apply list_elem_of_lookup.
  exists (j - Z.to_nat n)%nat. pose proof (Hs j Hj). rewrite lookup_drop, <-Hj. f_equal. lia.
Qed.

Lemma digit_val_0 : digit_val 0 = 36.
Proof. reflexivity. Qed.

Lemma scan_digits_stops base s acc n v k :
  base ≤ 36 → scan_digits base s acc n = Some (v, k) → stops s (k - n).
Proof.
  intros Hb. revert acc n. induction s as [|c s IH]; intros acc n; cbn; [done|].
  destruct (Z.ltb_spec (digit_val c) base) as [Hd|].
  - intros Hs%IH. replace (k - n) with (k - (n + 1) + 1) by lia.
    apply stops_cons; [|done]. intros ->. rewrite digit_val_0 in Hd. lia.
  - intros [= <- <-]. rewrite Z.sub_diag. apply stops_0.
Qed.

Lemma scan_digits_terminated base s acc n :
  base ≤ 36 → terminated s → is_Some (scan_digits base s acc n).
Proof. intros ??. apply scan_digits_total. exists 0. split; [done|]. by rewrite digit_val_0. Qed.

Lemma scan_digits_progress base c s acc n v k :
  digit_val c < base → scan_digits base (c :: s) acc n = Some (v, k) → 0 < base ≤ 36 → 0 ≤ acc → n < k.
Proof.
  intros Hd. cbn. destruct (Z.ltb_spec (digit_val c) base); [|lia].
  intros Hs Hb Ha. pose proof (digit_val_lt_36 c base Hd).
  apply scan_digits_bounds in Hs; nia.
Qed.

Lemma is_digit_val c : is_digit c = true → 0 ≤ digit_val c < 10 ∧ c ≠ 0.
Proof. unfold is_digit, digit_val. intros H. rewrite H. lia. Qed.

Lemma skip_space_digit c s : is_digit c = true → skip_space (c :: s) 0 = (c :: s, 0).
Proof. unfold is_digit. cbn. unfold isspace. intros. repeat case_match; try done; lia. Qed.

Lemma scan_sign_digit c s : is_digit c = true → scan_sign (c :: s) = (c :: s, false, 0).
Proof. unfold is_digit. cbn. intros. repeat case_match; try done; lia. Qed.

(** The [0x] prefix: a digit is left after it. *)
Lemma scan_0x_spec base c s s' n :
  digit_val c < base → base ≤ 16 → scan_0x base (c :: s) = (s', n) →
  s' = drop (Z.to_nat n) (c :: s) ∧ stops (c :: s) n ∧ (n = 0 ∨ n = 2) ∧
  ∃ d s'', s' = d :: s'' ∧ digit_val d < base.
Proof.
  unfold scan_0x. intros Hd Hb. destruct s as [|x [|d s]]; cbn [scan_0x].
  1,2: intros [= <- <-]; split_and!; [done|apply stops_0|auto|eauto].
  destruct (_ && _) eqn:E; intros [= <- <-].
  2: split_and!; [done|apply stops_0|auto|eauto].
  apply andb_true_iff in E as [[[H1%Z.eqb_eq H2%Z.eqb_eq]%andb_true_iff H3]%andb_true_iff H4%Z.ltb_lt].
  split_and!; [done| |auto|exists d, s; split; [done|lia]].
  change 2 with (0 + 1 + 1). apply stops_cons; [lia|]. apply stops_cons; [|apply stops_0].
  intros ->. done.
Qed.

Lemma strtol_digit base c s v n :
  is_digit c = true → digit_val c < base → 0 < base ≤ 16 →
  strtol (c :: s) base = Some (v, n) →
  0 ≤ v ≤ LONG_MAX ∧ 1 ≤ n ∧ stops (c :: s) n ∧ (n = 2 → scan_0x base (c :: s) = (c :: s, 0)).
Proof.
  intros Hc Hd Hb. unfold strtol. rewrite skip_space_digit, scan_sign_digit by done.
  destruct (scan_0x base (c :: s)) as [s3 n3] eqn:E0.
  pose proof (scan_0x_spec base c s s3 n3 Hd ltac:(lia) E0) as (-> & Hst & Hn3 & d & s'' & Hd3 & Hdv).
  rewrite Hd3. destruct (scan_digits base (d :: s'') 0 0) as [[v0 k]|] eqn:E; [|done].
  pose proof (scan_digits_progress _ _ _ _ _ _ _ Hdv E ltac:(lia) ltac:(lia)).
  pose proof (scan_digits_bounds base _ 0 0 v0 k ltac:(lia) ltac:(lia) E).
  pose proof (scan_digits_stops base _ 0 0 v0 k ltac:(lia) E) as Hs2.
  cbn. destruct (Z.eqb_spec k 0); [lia|]. intros [= <- <-]. split_and!.
  - unfold clamp_long, LONG_MIN, LONG_MAX. lia.
  - pose proof (clamp_long_range v0). lia.
  - lia.
  - rewrite Z.sub_0_r in Hs2. replace (0 + 0 + n3 + k) with (n3 + k) by lia.
    apply stops_drop; [done|]. by rewrite Hd3.
  - intros. destruct Hn3 as [->| ->]; [|lia]. by rewrite <-Hd3.
Qed.

(** [strtol] stops before the [x] of [0x] or after a digit that follows it. *)
Lemma strtol_0x x s v n :
  x = $"x" ∨ x = $"X" → strtol ($"0" :: x :: s) 16 = Some (v, n) → n ≠ 2.
Proof.
  intros Hx H ->. pose proof (strtol_digit 16 ($"0") (x :: s) v 2) as Hd.
  destruct Hd as (_ & _ & _ & H0); [done..|]. specialize (H0 eq_refl).
  unfold strtol in H. rewrite skip_space_digit, scan_sign_digit in H by done.
  rewrite H0 in H. cbn in H.
  assert ((digit_val x <? 16) = false) as E by (by destruct Hx as [-> | ->]).
  rewrite E in H. done.
Qed.

Lemma strtol_total base c s :
  is_digit c = true → digit_val c < base → 0 < base ≤ 16 →
  terminated (c :: s) → is_Some (strtol (c :: s) base).
Proof.
  intros Hc Hd Hb Ht. unfold strtol. rewrite skip_space_digit, scan_sign_digit by done.
  destruct (scan_0x base (c :: s)) as [s3 n3] eqn:E0.
  pose proof (scan_0x_spec base c s s3 n3 Hd ltac:(lia) E0) as (-> & Hst & _).
  pose proof (stops_terminated _ _ Ht Hst) as Ht'.
  destruct (scan_digits_terminated base _ 0 0 ltac:(lia) Ht') as [[v k] ->]. cbn.
  by destruct (k =? 0).
Qed.

Lemma scan_fraction_stops s m m' k n :
  scan_fraction s m = Some (m', k, n) → stops s n.
Proof.
  destruct s as [|c s]; cbn; [done|]. destruct (Z.eqb_spec c $".") as [->|].
  - destruct (scan_digits 10 s m 0) as [[v j]|] eqn:E; [|done].
    intros [= <- <- <-]. apply scan_digits_stops in E; [|lia]. rewrite Z.sub_0_r in E.
    by apply stops_cons.
  - intros [= <- <- <-]. apply stops_0.
Qed.

Lemma scan_fraction_total s m : terminated s → is_Some (scan_fraction s m).
Proof.
  intros Ht. destruct s as [|c s]; [by apply not_elem_of_nil in Ht|]. cbn.
  destruct (Z.eqb_spec c $".") as [->|]; [|done].
  assert (terminated s) as Ht' by (apply elem_of_cons in Ht as [?|?]; done).
  by destruct (scan_digits_terminated 10 s m 0 ltac:(lia) Ht') as [[v j] ->].
Qed.

Lemma scan_sign_spec s s' neg n :
  scan_sign s = (s', neg, n) → s' = drop (Z.to_nat n) s ∧ stops s n.
Proof.
  destruct s as [|c s]; cbn; [intros [= <- _ <-]; split; [done|apply stops_0]|].
  destruct (Z.eqb_spec c $"-") as [->|].
  { intros [= <- <- <-]. split; [done|]. apply (stops_cons _ _ 0); [done|apply stops_0]. }
  destruct (Z.eqb_spec c $"+") as [->|].
  { intros [= <- <- <-]. split; [done|]. apply (stops_cons _ _ 0); [done|apply stops_0]. }
  intros [= <- <- <-]. split; [done|apply stops_0].
Qed.

Lemma scan_exponent_stops s e n : scan_exponent s = Some (e, n) → stops s n.
Proof.
  destruct s as [|c s]; cbn; [done|].
  destruct ((c =? $"e") || (c =? $"E")) eqn:Ec; [|intros [= <- <-]; apply stops_0].
  destruct (scan_sign s) as [[s2 neg] n2] eqn:E2.
  apply scan_sign_spec in E2 as [-> Hs2].
  destruct (scan_digits 10 _ 0 0) as [[v k]|] eqn:E; [|done]. cbn.
  apply scan_digits_stops in E; [|lia]. rewrite Z.sub_0_r in E.
  destruct (k =? 0); intros [= <- <-]; [apply stops_0|].
  replace (1 + n2 + k) with (n2 + k + 1) by lia.
  apply stops_cons; [intros ->; done|]. by apply stops_drop.
Qed.

Lemma scan_exponent_total s : terminated s → is_Some (scan_exponent s).
Proof.
  intros Ht. destruct s as [|c s]; [by apply not_elem_of_nil in Ht|]. cbn.
  destruct ((c =? $"e") || (c =? $"E")) eqn:Ec; [|done].
  assert (terminated s) as Ht'.
  { apply elem_of_cons in Ht as [<-|?]; done. }
  destruct (scan_sign s) as [[s2 neg] n2] eqn:E2.
  apply scan_sign_spec in E2 as [-> Hs2]. pose proof (stops_terminated _ _ Ht' Hs2) as Ht2.
  destruct (scan_digits_terminated 10 _ 0 0 ltac:(lia) Ht2) as [[v j] ->]. cbn.
  by destruct (j =? 0).
Qed.

Lemma strtod_digit c s v n :
  is_digit c = true → strtod (c :: s) = Some (v, n) → 1 ≤ n ∧ stops (c :: s) n.
Proof.
  intros Hc. unfold strtod. pose proof (is_digit_val c Hc) as [Hd _].
  destruct (scan_digits 10 (c :: s) 0 0) as [[m k]|] eqn:E; [|done]. cbn [mbind option_bind].
  pose proof (scan_digits_progress _ _ _ _ _ _ _ (proj2 Hd) E ltac:(lia) ltac:(lia)).
  apply scan_digits_stops in E; [|lia]. rewrite Z.sub_0_r in E.
  destruct (scan_fraction _ _) as [[[m' kf] nf]|] eqn:Ef; [|done]. cbn [mbind option_bind].
  apply scan_fraction_stops in Ef.
  destruct (scan_exponent _) as [[e ne]|] eqn:Ee; [|done]. cbn [mbind option_bind].
  apply scan_exponent_stops in Ee. intros [= _ <-].
  pose proof (stops_drop _ _ _ E Ef) as H1. pose proof (stops_drop _ _ _ H1 Ee).
  split; [|done]. destruct Ef, Ee. lia.
Qed.

Lemma strtod_total c s : is_digit c = true → terminated (c :: s) → is_Some (strtod (c :: s)).
Proof.
  intros Hc Ht. unfold strtod.
  destruct (scan_digits_terminated 10 _ 0 0 ltac:(lia) Ht) as [[m k] E]. rewrite E.
  apply scan_digits_stops in E; [|lia]. rewrite Z.sub_0_r in E. cbn [mbind option_bind].
  pose proof (stops_terminated _ _ Ht E) as Ht1.
  destruct (scan_fraction_total _ m Ht1) as [[[m' kf] nf] Ef]. rewrite Ef.
  apply scan_fraction_stops in Ef. cbn [mbind option_bind].
  pose proof (stops_drop _ _ _ E Ef) as H1. pose proof (stops_terminated _ _ Ht H1) as Ht2.
  destruct (scan_exponent_total _ Ht2) as [[e ne] ->]. done.
Qed.

(** Examples, against glibc. *)
Example strtol_hex : strtol (chars "0x1Fg" ++ [0]) 16 = Some (31, 4).
Proof. reflexivity. Qed.
Example strtol_bare_0x : strtol (chars "0xg" ++ [0]) 16 = Some (0, 1).
Proof. reflexivity. Qed.
Example strtol_octal : strtol (chars "0179" ++ [0]) 8 = Some (15, 3).
Proof. reflexivity. Qed.
Example strtol_saturates : strtol (chars "99999999999999999999" ++ [0]) 10 = Some (LONG_MAX, 20).
Proof. reflexivity. Qed.
