(* ===== verification/Words.v ===== *)
(** * Machine words and buffers

    Unsigned integers of [w] bits are integers in [0, 2^w): [wrap w] is the
    conversion to such a type. A buffer is the list of the values of an array,
    read at an index by [rd] and written by [wr], both undefined out of bounds.
    The lemmas relate the bitwise operators to the arithmetic ones. *)
From S2P Require Import Prelude.

Definition wrap (w z : Z) : Z := z mod 2 ^ w.
Definition u8 : Z → Z := wrap 8.
Definition u16 : Z → Z := wrap 16.
Definition u32 : Z → Z := wrap 32.
Definition u64 : Z → Z := wrap 64.
Definition i64 : Z → Z := to_signed 64.

Definition UINT32_MAX : Z := 2 ^ 32 - 1.
Definition INT64_MAX : Z := 2 ^ 63 - 1.

(** What fits in [w] bits. *)
Definition fits (w z : Z) : Prop := 0 ≤ z < 2 ^ w.

#[global] Instance fits_dec w z : Decision (fits w z).
Proof. unfold fits. apply _. Defined.

(** [l[i]] *)
Definition rd {S} (l : list Z) (i : Z) : M S Z :=
  if i <? 0 then throw (Undefined ReadOutOfBounds)
  else of_option ReadOutOfBounds (l !! Z.to_nat i).

(** [buf[i] = v], the buffer being the state. *)
Definition wr (i v : Z) : M (list Z) unit := λ l,
  if (0 <=? i) && (i <? Z.of_nat (length l)) then (Ok tt, <[Z.to_nat i := v]> l)
  else (Err (Undefined WriteOutOfBounds), l).

(** ** Ranges *)

Lemma wrap_range w z : 0 ≤ w → fits w (wrap w z).
Proof. intros. apply Z.mod_pos_bound. by apply Z.pow_pos_nonneg. Qed.

Lemma wrap_id w z : fits w z → wrap w z = z.
Proof. intros. by apply Z.mod_small. Qed.

Lemma wrap_wrap w z : 0 ≤ w → wrap w (wrap w z) = wrap w z.
Proof. intros. by apply wrap_id, wrap_range. Qed.

Lemma fits_mono w w' z : 0 ≤ w ≤ w' → fits w z → fits w' z.
Proof. unfold fits. intros ? [??]. pose proof (Z.pow_le_mono_r 2 w w'). lia. Qed.

(** ** Bitwise operators *)

Lemma land_ones' x n m : 0 ≤ n → m = 2 ^ n - 1 → Z.land x m = x mod 2 ^ n.
Proof. intros Hn ->. rewrite <-Z.land_ones by done. f_equal. rewrite Z.ones_equiv. lia. Qed.

Lemma shiftr_div x n : 0 ≤ n → Z.shiftr x n = x / 2 ^ n.
Proof. apply Z.shiftr_div_pow2. Qed.

Lemma shiftl_mul x n : 0 ≤ n → Z.shiftl x n = x * 2 ^ n.
Proof. apply Z.shiftl_mul_pow2. Qed.

Lemma testbit_false_fits n x i : 0 ≤ n ≤ i → fits n x → Z.testbit x i = false.
Proof.
  unfold fits. intros Hn Hx. apply Z.testbit_false; [lia|]. rewrite Z.div_small; [done|].
  pose proof (Z.pow_le_mono_r 2 n i). lia.
Qed.

(** A disjunction of bits that are apart is a sum. *)
Lemma land_high_low n x k : 0 ≤ n → fits n x → Z.land (k * 2 ^ n) x = 0.
Proof.
  intros Hn Hx. apply Z.bits_inj'. intros i Hi.
  rewrite Z.land_spec, Z.bits_0. destruct (Z.lt_ge_cases i n).
  - by rewrite Z.mul_pow2_bits_low.
  - by rewrite (testbit_false_fits n x), andb_comm.
Qed.

Lemma lor_high_low n x k : 0 ≤ n → fits n x → Z.lor (k * 2 ^ n) x = k * 2 ^ n + x.
Proof.
  intros Hn Hx. pose proof (land_high_low n x k Hn Hx) as H0.
  rewrite <-Z.lxor_lor by done. symmetry. by apply Z.add_nocarry_lxor.
Qed.

Lemma lor_low_high n x k : 0 ≤ n → fits n x → Z.lor x (k * 2 ^ n) = x + k * 2 ^ n.
Proof. intros. rewrite Z.lor_comm, lor_high_low by done. lia. Qed.

(** A mask: [m] is [k * 2^n] and what it is added to has [n] bits. *)
Lemma lor_mask n m x : 0 ≤ n → fits n x → (2 ^ n | m) → Z.lor x m = x + m.
Proof. intros Hn Hx [k ->]. by apply lor_low_high. Qed.

Lemma log2_bounds x : 0 < x → 2 ^ Z.log2 x ≤ x < 2 * 2 ^ Z.log2 x.
Proof. intros H. apply Z.log2_spec in H. rewrite Z.pow_succ_r in H by apply Z.log2_nonneg. done. Qed.

(** ** Buffers *)

Lemma rd_run {S} l i v (s : S) : 0 ≤ i → l !! Z.to_nat i = Some v → rd l i s = (Ok v, s).
Proof. intros Hi Hl. unfold rd. destruct (Z.ltb_spec i 0); [lia|]. by rewrite Hl. Qed.

Lemma wr_run i v l :
  0 ≤ i < Z.of_nat (length l) → wr i v l = (Ok tt, <[Z.to_nat i := v]> l).
Proof. intros Hi. unfold wr. destruct (_ && _) eqn:E; [done|]. apply andb_false_iff in E. lia. Qed.

Lemma wp_rd {S} l i (Q : Z → S → Prop) E s :
  0 ≤ i < Z.of_nat (length l) → (∀ v, l !! Z.to_nat i = Some v → Q v s) → wp (rd l i) Q E s.
Proof.
  intros Hi HQ. unfold rd. destruct (Z.ltb_spec i 0); [lia|].
  destruct (lookup_lt_is_Some_2 l (Z.to_nat i)) as [v Hv]; [lia|].
  unfold wp. rewrite Hv. cbn. auto.
Qed.

Lemma wp_wr i v (Q : unit → list Z → Prop) E l :
  0 ≤ i < Z.of_nat (length l) → Q tt (<[Z.to_nat i := v]> l) → wp (wr i v) Q E l.
Proof. intros Hi HQ. unfold wp. by rewrite wr_run. Qed.

(** Writing after a prefix. *)
Lemma wr_app p x r v :
  wr (Z.of_nat (length p)) v (p ++ x :: r) = (Ok tt, (p ++ [v]) ++ r).
Proof.
  rewrite wr_run by (rewrite length_app; cbn; lia).
  rewrite Nat2Z.id, insert_app_r_alt, Nat.sub_diag by lia. cbn. by rewrite <-app_assoc.
Qed.

Lemma rd_app {S} p x r i (s : S) :
  i = Z.of_nat (length p) → rd (p ++ x :: r) i s = (Ok x, s).
Proof. intros ->. apply rd_run; [lia|]. rewrite Nat2Z.id. by apply list_lookup_middle. Qed.

(** [v & (v - 1)] is 0 for the powers of two only. *)
Lemma pow2_test v : 2 ≤ v → v ≤ 2 ^ 31 → Z.land v (v - 1) = 0 → ∃ n, 1 ≤ n ≤ 31 ∧ v = 2 ^ n.
Proof.
  intros Hlo Hhi E. exists (Z.log2 v). pose proof (Z.log2_spec v ltac:(lia)) as [H1 H2].
  assert (1 ≤ Z.log2 v) by (by apply (Z.log2_le_mono 2)).
  split; [split; [done|]; apply (Z.log2_le_mono v (2 ^ 31)) in Hhi; by rewrite Z.log2_pow2 in Hhi|].
  destruct (Z.eq_dec v (2 ^ Z.log2 v)) as [|Hne]; [done|exfalso].
  assert (Z.testbit (v - 1) (Z.log2 v) = true) as Hb.
  { assert (Z.log2 (v - 1) = Z.log2 v) as <-; [|apply Z.bit_log2; lia]. apply Z.log2_unique; lia. }
  assert (Z.testbit (Z.land v (v - 1)) (Z.log2 v) = true) as Ht.
  { rewrite Z.land_spec, Hb, Z.bit_log2 by lia. done. }
  by rewrite E, Z.bits_0 in Ht.
Qed.
