(* ===== verification/CUtils.v ===== *)
(** * The utilities of QuickJS: integers, bytes and bounded strings

    The inline functions of [src/vendors/qjs/quickjs/cutils.h] (minimum and
    maximum, [clz] and [ctz], unaligned loads and stores, byte swaps, hexadecimal
    digits) and the string functions at the head of [cutils.c]. A [uint8_t *]
    argument that is read is the list of the bytes from the pointed one to the
    end of the array; one that is written is the state. The order of the bytes
    of an integer in memory is the host's, a parameter. *)
From S2P Require Import Prelude CStd Words.

(** ** Minimum and maximum *)

Definition max_int (a b : Z) : Z := if a >? b then a else b.
Definition min_int (a b : Z) : Z := if a <? b then a else b.
Definition max_uint32 (a b : Z) : Z := if a >? b then a else b.
Definition min_uint32 (a b : Z) : Z := if a <? b then a else b.
Definition max_int64 (a b : Z) : Z := if a >? b then a else b.
Definition min_int64 (a b : Z) : Z := if a <? b then a else b.

(** ** Counting zeros: the builtins of the compiler, undefined at 0 *)

Definition clz32 {S} (a : Z) : M S Z :=
  if a =? 0 then throw (Undefined BadOperand) else ret (31 - Z.log2 a).
Definition clz64 {S} (a : Z) : M S Z :=
  if a =? 0 then throw (Undefined BadOperand) else ret (63 - Z.log2 a).

(** The number of zeros below the lowest 1. *)
Fixpoint trailing (p : positive) : Z :=
  match p with xO p => 1 + trailing p | _ => 0 end.
Definition ctz32 {S} (a : Z) : M S Z :=
  match a with Z.pos p => ret (trailing p) | _ => throw (Undefined BadOperand) end.
Definition ctz64 {S} (a : Z) : M S Z :=
  match a with Z.pos p => ret (trailing p) | _ => throw (Undefined BadOperand) end.

(** ** Integers in memory *)

Class Host := { big_endian : bool }.
Definition little_host : Host := {| big_endian := false |}.
Definition big_host : Host := {| big_endian := true |}.

(** The [n] bytes of an integer, the low one first, and back. *)
Fixpoint le_bytes (n : nat) (v : Z) : list Z :=
  match n with O => [] | S n => v mod 2 ^ 8 :: le_bytes n (v / 2 ^ 8) end.
Fixpoint le_value (l : list Z) : Z :=
  match l with [] => 0 | b :: l => b + 2 ^ 8 * le_value l end.

Definition to_bytes `{Host} (n : nat) (v : Z) : list Z :=
  if big_endian then reverse (le_bytes n v) else le_bytes n v.
Definition of_bytes `{Host} (l : list Z) : Z :=
  if big_endian then le_value (reverse l) else le_value l.

(** [memcpy(&v, tab, n)] and [memcpy(tab, &v, n)] *)
Definition load `{Host} {S} (n : nat) (tab : list Z) : M S Z :=
  if (n <=? length tab)%nat then ret (of_bytes (take n tab))
  else throw (Undefined ReadOutOfBounds).
Definition store `{Host} (n : nat) (v : Z) : M (list Z) unit := λ tab,
  match memcpy tab (to_bytes n v) (Z.of_nat n) with
  | Some tab' => (Ok tt, tab')
  | None => (Err (Undefined WriteOutOfBounds), tab)
  end.

Definition is_be `{Host} : Z := hd 0 (to_bytes 2 0x100).

Definition get_u64 `{Host} {S} (tab : list Z) : M S Z := load 8 tab.
Definition get_i64 `{Host} {S} (tab : list Z) : M S Z := v ← load 8 tab; ret (to_signed 64 v).
Definition put_u64 `{Host} (val : Z) : M (list Z) unit := store 8 val.
Definition get_u32 `{Host} {S} (tab : list Z) : M S Z := load 4 tab.
Definition get_i32 `{Host} {S} (tab : list Z) : M S Z := v ← load 4 tab; ret (to_signed 32 v).
Definition put_u32 `{Host} (val : Z) : M (list Z) unit := store 4 val.
Definition get_u16 `{Host} {S} (tab : list Z) : M S Z := load 2 tab.
Definition get_i16 `{Host} {S} (tab : list Z) : M S Z := v ← load 2 tab; ret (to_signed 16 v).
Definition put_u16 `{Host} (val : Z) : M (list Z) unit := store 2 val.
Definition get_u8 {S} (tab : list Z) : M S Z := rd tab 0.
Definition get_i8 {S} (tab : list Z) : M S Z := v ← rd tab 0; ret (to_signed 8 v).
Definition put_u8 (val : Z) : M (list Z) unit := wr 0 val.

(** ** Byte swaps *)

Definition bswap16 (x : Z) : Z := u16 (Z.lor (Z.shiftr x 8) (Z.shiftl x 8)).

Definition bswap32 (v : Z) : Z :=
  Z.lor (Z.lor (Z.lor (Z.shiftr (Z.land v 0xff000000) 24)
                      (Z.shiftr (Z.land v 0x00ff0000) 8))
               (u32 (Z.shiftl (Z.land v 0x0000ff00) 8)))
        (u32 (Z.shiftl (Z.land v 0x000000ff) 24)).

Definition bswap64 (v : Z) : Z :=
  let m n := u64 (Z.shiftl 0xff (n * 8)) in
  Z.lor (Z.lor (Z.lor (Z.lor (Z.lor (Z.lor (Z.lor
    (Z.shiftr (Z.land v (m 7)) (7 * 8))
    (Z.shiftr (Z.land v (m 6)) (5 * 8)))
    (Z.shiftr (Z.land v (m 5)) (3 * 8)))
    (Z.shiftr (Z.land v (m 4)) (1 * 8)))
    (u64 (Z.shiftl (Z.land v (m 3)) (1 * 8))))
    (u64 (Z.shiftl (Z.land v (m 2)) (3 * 8))))
    (u64 (Z.shiftl (Z.land v (m 1)) (5 * 8))))
    (u64 (Z.shiftl (Z.land v (m 0)) (7 * 8))).

(** [tab] is the state here: what is read is what is there. *)
Definition inplace_bswap16 `{Host} : M (list Z) unit :=
  tab ← gets id; v ← get_u16 tab; put_u16 (bswap16 v).
Definition inplace_bswap32 `{Host} : M (list Z) unit :=
  tab ← gets id; v ← get_u32 tab; put_u32 (bswap32 v).

(** ** Characters *)

Definition from_hex (c : Z) : Z :=
  if (c >=? $"0") && (c <=? $"9") then c - $"0"
  else if (c >=? $"A") && (c <=? $"F") then c - $"A" + 10
  else if (c >=? $"a") && (c <=? $"f") then c - $"a" + 10
  else -1.

Definition is_upper_ascii (c : Z) : bool := (c >=? $"A") && (c <=? $"Z").
Definition to_upper_ascii (c : Z) : Z :=
  if (c >=? $"a") && (c <=? $"z") then c - $"a" + $"A" else c.

(** ** Bounded strings *)

(** A computation on the part of the buffer from [off] on. *)
Definition at_offset {A} (off : nat) (m : M (list Z) A) : M (list Z) A := λ l,
  match m (drop off l) with (r, l') => (r, take off l ++ l') end.

(** [buf] is the state; [q] is an offset into it. *)
Definition js__pstrcpy (buf_size : Z) (str : list Z) : M (list Z) unit :=
  if buf_size <=? 0 then ret tt
  else
    q ← loop (S (length str)) (λ '(q, str),
          match str with
          | [] => throw (Undefined ReadOutOfBounds)
          | c :: str =>
              if (c =? 0) || (q >=? buf_size - 1) then ret (inr q)
              else wr q c;; ret (inl (q + 1, str))
          end) (0, str);
    wr q 0.

Definition js__pstrcat (buf_size : Z) (s : list Z) : M (list Z) unit :=
  buf ← gets id;
  len ← of_option ReadOutOfBounds (strlen buf);
  let len := to_int len in
  if len <? buf_size then at_offset (Z.to_nat len) (js__pstrcpy (buf_size - len) s)
  else ret tt.

(** Whether [val] starts [str], and the offset stored through [ptr]. *)
Definition js__strstart {S} (str val : list Z) : M S (option Z) :=
  loop (Datatypes.S (length val)) (λ '(p, q),
    cq ← rd val q;
    if cq =? 0 then ret (inr (Some p))
    else
      cp ← rd str p;
      if negb (cp =? cq) then ret (inr None)
      else ret (inl (p + 1, q + 1))) (0, 0).

Definition js__has_suffix {S} (str suffix : list Z) : M S bool :=
  len ← of_option ReadOutOfBounds (strlen str);
  slen ← of_option ReadOutOfBounds (strlen suffix);
  ret ((len >=? slen) &&
       bool_decide (take (Z.to_nat slen) (drop (Z.to_nat (len - slen)) str)
                    = take (Z.to_nat slen) suffix)).

(** ** Lemmas *)

Lemma le_bytes_length n v : length (le_bytes n v) = n.
Proof. revert v. induction n; intros; cbn; auto. Qed.

Lemma to_bytes_length `{Host} n v : length (to_bytes n v) = n.
Proof. unfold to_bytes. destruct big_endian; rewrite ?length_reverse; apply le_bytes_length. Qed.

Lemma le_value_bytes n v : le_value (le_bytes n v) = v mod 2 ^ (8 * Z.of_nat n).
Proof.
  revert v. induction n as [|n IH]; intros v; cbn [le_bytes le_value]; [by rewrite Z.mod_1_r|].
  rewrite IH. replace (8 * Z.of_nat (S n)) with (8 + 8 * Z.of_nat n) by lia.
  rewrite Z.pow_add_r, Z.rem_mul_r by lia. done.
Qed.

Lemma le_bytes_value l : Forall (fits 8) l → le_bytes (length l) (le_value l) = l.
Proof.
  induction 1 as [|b l Hb Hl IH]; cbn [length le_bytes le_value]; [done|].
  unfold fits in Hb. f_equal.
  - rewrite (Z.mul_comm (2 ^ 8)), Z.mod_add by lia. by apply Z.mod_small.
  - rewrite (Z.mul_comm (2 ^ 8)), Z.div_add by lia. by rewrite Z.div_small.
Qed.

Lemma le_value_fits l : Forall (fits 8) l → fits (8 * Z.of_nat (length l)) (le_value l).
Proof.
  unfold fits. induction 1 as [|b l Hb Hl IH]; cbn [length le_value]; [lia|].
  replace (8 * Z.of_nat (S (length l))) with (8 + 8 * Z.of_nat (length l)) by lia.
  rewrite Z.pow_add_r by lia. lia.
Qed.

Lemma le_bytes_fits n v : Forall (fits 8) (le_bytes n v).
Proof.
  revert v. induction n; intros; cbn [le_bytes]; [constructor|].
  constructor; [apply Z.mod_pos_bound; lia|auto].
Qed.

Lemma of_bytes_to_bytes `{Host} n v : of_bytes (to_bytes n v) = v mod 2 ^ (8 * Z.of_nat n).
Proof.
  unfold of_bytes, to_bytes. destruct big_endian; rewrite ?reverse_involutive; apply le_value_bytes.
Qed.

Lemma store_run `{Host} n v tab :
  (n ≤ length tab)%nat → store n v tab = (Ok tt, to_bytes n v ++ drop n tab).
Proof.
  intros Hn. unfold store, memcpy. rewrite to_bytes_length.
  destruct (_ && _) eqn:E.
  - rewrite Nat2Z.id, take_ge by (by rewrite to_bytes_length). done.
  - apply andb_false_iff in E as [E|E]; [apply andb_false_iff in E|]; lia.
Qed.

Lemma load_run `{Host} {S} n tab (s : S) :
  (n ≤ length tab)%nat → load n tab s = (Ok (of_bytes (take n tab)), s).
Proof. intros. unfold load. by destruct (Nat.leb_spec n (length tab)); [|lia]. Qed.

(** A store, then a load at the same place. *)
Lemma load_store `{Host} {S} n v tab tab' (s : S) :
  store n v tab = (Ok tt, tab') → load n tab' s = (Ok (v mod 2 ^ (8 * Z.of_nat n)), s).
Proof.
  intros Hs. assert ((n ≤ length tab)%nat) as Hn.
  { unfold store, memcpy in Hs. destruct (_ && _) eqn:E; [|done].
    apply andb_true_iff in E as [[? ?]%andb_true_iff ?]. lia. }
  rewrite store_run in Hs by done. injection Hs as <-.
  rewrite load_run by (rewrite length_app, to_bytes_length; lia).
  rewrite take_app_length' by (by rewrite to_bytes_length). by rewrite of_bytes_to_bytes.
Qed.

(** Byte [n] of an integer, and what a mask and a shift make of it. *)
Definition byte_at (v n : Z) : Z := (v / 2 ^ n) mod 2 ^ 8.

Lemma byte_at_fits v n : fits 8 (byte_at v n).
Proof. apply Z.mod_pos_bound. lia. Qed.

Lemma land_byte v n : 0 ≤ n → Z.land v (255 * 2 ^ n) = byte_at v n * 2 ^ n.
Proof.
  intros Hn. unfold byte_at. rewrite <-!Z.shiftl_mul_pow2, <-Z.shiftr_div_pow2 by done.
  change 255 with (Z.ones 8). rewrite <-Z.land_ones by done.
  apply Z.bits_inj'. intros i Hi. rewrite Z.land_spec, !Z.shiftl_spec, Z.land_spec by done.
  destruct (Z.lt_ge_cases i n).
  - rewrite (Z.testbit_neg_r _ (i - n)) by lia. rewrite (Z.testbit_neg_r (Z.shiftr _ _)) by lia.
    by rewrite andb_false_r.
  - rewrite Z.shiftr_spec by lia. f_equal. f_equal. lia.
Qed.

Lemma byte_right v n m k :
  0 ≤ m ≤ n → k = 255 * 2 ^ n → Z.shiftr (Z.land v k) m = byte_at v n * 2 ^ (n - m).
Proof.
  intros Hm ->. rewrite land_byte by lia. rewrite Z.shiftr_div_pow2 by lia.
  replace (2 ^ n) with (2 ^ (n - m) * 2 ^ m) by (rewrite <-Z.pow_add_r by lia; f_equal; lia).
  rewrite Z.mul_assoc, Z.div_mul by (apply Z.pow_nonzero; lia). done.
Qed.

Lemma byte_left w v n m k :
  0 ≤ n → 0 ≤ m → n + m + 8 ≤ w → k = 255 * 2 ^ n →
  wrap w (Z.shiftl (Z.land v k) m) = byte_at v n * 2 ^ (n + m).
Proof.
  intros Hn Hm Hw ->. rewrite land_byte, Z.shiftl_mul_pow2 by lia.
  rewrite <-Z.mul_assoc, <-Z.pow_add_r by lia. apply wrap_id.
  pose proof (byte_at_fits v n) as Hb. unfold fits in *.
  pose proof (Z.pow_le_mono_r 2 (n + m + 8) w). pose proof (Z.pow_pos_nonneg 2 (n + m)).
  rewrite Z.pow_add_r in H by lia. nia.
Qed.

(** The bytes from the low one: Horner's sum over shifted bytes. *)
Lemma le_bytes_at n v : le_bytes n v = (λ i, byte_at v (8 * Z.of_nat i)) <$> seq 0 n.
Proof.
  revert v. induction n as [|n IH]; intros v; [done|]. cbn [le_bytes seq fmap list_fmap].
  f_equal; [unfold byte_at; by rewrite Z.div_1_r|].
  rewrite IH, <-fmap_S_seq, <-list_fmap_compose. apply list_fmap_ext. intros i x _. cbn.
  unfold byte_at. rewrite Z.div_div, <-Z.pow_add_r by lia. do 3 f_equal. lia.
Qed.

(** Bytes put together by disjunction, the low one first. *)
Fixpoint lor_bytes (acc n : Z) (l : list Z) : Z :=
  match l with [] => acc | b :: l => lor_bytes (Z.lor acc (b * 2 ^ n)) (n + 8) l end.

Lemma lor_bytes_value acc n l :
  0 ≤ n → fits n acc → Forall (fits 8) l → lor_bytes acc n l = acc + 2 ^ n * le_value l.
Proof.
  revert acc n. induction l as [|b l IH]; intros acc n Hn Ha Hl; cbn [lor_bytes le_value]; [lia|].
  apply Forall_cons in Hl as [Hb Hl]. rewrite lor_low_high by done.
  pose proof (Z.pow_pos_nonneg 2 n). unfold fits in *.
  rewrite IH; [|lia| |done]; rewrite Z.pow_add_r by lia; nia.
Qed.

Lemma bswap32_bytes v :
  bswap32 v = lor_bytes 0 0 (reverse (le_bytes 4 v)).
Proof.
  unfold bswap32, u32. rewrite le_bytes_at. cbn [seq fmap list_fmap].
  rewrite (byte_right v 24 24), (byte_right v 16 8), (byte_left 32 v 8 8), (byte_left 32 v 0 24) by (lia || done).
  unfold reverse. cbn [rev_append lor_bytes]. rewrite Z.lor_0_l. done.
Qed.

Lemma bswap64_bytes v :
  bswap64 v = lor_bytes 0 0 (reverse (le_bytes 8 v)).
Proof.
  unfold bswap64. cbv zeta. unfold u64. rewrite le_bytes_at. cbn [seq fmap list_fmap].
  rewrite (byte_right v 56 (7 * 8)), (byte_right v 48 (5 * 8)), (byte_right v 40 (3 * 8)),
    (byte_right v 32 (1 * 8)), (byte_left 64 v 24 (1 * 8)), (byte_left 64 v 16 (3 * 8)),
    (byte_left 64 v 8 (5 * 8)), (byte_left 64 v 0 (7 * 8)) by (lia || done).
  unfold reverse. cbn [rev_append lor_bytes]. rewrite Z.lor_0_l. done.
Qed.

Lemma bswap16_bytes v :
  fits 16 v → bswap16 v = lor_bytes 0 0 (reverse (le_bytes 2 v)).
Proof.
  intros Hv. unfold bswap16, u16. rewrite le_bytes_at. cbn [seq fmap list_fmap].
  unfold reverse. cbn [rev_append lor_bytes]. rewrite Z.lor_0_l.
  unfold byte_at. cbn. rewrite Z.div_1_r, Z.mul_1_r, Z.shiftr_div_pow2, Z.shiftl_mul_pow2 by lia.
  unfold fits in Hv. unfold wrap.
  rewrite !lor_low_high by (try apply Z.mod_pos_bound; unfold fits; try lia;
    Z.div_mod_to_equations; lia).
  Z.div_mod_to_equations. lia.
Qed.

(** Reversed bytes, as an integer. *)
Lemma reversed_bytes n v :
  le_bytes n (lor_bytes 0 0 (reverse (le_bytes n v))) = reverse (le_bytes n v).
Proof.
  assert (Forall (fits 8) (reverse (le_bytes n v))) as Hl.
  { apply Forall_reverse, le_bytes_fits. }
  rewrite lor_bytes_value by (done || unfold fits; lia). rewrite Z.add_0_l, Z.mul_1_l.
  rewrite <-(le_bytes_value _ Hl) at 2. by rewrite length_reverse, le_bytes_length.
Qed.

(** ** The bounded copies *)

(** What [js__pstrcpy] leaves in a buffer. *)
Definition truncated (buf_size : Z) (s : list Z) (buf : list Z) : list Z :=
  let t := take (Z.to_nat (buf_size - 1)) s in
  t ++ 0 :: drop (S (length t)) buf.

Lemma pstrcpy_loop n str p r fuel :
  terminated str → 0 ≤ n → n < Z.of_nat (length r) → (length str < fuel)%nat →
  loop fuel (λ '(q, str),
     match str with
     | [] => throw (Undefined ReadOutOfBounds)
     | c :: str =>
         if (c =? 0) || (q >=? Z.of_nat (length p) + n) then ret (inr q)
         else wr q c;; ret (inl (q + 1, str))
     end) (Z.of_nat (length p), str) (p ++ r)
  = (Ok (Z.of_nat (length p + length (take (Z.to_nat n) (c_str str)))),
     p ++ take (Z.to_nat n) (c_str str) ++ drop (length (take (Z.to_nat n) (c_str str))) r).
Proof.
  revert n p r fuel. induction str as [|c str IH]; intros n p r fuel Ht Hn Hr Hf.
  { by apply not_elem_of_nil in Ht. }
  destruct fuel as [|fuel]; [cbn in Hf; lia|]. cbn [loop c_str].
  destruct (Z.eqb_spec c 0) as [->|Hc]; cbn [orb].
  { cbn. rewrite take_nil, drop_0. cbn. by rewrite Nat.add_0_r. }
  rewrite Z.geb_leb. destruct (Z.leb_spec (Z.of_nat (length p) + n) (Z.of_nat (length p))).
  { assert (n = 0) as -> by lia. cbn. rewrite drop_0. cbn. by rewrite Nat.add_0_r. }
  destruct r as [|x r]; [cbn in Hr; lia|]. rewrite bind_bind.
  erewrite bind_run by apply wr_app. rewrite bind_ret.
  assert (terminated str) as Ht' by (apply elem_of_cons in Ht as [?|?]; [congruence|done]).
  specialize (IH (n - 1) (p ++ [c]) r fuel Ht' ltac:(lia) ltac:(cbn in Hr; lia) ltac:(cbn in Hf; lia)).
  assert (Z.of_nat (length (p ++ [c])) = Z.of_nat (length p) + 1) as El by (rewrite length_app; cbn; lia).
  replace (Z.of_nat (length (p ++ [c])) + (n - 1)) with (Z.of_nat (length p) + n) in IH by lia.
  rewrite El in IH. rewrite IH. replace (Z.to_nat n) with (S (Z.to_nat (n - 1))) by lia.
  cbn [take length drop]. rewrite <-app_assoc. f_equal. f_equal. rewrite length_app. cbn. lia.
Qed.

Lemma pstrcpy_run buf_size str buf :
  terminated str → 0 < buf_size ≤ Z.of_nat (length buf) →
  js__pstrcpy buf_size str buf = (Ok tt, truncated buf_size (c_str str) buf).
Proof.
  intros Ht Hb. unfold js__pstrcpy. destruct (Z.leb_spec buf_size 0); [lia|].
  pose proof (pstrcpy_loop (buf_size - 1) str [] buf (S (length str)) Ht) as Hl.
  cbn [length Z.of_nat app] in Hl. rewrite Z.add_0_l in Hl.
  erewrite bind_run by (apply Hl; lia). unfold truncated.
  set (t := take _ _). assert (length t < length buf)%nat as Hlt.
  { unfold t. rewrite length_take. lia. }
  rewrite Nat.add_0_l. destruct (drop (length t) buf) as [|x r] eqn:Ed.
  { apply (f_equal length) in Ed. rewrite length_drop in Ed. cbn in Ed. lia. }
  rewrite wr_app. rewrite <-app_assoc. cbn. do 3 f_equal.
  replace (S (length t)) with (length t + 1)%nat by lia. by rewrite <-drop_drop, Ed.
Qed.

Lemma c_str_prefix s : terminated s → take (length (c_str s)) s = c_str s.
Proof.
  intros Hs. pose proof (c_str_strlen _ _ (strlen_spec s Hs)) as Hc. by rewrite Nat2Z.id in Hc.
Qed.

Lemma c_str_shorter s : terminated s → (length (c_str s) < length s)%nat.
Proof. intros Hs. pose proof (strlen_range _ _ (strlen_spec s Hs)). lia. Qed.

Lemma pstrcat_run buf_size s buf :
  terminated buf → terminated s → 0 < buf_size ≤ Z.of_nat (length buf) → buf_size ≤ INT_MAX →
  Z.of_nat (length (c_str buf)) < buf_size →
  js__pstrcat buf_size s buf = (Ok tt, truncated buf_size (c_str buf ++ c_str s) buf).
Proof.
  intros Hb Hs Hsz Hmax Hl. unfold js__pstrcat, gets, bind at 1. cbn [id].
  unfold id. rewrite strlen_spec by done. cbn [of_option]. rewrite bind_ret. cbv zeta.
  rewrite to_int_id by (pose proof (c_str_shorter buf Hb); unfold INT_MIN, INT_MAX in *; lia).
  destruct (Z.ltb_spec (Z.of_nat (length (c_str buf))) buf_size); [|lia].
  rewrite Nat2Z.id. unfold at_offset.
  rewrite pstrcpy_run by (done || rewrite length_drop; lia).
  f_equal. rewrite c_str_prefix by done. unfold truncated. cbv zeta.
  rewrite (take_app_ge (c_str buf)) by lia. rewrite <-app_assoc. f_equal.
  replace (Z.to_nat (buf_size - 1) - length (c_str buf))%nat
    with (Z.to_nat (buf_size - Z.of_nat (length (c_str buf)) - 1)) by lia.
  f_equal. f_equal. rewrite drop_drop, length_app. f_equal. lia.
Qed.

Lemma pstrcat_full buf_size s buf :
  terminated buf → Z.of_nat (length (c_str buf)) ≤ INT_MAX →
  buf_size ≤ Z.of_nat (length (c_str buf)) → js__pstrcat buf_size s buf = (Ok tt, buf).
Proof.
  intros Hb Hmax Hl. unfold js__pstrcat, gets, bind at 1. unfold id.
  rewrite strlen_spec by done. cbn [of_option]. rewrite bind_ret. cbv zeta.
  rewrite to_int_id by (unfold INT_MIN; lia).
  by destruct (Z.ltb_spec (Z.of_nat (length (c_str buf))) buf_size); [lia|].
Qed.

(** ** Prefixes and suffixes *)

Lemma strstart_loop {S} str val p v fuel (s : S) :
  terminated (drop p str) → terminated (drop p val) → (length val - p < fuel)%nat →
  v = Z.of_nat p →
  loop fuel (λ '(p, q),
    cq ← rd val q;
    if cq =? 0 then ret (inr (Some p))
    else
      cp ← rd str p;
      if negb (cp =? cq) then ret (inr None)
      else ret (inl (p + 1, q + 1))) (v, v) s
  = (Ok (if decide (c_str (drop p val) `prefix_of` c_str (drop p str))
         then Some (Z.of_nat (p + length (c_str (drop p val)))) else None), s).
Proof.
  revert p v. induction fuel as [|fuel IH]; intros p v Hs Hv Hf ->; [lia|].
  cbn [loop]. destruct (drop p val) as [|x r] eqn:Ev; [by apply not_elem_of_nil in Hv|].
  destruct (drop p str) as [|y r'] eqn:Es; [by apply not_elem_of_nil in Hs|].
  assert (∀ l a (r : list Z), drop p l = a :: r → rd l (Z.of_nat p) s = (Ok a, s) ∧ drop (Datatypes.S p) l = r) as Hrd.
  { intros l a r0 El. split.
    - apply rd_run; [lia|]. rewrite Nat2Z.id, <-(Nat.add_0_r p), <-lookup_drop, El. done.
    - replace (Datatypes.S p) with (p + 1)%nat by lia. by rewrite <-drop_drop, El. }
  destruct (Hrd _ _ _ Ev) as [H1 E1]. destruct (Hrd _ _ _ Es) as [H2 E2].
  rewrite bind_bind. erewrite bind_run by exact H1. cbn [c_str].
  destruct (Z.eqb_spec x 0) as [->|Hx].
  { cbn. rewrite decide_True by apply prefix_nil. by rewrite Nat.add_0_r. }
  rewrite bind_bind. erewrite bind_run by exact H2.
  destruct (Z.eqb_spec y x) as [->|Hne]; cbn [negb].
  2:{ cbn. rewrite decide_False; [done|]. destruct (Z.eqb_spec y 0); [intros Hp; by apply prefix_nil_not in Hp|].
      intros ?%prefix_cons_inv_1. congruence. }
  destruct (Z.eqb_spec x 0); [done|].
  apply elem_of_cons in Hs as [?|Hs]; [congruence|]. apply elem_of_cons in Hv as [?|Hv]; [congruence|].
  rewrite bind_ret. cbn [ret].
  rewrite (IH (Datatypes.S p)); rewrite ?E1, ?E2; [|done|done| |lia].
  2:{ apply (f_equal length) in Ev. rewrite length_drop in Ev. cbn in Ev. lia. }
  f_equal. f_equal. cbn [length]. rewrite <-Nat.add_succ_comm.
  destruct (decide (c_str r `prefix_of` c_str r')) as [Hp|Hp].
  - by rewrite decide_True by (by apply prefix_cons).
  - rewrite decide_False; [done|]. by intros ?%prefix_cons_inv_2.
Qed.

Lemma strstart_run {S} str val (s : S) :
  terminated str → terminated val →
  js__strstart str val s
  = (Ok (if decide (c_str val `prefix_of` c_str str)
         then Some (Z.of_nat (length (c_str val))) else None), s).
Proof. intros Hs Hv. apply (strstart_loop str val 0 0); rewrite ?drop_0; done || lia. Qed.

Lemma has_suffix_run {S} str suffix (s : S) :
  terminated str → terminated suffix →
  js__has_suffix str suffix s = (Ok (bool_decide (c_str suffix `suffix_of` c_str str)), s).
Proof.
  intros Hs Hv. unfold js__has_suffix. rewrite !strlen_spec by done.
  cbn [of_option]. rewrite !bind_ret. unfold ret. do 2 f_equal.
  rewrite Z.geb_leb. pose proof (c_str_prefix str Hs) as Ep. pose proof (c_str_prefix suffix Hv) as Ef.
  set (a := c_str str) in *. set (b := c_str suffix) in *.
  destruct (Z.leb_spec (Z.of_nat (length b)) (Z.of_nat (length a))) as [Hl|Hl]; cbn [andb].
  2:{ symmetry. apply bool_decide_eq_false. intros Hx%suffix_length. lia. }
  apply bool_decide_ext. rewrite Nat2Z.id, Ef.
  assert (take (length b) (drop (Z.to_nat (Z.of_nat (length a) - Z.of_nat (length b))) str)
          = drop (length a - length b) a) as ->.
  { rewrite <-Ep at 3. rewrite skipn_firstn_comm. f_equal; [lia|f_equal; lia]. }
  split.
  - intros Hd. exists (take (length a - length b) a). rewrite <-(take_drop (length a - length b) a) at 1. by rewrite Hd.
  - intros [k ->]. rewrite length_app. replace (length k + length b - length b)%nat with (length k) by lia.
    by rewrite drop_app_length.
Qed.

(** A swap of the bytes in memory, whatever the order of the host. *)
Lemma inplace_swap `{Host} (n : nat) (f : Z → Z) (m : M (list Z) unit) l :
  (n ≤ length l)%nat → Forall (fits 8) l →
  (∀ v, fits (8 * Z.of_nat n) v → le_bytes n (f v) = reverse (le_bytes n v)) →
  m = (tab ← gets id; v ← load n tab; store n (f v)) →
  m l = (Ok tt, reverse (take n l) ++ drop n l).
Proof.
  intros Hn Hl Hf ->. erewrite bind_run by reflexivity. unfold id.
  erewrite bind_run by (by apply load_run). rewrite store_run by done. do 2 f_equal.
  assert (length (take n l) = n) as Ht by (rewrite length_take; lia).
  assert (∀ k, Forall (fits 8) k → length k = n → le_bytes n (f (le_value k)) = reverse k) as Hk.
  { intros k Hk <-. rewrite Hf by (by apply le_value_fits). by rewrite le_bytes_value. }
  assert (Forall (fits 8) (take n l)) as Hfit by (by apply Forall_take).
  unfold to_bytes, of_bytes. destruct big_endian.
  - rewrite Hk by (by rewrite ?Forall_reverse, ?length_reverse). by rewrite reverse_involutive.
  - by apply Hk.
Qed.
