(* ===== verification/Utf8.v ===== *)
(** * UTF-8 and UTF-16 in QuickJS

    The conversions of [src/vendors/qjs/quickjs/cutils.c] between code points,
    UTF-8 bytes, Latin-1 bytes and UTF-16 units, and the surrogates of
    [cutils.h]. A source argument is the list of what it points to; the
    destination is the state. Lengths and indices are [size_t] values that
    arrays of memory bound, so that they do not wrap. *)
From S2P Require Import Prelude CStd Words CUtils.

(** ** Surrogates *)

Definition is_surrogate (c : Z) : bool := Z.shiftr c 11 =? Z.shiftr 0xD800 11.
Definition is_hi_surrogate (c : Z) : bool := Z.shiftr c 10 =? Z.shiftr 0xD800 10.
Definition is_lo_surrogate (c : Z) : bool := Z.shiftr c 10 =? Z.shiftr 0xDC00 10.
Definition get_hi_surrogate (c : Z) : Z := u32 (Z.shiftr c 10 - Z.shiftr 0x10000 10 + 0xD800).
Definition get_lo_surrogate (c : Z) : Z := Z.lor (Z.land c 0x3FF) 0xDC00.
Definition from_surrogate (hi lo : Z) : Z :=
  u32 (65536 + 1024 * Z.land hi 1023 + Z.land lo 1023).

(** ** Code points *)

Definition utf8_encode_len (c : Z) : Z :=
  if c <? 0x80 then 1
  else if c <? 0x800 then 2
  else if c <? 0x10000 then 3
  else if c <? 0x110000 then 4
  else 3.

(** [buf] is the state. *)
Definition utf8_encode (c : Z) : M (list Z) Z :=
  if c <? 0x80 then
    wr 0 (u8 c);;
    ret 1
  else if c <? 0x800 then
    wr 0 (u8 (Z.lor (Z.shiftr c 6) 0xC0));;
    wr 1 (u8 (Z.lor (Z.land c 0x3F) 0x80));;
    ret 2
  else if c <? 0x10000 then
    wr 0 (u8 (Z.lor (Z.shiftr c 12) 0xE0));;
    wr 1 (u8 (Z.lor (Z.land (Z.shiftr c 6) 0x3F) 0x80));;
    wr 2 (u8 (Z.lor (Z.land c 0x3F) 0x80));;
    ret 3
  else if c <? 0x110000 then
    wr 0 (u8 (Z.lor (Z.shiftr c 18) 0xF0));;
    wr 1 (u8 (Z.lor (Z.land (Z.shiftr c 12) 0x3F) 0x80));;
    wr 2 (u8 (Z.lor (Z.land (Z.shiftr c 6) 0x3F) 0x80));;
    wr 3 (u8 (Z.lor (Z.land c 0x3F) 0x80));;
    ret 4
  else
    wr 0 (u8 (Z.lor (Z.shiftr 0xFFFD 12) 0xE0));;
    wr 1 (u8 (Z.lor (Z.land (Z.shiftr 0xFFFD 6) 0x3F) 0x80));;
    wr 2 (u8 (Z.lor (Z.land 0xFFFD 0x3F) 0x80));;
    ret 3.

(** [p[i] >= lower && p[i] <= upper], and the [&&] of C. *)
Definition byte_in {S} (p : list Z) (i lower upper : Z) : M S bool :=
  b ← rd p i; ret ((b >=? lower) && (b <=? upper)).
Definition andalso {S} (m k : M S bool) : M S bool := b ← m; if (b : bool) then k else ret false.

(** The code point, and the number of bytes [*pp] is past [p]. *)
Definition utf8_decode {S} (p : list Z) : M S (Z * Z) :=
  c ← rd p 0;
  if c <? 0x80 then ret (c, 1)
  else
    let invalid := ret (0xFFFD, 1) in
    let need2 lower :=
      ok ← andalso (byte_in p 1 lower 0xBF) (byte_in p 2 0x80 0xBF);
      if (ok : bool) then
        p0 ← rd p 1; p1 ← rd p 2;
        ret (Z.shiftl (c - 0xE0) 12 + Z.shiftl (p0 - 0x80) 6 + (p1 - 0x80), 3)
      else invalid in
    let need3 lower upper :=
      ok ← andalso (andalso (byte_in p 1 lower upper) (byte_in p 2 0x80 0xBF))
                   (byte_in p 3 0x80 0xBF);
      if (ok : bool) then
        p0 ← rd p 1; p1 ← rd p 2; p2 ← rd p 3;
        ret (Z.shiftl (c - 0xF0) 18 + Z.shiftl (p0 - 0x80) 12
             + Z.shiftl (p1 - 0x80) 6 + (p2 - 0x80), 4)
      else invalid in
    if (0xC2 <=? c) && (c <=? 0xDF) then
      ok ← byte_in p 1 0x80 0xBF;
      if (ok : bool) then
        p0 ← rd p 1;
        ret (Z.shiftl (c - 0xC0) 6 + (p0 - 0x80), 2)
      else invalid
    else if c =? 0xE0 then need2 0xA0
    else if (0xE1 <=? c) && (c <=? 0xEF) then need2 0x80
    else if c =? 0xF0 then need3 0x90 0xBF
    else if c =? 0xF4 then need3 0x80 0x8F
    else if (0xF1 <=? c) && (c <=? 0xF3) then need3 0x80 0xBF
    else invalid.

Definition utf8_decode_len {S} (p : list Z) (max_len : Z) : M S (Z * Z) :=
  let below limit :=
    b ← rd p 0;
    if b <? limit then utf8_decode p else ret (0xFFFD, 1) in
  if max_len =? 0 then ret (0xFFFD, 0)
  else if max_len =? 1 then below 0x80
  else if max_len =? 2 then below 0xE0
  else if max_len =? 3 then below 0xF0
  else utf8_decode p.

(** ** Scanning *)

Definition UTF8_PLAIN_ASCII : Z := 0.
Definition UTF8_NON_ASCII : Z := 1.
Definition UTF8_HAS_16BIT : Z := 2.
Definition UTF8_HAS_NON_BMP1 : Z := 4.
Definition UTF8_HAS_ERRORS : Z := 8.

(** The kind, and [*plen]. *)
Definition utf8_scan {S} (buf : list Z) (buf_len : Z) : M S (Z * Z) :=
  cbits ← loop (Datatypes.S (Z.to_nat buf_len)) (λ '(i, cbits),
    if i <? buf_len then
      b ← rd buf i;
      ret (inl (i + 1, u8 (Z.lor cbits (to_char b))))
    else ret (inr cbits)) (0, 0);
  if cbits >=? 0x80 then
    loop (Datatypes.S (Z.to_nat buf_len)) (λ '(p, len, kind),
      if p <? buf_len then
        b ← rd buf p;
        if b >=? 0x80 then
          '(c, n) ← utf8_decode_len (drop (Z.to_nat p) buf) (buf_len - p);
          let kind := if n =? 1 then Z.lor kind UTF8_HAS_ERRORS else kind in
          if c >? 0xFF then
            let kind := Z.lor kind UTF8_HAS_16BIT in
            if c >? 0xFFFF then
              ret (inl (p + n, len + 1 + 1, Z.lor kind UTF8_HAS_NON_BMP1))
            else ret (inl (p + n, len + 1, kind))
          else ret (inl (p + n, len + 1, kind))
        else ret (inl (p + 1, len + 1, kind))
      else ret (inr (kind, len))) (0, 0, UTF8_NON_ASCII)
  else ret (UTF8_PLAIN_ASCII, buf_len).

(** ** Whole buffers *)

Definition when {S} (b : bool) (m : M S unit) : M S unit := if b then m else ret tt.

Definition utf8_decode_buf8 (dest_len : Z) (src : list Z) (src_len : Z) : M (list Z) Z :=
  i ← loop (S (Z.to_nat src_len)) (λ '(p, i),
    if p <? src_len then
      c ← rd src p;
      '(c, p) ← (if c >=? 0xC0 then
                   b ← rd src (p + 1);
                   ret (u32 (Z.shiftl c 6 + b - (Z.shiftl 0xC0 6 + 0x80)), p + 2)
                 else ret (c, p + 1));
      when (i <? dest_len) (wr i (u8 c));;
      ret (inl (p, i + 1))
    else ret (inr i)) (0, 0);
  (if i <? dest_len then wr i 0
   else when (dest_len >? 0) (wr (dest_len - 1) 0));;
  ret i.

Definition utf8_decode_buf16 (dest_len : Z) (src : list Z) (src_len : Z) : M (list Z) Z :=
  loop (S (Z.to_nat src_len)) (λ '(p, i),
    if p <? src_len then
      b ← rd src p;
      if b >=? 0x80 then
        '(c, n) ← utf8_decode_len (drop (Z.to_nat p) src) (src_len - p);
        if c >? 0xFFFF then
          when (i <? dest_len) (wr i (u16 (get_hi_surrogate c)));;
          when (i + 1 <? dest_len) (wr (i + 1) (u16 (get_lo_surrogate c)));;
          ret (inl (p + n, i + 2))
        else
          when (i <? dest_len) (wr i (u16 c));;
          ret (inl (p + n, i + 1))
      else
        when (i <? dest_len) (wr i (u16 b));;
        ret (inl (p + 1, i + 1))
    else ret (inr i)) (0, 0).

Definition utf8_encode_buf8 (dest_len : Z) (src : list Z) (src_len : Z) : M (list Z) Z :=
  '(overflow, i, j) ← loop (S (Z.to_nat src_len)) (λ '(i, j),
    if i <? src_len then
      c ← rd src i;
      if c <? 0x80 then
        if j + 1 >=? dest_len then ret (inr (true, i, j))
        else wr j (u8 c);; ret (inl (i + 1, j + 1))
      else
        if j + 2 >=? dest_len then ret (inr (true, i, j))
        else
          wr j (u8 (Z.lor (Z.shiftr c 6) 0xC0));;
          wr (j + 1) (u8 (Z.lor (Z.land c 0x3F) 0x80));;
          ret (inl (i + 1, j + 2))
    else ret (inr (false, i, j))) (0, 0);
  when (j <? dest_len) (wr j 0);;
  if (overflow : bool) then
    loop (S (Z.to_nat src_len)) (λ '(i, j),
      if i <? src_len then
        b ← rd src i;
        ret (inl (i + 1, j + (1 + if b >=? 0x80 then 1 else 0)))
      else ret (inr j)) (i, j)
  else ret j.

(** The code point at [i], a pair of surrogates put together, and the index
    after it: [c = src[i++]] and the condition that follows. *)
Definition next_point {S} (src : list Z) (src_len i : Z) : M S (Z * Z) :=
  c ← rd src i;
  if c <? 0x80 then ret (c, i + 1)
  else
    pair ← andalso (ret (is_hi_surrogate c && (i + 1 <? src_len)))
             (u ← rd src (i + 1); ret (is_lo_surrogate u));
    if (pair : bool) then u ← rd src (i + 1); ret (from_surrogate c u, i + 2)
    else ret (c, i + 1).

Definition utf8_encode_buf16 (dest_len : Z) (src : list Z) (src_len : Z) : M (list Z) Z :=
  '(overflow, i, j) ← loop (S (Z.to_nat src_len)) (λ '(i, j),
    if i <? src_len then
      '(c, i) ← next_point src src_len i;
      if c <? 0x80 then
        if j + 1 >=? dest_len then ret (inr (true, i - 1, j))
        else wr j (u8 c);; ret (inl (i, j + 1))
      else
        if j + utf8_encode_len c >=? dest_len
        then ret (inr (true, i - (1 + if c >? 0xFFFF then 1 else 0), j))
        else
          n ← at_offset (Z.to_nat j) (utf8_encode c);
          ret (inl (i, j + n))
    else ret (inr (false, i, j))) (0, 0);
  when (j <? dest_len) (wr j 0);;
  if (overflow : bool) then
    loop (S (Z.to_nat src_len)) (λ '(i, j),
      if i <? src_len then
        '(c, i) ← next_point src src_len i;
        if c <? 0x80 then ret (inl (i, j + 1))
        else ret (inl (i, j + utf8_encode_len c))
      else ret (inr j)) (i, j)
  else ret j.

(** The euro sign, a pair of surrogates, and a lone one. *)
Example encode_euro :
  utf8_encode_buf16 16 [0x41; 0x20AC; 0xD83D; 0xDE00; 0xD800] 5 (replicate 16 7)
  = (Ok 11, [0x41; 0xE2; 0x82; 0xAC; 0xF0; 0x9F; 0x98; 0x80; 0xED; 0xA0; 0x80; 0; 7; 7; 7; 7]).
Proof. reflexivity. Qed.
Example encode_short :
  utf8_encode_buf16 6 [0x41; 0x20AC; 0xD83D; 0xDE00; 0xD800] 5 (replicate 8 7)
  = (Ok 11, [0x41; 0xE2; 0x82; 0xAC; 0; 7; 7; 7]).
Proof. reflexivity. Qed.
Example decode_truncated :
  utf8_decode_buf16 4 [0x41; 0xE2; 0x82] 3 [7; 7; 7; 7] = (Ok 3, [0x41; 0xFFFD; 0xFFFD; 7]).
Proof. reflexivity. Qed.
Example scan_kinds :
  utf8_scan [0x41; 0xF0; 0x9F; 0x98; 0x80; 0xFF] 6 tt = (Ok (15, 4), tt).
Proof. reflexivity. Qed.
