(* ===== verification/Utf8Facts.v ===== *)
(** * UTF-8: lemmas

    The reference encoding, the conversions of one code point, and those of whole
    buffers. *)
From S2P Require Import Prelude CStd Words CUtils Utf8.

(** * UTF-8: the reference encoding and the conversions of one code point

    [utf8_bytes] gives the bytes of a code point by divisions; [utf8_encode]
    writes them and [utf8_decode] inverts them, and returns nothing else. *)

(** What UTF-8 can encode here: surrogates included. *)
Definition code_point (c : Z) : Prop := 0 ≤ c < 0x110000.

Definition utf8_bytes (c : Z) : list Z :=
  if c <? 0x80 then [c]
  else if c <? 0x800 then [0xC0 + c / 2 ^ 6; 0x80 + c mod 2 ^ 6]
  else if c <? 0x10000 then
    [0xE0 + c / 2 ^ 12; 0x80 + (c / 2 ^ 6) mod 2 ^ 6; 0x80 + c mod 2 ^ 6]
  else
    [0xF0 + c / 2 ^ 18; 0x80 + (c / 2 ^ 12) mod 2 ^ 6;
     0x80 + (c / 2 ^ 6) mod 2 ^ 6; 0x80 + c mod 2 ^ 6].

(** The conditions of a goal decided by arithmetic. *)
Ltac div_lia := Z.div_mod_to_equations; lia.
Ltac decide_if :=
  match goal with
  | |- context [if ?b then _ else _] =>
      first [ replace b with true by div_lia | replace b with false by div_lia ]
  end.

Lemma utf8_bytes_length c : code_point c → Z.of_nat (length (utf8_bytes c)) = utf8_encode_len c.
Proof. unfold utf8_bytes, utf8_encode_len, code_point. intros. repeat case_match; cbn; lia. Qed.

Lemma utf8_bytes_fits c : code_point c → Forall (fits 8) (utf8_bytes c).
Proof.
  unfold code_point, utf8_bytes, fits. intros Hc.
  repeat case_match; repeat constructor; div_lia.
Qed.

Lemma utf8_encode_len_range c : 1 ≤ utf8_encode_len c ≤ 4.
Proof. unfold utf8_encode_len. repeat case_match; lia. Qed.

Lemma utf8_ascii c : c < 0x80 → utf8_encode_len c = 1 ∧ utf8_bytes c = [c].
Proof. intros. unfold utf8_encode_len, utf8_bytes. by destruct (Z.ltb_spec c 0x80); [|lia]. Qed.

(** The bytes as the code computes them. *)
Lemma lead_byte n x m :
  0 ≤ n → fits n x → (2 ^ n | m) → 0 ≤ m → m + x < 2 ^ 8 → u8 (Z.lor x m) = m + x.
Proof.
  intros. rewrite lor_mask with (n := n) by done. unfold fits in *.
  unfold u8. rewrite wrap_id by (unfold fits; lia). lia.
Qed.

Lemma tail_byte x : u8 (Z.lor (Z.land x 0x3F) 0x80) = 0x80 + x mod 2 ^ 6.
Proof.
  rewrite land_ones' with (n := 6) by done. pose proof (Z.mod_pos_bound x (2 ^ 6)).
  apply lead_byte with (n := 6); [lia|unfold fits; lia|by exists 2|lia|lia].
Qed.

(** Writes at literal indices. *)
Ltac wr_all :=
  repeat (erewrite bind_run by (apply wr_run; rewrite ?length_insert; cbn [length] in *; lia)).

Lemma utf8_encode_run c buf :
  code_point c → utf8_encode_len c ≤ Z.of_nat (length buf) →
  utf8_encode c buf = (Ok (utf8_encode_len c), utf8_bytes c ++ drop (length (utf8_bytes c)) buf).
Proof.
  unfold code_point, utf8_encode, utf8_encode_len, utf8_bytes. intros Hc Hl.
  destruct (Z.ltb_spec c 0x80) as [H1|H1].
  { destruct buf as [|x buf]; [cbn in Hl; lia|]. unfold u8. rewrite wrap_id by (unfold fits; lia).
    cbn. by rewrite drop_0. }
  assert (∀ n, 0 ≤ n → Z.shiftr c n = c / 2 ^ n) as Hs by (intros; by apply Z.shiftr_div_pow2).
  destruct (Z.ltb_spec c 0x800) as [H2|H2]; [|destruct (Z.ltb_spec c 0x10000) as [H3|H3]].
  - destruct buf as [|x [|y buf]]; [cbn in Hl; lia..|]. rewrite Hs, tail_byte by lia.
    rewrite (lead_byte 5) by (unfold fits; (by exists 6) || div_lia).
    wr_all. reflexivity.
  - destruct buf as [|x [|y [|z buf]]]; [cbn in Hl; lia..|]. rewrite !Hs, !tail_byte by lia.
    rewrite (lead_byte 4) by (unfold fits; (by exists 14) || div_lia).
    wr_all. reflexivity.
  - destruct (Z.ltb_spec c 0x110000); [|lia].
    destruct buf as [|x [|y [|z [|t buf]]]]; [cbn in Hl; lia..|]. rewrite !Hs, !tail_byte by lia.
    rewrite (lead_byte 3) by (unfold fits; (by exists 30) || div_lia).
    wr_all. reflexivity.
Qed.

(** ** Decoding *)

(** One step of a computation that reads literal indices and tests bytes whose
    range is known. *)
Ltac decode_step :=
  first [ progress rewrite ?bind_bind, ?bind_ret
        | match goal with
          | |- context [bind (rd ?l ?i) ?k ?s] =>
              erewrite (bind_run (rd l i) k) by reflexivity
          end
        | decide_if; cbn [andb] ].

(** What [utf8_decode] computes, on the bytes of a complete source. *)
Lemma utf8_decode_encoded {S} c r (s : S) :
  code_point c →
  utf8_decode (utf8_bytes c ++ r) s = (Ok (c, utf8_encode_len c), s).
Proof.
  unfold code_point, utf8_bytes, utf8_encode_len. intros Hc.
  destruct (Z.ltb_spec c 0x80) as [H1|H1];
    [|destruct (Z.ltb_spec c 0x800) as [H2|H2]; [|destruct (Z.ltb_spec c 0x10000) as [H3|H3]]].
  3: destruct (Z.ltb_spec c 0x1000).
  5: destruct (Z.ltb_spec c 0x40000); [|destruct (Z.ltb_spec c 0x100000)].
  all: unfold utf8_decode, andalso, byte_in; cbn [app]; repeat decode_step.
  all: unfold ret; rewrite ?Z.shiftl_mul_pow2 by lia; do 3 f_equal; div_lia.
Qed.

(** What a decoded sequence is: an error of one byte, or the encoding of the
    code point. *)
Definition decoded (p : list Z) (c n : Z) : Prop :=
  (c = 0xFFFD ∧ n = 1 ∧ 0x80 ≤ hd 0 p) ∨
  (code_point c ∧ n = utf8_encode_len c ∧ utf8_bytes c `prefix_of` p).

(** The bytes [utf8_decode] may look at after a lead byte. *)
Definition lead_len (b : Z) : Z :=
  if b <? 0xC2 then 1 else if b <? 0xE0 then 2 else if b <? 0xF0 then 3
  else if b <? 0xF5 then 4 else 1.

(** Code points put together from their bytes. *)
Lemma decoded_2 a b r :
  0xC2 ≤ a ≤ 0xDF → 0x80 ≤ b ≤ 0xBF →
  decoded (a :: b :: r) (Z.shiftl (a - 0xC0) 6 + (b - 0x80)) 2.
Proof.
  intros. rewrite Z.shiftl_mul_pow2 by lia. right. unfold code_point, utf8_encode_len, utf8_bytes.
  split; [lia|]. repeat decide_if. split; [done|]. exists r. cbn [app]. repeat f_equal; div_lia.
Qed.

Lemma decoded_3 a b d r :
  0xE0 ≤ a ≤ 0xEF → 0x80 ≤ b ≤ 0xBF → 0x80 ≤ d ≤ 0xBF → (a = 0xE0 → 0xA0 ≤ b) →
  decoded (a :: b :: d :: r)
    (Z.shiftl (a - 0xE0) 12 + Z.shiftl (b - 0x80) 6 + (d - 0x80)) 3.
Proof.
  intros. rewrite !Z.shiftl_mul_pow2 by lia. right. unfold code_point, utf8_encode_len, utf8_bytes.
  split; [lia|]. repeat decide_if. split; [done|]. exists r. cbn [app]. repeat f_equal; div_lia.
Qed.

Lemma decoded_4 a b d e r :
  0xF0 ≤ a ≤ 0xF4 → 0x80 ≤ b ≤ 0xBF → 0x80 ≤ d ≤ 0xBF → 0x80 ≤ e ≤ 0xBF →
  (a = 0xF0 → 0x90 ≤ b) → (a = 0xF4 → b ≤ 0x8F) →
  decoded (a :: b :: d :: e :: r)
    (Z.shiftl (a - 0xF0) 18 + Z.shiftl (b - 0x80) 12 + Z.shiftl (d - 0x80) 6 + (e - 0x80)) 4.
Proof.
  intros. rewrite !Z.shiftl_mul_pow2 by lia. right. unfold code_point, utf8_encode_len, utf8_bytes.
  split; [lia|]. repeat decide_if. split; [done|]. exists r. cbn [app]. repeat f_equal; div_lia.
Qed.

Lemma decoded_1 a r : 0 ≤ a < 0x80 → decoded (a :: r) a 1.
Proof.
  intros. right. unfold code_point, utf8_encode_len, utf8_bytes. split; [lia|].
  repeat decide_if. split; [done|]. by exists r.
Qed.

(** The same step, when the bytes are not known: a test is a case. *)
Ltac decode_case :=
  first
    [ progress rewrite ?bind_bind, ?bind_ret
    | match goal with
      | |- context [bind (rd ?l ?i) ?k ?s] => erewrite (bind_run (rd l i) k) by reflexivity
      end
    | match goal with
      | |- context [if ?b then _ else _] => destruct b eqn:?; try (exfalso; lia)
      end ].

Lemma utf8_decode_decoded {S} p (s : S) :
  p ≠ [] → Forall (fits 8) p → lead_len (hd 0 p) ≤ Z.of_nat (length p) →
  ∃ c n, utf8_decode p s = (Ok (c, n), s) ∧ decoded p c n ∧ n ≤ lead_len (hd 0 p).
Proof.
  intros Hne Hp Hlen. destruct p as [|a p]; [done|]. cbn [hd] in *.
  apply Forall_cons in Hp as [Ha Hp]. unfold fits in Ha. unfold lead_len in *.
  destruct (Z.ltb_spec a 0xC2); [|destruct (Z.ltb_spec a 0xE0); [|destruct (Z.ltb_spec a 0xF0);
    [|destruct (Z.ltb_spec a 0xF5)]]].
  2: destruct p as [|b p]; [cbn in Hlen; lia|].
  3: destruct p as [|b [|d p]]; [cbn in Hlen; lia..|].
  4: destruct p as [|b [|d [|e p]]]; [cbn in Hlen; lia..|].
  all: unfold utf8_decode, andalso, byte_in; cbv zeta; repeat decode_case.
  all: do 2 eexists; split; [reflexivity|]; split; [|lia].
  all: lazymatch goal with
       | |- decoded _ 65533 1 => left; cbn [hd]; lia
       | |- decoded _ _ 1 => simple apply decoded_1; lia
       | |- decoded _ _ 2 => simple apply decoded_2; lia
       | |- decoded _ _ 3 => simple apply decoded_3; lia
       | |- decoded _ _ 4 => simple apply decoded_4; lia
       end.
Qed.

(** ** Decoding with a length *)

Lemma utf8_decode_len_decoded {S} p m (s : S) :
  Forall (fits 8) p → 1 ≤ m ≤ Z.of_nat (length p) →
  ∃ c n, utf8_decode_len p m s = (Ok (c, n), s) ∧ decoded p c n ∧ 1 ≤ n ≤ m.
Proof.
  intros Hp Hm. destruct p as [|a p]; [cbn in Hm; lia|].
  assert (fits 8 a) as Ha by (by apply Forall_cons in Hp as [? _]). unfold fits in Ha.
  assert (lead_len a ≤ m → ∃ c n, utf8_decode (a :: p) s = (Ok (c, n), s) ∧ decoded (a :: p) c n ∧ 1 ≤ n ≤ m) as Hgo.
  { intros Hl. destruct (utf8_decode_decoded (a :: p) s) as (c & n & E & Hd & Hn);
      [done|done|cbn [hd] in *; lia|]. exists c, n. split_and!; [done|done| |cbn [hd] in *; lia].
    destruct Hd as [(_ & -> & _)|(_ & -> & _)]; [lia|]. pose proof (utf8_encode_len_range c). lia. }
  assert (0x80 ≤ a → ∃ c n, ret (0xFFFD, 1) s = (Ok (c, n), s) ∧ decoded (a :: p) c n ∧ 1 ≤ n ≤ m) as Hbad.
  { intros. exists 0xFFFD, 1. split_and!; [done| |lia|lia]. by left. }
  unfold utf8_decode_len. destruct (Z.eqb_spec m 0); [lia|].
  destruct (Z.eqb_spec m 1); [|destruct (Z.eqb_spec m 2); [|destruct (Z.eqb_spec m 3)]].
  4: apply Hgo; unfold lead_len; repeat case_match; lia.
  all: erewrite bind_run by reflexivity; case_match; [apply Hgo; unfold lead_len; repeat case_match; lia|].
  all: apply Hbad; lia.
Qed.

Lemma utf8_bytes_lead c :
  code_point c → ∃ a r, utf8_bytes c = a :: r ∧
    (utf8_encode_len c = 1 → a < 0x80) ∧ (utf8_encode_len c = 2 → a < 0xE0) ∧
    (utf8_encode_len c = 3 → a < 0xF0).
Proof.
  unfold code_point, utf8_bytes, utf8_encode_len. intros Hc.
  repeat case_match; (eexists _, _; split; [reflexivity|]); split_and!; try lia; intros; div_lia.
Qed.

Lemma utf8_decode_len_encoded {S} c r m (s : S) :
  code_point c → utf8_encode_len c ≤ m →
  utf8_decode_len (utf8_bytes c ++ r) m s = (Ok (c, utf8_encode_len c), s).
Proof.
  intros Hc Hm. pose proof (utf8_encode_len_range c). pose proof (utf8_decode_encoded c r s Hc) as Hd.
  destruct (utf8_bytes_lead c Hc) as (a & t & E & H1 & H2 & H3). rewrite E in *.
  unfold utf8_decode_len. cbn [app] in *. destruct (Z.eqb_spec m 0); [lia|].
  destruct (Z.eqb_spec m 1); [|destruct (Z.eqb_spec m 2); [|destruct (Z.eqb_spec m 3); [|done]]].
  all: erewrite bind_run by reflexivity; case_match; [done|lia].
Qed.

(** ** Sequences of code points *)

(** The code point at the head of a source, and its length. *)
Definition head_point (p : list Z) : Z * Z :=
  match utf8_decode_len p (Z.of_nat (length p)) tt with (Ok cn, _) => cn | _ => (0xFFFD, 1) end.

(** A computation that only reads its arguments runs alike from every state. *)
Definition same_run {S T A} (m : M S A) (m' : M T A) : Prop :=
  ∀ s t, ∃ r, m s = (r, s) ∧ m' t = (r, t).

Lemma same_ret {S T A} (a : A) : same_run (S := S) (T := T) (ret a) (ret a).
Proof. intros s t. by exists (Ok a). Qed.

Lemma same_rd {S T} l i : same_run (S := S) (T := T) (rd l i) (rd l i).
Proof. intros s t. unfold rd. case_match; [by eexists|]. by destruct (l !! _); eexists. Qed.

Lemma same_bind {S T A B} (m : M S A) (m' : M T A) (k : A → M S B) (k' : A → M T B) :
  same_run m m' → (∀ a, same_run (k a) (k' a)) → same_run (bind m k) (bind m' k').
Proof.
  intros Hm Hk s t. destruct (Hm s t) as ([a|e] & E & E').
  - destruct (Hk a s t) as (r & Er & Er'). exists r. unfold bind. by rewrite E, E'.
  - exists (Err e). unfold bind. by rewrite E, E'.
Qed.

Ltac same :=
  repeat first
    [ apply same_ret | apply same_rd | apply same_bind; [|intros ?]
    | match goal with |- same_run (if ?b then _ else _) _ => destruct b end ].

Lemma same_decode {S T} p m :
  same_run (S := S) (T := T) (utf8_decode_len p m) (utf8_decode_len p m).
Proof. unfold utf8_decode_len, utf8_decode, andalso, byte_in. cbv zeta. same. Qed.

Lemma head_point_run {S} p (s : S) :
  p ≠ [] → Forall (fits 8) p →
  utf8_decode_len p (Z.of_nat (length p)) s = (Ok (head_point p), s) ∧
  decoded p (head_point p).1 (head_point p).2 ∧
  1 ≤ (head_point p).2 ≤ Z.of_nat (length p).
Proof.
  intros Hne Hp. unfold head_point.
  destruct (utf8_decode_len_decoded p (Z.of_nat (length p)) s Hp) as (c & n & E & Hd & Hn).
  { destruct p; [done|cbn; lia]. }
  destruct (same_decode p (Z.of_nat (length p)) s tt) as (r & E1 & ->).
  rewrite E1 in E. by injection E as ->.
Qed.

Lemma head_point_encoded c r :
  code_point c → head_point (utf8_bytes c ++ r) = (c, utf8_encode_len c).
Proof.
  intros Hc. unfold head_point. rewrite utf8_decode_len_encoded; [done|done|].
  rewrite length_app, <-utf8_bytes_length by done. lia.
Qed.

Lemma head_point_ascii a r : 0 ≤ a < 0x80 → head_point (a :: r) = (a, 1).
Proof.
  intros Ha. pose proof (head_point_encoded a r) as H.
  unfold utf8_bytes, utf8_encode_len in H. destruct (Z.ltb_spec a 0x80); [|lia].
  apply H. unfold code_point. lia.
Qed.

(** The sequences of a source: each one's code point and length. *)
Fixpoint sequences_from (fuel : nat) (p : list Z) : list (Z * Z) :=
  match fuel, p with
  | S fuel, _ :: _ => head_point p :: sequences_from fuel (drop (Z.to_nat (head_point p).2) p)
  | _, _ => []
  end.
Definition sequences (p : list Z) : list (Z * Z) := sequences_from (length p) p.

Lemma sequences_from_enough fuel p :
  Forall (fits 8) p → (length p ≤ fuel)%nat → sequences_from fuel p = sequences p.
Proof.
  unfold sequences. revert p. induction fuel as [fuel IH] using lt_wf_ind. intros p Hp Hl.
  destruct p as [|a p]; [by destruct fuel|]. destruct fuel as [|fuel]; [cbn in Hl; lia|].
  cbn [sequences_from length]. f_equal.
  destruct (head_point_run (a :: p) tt ltac:(done) Hp) as (_ & _ & Hn).
  set (n := (head_point (a :: p)).2) in *.
  assert (Forall (fits 8) (drop (Z.to_nat n) (a :: p))) as Hp' by (by apply Forall_drop).
  assert (length (drop (Z.to_nat n) (a :: p)) ≤ length p)%nat as Hl'.
  { rewrite length_drop. cbn [length] in *. lia. }
  rewrite (IH fuel) by (done || cbn [length] in *; lia).
  destruct (decide (length p < S fuel)%nat); [|cbn [length] in *; lia].
  by rewrite (IH (length p)) by (done || lia).
Qed.

Lemma sequences_cons p :
  p ≠ [] → Forall (fits 8) p →
  sequences p = head_point p :: sequences (drop (Z.to_nat (head_point p).2) p).
Proof.
  intros Hne Hp. destruct p as [|a p]; [done|].
  destruct (head_point_run (a :: p) tt Hne Hp) as (_ & _ & Hn).
  unfold sequences at 1. cbn [length sequences_from]. f_equal.
  apply sequences_from_enough; [by apply Forall_drop|]. rewrite length_drop. cbn [length] in *. lia.
Qed.

Lemma sequences_app c r :
  code_point c → Forall (fits 8) r →
  sequences (utf8_bytes c ++ r) = (c, utf8_encode_len c) :: sequences r.
Proof.
  intros Hc Hr. rewrite sequences_cons.
  - rewrite head_point_encoded by done. cbn [snd]. do 2 f_equal.
    rewrite <-utf8_bytes_length, Nat2Z.id by done. apply drop_app_length.
  - destruct (utf8_bytes_lead c Hc) as (a & t & -> & _). done.
  - apply Forall_app. split; [by apply utf8_bytes_fits|done].
Qed.

(** The sequences of an encoded text. *)
Lemma sequences_encoded l :
  Forall code_point l → (sequences (l ≫= utf8_bytes)).*1 = l.
Proof.
  induction 1 as [|c l Hc Hl IH]; [done|]. rewrite bind_cons, sequences_app; [by rewrite fmap_cons, IH|done|].
  apply Forall_bind. eapply Forall_impl; [exact Hl|]. apply utf8_bytes_fits.
Qed.

(** * UTF-8: the conversions of whole buffers

    What each of [utf8_scan], [utf8_decode_buf16], [utf8_encode_buf16],
    [utf8_decode_buf8] and [utf8_encode_buf8] returns and leaves in its
    destination, for sources and destinations of every size. *)

(** ** Specifications *)

(** The UTF-16 units of a code point, and of a UTF-8 source. *)
Definition utf16_units (c : Z) : list Z :=
  if c >? 0xFFFF then [0xD800 + (c - 0x10000) / 2 ^ 10; 0xDC00 + c mod 2 ^ 10] else [c].
Definition source_units (p : list Z) : list Z := (sequences p).*1 ≫= utf16_units.

(** The code points of a sequence of UTF-16 units: a high surrogate and the low
    one after it are one code point; other surrogates stand for themselves. *)
Definition hi_surrogate (u : Z) : bool := (0xD800 <=? u) && (u <? 0xDC00).
Definition lo_surrogate (u : Z) : bool := (0xDC00 <=? u) && (u <? 0xE000).
Fixpoint utf16_points (l : list Z) : list Z :=
  match l with
  | u :: ((v :: l'') as l') =>
      if hi_surrogate u && lo_surrogate v
      then 0x10000 + (u - 0xD800) * 2 ^ 10 + (v - 0xDC00) :: utf16_points l''
      else u :: utf16_points l'
  | _ => l
  end.

(** [l] stored from index [i] on, as far as [n] allows. *)
Fixpoint store_at (n i : Z) (l : list Z) (dest : list Z) : list Z :=
  match l with
  | [] => dest
  | u :: l => store_at n (i + 1) l (if i <? n then <[Z.to_nat i := u]> dest else dest)
  end.

(** What [utf8_scan] says of a source: each sequence adds its bits. *)
Definition scan_bits (kind : Z) (cn : Z * Z) : Z :=
  let '(c, n) := cn in
  let kind := if (c >=? 0x80) && (n =? 1) then Z.lor kind UTF8_HAS_ERRORS else kind in
  let kind := if c >? 0xFF then Z.lor kind UTF8_HAS_16BIT else kind in
  if c >? 0xFFFF then Z.lor kind UTF8_HAS_NON_BMP1 else kind.
Definition scan_kind (p : list Z) : Z :=
  if forallb (λ b, b <? 0x80) p then UTF8_PLAIN_ASCII
  else foldl scan_bits UTF8_NON_ASCII (sequences p).

(** ** Units *)

Lemma when_wr n i v dest :
  0 ≤ i → n ≤ Z.of_nat (length dest) →
  when (i <? n) (wr i v) dest = (Ok tt, if i <? n then <[Z.to_nat i := v]> dest else dest).
Proof. intros Hi Hn. unfold when. destruct (Z.ltb_spec i n); [|done]. apply wr_run. lia. Qed.

Lemma store_at_length n i l dest : length (store_at n i l dest) = length dest.
Proof.
  revert i dest. induction l as [|u l IH]; intros i dest; cbn; [done|].
  rewrite IH. case_match; by rewrite ?length_insert.
Qed.

Lemma store_at_app n i l1 l2 dest :
  store_at n i (l1 ++ l2) dest = store_at n (i + Z.of_nat (length l1)) l2 (store_at n i l1 dest).
Proof.
  revert i dest. induction l1 as [|u l1 IH]; intros i dest; cbn [app store_at length].
  - by rewrite Z.add_0_r.
  - rewrite IH. f_equal. lia.
Qed.

(** What is stored: the first [n] of the list, over the head of the array. *)
Lemma store_at_spec n i l p r :
  i = Z.of_nat (length p) → 0 ≤ n ≤ Z.of_nat (length p + length r) →
  store_at n i l (p ++ r)
  = p ++ take (Z.to_nat n - length p) l
      ++ drop (length (take (Z.to_nat n - length p) l)) r.
Proof.
  revert i p r. induction l as [|u l IH]; intros i p r -> Hn; cbn [store_at].
  { rewrite take_nil. by rewrite drop_0. }
  destruct (Z.ltb_spec (Z.of_nat (length p)) n) as [Hlt|Hge].
  - destruct r as [|x r]; [cbn in Hn; lia|].
    rewrite Nat2Z.id, insert_app_r_alt, Nat.sub_diag by lia. cbn [insert list_insert].
    rewrite (cons_middle u p r), app_assoc, IH by (rewrite ?length_app; cbn [length] in *; lia).
    rewrite length_app. cbn [length].
    replace (Z.to_nat n - length p)%nat with (S (Z.to_nat n - (length p + 1))) by lia.
    cbn [take length drop]. by rewrite <-!app_assoc.
  - assert (∀ j dest, n ≤ j → store_at n j l dest = dest) as Hnone.
    { clear IH Hge Hn. induction l as [|v l IH]; intros j dest Hj; cbn; [done|].
      rewrite IH by lia. by destruct (Z.ltb_spec j n); [lia|]. }
    rewrite Hnone by lia. replace (Z.to_nat n - length p)%nat with 0%nat by lia.
    cbn. by rewrite drop_0.
Qed.

Lemma store_at_0 n l dest :
  0 ≤ n ≤ Z.of_nat (length dest) →
  store_at n 0 l dest = take (Z.to_nat n) l ++ drop (length (take (Z.to_nat n) l)) dest.
Proof.
  intros Hn. pose proof (store_at_spec n 0 l [] dest eq_refl ltac:(cbn; lia)) as Hst.
  cbn [app length] in Hst. by rewrite Nat.sub_0_r in Hst.
Qed.

Lemma hi_surrogate_spec u : 0 ≤ u → is_hi_surrogate u = hi_surrogate u.
Proof. intros. unfold is_hi_surrogate, hi_surrogate. rewrite !Z.shiftr_div_pow2 by lia. div_lia. Qed.

Lemma lo_surrogate_spec u : 0 ≤ u → is_lo_surrogate u = lo_surrogate u.
Proof. intros. unfold is_lo_surrogate, lo_surrogate. rewrite !Z.shiftr_div_pow2 by lia. div_lia. Qed.

Lemma get_surrogates c :
  0xFFFF < c < 0x110000 →
  [u16 (get_hi_surrogate c); u16 (get_lo_surrogate c)] = utf16_units c.
Proof.
  intros Hc. unfold utf16_units. destruct (c >? 0xFFFF) eqn:E; [|lia].
  unfold get_hi_surrogate, get_lo_surrogate. rewrite land_ones' with (n := 10) by done.
  rewrite !Z.shiftr_div_pow2 by lia.
  rewrite (lor_mask 10) by first [lia | apply Z.mod_pos_bound; lia | by exists 55].
  unfold u16, u32, wrap. repeat f_equal; div_lia.
Qed.

Lemma from_surrogate_spec u v :
  hi_surrogate u = true → lo_surrogate v = true →
  from_surrogate u v = 0x10000 + (u - 0xD800) * 2 ^ 10 + (v - 0xDC00).
Proof.
  unfold hi_surrogate, lo_surrogate, from_surrogate. intros Hu Hv.
  rewrite !land_ones' with (n := 10) by done. unfold u32, wrap. div_lia.
Qed.

(** ** Decoding to UTF-16 *)

Lemma head_point_range p : p ≠ [] → Forall (fits 8) p → code_point (head_point p).1.
Proof.
  intros Hne Hp. destruct (head_point_run p tt Hne Hp) as (_ & [(-> & _)|(? & _)] & _); [|done].
  done.
Qed.

Lemma source_units_cons p :
  p ≠ [] → Forall (fits 8) p →
  source_units p = utf16_units (head_point p).1 ++ source_units (drop (Z.to_nat (head_point p).2) p).
Proof. intros. unfold source_units. by rewrite sequences_cons. Qed.

Lemma drop_non_empty {A} p (l : list A) : (p < length l)%nat → drop p l ≠ [].
Proof. intros H E. apply (f_equal length) in E. rewrite length_drop in E. cbn in E. lia. Qed.

Lemma rd_hd {S} (l : list Z) p (s : S) :
  (p < length l)%nat → rd l (Z.of_nat p) s = (Ok (hd 0 (drop p l)), s).
Proof.
  intros H. apply rd_run; [lia|]. rewrite Nat2Z.id.
  destruct (lookup_lt_is_Some_2 l p H) as [v Hv]. rewrite Hv. f_equal.
  by rewrite (drop_S _ _ _ Hv).
Qed.

Lemma head_point_small p :
  p ≠ [] → Forall (fits 8) p → hd 0 p < 0x80 → head_point p = (hd 0 p, 1).
Proof.
  destruct p as [|a p]; [done|]. intros _ [Ha _]%Forall_cons Hlt. cbn [hd] in *.
  unfold fits in Ha. apply head_point_ascii. lia.
Qed.

Lemma source_units_nil : source_units [] = [].
Proof. done. Qed.

Section decode16.
Context (src : list Z) (n : Z).
Hypothesis Hsrc : Forall (fits 8) src.
#[local] Set Default Proof Using "All".

Definition decode16_body : Z * Z → M (list Z) (Z * Z + Z) := λ '(p, i),
  if p <? Z.of_nat (length src) then
    b ← rd src p;
    if b >=? 0x80 then
      '(c, k) ← utf8_decode_len (drop (Z.to_nat p) src) (Z.of_nat (length src) - p);
      if c >? 0xFFFF then
        when (i <? n) (wr i (u16 (get_hi_surrogate c)));;
        when (i + 1 <? n) (wr (i + 1) (u16 (get_lo_surrogate c)));;
        ret (inl (p + k, i + 2))
      else
        when (i <? n) (wr i (u16 c));;
        ret (inl (p + k, i + 1))
    else
      when (i <? n) (wr i (u16 b));;
      ret (inl (p + 1, i + 1))
  else ret (inr i).

(** One turn: the units of the code point at [p] are stored. *)
Lemma decode16_turn p i dest :
  (p < length src)%nat → 0 ≤ i → n ≤ Z.of_nat (length dest) →
  let c := head_point (drop p src) in
  decode16_body (Z.of_nat p, i) dest
  = (Ok (inl (Z.of_nat (p + Z.to_nat c.2), i + Z.of_nat (length (utf16_units c.1)))),
     store_at n i (utf16_units c.1) dest).
Proof.
  intros Hp Hi Hn c. unfold decode16_body. destruct (Z.ltb_spec (Z.of_nat p) (Z.of_nat (length src))); [|lia].
  erewrite bind_run by (by apply rd_hd). rewrite Nat2Z.id.
  assert (Forall (fits 8) (drop p src)) as Hq by (by apply Forall_drop).
  pose proof (drop_non_empty p src Hp) as Hne.
  pose proof (head_point_range _ Hne Hq) as Hc. fold c in Hc. unfold code_point in Hc.
  destruct (head_point_run (drop p src) dest Hne Hq) as (Hrun & _ & Hk). fold c in Hrun, Hk.
  rewrite Z.geb_leb. destruct (Z.leb_spec 0x80 (hd 0 (drop p src))) as [Hb|Hb].
  - rewrite length_drop in Hrun. rewrite Nat2Z.inj_sub in Hrun by lia.
    erewrite bind_run by exact Hrun. destruct c as [c k]. cbn [fst snd] in *.
    destruct (c >? 0xFFFF) eqn:E.
    + rewrite <-get_surrogates by lia.
      erewrite bind_run by (by apply when_wr).
      erewrite bind_run by (apply when_wr; [lia|case_match; rewrite ?length_insert; lia]).
      unfold ret. cbn [length store_at]. do 3 f_equal. f_equal; lia.
    + assert (utf16_units c = [c]) as -> by (unfold utf16_units; by rewrite E).
      unfold u16. rewrite wrap_id by (unfold fits; lia).
      erewrite bind_run by (by apply when_wr). unfold ret. cbn [length store_at]. do 3 f_equal. f_equal; lia.
  - assert (c = (hd 0 (drop p src), 1)) as Ec by (by apply head_point_small). clearbody c. subst c.
    cbn [fst snd] in *. set (b := hd 0 (drop p src)) in *.
    assert (utf16_units b = [b]) as -> by (unfold utf16_units; case_match; [lia|done]).
    unfold u16. rewrite wrap_id by (unfold fits; lia).
    erewrite bind_run by (by apply when_wr). unfold ret. cbn [length store_at]. do 3 f_equal. f_equal; lia.
Qed.

Lemma decode16_loop fuel p i dest :
  (p ≤ length src)%nat → 0 ≤ i → n ≤ Z.of_nat (length dest) → (length src - p < fuel)%nat →
  let U := source_units (drop p src) in
  loop fuel decode16_body (Z.of_nat p, i) dest
  = (Ok (i + Z.of_nat (length U)), store_at n i U dest).
Proof.
  revert p i dest. induction fuel as [|fuel IH]; intros p i dest Hp Hi Hn Hf; [lia|]. cbn [loop].
  destruct (decide (p = length src)) as [->|Hne].
  { rewrite drop_all, source_units_nil. unfold decode16_body at 1. unfold bind.
    rewrite Z.ltb_irrefl. cbn. by rewrite Z.add_0_r. }
  erewrite bind_run by (apply decode16_turn; lia).
  assert (Forall (fits 8) (drop p src)) as Hq by (by apply Forall_drop).
  pose proof (drop_non_empty p src ltac:(lia)) as Hnil.
  destruct (head_point_run (drop p src) tt Hnil Hq) as (_ & _ & Hk). rewrite length_drop in Hk.
  rewrite source_units_cons by done. rewrite drop_drop, length_app, store_at_app.
  rewrite IH by (rewrite ?store_at_length; lia). cbv zeta. do 2 f_equal. lia.
Qed.
End decode16.

Lemma utf8_decode_buf16_run n src dest :
  Forall (fits 8) src → n ≤ Z.of_nat (length dest) →
  utf8_decode_buf16 n src (Z.of_nat (length src)) dest
  = (Ok (Z.of_nat (length (source_units src))), store_at n 0 (source_units src) dest).
Proof.
  intros Hs Hn. unfold utf8_decode_buf16.
  pose proof (decode16_loop src n Hs (S (Z.to_nat (Z.of_nat (length src)))) 0 0 dest) as Hl.
  cbv zeta in Hl; rewrite drop_0, Z.add_0_l in Hl. apply Hl; lia.
Qed.

(** ** Scanning *)

Lemma high_bit x : fits 8 x → (0x80 <=? x) = Z.testbit x 7.
Proof.
  unfold fits. intros Hx. rewrite <-Z.bit0_odd with (a := Z.shiftr x 7) || rewrite Z.testbit_odd.
  rewrite Z.shiftr_div_pow2 by lia. destruct (Z.leb_spec 0x80 x).
  - assert (x / 2 ^ 7 = 1) as -> by div_lia. done.
  - assert (x / 2 ^ 7 = 0) as -> by div_lia. done.
Qed.

Lemma lor_char c b : fits 8 c → fits 8 b → u8 (Z.lor c (to_char b)) = Z.lor c b.
Proof.
  intros Hc Hb. unfold u8, wrap. rewrite <-!Z.land_ones, Z.land_lor_distr_l, !Z.land_ones by lia.
  unfold fits in *. rewrite Z.mod_small by done. f_equal.
  unfold to_char, to_signed. div_lia.
Qed.

Lemma lor_fits c b : fits 8 c → fits 8 b → fits 8 (Z.lor c b).
Proof.
  unfold fits. intros Hc Hb. rewrite <-(Z.mod_small c (2 ^ 8)), <-(Z.mod_small b (2 ^ 8)) by done.
  rewrite <-!Z.land_ones, <-Z.land_lor_distr_l, Z.land_ones by lia. apply Z.mod_pos_bound. lia.
Qed.

Section scan.
Context {T : Type} (src : list Z).
Hypothesis Hsrc : Forall (fits 8) src.
#[local] Set Default Proof Using "All".

Lemma scan_cbits fuel p cbits (s : T) :
  (p ≤ length src)%nat → (length src - p < fuel)%nat → fits 8 cbits →
  ∃ r, loop fuel (λ '(i, cbits),
    if i <? Z.of_nat (length src) then
      b ← rd src i;
      ret (inl (i + 1, u8 (Z.lor cbits (to_char b))))
    else ret (inr cbits)) (Z.of_nat p, cbits) s = (Ok r, s) ∧
  (r >=? 0x80) = (cbits >=? 0x80) || negb (forallb (λ b, b <? 0x80) (drop p src)).
Proof.
  revert p cbits. induction fuel as [|fuel IH]; intros p cbits Hp Hf Hc; [lia|]. cbn [loop].
  destruct (decide (p = length src)) as [->|Hne].
  { rewrite Z.ltb_irrefl, drop_all. eexists. split; [reflexivity|]. by rewrite orb_false_r. }
  destruct (Z.ltb_spec (Z.of_nat p) (Z.of_nat (length src))); [|lia].
  destruct (lookup_lt_is_Some_2 src p ltac:(lia)) as [b Hb].
  assert (fits 8 b) as Hfb by (by eapply Forall_lookup_1).
  rewrite bind_bind. erewrite bind_run by (apply rd_run; [lia|by rewrite Nat2Z.id]).
  rewrite bind_ret. cbn [ret]. rewrite lor_char by done.
  replace (Z.of_nat p + 1) with (Z.of_nat (S p)) by lia.
  destruct (IH (S p) (Z.lor cbits b) ltac:(lia) ltac:(lia) (lor_fits _ _ Hc Hfb)) as (r & Hr & Er).
  exists r. split; [exact Hr|]. rewrite Er, (drop_S _ _ _ Hb). cbn [forallb].
  rewrite !Z.geb_leb, !high_bit, Z.lor_spec, Z.ltb_antisym, high_bit by (done || by apply lor_fits).
  by destruct (Z.testbit cbits 7), (Z.testbit b 7).
Qed.

Definition scan_body : Z * Z * Z → M T (Z * Z * Z + Z * Z) := λ '(p, len, kind),
  if p <? Z.of_nat (length src) then
    b ← rd src p;
    if b >=? 0x80 then
      '(c, n) ← utf8_decode_len (drop (Z.to_nat p) src) (Z.of_nat (length src) - p);
      let kind := if n =? 1 then Z.lor kind UTF8_HAS_ERRORS else kind in
      if c >? 0xFF then
        let kind := Z.lor kind UTF8_HAS_16BIT in
        if c >? 0xFFFF then
          ret (inl (p + n, len + 1 + 1, Z.lor kind UTF8_HAS_NON_BMP1))
        else ret (inl (p + n, len + 1, kind))
      else ret (inl (p + n, len + 1, kind))
    else ret (inl (p + 1, len + 1, kind))
  else ret (inr (kind, len)).

Lemma head_point_high p :
  p ≠ [] → Forall (fits 8) p → 0x80 ≤ hd 0 p → 0x80 ≤ (head_point p).1.
Proof.
  intros Hne Hp Hb. destruct (head_point_run p tt Hne Hp) as (_ & [(-> & _)|(Hc & _ & r & Hr)] & _); [lia|].
  destruct (Z.ltb_spec (head_point p).1 0x80) as [Hlt|]; [|done]. rewrite Hr in Hb at 1.
  unfold utf8_bytes in Hb. destruct (Z.ltb_spec (head_point p).1 0x80); cbn in Hb; lia.
Qed.

Lemma scan_turn p len kind (s : T) :
  (p < length src)%nat →
  let c := head_point (drop p src) in
  scan_body (Z.of_nat p, len, kind) s
  = (Ok (inl (Z.of_nat (p + Z.to_nat c.2), len + Z.of_nat (length (utf16_units c.1)), scan_bits kind c)), s).
Proof.
  intros Hp c. unfold scan_body. destruct (Z.ltb_spec (Z.of_nat p) (Z.of_nat (length src))); [|lia].
  erewrite bind_run by (by apply rd_hd). rewrite Nat2Z.id.
  assert (Forall (fits 8) (drop p src)) as Hq by (by apply Forall_drop).
  pose proof (drop_non_empty p src Hp) as Hne.
  pose proof (head_point_high _ Hne Hq) as Hhigh.
  destruct (head_point_run (drop p src) s Hne Hq) as (Hrun & _ & Hk). fold c in Hrun, Hk, Hhigh.
  unfold scan_bits, utf16_units.
  rewrite Z.geb_leb. destruct (Z.leb_spec 0x80 (hd 0 (drop p src))) as [Hb|Hb].
  - rewrite length_drop in Hrun. rewrite Nat2Z.inj_sub in Hrun by lia.
    erewrite bind_run by exact Hrun. destruct c as [c k]. cbn [fst snd] in *. specialize (Hhigh Hb).
    rewrite Z.geb_leb. destruct (Z.leb_spec 0x80 c); [|lia]. cbn [andb].
    replace (Z.of_nat (p + Z.to_nat k)) with (Z.of_nat p + k) by lia.
    destruct (k =? 1), (c >? 0xFF) eqn:E1, (c >? 0xFFFF) eqn:E2; try lia; cbn [length];
      unfold ret; do 3 f_equal; f_equal; try lia. all: f_equal; lia.
  - assert (c = (hd 0 (drop p src), 1)) as Ec by (by apply head_point_small). clearbody c. subst c.
    cbn [fst snd] in *. set (b := hd 0 (drop p src)) in *.
    destruct (b >? 0xFFFF) eqn:E1; [lia|]. destruct (b >? 0xFF) eqn:E2; [lia|].
    rewrite Z.geb_leb. destruct (Z.leb_spec 0x80 b); [lia|]. cbn. unfold ret. do 3 f_equal; f_equal; try lia. all: f_equal; lia.
Qed.

Lemma scan_loop fuel p len kind (s : T) :
  (p ≤ length src)%nat → (length src - p < fuel)%nat →
  loop fuel scan_body (Z.of_nat p, len, kind) s
  = (Ok (foldl scan_bits kind (sequences (drop p src)),
         len + Z.of_nat (length (source_units (drop p src)))), s).
Proof.
  revert p len kind. induction fuel as [|fuel IH]; intros p len kind Hp Hf; [lia|]. cbn [loop].
  destruct (decide (p = length src)) as [->|Hne].
  { rewrite drop_all, source_units_nil. unfold scan_body at 1. unfold bind.
    rewrite Z.ltb_irrefl. cbn. by rewrite Z.add_0_r. }
  erewrite bind_run by (apply scan_turn; lia).
  assert (Forall (fits 8) (drop p src)) as Hq by (by apply Forall_drop).
  pose proof (drop_non_empty p src ltac:(lia)) as Hnil.
  destruct (head_point_run (drop p src) tt Hnil Hq) as (_ & _ & Hk). rewrite length_drop in Hk.
  rewrite source_units_cons, sequences_cons by done. rewrite drop_drop, length_app.
  rewrite IH by lia. cbn [foldl]. do 3 f_equal. lia.
Qed.
End scan.

(** A source of plain ASCII: a unit per byte. *)
Lemma source_units_ascii p :
  Forall (fits 8) p → forallb (λ b, b <? 0x80) p = true → source_units p = p.
Proof.
  induction 1 as [|b p Hb Hp IH]; cbn [forallb]; [done|]. intros [Hlt Hall]%andb_true_iff.
  unfold fits in Hb. rewrite source_units_cons, head_point_ascii by (done || lia || by constructor).
  cbn [fst snd]. change (drop (Z.to_nat 1) (b :: p)) with p. rewrite IH by done.
  unfold utf16_units. by destruct (b >? 0xFFFF) eqn:E; [lia|].
Qed.

Lemma utf8_scan_run {T} src (s : T) :
  Forall (fits 8) src →
  utf8_scan src (Z.of_nat (length src)) s
  = (Ok (scan_kind src, Z.of_nat (length (source_units src))), s).
Proof.
  intros Hs. unfold utf8_scan, scan_kind. rewrite Nat2Z.id.
  destruct (scan_cbits src Hs (S (length src)) 0 0 s) as (r & Hr & Er); [lia|lia|done|].
  rewrite drop_0 in Er. erewrite bind_run by exact Hr. rewrite Er. cbn [orb].
  change (0 >=? 0x80) with false. cbn [orb].
  destruct (forallb _ src) eqn:E; cbn [negb].
  - by rewrite source_units_ascii.
  - pose proof (scan_loop src Hs (S (length src)) 0 0 UTF8_NON_ASCII s) as Hl.
    rewrite drop_0, Z.add_0_l in Hl. apply Hl; lia.
Qed.
