(* ===== verification/Utf8Encode.v ===== *)
(** * UTF-8: the encoders of whole buffers

    [utf8_encode_buf16] and [utf8_encode_buf8] return the length of the whole
    encoding, and leave in the destination the longest run of complete
    encodings that fits, and its terminator. [utf8_decode_buf8] inverts the
    latter. *)
From S2P Require Import Prelude CStd Words CUtils Utf8 Utf8Facts.

(** The code points whose encodings fit in [room] bytes, a terminator aside. *)
Fixpoint fitting (room : Z) (l : list Z) : list Z :=
  match l with
  | [] => []
  | c :: l =>
      if utf8_encode_len c >=? room then []
      else c :: fitting (room - utf8_encode_len c) l
  end.

(** A terminated string in a buffer, when the buffer has room at all. *)
Definition terminated_in (dest_len : Z) (l dest : list Z) : list Z :=
  if 0 <? dest_len then l ++ 0 :: drop (S (length l)) dest else dest.

(** What the encoders leave for the code points [l]. *)
Definition encoded_in (dest_len : Z) (l dest : list Z) : list Z :=
  terminated_in dest_len (fitting dest_len l ≫= utf8_bytes) dest.

(** ** Lengths *)

Definition encoded_len (l : list Z) : Z := Z.of_nat (length (l ≫= utf8_bytes)).

Lemma encoded_len_cons c l :
  code_point c → encoded_len (c :: l) = utf8_encode_len c + encoded_len l.
Proof. intros. unfold encoded_len. rewrite bind_cons, length_app, Nat2Z.inj_add, utf8_bytes_length; done. Qed.

Lemma encoded_len_app l l' :
  encoded_len (l ++ l') = encoded_len l + encoded_len l'.
Proof. unfold encoded_len. rewrite bind_app, length_app. lia. Qed.

Lemma encoded_len_snoc l c :
  code_point c → encoded_len (l ++ [c]) = encoded_len l + utf8_encode_len c.
Proof. intros. rewrite encoded_len_app, encoded_len_cons by done. unfold encoded_len at 2. cbn. lia. Qed.

Lemma encoded_len_nonneg l : 0 ≤ encoded_len l.
Proof. unfold encoded_len. lia. Qed.

Lemma fitting_prefix room l : ∃ r, l = fitting room l ++ r.
Proof.
  revert room. induction l as [|c l IH]; intros room; cbn; [by exists []|].
  case_match; [by exists (c :: l)|]. destruct (IH (room - utf8_encode_len c)) as [r Hr].
  exists r. cbn. by f_equal.
Qed.

Lemma fitting_len room l :
  Forall code_point l → 0 < room → encoded_len (fitting room l) < room.
Proof.
  intros Hl. revert room. induction Hl as [|c l Hc Hl IH]; intros room Hr; cbn; [done|].
  rewrite Z.geb_leb. destruct (Z.leb_spec room (utf8_encode_len c)); [done|].
  rewrite encoded_len_cons by done. pose proof (IH (room - utf8_encode_len c)). lia.
Qed.

Lemma fitting_all room l :
  Forall code_point l → encoded_len l < room → fitting room l = l.
Proof.
  intros Hl. revert room. induction Hl as [|c l Hc Hl IH]; intros room Hr; cbn; [done|].
  rewrite encoded_len_cons in Hr by done. pose proof (encoded_len_nonneg l).
  rewrite Z.geb_leb. destruct (Z.leb_spec room (utf8_encode_len c)); [lia|].
  f_equal. apply IH. lia.
Qed.

(** The terminator: written if there is room for it. *)
Lemma write_terminator dest_len l r :
  0 ≤ dest_len ≤ Z.of_nat (length l + length r) →
  (0 < dest_len → Z.of_nat (length l) < dest_len) → (dest_len = 0 → l = []) →
  when (Z.of_nat (length l) <? dest_len) (wr (Z.of_nat (length l)) 0) (l ++ r)
  = (Ok tt, terminated_in dest_len l (l ++ r)).
Proof.
  intros Hn Hl H0. unfold terminated_in, when. destruct (Z.ltb_spec 0 dest_len).
  - destruct (Z.ltb_spec (Z.of_nat (length l)) dest_len); [|lia].
    destruct r as [|x r]; [cbn in Hn; lia|]. rewrite wr_app, <-app_assoc. cbn [app].
    replace (S (length l)) with (length l + 1)%nat by lia.
    rewrite <-drop_drop, drop_app_length. done.
  - rewrite H0 by lia. by destruct (Z.ltb_spec (Z.of_nat (length (@nil Z))) dest_len); [cbn in *; lia|].
Qed.

(** What the two encoders end with: the terminator, once the bytes are there. *)
Lemma encoders_end n l dest :
  Forall code_point l → 0 ≤ n ≤ Z.of_nat (length dest) →
  let b := fitting n l ≫= utf8_bytes in
  when (Z.of_nat (length b) <? n) (wr (Z.of_nat (length b)) 0) (b ++ drop (length b) dest)
  = (Ok tt, encoded_in n l dest).
Proof.
  intros Hp Hn. cbv zeta. unfold encoded_in. set (t := fitting n l).
  assert (encoded_len t < n ∨ n = 0) as Hl.
  { destruct (decide (n = 0)); [by right|left]. apply fitting_len; [done|lia]. }
  assert (n = 0 → t = []) as Hl0.
  { intros ->. unfold t. destruct l as [|c l]; [done|]. cbn.
    pose proof (utf8_encode_len_range c). by destruct (utf8_encode_len c >=? 0) eqn:E; [|lia]. }
  unfold encoded_len in Hl.
  rewrite write_terminator; [|rewrite length_drop; lia|lia|intros H%Hl0; by rewrite H].
  f_equal. unfold terminated_in. destruct (Z.ltb_spec 0 n).
  - replace (S (length (t ≫= utf8_bytes))) with (length (t ≫= utf8_bytes) + 1)%nat by lia.
    by rewrite <-!drop_drop, drop_app_length.
  - rewrite Hl0 by lia. cbn. by rewrite drop_0.
Qed.

(** ** UTF-16 *)

Lemma utf16_points_cons1 u l :
  hi_surrogate u && lo_surrogate (hd 0 l) = false → utf16_points (u :: l) = u :: utf16_points l.
Proof. destruct l as [|v l]; [done|]. cbn [hd utf16_points]. by intros ->. Qed.

Lemma next_point_run {T} src p (s : T) :
  Forall (fits 16) src → (p < length src)%nat →
  ∃ c k, next_point src (Z.of_nat (length src)) (Z.of_nat p) s = (Ok (c, Z.of_nat (p + k)), s) ∧
    utf16_points (drop p src) = c :: utf16_points (drop (p + k) src) ∧
    (p + k ≤ length src)%nat ∧ (k = if (c >? 0xFFFF)%Z then 2 else 1)%nat ∧ code_point c.
Proof.
  intros Hs Hp. unfold next_point, andalso, code_point.
  destruct (lookup_lt_is_Some_2 src p Hp) as [u Hu].
  assert (fits 16 u) as Hfu by (by eapply Forall_lookup_1). unfold fits in Hfu.
  erewrite bind_run by (apply rd_run; [lia|by rewrite Nat2Z.id]). rewrite (drop_S _ _ _ Hu).
  assert (∀ b, hi_surrogate u && lo_surrogate (hd 0 (drop (S p) src)) = false → b = false →
    ∃ c k, (if (b : bool) then v ← rd src (Z.of_nat p + 1); ret (from_surrogate u v, Z.of_nat p + 2)
            else ret (u, Z.of_nat p + 1)) s = (Ok (c, Z.of_nat (p + k)), s) ∧
    utf16_points (u :: drop (S p) src) = c :: utf16_points (drop (p + k) src) ∧
    (p + k ≤ length src)%nat ∧ (k = if (c >? 0xFFFF)%Z then 2 else 1)%nat ∧ 0 ≤ c < 0x110000) as Hone.
  { intros b Hn ->. exists u, 1%nat. split_and!; [|by rewrite utf16_points_cons1, Nat.add_1_r|lia|by destruct (u >? 0xFFFF) eqn:E; [lia|]|lia|lia].
    unfold ret. do 2 f_equal. f_equal. lia. }
  destruct (Z.ltb_spec u 0x80) as [Hlt|Hge].
  { specialize (Hone false). apply Hone; [|done]. unfold hi_surrogate. by destruct (Z.leb_spec 0xD800 u); [lia|]. }
  rewrite bind_bind, bind_ret, hi_surrogate_spec by lia.
  destruct (hi_surrogate u) eqn:Eh; cbn [andb] in *; [|rewrite bind_ret; by apply (Hone false)].
  destruct (Z.ltb_spec (Z.of_nat p + 1) (Z.of_nat (length src))) as [Hl|Hl].
  2:{ rewrite bind_ret. apply (Hone false); [|done]. by rewrite drop_ge by lia. }
  destruct (lookup_lt_is_Some_2 src (S p) ltac:(lia)) as [v Hv].
  assert (fits 16 v) as Hfv by (by eapply Forall_lookup_1). unfold fits in Hfv.
  assert (rd src (Z.of_nat p + 1) s = (Ok v, s)) as Hrd.
  { apply rd_run; [lia|]. rewrite <-Hv. f_equal. lia. }
  rewrite bind_bind. erewrite bind_run by exact Hrd. rewrite bind_ret, lo_surrogate_spec by lia.
  rewrite (drop_S _ _ _ Hv) in *. cbn [hd] in Hone.
  destruct (lo_surrogate v) eqn:El; [|by apply (Hone false)].
  erewrite bind_run by exact Hrd. rewrite from_surrogate_spec by done.
  unfold hi_surrogate, lo_surrogate in Eh, El.
  eexists _, 2%nat. split_and!.
  - unfold ret. do 2 f_equal. f_equal. lia.
  - cbn [utf16_points]. unfold hi_surrogate, lo_surrogate. rewrite Eh, El. cbn [andb].
    by replace (p + 2)%nat with (S (S p)) by lia.
  - lia.
  - by destruct (_ >? 0xFFFF) eqn:E; [|lia].
  - lia.
  - lia.
Qed.

Lemma utf16_points_range src :
  Forall (fits 16) src → Forall code_point (utf16_points src).
Proof.
  intros Hs. assert (∀ n p, (length src - p < n)%nat → Forall code_point (utf16_points (drop p src))) as H.
  { induction n as [|n IH]; intros p Hn; [lia|]. destruct (decide (p < length src)%nat).
    - destruct (next_point_run src p tt Hs) as (c & k & _ & -> & Hk & Ek & Hc); [done|].
      constructor; [done|]. apply IH. destruct (c >? 0xFFFF); lia.
    - by rewrite drop_ge by lia. }
  apply (H (S (length src)) 0%nat). lia.
Qed.

Section encode16.
Context (src : list Z) (n : Z).
Hypothesis Hsrc : Forall (fits 16) src.
#[local] Set Default Proof Using "All".

Definition encode16_body : Z * Z → M (list Z) (Z * Z + bool * Z * Z) := λ '(i, j),
  if i <? Z.of_nat (length src) then
    '(c, i) ← next_point src (Z.of_nat (length src)) i;
    if c <? 0x80 then
      if j + 1 >=? n then ret (inr (true, i - 1, j))
      else wr j (u8 c);; ret (inl (i, j + 1))
    else
      if j + utf8_encode_len c >=? n
      then ret (inr (true, i - (1 + if c >? 0xFFFF then 1 else 0), j))
      else
        k ← at_offset (Z.to_nat j) (utf8_encode c);
        ret (inl (i, j + k))
  else ret (inr (false, i, j)).

(** One turn: the code point at [p] does not fit, or its bytes are written. *)
Lemma encode16_turn p pre r :
  (p < length src)%nat → n ≤ Z.of_nat (length pre + length r) →
  ∃ c k, utf16_points (drop p src) = c :: utf16_points (drop (p + k) src) ∧ code_point c ∧
    (p + k ≤ length src)%nat ∧ (0 < k)%nat ∧
    let j := Z.of_nat (length pre) in
    encode16_body (Z.of_nat p, j) (pre ++ r) =
    if j + utf8_encode_len c >=? n then (Ok (inr (true, Z.of_nat p, j)), pre ++ r)
    else (Ok (inl (Z.of_nat (p + k), j + utf8_encode_len c)),
          (pre ++ utf8_bytes c) ++ drop (length (utf8_bytes c)) r).
Proof.
  intros Hp Hn. destruct (next_point_run src p (pre ++ r) Hsrc Hp) as (c & k & Hrun & Hpts & Hk & Ek & Hc).
  exists c, k. split_and!; [done|done|done|by destruct (c >? 0xFFFF); lia|].
  unfold encode16_body. destruct (Z.ltb_spec (Z.of_nat p) (Z.of_nat (length src))); [|lia].
  erewrite bind_run by exact Hrun.
  pose proof (utf8_bytes_length c Hc) as Hlen. unfold code_point in Hc.
  cbv zeta. rewrite !Z.geb_leb.
  destruct (Z.ltb_spec c 0x80) as [Hlt|Hge].
  - destruct (utf8_ascii c Hlt) as [E1 E2].
    rewrite E1, E2 in *. destruct (c >? 0xFFFF) eqn:E; [lia|]. subst k.
    destruct (Z.leb_spec n (Z.of_nat (length pre) + 1)).
    { unfold ret. do 3 f_equal. f_equal. f_equal. lia. }
    destruct r as [|x r]; [cbn in *; lia|]. unfold u8. rewrite wrap_id by (unfold fits; lia).
    erewrite bind_run by apply wr_app. cbn [length drop]. by rewrite drop_0.
  - destruct (Z.leb_spec n (Z.of_nat (length pre) + utf8_encode_len c)).
    { assert (Z.of_nat (p + k) - (1 + if c >? 0xFFFF then 1 else 0) = Z.of_nat p) as ->; [|done].
      destruct (c >? 0xFFFF); lia. }
    erewrite bind_run.
    2:{ unfold at_offset. rewrite Nat2Z.id, drop_app_length, take_app_length.
        rewrite utf8_encode_run by (unfold code_point; lia). reflexivity. }
    by rewrite <-app_assoc.
Qed.

Lemma encode16_loop fuel p pre r :
  (p ≤ length src)%nat → n ≤ Z.of_nat (length pre + length r) → (length src - p < fuel)%nat →
  let j := Z.of_nat (length pre) in
  let l := fitting (n - j) (utf16_points (drop p src)) in
  ∃ p' overflow, loop fuel encode16_body (Z.of_nat p, j) (pre ++ r)
    = (Ok (overflow, Z.of_nat p', j + encoded_len l),
       (pre ++ l ≫= utf8_bytes) ++ drop (length (l ≫= utf8_bytes)) r) ∧
    (p' ≤ length src)%nat ∧ utf16_points (drop p src) = l ++ utf16_points (drop p' src) ∧
    (overflow = false → p' = length src).
Proof.
  revert p pre r. induction fuel as [|fuel IH]; intros p pre r Hp Hn Hf; [lia|]. cbn [loop]. cbv zeta.
  destruct (decide (p = length src)) as [->|Hne].
  { rewrite drop_all. cbn [utf16_points fitting]. exists (length src), false.
    unfold encode16_body at 1. unfold bind at 1. rewrite Z.ltb_irrefl. cbn.
    rewrite drop_0, drop_all, Z.add_0_r, app_nil_r. done. }
  destruct (encode16_turn p pre r ltac:(lia) Hn) as (c & k & Hpts & Hc & Hk & Hk0 & Hturn).
  cbv zeta in Hturn. rewrite Hpts. cbn [fitting].
  assert ((utf8_encode_len c >=? n - Z.of_nat (length pre)) = (Z.of_nat (length pre) + utf8_encode_len c >=? n)) as -> by lia.
  destruct (Z.of_nat (length pre) + utf8_encode_len c >=? n) eqn:E.
  { erewrite bind_run by exact Hturn. exists p, true. unfold ret, encoded_len. cbn.
    rewrite drop_0, Z.add_0_r, app_nil_r. by rewrite Hpts. }
  erewrite bind_run by exact Hturn. pose proof (utf8_bytes_length c Hc) as Hlen.
  set (b := utf8_bytes c) in *.
  destruct (IH (p + k)%nat (pre ++ b) (drop (length b) r)) as (p' & o & Hrun & Hp' & Happ & Ho);
    [lia|rewrite length_app, length_drop; lia|lia|].
  replace (Z.of_nat (length (pre ++ b))) with (Z.of_nat (length pre) + utf8_encode_len c) in * by (rewrite length_app; lia).
  replace (n - Z.of_nat (length pre) - utf8_encode_len c) with (n - (Z.of_nat (length pre) + utf8_encode_len c)) by lia.
  exists p', o. split_and!; [|done|cbn; by rewrite <-Happ|done].
  rewrite Hrun. rewrite encoded_len_cons by done. rewrite bind_cons, length_app, <-drop_drop. fold b.
  rewrite <-!app_assoc. do 2 f_equal. f_equal. lia. by rewrite (drop_drop r).
Qed.

Lemma count16_loop fuel p j (s : list Z) :
  (p ≤ length src)%nat → (length src - p < fuel)%nat →
  loop fuel (λ '(i, j),
    if i <? Z.of_nat (length src) then
      '(c, i) ← next_point src (Z.of_nat (length src)) i;
      if c <? 0x80 then ret (inl (i, j + 1))
      else ret (inl (i, j + utf8_encode_len c))
    else ret (inr j)) (Z.of_nat p, j) s
  = (Ok (j + encoded_len (utf16_points (drop p src))), s).
Proof.
  revert p j. induction fuel as [|fuel IH]; intros p j Hp Hf; [lia|]. cbn [loop].
  destruct (decide (p = length src)) as [->|Hne].
  { rewrite Z.ltb_irrefl, drop_all. cbn. by rewrite Z.add_0_r. }
  destruct (next_point_run src p s Hsrc ltac:(lia)) as (c & k & Hrun & Hpts & Hk & Ek & Hc).
  destruct (Z.ltb_spec (Z.of_nat p) (Z.of_nat (length src))); [|lia].
  rewrite bind_bind. erewrite bind_run by exact Hrun. rewrite Hpts, encoded_len_cons by done.
  assert (0 < k)%nat as Hk0 by (destruct (c >? 0xFFFF); lia).
  destruct (Z.ltb_spec c 0x80) as [Hlt|].
  - destruct (utf8_ascii c Hlt) as [-> _].
    rewrite bind_ret. rewrite IH by lia. do 2 f_equal. lia.
  - rewrite bind_ret. rewrite IH by lia. do 2 f_equal. lia.
Qed.
End encode16.

Lemma utf8_encode_buf16_run n src dest :
  Forall (fits 16) src → 0 ≤ n ≤ Z.of_nat (length dest) →
  utf8_encode_buf16 n src (Z.of_nat (length src)) dest
  = (Ok (encoded_len (utf16_points src)), encoded_in n (utf16_points src) dest).
Proof.
  intros Hs Hn. pose proof (utf16_points_range src Hs) as Hp.
  destruct (encode16_loop src n Hs (S (Z.to_nat (Z.of_nat (length src)))) 0 [] dest)
    as (p' & o & Hrun & Hp' & Happ & Ho); [lia|cbn; lia|lia|].
  cbn [length app Z.of_nat] in Hrun, Happ. rewrite drop_0, Z.add_0_l, Z.sub_0_r in *.
  unfold utf8_encode_buf16. erewrite bind_run by exact Hrun. unfold encoded_len at 1.
  erewrite bind_run by (by apply encoders_end).
  assert (encoded_len (utf16_points src) = encoded_len (fitting n (utf16_points src))
    + encoded_len (utf16_points (drop p' src))) as -> by (by rewrite <-encoded_len_app, <-Happ).
  destruct o.
  - rewrite count16_loop by (done || lia). done.
  - rewrite Ho, drop_all by done. unfold ret. cbn. unfold encoded_len. cbn. by rewrite Z.add_0_r.
Qed.

(** ** Latin-1 *)

Lemma utf8_latin1 c :
  0x80 ≤ c < 0x800 →
  utf8_encode_len c = 2 ∧
  utf8_bytes c = [u8 (Z.lor (Z.shiftr c 6) 0xC0); u8 (Z.lor (Z.land c 0x3F) 0x80)].
Proof.
  intros Hc. unfold utf8_encode_len, utf8_bytes.
  destruct (Z.ltb_spec c 0x80), (Z.ltb_spec c 0x800); try lia. split; [done|].
  rewrite tail_byte, Z.shiftr_div_pow2 by lia.
  by rewrite (lead_byte 5) by (unfold fits; (by exists 6) || div_lia).
Qed.

Lemma latin1_code_points l : Forall (fits 8) l → Forall code_point l.
Proof. intros H. eapply Forall_impl; [exact H|]. unfold fits, code_point. cbn. lia. Qed.

Section encode8.
Context (src : list Z) (n : Z).
Hypothesis Hsrc : Forall (fits 8) src.
#[local] Set Default Proof Using "All".

Definition encode8_body : Z * Z → M (list Z) (Z * Z + bool * Z * Z) := λ '(i, j),
  if i <? Z.of_nat (length src) then
    c ← rd src i;
    if c <? 0x80 then
      if j + 1 >=? n then ret (inr (true, i, j))
      else wr j (u8 c);; ret (inl (i + 1, j + 1))
    else
      if j + 2 >=? n then ret (inr (true, i, j))
      else
        wr j (u8 (Z.lor (Z.shiftr c 6) 0xC0));;
        wr (j + 1) (u8 (Z.lor (Z.land c 0x3F) 0x80));;
        ret (inl (i + 1, j + 2))
  else ret (inr (false, i, j)).

Lemma encode8_turn p c pre r :
  src !! p = Some c → n ≤ Z.of_nat (length pre + length r) →
  let j := Z.of_nat (length pre) in
  encode8_body (Z.of_nat p, j) (pre ++ r) =
  if j + utf8_encode_len c >=? n then (Ok (inr (true, Z.of_nat p, j)), pre ++ r)
  else (Ok (inl (Z.of_nat (S p), j + utf8_encode_len c)),
        (pre ++ utf8_bytes c) ++ drop (length (utf8_bytes c)) r).
Proof.
  intros Hc Hn. pose proof (lookup_lt_Some _ _ _ Hc) as Hp.
  assert (fits 8 c) as Hf by (by eapply Forall_lookup_1). unfold fits in Hf.
  unfold encode8_body. destruct (Z.ltb_spec (Z.of_nat p) (Z.of_nat (length src))); [|lia].
  erewrite bind_run by (apply rd_run; [lia|by rewrite Nat2Z.id]). cbv zeta.
  replace (Z.of_nat (S p)) with (Z.of_nat p + 1) by lia.
  destruct (Z.ltb_spec c 0x80) as [Hlt|Hge].
  - destruct (utf8_ascii c Hlt) as [-> ->]. case_match eqn:E; [done|].
    destruct r as [|x r]; [cbn in Hn; lia|]. unfold u8. rewrite wrap_id by (unfold fits; lia).
    erewrite bind_run by apply wr_app. cbn [length drop]. by rewrite drop_0.
  - destruct (utf8_latin1 c) as [-> ->]; [lia|]. case_match eqn:E; [done|].
    destruct r as [|x [|y r]]; [cbn in Hn; lia..|].
    erewrite bind_run by apply wr_app.
    replace (Z.of_nat (length pre) + 1) with (Z.of_nat (length (pre ++ [u8 (Z.lor (Z.shiftr c 6) 0xC0)])))
      by (rewrite length_app; cbn; lia).
    erewrite bind_run by apply wr_app. cbn [length drop]. rewrite drop_0. by rewrite <-!app_assoc.
Qed.

Lemma encode8_loop fuel p pre r :
  (p ≤ length src)%nat → n ≤ Z.of_nat (length pre + length r) → (length src - p < fuel)%nat →
  let j := Z.of_nat (length pre) in
  let l := fitting (n - j) (drop p src) in
  ∃ p' overflow, loop fuel encode8_body (Z.of_nat p, j) (pre ++ r)
    = (Ok (overflow, Z.of_nat p', j + encoded_len l),
       (pre ++ l ≫= utf8_bytes) ++ drop (length (l ≫= utf8_bytes)) r) ∧
    (p' ≤ length src)%nat ∧ drop p src = l ++ drop p' src ∧ (overflow = false → p' = length src).
Proof.
  revert p pre r. induction fuel as [|fuel IH]; intros p pre r Hp Hn Hf; [lia|]. cbn [loop]. cbv zeta.
  destruct (decide (p = length src)) as [->|Hne].
  { rewrite drop_all. cbn [fitting]. exists (length src), false.
    unfold encode8_body at 1. unfold bind at 1. rewrite Z.ltb_irrefl. cbn.
    rewrite drop_0, drop_all, Z.add_0_r, app_nil_r. done. }
  destruct (lookup_lt_is_Some_2 src p ltac:(lia)) as [c Hc].
  assert (code_point c) as Hcp.
  { eapply Forall_lookup_1; [by apply latin1_code_points|done]. }
  pose proof (encode8_turn p c pre r Hc Hn) as Hturn. cbv zeta in Hturn.
  rewrite (drop_S _ _ _ Hc). cbn [fitting].
  assert ((utf8_encode_len c >=? n - Z.of_nat (length pre)) = (Z.of_nat (length pre) + utf8_encode_len c >=? n)) as -> by lia.
  destruct (Z.of_nat (length pre) + utf8_encode_len c >=? n) eqn:E.
  { erewrite bind_run by exact Hturn. exists p, true. unfold ret, encoded_len. cbn.
    rewrite drop_0, Z.add_0_r, app_nil_r. by rewrite (drop_S _ _ _ Hc). }
  erewrite bind_run by exact Hturn. pose proof (utf8_bytes_length c Hcp) as Hlen.
  set (b := utf8_bytes c) in *.
  destruct (IH (S p) (pre ++ b) (drop (length b) r)) as (p' & o & Hrun & Hp' & Happ & Ho);
    [lia|rewrite length_app, length_drop; lia|lia|].
  replace (Z.of_nat (length (pre ++ b))) with (Z.of_nat (length pre) + utf8_encode_len c) in * by (rewrite length_app; lia).
  replace (n - Z.of_nat (length pre) - utf8_encode_len c) with (n - (Z.of_nat (length pre) + utf8_encode_len c)) by lia.
  exists p', o. split_and!; [|done|cbn; by rewrite <-Happ|done].
  rewrite Hrun. rewrite encoded_len_cons by done. rewrite bind_cons, length_app. fold b.
  rewrite <-!app_assoc. do 2 f_equal; [f_equal; lia|]. by rewrite (drop_drop r).
Qed.

Lemma count8_loop fuel p j (s : list Z) :
  (p ≤ length src)%nat → (length src - p < fuel)%nat →
  loop fuel (λ '(i, j),
    if i <? Z.of_nat (length src) then
      b ← rd src i;
      ret (inl (i + 1, j + (1 + if b >=? 0x80 then 1 else 0)))
    else ret (inr j)) (Z.of_nat p, j) s
  = (Ok (j + encoded_len (drop p src)), s).
Proof.
  revert p j. induction fuel as [|fuel IH]; intros p j Hp Hf; [lia|]. cbn [loop].
  destruct (decide (p = length src)) as [->|Hne].
  { rewrite Z.ltb_irrefl, drop_all. cbn. by rewrite Z.add_0_r. }
  destruct (lookup_lt_is_Some_2 src p ltac:(lia)) as [c Hc].
  assert (fits 8 c) as Hf8 by (by eapply Forall_lookup_1). unfold fits in Hf8.
  destruct (Z.ltb_spec (Z.of_nat p) (Z.of_nat (length src))); [|lia].
  rewrite bind_bind. erewrite bind_run by (apply rd_run; [lia|by rewrite Nat2Z.id]).
  rewrite (drop_S _ _ _ Hc), encoded_len_cons, bind_ret by (unfold code_point; lia).
  replace (Z.of_nat p + 1) with (Z.of_nat (S p)) by lia. rewrite IH by lia. do 2 f_equal.
  destruct (c >=? 0x80) eqn:E; [destruct (utf8_latin1 c) as [-> _]|destruct (utf8_ascii c) as [-> _]]; lia.
Qed.
End encode8.

Lemma utf8_encode_buf8_run n src dest :
  Forall (fits 8) src → 0 ≤ n ≤ Z.of_nat (length dest) →
  utf8_encode_buf8 n src (Z.of_nat (length src)) dest
  = (Ok (encoded_len src), encoded_in n src dest).
Proof.
  intros Hs Hn.
  destruct (encode8_loop src n Hs (S (Z.to_nat (Z.of_nat (length src)))) 0 [] dest)
    as (p' & o & Hrun & Hp' & Happ & Ho); [lia|cbn; lia|lia|].
  cbn [length app Z.of_nat] in Hrun, Happ. rewrite drop_0, Z.add_0_l, Z.sub_0_r in *.
  unfold utf8_encode_buf8. erewrite bind_run by exact Hrun. unfold encoded_len at 1.
  erewrite bind_run by (apply encoders_end; [by apply latin1_code_points|done]).
  assert (encoded_len src = encoded_len (fitting n src) + encoded_len (drop p' src)) as ->
    by (by rewrite <-encoded_len_app, <-Happ).
  destruct o.
  - rewrite count8_loop by (done || lia). done.
  - rewrite Ho, drop_all by done. unfold ret. cbn. unfold encoded_len. cbn. by rewrite Z.add_0_r.
Qed.

(** ** Decoding to bytes *)

(** What the lead byte and the byte after it are put together to. *)
Lemma decode8_pair c :
  0x80 ≤ c < 0x800 →
  ∃ a b, utf8_bytes c = [a; b] ∧ (a >=? 0xC0) = true ∧
    u32 (Z.shiftl a 6 + b - (Z.shiftl 0xC0 6 + 0x80)) = c.
Proof.
  intros Hc. unfold utf8_bytes. destruct (Z.ltb_spec c 0x80), (Z.ltb_spec c 0x800); try lia.
  eexists _, _. split_and!; [done|div_lia|]. rewrite !Z.shiftl_mul_pow2 by lia.
  unfold u32. rewrite wrap_id by (unfold fits; div_lia). div_lia.
Qed.

Lemma decode8_loop n l1 l2 fuel dest :
  Forall (λ c, 0 ≤ c < 0x800) (l1 ++ l2) → n ≤ Z.of_nat (length dest) →
  (length (l2 ≫= utf8_bytes) < fuel)%nat →
  let src := (l1 ++ l2) ≫= utf8_bytes in
  loop fuel (λ '(p, i),
    if p <? Z.of_nat (length src) then
      c ← rd src p;
      '(c, p) ← (if c >=? 0xC0 then
                   b ← rd src (p + 1);
                   ret (u32 (Z.shiftl c 6 + b - (Z.shiftl 0xC0 6 + 0x80)), p + 2)
                 else ret (c, p + 1));
      when (i <? n) (wr i (u8 c));;
      ret (inl (p, i + 1))
    else ret (inr i)) (encoded_len l1, Z.of_nat (length l1)) dest
  = (Ok (Z.of_nat (length (l1 ++ l2))), store_at n (Z.of_nat (length l1)) (u8 <$> l2) dest).
Proof.
  cbv zeta. revert l1 dest fuel. induction l2 as [|c l2 IH]; intros l1 dest fuel Hl Hn Hf;
    (destruct fuel as [|fuel]; [lia|]); cbn [loop].
  { rewrite app_nil_r. unfold encoded_len. by rewrite Z.ltb_irrefl. }
  assert (0 ≤ c < 0x800) as Hc by (apply Forall_app in Hl as [_ [??]%Forall_cons]; done).
  assert (code_point c) as Hcp by (unfold code_point; lia).
  pose proof (utf8_bytes_length c Hcp) as Hlen. pose proof (utf8_encode_len_range c).
  specialize (IH (l1 ++ [c])). rewrite <-(assoc_L (++)) in IH. cbn [app] in IH.
  set (src := (l1 ++ c :: l2) ≫= utf8_bytes) in *.
  assert (src = (l1 ≫= utf8_bytes) ++ utf8_bytes c ++ (l2 ≫= utf8_bytes)) as Esrc.
  { unfold src. by rewrite bind_app, bind_cons. }
  destruct (Z.ltb_spec (encoded_len l1) (Z.of_nat (length src))) as [Hp|Hp].
  2:{ rewrite Esrc, !length_app in Hp. unfold encoded_len in Hp. lia. }
  rewrite encoded_len_snoc in IH by done.
  replace (Z.of_nat (length (l1 ++ [c]))) with (Z.of_nat (length l1) + 1) in IH by (rewrite length_app; cbn; lia).
  cbn [fmap list_fmap store_at].
  rewrite bind_cons, length_app in Hf.
  rewrite bind_bind.
  destruct (decide (c < 0x80)).
  - destruct (utf8_ascii c) as [E1 E2]; [done|]. rewrite E1, E2 in *.
    erewrite bind_run by (rewrite Esrc; apply rd_app; done).
    destruct (c >=? 0xC0) eqn:E; [lia|]. rewrite bind_bind, bind_ret. rewrite bind_bind.
    erewrite bind_run by (apply when_wr; lia). rewrite bind_ret. cbn [ret].
    rewrite IH; [done|done|case_match; rewrite ?length_insert; done|cbn in Hf; lia].
  - destruct (decode8_pair c) as (a & b & Eb & Ea & Ec); [lia|].
    destruct (utf8_latin1 c) as [E1 _]; [lia|]. rewrite E1, Eb in *.
    erewrite bind_run by (rewrite Esrc; apply rd_app; done). rewrite Ea, !bind_bind.
    erewrite bind_run.
    2:{ rewrite Esrc. cbn [app]. rewrite (cons_middle a), app_assoc. apply rd_app.
        rewrite length_app. unfold encoded_len. cbn. lia. }
    rewrite bind_ret, Ec, bind_bind. erewrite bind_run by (apply when_wr; lia). rewrite bind_ret. cbn [ret].
    rewrite IH; [done|done|case_match; rewrite ?length_insert; done|cbn in Hf; lia].
Qed.

(** The terminator over the character that follows a prefix. *)
Lemma terminate_at l x r dest k :
  length (l ++ x :: r) = length dest → k = Z.of_nat (length l) →
  r = drop (S (length l)) dest →
  wr k 0 (l ++ x :: r) = (Ok tt, terminated_in (k + 1) l dest).
Proof.
  intros Hl -> ->. rewrite wr_app, <-app_assoc. unfold terminated_in.
  by destruct (Z.ltb_spec 0 (Z.of_nat (length l) + 1)); [|lia].
Qed.

Lemma utf8_decode_buf8_run n l dest :
  Forall (λ c, 0 ≤ c < 0x800) l → 0 ≤ n ≤ Z.of_nat (length dest) →
  utf8_decode_buf8 n (l ≫= utf8_bytes) (encoded_len l) dest
  = (Ok (Z.of_nat (length l)), terminated_in n (take (Z.to_nat (n - 1)) (u8 <$> l)) dest).
Proof.
  intros Hl Hn. unfold utf8_decode_buf8.
  pose proof (decode8_loop n [] l (S (Z.to_nat (encoded_len l))) dest Hl ltac:(lia)) as Hloop.
  cbv zeta in Hloop. cbn [app length Z.of_nat] in Hloop.
  erewrite bind_run by (apply Hloop; unfold encoded_len; lia). clear Hloop.
  change (Z.of_nat 0) with 0. rewrite store_at_0 by done.
  set (L := u8 <$> l). assert (length L = length l) as HL by apply length_fmap. rewrite <-HL.
  destruct (Z.ltb_spec (Z.of_nat (length L)) n) as [Hlt|Hge].
  - rewrite !take_ge by lia. erewrite bind_run; [done|].
    destruct (drop (length L) dest) as [|x r] eqn:E.
    { apply (f_equal length) in E. rewrite length_drop in E. cbn in E. lia. }
    rewrite (terminate_at L x r dest _); [|apply (f_equal length) in E; rewrite length_drop in E; rewrite length_app; cbn in *; lia|done|].
    + unfold terminated_in. by destruct (Z.ltb_spec 0 (Z.of_nat (length L) + 1)), (Z.ltb_spec 0 n); try lia.
    + replace (S (length L)) with (length L + 1)%nat by lia. by rewrite <-drop_drop, E.
  - unfold when. rewrite Z.gtb_ltb. destruct (Z.ltb_spec 0 n) as [Hpos|Hz].
    + destruct (lookup_lt_is_Some_2 L (Z.to_nat (n - 1)) ltac:(lia)) as [x Hx].
      replace (Z.to_nat n) with (S (Z.to_nat (n - 1))) by lia.
      rewrite (take_S_r _ _ _ Hx), length_app, length_take, <-app_assoc. cbn [app length].
      erewrite bind_run.
      2:{ apply (terminate_at _ _ _ dest); rewrite ?length_app, ?length_take; cbn [length];
            rewrite ?length_drop; [lia|lia|f_equal; lia]. }
      by replace (n - 1 + 1) with n by lia.
    + assert (n = 0) as -> by lia. done.
Qed.

(** ** There and back *)

Lemma units_of_points src : Forall (fits 16) src → utf16_points src ≫= utf16_units = src.
Proof.
  induction src as [src IH] using (induction_ltof1 _ (@length Z)). unfold ltof in IH. intros Hs.
  destruct src as [|u src]; [done|]. apply Forall_cons in Hs as [Hu Hs]. unfold fits in Hu.
  destruct (hi_surrogate u && lo_surrogate (hd 0 src)) eqn:E.
  - destruct src as [|v src]; [by rewrite andb_comm in E|]. cbn [hd] in E. cbn [utf16_points]. rewrite E, bind_cons.
    apply Forall_cons in Hs as [_ Hs]. rewrite IH by (done || cbn; lia).
    unfold hi_surrogate, lo_surrogate in E. unfold utf16_units.
    destruct (_ >? 0xFFFF) eqn:E'; [|lia]. cbn [app]. f_equal; [div_lia|]. f_equal. div_lia.
  - rewrite utf16_points_cons1, bind_cons, IH by (done || cbn; lia).
    unfold utf16_units. by destruct (u >? 0xFFFF) eqn:E'; [lia|].
Qed.

Lemma source_units_encoded src :
  Forall (fits 16) src → source_units (utf16_points src ≫= utf8_bytes) = src.
Proof.
  intros Hs. unfold source_units. rewrite sequences_encoded by (by apply utf16_points_range).
  by apply units_of_points.
Qed.

(** The bytes of an encoding that fits. *)
Lemma encoded_in_take n l dest :
  Forall code_point l → encoded_len l < n →
  take (length (l ≫= utf8_bytes)) (encoded_in n l dest) = l ≫= utf8_bytes.
Proof.
  intros Hl Hn. unfold encoded_in, terminated_in. rewrite fitting_all by done.
  pose proof (encoded_len_nonneg l). destruct (Z.ltb_spec 0 n); [|lia]. apply take_app_length.
Qed.

Lemma encoded_bytes_fit l : Forall code_point l → Forall (fits 8) (l ≫= utf8_bytes).
Proof. intros Hl. apply Forall_bind. eapply Forall_impl; [exact Hl|]. apply utf8_bytes_fits. Qed.

Lemma terminated_in_length n l dest :
  0 ≤ n ≤ Z.of_nat (length dest) → (0 < n → Z.of_nat (length l) < n) →
  length (terminated_in n l dest) = length dest.
Proof.
  intros Hn Hl. unfold terminated_in. destruct (Z.ltb_spec 0 n); [|done].
  rewrite length_app. cbn [length]. rewrite length_drop. lia.
Qed.

(** A unit takes no more room than the bytes it comes from. *)
Lemma source_units_length p :
  Forall (fits 8) p → (length (source_units p) ≤ length p)%nat.
Proof.
  induction p as [p IH] using (induction_ltof1 _ (@length Z)). unfold ltof in IH. intros Hp.
  destruct p as [|a p]; [done|]. rewrite source_units_cons by done.
  destruct (head_point_run (a :: p) tt ltac:(done) Hp) as (_ & Hd & Hk).
  pose proof (IH (drop (Z.to_nat (head_point (a :: p)).2) (a :: p))) as Hr.
  rewrite length_drop in Hr. rewrite length_app.
  specialize (Hr ltac:(cbn [length] in *; lia) (Forall_drop _ _ _ Hp)).
  assert (Z.of_nat (length (utf16_units (head_point (a :: p)).1)) ≤ (head_point (a :: p)).2).
  { unfold utf16_units. destruct Hd as [(-> & -> & _)|(Hc & -> & _)]; [done|].
    unfold utf8_encode_len. set (c := (head_point (a :: p)).1) in *.
    destruct (c >? 0xFFFF) eqn:E; cbn [length]; repeat case_match; lia. }
  cbn [length] in *. lia.
Qed.
