(* ===== verification/CUtilsProps.v ===== *)
(** * Properties of the utilities of QuickJS

    Byte order, bounded strings, and the conversions between UTF-8 and UTF-16. *)
From S2P Require Import Prelude CStd Words CUtils Utf8 Utf8Facts Utf8Encode.

(** Whatever the byte order of the host, an integer stored by [put_u16],
    [put_u32] or [put_u64] at a place of the array that has room for it is what
    [get_u16], [get_u32] or [get_u64] reads back there, the bytes after it being
    left alone; and the signed loads read it as a two's complement value. *)
Theorem stores_load_back `{Host} (v : Z) (tab : list Z) :
  (8 ≤ length tab)%nat →
  ∃ t2 t4 t8,
    put_u16 v tab = (Ok tt, t2) ∧ put_u32 v tab = (Ok tt, t4) ∧ put_u64 v tab = (Ok tt, t8) ∧
    drop 2 t2 = drop 2 tab ∧ drop 4 t4 = drop 4 tab ∧ drop 8 t8 = drop 8 tab ∧
    get_u16 t2 tab = (Ok (u16 v), tab) ∧ get_u32 t4 tab = (Ok (u32 v), tab) ∧
    get_u64 t8 tab = (Ok (u64 v), tab) ∧
    get_i16 t2 tab = (Ok (to_signed 16 (u16 v)), tab) ∧
    get_i32 t4 tab = (Ok (to_int (u32 v)), tab) ∧
    get_i64 t8 tab = (Ok (i64 (u64 v)), tab).
Proof.
  intros Hl. unfold put_u16, put_u32, put_u64.
  assert (∀ n, (n ≤ length tab)%nat → drop n (to_bytes n v ++ drop n tab) = drop n tab) as Hd.
  { intros n Hn. by rewrite drop_app_length' by (by rewrite to_bytes_length). }
  pose proof (store_run 2 v tab ltac:(lia)) as H2. pose proof (store_run 4 v tab ltac:(lia)) as H4.
  pose proof (store_run 8 v tab ltac:(lia)) as H8.
  eexists _, _, _. split_and!; [done|done|done|apply Hd; lia|apply Hd; lia|apply Hd; lia|..].
  all: unfold get_u16, get_u32, get_u64, get_i16, get_i32, get_i64.
  all: first [erewrite load_store by done; done | erewrite bind_run by (by eapply load_store); done].
Qed.
Lemma stores_load_back_witness :
  (8 ≤ length (replicate 9 7))%nat ∧
  ∃ t2 t4 t8,
    put_u16 (H := big_host) (-2) (replicate 9 7) = (Ok tt, t2) ∧
    put_u32 (H := big_host) (-2) (replicate 9 7) = (Ok tt, t4) ∧
    put_u64 (H := big_host) (-2) (replicate 9 7) = (Ok tt, t8) ∧
    drop 2 t2 = replicate 7 7 ∧ drop 4 t4 = replicate 5 7 ∧ drop 8 t8 = [7] ∧
    get_u16 (H := big_host) t2 (replicate 9 7) = (Ok 0xFFFE, replicate 9 7) ∧
    get_u32 (H := big_host) t4 (replicate 9 7) = (Ok 0xFFFFFFFE, replicate 9 7) ∧
    get_u64 (H := big_host) t8 (replicate 9 7) = (Ok 0xFFFFFFFFFFFFFFFE, replicate 9 7) ∧
    get_i16 (H := big_host) t2 (replicate 9 7) = (Ok (-2), replicate 9 7) ∧
    get_i32 (H := big_host) t4 (replicate 9 7) = (Ok (-2), replicate 9 7) ∧
    get_i64 (H := big_host) t8 (replicate 9 7) = (Ok (-2), replicate 9 7).
Proof.
  split; [cbn; lia|]. exact (stores_load_back (H := big_host) (-2) (replicate 9 7) ltac:(cbn; lia)).
Defined.

(** The masks and shifts of [bswap16], [bswap32] and [bswap64] reverse the
    bytes of their argument, so that the in-place swaps reverse the bytes in
    memory on hosts of both byte orders. *)
Theorem byte_swaps_reverse `{Host} (v : Z) (l : list Z) :
  fits 16 v → Forall (fits 8) l → (4 ≤ length l)%nat →
  le_bytes 2 (bswap16 v) = reverse (le_bytes 2 v) ∧
  (∀ w, le_bytes 4 (bswap32 w) = reverse (le_bytes 4 w)) ∧
  (∀ w, le_bytes 8 (bswap64 w) = reverse (le_bytes 8 w)) ∧
  inplace_bswap16 l = (Ok tt, reverse (take 2 l) ++ drop 2 l) ∧
  inplace_bswap32 l = (Ok tt, reverse (take 4 l) ++ drop 4 l).
Proof.
  intros Hv Hl Hlen.
  assert (∀ w, fits 16 w → le_bytes 2 (bswap16 w) = reverse (le_bytes 2 w)) as H16.
  { intros w Hw. by rewrite bswap16_bytes, reversed_bytes. }
  assert (∀ w, le_bytes 4 (bswap32 w) = reverse (le_bytes 4 w)) as H32.
  { intros w. by rewrite bswap32_bytes, reversed_bytes. }
  assert (∀ w, le_bytes 8 (bswap64 w) = reverse (le_bytes 8 w)) as H64.
  { intros w. by rewrite bswap64_bytes, reversed_bytes. }
  split_and!; [by apply H16|done|done|..].
  - apply inplace_swap with (f := bswap16); [lia|done|exact H16|done].
  - apply inplace_swap with (f := bswap32); [lia|done|intros ? _; apply H32|done].
Qed.
Lemma byte_swaps_reverse_witness :
  fits 16 0x1234 ∧ Forall (fits 8) [1; 2; 3; 4; 5] ∧ (4 ≤ 5)%nat ∧
  le_bytes 2 (bswap16 0x1234) = [0x12; 0x34] ∧
  (∀ w, le_bytes 4 (bswap32 w) = reverse (le_bytes 4 w)) ∧
  (∀ w, le_bytes 8 (bswap64 w) = reverse (le_bytes 8 w)) ∧
  inplace_bswap16 (H := big_host) [1; 2; 3; 4; 5] = (Ok tt, [2; 1; 3; 4; 5]) ∧
  inplace_bswap32 (H := big_host) [1; 2; 3; 4; 5] = (Ok tt, [4; 3; 2; 1; 5]).
Proof.
  assert (fits 16 0x1234) as Hv by (unfold fits; lia).
  assert (Forall (fits 8) [1; 2; 3; 4; 5]) as Hl by (repeat constructor; lia).
  split; [exact Hv|]. split; [exact Hl|]. split; [lia|].
  exact (byte_swaps_reverse (H := big_host) 0x1234 [1; 2; 3; 4; 5] Hv Hl ltac:(cbn; lia)).
Defined.

(** [js__pstrcpy] and [js__pstrcat] on buffers of at least [buf_size] bytes:
    the copy, or the catenation, cut to [buf_size - 1] characters, terminated,
    nothing after the terminator being written; a string that fills [buf_size]
    already is left alone. [js__strstart] and [js__has_suffix] decide whether a
    C string starts or ends another. *)
Theorem bounded_strings (buf_size : Z) (str buf : list Z) :
  terminated str → terminated buf → 0 < buf_size ≤ Z.of_nat (length buf) → buf_size ≤ INT_MAX →
  Z.of_nat (length (c_str buf)) ≤ INT_MAX →
  js__pstrcpy buf_size str buf = (Ok tt, truncated buf_size (c_str str) buf) ∧
  js__pstrcat buf_size str buf
    = (Ok tt, if Z.of_nat (length (c_str buf)) <? buf_size
              then truncated buf_size (c_str buf ++ c_str str) buf else buf) ∧
  js__strstart buf str tt
    = (Ok (if decide (c_str str `prefix_of` c_str buf)
           then Some (Z.of_nat (length (c_str str))) else None), tt) ∧
  js__has_suffix buf str tt = (Ok (bool_decide (c_str str `suffix_of` c_str buf)), tt).
Proof.
  intros Hs Hb Hn Hmax Hlen. split_and!.
  - by apply pstrcpy_run.
  - destruct (Z.ltb_spec (Z.of_nat (length (c_str buf))) buf_size); [by apply pstrcat_run|].
    by apply pstrcat_full.
  - by apply strstart_run.
  - by apply has_suffix_run.
Qed.
Lemma bounded_strings_witness :
  let ab := chars "ab" ++ [0] in let cab := chars "cab" ++ [0; 9; 9] in
  terminated ab ∧ terminated cab ∧ 0 < 5 ≤ 6 ∧ 5 ≤ INT_MAX ∧ 3 ≤ INT_MAX ∧
  js__pstrcpy 5 ab cab = (Ok tt, chars "ab" ++ [0; 0; 9; 9]) ∧
  js__pstrcat 5 ab cab = (Ok tt, chars "caba" ++ [0; 9]) ∧
  js__strstart cab ab tt = (Ok None, tt) ∧ js__has_suffix cab ab tt = (Ok true, tt).
Proof.
  intros ab cab.
  assert (terminated ab) as Ha by (vm_compute; repeat constructor).
  assert (terminated cab) as Hc by (vm_compute; repeat constructor).
  split; [exact Ha|]. split; [exact Hc|]. split; [lia|]. split; [by vm_compute|]. split; [by vm_compute|].
  exact (bounded_strings 5 ab cab Ha Hc ltac:(cbn; lia) ltac:(by vm_compute) ltac:(by vm_compute)).
Defined.

(** C37: [utf8_encode] and [utf8_decode] are inverse on the code points up to
    0x10FFFF, surrogates included: the bytes written decode to the code point,
    all of them being consumed, and nothing else is consumed. *)
Theorem utf8_point_round_trip (c : Z) (buf r : list Z) :
  code_point c → (4 ≤ length buf)%nat →
  ∃ n buf', utf8_encode c buf = (Ok n, buf') ∧ n = utf8_encode_len c ∧
    drop (Z.to_nat n) buf' = drop (Z.to_nat n) buf ∧
    utf8_decode buf' tt = (Ok (c, n), tt) ∧
    utf8_decode (take (Z.to_nat n) buf' ++ r) tt = (Ok (c, n), tt).
Proof.
  intros Hc Hl. pose proof (utf8_encode_len_range c). pose proof (utf8_bytes_length c Hc) as Hlen.
  eexists _, _. split; [by apply utf8_encode_run; [|lia]|]. split; [done|].
  rewrite <-Hlen, Nat2Z.id, drop_app_length, take_app_length. split; [done|]. rewrite Hlen.
  split; by apply utf8_decode_encoded.
Qed.
Lemma utf8_point_round_trip_witness :
  code_point 0x1F600 ∧ (4 ≤ 5)%nat ∧
  ∃ n buf', utf8_encode 0x1F600 [7; 7; 7; 7; 7] = (Ok n, buf') ∧ n = 4 ∧
    drop (Z.to_nat n) buf' = drop (Z.to_nat n) [7; 7; 7; 7; 7] ∧
    utf8_decode buf' tt = (Ok (0x1F600, n), tt) ∧
    utf8_decode (take (Z.to_nat n) buf' ++ [0x80]) tt = (Ok (0x1F600, n), tt).
Proof.
  assert (code_point 0x1F600) as Hc by (unfold code_point; lia). split; [exact Hc|]. split; [lia|].
  exact (utf8_point_round_trip 0x1F600 [7; 7; 7; 7; 7] [0x80] Hc ltac:(cbn; lia)).
Defined.

(** A sequence that [utf8_decode_len] accepts is the UTF-8 encoding of the
    code point it returns, whole and within the length it is given; anything
    else is an error of one byte. So no overlong sequence, no code point past
    0x10FFFF and no truncated sequence is accepted, and no encoding refused. *)
Theorem utf8_decode_len_exact (p : list Z) (m : Z) :
  Forall (fits 8) p → 1 ≤ m ≤ Z.of_nat (length p) →
  ∃ c n, utf8_decode_len p m tt = (Ok (c, n), tt) ∧ 1 ≤ n ≤ m ∧
    ((code_point c ∧ n = utf8_encode_len c ∧ utf8_bytes c `prefix_of` p) ∨
     (c = 0xFFFD ∧ n = 1 ∧
      ∀ c', code_point c' → utf8_encode_len c' ≤ m → ¬ utf8_bytes c' `prefix_of` p)).
Proof.
  intros Hp Hm. destruct (utf8_decode_len_decoded p m tt Hp Hm) as (c & n & E & Hd & Hn).
  exists c, n. split; [done|]. split; [done|]. destruct Hd as [(-> & -> & Hb)|?]; [right|by left].
  split_and!; [done..|]. intros c' Hc' Hl [r Hr]. rewrite Hr in E.
  rewrite utf8_decode_len_encoded in E by done. injection E as -> E2. by rewrite E2 in *.
Qed.
Lemma utf8_decode_len_exact_witness :
  Forall (fits 8) [0xE2; 0x82; 0xAC; 0x41] ∧ 1 ≤ 3 ≤ 4 ∧
  ∃ c n, utf8_decode_len [0xE2; 0x82; 0xAC; 0x41] 3 tt = (Ok (c, n), tt) ∧ 1 ≤ n ≤ 3 ∧
    ((code_point c ∧ n = utf8_encode_len c ∧ utf8_bytes c `prefix_of` [0xE2; 0x82; 0xAC; 0x41]) ∨
     (c = 0xFFFD ∧ n = 1 ∧
      ∀ c', code_point c' → utf8_encode_len c' ≤ 3 →
            ¬ utf8_bytes c' `prefix_of` [0xE2; 0x82; 0xAC; 0x41])).
Proof.
  assert (Forall (fits 8) [0xE2; 0x82; 0xAC; 0x41]) as Hp by (repeat constructor; lia).
  split; [exact Hp|]. split; [lia|]. exact (utf8_decode_len_exact _ 3 Hp ltac:(cbn; lia)).
Defined.

(** C38: every string of UTF-16 units, lone surrogates included, survives the
    way to UTF-8 and back: [utf8_encode_buf16] into a large enough buffer, then
    [utf8_decode_buf16], and [utf8_scan] announces the number of units. *)
Theorem utf16_round_trip (n n' : Z) (src dest dest' : list Z) :
  Forall (fits 16) src →
  encoded_len (utf16_points src) < n ≤ Z.of_nat (length dest) →
  Z.of_nat (length src) ≤ n' ≤ Z.of_nat (length dest') →
  ∃ k dest1 kind,
    utf8_encode_buf16 n src (Z.of_nat (length src)) dest = (Ok k, dest1) ∧
    utf8_scan (take (Z.to_nat k) dest1) k tt = (Ok (kind, Z.of_nat (length src)), tt) ∧
    utf8_decode_buf16 n' (take (Z.to_nat k) dest1) k dest'
      = (Ok (Z.of_nat (length src)), src ++ drop (length src) dest').
Proof.
  intros Hs Hn Hn'. pose proof (utf16_points_range src Hs) as Hp.
  pose proof (encoded_len_nonneg (utf16_points src)).
  eexists _, _, _. split; [apply utf8_encode_buf16_run; [done|lia]|].
  unfold encoded_len at 1 3. rewrite Nat2Z.id, encoded_in_take by (done || lia).
  pose proof (encoded_bytes_fit _ Hp) as Hb. split.
  - unfold encoded_len. rewrite utf8_scan_run by done. by rewrite source_units_encoded.
  - unfold encoded_len. rewrite utf8_decode_buf16_run by (done || lia).
    rewrite source_units_encoded by done. f_equal.
    rewrite store_at_0 by lia. by rewrite take_ge by lia.
Qed.
Lemma utf16_round_trip_witness :
  let src := [0x41; 0xD83D; 0xDE00; 0xDC00; 0xD800] in
  Forall (fits 16) src ∧ 11 < 12 ≤ 12 ∧ 5 ≤ 6 ≤ 6 ∧
  ∃ k dest1 kind,
    utf8_encode_buf16 12 src 5 (replicate 12 7) = (Ok k, dest1) ∧
    utf8_scan (take (Z.to_nat k) dest1) k tt = (Ok (kind, 5), tt) ∧
    utf8_decode_buf16 6 (take (Z.to_nat k) dest1) k (replicate 6 7) = (Ok 5, src ++ [7]).
Proof.
  intros src. assert (Forall (fits 16) src) as Hs by (repeat constructor; lia).
  split; [exact Hs|]. split; [lia|]. split; [lia|].
  exact (utf16_round_trip 12 6 src (replicate 12 7) (replicate 6 7) Hs
    ltac:(vm_compute; split; done) ltac:(cbn; lia)).
Defined.

(** C39: on every sequence of bytes, valid or not, [utf8_scan] announces exactly
    the number of units [utf8_decode_buf16] produces, which is at most the
    number of bytes; the decoder stays in its source and, whatever the length
    of the destination, stores there the first units that fit and nothing
    else. *)
Theorem scan_announces_decode (n : Z) (src dest : list Z) :
  Forall (fits 8) src → 0 ≤ n ≤ Z.of_nat (length dest) →
  ∃ k kind dest',
    utf8_scan src (Z.of_nat (length src)) tt = (Ok (kind, k), tt) ∧ kind = scan_kind src ∧
    utf8_decode_buf16 n src (Z.of_nat (length src)) dest = (Ok k, dest') ∧
    0 ≤ k ≤ Z.of_nat (length src) ∧
    let stored := take (Z.to_nat n) (source_units src) in
    k = Z.of_nat (length (source_units src)) ∧ dest' = stored ++ drop (length stored) dest.
Proof.
  intros Hs Hn. eexists _, _, _. split; [by apply utf8_scan_run|]. split; [done|].
  split; [apply utf8_decode_buf16_run; [done|lia]|].
  pose proof (source_units_length src Hs). split; [lia|]. split; [done|].
  by apply store_at_0.
Qed.
Lemma scan_announces_decode_witness :
  let src := [0xFF; 0x41; 0xF0; 0x9F; 0x98; 0x80; 0xE2; 0x82] in
  Forall (fits 8) src ∧ 0 ≤ 3 ≤ 4 ∧
  ∃ k kind dest',
    utf8_scan src 8 tt = (Ok (kind, k), tt) ∧ kind = scan_kind src ∧
    utf8_decode_buf16 3 src 8 [7; 7; 7; 7] = (Ok k, dest') ∧ 0 ≤ k ≤ 8 ∧
    let stored := take 3 (source_units src) in
    k = Z.of_nat (length (source_units src)) ∧ dest' = stored ++ drop (length stored) [7; 7; 7; 7].
Proof.
  intros src. assert (Forall (fits 8) src) as Hs by (repeat constructor; lia).
  split; [exact Hs|]. split; [lia|].
  exact (scan_announces_decode 3 src [7; 7; 7; 7] Hs ltac:(cbn; lia)).
Defined.

(** C40: whatever the room in the destination, the two encoders return the length
    of the complete encoding, and leave there the encodings of as many whole
    code points as fit with a terminator, and the terminator; the rest of the
    array is left alone. [utf8_decode_buf8] gives the bytes of a Latin-1 text
    back from its encoding. *)
Theorem encoders_truncate (n n' : Z) (src8 src16 dest dest' : list Z) :
  Forall (fits 8) src8 → Forall (fits 16) src16 →
  0 ≤ n ≤ Z.of_nat (length dest) → Z.of_nat (length src8) < n' ≤ Z.of_nat (length dest') →
  utf8_encode_buf8 n src8 (Z.of_nat (length src8)) dest
    = (Ok (encoded_len src8), encoded_in n src8 dest) ∧
  utf8_encode_buf16 n src16 (Z.of_nat (length src16)) dest
    = (Ok (encoded_len (utf16_points src16)), encoded_in n (utf16_points src16) dest) ∧
  (0 < n → encoded_len (fitting n (utf16_points src16)) < n) ∧
  (encoded_len (utf16_points src16) < n → fitting n (utf16_points src16) = utf16_points src16) ∧
  utf8_decode_buf8 n' (src8 ≫= utf8_bytes) (encoded_len src8) dest'
    = (Ok (Z.of_nat (length src8)), src8 ++ 0 :: drop (S (length src8)) dest').
Proof.
  intros H8 H16 Hn Hn'. pose proof (utf16_points_range _ H16). split_and!.
  - by apply utf8_encode_buf8_run.
  - by apply utf8_encode_buf16_run.
  - by apply fitting_len.
  - by apply fitting_all.
  - rewrite utf8_decode_buf8_run; [|eapply Forall_impl; [exact H8|]; unfold fits; cbn; lia|lia].
    assert (u8 <$> src8 = src8) as ->.
    { apply fmap_all_id. intros x Hx. apply wrap_id. by eapply Forall_forall in H8. }
    rewrite take_ge by lia. unfold terminated_in. by destruct (Z.ltb_spec 0 n'); [|lia].
Qed.
Lemma encoders_truncate_witness :
  let src8 := [0x41; 0xE9; 0xE9] in let src16 := [0x41; 0x20AC; 0x20AC] in
  Forall (fits 8) src8 ∧ Forall (fits 16) src16 ∧ 0 ≤ 5 ≤ 6 ∧ 3 < 4 ≤ 6 ∧
  utf8_encode_buf8 5 src8 3 (replicate 6 7) = (Ok 5, [0x41; 0xC3; 0xA9; 0; 7; 7]) ∧
  utf8_encode_buf16 5 src16 3 (replicate 6 7) = (Ok 7, [0x41; 0xE2; 0x82; 0xAC; 0; 7]) ∧
  (0 < 5 → encoded_len (fitting 5 (utf16_points src16)) < 5) ∧
  (encoded_len (utf16_points src16) < 5 → fitting 5 (utf16_points src16) = utf16_points src16) ∧
  utf8_decode_buf8 4 [0x41; 0xC3; 0xA9; 0xC3; 0xA9] 5 (replicate 6 7) = (Ok 3, src8 ++ [0; 7; 7]).
Proof.
  intros src8 src16. assert (Forall (fits 8) src8) as H8 by (repeat constructor; lia).
  assert (Forall (fits 16) src16) as H16 by (repeat constructor; lia).
  split; [exact H8|]. split; [exact H16|]. split; [lia|]. split; [lia|].
  exact (encoders_truncate 5 4 src8 src16 (replicate 6 7) (replicate 6 7) H8 H16
    ltac:(cbn; lia) ltac:(cbn; lia)).
Defined.
