(* ===== verification/BigIntMp.v ===== *)
(** * The limb arithmetic of QuickJS's big integers

    The [js_mp_*] routines of [src/vendors/qjs/quickjs/quickjs.c]: natural numbers
    as arrays of 32-bit limbs, the low one first. A routine that goes through
    arrays index by index, reading an index of its operands before it writes that
    index of its result, is a function of the limbs read that returns the limbs
    written, so that a call in place and a call into another array are the same
    one. The routines that work on a part of an array after another
    ([js_mp_mul_basecase], [js_mp_divnorm]) have the array as their state, every
    access being checked against its bounds. *)
From S2P Require Import Prelude CStd Words CUtils.

Definition JS_LIMB_BITS : Z := 32.
Definition UDIV1NORM_THRESHOLD : Z := 3.

(** ** One limb at a time *)

Definition b2l (b : bool) : Z := if b then 1 else 0.

(** The limb and [carry_out]. *)
Definition ADDC (op1 op2 carry_in : Z) : Z * Z :=
  let v := op1 in
  let a := u32 (v + op2) in
  let k1 := b2l (a <? v) in
  let k := carry_in in
  let a := u32 (a + k) in
  (a, Z.lor (b2l (a <? k)) k1).

Definition js_limb_clz {S} (a : Z) : M S Z :=
  if a =? 0 then ret JS_LIMB_BITS else clz32 a.

Fixpoint js_mp_add (op1 op2 : list Z) (carry : Z) : list Z * Z :=
  match op1, op2 with
  | a :: op1, b :: op2 =>
      let '(r, carry) := ADDC a b carry in
      let '(res, carry) := js_mp_add op1 op2 carry in (r :: res, carry)
  | _, _ => ([], carry)
  end.

Fixpoint js_mp_sub (op1 op2 : list Z) (k : Z) : list Z * Z :=
  match op1, op2 with
  | v :: op1, b :: op2 =>
      let a := u32 (v - b) in
      let k1 := b2l (a >? v) in
      let v := u32 (a - k) in
      let k := Z.lor (b2l (v >? a)) k1 in
      let '(res, k) := js_mp_sub op1 op2 k in (v :: res, k)
  | _, _ => ([], k)
  end.

(** The loop of [js_mp_neg], from the carry on. *)
Fixpoint mp_neg_from (op2 : list Z) (carry : Z) : list Z * Z :=
  match op2 with
  | b :: op2 =>
      let v := u32 (u32 (Z.lnot b) + carry) in
      let carry := b2l (v <? carry) in
      let '(res, carry) := mp_neg_from op2 carry in (v :: res, carry)
  | [] => ([], carry)
  end.
Definition js_mp_neg (op2 : list Z) : list Z * Z := mp_neg_from op2 1.

Fixpoint js_mp_mul1 (taba : list Z) (b l : Z) : list Z * Z :=
  match taba with
  | a :: taba =>
      let t := u64 (a * b + l) in
      let '(tabr, l) := js_mp_mul1 taba b (u32 (Z.shiftr t JS_LIMB_BITS)) in
      (u32 t :: tabr, l)
  | [] => ([], l)
  end.

(** From the high limb down: the remainder of the limbs above is [r]. *)
Fixpoint js_mp_div1 (taba : list Z) (b r : Z) : list Z * Z :=
  match taba with
  | a :: taba =>
      let '(tabr, r) := js_mp_div1 taba b r in
      let a1 := Z.lor (u64 (Z.shiftl r JS_LIMB_BITS)) a in
      (u32 (a1 / b) :: tabr, u32 (a1 mod b))
  | [] => ([], r)
  end.

(** The loop of [js_mp_add_mul1], from the carry [l] on. *)
Fixpoint mp_add_mul1_from (tabr taba : list Z) (b l : Z) : list Z * Z :=
  match tabr, taba with
  | r :: tabr, a :: taba =>
      let t := u64 (a * b + l + r) in
      let '(tabr, l) := mp_add_mul1_from tabr taba b (u32 (Z.shiftr t JS_LIMB_BITS)) in
      (u32 t :: tabr, l)
  | _, _ => ([], l)
  end.
Definition js_mp_add_mul1 (tabr taba : list Z) (b : Z) : list Z * Z :=
  mp_add_mul1_from tabr taba b 0.

Fixpoint mp_sub_mul1_from (tabr taba : list Z) (b l : Z) : list Z * Z :=
  match tabr, taba with
  | r :: tabr, a :: taba =>
      let t := u64 (r - a * b - l) in
      let '(tabr, l) := mp_sub_mul1_from tabr taba b (u32 (- Z.shiftr t JS_LIMB_BITS)) in
      (u32 t :: tabr, l)
  | _, _ => ([], l)
  end.
Definition js_mp_sub_mul1 (tabr taba : list Z) (b : Z) : list Z * Z :=
  mp_sub_mul1_from tabr taba b 0.

Fixpoint mp_shl_from (taba : list Z) (shift l : Z) : list Z * Z :=
  match taba with
  | v :: taba =>
      let r := Z.lor (u32 (Z.shiftl v shift)) l in
      let '(tabr, l) := mp_shl_from taba shift (Z.shiftr v (JS_LIMB_BITS - shift)) in
      (r :: tabr, l)
  | [] => ([], l)
  end.
Definition js_mp_shl (taba : list Z) (shift : Z) : list Z * Z := mp_shl_from taba shift 0.

(** From the high limb down: [l] is the limb above. *)
Fixpoint mp_shr_from (tab : list Z) (shift high : Z) : list Z * Z :=
  match tab with
  | a :: tab =>
      let '(tab_r, l) := mp_shr_from tab shift high in
      (Z.lor (Z.shiftr a shift) (u32 (Z.shiftl l (JS_LIMB_BITS - shift))) :: tab_r, a)
  | [] => ([], high)
  end.
Definition js_mp_shr (tab : list Z) (shift high : Z) : list Z * Z :=
  let '(tab_r, l) := mp_shr_from tab shift high in
  (tab_r, Z.land l (u32 (Z.shiftl 1 shift) - 1)).

(** ** Division by a normalised limb *)

(** [{S}] is there for the division: undefined when [d] is 0. *)
Definition div {S} (a b : Z) : M S Z :=
  if b =? 0 then throw (Undefined BadOperand) else ret (a / b).

Definition js_udiv1norm_init {S} (d : Z) : M S Z :=
  let a1 := u32 (- d - 1) in
  let a0 := u32 (-1) in
  q ← div (Z.lor (u64 (Z.shiftl a1 JS_LIMB_BITS)) a0) d;
  ret (u32 q).

(** The quotient and the remainder [*pr]. *)
Definition js_udiv1norm (a1 a0 d d_inv : Z) : Z * Z :=
  let n1m := u32 (Z.shiftr (to_int a0) (JS_LIMB_BITS - 1)) in
  let n_adj := u32 (a0 + Z.land n1m d) in
  let a := u64 (d_inv * u32 (a1 - n1m) + n_adj) in
  let q := u32 (Z.shiftr a JS_LIMB_BITS + a1) in
  let a := Z.lor (u64 (Z.shiftl a1 JS_LIMB_BITS)) a0 in
  let a := u64 (a - u64 (q * d) - d) in
  let ah := u32 (Z.shiftr a JS_LIMB_BITS) in
  let q := u32 (q + u32 (1 + ah)) in
  let r := u32 (u32 a + Z.land ah d) in
  (q, r).

Fixpoint mp_div1norm_inv (taba : list Z) (b b_inv r : Z) : list Z * Z :=
  match taba with
  | a :: taba =>
      let '(tabr, r) := mp_div1norm_inv taba b b_inv r in
      let '(q, r) := js_udiv1norm r a b b_inv in (q :: tabr, r)
  | [] => ([], r)
  end.
Definition js_mp_div1norm {S} (taba : list Z) (b r : Z) : M S (list Z * Z) :=
  if Z.of_nat (length taba) >=? UDIV1NORM_THRESHOLD then
    b_inv ← js_udiv1norm_init b;
    ret (mp_div1norm_inv taba b b_inv r)
  else if b =? 0 then throw (Undefined BadOperand)
  else ret (js_mp_div1 taba b r).

(** ** Parts of an array *)

(** The [n] limbs at [off] of the array that is the state, and their update. *)
Definition limbs (off n : Z) : M (list Z) (list Z) := λ tab,
  if (0 <=? off) && (0 <=? n) && (off + n <=? Z.of_nat (length tab))
  then (Ok (take (Z.to_nat n) (drop (Z.to_nat off) tab)), tab)
  else (Err (Undefined ReadOutOfBounds), tab).
Definition set_limbs (off : Z) (l : list Z) : M (list Z) unit := λ tab,
  if (0 <=? off) && (off + Z.of_nat (length l) <=? Z.of_nat (length tab))
  then (Ok tt, take (Z.to_nat off) tab ++ l ++ drop (Z.to_nat off + length l) tab)
  else (Err (Undefined WriteOutOfBounds), tab).
Definition limb (i : Z) : M (list Z) Z := tab ← gets id; rd tab i.

(** A routine run on a part of the array. *)
Definition in_place (off n : Z) (f : list Z → list Z * Z) : M (list Z) Z :=
  l ← limbs off n;
  let '(res, c) := f l in
  set_limbs off res;; ret c.

(** [for (i = n - 1; i >= 0; i--)], and what is stored at each index. *)
Fixpoint for_down {S A} (n : nat) (f : Z → M S A) : M S (list A) :=
  match n with
  | O => ret []
  | Datatypes.S n => x ← f (Z.of_nat n); l ← for_down n f; ret (l ++ [x])
  end.

(** [for (i = first; i < first + n; i++)] *)
Fixpoint for_up {S} (n : nat) (first : Z) (f : Z → M S unit) : M S unit :=
  match n with
  | O => ret tt
  | Datatypes.S n => f first;; for_up n (first + 1) f
  end.

(** [result] is the state. *)
Definition js_mp_mul_basecase (op1 op2 : list Z) : M (list Z) unit :=
  let op1_size := Z.of_nat (length op1) in
  b0 ← rd op2 0;
  let '(res, h) := js_mp_mul1 op1 b0 0 in
  set_limbs 0 res;;
  wr op1_size h;;
  for_up (length op2 - 1) 1 (λ i,
    bi ← rd op2 i;
    r ← in_place i op1_size (λ tabr, js_mp_add_mul1 tabr op1 bi);
    wr (i + op1_size) r).

(** The two limbs a quotient digit is estimated from. *)
Definition estimate (b1 b1_inv i nb : Z) : M (list Z) Z :=
  h ← limb (i + nb);
  if h >=? b1 then ret (u32 (-1))
  else
    l ← limb (i + nb - 1);
    if negb (b1_inv =? 0) then ret (js_udiv1norm h l b1 b1_inv).1
    else
      let al := Z.lor (u64 (Z.shiftl h JS_LIMB_BITS)) l in
      q ← div al b1;
      ret (u32 q).

(** A turn of the loop for a negative partial remainder: the quotient digit is
    one too large, and [tabb] is added back. *)
Definition add_back (tabb : list Z) (i q : Z) : M (list Z) (Z + Z) :=
  let nb := Z.of_nat (length tabb) in
  let q := u32 (q - 1) in
  c ← in_place i nb (λ taba, js_mp_add taba tabb 0);
  if negb (c =? 0) then
    h ← limb (i + nb);
    wr (i + nb) (u32 (h + 1));;
    if u32 (h + 1) =? 0 then ret (inr q) else ret (inl q)
  else ret (inl q).

(** One quotient digit: [q * tabb] is subtracted, and [tabb] added back until
    the partial remainder is positive again. *)
Definition divnorm_digit (tabb : list Z) (b1 b1_inv i : Z) : M (list Z) Z :=
  let nb := Z.of_nat (length tabb) in
  q ← estimate b1 b1_inv i nb;
  r ← in_place i nb (λ taba, js_mp_sub_mul1 taba tabb q);
  v ← limb (i + nb);
  let a := u32 (v - r) in
  let c := b2l (a >? v) in
  wr (i + nb) a;;
  if negb (c =? 0) then
    loop 3 (add_back tabb i) q
  else ret q.

(** The first digit: 1 or 0 as the high limbs are at least [tabb] or not. *)
Definition divnorm_first (tabb : list Z) (n : Z) : M (list Z) Z :=
  loop (S (length tabb)) (λ j,
    if j >=? 0 then
      a ← limb (n + j);
      b ← rd tabb j;
      if negb (a =? b) then ret (inr (if a <? b then 0 else 1)) else ret (inl (j - 1))
    else ret (inr 1)) (Z.of_nat (length tabb) - 1).

(** [taba] is the state, of [na] limbs and more; the limbs of [tabq] are
    returned. *)
Definition js_mp_divnorm (na : Z) (tabb : list Z) : M (list Z) (list Z) :=
  let nb := Z.of_nat (length tabb) in
  b1 ← rd tabb (nb - 1);
  if nb =? 1 then
    taba ← limbs 0 na;
    '(tabq, r) ← js_mp_div1norm taba b1 0;
    wr 0 r;;
    ret tabq
  else
    let n := na - nb in
    b1_inv ← (if n >=? UDIV1NORM_THRESHOLD then js_udiv1norm_init b1 else ret 0);
    q ← divnorm_first tabb n;
    (if negb (q =? 0)
     then in_place n nb (λ taba, js_mp_sub taba tabb 0);; ret tt
     else ret tt);;
    tabq ← for_down (Z.to_nat n) (divnorm_digit tabb b1 b1_inv);
    ret (tabq ++ [q]).

