(* ===== verification/BigIntMpFacts.v ===== *)
(** * What the limb routines compute

    [val] is the number an array of limbs stands for. Each routine is an
    equation between values: sums, differences, products, shifts, and the
    division of a number by a limb, with the carry, borrow or remainder it
    returns. *)
From S2P Require Import Prelude CStd Words CUtils BigIntMp.

Definition B : Z := 2 ^ 32.

Fixpoint val (l : list Z) : Z :=
  match l with [] => 0 | a :: l => a + B * val l end.

(** Limbs. *)
Abbreviation limbs_ok := (Forall (fits 32)).

(** [B^n], for a length. *)
Definition Bn (n : nat) : Z := B ^ Z.of_nat n.

Lemma Bn_S n : Bn (S n) = B * Bn n.
Proof. unfold Bn. rewrite Nat2Z.inj_succ, Z.pow_succ_r by lia. done. Qed.

Lemma Bn_0 : Bn 0 = 1.
Proof. done. Qed.

Lemma Bn_pos n : 0 < Bn n.
Proof. unfold Bn. apply Z.pow_pos_nonneg; [done|lia]. Qed.

Lemma Bn_add n m : Bn (n + m) = Bn n * Bn m.
Proof. unfold Bn. rewrite Nat2Z.inj_add, Z.pow_add_r by lia. done. Qed.

Lemma B_pos : 0 < B.
Proof. done. Qed.

Lemma val_range l : limbs_ok l → 0 ≤ val l < Bn (length l).
Proof.
  induction 1 as [|a l Ha Hl IH]; cbn [val length]; [done|].
  rewrite Bn_S. unfold fits in Ha. change (2 ^ 32) with B in Ha. nia.
Qed.

Lemma val_app l1 l2 : val (l1 ++ l2) = val l1 + Bn (length l1) * val l2.
Proof.
  induction l1 as [|a l1 IH]; cbn [app val length]; [rewrite Bn_0; lia|].
  rewrite IH, Bn_S. lia.
Qed.

Lemma val_snoc l a : val (l ++ [a]) = val l + Bn (length l) * a.
Proof. rewrite val_app. cbn [val]. lia. Qed.

Lemma val_replicate_0 n : val (replicate n 0) = 0.
Proof. induction n; cbn [replicate val]; lia. Qed.

(** Limbs are determined by their value. *)
Lemma val_inj l1 l2 :
  limbs_ok l1 → limbs_ok l2 → length l1 = length l2 → val l1 = val l2 → l1 = l2.
Proof.
  intros H1. revert l2. induction H1 as [|a l1 Ha H1 IH]; intros [|b l2] H2 Hlen Hv; try done.
  apply Forall_cons in H2 as [Hb H2]. cbn [val length] in *. unfold fits in *. change (2 ^ 32) with B in *.
  destruct (Z.div_mod_unique B (val l1) (val l2) a b) as [E ->]; [lia..|].
  f_equal. apply IH; auto.
Qed.

(** ** Words *)

Lemma u32_fits z : fits 32 (u32 z).
Proof. by apply wrap_range. Qed.
#[export] Hint Resolve u32_fits : core.

Lemma u32_split z : z = u32 z + B * (z / B).
Proof. unfold u32, wrap. change (2 ^ 32) with B. pose proof (Z.div_mod z B ltac:(done)). lia. Qed.

Lemma u32_spec z q r : 0 ≤ r < B → z = r + B * q → u32 z = r ∧ z / B = q.
Proof.
  intros Hr ->. pose proof B_pos. unfold u32, wrap. change (2 ^ 32) with B.
  rewrite (Z.mul_comm B). rewrite Z.mod_add, Z.div_add, Z.mod_small, Z.div_small by lia. done.
Qed.

Lemma shiftr_limb t : Z.shiftr t JS_LIMB_BITS = t / B.
Proof. unfold JS_LIMB_BITS. by rewrite Z.shiftr_div_pow2. Qed.

(** A double limb [h * B + l]. *)
Lemma double_limb h l :
  fits 32 h → fits 32 l → Z.lor (u64 (Z.shiftl h JS_LIMB_BITS)) l = h * B + l.
Proof.
  intros Hh Hl. unfold JS_LIMB_BITS. rewrite Z.shiftl_mul_pow2 by lia. unfold u64.
  rewrite wrap_id by (unfold fits in *; lia). by rewrite lor_high_low by (lia || done).
Qed.

Lemma b2l_lor x y : Z.lor (b2l x) (b2l y) = b2l (x || y).
Proof. by destruct x, y. Qed.

(** ** Sums and differences *)

Lemma ADDC_spec a b c :
  fits 32 a → fits 32 b → 0 ≤ c ≤ 1 →
  ∃ r c', ADDC a b c = (r, c') ∧ fits 32 r ∧ 0 ≤ c' ≤ 1 ∧ r + B * c' = a + b + c.
Proof.
  unfold ADDC, fits. change (2 ^ 32) with B. intros Ha Hb Hc. rewrite b2l_lor.
  eexists _, _. split; [reflexivity|]. unfold u32, wrap. change (2 ^ 32) with B.
  assert (((a + b) mod B + c) mod B + B * b2l ((((a + b) mod B + c) mod B <? c) || ((a + b) mod B <? a)) = a + b + c
    ∧ 0 ≤ ((a + b) mod B + c) mod B < B) as [E Hr].
  { assert (B = 2 ^ 32) as EB by done. revert Ha Hb Hc. generalize dependent B. intros N -> Ha Hb Hc.
    destruct (Z.lt_ge_cases (a + b) (2 ^ 32)).
    - rewrite (Z.mod_small (a + b)) by lia. destruct (Z.lt_ge_cases (a + b + c) (2 ^ 32)).
      + rewrite Z.mod_small by lia.
        destruct (Z.ltb_spec (a + b + c) c), (Z.ltb_spec (a + b) a); cbn [orb b2l]; lia.
      + assert ((a + b + c) mod 2 ^ 32 = 0) as -> by (symmetry; apply Z.mod_unique with 1; lia).
        destruct (Z.ltb_spec 0 c), (Z.ltb_spec (a + b) a); cbn [orb b2l]; lia.
    - assert ((a + b) mod 2 ^ 32 = a + b - 2 ^ 32) as -> by (symmetry; apply Z.mod_unique with 1; lia).
      rewrite Z.mod_small by lia.
      destruct (Z.ltb_spec (a + b - 2 ^ 32 + c) c), (Z.ltb_spec (a + b - 2 ^ 32) a); cbn [orb b2l]; lia. }
  split_and!; [lia|lia| | |lia]; destruct (_ || _); cbn [b2l]; lia.
Qed.

Lemma js_mp_add_spec op1 op2 c :
  limbs_ok op1 → limbs_ok op2 → length op1 = length op2 → 0 ≤ c ≤ 1 →
  ∃ res c', js_mp_add op1 op2 c = (res, c') ∧ limbs_ok res ∧ length res = length op1 ∧
    0 ≤ c' ≤ 1 ∧ val res + Bn (length op1) * c' = val op1 + val op2 + c.
Proof.
  intros H1. revert op2 c. induction H1 as [|a op1 Ha H1 IH]; intros [|b op2] c H2 Hlen Hc; try done.
  { exists [], c. cbn [val length]. rewrite Bn_0. split_and!; auto; lia. }
  apply Forall_cons in H2 as [Hb H2]. cbn [js_mp_add].
  destruct (ADDC_spec a b c Ha Hb Hc) as (r & c1 & -> & Hr & Hc1 & E1).
  destruct (IH op2 c1 H2 ltac:(cbn in Hlen; lia) Hc1) as (res & c2 & -> & Hres & Hl & Hc2 & E2).
  exists (r :: res), c2. cbn [val length]. rewrite Bn_S. split_and!; [done|by constructor|lia|lia|lia|nia].
Qed.

Lemma js_mp_sub_spec op1 op2 k :
  limbs_ok op1 → limbs_ok op2 → length op1 = length op2 → 0 ≤ k ≤ 1 →
  ∃ res k', js_mp_sub op1 op2 k = (res, k') ∧ limbs_ok res ∧ length res = length op1 ∧
    0 ≤ k' ≤ 1 ∧ val res - Bn (length op1) * k' = val op1 - val op2 - k.
Proof.
  intros H1. revert op2 k. induction H1 as [|v op1 Hv H1 IH]; intros [|b op2] k H2 Hlen Hk; try done.
  { exists [], k. cbn [val length]. rewrite Bn_0. split_and!; auto; lia. }
  apply Forall_cons in H2 as [Hb H2]. cbn [js_mp_sub]. rewrite b2l_lor.
  set (a := u32 (v - b)). set (r := u32 (a - k)). set (k1 := b2l _).
  assert (r - B * k1 = v - b - k ∧ 0 ≤ k1 ≤ 1) as [E1 Hk1].
  { unfold k1, r, a, u32, wrap. clear -Hv Hb Hk. unfold fits, B in *.
    destruct (Z.lt_ge_cases v b).
    - assert ((v - b) mod 2 ^ 32 = v - b + 2 ^ 32) as -> by (symmetry; apply Z.mod_unique with (-1); lia).
      rewrite Z.mod_small by lia.
      destruct (Z.gtb_spec (v - b + 2 ^ 32 - k) (v - b + 2 ^ 32)), (Z.gtb_spec (v - b + 2 ^ 32) v); cbn [orb b2l]; lia.
    - rewrite (Z.mod_small (v - b)) by lia. destruct (Z.lt_ge_cases (v - b) k).
      + assert ((v - b - k) mod 2 ^ 32 = v - b - k + 2 ^ 32) as -> by (symmetry; apply Z.mod_unique with (-1); lia).
        destruct (Z.gtb_spec (v - b - k + 2 ^ 32) (v - b)), (Z.gtb_spec (v - b) v); cbn [orb b2l]; lia.
      + rewrite Z.mod_small by lia.
        destruct (Z.gtb_spec (v - b - k) (v - b)), (Z.gtb_spec (v - b) v); cbn [orb b2l]; lia. }
  destruct (IH op2 k1 H2 ltac:(cbn in Hlen; lia) Hk1) as (res & c2 & -> & Hres & Hl & Hc2 & E2).
  exists (r :: res), c2. cbn [val length]. rewrite Bn_S.
  split_and!; [done|constructor; [apply u32_fits|done]|lia|lia|lia|nia].
Qed.

(** ** Opposites *)

Lemma mp_neg_from_spec op2 c :
  limbs_ok op2 → 0 ≤ c ≤ 1 →
  ∃ res c', mp_neg_from op2 c = (res, c') ∧ limbs_ok res ∧ length res = length op2 ∧
    0 ≤ c' ≤ 1 ∧ val res + Bn (length op2) * c' = Bn (length op2) - 1 - val op2 + c.
Proof.
  intros H. revert c. induction H as [|b op2 Hb H IH]; intros c Hc.
  { exists [], c. cbn [val length]. rewrite Bn_0. split_and!; auto; lia. }
  cbn [mp_neg_from]. set (v := u32 (u32 (Z.lnot b) + c)). set (c1 := b2l (v <? c)).
  assert (v + B * c1 = B - 1 - b + c ∧ 0 ≤ c1 ≤ 1) as [E1 Hc1].
  { unfold c1, v, u32, wrap, B, fits, Z.lnot in *.
    assert (Z.pred (- b) mod 2 ^ 32 = 2 ^ 32 - 1 - b) as -> by (symmetry; apply Z.mod_unique with (-1); lia).
    destruct (Z.lt_ge_cases (2 ^ 32 - 1 - b + c) (2 ^ 32)).
    - rewrite Z.mod_small by lia. destruct (Z.ltb_spec (2 ^ 32 - 1 - b + c) c); cbn [b2l]; lia.
    - assert ((2 ^ 32 - 1 - b + c) mod 2 ^ 32 = 0) as -> by (symmetry; apply Z.mod_unique with 1; lia).
      destruct (Z.ltb_spec 0 c); cbn [b2l]; lia. }
  destruct (IH c1 Hc1) as (res & c2 & -> & Hres & Hl & Hc2 & E2).
  exists (v :: res), c2. cbn [val length]. rewrite Bn_S.
  split_and!; [done|constructor; [apply u32_fits|done]|lia|lia|lia|nia].
Qed.

(** Two's complement: the opposite modulo [B^n]. *)
Lemma js_mp_neg_spec op2 :
  limbs_ok op2 →
  limbs_ok (js_mp_neg op2).1 ∧ length (js_mp_neg op2).1 = length op2 ∧
  val (js_mp_neg op2).1 = (- val op2) mod Bn (length op2).
Proof.
  intros H. destruct (mp_neg_from_spec op2 1 H ltac:(lia)) as (res & c & E & Hr & Hl & Hc & Ev).
  unfold js_mp_neg. rewrite E. cbn [fst]. split_and!; [done|done|].
  pose proof (val_range res Hr). rewrite Hl in *. apply Z.mod_unique with (c - 1); lia.
Qed.

(** ** Products *)

Lemma limb_product a b l r :
  fits 32 a → fits 32 b → fits 32 l → fits 32 r →
  fits 64 (a * b + l + r) ∧ fits 32 ((a * b + l + r) / B) ∧
  u32 (Z.shiftr (u64 (a * b + l + r)) JS_LIMB_BITS) = (a * b + l + r) / B ∧
  u32 (u64 (a * b + l + r)) + B * ((a * b + l + r) / B) = a * b + l + r.
Proof.
  unfold fits. intros Ha Hb Hl Hr. set (t := a * b + l + r).
  assert (0 ≤ t < 2 ^ 64) as Ht by (unfold t; change (2 ^ 64) with (2 ^ 32 * 2 ^ 32); nia).
  assert (0 ≤ t / B < 2 ^ 32) as Hq.
  { split; [apply Z.div_pos; [lia|done]|apply Z.div_lt_upper_bound; [done|]; unfold B; lia]. }
  assert (u64 t = t) as -> by (by apply wrap_id). rewrite shiftr_limb.
  split_and!; try lia.
  - unfold u32. by rewrite wrap_id.
  - pose proof (u32_split t). lia.
Qed.

Lemma js_mp_mul1_spec taba b l :
  limbs_ok taba → fits 32 b → fits 32 l →
  ∃ res l', js_mp_mul1 taba b l = (res, l') ∧ limbs_ok res ∧ length res = length taba ∧
    fits 32 l' ∧ val res + Bn (length taba) * l' = val taba * b + l.
Proof.
  intros H Hb. revert l. induction H as [|a taba Ha H IH]; intros l Hl.
  { exists [], l. cbn [val length]. rewrite Bn_0. split_and!; auto; lia. }
  cbn [js_mp_mul1].
  destruct (limb_product a b l 0 Ha Hb Hl ltac:(unfold fits; lia)) as (_ & Hq & E1 & E2).
  rewrite Z.add_0_r in *. rewrite E1.
  destruct (IH _ Hq) as (res & l2 & -> & Hres & Hlen & Hl2 & E3).
  eexists (_ :: res), l2. split; [reflexivity|]. cbn [val length]. rewrite Bn_S.
  split_and!; [constructor; [apply u32_fits|done]|lia|done|nia].
Qed.

Lemma js_mp_add_mul1_spec tabr taba b :
  limbs_ok tabr → limbs_ok taba → length tabr = length taba → fits 32 b →
  ∃ res l', js_mp_add_mul1 tabr taba b = (res, l') ∧ limbs_ok res ∧ length res = length taba ∧
    fits 32 l' ∧ val res + Bn (length taba) * l' = val tabr + val taba * b.
Proof.
  intros Hr H Hlen Hb. unfold js_mp_add_mul1.
  assert (∀ l, fits 32 l → ∃ res l', mp_add_mul1_from tabr taba b l = (res, l') ∧ limbs_ok res ∧
    length res = length taba ∧ fits 32 l' ∧
    val res + Bn (length taba) * l' = val tabr + val taba * b + l) as Hgo.
  { revert taba H Hlen. induction Hr as [|r tabr Hr0 Hr IH]; intros [|a taba] H Hlen l Hl; try done.
    { exists [], l. cbn [val length]. rewrite Bn_0. split_and!; auto; lia. }
    apply Forall_cons in H as [Ha H]. cbn [mp_add_mul1_from].
    destruct (limb_product a b l r Ha Hb Hl Hr0) as (_ & Hq & E1 & E2). rewrite E1.
    destruct (IH taba H ltac:(cbn in Hlen; lia) _ Hq) as (res & l2 & -> & Hres & Hl1 & Hl2 & E3).
    eexists (_ :: res), l2. split; [reflexivity|]. cbn [val length]. rewrite Bn_S.
    split_and!; [constructor; [apply u32_fits|done]|lia|done|nia]. }
  destruct (Hgo 0 ltac:(unfold fits; lia)) as (res & l & ?). exists res, l. by rewrite Z.add_0_r in *.
Qed.

(** A double limb that may be negative: its low limb, and what to borrow. *)
Lemma limb_borrow a b l r :
  fits 32 a → fits 32 b → fits 32 l → fits 32 r →
  let t := u64 (r - a * b - l) in
  let l' := u32 (- Z.shiftr t JS_LIMB_BITS) in
  fits 32 l' ∧ u32 t - B * l' = r - a * b - l.
Proof.
  intros Ha Hb Hl Hr t l'. split; [apply u32_fits|]. unfold fits in *.
  assert (- (2 ^ 64 - 2 ^ 32) ≤ r - a * b - l < 2 ^ 32) as Hx.
  { change (2 ^ 64) with (2 ^ 32 * 2 ^ 32). nia. }
  set (x := r - a * b - l) in *.
  assert (t / B = (x / B) mod B) as Ediv.
  { unfold t, u64, wrap. change (2 ^ 64) with (B * B). rewrite Z.rem_mul_r by done.
    rewrite (Z.mul_comm B), Z.div_add by done. rewrite (Z.div_small (x mod B)) by (by apply Z.mod_pos_bound). lia. }
  assert (u32 t = x mod B) as Emod.
  { unfold t, u64, u32, wrap. change (2 ^ 32) with B. change (2 ^ 64) with (B * B).
    rewrite Z.rem_mul_r by done. rewrite (Z.mul_comm B), Z.mod_add by done. by apply Z.mod_mod. }
  assert (l' = - (x / B)) as ->.
  { unfold l'. rewrite shiftr_limb, Ediv. unfold u32, wrap. change (2 ^ 32) with B.
    assert (- B < x / B ≤ 0) as Hq.
    { pose proof (Z.div_mod x B ltac:(done)). pose proof (Z.mod_pos_bound x B ltac:(done)). unfold B in *. lia. }
    destruct (Z.eq_dec (x / B) 0) as [->|].
    - done.
    - assert ((x / B) mod B = x / B + B) as -> by (symmetry; apply Z.mod_unique with (-1); lia).
      symmetry. apply Z.mod_unique with (-1); lia. }
  rewrite Emod. pose proof (Z.div_mod x B ltac:(done)). lia.
Qed.

Lemma js_mp_sub_mul1_spec tabr taba b :
  limbs_ok tabr → limbs_ok taba → length tabr = length taba → fits 32 b →
  ∃ res l', js_mp_sub_mul1 tabr taba b = (res, l') ∧ limbs_ok res ∧ length res = length taba ∧
    fits 32 l' ∧ val res - Bn (length taba) * l' = val tabr - val taba * b.
Proof.
  intros Hr H Hlen Hb. unfold js_mp_sub_mul1.
  assert (∀ l, fits 32 l → ∃ res l', mp_sub_mul1_from tabr taba b l = (res, l') ∧ limbs_ok res ∧
    length res = length taba ∧ fits 32 l' ∧
    val res - Bn (length taba) * l' = val tabr - val taba * b - l) as Hgo.
  { revert taba H Hlen. induction Hr as [|r tabr Hr0 Hr IH]; intros [|a taba] H Hlen l Hl; try done.
    { exists [], l. cbn [val length]. rewrite Bn_0. split_and!; auto; lia. }
    apply Forall_cons in H as [Ha H]. cbn [mp_sub_mul1_from].
    destruct (limb_borrow a b l r Ha Hb Hl Hr0) as (Hq & E1).
    destruct (IH taba H ltac:(cbn in Hlen; lia) _ Hq) as (res & l2 & -> & Hres & Hl1 & Hl2 & E3).
    eexists (_ :: res), l2. split; [reflexivity|]. cbn [val length]. rewrite Bn_S.
    split_and!; [constructor; [apply u32_fits|done]|lia|done|nia]. }
  destruct (Hgo 0 ltac:(unfold fits; lia)) as (res & l & ?). exists res, l. by rewrite Z.sub_0_r in *.
Qed.

(** ** Division by a limb *)

Lemma limb_quotient r a b :
  fits 32 a → 0 ≤ r < b → b < B →
  fits 32 ((r * B + a) / b) ∧ 0 ≤ (r * B + a) mod b < b ∧
  (r * B + a) / b * b + (r * B + a) mod b = r * B + a.
Proof.
  unfold fits. change (2 ^ 32) with B. intros Ha Hr Hb.
  pose proof (Z.mod_pos_bound (r * B + a) b). pose proof (Z.div_mod (r * B + a) b).
  split_and!; try lia.
  - apply Z.div_pos; nia.
  - apply Z.div_lt_upper_bound; nia.
Qed.

Lemma js_mp_div1_spec taba b r :
  limbs_ok taba → 0 ≤ r < b → b < B →
  ∃ res r', js_mp_div1 taba b r = (res, r') ∧ limbs_ok res ∧ length res = length taba ∧
    0 ≤ r' < b ∧ val taba + Bn (length taba) * r = val res * b + r'.
Proof.
  intros H Hr Hb. induction H as [|a taba Ha H IH].
  { exists [], r. cbn [val length]. rewrite Bn_0. split_and!; auto; lia. }
  cbn [js_mp_div1]. destruct IH as (res & r1 & -> & Hres & Hl & Hr1 & E1).
  rewrite double_limb by (unfold fits in *; change (2 ^ 32) with B in *; lia || done).
  destruct (limb_quotient r1 a b Ha Hr1 Hb) as (Hq & Hm & E2).
  assert (u32 ((r1 * B + a) / b) = (r1 * B + a) / b) as -> by (by apply wrap_id).
  assert (u32 ((r1 * B + a) mod b) = (r1 * B + a) mod b) as ->.
  { apply wrap_id. unfold fits. change (2 ^ 32) with B. lia. }
  eexists (_ :: res), _. split; [reflexivity|]. cbn [val length]. rewrite Bn_S.
  split_and!; [by constructor|lia|lia|lia|nia].
Qed.

(** ** Shifts *)

Lemma pow2_split s : 0 ≤ s ≤ 32 → B = 2 ^ (32 - s) * 2 ^ s.
Proof. intros. rewrite <-Z.pow_add_r by lia. unfold B. f_equal. lia. Qed.

Lemma pow2_range s : 0 ≤ s ≤ 32 → 0 < 2 ^ s ≤ B.
Proof.
  intros. pose proof (Z.pow_pos_nonneg 2 s). pose proof (Z.pow_le_mono_r 2 s 32). unfold B. lia.
Qed.

(** The low bits of a limb, moved up. *)
Lemma shift_up v s :
  0 ≤ s ≤ 32 → u32 (Z.shiftl v s) = (v mod 2 ^ (32 - s)) * 2 ^ s.
Proof.
  intros Hs. rewrite Z.shiftl_mul_pow2 by lia. unfold u32, wrap. change (2 ^ 32) with B.
  rewrite (pow2_split s) by done. apply Z.mul_mod_distr_r; apply Z.pow_nonzero; lia.
Qed.

Lemma limb_shl v s l :
  1 ≤ s ≤ 31 → fits 32 v → 0 ≤ l < 2 ^ s →
  Z.lor (u32 (Z.shiftl v s)) l + B * Z.shiftr v (32 - s) = v * 2 ^ s + l ∧
  fits 32 (Z.lor (u32 (Z.shiftl v s)) l) ∧ 0 ≤ Z.shiftr v (32 - s) < 2 ^ s.
Proof.
  intros Hs Hv Hl. rewrite shift_up, Z.shiftr_div_pow2, lor_high_low by (unfold fits; lia).
  pose proof (pow2_range s ltac:(lia)). pose proof (pow2_range (32 - s) ltac:(lia)).
  pose proof (Z.div_mod v (2 ^ (32 - s)) ltac:(lia)) as Hd.
  pose proof (Z.mod_pos_bound v (2 ^ (32 - s)) ltac:(lia)) as Hm.
  pose proof (pow2_split s ltac:(lia)) as HB. unfold fits in *. change (2 ^ 32) with B in *.
  split_and!; [rewrite HB; nia|nia|nia|apply Z.div_pos; lia|].
  apply Z.div_lt_upper_bound; nia.
Qed.

Lemma mp_shl_from_spec taba s l :
  limbs_ok taba → 1 ≤ s ≤ 31 → 0 ≤ l < 2 ^ s →
  ∃ res l', mp_shl_from taba s l = (res, l') ∧ limbs_ok res ∧ length res = length taba ∧
    0 ≤ l' < 2 ^ s ∧ val res + Bn (length taba) * l' = val taba * 2 ^ s + l.
Proof.
  intros H Hs. revert l. induction H as [|a taba Ha H IH]; intros l Hl.
  { exists [], l. cbn [val length]. rewrite Bn_0. split_and!; auto; lia. }
  cbn [mp_shl_from]. unfold JS_LIMB_BITS.
  destruct (limb_shl a s l Hs Ha Hl) as (E1 & Hf & Hl1).
  destruct (IH _ Hl1) as (res & l2 & -> & Hres & Hlen & Hl2 & E2).
  eexists (_ :: res), l2. split; [reflexivity|]. cbn [val length]. rewrite Bn_S.
  split_and!; [by constructor|lia|lia|lia|nia].
Qed.

Lemma js_mp_shl_spec taba s :
  limbs_ok taba → 1 ≤ s ≤ 31 →
  ∃ res l', js_mp_shl taba s = (res, l') ∧ limbs_ok res ∧ length res = length taba ∧
    0 ≤ l' < 2 ^ s ∧ val res + Bn (length taba) * l' = val taba * 2 ^ s.
Proof.
  intros H Hs. destruct (mp_shl_from_spec taba s 0 H Hs) as (res & l & ?).
  { pose proof (pow2_range s). lia. }
  exists res, l. by rewrite Z.add_0_r in *.
Qed.

Lemma mp_shr_from_spec tab s high :
  limbs_ok tab → 1 ≤ s ≤ 31 → fits 32 high →
  let X := val tab + Bn (length tab) * high in
  ∃ res l, mp_shr_from tab s high = (res, l) ∧ limbs_ok res ∧ length res = length tab ∧
    fits 32 l ∧ l = X mod B ∧ val res = (X / 2 ^ s) mod Bn (length tab).
Proof.
  intros H Hs Hh. induction H as [|a tab Ha H IH]; cbv zeta in *; cbn [length val].
  { exists [], high. rewrite Bn_0. cbn [mp_shr_from val length]. rewrite Z.mod_1_r.
    split_and!; try done. unfold fits in Hh. change (2 ^ 32) with B in Hh. rewrite Z.mod_small; lia. }
  cbn [mp_shr_from]. destruct IH as (res & l & -> & Hres & Hlen & Hl & El & Ev).
  set (X := val tab + Bn (length tab) * high) in *. unfold JS_LIMB_BITS. rewrite Bn_S.
  replace (a + B * val tab + B * Bn (length tab) * high) with (a + B * X) by (unfold X; lia).
  pose proof (pow2_range s ltac:(lia)). pose proof (pow2_range (32 - s) ltac:(lia)).
  pose proof (pow2_split (32 - s) ltac:(lia)) as HB. replace (32 - (32 - s)) with s in HB by lia.
  rewrite shift_up by lia. replace (32 - (32 - s)) with s by lia.
  assert (l mod 2 ^ s = X mod 2 ^ s) as Elow.
  { rewrite El, HB. apply Z.mod_mod_divide. exists (2 ^ (32 - s)). lia. }
  assert (0 ≤ a / 2 ^ s < 2 ^ (32 - s)) as Has.
  { unfold fits in Ha. change (2 ^ 32) with B in Ha. split; [apply Z.div_pos; lia|].
    apply Z.div_lt_upper_bound; lia. }
  assert ((a + B * X) / 2 ^ s = a / 2 ^ s + 2 ^ (32 - s) * X) as Ediv.
  { rewrite HB. replace (a + 2 ^ s * 2 ^ (32 - s) * X) with (a + 2 ^ (32 - s) * X * 2 ^ s) by lia.
    apply Z.div_add. lia. }
  assert ((a + B * X) / B = X) as EX.
  { rewrite Z.mul_comm, Z.div_add by done. rewrite Z.div_small by done. lia. }
  eexists (_ :: res), a. rewrite Z.shiftr_div_pow2 by lia. rewrite lor_low_high by (unfold fits; lia).
  pose proof (Z.mod_pos_bound X (2 ^ s) ltac:(lia)) as Hm. split; [reflexivity|]. rewrite Elow.
  split_and!; [constructor; [unfold fits; change (2 ^ 32) with B; nia|done]|cbn [length]; lia|done| |].
  - rewrite Z.mul_comm, Z.mod_add by done. unfold fits in Ha. change (2 ^ 32) with B in Ha. by rewrite Z.mod_small.
  - cbn [val]. rewrite Ev. pose proof (Bn_pos (length tab)). rewrite Z.rem_mul_r by (lia || done). f_equal.
    + rewrite Ediv, HB. replace (2 ^ (32 - s) * X) with (X * 2 ^ (32 - s)) by lia.
      apply Z.mod_unique with (X / 2 ^ s); [nia|].
      pose proof (Z.div_mod X (2 ^ s) ltac:(lia)). nia.
    + f_equal. f_equal. rewrite Z.div_div, (Z.mul_comm (2 ^ s)), <-Z.div_div by (lia || done). by rewrite EX.
Qed.

(** The whole of a number of at least one limb, and the bits shifted out. *)
Lemma js_mp_shr_spec tab s high :
  limbs_ok tab → 1 ≤ s ≤ 31 → fits 32 high →
  let X := val tab + Bn (length tab) * high in
  ∃ res r, js_mp_shr tab s high = (res, r) ∧ limbs_ok res ∧ length res = length tab ∧
    val res = (X / 2 ^ s) mod Bn (length tab) ∧ r = X mod 2 ^ s.
Proof.
  intros H Hs Hh X. destruct (mp_shr_from_spec tab s high H Hs Hh) as (res & l & E & Hres & Hl & Hf & El & Ev).
  unfold js_mp_shr. rewrite E. eexists _, _. split; [reflexivity|]. split_and!; [done..|].
  pose proof (pow2_range s ltac:(lia)). rewrite Z.shiftl_1_l. unfold u32. rewrite wrap_id.
  2:{ unfold fits. split; [lia|]. apply Z.pow_lt_mono_r; lia. }
  rewrite land_ones' with (n := s) by lia. rewrite El.
  apply Z.mod_mod_divide. exists (2 ^ (32 - s)). apply pow2_split. lia.
Qed.

(** ** Division by a normalised limb

    The quotient by [d] is computed from the inverse
    [d_inv = (B^2 - 1) / d - B], with one correction. *)
Definition normalised (d : Z) : Prop := B ≤ 2 * d ∧ d < B.

Lemma js_udiv1norm_init_spec {S} d (s : S) :
  normalised d →
  ∃ v e, js_udiv1norm_init d s = (Ok v, s) ∧ fits 32 v ∧ 1 ≤ e ≤ d ∧ (B + v) * d = B * B - e.
Proof.
  intros [Hd1 Hd2]. unfold js_udiv1norm_init, div. destruct (Z.eqb_spec d 0); [unfold B in *; lia|].
  assert (u32 (- d - 1) = B - d - 1) as ->.
  { unfold u32, wrap, B in *. symmetry. apply Z.mod_unique with (-1); lia. }
  change (u32 (-1)) with (B - 1).
  rewrite double_limb by (unfold fits, B in *; lia). rewrite bind_ret.
  set (x := (B - d - 1) * B + (B - 1)). assert (x = B * (B - d) - 1) as Ex by (unfold x; lia).
  pose proof (Z.div_mod x d ltac:(done)) as Hx. pose proof (Z.mod_pos_bound x d ltac:(unfold B in *; lia)).
  assert (fits 32 (x / d)) as Hf.
  { unfold fits. change (2 ^ 32) with B. split; [apply Z.div_pos; unfold B in *; lia|].
    apply Z.div_lt_upper_bound; [unfold B in *; lia|]. unfold B in *. nia. }
  unfold u32. rewrite wrap_id by done. exists (x / d), (1 + x mod d). split_and!; [done|done|lia|lia|nia].
Qed.

(** The estimate: at most one too small. *)
Lemma udiv1norm_estimate a1 a0 d v e h :
  normalised d → 0 ≤ a1 < d → 0 ≤ a0 < B → 1 ≤ e ≤ d → (B + v) * d = B * B - e →
  (h = 0 ∧ 2 * a0 < B ∨ h = 1 ∧ B ≤ 2 * a0) →
  let q := (v * (a1 + h) + (a0 + h * (d - B))) / B + a1 in
  q * d ≤ a1 * B + a0 < (q + 2) * d.
Proof.
  intros [Hd1 Hd2] Ha1 Ha0 He Hv Hh. cbv zeta. pose proof B_pos.
  set (T := v * (a1 + h) + (a0 + h * (d - B))).
  pose proof (Z.div_mod T B ltac:(done)) as HT. pose proof (Z.mod_pos_bound T B ltac:(done)) as Hm.
  set (q0 := T / B) in *. set (m := T mod B) in *.
  (* B times the dividend, less d times the estimate before it is cut *)
  assert ((a1 * B + a0) * B - (T + a1 * B) * d = (B - d) * (a0 - h * (B - d)) + e * (a1 + h)) as Hdiff.
  { unfold T. assert (v * d = B * B - e - B * d) as Evd by lia.
    transitivity ((a1 * B + a0) * B - ((v * d) * (a1 + h) + (a0 + h * (d - B)) * d + a1 * B * d)); [ring|].
    rewrite Evd. ring. }
  assert (0 ≤ (B - d) * (a0 - h * (B - d)) + e * (a1 + h) ≤ d * B) as Hrange.
  { destruct Hh as [[-> Hh]|[-> Hh]].
    - split; [nia|]. assert (2 * ((B - d) * a0) ≤ (B - d) * B) by nia.
      assert (e * a1 ≤ d * (d - 1)) by nia. nia.
    - split; [nia|]. assert ((B - d) * (a0 - (B - d)) ≤ (B - d) * (d - 1)) by nia.
      assert (e * (a1 + 1) ≤ d * d) by nia. nia. }
  assert ((T + a1 * B) * d = (q0 + a1) * d * B + m * d) as Hq by (rewrite HT; ring).
  set (D := _ + e * (a1 + h)) in *. set (N := a1 * B + a0) in *. rewrite Hq in Hdiff.
  replace ((q0 + a1 + 2) * d) with ((q0 + a1) * d + 2 * d) by ring. set (Q := (q0 + a1) * d) in *.
  assert (0 ≤ m * d ∧ m * d < B * d) as [Hm0 Hm1].
  { split; [apply Z.mul_nonneg_nonneg; lia|apply Z.mul_lt_mono_pos_r; lia]. }
  split; [apply (Z.mul_le_mono_pos_r _ _ B)|apply (Z.mul_lt_mono_pos_r B)]; lia.
Qed.

Lemma land_all d : fits 32 d → Z.land (B - 1) d = d.
Proof. intros Hd. rewrite Z.land_comm, land_ones' with (n := 32) by done. by apply Z.mod_small. Qed.

(** The dividend's sign bit, and what it adds to the estimate. *)
Lemma udiv1norm_adjust a1 a0 d :
  normalised d → 0 ≤ a1 < d → fits 32 a0 →
  ∃ h, (h = 0 ∧ 2 * a0 < B ∨ h = 1 ∧ B ≤ 2 * a0) ∧
    let n1m := u32 (Z.shiftr (to_int a0) (JS_LIMB_BITS - 1)) in
    u32 (a1 - n1m) = a1 + h ∧ u32 (a0 + Z.land n1m d) = a0 + h * (d - B).
Proof.
  intros [Hd1 Hd2] Ha1 Ha0. unfold fits in Ha0. unfold JS_LIMB_BITS. rewrite Z.shiftr_div_pow2 by lia.
  unfold to_int, to_signed. cbv zeta.
  destruct (Z.lt_ge_cases (2 * a0) B) as [H|H]; unfold B in *.
  - exists 0. split; [lia|]. rewrite (Z.mod_small (a0 + _)), Z.add_simpl_r, Z.div_small by lia.
    change (u32 0) with 0. rewrite Z.land_0_l, Z.sub_0_r, !Z.add_0_r. unfold u32. rewrite !wrap_id by (unfold fits; lia). lia.
  - exists 1. split; [lia|].
    assert ((a0 + 2 ^ (32 - 1)) mod 2 ^ 32 = a0 + 2 ^ 31 - 2 ^ 32) as -> by (symmetry; apply Z.mod_unique with 1; lia).
    assert ((a0 + 2 ^ 31 - 2 ^ 32 - 2 ^ (32 - 1)) / 2 ^ (32 - 1) = -1) as -> by (symmetry; apply Z.div_unique with (a0 - 2 ^ 31); lia).
    change (u32 (-1)) with (B - 1). rewrite land_all by (unfold fits; lia). unfold u32, wrap, B.
    split; symmetry; [apply Z.mod_unique with (-1)|apply Z.mod_unique with 1]; lia.
Qed.

Lemma js_udiv1norm_spec a1 a0 d v e :
  normalised d → 0 ≤ a1 < d → fits 32 a0 → fits 32 v → 1 ≤ e ≤ d → (B + v) * d = B * B - e →
  js_udiv1norm a1 a0 d v = ((a1 * B + a0) / d, (a1 * B + a0) mod d).
Proof.
  intros Hd Ha1 Ha0 Hv He Hinv. pose proof B_pos.
  assert (0 ≤ a0 < B) as Ha0' by exact Ha0. assert (0 ≤ v < B) as Hv' by exact Hv.
  destruct (udiv1norm_adjust a1 a0 d Hd Ha1 Ha0) as (h & Hh & E1 & E2). cbv zeta in E1, E2.
  pose proof (udiv1norm_estimate a1 a0 d v e h Hd Ha1 Ha0' He Hinv Hh) as Hq. cbv zeta in Hq.
  unfold js_udiv1norm. cbv zeta. rewrite E1, E2. destruct Hd as [Hd1 Hd2].
  set (T := v * (a1 + h) + (a0 + h * (d - B))) in *. set (N := a1 * B + a0) in *.
  assert (0 ≤ T < B * B) as HT by (unfold T; destruct Hh as [[-> ?]|[-> ?]]; nia).
  assert (u64 T = T) as -> by (apply wrap_id; unfold fits; change (2 ^ 64) with (B * B); lia).
  assert (0 ≤ N < d * B) as HN by (unfold N; nia).
  rewrite shiftr_limb. set (q := T / B + a1) in *.
  assert (0 ≤ T / B) as HTB by (apply Z.div_pos; lia).
  assert (0 ≤ q < B) as Hq0 by (unfold q in *; nia).
  assert (u32 q = q) as -> by (by apply wrap_id).
  rewrite double_limb by (unfold fits; change (2 ^ 32) with B; lia). fold N.
  assert (u64 (q * d) = q * d) as ->.
  { apply wrap_id. unfold fits. change (2 ^ 64) with (B * B). nia. }
  rewrite shiftr_limb. set (x := N - q * d - d) in *.
  assert (- d ≤ x < d) as Hx by lia.
  destruct (Z.lt_ge_cases x 0) as [Hneg|Hpos].
  - assert (u64 x = x + B * B) as -> by (symmetry; apply Z.mod_unique with (-1); change (2 ^ 64) with (B * B); nia).
    assert ((x + B * B) / B = B - 1) as -> by (symmetry; apply Z.div_unique with (x + B); lia).
    change (u32 (B - 1)) with (B - 1). change (u32 (1 + (B - 1))) with 0.
    rewrite Z.add_0_r, land_all by (unfold fits; change (2 ^ 32) with B; lia).
    assert (u32 (x + B * B) = x + B) as -> by (symmetry; apply Z.mod_unique with (B - 1); change (2 ^ 32) with B; lia).
    assert (u32 (x + B + d) = x + d) as -> by (symmetry; apply Z.mod_unique with 1; change (2 ^ 32) with B; lia).
    assert (u32 q = q) as -> by (by apply wrap_id).
    f_equal; [apply Z.div_unique with (x + d)|apply Z.mod_unique with q]; lia.
  - assert (u64 x = x) as -> by (apply wrap_id; unfold fits; change (2 ^ 64) with (B * B); nia).
    rewrite Z.div_small by lia. change (u32 0) with 0. change (u32 (1 + 0)) with 1.
    rewrite Z.land_0_l, Z.add_0_r.
    assert (u32 x = x) as E by (apply wrap_id; unfold fits; change (2 ^ 32) with B; lia). rewrite !E.
    assert (u32 (q + 1) = q + 1) as ->.
    { apply wrap_id. unfold fits. change (2 ^ 32) with B. nia. }
    f_equal; [apply Z.div_unique with x|apply Z.mod_unique with (q + 1)]; lia.
Qed.

Lemma mp_div1norm_inv_spec taba b v e r :
  limbs_ok taba → normalised b → fits 32 v → 1 ≤ e ≤ b → (B + v) * b = B * B - e → 0 ≤ r < b →
  ∃ res r', mp_div1norm_inv taba b v r = (res, r') ∧ limbs_ok res ∧ length res = length taba ∧
    0 ≤ r' < b ∧ val taba + Bn (length taba) * r = val res * b + r'.
Proof.
  intros H Hb Hv He Hinv Hr. induction H as [|a taba Ha H IH].
  { exists [], r. cbn [val length]. rewrite Bn_0. split_and!; auto; lia. }
  cbn [mp_div1norm_inv]. destruct IH as (res & r1 & -> & Hres & Hl & Hr1 & E1).
  rewrite (js_udiv1norm_spec r1 a b v e) by done.
  destruct Hb as [Hb1 Hb2]. destruct (limb_quotient r1 a b Ha Hr1 Hb2) as (Hq & Hm & E2).
  eexists (_ :: res), _. split; [reflexivity|]. cbn [val length]. rewrite Bn_S.
  split_and!; [by constructor|lia|lia|lia|nia].
Qed.

(** Both ways of dividing by a normalised limb. *)
Lemma js_mp_div1norm_spec {S} taba b r (s : S) :
  limbs_ok taba → normalised b → 0 ≤ r < b →
  ∃ res r', js_mp_div1norm taba b r s = (Ok (res, r'), s) ∧ limbs_ok res ∧
    length res = length taba ∧ 0 ≤ r' < b ∧ val taba + Bn (length taba) * r = val res * b + r'.
Proof.
  intros H Hb Hr. unfold js_mp_div1norm. destruct (_ >=? _).
  - destruct (js_udiv1norm_init_spec b s Hb) as (v & e & E & Hv & He & Hinv).
    erewrite bind_run by exact E.
    destruct (mp_div1norm_inv_spec taba b v e r H Hb Hv He Hinv Hr) as (res & r1 & -> & ?). eauto.
  - destruct (Z.eqb_spec b 0); [lia|].
    destruct (js_mp_div1_spec taba b r H Hr (proj2 Hb)) as (res & r1 & -> & ?). eauto.
Qed.

(** ** Parts of an array *)

(** The bounds check of an access that is in bounds. *)
Ltac if_true :=
  match goal with |- context [if ?b then _ else _] => replace b with true by (symmetry; rewrite !andb_true_iff, !Z.leb_le; lia) end.

Lemma limbs_run pre win post :
  limbs (Z.of_nat (length pre)) (Z.of_nat (length win)) (pre ++ win ++ post)
  = (Ok win, pre ++ win ++ post).
Proof.
  unfold limbs. rewrite !length_app. if_true.
  by rewrite !Nat2Z.id, drop_app_length, take_app_length.
Qed.

Lemma set_limbs_run pre win res post :
  length res = length win →
  set_limbs (Z.of_nat (length pre)) res (pre ++ win ++ post) = (Ok tt, pre ++ res ++ post).
Proof.
  intros Hl. unfold set_limbs. rewrite !length_app. if_true.
  rewrite Nat2Z.id, take_app_length, Hl, <-drop_drop, !drop_app_length. done.
Qed.

Lemma in_place_run i n f pre win post res c :
  i = Z.of_nat (length pre) → n = Z.of_nat (length win) →
  f win = (res, c) → length res = length win →
  in_place i n f (pre ++ win ++ post) = (Ok c, pre ++ res ++ post).
Proof.
  intros -> -> Hf Hl. unfold in_place. erewrite bind_run by apply limbs_run. rewrite Hf.
  by erewrite bind_run by (by apply set_limbs_run).
Qed.

Lemma limb_run i pre a post :
  i = Z.of_nat (length pre) → limb i (pre ++ a :: post) = (Ok a, pre ++ a :: post).
Proof. intros ->. unfold limb. erewrite bind_run by reflexivity. by apply rd_app. Qed.

Lemma wr_here i v pre a post :
  i = Z.of_nat (length pre) → wr i v (pre ++ a :: post) = (Ok tt, pre ++ v :: post).
Proof. intros ->. rewrite wr_app. by rewrite <-app_assoc. Qed.

(** ** The product of two numbers *)

Lemma mul_rows op1 op2 done_ rest acc post :
  limbs_ok op1 → limbs_ok op2 → op2 = done_ ++ rest → limbs_ok acc →
  length acc = (length op1 + length done_)%nat → (length rest ≤ length post)%nat →
  val acc = val op1 * val done_ →
  ∃ acc', for_up (length rest) (Z.of_nat (length done_)) (λ i,
      bi ← rd op2 i;
      r ← in_place i (Z.of_nat (length op1)) (λ tabr, js_mp_add_mul1 tabr op1 bi);
      wr (i + Z.of_nat (length op1)) r) (acc ++ post)
    = (Ok tt, acc' ++ drop (length rest) post) ∧ limbs_ok acc' ∧
    length acc' = (length op1 + length op2)%nat ∧ val acc' = val op1 * val op2.
Proof.
  intros H1 H2. revert done_ acc post.
  induction rest as [|b rest IH]; intros dn acc post E2 Hacc Hlen Hpost Hval; cbn [length for_up].
  { exists acc. rewrite E2, app_nil_r. by rewrite drop_0. }
  destruct post as [|x post]; [cbn in Hpost; lia|].
  assert (fits 32 b) as Hb by (rewrite E2 in H2; by apply Forall_app in H2 as [_ [? _]%Forall_cons]).
  rewrite !bind_bind. erewrite bind_run by (rewrite E2; by apply rd_app).
  rewrite bind_bind. set (n := length dn).
  assert (length (drop n acc) = length op1) as Hdl by (rewrite length_drop; unfold n; lia).
  assert (length (take n acc) = n) as Htl by (rewrite length_take; unfold n; lia).
  destruct (js_mp_add_mul1_spec (drop n acc) op1 b) as (res & r & E & Hres & Hlr & Hr & Ev);
    [by apply Forall_drop|done|done|done|].
  erewrite bind_run.
  2:{ rewrite <-(take_drop n acc) at 1. rewrite <-(app_assoc (take n acc)).
      eapply in_place_run; [by rewrite Htl|by rewrite Hdl|exact E|lia]. }
  erewrite bind_run.
  2:{ rewrite app_assoc. apply wr_here. rewrite length_app. lia. }
  specialize (IH (dn ++ [b]) ((take n acc ++ res) ++ [r]) post).
  replace (Z.of_nat (length (dn ++ [b]))) with (Z.of_nat n + 1) in IH by (rewrite length_app; cbn; unfold n; lia).
  destruct IH as (acc' & Hrun & Hok & Hl' & Hv').
  - by rewrite E2, <-app_assoc.
  - apply Forall_app; split; [apply Forall_app; split; [by apply Forall_take|done]|by constructor].
  - rewrite !length_app. cbn [length]. lia.
  - cbn in Hpost. lia.
  - rewrite !val_app, !length_app, Htl, Hlr, Bn_add. cbn [val].
    pose proof (val_app (take n acc) (drop n acc)) as Hs. rewrite take_drop, Htl, Hval in Hs.
    fold n. nia.
  - exists acc'. split; [|done]. cbn [drop]. rewrite <-Hrun. f_equal. by rewrite <-!app_assoc.
Qed.

Lemma js_mp_mul_basecase_spec op1 op2 tab :
  limbs_ok op1 → limbs_ok op2 → op2 ≠ [] → (length op1 + length op2 ≤ length tab)%nat →
  ∃ res, js_mp_mul_basecase op1 op2 tab = (Ok tt, res ++ drop (length res) tab) ∧ limbs_ok res ∧
    length res = (length op1 + length op2)%nat ∧ val res = val op1 * val op2.
Proof.
  intros H1 H2 Hne Hl. destruct op2 as [|b0 op2]; [done|]. unfold js_mp_mul_basecase.
  erewrite bind_run by reflexivity.
  assert (fits 32 b0) as Hb by (by apply Forall_cons in H2 as [? _]).
  destruct (js_mp_mul1_spec op1 b0 0 H1 Hb ltac:(unfold fits; lia)) as (row & h & E & Hrow & Hlr & Hh & Ev).
  rewrite E. cbn [length] in *.
  assert (tab = [] ++ take (length op1) tab ++ drop (length op1) tab) as Htab by (by rewrite take_drop).
  erewrite bind_run.
  2:{ rewrite Htab at 1. apply (set_limbs_run []). rewrite length_take. lia. }
  cbn [app]. destruct (drop (length op1) tab) as [|x post] eqn:Ed.
  { apply (f_equal length) in Ed. rewrite length_drop in Ed. cbn in Ed. lia. }
  erewrite bind_run by (apply wr_here; lia). rewrite Nat.sub_succ, Nat.sub_0_r.
  assert (length post = length tab - length op1 - 1)%nat as Hpost.
  { apply (f_equal length) in Ed. rewrite length_drop in Ed. cbn in Ed. lia. }
  destruct (mul_rows op1 (b0 :: op2) [b0] op2 (row ++ [h]) post) as (acc & Hrun & Hok & Hlen & Hv).
  - done.
  - done.
  - done.
  - apply Forall_app; split; [done|by constructor].
  - rewrite length_app. cbn. lia.
  - lia.
  - rewrite val_snoc, Hlr. cbn [val]. lia.
  - exists acc. split_and!; [|done|cbn [length] in Hlen; lia|done].
    rewrite <-app_assoc in Hrun. cbn [app length] in Hrun. change (Z.of_nat 1) with 1 in Hrun. rewrite Hrun. do 2 f_equal. rewrite Hlen. cbn [length].
    replace (length op1 + S (length op2))%nat with (length op1 + 1 + length op2)%nat by lia.
    by rewrite <-!drop_drop, Ed.
Qed.
