(* ===== verification/BigIntDiv.v ===== *)
(** * Long division of big integers

    [js_mp_divnorm] divides by a number whose high limb is at least [B / 2]: each
    estimated digit is at most 2 too large, so that the loop that adds the
    divisor back runs at most twice. *)
From S2P Require Import Prelude CStd Words CUtils BigIntMp BigIntMpFacts.

(** ** The estimate of a digit *)

Lemma split_last {A} (l : list A) n : length l = S n → ∃ l' a, l = l' ++ [a] ∧ length l' = n.
Proof.
  intros Hl. destruct l as [|x l _] using rev_ind; [done|].
  rewrite length_app in Hl. cbn in Hl. exists l, x. split; [done|lia].
Qed.

Section estimate.
Context (vlow : list Z) (b1 : Z) (um : list Z) (l h : Z).
Hypotheses (Hv : limbs_ok vlow) (Hb1 : normalised b1) (Hum : limbs_ok um)
  (Hl : fits 32 l) (Hh : fits 32 h) (Hlen : length um = length vlow).
#[local] Set Default Proof Using "All".

Let W := Bn (length vlow).
Let V := val vlow + W * b1.
Let U := val um + W * (l + B * h).

(** The digit from the two high limbs of the dividend and the high limb of the
    divisor. *)
Definition high_digit : Z := if h >=? b1 then B - 1 else (h * B + l) / b1.

Lemma high_digit_range : U < V * B → fits 32 high_digit.
Proof.
  intros HU. unfold high_digit, fits, normalised in *. change (2 ^ 32) with B in *. pose proof B_pos.
  rewrite Z.geb_leb. destruct (Z.leb_spec b1 h); [lia|].
  split; [apply Z.div_pos; nia|apply Z.div_lt_upper_bound; nia].
Qed.

Lemma high_digit_bounds :
  U < V * B → (high_digit - 2) * V ≤ U < (high_digit + 1) * V.
Proof.
  intros HU. pose proof (high_digit_range HU) as Hq. unfold fits in *. change (2 ^ 32) with B in *.
  pose proof (val_range vlow Hv) as Hvr. pose proof (val_range um Hum) as Hur. rewrite Hlen in Hur.
  fold W in Hvr, Hur. pose proof (Bn_pos (length vlow)) as HW. fold W in HW.
  destruct Hb1 as [Hb1l Hb1h]. set (t := h * B + l).
  assert (U = val um + t * W) as EU by (unfold U, t; ring).
  assert (high_digit * b1 ≤ t ∧ U < (high_digit + 1) * V) as [Hlow Hhigh].
  { unfold high_digit. rewrite Z.geb_leb. destruct (Z.leb_spec b1 h) as [Hge|Hlt].
    - split; [unfold t; nia|]. replace (B - 1 + 1) with B by lia. lia.
    - pose proof (Z.div_mod t b1 ltac:(lia)) as Hd. pose proof (Z.mod_pos_bound t b1 ltac:(lia)).
      fold t. set (q := t / b1) in *. split; [lia|].
      assert (U < (t + 1) * W) as H1 by lia.
      assert ((t + 1) * W ≤ (q + 1) * b1 * W) as H2 by (apply Z.mul_le_mono_nonneg_r; lia).
      assert ((q + 1) * b1 * W ≤ (q + 1) * V) as H3.
      { assert (0 ≤ q) by (apply Z.div_pos; unfold t; nia). unfold V. nia. }
      lia. }
  split; [|done]. destruct (Z.lt_ge_cases high_digit 2) as [Hs|Hs].
  { assert (0 ≤ t) by (unfold t; nia). assert (0 ≤ t * W) by (apply Z.mul_nonneg_nonneg; lia).
    assert (0 ≤ V) by (unfold V; nia). assert ((high_digit - 2) * V ≤ 0) by (apply Z.mul_nonpos_nonneg; lia). lia. }
  assert ((high_digit - 2) * V ≤ (high_digit - 2) * b1 * W + (high_digit - 2) * W) as H1.
  { unfold V. assert ((high_digit - 2) * val vlow ≤ (high_digit - 2) * W) by (apply Z.mul_le_mono_nonneg_l; lia). lia. }
  assert ((high_digit - 2) * W ≤ 2 * b1 * W) as H2 by (apply Z.mul_le_mono_nonneg_r; lia).
  assert (high_digit * b1 * W ≤ t * W) as H3 by (apply Z.mul_le_mono_nonneg_r; lia).
  lia.
Qed.
End estimate.

(** The inverse of the high limb, or 0 when the division does without. *)
Definition inverse_of (b1 v : Z) : Prop :=
  v = 0 ∨ fits 32 v ∧ ∃ e, 1 ≤ e ≤ b1 ∧ (B + v) * b1 = B * B - e.

Lemma estimate_run b1 v pre um l h post :
  normalised b1 → inverse_of b1 v → fits 32 l → fits 32 h →
  let st := pre ++ (um ++ [l; h]) ++ post in
  estimate b1 v (Z.of_nat (length pre)) (Z.of_nat (length um + 1)) st = (Ok (high_digit b1 l h), st).
Proof.
  intros Hb Hv Hl Hh st. unfold estimate, high_digit. unfold fits in Hh. change (2 ^ 32) with B in Hh.
  pose proof Hb as [Hb1 Hb2].
  assert (limb (Z.of_nat (length pre) + Z.of_nat (length um + 1)) st = (Ok h, st)) as Hrh.
  { unfold st. replace (pre ++ (um ++ [l; h]) ++ post) with ((pre ++ um ++ [l]) ++ h :: post) by (rewrite <-!app_assoc; done).
    apply limb_run. rewrite !length_app. cbn. lia. }
  assert (limb (Z.of_nat (length pre) + Z.of_nat (length um + 1) - 1) st = (Ok l, st)) as Hrl.
  { unfold st. replace (pre ++ (um ++ [l; h]) ++ post) with ((pre ++ um) ++ l :: h :: post) by (rewrite <-!app_assoc; done).
    apply limb_run. rewrite !length_app. cbn. lia. }
  erewrite bind_run by exact Hrh. destruct (Z.geb_spec h b1); [done|].
  erewrite bind_run by exact Hrl. destruct Hv as [->|(Hv & e & He & Hinv)].
  - cbn [negb Z.eqb]. rewrite double_limb by done. unfold div. destruct (Z.eqb_spec b1 0); [unfold B in *; lia|].
    rewrite bind_ret. destruct (limb_quotient h l b1 Hl ltac:(lia) ltac:(lia)) as (Hq & _ & _).
    unfold u32. by rewrite wrap_id.
  - destruct (Z.eqb_spec v 0) as [->|]; cbn [negb].
    + rewrite double_limb by done. unfold div. destruct (Z.eqb_spec b1 0); [unfold B in *; lia|].
      rewrite bind_ret. destruct (limb_quotient h l b1 Hl ltac:(lia) ltac:(lia)) as (Hq & _ & _).
      unfold u32. by rewrite wrap_id.
    + by rewrite (js_udiv1norm_spec h l b1 v e) by (done || lia).
Qed.

(** ** A digit of the quotient *)

Section divisor.
Context (vlow : list Z) (b1 v : Z).
Hypotheses (Hv : limbs_ok vlow) (Hb1 : normalised b1) (Hinv : inverse_of b1 v).
#[local] Set Default Proof Using "All".

Let tabb := vlow ++ [b1].
Let nb := length tabb.
Let V := val tabb.

Lemma divisor_ok : limbs_ok tabb ∧ nb = S (length vlow) ∧ V = val vlow + Bn (length vlow) * b1.
Proof.
  destruct Hb1. split_and!.
  - apply Forall_app. split; [done|]. constructor; [|done]. unfold fits. change (2 ^ 32) with B. unfold B in *; lia.
  - unfold nb, tabb. rewrite length_app. cbn. lia.
  - unfold V, tabb. apply val_snoc.
Qed.

Lemma divisor_range : 0 < V ∧ V < Bn nb ∧ Bn nb ≤ 2 * V.
Proof.
  destruct divisor_ok as (Hok & Hn & HV). pose proof (val_range _ Hok) as Hr. fold V nb in Hr.
  pose proof (val_range vlow Hv). pose proof (Bn_pos (length vlow)) as HW.
  rewrite Hn, Bn_S in *. destruct Hb1. nia.
Qed.

(** Adding the divisor back, [k] times at most: the top limb wraps when the
    value is positive again. *)
Lemma add_back_run k fuel q pre res a post :
  (k < fuel)%nat → fits 32 q → limbs_ok res → fits 32 a → length res = nb →
  let X := val res + Bn nb * a - B * Bn nb in
  X < 0 → - (Z.of_nat k * V) ≤ X → Z.of_nat k ≤ q →
  ∃ q' res', loop fuel (add_back tabb (Z.of_nat (length pre))) q (pre ++ res ++ a :: post)
    = (Ok q', pre ++ res' ++ 0 :: post) ∧ fits 32 q' ∧ limbs_ok res' ∧ length res' = nb ∧
    0 ≤ val res' < V ∧ val res' = X + V * (q - q').
Proof.
  destruct divisor_ok as (Hok & _ & _). pose proof divisor_range as (HV0 & HV1 & _).
  revert k q res a. induction fuel as [|fuel IH]; intros k q res a Hk Hq Hres Ha Hlen X HX HkX Hkq; [lia|].
  destruct k as [|k]; [lia|]. cbn [loop]. unfold add_back at 1. cbv zeta. fold nb.
  assert (u32 (q - 1) = q - 1) as Eq by (apply wrap_id; unfold fits in *; lia). rewrite Eq.
  destruct (js_mp_add_spec res tabb 0 Hres Hok Hlen ltac:(lia)) as (res1 & c & Eadd & Hres1 & Hl1 & Hc & Ev).
  fold V in Ev. rewrite Hlen in *. pose proof (val_range res1 Hres1) as Hr1. rewrite Hl1 in Hr1.
  unfold fits in Ha. change (2 ^ 32) with B in Ha. pose proof (Bn_pos nb) as HB.
  rewrite !bind_bind. erewrite bind_run by (apply in_place_run with (res := res1); [done|by rewrite Hlen|exact Eadd|by rewrite Hl1]).
  assert (∀ z : Z, limb (Z.of_nat (length pre) + Z.of_nat nb) (pre ++ res1 ++ z :: post)
    = (Ok z, pre ++ res1 ++ z :: post)) as Hlimb.
  { intros z. rewrite app_assoc. apply limb_run. rewrite length_app. lia. }
  assert (∀ z z' : Z, wr (Z.of_nat (length pre) + Z.of_nat nb) z' (pre ++ res1 ++ z :: post)
    = (Ok tt, pre ++ res1 ++ z' :: post)) as Hwr.
  { intros z z'. rewrite !app_assoc. apply wr_here. rewrite length_app. lia. }
  assert (∀ a', fits 32 a' → val res1 + Bn nb * a' - B * Bn nb = X + V → X + V < 0 →
    ∃ q' res', loop fuel (add_back tabb (Z.of_nat (length pre))) (q - 1) (pre ++ res1 ++ a' :: post)
    = (Ok q', pre ++ res' ++ 0 :: post) ∧ fits 32 q' ∧ limbs_ok res' ∧ length res' = nb ∧
    0 ≤ val res' < V ∧ val res' = X + V * (q - q')) as Hnext.
  { intros a' Ha' HXa Hneg. destruct (IH k (q - 1) res1 a') as (q' & res' & Hrun & ?);
      [lia|unfold fits in *; lia|done|done|lia|lia|nia|lia|].
    exists q', res'. split; [exact Hrun|]. rewrite HXa in *. intuition lia. }
  destruct (Z.eqb_spec c 0) as [->|Hc1]; cbn [negb].
  - rewrite bind_ret. cbn [ret]. apply Hnext; [unfold fits; change (2 ^ 32) with B; lia|unfold X; lia|nia].
  - assert (c = 1) as -> by lia. rewrite !bind_bind. erewrite bind_run by apply Hlimb.
    rewrite bind_bind. erewrite bind_run by apply Hwr. destruct (Z.lt_ge_cases (X + V) 0) as [Hneg|Hpos].
    + assert (u32 (a + 1) = a + 1) as -> by (apply wrap_id; unfold fits; change (2 ^ 32) with B; nia).
      destruct (Z.eqb_spec (a + 1) 0); [lia|]. rewrite bind_ret. cbn [ret].
      apply Hnext; [unfold fits; change (2 ^ 32) with B; nia|unfold X; lia|done].
    + assert (a = B - 1) as -> by nia. change (u32 (B - 1 + 1)) with 0. cbn [Z.eqb]. rewrite bind_ret.
      exists (q - 1), res1. split_and!; [done|unfold fits in *; lia|done|done|nia|nia|nia].
Qed.

(** The multiple of the divisor subtracted from the low limbs, and what is
    borrowed from the high one. *)
Lemma subtract_run q pre low h post :
  fits 32 q → limbs_ok low → fits 32 h → length low = nb →
  ∃ res r, in_place (Z.of_nat (length pre)) (Z.of_nat nb)
      (λ taba, js_mp_sub_mul1 taba tabb q) (pre ++ low ++ h :: post)
    = (Ok r, pre ++ res ++ h :: post) ∧ limbs_ok res ∧ length res = nb ∧ fits 32 r ∧
    val res + Bn nb * (h - r) = val low + Bn nb * h - q * V.
Proof.
  intros Hq Hlow Hh Hlen. destruct divisor_ok as (Hok & _ & _).
  destruct (js_mp_sub_mul1_spec low tabb q Hlow Hok Hlen Hq) as (res & r & E & Hres & Hl & Hr & Ev).
  exists res, r. fold nb V in Ev, Hl. split_and!; [|done|done|done|lia].
  apply in_place_run; [done|by rewrite Hlen|exact E|by rewrite Hl].
Qed.

(** From an estimate at most 2 too large to the digit. *)
Lemma correct_run q pre low h post :
  fits 32 q → limbs_ok low → fits 32 h → length low = nb →
  let U := val low + Bn nb * h in
  (q - 2) * V ≤ U < (q + 1) * V →
  let i := Z.of_nat (length pre) in
  ∃ q' R, (r ← in_place i (Z.of_nat nb) (λ taba, js_mp_sub_mul1 taba tabb q);
    v ← limb (i + Z.of_nat nb);
    let a := u32 (v - r) in
    let c := b2l (a >? v) in
    wr (i + Z.of_nat nb) a;;
    if negb (c =? 0) then loop 3 (add_back tabb i) q else ret q) (pre ++ low ++ h :: post)
  = (Ok q', pre ++ R ++ 0 :: post) ∧ fits 32 q' ∧ limbs_ok R ∧ length R = nb ∧
  U = q' * V + val R ∧ 0 ≤ val R < V.
Proof.
  intros Hq Hlow Hh Hlen U HU i. pose proof divisor_range as (HV0 & HV1 & _).
  destruct (subtract_run q pre low h post Hq Hlow Hh Hlen) as (res & r & Erun & Hres & Hl & Hr & Ev).
  pose proof (val_range res Hres) as Hrr. rewrite Hl in Hrr. fold U in Ev.
  erewrite bind_run by exact Erun.
  erewrite bind_run by (rewrite app_assoc; apply limb_run; rewrite length_app, Hl; unfold i; lia).
  cbv zeta. erewrite bind_run by (apply wr_here; rewrite length_app, Hl; unfold i; lia).
  rewrite <-app_assoc. unfold fits in Hh, Hr. change (2 ^ 32) with B in Hh, Hr.
  destruct (Z.lt_ge_cases h r) as [Hlt|Hge].
  - assert (u32 (h - r) = h - r + B) as -> by (symmetry; apply Z.mod_unique with (-1); change (2 ^ 32) with B; lia).
    rewrite Z.gtb_ltb. destruct (Z.ltb_spec h (h - r + B)); [|lia]. cbn [b2l Z.eqb negb].
    assert (val low + Bn nb * h - q * V < 0) as Hneg by nia.
    assert (0 ≤ U) as HU0 by (pose proof (val_range low Hlow); unfold U; nia).
    assert (1 ≤ q) as Hq1 by (unfold fits in Hq; unfold U in *; nia).
    destruct (add_back_run (Z.to_nat (Z.min q 2)) 3 q pre res (h - r + B) post) as (q' & R & Hrun & Hq' & HR & HlR & HvR & HeR).
    + lia.
    + done.
    + done.
    + unfold fits. change (2 ^ 32) with B. lia.
    + done.
    + unfold U in *. nia.
    + rewrite Z2Nat.id by lia. unfold U in *. destruct (Z.min_spec q 2) as [[? ->]|[? ->]]; nia.
    + rewrite Z2Nat.id by lia. lia.
    + exists q', R. split_and!; [exact Hrun|done..|nia|lia|lia].
  - assert (h - r = 0) as E0 by (unfold U in *; nia). rewrite E0. change (u32 0) with 0.
    rewrite Z.gtb_ltb. destruct (Z.ltb_spec h 0); [lia|]. cbn [b2l Z.eqb negb].
    exists q, res. split_and!; [done|done|done|done|unfold U in *; nia|lia|unfold U in *; nia].
Qed.

Lemma divnorm_digit_run pre x R post :
  vlow ≠ [] → fits 32 x → limbs_ok R → length R = nb → val R < V →
  ∃ q R', divnorm_digit tabb b1 v (Z.of_nat (length pre)) (pre ++ x :: R ++ post)
      = (Ok q, pre ++ R' ++ 0 :: post) ∧ fits 32 q ∧ limbs_ok R' ∧ length R' = nb ∧
    x + B * val R = q * V + val R' ∧ 0 ≤ val R' < V.
Proof.
  intros Hne Hx HR Hlen HV. destruct divisor_ok as (Hok & Hnb & EV).
  pose proof divisor_range as (HV0 & HV1 & _). pose proof (Bn_pos nb) as HBn.
  (* the low [nb] limbs and the high one; the low ones end with [l] *)
  destruct (split_last R (length vlow)) as (Rm & h & -> & Hm); [lia|].
  destruct (split_last (x :: Rm) (length vlow)) as (um & l & Elow & Hum).
  { cbn. by rewrite Hm. }
  apply Forall_app in HR as [HRm [Hh _]%Forall_cons].
  assert (limbs_ok (x :: Rm)) as Hlow by (by constructor). pose proof Hlow as Hlow'.
  rewrite Elow in Hlow'. apply Forall_app in Hlow' as [Humok [Hl _]%Forall_cons].
  assert (x + B * val (Rm ++ [h]) = val um + Bn (length vlow) * (l + B * h)) as EU.
  { change (x + B * val (Rm ++ [h])) with (val ((x :: Rm) ++ [h])). rewrite Elow, !val_snoc.
    rewrite length_app, Hum. cbn [length]. rewrite Nat.add_1_r, Bn_S. lia. }
  assert (length (x :: Rm) = nb) as Hlenlow by (cbn; lia).
  assert (pre ++ x :: (Rm ++ [h]) ++ post = pre ++ (x :: Rm) ++ h :: post) as ->
    by (by rewrite <-app_assoc).
  unfold divnorm_digit. fold nb. erewrite bind_run.
  2:{ rewrite Elow, <-app_assoc. cbn [app].
      replace (um ++ l :: h :: post) with ((um ++ [l; h]) ++ post) by (by rewrite <-app_assoc).
      replace (Z.of_nat nb) with (Z.of_nat (length um + 1)) by lia. by apply estimate_run. }
  set (qh := high_digit b1 l h).
  rewrite EV in HV. set (W := Bn (length vlow)) in *.
  assert (val um + W * (l + B * h) < (val vlow + W * b1) * B) as HUB.
  { rewrite <-EU. unfold fits in Hx. change (2 ^ 32) with B in Hx. nia. }
  pose proof (high_digit_bounds vlow b1 um l h Hv Hb1 Humok Hl Hh Hum HUB) as Hqb.
  pose proof (high_digit_range vlow b1 um l h Hv Hb1 Humok Hl Hh Hum HUB) as Hqf.
  fold W in Hqb, Hqf. rewrite <-EV, <-EU in Hqb. fold qh in Hqb, Hqf.
  set (U := x + B * val (Rm ++ [h])) in *.
  destruct (correct_run qh pre (x :: Rm) h post Hqf Hlow Hh Hlenlow) as (q & R' & Hrun & Hq & HR' & HlR' & EUq & HvR').
  { rewrite <-Hlenlow, <-val_snoc. exact Hqb. }
  exists q, R'. split_and!; [|done|done|done| |lia|lia].
  - rewrite <-Hrun. unfold bind at 1 4. rewrite Elow. by rewrite <-!app_assoc.
  - unfold U. rewrite <-EUq. change (x + B * val (Rm ++ [h])) with (val ((x :: Rm) ++ [h])).
    by rewrite val_snoc, Hlenlow.
Qed.

(** The digits from the high one down. *)
Lemma digits_run A R post :
  vlow ≠ [] → limbs_ok A → limbs_ok R → length R = nb → val R < V →
  ∃ qs R' post', for_down (length A) (divnorm_digit tabb b1 v) (A ++ R ++ post)
      = (Ok qs, R' ++ post') ∧ limbs_ok qs ∧ length qs = length A ∧ limbs_ok R' ∧ length R' = nb ∧
    length post' = (length A + length post)%nat ∧
    val A + Bn (length A) * val R = val qs * V + val R' ∧ 0 ≤ val R' < V.
Proof.
  intros Hne. revert R post. induction A as [|x A IH] using rev_ind; intros R post HA HR Hlen HV.
  { exists [], R, post. pose proof (val_range R HR). cbn [length for_down val app]. rewrite Bn_0.
    split_and!; auto; lia. }
  apply Forall_app in HA as [HA [Hx _]%Forall_cons].
  rewrite length_app, Nat.add_1_r. cbn [length for_down]. rewrite <-!app_assoc. cbn [app].
  destruct (divnorm_digit_run A x R post Hne Hx HR Hlen HV) as (q & R1 & Hrun & Hq & HR1 & Hl1 & E1 & HV1).
  erewrite bind_run by exact Hrun.
  destruct (IH R1 (0 :: post) HA HR1 Hl1 (proj2 HV1)) as (qs & R' & post' & Hrun' & Hqs & Hlq & HR' & HlR & Hlp & E2 & HV2).
  erewrite bind_run by exact Hrun'. exists (qs ++ [q]), R', post'.
  rewrite !val_snoc, length_app, Bn_S, Hlq. cbn [length] in *.
  split_and!; [done| |lia|done|done|lia| |lia|lia].
  - apply Forall_app; split; [done|by constructor].
  - nia.
Qed.

(** Comparing limbs from the high one. *)
Lemma divnorm_first_run lo hi post :
  limbs_ok hi → length hi = nb →
  divnorm_first tabb (Z.of_nat (length lo)) (lo ++ hi ++ post)
  = (Ok (if val hi <? V then 0 else 1), lo ++ hi ++ post).
Proof.
  intros Hhi Hlen. destruct divisor_ok as (Hok & _ & _). unfold divnorm_first. fold nb.
  set (st := lo ++ hi ++ post).
  assert (∀ k fuel, (k ≤ nb)%nat → (k < fuel)%nat → drop k hi = drop k tabb →
    loop fuel (λ j,
      if j >=? 0 then
        a ← limb (Z.of_nat (length lo) + j);
        b ← rd tabb j;
        if negb (a =? b) then ret (inr (if a <? b then 0 else 1)) else ret (inl (j - 1))
      else ret (inr 1)) (Z.of_nat k - 1) st
    = (Ok (if val (take k hi) <? val (take k tabb) then 0 else 1), st)) as Hgo.
  { induction k as [|k IH]; intros fuel Hk Hf Heq; (destruct fuel as [|fuel]; [lia|]); cbn [loop]; [done|].
    destruct (lookup_lt_is_Some_2 hi k ltac:(lia)) as [a Ha].
    destruct (lookup_lt_is_Some_2 tabb k ltac:(unfold nb in *; lia)) as [b Hb].
    replace (Z.of_nat (S k) - 1) with (Z.of_nat k) by lia.
    destruct (Z.geb_spec (Z.of_nat k) 0); [|lia].
    rewrite !bind_bind. erewrite bind_run.
    2:{ unfold st. rewrite <-(take_drop_middle hi k a Ha) at 1. rewrite <-!app_assoc, app_assoc. cbn [app].
        apply limb_run. rewrite length_app, length_take. lia. }
    rewrite bind_bind. erewrite bind_run by (apply rd_run; [lia|by rewrite Nat2Z.id]).
    replace ((lo ++ take k hi) ++ a :: drop (S k) hi ++ post) with st.
    2:{ unfold st. rewrite <-(take_drop_middle hi k a Ha) at 1. by rewrite <-!app_assoc. }
    rewrite (take_S_r _ _ _ Ha), (take_S_r _ _ _ Hb), !val_snoc, !length_take, !Nat.min_l by (unfold nb in *; lia).
    assert (limbs_ok (take k hi) ∧ limbs_ok (take k tabb)) as [Hth Htt] by (split; by apply Forall_take).
    pose proof (val_range _ Hth) as H1. pose proof (val_range _ Htt) as H2.
    rewrite length_take, Nat.min_l in H1, H2 by (unfold nb in *; lia).
    destruct (Z.eqb_spec a b) as [->|Hne]; cbn [negb].
    - rewrite bind_ret. cbn [ret]. rewrite IH; [|lia|lia|].
      + do 2 f_equal. by destruct (Z.ltb_spec (val (take k hi)) (val (take k tabb))),
          (Z.ltb_spec (val (take k hi) + Bn k * b) (val (take k tabb) + Bn k * b)); try lia.
      + rewrite (drop_S hi _ _ Ha), (drop_S tabb _ _ Hb). by f_equal.
    - rewrite bind_ret. unfold ret. do 3 f_equal.
      destruct (Z.ltb_spec a b), (Z.ltb_spec (val (take k hi) + Bn k * a) (val (take k tabb) + Bn k * b)); try done; nia. }
  rewrite Hgo; [|lia|lia|rewrite !drop_ge by (unfold nb in *; lia); done].
  by rewrite !take_ge by (unfold nb in *; lia).
Qed.
End divisor.

Lemma inverse_run {S} b1 (c : bool) (s : S) :
  normalised b1 →
  ∃ v, (if c then js_udiv1norm_init b1 else ret 0) s = (Ok v, s) ∧ inverse_of b1 v.
Proof.
  intros Hb. destruct c; [|exists 0; split; [done|by left]].
  destruct (js_udiv1norm_init_spec b1 s Hb) as (v & e & E & Hv & He & Hi).
  exists v. split; [done|]. right. eauto.
Qed.

(** The first digit is subtracted, once at most. *)
Lemma first_digit_run vlow b1 lo hi post :
  limbs_ok vlow → normalised b1 → limbs_ok hi → length hi = S (length vlow) →
  let tabb := vlow ++ [b1] in
  let q := if val hi <? val tabb then 0 else 1 in
  ∃ R, (if negb (q =? 0)
        then in_place (Z.of_nat (length lo)) (Z.of_nat (length tabb)) (λ taba, js_mp_sub taba tabb 0);; ret tt
        else ret tt) (lo ++ hi ++ post) = (Ok tt, lo ++ R ++ post) ∧
    limbs_ok R ∧ length R = length hi ∧ val hi = q * val tabb + val R ∧ 0 ≤ val R < val tabb.
Proof.
  intros Hv Hb Hhi Hlen tabb q.
  destruct (divisor_ok vlow b1 0 Hv Hb ltac:(by left)) as (Hok & Hnb & _).
  destruct (divisor_range vlow b1 0 Hv Hb ltac:(by left)) as (HV0 & HV1 & HV2).
  pose proof (val_range hi Hhi) as Hr. unfold q.
  destruct (Z.ltb_spec (val hi) (val tabb)) as [Hlt|Hge]; cbn [Z.eqb negb].
  { exists hi. split_and!; [done..|lia|lia|done]. }
  destruct (js_mp_sub_spec hi tabb 0 Hhi Hok ltac:(unfold tabb in *; lia) ltac:(lia))
    as (R & k & E & HR & HlR & Hk & Ev).
  erewrite bind_run by (apply in_place_run; [done|unfold tabb; rewrite Hnb; lia|exact E|done]).
  pose proof (val_range R HR) as HrR. rewrite HlR in HrR.
  rewrite Hlen in *. rewrite Hnb in HV1, HV2.
  assert (k = 0) as -> by (unfold tabb in *; nia).
  exists R. unfold tabb in *. split_and!; [done|done|done|lia|lia|lia].
Qed.

(** Long division. The dividend is the first [na] limbs of the array; the
    remainder takes the place of its low limbs. *)
Lemma js_mp_divnorm_spec A post vlow b1 :
  limbs_ok A → limbs_ok vlow → normalised b1 → (length vlow < length A)%nat →
  let tabb := vlow ++ [b1] in
  ∃ qs R post', js_mp_divnorm (Z.of_nat (length A)) tabb (A ++ post) = (Ok qs, R ++ post') ∧
    limbs_ok qs ∧ length qs = (length A - length vlow)%nat ∧
    limbs_ok R ∧ length R = length tabb ∧ (length (R ++ post') = length A + length post)%nat ∧
    val A = val qs * val tabb + val R ∧ 0 ≤ val R < val tabb.
Proof.
  intros HA Hv Hb Hlen tabb. unfold js_mp_divnorm.
  assert (length tabb = S (length vlow)) as Hnb by (unfold tabb; rewrite length_app; cbn; lia).
  rewrite Hnb. erewrite bind_run by (apply rd_app; lia).
  destruct (Z.eqb_spec (Z.of_nat (S (length vlow))) 1) as [E1|E1].
  - assert (vlow = []) as -> by (destruct vlow; [done|cbn in E1; lia]).
    assert (A ++ post = [] ++ A ++ post) as -> by done.
    erewrite bind_run by apply (limbs_run []).
    destruct (js_mp_div1norm_spec A b1 0 ([] ++ A ++ post) HA Hb) as (qs & r & E & Hqs & Hl & Hr & Ev).
    { destruct Hb. unfold B in *. lia. }
    erewrite bind_run by exact E. destruct A as [|a A]; [cbn in Hlen; lia|]. cbn [app].
    erewrite bind_run by (by apply (wr_here 0 r [])).
    exists qs, [r], (A ++ post). cbn [app length] in *.
    unfold tabb. cbn [app val length] in *. split_and!; [done|done|lia| |done|rewrite length_app; lia|lia|lia|lia].
    constructor; [|done]. unfold fits. change (2 ^ 32) with B. destruct Hb. lia.
  - assert (vlow ≠ []) as Hne by (by intros ->).
    set (n := (length A - S (length vlow))%nat).
    assert (Z.of_nat (length A) - Z.of_nat (S (length vlow)) = Z.of_nat n) as -> by (unfold n; lia).
    destruct (inverse_run b1 (Z.of_nat n >=? UDIV1NORM_THRESHOLD) (A ++ post) Hb) as (v & Ei & Hi).
    erewrite bind_run by exact Ei. set (lo := take n A). set (hi := drop n A).
    assert (A ++ post = lo ++ hi ++ post) as -> by (unfold lo, hi; by rewrite app_assoc, take_drop).
    assert (length lo = n) as Hlo by (unfold lo; rewrite length_take; unfold n; lia).
    assert (length hi = S (length vlow)) as Hhi by (unfold hi; rewrite length_drop; unfold n; lia).
    assert (limbs_ok lo) as Hlok by (by apply Forall_take).
    assert (limbs_ok hi) as Hhok by (by apply Forall_drop).
    replace (Z.of_nat n) with (Z.of_nat (length lo)) by lia.
    erewrite bind_run by (apply (divnorm_first_run vlow b1 0); [done|done|by left|done|fold tabb; lia]).
    destruct (first_digit_run vlow b1 lo hi post Hv Hb Hhok Hhi) as (R0 & E0 & HR0 & HlR0 & Ev0 & HvR0).
    cbv zeta in E0, Ev0. fold tabb in E0, Ev0, HvR0. rewrite Hnb in E0.
    set (q := if val hi <? val tabb then 0 else 1) in *.
    erewrite bind_run by exact E0. rewrite Nat2Z.id.
    destruct (digits_run vlow b1 v Hv Hb Hi lo R0 post Hne Hlok HR0) as
      (qs & R & post' & E & Hqs & Hlq & HR & HlR & Hlp & Ev & HvR); [fold tabb; lia|fold tabb; lia|].
    fold tabb in E, Ev, HvR, HlR. erewrite bind_run by exact E. exists (qs ++ [q]), R, post'.
    assert (val A = val lo + Bn n * val hi) as EA.
    { transitivity (val (lo ++ hi)); [unfold lo, hi; by rewrite take_drop|]. by rewrite val_app, Hlo. }
    split_and!; [done| | |done|lia| | |lia|lia].
    + apply Forall_app; split; [done|]. constructor; [|done]. unfold q, fits. destruct (_ <? _); lia.
    + rewrite length_app. cbn. unfold n in Hlo. lia.
    + rewrite length_app. unfold n in Hlo. lia.
    + rewrite val_snoc, Hlq, EA, Ev0. rewrite Hlo in *. nia.
Qed.
