(* ===== verification/BigInt.v ===== *)
(** * The big integers of QuickJS

    The [js_bigint_*] operations of [src/vendors/qjs/quickjs/quickjs.c]. A
    [JSBigInt] is the list of its limbs, in two's complement; its length is
    [len]. [NULL] is [None]. The context keeps what the operations change beside
    their results: the pending exception and the number of big integers and limb
    arrays that are allocated and not freed; it also says which of the coming
    allocations succeed. What a fresh block holds is arbitrary. *)
From S2P Require Import Prelude CStd Words CUtils BigIntMp.

Definition JS_BIGINT_MAX_SIZE : Z := (1024 * 1024) / JS_LIMB_BITS.

(** ** The context *)

Inductive js_exception : Type :=
  | OutOfMemory
  | RangeError (msg : string).

Record JSContext : Type := {
  grants : list bool;               (** the outcomes of the coming allocations; then all succeed *)
  pending : option js_exception;    (** the exception thrown last *)
  live : Z;                         (** the blocks allocated and not freed *)
}.

#[global] Instance js_exception_eq_dec : EqDecision js_exception.
Proof. solve_decision. Defined.

(** What a limb of a fresh block holds. *)
Class Malloc := { fresh_limb : nat → Z }.
Definition fresh_limbs `{Malloc} (n : nat) : list Z := (λ i, u32 (fresh_limb i)) <$> seq 0 n.

Definition JS_Throw (e : js_exception) : M JSContext unit :=
  modify (λ c, {| grants := grants c; pending := Some e; live := live c |}).

(** Whether the next allocation succeeds. *)
Definition next_grant : M JSContext bool := λ c,
  match grants c with
  | [] => (Ok true, c)
  | g :: gs => (Ok g, {| grants := gs; pending := pending c; live := live c |})
  end.

Definition js_malloc : M JSContext bool :=
  ok ← next_grant;
  if (ok : bool) then
    modify (λ c, {| grants := grants c; pending := pending c; live := live c + 1 |});; ret true
  else JS_Throw OutOfMemory;; ret false.

(** The block stays allocated, moved or not. *)
Definition js_realloc : M JSContext bool :=
  ok ← next_grant;
  if (ok : bool) then ret true else JS_Throw OutOfMemory;; ret false.

Definition js_free : M JSContext unit :=
  modify (λ c, {| grants := grants c; pending := pending c; live := live c - 1 |}).

(** [r = m; if (!r) return NULL;] *)
Definition non_null {S A B} (m : M S (option A)) (k : A → M S (option B)) : M S (option B) :=
  r ← m; match r with Some a => k a | None => ret None end.
Notation "x ⇐ y ; z" := (non_null y (λ x : _, z))
  (at level 20, y at level 100, z at level 200, only parsing) : moe_scope.

(** A routine on limbs, run on the limbs of a block. *)
Definition on_tab {A} (tab : list Z) (m : M (list Z) A) : M JSContext (A * list Z) := λ c,
  match m tab with
  | (Ok a, tab') => (Ok (a, tab'), c)
  | (Err e, _) => (Err e, c)
  end.

(** ** Creation *)

Definition bigint : Type := list Z.

Definition len (a : bigint) : Z := Z.of_nat (length a).

Definition js_bigint_new `{Malloc} (n : Z) : M JSContext (option bigint) :=
  if n >? JS_BIGINT_MAX_SIZE then
    JS_Throw (RangeError "BigInt is too large to allocate");; ret None
  else
    ok ← js_malloc;
    ret (if (ok : bool) then Some (fresh_limbs (Z.to_nat n)) else None).

Definition js_bigint_set_si (a : Z) : bigint := [u32 a].

Definition INT32_MIN : Z := - 2 ^ 31.
Definition INT32_MAX : Z := 2 ^ 31 - 1.

Definition js_bigint_set_si64 (a : Z) : bigint :=
  if (a >=? INT32_MIN) && (a <=? INT32_MAX) then [u32 a]
  else [u32 a; u32 (Z.shiftr a JS_LIMB_BITS)].

(** The short big integer of a value. *)
Definition js_bigint_set_short (val : Z) : bigint := js_bigint_set_si val.

Definition js_bigint_new_si `{Malloc} (a : Z) : M JSContext (option bigint) :=
  r ⇐ js_bigint_new 1;
  ret (Some [u32 a]).

Definition js_bigint_new_si64 `{Malloc} (a : Z) : M JSContext (option bigint) :=
  if (a >=? INT32_MIN) && (a <=? INT32_MAX) then js_bigint_new_si a
  else
    r ⇐ js_bigint_new 2;
    ret (Some [u32 a; u32 (Z.shiftr a 32)]).

Definition js_bigint_new_ui64 `{Malloc} (a : Z) : M JSContext (option bigint) :=
  if a <=? INT64_MAX then js_bigint_new_si64 a
  else
    r ⇐ js_bigint_new ((65 + JS_LIMB_BITS - 1) / JS_LIMB_BITS);
    ret (Some [u32 a; u32 (Z.shiftr a 32); 0]).

Definition js_bigint_new_di `{Malloc} (a : Z) : M JSContext (option bigint) :=
  if a =? to_int a then
    r ⇐ js_bigint_new 1;
    ret (Some [u32 a])
  else
    r ⇐ js_bigint_new 2;
    ret (Some [u32 a; u32 (Z.shiftr a JS_LIMB_BITS)]).

(** ** Normal forms *)

(** The loop of [js_bigint_normalize1]: the limbs that are needed. *)
Fixpoint normal_len {S} (a : bigint) (l : nat) : M S nat :=
  match l with
  | Datatypes.S (Datatypes.S k as l') =>
      v ← rd a (Z.of_nat l');
      w ← rd a (Z.of_nat k);
      if (negb (v =? 0) && negb (v =? u32 (-1)))
         || negb (Z.land v 1 =? Z.shiftr w (JS_LIMB_BITS - 1))
      then ret l else normal_len a l'
  | _ => ret l
  end.

(** When the block cannot be made smaller, it is kept as it is. *)
Definition js_bigint_normalize1 (a : bigint) (l : nat) : M JSContext bigint :=
  l ← normal_len a l;
  if negb (l =? length a)%nat then
    ok ← js_realloc;
    ret (take l a)
  else ret a.

Definition js_bigint_normalize (a : bigint) : M JSContext bigint :=
  js_bigint_normalize1 a (length a).

Definition js_bigint_sign {S} (a : bigint) : M S Z :=
  v ← rd a (len a - 1); ret (Z.shiftr v (JS_LIMB_BITS - 1)).

Definition js_bigint_get_si_sat {S} (a : bigint) : M S Z :=
  if len a =? 1 then v ← rd a 0; ret (to_int v)
  else
    s ← js_bigint_sign a;
    ret (if negb (s =? 0) then INT32_MIN else INT32_MAX).

Definition js_bigint_extend (r : bigint) (op1 : Z) : M JSContext (option bigint) :=
  v ← rd r (len r - 1);
  if (negb (op1 =? 0) && negb (op1 =? u32 (-1)))
     || negb (Z.land op1 1 =? Z.shiftr v (JS_LIMB_BITS - 1)) then
    ok ← js_realloc;
    if (ok : bool) then ret (Some (r ++ [op1])) else js_free;; ret None
  else r ← js_bigint_normalize r; ret (Some r).

(** ** Sums and products *)

(** [b->tab[i] ^ (-b_neg)], for the limbs of a list. *)
Definition flip (b_neg : Z) (l : list Z) : list Z := (λ v, Z.lxor v (u32 (- b_neg))) <$> l.

(** The three loops are [js_mp_add]'s, on the limbs that are there and on copies
    of the sign. *)
Definition js_bigint_add `{Malloc} (a b : bigint) (b_neg : Z) : M JSContext (option bigint) :=
  let n2 := max_int (len a) (len b) in
  let n1 := Z.to_nat (min_int (len a) (len b)) in
  r ⇐ js_bigint_new n2;
  let '(r1, carry) := js_mp_add (take n1 a) (flip b_neg (take n1 b)) b_neg in
  sa ← js_bigint_sign a;
  sb ← js_bigint_sign b;
  let a_sign := u32 (- sa) in
  let b_sign := Z.lxor (u32 (- sb)) (u32 (- b_neg)) in
  let '(r2, carry) :=
    if len a >? len b then js_mp_add (drop n1 a) (replicate (length a - n1) b_sign) carry
    else if len a <? len b
    then js_mp_add (replicate (length b - n1) a_sign) (flip b_neg (drop n1 b)) carry
    else ([], carry) in
  js_bigint_extend (r1 ++ r2) (u32 (a_sign + b_sign + carry)).

Definition js_bigint_neg `{Malloc} (a : bigint) : M JSContext (option bigint) :=
  js_bigint_add (js_bigint_set_si 0) a 1.

Definition js_bigint_mul `{Malloc} (a b : bigint) : M JSContext (option bigint) :=
  r ⇐ js_bigint_new (len a + len b);
  '(_, r) ← on_tab r (js_mp_mul_basecase a b);
  sa ← js_bigint_sign a;
  '(_, r) ← (if negb (sa =? 0)
             then on_tab r (in_place (len a) (len b) (λ l, js_mp_sub l b 0)) else ret (0, r));
  sb ← js_bigint_sign b;
  '(_, r) ← (if negb (sb =? 0)
             then on_tab r (in_place (len b) (len a) (λ l, js_mp_sub l a 0)) else ret (0, r));
  r ← js_bigint_normalize r;
  ret (Some r).

(** ** Division *)

(** [while (n > 1 && tab[n - 1] == 0) n--;] *)
Fixpoint strip_zeros {S} (tab : list Z) (n : nat) : M S nat :=
  match n with
  | Datatypes.S (Datatypes.S _ as n') =>
      v ← rd tab (Z.of_nat n');
      if v =? 0 then strip_zeros tab n' else ret n
  | _ => ret n
  end.

(** The limbs of the absolute value. *)
Definition abs_limbs (sign : Z) (a : bigint) : list Z :=
  if negb (sign =? 0) then (js_mp_neg a).1 else a.

(** The operands shifted so that the high limb of the divisor is normalised:
    the dividend's array, its length, and the divisor. *)
Definition divrem_normalise (rtab tabb : list Z) (na shift : Z) : M JSContext (list Z * Z * list Z) :=
  if negb (shift =? 0) then
    let '(tabb, _) := js_mp_shl tabb shift in
    '(h, rtab) ← on_tab rtab (in_place 0 na (λ l, js_mp_shl l shift));
    if negb (h =? 0) then
      '(_, rtab) ← on_tab rtab (wr na h);
      ret (rtab, na + 1, tabb)
    else ret (rtab, na, tabb)
  else ret (rtab, na, tabb).

Definition js_bigint_divrem `{Malloc} (a b : bigint) (is_rem : bool) : M JSContext (option bigint) :=
  b0 ← rd b 0;
  if (len b =? 1) && (b0 =? 0) then
    JS_Throw (RangeError "BigInt division by zero");; ret None
  else
    a_sign ← js_bigint_sign a;
    b_sign ← js_bigint_sign b;
    r ⇐ js_bigint_new (len a + 2);
    let rtab := abs_limbs a_sign a ++ drop (length a) r in
    na ← strip_zeros rtab (length a);
    ok ← js_malloc;
    if negb ok then js_free;; ret None
    else
      let tabb := abs_limbs b_sign b in
      nb ← strip_zeros tabb (length b);
      if (na <? nb)%nat then
        js_free;;
        js_free;;
        if is_rem then r ⇐ js_bigint_new (len a); ret (Some a)
        else js_bigint_new_si 0
      else
        top ← rd tabb (Z.of_nat nb - 1);
        shift ← js_limb_clz top;
        '(rtab, na, tabb) ← divrem_normalise rtab (take nb tabb) (Z.of_nat na) shift;
        q ← js_bigint_new (na - Z.of_nat nb + 2);
        match q with
        | None => js_free;; js_free;; ret None
        | Some _ =>
            '(qs, rtab) ← on_tab rtab (js_mp_divnorm na tabb);
            js_free;;
            if is_rem then
              js_free;;
              '(_, rtab) ← (if negb (shift =? 0)
                            then on_tab rtab (in_place 0 (Z.of_nat nb) (λ l, js_mp_shr l shift 0))
                            else ret (0, rtab));
              '(_, rtab) ← on_tab rtab (wr (Z.of_nat nb) 0);
              '(_, rtab) ← (if negb (a_sign =? 0)
                            then on_tab rtab (in_place 0 (Z.of_nat nb + 1) js_mp_neg)
                            else ret (0, rtab));
              r ← js_bigint_normalize1 rtab (nb + 1);
              ret (Some r)
            else
              js_free;;
              let q := qs ++ [0] in
              let q := if negb (Z.lxor a_sign b_sign =? 0) then (js_mp_neg q).1 else q in
              q ← js_bigint_normalize q;
              ret (Some q)
        end.

(** ** Bitwise operations and shifts *)

(** The operators [js_bigint_logic] is called with, and the others. *)
Inductive OPCodeEnum : Type := OP_or | OP_and | OP_xor | OP_other.

Definition js_bigint_logic `{Malloc} (a b : bigint) (op : OPCodeEnum) : M JSContext (option bigint) :=
  let '(a, b) := if len a <? len b then (b, a) else (a, b) in
  sb ← js_bigint_sign b;
  let b_sign := u32 (- sb) in
  let b := b ++ replicate (length a - length b) b_sign in
  r ⇐ js_bigint_new (len a);
  match op with
  | OP_or => r ← js_bigint_normalize (zip_with Z.lor a b); ret (Some r)
  | OP_and => r ← js_bigint_normalize (zip_with Z.land a b); ret (Some r)
  | OP_xor => r ← js_bigint_normalize (zip_with Z.lxor a b); ret (Some r)
  | OP_other => throw AssertFailed
  end.

Definition js_bigint_not `{Malloc} (a : bigint) : M JSContext (option bigint) :=
  r ⇐ js_bigint_new (len a);
  ret (Some ((λ v, u32 (Z.lnot v)) <$> a)).

Definition js_bigint_shl `{Malloc} (a : bigint) (shift1 : Z) : M JSContext (option bigint) :=
  a0 ← rd a 0;
  if (len a =? 1) && (a0 =? 0) then js_bigint_new_si 0
  else
    let d := shift1 / JS_LIMB_BITS in
    let shift := shift1 mod JS_LIMB_BITS in
    r ⇐ js_bigint_new (len a + d);
    let low := replicate (Z.to_nat d) 0 in
    if shift =? 0 then ret (Some (low ++ a))
    else
      let '(res, l) := js_mp_shl a shift in
      s ← js_bigint_sign a;
      let l := if negb (s =? 0) then Z.lor l (u32 (Z.shiftl (u32 (-1)) shift)) else l in
      js_bigint_extend (low ++ res) l.

Definition js_bigint_shr `{Malloc} (a : bigint) (shift1 : Z) : M JSContext (option bigint) :=
  let d := shift1 / JS_LIMB_BITS in
  let shift := shift1 mod JS_LIMB_BITS in
  a_sign ← js_bigint_sign a;
  if d >=? len a then js_bigint_new_si (- a_sign)
  else
    let n1 := len a - d in
    r ⇐ js_bigint_new n1;
    let high := drop (Z.to_nat d) a in
    if shift =? 0 then ret (Some high)
    else
      let '(res, _) := js_mp_shr high shift (u32 (- a_sign)) in
      r ← js_bigint_normalize res;
      ret (Some r).

(** ** Powers *)

(** A power of a power of two: [v = 2^n] is the absolute value of the base. *)
Definition pow_of_pow2 `{Malloc} (v : Z) (is_neg : bool) (b : bigint) : M JSContext (option bigint) :=
  let overflow := JS_Throw (RangeError "BigInt is too large");; ret None in
  clz ← js_limb_clz v;
  let n := JS_LIMB_BITS - 1 - clz in
  e ← rd b 0;
  if (len b >? 1) || (e >? INT32_MAX) then overflow
  else
    let e1 := u64 (e * n) in
    if e1 >? JS_BIGINT_MAX_SIZE * JS_LIMB_BITS then overflow
    else
      let is_neg := if is_neg then Z.land e 1 else 0 in
      r ⇐ js_bigint_new ((e1 + JS_LIMB_BITS + 1 - is_neg) / JS_LIMB_BITS);
      '(_, r) ← on_tab (replicate (length r) 0)
                  (wr (e1 / JS_LIMB_BITS) (u32 (Z.shiftl (u32 (1 - 2 * is_neg)) (e1 mod JS_LIMB_BITS))));
      ret (Some r).

(** One bit of the exponent: [r * r], then [* a] when it is set. The products
    that fail leave their operand allocated. *)
Definition pow_bit `{Malloc} (a : bigint) (e : Z) (i : Z) (r : bigint) : M JSContext (option bigint) :=
  r1 ⇐ js_bigint_mul r r;
  _ ⇐ (js_free;; ret (Some tt));
  if negb (Z.land (Z.shiftr e i) 1 =? 0) then
    r2 ⇐ js_bigint_mul r1 a;
    js_free;; ret (Some r2)
  else ret (Some r1).

(** [for (i = n - 1; i >= 0; i--)] *)
Fixpoint pow_bits `{Malloc} (a : bigint) (e : Z) (n : nat) (r : bigint) : M JSContext (option bigint) :=
  match n with
  | O => ret (Some r)
  | S n => r ⇐ pow_bit a e (Z.of_nat n) r; pow_bits a e n r
  end.

Definition js_bigint_pow `{Malloc} (a b : bigint) : M JSContext (option bigint) :=
  let overflow := JS_Throw (RangeError "BigInt is too large");; ret None in
  let general :=
    e ← rd b 0;
    if (len b >? 1) || (e >? INT32_MAX) then overflow
    else
      clz ← clz32 e;
      let n_bits := 32 - clz in
      r ⇐ js_bigint_new (len a);
      pow_bits a e (Z.to_nat (n_bits - 1)) a in
  s ← js_bigint_sign b;
  if negb (s =? 0) then
    JS_Throw (RangeError "BigInt negative exponent");; ret None
  else
    b0 ← rd b 0;
    if (len b =? 1) && (b0 =? 0) then js_bigint_new_si 1
    else if len a =? 1 then
      v ← rd a 0;
      if v <=? 1 then js_bigint_new_si v
      else if v =? u32 (-1) then js_bigint_new_si (1 - 2 * Z.land b0 1)
      else
        let is_neg := to_int v <? 0 in
        let v := if is_neg then u32 (- v) else v in
        if Z.land v (v - 1) =? 0 then pow_of_pow2 v is_neg b else general
    else general.

(** ** Comparison *)

Fixpoint cmp_limbs {S} (a b : bigint) (n : nat) : M S Z :=
  match n with
  | O => ret 0
  | Datatypes.S n =>
      x ← rd a (Z.of_nat n);
      y ← rd b (Z.of_nat n);
      if negb (x =? y) then ret (if x <? y then -1 else 1) else cmp_limbs a b n
  end.

Definition js_bigint_cmp {S} (a b : bigint) : M S Z :=
  a_sign ← js_bigint_sign a;
  b_sign ← js_bigint_sign b;
  if negb (a_sign =? b_sign) then ret (1 - 2 * a_sign)
  else if negb (len a =? len b) then
    ret (if len a <? len b then 2 * a_sign - 1 else 1 - 2 * a_sign)
  else cmp_limbs a b (length a).

(** ** Examples *)

#[local] Instance zeros : Malloc := {| fresh_limb := λ _, 0 |}.
Definition no_failure : JSContext := {| grants := []; pending := None; live := 0 |}.
Definition result {A} (r : outcome A * JSContext) : outcome A := r.1.

(** -2^32 divided by 3, its square, and 3^40. *)
Example divide : result (js_bigint_divrem [0; u32 (-1)] [3] false no_failure)
  = Ok (Some [u32 (- 1431655765)]).
Proof. vm_compute. reflexivity. Qed.
Example remainder : result (js_bigint_divrem [0; u32 (-1)] [3] true no_failure)
  = Ok (Some [u32 (-1)]).
Proof. vm_compute. reflexivity. Qed.
Example square : result (js_bigint_mul [0; u32 (-1)] [0; u32 (-1)] no_failure)
  = Ok (Some [0; 0; 1]).
Proof. vm_compute. reflexivity. Qed.
Example power : result (js_bigint_pow [3] [40] no_failure)
  = Ok (Some [3 ^ 40 mod 2 ^ 32; 3 ^ 40 / 2 ^ 32; 0]).
Proof. vm_compute. reflexivity. Qed.
