(* ===== verification/BigIntFacts.v ===== *)
(** * Big integers: values and normal forms

    [sval] is the integer the limbs stand for in two's complement, [normal] the
    minimal representation. [computes m size x] says what a big integer
    operation promises: from every context it ends without undefined behaviour,
    in the normal form of [x] in one more block, or in [NULL] with an exception
    pending and no block more; and it succeeds when the allocations do and the
    size is within the limit. *)
From S2P Require Import Prelude CStd Words CUtils BigIntMp BigIntMpFacts BigIntDiv BigInt.

(** ** Values *)

Definition top (a : bigint) : Z := List.last a 0.
Definition negative (a : bigint) : bool := 2 ^ 31 <=? top a.
Definition sval (a : bigint) : Z := val a - (if negative a then Bn (length a) else 0).

(** The limbs of a number. *)
Definition wf (a : bigint) : Prop := limbs_ok a ∧ a ≠ [].

(** The last limb is not the extension of the sign of the limb before it. *)
Definition minimal (a : bigint) : Prop :=
  length a = 1%nat ∨
  ∃ l w v, a = l ++ [w; v] ∧ v ≠ (if 2 ^ 31 <=? w then B - 1 else 0).
Definition normal (a : bigint) : Prop := wf a ∧ minimal a.

Lemma wf_snoc a : wf a → ∃ l v, a = l ++ [v] ∧ limbs_ok l ∧ fits 32 v.
Proof.
  intros [Ha Hne]. destruct a as [|v l _] using rev_ind; [done|]. exists l, v.
  apply Forall_app in Ha as [? [? _]%Forall_cons]. done.
Qed.

Lemma top_snoc l v : top (l ++ [v]) = v.
Proof. apply List.last_last. Qed.

Lemma sval_snoc l v :
  sval (l ++ [v]) = val l + Bn (length l) * (if 2 ^ 31 <=? v then v - B else v).
Proof.
  unfold sval, negative. rewrite top_snoc, val_snoc, length_app, Nat.add_1_r, Bn_S.
  destruct (_ <=? _); lia.
Qed.

Lemma sval_range a : wf a → - Bn (length a) ≤ 2 * sval a < Bn (length a).
Proof.
  intros (l & v & -> & Hl & Hv)%wf_snoc. rewrite sval_snoc, length_app, Nat.add_1_r, Bn_S.
  pose proof (val_range l Hl). unfold fits in Hv. assert (B = 2 * 2 ^ 31) as EB by done.
  destruct (Z.leb_spec (2 ^ 31) v); nia.
Qed.

Lemma sval_mod a : wf a → val a = sval a mod Bn (length a).
Proof.
  intros [Ha _]. pose proof (val_range a Ha). unfold sval. destruct (negative a).
  - apply Z.mod_unique with (-1); lia.
  - rewrite Z.sub_0_r. symmetry. by apply Z.mod_small.
Qed.

Lemma negative_sval a : wf a → negative a = (sval a <? 0).
Proof.
  intros Hwf. pose proof (val_range a (proj1 Hwf)). destruct (negative a) eqn:E.
  - symmetry. apply Z.ltb_lt. unfold sval. rewrite E. lia.
  - symmetry. apply Z.ltb_ge. unfold sval. rewrite E. lia.
Qed.

(** The limbs that stand for an integer in range. *)
Lemma sval_intro a x :
  wf a → val a = x mod Bn (length a) → - Bn (length a) ≤ 2 * x < Bn (length a) → sval a = x.
Proof.
  intros Hwf Hv Hx. pose proof (sval_range a Hwf) as Hr. rewrite (sval_mod a Hwf) in Hv.
  pose proof (Bn_pos (length a)) as HB.
  pose proof (Z.div_mod x (Bn (length a)) ltac:(lia)) as E1.
  pose proof (Z.div_mod (sval a) (Bn (length a)) ltac:(lia)) as E2. rewrite Hv in E2.
  set (q := x / _) in *. set (q' := sval a / _) in *.
  destruct (Z.lt_trichotomy q q') as [|[->|]]; [exfalso; nia|lia|exfalso; nia].
Qed.

(** Normal forms are unique. *)
Lemma minimal_size a n :
  normal a → (0 < n)%nat → - Bn n ≤ 2 * sval a < Bn n → (length a ≤ n)%nat.
Proof.
  intros [Hwf [Hl|(l & w & v & -> & Hne)]] Hn Hx; [lia|].
  destruct (Nat.le_gt_cases (length (l ++ [w; v])) n) as [|Hlt]; [done|exfalso].
  rewrite length_app in Hlt. cbn in Hlt.
  destruct Hwf as [Hok _]. apply Forall_app in Hok as [Hl [Hw [Hv _]%Forall_cons]%Forall_cons].
  assert (Bn n ≤ Bn (S (length l))) as Hle.
  { unfold Bn. apply Z.pow_le_mono_r; [done|lia]. }
  replace (l ++ [w; v]) with ((l ++ [w]) ++ [v]) in Hx by (by rewrite <-app_assoc).
  rewrite sval_snoc, val_snoc, length_app, Nat.add_1_r in Hx. rewrite Bn_S in *.
  pose proof (val_range l Hl) as Hvl. unfold fits in Hw, Hv. assert (B = 2 * 2 ^ 31) as EB by done.
  set (W := Bn (length l)) in *. assert (0 < W) as HW by apply Bn_pos.
  destruct (Z.leb_spec (2 ^ 31) v), (Z.leb_spec (2 ^ 31) w); nia.
Qed.

Lemma normal_unique a b : normal a → normal b → sval a = sval b → a = b.
Proof.
  intros Ha Hb E.
  assert (∀ x, normal x → (0 < length x)%nat) as Hpos.
  { intros x [[_ Hne] _]. destruct x; [done|cbn; lia]. }
  assert (length a = length b) as El.
  { apply Nat.le_antisymm; apply minimal_size; auto.
    - rewrite E. apply sval_range, Hb.
    - rewrite <-E. apply sval_range, Ha. }
  apply val_inj; [apply Ha|apply Hb|done|].
  rewrite (sval_mod a), (sval_mod b) by (apply Ha || apply Hb). by rewrite E, El.
Qed.

(** ** Sign extension *)

Definition sign_limb (a : bigint) : Z := if negative a then B - 1 else 0.

Lemma val_replicate_max n : val (replicate n (B - 1)) = Bn n - 1.
Proof. induction n as [|n IH]; cbn [replicate val]; [done|]. rewrite IH, Bn_S. lia. Qed.

Lemma sign_limb_fits a : fits 32 (sign_limb a).
Proof. unfold sign_limb, fits. by destruct (negative a). Qed.

Lemma extend_wf a n : wf a → wf (a ++ replicate n (sign_limb a)).
Proof.
  intros [Ha Hne]. split; [|by destruct a]. apply Forall_app. split; [done|].
  apply Forall_replicate, sign_limb_fits.
Qed.

Lemma sval_extend a n : wf a → sval (a ++ replicate n (sign_limb a)) = sval a.
Proof.
  intros Hwf. pose proof (sval_range a Hwf) as Hr. pose proof (Bn_pos n) as Hn.
  pose proof (Bn_pos (length a)). apply sval_intro; [by apply extend_wf| |].
  - rewrite val_app, length_app, length_replicate, Bn_add.
    unfold sign_limb, sval. pose proof (val_range a (proj1 Hwf)). destruct (negative a).
    + rewrite val_replicate_max. apply Z.mod_unique with (-1); nia.
    + rewrite val_replicate_0. rewrite Z.sub_0_r, Z.mul_0_r, Z.add_0_r, Z.mod_small; nia.
  - rewrite length_app, length_replicate, Bn_add. nia.
Qed.

(** ** The test for a limb that only extends the sign *)

Definition extension (w : Z) : Z := if 2 ^ 31 <=? w then B - 1 else 0.

Lemma shiftr_sign w : fits 32 w → Z.shiftr w (JS_LIMB_BITS - 1) = b2l (2 ^ 31 <=? w).
Proof.
  unfold fits, JS_LIMB_BITS. intros Hw. rewrite Z.shiftr_div_pow2 by lia.
  destruct (Z.leb_spec (2 ^ 31) w); cbn [b2l].
  - symmetry. apply Z.div_unique with (w - 2 ^ 31); lia.
  - apply Z.div_small. lia.
Qed.

Lemma needed_limb v w :
  fits 32 v → fits 32 w →
  (negb (v =? 0) && negb (v =? u32 (-1))) || negb (Z.land v 1 =? Z.shiftr w (JS_LIMB_BITS - 1))
  = negb (v =? extension w).
Proof.
  intros Hv Hw. rewrite shiftr_sign by done. change (u32 (-1)) with (B - 1). unfold extension.
  destruct (Z.eqb_spec v 0) as [->|H0]; [by destruct (2 ^ 31 <=? w)|].
  destruct (Z.eqb_spec v (B - 1)) as [->|H1]; [by destruct (2 ^ 31 <=? w)|]. cbn [negb andb orb].
  symmetry. apply negb_true_iff, Z.eqb_neq. destruct (2 ^ 31 <=? w); lia.
Qed.

Lemma sval_redundant l w v :
  limbs_ok l → fits 32 w → v = extension w → sval (l ++ [w; v]) = sval (l ++ [w]).
Proof.
  intros Hl Hw ->. replace (l ++ [w; extension w]) with ((l ++ [w]) ++ [extension w]) by (by rewrite <-app_assoc).
  rewrite !sval_snoc, val_snoc, length_app, Nat.add_1_r, Bn_S. unfold extension.
  destruct (2 ^ 31 <=? w); [|assert ((2 ^ 31 <=? 0) = false) as -> by done; ring]. assert ((2 ^ 31 <=? B - 1) = true) as -> by done. ring.
Qed.

Lemma take_two {A} (a : list A) k x y :
  a !! k = Some x → a !! S k = Some y → take (S (S k)) a = take k a ++ [x; y].
Proof. intros Hx Hy. rewrite (take_S_r _ _ _ Hy), (take_S_r _ _ _ Hx). by rewrite <-app_assoc. Qed.

Lemma normal_len_SS {S} a k :
  normal_len (S := S) a (Datatypes.S (Datatypes.S k)) =
  (v ← rd a (Z.of_nat (Datatypes.S k));
   w ← rd a (Z.of_nat k);
   if (negb (v =? 0) && negb (v =? u32 (-1))) || negb (Z.land v 1 =? Z.shiftr w (JS_LIMB_BITS - 1))
   then ret (Datatypes.S (Datatypes.S k)) else normal_len a (Datatypes.S k)).
Proof. done. Qed.

Lemma normal_len_run {S} a l (s : S) :
  limbs_ok (take l a) → (1 ≤ l ≤ length a)%nat →
  ∃ l', normal_len a l s = (Ok l', s) ∧ (1 ≤ l' ≤ l)%nat ∧
    minimal (take l' a) ∧ sval (take l' a) = sval (take l a).
Proof.
  induction l as [|[|k] IH]; intros Ha Hl; [lia| |].
  { exists 1%nat. split_and!; [done|lia|lia| |done]. left. rewrite length_take. lia. }
  destruct (lookup_lt_is_Some_2 a (Datatypes.S k) ltac:(lia)) as [v Hv].
  destruct (lookup_lt_is_Some_2 a k ltac:(lia)) as [w Hw].
  pose proof (take_two a k w v Hw Hv) as Et. rewrite Et in Ha.
  apply Forall_app in Ha as [Ha [Hfw [Hfv _]%Forall_cons]%Forall_cons].
  rewrite normal_len_SS. erewrite bind_run by (apply rd_run; [lia|by rewrite Nat2Z.id]).
  erewrite bind_run by (apply rd_run; [lia|by rewrite Nat2Z.id]).
  rewrite needed_limb by done.
  destruct (Z.eqb_spec v (extension w)) as [Hext|Hneed]; cbn [negb].
  - destruct IH as (l' & -> & Hl' & Hmin & E); [|lia|].
    { rewrite (take_S_r _ _ _ Hw). apply Forall_app. split; [done|by constructor]. } exists l'. split_and!; [done|lia|lia|done|].
    rewrite E, Et, (take_S_r _ _ _ Hw). symmetry. by apply sval_redundant.
  - exists (Datatypes.S (Datatypes.S k)). split_and!; [done|lia|lia| |done]. right.
    exists (take k a), w, v. done.
Qed.

Lemma js_bigint_sign_run {S} a (s : S) :
  wf a → js_bigint_sign a s = (Ok (b2l (negative a)), s).
Proof.
  intros (l & v & -> & Hl & Hv)%wf_snoc. unfold js_bigint_sign, len, negative.
  rewrite top_snoc. erewrite bind_run by (apply rd_app; rewrite length_app; cbn; lia).
  by rewrite shiftr_sign.
Qed.

(** ** What an operation promises *)

(** Every coming allocation succeeds. *)
Definition granted (c : JSContext) : Prop := Forall (eq true) (grants c).

(** [gives d m size Q]: [m] starts while [d] blocks of the operation are
    allocated, and ends with the result's alone, or with none. *)
Definition gives {A} (d : Z) (m : M JSContext (option A)) (size : Z) (Q : A → Prop) : Prop := ∀ c,
  ∃ r c', m c = (Ok r, c') ∧
    (∃ used, grants c = used ++ grants c') ∧
    match r with
    | Some a => Q a ∧ live c' = live c + 1 - d
    | None => pending c' ≠ None ∧ live c' = live c - d
    end ∧
    (granted c → size ≤ JS_BIGINT_MAX_SIZE → r ≠ None ∧ pending c' = pending c).

Definition computes (m : M JSContext (option bigint)) (size x : Z) : Prop :=
  gives 0 m size (λ a, normal a ∧ sval a = x).

Lemma granted_suffix c c' used : grants c = used ++ grants c' → granted c → granted c'.
Proof. unfold granted. intros ->. by intros [_ ?]%Forall_app. Qed.

(** The context after an allocation: [n] blocks more. *)
Definition after (c c' : JSContext) (n : Z) : Prop :=
  (∃ used, grants c = used ++ grants c') ∧ live c' = live c + n ∧
  (granted c → pending c' = pending c).

Lemma after_refl c : after c c 0.
Proof. split_and!; [by exists []|lia|done]. Qed.

Lemma after_trans c1 c2 c3 n m : after c1 c2 n → after c2 c3 m → after c1 c3 (n + m).
Proof.
  intros ((u & Eu) & Hl & Hp) ((u' & Eu') & Hl' & Hp'). split_and!; [|lia|].
  - exists (u ++ u'). by rewrite Eu, Eu', app_assoc.
  - intros Hg. rewrite Hp', Hp; [done|done|]. by eapply granted_suffix.
Qed.

Lemma js_free_run c : ∃ c', js_free c = (Ok tt, c') ∧ after c c' (-1) ∧ pending c' = pending c.
Proof. eexists. split; [done|]. split; [split_and!; [by exists []|done|done]|done]. Qed.

Lemma js_realloc_run c : ∃ b c', js_realloc c = (Ok b, c') ∧ after c c' 0 ∧
  (granted c → b = true) ∧ (b = false → pending c' ≠ None).
Proof.
  unfold js_realloc, next_grant, after. destruct c as [[|[|] g] p l]; cbn.
  - eexists _, _. split; [done|]. split_and!; [by exists []|cbn; lia|done|done|done].
  - eexists _, _. split; [done|]. split_and!; [by exists [true]|cbn; lia|done|done|done].
  - eexists _, _. split; [done|]. split_and!; [by exists [false]|cbn; lia| | |done].
    + intros Hg. by apply Forall_cons in Hg as [? _].
    + intros Hg. by apply Forall_cons in Hg as [? _].
Qed.

Lemma js_malloc_run c : ∃ b c', js_malloc c = (Ok b, c') ∧
  after c c' (if b then 1 else 0) ∧ (granted c → b = true) ∧ (b = false → pending c' ≠ None).
Proof.
  unfold js_malloc, next_grant, after. destruct c as [[|[|] g] p l]; cbn.
  - eexists _, _. split; [done|]. split_and!; [by exists []|cbn; lia|done|done|done].
  - eexists _, _. split; [done|]. split_and!; [by exists [true]|cbn; lia|done|done|done].
  - eexists _, _. split; [done|]. split_and!; [by exists [false]|cbn; lia| | |done].
    + intros Hg. by apply Forall_cons in Hg as [? _].
    + intros Hg. by apply Forall_cons in Hg as [? _].
Qed.

(** ** Rules for the operations *)

Lemma gives_ret {A} (a : A) size (Q : A → Prop) : Q a → gives 1 (ret (Some a)) size Q.
Proof. intros HQ c. exists (Some a), c. split_and!; [done|by exists []|done|lia|done]. Qed.

(** A step that does not change the context. *)
Lemma gives_pure {A B} d (m : M JSContext A) (a : A) (k : A → M JSContext (option B)) size Q :
  (∀ c, m c = (Ok a, c)) → gives d (k a) size Q → gives d (bind m k) size Q.
Proof. intros Hm Hk c. erewrite bind_run by apply Hm. apply Hk. Qed.

(** A step that changes the number of blocks, and cannot fail. *)
Lemma gives_step {A B} d n (m : M JSContext A) (P : A → Prop) (k : A → M JSContext (option B)) size Q :
  (∀ c, ∃ a c', m c = (Ok a, c') ∧ P a ∧ after c c' n) →
  (∀ a, P a → gives (d + n) (k a) size Q) → gives d (bind m k) size Q.
Proof.
  intros Hm Hk c. destruct (Hm c) as (a & c1 & E & HP & (u & Eu) & Hl & Hp).
  erewrite bind_run by exact E. destruct (Hk a HP c1) as (r & c2 & E2 & (u' & Eu') & Hr & Hg).
  exists r, c2. split_and!; [done| | |].
  - exists (u ++ u'). by rewrite Eu, Eu', app_assoc.
  - destruct r; split; try apply Hr; destruct Hr as [_ Hr]; lia.
  - intros Hgr Hs. destruct Hg as [Hne ->]; [by eapply granted_suffix|done|]. split; [done|auto].
Qed.

Lemma gives_free {B} d (m : M JSContext (option B)) size Q :
  gives (d - 1) m size Q → gives d (js_free;; m) size Q.
Proof.
  intros Hm. apply (gives_step d (-1) js_free (λ _, True)).
  - intros c. destruct (js_free_run c) as (c' & E & Ha & _). eauto.
  - intros _ _. by replace (d + -1) with (d - 1) by lia.
Qed.

Lemma gives_mono {A} d (m : M JSContext (option A)) size size' (Q Q' : A → Prop) :
  gives d m size Q → size ≤ size' → (∀ a, Q a → Q' a) → gives d m size' Q'.
Proof.
  intros Hm Hs HQ c. destruct (Hm c) as (r & c' & E & Hu & Hr & Hg). exists r, c'.
  split_and!; [done|done| |intros; apply Hg; [done|lia]].
  destruct r; [|done]. destruct Hr. split; auto.
Qed.

Lemma fresh_limbs_ok `{Malloc} n : limbs_ok (fresh_limbs n) ∧ length (fresh_limbs n) = n.
Proof.
  unfold fresh_limbs. split; [|by rewrite length_fmap, length_seq].
  apply Forall_fmap, Forall_true. intros i. apply u32_fits.
Qed.

(** [r = js_bigint_new(ctx, n); if (!r) return NULL;] *)
Lemma gives_new `{Malloc} {B} n (k : bigint → M JSContext (option B)) size Q :
  0 ≤ n ≤ size → (∀ r, limbs_ok r → len r = n → gives 1 (k r) size Q) →
  gives 0 (non_null (js_bigint_new n) k) size Q.
Proof.
  intros Hn Hk c. unfold non_null, js_bigint_new. rewrite Z.gtb_ltb.
  destruct (Z.ltb_spec JS_BIGINT_MAX_SIZE n).
  { eexists None, _. split; [reflexivity|]. cbn. split_and!; [by exists []|done|lia|lia..]. }
  rewrite bind_bind. destruct (js_malloc_run c) as (b & c1 & E & ((u & Eu) & Hl & Hp) & Hg & Hf).
  erewrite bind_run by exact E. rewrite bind_ret. destruct b.
  - destruct (fresh_limbs_ok (Z.to_nat n)) as [Hok Hlen].
    destruct (Hk (fresh_limbs (Z.to_nat n)) Hok) with (c := c1) as (r & c2 & E2 & (u' & Eu') & Hr & Hg2).
    { unfold len. lia. }
    exists r, c2. split_and!; [done| | |].
    + exists (u ++ u'). by rewrite Eu, Eu', app_assoc.
    + destruct r; split; try apply Hr; destruct Hr as [_ Hr]; lia.
    + intros Hgr Hs. destruct Hg2 as [Hne ->]; [by eapply granted_suffix|done|]. split; [done|auto].
  - exists None, c1. split_and!; [done|eauto|auto|lia|intros Hgr; by specialize (Hg Hgr)..].
Qed.

(** The normal form of the first [l] limbs. *)
Lemma normalize1_run a l c :
  limbs_ok (take l a) → (1 ≤ l ≤ length a)%nat →
  ∃ r c', js_bigint_normalize1 a l c = (Ok r, c') ∧ (normal r ∧ sval r = sval (take l a)) ∧ after c c' 0.
Proof.
  intros Ha Hl. unfold js_bigint_normalize1.
  destruct (normal_len_run a l c Ha Hl) as (l' & E & Hl' & Hmin & Ev).
  erewrite bind_run by exact E.
  assert (normal (take l' a)) as Hn.
  { split; [|done]. split.
    { replace (take l' a) with (take l' (take l a)) by (rewrite take_take; f_equal; lia). by apply Forall_take. } destruct a; [cbn in Hl; lia|]. by destruct l'; [lia|]. }
  destruct (Nat.eqb_spec l' (length a)) as [->|Hne]; cbn [negb].
  - rewrite take_ge in Hn, Ev by lia. exists a, c. split_and!; [done|done|done|apply after_refl].
  - destruct (js_realloc_run c) as (b & c' & Er & Haf & _). erewrite bind_run by exact Er.
    exists (take l' a), c'. done.
Qed.

Lemma gives_normalize a size (Q : bigint → Prop) :
  wf a → (∀ r, normal r → sval r = sval a → Q r) →
  gives 1 (r ← js_bigint_normalize a; ret (Some r)) size Q.
Proof.
  intros [Ha Hne] HQ. apply (gives_step 1 0 _ (λ r, normal r ∧ sval r = sval a)).
  - intros c. destruct (normalize1_run a (length a) c) as (r & c' & ?).
    { by rewrite take_ge by lia. }
    { destruct a; [done|cbn; lia]. }
    exists r, c'. by rewrite take_ge in * by lia.
  - intros r [Hn Hv]. apply gives_ret. auto.
Qed.

(** The limb [op1] on top of [r]. *)
Lemma gives_extend r op1 size (Q : bigint → Prop) :
  wf r → fits 32 op1 → (∀ a, normal a → sval a = sval (r ++ [op1]) → Q a) →
  gives 1 (js_bigint_extend r op1) size Q.
Proof.
  intros Hwf Hop HQ. destruct (wf_snoc r Hwf) as (l & w & Er & Hl & Hw). unfold js_bigint_extend, len.
  apply gives_pure with (a := w).
  { intros c. rewrite Er. apply rd_app. rewrite length_app. cbn. lia. }
  rewrite needed_limb by done. destruct (Z.eqb_spec op1 (extension w)) as [->|Hne]; cbn [negb].
  - apply gives_normalize; [done|]. intros a Ha Hv. apply HQ; [done|]. rewrite Hv, Er.
    rewrite <-app_assoc. symmetry. by apply sval_redundant.
  - assert (normal (r ++ [op1])) as Hn.
    { split; [split; [apply Forall_app; split; [apply Hwf|by constructor]|by destruct r]|].
      right. exists l, w, op1. split; [by rewrite Er, <-app_assoc|done]. }
    intros c. destruct (js_realloc_run c) as (b & c' & E & ((u & Eu) & Hlv & Hp) & Hg & Hf).
    erewrite bind_run by exact E. destruct b.
    + exists (Some (r ++ [op1])), c'. split_and!; [done|eauto|by apply HQ|lia|intros; split; [done|auto]].
    + eexists None, _. split; [reflexivity|]. cbn. split_and!; [eauto|auto|lia|intros Hgr; by specialize (Hg Hgr)..].
Qed.
