(* ===== verification/BigIntOps.v ===== *)
(** * Big integers: operations, lemmas

    Sums, products, bitwise operations, creation, complement, shifts and comparison. *)
From S2P Require Import Prelude CStd Words CUtils BigIntMp BigIntMpFacts BigIntDiv BigInt BigIntFacts.

(** * Big integers: sums, products, bitwise operations, shifts and comparison *)

(** ** Congruences *)

(** Equality modulo [B^n]. *)
Definition cong (n : nat) (x y : Z) : Prop := x mod Bn n = y mod Bn n.

Lemma cong_refl n x : cong n x x.
Proof. done. Qed.

Lemma cong_intro n x y k : x = y + Bn n * k → cong n x y.
Proof.
  intros ->. unfold cong. pose proof (Bn_pos n). rewrite (Z.mul_comm (Bn n)). apply Z.mod_add. lia.
Qed.

Lemma cong_elim n x y : cong n x y → ∃ k, x = y + Bn n * k.
Proof.
  unfold cong. intros E. pose proof (Bn_pos n).
  pose proof (Z.div_mod x (Bn n) ltac:(lia)). pose proof (Z.div_mod y (Bn n) ltac:(lia)).
  exists (x / Bn n - y / Bn n). lia.
Qed.

Lemma cong_add n x x' y y' : cong n x x' → cong n y y' → cong n (x + y) (x' + y').
Proof.
  intros (k & ->)%cong_elim (k' & ->)%cong_elim. apply cong_intro with (k + k'). lia.
Qed.

Lemma cong_sub n x x' y y' : cong n x x' → cong n y y' → cong n (x - y) (x' - y').
Proof.
  intros (k & ->)%cong_elim (k' & ->)%cong_elim. apply cong_intro with (k - k'). lia.
Qed.

Lemma cong_mod n x : cong n (x mod Bn n) x.
Proof. unfold cong. apply Z.mod_mod. pose proof (Bn_pos n). lia. Qed.

#[global] Instance cong_equiv n : Equivalence (cong n).
Proof. unfold cong. split; [done|by intros ???|intros ??? -> ->; done]. Qed.

#[global] Instance cong_add_proper n : Proper (cong n ==> cong n ==> cong n) Z.add.
Proof. intros x x' Hx y y' Hy. by apply cong_add. Qed.
#[global] Instance cong_sub_proper n : Proper (cong n ==> cong n ==> cong n) Z.sub.
Proof. intros x x' Hx y y' Hy. by apply cong_sub. Qed.

Lemma cong_val a : wf a → cong (length a) (val a) (sval a).
Proof. intros Hwf. rewrite (sval_mod a Hwf). apply cong_mod. Qed.

(** Limbs that stand for an integer: congruent and in range. *)
Lemma sval_cong a x :
  wf a → cong (length a) (val a) x → - Bn (length a) ≤ 2 * x < Bn (length a) → sval a = x.
Proof.
  intros Hwf Hc Hx. apply sval_intro; [done| |done]. unfold cong in Hc. rewrite <-Hc.
  symmetry. apply Z.mod_small, val_range, Hwf.
Qed.

(** The high limb of a sum, cut to 32 bits. *)
Lemma cong_high n v h : cong (S n) (v + Bn n * u32 h) (v + Bn n * h).
Proof.
  apply cong_intro with (- (h / B)). pose proof (u32_split h). rewrite Bn_S. nia.
Qed.

(** ** Sums *)

Lemma js_mp_add_app x1 y1 x2 y2 c :
  length x1 = length y1 →
  js_mp_add (x1 ++ x2) (y1 ++ y2) c =
  let '(r1, c1) := js_mp_add x1 y1 c in
  let '(r2, c2) := js_mp_add x2 y2 c1 in (r1 ++ r2, c2).
Proof.
  revert y1 c. induction x1 as [|x x1 IH]; intros [|y y1] c Hl; try done.
  { cbn [app js_mp_add]. by destruct (js_mp_add x2 y2 c). }
  cbn [app js_mp_add]. destruct (ADDC x y c) as [r c0]. rewrite IH by (cbn in Hl; lia).
  destruct (js_mp_add x1 y1 c0) as [r1 c1]. by destruct (js_mp_add x2 y2 c1).
Qed.

Lemma lxor_ones n v : 0 ≤ n → fits n v → Z.lxor v (Z.ones n) = 2 ^ n - 1 - v.
Proof.
  intros Hn Hv. transitivity (Z.land (Z.lnot v) (Z.ones n)).
  - apply Z.bits_inj'. intros i Hi. rewrite Z.lxor_spec, Z.land_spec, Z.lnot_spec by done.
    destruct (Z.lt_ge_cases i n).
    + rewrite Z.ones_spec_low by lia. by destruct (Z.testbit v i).
    + rewrite Z.ones_spec_high, (testbit_false_fits n) by (done || lia). done.
  - rewrite Z.land_ones by done. unfold Z.lnot, fits in *. symmetry. apply Z.mod_unique with (-1); lia.
Qed.

Lemma flip_0 l : flip 0 l = l.
Proof. unfold flip. apply fmap_all_id. intros. apply Z.lxor_0_r. Qed.

Lemma flip_1 l : limbs_ok l → limbs_ok (flip 1 l) ∧ val (flip 1 l) = Bn (length l) - 1 - val l.
Proof.
  unfold flip. assert (u32 (Z.opp 1) = Z.ones 32) as -> by done.
  induction 1 as [|v l Hv Hl [IHok IHv]]; cbn [fmap list_fmap val length]; [done|].
  rewrite lxor_ones, IHv, Bn_S by done. unfold fits in Hv. split; [|unfold B; lia].
  constructor; [unfold fits; lia|done].
Qed.

Lemma flip_length s l : length (flip s l) = length l.
Proof. apply length_fmap. Qed.

Lemma flip_replicate s n v : flip s (replicate n v) = replicate n (Z.lxor v (u32 (- s))).
Proof. unfold flip. by rewrite fmap_replicate. Qed.

Lemma flip_app s l l' : flip s (l ++ l') = flip s l ++ flip s l'.
Proof. apply fmap_app. Qed.

(** An operand, extended to [n] limbs. *)
Definition widen (n : nat) (a : bigint) : bigint := a ++ replicate (n - length a) (sign_limb a).

Lemma widen_wf n a : wf a → wf (widen n a).
Proof. apply extend_wf. Qed.

Lemma widen_length n a : (length a ≤ n)%nat → length (widen n a) = n.
Proof. intros. unfold widen. rewrite length_app, length_replicate. lia. Qed.

Lemma widen_cong n a : wf a → (length a ≤ n)%nat → cong n (val (widen n a)) (sval a).
Proof.
  intros Hwf Hl. rewrite <-(widen_length n a Hl) at 1.
  rewrite (cong_val _ (widen_wf n a Hwf)). unfold widen. by rewrite sval_extend.
Qed.

Lemma widen_snoc n a : (length a ≤ n)%nat → widen (S n) a = widen n a ++ [sign_limb a].
Proof.
  intros. unfold widen. replace (S n - length a)%nat with (S (n - length a)) by lia.
  by rewrite replicate_S_end, app_assoc.
Qed.

(** The second operand of an addition or a subtraction. *)
Lemma flipped_cong n b s :
  wf b → (length b ≤ n)%nat → 0 ≤ s ≤ 1 →
  limbs_ok (flip s (widen n b)) ∧
  cong n (val (flip s (widen n b)) + s) (if s =? 0 then sval b else - sval b).
Proof.
  intros Hwf Hl Hs. pose proof (widen_cong n b Hwf Hl) as Hc. pose proof (widen_wf n b Hwf) as [Hok _].
  assert (s = 0 ∨ s = 1) as [-> | ->] by lia; cbn [Z.eqb].
  - rewrite flip_0, Z.add_0_r. done.
  - destruct (flip_1 _ Hok) as [Hf ->]. split; [done|]. rewrite widen_length by done.
    apply cong_elim in Hc as [k Hk]. apply cong_intro with (1 - k). rewrite Hk. lia.
Qed.

(** The limbs [js_bigint_add] puts together: the sum of the extended operands. *)
Lemma add_limbs_run a b s :
  wf a → wf b → 0 ≤ s ≤ 1 →
  let n1 := Z.to_nat (min_int (len a) (len b)) in
  let n := Nat.max (length a) (length b) in
  let '(r1, c1) := js_mp_add (take n1 a) (flip s (take n1 b)) s in
  let '(r2, c2) :=
    if len a >? len b
    then js_mp_add (drop n1 a) (replicate (length a - n1) (Z.lxor (sign_limb b) (u32 (- s)))) c1
    else if len a <? len b
    then js_mp_add (replicate (length b - n1) (sign_limb a)) (flip s (drop n1 b)) c1
    else ([], c1) in
  js_mp_add (widen n a) (flip s (widen n b)) s = (r1 ++ r2, c2).
Proof.
  intros Ha Hb Hs. unfold min_int, len. rewrite Z.gtb_ltb.
  destruct (Z.ltb_spec (Z.of_nat (length b)) (Z.of_nat (length a))) as [Hlt|Hge];
    [|destruct (Z.ltb_spec (Z.of_nat (length a)) (Z.of_nat (length b))) as [Hgt|Heq]].
  - destruct (Z.ltb_spec (Z.of_nat (length a)) (Z.of_nat (length b))); [lia|]. rewrite Nat2Z.id.
    rewrite Nat.max_l, (take_ge b) by lia. unfold widen. rewrite Nat.sub_diag, app_nil_r.
    rewrite flip_app, flip_replicate.
    pose proof (js_mp_add_app (take (length b) a) (flip s b) (drop (length b) a)
      (replicate (length a - length b) (Z.lxor (sign_limb b) (u32 (- s)))) s) as Happ.
    rewrite flip_length, length_take, take_drop in Happ. rewrite Happ by lia.
    destruct (js_mp_add (take (length b) a) (flip s b) s) as [r1 c1]. by destruct (js_mp_add _ _ c1).
  - rewrite Nat2Z.id, Nat.max_r, (take_ge a) by lia. unfold widen. rewrite Nat.sub_diag, app_nil_r.
    pose proof (js_mp_add_app a (flip s (take (length a) b)) (replicate (length b - length a) (sign_limb a))
      (flip s (drop (length a) b)) s) as Happ.
    rewrite <-flip_app, flip_length, length_take, take_drop in Happ. rewrite Happ by lia.
    destruct (js_mp_add a (flip s (take (length a) b)) s) as [r1 c1]. by destruct (js_mp_add _ _ c1).
  - rewrite Nat2Z.id. replace (Nat.max (length a) (length b)) with (length a) by lia.
    unfold widen. rewrite Nat.sub_diag. replace (length a - length b)%nat with 0%nat by lia.
    cbn [replicate]. rewrite !app_nil_r, !take_ge by lia.
    destruct (js_mp_add a (flip s b) s) as [r1 c1]. by rewrite app_nil_r.
Qed.

Lemma sign_limb_u32 a : u32 (- b2l (negative a)) = sign_limb a.
Proof. unfold sign_limb. by destruct (negative a). Qed.

Lemma flip_limb n a s :
  (length a ≤ n)%nat → flip s (widen (S n) a) = flip s (widen n a) ++ [Z.lxor (sign_limb a) (u32 (- s))].
Proof. intros. by rewrite widen_snoc, flip_app. Qed.

Lemma js_bigint_add_computes `{Malloc} a b s :
  wf a → wf b → 0 ≤ s ≤ 1 →
  computes (js_bigint_add a b s) (Z.max (len a) (len b)) (sval a + if s =? 0 then sval b else - sval b).
Proof.
  intros Ha Hb Hs. unfold js_bigint_add, computes. apply gives_new.
  { unfold max_int, len. rewrite Z.gtb_ltb. destruct (_ <? _) eqn:E; lia. }
  intros r _ _. pose proof (add_limbs_run a b s Ha Hb Hs) as Hadd. cbv zeta in Hadd.
  destruct (js_mp_add (take _ a) _ s) as [r1 c1]. 
  eapply gives_pure; [intros c; by apply js_bigint_sign_run|].
  eapply gives_pure; [intros c; by apply js_bigint_sign_run|]. rewrite !sign_limb_u32.
  destruct (if len a >? len b then _ else _) as [r2 c2].
  set (n := Nat.max (length a) (length b)) in *.
  assert (length a ≤ n)%nat as Hla by (unfold n; lia). assert (length b ≤ n)%nat as Hlb by (unfold n; lia).
  pose proof (widen_wf n a Ha) as [Hoka _].
  destruct (flipped_cong n b s Hb Hlb Hs) as [Hokb Hcb].
  destruct (js_mp_add_spec (widen n a) (flip s (widen n b)) s Hoka Hokb) as (res & c & E & Hres & Hlr & Hc & Ev);
    [by rewrite flip_length, !widen_length|done|].
  rewrite Hadd in E. injection E as -> ->. rewrite widen_length in Hlr, Ev by done.
  assert (n ≠ 0)%nat as Hn0 by (destruct Ha as [_ Hne]; destruct a; [done|cbn in Hla; lia]).
  assert (wf res) as Hwf by (split; [done|intros ->; cbn in Hlr; lia]).
  set (op := u32 _). apply gives_extend; [done|apply u32_fits|].
  intros x Hx ->. split; [done|].
  assert (wf (res ++ [op])) as Hwf'.
  { split; [apply Forall_app; split; [done|by constructor; [apply u32_fits|]]|by destruct res]. }
  assert (length (res ++ [op]) = S n) as Hl' by (rewrite length_app; cbn; lia).
  apply sval_cong; [done| |].
  - rewrite Hl', val_snoc, Hlr. unfold op. etransitivity; [apply cong_high|].
    pose proof (widen_cong (S n) a Ha ltac:(lia)) as Hca.
    destruct (flipped_cong (S n) b s Hb ltac:(lia) Hs) as [_ Hcb'].
    rewrite widen_snoc, val_snoc, widen_length in Hca by done.
    rewrite flip_limb, val_snoc, flip_length, widen_length in Hcb' by done.
    set (sb := Z.lxor _ _) in *.
    replace (val res + Bn n * (sign_limb a + sb + c)) with
      ((val (widen n a) + Bn n * sign_limb a) + (val (flip s (widen n b)) + Bn n * sb + s)) by lia.
    by apply cong_add.
  - rewrite Hl', Bn_S. pose proof (sval_range a Ha) as Hra. pose proof (sval_range b Hb) as Hrb.
    assert (Bn (length a) ≤ Bn n) by (unfold Bn; apply Z.pow_le_mono_r; [done|lia]).
    assert (Bn (length b) ≤ Bn n) by (unfold Bn; apply Z.pow_le_mono_r; [done|lia]).
    assert (B = 2 ^ 32) as EB by done. destruct (s =? 0); lia.
Qed.

Lemma wf_limb v : fits 32 v → wf [v].
Proof. intros. split; [by constructor|done]. Qed.

Lemma sval_limb x : - 2 ^ 31 ≤ x < 2 ^ 31 → sval [u32 x] = x.
Proof.
  intros Hx. apply sval_intro; [apply wf_limb, u32_fits| |].
  - cbn [val length]. rewrite Bn_S, Bn_0. rewrite Z.mul_0_r, Z.add_0_r, Z.mul_1_r. done.
  - cbn [length]. rewrite Bn_S, Bn_0. unfold B. lia.
Qed.

Lemma normal_limb v : fits 32 v → normal [v].
Proof. intros. split; [by apply wf_limb|by left]. Qed.

Lemma wf_len a : wf a → 1 ≤ len a.
Proof. intros [_ Hne]. unfold len. destruct a; [done|cbn; lia]. Qed.

Lemma js_bigint_neg_computes `{Malloc} a : wf a → computes (js_bigint_neg a) (len a) (- sval a).
Proof.
  intros Ha. unfold js_bigint_neg, js_bigint_set_si. pose proof (wf_len a Ha).
  eapply gives_mono; [apply (js_bigint_add_computes [u32 0] a 1)| |].
  - apply wf_limb, u32_fits.
  - done.
  - lia.
  - unfold len in *. cbn. lia.
  - intros x [Hx Hv]. split; [done|]. rewrite Hv, sval_limb by lia. done.
Qed.

(** ** Products *)

Lemma on_tab_run {A} tab (m : M (list Z) A) a tab' c :
  m tab = (Ok a, tab') → on_tab tab m c = (Ok (a, tab'), c).
Proof. unfold on_tab. by intros ->. Qed.

(** The second operand subtracted from the high limbs of the product, when the
    first is negative. *)
Lemma correct_product r a b :
  limbs_ok r → wf a → wf b → length r = (length a + length b)%nat →
  ∃ k r', (∀ c, (if negb (b2l (negative a) =? 0)
           then on_tab r (in_place (len a) (len b) (λ l, js_mp_sub l b 0)) else ret (0, r)) c
    = (Ok (k, r'), c)) ∧ limbs_ok r' ∧ length r' = length r ∧
    cong (length r) (val r') (val r - (if negative a then Bn (length a) * val b else 0)).
Proof.
  intros Hr Ha [Hb _] Hl. destruct (negative a); cbn [b2l Z.eqb negb].
  2:{ exists 0, r. split_and!; [done..|]. by rewrite Z.sub_0_r. }
  set (lo := take (length a) r). set (hi := drop (length a) r).
  assert (length lo = length a) as Hlo by (unfold lo; rewrite length_take; lia).
  assert (length hi = length b) as Hhi by (unfold hi; rewrite length_drop; lia).
  assert (r = lo ++ hi ++ []) as Er by (unfold lo, hi; by rewrite app_nil_r, take_drop).
  assert (limbs_ok lo ∧ limbs_ok hi) as [Hlok Hhok] by (split; [by apply Forall_take|by apply Forall_drop]).
  destruct (js_mp_sub_spec hi b 0 Hhok Hb Hhi ltac:(lia)) as (res & k & E & Hres & Hlr & Hk & Ev).
  exists k, (lo ++ res ++ []). split_and!.
  - intros c. apply on_tab_run. rewrite Er. apply in_place_run; [unfold len; lia|unfold len; lia|done|lia].
  - rewrite app_nil_r. by apply Forall_app.
  - rewrite Er, !length_app. lia.
  - rewrite Er, !app_nil_r, !val_app, length_app, Hlo. rewrite Hhi in *. apply cong_intro with k.
    rewrite Bn_add. nia.
Qed.

Lemma js_bigint_mul_computes `{Malloc} a b :
  wf a → wf b → computes (js_bigint_mul a b) (len a + len b) (sval a * sval b).
Proof.
  intros Ha Hb. unfold js_bigint_mul, computes. pose proof (wf_len a Ha). pose proof (wf_len b Hb).
  apply gives_new; [lia|]. intros r0 Hr0 Hl0. unfold len in Hl0.
  destruct (js_mp_mul_basecase_spec a b r0 (proj1 Ha) (proj1 Hb) (proj2 Hb)) as (p & E & Hp & Hlp & Evp); [lia|].
  rewrite drop_ge, app_nil_r in E by lia.
  eapply gives_pure; [intros c; by apply on_tab_run|]. cbn [fst snd].
  eapply gives_pure; [intros c; by apply js_bigint_sign_run|].
  destruct (correct_product p a b Hp Ha Hb Hlp) as (k1 & r1 & E1 & Hr1 & Hl1 & C1).
  eapply gives_pure; [exact E1|]. eapply gives_pure; [intros c; by apply js_bigint_sign_run|].
  destruct (correct_product r1 b a Hr1 Hb Ha ltac:(lia)) as (k2 & r2 & E2 & Hr2 & Hl2 & C2).
  eapply gives_pure; [exact E2|].
  assert (wf r2) as Hwf.
  { split; [done|]. intros ->. cbn in Hl2. unfold len in *. lia. }
  apply gives_normalize; [done|]. intros x Hx ->. split; [done|].
  pose proof (sval_range a Ha) as Ra. pose proof (sval_range b Hb) as Rb.
  pose proof (Bn_pos (length a)) as Pa. pose proof (Bn_pos (length b)) as Pb.
  apply sval_cong; [done| |].
  - rewrite Hl2. etransitivity; [exact C2|]. rewrite Hl1 in *.
    apply cong_elim in C1 as [k C1]. rewrite C1, Evp.
    pose proof (val_range a (proj1 Ha)). pose proof (val_range b (proj1 Hb)).
    unfold sval. rewrite Hlp. destruct (negative a), (negative b).
    + apply cong_intro with (k - 1). rewrite Bn_add. ring.
    + apply cong_intro with k. rewrite Bn_add. ring.
    + apply cong_intro with k. rewrite Bn_add. ring.
    + apply cong_intro with k. rewrite Bn_add. ring.
  - rewrite Hl2, Hl1, Hlp, Bn_add.
    assert (- (Bn (length a) * Bn (length b)) ≤ 4 * (sval a * sval b) ≤ Bn (length a) * Bn (length b)) by nia.
    nia.
Qed.

(** ** Bitwise operations *)

Lemma Bn_pow2 n : Bn n = 2 ^ (32 * Z.of_nat n).
Proof. unfold Bn, B. by rewrite <-Z.pow_mul_r by lia. Qed.

(** The bits of a limb and of the limbs above it. *)
Lemma testbit_limb x X i :
  fits 32 x → 0 ≤ i → Z.testbit (x + B * X) i = if i <? 32 then Z.testbit x i else Z.testbit X (i - 32).
Proof.
  intros Hx Hi. rewrite Z.add_comm, Z.mul_comm. unfold B. rewrite <-lor_high_low by (done || lia).
  rewrite Z.lor_spec. destruct (Z.ltb_spec i 32).
  - by rewrite Z.mul_pow2_bits_low by lia.
  - rewrite (testbit_false_fits 32 x) by (done || lia). by rewrite orb_false_r, Z.mul_pow2_bits by lia.
Qed.

(** The integers of [n + 1] bits with their sign. *)
Lemma signed_range n x : 0 ≤ n → (- 2 ^ n ≤ x < 2 ^ n ↔ Z.shiftr x n = 0 ∨ Z.shiftr x n = -1).
Proof.
  intros Hn. rewrite Z.shiftr_div_pow2 by done. pose proof (Z.pow_pos_nonneg 2 n ltac:(lia) Hn).
  pose proof (Z.div_mod x (2 ^ n) ltac:(lia)). pose proof (Z.mod_pos_bound x (2 ^ n) ltac:(lia)).
  split; intros Hx; [|nia]. assert (-1 ≤ x / 2 ^ n < 1) by nia. lia.
Qed.

Section bitwise.
Context (f : Z → Z → Z) (g : bool → bool → bool).
Hypotheses (Hf : ∀ x y i, 0 ≤ i → Z.testbit (f x y) i = g (Z.testbit x i) (Z.testbit y i))
  (Hg : g false false = false).
#[local] Set Default Proof Using "All".

Lemma bitwise_0 : f 0 0 = 0.
Proof. apply Z.bits_inj'. intros i Hi. by rewrite Hf, Z.bits_0. Qed.

Lemma bitwise_shiftr k x y : 0 ≤ k → Z.shiftr (f x y) k = f (Z.shiftr x k) (Z.shiftr y k).
Proof.
  intros Hk. apply Z.bits_inj'. intros i Hi. rewrite Hf, !Z.shiftr_spec, Hf by lia. done.
Qed.

Lemma bitwise_fits n x y : 0 ≤ n → fits n x → fits n y → fits n (f x y).
Proof.
  intros Hn Hx Hy. unfold fits in *. pose proof (Z.pow_pos_nonneg 2 n ltac:(lia) Hn).
  assert (Z.shiftr (f x y) n = 0) as E.
  { rewrite bitwise_shiftr, !Z.shiftr_div_pow2, !Z.div_small by done. apply bitwise_0. }
  rewrite Z.shiftr_div_pow2 in E by done.
  pose proof (Z.div_mod (f x y) (2 ^ n) ltac:(lia)). pose proof (Z.mod_pos_bound (f x y) (2 ^ n) ltac:(lia)). nia.
Qed.

Lemma bitwise_mod k x y : 0 ≤ k → f (x mod 2 ^ k) (y mod 2 ^ k) mod 2 ^ k = f x y mod 2 ^ k.
Proof.
  intros Hk. apply Z.bits_inj'. intros i Hi. destruct (Z.lt_ge_cases i k).
  - rewrite !Z.mod_pow2_bits_low, !Hf, !Z.mod_pow2_bits_low by lia. done.
  - by rewrite !Z.mod_pow2_bits_high by lia.
Qed.

Lemma bitwise_val a b :
  limbs_ok a → limbs_ok b → length a = length b →
  limbs_ok (zip_with f a b) ∧ val (zip_with f a b) = f (val a) (val b).
Proof.
  intros Ha. revert b. induction Ha as [|x a Hx Ha IH]; intros [|y b] Hb Hl; try done.
  { cbn. by rewrite bitwise_0. }
  apply Forall_cons in Hb as [Hy Hb]. destruct (IH b Hb) as [Hok Ev]; [cbn in Hl; lia|].
  pose proof (bitwise_fits 32 x y ltac:(lia) Hx Hy) as Hxy.
  cbn [zip_with val]. split; [by constructor|]. rewrite Ev.
  apply Z.bits_inj'. intros i Hi. rewrite Hf, !testbit_limb by done.
  destruct (Z.ltb_spec i 32); by rewrite Hf by lia.
Qed.

Lemma bitwise_sval a b :
  wf a → wf b → length a = length b →
  wf (zip_with f a b) ∧ sval (zip_with f a b) = f (sval a) (sval b).
Proof using All.
  intros Ha Hb Hl. destruct (bitwise_val a b) as [Hok Ev]; [apply Ha|apply Hb|done|].
  assert (length (zip_with f a b) = length a) as Hlz by (rewrite length_zip_with; lia).
  assert (wf (zip_with f a b)) as Hwf.
  { split; [done|]. intros E. rewrite E in Hlz. destruct Ha as [_ Hne]. by destruct a. }
  split; [done|]. apply sval_cong; [done| |].
  - rewrite Ev, (sval_mod a), (sval_mod b), Hlz, <-Hl, !Bn_pow2 by done.
    unfold cong. rewrite Bn_pow2. apply bitwise_mod. lia.
  - pose proof (sval_range a Ha) as Ra. pose proof (sval_range b Hb) as Rb. rewrite Hlz, <-Hl in *.
    pose proof (wf_len a Ha) as Hla. unfold len in Hla.
    set (n := 32 * Z.of_nat (length a) - 1) in *.
    assert (Bn (length a) = 2 * 2 ^ n) as En.
    { rewrite Bn_pow2, <-Z.pow_succ_r by lia. f_equal. unfold n. lia. }
    rewrite En in *. assert (- 2 ^ n ≤ f (sval a) (sval b) < 2 ^ n); [|lia].
    apply signed_range; [lia|]. rewrite bitwise_shiftr by lia.
    assert (f 0 (-1) = 0 ∨ f 0 (-1) = -1) as H1.
    { destruct (g false true) eqn:E; [right|left]; apply Z.bits_inj'; intros i Hi;
        rewrite Hf, Z.bits_0, Z.bits_m1, E by done; by rewrite ?Z.bits_0, ?Z.bits_m1 by done. }
    assert (f (-1) 0 = 0 ∨ f (-1) 0 = -1) as H2.
    { destruct (g true false) eqn:E; [right|left]; apply Z.bits_inj'; intros i Hi;
        rewrite Hf, Z.bits_0, Z.bits_m1, E by done; by rewrite ?Z.bits_0, ?Z.bits_m1 by done. }
    assert (f (-1) (-1) = 0 ∨ f (-1) (-1) = -1) as H3.
    { destruct (g true true) eqn:E; [right|left]; apply Z.bits_inj'; intros i Hi;
        rewrite Hf, Z.bits_m1, E by done; by rewrite ?Z.bits_0, ?Z.bits_m1 by done. }
    destruct (proj1 (signed_range n (sval a) ltac:(lia)) ltac:(lia)) as [-> | ->],
      (proj1 (signed_range n (sval b) ltac:(lia)) ltac:(lia)) as [-> | ->]; auto.
    left. apply bitwise_0.
Qed.
End bitwise.

(** What an operator is on the integers. *)
Definition logic_op (op : OPCodeEnum) : Z → Z → Z :=
  match op with OP_or => Z.lor | OP_and => Z.land | _ => Z.lxor end.

Lemma logic_op_sval op a b :
  wf a → wf b → length a = length b →
  wf (zip_with (logic_op op) a b) ∧ sval (zip_with (logic_op op) a b) = logic_op op (sval a) (sval b).
Proof.
  destruct op; [apply (bitwise_sval _ orb)|apply (bitwise_sval _ andb)|apply (bitwise_sval _ xorb)..]; try done;
    intros; cbn; [apply Z.lor_spec|apply Z.land_spec|apply Z.lxor_spec..].
Qed.

Lemma logic_op_comm op x y : logic_op op x y = logic_op op y x.
Proof. destruct op; [apply Z.lor_comm|apply Z.land_comm|apply Z.lxor_comm..]. Qed.

Lemma js_bigint_logic_computes `{Malloc} a b op :
  wf a → wf b → op ≠ OP_other →
  computes (js_bigint_logic a b op) (Z.max (len a) (len b)) (logic_op op (sval a) (sval b)).
Proof.
  intros Ha Hb Hop. unfold js_bigint_logic, computes.
  assert (∃ x y, (if len a <? len b then (b, a) else (a, b)) = (x, y) ∧ wf x ∧ wf y ∧
    (length y ≤ length x)%nat ∧ len x = Z.max (len a) (len b) ∧
    logic_op op (sval x) (sval y) = logic_op op (sval a) (sval b)) as (x & y & -> & Hx & Hy & Hl & Hmax & Ev).
  { unfold len. destruct (Z.ltb_spec (Z.of_nat (length a)) (Z.of_nat (length b))).
    - exists b, a. split_and!; [done|done|done|lia|lia|apply logic_op_comm].
    - exists a, b. split_and!; [done|done|done|lia|lia|done]. }
  eapply gives_pure; [intros c; by apply js_bigint_sign_run|]. rewrite sign_limb_u32.
  pose proof (wf_len x Hx). apply gives_new; [lia|]. intros r _ _. rewrite <-Ev.
  change (y ++ replicate (length x - length y) (sign_limb y)) with (widen (length x) y).
  pose proof (widen_wf (length x) y Hy) as Hw. pose proof (widen_length (length x) y Hl) as Hlw.
  destruct (logic_op_sval op x (widen (length x) y) Hx Hw ltac:(lia)) as [Hwf Es].
  assert (sval (widen (length x) y) = sval y) as Ew by (by apply sval_extend). rewrite Ew in Es.
  destruct op; try done; (apply gives_normalize; [exact Hwf|]; intros z Hz ->; done).
Qed.

(** * Big integers: creation, complement, shifts and comparison *)

(** ** Creation *)

Lemma js_bigint_new_si_computes `{Malloc} x :
  - 2 ^ 31 ≤ x < 2 ^ 31 → computes (js_bigint_new_si x) 1 x.
Proof.
  intros Hx. apply gives_new; [lia|]. intros r _ _. apply gives_ret.
  split; [apply normal_limb, u32_fits|by apply sval_limb].
Qed.

(** Two limbs, for an integer that needs them. *)
Lemma sval_two x : - 2 ^ 63 ≤ x < 2 ^ 63 → sval [u32 x; u32 (Z.shiftr x 32)] = x.
Proof.
  intros Hx. rewrite Z.shiftr_div_pow2 by lia. change (2 ^ 32) with B.
  apply sval_intro; [split; [by repeat constructor; apply u32_fits|done]|..]; cbn [val length].
  - rewrite !Bn_S, Bn_0. pose proof (u32_split x). pose proof (u32_split (x / B)).
    pose proof (u32_fits x). pose proof (u32_fits (x / B)). unfold fits in *.
    apply Z.mod_unique with (x / B / B); unfold B in *; lia.
  - rewrite !Bn_S, Bn_0. unfold B. lia.
Qed.

Lemma normal_two x :
  - 2 ^ 63 ≤ x < 2 ^ 63 → ¬ (- 2 ^ 31 ≤ x < 2 ^ 31) → normal [u32 x; u32 (Z.shiftr x 32)].
Proof.
  intros Hx Hbig. assert (wf [u32 x; u32 (Z.shiftr x 32)]) as Hwf.
  { split; [by repeat constructor; apply u32_fits|done]. }
  split; [done|]. right. exists [], (u32 x), (u32 (Z.shiftr x 32)). split; [done|]. intros E.
  pose proof (sval_two x Hx) as Es. change (if _ <=? _ then _ else _) with (extension (u32 x)) in E.
  assert (sval ([] ++ [u32 x; u32 (Z.shiftr x 32)]) = sval ([] ++ [u32 x])) as Er.
  { apply sval_redundant; [done|apply u32_fits|done]. }
  cbn [app] in Er. rewrite Er in Es. pose proof (sval_range [u32 x] (wf_limb _ (u32_fits x))) as Hr.
  rewrite Es in Hr. cbn [length] in Hr. rewrite Bn_S, Bn_0 in Hr. unfold B in Hr. lia.
Qed.

Lemma js_bigint_new_si64_computes `{Malloc} x :
  - 2 ^ 63 ≤ x < 2 ^ 63 → computes (js_bigint_new_si64 x) 2 x.
Proof.
  intros Hx. unfold js_bigint_new_si64, INT32_MIN, INT32_MAX. destruct (_ && _) eqn:E.
  - eapply gives_mono; [apply js_bigint_new_si_computes|lia|done]. lia.
  - apply gives_new; [lia|]. intros r _ _. apply gives_ret.
    split; [apply normal_two; [done|]|by apply sval_two]. intros Hs.
    rewrite andb_false_iff in E. lia.
Qed.

Lemma js_bigint_new_ui64_computes `{Malloc} x :
  0 ≤ x < 2 ^ 64 → computes (js_bigint_new_ui64 x) 3 x.
Proof.
  intros Hx. unfold js_bigint_new_ui64, INT64_MAX. destruct (Z.leb_spec x (2 ^ 63 - 1)).
  { eapply gives_mono; [apply js_bigint_new_si64_computes|lia|done]. lia. }
  apply gives_new; [by vm_compute|]. intros r _ _. apply gives_ret.
  rewrite Z.shiftr_div_pow2 by lia. change (2 ^ 32) with B. pose proof (u32_split x).
  assert (u32 (x / B) = x / B) as ->.
  { apply wrap_id. unfold fits. split; [apply Z.div_pos; unfold B; lia|apply Z.div_lt_upper_bound; unfold B; lia]. }
  pose proof (u32_fits x) as Hf. unfold fits in Hf.
  assert (2 ^ 31 ≤ x / B < B).
  { split; [apply Z.div_le_lower_bound|apply Z.div_lt_upper_bound]; unfold B in *; lia. }
  assert (limbs_ok [u32 x; x / B; 0]) as Hok by (repeat constructor; try apply u32_fits; by unfold B in *; lia).
  split; [split; [by split|]|].
  - right. exists [u32 x], (x / B), 0. split; [done|]. destruct (Z.leb_spec (2 ^ 31) (x / B)); [done|lia].
  - unfold sval, negative, top. cbn [List.last val]. assert ((2 ^ 31 <=? 0) = false) as -> by done. lia.
Qed.

Lemma js_bigint_new_di_computes `{Malloc} x :
  - 2 ^ 63 ≤ x < 2 ^ 63 → computes (js_bigint_new_di x) 2 x.
Proof.
  intros Hx. unfold js_bigint_new_di, JS_LIMB_BITS. destruct (Z.eqb_spec x (to_int x)) as [E|Hne].
  - pose proof (to_int_range x) as Hr. unfold INT_MIN, INT_MAX in Hr.
    apply gives_new; [lia|]. intros r _ _. apply gives_ret. split; [apply normal_limb, u32_fits|apply sval_limb; lia].
  - apply gives_new; [lia|]. intros r _ _. apply gives_ret. split; [apply normal_two; [done|]|by apply sval_two].
    intros Hs. apply Hne. symmetry. apply to_int_id. unfold INT_MIN, INT_MAX. lia.
Qed.

(** ** The complement *)

Lemma lnot_limb v : fits 32 v → u32 (Z.lnot v) = B - 1 - v.
Proof.
  intros Hv. unfold fits in Hv. unfold Z.lnot. apply (u32_spec _ (-1)); unfold B in *; lia.
Qed.

Definition complement (a : bigint) : bigint := (λ v, u32 (Z.lnot v)) <$> a.

Lemma complement_val a :
  limbs_ok a → limbs_ok (complement a) ∧ val (complement a) = Bn (length a) - 1 - val a.
Proof.
  unfold complement. induction 1 as [|v l Hv Hl [IHok IHv]]; [done|].
  cbn [fmap list_fmap val length]. split; [constructor; [apply u32_fits|done]|].
  rewrite lnot_limb, IHv, Bn_S by done. lia.
Qed.

Lemma complement_normal a : normal a → normal (complement a) ∧ sval (complement a) = Z.lnot (sval a).
Proof.
  intros [Hwf Hmin]. destruct (complement_val a (proj1 Hwf)) as [Hok Ev].
  assert (length (complement a) = length a) as Hl by apply length_fmap.
  assert (wf (complement a)) as Hwf'.
  { split; [done|]. intros E. rewrite E in Hl. destruct Hwf as [_ Hne]. by destruct a. }
  split; [split; [done|]|].
  - destruct Hmin as [H1|(l & w & v & -> & Hne)]; [left; lia|right].
    exists (complement l), (u32 (Z.lnot w)), (u32 (Z.lnot v)). split; [by unfold complement; rewrite fmap_app|].
    destruct Hwf as [[_ [Hw [Hv _]%Forall_cons]%Forall_cons]%Forall_app _].
    rewrite !lnot_limb by done. unfold fits in *. assert (B = 2 ^ 32) as EB by done.
    destruct (Z.leb_spec (2 ^ 31) w), (Z.leb_spec (2 ^ 31) (B - 1 - w)); lia.
  - pose proof (sval_range a Hwf) as Hr. unfold Z.lnot. apply sval_cong; [done| |rewrite Hl].
    2:{ destruct Hwf as [_ Hne]. destruct a; [done|]. cbn [length] in *. rewrite Bn_S in *. unfold B in *. lia. }
    rewrite Hl, Ev. destruct (cong_elim _ _ _ (cong_val a Hwf)) as [k ->].
    apply cong_intro with (1 - k). lia.
Qed.

Lemma js_bigint_not_computes `{Malloc} a :
  normal a → computes (js_bigint_not a) (len a) (Z.lnot (sval a)).
Proof.
  intros Ha. unfold computes. pose proof (wf_len a (proj1 Ha)). apply gives_new; [lia|]. intros r _ _.
  apply gives_ret. by apply complement_normal.
Qed.

(** ** Shifts *)

(** Zero limbs below a number multiply it. *)
Lemma low_zeros a d :
  wf a → wf (replicate d 0 ++ a) ∧ sval (replicate d 0 ++ a) = Bn d * sval a.
Proof.
  intros Hwf. assert (wf (replicate d 0 ++ a)) as Hwf'.
  { split; [|intros [_ E]%app_eq_nil; by apply Hwf]. apply Forall_app. split; [by apply Forall_replicate|apply Hwf]. }
  split; [done|]. pose proof (sval_range a Hwf). pose proof (Bn_pos d).
  apply sval_cong; [done| |rewrite length_app, length_replicate, Bn_add; nia].
  rewrite val_app, val_replicate_0, length_app, length_replicate.
  destruct (cong_elim _ _ _ (cong_val a Hwf)) as [k ->]. apply cong_intro with k. rewrite Bn_add. ring.
Qed.

Lemma low_zeros_normal a d : normal a → a ≠ [0] → normal (replicate d 0 ++ a).
Proof.
  intros [Hwf Hmin] Hz. split; [by apply low_zeros|].
  destruct Hmin as [H1|(l & w & v & -> & Hne)].
  - destruct a as [|v [|]]; [done| |done]. destruct d as [|d]; [by left|]. right.
    exists (replicate d 0), 0, v. rewrite replicate_S_end, <-app_assoc. split; [done|]. intros E. apply Hz. by rewrite E.
  - right. exists (replicate d 0 ++ l), w, v. by rewrite <-app_assoc.
Qed.

(** The high limb of a shifted number, with its sign. *)
Lemma shl_high s l :
  1 ≤ s ≤ 31 → 0 ≤ l < 2 ^ s → Z.lor l (u32 (Z.shiftl (u32 (-1)) s)) = l + (B - 2 ^ s).
Proof.
  intros Hs Hl. assert (u32 (Z.shiftl (u32 (-1)) s) = (2 ^ (32 - s) - 1) * 2 ^ s) as ->.
  { rewrite Z.shiftl_mul_pow2 by lia. change (u32 (-1)) with (B - 1).
    pose proof (pow2_split s ltac:(lia)) as E. pose proof (pow2_range s ltac:(lia)).
    apply (u32_spec _ (2 ^ s - 1)); nia. }
  rewrite Z.lor_comm. rewrite lor_high_low by (done || lia). pose proof (pow2_split s ltac:(lia)). lia.
Qed.

Lemma shl_limbs a s :
  wf a → 1 ≤ s ≤ 31 →
  ∃ res l, js_mp_shl a s = (res, l) ∧
    let h := if negative a then Z.lor l (u32 (Z.shiftl (u32 (-1)) s)) else l in
    wf res ∧ fits 32 h ∧ sval (res ++ [h]) = sval a * 2 ^ s.
Proof.
  intros Hwf Hs. destruct (js_mp_shl_spec a s (proj1 Hwf) Hs) as (res & l & E & Hres & Hlr & Hl & Ev).
  exists res, l. split; [done|]. intros h. pose proof (pow2_range s ltac:(lia)).
  assert (h = l + if negative a then B - 2 ^ s else 0) as Eh.
  { unfold h. destruct (negative a); [by apply shl_high|lia]. }
  assert (fits 32 h) as Hh by (rewrite Eh; unfold fits, B in *; destruct (negative a); lia).
  assert (wf res) as Hwr by (split; [done|]; intros ->; destruct Hwf as [_ Hne]; by destruct a).
  split_and!; [done|done|]. pose proof (sval_range a Hwf). pose proof (Bn_pos (length a)).
  apply sval_cong.
  - split; [apply Forall_app; split; [done|by constructor]|by destruct res].
  - rewrite length_app, val_snoc, Nat.add_1_r, Hlr, Eh. unfold sval. destruct (negative a).
    + apply cong_intro with 1. rewrite Bn_S. lia.
    + apply cong_intro with 0. lia.
  - rewrite length_app, Nat.add_1_r, Hlr, Bn_S.
    assert (B = 2 * 2 ^ 31) as EB by done. assert (2 ^ s ≤ 2 ^ 31) by (apply Z.pow_le_mono_r; lia). nia.
Qed.

Lemma sval_zero a : normal a → sval a = 0 → a = [0].
Proof. intros Ha E. apply normal_unique; [done|by apply normal_limb|]. by rewrite E. Qed.

Lemma pow2_limbs k : 0 ≤ k → 2 ^ k = Bn (Z.to_nat (k / 32)) * 2 ^ (k mod 32).
Proof.
  intros Hk. rewrite Bn_pow2, <-Z.pow_add_r by (try apply Z.mod_pos_bound; try (apply Z.mul_nonneg_nonneg; lia); lia).
  rewrite Z2Nat.id by (by apply Z.div_pos). f_equal. apply Z.div_mod. lia.
Qed.

Lemma js_bigint_shl_computes `{Malloc} a k :
  normal a → 0 ≤ k → computes (js_bigint_shl a k) (len a + k / 32) (sval a * 2 ^ k).
Proof.
  intros Ha Hk. pose proof (wf_len a (proj1 Ha)). assert (0 ≤ k / 32) as Hd by (by apply Z.div_pos).
  destruct (lookup_lt_is_Some_2 a 0 ltac:(unfold len in *; lia)) as [a0 Ha0].
  eapply gives_pure; [intros c; by apply rd_run|].
  destruct ((len a =? 1) && (a0 =? 0)) eqn:Ez.
  { apply andb_true_iff in Ez as [E1%Z.eqb_eq ->%Z.eqb_eq].
    assert (a = [0]) as -> by (destruct a as [|? [|]]; unfold len in E1; cbn in *; congruence || lia).
    eapply gives_mono; [by apply js_bigint_new_si_computes|lia|]. intros r [? ->]. by split. }
  assert (a ≠ [0]) as Hz by (intros ->; by injection Ha0 as <-).
  unfold JS_LIMB_BITS. set (d := k / 32) in *. set (s := k mod 32).
  assert (0 ≤ s < 32) as Hs by (by apply Z.mod_pos_bound).
  assert (2 ^ k = Bn (Z.to_nat d) * 2 ^ s) as Ek by (by apply pow2_limbs).
  apply gives_new; [lia|]. intros r _ _. destruct (Z.eqb_spec s 0) as [Es|Es].
  - apply gives_ret. split; [by apply low_zeros_normal|].
    rewrite (proj2 (low_zeros a _ (proj1 Ha))), Ek, Es. lia.
  - destruct (shl_limbs a s (proj1 Ha) ltac:(lia)) as (res & l & -> & Hlim).
    eapply gives_pure; [intros c; apply js_bigint_sign_run, Ha|].
    set (h := if negative a then _ else l) in Hlim. destruct Hlim as (Hres & Hh & Ev).
    replace (if negb (b2l (negative a) =? 0) then _ else l) with h by (unfold h; by destruct (negative a)).
    apply gives_extend; [by apply low_zeros|done|]. intros x Hx ->. split; [done|].
    rewrite <-app_assoc. assert (wf (res ++ [h])) as Hwf.
    { split; [apply Forall_app; split; [apply Hres|by constructor]|by destruct res]. }
    rewrite (proj2 (low_zeros _ (Z.to_nat d) Hwf)), Ev, Ek. ring.
Qed.

Lemma drop_sval a d :
  wf a → (d < length a)%nat → wf (drop d a) ∧ sval (drop d a) = sval a / Bn d.
Proof.
  intros Hwf Hd. assert (wf (drop d a)) as Hwf'.
  { split; [by apply Forall_drop, Hwf|]. intros E%(f_equal length). rewrite length_drop in E. cbn in E. lia. }
  split; [done|]. pose proof (Bn_pos d). apply Z.div_unique with (val (take d a)).
  { left. pose proof (val_range (take d a) (Forall_take _ _ _ (proj1 Hwf))) as Hv.
    by rewrite length_take_le in Hv by lia. }
  assert (negative (drop d a) = negative a) as Hneg.
  { unfold negative, top. f_equal. rewrite <-(take_drop d a) at 2.
    destruct (drop d a) as [|v l _] using rev_ind; [by destruct Hwf'|]. by rewrite app_assoc, !List.last_last. }
  unfold sval. rewrite Hneg, length_drop. rewrite <-(take_drop d a) at 1.
  rewrite val_app, length_take_le by lia.
  assert (Bn (length a) = Bn d * Bn (length a - d)) as -> by (rewrite <-Bn_add; f_equal; lia).
  destruct (negative a); lia.
Qed.

Lemma drop_normal a d : normal a → (d < length a)%nat → normal (drop d a).
Proof.
  intros [Hwf Hmin] Hd. split; [by apply drop_sval|].
  destruct (Nat.eq_dec (S d) (length a)) as [E|Hne]; [left; rewrite length_drop; lia|].
  destruct Hmin as [H1|(l & w & v & -> & Hv)]; [lia|]. right.
  rewrite length_app in *. cbn in *. exists (drop d l), w, v. by rewrite drop_app_le by lia.
Qed.

(** All the limbs are shifted out. *)
Lemma shr_all a d : wf a → (length a ≤ d)%nat → sval a / Bn d = - b2l (negative a).
Proof.
  intros Hwf Hd. pose proof (sval_range a Hwf) as Hr. rewrite (negative_sval a Hwf).
  assert (Bn (length a) ≤ Bn d) by (unfold Bn; apply Z.pow_le_mono_r; [done|lia]). pose proof (Bn_pos d).
  symmetry. destruct (Z.ltb_spec (sval a) 0); cbn [b2l];
    [apply Z.div_unique with (sval a + Bn d)|apply Z.div_unique with (sval a)]; lia.
Qed.

Lemma shr_limbs a s :
  wf a → 1 ≤ s ≤ 31 →
  ∃ res r, js_mp_shr a s (sign_limb a) = (res, r) ∧ wf res ∧ sval res = sval a / 2 ^ s.
Proof.
  intros Hwf Hs. destruct (js_mp_shr_spec a s (sign_limb a) (proj1 Hwf) Hs (sign_limb_fits a))
    as (res & r & E & Hres & Hl & Ev & _). exists res, r. split; [done|].
  assert (wf res) as Hwf' by (split; [done|]; intros ->; destruct Hwf as [_ Hne]; by destruct a).
  split; [done|]. pose proof (sval_range a Hwf) as Hr. pose proof (Bn_pos (length a)).
  pose proof (pow2_range s ltac:(lia)) as Hp. pose proof (pow2_split s ltac:(lia)) as Eb.
  apply sval_cong; [done| |].
  - rewrite Hl, Ev. rewrite cong_mod. unfold sign_limb, sval. destruct (negative a).
    + apply cong_intro with (2 ^ (32 - s)).
      rewrite <-Z.div_add by lia. f_equal. rewrite Eb. ring.
    + apply cong_intro with 0. rewrite Z.mul_0_r, !Z.add_0_r, Z.sub_0_r. done.
  - rewrite Hl. assert (2 ≤ 2 ^ s).
    { change 2 with (2 ^ 1) at 1. apply Z.pow_le_mono_r; lia. }
    pose proof (Z.div_mod (sval a) (2 ^ s) ltac:(lia)). pose proof (Z.mod_pos_bound (sval a) (2 ^ s) ltac:(lia)). nia.
Qed.

Lemma js_bigint_shr_computes `{Malloc} a k :
  normal a → 0 ≤ k → computes (js_bigint_shr a k) (len a) (Z.shiftr (sval a) k).
Proof.
  intros Ha Hk. pose proof (wf_len a (proj1 Ha)) as Hla. assert (0 ≤ k / 32) as Hd by (by apply Z.div_pos).
  rewrite Z.shiftr_div_pow2, pow2_limbs by done. pose proof (Bn_pos (Z.to_nat (k / 32))).
  assert (0 ≤ k mod 32 < 32) as Hs by (by apply Z.mod_pos_bound).
  pose proof (pow2_range (k mod 32) ltac:(lia)). rewrite <-Z.div_div by lia.
  unfold js_bigint_shr, JS_LIMB_BITS. set (d := k / 32) in *. set (s := k mod 32) in *.
  eapply gives_pure; [intros c; apply js_bigint_sign_run, Ha|]. rewrite Z.geb_leb, sign_limb_u32.
  destruct (Z.leb_spec (len a) d) as [Hall|Hpart].
  - rewrite shr_all by (apply Ha || (unfold len in *; lia)).
    assert (- b2l (negative a) / 2 ^ s = - b2l (negative a)) as ->.
    { destruct (negative a); cbn [b2l].
      - symmetry. apply Z.div_unique with (2 ^ s - 1); lia.
      - apply Z.div_0_l. lia. }
    eapply gives_mono; [apply js_bigint_new_si_computes|lia|done]. by destruct (negative a).
  - destruct (drop_sval a (Z.to_nat d) (proj1 Ha)) as [Hwf Ev]; [unfold len in *; lia|].
    apply gives_new; [lia|]. intros r _ _. rewrite <-Ev. destruct (Z.eqb_spec s 0) as [->|Es].
    + apply gives_ret. rewrite Z.pow_0_r, Z.div_1_r. split; [|done]. apply drop_normal; [done|unfold len in *; lia].
    + assert (sign_limb a = sign_limb (drop (Z.to_nat d) a)) as ->.
      { unfold sign_limb. rewrite !negative_sval, Ev by (apply Ha || done).
        destruct (Z.ltb_spec (sval a) 0), (Z.ltb_spec (sval a / Bn (Z.to_nat d)) 0); try done.
        - exfalso. assert (sval a / Bn (Z.to_nat d) < 0) by (by apply Z.div_lt_upper_bound; lia). lia.
        - exfalso. assert (0 ≤ sval a / Bn (Z.to_nat d)) by (apply Z.div_pos; lia). lia. }
      destruct (shr_limbs _ s Hwf ltac:(lia)) as (res & r' & -> & Hres & Er).
      apply gives_normalize; [done|]. intros x Hx ->. done.
Qed.

(** ** Comparison *)

Lemma cmp_limbs_run {S} a b n (s : S) :
  limbs_ok a → limbs_ok b → (n ≤ length a)%nat → (n ≤ length b)%nat →
  cmp_limbs a b n s = (Ok (Z.sgn (val (take n a) - val (take n b))), s).
Proof.
  intros Ha Hb. induction n as [|n IH]; intros Hla Hlb; [done|].
  destruct (lookup_lt_is_Some_2 a n ltac:(lia)) as [x Hx].
  destruct (lookup_lt_is_Some_2 b n ltac:(lia)) as [y Hy]. cbn [cmp_limbs].
  erewrite bind_run by (apply rd_run; [lia|by rewrite Nat2Z.id]).
  erewrite bind_run by (apply rd_run; [lia|by rewrite Nat2Z.id]).
  rewrite (take_S_r _ _ _ Hx), (take_S_r _ _ _ Hy), !val_snoc, !length_take_le by lia.
  pose proof (val_range (take n a) (Forall_take _ _ _ Ha)) as Va.
  pose proof (val_range (take n b) (Forall_take _ _ _ Hb)) as Vb. rewrite length_take_le in Va, Vb by lia.
  destruct (Z.eqb_spec x y) as [->|Hne]; cbn [negb].
  - rewrite IH by lia. do 2 f_equal. f_equal. lia.
  - unfold ret. do 2 f_equal. symmetry. destruct (Z.ltb_spec x y); [apply Z.sgn_neg|apply Z.sgn_pos]; nia.
Qed.

(** A longer normal form is farther from 0. *)
Lemma longer_bigger a b :
  normal a → wf b → (length b < length a)%nat →
  Z.sgn (sval a - sval b) = 1 - 2 * b2l (negative a).
Proof.
  intros Ha Hb Hl. pose proof (sval_range b Hb) as Hr. pose proof (wf_len b Hb). unfold len in *.
  rewrite (negative_sval a (proj1 Ha)).
  destruct (decide (- Bn (length b) ≤ 2 * sval a < Bn (length b))) as [Hin|Hout].
  { pose proof (minimal_size a (length b) Ha ltac:(lia) Hin). lia. }
  destruct (Z.ltb_spec (sval a) 0); cbn [b2l]; [apply Z.sgn_neg|apply Z.sgn_pos]; lia.
Qed.

Lemma js_bigint_cmp_run {S} a b (s : S) :
  normal a → normal b → js_bigint_cmp a b s = (Ok (Z.sgn (sval a - sval b)), s).
Proof.
  intros Ha Hb. unfold js_bigint_cmp.
  erewrite bind_run by apply js_bigint_sign_run, Ha. erewrite bind_run by apply js_bigint_sign_run, Hb.
  pose proof (negative_sval a (proj1 Ha)) as Na. pose proof (negative_sval b (proj1 Hb)) as Nb.
  destruct (Z.eqb_spec (b2l (negative a)) (b2l (negative b))) as [Es|Es]; cbn [negb].
  - assert (negative a = negative b) as Hneg by (destruct (negative a), (negative b); done).
    unfold len. destruct (Z.eqb_spec (Z.of_nat (length a)) (Z.of_nat (length b))) as [El|El]; cbn [negb].
    + rewrite cmp_limbs_run by (apply Ha || apply Hb || lia). unfold sval. rewrite Hneg.
      rewrite !take_ge by lia. replace (length b) with (length a) by lia. do 2 f_equal. f_equal. lia.
    + unfold ret. do 2 f_equal. symmetry. destruct (Z.ltb_spec (Z.of_nat (length a)) (Z.of_nat (length b))).
      * pose proof (longer_bigger b a Hb (proj1 Ha) ltac:(lia)). rewrite Hneg. lia.
      * apply longer_bigger; [done|apply Hb|lia].
  - unfold ret. do 2 f_equal. symmetry. rewrite Na, Nb in *.
    destruct (Z.ltb_spec (sval a) 0), (Z.ltb_spec (sval b) 0); try done; cbn [b2l];
      [apply Z.sgn_neg|apply Z.sgn_pos]; lia.
Qed.
