(* ===== verification/BigIntDivRem.v ===== *)
(** * Big integers: the quotient and the remainder

    [js_bigint_divrem] keeps its contract: the quotient and the remainder of the
    division that truncates. *)
From S2P Require Import Prelude CStd Words CUtils BigIntMp BigIntMpFacts BigIntDiv BigInt BigIntFacts BigIntOps.

(** ** Rules for the allocations of an operation that has blocks already *)

(** The blocks are freed and the exception goes on. *)
Definition fails {A} (d : Z) (m : M JSContext (option A)) : Prop := ∀ c,
  ∃ c', m c = (Ok None, c') ∧ grants c' = grants c ∧ pending c' = pending c ∧ live c' = live c - d.

Lemma fails_ret {A} : fails (A := A) 0 (ret None).
Proof. intros c. exists c. split_and!; [done..|lia]. Qed.

Lemma fails_free {A} d (m : M JSContext (option A)) : fails (d - 1) m → fails d (js_free;; m).
Proof.
  intros Hm c. destruct (Hm {| grants := grants c; pending := pending c; live := live c - 1 |}) as (c' & E & Hg & Hp & Hl).
  exists c'. cbn in *. split_and!; [done..|lia].
Qed.

Lemma gives_fails {A} d (m : M JSContext (option A)) size Q c :
  fails d m → pending c ≠ None → ¬ (granted c ∧ size ≤ JS_BIGINT_MAX_SIZE) →
  ∃ r c', m c = (Ok r, c') ∧ (∃ used, grants c = used ++ grants c') ∧
    match r with
    | Some a => Q a ∧ live c' = live c + 1 - d
    | None => pending c' ≠ None ∧ live c' = live c - d
    end ∧ (granted c → size ≤ JS_BIGINT_MAX_SIZE → r ≠ None ∧ pending c' = pending c).
Proof.
  intros Hm Hp Hn. destruct (Hm c) as (c' & E & Hg & Hp' & Hl). exists None, c'.
  split_and!; [done|by exists []; rewrite Hg|congruence|lia|]. intros ??. exfalso. auto.
Qed.

(** [p = js_malloc(ctx, n); if (!p) { free what there is; return NULL; }] *)
Lemma gives_malloc {B} d (k f : M JSContext (option B)) size Q :
  gives (d + 1) k size Q → fails d f →
  gives d (ok ← js_malloc; if negb ok then f else k) size Q.
Proof.
  intros Hk Hf c. destruct (js_malloc_run c) as (b & c1 & E & ((u & Eu) & Hl & Hp) & Hg & Hb).
  erewrite bind_run by exact E. destruct b; cbn [negb].
  - destruct (Hk c1) as (r & c2 & E2 & (u' & Eu') & Hr & Hg2). exists r, c2. split_and!; [done| | |].
    + exists (u ++ u'). by rewrite Eu, Eu', app_assoc.
    + destruct r; split; try apply Hr; destruct Hr as [_ Hr]; lia.
    + intros Hgr Hs. destruct Hg2 as [Hne ->]; [by eapply granted_suffix|done|]. split; [done|auto].
  - destruct (Hf c1) as (c2 & E2 & Hg2 & Hp2 & Hl2). exists None, c2. rewrite E2.
    split_and!; [done|exists u; by rewrite Eu, Hg2|rewrite Hp2; auto|lia|intros Hgr; by specialize (Hg Hgr)..].
Qed.

(** The same for a big integer. *)
Lemma gives_new_or `{Malloc} {B} d n (k : bigint → M JSContext (option B)) f size Q :
  0 ≤ n ≤ size → (∀ r, limbs_ok r → len r = n → gives (d + 1) (k r) size Q) → fails d f →
  gives d (q ← js_bigint_new n; match q with None => f | Some r => k r end) size Q.
Proof.
  intros Hn Hk Hf c. unfold js_bigint_new. rewrite Z.gtb_ltb.
  destruct (Z.ltb_spec JS_BIGINT_MAX_SIZE n).
  { set (c1 := {| grants := grants c; pending := Some (RangeError "BigInt is too large to allocate"); live := live c |}).
    change (∃ r c', f c1 = (Ok r, c') ∧ (∃ used, grants c1 = used ++ grants c') ∧
      match r with Some a => Q a ∧ live c' = live c1 + 1 - d | None => pending c' ≠ None ∧ live c' = live c1 - d end ∧
      (granted c → size ≤ JS_BIGINT_MAX_SIZE → r ≠ None ∧ pending c' = pending c)).
    destruct (Hf c1) as (c2 & E2 & Hg2 & Hp2 & Hl2). exists None, c2.
    split_and!; [done|exists []; by rewrite Hg2|by rewrite Hp2|done|lia..]. }
  rewrite bind_bind.
  assert (gives d (ok ← js_malloc; if negb ok then f else k (fresh_limbs (Z.to_nat n))) size Q) as Hgv.
  { apply gives_malloc; [|done]. destruct (fresh_limbs_ok (Z.to_nat n)) as [Hok Hlen]. apply Hk; [done|]. unfold len. lia. }
  destruct (Hgv c) as (r & c' & E & Hrest). exists r, c'. split; [|done]. rewrite <-E. unfold bind.
  by destruct (js_malloc c) as [[[|]|] ?].
Qed.

(** ** Absolute values *)

Lemma neg_limbs_sval r x :
  wf r → sval r = x → - Bn (length r) < 2 * x →
  wf (js_mp_neg r).1 ∧ length (js_mp_neg r).1 = length r ∧ sval (js_mp_neg r).1 = - x.
Proof.
  intros Hwf Ev Hx. destruct (js_mp_neg_spec r (proj1 Hwf)) as (Hok & Hl & Hv).
  assert (wf (js_mp_neg r).1) as Hwf'.
  { split; [done|]. intros E. rewrite E in Hl. destruct Hwf as [_ Hne]. by destruct r. }
  split_and!; [done|done|]. pose proof (sval_range r Hwf).
  apply sval_cong; [done| |].
  - rewrite Hl, Hv, cong_mod. destruct (cong_elim _ _ _ (cong_val r Hwf)) as [k ->].
    apply cong_intro with (- k). lia.
  - rewrite Hl. lia.
Qed.

Lemma abs_limbs_spec a :
  wf a → let l := abs_limbs (b2l (negative a)) a in
  limbs_ok l ∧ length l = length a ∧ val l = Z.abs (sval a).
Proof.
  intros Hwf l. pose proof (sval_range a Hwf) as Hr. pose proof (negative_sval a Hwf) as Hn.
  unfold l, abs_limbs. destruct (negative a) eqn:En; cbn [b2l Z.eqb negb].
  - destruct (js_mp_neg_spec a (proj1 Hwf)) as (Hok & Hl & ->). split_and!; [done|done|].
    symmetry in Hn. apply Z.ltb_lt in Hn. unfold sval in *. rewrite En in *.
    pose proof (val_range a (proj1 Hwf)). symmetry. apply Z.mod_unique with (-1); lia.
  - split_and!; [apply Hwf|done|]. symmetry in Hn. apply Z.ltb_ge in Hn. unfold sval in *. rewrite En in *. lia.
Qed.

Lemma strip_zeros_SS {S} (tab : list Z) n :
  strip_zeros (S := S) tab (Datatypes.S (Datatypes.S n)) =
  (v ← rd tab (Z.of_nat (Datatypes.S n)); if v =? 0 then strip_zeros tab (Datatypes.S n) else ret (Datatypes.S (Datatypes.S n))).
Proof. done. Qed.

(** The limbs that are kept have the value of all; the highest is not 0. *)
Lemma strip_zeros_run S l post n :
  limbs_ok l → n = length l → (1 ≤ n)%nat →
  ∃ l' v, (∀ s : S, strip_zeros (l ++ post) n s = (Ok (Datatypes.S (length l')), s)) ∧
    (∃ zs, l = l' ++ v :: zs) ∧ val (l' ++ [v]) = val l ∧ (l' = [] ∨ v ≠ 0).
Proof.
  intros Hl ->. revert post. induction l as [|v l IH] using rev_ind; intros post Hn; [cbn in Hn; lia|].
  apply Forall_app in Hl as [Hl _]. rewrite length_app, Nat.add_1_r.
  destruct l as [|x l _] using rev_ind; [exists [], v; split_and!; [done|by exists []|done|by left]|].
  rewrite length_app, Nat.add_1_r, strip_zeros_SS, <-(app_assoc (l ++ [x])).
  assert (∀ s : S, rd ((l ++ [x]) ++ [v] ++ post) (Z.of_nat (Datatypes.S (length l))) s = (Ok v, s)) as Hrd.
  { intros s. apply rd_app. rewrite length_app. cbn. lia. }
  destruct (decide (v = 0)) as [->|Hv].
  - destruct (IH Hl ([0] ++ post)) as (l' & w & E & (zs & Ez) & Ev & Hw); [rewrite length_app; cbn; lia|].
    rewrite length_app, Nat.add_1_r in E. exists l', w.
    split_and!; [| |by rewrite Ev, (val_snoc _ 0), Z.mul_0_r, Z.add_0_r|done].
    + intros s. by erewrite bind_run by apply Hrd.
    + exists (zs ++ [0]). by rewrite Ez, <-app_assoc.
  - exists (l ++ [x]), v. split_and!; [|by exists []|done|by right].
    intros s. erewrite bind_run by apply Hrd. rewrite length_app, Nat.add_1_r. destruct (Z.eqb_spec v 0); done.
Qed.

(** ** The operands, shifted *)

(** The high limb of the divisor: the shift that normalises it. *)
Lemma clz_limb_run S v :
  fits 32 v → v ≠ 0 →
  ∃ k, (∀ s : S, js_limb_clz v s = (Ok k, s)) ∧ 0 ≤ k ≤ 31 ∧ 2 ^ 31 ≤ v * 2 ^ k ∧ (v + 1) * 2 ^ k ≤ 2 ^ 32.
Proof.
  intros Hv Hnz. unfold fits in Hv. exists (31 - Z.log2 v). unfold js_limb_clz, clz32.
  destruct (Z.eqb_spec v 0); [done|]. split; [done|].
  pose proof (Z.log2_spec v ltac:(lia)) as [Hlo Hhi]. pose proof (Z.log2_nonneg v).
  assert (Z.log2 v ≤ 31) by (apply Z.lt_succ_r, Z.log2_lt_pow2; lia).
  assert (2 ^ 31 = 2 ^ Z.log2 v * 2 ^ (31 - Z.log2 v)) as E1 by (rewrite <-Z.pow_add_r by lia; f_equal; lia).
  assert (2 ^ 32 = 2 ^ Z.succ (Z.log2 v) * 2 ^ (31 - Z.log2 v)) as E2 by (rewrite <-Z.pow_add_r by lia; f_equal; lia).
  rewrite E1, E2. assert (0 < 2 ^ (31 - Z.log2 v)) by (apply Z.pow_pos_nonneg; lia). split_and!; [lia|lia|nia|nia].
Qed.

(** The divisor, shifted: the same limbs, the highest normalised. *)
Lemma divisor_shifted l v k :
  limbs_ok l → fits 32 v → 0 ≤ k ≤ 31 → 2 ^ 31 ≤ v * 2 ^ k → (v + 1) * 2 ^ k ≤ 2 ^ 32 →
  ∃ l' b1, (if negb (k =? 0) then (js_mp_shl (l ++ [v]) k).1 else l ++ [v]) = l' ++ [b1] ∧
    limbs_ok l' ∧ length l' = length l ∧ normalised b1 ∧ val (l' ++ [b1]) = val (l ++ [v]) * 2 ^ k.
Proof.
  intros Hl Hv Hk Hlo Hhi. unfold fits in Hv. destruct (Z.eqb_spec k 0) as [->|Hnz]; cbn [negb].
  { exists l, v. split_and!; [done|done|done|unfold normalised, B; lia|lia]. }
  destruct (js_mp_shl_spec (l ++ [v]) k) as (res & h & -> & Hres & Hlr & Hh & Ev);
    [apply Forall_app; split; [done|by constructor]|lia|]. cbn [fst].
  rewrite length_app, Nat.add_1_r in Hlr. destruct (split_last res (length l) Hlr) as (l' & b1 & -> & Hl').
  exists l', b1. apply Forall_app in Hres as [Hok [Hb _]%Forall_cons]. unfold fits in Hb.
  rewrite length_app, Nat.add_1_r, Bn_S, !val_snoc, Hl' in Ev. pose proof (val_range l Hl) as Vl.
  pose proof (val_range l' Hok) as Vl'. rewrite Hl' in Vl'. pose proof (Bn_pos (length l)) as HB.
  assert (0 < 2 ^ k) by (apply Z.pow_pos_nonneg; lia). assert (B = 2 ^ 32) as EB by done.
  assert (h = 0) as ->.
  { assert (val l * 2 ^ k < Bn (length l) * 2 ^ k) by nia.
    assert (Bn (length l) * (B * h) < Bn (length l) * B) by nia. nia. }
  split_and!; [done|done|done| |rewrite !val_snoc, Hl'; lia].
  unfold normalised. split; [|lia].
  assert (Bn (length l) * 2 ^ 31 ≤ Bn (length l) * (v * 2 ^ k)) by nia.
  assert (Bn (length l) * 2 ^ 31 < Bn (length l) * (b1 + 1)) by nia. nia.
Qed.

(** Both operands. *)
Lemma divrem_normalise_run A post l v k :
  limbs_ok A → limbs_ok post → (1 ≤ length post)%nat →
  limbs_ok l → fits 32 v → 0 ≤ k ≤ 31 → 2 ^ 31 ≤ v * 2 ^ k → (v + 1) * 2 ^ k ≤ 2 ^ 32 →
  ∃ A' post' l' b1,
    (∀ c, divrem_normalise (A ++ post) (l ++ [v]) (Z.of_nat (length A)) k c
     = (Ok (A' ++ post', Z.of_nat (length A'), l' ++ [b1]), c)) ∧
    limbs_ok A' ∧ (length A ≤ length A' ≤ S (length A))%nat ∧
    (length A' + length post' = length A + length post)%nat ∧ limbs_ok post' ∧
    limbs_ok l' ∧ length l' = length l ∧ normalised b1 ∧
    val A' = val A * 2 ^ k ∧ val (l' ++ [b1]) = val (l ++ [v]) * 2 ^ k.
Proof.
  intros HA Hpost Hp Hl Hv Hk Hlo Hhi.
  destruct (divisor_shifted l v k Hl Hv Hk Hlo Hhi) as (l' & b1 & Eb & Hl' & Hll & Hb & Evb).
  unfold divrem_normalise. destruct (Z.eqb_spec k 0) as [->|Hnz]; cbn [negb] in *.
  { exists A, post, l', b1. rewrite Eb. split_and!; [done|done|lia|lia|lia|done|done|done|done|lia|lia]. }
  destruct (js_mp_shl (l ++ [v]) k) as [tb hb] eqn:Etb. cbn [fst] in Eb. subst tb.
  destruct (js_mp_shl_spec A k HA ltac:(lia)) as (res & h & EA & Hres & Hlr & Hh & EvA).
  assert (∀ c, on_tab (A ++ post) (in_place 0 (Z.of_nat (length A)) (λ l, js_mp_shl l k)) c
    = (Ok (h, res ++ post), c)) as Hin.
  { intros c. apply on_tab_run. by apply (in_place_run 0 _ _ [] A post res h). }
  pose proof (pow2_range k ltac:(lia)) as Hpk.
  destruct (Z.eqb_spec h 0) as [->|Hh0]; cbn [negb].
  - exists res, post, l', b1. rewrite Hlr. split_and!; [intros c; by erewrite bind_run by apply Hin|done|lia|lia|lia|done|done|done|done|lia|done].
  - destruct post as [|x post]; [cbn in Hp; lia|]. apply Forall_cons in Hpost as [Hx Hpost].
    exists (res ++ [h]), post, l', b1. rewrite length_app, Nat.add_1_r, Hlr.
    assert (limbs_ok (res ++ [h])) by (apply Forall_app; split; [done|]; constructor; [unfold fits, B in *; lia|done]).
    split_and!; [|done|lia|lia|cbn; lia|done|done|done|done|rewrite val_snoc, Hlr; lia|done].
    intros c. erewrite bind_run by apply Hin. cbv beta iota. rewrite (proj2 (Z.eqb_neq h 0) Hh0). cbn [negb].
    erewrite bind_run by (apply on_tab_run; apply wr_here; lia). unfold ret. rewrite <-app_assoc. do 4 f_equal. lia.
Qed.

(** ** The results *)

Lemma quot_abs x y :
  y ≠ 0 → Z.quot x y = if xorb (x <? 0) (y <? 0) then - (Z.abs x / Z.abs y) else Z.abs x / Z.abs y.
Proof.
  intros Hy. rewrite Z.quot_div by done.
  destruct (Z.ltb_spec x 0), (Z.ltb_spec y 0); cbn [xorb].
  - rewrite (Z.sgn_neg x), (Z.sgn_neg y) by lia. lia.
  - rewrite (Z.sgn_neg x), (Z.sgn_pos y) by lia. lia.
  - destruct (Z.eq_dec x 0) as [->|]; [by rewrite !Z.div_0_l by lia|].
    rewrite (Z.sgn_pos x), (Z.sgn_neg y) by lia. lia.
  - destruct (Z.eq_dec x 0) as [->|]; [by rewrite !Z.div_0_l by lia|].
    rewrite (Z.sgn_pos x), (Z.sgn_pos y) by lia. lia.
Qed.

Lemma rem_abs x y :
  y ≠ 0 → Z.rem x y = if x <? 0 then - (Z.abs x mod Z.abs y) else Z.abs x mod Z.abs y.
Proof.
  intros Hy. rewrite Z.rem_mod by done. destruct (Z.ltb_spec x 0).
  - rewrite (Z.sgn_neg x) by lia. lia.
  - destruct (Z.eq_dec x 0) as [->|]; [by rewrite Z.mod_0_l by lia|]. rewrite (Z.sgn_pos x) by lia. lia.
Qed.

(** A magnitude with a limb for the sign. *)
Lemma with_sign_limb l :
  limbs_ok l → wf (l ++ [0]) ∧ sval (l ++ [0]) = val l ∧ - Bn (length (l ++ [0])) < 2 * val l.
Proof.
  intros Hl. pose proof (val_range l Hl). split_and!.
  - split; [apply Forall_app; split; [done|]; by repeat constructor|by destruct l].
  - rewrite sval_snoc. assert ((2 ^ 31 <=? 0) = false) as -> by done. lia.
  - rewrite length_app, Nat.add_1_r, Bn_S. unfold B. lia.
Qed.

Lemma quotient_gives l s size (Q : bigint → Prop) :
  limbs_ok l → (∀ q, normal q → sval q = (if s : bool then - val l else val l) → Q q) →
  gives 1 (let q := l ++ [0] in
           let q := if s then (js_mp_neg q).1 else q in
           q ← js_bigint_normalize q; ret (Some q)) size Q.
Proof.
  intros Hl HQ. destruct (with_sign_limb l Hl) as (Hwf & Ev & Hr). cbv zeta.
  destruct (neg_limbs_sval _ _ Hwf Ev Hr) as (Hwf' & _ & Ev').
  destruct s; (apply gives_normalize; [done|]; intros q Hq E; apply HQ; [done|congruence]).
Qed.

(** The remainder, shifted back. *)
Lemma shift_back_run R post k c :
  limbs_ok R → 0 ≤ k ≤ 31 →
  ∃ h R', (if negb (k =? 0)
           then on_tab (R ++ post) (in_place 0 (Z.of_nat (length R)) (λ l, js_mp_shr l k 0))
           else ret (0, R ++ post)) c = (Ok (h, R' ++ post), c) ∧
    limbs_ok R' ∧ length R' = length R ∧ val R' = val R / 2 ^ k.
Proof.
  intros HR Hk. pose proof (val_range R HR). destruct (Z.eqb_spec k 0) as [->|Hnz]; cbn [negb].
  { exists 0, R. split_and!; [done..|]. by rewrite Z.pow_0_r, Z.div_1_r. }
  destruct (js_mp_shr_spec R k 0 HR ltac:(lia) ltac:(done)) as (res & r & E & Hres & Hl & Ev & _).
  exists r, res. split_and!; [|done|done|].
  - apply on_tab_run. by apply (in_place_run 0 _ _ [] R post res r).
  - rewrite Ev, Z.mul_0_r, Z.add_0_r. apply Z.mod_small. pose proof (pow2_range k ltac:(lia)).
    split; [apply Z.div_pos; lia|]. apply Z.le_lt_trans with (val R); [|lia]. apply Z.div_le_upper_bound; nia.
Qed.

Lemma remainder_gives R x post k (s : bool) size (Q : bigint → Prop) :
  limbs_ok R → 0 ≤ k ≤ 31 →
  (∀ r, normal r → sval r = (if s then - (val R / 2 ^ k) else val R / 2 ^ k) → Q r) →
  gives 1 (
    let rtab := R ++ x :: post in
    '(_, rtab) ← (if negb (k =? 0)
                  then on_tab rtab (in_place 0 (Z.of_nat (length R)) (λ l, js_mp_shr l k 0))
                  else ret (0, rtab));
    '(_, rtab) ← on_tab rtab (wr (Z.of_nat (length R)) 0);
    '(_, rtab) ← (if negb (b2l s =? 0)
                  then on_tab rtab (in_place 0 (Z.of_nat (length R) + 1) js_mp_neg)
                  else ret (0, rtab));
    r ← js_bigint_normalize1 rtab (length R + 1);
    ret (Some r)) size Q.
Proof.
  intros HR Hk HQ. cbv zeta.
  apply (gives_step 1 0 _ (λ p, ∃ R', p.2 = R' ++ x :: post ∧ limbs_ok R' ∧ length R' = length R ∧ val R' = val R / 2 ^ k)).
  { intros c. destruct (shift_back_run R (x :: post) k c HR Hk) as (h & R' & E & HR' & Hl & Ev).
    eexists _, c. split; [exact E|]. split; [by exists R'|apply after_refl]. }
  intros [h rtab] (R' & E & HR' & <- & Ev). cbn [snd] in E. subst rtab.
  eapply gives_pure; [intros c; apply on_tab_run; by apply wr_here|].
  destruct (with_sign_limb R' HR') as (Hwf & Es & Hr).
  destruct (neg_limbs_sval _ _ Hwf Es Hr) as (Hwf' & Hln & Es').
  eapply gives_pure with (a := (if s then (js_mp_neg (R' ++ [0])).2 else 0,
    (if s then (js_mp_neg (R' ++ [0])).1 else R' ++ [0]) ++ post)).
  { intros c. destruct s; cbn [b2l Z.eqb negb]; [|by rewrite <-app_assoc].
    apply on_tab_run. replace (R' ++ 0 :: post) with ([] ++ (R' ++ [0]) ++ post) by (by rewrite <-app_assoc).
    apply (in_place_run _ _ _ []); [done|rewrite length_app; cbn; lia|by destruct (js_mp_neg _)|done]. }
  set (l := if s then _ else R' ++ [0]).
  assert (wf l ∧ length l = (length R' + 1)%nat ∧ sval l = if s then - (val R / 2 ^ k) else val R / 2 ^ k) as (Hwl & Hll & El).
  { unfold l. rewrite length_app in Hln. cbn in Hln. rewrite <-Ev. destruct s; split_and!; try done. by rewrite length_app. }
  apply (gives_step 1 0 _ (λ r, normal r ∧ sval r = sval l)).
  - intros c. destruct (normalize1_run (l ++ post) (length R' + 1) c) as (r & c' & E & Hr' & Haf).
    + rewrite take_app_le, take_ge by lia. apply Hwl.
    + rewrite length_app. lia.
    + exists r, c'. rewrite take_app_le, take_ge in Hr' by lia. done.
  - intros r [Hn Hv]. apply gives_ret. apply HQ; [done|]. by rewrite Hv.
Qed.

(** ** The operation *)

Section divide.
Context `{Malloc}.
Context (a b : bigint) (is_rem : bool).
Hypotheses (Ha : normal a) (Hb : normal b) (Hz : b ≠ [0]).
#[local] Set Default Proof Using "All".

Definition divided : Z := (if is_rem then Z.rem else Z.quot) (sval a) (sval b).
Definition promised (r : bigint) : Prop := normal r ∧ sval r = divided.

Lemma divisor_nonzero : sval b ≠ 0.
Proof using Hb Hz. intros E. by apply Hz, sval_zero. Qed.

(** The branch for a dividend with fewer limbs. *)
Lemma small_dividend :
  Z.abs (sval a) < Z.abs (sval b) →
  gives 2 (js_free;; js_free;;
    if is_rem then r ⇐ js_bigint_new (len a); ret (Some a) else js_bigint_new_si 0)
    (len a + 2) promised.
Proof.
  intros Hlt. pose proof divisor_nonzero as Hnz. pose proof (wf_len a (proj1 Ha)).
  assert (Z.abs (sval a) / Z.abs (sval b) = 0) as Eq by (apply Z.div_small; lia).
  assert (Z.abs (sval a) mod Z.abs (sval b) = Z.abs (sval a)) as Er by (apply Z.mod_small; lia).
  do 2 apply gives_free. unfold promised, divided. destruct is_rem.
  - apply gives_new; [lia|]. intros r _ _. apply gives_ret. split; [done|].
    rewrite rem_abs, Er by done. destruct (Z.ltb_spec (sval a) 0); lia.
  - eapply gives_mono; [by apply js_bigint_new_si_computes|lia|]. intros r [Hr ->]. split; [done|].
    rewrite quot_abs, Eq by done. by destruct (xorb _ _).
Qed.

(** After the division of the shifted operands. *)
Lemma finish qs R x post k na nb :
  limbs_ok qs → limbs_ok R → nb = length R → 0 ≤ k ≤ 31 →
  val qs = Z.abs (sval a) / Z.abs (sval b) → val R / 2 ^ k = Z.abs (sval a) mod Z.abs (sval b) →
  gives 3 (
    js_free;;
    if is_rem then
      js_free;;
      '(_, rtab) ← (if negb (k =? 0)
                    then on_tab (R ++ x :: post) (in_place 0 (Z.of_nat nb) (λ l, js_mp_shr l k 0))
                    else ret (0, R ++ x :: post));
      '(_, rtab) ← on_tab rtab (wr (Z.of_nat nb) 0);
      '(_, rtab) ← (if negb (b2l (negative a) =? 0)
                    then on_tab rtab (in_place 0 (Z.of_nat nb + 1) js_mp_neg)
                    else ret (0, rtab));
      r ← js_bigint_normalize1 rtab (nb + 1);
      ret (Some r)
    else
      js_free;;
      let q := qs ++ [0] in
      let q := if negb (Z.lxor (b2l (negative a)) (b2l (negative b)) =? 0) then (js_mp_neg q).1 else q in
      q ← js_bigint_normalize q;
      ret (Some q)) na promised.
Proof.
  intros Hqs HR -> Hk Eq Er. apply gives_free. pose proof divisor_nonzero as Hnz.
  unfold promised, divided. destruct is_rem; apply gives_free.
  - apply remainder_gives; [done|done|]. intros r Hr ->. split; [done|].
    by rewrite rem_abs, Er, (negative_sval a (proj1 Ha)) by done.
  - assert (negb (Z.lxor (b2l (negative a)) (b2l (negative b)) =? 0) = xorb (negative a) (negative b)) as ->
      by (by destruct (negative a), (negative b)).
    apply quotient_gives; [done|]. intros r Hr ->. split; [done|].
    by rewrite quot_abs, Eq, (negative_sval a (proj1 Ha)), (negative_sval b (proj1 Hb)) by done.
Qed.
End divide.

(** The two divisions of magnitudes, from the one of the shifted operands. *)
Lemma shifted_division X Y q r k :
  0 ≤ k → 0 < Y → X * 2 ^ k = q * (Y * 2 ^ k) + r → 0 ≤ r < Y * 2 ^ k →
  q = X / Y ∧ r / 2 ^ k = X mod Y.
Proof.
  intros Hk HY E Hr. assert (0 < 2 ^ k) by (by apply Z.pow_pos_nonneg).
  set (r' := X - q * Y). assert (r = r' * 2 ^ k) as Er by (unfold r'; lia).
  assert (0 ≤ r' < Y) as Hr' by nia. split.
  - apply Z.div_unique with r'; [by left|]. unfold r'. lia.
  - rewrite Er, Z.div_mul by lia. apply Z.mod_unique with q; [by left|]. unfold r'. lia.
Qed.

(** The magnitude of an operand, without its high zeros. *)
Lemma stripped_abs S a post :
  wf a →
  ∃ l v zs, abs_limbs (b2l (negative a)) a = l ++ v :: zs ∧
    (∀ s : S, strip_zeros (abs_limbs (b2l (negative a)) a ++ post) (length a) s = (Ok (Datatypes.S (length l)), s)) ∧
    limbs_ok l ∧ fits 32 v ∧ limbs_ok zs ∧ (Datatypes.S (length l) ≤ length a)%nat ∧
    val (l ++ [v]) = Z.abs (sval a) ∧ (l = [] ∨ v ≠ 0).
Proof.
  intros Hwf. destruct (abs_limbs_spec a Hwf) as (Hok & Hl & Ev). pose proof (wf_len a Hwf).
  destruct (strip_zeros_run S _ post (length a) Hok (eq_sym Hl)) as (l & v & E & (zs & Ez) & Es & Hv);
    [unfold len in *; lia|].
  rewrite Ez in Hok. apply Forall_app in Hok as [Hokl [Hfv Hzs]%Forall_cons].
  exists l, v, zs. split_and!; [done|done|done|done|done| |by rewrite Es|done].
  rewrite <-Hl, Ez, length_app. cbn. lia.
Qed.

Lemma fewer_limbs l v l' v' :
  limbs_ok l → fits 32 v → limbs_ok l' → fits 32 v' → v' ≠ 0 → (length l < length l')%nat →
  val (l ++ [v]) < val (l' ++ [v']).
Proof.
  intros Hl Hv Hl' Hv' Hnz Hlt. rewrite !val_snoc. unfold fits in *.
  pose proof (val_range l Hl). pose proof (val_range l' Hl'). pose proof (Bn_pos (length l)).
  assert (B * Bn (length l) ≤ Bn (length l')).
  { rewrite <-Bn_S. unfold Bn. apply Z.pow_le_mono_r; [done|lia]. }
  assert (B = 2 ^ 32) as EB by done. nia.
Qed.

Lemma js_bigint_divrem_computes `{Malloc} a b is_rem :
  normal a → normal b → b ≠ [0] →
  computes (js_bigint_divrem a b is_rem) (len a + 2)
    ((if is_rem then Z.rem else Z.quot) (sval a) (sval b)).
Proof.
  intros Ha Hb Hz. unfold computes. pose proof (wf_len a (proj1 Ha)) as Hla. pose proof (wf_len b (proj1 Hb)).
  destruct (lookup_lt_is_Some_2 b 0 ltac:(unfold len in *; lia)) as [b0 Hb0].
  eapply gives_pure; [intros c; by apply rd_run|].
  assert ((len b =? 1) && (b0 =? 0) = false) as ->.
  { apply andb_false_iff. destruct b as [|x [|]]; [done|right|left; apply Z.eqb_neq; unfold len; cbn; lia].
    injection Hb0 as <-. apply Z.eqb_neq. congruence. }
  eapply gives_pure; [intros c; apply js_bigint_sign_run, Ha|].
  eapply gives_pure; [intros c; apply js_bigint_sign_run, Hb|].
  apply gives_new; [lia|]. intros r Hr Hlr. set (post := drop (length a) r).
  assert (limbs_ok post ∧ length post = 2%nat) as [Hpost Hlp].
  { split; [by apply Forall_drop|]. unfold post, len in *. rewrite length_drop. lia. }
  destruct (stripped_abs JSContext a post (proj1 Ha)) as (la & va & za & Ea & Sa & Hoka & Hva & Hza & Hna & Eva & _).
  eapply gives_pure; [exact Sa|]. change (1 + 1) with 2. apply gives_malloc; [|apply fails_free, fails_ret].
  destruct (stripped_abs JSContext b [] (proj1 Hb)) as (lb & vb & zb & Eb & Sb & Hokb & Hvb & _ & Hnb & Evb & Hnz).
  rewrite app_nil_r in Sb. eapply gives_pure; [exact Sb|].
  pose proof (divisor_nonzero b Hb Hz) as Hnz'.
  assert (vb ≠ 0) as Hvb0.
  { destruct Hnz as [->|]; [|done]. intros ->. cbn in Evb. lia. }
  destruct (Nat.ltb_spec (S (length la)) (S (length lb))) as [Hlt|Hge].
  { apply small_dividend; try done. rewrite <-Eva, <-Evb. apply fewer_limbs; done || lia. }
  rewrite Ea, Eb.
  eapply gives_pure; [intros c; apply rd_app; lia|].
  destruct (clz_limb_run JSContext vb Hvb Hvb0) as (k & Eclz & Hk & Hlo & Hhi).
  eapply gives_pure; [exact Eclz|].
  assert (take (S (length lb)) (lb ++ vb :: zb) = lb ++ [vb]) as -> by (by rewrite cons_middle, app_assoc, take_app_length' by (rewrite length_app; cbn; lia)).
  assert ((la ++ va :: za) ++ post = (la ++ [va]) ++ za ++ post) as -> by (by rewrite <-!app_assoc).
  replace (Z.of_nat (S (length la))) with (Z.of_nat (length (la ++ [va]))) by (rewrite length_app; cbn; lia).
  destruct (divrem_normalise_run (la ++ [va]) (za ++ post) lb vb k)
    as (A & post' & l & b1 & En & HA & Hsz & Hsp & Hpost' & Hl & Hll & Hb1 & EvA & Evl); try done.
  { apply Forall_app. split; [done|by constructor]. }
  { by apply Forall_app. }
  { rewrite length_app. lia. }
  eapply gives_pure; [exact En|]. cbv beta iota.
  rewrite length_app in Hsz, Hsp. cbn [length] in Hsz, Hsp. rewrite length_app, Hlp in Hsp.
  assert (Ha' := f_equal length Ea). rewrite (proj1 (proj2 (abs_limbs_spec a (proj1 Ha)))), length_app in Ha'. cbn [length] in Ha'.
  apply gives_new_or; [unfold len in *; lia| |do 2 apply fails_free; apply fails_ret].
  intros q _ _. change (2 + 1) with 3.
  destruct (js_mp_divnorm_spec A post' l b1 HA Hl Hb1 ltac:(lia)) as (qs & R & post2 & Ed & Hqs & Hlq & HR & HlR & Hlt & Ev & HvR).
  eapply gives_pure; [intros c; by apply on_tab_run|]. cbv beta iota.
  rewrite length_app in HlR, Hlt. cbn [length] in HlR.
  destruct post2 as [|x post2]; [cbn in Hlt; lia|].
  destruct (shifted_division (val (la ++ [va])) (val (lb ++ [vb])) (val qs) (val R) k) as [Eq Er];
    [lia|lia|by rewrite <-EvA, <-Evl|by rewrite <-Evl|].
  apply finish; try done; [lia|by rewrite Eq, Eva, Evb|by rewrite Er, Eva, Evb].
Qed.

Lemma js_bigint_divrem_zero `{Malloc} a is_rem c :
  js_bigint_divrem a [0] is_rem c
  = (Ok None, {| grants := grants c; pending := Some (RangeError "BigInt division by zero"); live := live c |}).
Proof. done. Qed.
