(* ===== verification/BigIntPow.v ===== *)
(** * Big integers: powers

    A product that fails in the loop of [js_bigint_pow] leaves its operand
    allocated, so what a power promises is weaker than [gives] on that path. *)
From S2P Require Import Prelude CStd Words CUtils BigIntMp BigIntMpFacts BigIntDiv BigInt BigIntFacts BigIntOps.
From S2P Require Import BigIntDivRem.

(** As [gives], but one block may remain on failure. *)
Definition leaks {A} (d : Z) (m : M JSContext (option A)) (size : Z) (Q : A → Prop) : Prop := ∀ c,
  ∃ r c', m c = (Ok r, c') ∧
    (∃ used, grants c = used ++ grants c') ∧
    match r with
    | Some a => Q a ∧ live c' = live c + 1 - d
    | None => pending c' ≠ None ∧ live c - d ≤ live c' ≤ live c - d + 1
    end ∧
    (granted c → size ≤ JS_BIGINT_MAX_SIZE → r ≠ None ∧ pending c' = pending c).

Lemma gives_leaks {A} d (m : M JSContext (option A)) size size' (Q : A → Prop) :
  0 ≤ d → size ≤ size' → gives d m size Q → leaks d m size' Q.
Proof.
  intros Hd Hs Hm c. destruct (Hm c) as (r & c' & E & Hu & Hr & Hg). exists r, c'.
  split_and!; [done|done| |intros; apply Hg; [done|lia]]. destruct r; [done|]. destruct Hr. split; [done|lia].
Qed.

(** Nothing is freed when the first operation fails. *)
Lemma leaks_bind {A B} d (m : M JSContext (option A)) (k : A → M JSContext (option B)) size P (Q : B → Prop) :
  0 ≤ d ≤ 1 → gives 0 m size P → (∀ a, P a → leaks (d + 1) (k a) size Q) → leaks d (non_null m k) size Q.
Proof.
  intros Hd Hm Hk c. destruct (Hm c) as (r & c1 & E & (u & Eu) & Hr & Hg). unfold non_null.
  erewrite bind_run by exact E. destruct r as [a|].
  - destruct Hr as [HP Hl]. destruct (Hk a HP c1) as (r & c2 & E2 & (u' & Eu') & Hr & Hg2).
    exists r, c2. split_and!; [done|exists (u ++ u'); by rewrite Eu, Eu', app_assoc| |].
    + destruct r; (split; [apply Hr|destruct Hr; lia]).
    + intros Hgr Hs. destruct (Hg Hgr Hs) as [_ Hp]. destruct Hg2 as [Hne ->]; [by eapply granted_suffix|done|done].
  - destruct Hr as [Hp Hl]. exists None, c1. split_and!; [done|eauto|done|lia|lia|].
    intros Hgr Hs. by destruct (Hg Hgr Hs).
Qed.

Lemma leaks_free {B} d (m : M JSContext (option B)) size Q :
  leaks (d - 1) m size Q → leaks d (js_free;; m) size Q.
Proof.
  intros Hm c. destruct (js_free_run c) as (c1 & E & ((u & Eu) & Hl & Hp) & Hp').
  erewrite bind_run by exact E. destruct (Hm c1) as (r & c2 & E2 & (u' & Eu') & Hr & Hg).
  exists r, c2. split_and!; [done|exists (u ++ u'); by rewrite Eu, Eu', app_assoc| |].
  - destruct r; (split; [apply Hr|destruct Hr; lia]).
  - intros Hgr Hs. destruct Hg as [? ->]; [by eapply granted_suffix|done|done].
Qed.

Lemma leaks_ret {A} (a : A) size (Q : A → Prop) : Q a → leaks 1 (ret (Some a)) size Q.
Proof. intros HQ. by apply (gives_leaks 1 _ size), gives_ret. Qed.

(** ** The loop on the bits of the exponent *)

Lemma Bn_pow n j : Bn (n * j) = Bn n ^ Z.of_nat j.
Proof. unfold Bn. rewrite <-Z.pow_mul_r by lia. f_equal. lia. Qed.

(** The size of a power. *)
Lemma power_len a r j :
  wf a → normal r → 1 ≤ j → sval r = sval a ^ j → len r ≤ j * len a.
Proof.
  intros Ha Hr Hj E. pose proof (wf_len a Ha). pose proof (sval_range a Ha) as Hra.
  assert (length r ≤ length a * Z.to_nat j)%nat; [|unfold len; nia].
  apply minimal_size; [done|unfold len in *; nia|]. rewrite Bn_pow, E, Z2Nat.id by lia.
  destruct (Z.eq_dec j 1) as [->|Hj1]; [by rewrite !Z.pow_1_r|].
  assert (∀ i, 0 ≤ i → - Bn (length a) ^ i ≤ 2 ^ i * sval a ^ i ≤ Bn (length a) ^ i) as Hpow.
  { apply natlike_ind; [done|]. intros i Hi IH. rewrite !Z.pow_succ_r by done. nia. }
  specialize (Hpow j ltac:(lia)).
  assert (2 ^ 2 ≤ 2 ^ j) by (apply Z.pow_le_mono_r; lia).
  assert (0 < Bn (length a) ^ j) by (apply Z.pow_pos_nonneg; [apply Bn_pos|lia]).
  change (2 ^ 2) with 4 in *. split; nia.
Qed.

Lemma land_1 x : Z.land x 1 = x mod 2.
Proof. change 1 with (Z.ones 1) at 1. by rewrite Z.land_ones. Qed.

Lemma shiftr_bit e i :
  0 ≤ i → Z.shiftr e i = 2 * Z.shiftr e (i + 1) + Z.land (Z.shiftr e i) 1.
Proof.
  intros Hi. rewrite <-(Z.shiftr_shiftr e i 1) by lia.
  rewrite land_1, (Z.shiftr_div_pow2 _ 1) by lia. apply Z.div_mod. done.
Qed.

Lemma pow_bit_leaks `{Malloc} a e i r :
  wf a → normal r → 0 ≤ i → 0 < Z.shiftr e (i + 1) → sval r = sval a ^ Z.shiftr e (i + 1) →
  leaks 1 (pow_bit a e i r) (Z.shiftr e i * len a)
    (λ r', normal r' ∧ sval r' = sval a ^ Z.shiftr e i).
Proof.
  intros Ha Hr Hi Hj Ev. pose proof (wf_len a Ha). pose proof (shiftr_bit e i Hi) as Eb.
  set (j := Z.shiftr e (i + 1)) in *.
  assert (Z.land (Z.shiftr e i) 1 = 0 ∨ Z.land (Z.shiftr e i) 1 = 1) as Hbit.
  { rewrite land_1. pose proof (Z.mod_pos_bound (Z.shiftr e i) 2). lia. }
  pose proof (power_len a r j Ha Hr ltac:(lia) Ev) as Hlr. unfold pow_bit.
  eapply (leaks_bind 1 (js_bigint_mul r r)); [lia| |].
  { eapply gives_mono; [apply (js_bigint_mul_computes r r); apply Hr|nia|]. intros x Hx. exact Hx. }
  cbv beta. intros r1 [Hr1 Er1]. assert (sval r1 = sval a ^ (2 * j)) as Ev1.
  { rewrite Er1, Ev, <-Z.pow_add_r by lia. f_equal. lia. }
  pose proof (power_len a r1 (2 * j) Ha Hr1 ltac:(lia) Ev1) as Hlr1.
  change (1 + 1) with 2. unfold non_null at 1. intros c. rewrite bind_bind.
  revert c. apply (leaks_free 2). intros c. rewrite bind_ret. revert c. change (2 - 1) with 1.
  destruct Hbit as [E0|E1]; [rewrite E0 in *|rewrite E1 in *]; cbn [Z.eqb negb].
  - apply leaks_ret. rewrite Eb, Z.add_0_r. done.
  - eapply (leaks_bind 1 (js_bigint_mul r1 a)); [lia| |].
    { eapply gives_mono; [apply (js_bigint_mul_computes r1 a); [apply Hr1|done]|nia|]. intros x Hx. exact Hx. }
    cbv beta. intros r2 [Hr2 Er2]. apply (leaks_free 2), leaks_ret. split; [done|].
    rewrite Er2, Ev1, Eb, Z.pow_add_r by lia. by rewrite Z.pow_1_r.
Qed.

Lemma leaks_mono {A} d (m : M JSContext (option A)) size size' (Q : A → Prop) :
  leaks d m size Q → size ≤ size' → leaks d m size' Q.
Proof.
  intros Hm Hs c. destruct (Hm c) as (r & c' & E & Hu & Hr & Hg). exists r, c'.
  split_and!; [done|done|done|intros; apply Hg; [done|lia]].
Qed.

(** A block handed over from an operation to the next. *)
Lemma leaks_next {A B} (m : M JSContext (option A)) (k : A → M JSContext (option B)) size P (Q : B → Prop) :
  leaks 1 m size P → (∀ a, P a → leaks 1 (k a) size Q) → leaks 1 (non_null m k) size Q.
Proof.
  intros Hm Hk c. destruct (Hm c) as (r & c1 & E & (u & Eu) & Hr & Hg). unfold non_null.
  erewrite bind_run by exact E. destruct r as [a|].
  - destruct Hr as [HP Hl]. destruct (Hk a HP c1) as (r & c2 & E2 & (u' & Eu') & Hr & Hg2).
    exists r, c2. split_and!; [done|exists (u ++ u'); by rewrite Eu, Eu', app_assoc| |].
    + destruct r; (split; [apply Hr|destruct Hr; lia]).
    + intros Hgr Hs. destruct (Hg Hgr Hs) as [_ Hp]. destruct Hg2 as [Hne ->]; [by eapply granted_suffix|done|done].
  - destruct Hr as [Hp Hl]. exists None, c1. split_and!; [done|eauto|done|lia|lia|].
    intros Hgr Hs. by destruct (Hg Hgr Hs).
Qed.

Lemma pow_bits_leaks `{Malloc} a e n r :
  wf a → normal r → 0 < Z.shiftr e (Z.of_nat n) → sval r = sval a ^ Z.shiftr e (Z.of_nat n) →
  leaks 1 (pow_bits a e n r) (e * len a) (λ r', normal r' ∧ sval r' = sval a ^ e).
Proof.
  intros Ha. revert r. induction n as [|n IH]; intros r Hr Hj Ev.
  { apply leaks_ret. by rewrite Z.shiftr_0_r in Ev. }
  cbn [pow_bits]. replace (Z.of_nat (S n)) with (Z.of_nat n + 1) in * by lia. pose proof (wf_len a Ha).
  pose proof (shiftr_bit e (Z.of_nat n) ltac:(lia)) as Eb.
  assert (0 ≤ Z.land (Z.shiftr e (Z.of_nat n)) 1) by (apply Z.land_nonneg; by right).
  eapply leaks_next.
  - eapply leaks_mono; [by apply pow_bit_leaks; [|done|lia|..]|].
    apply Z.mul_le_mono_nonneg_r; [lia|]. rewrite Z.shiftr_div_pow2 by lia.
    assert (0 ≤ e). { apply (Z.shiftr_nonneg e (Z.of_nat n + 1)). lia. }
    pose proof (Z.pow_pos_nonneg 2 (Z.of_nat n) ltac:(lia) ltac:(lia)). apply Z.div_le_upper_bound; nia.
  - intros r' [Hr' Er']. apply IH; [done|lia|done].
Qed.

(** ** Powers of powers of two *)

Lemma leaks_overflow {A} size (Q : A → Prop) :
  JS_BIGINT_MAX_SIZE < size →
  leaks 0 (JS_Throw (RangeError "BigInt is too large");; ret None) size Q.
Proof.
  intros Hs c. eexists None, _. split; [reflexivity|]. cbn. split_and!; [by exists []|done|lia|lia|lia..].
Qed.

(** A long exponent is at least [2^31]; a short one is its limb. *)
Lemma exponent_cases b :
  normal b → 0 < sval b → ∃ b0, b !! 0%nat = Some b0 ∧ Z.land b0 1 = sval b mod 2 ∧
    ((len b >? 1) || (b0 >? INT32_MAX) = true ∧ 2 ^ 31 ≤ sval b ∨
     (len b >? 1) || (b0 >? INT32_MAX) = false ∧ b0 = sval b ∧ sval b < 2 ^ 31).
Proof.
  intros Hb Hpos. pose proof (wf_len b (proj1 Hb)). pose proof (negative_sval b (proj1 Hb)) as Hn.
  destruct b as [|b0 l]; [by destruct Hb as [[_ []] _]|]. exists b0. split; [done|]. rewrite !Z.gtb_ltb.
  assert (negative (b0 :: l) = false) as Hn' by (rewrite Hn; apply Z.ltb_ge; lia).
  assert (sval (b0 :: l) = b0 + B * val l) as Es by (unfold sval; rewrite Hn'; cbn [val]; lia).
  split.
  { rewrite land_1, Es. change B with (2 * 2 ^ 31). rewrite <-Z.mul_assoc, Z.mul_comm, Z.add_comm.
    by rewrite Z.mul_comm, Z.add_comm, (Z.mul_comm 2), Z.mod_add. }
  destruct l as [|x l].
  - right. assert (top [b0] = b0) as Et by done. unfold negative in Hn'. rewrite Et in Hn'.
    apply Z.leb_gt in Hn'. assert (b0 = sval [b0]) as <- by (rewrite Es; cbn [val]; lia).
    split; [|done]. unfold len, INT32_MAX. cbn [length]. apply orb_false_iff. rewrite !Z.ltb_ge. lia.
  - left. assert ((1 <? len (b0 :: x :: l)) = true) as ->.
    { apply Z.ltb_lt. unfold len. cbn. lia. }
    split; [done|]. destruct (decide (2 * sval (b0 :: x :: l) < Bn 1)) as [Hlt|Hge].
    + pose proof (minimal_size _ 1 Hb ltac:(lia)) as Hm. cbn [length] in Hm. unfold Bn in *. change (B ^ _) with (2 ^ 32) in *. lia.
    + unfold Bn in Hge. change (B ^ _) with (2 ^ 32) in Hge. lia.
Qed.

(** The one limb of a power of two that is not 0. *)
Lemma single_limb d h n :
  fits 32 h → (d < n)%nat →
  <[d:=h]> (replicate n 0) = replicate d 0 ++ h :: replicate (n - S d) 0.
Proof.
  intros Hh Hd. replace n with (d + S (n - S d))%nat at 1 by lia.
  rewrite replicate_add. cbn [replicate]. rewrite insert_app_r_alt by (rewrite length_replicate; lia).
  by rewrite length_replicate, Nat.sub_diag.
Qed.

Lemma pow2_number e (s : bool) :
  0 ≤ e →
  let n := Z.to_nat ((e + 33 - b2l s) / 32) in
  let d := Z.to_nat (e / 32) in
  let h := u32 (Z.shiftl (u32 (1 - 2 * b2l s)) (e mod 32)) in
  (d < n)%nat ∧ fits 32 h ∧ normal (replicate d 0 ++ h :: replicate (n - S d) 0) ∧
  sval (replicate d 0 ++ h :: replicate (n - S d) 0) = if s then - 2 ^ e else 2 ^ e.
Proof.
  intros He n d h. set (k := e mod 32) in *. assert (0 ≤ k < 32) as Hk by (by apply Z.mod_pos_bound).
  pose proof (Z.div_mod e 32 ltac:(lia)) as Ee. fold k in Ee. pose proof (Z.div_pos e 32 He ltac:(lia)) as Hd.
  pose proof (pow2_range k ltac:(lia)) as Hp. pose proof (pow2_split k ltac:(lia)) as HB.
  assert (2 ^ e = Bn d * 2 ^ k) as Epow by (by apply pow2_limbs).
  assert (h = if s then B - 2 ^ k else 2 ^ k) as Eh.
  { unfold h. rewrite Z.shiftl_mul_pow2 by lia. destruct s; cbn [b2l].
    - change (u32 (1 - 2 * 1)) with (B - 1). apply (u32_spec _ (2 ^ k - 1)); lia.
    - change (u32 (1 - 2 * 0)) with 1. rewrite Z.mul_1_l. apply wrap_id. unfold fits. split; [lia|].
      apply Z.pow_lt_mono_r; lia. }
  assert (2 ^ k < B ∧ (k < 31 → 2 ^ k < 2 ^ 31) ∧ (k = 31 → 2 ^ k = 2 ^ 31)) as (HkB & Hk30 & Hk31).
  { split_and!; [apply Z.pow_lt_mono_r; lia|intros; apply Z.pow_lt_mono_r; lia|by intros ->]. }
  assert (fits 32 h) as Hfit by (apply u32_fits).
  assert (n = (S d + if negb s && (k =? 31)%Z then 1 else 0)%nat) as En.
  { unfold n, d. assert ((e + 33 - b2l s) / 32 = e / 32 + 1 + if negb s && (k =? 31) then 1 else 0) as ->.
    { symmetry. destruct s; cbn [b2l negb andb]; [apply Z.div_unique with k; lia|].
      destruct (Z.eqb_spec k 31); [apply Z.div_unique with 0|apply Z.div_unique with (k + 1)]; lia. }
    destruct (negb s && (k =? 31)); lia. }
  assert ((d < n)%nat) by lia. replace (n - S d)%nat with (if negb s && (k =? 31) then 1%nat else 0%nat) by lia.
  assert (limbs_ok (replicate d 0 ++ [h])) as Hok by (apply Forall_app; split; [by apply Forall_replicate|by constructor]).
  split_and!; [done|done|..]; destruct (negb s && (k =? 31)) eqn:Ec; cbn [replicate].
  - apply andb_true_iff in Ec as [Es%negb_true_iff E31%Z.eqb_eq]. subst s.
    split; [split; [rewrite cons_middle, app_assoc; apply Forall_app; split; [done|by constructor]|by destruct d]|].
    right. exists (replicate d 0), h, 0. split; [done|]. rewrite Eh, Hk31 by done. done.
  - apply low_zeros_normal; [by apply normal_limb|]. intros [= E0]. rewrite E0 in Eh. destruct s; lia.
  - apply andb_true_iff in Ec as [Es%negb_true_iff E31%Z.eqb_eq]. subst s.
    rewrite cons_middle, app_assoc, sval_snoc, val_snoc, val_replicate_0, length_replicate.
    assert ((2 ^ 31 <=? 0) = false) as -> by done. rewrite Epow, Eh. lia.
  - rewrite sval_snoc, val_replicate_0, length_replicate, Epow, Eh. destruct s; cbn [negb andb] in Ec.
    + destruct (Z.leb_spec (2 ^ 31) (B - 2 ^ k)) as [|Hlt]; [lia|exfalso]. unfold B in *.
      destruct (Z.eq_dec k 31); [|specialize (Hk30 ltac:(lia))]; lia.
    + apply Z.eqb_neq in Ec. specialize (Hk30 ltac:(lia)). destruct (Z.leb_spec (2 ^ 31) (2 ^ k)); lia.
Qed.

Lemma pow_of_pow2_leaks `{Malloc} n (s : bool) b size :
  normal b → 0 < sval b → 1 ≤ n ≤ 31 → sval b + 1 ≤ size →
  leaks 0 (pow_of_pow2 (2 ^ n) s b) size
    (λ r, normal r ∧ sval r = (if s then - 2 ^ n else 2 ^ n) ^ sval b).
Proof.
  intros Hb Hpos Hn Hsz. destruct (exponent_cases b Hb Hpos) as (e & He & Hpar & Hc). unfold pow_of_pow2.
  assert (js_limb_clz (S := JSContext) (2 ^ n) = ret (31 - n)) as ->.
  { unfold js_limb_clz, clz32. pose proof (Z.pow_pos_nonneg 2 n ltac:(lia) ltac:(lia)).
    destruct (Z.eqb_spec (2 ^ n) 0); [lia|]. by rewrite Z.log2_pow2 by lia. }
  intros c. rewrite bind_ret. erewrite bind_run by (by apply rd_run). revert c. unfold JS_LIMB_BITS.
  replace (32 - 1 - (31 - n)) with n by lia.
  destruct Hc as [[-> Hbig]|(-> & -> & Hsm)].
  { apply leaks_overflow. change JS_BIGINT_MAX_SIZE with 32768. lia. }
  assert (u64 (sval b * n) = sval b * n) as ->.
  { apply wrap_id. unfold fits. nia. }
  rewrite Z.gtb_ltb. destruct (Z.ltb_spec (JS_BIGINT_MAX_SIZE * 32) (sval b * n)).
  { apply leaks_overflow. nia. }
  rewrite Hpar. set (neg := s && (sval b mod 2 =? 1)).
  assert ((if s then sval b mod 2 else 0) = b2l neg) as ->.
  { unfold neg. destruct s; [|done]. pose proof (Z.mod_pos_bound (sval b) 2).
    cbn [andb]. by assert (sval b mod 2 = 0 ∨ sval b mod 2 = 1) as [-> | ->] by lia. }
  replace (sval b * n + 32 + 1 - b2l neg) with (sval b * n + 33 - b2l neg) by lia.
  destruct (pow2_number (sval b * n) neg ltac:(nia)) as (Hd & Hh & Hnorm & Ev).
  assert (0 ≤ b2l neg ≤ 1) by (by destruct neg).
  apply gives_leaks with size; [lia|lia|]. apply gives_new.
  { split; [apply Z.div_pos; nia|]. apply Z.div_le_upper_bound; nia. }
  intros r Hr Hlr. eapply gives_pure.
  { intros c. apply on_tab_run, wr_run. rewrite length_replicate. unfold len in Hlr. split; [apply Z.div_pos; nia|].
    apply Z2Nat.inj_lt; [apply Z.div_pos; nia|lia|]. rewrite Nat2Z.id.
    replace (length r) with (Z.to_nat ((sval b * n + 33 - b2l neg) / 32)) by lia. exact Hd. }
  cbv beta iota. replace (length r) with (Z.to_nat ((sval b * n + 33 - b2l neg) / 32)) by (unfold len in Hlr; lia).
  rewrite single_limb by done. apply gives_ret. split; [done|]. rewrite Ev.
  rewrite Z.mul_comm, Z.pow_mul_r by lia. unfold neg. destruct s; cbn [andb]; [|done].
  pose proof (Zmod_eq (sval b) 2 ltac:(lia)) as Em. destruct (Z.eqb_spec (sval b mod 2) 1) as [E1|E1].
  - rewrite Z.pow_opp_odd; [done|]. exists (sval b / 2). lia.
  - rewrite Z.pow_opp_even; [done|]. exists (sval b / 2). pose proof (Z.mod_pos_bound (sval b) 2). lia.
Qed.

(** ** The operation *)

(** The loop, for any base. *)
Lemma pow_general_leaks `{Malloc} a b size :
  normal a → normal b → 0 < sval b → sval b * len a < size →
  leaks 0 (e ← rd b 0;
    if (len b >? 1) || (e >? INT32_MAX) then JS_Throw (RangeError "BigInt is too large");; ret None
    else
      clz ← clz32 e;
      let n_bits := 32 - clz in
      r ⇐ js_bigint_new (len a);
      pow_bits a e (Z.to_nat (n_bits - 1)) a) size
    (λ r, normal r ∧ sval r = sval a ^ sval b).
Proof.
  intros Ha Hb Hpos Hsz. destruct (exponent_cases b Hb Hpos) as (e & He & _ & Hc).
  pose proof (wf_len a (proj1 Ha)).
  intros c. erewrite bind_run by (by apply rd_run). revert c.
  destruct Hc as [[-> Hbig]|(-> & -> & Hsm)].
  { apply leaks_overflow. change JS_BIGINT_MAX_SIZE with 32768. nia. }
  unfold clz32. destruct (Z.eqb_spec (sval b) 0); [lia|]. intros c. rewrite bind_ret. revert c. cbv zeta.
  replace (Z.to_nat (32 - (31 - Z.log2 (sval b)) - 1)) with (Z.to_nat (Z.log2 (sval b))) by lia.
  pose proof (Z.log2_nonneg (sval b)).
  assert (Z.shiftr (sval b) (Z.of_nat (Z.to_nat (Z.log2 (sval b)))) = 1) as E1.
  { rewrite Z2Nat.id, Z.shiftr_div_pow2 by done. pose proof (Z.log2_spec (sval b) Hpos).
    rewrite Z.pow_succ_r in * by done. symmetry. apply Z.div_unique with (sval b - 2 ^ Z.log2 (sval b)); lia. }
  assert (gives 0 (js_bigint_new (len a)) (len a) (λ _ : bigint, True)) as Hnew.
  { intros c. destruct (gives_new (len a) (λ r, ret (Some r)) (len a) (λ _, True) ltac:(lia)) with (c := c) as (r & c' & E & Hr).
    { intros r _ _. by apply gives_ret. }
    exists r, c'. split; [|done]. rewrite <-E. unfold non_null, bind, ret.
    by destruct (js_bigint_new (len a) c) as [[[|]|] ?]. }
  eapply (leaks_bind 0); [lia| |].
  { eapply gives_mono; [exact Hnew|nia|done]. }
  intros _ _. eapply leaks_mono; [apply pow_bits_leaks; [apply Ha|done|lia|]|lia].
  by rewrite E1, Z.pow_1_r.
Qed.

Lemma sval_1 v : fits 32 v → sval [v] = if 2 ^ 31 <=? v then v - B else v.
Proof.
  intros. change [v] with ([] ++ [v]). rewrite sval_snoc. cbn [val length]. rewrite Bn_0. destruct (_ <=? _); lia.
Qed.

Lemma pow_small x y : (x = 0 ∨ x = 1) → 0 < y → x ^ y = x.
Proof. intros [-> | ->] Hy; [by rewrite Z.pow_0_l|by rewrite Z.pow_1_l by lia]. Qed.

Lemma pow_m1 y : 0 < y → (-1) ^ y = 1 - 2 * (y mod 2).
Proof.
  intros Hy. pose proof (Z.div_mod y 2 ltac:(lia)) as E. pose proof (Z.mod_pos_bound y 2 ltac:(lia)).
  assert (y mod 2 = 0 ∨ y mod 2 = 1) as [Em|Em] by lia; rewrite Em in *.
  - replace y with (2 * (y / 2)) at 1 by lia. rewrite Z.pow_mul_r by lia. change ((-1) ^ 2) with 1. by rewrite Z.pow_1_l by lia.
  - replace y with (2 * (y / 2) + 1) at 1 by lia. rewrite Z.pow_add_r, Z.pow_mul_r by lia.
    change ((-1) ^ 2) with 1. by rewrite Z.pow_1_l by lia.
Qed.

Lemma new_si_leaks `{Malloc} x y size :
  - 2 ^ 31 ≤ x < 2 ^ 31 → x = y → 1 ≤ size →
  leaks 0 (js_bigint_new_si x) size (λ r, normal r ∧ sval r = y).
Proof. intros Hx <- Hs. eapply gives_leaks; [done| |by apply js_bigint_new_si_computes]. done. Qed.

(** A base of one limb. *)
Lemma pow_limb_leaks `{Malloc} v b b0 size general :
  fits 32 v → normal b → 0 < sval b → b !! 0%nat = Some b0 → sval b + 1 ≤ size →
  leaks 0 general size (λ r, normal r ∧ sval r = sval [v] ^ sval b) →
  leaks 0 (
    if v <=? 1 then js_bigint_new_si v
    else if v =? u32 (-1) then js_bigint_new_si (1 - 2 * Z.land b0 1)
    else
      let is_neg := to_int v <? 0 in
      let v := if is_neg then u32 (- v) else v in
      if Z.land v (v - 1) =? 0 then pow_of_pow2 v is_neg b else general) size
    (λ r, normal r ∧ sval r = sval [v] ^ sval b).
Proof.
  intros Hv Hb Hpos Hb0 Hsz Hgen. rewrite (sval_1 v Hv) in *. unfold fits in Hv.
  destruct (exponent_cases b Hb Hpos) as (e & He & Hpar & _). assert (e = b0) as -> by congruence.
  destruct (Z.leb_spec v 1).
  { apply new_si_leaks; [lia| |lia]. destruct (Z.leb_spec (2 ^ 31) v); [lia|]. symmetry. apply pow_small; lia. }
  change (u32 (-1)) with (B - 1). assert (B = 2 * 2 ^ 31) as EB by done. destruct (Z.eqb_spec v (B - 1)) as [->|Hne].
  { rewrite Hpar. pose proof (Z.mod_pos_bound (sval b) 2 ltac:(lia)). apply new_si_leaks; [lia| |lia].
    assert ((2 ^ 31 <=? B - 1) = true) as -> by done. replace (B - 1 - B) with (-1) by lia. by rewrite pow_m1. }
  assert ((to_int v <? 0) = (2 ^ 31 <=? v)) as ->.
  { unfold to_int, to_signed. change (2 ^ (32 - 1)) with (2 ^ 31). destruct (Z.leb_spec (2 ^ 31) v).
    - apply Z.ltb_lt. rewrite (Z.mod_eq _ (2 ^ 32)) by done.
      assert ((v + 2 ^ 31) / 2 ^ 32 = 1) as -> by (symmetry; apply Z.div_unique with (v - 2 ^ 31); lia). lia.
    - apply Z.ltb_ge. rewrite Z.mod_small by lia. lia. }
  cbv zeta. set (w := if 2 ^ 31 <=? v then u32 (- v) else v).
  assert (2 ≤ w ≤ 2 ^ 31 ∧ (if 2 ^ 31 <=? v then v - B else v) = if 2 ^ 31 <=? v then - w else w) as [Hw Ew].
  { unfold w. destruct (Z.leb_spec (2 ^ 31) v); [|lia].
    assert (u32 (- v) = B - v) as -> by (apply (u32_spec _ (-1)); lia). lia. }
  destruct (Z.eqb_spec (Z.land w (w - 1)) 0) as [E|]; [|done]. rewrite Ew.
  destruct (pow2_test w) as (n & Hn & ->); [lia|lia|done|]. by apply pow_of_pow2_leaks.
Qed.

Lemma js_bigint_pow_leaks `{Malloc} a b :
  normal a → normal b → 0 ≤ sval b →
  leaks 0 (js_bigint_pow a b) (sval b * len a + 1)
    (λ r, normal r ∧ sval r = sval a ^ sval b).
Proof.
  intros Ha Hb Hpos. pose proof (wf_len a (proj1 Ha)). unfold js_bigint_pow.
  intros c. erewrite bind_run by apply js_bigint_sign_run, Hb. revert c.
  rewrite (negative_sval b (proj1 Hb)). destruct (Z.ltb_spec (sval b) 0); [lia|]. cbn [b2l Z.eqb negb].
  pose proof (wf_len b (proj1 Hb)). destruct (lookup_lt_is_Some_2 b 0 ltac:(unfold len in *; lia)) as [b0 Hb0].
  intros c. erewrite bind_run by (by apply rd_run). revert c.
  destruct ((len b =? 1) && (b0 =? 0)) eqn:Ez.
  { apply andb_true_iff in Ez as [E1%Z.eqb_eq ->%Z.eqb_eq].
    assert (b = [0]) as -> by (destruct b as [|? [|]]; unfold len in E1; cbn in *; congruence || lia).
    assert (sval [0] = 0) as -> by done. apply new_si_leaks; [lia|done|lia]. }
  assert (0 < sval b) as Hp.
  { destruct (Z.eq_dec (sval b) 0) as [E|]; [|lia]. apply (sval_zero b Hb) in E as ->. by injection Hb0 as <-. }
  pose proof (pow_general_leaks a b (sval b * len a + 1) Ha Hb Hp ltac:(lia)) as Hgen.
  destruct (Z.eqb_spec (len a) 1) as [E1|]; [|exact Hgen].
  destruct a as [|v [|]]; unfold len in E1; cbn in E1; [lia| |lia].
  intros c. erewrite bind_run by (by apply rd_run). revert c.
  apply pow_limb_leaks; try done; [by destruct Ha as [[[? _]%Forall_cons _] _]|unfold len; cbn; lia].
Qed.

Lemma js_bigint_pow_negative `{Malloc} a b c :
  normal b → sval b < 0 →
  js_bigint_pow a b c
  = (Ok None, {| grants := grants c; pending := Some (RangeError "BigInt negative exponent"); live := live c |}).
Proof.
  intros Hb Hn. unfold js_bigint_pow. erewrite bind_run by apply js_bigint_sign_run, Hb.
  rewrite (negative_sval b (proj1 Hb)). by destruct (Z.ltb_spec (sval b) 0); [|lia].
Qed.
