(* ===== verification/BigIntProps.v ===== *)
(** * Big integers: what the operations promise

    The properties of the [js_bigint_*] operations, in terms of the integers
    the operands stand for. *)
From S2P Require Import Prelude CStd Words CUtils BigIntMp BigIntMpFacts BigIntDiv BigInt BigIntFacts BigIntOps.
From S2P Require Import BigIntDivRem BigIntPow.

#[local] Instance zeros : Malloc := {| fresh_limb := λ _, 0 |}.

(** Minus [2^32], and 3: the operands of the witnesses. *)
Definition m32 : bigint := [0; u32 (-1)].
Definition three : bigint := [3].

Lemma m32_normal : normal m32.
Proof.
  split; [split; [by repeat constructor|done]|]. right. by exists [], 0, (u32 (-1)).
Defined.
Lemma three_normal : normal three.
Proof. by apply normal_limb. Defined.

(** C17: on big integers of any lengths, [js_bigint_add] computes the sum or the
    difference, [js_bigint_neg] the opposite and [js_bigint_mul] the product:
    whatever fresh memory holds and whichever allocations fail, they end
    without undefined behaviour, in the normal form of the exact result and one
    more block, or in [NULL] with an exception pending and no block more, and
    they succeed when every allocation does and the limbs the result may need
    are within [JS_BIGINT_MAX_SIZE]. *)
Theorem ring_operations_exact `{Malloc} a b :
  wf a → wf b →
  computes (js_bigint_add a b 0) (Z.max (len a) (len b)) (sval a + sval b) ∧
  computes (js_bigint_add a b 1) (Z.max (len a) (len b)) (sval a - sval b) ∧
  computes (js_bigint_neg a) (len a) (- sval a) ∧
  computes (js_bigint_mul a b) (len a + len b) (sval a * sval b).
Proof.
  intros Ha Hb. split_and!.
  - by apply js_bigint_add_computes.
  - by apply (js_bigint_add_computes a b 1).
  - by apply js_bigint_neg_computes.
  - by apply js_bigint_mul_computes.
Qed.

Lemma ring_operations_exact_witness :
  wf m32 ∧ wf three ∧ computes (js_bigint_mul m32 three) 3 (- 2 ^ 32 * 3).
Proof.
  split; [apply m32_normal|]. split; [apply three_normal|].
  apply (ring_operations_exact m32 three (proj1 m32_normal) (proj1 three_normal)).
Defined.

(** C18: [js_bigint_divrem] computes the quotient and the remainder of the
    division that truncates towards 0, for every dividend and every divisor
    but 0, under the same promise; a divisor 0 gives [NULL] and the exception
    of a division by zero, and allocates nothing. *)
Theorem division_truncates `{Malloc} a b :
  normal a → normal b →
  (sval b ≠ 0 →
    computes (js_bigint_divrem a b false) (len a + 2) (Z.quot (sval a) (sval b)) ∧
    computes (js_bigint_divrem a b true) (len a + 2) (Z.rem (sval a) (sval b))) ∧
  (sval b = 0 → ∀ is_rem c, js_bigint_divrem a b is_rem c
    = (Ok None, {| grants := grants c; pending := Some (RangeError "BigInt division by zero"); live := live c |})).
Proof.
  intros Ha Hb. split.
  - intros Hz. assert (b ≠ [0]) as Hne by (by intros ->).
    split; [by apply (js_bigint_divrem_computes a b false)|by apply (js_bigint_divrem_computes a b true)].
  - intros Hz is_rem c. rewrite (sval_zero b Hb Hz). apply js_bigint_divrem_zero.
Qed.

Lemma division_truncates_witness :
  normal m32 ∧ normal three ∧ computes (js_bigint_divrem m32 three true) 4 (-1).
Proof.
  split; [apply m32_normal|]. split; [apply three_normal|].
  refine (proj2 (proj1 (division_truncates m32 three m32_normal three_normal) _)). vm_compute. discriminate.
Defined.

(** C19: [js_bigint_logic] and [js_bigint_not] are the bitwise operations on the
    infinite two's complement representations, and [js_bigint_shl] and
    [js_bigint_shr] the shifts, that round down, for every shift count, under
    the same promise. *)
Theorem bitwise_operations_exact `{Malloc} a b k :
  normal a → normal b → 0 ≤ k →
  computes (js_bigint_logic a b OP_and) (Z.max (len a) (len b)) (Z.land (sval a) (sval b)) ∧
  computes (js_bigint_logic a b OP_or) (Z.max (len a) (len b)) (Z.lor (sval a) (sval b)) ∧
  computes (js_bigint_logic a b OP_xor) (Z.max (len a) (len b)) (Z.lxor (sval a) (sval b)) ∧
  computes (js_bigint_not a) (len a) (Z.lnot (sval a)) ∧
  computes (js_bigint_shl a k) (len a + k / 32) (Z.shiftl (sval a) k) ∧
  computes (js_bigint_shr a k) (len a) (Z.shiftr (sval a) k).
Proof.
  intros Ha Hb Hk. split_and!.
  - by apply (js_bigint_logic_computes a b OP_and); [apply Ha|apply Hb|].
  - by apply (js_bigint_logic_computes a b OP_or); [apply Ha|apply Hb|].
  - by apply (js_bigint_logic_computes a b OP_xor); [apply Ha|apply Hb|].
  - by apply js_bigint_not_computes.
  - rewrite Z.shiftl_mul_pow2 by done. by apply js_bigint_shl_computes.
  - by apply js_bigint_shr_computes.
Qed.

Lemma bitwise_operations_exact_witness :
  normal m32 ∧ normal three ∧ 0 ≤ 31 ∧ computes (js_bigint_shr m32 31) 2 (-2).
Proof.
  split; [apply m32_normal|]. split; [apply three_normal|]. split; [lia|].
  apply (bitwise_operations_exact m32 three 31 m32_normal three_normal). lia.
Defined.

(** C20: [js_bigint_pow] computes the power of every base to every exponent of
    at least 0, through the powers of 0, 1, -1 and of the powers of two as
    through the loop; it ends without undefined behaviour, it succeeds when
    every allocation does and [sval b] times the limbs of the base, and one
    more, are within the limit, and on failure at most one block stays
    allocated. A negative exponent gives [NULL] and its exception. *)
Theorem powers_exact `{Malloc} a b :
  normal a → normal b →
  (0 ≤ sval b → leaks 0 (js_bigint_pow a b) (sval b * len a + 1)
    (λ r, normal r ∧ sval r = sval a ^ sval b)) ∧
  (sval b < 0 → ∀ c, js_bigint_pow a b c
    = (Ok None, {| grants := grants c; pending := Some (RangeError "BigInt negative exponent"); live := live c |})).
Proof.
  intros Ha Hb. split; [by apply js_bigint_pow_leaks|]. intros Hn c. by apply js_bigint_pow_negative.
Qed.

Lemma powers_exact_witness :
  normal m32 ∧ normal three ∧
  leaks 0 (js_bigint_pow m32 three) 7 (λ r, normal r ∧ sval r = - 2 ^ 96).
Proof.
  split; [apply m32_normal|]. split; [apply three_normal|].
  refine (proj1 (powers_exact m32 three m32_normal three_normal) _). vm_compute. discriminate.
Defined.

(** The representation is canonical: two normal big integers of the same
    value are the same limbs, [js_bigint_cmp] of two normal big integers is the
    sign of the difference of their values, and so is 0 exactly when they are
    equal, and it neither fails nor changes the state. *)
Theorem comparison_exact {S} a b (s : S) :
  normal a → normal b →
  js_bigint_cmp a b s = (Ok (Z.sgn (sval a - sval b)), s) ∧
  (js_bigint_cmp a b s = (Ok 0, s) ↔ a = b).
Proof.
  intros Ha Hb. pose proof (js_bigint_cmp_run a b s Ha Hb) as E. split; [done|]. rewrite E. split.
  - intros [= Es%Z.sgn_null_iff]. apply normal_unique; [done|done|lia].
  - intros ->. by rewrite Z.sub_diag.
Qed.

Lemma comparison_exact_witness : normal m32 ∧ normal three ∧ js_bigint_cmp m32 three tt = (Ok (-1), tt).
Proof.
  split; [apply m32_normal|]. split; [apply three_normal|].
  exact (proj1 (comparison_exact m32 three tt m32_normal three_normal)).
Defined.

(** C21: [js_bigint_new_si], [js_bigint_new_si64], [js_bigint_new_ui64] and
    [js_bigint_new_di] make the normal form of every machine integer of their
    type, and [js_bigint_normalize] brings any limbs to the normal form of the
    same value, which leaves a normal form unchanged. *)
Theorem creation_normal `{Malloc} x y z w a :
  - 2 ^ 31 ≤ x < 2 ^ 31 → - 2 ^ 63 ≤ y < 2 ^ 63 → 0 ≤ z < 2 ^ 64 → - 2 ^ 63 ≤ w < 2 ^ 63 → wf a →
  computes (js_bigint_new_si x) 1 x ∧
  computes (js_bigint_new_si64 y) 2 y ∧
  computes (js_bigint_new_ui64 z) 3 z ∧
  computes (js_bigint_new_di w) 2 w ∧
  ∀ c, ∃ r c', js_bigint_normalize a c = (Ok r, c') ∧ normal r ∧ sval r = sval a ∧ live c' = live c ∧
    (normal a → r = a).
Proof.
  intros Hx Hy Hz Hw Ha. split_and!.
  - by apply js_bigint_new_si_computes.
  - by apply js_bigint_new_si64_computes.
  - by apply js_bigint_new_ui64_computes.
  - by apply js_bigint_new_di_computes.
  - intros c. destruct (normalize1_run a (length a) c) as (r & c' & E & [Hr Ev] & (_ & Hl & _)).
    { rewrite take_ge by lia. apply Ha. }
    { destruct Ha as [_ Hne]. destruct a; [done|cbn; lia]. }
    rewrite take_ge in Ev by lia. exists r, c'. split_and!; [done|done|done|lia|].
    intros Hn. by apply normal_unique.
Qed.

Lemma creation_normal_witness :
  - 2 ^ 31 ≤ 5 < 2 ^ 31 ∧ - 2 ^ 63 ≤ - 2 ^ 40 < 2 ^ 63 ∧ 0 ≤ 2 ^ 63 < 2 ^ 64 ∧ wf m32 ∧
  computes (js_bigint_new_ui64 (2 ^ 63)) 3 (2 ^ 63).
Proof.
  split; [lia|]. split; [lia|]. split; [lia|]. split; [apply m32_normal|].
  apply (creation_normal 5 (- 2 ^ 40) (2 ^ 63) 0 m32); [lia|lia|lia|lia|apply m32_normal].
Defined.
