(* ===== verification/Digits.v ===== *)
(** * Integers in a radix

    The integer printing functions of [src/vendors/qjs/quickjs/dtoa.c], the
    table of the logarithms there, and the digit routines of the big integers
    in [quickjs.c]. The buffer printed into is the state, an index its
    pointer; a [char buf1[n]] filled backwards is the list of what is in it,
    and a store before its start an error. *)
From S2P Require Import Prelude CStd Words CUtils BigIntMp.

Definition JS_RADIX_MAX : Z := 36.

(** ** Digits *)

(** [if (digit < 10) digit += '0'; else digit += 'a' - 10;] *)
Definition digit_char (digit : Z) : Z :=
  if digit <? 10 then digit + $"0" else digit + ($"a" - 10).

(** The array [digits] of [quickjs.c], and its use: out of range is an error. *)
Definition digits : list Z := chars "0123456789abcdefghijklmnopqrstuvwxyz".

Definition js_to_digit (c : Z) : Z :=
  if (c >=? $"0") && (c <=? $"9") then c - $"0"
  else if (c >=? $"A") && (c <=? $"Z") then c - $"A" + 10
  else if (c >=? $"a") && (c <=? $"z") then c - $"a" + 10
  else 36.

(** ** Writing *)

(** [memcpy(buf, q, len)] *)
Definition memcpy (buf : Z) (q : list Z) : M (list Z) unit := set_limbs buf q.

(** [*--q = c], in an array of [size] characters. *)
Definition push {S} (size : nat) (c : Z) (q : list Z) : M S (list Z) :=
  if (length q <? size)%nat then ret (c :: q) else throw (Undefined WriteOutOfBounds).

(** [do { *--q = the digit of n % radix; n /= radix; } while (n != 0);] *)
Definition push_digits {S} (size : nat) (radix : Z) (n : Z) (q : list Z) : M S (list Z) :=
  loop 65 (λ '(n, q),
    d ← (if radix =? 0 then throw (Undefined BadOperand) else ret (n mod radix));
    q ← push size (digit_char d) q;
    let n := n / radix in
    ret (if negb (n =? 0) then inl (n, q) else inr q)) (n, q).

Fixpoint u32toa_len (buf n : Z) (len : nat) : M (list Z) unit :=
  match len with
  | O => ret tt
  | S i => wr (buf + Z.of_nat i) (n mod 10 + $"0");; u32toa_len buf (n / 10) i
  end.

Fixpoint bin_len (buf n radix_bits mask : Z) (len : nat) : M (list Z) unit :=
  match len with
  | O => ret tt
  | S i =>
      wr (buf + Z.of_nat i) (digit_char (Z.land n mask));;
      bin_len buf (Z.shiftr n radix_bits) radix_bits mask i
  end.
Definition u64toa_bin_len (buf n radix_bits : Z) (len : nat) : M (list Z) unit :=
  let mask := u32 (Z.shiftl 1 radix_bits - 1) in
  bin_len buf n radix_bits mask len.

(** The loop of [limb_to_a] for the radices other than 10. *)
Fixpoint radix_len (buf n radix : Z) (len : nat) : M (list Z) unit :=
  match len with
  | O => ret tt
  | S i => wr (buf + Z.of_nat i) (digit_char (n mod radix));; radix_len buf (n / radix) radix i
  end.
Definition limb_to_a (buf n radix : Z) (len : nat) : M (list Z) unit :=
  if radix =? 10 then u32toa_len buf n len
  else if radix =? 0 then throw (Undefined BadOperand)
  else radix_len buf n radix len.

Definition u32toa (buf n : Z) : M (list Z) Z :=
  q ← push_digits 10 10 n [];
  memcpy buf q;;
  ret (Z.of_nat (length q)).

Definition i32toa (buf n : Z) : M (list Z) Z :=
  if n >=? 0 then u32toa buf n
  else
    wr buf ($"-");;
    l ← u32toa (buf + 1) (u32 (- u32 n));
    ret (l + 1).

(** The number of characters is the distance from [buf] to [q]. *)
Definition u64toa (buf n : Z) : M (list Z) Z :=
  if n <? 0x100000000 then u32toa buf n
  else
    let n1 := n / 1000000000 in
    let n := n mod 1000000000 in
    q ← (if n1 >=? 0x100000000 then
           let n2 := u32 (n1 / 1000000000) in
           let n1 := n1 mod 1000000000 in
           '(q, n2) ← (if n2 >=? 10 then
                         wr buf (n2 / 10 + $"0");; ret (buf + 1, n2 mod 10)
                       else ret (buf, n2));
           wr q (n2 + $"0");;
           let q := q + 1 in
           u32toa_len q (u32 n1) 9;;
           ret (q + 9)
         else
           l ← u32toa buf (u32 n1);
           ret (buf + l));
    u32toa_len q (u32 n) 9;;
    ret (q + 9 - buf).

Definition i64toa (buf n : Z) : M (list Z) Z :=
  if n >=? 0 then u64toa buf n
  else
    wr buf ($"-");;
    l ← u64toa (buf + 1) (u64 (- u64 n));
    ret (l + 1).

Definition u64toa_radix (buf n radix : Z) : M (list Z) Z :=
  if radix =? 10 then u64toa buf n
  else if Z.land radix (u32 (radix - 1)) =? 0 then
    clz ← clz32 radix;
    let radix_bits := 31 - clz in
    l ← (if n =? 0 then ret 1
         else
           clz ← clz64 n;
           if radix_bits =? 0 then throw (Undefined BadOperand)
           else ret ((64 - clz + radix_bits - 1) / radix_bits));
    u64toa_bin_len buf n radix_bits (Z.to_nat l);;
    ret l
  else
    q ← push_digits 41 radix n [];
    memcpy buf q;;
    ret (Z.of_nat (length q)).

Definition i64toa_radix (buf n radix : Z) : M (list Z) Z :=
  if n >=? 0 then u64toa_radix buf n radix
  else
    wr buf ($"-");;
    l ← u64toa_radix (buf + 1) (u64 (- u64 n)) radix;
    ret (l + 1).

(** ** The same, backwards from the end of a buffer, in [quickjs.c] *)

(** [digits[digit]] *)
Definition digit_at {S} (digit : Z) : M S Z := rd digits digit.

(** The buffer has [size] characters before its end. *)
Definition js_u64toa {S} (size : nat) (q : list Z) (n base : Z) : M S (list Z) :=
  loop 65 (λ '(n, q),
    d ← (if base =? 0 then throw (Undefined BadOperand) else ret (n mod base));
    c ← (if base =? 10 then ret ($"0" + d) else digit_at d);
    q ← push size c q;
    let n := n / base in
    ret (if negb (n =? 0) then inl (n, q) else inr q)) (u64 n, q).

Fixpoint js_limb_to_a {S} (size : nat) (q : list Z) (n radix : Z) (len : nat) : M S (list Z) :=
  match len with
  | O => ret q
  | Datatypes.S len =>
      d ← (if radix =? 0 then throw (Undefined BadOperand) else ret (n mod radix));
      c ← (if radix =? 10 then ret (d + $"0") else digit_at d);
      q ← push size c q;
      js_limb_to_a size q (n / radix) radix len
  end.

(** ** Logarithms *)

Definition MUL_LOG2_RADIX_BASE_LOG2 : Z := 24.

Definition mul_log2_radix_table : list Z := [
    0x000000; 0xa1849d; 0x000000; 0x6e40d2;
    0x6308c9; 0x5b3065; 0x000000; 0x50c24e;
    0x4d104d; 0x4a0027; 0x4768ce; 0x452e54;
    0x433d00; 0x418677; 0x000000; 0x3ea16b;
    0x3d645a; 0x3c43c2; 0x3b3b9a; 0x3a4899;
    0x39680b; 0x3897b3; 0x37d5af; 0x372069;
    0x367686; 0x35d6df; 0x354072; 0x34b261;
    0x342bea; 0x33ac62; 0x000000; 0x32bfd9;
    0x3251dd; 0x31e8d6; 0x318465 ].

(** [/] on [int] rounds towards 0. *)
Definition mul_log2_radix {S} (a radix : Z) : M S Z :=
  if Z.land radix (radix - 1) =? 0 then
    clz ← clz32 radix;
    let radix_bits := 31 - clz in
    let a := if a <? 0 then a - (radix_bits - 1) else a in
    if radix_bits =? 0 then throw (Undefined BadOperand) else ret (Z.quot a radix_bits)
  else
    mult ← rd mul_log2_radix_table (radix - 2);
    ret (Z.shiftr (a * mult) MUL_LOG2_RADIX_BASE_LOG2).

(** ** Examples *)

Definition printed (m : M (list Z) Z) : option (list Z) :=
  match m (replicate 30 0) with
  | (Ok l, buf) => Some (take (Z.to_nat l) buf)
  | _ => None
  end.
Example print_max : printed (u64toa 0 (2 ^ 64 - 1)) = Some (chars "18446744073709551615").
Proof. vm_compute. reflexivity. Qed.
Example print_min : printed (i64toa_radix 0 (- 2 ^ 63) 36) = Some (chars "-1y2p0ij32e8e8").
Proof. vm_compute. reflexivity. Qed.
