(* ===== verification/DigitsFacts.v ===== *)
(** * Integers in a radix: lemmas

    The digits that the routines of [dtoa.c] print for an integer, and the table of
    logarithms. *)
From S2P Require Import Prelude CStd Words CUtils BigIntMp BigIntMpFacts Digits.

(** * Integers in a radix: what is printed

    [canonical] are the digit lists without a useless leading 0, [value] the
    number they stand for. *)

(** ** Numerals *)

(** The number of a list of digits, the highest first. *)
Definition value (radix : Z) (ds : list Z) : Z := foldl (λ v d, v * radix + d) 0 ds.

Definition in_radix (radix d : Z) : Prop := 0 ≤ d < radix.
Definition canonical (radix : Z) (ds : list Z) : Prop :=
  Forall (in_radix radix) ds ∧ ds ≠ [] ∧ (ds = [0] ∨ head ds ≠ Some 0).

Section numerals.
Context (radix : Z).
Hypothesis (Hr : 2 ≤ radix).
#[local] Set Default Proof Using "All".

Lemma value_snoc ds d : value radix (ds ++ [d]) = value radix ds * radix + d.
Proof using. unfold value. by rewrite foldl_app. Qed.

Lemma value_app ds ds' :
  value radix (ds ++ ds') = value radix ds * radix ^ Z.of_nat (length ds') + value radix ds'.
Proof.
  induction ds' as [|d ds' IH] using rev_ind.
  { rewrite app_nil_r. unfold value at 3. cbn. lia. }
  rewrite app_assoc, !value_snoc, IH, length_app, Nat.add_1_r, Nat2Z.inj_succ, Z.pow_succ_r by lia. ring.
Qed.

Lemma pow_pos k : 0 < radix ^ Z.of_nat k.
Proof. apply Z.pow_pos_nonneg; lia. Qed.

Lemma value_range ds : Forall (in_radix radix) ds → 0 ≤ value radix ds < radix ^ Z.of_nat (length ds).
Proof.
  induction ds as [|d ds IH] using rev_ind; intros Hds; [done|].
  apply Forall_app in Hds as [Hds [Hd _]%Forall_cons]. specialize (IH Hds). unfold in_radix in Hd.
  rewrite value_snoc, length_app, Nat.add_1_r, Nat2Z.inj_succ, Z.pow_succ_r by lia. nia.
Qed.

Lemma value_head d ds :
  value radix (d :: ds) = d * radix ^ Z.of_nat (length ds) + value radix ds.
Proof. change (d :: ds) with ([d] ++ ds). rewrite value_app. unfold value at 1. cbn. lia. Qed.

(** A list of digits is canonical when its number is large enough. *)
Lemma canonical_intro ds :
  Forall (in_radix radix) ds → ds ≠ [] → radix ^ (Z.of_nat (length ds) - 1) ≤ value radix ds → canonical radix ds.
Proof.
  intros Hds Hne Hv. split_and!; [done|done|right]. destruct ds as [|d ds]; [done|]. intros [= ->].
  apply Forall_cons in Hds as [_ Hds]. rewrite value_head in Hv. pose proof (value_range ds Hds).
  cbn [length] in Hv. replace (Z.of_nat (S (length ds)) - 1) with (Z.of_nat (length ds)) in Hv by lia. lia.
Qed.

(** The size of a canonical numeral. *)
Lemma canonical_size ds :
  canonical radix ds → value radix ds ≠ 0 →
  radix ^ (Z.of_nat (length ds) - 1) ≤ value radix ds < radix ^ Z.of_nat (length ds).
Proof.
  intros (Hds & Hne & Hh) Hv. split; [|by apply value_range]. destruct ds as [|d ds]; [done|].
  apply Forall_cons in Hds as [Hd Hds]. rewrite value_head in *. pose proof (value_range ds Hds).
  assert (d ≠ 0) as Hd0. { destruct Hh as [[= -> ->]|Hh]; [done|]. intros ->. done. }
  cbn [length]. replace (Z.of_nat (S (length ds)) - 1) with (Z.of_nat (length ds)) by lia.
  pose proof (pow_pos (length ds)). unfold in_radix in Hd. nia.
Qed.

Lemma canonical_length ds k :
  canonical radix ds → value radix ds < radix ^ Z.of_nat k → (1 ≤ k)%nat → (length ds ≤ k)%nat.
Proof.
  intros Hc Hv Hk. destruct (Z.eq_dec (value radix ds) 0) as [E|Hne].
  - destruct Hc as (Hds & Hnil & [-> | Hh]); [done|]. destruct ds as [|d ds]; [done|exfalso].
    apply Forall_cons in Hds as [Hd Hds]. rewrite value_head in E. pose proof (value_range ds Hds).
    pose proof (pow_pos (length ds)). unfold in_radix in Hd. cbn in Hh.
    assert (d ≠ 0) by (intros ->; by apply Hh). nia.
  - pose proof (canonical_size ds Hc Hne) as [Hlo _].
    assert (Z.of_nat (length ds) - 1 < Z.of_nat k); [|lia].
    apply (Z.pow_lt_mono_r_iff radix); lia.
Qed.

Lemma value_inj ds ds' :
  Forall (in_radix radix) ds → Forall (in_radix radix) ds' → length ds = length ds' →
  value radix ds = value radix ds' → ds = ds'.
Proof.
  revert ds'. induction ds as [|d ds IH] using rev_ind; intros ds' H1 H2 Hl E.
  { by destruct ds'. }
  destruct ds' as [|d' ds' _] using rev_ind; [rewrite length_app in Hl; cbn in Hl; lia|].
  rewrite !length_app in Hl. cbn in Hl. rewrite !value_snoc in E.
  apply Forall_app in H1 as [H1 [Hd _]%Forall_cons]. apply Forall_app in H2 as [H2 [Hd' _]%Forall_cons].
  unfold in_radix in Hd, Hd'. assert (value radix ds = value radix ds' ∧ d = d') as [Ev ->]
    by (apply (Z.div_mod_unique radix); [by left|by left|lia]).
  f_equal. apply IH; [done|done|lia|done].
Qed.

(** A number has one canonical numeral. *)
Lemma canonical_unique ds ds' :
  canonical radix ds → canonical radix ds' → value radix ds = value radix ds' → ds = ds'.
Proof.
  intros H1 H2 E. apply value_inj; [apply H1|apply H2| |done].
  assert (∀ l l', canonical radix l → canonical radix l' → value radix l = value radix l' → (length l ≤ length l')%nat) as Hle.
  { intros l l' Hl Hl' El. apply canonical_length; [done| |].
    - rewrite El. apply value_range, Hl'.
    - destruct Hl' as (_ & Hne & _). destruct l'; [done|cbn; lia]. }
  apply Nat.le_antisymm; auto.
Qed.

Lemma canonical_snoc ds d :
  canonical radix ds → value radix ds ≠ 0 → in_radix radix d → canonical radix (ds ++ [d]).
Proof.
  intros (Hds & Hne & Hh) Hv Hd. split_and!; [apply Forall_app; split; [done|by constructor]|by destruct ds|].
  right. destruct ds as [|x ds]; [done|]. destruct Hh as [[= -> ->]|Hh]; [done|]. exact Hh.
Qed.

Lemma canonical_one d : in_radix radix d → canonical radix [d].
Proof.
  intros Hd. split_and!; [by constructor|done|]. destruct (Z.eq_dec d 0) as [->|Hne]; [by left|right].
  cbn. congruence.
Qed.
End numerals.

(** ** Characters *)

Lemma js_to_digit_char d : 0 ≤ d < 36 → js_to_digit (digit_char d) = d.
Proof.
  intros Hd. unfold digit_char. assert (36 = Z.of_nat 36) as E by done. rewrite E in Hd. clear E.
  assert (∀ n, (n < 36)%nat → js_to_digit (digit_char (Z.of_nat n)) = Z.of_nat n) as H.
  { intros n Hn. do 36 (destruct n as [|n]; [reflexivity|]). lia. }
  specialize (H (Z.to_nat d)). rewrite Z2Nat.id in H by lia. apply H. lia.
Qed.

Lemma digit_char_small d : d < 10 → digit_char d = d + $"0".
Proof. intros. unfold digit_char. by destruct (Z.ltb_spec d 10); [|lia]. Qed.

Lemma digits_lookup d : 0 ≤ d < 36 → digits !! Z.to_nat d = Some (digit_char d).
Proof.
  intros Hd. assert (∀ n, (n < 36)%nat → digits !! n = Some (digit_char (Z.of_nat n))) as H.
  { intros n Hn. do 36 (destruct n as [|n]; [reflexivity|]). lia. }
  specialize (H (Z.to_nat d)). rewrite Z2Nat.id in H by lia. apply H. lia.
Qed.

(** ** Filling an array backwards *)

Lemma push_run {S} size c q (s : S) :
  (length q < size)%nat → push size c q s = (Ok (c :: q), s).
Proof. intros Hl. unfold push. by destruct (Nat.ltb_spec (length q) size); [|lia]. Qed.

(** A loop that pushes the digits of [n], whatever it writes for a digit. *)
Lemma digits_loop {S} radix n k size q fuel (s : S) (char : Z → Z)
    (turn : Z * list Z → M S (Z * list Z + list Z)) :
  2 ≤ radix →
  (∀ n q s, 0 ≤ n → (length q < size)%nat → turn (n, q) s
    = (Ok (if negb (n / radix =? 0) then inl (n / radix, char (n mod radix) :: q)
           else inr (char (n mod radix) :: q)), s)) →
  0 ≤ n < radix ^ Z.of_nat k → (1 ≤ k ≤ fuel)%nat → (length q + k ≤ size)%nat →
  ∃ ds, loop fuel turn (n, q) s = (Ok ((char <$> ds) ++ q), s) ∧
    canonical radix ds ∧ value radix ds = n ∧ (length ds ≤ k)%nat.
Proof.
  intros Hr Hturn. revert n q fuel. induction k as [|k IH]; intros n q fuel Hn Hk Hl; [lia|].
  destruct fuel as [|fuel]; [lia|]. cbn [loop]. erewrite bind_run by (apply Hturn; lia).
  pose proof (Z.mod_pos_bound n radix ltac:(lia)) as Hm. pose proof (Z.div_mod n radix ltac:(lia)) as En.
  rewrite Nat2Z.inj_succ, Z.pow_succ_r in Hn by lia.
  destruct (Z.eqb_spec (n / radix) 0) as [E0|E0]; cbn [negb].
  - exists [n mod radix]. split_and!; [done|by apply canonical_one|unfold value; cbn; lia|cbn; lia].
  - assert (0 ≤ n / radix < radix ^ Z.of_nat k) as Hq.
    { split; [apply Z.div_pos; lia|]. apply Z.div_lt_upper_bound; lia. }
    destruct k as [|k]; [change (radix ^ Z.of_nat 0) with 1 in Hq; lia|].
    destruct (IH (n / radix) (char (n mod radix) :: q) fuel) as (ds & E & Hc & Ev & Hlen); [done|lia|cbn; lia|].
    exists (ds ++ [n mod radix]). split_and!.
    + rewrite E, fmap_app, <-app_assoc. done.
    + apply canonical_snoc; [done|done|by rewrite Ev|done].
    + rewrite value_snoc, Ev. lia.
    + rewrite length_app. cbn. lia.
Qed.

Lemma push_digits_run {S} radix n k size (s : S) :
  2 ≤ radix → 0 ≤ n < radix ^ Z.of_nat k → (1 ≤ k ≤ 65)%nat → (k ≤ size)%nat →
  ∃ ds, push_digits size radix n [] s = (Ok (digit_char <$> ds), s) ∧
    canonical radix ds ∧ value radix ds = n ∧ (length ds ≤ k)%nat.
Proof.
  intros Hr Hn Hk Hs. unfold push_digits. edestruct (digits_loop radix n k size [] 65 s digit_char) as (ds & E & H); [done| |done|done|cbn; lia|].
  2:{ exists ds. split; [|exact H]. rewrite app_nil_r in E. exact E. }
  intros n' q' s' Hn' Hq'. cbv beta iota. destruct (Z.eqb_spec radix 0); [lia|].
  rewrite bind_ret. erewrite bind_run by (by apply push_run). cbv zeta. by destruct (negb _).
Qed.

(** ** A fixed number of digits *)

Lemma u32toa_len_radix buf n len s : 0 ≤ n → u32toa_len buf n len s = radix_len buf n 10 len s.
Proof.
  revert n s. induction len as [|len IH]; intros n s Hn; [done|]. cbn [u32toa_len radix_len].
  pose proof (Z.mod_pos_bound n 10 ltac:(lia)). rewrite digit_char_small by lia.
  unfold bind. destruct (wr _ _ s) as [[[]|] s']; [|done]. apply IH. apply Z.div_pos; lia.
Qed.

Lemma bin_len_radix buf n bits len s :
  0 ≤ bits → 0 ≤ n → bin_len buf n bits (2 ^ bits - 1) len s = radix_len buf n (2 ^ bits) len s.
Proof.
  intros Hb. revert n s. induction len as [|len IH]; intros n s Hn; [done|]. cbn [bin_len radix_len].
  rewrite (land_ones' n bits) by done. rewrite Z.shiftr_div_pow2 by done.
  unfold bind. destruct (wr _ _ s) as [[[]|] s']; [|done]. apply IH.
  pose proof (Z.pow_pos_nonneg 2 bits). apply Z.div_pos; lia.
Qed.

Lemma radix_len_run radix n len pre win post :
  2 ≤ radix → 0 ≤ n → length win = len →
  ∃ ds, radix_len (Z.of_nat (length pre)) n radix len (pre ++ win ++ post)
      = (Ok tt, pre ++ (digit_char <$> ds) ++ post) ∧
    Forall (in_radix radix) ds ∧ length ds = len ∧ value radix ds = n mod radix ^ Z.of_nat len.
Proof.
  intros Hr. revert n win post. induction len as [|len IH]; intros n win post Hn Hl.
  { exists []. destruct win; [|done]. split_and!; [done..|]. by rewrite Z.mod_1_r. }
  destruct win as [|x win _] using rev_ind; [done|]. rewrite length_app, Nat.add_1_r in Hl. injection Hl as Hl.
  cbn [radix_len]. rewrite <-(app_assoc win), app_assoc.
  erewrite bind_run by (apply wr_here; rewrite length_app; lia). rewrite <-app_assoc.
  destruct (IH (n / radix) win (digit_char (n mod radix) :: post)) as (ds & E & Hds & Hld & Ev);
    [apply Z.div_pos; lia|done|].
  pose proof (Z.mod_pos_bound n radix ltac:(lia)).
  exists (ds ++ [n mod radix]). split_and!.
  - rewrite E, fmap_app, <-app_assoc. done.
  - apply Forall_app. split; [done|by constructor].
  - rewrite length_app. cbn. lia.
  - rewrite value_snoc, Ev, Nat2Z.inj_succ, Z.pow_succ_r by lia.
    rewrite (Z.rem_mul_r n radix) by (lia || apply pow_pos; lia). lia.
Qed.

(** ** What printing is *)

(** [m] prints [n] at the end of [pre], and returns the number of characters:
    the buffer needs no more room than they take. *)
Definition prints (m : Z → M (list Z) Z) (sign : list Z) (radix n : Z) : Prop :=
  ∃ ds, canonical radix ds ∧ value radix ds = n ∧ ∀ pre win,
    (length sign + length ds ≤ length win)%nat →
    m (Z.of_nat (length pre)) (pre ++ win)
    = (Ok (Z.of_nat (length sign + length ds)),
       pre ++ sign ++ (digit_char <$> ds) ++ drop (length sign + length ds) win).

Lemma memcpy_run pre q win :
  (length q ≤ length win)%nat →
  memcpy (Z.of_nat (length pre)) q (pre ++ win) = (Ok tt, pre ++ q ++ drop (length q) win).
Proof.
  intros Hl. unfold memcpy. rewrite <-(take_drop (length q) win) at 1.
  apply set_limbs_run. rewrite length_take. lia.
Qed.

(** ** The functions *)

Lemma prints_signed (f : Z → Z → M (list Z) Z) radix n x :
  prints (λ buf, f buf n) [] radix n → x = n →
  prints (λ buf, wr buf ($"-");; l ← f (buf + 1) x; ret (l + 1)) [ $"-" ] radix n.
Proof.
  intros (ds & Hc & Hv & Hrun) ->. exists ds. split_and!; [done|done|]. intros pre win Hl.
  destruct win as [|c win]; [cbn in Hl; lia|]. cbn [length] in *.
  erewrite bind_run by (by apply wr_here).
  replace (Z.of_nat (length pre) + 1) with (Z.of_nat (length (pre ++ [ $"-" ]))) by (rewrite length_app; cbn; lia).
  replace (pre ++ $"-" :: win) with ((pre ++ [ $"-" ]) ++ win) by (by rewrite <-app_assoc).
  erewrite bind_run by (apply Hrun; cbn; lia).
  unfold ret. rewrite <-!app_assoc. cbn. do 2 f_equal. lia.
Qed.

Lemma push_digits_prints size radix n k :
  2 ≤ radix → 0 ≤ n < radix ^ Z.of_nat k → (1 ≤ k ≤ 65)%nat → (k ≤ size)%nat →
  prints (λ buf, q ← push_digits size radix n []; memcpy buf q;; ret (Z.of_nat (length q))) [] radix n.
Proof.
  intros Hr Hn Hk Hs. destruct (push_digits_run radix n k size tt Hr Hn Hk Hs) as (ds & _ & Hc & Ev & _).
  exists ds. split_and!; [done|done|]. intros pre win Hl. cbn [length] in Hl.
  destruct (push_digits_run radix n k size (pre ++ win) Hr Hn Hk Hs) as (ds' & E & Hc' & Ev' & _).
  assert (ds' = ds) as -> by (apply (canonical_unique radix); congruence).
  erewrite bind_run by exact E. erewrite bind_run by (apply memcpy_run; rewrite length_fmap; lia).
  unfold ret. by rewrite length_fmap.
Qed.

Lemma u32toa_prints n : 0 ≤ n < 2 ^ 32 → prints (λ buf, u32toa buf n) [] 10 n.
Proof. intros Hn. apply (push_digits_prints 10 10 n 10); lia. Qed.

Lemma i32toa_prints n :
  - 2 ^ 31 ≤ n < 2 ^ 31 →
  prints (λ buf, i32toa buf n) (if n <? 0 then [ $"-" ] else []) 10 (Z.abs n).
Proof.
  intros Hn. unfold i32toa. rewrite Z.geb_leb. destruct (Z.leb_spec 0 n), (Z.ltb_spec n 0); try lia.
  - rewrite Z.abs_eq by lia. apply u32toa_prints. lia.
  - assert (u32 (- u32 n) = Z.abs n) as ->.
    { assert (u32 n = n + 2 ^ 32) as -> by (apply (u32_spec _ (-1)); unfold B; lia).
      apply (u32_spec _ (-1)); unfold B; lia. }
    apply (prints_signed (λ buf x, u32toa buf x)); [|done]. apply u32toa_prints. lia.
Qed.

Lemma longer_numeral radix ds1 ds k :
  2 ≤ radix → canonical radix ds1 → value radix ds1 ≠ 0 → canonical radix ds →
  value radix ds1 * radix ^ Z.of_nat k ≤ value radix ds → (length ds1 + k ≤ length ds)%nat.
Proof.
  intros Hr H1 Hne H2 Hle. pose proof (canonical_size radix Hr ds1 H1 Hne) as [Hlo _].
  pose proof (value_range radix Hr ds (proj1 H2)) as [_ Hhi]. pose proof (pow_pos radix Hr k).
  assert (ds1 ≠ []) as Hnil by apply H1. assert (1 ≤ length ds1)%nat by (destruct ds1; [done|cbn; lia]).
  assert (radix ^ (Z.of_nat (length ds1) - 1 + Z.of_nat k) < radix ^ Z.of_nat (length ds)) as Hlt.
  { rewrite Z.pow_add_r by lia. nia. }
  apply Z.pow_lt_mono_r_iff in Hlt; lia.
Qed.

(** A numeral of a quotient and the digits of the remainder. *)
Lemma canonical_app radix ds ds' :
  2 ≤ radix → canonical radix ds → value radix ds ≠ 0 → Forall (in_radix radix) ds' → canonical radix (ds ++ ds').
Proof.
  intros Hr (Hds & Hne & Hh) Hv Hds'. split_and!; [by apply Forall_app|by destruct ds|right].
  destruct ds as [|d ds]; [done|]. destruct Hh as [[= -> ->]|Hh]; [done|exact Hh].
Qed.

(** Nine digits after a numeral. *)
Lemma then_nine pre win ds n :
  0 ≤ n < 10 ^ 9 → (length ds + 9 ≤ length win)%nat →
  canonical 10 ds → value 10 ds ≠ 0 →
  ∃ ds', u32toa_len (Z.of_nat (length pre + length ds)) n 9
      (pre ++ (digit_char <$> ds) ++ drop (length ds) win)
    = (Ok tt, pre ++ (digit_char <$> ds') ++ drop (length ds') win) ∧
    canonical 10 ds' ∧ value 10 ds' = value 10 ds * 10 ^ 9 + n ∧ length ds' = (length ds + 9)%nat.
Proof.
  intros Hn Hl Hc Hv. rewrite u32toa_len_radix by lia.
  destruct (radix_len_run 10 n 9 (pre ++ (digit_char <$> ds)) (take 9 (drop (length ds) win)) (drop (length ds + 9) win))
    as (d9 & E & Hd & Hl9 & Ev); [lia|lia|rewrite length_take, length_drop; lia|].
  rewrite length_app, length_fmap in E. rewrite <-drop_drop, take_drop in E.
  rewrite Z.mod_small in Ev by lia.
  exists (ds ++ d9). split_and!.
  - rewrite fmap_app, length_app, Hl9, <-drop_drop, <-!app_assoc. rewrite <-!app_assoc in E. exact E.
  - by apply canonical_app; [lia|..].
  - rewrite value_app, Hl9, Ev by lia. done.
  - by rewrite length_app, Hl9.
Qed.

Lemma numeral radix n :
  2 ≤ radix → 0 ≤ n → ∃ ds, canonical radix ds ∧ value radix ds = n.
Proof.
  intros Hr Hn. revert Hn. induction (Z.lt_wf 0 n) as [n _ IH]. intros Hn.
  pose proof (Z.mod_pos_bound n radix ltac:(lia)). pose proof (Z.div_mod n radix ltac:(lia)) as En.
  destruct (Z.eq_dec (n / radix) 0) as [E0|E0].
  - exists [n mod radix]. split; [by apply canonical_one|]. unfold value. cbn. lia.
  - pose proof (Z.div_pos n radix Hn ltac:(lia)).
    destruct (IH (n / radix)) as (ds & Hc & Ev); [nia|done|].
    exists (ds ++ [n mod radix]). split; [apply canonical_snoc; [done|done|by rewrite Ev|done]|].
    rewrite value_snoc, Ev. lia.
Qed.

(** The numeral may be chosen after the buffer. *)
Lemma prints_intro m radix n :
  2 ≤ radix → 0 ≤ n →
  (∀ pre win ds, canonical radix ds → value radix ds = n → (length ds ≤ length win)%nat →
    ∃ ds', m (Z.of_nat (length pre)) (pre ++ win)
      = (Ok (Z.of_nat (length ds')), pre ++ (digit_char <$> ds') ++ drop (length ds') win) ∧
      canonical radix ds' ∧ value radix ds' = n) →
  prints m [] radix n.
Proof.
  intros Hr Hn Hm. destruct (numeral radix n Hr Hn) as (ds & Hc & Ev). exists ds.
  split_and!; [done|done|]. intros pre win Hl. destruct (Hm pre win ds Hc Ev Hl) as (ds' & E & Hc' & Ev').
  assert (ds' = ds) as -> by (apply (canonical_unique radix); congruence). exact E.
Qed.

(** The head of a number above [2^32 * 10^9], of one or two digits. *)
Lemma head_digits n2 pre win :
  1 ≤ n2 < 100 → (2 ≤ length win)%nat ∨ n2 < 10 ∧ (1 ≤ length win)%nat →
  ∃ ds, ('(q, n2) ← (if n2 >=? 10 then
            wr (Z.of_nat (length pre)) (n2 / 10 + $"0");; ret (Z.of_nat (length pre) + 1, n2 mod 10)
          else ret (Z.of_nat (length pre), n2));
         wr q (n2 + $"0");; ret (q + 1)) (pre ++ win)
    = (Ok (Z.of_nat (length pre + length ds)), pre ++ (digit_char <$> ds) ++ drop (length ds) win) ∧
    canonical 10 ds ∧ value 10 ds = n2.
Proof.
  intros Hn Hl. rewrite Z.geb_leb. pose proof (Z.mod_pos_bound n2 10 ltac:(lia)).
  pose proof (Z.div_mod n2 10 ltac:(lia)) as En.
  destruct (Z.leb_spec 10 n2).
  - destruct win as [|x [|y win]]; [cbn in Hl; lia|cbn in Hl; lia|].
    assert (1 ≤ n2 / 10 < 10) by lia.
    exists [n2 / 10; n2 mod 10]. rewrite bind_bind. erewrite bind_run by (by apply wr_here). rewrite bind_ret.
    rewrite cons_middle, app_assoc. erewrite bind_run by (apply wr_here; rewrite length_app; cbn; lia).
    split_and!.
    + unfold ret. cbn [fmap list_fmap length drop app]. rewrite <-app_assoc, !digit_char_small by lia.
      cbn. do 2 f_equal. lia.
    + apply canonical_intro; [lia|repeat constructor; lia|done|]. unfold value. cbn. lia.
    + unfold value. cbn. lia.
  - destruct win as [|x win]; [cbn in Hl; lia|]. exists [n2]. rewrite bind_ret.
    erewrite bind_run by (by apply wr_here). split_and!.
    + unfold ret. cbn [fmap list_fmap length drop app]. rewrite !digit_char_small by lia. do 2 f_equal. lia.
    + apply canonical_one; [lia|unfold in_radix; lia].
    + done.
Qed.

Lemma u64toa_prints n : 0 ≤ n < 2 ^ 64 → prints (λ buf, u64toa buf n) [] 10 n.
Proof.
  intros Hn. unfold u64toa. destruct (Z.ltb_spec n 0x100000000); [by apply u32toa_prints; lia|].
  apply prints_intro; [lia|lia|]. intros pre win ds Hc Ev Hl. set (n1 := n / 1000000000).
  pose proof (Z.div_mod n 1000000000 ltac:(lia)) as En. fold n1 in En.
  pose proof (Z.mod_pos_bound n 1000000000 ltac:(lia)) as Hm.
  assert (u32 (n mod 1000000000) = n mod 1000000000) as -> by (apply wrap_id; unfold fits; lia).
  assert (∀ ds1, canonical 10 ds1 → value 10 ds1 = n1 →
    ∃ ds', (u32toa_len (Z.of_nat (length pre + length ds1)) (n mod 1000000000) 9;;
      ret (Z.of_nat (length pre + length ds1) + 9 - Z.of_nat (length pre)))
        (pre ++ (digit_char <$> ds1) ++ drop (length ds1) win)
    = (Ok (Z.of_nat (length ds')), pre ++ (digit_char <$> ds') ++ drop (length ds') win) ∧
      canonical 10 ds' ∧ value 10 ds' = n) as Hlast.
  { intros ds1 Hc1 Ev1.
    assert (length ds1 + 9 ≤ length ds)%nat by (apply (longer_numeral 10); [lia|done|lia|done|rewrite Ev, Ev1; change (10 ^ _) with 1000000000; lia]).
    destruct (then_nine pre win ds1 (n mod 1000000000)) as (ds' & E & Hc' & Ev' & Hl'); [lia|lia|done|lia|].
    exists ds'. erewrite bind_run by exact E. split_and!; [unfold ret; do 2 f_equal; lia|done|].
    rewrite Ev', Ev1. change (10 ^ 9) with 1000000000. lia. }
  rewrite Z.geb_leb. destruct (Z.leb_spec 0x100000000 n1).
  - pose proof (Z.div_mod n1 1000000000 ltac:(lia)) as En1. pose proof (Z.mod_pos_bound n1 1000000000 ltac:(lia)).
    set (n2 := n1 / 1000000000) in *. assert (u32 n2 = n2) as -> by (apply wrap_id; unfold fits; lia).
    assert (u32 (n1 mod 1000000000) = n1 mod 1000000000) as -> by (apply wrap_id; unfold fits; lia).
    destruct (numeral 10 n2 ltac:(lia) ltac:(lia)) as (d2 & Hc2 & Ev2).
    assert (length d2 + 18 ≤ length ds)%nat.
    { apply (longer_numeral 10); [lia|done|lia|done|]. rewrite Ev, Ev2. change (10 ^ Z.of_nat 18) with (1000000000 * 1000000000). lia. }
    assert (1 ≤ length d2)%nat by (destruct Hc2 as (_ & Hne & _); destruct d2; [done|cbn; lia]).
    assert (n2 < 100) by lia.
    destruct (head_digits n2 pre win) as (d2' & E2 & Hc2' & Ev2'); [lia|left; lia|].
    assert (d2' = d2) as -> by (apply (canonical_unique 10); [lia|done|done|congruence]).
    destruct (then_nine pre win d2 (n1 mod 1000000000)) as (d1 & E1 & Hc1 & Ev1 & Hl1); [lia|lia|done|lia|].
    destruct (Hlast d1 Hc1) as (ds' & E & Hds'); [rewrite Ev1, Ev2; change (10 ^ 9) with 1000000000; lia|].
    exists ds'. split; [|exact Hds']. rewrite <-E.
    apply bind_Ok in E2 as ([q d] & s0 & EX & E2). apply bind_Ok in E2 as ([] & s1 & Ew & E2).
    injection E2 as Eq ->. cbv zeta. rewrite bind_bind. erewrite bind_run by exact EX. cbv beta iota.
    rewrite bind_bind. erewrite bind_run by exact Ew. cbv zeta. rewrite Eq, bind_bind.
    erewrite bind_run by exact E1. rewrite bind_ret, Hl1.
    by replace (Z.of_nat (length pre + (length d2 + 9))) with (Z.of_nat (length pre + length d2) + 9) by lia.
  - assert (u32 n1 = n1) as -> by (apply wrap_id; unfold fits; lia).
    destruct (u32toa_prints n1) as (ds1 & Hc1 & Ev1 & Hrun); [lia|].
    assert (length ds1 + 9 ≤ length ds)%nat by (apply (longer_numeral 10); [lia|done|lia|done|rewrite Ev, Ev1; change (10 ^ _) with 1000000000; lia]).
    destruct (Hlast ds1 Hc1 Ev1) as (ds' & E & Hds'). exists ds'. split; [|exact Hds'].
    rewrite bind_bind. cbn [length] in Hrun. erewrite bind_run by (apply Hrun; lia). rewrite bind_ret.
    rewrite <-Nat2Z.inj_add. exact E.
Qed.

Lemma neg_u64 n : - 2 ^ 63 ≤ n < 0 → u64 (- u64 n) = Z.abs n.
Proof.
  intros Hn. assert (u64 n = n + 2 ^ 64) as ->.
  { unfold u64, wrap. symmetry. apply Z.mod_unique with (-1); lia. }
  unfold u64, wrap. symmetry. apply Z.mod_unique with (-1); lia.
Qed.

Lemma i64toa_prints n :
  - 2 ^ 63 ≤ n < 2 ^ 63 →
  prints (λ buf, i64toa buf n) (if n <? 0 then [ $"-" ] else []) 10 (Z.abs n).
Proof.
  intros Hn. unfold i64toa. rewrite Z.geb_leb. destruct (Z.leb_spec 0 n), (Z.ltb_spec n 0); try lia.
  - rewrite Z.abs_eq by lia. apply u64toa_prints. lia.
  - apply (prints_signed (λ buf x, u64toa buf x)); [|apply neg_u64; lia]. apply u64toa_prints. lia.
Qed.

(** The radices that are powers of two. *)
Lemma radix_pow2 radix :
  2 ≤ radix ≤ 36 → Z.land radix (radix - 1) = 0 → ∃ b, 1 ≤ b ≤ 5 ∧ radix = 2 ^ b ∧ Z.log2 radix = b.
Proof.
  intros Hr Hl. destruct (pow2_test radix ltac:(lia) ltac:(lia) Hl) as (b & Hb & ->). exists b.
  rewrite Z.log2_pow2 by lia. split_and!; [lia| |done|done].
  assert (2 ^ b < 2 ^ 6) as Hlt by lia. apply Z.pow_lt_mono_r_iff in Hlt; lia.
Qed.

Lemma bin_digits b n :
  1 ≤ b → 1 ≤ n →
  let l := (Z.log2 n + b) / b in 1 ≤ l ∧ (2 ^ b) ^ (l - 1) ≤ n < (2 ^ b) ^ l.
Proof.
  intros Hb Hn l. pose proof (Z.log2_spec n ltac:(lia)) as [Hlo Hhi]. pose proof (Z.log2_nonneg n).
  pose proof (Z.div_mod (Z.log2 n + b) b ltac:(lia)) as E. pose proof (Z.mod_pos_bound (Z.log2 n + b) b ltac:(lia)).
  fold l in E. assert (1 ≤ l) as Hl by nia. split; [done|]. rewrite <-!Z.pow_mul_r by lia. split.
  - etransitivity; [|exact Hlo]. apply Z.pow_le_mono_r; lia.
  - eapply Z.lt_le_trans; [exact Hhi|]. apply Z.pow_le_mono_r; lia.
Qed.

Lemma u64toa_bin_run b n l pre win :
  1 ≤ b ≤ 5 → 0 ≤ n < (2 ^ b) ^ Z.of_nat l → (l ≤ length win)%nat →
  ∃ ds, u64toa_bin_len (Z.of_nat (length pre)) n b l (pre ++ win)
      = (Ok tt, pre ++ (digit_char <$> ds) ++ drop l win) ∧
    Forall (in_radix (2 ^ b)) ds ∧ length ds = l ∧ value (2 ^ b) ds = n.
Proof.
  intros Hb Hn Hl. unfold u64toa_bin_len.
  assert (2 ^ 1 ≤ 2 ^ b ≤ 2 ^ 5) as Hp by (split; apply Z.pow_le_mono_r; lia).
  assert (u32 (Z.shiftl 1 b - 1) = 2 ^ b - 1) as ->.
  { rewrite Z.shiftl_1_l. apply wrap_id. unfold fits. lia. }
  rewrite bin_len_radix by lia. replace (pre ++ win) with (pre ++ take l win ++ drop l win) by (by rewrite take_drop).
  destruct (radix_len_run (2 ^ b) n l pre (take l win) (drop l win)) as (ds & E & Hds & Hld & Ev);
    [lia|lia|rewrite length_take; lia|].
  exists ds. split_and!; [done|done|done|]. rewrite Ev. by apply Z.mod_small.
Qed.

Lemma u64toa_radix_prints n radix :
  0 ≤ n < 2 ^ 64 → 2 ≤ radix ≤ 36 → prints (λ buf, u64toa_radix buf n radix) [] radix n.
Proof.
  intros Hn Hr. unfold u64toa_radix. destruct (Z.eqb_spec radix 10) as [->|_]; [by apply u64toa_prints|].
  assert (u32 (radix - 1) = radix - 1) as -> by (apply wrap_id; unfold fits; lia).
  destruct (Z.eqb_spec (Z.land radix (radix - 1)) 0) as [E|].
  - destruct (radix_pow2 radix Hr E) as (b & Hb & Er & El). unfold clz32, clz64.
    destruct (Z.eqb_spec radix 0); [lia|]. rewrite El. clear E.
    apply prints_intro; [lia|lia|]. intros pre win ds Hc Ev Hl. rewrite bind_ret. cbv zeta.
    replace (31 - (31 - b)) with b by lia. destruct (Z.eqb_spec b 0); [lia|]. subst radix.
    destruct (Z.eqb_spec n 0) as [->|Hn0].
    + rewrite bind_ret. destruct (u64toa_bin_run b 0 1 pre win) as (d & E & Hd & Hld & Evd).
      { done. } { change (Z.of_nat 1) with 1. rewrite Z.pow_1_r. lia. }
      { destruct Hc as (_ & Hne & _). destruct ds; [done|]. cbn in Hl. lia. }
      erewrite bind_run by exact E. exists d. rewrite Hld. split_and!; [done| |done].
      destruct d as [|x [|]]; try done. apply canonical_one; [lia|by apply Forall_cons in Hd as [? _]].
    + rewrite bind_bind, bind_ret. replace (64 - (63 - Z.log2 n) + b - 1) with (Z.log2 n + b) by lia.
      rewrite bind_ret. destruct (bin_digits b n) as (Hl1 & Hlo & Hhi); [lia|lia|].
      set (l := (Z.log2 n + b) / b) in *.
      destruct (u64toa_bin_run b n (Z.to_nat l) pre win) as (d & E & Hd & Hld & Evd); [done|rewrite Z2Nat.id; lia| |].
      { transitivity (length ds); [|done]. pose proof (value_range (2 ^ b) ltac:(lia) ds (proj1 Hc)) as [_ Hv].
        rewrite Ev in Hv. assert (l - 1 < Z.of_nat (length ds)); [|lia].
        apply (Z.pow_lt_mono_r_iff (2 ^ b)); lia. }
      erewrite bind_run by exact E. exists d. rewrite Hld, Z2Nat.id by lia. split_and!; [done| |done].
      apply canonical_intro; [lia|done| |rewrite Hld, Evd, Z2Nat.id by lia; lia].
      intros ->. cbn in Hld. lia.
  - apply (push_digits_prints 41 radix n 41); [lia| |lia|lia].
    split; [lia|]. destruct (Z.eq_dec radix 2) as [->|]; [done|].
    apply Z.lt_le_trans with (3 ^ 41); [lia|]. apply Z.pow_le_mono_l. lia.
Qed.

Lemma i64toa_radix_prints n radix :
  - 2 ^ 63 ≤ n < 2 ^ 63 → 2 ≤ radix ≤ 36 →
  prints (λ buf, i64toa_radix buf n radix) (if n <? 0 then [ $"-" ] else []) radix (Z.abs n).
Proof.
  intros Hn Hr. unfold i64toa_radix. rewrite Z.geb_leb. destruct (Z.leb_spec 0 n), (Z.ltb_spec n 0); try lia.
  - rewrite Z.abs_eq by lia. apply u64toa_radix_prints; lia.
  - apply (prints_signed (λ buf x, u64toa_radix buf x radix)); [|apply neg_u64; lia]. apply u64toa_radix_prints; lia.
Qed.

Lemma limb_to_a_run n radix len pre win post :
  2 ≤ radix → 0 ≤ n → length win = len →
  ∃ ds, limb_to_a (Z.of_nat (length pre)) n radix len (pre ++ win ++ post)
      = (Ok tt, pre ++ (digit_char <$> ds) ++ post) ∧
    Forall (in_radix radix) ds ∧ length ds = len ∧ value radix ds = n mod radix ^ Z.of_nat len.
Proof.
  intros Hr Hn Hl. unfold limb_to_a. destruct (Z.eqb_spec radix 10) as [->|_].
  - rewrite u32toa_len_radix by done. by apply radix_len_run.
  - destruct (Z.eqb_spec radix 0); [lia|]. by apply radix_len_run.
Qed.

(** ** Backwards *)

Lemma digit_at_run {S} d (s : S) : 0 ≤ d < 36 → digit_at d s = (Ok (digit_char d), s).
Proof. intros Hd. apply rd_run; [lia|by apply digits_lookup]. Qed.

(** The character of a digit, as [js_u64toa] and [js_limb_to_a] find it. *)
Lemma js_digit_run {S} radix d (s : S) :
  0 ≤ d < radix → radix ≤ 36 →
  (if radix =? 10 then ret ($"0" + d) else digit_at d) s = (Ok (digit_char d), s).
Proof.
  intros Hd Hr. destruct (Z.eqb_spec radix 10).
  - rewrite digit_char_small by lia. unfold ret. do 2 f_equal. lia.
  - apply digit_at_run. lia.
Qed.

Lemma js_u64toa_run {S} radix n k size q (s : S) :
  2 ≤ radix ≤ 36 → 0 ≤ n < radix ^ Z.of_nat k → n < 2 ^ 64 → (1 ≤ k ≤ 65)%nat → (length q + k ≤ size)%nat →
  ∃ ds, js_u64toa size q n radix s = (Ok ((digit_char <$> ds) ++ q), s) ∧
    canonical radix ds ∧ value radix ds = n ∧ (length ds ≤ k)%nat.
Proof.
  intros Hr Hn Hn64 Hk Hl. unfold js_u64toa.
  assert (u64 n = n) as -> by (apply wrap_id; unfold fits; lia).
  apply (digits_loop radix n k size); [lia| |done|done|done].
  intros n' q' s' Hn' Hq'. cbv beta iota. destruct (Z.eqb_spec radix 0); [lia|]. rewrite bind_ret.
  pose proof (Z.mod_pos_bound n' radix ltac:(lia)).
  erewrite bind_run by (apply js_digit_run; lia). erewrite bind_run by (by apply push_run). cbv zeta. by destruct (negb _).
Qed.

Lemma js_limb_to_a_run {S} radix n len size q (s : S) :
  2 ≤ radix ≤ 36 → 0 ≤ n → (length q + len ≤ size)%nat →
  ∃ ds, js_limb_to_a size q n radix len s = (Ok ((digit_char <$> ds) ++ q), s) ∧
    Forall (in_radix radix) ds ∧ length ds = len ∧ value radix ds = n mod radix ^ Z.of_nat len.
Proof.
  intros Hr. revert n q. induction len as [|len IH]; intros n q Hn Hl.
  { exists []. split_and!; [done..|]. by rewrite Z.mod_1_r. }
  cbn [js_limb_to_a]. destruct (Z.eqb_spec radix 0); [lia|]. rewrite bind_ret.
  pose proof (Z.mod_pos_bound n radix ltac:(lia)).
  assert ((if radix =? 10 then ret (n mod radix + $"0") else digit_at (n mod radix)) s = (Ok (digit_char (n mod radix)), s)) as E.
  { rewrite Z.add_comm. apply js_digit_run; lia. }
  erewrite bind_run by exact E. erewrite bind_run by (apply push_run; lia).
  destruct (IH (n / radix) (digit_char (n mod radix) :: q)) as (ds & E' & Hds & Hld & Ev);
    [apply Z.div_pos; lia|cbn; lia|].
  exists (ds ++ [n mod radix]). split_and!.
  - rewrite E', fmap_app, <-app_assoc. done.
  - apply Forall_app. split; [done|by constructor].
  - rewrite length_app. cbn. lia.
  - rewrite value_snoc, Ev, Nat2Z.inj_succ, Z.pow_succ_r by lia.
    rewrite (Z.rem_mul_r n radix) by (lia || apply pow_pos; lia). lia.
Qed.

(** * The logarithms of [dtoa.c]

    [mul_log2_radix] multiplies by a rounded constant of 24 bits: the result is
    the floor of the exact logarithm, as the exponents where it goes up are the
    ones where the powers of the radix pass a power of 2. *)

(** ** The logarithms of the table, checked against the powers *)

(** [k] is the floor of [a / log2(radix)]. *)
Definition is_floor_log (radix a k : Z) : Prop :=
  if 0 <=? a then 0 ≤ k ∧ radix ^ k ≤ 2 ^ a < radix ^ (k + 1)
  else k < 0 ∧ radix ^ (- k - 1) < 2 ^ (- a) ≤ radix ^ (- k).

(** The scaled logarithm, for a radix that is no power of two. *)
Definition scaled (mult a : Z) : Z := Z.shiftr (a * mult) MUL_LOG2_RADIX_BASE_LOG2.

(** The exponents where the floor goes up: [2^t < radix^k < 2^(t + 1)]; the
    scaled logarithm goes up there too, and its opposite. The power is kept as
    an interval, [lo * 2^e <= radix^k <= hi * 2^e], of few bits. *)
Fixpoint check_steps (n : nat) (radix mult k lo hi e : Z) : bool :=
  match n with
  | O => true
  | S n =>
      let l := Z.log2 lo in
      let t := l + e in
      (Z.shiftl 1 l <? lo) && (hi <? Z.shiftl 1 (l + 1))
        && (scaled mult t =? k - 1) && (scaled mult (t + 1) =? k)
        && (scaled mult (- t) =? - k) && (scaled mult (- (t + 1)) =? - k - 1)
        && (if l <? 64 then check_steps n radix mult (k + 1) (radix * lo) (radix * hi) e
            else check_steps n radix mult (k + 1) (radix * Z.shiftr lo 6) (radix * (Z.shiftr hi 6 + 1)) (e + 6))
  end.

Definition steps (mult : Z) : nat := Z.to_nat (scaled mult 2048 + 2).
Definition check_radix (radix : Z) : bool :=
  if Z.land radix (radix - 1) =? 0 then true
  else match mul_log2_radix_table !! Z.to_nat (radix - 2) with
       | Some mult => (0 <? mult) && check_steps (steps mult) radix mult 1 radix radix 0
       | None => false
       end.

(** What a step says about the scaled logarithm. *)
Definition step_at (radix mult k : Z) : Prop :=
  ∃ t, 0 ≤ t ∧ 2 ^ t < radix ^ k < 2 ^ (t + 1) ∧
    scaled mult t = k - 1 ∧ scaled mult (t + 1) = k ∧
    scaled mult (- t) = - k ∧ scaled mult (- (t + 1)) = - k - 1.

Lemma check_steps_sound n radix mult k lo hi e :
  0 < radix → 0 ≤ e → 0 < lo → 1 ≤ k → lo * 2 ^ e ≤ radix ^ k ≤ hi * 2 ^ e →
  check_steps n radix mult k lo hi e = true →
  ∀ j, k ≤ j < k + Z.of_nat n → step_at radix mult j.
Proof.
  intros Hr. revert k lo hi e. induction n as [|n IH]; intros k lo hi e He Hlo Hk Hin Hc j Hj; [lia|].
  cbn [check_steps] in Hc. rewrite !andb_true_iff, !Z.ltb_lt, !Z.eqb_eq in Hc.
  destruct Hc as [[[[[[H1 H2] E1] E2] E3] E4] Hc]. rewrite !Z.shiftl_1_l in *.
  pose proof (Z.log2_nonneg lo). pose proof (Z.pow_pos_nonneg 2 e ltac:(lia) He) as Hpe.
  destruct (Z.eq_dec j k) as [->|Hne].
  { exists (Z.log2 lo + e). split_and!; try done; [lia| |].
    - rewrite Z.pow_add_r by lia. apply Z.lt_le_trans with (lo * 2 ^ e); [apply Z.mul_lt_mono_pos_r; lia|lia].
    - replace (Z.log2 lo + e + 1) with (Z.log2 lo + 1 + e) by lia. rewrite (Z.pow_add_r 2 (_ + 1)) by lia.
      apply Z.le_lt_trans with (hi * 2 ^ e); [lia|apply Z.mul_lt_mono_pos_r; lia]. }
  assert (radix ^ (k + 1) = radix * radix ^ k) as Ek by (rewrite Z.add_1_r, Z.pow_succ_r by lia; done).
  destruct (Z.log2 lo <? 64) eqn:El.
  - apply (IH (k + 1) (radix * lo) (radix * hi) e); [done|nia|lia| |exact Hc|lia]. rewrite Ek. nia.
  - apply Z.ltb_ge in El. pose proof (Z.log2_spec lo Hlo) as [Hl2 _].
    assert (2 ^ 64 ≤ lo) by (etransitivity; [|exact Hl2]; apply Z.pow_le_mono_r; lia).
    rewrite !Z.shiftr_div_pow2 in Hc by lia. change (2 ^ 6) with 64 in Hc.
    pose proof (Z.div_mod lo 64 ltac:(lia)). pose proof (Z.mod_pos_bound lo 64 ltac:(lia)).
    pose proof (Z.div_mod hi 64 ltac:(lia)). pose proof (Z.mod_pos_bound hi 64 ltac:(lia)).
    apply (IH (k + 1) (radix * (lo / 64)) (radix * (hi / 64 + 1)) (e + 6)); [lia|nia|lia| |exact Hc|lia].
    rewrite Ek, Z.pow_add_r by lia. change (2 ^ 6) with 64.
    assert (lo / 64 * 64 * 2 ^ e ≤ lo * 2 ^ e) by nia.
    assert (hi * 2 ^ e ≤ (hi / 64 + 1) * 64 * 2 ^ e) by nia. nia.
Qed.

Lemma scaled_mono mult a b : 0 < mult → a ≤ b → scaled mult a ≤ scaled mult b.
Proof.
  intros Hm Hab. unfold scaled, MUL_LOG2_RADIX_BASE_LOG2. rewrite !Z.shiftr_div_pow2 by lia.
  apply Z.div_le_mono; [lia|]. nia.
Qed.

(** The scaled logarithm is the floor where the steps are right. *)
Lemma scaled_floor radix mult a :
  2 ≤ radix → 0 < mult → - 2048 ≤ a ≤ 2047 →
  (∀ k, 1 ≤ k < scaled mult 2048 + 3 → step_at radix mult k) →
  is_floor_log radix a (scaled mult a).
Proof.
  intros Hr Hm Ha Hs. unfold is_floor_log.
  assert (∀ k, 0 ≤ k → 0 < radix ^ k) as Hpos by (intros; apply Z.pow_pos_nonneg; lia).
  assert (scaled mult 0 = 0) as E0 by done.
  pose proof (scaled_mono mult 0 2048 Hm ltac:(lia)) as H2048.
  destruct (Z.leb_spec 0 a).
  - pose proof (scaled_mono mult 0 a Hm ltac:(lia)). pose proof (scaled_mono mult a 2048 Hm ltac:(lia)).
    set (k := scaled mult a) in *. split_and!; [lia| |].
    + destruct (Z.eq_dec k 0) as [->|]; [pose proof (Z.pow_pos_nonneg 2 a); lia|].
      destruct (Hs k) as (t & Ht & [_ Hhi] & Et & _); [lia|].
      destruct (Z.le_gt_cases a t) as [Hle|Hgt]; [pose proof (scaled_mono mult a t Hm Hle); lia|].
      pose proof (Z.pow_le_mono_r 2 (t + 1) a). lia.
    + destruct (Hs (k + 1)) as (t & Ht & [Hlo _] & _ & Et & _); [lia|].
      destruct (Z.le_gt_cases a t) as [Hle|Hgt]; [pose proof (Z.pow_le_mono_r 2 a t); lia|].
      pose proof (scaled_mono mult (t + 1) a Hm ltac:(lia)). lia.
  - assert (scaled mult a < 0) as Hneg.
    { unfold scaled, MUL_LOG2_RADIX_BASE_LOG2. rewrite Z.shiftr_div_pow2 by lia. apply Z.div_lt_upper_bound; nia. }
    assert (- scaled mult 2048 - 1 ≤ scaled mult (- 2048)) as Hlow.
    { unfold scaled, MUL_LOG2_RADIX_BASE_LOG2. rewrite !Z.shiftr_div_pow2 by lia.
      pose proof (Z.div_mod (2048 * mult) (2 ^ 24) ltac:(lia)). pose proof (Z.mod_pos_bound (2048 * mult) (2 ^ 24) ltac:(lia)).
      apply Z.div_le_lower_bound; lia. }
    pose proof (scaled_mono mult (-2048) a Hm ltac:(lia)).
    set (k := scaled mult a) in *. split_and!; [done| |].
    + destruct (Z.eq_dec (- k - 1) 0) as [->|]; [change (radix ^ 0) with (2 ^ 0); apply Z.pow_lt_mono_r; lia|].
      destruct (Hs (- k - 1)) as (t & Ht & [_ Hhi] & _ & _ & Et & _); [lia|].
      destruct (Z.le_gt_cases (- t) a) as [Hle|Hgt]; [pose proof (scaled_mono mult (- t) a Hm Hle); lia|].
      pose proof (Z.pow_le_mono_r 2 (t + 1) (- a)). lia.
    + destruct (Hs (- k)) as (t & Ht & [Hlo _] & _ & _ & _ & Et); [lia|].
      destruct (Z.le_gt_cases (- t) a) as [Hle|Hgt]; [pose proof (Z.pow_le_mono_r 2 (- a) t); lia|].
      pose proof (scaled_mono mult a (- (t + 1)) Hm ltac:(lia)). lia.
Qed.

Lemma table_checked : forallb check_radix (seqZ 2 35) = true.
Proof. vm_compute. reflexivity. Qed.

Lemma table_radix radix :
  2 ≤ radix ≤ 36 → Z.land radix (radix - 1) ≠ 0 →
  ∃ mult, mul_log2_radix_table !! Z.to_nat (radix - 2) = Some mult ∧ 0 < mult ∧
    ∀ k, 1 ≤ k < scaled mult 2048 + 3 → step_at radix mult k.
Proof.
  intros Hr Hl. pose proof table_checked as Hc. rewrite forallb_forall in Hc.
  specialize (Hc radix). unfold check_radix in Hc. destruct (Z.eqb_spec (Z.land radix (radix - 1)) 0); [done|].
  destruct (mul_log2_radix_table !! Z.to_nat (radix - 2)) as [mult|].
  2:{ discriminate Hc. apply list_elem_of_In, elem_of_seqZ. lia. }
  exists mult. assert ((0 <? mult) && check_steps (steps mult) radix mult 1 radix radix 0 = true) as Hch.
  { apply Hc. apply list_elem_of_In, elem_of_seqZ. lia. }
  apply andb_true_iff in Hch as [Hm%Z.ltb_lt Hch]. split_and!; [done|done|]. intros k Hk.
  eapply check_steps_sound; [| | | | |exact Hch|]; [lia|lia|lia|lia|lia|]. unfold steps.
  pose proof (scaled_mono mult 0 2048 Hm ltac:(lia)) as H0. change (scaled mult 0) with 0 in H0. lia.
Qed.

Lemma pow2_floor b a :
  1 ≤ b → is_floor_log (2 ^ b) a (Z.quot (if a <? 0 then a - (b - 1) else a) b).
Proof.
  intros Hb. unfold is_floor_log. destruct (Z.ltb_spec a 0), (Z.leb_spec 0 a); try lia.
  - set (m := - a). set (c := (m + b - 1) / b).
    assert (Z.quot (a - (b - 1)) b = - c) as ->.
    { replace (a - (b - 1)) with (- (m + b - 1)) by lia. rewrite Z.quot_opp_l, Z.quot_div_nonneg by lia. done. }
    pose proof (Z.div_mod (m + b - 1) b ltac:(lia)) as E. pose proof (Z.mod_pos_bound (m + b - 1) b ltac:(lia)).
    fold c in E. rewrite Z.opp_involutive. assert (1 ≤ c) by nia.
    rewrite <-!Z.pow_mul_r by lia. split_and!; [lia|apply Z.pow_lt_mono_r; nia|apply Z.pow_le_mono_r; lia].
  - rewrite Z.quot_div_nonneg by lia. pose proof (Z.div_mod a b ltac:(lia)). pose proof (Z.mod_pos_bound a b ltac:(lia)).
    pose proof (Z.div_pos a b ltac:(lia) ltac:(lia)). rewrite <-!Z.pow_mul_r by lia.
    split_and!; [done|apply Z.pow_le_mono_r; lia|apply Z.pow_lt_mono_r; lia].
Qed.

(** What [mul_log2_radix] returns. *)
Lemma mul_log2_radix_run {S} a radix (s : S) :
  - 2048 ≤ a ≤ 2047 → 2 ≤ radix ≤ 36 → ∃ k, mul_log2_radix a radix s = (Ok k, s) ∧ is_floor_log radix a k.
Proof.
  intros Ha Hr. unfold mul_log2_radix. destruct (Z.eqb_spec (Z.land radix (radix - 1)) 0) as [E|Hl].
  - destruct (radix_pow2 radix Hr E) as (b & Hb & -> & El). unfold clz32. clear E.
    destruct (Z.eqb_spec (2 ^ b) 0); [lia|]. rewrite bind_ret, El. cbv zeta.
    replace (31 - (31 - b)) with b by lia. destruct (Z.eqb_spec b 0); [lia|].
    eexists. split; [done|]. apply pow2_floor; lia.
  - destruct (table_radix radix Hr Hl) as (mult & Hm & Hpos & Hs).
    erewrite bind_run by (apply rd_run; [lia|exact Hm]). eexists. split; [done|].
    apply (scaled_floor radix mult a); try done; lia.
Qed.
