(* ===== verification/DigitsProps.v ===== *)
(** * Integers in a radix: the properties

    The logarithm of the table is the floor it is meant to be, and the integers
    printed are read back. *)
From S2P Require Import Prelude CStd Words CUtils BigIntMp BigIntMpFacts Digits DigitsFacts.

(** C35: for every radix from 2 to 36 and every [a] from -2048 to 2047,
    [mul_log2_radix] returns the floor of [a / log2(radix)], as its comment
    says: the greatest [k] with [radix^k <= 2^a], although it multiplies by a
    rounded constant. *)
Theorem mul_log2_radix_floor {S} a radix (s : S) :
  - 2048 ≤ a ≤ 2047 → 2 ≤ radix ≤ 36 →
  ∃ k, mul_log2_radix a radix s = (Ok k, s) ∧ is_floor_log radix a k.
Proof. apply mul_log2_radix_run. Qed.

Lemma mul_log2_radix_floor_witness :
  - 2048 ≤ -1074 ≤ 2047 ∧ 2 ≤ 10 ≤ 36 ∧
  ∃ k, mul_log2_radix (-1074) 10 tt = (Ok k, tt) ∧ is_floor_log 10 (-1074) k.
Proof. split; [lia|]. split; [lia|]. apply (mul_log2_radix_floor (-1074) 10 tt); lia. Defined.

(** ** Printing *)

(** The number a reader finds in the characters of a numeral. *)
Definition read (radix : Z) (l : list Z) : Z := value radix (js_to_digit <$> l).

Lemma read_digits radix ds : radix ≤ 36 → Forall (in_radix radix) ds → read radix (digit_char <$> ds) = value radix ds.
Proof.
  intros Hr Hds. unfold read. f_equal. induction Hds as [|d ds Hd _ IH]; [done|]. cbn.
  rewrite js_to_digit_char by (unfold in_radix in Hd; lia). f_equal. exact IH.
Qed.

(** What is printed in a buffer that is long enough: the sign, and a numeral
    without a useless 0 that reads back as the absolute value. *)
Definition prints_back (m : Z → M (list Z) Z) (radix n : Z) : Prop :=
  ∃ digits, digits ≠ [] ∧ (digits = [ $"0" ] ∨ head digits ≠ Some ($"0")) ∧ read radix digits = Z.abs n ∧
    let l := (if n <? 0 then [ $"-" ] else []) ++ digits in
    ∀ pre win, (length l ≤ length win)%nat →
      m (Z.of_nat (length pre)) (pre ++ win) = (Ok (Z.of_nat (length l)), pre ++ l ++ drop (length l) win).

Lemma prints_prints_back m radix n :
  2 ≤ radix ≤ 36 → prints m (if n <? 0 then [ $"-" ] else []) radix (Z.abs n) → prints_back m radix n.
Proof.
  intros Hr (ds & Hc & Ev & Hrun). destruct Hc as (Hds & Hne & Hh). exists (digit_char <$> ds). split_and!.
  - by destruct ds.
  - destruct Hh as [-> | Hh]; [by left|right]. destruct ds as [|d ds]; [done|]. cbn in *.
    apply Forall_cons in Hds as [Hd _]. unfold in_radix in Hd. intros [= E].
    assert (d ≠ 0) by congruence. unfold digit_char in E. destruct (Z.ltb_spec d 10); lia.
  - rewrite read_digits by (done || lia). done.
  - cbv zeta. rewrite length_app, length_fmap. intros pre win Hl. rewrite (Hrun pre win Hl). by rewrite <-app_assoc.
Qed.

(** C34: the integer printing functions write, at any place of a buffer, the
    numeral of every integer of their type in their radix, from 2 to 36: a
    minus sign for a negative number, then digits that begin with no useless 0
    and that [js_to_digit] reads back as the absolute value. They return the
    number of characters, need no room beyond them and leave the rest of the
    buffer unchanged. *)
Theorem integer_printing_round_trip u i u' i' radix :
  0 ≤ u < 2 ^ 32 → - 2 ^ 31 ≤ i < 2 ^ 31 → 0 ≤ u' < 2 ^ 64 → - 2 ^ 63 ≤ i' < 2 ^ 63 → 2 ≤ radix ≤ 36 →
  prints_back (λ buf, u32toa buf u) 10 u ∧ prints_back (λ buf, i32toa buf i) 10 i ∧
  prints_back (λ buf, u64toa buf u') 10 u' ∧ prints_back (λ buf, i64toa buf i') 10 i' ∧
  prints_back (λ buf, u64toa_radix buf u' radix) radix u' ∧
  prints_back (λ buf, i64toa_radix buf i' radix) radix i'.
Proof.
  intros Hu Hi Hu' Hi' Hr.
  assert (∀ x, 0 ≤ x → (x <? 0) = false) as Hsign by (intros; by apply Z.ltb_ge).
  split_and!; apply prints_prints_back; try lia; rewrite ?Hsign, ?Z.abs_eq by lia.
  - by apply u32toa_prints.
  - by apply i32toa_prints.
  - by apply u64toa_prints.
  - by apply i64toa_prints.
  - by apply u64toa_radix_prints.
  - by apply i64toa_radix_prints.
Qed.

Lemma integer_printing_round_trip_witness :
  0 ≤ 7 < 2 ^ 32 ∧ - 2 ^ 31 ≤ - 7 < 2 ^ 31 ∧ 0 ≤ 2 ^ 64 - 1 < 2 ^ 64 ∧ - 2 ^ 63 ≤ - 2 ^ 63 < 2 ^ 63 ∧
  2 ≤ 36 ≤ 36 ∧ prints_back (λ buf, i64toa_radix buf (- 2 ^ 63) 36) 36 (- 2 ^ 63).
Proof.
  split; [lia|]. split; [lia|]. split; [lia|]. split; [lia|]. split; [lia|].
  apply (integer_printing_round_trip 7 (-7) (2 ^ 64 - 1) (- 2 ^ 63) 36); lia.
Defined.
