(* ===== verification/BigIntText.v ===== *)
(** * Big integers and text

    [js_bigint_from_string], [js_bigint_to_string1] and the values of big
    integers of [src/vendors/qjs/quickjs/quickjs.c]. A C string is the list of
    its characters, without the terminator. *)
From S2P Require Import Prelude CStd Words CUtils BigIntMp BigInt Digits.

(** ** Values *)

(** A big integer value: short, in the value itself, or a block. *)
Inductive bigint_value : Type :=
  | JS_TAG_SHORT_BIG_INT (v : Z)
  | JS_TAG_BIG_INT (r : bigint).

Definition JS_CompactBigInt (p : bigint) : M JSContext bigint_value :=
  if len p =? 1 then
    v ← rd p 0;
    js_free;;
    ret (JS_TAG_SHORT_BIG_INT (to_int v))
  else ret (JS_TAG_BIG_INT p).

(** A string value; [None] is the exception. *)
Definition js_new_string8_len (buf : list Z) : M JSContext (option (list Z)) :=
  ok ← js_malloc;
  ret (if (ok : bool) then Some buf else None).

(** ** From text *)

Definition JS_LIMB_DIGITS : nat := 9.

Definition js_pow_dec : list Z :=
  [1; 10; 100; 1000; 10000; 100000; 1000000; 10000000; 100000000; 1000000000].

(** [tab[len++] = h], in a block of [size] limbs. *)
Definition append {S} (size : Z) (tab : list Z) (h : Z) : M S (list Z) :=
  if len tab <? size then ret (tab ++ [h]) else throw (Undefined WriteOutOfBounds).

(** [while ( *p == '0') p++;] *)
Definition skip_zeros {S} (text : list Z) (p : Z) : M S Z :=
  loop (Datatypes.S (length text)) (λ p,
    c ← rd text p;
    ret (if c =? $"0" then inl (p + 1) else inr p)) p.

(** The digits of a limb: how many there are, their number and the place after
    them. *)
Fixpoint limb_digits {S} (text : list Z) (radix : Z) (n : nat) (p i v : Z) : M S (Z * Z * Z) :=
  match n with
  | O => ret (i, v, p)
  | Datatypes.S n =>
      x ← rd text p;
      let c := js_to_digit x in
      if c >=? radix then ret (i, v, p)
      else limb_digits text radix n (p + 1) (i + 1) (u32 (u32 (v * 10) + c))
  end.

(** A turn of the loop for the radix 10: [tab] holds the [len] first limbs. *)
Definition decimal_turn {S} (text : list Z) (n_limbs : Z) : Z * list Z → M S (Z * list Z + list Z) :=
  λ '(p, tab),
    '(i, v, p) ← limb_digits text 10 JS_LIMB_DIGITS p 0 0;
    if i =? 0 then ret (inr tab)
    else
      t0 ← rd tab 0;
      if (len tab =? 1) && (t0 =? 0) then ret (inl (p, [v]))
      else
        m ← rd js_pow_dec i;
        let '(tab, h) := js_mp_mul1 tab m v in
        if negb (h =? 0) then
          tab ← append n_limbs tab h;
          ret (inl (p, tab))
        else ret (inl (p, tab)).

(** A power of two: the digit at [p[n_digits - 1 - i]], [i] from 0. *)
Definition put_digit `{BuildConfig} (text : list Z) (p n_digits radix log2_radix i : Z) : M (list Z) unit :=
  x ← rd text (p + (n_digits - 1 - i));
  let c := js_to_digit x in
  c_assert (c <? radix);;
  let bit_pos := u32 (i * log2_radix) in
  let shift := Z.land bit_pos (JS_LIMB_BITS - 1) in
  let pos := bit_pos / JS_LIMB_BITS in
  t ← limb pos;
  wr pos (Z.lor t (u32 (Z.shiftl c shift)));;
  if shift + log2_radix >? JS_LIMB_BITS then
    t ← limb (pos + 1);
    wr (pos + 1) (Z.lor t (Z.shiftr c (JS_LIMB_BITS - shift)))
  else ret tt.

(** The bits that are enough for [n_digits] digits. *)
Definition text_bits (radix n_digits log2_radix : Z) : Z :=
  if radix =? 10 then (n_digits * 27 + 7) / 8 else n_digits * log2_radix.

(** From the two branches on the radix, the block [r] of [n_limbs] limbs filled. *)
Definition read_limbs `{BuildConfig} (text : list Z) (p n_digits radix log2_radix n_limbs : Z) (r : bigint)
    : M JSContext bigint :=
  if radix =? 10 then
    tab ← loop (Datatypes.S (length text)) (decimal_turn text n_limbs) (p, [0]);
    top ← rd tab (len tab - 1);
    if negb (Z.shiftr top (JS_LIMB_BITS - 1) =? 0) then append n_limbs tab 0 else ret tab
  else
    '(_, tab) ← on_tab (replicate (length r) 0)
                  (for_up (Z.to_nat n_digits) 0 (put_digit text p n_digits radix log2_radix));
    ret tab.

Definition js_bigint_from_string `{Malloc, BuildConfig} (str : list Z) (radix : Z) : M JSContext (option bigint) :=
  let text := str ++ [0] in
  c ← rd text 0;
  let '(is_neg, p) := if c =? $"-" then (true, 1) else (false, 0) in
  p ← skip_zeros text p;
  let n_digits := Z.of_nat (length str) - p in
  if n_digits >? JS_BIGINT_MAX_SIZE * JS_LIMB_BITS then
    JS_Throw (RangeError "BigInt is too large to allocate");; ret None
  else
    clz ← clz32 (u32 (radix - 1));
    let log2_radix := 32 - clz in
    let n_limbs := max_int 1 (text_bits radix n_digits log2_radix / JS_LIMB_BITS + 1) in
    r ⇐ js_bigint_new n_limbs;
    r ← read_limbs text p n_digits radix log2_radix n_limbs r;
    r ← js_bigint_normalize r;
    if (is_neg : bool) then
      r1 ← js_bigint_neg r;
      js_free;;
      ret r1
    else ret (Some r).

(** ** To text *)

Definition js_digits_per_limb_table : list Z :=
  [32;20;16;13;12;11;10;10; 9; 9; 8; 8; 8; 8; 8; 7; 7; 7; 7; 7; 7; 7; 6; 6; 6; 6; 6; 6; 6; 6; 6; 6; 6; 6; 6].

Definition js_radix_base_table : list Z := [
 0x00000000; 0xcfd41b91; 0x00000000; 0x48c27395;
 0x81bf1000; 0x75db9c97; 0x40000000; 0xcfd41b91;
 0x3b9aca00; 0x8c8b6d2b; 0x19a10000; 0x309f1021;
 0x57f6c100; 0x98c29b81; 0x00000000; 0x18754571;
 0x247dbc80; 0x3547667b; 0x4c4b4000; 0x6b5a6e1d;
 0x94ace180; 0xcaf18367; 0x0b640000; 0x0e8d4a51;
 0x1269ae40; 0x17179149; 0x1cb91000; 0x23744899;
 0x2b73a840; 0x34e63b41; 0x40000000; 0x4cfa3cc1;
 0x5c13d840; 0x6d91b519; 0x81bf1000 ].

(** The loop for the radices that are no power of two: [tab] holds the limbs
    that are left, [q] what is written in the buffer. *)
Definition radix_turn {S} (radix : Z) (size : nat) : list Z * list Z → M S (list Z * list Z + list Z) :=
  λ '(tab, q),
    n ← strip_zeros tab (length tab);
    let tab := take n tab in
    radix_base ← rd js_radix_base_table (radix - 2);
    t0 ← rd tab 0;
    if (len tab =? 1) && (t0 <? radix_base) then
      if negb (t0 =? 0) then q ← js_u64toa size q t0 radix; ret (inr q) else ret (inr q)
    else if radix_base =? 0 then throw (Undefined BadOperand)
    else
      let '(tab, v) := js_mp_div1 tab radix_base 0 in
      l ← rd js_digits_per_limb_table (radix - 2);
      q ← js_limb_to_a size q v radix (Z.to_nat l);
      ret (inl (tab, q)).

(** The digit [i] in a radix that is a power of two. *)
Definition get_digit {S} (r : bigint) (radix log2_radix i : Z) : M S Z :=
  let bit_pos := u32 (i * log2_radix) in
  let pos := bit_pos / JS_LIMB_BITS in
  let shift := bit_pos mod JS_LIMB_BITS in
  t ← rd r pos;
  let c := Z.shiftr t shift in
  c ← (if (shift + log2_radix >? JS_LIMB_BITS) && (pos + 1 <? len r) then
         t ← rd r (pos + 1); ret (Z.lor c (u32 (Z.shiftl t (JS_LIMB_BITS - shift))))
       else ret c);
  ret (Z.land c (radix - 1)).

(** [for (i = 0; i < n_digits; i++)] *)
Fixpoint put_digits {S} (r : bigint) (radix log2_radix : Z) (size n : nat) (i : Z) (q : list Z) : M S (list Z) :=
  match n with
  | O => ret q
  | Datatypes.S n =>
      c ← get_digit r radix log2_radix i;
      x ← digit_at c;
      q ← push size x q;
      put_digits r radix log2_radix size n (i + 1) q
  end.

(** From the choice of [r] on; [free_tmp] is [js_free(ctx, tmp)]. *)
Definition write_digits (r : bigint) (radix : Z) (is_neg is_binary_radix : bool) (free_tmp : M JSContext unit)
    : M JSContext (option (list Z)) :=
  clz ← clz32 radix;
  let log2_radix := 31 - clz in
  top ← rd r (len r - 1);
  clz ← js_limb_clz top;
  let n_bits := to_int (u32 (len r * JS_LIMB_BITS - clz)) in
  if log2_radix =? 0 then throw (Undefined BadOperand)
  else
    let n_digits := Z.quot (n_bits + log2_radix - 1) log2_radix in
    let size := Z.to_nat (n_digits + (if is_neg then 1 else 0) + 1) in
    ok ← js_malloc;
    if negb ok then free_tmp;; ret None
    else
      q ← push size 0 [];
      q ← (if is_binary_radix then put_digits r radix log2_radix size (Z.to_nat n_digits) 0 q
           else loop (Datatypes.S (32 * length r)) (radix_turn radix size) (r, q));
      q ← (if is_neg then push size ($"-") q else ret q);
      free_tmp;;
      res ← js_new_string8_len (take (length q - 1) q);
      js_free;;
      ret res.

Definition js_bigint_to_string1 `{Malloc} (val : bigint_value) (radix : Z) : M JSContext (option (list Z)) :=
  match val with
  | JS_TAG_SHORT_BIG_INT v =>
      '(l, buf) ← on_tab (replicate 66 0) (i64toa_radix 0 v radix);
      js_new_string8_len (take (Z.to_nat l) buf)
  | JS_TAG_BIG_INT r =>
      t0 ← rd r 0;
      if (len r =? 1) && (t0 =? 0) then js_new_string8_len [ $"0" ]
      else
        let is_binary_radix := Z.land radix (radix - 1) =? 0 in
        s ← js_bigint_sign r;
        if negb (s =? 0) then
          tmp ⇐ js_bigint_neg r;
          write_digits tmp radix true is_binary_radix js_free
        else if negb is_binary_radix then
          tmp ⇐ js_bigint_new (len r);
          write_digits r radix false is_binary_radix js_free
        else write_digits r radix false is_binary_radix (ret tt)
  end.

(** ** Examples *)

#[local] Instance zeros : Malloc := {| fresh_limb := λ _, 0 |}.
#[local] Instance asserts : BuildConfig := with_assertions.

Example to_decimal : result (js_bigint_to_string1 (JS_TAG_BIG_INT [0; 0; u32 (-1)]) 10 no_failure)
  = Ok (Some (chars "-18446744073709551616")).
Proof. vm_compute. reflexivity. Qed.
Example to_octal : result (js_bigint_to_string1 (JS_TAG_BIG_INT [0xffffffff; 0x12345]) 8 no_failure)
  = Ok (Some (chars "11064277777777777")).
Proof. vm_compute. reflexivity. Qed.
Example from_decimal : result (js_bigint_from_string (chars "-18446744073709551616") 10 no_failure)
  = Ok (Some [0; 0; u32 (-1)]).
Proof. vm_compute. reflexivity. Qed.
Example from_octal : result (js_bigint_from_string (chars "0011064277777777777") 8 no_failure)
  = Ok (Some [0xffffffff; 0x12345]).
Proof. vm_compute. reflexivity. Qed.
