(* ===== verification/BigIntToText.v ===== *)
(** * Big integers and their texts: lemmas

    What [js_bigint_to_string1] prints and [js_bigint_from_string] reads. *)
From S2P Require Import Prelude CStd Words CUtils BigIntMp BigIntMpFacts BigIntDiv BigInt BigIntFacts BigIntOps.
From S2P Require Import BigIntDivRem Digits DigitsFacts BigIntText.

(** * Big integers: what is printed *)

(** ** The digits in a power of two *)

Lemma testbit_val l i :
  limbs_ok l → 0 ≤ i →
  Z.testbit (val l) i = Z.testbit (default 0 (l !! Z.to_nat (i / 32))) (i mod 32).
Proof.
  intros Hl. revert i. induction Hl as [|x l Hx Hl IH]; intros i Hi; [by rewrite !Z.bits_0|].
  cbn [val]. rewrite testbit_limb by done. destruct (Z.ltb_spec i 32).
  - by rewrite Z.div_small, Z.mod_small by lia.
  - rewrite IH by lia. pose proof (Z.div_pos (i - 32) 32 ltac:(lia) ltac:(lia)).
    assert (i / 32 = (i - 32) / 32 + 1) as ->.
    { replace i with (i - 32 + 1 * 32) at 1 by lia. by rewrite Z.div_add. }
    assert (i mod 32 = (i - 32) mod 32) as ->.
    { replace i with (i - 32 + 1 * 32) at 1 by lia. by rewrite Z.mod_add. }
    replace (Z.to_nat ((i - 32) / 32 + 1)) with (S (Z.to_nat ((i - 32) / 32))) by lia. done.
Qed.

(** The limb that holds a bit, and the bit of a limb. *)
Lemma bit_place p k : 0 ≤ k < 32 → (32 * p + k) / 32 = p ∧ (32 * p + k) mod 32 = k.
Proof.
  intros Hk. rewrite (Z.mul_comm 32), Z.add_comm. rewrite Z.div_add, Z.mod_add, Z.div_small, Z.mod_small by lia. lia.
Qed.

(** The limbs a digit is read from, put together. *)
Lemma digit_limbs l p k b j :
  limbs_ok l → 0 ≤ p → 0 ≤ k < 32 → 1 ≤ b ≤ 5 → 0 ≤ j < b →
  Z.testbit (val l) (32 * p + k + j) =
  (if k + j <? 32 then Z.testbit (default 0 (l !! Z.to_nat p)) (k + j)
   else Z.testbit (default 0 (l !! Z.to_nat (p + 1))) (k + j - 32)).
Proof.
  intros Hl Hp Hk Hb Hj. rewrite testbit_val by (done || lia). destruct (Z.ltb_spec (k + j) 32).
  - destruct (bit_place p (k + j)) as [Ed Em]; [lia|]. rewrite <-Z.add_assoc. by rewrite Ed, Em.
  - destruct (bit_place (p + 1) (k + j - 32)) as [Ed Em]; [lia|].
    replace (32 * p + k + j) with (32 * (p + 1) + (k + j - 32)) by lia. by rewrite Ed, Em.
Qed.

Lemma limb_fits l i : limbs_ok l → fits 32 (default 0 (l !! i)).
Proof. intros Hl. destruct (l !! i) eqn:E; [by eapply Forall_lookup_1|by unfold fits; cbn]. Qed.

Lemma get_digit_run {S} r b i (s : S) :
  limbs_ok r → 1 ≤ b ≤ 5 → 0 ≤ i → i * b < 32 * len r → i * b < 2 ^ 32 →
  get_digit r (2 ^ b) b i s = (Ok ((val r / (2 ^ b) ^ i) mod 2 ^ b), s).
Proof.
  intros Hr Hb Hi Hpos Hsmall. unfold get_digit, JS_LIMB_BITS, len in *.
  assert (u32 (i * b) = i * b) as -> by (apply wrap_id; unfold fits; nia).
  set (p := i * b / 32). set (k := (i * b) mod 32).
  pose proof (Z.div_mod (i * b) 32 ltac:(lia)) as E. fold p k in E.
  assert (0 ≤ k < 32) as Hk by (by apply Z.mod_pos_bound). assert (0 ≤ p) as Hp by (apply Z.div_pos; nia).
  destruct (lookup_lt_is_Some_2 r (Z.to_nat p) ltac:(lia)) as [t Ht].
  erewrite bind_run by (by apply rd_run). cbv zeta.
  set (t2 := default 0 (r !! Z.to_nat (p + 1))).
  assert (fits 32 t) as Hft by (by eapply Forall_lookup_1). assert (fits 32 t2) as Hft2 by (by apply limb_fits).
  assert (∃ c, (if (k + b >? 32) && (p + 1 <? Z.of_nat (length r)) then
      t0 ← rd r (p + 1); ret (Z.lor (Z.shiftr t k) (u32 (Z.shiftl t0 (32 - k)))) else ret (Z.shiftr t k)) s = (Ok c, s) ∧
      ∀ j, 0 ≤ j < b → Z.testbit c j = if k + j <? 32 then Z.testbit t (k + j) else Z.testbit t2 (k + j - 32)) as (c & Erun & Hc).
  { assert (∀ j, 32 ≤ k + j → Z.testbit t (k + j) = false) as Hhigh by (intros; by apply (testbit_false_fits 32)).
    rewrite Z.gtb_ltb. destruct (Z.ltb_spec 32 (k + b)); [destruct (Z.ltb_spec (p + 1) (Z.of_nat (length r)))|]; cbn [andb].
    - destruct (lookup_lt_is_Some_2 r (Z.to_nat (p + 1)) ltac:(lia)) as [t' Ht'].
      assert (t2 = t') as E2 by (unfold t2; by rewrite Ht'). rewrite <-E2 in Ht'.
      eexists. split; [erewrite bind_run by (apply rd_run; [lia|exact Ht']); done|]. intros j Hj.
      rewrite Z.lor_spec, Z.shiftr_spec, (Z.add_comm j) by lia. unfold u32, wrap.
      rewrite Z.mod_pow2_bits_low, Z.shiftl_spec by lia.
      destruct (Z.ltb_spec (k + j) 32).
      + rewrite (Z.testbit_neg_r t2) by lia. apply orb_false_r.
      + rewrite Hhigh by lia. cbn [orb]. f_equal. lia.
    - eexists. split; [done|]. intros j Hj. rewrite Z.shiftr_spec, (Z.add_comm j) by lia.
      destruct (Z.ltb_spec (k + j) 32); [done|]. rewrite Hhigh by lia.
      unfold t2. rewrite lookup_ge_None_2 by lia. by rewrite Z.bits_0.
    - eexists. split; [done|]. intros j Hj. rewrite Z.shiftr_spec, (Z.add_comm j) by lia.
      destruct (Z.ltb_spec (k + j) 32); [done|lia]. }
  erewrite bind_run by exact Erun. unfold ret. do 2 f_equal. rewrite (land_ones' c b) by lia.
  rewrite <-Z.pow_mul_r, (Z.mul_comm b), <-Z.shiftr_div_pow2 by lia.
  apply Z.bits_inj'. intros j Hj. destruct (Z.lt_ge_cases j b); [|by rewrite !Z.mod_pow2_bits_high by lia].
  rewrite !Z.mod_pow2_bits_low, Z.shiftr_spec, Hc by lia. rewrite E.
  replace (j + (32 * p + k)) with (32 * p + k + j) by lia. rewrite (digit_limbs r p k b j) by done.
  by rewrite Ht.
Qed.

Lemma put_digits_run {S} r b size n i q (s : S) :
  limbs_ok r → 1 ≤ b ≤ 5 → 0 ≤ i → (i + Z.of_nat n - 1) * b < 32 * len r → 32 * len r ≤ 2 ^ 32 →
  (length q + n ≤ size)%nat →
  ∃ ds, put_digits r (2 ^ b) b size n i q s = (Ok ((digit_char <$> ds) ++ q), s) ∧
    Forall (in_radix (2 ^ b)) ds ∧ length ds = n ∧
    value (2 ^ b) ds = (val r / (2 ^ b) ^ i) mod (2 ^ b) ^ Z.of_nat n.
Proof.
  intros Hr Hb. assert (2 ^ 1 ≤ 2 ^ b ≤ 2 ^ 5) as Hp by (split; apply Z.pow_le_mono_r; lia).
  revert i q. induction n as [|n IH]; intros i q Hi Hpos H32 Hl.
  { exists []. split_and!; [done..|]. by rewrite Z.mod_1_r. }
  cbn [put_digits]. erewrite bind_run by (apply get_digit_run; [done|done|done|nia|nia]).
  set (d := (val r / (2 ^ b) ^ i) mod 2 ^ b). assert (0 ≤ d < 2 ^ b) as Hd by (apply Z.mod_pos_bound; lia).
  erewrite bind_run by (apply digit_at_run; lia). erewrite bind_run by (apply push_run; lia).
  destruct (IH (i + 1) (digit_char d :: q)) as (ds & E & Hds & Hld & Ev); [lia|nia|done|cbn; lia|].
  exists (ds ++ [d]). split_and!.
  - rewrite E, fmap_app, <-app_assoc. done.
  - apply Forall_app. split; [done|by constructor].
  - rewrite length_app. cbn. lia.
  - rewrite value_snoc, Ev, Nat2Z.inj_succ, Z.pow_succ_r by lia.
    pose proof (Z.pow_pos_nonneg (2 ^ b) i ltac:(lia) Hi).
    rewrite Z.rem_mul_r by (lia || apply Z.pow_pos_nonneg; lia).
    rewrite Z.add_1_r, Z.pow_succ_r, (Z.mul_comm (2 ^ b) (_ ^ i)), <-Z.div_div by lia. unfold d. lia.
Qed.

(** ** The digits in another radix *)

Definition check_base (radix : Z) : bool :=
  match js_radix_base_table !! Z.to_nat (radix - 2), js_digits_per_limb_table !! Z.to_nat (radix - 2) with
  | Some base, Some l =>
      (Z.land radix (radix - 1) =? 0) || (1 <=? l) && (l <=? 32) && (base =? radix ^ l) && (base <? 2 ^ 32)
  | _, _ => false
  end.

Lemma bases_checked : forallb check_base (seqZ 2 35) = true.
Proof. vm_compute. reflexivity. Qed.

Lemma base_run radix :
  2 ≤ radix ≤ 36 → Z.land radix (radix - 1) ≠ 0 →
  ∃ base l, js_radix_base_table !! Z.to_nat (radix - 2) = Some base ∧
    js_digits_per_limb_table !! Z.to_nat (radix - 2) = Some (Z.of_nat l) ∧
    base = radix ^ Z.of_nat l ∧ (1 ≤ l ≤ 32)%nat ∧ base < B.
Proof.
  intros Hr Hl. pose proof bases_checked as Hc. rewrite forallb_forall in Hc.
  specialize (Hc radix ltac:(apply list_elem_of_In, elem_of_seqZ; lia)). unfold check_base in Hc.
  destruct (js_radix_base_table !! _) as [base|]; [|done].
  destruct (js_digits_per_limb_table !! _) as [l|]; [|done].
  destruct (Z.eqb_spec (Z.land radix (radix - 1)) 0); [done|]. cbn [orb] in Hc.
  rewrite !andb_true_iff, !Z.leb_le, Z.eqb_eq, Z.ltb_lt in Hc.
  exists base, (Z.to_nat l). rewrite Z2Nat.id by lia. unfold B. split_and!; try done; lia.
Qed.

Lemma radix_loop_run {S} radix size fuel tab q nx (s : S) :
  2 ≤ radix ≤ 36 → Z.land radix (radix - 1) ≠ 0 →
  wf tab → 0 < val tab < 2 ^ Z.of_nat fuel → canonical radix nx → value radix nx = val tab →
  (length nx + length q ≤ size)%nat →
  loop fuel (radix_turn radix size) (tab, q) s = (Ok ((digit_char <$> nx) ++ q), s).
Proof.
  intros Hr Hnp. destruct (base_run radix Hr Hnp) as (base & l & Eb & El & -> & Hl & HB).
  revert tab q nx. induction fuel as [|fuel IH]; intros tab q nx Hwf Hx Hc Ev Hsz.
  { change (2 ^ Z.of_nat 0) with 1 in Hx. lia. }
  cbn [loop]. unfold radix_turn at 1. rewrite bind_bind.
  destruct (strip_zeros_run S tab [] (length tab) (proj1 Hwf) eq_refl) as (t & v & Es & (zs & Ez) & Et & Hv).
  { destruct Hwf as [_ Hne]. destruct tab; [done|cbn; lia]. }
  rewrite app_nil_r in Es. erewrite bind_run by apply Es.
  assert (take (Datatypes.S (length t)) tab = t ++ [v]) as ->.
  { rewrite Ez, cons_middle, app_assoc. apply take_app_length'. rewrite length_app. cbn. lia. }
  assert (limbs_ok (t ++ [v])) as Hok.
  { destruct Hwf as [Hok _]. rewrite Ez, cons_middle, app_assoc in Hok. by apply Forall_app in Hok as [? _]. }
  rewrite <-Et in *. clear Es Ez Et Hwf tab zs. set (tab := t ++ [v]) in *.
  rewrite bind_bind. erewrite bind_run by (apply rd_run; [lia|exact Eb]).
  assert (∃ t0, tab !! 0%nat = Some t0 ∧ ((len tab =? 1) && (t0 <? radix ^ Z.of_nat l) = true ∧ val tab = t0 ∧ t0 < radix ^ Z.of_nat l ∨
    (len tab =? 1) && (t0 <? radix ^ Z.of_nat l) = false ∧ radix ^ Z.of_nat l ≤ val tab)) as (t0 & Ht0 & Hcase).
  { unfold tab in *. destruct t as [|x t]; unfold len; cbn [app length].
    - exists v. split; [done|]. 
      destruct (Z.ltb_spec v (radix ^ Z.of_nat l)); [left|right]; split; try done; cbn [app val]; lia.
    - exists x. split; [done|right]. destruct Hv as [|Hv]; [done|]. split; [by rewrite andb_false_iff; left; apply Z.eqb_neq; rewrite length_app; cbn; lia|].
      apply Forall_app in Hok as [Hok [Hfv _]%Forall_cons].
      change (x :: t ++ [v]) with ((x :: t) ++ [v]). rewrite val_snoc. unfold fits in Hfv.
      pose proof (val_range (x :: t) Hok). cbn [length] in *. rewrite Bn_S in *. pose proof (Bn_pos (length t)). nia. }
  rewrite bind_bind. erewrite bind_run by (apply rd_run; [done|exact Ht0]).
  destruct Hcase as [(-> & E0 & Hlt)|[-> Hbig]].
  - destruct (Z.eqb_spec t0 0); [lia|]. cbn [negb]. rewrite bind_bind.
    assert (t0 < 2 ^ 64) as Ht64.
    { assert (fits 32 t0) as Hf by (by eapply Forall_lookup_1). unfold fits in Hf. lia. }
    pose proof (value_range radix ltac:(lia) nx (proj1 Hc)) as Hvr.
    assert (length nx ≤ l)%nat as Hlen.
    { apply (canonical_length radix); [lia|done|lia|lia]. }
    destruct (js_u64toa_run radix t0 (length nx) size q s) as (ds & E & Hcd & Evd & _);
      [done|lia|done| |lia|].
    { destruct Hc as (_ & Hne & _). destruct nx; [done|cbn in *; lia]. }
    erewrite bind_run by exact E. assert (ds = nx) as -> by (apply (canonical_unique radix); [lia|done|done|lia]). done.
  - assert (0 < radix ^ Z.of_nat l) by (apply pow_pos; lia).
    destruct (Z.eqb_spec (radix ^ Z.of_nat l) 0); [lia|].
    destruct (js_mp_div1_spec tab (radix ^ Z.of_nat l) 0 Hok ltac:(lia) HB) as (res & rm & -> & Hres & Hlr & Hrm & Ed).
    rewrite Z.mul_0_r, Z.add_0_r in Ed.
    rewrite bind_bind. erewrite bind_run by (apply rd_run; [lia|exact El]). rewrite Nat2Z.id.
    assert (val res ≠ 0) as Hne by (intros E; rewrite E in Ed; lia).
    pose proof (val_range res Hres) as Hrr.
    destruct (numeral radix (val res) ltac:(lia) ltac:(lia)) as (nr & Hcr & Evr).
    assert (length nr + l ≤ length nx)%nat by (apply (longer_numeral radix); [lia|done|lia|done|lia]).
    destruct (js_limb_to_a_run radix rm l size q s) as (ds & E & Hds & Hld & Evd); [done|lia|lia|].
    rewrite Z.mod_small in Evd by lia. erewrite bind_bind, bind_run by exact E. rewrite bind_ret.
    assert (nx = nr ++ ds) as En.
    { apply (canonical_unique radix); [lia|done|apply canonical_app; try done; lia|].
      rewrite value_app, Evr, Evd, Hld, Ev by lia. lia. }
    rewrite (IH res ((digit_char <$> ds) ++ q) nr); [|split; [done|by intros ->]| |done|done|rewrite length_app, length_fmap, Hld; lia].
    { by rewrite En, fmap_app, <-app_assoc. }
    split; [lia|]. rewrite Nat2Z.inj_succ, Z.pow_succ_r in Hx by lia.
    assert (2 ^ 1 ≤ radix ^ Z.of_nat l); [|nia]. etransitivity; [apply (Z.pow_le_mono_l _ radix); lia|].
    apply Z.pow_le_mono_r; lia.
Qed.

(** ** The text of a number *)

(** The numeral of [x] in a radix, with its sign. *)
Definition text_of (radix x : Z) (l : list Z) : Prop :=
  ∃ ds, canonical radix ds ∧ value radix ds = Z.abs x ∧
    l = (if x <? 0 then [ $"-" ] else []) ++ (digit_char <$> ds).

Lemma log2_limbs l w :
  limbs_ok l → 0 < w → Z.log2 (val l + Bn (length l) * w) = 32 * Z.of_nat (length l) + Z.log2 w.
Proof.
  intros Hl Hw. pose proof (val_range l Hl). pose proof (Bn_pos (length l)).
  pose proof (Z.log2_spec w Hw) as [Hlo Hhi]. pose proof (Z.log2_nonneg w).
  rewrite Z.pow_succ_r in Hhi by lia.
  apply Z.log2_unique; [lia|]. rewrite Z.pow_succ_r, Z.pow_add_r, <-Bn_pow2 by lia. nia.
Qed.

(** The number of bits: the high limb of a positive normal form may be 0. *)
Lemma number_of_bits {S} r (s : S) :
  normal r → 0 < sval r →
  ∃ v k, (∀ c : JSContext, rd r (len r - 1) c = (Ok v, c)) ∧ (∀ c : JSContext, js_limb_clz v c = (Ok k, c)) ∧
    len r * 32 - k = Z.log2 (sval r) + 1.
Proof.
  intros [Hwf Hmin] Hpos. destruct (wf_snoc r Hwf) as (l & v & -> & Hl & Hv).
  exists v. pose proof (negative_sval _ Hwf) as Hn. unfold negative in Hn. rewrite top_snoc in Hn.
  assert ((2 ^ 31 <=? v) = false) as Hsm by (rewrite Hn; apply Z.ltb_ge; lia).
  rewrite sval_snoc, Hsm in *. apply Z.leb_gt in Hsm. unfold fits in Hv.
  pose proof (val_range l Hl) as Hvl. pose proof (Bn_pos (length l)) as HB.
  exists (if v =? 0 then 32 else 31 - Z.log2 v). split_and!.
  - intros c. unfold len. rewrite length_app. apply rd_app. cbn. lia.
  - intros c. unfold js_limb_clz, clz32. by destruct (Z.eqb_spec v 0).
  - unfold len. rewrite length_app. cbn [length]. symmetry. destruct (Z.eqb_spec v 0) as [->|Hv0].
    + destruct Hmin as [H1|(l' & w & v' & E & Hne)].
      { rewrite length_app in H1. cbn in H1. destruct l; [cbn in Hpos; lia|cbn in H1; lia]. }
      replace (l' ++ [w; v']) with ((l' ++ [w]) ++ [v']) in E by (by rewrite <-app_assoc).
      apply app_inj_tail in E as [-> <-]. rewrite val_snoc, length_app, Nat.add_1_r, Bn_S in *.
      apply Forall_app in Hl as [Hl' [Hw _]%Forall_cons]. unfold fits in Hw. pose proof (val_range l' Hl').
      pose proof (Bn_pos (length l')). destruct (Z.leb_spec (2 ^ 31) w); [|done].
      assert (Z.log2 w = 31) as E by (apply Z.log2_unique; [lia|]; unfold Z.succ; cbn; lia).
      rewrite Z.mul_0_r, Z.add_0_r, log2_limbs, E by (done || lia). lia.
    + rewrite log2_limbs by (done || lia). lia.
Qed.

Lemma new_string_last text size :
  gives 1 (res ← js_new_string8_len text; js_free;; ret res) size (λ s, s = text).
Proof.
  intros c. unfold js_new_string8_len. rewrite bind_bind.
  destruct (js_malloc_run c) as (b & c1 & E & ((u & Eu) & Hl & Hp) & Hg & Hb).
  erewrite bind_run by exact E. rewrite bind_ret.
  destruct (js_free_run c1) as (c2 & E2 & ((u2 & Eu2) & Hl2 & _) & Hp2). erewrite bind_run by exact E2.
  exists (if b then Some text else None), c2. split_and!; [done|exists (u ++ u2); by rewrite Eu, Eu2, app_assoc| |].
  - rewrite Hp2. destruct b; split; try done; [lia|auto|lia].
  - intros Hgr _. rewrite Hp2, (Hg Hgr). split; [done|auto].
Qed.

(** The digits are written, and fit. *)
Lemma digits_written {S} r radix ds q size (s : S) :
  2 ≤ radix ≤ 36 → normal r → 0 < sval r → 32 * len r < 2 ^ 31 →
  canonical radix ds → value radix ds = sval r →
  let n_digits := (Z.log2 (sval r) + Z.log2 radix) / Z.log2 radix in
  (length q + Z.to_nat n_digits ≤ size)%nat →
  (length ds ≤ Z.to_nat n_digits)%nat ∧
  (if Z.land radix (radix - 1) =? 0
   then put_digits r radix (Z.log2 radix) size (Z.to_nat n_digits) 0 q
   else loop (Datatypes.S (32 * length r)) (radix_turn radix size) (r, q)) s
  = (Ok ((digit_char <$> ds) ++ q), s).
Proof.
  intros Hr Hn Hpos Hlen Hc Ev n_digits Hsz. pose proof (negative_sval r (proj1 Hn)) as Hneg.
  assert (val r = sval r) as Eval.
  { unfold sval. rewrite Hneg. destruct (Z.ltb_spec (sval r) 0); lia. }
  assert (1 ≤ Z.log2 radix) as Hb by (apply (Z.log2_le_mono 2); lia).
  destruct (bin_digits (Z.log2 radix) (sval r)) as (Hl1 & Hlo & Hhi); [done|lia|]. fold n_digits in Hl1, Hlo, Hhi.
  pose proof (Z.log2_spec radix ltac:(lia)) as [Hr2 _].
  assert (length ds ≤ Z.to_nat n_digits)%nat as Hld.
  { apply (canonical_length radix); [lia|done| |lia]. rewrite Ev, Z2Nat.id by lia.
    eapply Z.lt_le_trans; [exact Hhi|]. apply Z.pow_le_mono_l. lia. }
  split; [done|]. pose proof (sval_range r (proj1 Hn)) as Hrange. rewrite Bn_pow2 in Hrange. unfold len in *.
  destruct (Z.eqb_spec (Z.land radix (radix - 1)) 0) as [E|Hnp].
  - destruct (radix_pow2 radix Hr E) as (b & Hb5 & -> & El).
    assert (n_digits = (Z.log2 (sval r) + b) / b) as End by (unfold n_digits; by rewrite El). rewrite El in *.
    assert (Z.log2 (sval r) < 32 * Z.of_nat (length r)) by (apply Z.log2_lt_pow2; lia).
    pose proof (Z.div_mod (Z.log2 (sval r) + b) b ltac:(lia)) as Edm. rewrite <-End in Edm. pose proof (Z.mod_pos_bound (Z.log2 (sval r) + b) b ltac:(lia)).
    destruct (put_digits_run r b size (Z.to_nat n_digits) 0 q s) as (ds' & E' & Hds' & Hl' & Ev').
    { apply Hn. } { done. } { done. } { unfold len. rewrite Z2Nat.id by lia. nia. } { unfold len. lia. } { done. }
    rewrite E'. rewrite Z.pow_0_r, Z.div_1_r, Z2Nat.id, Eval, Z.mod_small in Ev' by lia.
    assert (ds' = ds) as -> ; [|done]. apply (canonical_unique (2 ^ b)); [lia| |done|congruence].
    apply canonical_intro; [lia|done|intros ->; cbn in Hl'; lia|]. rewrite Hl', Z2Nat.id, Ev' by lia. done.
  - apply radix_loop_run; [done|done|apply Hn| |done|congruence|lia].
    rewrite Eval. split; [done|]. eapply Z.lt_le_trans with (2 ^ (32 * Z.of_nat (length r))); [lia|].
    apply Z.pow_le_mono_r; lia.
Qed.

Lemma write_digits_gives r radix (neg : bool) k free_tmp x size :
  2 ≤ radix ≤ 36 → normal r → 0 < sval r → 32 * len r < 2 ^ 31 →
  (∀ c, ∃ c', free_tmp c = (Ok tt, c') ∧ after c c' (- k)) → fails (A := list Z) k (free_tmp;; ret None) →
  sval r = Z.abs x → neg = (x <? 0) →
  gives k (write_digits r radix neg (Z.land radix (radix - 1) =? 0) free_tmp) size (text_of radix x).
Proof.
  intros Hr Hn Hpos Hlen Hfree Hfails Ex Eneg. unfold write_digits.
  destruct (numeral radix (sval r) ltac:(lia) ltac:(lia)) as (ds & Hc & Ev).
  assert (clz32 (S := JSContext) radix = ret (31 - Z.log2 radix)) as ->.
  { unfold clz32. by destruct (Z.eqb_spec radix 0); [lia|]. }
  apply gives_pure with (31 - Z.log2 radix); [done|]. cbv zeta.
  replace (31 - (31 - Z.log2 radix)) with (Z.log2 radix) by lia.
  assert (1 ≤ Z.log2 radix) as Hb by (apply (Z.log2_le_mono 2); lia).
  destruct (number_of_bits r tt Hn Hpos) as (v & kz & Hv & Hk & Ebits).
  eapply gives_pure; [exact Hv|]. eapply gives_pure; [exact Hk|]. unfold JS_LIMB_BITS. rewrite Ebits.
  pose proof (Z.log2_nonneg (sval r)).
  assert (Z.log2 (sval r) + 1 ≤ 32 * len r) as Hlog.
  { pose proof (sval_range r (proj1 Hn)) as Hrange. rewrite Bn_pow2 in Hrange. unfold len.
    assert (Z.log2 (sval r) < 32 * Z.of_nat (length r)) by (apply Z.log2_lt_pow2; lia). lia. }
  assert (to_int (u32 (Z.log2 (sval r) + 1)) = Z.log2 (sval r) + 1) as ->.
  { assert (u32 (Z.log2 (sval r) + 1) = Z.log2 (sval r) + 1) as -> by (apply wrap_id; unfold fits; lia).
    apply to_int_id. unfold INT_MIN, INT_MAX. lia. }
  destruct (Z.eqb_spec (Z.log2 radix) 0); [lia|].
  replace (Z.log2 (sval r) + 1 + Z.log2 radix - 1) with (Z.log2 (sval r) + Z.log2 radix) by lia.
  rewrite Z.quot_div_nonneg by lia. set (n_digits := _ / _).
  destruct (bin_digits (Z.log2 radix) (sval r)) as [Hl1 _]; [done|lia|]. fold n_digits in Hl1.
  set (size' := Z.to_nat _). apply gives_malloc; [|done].
  assert (size' = (Z.to_nat n_digits + (if neg then 1 else 0) + 1)%nat) as Esz by (unfold size'; destruct neg; lia).
  apply gives_pure with [0]; [intros c; apply push_run; cbn; lia|].
  eapply gives_pure; [intros c; apply (digits_written r radix ds [0] size' c); try done; cbn; lia|].
  destruct (digits_written r radix ds [0] size' tt) as [Hld _]; try done; [cbn; lia|].
  apply gives_pure with ((if neg then [ $"-" ] else []) ++ (digit_char <$> ds) ++ [0]).
  { intros c. destruct neg; [|done]. apply push_run. rewrite length_app, length_fmap. cbn. fold n_digits in Hld. lia. }
  apply (gives_step _ (- k) free_tmp (λ _, True)).
  { intros c. destruct (Hfree c) as (c' & ? & ?). by exists tt, c'. }
  intros _ _. replace (k + 1 + - k) with 1 by lia. rewrite app_assoc, length_app. cbn [length].
  rewrite Nat.add_sub, take_app_length. eapply gives_mono; [apply new_string_last|reflexivity|].
  intros l ->. exists ds. split_and!; [done|congruence|by rewrite Eneg].
Qed.

(** The opposite of a number has at most one limb more. *)
Lemma opposite_len a r : wf a → normal r → sval r = - sval a → len r ≤ len a + 1.
Proof.
  intros Ha Hr E. pose proof (sval_range a Ha) as Hra. assert (length r ≤ S (length a))%nat; [|unfold len; lia].
  apply minimal_size; [done|lia|]. rewrite E, Bn_S. unfold B. lia.
Qed.

Lemma js_bigint_to_string1_gives `{Malloc} a radix :
  2 ≤ radix ≤ 36 → normal a → len a ≤ 2 * JS_BIGINT_MAX_SIZE →
  gives 0 (js_bigint_to_string1 (JS_TAG_BIG_INT a) radix) (len a) (text_of radix (sval a)).
Proof.
  intros Hr Ha Hlen. unfold js_bigint_to_string1. pose proof (wf_len a (proj1 Ha)).
  change (2 * JS_BIGINT_MAX_SIZE) with 65536 in Hlen.
  destruct (lookup_lt_is_Some_2 a 0 ltac:(unfold len in *; lia)) as [t0 Ht0].
  eapply gives_pure; [intros c; by apply rd_run|].
  destruct ((len a =? 1) && (t0 =? 0)) eqn:Ez.
  { apply andb_true_iff in Ez as [E1%Z.eqb_eq ->%Z.eqb_eq].
    assert (a = [0]) as -> by (destruct a as [|? [|]]; unfold len in E1; cbn in *; congruence || lia).
    intros c. unfold js_new_string8_len. destruct (js_malloc_run c) as (b & c1 & E & (Hu & Hl & Hp) & Hg & Hb).
    erewrite bind_run by exact E. exists (if b then Some [ $"0" ] else None), c1. split_and!; [done|done| |].
    - destruct b; (split; [|lia]); [|by apply Hb]. exists [0]. split_and!; [by apply canonical_one; [lia|split; lia]|done|done].
    - intros Hgr _. rewrite (Hg Hgr). split; [done|auto]. }
  assert (sval a ≠ 0) as Hnz.
  { intros E%sval_zero; [|done]. subst a. by injection Ht0 as <-. }
  cbv zeta. eapply gives_pure; [intros c; apply js_bigint_sign_run, Ha|].
  rewrite (negative_sval a (proj1 Ha)). destruct (Z.ltb_spec (sval a) 0); cbn [b2l Z.eqb negb].
  - intros c. destruct (js_bigint_neg_computes a (proj1 Ha) c) as (r & c1 & E & (u & Eu) & Hres & Hg).
    unfold non_null. erewrite bind_run by exact E. destruct r as [r|].
    + destruct Hres as [[Hrn Ev] Hl]. pose proof (opposite_len a r (proj1 Ha) Hrn Ev).
      destruct (write_digits_gives r radix true 1 js_free (sval a) (len a) Hr Hrn) with (c := c1)
        as (s & c2 & E2 & (u' & Eu') & Hres & Hg2); [lia|lia| |apply fails_free, fails_ret|lia| |].
      { intros c'. destruct (js_free_run c') as (c2 & ? & ? & _). eauto. }
      { symmetry. by apply Z.ltb_lt. }
      exists s, c2. split_and!; [done|exists (u ++ u'); by rewrite Eu, Eu', app_assoc| |].
      * destruct s; (split; [apply Hres|destruct Hres; lia]).
      * intros Hgr Hs. destruct (Hg Hgr Hs) as [_ Hp]. destruct Hg2 as [? ->]; [by eapply granted_suffix|done|done].
    + destruct Hres. exists None, c1. split_and!; [done|eauto|done|lia|intros Hgr Hs; by destruct (Hg Hgr Hs)..].
  - assert (false = (sval a <? 0)) as Es by (symmetry; apply Z.ltb_ge; lia).
    destruct (Z.land radix (radix - 1) =? 0) eqn:Eb; cbn [negb]; rewrite <-Eb.
    + apply write_digits_gives; try done; [lia|lia| |apply fails_ret|lia].
      intros c. exists c. split; [done|apply after_refl].
    + apply gives_new; [lia|]. intros r _ _.
      apply write_digits_gives; try done; [lia|lia| | |lia|by rewrite Eb].
      * intros c'. destruct (js_free_run c') as (c2 & ? & ? & _). eauto.
      * apply fails_free, fails_ret.
Qed.

(** * Big integers: what is read *)

(** ** Characters *)

(** The digits of a radix, as characters, and their number. *)
Definition is_digit (radix c : Z) : Prop := 0 ≤ js_to_digit c < radix.
Definition number (radix : Z) (cs : list Z) : Z := value radix (js_to_digit <$> cs).

Lemma js_to_digit_range c : 0 ≤ js_to_digit c ≤ 36.
Proof.
  unfold js_to_digit. rewrite !Z.geb_leb.
  repeat match goal with |- context [if ?b then _ else _] => destruct b eqn:?E end;
    rewrite ?andb_true_iff, ?Z.leb_le in *; lia.
Qed.

Lemma is_digit_intro radix c : js_to_digit c < radix → is_digit radix c.
Proof. intros. pose proof (js_to_digit_range c). split; lia. Qed.

Lemma number_in_radix radix cs : Forall (is_digit radix) cs → Forall (in_radix radix) (js_to_digit <$> cs).
Proof. intros H. apply Forall_fmap. exact H. Qed.

Lemma number_app radix cs cs' :
  2 ≤ radix → number radix (cs ++ cs') = number radix cs * radix ^ Z.of_nat (length cs') + number radix cs'.
Proof. intros. unfold number. by rewrite fmap_app, value_app, length_fmap. Qed.

Lemma number_range radix cs :
  2 ≤ radix → Forall (is_digit radix) cs → 0 ≤ number radix cs < radix ^ Z.of_nat (length cs).
Proof.
  intros Hr Hcs. pose proof (value_range radix Hr _ (number_in_radix radix cs Hcs)) as H.
  by rewrite length_fmap in H.
Qed.

Lemma number_zeros radix n cs : 2 ≤ radix → number radix (replicate n ($"0") ++ cs) = number radix cs.
Proof.
  intros Hr. rewrite number_app by done. assert (number radix (replicate n ($"0")) = 0) as ->; [|lia].
  induction n as [|n IH]; [done|]. rewrite replicate_S_end, number_app, IH by done. done.
Qed.


Lemma skip_zeros_loop {S} text fuel pre n c rest (s : S) :
  c ≠ $"0" → text = pre ++ replicate n ($"0") ++ c :: rest → (n < fuel)%nat →
  loop fuel (λ p, x ← rd text p; ret (if x =? $"0" then inl (p + 1) else inr p)) (Z.of_nat (length pre)) s
  = (Ok (Z.of_nat (length pre + n)), s).
Proof.
  intros Hc. revert fuel pre. induction n as [|n IH]; intros fuel pre Et Hf; (destruct fuel as [|fuel]; [lia|]).
  - cbn [loop]. rewrite bind_bind. erewrite bind_run by (rewrite Et; by apply rd_app). rewrite bind_ret.
    destruct (Z.eqb_spec c ($"0")); [done|]. by rewrite Nat.add_0_r.
  - cbn [loop]. rewrite bind_bind. erewrite bind_run by (rewrite Et; by apply rd_app). rewrite bind_ret.
    replace (Z.of_nat (length pre) + 1) with (Z.of_nat (length (pre ++ [ $"0" ]))) by (rewrite length_app; cbn; lia).
    change (48 =? 48) with true. cbv beta iota. rewrite (IH fuel (pre ++ [ $"0" ])); [|by rewrite Et, <-app_assoc|lia].
    unfold ret. rewrite length_app. cbn [length]. do 2 f_equal. lia.
Qed.

(** The digits of a limb: at most nine, as many as there are. *)
Lemma limb_digits_run {S} n pre cs i v (s : S) :
  Forall (is_digit 10) cs → 0 ≤ v < 10 ^ Z.of_nat i → (i + n ≤ 9)%nat →
  limb_digits (pre ++ cs ++ [0]) 10 n (Z.of_nat (length pre)) (Z.of_nat i) v s
  = (Ok (Z.of_nat (i + length (take n cs)), v * 10 ^ Z.of_nat (length (take n cs)) + number 10 (take n cs),
         Z.of_nat (length pre + length (take n cs))), s).
Proof.
  revert pre cs i v. induction n as [|n IH]; intros pre cs i v Hcs Hv Hi; cbn [limb_digits].
  { rewrite take_0. cbn [length]. rewrite !Nat.add_0_r. unfold number, value. cbn. by rewrite Z.mul_1_r, Z.add_0_r. }
  destruct cs as [|c cs].
  - erewrite bind_run by (by apply rd_app). cbn [take length].
    rewrite !Nat.add_0_r. unfold number, value. cbn. by rewrite Z.mul_1_r, Z.add_0_r.
  - apply Forall_cons in Hcs as [Hc Hcs]. cbn [app]. erewrite bind_run by (by apply rd_app). cbv zeta.
    unfold is_digit in Hc. rewrite Z.geb_leb. destruct (Z.leb_spec 10 (js_to_digit c)); [lia|].
    assert (10 ^ Z.of_nat i ≤ 10 ^ 8) by (apply Z.pow_le_mono_r; lia).
    assert (u32 (u32 (v * 10) + js_to_digit c) = v * 10 + js_to_digit c) as ->.
    { assert (u32 (v * 10) = v * 10) as -> by (apply wrap_id; unfold fits; lia). apply wrap_id. unfold fits. lia. }
    replace (Z.of_nat (length pre) + 1) with (Z.of_nat (length (pre ++ [c]))) by (rewrite length_app; cbn; lia).
    replace (Z.of_nat i + 1) with (Z.of_nat (Datatypes.S i)) by lia.
    replace (pre ++ c :: cs ++ [0]) with ((pre ++ [c]) ++ cs ++ [0]) by (by rewrite <-app_assoc).
    rewrite IH; [|done|rewrite Nat2Z.inj_succ, Z.pow_succ_r by lia; lia|lia]. cbn [take length].
    rewrite !Nat2Z.inj_succ, Z.pow_succ_r by lia.
    assert (number 10 (c :: take n cs) = js_to_digit c * 10 ^ Z.of_nat (length (take n cs)) + number 10 (take n cs)) as ->.
    { change (c :: take n cs) with ([c] ++ take n cs). rewrite number_app by lia. unfold number at 1, value. cbn. lia. }
    do 2 f_equal. f_equal; [f_equal; lia|f_equal; rewrite length_app; cbn; lia].
Qed.

(** ** Decimal text *)

Definition n_bits_of (radix : Z) (n : nat) : Z := text_bits radix (Z.of_nat n) (Z.log2 (radix - 1) + 1).
Definition n_limbs_of (radix : Z) (n : nat) : Z := max_int 1 (n_bits_of radix n / 32 + 1).

Lemma max_int_max a b : max_int a b = Z.max a b.
Proof. unfold max_int. rewrite Z.gtb_ltb. destruct (Z.ltb_spec b a); lia. Qed.

(** The bits are enough: [10^8 <= 2^27]. *)
Lemma decimal_bits n : 10 ^ Z.of_nat n ≤ 2 ^ n_bits_of 10 n.
Proof.
  unfold n_bits_of, text_bits. cbn [Z.eqb Pos.eqb]. set (m := (_ + 7) / 8).
  pose proof (Z.div_mod (Z.of_nat n * 27 + 7) 8 ltac:(lia)) as E. fold m in E.
  pose proof (Z.mod_pos_bound (Z.of_nat n * 27 + 7) 8 ltac:(lia)).
  apply Z.nlt_ge. intros Hlt.
  assert ((2 ^ m) ^ 8 < (10 ^ Z.of_nat n) ^ 8) as Hlt8 by (apply Z.pow_lt_mono_l; [lia|split; [apply Z.pow_nonneg|]; lia]).
  rewrite <-(Z.pow_mul_r 2 m 8), <-(Z.pow_mul_r 10 (Z.of_nat n) 8), (Z.mul_comm (Z.of_nat n)) in Hlt8 by lia.
  rewrite (Z.pow_mul_r 10 8) in Hlt8 by lia.
  assert ((10 ^ 8) ^ Z.of_nat n ≤ (2 ^ 27) ^ Z.of_nat n) by (apply Z.pow_le_mono_l; lia).
  assert ((2 ^ 27) ^ Z.of_nat n ≤ 2 ^ (m * 8)); [|lia].
  rewrite <-Z.pow_mul_r by lia. apply Z.pow_le_mono_r; lia.
Qed.

(** Limbs whose highest is not 0, but for the number 0. *)
Definition stripped (tab : list Z) : Prop :=
  wf tab ∧ (tab = [0] ∨ Bn (length tab - 1) ≤ val tab).

Lemma stripped_fits tab n_bits size :
  stripped tab → val tab < 2 ^ n_bits → 0 ≤ n_bits → size = Z.max 1 (n_bits / 32 + 1) → len tab ≤ size.
Proof.
  intros [Hwf [-> | Hlo]] Hv Hb ->; [unfold len; cbn; lia|]. pose proof (wf_len tab Hwf). unfold len in *.
  rewrite Bn_pow2 in Hlo. assert (32 * Z.of_nat (length tab - 1) < n_bits) as Hlt.
  { apply (Z.pow_lt_mono_r_iff 2); lia. }
  pose proof (Z.div_mod n_bits 32 ltac:(lia)). pose proof (Z.mod_pos_bound n_bits 32 ltac:(lia)). lia.
Qed.

Lemma append_run {S} size tab h (s : S) :
  len tab < size → append size tab h s = (Ok (tab ++ [h]), s).
Proof. intros Hl. unfold append. by destruct (Z.ltb_spec (len tab) size); [|lia]. Qed.

(** A number multiplied, and its high limb. *)
Lemma mul1_stripped tab m v :
  stripped tab → val tab ≠ 0 → fits 32 m → 0 < m → fits 32 v →
  ∃ res h, js_mp_mul1 tab m v = (res, h) ∧
    let tab' := if negb (h =? 0) then res ++ [h] else res in
    stripped tab' ∧ val tab' = val tab * m + v ∧ length res = length tab.
Proof.
  intros [Hwf Hlo] Hnz Hm Hm0 Hv. destruct (js_mp_mul1_spec tab m v (proj1 Hwf) Hm Hv) as (res & h & E & Hres & Hl & Hh & Ev).
  exists res, h. split; [done|]. unfold fits in *. pose proof (wf_len tab Hwf). unfold len in *.
  assert (res ≠ []) as Hne by (intros ->; cbn in Hl; lia).
  assert (tab = [0] → False) as Hn0 by (intros ->; by apply Hnz).
  pose proof (val_range tab (proj1 Hwf)). assert (val tab ≤ val tab * m) by nia.
  destruct Hlo as [|Hlo]; [done|]. cbv zeta. destruct (Z.eqb_spec h 0) as [->|Hh0]; cbn [negb].
  - split_and!; [|lia|done]. split; [by split|right; rewrite Hl; lia].
  - split_and!; [|rewrite val_snoc, Hl; lia|done]. split.
    + split; [apply Forall_app; split; [done|by constructor]|by destruct res].
    + right. rewrite length_app, Hl, Nat.add_sub, val_snoc, Hl.
      pose proof (Bn_pos (length tab)). pose proof (val_range res Hres). nia.
Qed.

Lemma js_to_digit_0 c : js_to_digit c = 0 → c = $"0".
Proof.
  unfold js_to_digit. rewrite !Z.geb_leb.
  repeat match goal with |- context [if ?b then _ else _] => destruct b eqn:?E end;
    rewrite ?andb_true_iff, ?Z.leb_le in *; lia.
Qed.

(** A number whose first digit is not 0. *)
Lemma number_head c cs : Forall (is_digit 10) (c :: cs) → c ≠ $"0" → number 10 (c :: cs) ≠ 0.
Proof.
  intros [Hc Hcs]%Forall_cons Hne. change (c :: cs) with ([c] ++ cs). rewrite number_app by lia.
  pose proof (number_range 10 cs ltac:(lia) Hcs). pose proof (pow_pos 10 ltac:(lia) (length cs)).
  unfold number at 1, value. cbn [fmap list_fmap foldl]. unfold is_digit in Hc.
  assert (js_to_digit c ≠ 0) by (intros E; by apply Hne, js_to_digit_0). nia.
Qed.

Lemma pow_dec_run {S} n (s : S) :
  (n ≤ 9)%nat → rd js_pow_dec (Z.of_nat n) s = (Ok (10 ^ Z.of_nat n), s).
Proof.
  intros Hn. apply rd_run; [lia|]. rewrite Nat2Z.id.
  do 10 (destruct n as [|n]; [reflexivity|]). lia.
Qed.

(** A turn: the digits [cs] of a limb go from the text to the number. *)
Lemma decimal_turn_run {S} pre cs rest tab n_limbs (s : S) :
  Forall (is_digit 10) (cs ++ rest) → cs = take 9 (cs ++ rest) → cs ≠ [] →
  stripped tab → (tab = [0] ∨ val tab ≠ 0) → (∀ c, head cs = Some c → tab = [0] → c ≠ $"0") →
  (∀ tab', stripped tab' → val tab' = val tab * 10 ^ Z.of_nat (length cs) + number 10 cs → len tab' ≤ n_limbs) →
  ∃ tab', decimal_turn (pre ++ (cs ++ rest) ++ [0]) n_limbs (Z.of_nat (length pre), tab) s
    = (Ok (inl (Z.of_nat (length (pre ++ cs)), tab')), s) ∧
    stripped tab' ∧ val tab' = val tab * 10 ^ Z.of_nat (length cs) + number 10 cs ∧ val tab' ≠ 0.
Proof.
  intros Hd Ecs Hne Hst Hz Hhead Hfit. unfold decimal_turn.
  erewrite bind_run.
  2:{ apply (limb_digits_run 9 pre (cs ++ rest) 0 0); [done|done|lia]. }
  rewrite <-Ecs, Z.mul_0_l, Z.add_0_l, !Nat.add_0_l. cbv beta iota.
  assert (Forall (is_digit 10) cs) as Hcs by (by apply Forall_app in Hd as [? _]).
  pose proof (number_range 10 cs ltac:(lia) Hcs) as Hnr.
  assert (length cs ≤ 9)%nat as Hl9 by (rewrite Ecs, length_take; lia).
  assert (1 ≤ length cs)%nat as Hl1 by (destruct cs; [done|cbn; lia]).
  assert (10 ^ Z.of_nat (length cs) ≤ 10 ^ 9) as Hp by (apply Z.pow_le_mono_r; lia).
  assert (fits 32 (number 10 cs)) as Hf by (unfold fits; lia).
  destruct (Z.eqb_spec (Z.of_nat (length cs)) 0); [lia|].
  pose proof (wf_len tab (proj1 Hst)) as Hlt.
  destruct (lookup_lt_is_Some_2 tab 0 ltac:(unfold len in *; lia)) as [t0 Ht0].
  erewrite bind_run by (by apply rd_run). rewrite length_app, Nat2Z.inj_add.
  destruct ((len tab =? 1) && (t0 =? 0)) eqn:Ez.
  - apply andb_true_iff in Ez as [E1%Z.eqb_eq ->%Z.eqb_eq].
    assert (tab = [0]) as -> by (destruct tab as [|? [|]]; unfold len in E1; cbn in *; congruence || lia).
    exists [number 10 cs]. assert (number 10 cs ≠ 0) as Hn0.
    { destruct cs as [|c cs]; [done|]. specialize (Hhead c eq_refl eq_refl). by apply number_head. }
    split_and!; [done| |cbn [val]; lia|cbn [val]; lia].
    split; [by apply wf_limb|right]. cbn [length val]. rewrite Nat.sub_diag, Bn_0. lia.
  - assert (tab ≠ [0]) as Hnt by (intros ->; injection Ht0 as <-; done).
    destruct Hz as [|Hz]; [done|].
    erewrite bind_run by (by apply pow_dec_run).
    destruct (mul1_stripped tab (10 ^ Z.of_nat (length cs)) (number 10 cs)) as (res & h & -> & Hst' & Ev & Hlr);
      [done|done|unfold fits; lia|lia|done|].
    cbv zeta in Hst', Ev. pose proof (Hfit _ Hst' Ev) as Hlen.
    pose proof (val_range tab (proj1 (proj1 Hst))).
    exists (if negb (h =? 0) then res ++ [h] else res). split_and!; [|done|done|rewrite Ev; nia].
    destruct (negb (h =? 0)); [|done].
    erewrite bind_run by (apply append_run; unfold len in *; rewrite length_app in Hlen; cbn in Hlen; lia). done.
Qed.

Lemma decimal_loop_run {S} n_bits n_limbs fuel pre cs tab (s : S) :
  Forall (is_digit 10) cs → (length cs < fuel)%nat →
  stripped tab → (tab = [0] ∨ val tab ≠ 0) → (∀ c, head cs = Some c → tab = [0] → c ≠ $"0") →
  val tab * 10 ^ Z.of_nat (length cs) + number 10 cs < 2 ^ n_bits → 0 ≤ n_bits → n_limbs = Z.max 1 (n_bits / 32 + 1) →
  ∃ tab', loop fuel (decimal_turn (pre ++ cs ++ [0]) n_limbs) (Z.of_nat (length pre), tab) s = (Ok tab', s) ∧
    stripped tab' ∧ val tab' = val tab * 10 ^ Z.of_nat (length cs) + number 10 cs.
Proof.
  revert pre cs tab. induction fuel as [|fuel IH]; intros pre cs tab Hd Hf Hst Hz Hhead Hb Hnb Hnl; [lia|].
  cbn [loop]. destruct (decide (cs = [])) as [->|Hne].
  - exists tab. split_and!; [|done|unfold number, value; cbn; lia].
    unfold decimal_turn at 1. rewrite bind_bind.
    erewrite bind_run by (apply (limb_digits_run 9 pre [] 0 0); [done|done|lia]). done.
  - assert (∃ cs1 rest, cs = cs1 ++ rest ∧ cs1 = take 9 (cs1 ++ rest) ∧ cs1 ≠ []) as (cs1 & rest & -> & Ecs & Hne1).
    { exists (take 9 cs), (drop 9 cs). rewrite take_drop. split_and!; [done|done|by destruct cs]. }
    assert (1 ≤ length cs1)%nat as Hl1 by (destruct cs1; [done|cbn; lia]). rewrite length_app in Hf, Hb.
    pose proof (proj1 (proj1 (Forall_app _ _ _) Hd)) as Hd1. pose proof (proj2 (proj1 (Forall_app _ _ _) Hd)) as Hd2.
    pose proof (number_range 10 cs1 ltac:(lia) Hd1). pose proof (number_range 10 rest ltac:(lia) Hd2).
    pose proof (val_range tab (proj1 (proj1 Hst))). pose proof (pow_pos 10 ltac:(lia) (length cs1)).
    pose proof (pow_pos 10 ltac:(lia) (length rest)).
    rewrite number_app, Nat2Z.inj_add, Z.pow_add_r in Hb by lia.
    destruct (decimal_turn_run pre cs1 rest tab n_limbs s) as (tab1 & E1 & Hst1 & Ev1 & Hnz1); try done.
    { intros c Hc. apply Hhead. by destruct cs1. }
    { intros tab' Hst' Ev'. apply (stripped_fits tab' n_bits); [done| |done|done]. rewrite Ev'. nia. }
    erewrite bind_run by exact E1.
    replace (pre ++ (cs1 ++ rest) ++ [0]) with ((pre ++ cs1) ++ rest ++ [0]) by (by rewrite <-!app_assoc).
    destruct (IH (pre ++ cs1) rest tab1) as (tab' & E' & Hst' & Ev'); try done.
    { lia. } { by right. } { intros c _ ->. done. } { rewrite Ev1. lia. }
    exists tab'. split_and!; [exact E'|done|]. rewrite Ev', Ev1, length_app, number_app, Nat2Z.inj_add, Z.pow_add_r by lia.
    ring.
Qed.

(** ** Text in a power of two *)

(** A digit shifted into a limb: what goes above is for the next limb. *)
Lemma digit_split c k b :
  0 ≤ k < 32 → 1 ≤ b ≤ 5 → 0 ≤ c < 2 ^ b →
  c * 2 ^ k = u32 (Z.shiftl c k) + B * Z.shiftr c (32 - k) ∧
  (k + b ≤ 32 → Z.shiftr c (32 - k) = 0) ∧ 0 ≤ Z.shiftr c (32 - k) < B.
Proof.
  intros Hk Hb Hc. rewrite Z.shiftl_mul_pow2, Z.shiftr_div_pow2 by lia.
  pose proof (pow2_split k ltac:(lia)) as HB. pose proof (pow2_range k ltac:(lia)).
  assert (0 < 2 ^ (32 - k)) by (apply Z.pow_pos_nonneg; lia).
  assert (2 ^ b ≤ 2 ^ 5) by (apply Z.pow_le_mono_r; lia).
  assert (c / 2 ^ (32 - k) = c * 2 ^ k / B) as E by (rewrite HB; symmetry; apply Z.div_mul_cancel_r; lia).
  split_and!.
  - rewrite E. apply u32_split.
  - intros Hkb. apply Z.div_small. assert (2 ^ b ≤ 2 ^ (32 - k)) by (apply Z.pow_le_mono_r; lia). lia.
  - apply Z.div_pos; lia.
  - apply Z.le_lt_trans with c; [apply Z.div_le_upper_bound; nia|unfold B; lia].
Qed.

(** A number below [2^(32 p + k)]: the limbs from [p] on. *)
Lemma low_number tab p k :
  limbs_ok tab → 0 ≤ k < 32 → (p < length tab)%nat → val tab < Bn p * 2 ^ k →
  ∃ pre t n, tab = pre ++ t :: replicate n 0 ∧ length pre = p ∧ limbs_ok pre ∧ 0 ≤ t < 2 ^ k.
Proof.
  intros Hok Hk Hp Hv. destruct (lookup_lt_is_Some_2 tab p Hp) as [t Ht].
  pose proof (take_drop_middle tab p t Ht) as E. set (pre := take p tab) in *. set (post := drop (S p) tab) in *.
  assert (length pre = p) as Hlp by (unfold pre; rewrite length_take; lia).
  rewrite <-E in Hok, Hv. apply Forall_app in Hok as [Hpre [Hft Hpost]%Forall_cons].
  rewrite val_app in Hv. cbn [val] in Hv. rewrite Hlp in Hv. pose proof (val_range pre Hpre). pose proof (val_range post Hpost).
  unfold fits in Hft. pose proof (Bn_pos p). pose proof (pow2_range k ltac:(lia)) as Hpk.
  assert (2 ^ k ≤ 2 ^ 31) by (apply Z.pow_le_mono_r; lia).
  assert (val post = 0) as Hz by (unfold B in *; nia). rewrite Hz in Hv.
  exists pre, t, (length post). split_and!; [|done|done|lia|nia].
  rewrite <-E. do 2 f_equal. apply val_inj; [done|by apply Forall_replicate|by rewrite length_replicate|].
  by rewrite val_replicate_0.
Qed.

Lemma low_part d k : 0 ≤ k < 32 → u32 (Z.shiftl d k) = d mod 2 ^ (32 - k) * 2 ^ k.
Proof.
  intros Hk. unfold u32, wrap. rewrite Z.shiftl_mul_pow2 by lia.
  pose proof (pow2_split k ltac:(lia)) as HB. change (2 ^ 32) with B. rewrite HB.
  assert (0 < 2 ^ (32 - k)) by (apply Z.pow_pos_nonneg; lia). pose proof (pow2_range k ltac:(lia)).
  by rewrite Z.mul_mod_distr_r by lia.
Qed.

Lemma lor_below t k d :
  0 ≤ k < 32 → 0 ≤ t < 2 ^ k →
  Z.lor t (u32 (Z.shiftl d k)) = t + u32 (Z.shiftl d k) ∧ fits 32 (t + u32 (Z.shiftl d k)).
Proof.
  intros Hk Ht. rewrite low_part by done. set (m := d mod 2 ^ (32 - k)).
  assert (0 ≤ m < 2 ^ (32 - k)) as Hm by (apply Z.mod_pos_bound, Z.pow_pos_nonneg; lia). split.
  - apply (lor_mask k); [lia|done|]. by exists m.
  - pose proof (pow2_split k ltac:(lia)) as HB. unfold fits. change (2 ^ 32) with B. nia.
Qed.

(** A digit is put above the ones that are there. *)
Lemma put_digit_run `{BuildConfig} text p n b i x tab :
  1 ≤ b ≤ 5 → 0 ≤ i < n → n * b < 2 ^ 32 → n * b < 32 * Z.of_nat (length tab) →
  rd (S := list Z) text (p + (n - 1 - i)) tab = (Ok x, tab) → is_digit (2 ^ b) x →
  limbs_ok tab → val tab < (2 ^ b) ^ i →
  ∃ tab', put_digit text p n (2 ^ b) b i tab = (Ok tt, tab') ∧ limbs_ok tab' ∧ length tab' = length tab ∧
    val tab' = val tab + js_to_digit x * (2 ^ b) ^ i.
Proof.
  intros Hb Hi Hsm Hn Hrd Hx Hok Hv. unfold put_digit. erewrite bind_run by exact Hrd. cbv zeta.
  unfold is_digit in Hx. set (c := js_to_digit x) in *.
  destruct (Z.ltb_spec c (2 ^ b)); [|lia]. erewrite bind_run by apply MOE_ASSERT_true.
  assert (u32 (i * b) = i * b) as -> by (apply wrap_id; unfold fits; nia). unfold JS_LIMB_BITS.
  change (32 - 1) with (Z.ones 5). rewrite Z.land_ones by lia. change (2 ^ 5) with 32.
  set (q := i * b / 32). set (k := (i * b) mod 32).
  pose proof (Z.div_mod (i * b) 32 ltac:(lia)) as E. fold q k in E.
  assert (0 ≤ k < 32) as Hk by (by apply Z.mod_pos_bound). assert (0 ≤ q) as Hq by (apply Z.div_pos; nia).
  assert ((2 ^ b) ^ i = Bn (Z.to_nat q) * 2 ^ k) as Epow.
  { rewrite <-Z.pow_mul_r, Bn_pow2, <-Z.pow_add_r by lia. f_equal. lia. }
  rewrite Epow in *. destruct (low_number tab (Z.to_nat q) k) as (pre & t & m & -> & Hlp & Hpre & Ht); [done|done|nia|done|].
  rewrite length_app in Hn. cbn [length] in Hn. rewrite length_replicate in Hn.
  destruct (digit_split c k b) as (Ec & Hnocross & Hcar); [done|done|done|].
  erewrite bind_run by (apply limb_run; lia). erewrite bind_run by (apply wr_here; lia).
  destruct (lor_below t k c Hk Ht) as [-> Hfit]. set (lo := u32 (Z.shiftl c k)) in *. set (hi := Z.shiftr c (32 - k)) in *.
  rewrite Z.gtb_ltb. destruct (Z.ltb_spec 32 (k + b)) as [Hcross|Hno].
  - destruct m as [|m]; [exfalso; nia|]. cbn [replicate].
    replace (pre ++ t + lo :: 0 :: replicate m 0) with ((pre ++ [t + lo]) ++ 0 :: replicate m 0) by (by rewrite <-app_assoc).
    erewrite bind_run by (apply limb_run; rewrite length_app; cbn; lia).
    erewrite wr_here by (rewrite length_app; cbn; lia). rewrite Z.lor_0_l.
    eexists. split; [done|]. split_and!.
    + rewrite <-app_assoc. apply Forall_app. split; [done|]. constructor; [done|]. constructor; [done|]. by apply Forall_replicate.
    + rewrite !length_app. cbn. rewrite length_replicate. lia.
    + rewrite <-app_assoc, !val_app. cbn [val app length]. rewrite val_replicate_0, Hlp, Bn_S, Bn_0.
      replace (c * (Bn (Z.to_nat q) * 2 ^ k)) with (Bn (Z.to_nat q) * (c * 2 ^ k)) by ring. rewrite Ec. ring.
  - eexists. split; [done|]. split_and!.
    + apply Forall_app. split; [done|]. constructor; [done|]. by apply Forall_replicate.
    + rewrite !length_app. done.
    + rewrite !val_app. cbn [val]. rewrite val_replicate_0, Hlp. rewrite Hnocross in Ec by lia.
      replace (c * (Bn (Z.to_nat q) * 2 ^ k)) with (Bn (Z.to_nat q) * (c * 2 ^ k)) by ring. rewrite Ec. ring.
Qed.

Lemma put_digits_loop `{BuildConfig} pre cs b m i tab :
  1 ≤ b ≤ 5 → Forall (is_digit (2 ^ b)) cs → length cs = (i + m)%nat →
  Z.of_nat (length cs) * b < 2 ^ 32 → Z.of_nat (length cs) * b < 32 * Z.of_nat (length tab) →
  limbs_ok tab → val tab = number (2 ^ b) (drop m cs) →
  ∃ tab', for_up m (Z.of_nat i)
      (put_digit (pre ++ cs ++ [0]) (Z.of_nat (length pre)) (Z.of_nat (length cs)) (2 ^ b) b) tab = (Ok tt, tab') ∧
    limbs_ok tab' ∧ length tab' = length tab ∧ val tab' = number (2 ^ b) cs.
Proof.
  intros Hb Hcs. assert (2 ^ 1 ≤ 2 ^ b) as Hp by (apply Z.pow_le_mono_r; lia).
  revert i tab. induction m as [|m IH]; intros i tab Hl Hsm Hn Hok Hv; [by exists tab|].
  destruct (lookup_lt_is_Some_2 cs m ltac:(lia)) as [x Hx].
  assert (drop m cs = x :: drop (S m) cs) as Ed by (by apply drop_S).
  assert (length (drop (S m) cs) = i) as Hli by (rewrite length_drop; lia).
  assert (Forall (is_digit (2 ^ b)) (drop (S m) cs)) as Hdrop by (by apply Forall_drop).
  pose proof (number_range (2 ^ b) _ ltac:(lia) Hdrop) as Hr. rewrite Hli in Hr.
  destruct (put_digit_run (pre ++ cs ++ [0]) (Z.of_nat (length pre)) (Z.of_nat (length cs)) b (Z.of_nat i) x tab)
    as (tab1 & E1 & Hok1 & Hl1 & Ev1); [done|lia|done|done| |exact (Forall_lookup_1 _ _ _ _ Hcs Hx)|done|lia|].
  { apply rd_run; [lia|]. rewrite lookup_app_r by lia. rewrite lookup_app_l by lia.
    rewrite <-Hx. f_equal. lia. }
  cbn [for_up]. erewrite bind_run by exact E1. replace (Z.of_nat i + 1) with (Z.of_nat (S i)) by lia.
  destruct (IH (S i) tab1) as (tab' & E' & Hok' & Hl' & Ev'); [lia|done|by rewrite Hl1|done| |].
  { rewrite Ed. change (x :: ?l) with ([x] ++ l). rewrite number_app, Hli, Ev1, Hv by lia. unfold number at 2, value. cbn. lia. }
  exists tab'. split_and!; [done|done|congruence|done].
Qed.

(** ** The operation *)

(** The number, before its sign: a block of limbs of the right value. *)
Lemma read_limbs_run `{BuildConfig} pre cs radix r (c : JSContext) :
  2 ≤ radix ≤ 36 → radix = 10 ∨ Z.land radix (radix - 1) = 0 →
  Forall (is_digit radix) cs → (∀ x, head cs = Some x → x ≠ $"0") →
  Z.of_nat (length cs) ≤ 2 ^ 20 → len r = n_limbs_of radix (length cs) →
  ∃ tab, read_limbs (pre ++ cs ++ [0]) (Z.of_nat (length pre)) (Z.of_nat (length cs)) radix
      (Z.log2 (radix - 1) + 1) (n_limbs_of radix (length cs)) r c = (Ok tab, c) ∧
    wf tab ∧ len tab ≤ n_limbs_of radix (length cs) ∧ sval tab = number radix cs.
Proof.
  intros Hr Hrad Hcs Hhead Hlen Hlr. pose proof (number_range radix cs ltac:(lia) Hcs) as Hnum.
  unfold read_limbs. rewrite Nat2Z.id.
  set (n_bits := n_bits_of radix (length cs)). unfold n_limbs_of in *. fold n_bits in Hlr |- *. rewrite max_int_max in *.
  set (n_limbs := Z.max 1 (n_bits / 32 + 1)) in *.
  destruct (Z.eqb_spec radix 10) as [->|H10].
  - assert (0 ≤ n_bits) by (apply Z.div_pos; lia). pose proof (decimal_bits (length cs)) as Hbits. fold n_bits in Hbits.
    destruct (decimal_loop_run n_bits n_limbs (Datatypes.S (length (pre ++ cs ++ [0]))) pre cs [0] c)
      as (tab & E & Hst & Ev); try done.
    { rewrite !length_app. lia. } { split; [by apply wf_limb|by left]. } { by left. } { intros x Hx _. by apply Hhead. }
    { cbn [val]. lia. }
    erewrite bind_run by exact E. change (val [0]) with 0 in Ev. rewrite Z.mul_0_l, Z.add_0_l in Ev.
    destruct (wf_snoc tab (proj1 Hst)) as (l & v & -> & Hl & Hfv).
    erewrite bind_run by (apply rd_app; unfold len; rewrite length_app; cbn; lia).
    rewrite shiftr_sign by done. pose proof (stripped_fits _ n_bits n_limbs Hst) as Hfit.
    destruct (Z.leb_spec (2 ^ 31) v); cbn [b2l Z.eqb negb].
    + destruct (with_sign_limb (l ++ [v]) (proj1 (proj1 Hst))) as (Hwf & Es & _).
      assert (len (l ++ [v]) < n_limbs) as Hlt.
      { rewrite val_snoc in Ev. pose proof (val_range l Hl). rewrite Bn_pow2 in *.
        assert (2 ^ (32 * Z.of_nat (length l) + 31) < 2 ^ n_bits) as Hlt by (rewrite Z.pow_add_r by lia; nia).
        apply Z.pow_lt_mono_r_iff in Hlt; [|lia|lia]. unfold len. rewrite length_app. cbn [length].
        pose proof (Z.div_mod n_bits 32 ltac:(lia)). pose proof (Z.mod_pos_bound n_bits 32 ltac:(lia)). lia. }
      exists ((l ++ [v]) ++ [0]). rewrite append_run by done. split_and!; [done|done| |lia].
      unfold len in *. rewrite (length_app (l ++ [v])). cbn. lia.
    + exists (l ++ [v]). split_and!; [done|apply Hst|apply Hfit; [lia|lia|done]|].
      rewrite sval_snoc. destruct (Z.leb_spec (2 ^ 31) v); [lia|]. by rewrite <-val_snoc.
  - destruct Hrad as [|Hp2]; [done|]. destruct (radix_pow2 radix Hr Hp2) as (b & Hb & -> & El).
    assert (Z.log2 (2 ^ b - 1) + 1 = b) as Eb.
    { clear -Hb. assert (b = 1 ∨ b = 2 ∨ b = 3 ∨ b = 4 ∨ b = 5) as Hcase by lia. by destruct Hcase as [->|[->|[->|[->| ->]]]]. }
    rewrite Eb. assert (n_bits = Z.of_nat (length cs) * b) as Enb.
    { unfold n_bits, n_bits_of, text_bits. destruct (Z.eqb_spec (2 ^ b) 10); [done|]. by rewrite Eb. }
    pose proof (Z.div_mod n_bits 32 ltac:(lia)). pose proof (Z.mod_pos_bound n_bits 32 ltac:(lia)).
    assert (n_bits < 32 * len r) by lia.
    destruct (put_digits_loop pre cs b (length cs) 0 (replicate (length r) 0)) as (tab & E & Hok & Hl & Ev); try done.
    { nia. } { rewrite length_replicate. unfold len in *. lia. } { by apply Forall_replicate. }
    { by rewrite val_replicate_0, drop_ge. }
    erewrite bind_run by (by apply on_tab_run). rewrite length_replicate in Hl. exists tab.
    assert (wf tab) as Hwf by (split; [done|intros ->; unfold len in *; cbn in Hl; lia]).
    split_and!; [done|done|unfold len in *; lia|].
    rewrite <-Ev. apply sval_intro; [done| |]; rewrite Hl, Bn_pow2.
    + symmetry. apply Z.mod_small. pose proof (val_range tab Hok) as Hv. by rewrite Hl, Bn_pow2 in Hv.
    + rewrite Ev. split; [lia|]. rewrite <-Z.pow_mul_r, (Z.mul_comm b), <-Enb in Hnum by lia.
      unfold len in *. assert (2 ^ n_bits ≤ 2 ^ (32 * Z.of_nat (length r) - 1)) by (apply Z.pow_le_mono_r; lia).
      replace (32 * Z.of_nat (length r)) with (Z.succ (32 * Z.of_nat (length r) - 1)) by lia. rewrite Z.pow_succ_r by lia. lia.
Qed.

Lemma leading_zeros s : ∃ z cs, s = replicate z ($"0") ++ cs ∧ ∀ x, head cs = Some x → x ≠ $"0".
Proof.
  induction s as [|c s (z & cs & E & Hh)]; [by exists 0%nat, []|].
  destruct (decide (c = $"0")) as [->|Hne].
  - exists (S z), cs. by rewrite E.
  - exists 0%nat, (c :: s). split; [done|]. by intros x [= <-].
Qed.

Lemma n_bits_mono radix n m :
  2 ≤ radix → (n ≤ m)%nat → Z.of_nat n ≤ n_bits_of radix n ≤ n_bits_of radix m.
Proof.
  intros Hr Hnm. unfold n_bits_of, text_bits. destruct (radix =? 10).
  - split; [apply Z.div_le_lower_bound; lia|apply Z.div_le_mono; lia].
  - pose proof (Z.log2_nonneg (radix - 1)). nia.
Qed.

Lemma n_limbs_mono radix n m :
  2 ≤ radix → (n ≤ m)%nat → 1 ≤ n_limbs_of radix n ≤ n_limbs_of radix m.
Proof.
  intros Hr Hnm. pose proof (n_bits_mono radix n m Hr Hnm). unfold n_limbs_of. rewrite !max_int_max.
  assert (n_bits_of radix n / 32 ≤ n_bits_of radix m / 32) by (apply Z.div_le_mono; lia). lia.
Qed.

(** The sign, put on the number that was read. *)
Lemma signed_gives `{Malloc} r (neg : bool) size :
  normal r → len r ≤ size →
  gives 1 (if neg then r1 ← js_bigint_neg r; js_free;; ret r1 else ret (Some r)) size
    (λ r', normal r' ∧ sval r' = if neg then - sval r else sval r).
Proof.
  intros Hr Hs. destruct neg; [|by apply gives_ret].
  intros c. destruct (js_bigint_neg_computes r (proj1 Hr) c) as (r1 & c1 & E & (u & Eu) & Hres & Hg).
  erewrite bind_run by exact E. destruct (js_free_run c1) as (c2 & E2 & ((u2 & Eu2) & Hl2 & _) & Hp2).
  erewrite bind_run by exact E2. exists r1, c2. split_and!; [done|exists (u ++ u2); by rewrite Eu, Eu2, app_assoc| |].
  - rewrite Hp2. destruct r1; (split; [apply Hres|destruct Hres; lia]).
  - rewrite Hp2. intros Hgr Hs'. apply Hg; [done|lia].
Qed.

Lemma sign_char radix s : radix ≤ 36 → Forall (is_digit radix) s → ∃ c l, s ++ [0] = c :: l ∧ c ≠ $"-".
Proof.
  intros Hr Hs. destruct s as [|c s]; [by exists 0, []|]. exists c, (s ++ [0]). split; [done|]. intros ->.
  apply Forall_cons in Hs as [[_ Hc] _]. change (js_to_digit _) with 36 in Hc. lia.
Qed.

Lemma js_bigint_from_string_computes `{Malloc, BuildConfig} (neg : bool) s radix :
  2 ≤ radix ≤ 36 → radix = 10 ∨ Z.land radix (radix - 1) = 0 → Forall (is_digit radix) s →
  computes (js_bigint_from_string ((if neg then [ $"-" ] else []) ++ s) radix)
    (n_limbs_of radix (length s)) (if neg then - number radix s else number radix s).
Proof.
  intros Hr Hrad Hs. destruct (leading_zeros s) as (z & cs & -> & Hh).
  destruct (sign_char radix _ ltac:(lia) Hs) as (c0 & l0 & E0 & Hc0).
  apply Forall_app in Hs as [Hz Hcs]. rewrite number_zeros by lia.
  set (sign := if neg then [ $"-" ] else []). set (zs := replicate z ($"0")) in *.
  destruct (n_bits_mono radix (length cs) (length (zs ++ cs))) as [Hb1 Hb2]; [lia|rewrite length_app; lia|].
  destruct (n_limbs_mono radix (length cs) (length (zs ++ cs))) as [Hl1 Hl2]; [lia|rewrite length_app; lia|].
  set (size := n_limbs_of radix (length (zs ++ cs))) in *.
  assert (((sign ++ zs ++ cs) ++ [0]) = (sign ++ zs) ++ cs ++ [0]) as Etext by (by rewrite <-!app_assoc).
  unfold js_bigint_from_string, computes. rewrite Etext. cbv zeta.
  eapply (gives_pure 0 _ (if neg then $"-" else c0)).
  { intros c. apply rd_run; [done|]. rewrite <-Etext. unfold sign. destruct neg; [done|]. cbn [app]. by rewrite E0. }
  assert ((if (if neg then $"-" else c0) =? $"-" then (true, 1) else (false, 0)) = (neg, Z.of_nat (length sign))) as ->.
  { unfold sign. destruct neg; [done|]. by destruct (Z.eqb_spec c0 ($"-")). }
  eapply gives_pure with (Z.of_nat (length (sign ++ zs))).
  { intros c. rewrite length_app. unfold zs at 2. rewrite length_replicate. destruct (cs ++ [0]) as [|x l] eqn:Ex.
    { by apply app_eq_nil in Ex as [_ ?]. }
    unfold skip_zeros. apply (skip_zeros_loop _ _ sign z x l).
    - destruct cs as [|y cs]; injection Ex as <- <-; [done|by apply Hh].
    - by rewrite <-app_assoc.
    - rewrite length_app. unfold zs. rewrite length_app, length_replicate. lia. }
  replace (Z.of_nat (length (sign ++ zs ++ cs)) - Z.of_nat (length (sign ++ zs))) with (Z.of_nat (length cs))
    by (rewrite !length_app; lia).
  rewrite Z.gtb_ltb. destruct (Z.ltb_spec (JS_BIGINT_MAX_SIZE * JS_LIMB_BITS) (Z.of_nat (length cs))) as [Hbig|Hsm].
  { intros c. eexists None, _. split; [reflexivity|]. cbn. split_and!; [by exists []|done|lia|]. intros _ Hsz. exfalso.
    unfold size, n_limbs_of in Hsz. rewrite max_int_max in Hsz. change (JS_BIGINT_MAX_SIZE * JS_LIMB_BITS) with 1048576 in Hbig.
    change JS_BIGINT_MAX_SIZE with 32768 in Hsz.
    pose proof (Z.div_le_mono 1048577 (n_bits_of radix (length (zs ++ cs))) 32) as Hm.
    change (1048577 / 32) with 32768 in Hm. lia. }
  change (JS_BIGINT_MAX_SIZE * JS_LIMB_BITS) with (2 ^ 20) in Hsm.
  assert (clz32 (S := JSContext) (u32 (radix - 1)) = ret (31 - Z.log2 (radix - 1))) as ->.
  { assert (u32 (radix - 1) = radix - 1) as -> by (apply wrap_id; unfold fits; lia).
    unfold clz32. by destruct (Z.eqb_spec (radix - 1) 0); [lia|]. }
  apply (gives_pure 0 _ (31 - Z.log2 (radix - 1))); [done|].
  replace (32 - (31 - Z.log2 (radix - 1))) with (Z.log2 (radix - 1) + 1) by lia.
  change (max_int 1 (text_bits radix (Z.of_nat (length cs)) (Z.log2 (radix - 1) + 1) / JS_LIMB_BITS + 1))
    with (n_limbs_of radix (length cs)).
  apply gives_new; [lia|]. intros r _ Hlr.
  apply (gives_step 1 0 _ (λ tab, wf tab ∧ len tab ≤ size ∧ sval tab = number radix cs)).
  { intros c. destruct (read_limbs_run (sign ++ zs) cs radix r c) as (tab & E & Hwf & Hlen & Ev); try done.
    exists tab, c. split; [done|]. split; [|apply after_refl]. split_and!; [done|lia|done]. }
  intros tab (Hwf & Hlen & Ev). rewrite Z.add_0_r.
  apply (gives_step 1 0 _ (λ r, normal r ∧ sval r = number radix cs ∧ len r ≤ size)).
  { intros c. destruct (normalize1_run tab (length tab) c) as (r' & c' & E & [Hn En] & Haf).
    { rewrite take_ge by lia. apply Hwf. } { pose proof (wf_len tab Hwf). unfold len in *. lia. }
    rewrite take_ge in En by lia. exists r', c'. split_and!; [done|done|congruence| |done..].
    pose proof (minimal_size r' (length tab) Hn) as Hms. rewrite En in Hms. pose proof (sval_range tab Hwf).
    pose proof (wf_len tab Hwf). unfold len in *. lia. }
  intros r' (Hn & <- & Hlr'). rewrite Z.add_0_r. by apply signed_gives.
Qed.
