(* ===== verification/BigIntTextProps.v ===== *)
(** * Big integers and text: the properties *)
From S2P Require Import Prelude CStd Words CUtils BigIntMp BigIntMpFacts BigIntDiv BigInt BigIntFacts BigIntOps.
From S2P Require Import Digits DigitsFacts BigIntText BigIntToText.

#[local] Instance zeros : Malloc := {| fresh_limb := λ _, 0 |}.
#[local] Instance asserts : BuildConfig := with_assertions.

(** The characters of a numeral are digits, and stand for its number. *)
Lemma numeral_chars radix ds :
  radix ≤ 36 → Forall (in_radix radix) ds →
  Forall (is_digit radix) (digit_char <$> ds) ∧ number radix (digit_char <$> ds) = value radix ds.
Proof.
  intros Hr Hds. unfold number. assert (js_to_digit <$> (digit_char <$> ds) = ds) as E.
  { induction Hds as [|d ds Hd _ IH]; [done|]. cbn. unfold in_radix in Hd. rewrite js_to_digit_char by lia. f_equal. exact IH. }
  split; [|by rewrite E]. apply Forall_fmap. eapply Forall_impl; [exact Hds|]. intros d Hd.
  unfold in_radix, is_digit in *. cbn. rewrite js_to_digit_char; lia.
Qed.

Lemma short_gives `{Malloc} v radix size :
  - 2 ^ 31 ≤ v < 2 ^ 31 → 2 ≤ radix ≤ 36 →
  gives 0 (js_bigint_to_string1 (JS_TAG_SHORT_BIG_INT v) radix) size (text_of radix v).
Proof.
  intros Hv Hr. unfold js_bigint_to_string1.
  destruct (i64toa_radix_prints v radix) as (ds & Hc & Ev & Hrun); [lia|done|].
  assert (length ds ≤ 64)%nat as Hl.
  { apply (canonical_length radix); [lia|done| |lia]. rewrite Ev.
    apply Z.lt_le_trans with (2 ^ 64); [lia|]. apply Z.pow_le_mono_l. lia. }
  set (sign := if v <? 0 then [ $"-" ] else []) in *.
  assert (length sign ≤ 1)%nat by (unfold sign; destruct (v <? 0); cbn; lia).
  specialize (Hrun [] (replicate 66 0)). rewrite length_replicate in Hrun. specialize (Hrun ltac:(lia)).
  eapply gives_pure; [intros c; apply on_tab_run; exact Hrun|].
  intros c. unfold js_new_string8_len. destruct (js_malloc_run c) as (b & c1 & E & (Hu & Hlv & Hp) & Hg & Hf).
  erewrite bind_run by exact E. eexists _, c1. split; [done|]. split; [done|]. split.
  - destruct b; (split; [|lia]); [|by apply Hf]. exists ds. split_and!; [done|done|]. cbn [app]. rewrite Nat2Z.id, app_assoc.
    apply take_app_length'. rewrite length_app, length_fmap. done.
  - intros Hgr _. rewrite (Hg Hgr). split; [done|auto].
Qed.

(** C23: [js_bigint_to_string1] prints every big integer, short or not, in every
    radix from 2 to 36: a minus sign for a negative number, then the digits of
    its absolute value with no useless 0. It never writes outside of the
    buffer whose size it computes beforehand from the number of bits, it frees
    what it allocates, and it fails only when an allocation does or the number
    has more limbs than the limit. *)
Theorem to_string_exact `{Malloc} a v radix :
  normal a → len a ≤ 2 * JS_BIGINT_MAX_SIZE → - 2 ^ 31 ≤ v < 2 ^ 31 → 2 ≤ radix ≤ 36 →
  gives 0 (js_bigint_to_string1 (JS_TAG_BIG_INT a) radix) (len a) (text_of radix (sval a)) ∧
  gives 0 (js_bigint_to_string1 (JS_TAG_SHORT_BIG_INT v) radix) 0 (text_of radix v).
Proof.
  intros Ha Hl Hv Hr. split; [by apply js_bigint_to_string1_gives|by apply short_gives].
Qed.

Lemma to_string_exact_witness :
  normal [0; u32 (-1)] ∧ gives 0 (js_bigint_to_string1 (JS_TAG_BIG_INT [0; u32 (-1)]) 10) 2 (text_of 10 (- 2 ^ 32)).
Proof.
  assert (normal [0; u32 (-1)]) as Hn.
  { split; [split; [by repeat constructor|done]|]. right. by exists [], 0, (u32 (-1)). }
  split; [exact Hn|]. apply (to_string_exact [0; u32 (-1)] 7 10); [exact Hn|done|lia|lia].
Defined.

(** C24: [js_bigint_from_string] reads every numeral in a radix it accepts, 10
    or a power of two, of any length and with any leading zeros and either
    sign, into the normal form of its number: the limbs it allocates from the
    number of digits are enough, and it fails only when an allocation does or
    the limbs are more than [JS_BIGINT_MAX_SIZE]. *)
Theorem from_string_exact `{Malloc, BuildConfig} (neg : bool) s radix :
  2 ≤ radix ≤ 36 → radix = 10 ∨ Z.land radix (radix - 1) = 0 → Forall (is_digit radix) s →
  computes (js_bigint_from_string ((if neg then [ $"-" ] else []) ++ s) radix)
    (n_limbs_of radix (length s)) (if neg then - number radix s else number radix s).
Proof. by apply js_bigint_from_string_computes. Qed.

Lemma from_string_exact_witness :
  2 ≤ 16 ≤ 36 ∧ Forall (is_digit 16) (chars "00fF123456789") ∧
  computes (js_bigint_from_string (chars "-00fF123456789") 16) 2 (- 0xfF123456789).
Proof.
  assert (Forall (is_digit 16) (chars "00fF123456789")) as Hd.
  { repeat (constructor; [split; vm_compute; congruence|]). constructor. }
  split; [lia|]. split; [exact Hd|].
  apply (from_string_exact true (chars "00fF123456789") 16); [lia|by right|exact Hd].
Defined.

(** C22: reading what was printed gives back the same limbs, in the radices 10
    and 2, 4, 8, 16 and 32. *)
Theorem text_round_trip `{Malloc, BuildConfig} a radix :
  2 ≤ radix ≤ 36 → radix = 10 ∨ Z.land radix (radix - 1) = 0 → normal a → len a ≤ 2 * JS_BIGINT_MAX_SIZE →
  gives 0 (js_bigint_to_string1 (JS_TAG_BIG_INT a) radix) (len a)
    (λ text, gives 0 (js_bigint_from_string text radix) (n_limbs_of radix (length text)) (λ r, r = a)).
Proof.
  intros Hr Hrad Ha Hl. eapply gives_mono; [by apply js_bigint_to_string1_gives|reflexivity|].
  intros text (ds & Hc & Ev & ->). destruct (numeral_chars radix ds) as [Hd En]; [lia|apply Hc|].
  eapply gives_mono; [apply (js_bigint_from_string_computes (sval a <? 0) (digit_char <$> ds) radix); done| |].
  - apply n_limbs_mono; [lia|]. rewrite length_app. lia.
  - intros r [Hn E]. apply normal_unique; [done|done|]. rewrite E, En, Ev.
    destruct (Z.ltb_spec (sval a) 0); lia.
Qed.

Lemma text_round_trip_witness :
  normal [5; 7] ∧ gives 0 (js_bigint_to_string1 (JS_TAG_BIG_INT [5; 7]) 10) 2
    (λ text, gives 0 (js_bigint_from_string text 10) (n_limbs_of 10 (length text)) (λ r, r = [5; 7])).
Proof.
  assert (normal [5; 7]) as Hn.
  { split; [split; [by repeat constructor|done]|]. right. by exists [], 5, 7. }
  split; [exact Hn|]. apply (text_round_trip [5; 7] 10); [lia|by left|exact Hn|done].
Defined.
