(* ===== verification/DtoaMp.v ===== *)
(** * The multi-precision integers of the floating point conversions

    The [mp_*] and [mpb_*] routines of [src/vendors/qjs/quickjs/dtoa.c]. An
    [mpb_t] is its [len] and its array, that may have more limbs than are in
    use: it is the state. A routine that is given an array and works on all of
    it takes and returns lists, as in [BigIntMp.v]. *)
From S2P Require Import Prelude CStd Words CUtils BigIntMp.

Definition LIMB_BITS : Z := 32.

Record mpb_t : Type := { len : Z; tab : list Z }.

#[global] Instance mpb_tab : Lens mpb_t (list Z).
Proof.
  refine {| view := tab; put := λ t r, {| len := len r; tab := t |} |}; [done|by intros []|done].
Defined.

Definition get_len : M mpb_t Z := gets len.
Definition set_len (l : Z) : M mpb_t unit := modify (λ r, {| len := l; tab := tab r |}).

(** ** Arrays *)

(** The limbs from [k] on are left when the carry is 0. *)
Fixpoint mp_add_ui (tab : list Z) (b : Z) : list Z * Z :=
  match tab with
  | t :: tab' =>
      if b =? 0 then (tab, b)
      else
        let a := u32 (t + b) in
        let k := b2l (a <? b) in
        let '(tab', k) := mp_add_ui tab' k in (a :: tab', k)
  | [] => ([], b)
  end.

(** These have the text of the [js_mp_*] routines of [quickjs.c]. *)
Definition mp_mul1 (taba : list Z) (b l : Z) : list Z * Z := js_mp_mul1 taba b l.
Definition udiv1norm_init {S} (d : Z) : M S Z := js_udiv1norm_init d.
Definition udiv1norm (a1 a0 d d_inv : Z) : Z * Z := js_udiv1norm a1 a0 d d_inv.
Definition mp_div1 {S} (taba : list Z) (b r : Z) : M S (list Z * Z) :=
  if (b =? 0) && negb (bool_decide (taba = [])) then throw (Undefined BadOperand) else ret (js_mp_div1 taba b r).

Definition mp_shr `{BuildConfig} {S} (tab : list Z) (shift high : Z) : M S (list Z * Z) :=
  c_assert ((shift >=? 1) && (shift <? LIMB_BITS));;
  ret (js_mp_shr tab shift high).

Definition mp_shl `{BuildConfig} {S} (tab : list Z) (shift low : Z) : M S (list Z * Z) :=
  c_assert ((shift >=? 1) && (shift <? LIMB_BITS));;
  ret (mp_shl_from tab shift low).

(** The division by [b >> shift], of the dividend and the remainder [r]. *)
Definition mp_div1norm `{BuildConfig} {S} (taba : list Z) (b r b_inv shift : Z) : M S (list Z * Z) :=
  '(tabr, r) ← (if negb (shift =? 0) then
                  '(tabr, h) ← mp_shl taba shift 0;
                  ret (tabr, Z.lor (u32 (Z.shiftl r shift)) h)
                else ret (taba, r));
  let '(tabr, r) := mp_div1norm_inv tabr b b_inv r in
  ret (tabr, Z.shiftr r shift).

(** ** Powers *)

Definition pow5_table : list Z := [
    0x00000005; 0x00000019; 0x0000007d; 0x00000271;
    0x00000c35; 0x00003d09; 0x0001312d; 0x0005f5e1;
    0x001dcd65; 0x009502f9; 0x02e90edd; 0x0e8d4a51;
    0x48c27395; 0x6bcc41e9; 0x1afd498d; 0x86f26fc1;
    0xa2bc2ec5 ].
Definition pow5h_table : list Z := [0x00000001; 0x00000007; 0x00000023; 0x000000b1].
Definition pow5_inv_table : list Z := [
    0x99999999; 0x47ae147a; 0x0624dd2f; 0xa36e2eb1;
    0x4f8b588e; 0x0c6f7a0b; 0xad7f29ab; 0x5798ee23;
    0x12e0be82; 0xb7cdfd9d; 0x5fd7fe17; 0x19799812;
    0xc25c2684 ].

(** [for (i = n - 1; i >= 0; i--)], on the bits of the exponent. *)
Fixpoint pow_loop (a b : Z) (n : nat) (r : Z) : Z :=
  match n with
  | O => r
  | S i =>
      let r := u64 (r * r) in
      let r := if negb (Z.land (Z.shiftr b (Z.of_nat i)) 1 =? 0) then u64 (r * a) else r in
      pow_loop a b i r
  end.

Definition pow_ui {S} (a b : Z) : M S Z :=
  if b =? 0 then ret 1
  else if b =? 1 then ret a
  else if ((a =? 5) || (a =? 10)) && (b <=? 17) then
    r ← rd pow5_table (b - 1);
    r ← (if b >=? 14 then h ← rd pow5h_table (b - 14); ret (Z.lor r (u64 (Z.shiftl h 32))) else ret r);
    ret (if a =? 10 then u64 (Z.shiftl r b) else r)
  else
    clz ← clz32 b;
    let n_bits := 32 - clz in
    ret (pow_loop a b (Z.to_nat (n_bits - 1)) a).

(** The power, shifted up to a normalised limb; its inverse; the shift. *)
Definition pow_ui_inv {S} (a b : Z) : M S (Z * Z * Z) :=
  if (a =? 5) && (b >=? 1) && (b <=? 13) then
    r ← rd pow5_table (b - 1);
    shift ← clz32 r;
    r_inv ← rd pow5_inv_table (b - 1);
    ret (u32 (Z.shiftl r shift), r_inv, shift)
  else
    r ← pow_ui a b;
    let r := u32 r in
    shift ← clz32 r;
    let r := u32 (Z.shiftl r shift) in
    r_inv ← udiv1norm_init r;
    ret (r, r_inv, shift).

(** ** Numbers *)

(** [while (r->len > 1 && r->tab[r->len - 1] == 0) r->len--;] *)
Definition mpb_renorm : M mpb_t unit :=
  n ← gets len;
  loop (S (Z.to_nat n)) (λ _,
    l ← get_len;
    if l >? 1 then
      v ← zoom (limb (l - 1));
      if v =? 0 then set_len (l - 1);; ret (inl tt) else ret (inr tt)
    else ret (inr tt)) tt.

Definition mpb_get_bit (k : Z) : M mpb_t Z :=
  let l := k / LIMB_BITS in
  let k := Z.land k (LIMB_BITS - 1) in
  n ← get_len;
  if l >=? n then ret 0
  else v ← zoom (limb l); ret (Z.land (Z.shiftr v k) 1).

Inductive rnd_mode : Type := JS_RNDN | JS_RNDNA | JS_RNDZ.

(** [for (i = n - 1; i >= 0; i--) tab[i + l] = tab[i];] *)
Fixpoint move_up (n : nat) (l : Z) : M (list Z) unit :=
  match n with
  | O => ret tt
  | Datatypes.S i => x ← limb (Z.of_nat i); wr (Z.of_nat i + l) x;; move_up i l
  end.

(** The [or] of the [n] limbs from [i] on. *)
Fixpoint or_limbs (n : nat) (i : Z) (acc : Z) : M (list Z) Z :=
  match n with
  | O => ret acc
  | Datatypes.S n => x ← limb i; or_limbs n (i + 1) (Z.lor acc x)
  end.

(** A shift up, by less than a limb, then by [l] limbs. *)
Definition shl_bits `{BuildConfig} (shift : Z) : M mpb_t unit :=
  if negb (shift =? 0) then
    n ← get_len;
    x ← zoom (limbs 0 n);
    '(res, h) ← mp_shl x shift 0;
    zoom (set_limbs 0 res);;
    zoom (wr n h);;
    set_len (n + 1);;
    mpb_renorm
  else ret tt.

Definition shl_limbs (l : Z) : M mpb_t unit :=
  if l >? 0 then
    n ← get_len;
    zoom (move_up (Z.to_nat n) l);;
    zoom (for_up (Z.to_nat l) 0 (λ i, wr i 0));;
    set_len (n + l)
  else ret tt.

Definition shift_up_by `{BuildConfig} (shift : Z) : M mpb_t unit :=
  let l := shift / LIMB_BITS in
  let shift := Z.land shift (LIMB_BITS - 1) in
  shl_bits shift;; shl_limbs l.

(** The [or] of all the bits after [bit1]. *)
Definition bits_below (shift : Z) : M mpb_t Z :=
  if shift >=? 2 then
    let k := shift - 1 in
    let l := k / LIMB_BITS in
    let k := Z.land k (LIMB_BITS - 1) in
    n ← get_len;
    bit2 ← zoom (or_limbs (Z.to_nat (min_int l n)) 0 0);
    if l <? n then
      v ← zoom (limb l); ret (Z.lor bit2 (Z.land v (u32 (Z.shiftl 1 k) - 1)))
    else ret bit2
  else ret 0.

(** Whether one is added to the truncated quotient. *)
Definition round_up (shift : Z) (rnd : rnd_mode) : M mpb_t Z :=
  match rnd with
  | JS_RNDZ => ret 0
  | _ =>
      bit1 ← mpb_get_bit (shift - 1);
      if negb (bit1 =? 0) then
        bit2 ← (match rnd with JS_RNDNA => ret 1 | _ => bits_below shift end);
        if negb (bit2 =? 0) then ret 1 else mpb_get_bit shift
      else ret 0
  end.

(** A shift down, by [l] limbs, then by less than a limb. *)
Definition shr_limbs (l : Z) : M mpb_t unit :=
  if l >? 0 then
    n ← get_len;
    set_len (n - l);;
    zoom (for_up (Z.to_nat (n - l)) 0 (λ i, x ← limb (i + l); wr i x))
  else ret tt.

Definition shr_bits `{BuildConfig} (shift : Z) : M mpb_t unit :=
  if negb (shift =? 0) then
    n ← get_len;
    x ← zoom (limbs 0 n);
    '(res, _) ← mp_shr x shift 0;
    zoom (set_limbs 0 res);;
    mpb_renorm
  else ret tt.

Definition add_to (add_one : Z) : M mpb_t unit :=
  if negb (add_one =? 0) then
    n ← get_len;
    x ← zoom (limbs 0 n);
    let '(res, a) := mp_add_ui x 1 in
    zoom (set_limbs 0 res);;
    if negb (a =? 0) then zoom (wr n a);; set_len (n + 1) else ret tt
  else ret tt.

Definition shift_down_by `{BuildConfig} (shift add_one : Z) : M mpb_t unit :=
  let l := shift / LIMB_BITS in
  let shift := Z.land shift (LIMB_BITS - 1) in
  n ← get_len;
  if l >=? n then set_len 1;; zoom (wr 0 add_one)
  else shr_limbs l;; shr_bits shift;; add_to add_one.

Definition mpb_shr_round `{BuildConfig} (shift : Z) (rnd : rnd_mode) : M mpb_t unit :=
  if shift =? 0 then ret tt
  else if shift =? INT_MIN then throw (Undefined SignedOverflow)
  else if shift <? 0 then shift_up_by (- shift)
  else add_one ← round_up shift rnd; shift_down_by shift add_one.

Fixpoint mpb_cmp_limbs {S} (a b : list Z) (n : nat) : M S Z :=
  match n with
  | O => ret 0
  | Datatypes.S i =>
      x ← rd a (Z.of_nat i);
      y ← rd b (Z.of_nat i);
      if negb (x =? y) then ret (if x <? y then -1 else 1) else mpb_cmp_limbs a b i
  end.

Definition mpb_cmp {S} (a b : mpb_t) : M S Z :=
  if len a <? len b then ret (-1)
  else if len a >? len b then ret 1
  else mpb_cmp_limbs (tab a) (tab b) (Z.to_nat (len a)).

Definition mpb_set_u64 (m : Z) : M mpb_t unit :=
  zoom (wr 0 (u32 m));;
  zoom (wr 1 (u32 (Z.shiftr m LIMB_BITS)));;
  v ← zoom (limb 1);
  set_len (if v =? 0 then 1 else 2).

Definition mpb_get_u64 : M mpb_t Z :=
  n ← get_len;
  if n =? 1 then zoom (limb 0)
  else
    x ← zoom (limb 0);
    y ← zoom (limb 1);
    ret (Z.lor x (u64 (Z.shiftl y LIMB_BITS))).

Definition mpb_floor_log2 : M mpb_t Z :=
  n ← get_len;
  v ← zoom (limb (n - 1));
  if v =? 0 then ret (-1)
  else clz ← clz32 v; ret (n * LIMB_BITS - 1 - clz).

(** ** Examples *)

#[local] Instance asserts : BuildConfig := with_assertions.
Definition rounded (v : list Z) (shift : Z) (rnd : rnd_mode) : outcome unit * mpb_t :=
  mpb_shr_round shift rnd {| len := Z.of_nat (length v); tab := v ++ [7; 7] |}.

Example halves_to_even : rounded [5; 0x80000001] 32 JS_RNDN = (Ok tt, {| len := 1; tab := [0x80000001; 0x80000001; 7; 7] |}).
Proof. vm_compute. reflexivity. Qed.
Example carries_out : rounded [0x80000000; 0xffffffff] 32 JS_RNDN = (Ok tt, {| len := 2; tab := [0; 1; 7; 7] |}).
Proof. vm_compute. reflexivity. Qed.
