(* ===== verification/DtoaMpFacts.v ===== *)
(** * The multi-precision integers of the floating point conversions: lemmas *)
From S2P Require Import Prelude CStd Words CUtils BigIntMp BigIntMpFacts BigIntDiv BigInt BigIntFacts BigIntOps.
From S2P Require Import BigIntDivRem BigIntToText DtoaMp.

(** ** Numbers in an array *)

(** The number of the limbs [l], in an array that goes on with [post]. *)
Definition mk (l post : list Z) : mpb_t := {| DtoaMp.len := Z.of_nat (length l); tab := l ++ post |}.

Lemma get_len_run l post : get_len (mk l post) = (Ok (Z.of_nat (length l)), mk l post).
Proof. done. Qed.

Lemma limbs_all_run l post : limbs 0 (Z.of_nat (length l)) (l ++ post) = (Ok l, l ++ post).
Proof. apply (limbs_run []). Qed.

Lemma tab_run {A} (m : M (list Z) A) a l post t :
  m (l ++ post) = (Ok a, t) → zoom m (mk l post) = (Ok a, {| DtoaMp.len := Z.of_nat (length l); tab := t |}).
Proof. intros E. exact (zoom_run m a (mk l post) t E). Qed.

Lemma tab_read {A} (m : M (list Z) A) a l post :
  m (l ++ post) = (Ok a, l ++ post) → zoom m (mk l post) = (Ok a, mk l post).
Proof. intros E. by erewrite tab_run. Qed.

Lemma mk_shorter n l post x :
  n = Z.of_nat (length l) → {| DtoaMp.len := n; tab := (l ++ [x]) ++ post |} = mk l ([x] ++ post).
Proof. intros ->. unfold mk. by rewrite <-app_assoc. Qed.

(** The high limb is not 0, unless it is the only one. *)
Definition trimmed (l : list Z) : Prop := length l = 1%nat ∨ top l ≠ 0.

Lemma mpb_renorm_run l post :
  l ≠ [] →
  ∃ l' zs, mpb_renorm (mk l post) = (Ok tt, mk l' (zs ++ post)) ∧
    l = l' ++ zs ∧ val l' = val l ∧ l' ≠ [] ∧ trimmed l'.
Proof.
  intros Hne. unfold mpb_renorm. erewrite bind_run by apply get_len_run. rewrite Nat2Z.id.
  assert (length l < S (length l))%nat as Hf by lia. revert Hf. generalize (S (length l)) as fuel.
  intros fuel. revert post fuel. induction l as [|v l IH] using rev_ind; intros post fuel Hf; [done|].
  destruct fuel as [|fuel]; [lia|]. cbn [loop]. rewrite bind_bind. erewrite bind_run by apply get_len_run.
  rewrite length_app in *. cbn [length] in *. rewrite Z.gtb_ltb.
  destruct (Z.ltb_spec 1 (Z.of_nat (length l + 1))).
  - rewrite bind_bind. erewrite bind_run.
    2:{ apply tab_read. unfold limb. rewrite <-app_assoc. erewrite bind_run by done. apply rd_app. lia. }
    destruct (Z.eqb_spec v 0) as [->|Hv].
    + rewrite bind_bind. erewrite bind_run by done. rewrite bind_ret.
      assert (l ≠ []) as Hl by (destruct l; [cbn in *; lia|done]).
      destruct (IH Hl ([0] ++ post) fuel) as (l' & zs & E & El & Ev & Hne' & Ht); [lia|].
      exists l', (zs ++ [0]). split_and!.
      * rewrite <-app_assoc, <-E. f_equal. apply mk_shorter. lia.
      * by rewrite El, app_assoc.
      * by rewrite Ev, val_snoc, Z.mul_0_r, Z.add_0_r.
      * done.
      * done.
    + exists (l ++ [v]), []. rewrite !app_nil_r. split_and!; [done..|]. right. by rewrite top_snoc.
  - exists (l ++ [v]), []. rewrite !app_nil_r. split_and!; [done..|]. left. rewrite length_app. cbn. lia.
Qed.

Lemma bit_of v k : 0 ≤ k → Z.land (Z.shiftr v k) 1 = b2l (Z.testbit v k).
Proof.
  intros Hk. change 1 with (Z.ones 1) at 1. rewrite Z.land_ones, Z.shiftr_div_pow2 by lia.
  change (2 ^ 1) with 2. rewrite <-Z.testbit_spec' by done. by destruct (Z.testbit v k).
Qed.

Lemma mpb_get_bit_run l post k :
  limbs_ok l → 0 ≤ k → mpb_get_bit k (mk l post) = (Ok (b2l (Z.testbit (val l) k)), mk l post).
Proof.
  intros Hl Hk. unfold mpb_get_bit, LIMB_BITS. erewrite bind_run by apply get_len_run.
  change (32 - 1) with (Z.ones 5). rewrite Z.land_ones by lia. change (2 ^ 5) with 32.
  rewrite testbit_val by done. pose proof (Z.div_pos k 32 Hk ltac:(lia)).
  rewrite Z.geb_leb. destruct (Z.leb_spec (Z.of_nat (length l)) (k / 32)).
  - rewrite lookup_ge_None_2 by lia. cbn. by rewrite Z.bits_0.
  - destruct (lookup_lt_is_Some_2 l (Z.to_nat (k / 32)) ltac:(lia)) as [v Hv]. rewrite Hv. cbn [default from_option].
    erewrite bind_run.
    2:{ apply tab_read. unfold limb. erewrite bind_run by done. apply rd_run; [done|]. rewrite <-Hv. apply lookup_app_l. lia. }
    unfold ret. do 2 f_equal. pose proof (Z.mod_pos_bound k 32 ltac:(lia)).
    cbn. apply bit_of. lia.
Qed.

(** ** Rounding *)

(** The bits below [k], all 0 or not. *)
Lemma or_zero x y : Z.lor x y = 0 ↔ x = 0 ∧ y = 0.
Proof. apply Z.lor_eq_0_iff. Qed.

Lemma val_zero l : limbs_ok l → (val l = 0 ↔ Forall (eq 0) l).
Proof.
  induction 1 as [|v l Hv Hl IH]; [done|]. cbn [val]. pose proof (val_range l Hl). unfold fits in Hv.
  rewrite Forall_cons, <-IH. unfold B. lia.
Qed.

Lemma or_limbs_run n i acc t :
  (i + n ≤ length t)%nat →
  ∃ x, or_limbs n (Z.of_nat i) acc t = (Ok x, t) ∧ (x = 0 ↔ acc = 0 ∧ Forall (eq 0) (take n (drop i t))).
Proof.
  revert i acc. induction n as [|n IH]; intros i acc Hi.
  { exists acc. split; [done|]. rewrite take_0. split; [intros ->; done|by intros [? _]]. }
  destruct (lookup_lt_is_Some_2 t i ltac:(lia)) as [v Hv]. cbn [or_limbs].
  erewrite bind_run.
  2:{ unfold limb. erewrite bind_run by done. apply rd_run; [lia|by rewrite Nat2Z.id]. }
  replace (Z.of_nat i + 1) with (Z.of_nat (S i)) by lia.
  destruct (IH (S i) (Z.lor acc v)) as (x & E & Hx); [lia|]. exists x. split; [done|].
  rewrite Hx, or_zero, (drop_S t v i Hv). cbn [take]. rewrite Forall_cons. naive_solver.
Qed.

(** What is added to the quotient [v / 2^s]. *)
Definition increment (rnd : rnd_mode) (v s : Z) : bool :=
  match rnd with
  | JS_RNDZ => false
  | JS_RNDNA => Z.testbit v (s - 1)
  | JS_RNDN => Z.testbit v (s - 1) && (negb (v mod 2 ^ (s - 1) =? 0) || Z.testbit v s)
  end.

(** The bits of a number below a position in one of its limbs. *)
Lemma low_bits_zero l k d :
  limbs_ok l → 0 ≤ k → d = Z.to_nat (k / 32) →
  val l mod 2 ^ k = 0 ↔
  Forall (eq 0) (take d l) ∧ (∀ v, l !! d = Some v → v mod 2 ^ (k mod 32) = 0).
Proof.
  intros Hl Hk ->. rewrite (pow2_limbs k Hk). set (d := Z.to_nat (k / 32)).
  pose proof (Z.mod_pos_bound k 32 ltac:(lia)). pose proof (pow2_range (k mod 32) ltac:(lia)) as Hp.
  set (p := 2 ^ (k mod 32)) in *. destruct (decide (length l ≤ d)%nat) as [Hd|Hd].
  - rewrite take_ge, lookup_ge_None_2, <-(val_zero l Hl) by done.
    pose proof (val_range l Hl). assert (Bn (length l) ≤ Bn d) by (unfold Bn, B; apply Z.pow_le_mono_r; lia).
    rewrite Z.mod_small by nia. naive_solver.
  - destruct (lookup_lt_is_Some_2 l d ltac:(lia)) as [v Hv]. rewrite Hv.
    pose proof (take_drop_middle l d v Hv) as El. assert (length (take d l) = d) as Hlen by (rewrite length_take; lia).
    rewrite <-El, val_app, Hlen at 1. cbn [val].
    assert (limbs_ok (take d l)) as Ht by by apply Forall_take. rewrite <-(val_zero _ Ht).
    pose proof (val_range _ Ht) as Hr. rewrite Hlen in Hr. pose proof (Bn_pos d). set (V := val (take d l)) in *.
    set (W := v + B * val (drop (S d) l)). rewrite Z.rem_mul_r by lia.
    rewrite (Z.mul_comm (Bn d) W), Z.mod_add, Z.div_add, (Z.mod_small V), (Z.div_small V), Z.add_0_l by lia.
    assert (W mod p = v mod p) as ->.
    { unfold W. rewrite (pow2_split (k mod 32)) by lia. fold p.
      replace (v + _) with (v + 2 ^ (32 - k mod 32) * val (drop (S d) l) * p) by ring. apply Z.mod_add. lia. }
    pose proof (Z.mod_pos_bound v p ltac:(lia)). split.
    + intros E. assert (V = 0 ∧ v mod p = 0) as [] by nia. split; [done|]. by intros ? [= <-].
    + intros [-> E]. rewrite (E v eq_refl). lia.
Qed.

Lemma limb_of_run l post d v : l !! d = Some v → zoom (limb (Z.of_nat d)) (mk l post) = (Ok v, mk l post).
Proof.
  intros Hv. apply tab_read. unfold limb. erewrite bind_run by done. apply rd_run; [lia|].
  rewrite Nat2Z.id. by apply lookup_app_l_Some.
Qed.

Lemma bits_below_run l post s :
  limbs_ok l → 1 ≤ s →
  ∃ x, bits_below s (mk l post) = (Ok x, mk l post) ∧ (x = 0 ↔ val l mod 2 ^ (s - 1) = 0).
Proof.
  intros Hl Hs. unfold bits_below. rewrite Z.geb_leb. destruct (Z.leb_spec 2 s).
  2:{ exists 0. replace s with 1 by lia. change (2 ^ (1 - 1)) with 1. by rewrite Z.mod_1_r. }
  set (k := s - 1). unfold LIMB_BITS. change (32 - 1) with (Z.ones 5). rewrite Z.land_ones by lia. change (2 ^ 5) with 32.
  pose proof (Z.div_pos k 32 ltac:(lia) ltac:(lia)). pose proof (Z.mod_pos_bound k 32 ltac:(lia)).
  pose proof (pow2_range (k mod 32) ltac:(lia)).
  destruct (low_bits_zero l k (Z.to_nat (k / 32)) Hl ltac:(lia) eq_refl) as [Hz1 Hz2].
  set (d := Z.to_nat (k / 32)) in *. replace (k / 32) with (Z.of_nat d) by lia.
  erewrite bind_run by apply get_len_run. unfold min_int.
  assert (Z.to_nat (if Z.of_nat d <? Z.of_nat (length l) then Z.of_nat d else Z.of_nat (length l)) = Nat.min d (length l)) as ->
    by (destruct (Z.ltb_spec (Z.of_nat d) (Z.of_nat (length l))); lia).
  destruct (or_limbs_run (Nat.min d (length l)) 0 0 (l ++ post)) as (x & Ex & Hx); [rewrite length_app; lia|].
  erewrite bind_run by by apply tab_read. rewrite drop_0, take_app_le in Hx by lia.
  destruct (Z.ltb_spec (Z.of_nat d) (Z.of_nat (length l))).
  - destruct (lookup_lt_is_Some_2 l d ltac:(lia)) as [v Hv]. erewrite bind_run by by apply limb_of_run.
    eexists. split; [reflexivity|]. rewrite Z.shiftl_1_l. unfold u32. rewrite wrap_id.
    2:{ unfold fits. split; [lia|]. apply Z.pow_lt_mono_r; lia. }
    rewrite (land_ones' v (k mod 32)) by lia. rewrite or_zero, Hx. rewrite Nat.min_l by lia.
    split; [intros [[_ E1] E2]; apply Hz2; split; [done|]; by intros ? [= <-]%(eq_trans (eq_sym Hv))|].
    intros E. destruct (Hz1 E) as [E1 E2]. split; [done|by apply E2].
  - exists x. split; [done|]. rewrite Hx, Nat.min_r, firstn_all by lia.
    rewrite take_ge in Hz1, Hz2 by lia. rewrite lookup_ge_None_2 in Hz1, Hz2 by lia. naive_solver.
Qed.

Lemma round_up_run l post s rnd :
  limbs_ok l → 1 ≤ s →
  round_up s rnd (mk l post) = (Ok (b2l (increment rnd (val l) s)), mk l post).
Proof.
  intros Hl Hs. destruct rnd; [| |done]; unfold round_up, increment;
    erewrite bind_run by (apply mpb_get_bit_run; [done|lia]); destruct (Z.testbit (val l) (s - 1)); try done.
  destruct (bits_below_run l post s Hl Hs) as (x & E & Hx). cbn [b2l negb Z.eqb].
  erewrite bind_run by exact E. destruct (Z.eqb_spec x 0) as [->|Hne]; cbn [negb andb].
  - rewrite (proj1 Hx eq_refl). cbn [negb orb Z.eqb]. apply mpb_get_bit_run; [done|lia].
  - destruct (Z.eqb_spec (val l mod 2 ^ (s - 1)) 0) as [E0|]; [|done]. by apply Hx in E0.
Qed.

(** [q] is [v / d], rounded: down, or to the nearest, the middle going to the
    even one or up. *)
Definition rounds (rnd : rnd_mode) (v d q : Z) : Prop :=
  match rnd with
  | JS_RNDZ => q = v / d
  | JS_RNDN => 2 * Z.abs (v - q * d) ≤ d ∧ (2 * Z.abs (v - q * d) = d → Z.even q = true)
  | JS_RNDNA => 2 * Z.abs (v - q * d) ≤ d ∧ (2 * Z.abs (v - q * d) = d → v < q * d)
  end.

Lemma rounds_1 rnd v : rounds rnd v 1 v.
Proof. destruct rnd; cbn; [lia..|by rewrite Z.div_1_r]. Qed.

Lemma increment_rounds rnd v s :
  1 ≤ s → rounds rnd v (2 ^ s) (v / 2 ^ s + b2l (increment rnd v s)).
Proof.
  intros Hs. set (h := 2 ^ (s - 1)). assert (0 < h) by (apply Z.pow_pos_nonneg; lia).
  assert (2 ^ s = 2 * h) as E by (unfold h; rewrite <-Z.pow_succ_r by lia; f_equal; lia).
  pose proof (Z.testbit_spec' v (s - 1) ltac:(lia)) as Hb. pose proof (Z.testbit_spec' v s ltac:(lia)) as He.
  fold h in Hb. rewrite E in *. pose proof (Z.div_mod v h ltac:(lia)) as Hv. pose proof (Z.mod_pos_bound v h ltac:(lia)).
  assert (v / (2 * h) = v / h / 2) as Eq by (rewrite Z.div_div by lia; f_equal; lia).
  pose proof (Z.div_mod (v / h) 2 ltac:(lia)) as Hh. rewrite <-Hb, <-Eq in Hh. set (q := v / (2 * h)) in *.
  assert (Z.even q = negb (Z.testbit v s)) as Hev.
  { rewrite <-Z.negb_odd, <-Z.bit0_odd. unfold q. rewrite <-E, <-Z.shiftr_div_pow2, Z.shiftr_spec by lia. do 2 f_equal; lia. }
  unfold rounds, increment. fold h. destruct rnd; [| |cbn; lia]; destruct (Z.testbit v (s - 1)) eqn:Et; cbn [Z.b2z andb b2l] in *.
  2, 4: split; [nia|intros; nia].
  - destruct (Z.eqb_spec (v mod h) 0) as [E0|E0]; cbn [negb orb b2l].
    + rewrite E0 in *. destruct (Z.testbit v s) eqn:Es; cbn [b2l].
      * split; [nia|]. intros _. by rewrite Z.add_1_r, Z.even_succ, <-Z.negb_even, Hev.
      * rewrite Z.add_0_r. split; [nia|done].
    + split; [nia|intros; nia].
  - split; [nia|intros; nia].
Qed.

(** ** Moving limbs *)

Lemma move_up_run a rest d :
  (d ≤ length rest)%nat →
  move_up (length a) (Z.of_nat d) (a ++ rest) = (Ok tt, take d (a ++ rest) ++ a ++ drop d rest).
Proof.
  revert rest. induction a as [|x a IH] using rev_ind; intros rest Hd.
  { cbn. by rewrite take_drop. }
  rewrite length_app, Nat.add_1_r, <-app_assoc. cbn [move_up].
  erewrite bind_run by by apply (limb_run _ a x rest). set (t := a ++ x :: rest).
  assert (length a + d < length t)%nat as Hlt by (unfold t; rewrite !length_app; cbn; lia).
  erewrite bind_run by (apply wr_run; lia). replace (Z.to_nat _) with (length a + d)%nat by lia.
  assert (<[(length a + d)%nat := x]> t = a ++ <[d := x]> ([x] ++ rest)) as E.
  { unfold t. rewrite insert_app_r. done. }
  rewrite E, IH by (rewrite length_insert; cbn; lia). rewrite <-E, take_insert_ge by lia.
  rewrite drop_insert_ge, Nat.sub_diag by lia.
  assert (d < length ([x] ++ rest))%nat as Hd' by (cbn; lia).
  destruct (lookup_lt_is_Some_2 _ _ Hd') as [y Hy]. rewrite (drop_S _ _ _ Hy), <-app_assoc. done.
Qed.

Lemma zeros_run pre a rest :
  for_up (length a) (Z.of_nat (length pre)) (λ i, wr i 0) (pre ++ a ++ rest)
  = (Ok tt, pre ++ replicate (length a) 0 ++ rest).
Proof.
  revert pre. induction a as [|x a IH]; intros pre; [done|]. cbn [length for_up app].
  erewrite bind_run by by apply wr_here.
  specialize (IH (pre ++ [0])). rewrite length_app, <-!app_assoc in IH. cbn [length app] in IH.
  replace (Z.of_nat (length pre) + 1) with (Z.of_nat (length pre + 1)) by lia. rewrite IH. done.
Qed.

Lemma move_down_run pre rest d n :
  (n + d ≤ length rest)%nat →
  for_up n (Z.of_nat (length pre)) (λ i, x ← limb (i + Z.of_nat d); wr i x) (pre ++ rest)
  = (Ok tt, pre ++ take n (drop d rest) ++ drop n rest).
Proof.
  revert pre rest. induction n as [|n IH]; intros pre rest Hn; [done|]. cbn [for_up].
  destruct (lookup_lt_is_Some_2 rest d ltac:(lia)) as [x Hx]. destruct rest as [|y rest]; [cbn in Hn; lia|].
  assert ((pre ++ y :: rest) !! Z.to_nat (Z.of_nat (length pre) + Z.of_nat d) = Some x) as Hx'.
  { replace (Z.to_nat _) with (length pre + d)%nat by lia. rewrite lookup_app_r by lia.
    rewrite <-Hx. f_equal. lia. }
  rewrite bind_bind. erewrite bind_run by (unfold limb; erewrite bind_run by done; apply rd_run; [lia|exact Hx']).
  erewrite bind_run by by apply wr_here.
  specialize (IH (pre ++ [x]) rest). rewrite length_app, <-!app_assoc in IH. cbn [length app] in *.
  replace (Z.of_nat (length pre) + 1) with (Z.of_nat (length pre + 1)) by lia. rewrite IH by lia.
  rewrite (drop_S _ _ _ Hx). done.
Qed.

(** ** Shifts *)

(** A step of a shift: the number and the room after it are new, the array is
    as long. *)
Definition becomes (m : M mpb_t unit) (l post : list Z) (P : list Z → list Z → Prop) : Prop :=
  ∃ l' post', m (mk l post) = (Ok tt, mk l' post') ∧ limbs_ok l' ∧ l' ≠ [] ∧
    (length l' + length post' = length l + length post)%nat ∧ P l' post'.

Lemma becomes_seq (m1 m2 : M mpb_t unit) l post (P P' : list Z → list Z → Prop) :
  becomes m1 l post P →
  (∀ l1 post1, limbs_ok l1 → l1 ≠ [] → (length l1 + length post1 = length l + length post)%nat →
    P l1 post1 → becomes m2 l1 post1 P') →
  becomes (m1;; m2) l post P'.
Proof.
  intros (l1 & post1 & E1 & Hl1 & Hne1 & Hlen1 & HP) H.
  destruct (H l1 post1 Hl1 Hne1 Hlen1 HP) as (l2 & post2 & E2 & Hl2 & Hne2 & Hlen2 & HP').
  exists l2, post2. erewrite bind_run by exact E1. split_and!; [done..|lia|done].
Qed.

Lemma becomes_done l post (P : list Z → list Z → Prop) : limbs_ok l → l ≠ [] → P l post → becomes (ret tt) l post P.
Proof. intros. exists l, post. by split_and!. Qed.

Lemma becomes_renorm l post P :
  limbs_ok l → l ≠ [] →
  (∀ l' zs, limbs_ok l' → l = l' ++ zs → val l' = val l → trimmed l' → P l' (zs ++ post)) →
  becomes mpb_renorm l post P.
Proof.
  intros Hl Hne HP. destruct (mpb_renorm_run l post Hne) as (l' & zs & E & -> & Ev & Hne' & Ht).
  apply Forall_app in Hl as [Hl' Hzs]. exists l', (zs ++ post). rewrite !length_app. split_and!; [done..|lia|].
  by apply HP.
Qed.

Lemma set_all_run l res post :
  length res = length l → zoom (set_limbs 0 res) (mk l post) = (Ok tt, mk res post).
Proof.
  intros Hlen. erewrite tab_run by by apply (set_limbs_run [] l res post). unfold mk. by rewrite Hlen.
Qed.

(** The limb the bits of a shift by less than a limb may need. *)
Definition spill (s : Z) : nat := if s =? 0 then 0 else 1.

Lemma shl_bits_run `{BuildConfig} s l post :
  limbs_ok l → l ≠ [] → trimmed l → 0 ≤ s ≤ 31 → (s ≠ 0 → post ≠ []) →
  becomes (shl_bits s) l post (λ l' _, val l' = val l * 2 ^ s ∧ trimmed l' ∧ (length l' ≤ length l + spill s)%nat).
Proof.
  intros Hl Hne Ht Hs Hpost. unfold shl_bits. destruct (Z.eqb_spec s 0) as [->|Hs0]; cbn [negb].
  { apply becomes_done; [done..|]. split_and!; [lia|done|lia]. }
  destruct post as [|p post]; [by destruct (Hpost Hs0)|].
  assert (spill s = 1%nat) as Hsp by (unfold spill; by destruct (Z.eqb_spec s 0)).
  destruct (mp_shl_from_spec l s 0 Hl ltac:(lia)) as (res & h & E & Hres & Hlen & Hh & Ev); [pose proof (pow2_range s); lia|].
  assert (fits 32 h) as Hfh by (unfold fits; pose proof (pow2_range s); unfold B in *; lia).
  assert (becomes mpb_renorm (res ++ [h]) post (λ l' _, val l' = val l * 2 ^ s ∧ trimmed l' ∧ (length l' ≤ length l + spill s)%nat))
    as (l' & post' & E' & Hl' & Hne' & Hlen' & HP).
  { apply becomes_renorm; [by apply Forall_app_2; [|constructor]|by destruct res|].
    intros l' zs _ El Ev' Ht'. split_and!; [rewrite Ev', val_snoc, Hlen; lia|done|].
    apply (f_equal length) in El. rewrite !length_app in El. cbn in El. lia. }
  exists l', post'. rewrite length_app in Hlen'. cbn [length] in Hlen'. split_and!; [|done..|cbn; lia|apply HP|apply HP|apply HP].
  rewrite <-E'. erewrite bind_run by apply get_len_run. erewrite bind_run by (apply tab_read, limbs_all_run).
  erewrite bind_run. 2:{ unfold mp_shl, LIMB_BITS. rewrite Z.geb_leb. destruct (Z.leb_spec 1 s); [|lia]. destruct (Z.ltb_spec s 32); [|lia].
    erewrite bind_run by apply MOE_ASSERT_true. by rewrite E. }
  cbv beta iota. erewrite bind_run by by apply set_all_run.
  erewrite bind_run. 2:{ apply tab_run. apply wr_here. by rewrite Hlen. }
  erewrite bind_run by done. f_equal. unfold mk. rewrite <-app_assoc. f_equal. rewrite length_app. cbn. lia.
Qed.

Lemma zeros_ok d l : limbs_ok l → limbs_ok (replicate d 0 ++ l).
Proof. intros Hl. apply Forall_app. split; [|done]. apply Forall_replicate. by unfold fits. Qed.

Lemma shl_limbs_run d l post :
  limbs_ok l → l ≠ [] → (d ≤ length post)%nat →
  becomes (shl_limbs (Z.of_nat d)) l post (λ l' _, l' = replicate d 0 ++ l).
Proof.
  intros Hl Hne Hd. unfold shl_limbs. rewrite Z.gtb_ltb. destruct (Z.ltb_spec 0 (Z.of_nat d)).
  2:{ apply becomes_done; [done..|]. by replace d with 0%nat by lia. }
  exists (replicate d 0 ++ l), (drop d post). rewrite !length_app, length_replicate, length_drop.
  split_and!; [|by apply zeros_ok|by destruct d|lia|done].
  erewrite bind_run by apply get_len_run. rewrite !Nat2Z.id.
  erewrite bind_run by (apply tab_run; by apply move_up_run).
  assert (length (take d (l ++ post)) = d) as Hlen by (rewrite length_take, length_app; lia).
  erewrite bind_run.
  2:{ apply (zoom_run _ tt _ (replicate d 0 ++ l ++ drop d post)). pose proof (zeros_run [] (take d (l ++ post)) (l ++ drop d post)) as Ez.
      rewrite Hlen in Ez. exact Ez. }
  unfold mk. cbn. unfold set_len, modify. cbn. f_equal. rewrite <-app_assoc. f_equal. rewrite length_app, length_replicate. lia.
Qed.

(** ** Tops *)

Lemma top_app l l' : l' ≠ [] → top (l ++ l') = top l'.
Proof. intros Hne. destruct (exists_last Hne) as (l1 & x & ->). by rewrite app_assoc, !top_snoc. Qed.

(** A number whose high limb is not 0 is the number of that many limbs. *)
Lemma top_value l : limbs_ok l → l ≠ [] → top l ≠ 0 ↔ Bn (length l - 1) ≤ val l.
Proof.
  intros Hl Hne. destruct (exists_last Hne) as (l1 & x & ->). rewrite top_snoc, val_snoc, length_app. cbn [length].
  apply Forall_app in Hl as [Hl1 [Hx _]%Forall_cons]. replace (length l1 + 1 - 1)%nat with (length l1) by lia.
  pose proof (val_range l1 Hl1). unfold fits in Hx. nia.
Qed.

Lemma trimmed_value l : limbs_ok l → l ≠ [] → trimmed l ↔ length l = 1%nat ∨ Bn (length l - 1) ≤ val l.
Proof. intros Hl Hne. unfold trimmed. by rewrite top_value. Qed.

Lemma trimmed_top l : trimmed l → val l ≠ 0 → top l ≠ 0.
Proof.
  intros [H1|?] Hv; [|done]. destruct l as [|x [|]]; try done. cbn in *. lia.
Qed.

Lemma shift_up_by_run `{BuildConfig} k l post :
  limbs_ok l → l ≠ [] → trimmed l → 0 < k →
  (Z.to_nat (k / 32) + spill (k mod 32) ≤ length post)%nat →
  becomes (shift_up_by k) l post (λ l' _, val l' = val l * 2 ^ k ∧ (val l ≠ 0 → trimmed l')).
Proof.
  intros Hl Hne Ht Hk Hroom. unfold shift_up_by, LIMB_BITS.
  change (32 - 1) with (Z.ones 5). rewrite Z.land_ones by lia. change (2 ^ 5) with 32.
  pose proof (Z.div_pos k 32 ltac:(lia) ltac:(lia)). pose proof (Z.mod_pos_bound k 32 ltac:(lia)).
  set (d := Z.to_nat (k / 32)) in *. replace (k / 32) with (Z.of_nat d) by lia.
  eapply becomes_seq.
  { apply shl_bits_run; [done..|lia|]. intros Hs ->. unfold spill in Hroom. destruct (Z.eqb_spec (k mod 32) 0); [done|].
    cbn in Hroom. lia. }
  intros l1 post1 Hl1 Hne1 Hlen1 (Ev & Ht1 & Hle).
  destruct (shl_limbs_run d l1 post1) as (l' & post' & E & Hl' & Hne' & Hlen' & ->); [done..|lia|].
  exists (replicate d 0 ++ l1), post'. split_and!; [done..|lia| |].
  - rewrite val_app, val_replicate_0, length_replicate, Ev, (pow2_limbs k) by lia. fold d. ring.
  - intros Hv. right. rewrite top_app by done. apply trimmed_top; [done|]. rewrite Ev.
    pose proof (Z.pow_pos_nonneg 2 (k mod 32)). nia.
Qed.

Lemma mp_add_ui_spec tab b :
  limbs_ok tab → 0 ≤ b ≤ 1 →
  ∃ res c, mp_add_ui tab b = (res, c) ∧ limbs_ok res ∧ length res = length tab ∧ 0 ≤ c ≤ 1 ∧
    val res + Bn (length tab) * c = val tab + b.
Proof.
  intros H. revert b. induction H as [|t tab Ht H IH]; intros b Hb.
  { exists [], b. cbn [val length]. rewrite Bn_0. split_and!; auto; lia. }
  cbn [mp_add_ui]. destruct (Z.eqb_spec b 0) as [->|Hb0].
  { exists (t :: tab), 0. split_and!; [done|by constructor|done|lia|lia|lia]. }
  replace b with 1 in * by lia. unfold fits in Ht. change (2 ^ 32) with B in Ht.
  destruct (decide (t + 1 = B)) as [E|E].
  - assert (u32 (t + 1) = 0) as -> by (rewrite E; done).
    destruct (IH 1 ltac:(lia)) as (res & c & Eq & Hres & Hlen & Hc & Ev). cbn [Z.ltb Z.compare b2l]. rewrite Eq.
    exists (0 :: res), c. cbn [val length]. rewrite Bn_S. split_and!; [done|by constructor|lia|lia|lia|nia].
  - assert (u32 (t + 1) = t + 1) as -> by (unfold u32; apply wrap_id; unfold fits, B in *; lia).
    destruct (IH 0 ltac:(lia)) as (res & c & Eq & Hres & Hlen & Hc & Ev).
    destruct (Z.ltb_spec (t + 1) 1); [lia|]. cbn [b2l]. rewrite Eq.
    exists ((t + 1) :: res), c. cbn [val length]. rewrite Bn_S.
    split_and!; [done|constructor; [unfold fits, B in *; lia|done]|lia|lia|lia|nia].
Qed.

Lemma shr_limbs_run d l post :
  limbs_ok l → (d < length l)%nat → becomes (shr_limbs (Z.of_nat d)) l post (λ l' _, l' = drop d l).
Proof.
  intros Hl Hd. assert (l ≠ []) by (by destruct l; [cbn in Hd; lia|]).
  unfold shr_limbs. rewrite Z.gtb_ltb. destruct (Z.ltb_spec 0 (Z.of_nat d)).
  2:{ apply becomes_done; [done..|]. by replace d with 0%nat by lia. }
  set (n := (length l - d)%nat). assert (length (drop d l) = n) as Hn by (rewrite length_drop; done).
  exists (drop d l), (drop n (l ++ post)). rewrite Hn. split_and!; [|by apply Forall_drop| | |done].
  - erewrite bind_run by apply get_len_run. erewrite bind_run by done.
    replace (Z.of_nat (length l) - Z.of_nat d) with (Z.of_nat n) by lia. rewrite Nat2Z.id.
    erewrite (zoom_run _ tt _ (drop d l ++ drop n (l ++ post))).
    + unfold mk. by rewrite Hn.
    + pose proof (move_down_run [] (l ++ post) d n) as E. rewrite drop_app_le, take_app_le, firstn_all2 in E by lia.
      apply E. rewrite length_app. lia.
  - intros E. apply (f_equal length) in E. rewrite Hn in E. cbn in E. lia.
  - rewrite length_drop, length_app. lia.
Qed.

Lemma trimmed_drop d l : trimmed l → (d < length l)%nat → trimmed (drop d l).
Proof.
  intros [H1|Ht] Hd; [left; rewrite length_drop; lia|right].
  rewrite <-(take_drop d l), top_app in Ht; [done|]. intros E. apply (f_equal length) in E. rewrite length_drop in E. cbn in E. lia.
Qed.

Lemma shr_bits_run `{BuildConfig} s l post :
  limbs_ok l → l ≠ [] → trimmed l → 0 ≤ s ≤ 31 →
  becomes (shr_bits s) l post (λ l' post', val l' = val l / 2 ^ s ∧ trimmed l' ∧ (length l' ≤ length l)%nat ∧
    (s ≠ 0 → post' = [] → val l' + 1 < Bn (length l'))).
Proof.
  intros Hl Hne Ht Hs. unfold shr_bits. destruct (Z.eqb_spec s 0) as [->|Hs0]; cbn [negb].
  { apply becomes_done; [done..|]. by rewrite Z.div_1_r. }
  pose proof (js_mp_shr_spec l s 0 Hl ltac:(lia) ltac:(by unfold fits)) as (res & r & E & Hres & Hlen & Ev & _).
  cbv zeta in Ev. rewrite Z.mul_0_r, Z.add_0_r in Ev. pose proof (val_range l Hl) as Hr.
  assert (2 ≤ 2 ^ s) as H2 by (change 2 with (2 ^ 1) at 1; apply Z.pow_le_mono_r; lia).
  pose proof (Z.mul_div_le (val l) (2 ^ s) ltac:(lia)). pose proof (Z.div_pos (val l) (2 ^ s) ltac:(lia) ltac:(lia)).
  rewrite Z.mod_small in Ev by nia.
  assert (becomes mpb_renorm res post (λ l' post', val l' = val l / 2 ^ s ∧ trimmed l' ∧ (length l' ≤ length l)%nat ∧
    (s ≠ 0 → post' = [] → val l' + 1 < Bn (length l')))) as (l' & post' & E' & HP).
  { apply becomes_renorm; [done|by destruct res, l|]. intros l' zs _ El Ev' Ht'. subst res.
    rewrite length_app in Hlen. split_and!; [congruence|done|lia|]. intros _ [-> ->]%app_nil. cbn in Hlen.
    replace (length l') with (length l) by lia. rewrite Ev', Ev. assert (l ≠ []) as Hne' by done.
    destruct l as [|x l0]; [done|]. cbn [length] in *. rewrite Bn_S in *. pose proof (Bn_pos (length l0)). unfold B in *. nia. }
  exists l', post'. rewrite Hlen in HP. split; [|exact HP]. rewrite <-E'.
  erewrite bind_run by apply get_len_run. erewrite bind_run by (apply tab_read, limbs_all_run).
  erewrite bind_run. 2:{ unfold mp_shr, LIMB_BITS. rewrite Z.geb_leb. destruct (Z.leb_spec 1 s); [|lia]. destruct (Z.ltb_spec s 32); [|lia].
    erewrite bind_run by apply MOE_ASSERT_true. by rewrite E. }
  cbv beta iota. by erewrite bind_run by by apply set_all_run.
Qed.

Lemma add_to_run (add : bool) l post :
  limbs_ok l → l ≠ [] → trimmed l → (post = [] → val l + 1 < Bn (length l)) →
  becomes (add_to (b2l add)) l post (λ l' _, val l' = val l + b2l add ∧ trimmed l').
Proof.
  intros Hl Hne Ht Hroom. unfold add_to. destruct add; cbn [b2l negb Z.eqb].
  2:{ apply becomes_done; [done..|]. split; [lia|done]. }
  destruct (mp_add_ui_spec l 1 Hl ltac:(lia)) as (res & c & E & Hres & Hlen & Hc & Ev).
  assert (res ≠ []) as Hner by by destruct res, l. apply trimmed_value in Ht; [|done..].
  assert ((n ← get_len; x ← zoom (limbs 0 n);
    let '(res, a) := mp_add_ui x 1 in zoom (set_limbs 0 res);;
    if negb (a =? 0) then zoom (wr n a);; set_len (n + 1) else ret tt) (mk l post) =
    ((if negb (c =? 0) then zoom (wr (Z.of_nat (length l)) c);; set_len (Z.of_nat (length l) + 1) else ret tt) (mk res post))) as Erun.
  { erewrite bind_run by apply get_len_run. erewrite bind_run by (apply tab_read, limbs_all_run). rewrite E.
    cbv beta iota. by erewrite bind_run by by apply set_all_run. }
  destruct (Z.eqb_spec c 0) as [->|Hc0]; cbn [negb] in Erun.
  - exists res, post. rewrite Hlen. split_and!; [exact Erun|done..|lia|]. apply trimmed_value; [done..|].
    rewrite Hlen. destruct Ht as [?|?]; [by left|right; lia].
  - replace c with 1 in * by lia. destruct post as [|x post].
    { specialize (Hroom eq_refl). pose proof (val_range res Hres). lia. }
    exists (res ++ [1]), post. rewrite length_app, Hlen. split_and!.
    + rewrite Erun. erewrite bind_run by (apply tab_run, wr_here; by rewrite Hlen).
      unfold set_len, modify, mk. cbn. f_equal. rewrite <-app_assoc. f_equal. rewrite length_app, Hlen. cbn. lia.
    + apply Forall_app_2; [done|]. constructor; [by unfold fits|done].
    + by destruct res.
    + cbn. lia.
    + rewrite val_snoc, Hlen. lia.
    + right. by rewrite top_snoc.
Qed.

Lemma shift_down_by_run `{BuildConfig} k (add : bool) l post :
  limbs_ok l → l ≠ [] → trimmed l → 0 < k →
  becomes (shift_down_by k (b2l add)) l post (λ l' _, val l' = val l / 2 ^ k + b2l add ∧ trimmed l').
Proof.
  intros Hl Hne Ht Hk. unfold shift_down_by, LIMB_BITS.
  change (32 - 1) with (Z.ones 5). rewrite Z.land_ones by lia. change (2 ^ 5) with 32.
  pose proof (Z.div_pos k 32 ltac:(lia) ltac:(lia)). pose proof (Z.mod_pos_bound k 32 ltac:(lia)).
  pose proof (Z.div_mod k 32 ltac:(lia)). pose proof (pow2_range (k mod 32) ltac:(lia)).
  pose proof (pow2_limbs k ltac:(lia)) as Hpow. set (d := Z.to_nat (k / 32)) in *.
  replace (k / 32) with (Z.of_nat d) in * by lia. pose proof (Bn_pos d). pose proof (val_range l Hl).
  unfold becomes. setoid_rewrite bind_run; [|apply get_len_run]. rewrite Z.geb_leb.
  destruct (Z.leb_spec (Z.of_nat (length l)) (Z.of_nat d)) as [Hd|Hd].
  - destruct l as [|x l]; [done|]. exists [b2l add], (l ++ post). split_and!.
    + erewrite bind_run by done. by erewrite (zoom_run _ tt _ (b2l add :: l ++ post)).
    + constructor; [by destruct add|done].
    + done.
    + cbn. rewrite length_app. lia.
    + assert (Bn (length (x :: l)) ≤ Bn d) by (unfold Bn, B; apply Z.pow_le_mono_r; lia).
      rewrite Z.div_small by nia. cbn [val]. lia.
    + by left.
  - eapply (becomes_seq _ (shr_bits (k mod 32);; add_to (b2l add))); [apply shr_limbs_run; [done|lia]|].
    intros l1 post1 Hl1 Hne1 Hlen1 ->. rewrite length_drop in Hlen1.
    eapply becomes_seq; [apply shr_bits_run; [done..|apply trimmed_drop; [done|lia]|lia]|].
    intros l2 post2 Hl2 Hne2 Hlen2 (Ev & Ht2 & Hle & Hslack). rewrite length_drop in Hlen2, Hle.
    assert (val (drop d l) = val l / Bn d) as Ed.
    { rewrite <-(take_drop d l) at 2. rewrite val_app, length_take, Nat.min_l by lia.
      assert (limbs_ok (take d l)) as Htk by by apply Forall_take. pose proof (val_range _ Htk) as Hr.
      rewrite length_take, Nat.min_l in Hr by lia. rewrite (Z.mul_comm (Bn d)), Z.div_add, Z.div_small by lia. lia. }
    destruct (add_to_run add l2 post2) as (l3 & post3 & E3 & Hl3 & Hne3 & Hlen3 & Ev3 & Ht3); [done..| |].
    { intros ->. apply Hslack; [|done]. cbn in Hlen2. lia. }
    exists l3, post3. split_and!; [done..|lia| |done]. rewrite Ev3, Ev, Ed, Hpow, Z.div_div by lia. done.
Qed.

Lemma mpb_shr_round_run `{BuildConfig} k rnd l post :
  limbs_ok l → l ≠ [] → trimmed l → INT_MIN < k →
  (k < 0 → (Z.to_nat (- k / 32) + spill (- k mod 32) ≤ length post)%nat) →
  becomes (mpb_shr_round k rnd) l post (λ l' _,
    (if k <? 0 then val l' = val l * 2 ^ (- k) else rounds rnd (val l) (2 ^ k) (val l')) ∧
    (val l ≠ 0 ∨ 0 ≤ k → trimmed l')).
Proof.
  intros Hl Hne Ht Hk Hroom. unfold mpb_shr_round. destruct (Z.eqb_spec k 0) as [->|Hk0].
  { apply becomes_done; [done..|]. split; [apply rounds_1|done]. }
  destruct (Z.eqb_spec k INT_MIN); [lia|]. destruct (Z.ltb_spec k 0).
  - destruct (shift_up_by_run (- k) l post) as (l' & post' & E & ? & ? & ? & ? & Htr); [done..|lia|auto|].
    exists l', post'. split_and!; [done..|]. intros [?|?]; [auto|lia].
  - destruct (shift_down_by_run k (increment rnd (val l) k) l post) as (l' & post' & E & ? & ? & ? & Ev & ?); [done..|lia|].
    exists l', post'. erewrite bind_run by (apply round_up_run; [done|lia]).
    split_and!; [done..| |done]. rewrite Ev. apply increment_rounds. lia.
Qed.

(** ** Powers *)

Lemma pow_loop_exact a b n r :
  r = a ^ (b / 2 ^ Z.of_nat n) mod 2 ^ 64 → 0 ≤ b → pow_loop a b n r = a ^ b mod 2 ^ 64.
Proof.
  intros Hr Hb. revert r Hr. induction n as [|i IH]; intros r Hr; cbn [pow_loop].
  { by rewrite Z.div_1_r in Hr. }
  apply IH. set (q := b / 2 ^ Z.of_nat i). assert (0 ≤ q) by (apply Z.div_pos; [done|apply Z.pow_pos_nonneg; lia]).
  assert (b / 2 ^ Z.of_nat (S i) = q / 2) as E.
  { unfold q. rewrite Nat2Z.inj_succ, Z.pow_succ_r, (Z.mul_comm 2), <-Z.div_div by (try apply Z.pow_nonzero; lia). done. }
  rewrite E in Hr. rewrite bit_of by lia. pose proof (Z.testbit_spec' b (Z.of_nat i) ltac:(lia)) as Hbit. fold q in Hbit.
  pose proof (Z.div_mod q 2 ltac:(lia)) as Hq. rewrite <-Hbit in Hq. pose proof (Z.div_pos q 2 ltac:(lia) ltac:(lia)).
  assert (u64 (r * r) = a ^ (2 * (q / 2)) mod 2 ^ 64) as Hsq.
  { unfold u64, wrap. rewrite Hr, <-Z.mul_mod by lia. f_equal. rewrite <-Z.pow_add_r by lia. f_equal. lia. }
  rewrite Hsq. destruct (Z.testbit b (Z.of_nat i)); cbn [b2l Z.eqb negb Z.b2z] in *.
  - unfold u64, wrap. rewrite Z.mul_mod_idemp_l by lia. f_equal. rewrite (Z.mul_comm _ a), <-Z.pow_succ_r by lia. f_equal. lia.
  - do 2 f_equal. lia.
Qed.

Lemma pow_ui_run {S} a b (s : S) :
  fits 32 a → fits 32 b → pow_ui a b s = (Ok (a ^ b mod 2 ^ 64), s).
Proof.
  intros Ha Hb. unfold fits in *. unfold pow_ui. destruct (Z.eqb_spec b 0) as [->|Hb0]; [done|].
  destruct (Z.eqb_spec b 1) as [->|Hb1]; [rewrite Z.pow_1_r, Z.mod_small by lia; done|].
  destruct (((a =? 5) || (a =? 10)) && (b <=? 17)) eqn:Et.
  - apply andb_true_iff in Et as [Ea Eb%Z.leb_le].
    assert (∃ n, (n < 16)%nat ∧ b = 2 + Z.of_nat n) as (n & Hn & ->) by (exists (Z.to_nat (b - 2)); lia).
    apply orb_true_iff in Ea as [->%Z.eqb_eq| ->%Z.eqb_eq]; clear -Hn;
      do 16 (destruct n as [|n]; [by vm_compute|]); lia.
  - unfold clz32. destruct (Z.eqb_spec b 0); [done|]. rewrite bind_ret. unfold ret. do 2 f_equal.
    apply pow_loop_exact; [|lia]. pose proof (Z.log2_nonneg b). pose proof (log2_bounds b ltac:(lia)).
    replace (Z.of_nat _) with (Z.log2 b) by lia.
    replace (b / 2 ^ Z.log2 b) with 1; [rewrite Z.pow_1_r, Z.mod_small; lia|].
    apply Z.div_unique with (b - 2 ^ Z.log2 b); lia.
Qed.

(** The inverse of a normalised limb. *)
Definition inverse (d v : Z) : Prop := fits 32 v ∧ ∃ e, 1 ≤ e ≤ d ∧ (B + v) * d = B * B - e.

(** The inverses of the table. *)
Definition check_inverse (b r v k : Z) : bool :=
  (r =? 5 ^ b * 2 ^ k) && (0 <=? k) && (k <=? 31) && (B <=? 2 * r) && (r <? B) &&
  (0 <=? v) && (v <? B) && (1 <=? B * B - (B + v) * r) && (B * B - (B + v) * r <=? r).

Lemma inverses_checked {S} b (s : S) :
  1 ≤ b ≤ 13 → ∃ r v k, pow_ui_inv 5 b s = (Ok (r, v, k), s) ∧ check_inverse b r v k = true.
Proof.
  intros Hb. assert (∃ n, (n < 13)%nat ∧ b = 1 + Z.of_nat n) as (n & Hn & ->) by (exists (Z.to_nat (b - 1)); lia).
  clear -Hn. do 13 (destruct n as [|n];
    [match goal with |- context [pow_ui_inv 5 ?b s] =>
       match eval vm_compute in (pow_ui_inv 5 b tt) with (Ok (?r, ?v, ?k), _) => exists r, v, k; by vm_compute end end|]).
  lia.
Qed.

Lemma clz32_normalises {S} r (s : S) :
  fits 32 r → r ≠ 0 →
  ∃ k, clz32 r s = (Ok k, s) ∧ 0 ≤ k ≤ 31 ∧ u32 (Z.shiftl r k) = r * 2 ^ k ∧ normalised (r * 2 ^ k).
Proof.
  intros Hr Hr0. destruct (clz_limb_run S r Hr Hr0) as (k & E & Hk & Hlo & Hhi). exists k.
  unfold js_limb_clz in E. specialize (E s). destruct (Z.eqb_spec r 0); [done|]. split_and!; [done|lia|lia| |].
  - rewrite Z.shiftl_mul_pow2 by lia. unfold u32. apply wrap_id. unfold fits in *. nia.
  - unfold normalised, B. change (2 ^ 32) with (2 * 2 ^ 31) in *. nia.
Qed.

Lemma pow_ui_inv_run {S} a b (s : S) :
  fits 32 a → fits 32 b → 0 < a ^ b < B →
  ∃ k v, pow_ui_inv a b s = (Ok (a ^ b * 2 ^ k, v, k), s) ∧ 0 ≤ k ≤ 31 ∧
    normalised (a ^ b * 2 ^ k) ∧ inverse (a ^ b * 2 ^ k) v.
Proof.
  intros Ha Hb Hp. destruct ((a =? 5) && (b >=? 1) && (b <=? 13)) eqn:Et.
  - rewrite !andb_true_iff, Z.geb_leb, Z.leb_le, Z.leb_le in Et. destruct Et as [[->%Z.eqb_eq Hb1] Hb2].
    destruct (inverses_checked b s ltac:(lia)) as (r & v & k & E & Hc). unfold check_inverse in Hc.
    rewrite !andb_true_iff, !Z.leb_le, !Z.ltb_lt, Z.eqb_eq in Hc.
    destruct Hc as [[[[[[[[-> ?] ?] ?] ?] ?] ?] ?] ?]. exists k, v.
    split; [done|]. split; [lia|]. split; [unfold normalised; lia|].
    split; [unfold fits; change (2 ^ 32) with B; lia|]. exists (B * B - (B + v) * (5 ^ b * 2 ^ k)). lia.
  - unfold pow_ui_inv. rewrite Et. erewrite bind_run by by apply pow_ui_run. unfold B in Hp.
    rewrite (Z.mod_small _ (2 ^ 64)) by lia. assert (u32 (a ^ b) = a ^ b) as -> by (apply wrap_id; unfold fits; lia).
    destruct (clz32_normalises (a ^ b) s) as (k & E & Hk & Ek & Hnorm); [unfold fits; lia|lia|].
    erewrite bind_run by exact E. rewrite Ek.
    destruct (js_udiv1norm_init_spec (a ^ b * 2 ^ k) s Hnorm) as (v & e & Ev & Hv & He & Hinv).
    exists k, v. erewrite bind_run by exact Ev. split; [done|]. split; [lia|]. split; [done|]. split; [done|]. by exists e.
Qed.

Lemma mp_div1norm_run `{BuildConfig} {S} t p k v r (s : S) :
  limbs_ok t → 0 ≤ k ≤ 31 → normalised (p * 2 ^ k) → inverse (p * 2 ^ k) v → 0 ≤ r < p →
  ∃ res r', mp_div1norm t (p * 2 ^ k) r v k s = (Ok (res, r'), s) ∧ limbs_ok res ∧ length res = length t ∧
    0 ≤ r' < p ∧ val t + Bn (length t) * r = val res * p + r'.
Proof.
  intros Ht Hk Hn (Hv & e & He & Hinv) Hr. pose proof (pow2_range k ltac:(lia)) as Hp.
  assert (∃ t1 r1, (if negb (k =? 0) then '(tabr, h) ← mp_shl t k 0; ret (tabr, Z.lor (u32 (Z.shiftl r k)) h)
     else ret (t, r)) s = (Ok (t1, r1), s) ∧ limbs_ok t1 ∧ length t1 = length t ∧ 0 ≤ r1 < p * 2 ^ k ∧
     val t1 + Bn (length t) * r1 = (val t + Bn (length t) * r) * 2 ^ k) as (t1 & r1 & E1 & Ht1 & Hl1 & Hr1 & Ev1).
  { destruct (Z.eqb_spec k 0) as [->|Hk0]; cbn [negb].
    { exists t, r. split_and!; auto; lia. }
    destruct (mp_shl_from_spec t k 0 Ht ltac:(lia) ltac:(lia)) as (res & h & E & Hres & Hlen & Hh & Ev).
    exists res, (r * 2 ^ k + h). split_and!; [|done|done|nia|nia|lia].
    erewrite bind_run. 2:{ unfold mp_shl, LIMB_BITS. rewrite Z.geb_leb. destruct (Z.leb_spec 1 k); [|lia]. destruct (Z.ltb_spec k 32); [|lia].
      erewrite bind_run by apply MOE_ASSERT_true. by rewrite E. }
    cbv beta iota. unfold ret. do 3 f_equal. unfold u32. rewrite wrap_id.
    - rewrite Z.shiftl_mul_pow2 by lia. apply lor_high_low; [lia|done].
    - rewrite Z.shiftl_mul_pow2 by lia. unfold normalised in Hn. unfold fits. change (2 ^ 32) with B. nia. }
  destruct (mp_div1norm_inv_spec t1 (p * 2 ^ k) v e r1) as (res & r' & E2 & Hres & Hlen & Hr' & Ev2); [done..|].
  unfold mp_div1norm. erewrite bind_run by exact E1. cbv beta iota. rewrite E2.
  rewrite Hl1 in *. rewrite Ev1 in Ev2. exists res, (r' / 2 ^ k). rewrite Z.shiftr_div_pow2 by lia.
  assert (r' = (val t + Bn (length t) * r - val res * p) * 2 ^ k) as -> by nia.
  rewrite Z.div_mul by lia. split_and!; [done..|nia|nia|lia].
Qed.

(** ** Comparison, and 64-bit numbers *)

Lemma mpb_cmp_limbs_run {S} a b n (s : S) :
  limbs_ok a → limbs_ok b → (n ≤ length a)%nat → (n ≤ length b)%nat →
  ∀ postA postB, mpb_cmp_limbs (a ++ postA) (b ++ postB) n s
  = (Ok (Z.sgn (val (take n a) - val (take n b))), s).
Proof.
  intros Ha Hb Hna Hnb postA postB. induction n as [|i IH]; [done|]. cbn [mpb_cmp_limbs].
  destruct (lookup_lt_is_Some_2 a i ltac:(lia)) as [x Hx]. destruct (lookup_lt_is_Some_2 b i ltac:(lia)) as [y Hy].
  erewrite bind_run by (apply rd_run; [lia|]; rewrite Nat2Z.id; by apply lookup_app_l_Some).
  erewrite bind_run by (apply rd_run; [lia|]; rewrite Nat2Z.id; by apply lookup_app_l_Some).
  rewrite (take_S_r _ _ _ Hx), (take_S_r _ _ _ Hy), !val_snoc, !length_take, !Nat.min_l by lia.
  assert (limbs_ok (take i a)) as Hta by by apply Forall_take. assert (limbs_ok (take i b)) as Htb by by apply Forall_take.
  pose proof (val_range _ Hta) as Ra. pose proof (val_range _ Htb) as Rb.
  rewrite length_take, Nat.min_l in Ra, Rb by lia. pose proof (Bn_pos i).
  destruct (Z.eqb_spec x y) as [->|Hxy]; cbn [negb].
  - rewrite IH by lia. do 3 f_equal. lia.
  - unfold ret. do 2 f_equal. destruct (Z.ltb_spec x y); [rewrite Z.sgn_neg; [done|nia]|rewrite Z.sgn_pos; [done|nia]].
Qed.

Lemma mpb_cmp_run {S} a b postA postB (s : S) :
  limbs_ok a → limbs_ok b → a ≠ [] → b ≠ [] → trimmed a → trimmed b →
  mpb_cmp (mk a postA) (mk b postB) s = (Ok (Z.sgn (val a - val b)), s).
Proof.
  intros Ha Hb Hna Hnb Hta Htb. unfold mpb_cmp. cbn [DtoaMp.len tab mk].
  pose proof (val_range a Ha). pose proof (val_range b Hb).
  apply trimmed_value in Hta; [|done..]. apply trimmed_value in Htb; [|done..].
  assert (∀ x y : list Z, x ≠ [] → (length x < length y)%nat → Bn (length x) ≤ Bn (length y - 1) ∧ length y ≠ 1%nat) as Hle.
  { intros x y Hx Hl. destruct x; [done|]. cbn [length] in *. split; [unfold Bn, B; apply Z.pow_le_mono_r; lia|lia]. }
  destruct (Z.ltb_spec (Z.of_nat (length a)) (Z.of_nat (length b))).
  { destruct (Hle a b Hna ltac:(lia)). rewrite Z.sgn_neg; [done|]. lia. }
  rewrite Z.gtb_ltb. destruct (Z.ltb_spec (Z.of_nat (length b)) (Z.of_nat (length a))).
  { destruct (Hle b a Hnb ltac:(lia)). rewrite Z.sgn_pos; [done|]. lia. }
  rewrite Nat2Z.id, mpb_cmp_limbs_run by (done || lia). rewrite !take_ge by lia. done.
Qed.

Lemma mpb_set_u64_run m x y post len0 :
  fits 64 m →
  ∃ l post', mpb_set_u64 m {| DtoaMp.len := len0; tab := x :: y :: post |} = (Ok tt, mk l post') ∧
    limbs_ok l ∧ l ≠ [] ∧ trimmed l ∧ val l = m ∧ (length l + length post' = S (S (length post)))%nat ∧
    mpb_get_u64 (mk l post') = (Ok m, mk l post').
Proof.
  intros Hm. unfold mpb_set_u64. set (h := u32 (Z.shiftr m LIMB_BITS)).
  erewrite bind_run by by (apply zoom_run, (wr_here 0 _ [])). 
  erewrite bind_run by by (apply zoom_run, (wr_here 1 _ [u32 m])).
  erewrite bind_run by by (apply zoom_run, (limb_run 1 [u32 m])).
  assert (h = m / B) as Eh.
  { unfold h, u32, LIMB_BITS. rewrite Z.shiftr_div_pow2 by lia. apply wrap_id.
    unfold fits in *. change (2 ^ 64) with (2 ^ 32 * 2 ^ 32) in Hm.
    destruct Hm. split; [by apply Z.div_pos|by apply Z.div_lt_upper_bound]. }
  pose proof (u32_split m) as Hs. rewrite <-Eh in Hs. pose proof (u32_fits m) as Hf.
  assert (fits 32 h) as Hh by apply u32_fits. 
  destruct (Z.eqb_spec h 0) as [E0|E0].
  - exists [u32 m], (h :: post). split_and!; [done|constructor; done|done|by left|cbn [val]; unfold B in *; lia|done|].
    unfold mpb_get_u64. erewrite bind_run by apply get_len_run.
    change (Z.of_nat (length [u32 m]) =? 1) with true. cbv iota.
    rewrite (limb_of_run _ _ 0 (u32 m)) by done. do 2 f_equal. symmetry. etransitivity; [exact Hs|]. rewrite E0. lia.
  - exists [u32 m; h], post. split_and!; [done|constructor; [done|by constructor]|done|by right|cbn [val]; unfold B in *; lia|done|].
    unfold mpb_get_u64. erewrite bind_run by apply get_len_run.
    change (Z.of_nat (length [u32 m; h]) =? 1) with false. cbv iota.
    erewrite bind_run by by apply (limb_of_run _ _ 0). erewrite bind_run by by apply (limb_of_run _ _ 1).
    unfold ret. do 2 f_equal. unfold LIMB_BITS, u64. unfold fits in *. rewrite Z.shiftl_mul_pow2, wrap_id by (unfold fits; lia).
    rewrite lor_low_high by (unfold fits; lia). unfold B in *. lia.
Qed.

Lemma mpb_floor_log2_run l post :
  limbs_ok l → l ≠ [] → trimmed l →
  mpb_floor_log2 (mk l post) = (Ok (if val l =? 0 then -1 else Z.log2 (val l)), mk l post).
Proof.
  intros Hl Hne Ht. pose proof (trimmed_top l Ht) as Htop. destruct (exists_last Hne) as (l1 & x & E).
  assert (top l = x) as Ex by (subst l; apply top_snoc).
  unfold mpb_floor_log2. erewrite bind_run by apply get_len_run.
  assert (l !! length l1 = Some x) as Hx by (subst l; by apply list_lookup_middle).
  erewrite bind_run. 2:{ replace (Z.of_nat (length l) - 1) with (Z.of_nat (length l1)) by
    (subst l; rewrite length_app; cbn; lia). by apply limb_of_run. }
  subst l. apply Forall_app in Hl as [Hl1 [Hf _]%Forall_cons]. rewrite Ex in *. rewrite val_snoc in *.
  pose proof (val_range l1 Hl1). pose proof (Bn_pos (length l1)). unfold fits in Hf.
  destruct (Z.eqb_spec x 0) as [->|Hx0].
  - destruct (Z.eqb_spec (val l1 + Bn (length l1) * 0) 0) as [|Hv]; [done|]. by destruct (Htop Hv).
  - destruct (Z.eqb_spec (val l1 + Bn (length l1) * x) 0) as [Hv|_]; [nia|].
    unfold clz32. destruct (Z.eqb_spec x 0); [done|]. rewrite bind_ret. unfold ret. do 2 f_equal.
    rewrite log2_limbs by (done || lia). unfold LIMB_BITS. rewrite length_app. cbn. lia.
Qed.
