(* ===== verification/DtoaMpProps.v ===== *)
(** * The multi-precision integers of the floating point conversions: what they compute *)
From S2P Require Import Prelude CStd Words CUtils BigIntMp BigIntMpFacts BigIntDiv BigInt BigIntFacts BigIntOps.
From S2P Require Import DtoaMp DtoaMpFacts.

(** C36: [mpb_shr_round(r, shift, rnd_mode)] rounds [r / 2^shift] the way the mode
    says: toward 0; to the nearest with ties to the even one; to the nearest
    with ties away from 0. With a negative shift it is the exact product. The
    number stays without leading zero limbs ([0] shifted up apart) and every
    write is inside the array: a shift down, whose carry may need a limb more,
    never asks for room that a shift by that many bits has not made. *)
Theorem shr_round_rounds `{BuildConfig} shift rnd l post :
  limbs_ok l → l ≠ [] → trimmed l → INT_MIN < shift →
  (shift < 0 → (Z.to_nat (- shift / 32) + spill (- shift mod 32) ≤ length post)%nat) →
  ∃ l' post', mpb_shr_round shift rnd (mk l post) = (Ok tt, mk l' post') ∧
    limbs_ok l' ∧ (length l' + length post' = length l + length post)%nat ∧
    (if shift <? 0 then val l' = val l * 2 ^ (- shift) else rounds rnd (val l) (2 ^ shift) (val l')) ∧
    (val l ≠ 0 ∨ 0 ≤ shift → trimmed l').
Proof.
  intros Hl Hne Ht Hs Hroom.
  destruct (mpb_shr_round_run shift rnd l post) as (l' & post' & E & Hl' & _ & Hlen & HP); [done..|].
  by exists l', post'.
Qed.

(** Half of an odd number, [2^32 + 1], in one limb and no room. *)
Lemma shr_round_rounds_witness :
  ∃ l' post', mpb_shr_round (H := with_assertions) 1 JS_RNDN (mk [1; 1] []) = (Ok tt, mk l' post') ∧
    limbs_ok l' ∧ (length l' + length post' = 2)%nat ∧
    rounds JS_RNDN (2 ^ 32 + 1) 2 (val l') ∧ (val [1; 1] ≠ 0 ∨ 0 ≤ 1 → trimmed l').
Proof.
  apply (shr_round_rounds (H := with_assertions) 1 JS_RNDN [1; 1] []); [|done|by right|done|done].
  by repeat constructor.
Defined.

(** The powers of the conversions and the division by them: [pow_ui(a, b)] is
    [a^b] modulo [2^64], from the tables or by squaring; and, for a power that
    fits in a limb, [mp_div1norm] with what [pow_ui_inv] gives (the power
    shifted up, its inverse, from the table or computed, and the shift) is the
    division by [a^b] with a remainder in. *)
Theorem power_division_exact `{BuildConfig} {S} a b t r (s : S) :
  fits 32 a → fits 32 b → limbs_ok t →
  pow_ui a b s = (Ok (a ^ b mod 2 ^ 64), s) ∧
  (0 ≤ r < a ^ b → a ^ b < 2 ^ 32 →
   ∃ p v k res r', pow_ui_inv a b s = (Ok (p, v, k), s) ∧ mp_div1norm t p r v k s = (Ok (res, r'), s) ∧
     limbs_ok res ∧ length res = length t ∧ 0 ≤ r' < a ^ b ∧
     val t + Bn (length t) * r = val res * a ^ b + r').
Proof.
  intros Ha Hb Ht. split; [by apply pow_ui_run|]. intros Hr Hp.
  destruct (pow_ui_inv_run a b s Ha Hb) as (k & v & E & Hk & Hn & Hi); [unfold B; lia|].
  destruct (mp_div1norm_run t (a ^ b) k v r s) as (res & r' & E' & HP); [done..|].
  by exists (a ^ b * 2 ^ k), v, k, res, r'.
Qed.

(** The last power of the table of inverses. *)
Lemma power_division_exact_witness :
  pow_ui 5 13 tt = (Ok 1220703125, tt) ∧
  (0 ≤ 7 < 5 ^ 13 → 5 ^ 13 < 2 ^ 32 →
   ∃ p v k res r', pow_ui_inv 5 13 tt = (Ok (p, v, k), tt) ∧
     mp_div1norm (H := without_assertions) [1; 2; 3] p 7 v k tt = (Ok (res, r'), tt) ∧
     limbs_ok res ∧ length res = 3%nat ∧ 0 ≤ r' < 5 ^ 13 ∧
     val [1; 2; 3] + Bn 3 * 7 = val res * 5 ^ 13 + r').
Proof.
  apply (power_division_exact (H := without_assertions) 5 13 [1; 2; 3] 7 tt); [done|done|].
  by repeat constructor.
Defined.

(** A 64-bit number that is set is the value of the array and is read back;
    [mpb_floor_log2] is the position of its highest bit (-1 for 0); and
    [mpb_cmp] orders the numbers as their values. *)
Theorem mpb_words_and_order {S} m x y post len0 b postb (s : S) :
  fits 64 m → limbs_ok b → b ≠ [] → trimmed b →
  ∃ l post', mpb_set_u64 m {| len := len0; tab := x :: y :: post |} = (Ok tt, mk l post') ∧
    val l = m ∧
    mpb_get_u64 (mk l post') = (Ok m, mk l post') ∧
    mpb_floor_log2 (mk l post') = (Ok (if m =? 0 then -1 else Z.log2 m), mk l post') ∧
    mpb_cmp (mk l post') (mk b postb) s = (Ok (Z.sgn (m - val b)), s).
Proof.
  intros Hm Hb Hne Ht.
  destruct (mpb_set_u64_run m x y post len0 Hm) as (l & post' & E & Hl & Hnl & Htl & Ev & _ & Eg).
  exists l, post'. split_and!; [done..| |].
  - rewrite <-Ev. by apply mpb_floor_log2_run.
  - rewrite <-Ev. by apply mpb_cmp_run.
Qed.

Lemma mpb_words_and_order_witness :
  ∃ l post', mpb_set_u64 (2 ^ 40) {| len := 1; tab := [0; 0] |} = (Ok tt, mk l post') ∧
    val l = 2 ^ 40 ∧
    mpb_get_u64 (mk l post') = (Ok (2 ^ 40), mk l post') ∧
    mpb_floor_log2 (mk l post') = (Ok 40, mk l post') ∧
    mpb_cmp (mk l post') (mk [9] []) tt = (Ok 1, tt).
Proof.
  apply (mpb_words_and_order (2 ^ 40) 0 0 [] 1 [9] [] tt); [done| |done|by left].
  by repeat constructor.
Defined.
