(* ===== verification/Dtoa.v ===== *)
(** * Floating point numbers to text

    [js_dtoa] of [src/vendors/qjs/quickjs/dtoa.c] and the routines under it: a
    number times a power of the radix, rounded to an integer or to a double, and
    the digits of an [mpb_t]. A [double] is its 64 bits. The state of [js_dtoa]
    is the buffer it prints into and the two [mpb_t] of its temporary memory; an
    index of the buffer is a pointer. *)
From S2P Require Import Prelude CStd Words CUtils BigIntMp Digits DtoaMp.

(** ** Tables *)

Definition DBIGNUM_LEN_MAX : Z := 52.
Definition MANT_LEN_MAX : Z := 18.

Definition digits_per_limb_table : list Z := [
    32;20;16;13;12;11;10;10; 9; 9; 8; 8; 8; 8; 8; 7; 7; 7; 7; 7; 7; 7; 6; 6; 6; 6; 6; 6; 6; 6; 6; 6; 6; 6; 6 ].

Definition radix_base_table : list Z := [
    0x00000000; 0xcfd41b91; 0x00000000; 0x48c27395;
    0x81bf1000; 0x75db9c97; 0x40000000; 0xcfd41b91;
    0x3b9aca00; 0x8c8b6d2b; 0x19a10000; 0x309f1021;
    0x57f6c100; 0x98c29b81; 0x00000000; 0x18754571;
    0x247dbc80; 0x3547667b; 0x4c4b4000; 0x6b5a6e1d;
    0x94ace180; 0xcaf18367; 0x0b640000; 0x0e8d4a51;
    0x1269ae40; 0x17179149; 0x1cb91000; 0x23744899;
    0x2b73a840; 0x34e63b41; 0x40000000; 0x4cfa3cc1;
    0x5c13d840; 0x6d91b519; 0x81bf1000 ].

Definition dtoa_max_digits_table : list Z := [
    54; 35; 28; 24; 22; 20; 19; 18; 17; 17; 16; 16; 15; 15; 15; 14; 14; 14; 14; 14; 13; 13; 13; 13; 13; 13; 13;
    12; 12; 12; 12; 12; 12; 12; 12 ].

(** ** Powers of the radix *)

(** [h = mp_mul1(a->tab, a->tab, a->len, b, 0); if (h != 0) a->tab[a->len++] = h;] *)
Definition push_limb (n h : Z) : M mpb_t unit :=
  if negb (h =? 0) then zoom (wr n h);; set_len (n + 1) else ret tt.
Definition mul_limb (b : Z) : M mpb_t unit :=
  len ← get_len;
  x ← zoom (limbs 0 len);
  let '(res, h) := mp_mul1 x b 0 in
  zoom (set_limbs 0 res);;
  push_limb len h.

(** [r = mp_div1norm(a->tab, a->tab, a->len, b, 0, b_inv, shift); mpb_renorm(a);] *)
Definition div_limb `{BuildConfig} (b b_inv shift : Z) : M mpb_t Z :=
  len ← get_len;
  x ← zoom (limbs 0 len);
  '(res, r) ← mp_div1norm x b 0 b_inv shift;
  zoom (set_limbs 0 res);;
  mpb_renorm;;
  ret r.

(** [while (f != 0)], up: the limb [b] is [radix1^n0]. *)
Definition mul_up_turn (radix1 d : Z) : Z * Z * Z → M mpb_t (Z * Z * Z + unit) := λ '(f, n0, b),
  if f =? 0 then ret (inr tt)
  else
    let n := min_int f d in
    b ← (if negb (n =? n0) then r ← pow_ui radix1 n; ret (u32 r) else ret b);
    mul_limb b;;
    ret (inl (f - n, n, b)).

(** The same, down: the state ends with the [or] of the remainders. *)
Definition div_down_turn `{BuildConfig} (radix1 d : Z) :
    Z * Z * (Z * Z * Z) * Z → M mpb_t (Z * Z * (Z * Z * Z) * Z + Z) := λ '(f, n0, (b, b_inv, shift), rem),
  if f =? 0 then ret (inr rem)
  else
    let n := min_int f d in
    '(b, b_inv, shift) ← (if negb (n =? n0) then pow_ui_inv radix1 n else ret (b, b_inv, shift));
    r ← div_limb b b_inv shift;
    ret (inl (f - n, n, (b, b_inv, shift), Z.lor rem r)).

(** [a * (radix1 * 2^radix_shift)^f] is [a' * 2^(-e_offset)], a bit standing for
    what is lost below. *)
Definition mul_pow `{BuildConfig} (radix1 radix_shift f : Z) (is_int : bool) (e : Z) : M mpb_t Z :=
  let e_offset := - f * radix_shift in
  if negb (radix1 =? 1) then
    d ← rd digits_per_limb_table (radix1 - 2);
    if f >=? 0 then
      loop (S (Z.to_nat f)) (mul_up_turn radix1 d) (f, 0, 0);;
      ret e_offset
    else
      let f := - f in
      let l := (f + d - 1) / d in
      let e_offset := e_offset + l * LIMB_BITS in
      extra_bits ← (if negb is_int then
                      v ← mpb_floor_log2; ret (max_int (e - v) 0)
                    else ret (max_int (2 + e - e_offset) 0));
      let e_offset := e_offset + extra_bits in
      mpb_shr_round (- (l * LIMB_BITS + extra_bits)) JS_RNDZ;;
      rem ← loop (S (Z.to_nat f)) (div_down_turn radix1 d) (f, 0, (0, 0, 0), 0);
      t ← zoom (limb 0);
      zoom (wr 0 (Z.lor t (b2l (negb (rem =? 0)))));;
      ret e_offset
  else ret e_offset.

Definition mul_pow_round `{BuildConfig} (m e radix1 radix_shift f : Z) (rnd : rnd_mode) : M mpb_t unit :=
  mpb_set_u64 m;;
  e_offset ← mul_pow radix1 radix_shift f true e;
  mpb_shr_round (- e + e_offset) rnd.

(** [m << k] on 64 bits. *)
Definition shl64 {S} (m k : Z) : M S Z :=
  if (0 <=? k) && (k <? 64) then ret (u64 (Z.shiftl m k)) else throw (Undefined BadOperand).

(** The mantissa and the exponent [*pe]. *)
Definition round_to_d `{BuildConfig} (e_offset : Z) (rnd : rnd_mode) : M mpb_t (Z * Z) :=
  t ← zoom (limb 0);
  n ← get_len;
  if (t =? 0) && (n =? 1) then ret (0, 0)
  else
    v ← mpb_floor_log2;
    let e := v + 1 - e_offset in
    let prec1 := 53 in
    let e_min := -1021 in
    let prec := if e <? e_min then prec1 - (e_min - e) else prec1 in
    mpb_shr_round (e + e_offset - prec) rnd;;
    m ← mpb_get_u64;
    m ← shl64 m (53 - prec);
    ret (if m >=? 2 ^ 53 then (Z.shiftr m 1, e + 1) else (m, e)).

Definition mul_pow_round_to_d `{BuildConfig} (radix1 radix_shift f : Z) (rnd : rnd_mode) : M mpb_t (Z * Z) :=
  e_offset ← mul_pow radix1 radix_shift f false 55;
  round_to_d e_offset rnd.

(** ** The state of [js_dtoa] *)

Record dtoa_mem : Type := { out : list Z; tmp1 : mpb_t; mant_max : mpb_t }.

Definition out_lens : Lens dtoa_mem (list Z).
Proof.
  refine {| view := out; put := λ b s, {| out := b; tmp1 := tmp1 s; mant_max := mant_max s |} |}; [done|by intros []|done].
Defined.
Definition tmp1_lens : Lens dtoa_mem mpb_t.
Proof.
  refine {| view := tmp1; put := λ t s, {| out := out s; tmp1 := t; mant_max := mant_max s |} |}; [done|by intros []|done].
Defined.
Definition mant_lens : Lens dtoa_mem mpb_t.
Proof.
  refine {| view := mant_max; put := λ t s, {| out := out s; tmp1 := tmp1 s; mant_max := t |} |}; [done|by intros []|done].
Defined.

Definition on_out {A} (m : M (list Z) A) : M dtoa_mem A := zoom (H := out_lens) m.
Definition on_tmp1 {A} (m : M mpb_t A) : M dtoa_mem A := zoom (H := tmp1_lens) m.
Definition on_mant {A} (m : M mpb_t A) : M dtoa_mem A := zoom (H := mant_lens) m.

(** ** Digits *)

(** [memmove(buf + dst, buf + src, n)] *)
Definition memmove (dst src n : Z) : M (list Z) unit := l ← limbs src n; set_limbs dst l.

(** The digits of a power of two, from the last ones. *)
Definition bin_digits_turn `{BuildConfig} (buf radix_bits digits_per_limb : Z) (n_digits : Z) : M dtoa_mem (Z + unit) :=
  let n := min_int n_digits digits_per_limb in
  let n_digits := n_digits - n in
  t ← on_tmp1 (zoom (limb 0));
  on_out (u64toa_bin_len (buf + n_digits) t radix_bits (Z.to_nat n));;
  if n_digits =? 0 then ret (inr tt)
  else on_tmp1 (mpb_shr_round (digits_per_limb * radix_bits) JS_RNDZ);; ret (inl n_digits).

(** The digits of another radix, by divisions by its largest power in a limb. *)
Definition limb_digits_turn (buf radix digits_per_limb : Z) (n_digits : Z) : M dtoa_mem (Z + unit) :=
  if n_digits =? 0 then ret (inr tt)
  else
    let n := min_int n_digits digits_per_limb in
    let n_digits := n_digits - n in
    base ← rd radix_base_table (radix - 2);
    len ← on_tmp1 get_len;
    x ← on_tmp1 (zoom (limbs 0 len));
    '(res, r) ← mp_div1 x base 0;
    on_tmp1 (zoom (set_limbs 0 res));;
    on_tmp1 mpb_renorm;;
    on_out (limb_to_a (buf + n_digits) r radix (Z.to_nat n));;
    ret (inl n_digits).

(** The number is in [tmp1]. *)
Definition output_digits `{BuildConfig} (buf radix n_digits1 dot_pos : Z) : M dtoa_mem Z :=
  radix_bits ← (if Z.land radix (radix - 1) =? 0 then clz ← clz32 radix; ret (31 - clz) else ret 0);
  digits_per_limb ← rd digits_per_limb_table (radix - 2);
  (if negb (radix_bits =? 0)
   then loop (S (Z.to_nat n_digits1)) (bin_digits_turn buf radix_bits digits_per_limb) n_digits1
   else loop (S (Z.to_nat n_digits1)) (limb_digits_turn buf radix digits_per_limb) n_digits1);;
  if negb (dot_pos =? n_digits1) then
    on_out (memmove (buf + dot_pos + 1) (buf + dot_pos) (n_digits1 - dot_pos));;
    on_out (wr (buf + dot_pos) ($"."));;
    ret (n_digits1 + 1)
  else ret n_digits1.

(** ** Formats *)

Definition JS_DTOA_MAX_DIGITS : Z := 101.
Definition JS_DTOA_FORMAT_FREE : Z := 0.
Definition JS_DTOA_FORMAT_FIXED : Z := 1.
Definition JS_DTOA_FORMAT_FRAC : Z := 2.
Definition JS_DTOA_FORMAT_MASK : Z := 3.
Definition JS_DTOA_EXP_AUTO : Z := 0.
Definition JS_DTOA_EXP_ENABLED : Z := 4.
Definition JS_DTOA_EXP_DISABLED : Z := 8.
Definition JS_DTOA_EXP_MASK : Z := 12.
Definition JS_DTOA_MINUS_ZERO : Z := 16.

(** [d] is [float64_as_uint64(d)]. *)
Definition js_dtoa_max_len {S} (d radix n_digits flags : Z) : M S Z :=
  let fmt := Z.land flags JS_DTOA_FORMAT_MASK in
  let e := Z.land (Z.shiftr d 52) 0x7ff in
  n ← (if negb (fmt =? JS_DTOA_FORMAT_FRAC) then
         n ← (if fmt =? JS_DTOA_FORMAT_FREE then rd dtoa_max_digits_table (radix - 2) else ret n_digits);
         if Z.land flags JS_DTOA_EXP_MASK =? JS_DTOA_EXP_DISABLED then
           if e =? 0x7ff then ret 0
           else k ← mul_log2_radix (e - 1023 - 1) radix; ret (n + (10 + Z.abs k))
         else ret (n + (1 + 1 + 6))
       else if e =? 0x7ff then ret 0
       else
         let e := e - 1023 in
         n ← (if e <? 0 then ret 1 else k ← mul_log2_radix (e - 1) radix; ret (2 + k));
         ret (n + (1 + 1 + 1 + n_digits)));
  ret (max_int n 9).

(** [while ((mant % radix) == 0)] *)
Definition strip_zero_digits {S} (radix mant P : Z) : M S (Z * Z) :=
  loop 65 (λ '(mant, P),
    if mant mod radix =? 0 then ret (inl (mant / radix, P - 1)) else ret (inr (mant, P))) (mant, P).

(** The mantissa of [P] digits and its exponent, from [E] on. *)
Definition free_mantissa `{BuildConfig} (m e radix radix1 radix_shift P mant_max1 : Z) (E : Z) : M dtoa_mem (Z * Z) :=
  loop 3 (λ E,
    on_tmp1 (mul_pow_round m (e - 53) radix1 radix_shift (P - E) JS_RNDN);;
    mant ← on_tmp1 mpb_get_u64;
    ret (if mant <? mant_max1 then inr (mant, E) else inl (E + 1))) E.

(** One try of the free format: [P] digits; what was found before is
    [(P_found, E_found, mant_found)]. *)
Definition free_turn `{BuildConfig} (m e radix radix1 radix_shift E0 : Z) :
    Z * (Z * Z * Z) → M dtoa_mem (Z * (Z * Z * Z) + Z * Z * Z) := λ '(P, found),
  mant_max1 ← pow_ui radix P;
  '(mant, E) ← free_mantissa m e radix radix1 radix_shift P mant_max1 E0;
  '(mant, P) ← strip_zero_digits radix mant P;
  good ← (if found.1.1 =? 0 then ret true
          else
            on_tmp1 (mpb_set_u64 mant);;
            '(m1, e1) ← on_tmp1 (mul_pow_round_to_d radix1 radix_shift (E - P) JS_RNDN);
            ret ((m1 =? m) && (e1 =? e)));
  ret (if (good : bool) then if P =? 1 then inr (P, E, mant) else inl (P - 1, (P, E, mant))
       else inr found).

(** [P] and [E]; the mantissa is left in [tmp1]. *)
Definition free_format `{BuildConfig} (m e radix radix1 radix_shift E0 : Z) : M dtoa_mem (Z * Z) :=
  P_max ← rd dtoa_max_digits_table (radix - 2);
  '(P, E, mant_found) ← loop 55 (free_turn m e radix radix1 radix_shift E0) (P_max, (0, 0, 0));
  on_tmp1 (mpb_set_u64 mant_found);;
  ret (P, E).

(** Fractional format, at [q]: the end of what is printed. One digit more is
    printed on the left and removed when it is a 0. *)
Definition frac_format `{BuildConfig} (q m e radix radix1 radix_shift n_digits E : Z) : M dtoa_mem Z :=
  c_assert ((n_digits >=? 0) && (n_digits <=? JS_DTOA_MAX_DIGITS));;
  on_tmp1 (mul_pow_round m (e - 53) radix1 radix_shift n_digits JS_RNDNA);;
  len ← output_digits q radix (max_int (E + 1) 1 + n_digits) (max_int (E + 1) 1);
  c0 ← on_out (limb q);
  extra ← (if (c0 =? $"0") && (len >=? 2) then c1 ← on_out (limb (q + 1)); ret (negb (c1 =? $".")) else ret false);
  if (extra : bool) then
    on_out (memmove q (q + 1) (len - 1));;
    ret (q + (len - 1))
  else ret (q + len).

(** Fixed format: the mantissa is left in [tmp1], the exponent is returned. *)
Definition fixed_format `{BuildConfig} (m e radix1 radix_shift P E : Z) : M dtoa_mem Z :=
  c_assert ((P >=? 1) && (P <=? JS_DTOA_MAX_DIGITS));;
  on_mant (zoom (wr 0 1);; set_len 1);;
  pow_shift ← on_mant (mul_pow radix1 radix_shift P false 0);
  on_mant (mpb_shr_round pow_shift JS_RNDZ);;
  loop 3 (λ E,
    on_tmp1 (mul_pow_round m (e - 53) radix1 radix_shift (P - E) JS_RNDNA);;
    t ← gets tmp1;
    max ← gets mant_max;
    c ← mpb_cmp t max;
    ret (if c <? 0 then inr E else inl (E + 1))) E.

(** [for(i = 0; i < n; i++) *q++ = '0';] *)
Definition put_zeros (q n : Z) : M dtoa_mem Z :=
  on_out (for_up (Z.to_nat n) q (λ i, wr i ($"0")));; ret (q + Z.max n 0).

(** The label [output]: the [P] digits of [tmp1], and where the point is. *)
Definition output_number `{BuildConfig} (q radix radix1 radix_shift n_digits flags P E : Z) : M dtoa_mem Z :=
  let fmt := Z.land flags JS_DTOA_FORMAT_MASK in
  E_max ← (if fmt =? JS_DTOA_FORMAT_FIXED then ret n_digits
           else n ← rd dtoa_max_digits_table (radix - 2); ret (n + 4));
  let exp := Z.land flags JS_DTOA_EXP_MASK in
  if (exp =? JS_DTOA_EXP_ENABLED) || ((exp =? JS_DTOA_EXP_AUTO) && ((E <=? -6) || (E >? E_max))) then
    l ← output_digits q radix P 1;
    let q := q + l in
    let E := E - 1 in
    let '(E, c) := if radix =? 10 then (E, $"e")
                   else if (radix1 =? 1) && (radix_shift <=? 4) then (E * radix_shift, $"p")
                   else (E, $"@") in
    on_out (wr q c);;
    let '(E, c) := if E <? 0 then (- E, $"-") else (E, $"+") in
    on_out (wr (q + 1) c);;
    l ← on_out (u32toa (q + 2) (u32 E));
    ret (q + 2 + l)
  else if E <=? 0 then
    on_out (wr q ($"0"));;
    on_out (wr (q + 1) ($"."));;
    q ← put_zeros (q + 2) (- E);
    l ← output_digits q radix P P;
    ret (q + l)
  else
    l ← output_digits q radix P (min_int P E);
    put_zeros (q + l) (E - P).

(** The words a block takes in the temporary memory. *)
Definition dtoa_words (limbs : Z) : Z := (4 + 4 * limbs + 7) / 8.

(** The number [2^(e-53) * m], positive, at [q]. *)
Definition print_finite `{BuildConfig} (q m e radix radix1 radix_shift n_digits flags : Z) : M dtoa_mem Z :=
  let fmt := Z.land flags JS_DTOA_FORMAT_MASK in
  let fast := (fmt =? JS_DTOA_FORMAT_FREE) && (e >=? 1) && (e <=? 53) &&
              (Z.land m (u64 (Z.shiftl 1 (53 - e)) - 1) =? 0) &&
              negb (Z.land flags JS_DTOA_EXP_MASK =? JS_DTOA_EXP_ENABLED) in
  if fast then l ← on_out (u64toa_radix q (Z.shiftr m (53 - e)) radix); ret (q + l)
  else
    k ← mul_log2_radix (e - 1) radix;
    let E := 1 + k in
    if fmt =? JS_DTOA_FORMAT_FREE then
      '(P, E) ← free_format m e radix radix1 radix_shift E;
      output_number q radix radix1 radix_shift n_digits flags P E
    else if fmt =? JS_DTOA_FORMAT_FRAC then frac_format q m e radix radix1 radix_shift n_digits E
    else
      E ← fixed_format m e radix1 radix_shift n_digits E;
      output_number q radix radix1 radix_shift n_digits flags n_digits E.

(** [*q++ = '-'] *)
Definition put_sign (sgn : bool) (q : Z) : M dtoa_mem Z :=
  if sgn then on_out (wr q ($"-"));; ret (q + 1) else ret q.

(** What is printed at the start of the buffer before its end is marked. *)
Definition print_double `{BuildConfig} (d radix radix1 radix_shift n_digits flags : Z) : M dtoa_mem Z :=
  let sgn := negb (Z.shiftr d 63 =? 0) in
  let e := Z.land (Z.shiftr d 52) 0x7ff in
  let m := Z.land d (2 ^ 52 - 1) in
  if e =? 0x7ff then
    if m =? 0 then
      q ← put_sign sgn 0;
      on_out (memcpy q (chars "Infinity"));; ret (q + 8)
    else on_out (memcpy 0 (chars "NaN"));; ret 3
  else if (e =? 0) && (m =? 0) then
    on_tmp1 (set_len 1;; zoom (wr 0 0));;
    let fmt := Z.land flags JS_DTOA_FORMAT_MASK in
    let P := if fmt =? JS_DTOA_FORMAT_FREE then 1
             else if fmt =? JS_DTOA_FORMAT_FRAC then n_digits + 1 else n_digits in
    q ← put_sign (sgn && negb (Z.land flags JS_DTOA_MINUS_ZERO =? 0)) 0;
    output_number q radix radix1 radix_shift n_digits flags P 1
  else
    '(m, e) ← (if e =? 0 then
                 clz ← clz64 m;
                 let l := clz - 11 in
                 m ← shl64 m l; ret (m, e - (l - 1))
               else ret (Z.lor m (2 ^ 52), e));
    q ← put_sign sgn 0;
    print_finite q m (e - 1022) radix radix1 radix_shift n_digits flags.

(** The length of what is printed, with a [0] after it. *)
Definition js_dtoa `{BuildConfig} (d radix n_digits flags : Z) : M dtoa_mem Z :=
  c_assert (dtoa_words DBIGNUM_LEN_MAX + dtoa_words MANT_LEN_MAX <=? 37);;
  radix_shift ← ctz32 radix;
  let radix1 := Z.shiftr radix radix_shift in
  q ← print_double d radix radix1 radix_shift n_digits flags;
  on_out (wr q 0);;
  ret q.

(** ** Examples *)

#[local] Instance asserts : BuildConfig := with_assertions.
Definition fresh_mem : dtoa_mem :=
  {| out := replicate 130 (-1); tmp1 := {| len := 7; tab := replicate 52 77 |}; mant_max := {| len := 8; tab := replicate 18 99 |} |}.
Definition dtoa_text (d radix n_digits flags : Z) : option (list Z) :=
  match js_dtoa d radix n_digits flags fresh_mem with
  | (Ok l, s) => Some (take (Z.to_nat l) (out s))
  | _ => None
  end.

(** 0.1, -1.5e300, the smallest number, pi in radix 3, 1/3 with 20 decimals. *)
Example dtoa_tenth : dtoa_text 0x3fb999999999999a 10 0 JS_DTOA_FORMAT_FREE = Some (chars "0.1").
Proof. vm_compute. reflexivity. Qed.
Example dtoa_large : dtoa_text 0xfe41eb2d66005835 10 0 JS_DTOA_FORMAT_FREE = Some (chars "-1.5e+300").
Proof. vm_compute. reflexivity. Qed.
Example dtoa_small : dtoa_text 1 10 0 JS_DTOA_FORMAT_FREE = Some (chars "5e-324").
Proof. vm_compute. reflexivity. Qed.
Example dtoa_third : dtoa_text 0x3fd5555555555555 10 20 JS_DTOA_FORMAT_FRAC = Some (chars "0.33333333333333331483").
Proof. vm_compute. reflexivity. Qed.
Example dtoa_fixed : dtoa_text 0x40c81cd6e631f8a1 10 5 JS_DTOA_FORMAT_FIXED = Some (chars "12346").
Proof. vm_compute. reflexivity. Qed.
