(* ===== verification/Atod.v ===== *)
(** * Text to floating point numbers

    [js_atod] of [src/vendors/qjs/quickjs/dtoa.c]. The text is the list of the
    characters of a C string with its terminator, an index of it a pointer; the
    state is the [mpb_t] of the temporary memory; a [double] is its 64 bits.
    [int] operations that may overflow are checked. *)
From S2P Require Import Prelude CStd Words CUtils BigIntMp DtoaMp Dtoa.

(** ** Tables *)

Definition atod_max_digits_table : list Z := [
     64; 80; 32; 55; 49; 45; 21; 40; 38; 37; 35; 34; 33; 32; 16; 31; 30; 30; 29; 29; 28; 28; 27; 27; 27; 26; 26;
     26; 26; 25; 12; 25; 25; 24; 24 ].

Definition max_exponent : list Z := [
     1024;   647;   512;   442;   397;   365;   342;   324;
      309;   297;   286;   277;   269;   263;   256;   251;
      246;   242;   237;   234;   230;   227;   224;   221;
      218;   216;   214;   211;   209;   207;   205;   203;
      202;   200;   199 ].

Definition min_exponent : list Z := [
    -1075;  -679;  -538;  -463;  -416;  -383;  -359;  -340;
     -324;  -311;  -300;  -291;  -283;  -276;  -269;  -263;
     -258;  -254;  -249;  -245;  -242;  -238;  -235;  -232;
     -229;  -227;  -224;  -222;  -220;  -217;  -215;  -214;
     -212;  -210;  -208 ].

Definition JS_ATOD_INT_ONLY : Z := 1.
Definition JS_ATOD_ACCEPT_BIN_OCT : Z := 2.
Definition JS_ATOD_ACCEPT_LEGACY_OCTAL : Z := 4.
Definition JS_ATOD_ACCEPT_UNDERSCORES : Z := 8.

(** A value of type [int]. *)
Definition int_check {S} (z : Z) : M S Z := int_add z 0.

(** ** Digits *)

Definition to_digit (c : Z) : Z :=
  if (c >=? $"0") && (c <=? $"9") then c - $"0"
  else if (c >=? $"A") && (c <=? $"Z") then c - $"A" + 10
  else if (c >=? $"a") && (c <=? $"z") then c - $"a" + 10
  else 36.

(** [r = r * radix_base + a], the base [0] being [2^32]. *)
Definition mpb_mul1_base (radix_base a : Z) : M mpb_t unit :=
  t ← zoom (limb 0);
  n ← get_len;
  if (t =? 0) && (n =? 1) then zoom (wr 0 a)
  else
    (if radix_base =? 0 then
       zoom (move_up (Datatypes.S (Z.to_nat n)) 1);;
       zoom (wr 0 a)
     else
       x ← zoom (limbs 0 n);
       let '(res, h) := mp_mul1 x radix_base a in
       zoom (set_limbs 0 res);;
       zoom (wr n h));;
    set_len (n + 1);;
    mpb_renorm.

Section atod.
Context (text : list Z) (flags : Z).

Definition has (flag : Z) : bool := negb (Z.land flags flag =? 0).
Definition at_ {S} (p : Z) : M S Z := rd text p.

(** [*p == c1 || *p == c2] *)
Definition is_at {S} (p c1 c2 : Z) : M S bool := c ← at_ p; ret ((c =? c1) || (c =? c2)).

(** ** The radix of a prefix *)

Inductive prefix_result : Type :=
  | Prefix (radix sep p : Z)
  | PrefixFail (p : Z)
  | PrefixInfinity (p : Z).

(** There must be a digit after the prefix. *)
Definition after_prefix {S} (radix sep p : Z) : M S prefix_result :=
  c ← at_ p; ret (if to_digit (u8 c) >=? radix then PrefixFail p else Prefix radix sep p).

(** [for (i = 1; (p[i] >= '0' && p[i] <= '7'); i++)], from [p + 1]. *)
Definition skip_octal {S} (p : Z) : M S Z :=
  loop (Datatypes.S (length text)) (λ p, c ← at_ p; ret (if (c >=? $"0") && (c <=? $"7") then inl (p + 1) else inr p)) p.

Definition scan_prefix {S} (radix sep p : Z) : M S prefix_result :=
  c ← at_ p;
  if c =? $"0" then
    c1 ← at_ (p + 1);
    if ((c1 =? $"x") || (c1 =? $"X")) && ((radix =? 0) || (radix =? 16)) then after_prefix 16 sep (p + 2)
    else if ((c1 =? $"o") || (c1 =? $"O")) && (radix =? 0) && has JS_ATOD_ACCEPT_BIN_OCT then after_prefix 8 sep (p + 2)
    else if ((c1 =? $"b") || (c1 =? $"B")) && (radix =? 0) && has JS_ATOD_ACCEPT_BIN_OCT then after_prefix 2 sep (p + 2)
    else if (c1 >=? $"0") && (c1 <=? $"9") && (radix =? 0) && has JS_ATOD_ACCEPT_LEGACY_OCTAL then
      i ← skip_octal (p + 1);
      nine ← is_at i ($"8") ($"9");
      if (nine : bool) then ret (Prefix radix 256 p) else after_prefix 8 256 (p + 1)
    else ret (Prefix radix sep p)
  else
    if has JS_ATOD_INT_ONLY then ret (Prefix radix sep p)
    else
      o ← js__strstart (drop (Z.to_nat p) text) (chars "Infinity" ++ [0]);
      ret (match o with Some n => PrefixInfinity (p + n) | None => Prefix radix sep p end).

(** ** The digits *)

(** [*p == '.' && (p > p_start || to_digit(p[1]) < radix) && !(flags & JS_ATOD_INT_ONLY)] *)
Definition is_point {S} (radix p_start p : Z) : M S bool :=
  c ← at_ p;
  if c =? $"." then
    d ← (if p >? p_start then ret true else c1 ← at_ (p + 1); ret (to_digit c1 <? radix));
    ret (d && negb (has JS_ATOD_INT_ONLY))
  else ret false.

(** The point, at [p] or not: [None] is [goto fail], [Some (inl p)] is [break]. *)
Definition scan_point {S} (radix sep p_start : Z) (p pos dot_pos : Z) : M S (option (Z + Z * Z)) :=
  point ← is_point radix p_start p;
  if (point : bool) then
    c ← at_ p;
    ret (if c =? sep then None else if dot_pos >=? 0 then Some (inl p) else Some (inr (p + 1, pos)))
  else ret (Some (inr (p, dot_pos))).

(** [if ( *p == sep && p > p_start && ...) p++;] *)
Definition skip_sep {S} (sep p_start p : Z) (ok : Z → bool) : M S Z :=
  c ← at_ p;
  if (c =? sep) && (p >? p_start) then c1 ← at_ (p + 1); ret (if ok c1 then p + 1 else p)
  else ret p.

(** A turn of the loop that skips the leading zeros: [p], [pos] and [dot_pos]. *)
Definition zeros_turn {S} (radix sep p_start : Z) : Z * Z * Z → M S (Z * Z * Z + option (Z * Z * Z)) :=
  λ '(p, pos, dot_pos),
  o ← scan_point radix sep p_start p pos dot_pos;
  match o with
  | None => ret (inr None)
  | Some (inl p) => ret (inr (Some (p, pos, dot_pos)))
  | Some (inr (p, dot_pos)) =>
      p ← skip_sep sep p_start p (λ c1, c1 =? $"0");
      c ← at_ p;
      ret (if negb (c =? $"0") then inr (Some (p, pos, dot_pos)) else inl (p + 1, pos + 1, dot_pos))
  end.

(** What the loop on the significant digits keeps. *)
Record digits_state : Type := {
  ds_p : Z; ds_pos : Z; ds_dot : Z;
  cur_limb : Z; limb_digit_count : Z; digit_count : Z; extra_digits : Z }.

(** One significant digit. *)
Definition take_digit (radix max_digits digits_per_limb radix_base c : Z) (s : digits_state) : M mpb_t digits_state :=
  let s := {| ds_p := ds_p s + 1; ds_pos := ds_pos s + 1; ds_dot := ds_dot s; cur_limb := cur_limb s;
              limb_digit_count := limb_digit_count s; digit_count := digit_count s; extra_digits := extra_digits s |} in
  if digit_count s <? max_digits then
    let cur := u32 (cur_limb s * radix + c) in
    let n := limb_digit_count s + 1 in
    '(cur, n) ← (if n =? digits_per_limb then mpb_mul1_base radix_base cur;; ret (0, 0) else ret (cur, n));
    ret {| ds_p := ds_p s; ds_pos := ds_pos s; ds_dot := ds_dot s; cur_limb := cur;
           limb_digit_count := n; digit_count := digit_count s + 1; extra_digits := extra_digits s |}
  else
    ret {| ds_p := ds_p s; ds_pos := ds_pos s; ds_dot := ds_dot s; cur_limb := cur_limb s;
           limb_digit_count := limb_digit_count s; digit_count := digit_count s;
           extra_digits := Z.lor (extra_digits s) c |}.

(** The position and the point after what was scanned. *)
Definition with_point (p dot : Z) (s : digits_state) : digits_state :=
  {| ds_p := p; ds_pos := ds_pos s; ds_dot := dot; cur_limb := cur_limb s;
     limb_digit_count := limb_digit_count s; digit_count := digit_count s; extra_digits := extra_digits s |}.

Definition digits_turn (radix sep p_start max_digits digits_per_limb radix_base : Z) (s : digits_state) :
    M mpb_t (digits_state + option digits_state) :=
  o ← scan_point radix sep p_start (ds_p s) (ds_pos s) (ds_dot s);
  match o with
  | None => ret (inr None)
  | Some (inl _) => ret (inr (Some s))
  | Some (inr (p, dot)) =>
      p ← skip_sep sep p_start p (λ c1, to_digit c1 <? radix);
      c ← at_ p;
      let c := to_digit c in
      let s := with_point p dot s in
      if c >=? radix then ret (inr (Some s))
      else s ← take_digit radix max_digits digits_per_limb radix_base c s; ret (inl s)
  end.

(** ** The exponent *)

(** What follows the digits: none, an exponent, or [goto fail]. *)
Inductive expn_result : Type :=
  | Expn (p expn : Z) (is_bin_exp exp_is_neg expn_overflow : bool)
  | ExpnFail (p : Z).

Definition is_exponent {S} (radix radix_bits p_start p : Z) : M S bool :=
  if has JS_ATOD_INT_ONLY then ret false
  else
    c ← at_ p;
    ret ((((radix =? 10) && ((c =? $"e") || (c =? $"E")))
          || (negb (radix =? 10) && ((c =? $"@") || ((radix_bits >=? 1) && (radix_bits <=? 4) && ((c =? $"p") || (c =? $"P"))))))
         && (p >? p_start)).

Definition expn_turn {S} (sep : Z) : Z * Z * bool → M S (Z * Z * bool + Z * Z * bool) := λ '(p, expn, over),
  c ← at_ p;
  p ← (if c =? sep then c1 ← at_ (p + 1); ret (if to_digit c1 <? 10 then p + 1 else p) else ret p);
  c ← at_ p;
  let c := to_digit c in
  ret (if c >=? 10 then inr (p, expn, over)
       else if over then inl (p + 1, expn, over)
       else if expn >? (INT_MAX - 2 - 9) / 10 then inl (p + 1, expn, true)
       else inl (p + 1, expn * 10 + c, over)).

Definition scan_exponent {S} (radix radix_bits sep p_start p : Z) : M S expn_result :=
  exponent ← is_exponent radix radix_bits p_start p;
  if (exponent : bool) then
    is_bin_exp ← is_at p ($"p") ($"P");
    let p := p + 1 in
    c ← at_ p;
    let '(p, exp_is_neg) := if c =? $"+" then (p + 1, false) else if c =? $"-" then (p + 1, true) else (p, false) in
    c ← at_ p;
    let c := to_digit c in
    if c >=? 10 then ret (ExpnFail p)
    else
      '(p, expn, over) ← loop (Datatypes.S (length text)) (expn_turn sep) (p + 1, c, false);
      ret (Expn p (if exp_is_neg then - expn else expn) is_bin_exp exp_is_neg over)
  else ret (Expn p 0 false false false).

(** ** The number *)

Definition float64_inf : Z := Z.shiftl 0x7ff 52.
Definition float64_nan : Z := Z.shiftl 0xfff 51.

(** The bits of [m * 2^(e - 53)]. *)
Definition pack (m e : Z) : Z :=
  if m =? 0 then 0
  else if e >? 1024 then float64_inf
  else if e <? -1073 then 0
  else if e <? -1021 then Z.shiftr m (- e - 1021)
  else Z.lor (u64 (Z.shiftl (e + 1022) 52)) (Z.land m (2 ^ 52 - 1)).

(** The number of [digit_count] digits in [tmp0] times a power of the radix. *)
Definition make_double `{BuildConfig} (radix radix1 radix_shift radix_bits expn expn_offset digit_count : Z) (is_bin_exp : bool) :
    M mpb_t Z :=
  if negb (radix_bits =? 0) then
    expn ← (if is_bin_exp then ret expn else int_check (expn * radix_bits));
    o ← int_check (expn_offset * radix_bits);
    expn ← int_check (expn - o);
    o ← int_check (digit_count * radix_bits);
    expn1 ← int_check (expn + o);
    if expn1 >=? 1024 + radix_bits then ret float64_inf
    else if expn1 <=? -1075 then ret 0
    else '(m, e) ← round_to_d (- expn) JS_RNDN; ret (pack m e)
  else
    expn ← int_check (expn - expn_offset);
    expn1 ← int_check (expn + digit_count);
    max ← rd max_exponent (radix - 2);
    min ← rd min_exponent (radix - 2);
    if expn1 >=? max + 1 then ret float64_inf
    else if expn1 <=? min then ret 0
    else '(m, e) ← mul_pow_round_to_d radix1 radix_shift expn JS_RNDN; ret (pack m e).

(** The double and [*pnext]. *)
Definition js_atod `{BuildConfig} (radix : Z) : M mpb_t (Z * Z) :=
  c_assert (dtoa_words DBIGNUM_LEN_MAX <=? 27);;
  let sep := if has JS_ATOD_ACCEPT_UNDERSCORES then $"_" else 256 in
  c ← at_ 0;
  let '(is_neg, p) := if c =? $"+" then (0, 1) else if c =? $"-" then (1, 1) else (0, 0) in
  let p_start := p in
  let signed a := Z.lor a (Z.shiftl is_neg 63) in
  prefix ← scan_prefix radix sep p;
  match prefix with
  | PrefixFail p => ret (float64_nan, p)
  | PrefixInfinity p => ret (signed float64_inf, p)
  | Prefix radix sep p =>
      let radix := if radix =? 0 then 10 else radix in
      max_digits ← rd atod_max_digits_table (radix - 2);
      digits_per_limb ← rd digits_per_limb_table (radix - 2);
      radix_base ← rd radix_base_table (radix - 2);
      radix_shift ← ctz32 radix;
      let radix1 := Z.shiftr radix radix_shift in
      let radix_bits := if radix1 =? 1 then radix_shift else 0 in
      set_len 1;; zoom (wr 0 0);;
      o ← loop (Datatypes.S (length text)) (zeros_turn radix sep p_start) (p, 0, -1);
      match o with
      | None => ret (float64_nan, p)
      | Some (p, pos, dot_pos) =>
          let sig_pos := pos in
          o ← loop (Datatypes.S (length text)) (digits_turn radix sep p_start max_digits digits_per_limb radix_base)
                {| ds_p := p; ds_pos := pos; ds_dot := dot_pos; cur_limb := 0; limb_digit_count := 0;
                   digit_count := 0; extra_digits := 0 |};
          match o with
          | None => ret (float64_nan, p)
          | Some s =>
              (if negb (limb_digit_count s =? 0) then
                 b ← pow_ui radix (limb_digit_count s); mpb_mul1_base (u32 b) (cur_limb s)
               else ret tt);;
              let is_zero := digit_count s =? 0 in
              let expn_offset :=
                if is_zero then 0
                else sig_pos + digit_count s - (if ds_dot s <? 0 then ds_pos s else ds_dot s) in
              (if negb (radix_bits =? 0) && negb (extra_digits s =? 0)
               then t ← zoom (limb 0); zoom (wr 0 (Z.lor t 1)) else ret tt);;
              x ← scan_exponent radix radix_bits sep p_start (ds_p s);
              match x with
              | ExpnFail p => ret (float64_nan, p)
              | Expn p expn is_bin_exp exp_is_neg expn_overflow =>
                  if negb is_zero && expn_overflow then
                    ret (signed (if exp_is_neg then 0 else float64_inf), p)
                  else if p =? p_start then ret (float64_nan, p)
                  else if is_zero then ret (signed 0, p)
                  else
                    a ← make_double radix radix1 radix_shift radix_bits expn expn_offset (digit_count s) is_bin_exp;
                    ret (signed a, p)
              end
          end
      end
  end.

End atod.

(** ** Examples *)

#[local] Instance asserts : BuildConfig := with_assertions.
Definition atod_of (s : string) (radix flags : Z) : option (Z * Z) :=
  match js_atod (chars s ++ [0]) flags radix {| len := 5; tab := replicate 52 77 |} with (Ok r, _) => Some r | _ => None end.

Example atod_tenth : atod_of "0.1" 10 0 = Some (0x3fb999999999999a, 3).
Proof. vm_compute. reflexivity. Qed.
Example atod_negative : atod_of "-1.5e+300;" 0 0 = Some (0xfe41eb2d66005835, 9).
Proof. vm_compute. reflexivity. Qed.
Example atod_least : atod_of "4.9e-324" 10 0 = Some (1, 8).
Proof. vm_compute. reflexivity. Qed.
Example atod_hex : atod_of "0x1f_ff.8p1" 0 JS_ATOD_ACCEPT_UNDERSCORES = Some (0x40cfff8000000000, 11).
Proof. vm_compute. reflexivity. Qed.
Example atod_octal : atod_of "0759" 0 JS_ATOD_ACCEPT_LEGACY_OCTAL = Some (0x4087b80000000000, 4).
Proof. vm_compute. reflexivity. Qed.
Example atod_none : atod_of "x" 10 0 = Some (float64_nan, 0).
Proof. vm_compute. reflexivity. Qed.
