(* ===== verification/DtoaRoundFacts.v ===== *)
(** * Powers of the radix and rounding to a double: lemmas

    What [mul_pow] leaves, and [round_to_d] and [pack] on it: the double nearest to
    the exact value. *)
From S2P Require Import Prelude CStd Words CUtils BigIntMp BigIntMpFacts BigIntDiv BigInt BigIntFacts BigIntOps.
From S2P Require Import BigIntDivRem BigIntToText DtoaMp DtoaMpFacts Dtoa Atod.

(** * Powers of the radix and rounding: lemmas

    What [mul_pow] leaves is the exact product, or the quotient by a power of the
    radix where the lowest bit stands for all the bits that are lost; rounding
    it two bits above gives the same as rounding the exact value. *)

(** ** Rounding *)

Lemma rounds_exact rnd v d q : 0 < d → v = q * d → rounds rnd v d q.
Proof.
  intros Hd ->. destruct rnd; cbn; [split; lia|split; lia|]. symmetry. apply Z.div_mul. lia.
Qed.

(** The same number over another denominator. *)
Lemma rounds_ratio rnd v d v' d' q : 0 < d → 0 < d' → v * d' = v' * d → rounds rnd v d q → rounds rnd v' d' q.
Proof.
  intros Hd Hd' E. destruct rnd; cbn.
  - intros [H1 H2]. assert (Z.abs (v' - q * d') * d = Z.abs (v - q * d) * d') as Ea.
    { rewrite <-(Z.abs_eq d) at 1 by lia. rewrite <-(Z.abs_eq d') at 2 by lia. rewrite <-!Z.abs_mul. f_equal. nia. }
    split; [nia|]. intros Eq. apply H2. nia.
  - intros [H1 H2]. assert (Z.abs (v' - q * d') * d = Z.abs (v - q * d) * d') as Ea.
    { rewrite <-(Z.abs_eq d) at 1 by lia. rewrite <-(Z.abs_eq d') at 2 by lia. rewrite <-!Z.abs_mul. f_equal. nia. }
    split; [nia|]. intros Eq. assert (v < q * d) by (apply H2; nia). nia.
  - intros ->. rewrite <-(Z.div_mul_cancel_r v d d'), E, (Z.mul_comm d d'), Z.div_mul_cancel_r by lia. done.
Qed.

(** The quotient, its lowest bit set when the division is not exact. *)
Definition sticky (v d : Z) : Z := Z.lor (v / d) (b2l (negb (v mod d =? 0))).

Lemma lor_bit x (b : bool) : 0 ≤ x → Z.lor x (b2l b) = if b then 2 * (x / 2) + 1 else x.
Proof.
  intros Hx. destruct b; cbn [b2l]; [|apply Z.lor_0_r].
  pose proof (Z.div_mod x 2 ltac:(lia)) as E. pose proof (Z.mod_pos_bound x 2 ltac:(lia)) as Hm.
  rewrite E at 1. replace (2 * (x / 2)) with (x / 2 * 2 ^ 1) by lia.
  rewrite <-(lor_high_low 1) by (unfold fits; lia). rewrite <-Z.lor_assoc.
  replace (Z.lor (x mod 2) 1) with 1; [rewrite lor_high_low by (unfold fits; lia); lia|].
  assert (x mod 2 = 0 ∨ x mod 2 = 1) as [-> | ->] by lia; done.
Qed.

Lemma sticky_bounds v d : 0 ≤ v → 0 < d → v / d ≤ sticky v d ≤ v / d + 1.
Proof.
  intros Hv Hd. unfold sticky. pose proof (Z.div_pos v d Hv Hd). rewrite lor_bit by done.
  destruct (negb _); [|lia]. pose proof (Z.div_mod (v / d) 2 ltac:(lia)). pose proof (Z.mod_pos_bound (v / d) 2 ltac:(lia)). lia.
Qed.

Lemma sticky_rounds rnd v d k q :
  0 ≤ v → 0 < d → 2 ≤ k → rounds rnd (sticky v d) (2 ^ k) q → rounds rnd v (d * 2 ^ k) q.
Proof.
  intros Hv Hd Hk. pose proof (Z.div_pos v d Hv Hd). unfold sticky. rewrite lor_bit by done.
  set (h := 2 ^ (k - 2)). assert (0 < h) by (apply Z.pow_pos_nonneg; lia).
  assert (2 ^ k = 4 * h) as -> by (unfold h; change 4 with (2 ^ 2); rewrite <-Z.pow_add_r by lia; f_equal; lia).
  pose proof (Z.div_mod v d ltac:(lia)) as Ev. pose proof (Z.mod_pos_bound v d Hd) as Hm.
  destruct (Z.eqb_spec (v mod d) 0) as [E0|E0]; cbn [negb].
  { apply rounds_ratio; nia. }
  set (x := v / d) in *. set (r := v mod d) in *. set (y := x / 2).
  pose proof (Z.div_mod x 2 ltac:(lia)) as Ex. pose proof (Z.mod_pos_bound x 2 ltac:(lia)) as Hx. fold y in Ex.
  assert (2 * y * d < v ∧ v < (2 * y + 2) * d) as [Hlo Hhi] by nia. clearbody y r. destruct rnd; unfold rounds.
  1, 2: replace (q * (4 * h)) with (4 * (q * h)) by ring; replace (q * (d * (4 * h))) with (4 * (q * h) * d) by ring;
    set (p := q * h); intros [H1 _]; assert (4 * p - 2 * h + 1 ≤ 2 * y + 1 ≤ 4 * p + 2 * h - 1) as [Ha Hb] by lia;
    assert ((4 * p - 2 * h) * d < v < (4 * p + 2 * h) * d) by nia; split; [nia|intros; nia].
  intros ->. symmetry. rewrite <-Z.div_div by lia. fold x. replace (4 * h) with (2 * (2 * h)) by lia.
  rewrite <-!Z.div_div by lia. f_equal. rewrite Z.mul_comm, Z.div_add_l, Z.add_0_r by lia.
  f_equal. symmetry. apply Z.div_unique with (x mod 2); lia.
Qed.

(** ** Tables *)

(** What the tables say of a radix. *)
Definition check_radix (radix : Z) : bool :=
  match digits_per_limb_table !! Z.to_nat (radix - 2), radix_base_table !! Z.to_nat (radix - 2) with
  | Some d, Some base =>
      (1 <=? d) && (d <=? 32) && (base =? (radix ^ d) mod B) && (radix ^ d <=? B) &&
      ((Z.land radix (radix - 1) =? 0) || (radix ^ d <? B))
  | _, _ => false
  end.

Lemma tables_checked : forallb check_radix (seqZ 2 35) = true.
Proof. vm_compute. reflexivity. Qed.

Lemma radix_tables radix :
  2 ≤ radix ≤ 36 →
  ∃ d, digits_per_limb_table !! Z.to_nat (radix - 2) = Some d ∧
    radix_base_table !! Z.to_nat (radix - 2) = Some ((radix ^ d) mod B) ∧ 1 ≤ d ≤ 32 ∧ radix ^ d ≤ B ∧
    (Z.land radix (radix - 1) ≠ 0 → radix ^ d < B).
Proof.
  intros Hr. pose proof tables_checked as Hc. rewrite forallb_forall in Hc. specialize (Hc radix).
  assert (check_radix radix = true) as H by (apply Hc, list_elem_of_In, elem_of_seqZ; lia). clear Hc. unfold check_radix in H.
  destruct (digits_per_limb_table !! _) as [d|]; [|done]. destruct (radix_base_table !! _) as [base|]; [|done].
  rewrite !andb_true_iff, orb_true_iff, !Z.leb_le, Z.ltb_lt, !Z.eqb_eq in H.
  exists d. split_and!; [done|f_equal; lia|lia..|]. intros Hl. destruct H as [_ [?|?]]; [done|lia].
Qed.

(** The odd part of a radix. *)
Definition odd_part (radix1 : Z) : Prop := radix1 = 1 ∨ (3 ≤ radix1 ≤ 35 ∧ Z.land radix1 (radix1 - 1) ≠ 0).

Lemma radix_parts {S} radix (s : S) :
  2 ≤ radix ≤ 36 →
  ∃ k, ctz32 radix s = (Ok k, s) ∧ 0 ≤ k ≤ 5 ∧ radix = Z.shiftr radix k * 2 ^ k ∧ odd_part (Z.shiftr radix k) ∧
    (Z.land radix (radix - 1) = 0 ↔ Z.shiftr radix k = 1).
Proof.
  intros Hr. assert (∃ n, (n < 35)%nat ∧ radix = 2 + Z.of_nat n) as (n & Hn & ->) by (exists (Z.to_nat (radix - 2)); lia).
  clear Hr. do 35 (destruct n as [|n];
    [match goal with |- context [ctz32 ?x s] =>
       match eval vm_compute in (ctz32 x tt) with (Ok ?k, _) => exists k; split; [done|unfold odd_part; apply (bool_decide_unpack _); vm_compute; exact I] end end|]).
  lia.
Qed.

(** ** The product by a power *)

Lemma Bn_mono n m : (n ≤ m)%nat → Bn n ≤ Bn m.
Proof. intros. unfold Bn, B. apply Z.pow_le_mono_r; lia. Qed.

Lemma push_limb_run l h post :
  limbs_ok l → l ≠ [] → fits 32 h → (h = 0 → trimmed l) → (h ≠ 0 → post ≠ []) →
  becomes (push_limb (Z.of_nat (length l)) h) l post (λ l' _, val l' = val l + Bn (length l) * h ∧ trimmed l').
Proof.
  intros Hl Hne Hh H0 Hpost. unfold push_limb. destruct (Z.eqb_spec h 0) as [->|Hh0]; cbn [negb].
  { apply becomes_done; [done..|]. split; [lia|auto]. }
  destruct post as [|x post]; [by destruct (Hpost Hh0)|].
  exists (l ++ [h]), post. rewrite length_app. split_and!.
  - erewrite bind_run by by apply tab_run, wr_here.
    unfold set_len, modify, mk. cbn. f_equal. rewrite <-app_assoc. f_equal. rewrite length_app. cbn. lia.
  - apply Forall_app_2; [done|]. by constructor.
  - by destruct l.
  - cbn. lia.
  - apply val_snoc.
  - right. by rewrite top_snoc.
Qed.

(** Multiplying in place by a limb other than 0. *)
Lemma mul_limb_run b l post :
  limbs_ok l → l ≠ [] → trimmed l → fits 32 b → b ≠ 0 → val l * b < Bn (length l + length post) →
  becomes (mul_limb b) l post (λ l' _, val l' = val l * b ∧ trimmed l').
Proof.
  intros Hl Hne Ht Hb Hb0 Hroom. destruct (js_mp_mul1_spec l b 0 Hl Hb ltac:(by unfold fits)) as (res & h & E & Hres & Hlen & Hh & Ev).
  pose proof (val_range l Hl). pose proof (val_range res Hres). unfold fits in Hb. rewrite Z.add_0_r in Ev.
  pose proof (Bn_pos (length l)). assert (res ≠ []) as Hner by by destruct res, l.
  destruct (push_limb_run res h post) as (l' & post' & E' & Hl' & Hne' & Hlen' & Ev' & Ht'); [done..| | |].
  - intros ->. apply trimmed_value; [done..|]. apply trimmed_value in Ht; [|done..]. rewrite Hlen. destruct Ht; [by left|right; nia].
  - intros Hh0 ->. cbn in Hroom. rewrite Nat.add_0_r in Hroom. unfold fits in Hh. nia.
  - exists l', post'. split_and!; [|done..|lia|rewrite Ev', Hlen; lia|done].
    unfold mul_limb. erewrite bind_run by apply get_len_run. erewrite bind_run by (apply tab_read, limbs_all_run).
    unfold mp_mul1. rewrite E. cbv beta iota. erewrite bind_run by by apply set_all_run. rewrite <-Hlen. exact E'.
Qed.

Lemma mul_up_run radix1 d fuel f n0 b l post :
  2 ≤ radix1 < B → 1 ≤ d < B → radix1 ^ d < B →
  limbs_ok l → l ≠ [] → trimmed l → 0 ≤ f → (Z.to_nat f < fuel)%nat → n0 = 0 ∨ (1 ≤ n0 ≤ d ∧ b = radix1 ^ n0) →
  val l * radix1 ^ f < Bn (length l + length post) →
  becomes (loop fuel (mul_up_turn radix1 d) (f, n0, b)) l post (λ l' _, val l' = val l * radix1 ^ f ∧ trimmed l').
Proof.
  intros Hr Hd Hrd. revert f n0 b l post. induction fuel as [|fuel IH]; intros f n0 b l post Hl Hne Ht Hf Hfuel Hb Hroom; [lia|].
  cbn [loop]. unfold mul_up_turn at 1. destruct (Z.eqb_spec f 0) as [->|Hf0].
  { exists l, post. split_and!; try done. rewrite Z.pow_0_r. lia. }
  set (n := min_int f d). assert (1 ≤ n ≤ f ∧ n ≤ d) as [Hn Hnd] by (unfold n, min_int; destruct (Z.ltb_spec f d); lia).
  assert (0 < radix1 ^ n) as Hpos by (apply Z.pow_pos_nonneg; lia).
  assert (radix1 ^ n < B) as Hlt by (pose proof (Z.pow_le_mono_r radix1 n d); lia).
  assert (radix1 ^ f = radix1 ^ n * radix1 ^ (f - n)) as Ef by (rewrite <-Z.pow_add_r by lia; f_equal; lia).
  assert (0 < radix1 ^ (f - n)) as Hpos2 by (apply Z.pow_pos_nonneg; lia). pose proof (val_range l Hl).
  assert ((if negb (n =? n0) then r ← pow_ui radix1 n; ret (u32 r) else ret b) (mk l post) = (Ok (radix1 ^ n), mk l post)) as Eb.
  { destruct (Z.eqb_spec n n0) as [->|Hnn]; cbn [negb]; [destruct Hb as [->|[_ ->]]; [lia|done]|].
    erewrite bind_run by (apply pow_ui_run; unfold fits, B in *; lia). unfold ret. do 2 f_equal. unfold B in *.
    rewrite Z.mod_small by lia. unfold u32. apply wrap_id. unfold fits. lia. }
  destruct (mul_limb_run (radix1 ^ n) l post) as (l1 & post1 & E1 & Hl1 & Hne1 & Hlen1 & Ev1 & Ht1);
    [done..|unfold fits, B in *; lia|lia|nia|].
  destruct (IH (f - n) n (radix1 ^ n) l1 post1) as (l2 & post2 & E2 & Hl2 & Hne2 & Hlen2 & Ev2 & Ht2);
    [done..|lia|lia|right; split; [lia|done]|rewrite Hlen1, Ev1; nia|].
  exists l2, post2. split_and!; [|done..|lia|rewrite Ev2, Ev1; nia|done].
  rewrite bind_bind. erewrite bind_run by exact Eb. rewrite bind_bind. erewrite bind_run by exact E1. exact E2.
Qed.

(** ** The quotient by a power *)

(** What [pow_ui_inv] gives for the divisor [p]. *)
Definition divides_by (p : Z) : Z * Z * Z → Prop := λ '(b, v, k),
  b = p * 2 ^ k ∧ 0 ≤ k ≤ 31 ∧ normalised b ∧ inverse b v.

Lemma div_limb_run `{BuildConfig} p c l post :
  limbs_ok l → l ≠ [] → 0 < p → divides_by p c →
  ∃ l' post', div_limb c.1.1 c.1.2 c.2 (mk l post) = (Ok (val l mod p), mk l' post') ∧ limbs_ok l' ∧ l' ≠ [] ∧
    (length l' + length post' = length l + length post)%nat ∧ val l' = val l / p ∧ trimmed l'.
Proof.
  intros Hl Hne Hp Hc. destruct c as [[b v] k]. destruct Hc as (-> & Hk & Hn & Hi). cbn [fst snd].
  destruct (mp_div1norm_run l p k v 0 (mk l post)) as (res & r & E & Hres & Hlen & Hr & Ev); [done..|lia|].
  rewrite Z.mul_0_r, Z.add_0_r in Ev. assert (res ≠ []) as Hner by by destruct res, l.
  destruct (mpb_renorm_run res post Hner) as (l' & zs & E' & El & Ev' & Hne' & Ht').
  exists l', (zs ++ post). assert (val l / p = val res ∧ val l mod p = r) as [Eq Er].
  { split; [symmetry; apply Z.div_unique with r|symmetry; apply Z.mod_unique with (val res)]; lia. }
  split_and!; [|by rewrite El in Hres; apply Forall_app in Hres as []|done| |congruence|done].
  - unfold div_limb. erewrite bind_run by apply get_len_run. erewrite bind_run by (apply tab_read, limbs_all_run).
    erewrite bind_run by exact E. cbv beta iota. erewrite bind_run by by apply set_all_run.
    erewrite bind_run by exact E'. by rewrite Er.
  - apply (f_equal length) in El. rewrite !length_app in *. lia.
Qed.

Lemma div_down_run `{BuildConfig} radix1 d fuel f n0 c rem l post :
  2 ≤ radix1 < B → 1 ≤ d < B → radix1 ^ d < B →
  limbs_ok l → l ≠ [] → trimmed l → 0 ≤ f → (Z.to_nat f < fuel)%nat → n0 = 0 ∨ (1 ≤ n0 ≤ d ∧ divides_by (radix1 ^ n0) c) →
  ∃ rem' l' post', loop fuel (div_down_turn radix1 d) (f, n0, c, rem) (mk l post) = (Ok rem', mk l' post') ∧
    limbs_ok l' ∧ l' ≠ [] ∧ (length l' + length post' = length l + length post)%nat ∧
    val l' = val l / radix1 ^ f ∧ trimmed l' ∧ (rem' = 0 ↔ rem = 0 ∧ val l mod radix1 ^ f = 0).
Proof.
  intros Hr Hd Hrd. revert f n0 c rem l post. induction fuel as [|fuel IH]; intros f n0 c rem l post Hl Hne Ht Hf Hfuel Hc; [lia|].
  destruct c as [[b v] k]. cbn [loop]. unfold div_down_turn at 1. destruct (Z.eqb_spec f 0) as [->|Hf0].
  { exists rem, l, post. rewrite Z.pow_0_r, Z.div_1_r, Z.mod_1_r. split_and!; try done. naive_solver. }
  set (n := min_int f d). assert (1 ≤ n ≤ f ∧ n ≤ d) as [Hn Hnd] by (unfold n, min_int; destruct (Z.ltb_spec f d); lia).
  assert (0 < radix1 ^ n) as Hpos by (apply Z.pow_pos_nonneg; lia).
  assert (radix1 ^ n < B) as Hlt by (pose proof (Z.pow_le_mono_r radix1 n d); lia).
  assert (radix1 ^ f = radix1 ^ n * radix1 ^ (f - n)) as Ef by (rewrite <-Z.pow_add_r by lia; f_equal; lia).
  assert (0 < radix1 ^ (f - n)) as Hpos2 by (apply Z.pow_pos_nonneg; lia).
  assert (∃ c1, (if negb (n =? n0) then pow_ui_inv radix1 n else ret (b, v, k)) (mk l post) = (Ok c1, mk l post) ∧
    divides_by (radix1 ^ n) c1) as (c1 & Ec & Hc1).
  { destruct (Z.eqb_spec n n0) as [->|Hnn]; cbn [negb]; [destruct Hc as [->|[_ Hc]]; [lia|by exists (b, v, k)]|].
    destruct (pow_ui_inv_run radix1 n (mk l post)) as (k' & v' & E & HP); [unfold fits, B in *; lia..|lia|].
    exists (radix1 ^ n * 2 ^ k', v', k'). split; [exact E|]. by split. }
  destruct (div_limb_run (radix1 ^ n) c1 l post) as (l1 & post1 & E1 & Hl1 & Hne1 & Hlen1 & Ev1 & Ht1); [done..|].
  destruct (IH (f - n) n c1 (Z.lor rem (val l mod radix1 ^ n)) l1 post1) as
    (rem2 & l2 & post2 & E2 & Hl2 & Hne2 & Hlen2 & Ev2 & Ht2 & Hrem); [done..|lia|lia|right; split; [lia|done]|].
  exists rem2, l2, post2. destruct c1 as [[b1 v1] k1]. split_and!; [|done..|lia| |done|].
  - rewrite bind_bind. erewrite bind_run by exact Ec. cbv beta iota.
    rewrite bind_bind. erewrite bind_run by exact E1. exact E2.
  - rewrite Ev2, Ev1, Ef, Z.div_div by lia. done.
  - rewrite Hrem, or_zero, Ev1, Ef, Z.rem_mul_r by lia.
    pose proof (Z.mod_pos_bound (val l) (radix1 ^ n) Hpos). pose proof (Z.mod_pos_bound (val l / radix1 ^ n) (radix1 ^ (f - n)) Hpos2).
    split; [intros [[-> ->] ->]; split; [done|lia]|]. intros [-> Hz]. split_and!; [done|nia|nia].
Qed.

(** ** The product by any power *)

(** The number is other than 0, and multiplied by a power of the odd part. *)
Lemma mul_pow_up_run `{BuildConfig} radix1 rs f is_int e l post :
  odd_part radix1 → radix1 = 1 ∨ 0 ≤ f → limbs_ok l → l ≠ [] → trimmed l →
  val l * radix1 ^ Z.max f 0 < Bn (length l + length post) →
  ∃ l' post', mul_pow radix1 rs f is_int e (mk l post) = (Ok (- f * rs), mk l' post') ∧ limbs_ok l' ∧ l' ≠ [] ∧
    (length l' + length post' = length l + length post)%nat ∧ val l' = val l * radix1 ^ Z.max f 0 ∧ trimmed l'.
Proof.
  intros Hodd Hf Hl Hne Ht Hroom. unfold mul_pow. destruct (Z.eqb_spec radix1 1) as [->|H1]; cbn [negb].
  { exists l, post. rewrite Z.pow_1_l by lia. split_and!; try done. lia. }
  destruct Hodd as [|[Hr Hl2]]; [done|]. destruct (radix_tables radix1) as (d & Hd & _ & Hd1 & _ & Hlt); [lia|].
  destruct Hf as [|Hf]; [done|]. rewrite Z.max_l in * by done. erewrite bind_run by (apply rd_run; [lia|exact Hd]).
  rewrite Z.geb_leb. destruct (Z.leb_spec 0 f); [|lia].
  destruct (mul_up_run radix1 d (S (Z.to_nat f)) f 0 0 l post) as (l' & post' & E & Hl' & Hne' & Hlen & Ev & Ht');
    [unfold B; lia|unfold B; lia|auto|done..|lia|by left|done|].
  exists l', post'. erewrite bind_run by exact E. done.
Qed.

(** The bits a number is shifted by before it is divided. *)
Definition lift (d rs f : Z) (is_int : bool) (e v : Z) : Z :=
  let l := (- f + d - 1) / d in
  l * 32 + (if is_int then max_int (2 + e - (- f * rs + l * 32)) 0
            else max_int (e - (if v =? 0 then -1 else Z.log2 v)) 0).

Lemma set_sticky_run (b : bool) l post :
  limbs_ok l → l ≠ [] → trimmed l →
  ∃ l', (t ← zoom (limb 0); zoom (wr 0 (Z.lor t (b2l b)))) (mk l post) = (Ok tt, mk l' post) ∧ limbs_ok l' ∧ l' ≠ [] ∧
    length l' = length l ∧ val l' = Z.lor (val l) (b2l b) ∧ trimmed l'.
Proof.
  intros Hl Hne Ht. destruct l as [|t l]; [done|]. apply Forall_cons in Hl as Hl'. destruct Hl' as [Hf Hl'].
  exists (Z.lor t (b2l b) :: l). pose proof (val_range (t :: l) Hl) as Hr. unfold fits in Hf. change (2 ^ 32) with (2 * 2 ^ 31) in Hf.
  assert (fits 32 (Z.lor t (b2l b))) as Hf'.
  { rewrite lor_bit by lia. unfold fits. change (2 ^ 32) with (2 * 2 ^ 31). destruct b; [|lia].
    pose proof (Z.div_mod t 2 ltac:(lia)). pose proof (Z.mod_pos_bound t 2 ltac:(lia)). lia. }
  assert (val (Z.lor t (b2l b) :: l) = Z.lor (val (t :: l)) (b2l b)) as Ev.
  { rewrite (lor_bit (val (t :: l))) by lia. cbn [val]. rewrite lor_bit by lia. destruct b; [|done].
    replace (t + B * val l) with (t + (2 ^ 31 * val l) * 2) by (unfold B; lia). rewrite Z.div_add by lia. unfold B. lia. }
  split_and!; [|by constructor|done|done|done|].
  - erewrite bind_run by by apply (limb_of_run _ _ 0). by erewrite (zoom_run _ tt _ (Z.lor t (b2l b) :: l ++ post)).
  - apply trimmed_value; [by constructor|done|]. apply trimmed_value in Ht; [|done..]. rewrite Ev, (lor_bit (val (t :: l))) by lia.
    destruct Ht as [Ht|Ht]; [by left|right]. cbn [length] in *. destruct b; [|lia].
    pose proof (Z.div_mod (val (t :: l)) 2 ltac:(lia)). pose proof (Z.mod_pos_bound (val (t :: l)) 2 ltac:(lia)). lia.
Qed.

Lemma mul_pow_down_run `{BuildConfig} radix1 d rs f (is_int : bool) e l post :
  3 ≤ radix1 ≤ 35 → Z.land radix1 (radix1 - 1) ≠ 0 → digits_per_limb_table !! Z.to_nat (radix1 - 2) = Some d →
  f < 0 → limbs_ok l → l ≠ [] → trimmed l →
  let L := lift d rs f is_int e (val l) in
  L < 2 ^ 31 → (Z.to_nat (L / 32) + spill (L mod 32) ≤ length post)%nat → val l ≠ 0 →
  ∃ l' post', mul_pow radix1 rs f is_int e (mk l post) = (Ok (- f * rs + L), mk l' post') ∧ limbs_ok l' ∧ l' ≠ [] ∧
    (length l' + length post' = length l + length post)%nat ∧
    val l' = sticky (val l * 2 ^ L) (radix1 ^ (- f)) ∧ trimmed l'.
Proof.
  intros Hr Hl2 Hd Hf Hl Hne Ht L HL Hroom Hv. unfold mul_pow. destruct (Z.eqb_spec radix1 1); [lia|]. cbn [negb].
  destruct (radix_tables radix1) as (d' & Hd' & _ & Hd1 & _ & Hlt); [lia|]. rewrite Hd in Hd'. injection Hd' as <-.
  erewrite bind_run by (apply rd_run; [lia|exact Hd]). rewrite Z.geb_leb. destruct (Z.leb_spec 0 f); [lia|]. unfold LIMB_BITS.
  set (k := (- f + d - 1) / d). assert (1 ≤ k) by (apply Z.div_le_lower_bound; lia).
  assert (∃ x, (if negb is_int then v ← mpb_floor_log2; ret (max_int (e - v) 0)
     else ret (max_int (2 + e - (- f * rs + k * 32)) 0)) (mk l post) = (Ok x, mk l post) ∧ L = k * 32 + x ∧ 0 ≤ x) as (x & Ex & EL & Hx).
  { assert (∀ y, 0 ≤ max_int y 0) as Hm by (intros; unfold max_int; rewrite Z.gtb_ltb; destruct (Z.ltb_spec 0 y); lia).
    unfold L, lift. fold k. destruct is_int; cbn [negb]; [by eexists|].
    erewrite bind_run by by apply mpb_floor_log2_run. by eexists. }
  erewrite bind_run by exact Ex. cbv zeta.
  destruct (mpb_shr_round_run (- (k * 32 + x)) JS_RNDZ l post) as (l1 & post1 & E1 & Hl1 & Hne1 & Hlen1 & HP1);
    [done..|unfold INT_MIN; lia|rewrite <-EL, Z.opp_involutive; intros _; exact Hroom|].
  rewrite <-EL, Z.opp_involutive in *. destruct (Z.ltb_spec (- L) 0); [|lia]. destruct HP1 as [Ev1 Ht1].
  erewrite bind_run by exact E1.
  destruct (div_down_run radix1 d (S (Z.to_nat (- f))) (- f) 0 (0, 0, 0) 0 l1 post1) as
    (rem & l2 & post2 & E2 & Hl2' & Hne2 & Hlen2 & Ev2 & Ht2 & Hrem); [unfold B; lia|unfold B; lia|auto|done|done|auto|lia|lia|by left|].
  erewrite bind_run by exact E2.
  destruct (set_sticky_run (negb (rem =? 0)) l2 post2) as (l3 & E3 & Hl3 & Hne3 & Hlen3 & Ev3 & Ht3); [done..|].
  exists l3, post2. split_and!; [|done|done|lia| |done].
  - rewrite <-bind_bind. erewrite bind_run by exact E3. unfold ret. do 2 f_equal. lia.
  - rewrite Ev3, Ev2, Ev1. unfold sticky. do 3 f_equal. rewrite Ev1 in Hrem.
    destruct (Z.eqb_spec rem 0) as [->|Hr0]; [rewrite (proj2 (proj1 Hrem eq_refl)); done|].
    destruct (Z.eqb_spec (val l * 2 ^ L mod radix1 ^ (- f)) 0) as [E0|]; [|done]. by destruct Hr0; apply Hrem.
Qed.

(** ** A double times a power of the radix, rounded *)

(** [m * 2^e * radix^f] as a fraction. *)
Definition num (m e radix f : Z) : Z := m * 2 ^ Z.max e 0 * radix ^ Z.max f 0.
Definition den (e radix f : Z) : Z := 2 ^ Z.max (- e) 0 * radix ^ Z.max (- f) 0.

Lemma den_pos e radix f : 0 < radix → 0 < den e radix f.
Proof. intros. unfold den. apply Z.mul_pos_pos; apply Z.pow_pos_nonneg; lia. Qed.

(** The power of 2 and the power of the odd part. *)
Lemma radix_pow radix1 rs f : 0 ≤ rs → 0 ≤ f → (radix1 * 2 ^ rs) ^ f = radix1 ^ f * 2 ^ (rs * f).
Proof. intros. by rewrite Z.pow_mul_l, Z.pow_mul_r. Qed.

(** The two ways to write the number, over a power of 2. *)
Lemma num_up m e radix1 rs f k :
  0 < radix1 → 0 ≤ rs → radix1 = 1 ∨ 0 ≤ f → k = - f * rs - e →
  m * radix1 ^ Z.max f 0 * 2 ^ Z.max (- k) 0 * den e (radix1 * 2 ^ rs) f
  = num m e (radix1 * 2 ^ rs) f * 2 ^ Z.max k 0.
Proof.
  intros Hr Hrs Hf ->. unfold num, den. rewrite !radix_pow by lia.
  assert (radix1 ^ Z.max (- f) 0 = 1) as ->.
  { destruct Hf as [->|Hf]; [by rewrite Z.pow_1_l by lia|]. by rewrite Z.max_r by lia. }
  assert (2 ^ Z.max (- (- f * rs - e)) 0 * 2 ^ Z.max (- e) 0 * 2 ^ (rs * Z.max (- f) 0)
    = 2 ^ Z.max e 0 * 2 ^ (rs * Z.max f 0) * 2 ^ Z.max (- f * rs - e) 0) as E.
  { rewrite <-!Z.pow_add_r by nia. f_equal. destruct (Z.le_ge_cases 0 f), (Z.le_ge_cases 0 e); nia. }
  rewrite Z.mul_1_l. transitivity (m * radix1 ^ Z.max f 0 * (2 ^ Z.max (- (- f * rs - e)) 0 * 2 ^ Z.max (- e) 0 * 2 ^ (rs * Z.max (- f) 0))); [ring|].
  rewrite E. ring.
Qed.

Lemma num_down m e radix1 rs f L k :
  0 < radix1 → 0 ≤ rs → f < 0 → 0 ≤ L → 0 ≤ k → k = - f * rs + L - e →
  m * 2 ^ L * den e (radix1 * 2 ^ rs) f = num m e (radix1 * 2 ^ rs) f * (radix1 ^ (- f) * 2 ^ k).
Proof.
  intros Hr Hrs Hf HL Hk ->. unfold num, den. rewrite (Z.max_r f), (Z.max_l (- f)) by lia.
  rewrite radix_pow by lia. rewrite Z.pow_0_r.
  assert (2 ^ L * 2 ^ Z.max (- e) 0 * 2 ^ (rs * - f) = 2 ^ Z.max e 0 * 2 ^ (- f * rs + L - e)) as E.
  { rewrite <-!Z.pow_add_r by nia. f_equal. lia. }
  transitivity (m * radix1 ^ (- f) * (2 ^ L * 2 ^ Z.max (- e) 0 * 2 ^ (rs * - f))); [ring|]. rewrite E. ring.
Qed.

(** The array of [n] limbs is long enough for the number and what it goes through. *)
Definition room (n : nat) (m e radix1 rs f : Z) : Prop :=
  if (radix1 =? 1) || (0 <=? f) then m * radix1 ^ Z.max f 0 * 2 ^ Z.max (e + f * rs) 0 < 2 ^ (32 * Z.of_nat n - 64)
  else ∃ d, digits_per_limb_table !! Z.to_nat (radix1 - 2) = Some d ∧
    (- f + d - 1) / d ≤ Z.of_nat n - 3 ∧ 2 + e + f * rs ≤ 32 * (Z.of_nat n - 3).

Lemma pow2_Bn n k : 0 ≤ k → 2 ^ (32 * Z.of_nat n + k) = Bn n * 2 ^ k.
Proof. intros. rewrite Z.pow_add_r, Bn_pow2 by lia. done. Qed.

(** A shift of a number that stays in the array. *)
Lemma shift_room l k n :
  limbs_ok l → l ≠ [] → trimmed l → 0 < val l → 0 ≤ k → val l * 2 ^ k < 2 ^ (32 * Z.of_nat n - 64) →
  (length l ≤ n)%nat ∧ k < 32 * (Z.of_nat n - Z.of_nat (length l) - 1).
Proof.
  intros Hl Hne Ht Hv Hk Hlt. pose proof (trimmed_top l Ht ltac:(lia)) as Htop. apply top_value in Htop; [|done..].
  rewrite Bn_pow2 in Htop. assert (0 < 2 ^ k) by (apply Z.pow_pos_nonneg; lia).
  assert (2 ^ (32 * Z.of_nat (length l - 1) + k) < 2 ^ (32 * Z.of_nat n - 64)) as Hp by (rewrite Z.pow_add_r by lia; nia).
  assert (0 ≤ 32 * Z.of_nat n - 64) as Hn.
  { destruct (Z.le_gt_cases 0 (32 * Z.of_nat n - 64)) as [|Hneg]; [done|]. rewrite (Z.pow_neg_r 2 (32 * _ - 64)) in Hlt by lia. nia. }
  apply Z.pow_lt_mono_r_iff in Hp; [|lia..]. destruct l; [done|]. cbn [length] in *. lia.
Qed.

Lemma shift_words k x : 0 ≤ k → k ≤ 32 * (Z.of_nat x - 1) → (Z.to_nat (k / 32) + spill (k mod 32) ≤ x)%nat.
Proof.
  intros Hk Hx. pose proof (Z.div_mod k 32 ltac:(lia)). pose proof (Z.mod_pos_bound k 32 ltac:(lia)).
  unfold spill. destruct (Z.eqb_spec (k mod 32) 0); lia.
Qed.

Lemma lift_int d rs f e v :
  lift d rs f true e v = Z.max (32 * ((- f + d - 1) / d)) (2 + e + f * rs).
Proof. unfold lift, max_int. rewrite Z.gtb_ltb. destruct (Z.ltb_spec 0 (2 + e - (- f * rs + (- f + d - 1) / d * 32))); lia. Qed.

Lemma mul_pow_round_run `{BuildConfig} m e radix1 rs f rnd x y post len0 :
  0 < m < 2 ^ 64 → odd_part radix1 → 0 ≤ rs → (length post ≤ 1000)%nat →
  room (S (S (length post))) m e radix1 rs f →
  ∃ l' post', mul_pow_round m e radix1 rs f rnd {| DtoaMp.len := len0; tab := x :: y :: post |} = (Ok tt, mk l' post') ∧
    limbs_ok l' ∧ l' ≠ [] ∧ trimmed l' ∧ (length l' + length post' = S (S (length post)))%nat ∧
    rounds rnd (num m e (radix1 * 2 ^ rs) f) (den e (radix1 * 2 ^ rs) f) (val l').
Proof.
  intros Hm Hodd Hrs Hsz Hroom. set (n := S (S (length post))) in *. unfold mul_pow_round.
  destruct (mpb_set_u64_run m x y post len0 ltac:(unfold fits; lia)) as (l & post1 & E & Hl & Hne & Ht & Ev & Hlen & _).
  erewrite bind_run by exact E. assert (0 < radix1) as Hr1 by (destruct Hodd; lia). unfold room in Hroom.
  pose proof (den_pos e (radix1 * 2 ^ rs) f ltac:(pose proof (Z.pow_pos_nonneg 2 rs); nia)) as Hden.
  destruct ((radix1 =? 1) || (0 <=? f)) eqn:Ec.
  - assert (radix1 = 1 ∨ 0 ≤ f) as Hf by (apply orb_true_iff in Ec as [?%Z.eqb_eq|?%Z.leb_le]; auto).
    assert (0 < radix1 ^ Z.max f 0) as Hp by (apply Z.pow_pos_nonneg; lia).
    assert (1 ≤ 2 ^ Z.max (e + f * rs) 0) as Hp2 by (pose proof (Z.pow_pos_nonneg 2 (Z.max (e + f * rs) 0)); lia).
    assert (m * radix1 ^ Z.max f 0 < Bn n) as HB.
    { rewrite Bn_pow2. apply Z.lt_trans with (2 ^ (32 * Z.of_nat n - 64)); [nia|]. apply Z.pow_lt_mono_r; lia. }
    destruct (mul_pow_up_run radix1 rs f true e l post1) as (l2 & post2 & E2 & Hl2 & Hne2 & Hlen2 & Ev2 & Ht2);
      [done..|by rewrite Ev, Hlen|]. rewrite Ev in Ev2. erewrite bind_run by exact E2.
    set (k := - e + - f * rs). pose proof (num_up m e radix1 rs f k Hr1 Hrs Hf ltac:(lia)) as Hnum.
    replace (Z.max (e + f * rs) 0) with (Z.max (- k) 0) in * by lia.
    destruct (shift_room l2 (Z.max (- k) 0) n) as [Hn2 Hk2]; [done..|lia|lia|by rewrite Ev2|].
    destruct (mpb_shr_round_run k rnd l2 post2) as (l3 & post3 & E3 & Hl3 & Hne3 & Hlen3 & HP & Ht3);
      [done..|unfold INT_MIN; lia|intros; apply shift_words; lia|].
    exists l3, post3. split_and!; [done..| |lia|]; [apply Ht3; left; lia|]. destruct (Z.ltb_spec k 0).
    + apply rounds_exact; [done|]. rewrite HP, Ev2. rewrite (Z.max_r k), Z.mul_1_r in Hnum by lia.
      rewrite (Z.max_l (- k)) in Hnum by lia. lia.
    + rewrite (Z.max_l k), (Z.max_r (- k)), Z.mul_1_r in Hnum by lia. rewrite Ev2 in HP.
      eapply rounds_ratio; [|done| |exact HP]; [apply Z.pow_pos_nonneg; lia|exact Hnum].
  - apply orb_false_iff in Ec as [H1%Z.eqb_neq Hf%Z.leb_gt]. destruct Hroom as (d & Hd & Hd1 & Hd2).
    destruct Hodd as [|[Hr Hl2]]; [done|].
    pose proof (lift_int d rs f e m) as HL. set (L := lift d rs f true e m) in *.
    destruct (radix_tables radix1) as (d' & Hd' & _ & Hdpos & _); [lia|]. rewrite Hd in Hd'. injection Hd' as <-.
    assert (1 ≤ (- f + d - 1) / d) by (apply Z.div_le_lower_bound; lia).
    assert (length l ≤ 2)%nat as Hl2'.
    { pose proof (trimmed_top l Ht ltac:(lia)) as Htop. apply top_value in Htop; [|done..]. rewrite Ev, Bn_pow2 in Htop.
      assert (2 ^ (32 * Z.of_nat (length l - 1)) < 2 ^ 64) as Hp by lia. apply Z.pow_lt_mono_r_iff in Hp; lia. }
    destruct (mul_pow_down_run radix1 d rs f true e l post1) as (l2 & post2 & E2 & Hl2'' & Hne2 & Hlen2 & Ev2 & Ht2);
      [done..|rewrite Ev; fold L; lia|rewrite Ev; fold L; apply shift_words; lia|lia|]. rewrite Ev in *. fold L in E2, Ev2.
    erewrite bind_run by exact E2. set (k := - e + (- f * rs + L)).
    destruct (mpb_shr_round_run k rnd l2 post2) as (l3 & post3 & E3 & Hl3 & Hne3 & Hlen3 & HP & Ht3);
      [done..|unfold INT_MIN; lia|intros; lia|].
    exists l3, post3. split_and!; [done..| |lia|]; [apply Ht3; right; lia|]. destruct (Z.ltb_spec k 0); [lia|].
    rewrite Ev2 in HP. apply sticky_rounds in HP; [|apply Z.mul_nonneg_nonneg; [lia|apply Z.pow_nonneg; lia]|apply Z.pow_pos_nonneg; lia|lia].
    eapply rounds_ratio; [|done| |exact HP].
    + apply Z.mul_pos_pos; apply Z.pow_pos_nonneg; lia.
    + apply num_down; lia.
Qed.

(** * Rounding to a double: lemmas

    [round_to_d] rounds a number to 53 bits, or fewer for the small exponents,
    and [pack] makes the bits of a double of its result: together they give the
    double nearest to the exact value. *)

(** ** Doubles *)

(** The exponent of the last bit of the doubles under [2^E]. *)
Definition ulp (E : Z) : Z := Z.max (E - 53) (-1074).

(** The bits of [q * 2^u], [q] of at most 53 bits or [2^53]; infinity beyond. *)
Definition bits (q u : Z) : Z := Z.min ((u + 1074) * 2 ^ 52 + q) float64_inf.

(** The mantissa of 53 bits and the exponent of [q * 2^u], a number under [2^E]. *)
Definition mantissa (q E : Z) : Z * Z :=
  let m := q * 2 ^ (ulp E - (E - 53)) in
  if m >=? 2 ^ 53 then (m / 2, E + 1) else (m, E).

Lemma or_fraction x e : 0 ≤ e < 2 ^ 11 → 2 ^ 52 ≤ x < 2 ^ 53 →
  Z.lor (u64 (Z.shiftl e 52)) (Z.land x (2 ^ 52 - 1)) = (e - 1) * 2 ^ 52 + x.
Proof.
  intros He Hx. rewrite Z.shiftl_mul_pow2 by lia. unfold u64. rewrite wrap_id by (unfold fits; lia).
  rewrite land_ones' with (n := 52) by lia. rewrite lor_high_low by (try lia; unfold fits; apply Z.mod_pos_bound; lia).
  replace (x mod 2 ^ 52) with (x - 2 ^ 52); [lia|]. apply (Z.mod_unique x (2 ^ 52) 1); lia.
Qed.

Lemma pack_mantissa q E :
  0 ≤ q ≤ 2 ^ (E - ulp E) → (-1021 ≤ E → 2 ^ 52 ≤ q) → (E < -1074 → q = 0) → E ≤ 1100 →
  pack (mantissa q E).1 (mantissa q E).2 = bits q (ulp E).
Proof.
  intros Hq Hnorm Hsmall HE. unfold mantissa. destruct (Z.eq_dec q 0) as [->|Hq0].
  { destruct (Z.le_gt_cases (-1021) E); [lia|]. rewrite Z.mul_0_l. unfold pack, bits, ulp. rewrite Z.max_r by lia. done. }
  assert (-1074 ≤ E) as HE2 by lia. destruct (Z.le_gt_cases (-1021) E) as [Hn|Hs].
  - assert (ulp E = E - 53) as Eu by (unfold ulp; lia). rewrite Eu in *. replace (E - (E - 53)) with 53 in Hq by lia.
    rewrite Z.sub_diag, Z.mul_1_r. rewrite Z.geb_leb. specialize (Hnorm Hn). unfold pack, bits, float64_inf.
    change (Z.shiftl 0x7ff 52) with (2047 * 2 ^ 52). destruct (Z.leb_spec (2 ^ 53) q); cbn [fst snd].
    + replace q with (2 ^ 53) by lia. change (2 ^ 53 / 2) with (2 ^ 52). change (2 ^ 52 =? 0) with false. cbv iota.
      rewrite Z.gtb_ltb. destruct (Z.ltb_spec 1024 (E + 1)); [lia|].
      destruct (Z.ltb_spec (E + 1) (-1073)); [lia|]. destruct (Z.ltb_spec (E + 1) (-1021)); [lia|].
      rewrite or_fraction by lia. lia.
    + destruct (Z.eqb_spec q 0); [lia|]. rewrite Z.gtb_ltb. destruct (Z.ltb_spec 1024 E); [lia|].
      destruct (Z.ltb_spec E (-1073)); [lia|]. destruct (Z.ltb_spec E (-1021)); [lia|].
      rewrite or_fraction by lia. lia.
  - assert (ulp E = -1074) as Eu by (unfold ulp; lia). rewrite Eu in *. set (s := -1074 - (E - 53)).
    assert (0 < 2 ^ s) by (apply Z.pow_pos_nonneg; lia).
    assert (2 ^ 53 = 2 ^ (E - -1074) * 2 ^ s) as E53 by (rewrite <-Z.pow_add_r by lia; f_equal; lia).
    rewrite Z.geb_leb. unfold pack, bits, float64_inf. change (Z.shiftl 0x7ff 52) with (2047 * 2 ^ 52).
    assert (q ≤ 2 ^ 52) as Hq52 by (pose proof (Z.pow_le_mono_r 2 (E - -1074) 52); lia).
    destruct (Z.leb_spec (2 ^ 53) (q * 2 ^ s)) as [Hc|Hc]; cbn [fst snd].
    + assert (q = 2 ^ (E - -1074)) as -> by nia. rewrite <-E53. change (2 ^ 53 / 2) with (2 ^ 52). change (2 ^ 52 =? 0) with false. cbv iota.
      rewrite Z.gtb_ltb. destruct (Z.ltb_spec 1024 (E + 1)); [lia|]. destruct (Z.ltb_spec (E + 1) (-1073)); [lia|].
      destruct (Z.ltb_spec (E + 1) (-1021)).
      * rewrite Z.shiftr_div_pow2 by lia. replace (2 ^ 52) with (2 ^ (E - -1074) * 2 ^ (- (E + 1) - 1021)) at 1
          by (rewrite <-Z.pow_add_r by lia; f_equal; lia).
        rewrite Z.div_mul by (apply Z.pow_nonzero; lia). lia.
      * replace E with (-1022) by lia. done.
    + destruct (Z.eqb_spec (q * 2 ^ s) 0); [nia|]. rewrite Z.gtb_ltb. destruct (Z.ltb_spec 1024 E); [lia|].
      destruct (Z.ltb_spec E (-1073)); [|destruct (Z.ltb_spec E (-1021)); [|lia]].
      * replace E with (-1074) in * by lia. change (2 ^ (-1074 - -1074)) with 1 in *. lia.
      * rewrite Z.shiftr_div_pow2 by lia. replace (- E - 1021) with s by lia. rewrite Z.div_mul by lia. lia.
Qed.

(** ** Rounding *)

Lemma mpb_get_u64_run l post :
  limbs_ok l → l ≠ [] → trimmed l → val l < 2 ^ 64 → mpb_get_u64 (mk l post) = (Ok (val l), mk l post).
Proof.
  intros Hl Hne Ht Hv. unfold mpb_get_u64. erewrite bind_run by apply get_len_run.
  destruct l as [|x [|y [|z l]]]; [done| | |].
  - change (Z.of_nat (length [x]) =? 1) with true. cbv iota.
    etransitivity; [by apply (limb_of_run [x] post 0 x)|]. cbn [val]. do 2 f_equal. lia.
  - change (Z.of_nat (length [x; y]) =? 1) with false. cbv iota.
    erewrite bind_run by by apply (limb_of_run [x; y] post 0). erewrite bind_run by by apply (limb_of_run [x; y] post 1).
    apply Forall_cons in Hl as [Hx [Hy _]%Forall_cons]. unfold ret. do 2 f_equal. unfold LIMB_BITS, u64. unfold fits in *.
    rewrite Z.shiftl_mul_pow2, wrap_id by (unfold fits; lia). rewrite lor_low_high by (unfold fits; lia).
    cbn [val]. unfold B. lia.
  - apply trimmed_value in Ht; [|done..]. destruct Ht as [?|Ht]; [done|]. cbn [length] in Ht.
    pose proof (Bn_mono 2 (S (S (S (length l))) - 1) ltac:(lia)) as Hm. change (Bn 2) with (2 ^ 64) in Hm. lia.
Qed.

(** Rounding to the nearest stays between the integers around. *)
Lemma rounds_between rnd v d q a b : 0 < d → rounds rnd v d q → a * d ≤ v ≤ b * d → a ≤ q ≤ b.
Proof.
  intros Hd Hq [Ha Hb]. destruct rnd; cbn in Hq.
  - destruct Hq as [H1 _]. split; apply Z.nlt_ge; intros Hlt; nia.
  - destruct Hq as [H1 _]. split; apply Z.nlt_ge; intros Hlt; nia.
  - subst q. split; [apply Z.div_le_lower_bound; lia|]. apply Z.div_le_upper_bound; lia.
Qed.

(** The steps of [round_to_d], around the rounding. *)
Lemma round_to_d_steps `{BuildConfig} off rnd l post l' post' :
  limbs_ok l → l ≠ [] → trimmed l → val l ≠ 0 →
  let E := Z.log2 (val l) + 1 - off in
  let k := ulp E - (E - 53) in
  0 ≤ k < 64 → mpb_shr_round (ulp E + off) rnd (mk l post) = (Ok tt, mk l' post') →
  limbs_ok l' → l' ≠ [] → trimmed l' → 0 ≤ val l' → val l' * 2 ^ k < 2 ^ 64 →
  round_to_d off rnd (mk l post) = (Ok (mantissa (val l') E), mk l' post').
Proof.
  intros Hl Hne Ht Hv E k Hk Erun Hl' Hne' Ht' Hq0 Hq. unfold round_to_d.
  destruct (lookup_lt_is_Some_2 l 0) as [t Ht0]; [destruct l; [done|cbn; lia]|].
  erewrite bind_run by by apply (limb_of_run _ _ 0). erewrite bind_run by apply get_len_run.
  assert (((t =? 0) && (Z.of_nat (length l) =? 1)) = false) as ->.
  { apply andb_false_iff. destruct (Z.eqb_spec t 0) as [->|]; [right|by left]. apply Z.eqb_neq. intros H1.
    destruct l as [|x [|]]; try done; [|cbn in H1; lia]. injection Ht0 as ->. done. }
  erewrite bind_run by by apply mpb_floor_log2_run. destruct (Z.eqb_spec (val l) 0); [done|]. cbv zeta.
  fold E. assert (E + off - (if E <? -1021 then 53 - (-1021 - E) else 53) = ulp E + off) as ->
    by (unfold ulp; destruct (Z.ltb_spec E (-1021)); lia).
  assert (53 - (if E <? -1021 then 53 - (-1021 - E) else 53) = k) as ->
    by (unfold k, ulp; destruct (Z.ltb_spec E (-1021)); lia).
  assert (1 ≤ 2 ^ k) as Hk1 by (pose proof (Z.pow_pos_nonneg 2 k); lia).
  erewrite bind_run by exact Erun. erewrite bind_run by (apply mpb_get_u64_run; [done..|nia]).
  erewrite bind_run. 2:{ unfold shl64. destruct (Z.leb_spec 0 k); [|lia]. destruct (Z.ltb_spec k 64); [|lia]. reflexivity. }
  rewrite Z.shiftl_mul_pow2 by lia. unfold u64. rewrite wrap_id by (unfold fits; nia).
  unfold mantissa, ret. fold k. do 2 f_equal. rewrite Z.shiftr_div_pow2 by lia. done.
Qed.

(** The exponent and the rounded number, for a number [val l] times [2^(- off)]. *)
Lemma round_to_d_run `{BuildConfig} off rnd l post :
  limbs_ok l → l ≠ [] → trimmed l → 0 < val l → (3 ≤ length post)%nat ∨ 53 ≤ Z.log2 (val l) →
  let E := Z.log2 (val l) + 1 - off in
  let s := ulp E + off in
  - 1080 ≤ E → s < 2 ^ 31 →
  ∃ q l' post', round_to_d off rnd (mk l post) = (Ok (mantissa q E), mk l' post') ∧ limbs_ok l' ∧ l' ≠ [] ∧ trimmed l' ∧
    (length l' + length post' = length l + length post)%nat ∧
    rounds rnd (val l * 2 ^ Z.max (- s) 0) (2 ^ Z.max s 0) q ∧
    0 ≤ q ≤ 2 ^ Z.max (E - ulp E) 0 ∧ (-1021 ≤ E → 2 ^ 52 ≤ q).
Proof.
  intros Hl Hne Ht Hv Hroom E s HE Hs. pose proof (Z.log2_nonneg (val l)). pose proof (log2_bounds (val l) Hv) as Hlog.
  set (k := ulp E - (E - 53)). assert (0 ≤ k ≤ 59) as Hk by (unfold k, ulp; lia).
  assert (Z.log2 (val l) + 1 = 53 - k + s) as El by (unfold k, s, E; lia).
  destruct (mpb_shr_round_run s rnd l post) as (l' & post' & Erun & Hl' & Hne' & Hlen' & HP & Ht');
    [done..|unfold INT_MIN; lia|intros; apply shift_words; lia|].
  assert (rounds rnd (val l * 2 ^ Z.max (- s) 0) (2 ^ Z.max s 0) (val l')) as Hrnd.
  { destruct (Z.ltb_spec s 0).
    - rewrite (Z.max_r s), (Z.max_l (- s)) by lia. apply rounds_exact; [done|]. rewrite HP. lia.
    - rewrite (Z.max_l s), (Z.max_r (- s)), Z.mul_1_r by lia. exact HP. }
  assert (0 < 2 ^ Z.max s 0) as Hs0 by (apply Z.pow_pos_nonneg; lia).
  assert (0 < 2 ^ Z.max (- s) 0) as Hs1 by (apply Z.pow_pos_nonneg; lia).
  assert (val l * 2 ^ Z.max (- s) 0 ≤ 2 ^ Z.max (53 - k) 0 * 2 ^ Z.max s 0) as Hhi.
  { apply Z.le_trans with (2 ^ (Z.log2 (val l) + 1) * 2 ^ Z.max (- s) 0).
    - apply Z.mul_le_mono_nonneg_r; [lia|]. rewrite Z.pow_add_r by lia. lia.
    - rewrite <-!Z.pow_add_r by lia. apply Z.pow_le_mono_r; lia. }
  assert (-1021 ≤ E → 2 ^ 52 * 2 ^ Z.max s 0 ≤ val l * 2 ^ Z.max (- s) 0) as Hlo.
  { intros HE2. assert (k = 0) as Hk0 by (unfold k, ulp; lia). apply Z.le_trans with (2 ^ Z.log2 (val l) * 2 ^ Z.max (- s) 0).
    - rewrite <-!Z.pow_add_r by lia. apply Z.pow_le_mono_r; lia.
    - apply Z.mul_le_mono_nonneg_r; lia. }
  assert (0 ≤ val l' ≤ 2 ^ Z.max (53 - k) 0) as Hq.
  { eapply rounds_between; [exact Hs0|exact Hrnd|]. split; [nia|exact Hhi]. }
  assert (-1021 ≤ E → 2 ^ 52 ≤ val l') as Hq52.
  { intros HE2. apply (rounds_between _ _ _ _ (2 ^ 52) (2 ^ Z.max (53 - k) 0) Hs0 Hrnd). split; [by apply Hlo|exact Hhi]. }
  assert (val l' * 2 ^ k < 2 ^ 64) as Hq64.
  { apply Z.le_lt_trans with (2 ^ Z.max (53 - k) 0 * 2 ^ k).
    - apply Z.mul_le_mono_nonneg_r; [apply Z.pow_nonneg; lia|lia].
    - rewrite <-Z.pow_add_r by lia. apply Z.pow_lt_mono_r; lia. }
  assert (1 ≤ 2 ^ k) as Hk1 by (pose proof (Z.pow_pos_nonneg 2 k); lia).
  exists (val l'), l', post'. replace (E - ulp E) with (53 - k) by (unfold k; lia).
  split_and!; [|done|done|apply Ht'; left; lia|done|done|lia|lia|done].
  apply round_to_d_steps; try done; [lia|fold E k; lia|apply Ht'; left; lia|lia].
Qed.

(** ** The double nearest to a fraction *)

(** [n / d] is in [[2^(E - 1), 2^E)]. *)
Definition in_binade (n d E : Z) : Prop :=
  2 ^ Z.max (E - 1) 0 * d ≤ n * 2 ^ Z.max (1 - E) 0 ∧ n * 2 ^ Z.max (- E) 0 < 2 ^ Z.max E 0 * d.

(** [q] is [n / (d * 2^u)], rounded. *)
Definition scaled_rounds (rnd : rnd_mode) (n d u q : Z) : Prop :=
  rounds rnd (n * 2 ^ Z.max (- u) 0) (d * 2 ^ Z.max u 0) q.

(** The bits of the double nearest to the positive number [n / d], ties to even:
    the last bit kept is the one of its binade, or [2^(-1074)]. *)
Definition nearest_bits (n d a : Z) : Prop :=
  ∃ E q, in_binade n d E ∧ scaled_rounds JS_RNDN n d (ulp E) q ∧ a = bits q (ulp E).

(** [n / d] is [v * 2^(- off)]: the powers of 2 are moved from one side to the other. *)
Definition same (n d v r off : Z) : Prop := n * r * 2 ^ Z.max off 0 = v * d * 2 ^ Z.max (- off) 0.

Lemma same_binade n d v r off a :
  0 < d → 0 < r → same n d v r off → 0 ≤ a → 2 ^ a * r ≤ v → v < 2 ^ (a + 1) * r → in_binade n d (a + 1 - off).
Proof.
  intros Hd Hr Hs Ha Hlo Hhi. unfold same in Hs. set (E := a + 1 - off).
  assert (∀ k, 0 < 2 ^ Z.max k 0) as Hp by (intros; apply Z.pow_pos_nonneg; lia).
  assert (2 ^ a * 2 ^ Z.max (- off) 0 * 2 ^ Z.max (1 - E) 0 = 2 ^ Z.max (E - 1) 0 * 2 ^ Z.max off 0) as E1
    by (rewrite <-!Z.pow_add_r by lia; f_equal; lia).
  assert (2 ^ (a + 1) * 2 ^ Z.max (- off) 0 * 2 ^ Z.max (- E) 0 = 2 ^ Z.max E 0 * 2 ^ Z.max off 0) as E2
    by (rewrite <-!Z.pow_add_r by lia; f_equal; lia).
  pose proof (Hp off). pose proof (Hp (- off)). pose proof (Hp (1 - E)). pose proof (Hp (- E)). split.
  - apply (Z.mul_le_mono_pos_r _ _ (r * 2 ^ Z.max off 0)); [nia|].
    transitivity (2 ^ a * r * (d * (2 ^ Z.max (- off) 0 * 2 ^ Z.max (1 - E) 0))).
    + apply Z.eq_le_incl. transitivity (2 ^ Z.max (E - 1) 0 * 2 ^ Z.max off 0 * (d * r)); [ring|]. rewrite <-E1. ring.
    + transitivity (v * (d * (2 ^ Z.max (- off) 0 * 2 ^ Z.max (1 - E) 0))); [apply Z.mul_le_mono_nonneg_r; nia|].
      apply Z.eq_le_incl. transitivity (v * d * 2 ^ Z.max (- off) 0 * 2 ^ Z.max (1 - E) 0); [ring|]. rewrite <-Hs. ring.
  - apply (Z.mul_lt_mono_pos_r (r * 2 ^ Z.max off 0)); [nia|].
    apply Z.le_lt_trans with (v * (d * (2 ^ Z.max (- off) 0 * 2 ^ Z.max (- E) 0))).
    + apply Z.eq_le_incl. transitivity (n * r * 2 ^ Z.max off 0 * 2 ^ Z.max (- E) 0); [ring|]. rewrite Hs. ring.
    + apply Z.lt_le_trans with (2 ^ (a + 1) * r * (d * (2 ^ Z.max (- off) 0 * 2 ^ Z.max (- E) 0))); [apply Z.mul_lt_mono_pos_r; nia|].
      apply Z.eq_le_incl. transitivity (2 ^ (a + 1) * 2 ^ Z.max (- off) 0 * 2 ^ Z.max (- E) 0 * (r * d)); [ring|]. rewrite E2. ring.
Qed.

Lemma same_rounds rnd n d v r off u q :
  0 < d → 0 < r → same n d v r off →
  rounds rnd (v * 2 ^ Z.max (- (u + off)) 0) (r * 2 ^ Z.max (u + off) 0) q → scaled_rounds rnd n d u q.
Proof.
  intros Hd Hr Hs. unfold same in Hs.
  assert (∀ k, 0 < 2 ^ Z.max k 0) as Hp by (intros; apply Z.pow_pos_nonneg; lia).
  apply rounds_ratio; [apply Z.mul_pos_pos; auto|apply Z.mul_pos_pos; auto|].
  assert (2 ^ Z.max (- (u + off)) 0 * 2 ^ Z.max u 0 * 2 ^ Z.max off 0 = 2 ^ Z.max (- u) 0 * 2 ^ Z.max (u + off) 0 * 2 ^ Z.max (- off) 0) as E
    by (rewrite <-!Z.pow_add_r by lia; f_equal; lia).
  apply (Z.mul_reg_r _ _ (2 ^ Z.max off 0)); [pose proof (Hp off); lia|].
  transitivity (v * d * (2 ^ Z.max (- (u + off)) 0 * 2 ^ Z.max u 0 * 2 ^ Z.max off 0)); [ring|]. rewrite E.
  transitivity (v * d * 2 ^ Z.max (- off) 0 * (2 ^ Z.max (- u) 0 * 2 ^ Z.max (u + off) 0)); [ring|]. rewrite <-Hs. ring.
Qed.

(** The binade of a sticky quotient is the one of the quotient. *)
Lemma sticky_log v d :
  0 < d → 0 ≤ v → 1 < sticky v d →
  let a := Z.log2 (sticky v d) in 2 ^ a * d ≤ v ∧ v < 2 ^ (a + 1) * d.
Proof.
  intros Hd Hv Hs a. pose proof (log2_bounds (sticky v d) ltac:(lia)) as Hb. fold a in Hb.
  assert (1 ≤ a) as Ha by (apply Z.log2_le_pow2; lia).
  assert (2 ^ a = 2 * 2 ^ (a - 1)) as E by (rewrite <-Z.pow_succ_r by lia; f_equal; lia).
  assert (0 < 2 ^ (a - 1)) by (apply Z.pow_pos_nonneg; lia).
  rewrite Z.pow_add_r by lia. rewrite E in *. unfold sticky in *. pose proof (Z.div_pos v d Hv Hd).
  rewrite lor_bit in * by lia. pose proof (Z.div_mod v d ltac:(lia)) as Ev. pose proof (Z.mod_pos_bound v d Hd).
  destruct (negb _).
  - pose proof (Z.div_mod (v / d) 2 ltac:(lia)). pose proof (Z.mod_pos_bound (v / d) 2 ltac:(lia)).
    assert (2 * 2 ^ (a - 1) ≤ v / d ∧ v / d + 1 ≤ 2 * (2 * 2 ^ (a - 1))) as [? ?] by lia. nia.
  - nia.
Qed.

(** The exponent of a binade is bounded by a bound of the number. *)
Lemma binade_above n d E k : 0 < n → 0 < d → 0 ≤ k → in_binade n d E → d ≤ n * 2 ^ k → - k < E.
Proof.
  intros Hn Hd Hk [_ Hhi] Hb. apply Z.nle_gt. intros HE. rewrite (Z.max_l (- E)), (Z.max_r E) in Hhi by lia.
  pose proof (Z.pow_le_mono_r 2 k (- E) ltac:(lia) ltac:(lia)). rewrite Z.pow_0_r in Hhi. nia.
Qed.

(** The array is long enough for [mul_pow_round_to_d]. *)
Definition room_d (n : nat) (v : Z) (nl : nat) (radix1 f : Z) : Prop :=
  if (radix1 =? 1) || (0 <=? f) then v * radix1 ^ Z.max f 0 < 2 ^ (32 * (Z.of_nat n - 4))
  else ∃ d, digits_per_limb_table !! Z.to_nat (radix1 - 2) = Some d ∧
    Z.of_nat nl + (- f + d - 1) / d + 3 ≤ Z.of_nat n ∧ (- f + d - 1) / d + 5 ≤ Z.of_nat n.

Lemma trimmed_length l n : limbs_ok l → l ≠ [] → trimmed l → 0 < val l → val l < 2 ^ (32 * Z.of_nat n) → (length l ≤ n)%nat.
Proof.
  intros Hl Hne Ht Hv Hlt. pose proof (trimmed_top l Ht ltac:(lia)) as Htop. apply top_value in Htop; [|done..].
  rewrite Bn_pow2 in Htop. assert (2 ^ (32 * Z.of_nat (length l - 1)) < 2 ^ (32 * Z.of_nat n)) as Hp by lia.
  apply Z.pow_lt_mono_r_iff in Hp; lia.
Qed.

(** A number of few bits is a number of few limbs. *)
Lemma short_or_large l : limbs_ok l → l ≠ [] → trimmed l → 0 < val l → (length l ≤ 2)%nat ∨ 55 ≤ Z.log2 (val l).
Proof.
  intros Hl Hne Ht Hv. destruct (Z.le_gt_cases 55 (Z.log2 (val l))) as [|Hs]; [by right|left].
  apply trimmed_length; [done..|]. pose proof (log2_bounds _ Hv). pose proof (Z.log2_nonneg (val l)).
  apply Z.lt_le_trans with (2 ^ (Z.log2 (val l) + 1)); [rewrite Z.pow_add_r; lia|]. apply Z.pow_le_mono_r; lia.
Qed.

(** The words of a shift by [c] limbs and what is missing to have 55 bits. *)
Lemma lift_words c b n p :
  0 ≤ c → 0 ≤ b → (n ≤ 2)%nat ∨ 55 ≤ b →
  Z.of_nat n + c + 3 ≤ Z.of_nat (n + p) → c + 5 ≤ Z.of_nat (n + p) →
  let L := c * 32 + Z.max (55 - b) 0 in (Z.to_nat (L / 32) + spill (L mod 32) ≤ p)%nat.
Proof. intros Hc Hb Hs H1 H2 L. apply shift_words; lia. Qed.

(** What is left by [m] for a rounding of [n / d] to 53 bits. *)
Definition leaves_53 (m : M mpb_t Z) (l post : list Z) (n d : Z) : Prop :=
  ∃ off l' post', m (mk l post) = (Ok off, mk l' post') ∧ limbs_ok l' ∧ l' ≠ [] ∧ trimmed l' ∧
    (length l' + length post' = length l + length post)%nat ∧ ((3 ≤ length post')%nat ∨ 53 ≤ Z.log2 (val l')) ∧ 0 < val l' ∧ - 2 ^ 24 ≤ off ≤ 2 ^ 24 ∧
    (let a := Z.log2 (val l') in in_binade n d (a + 1 - off)) ∧
    (∀ rnd u q, Z.log2 (val l') - 52 ≤ u + off →
      rounds rnd (val l' * 2 ^ Z.max (- (u + off)) 0) (2 ^ Z.max (u + off) 0) q → scaled_rounds rnd n d u q).

Section mul_pow_53.
Context `{BuildConfig} (radix1 rs f : Z) (l post : list Z).
Context (Hrs : 0 ≤ rs ≤ 5) (Hf : - 2 ^ 20 ≤ f ≤ 2 ^ 20).
Context (Hl : limbs_ok l) (Hne : l ≠ []) (Ht : trimmed l) (Hv : 0 < val l) (Hsz : (length l + length post ≤ 1000)%nat).

Let n := num (val l) 0 (radix1 * 2 ^ rs) f.
Let d := den 0 (radix1 * 2 ^ rs) f.
Let T := (length l + length post)%nat.

Lemma mul_pow_53_up :
  odd_part radix1 → radix1 = 1 ∨ 0 ≤ f → val l * radix1 ^ Z.max f 0 < 2 ^ (32 * (Z.of_nat T - 4)) →
  leaves_53 (mul_pow radix1 rs f false 55) l post n d.
Proof using All.
  intros Hodd Hf0 Hroom. assert (0 < radix1) as Hr1 by (destruct Hodd; lia).
  assert (0 < d) as Hd by (apply den_pos; pose proof (Z.pow_pos_nonneg 2 rs); nia).
  assert (0 < radix1 ^ Z.max f 0) as Hp by (apply Z.pow_pos_nonneg; lia).
  destruct (mul_pow_up_run radix1 rs f false 55 l post) as (l' & post' & E & Hl' & Hne' & Hlen & Ev & Ht'); [done..| |].
  { fold T. rewrite Bn_pow2. eapply Z.lt_trans; [exact Hroom|]. apply Z.pow_lt_mono_r; lia. }
  assert (0 < val l') as Hv' by (rewrite Ev; nia).
  assert (4 ≤ T)%nat as HT. { destruct (le_lt_dec 4 T); [done|]. rewrite (Z.pow_neg_r 2) in Hroom by lia. nia. }
  assert (length l' ≤ T - 4)%nat.
  { apply trimmed_length; [done..|]. rewrite Ev. replace (Z.of_nat (T - 4)) with (Z.of_nat T - 4) by lia. done. }
  assert (same n d (val l') 1 (- f * rs)) as Hsame.
  { unfold same, n, d. rewrite Ev. pose proof (num_up (val l) 0 radix1 rs f (- f * rs) Hr1 ltac:(lia) Hf0 ltac:(lia)). lia. }
  exists (- f * rs), l', post'. split_and!; [done..|lia|lia|done|nia|nia| |].
  - pose proof (log2_bounds _ Hv'). apply (same_binade _ _ (val l') 1); try done; [apply Z.log2_nonneg|lia|].
    rewrite Z.pow_add_r by (pose proof (Z.log2_nonneg (val l')); lia). lia.
  - intros rnd u q _ Hq. eapply (same_rounds _ _ _ (val l') 1); [done|done|exact Hsame|]. rewrite Z.mul_1_l. exact Hq.
Qed.

(** The bits [mul_pow] adds before a division make the quotient large enough. *)
Lemma lift_enough dl :
  Z.land radix1 (radix1 - 1) ≠ 0 → 3 ≤ radix1 ≤ 35 → digits_per_limb_table !! Z.to_nat (radix1 - 2) = Some dl → f < 0 →
  let L := lift dl rs f false 55 (val l) in
  let c := (- f + dl - 1) / dl in
  1 ≤ c ∧ L = c * 32 + Z.max (55 - Z.log2 (val l)) 0 ∧ 2 ^ 55 * radix1 ^ (- f) ≤ val l * 2 ^ L.
Proof using All.
  intros Hl2 Hr Hdl Hfn L c. destruct (radix_tables radix1) as (d' & Hd' & _ & Hdpos & _ & Hdb); [lia|]. rewrite Hdl in Hd'. injection Hd' as <-.
  assert (1 ≤ c) as Hc by (apply Z.div_le_lower_bound; lia).
  pose proof (Z.log2_nonneg (val l)) as Hlog0. pose proof (log2_bounds _ Hv) as Hlog.
  assert (L = c * 32 + Z.max (55 - Z.log2 (val l)) 0) as EL.
  { unfold L, lift, max_int. fold c. destruct (Z.eqb_spec (val l) 0); [lia|]. rewrite Z.gtb_ltb.
    destruct (Z.ltb_spec 0 (55 - Z.log2 (val l))); lia. }
  split; [done|]. split; [done|]. apply Z.le_trans with (2 ^ Z.log2 (val l) * 2 ^ L); [|apply Z.mul_le_mono_nonneg_r; [apply Z.pow_nonneg|]; lia].
  apply Z.le_trans with (2 ^ 55 * 2 ^ (32 * c)); [|rewrite <-!Z.pow_add_r by lia; apply Z.pow_le_mono_r; lia].
  apply Z.mul_le_mono_nonneg_l; [lia|]. transitivity (radix1 ^ (dl * c)).
  - apply Z.pow_le_mono_r; [lia|]. unfold c. pose proof (Z.div_mod (- f + dl - 1) dl ltac:(lia)). pose proof (Z.mod_pos_bound (- f + dl - 1) dl ltac:(lia)). lia.
  - rewrite Z.pow_mul_r, (Z.pow_mul_r 2) by lia. apply Z.pow_le_mono_l. specialize (Hdb Hl2). unfold B in Hdb. split; [apply Z.pow_nonneg; lia|lia].
Qed.

Lemma mul_pow_53_down dl :
  Z.land radix1 (radix1 - 1) ≠ 0 → 3 ≤ radix1 ≤ 35 → digits_per_limb_table !! Z.to_nat (radix1 - 2) = Some dl → f < 0 →
  Z.of_nat (length l) + (- f + dl - 1) / dl + 3 ≤ Z.of_nat T → (- f + dl - 1) / dl + 5 ≤ Z.of_nat T →
  leaves_53 (mul_pow radix1 rs f false 55) l post n d.
Proof using All.
  intros Hl2 Hr Hdl Hfn HT HT2. assert (0 < d) as Hd by (apply den_pos; pose proof (Z.pow_pos_nonneg 2 rs); nia).
  destruct (lift_enough dl Hl2 Hr Hdl Hfn) as (Hc & HL & Hbig). set (c := (- f + dl - 1) / dl) in *.
  set (L := lift dl rs f false 55 (val l)) in *. pose proof (Z.log2_nonneg (val l)) as Hlog0.
  assert ((length l ≤ 2)%nat ∨ 55 ≤ Z.log2 (val l)) as Hsmall by by apply short_or_large.
  destruct (mul_pow_down_run radix1 dl rs f false 55 l post) as (l' & post' & E & Hl' & Hne' & Hlen & Ev & Ht');
    [done..|fold L; lia|fold L; rewrite HL; apply (lift_words c (Z.log2 (val l)) (length l)); [lia|done|done|exact HT|exact HT2]|lia|]. fold L in E, Ev.
  set (R := radix1 ^ (- f)) in *. assert (0 < R) as HR by (apply Z.pow_pos_nonneg; lia).
  assert (0 ≤ val l * 2 ^ L) as Hnn by (pose proof (Z.pow_pos_nonneg 2 L); nia).
  pose proof (sticky_bounds (val l * 2 ^ L) R Hnn HR) as Hst. rewrite <-Ev in Hst.
  assert (2 ^ 55 ≤ val l * 2 ^ L / R) as Hq55 by (apply Z.div_le_lower_bound; lia).
  assert (val l * 2 ^ L / R ≤ val l * 2 ^ L) as Hqle by (apply Z.div_le_upper_bound; nia).
  assert (55 ≤ Z.log2 (val l')) as Ha by (apply Z.log2_le_pow2; lia).
  assert (length l' ≤ length l + Z.to_nat c + 2)%nat as Hlen'.
  { apply trimmed_length; [done..|lia|]. pose proof (val_range l Hl) as Hvr. rewrite Bn_pow2 in Hvr.
    apply Z.le_lt_trans with (2 ^ (32 * Z.of_nat (length l)) * 2 ^ L).
    - pose proof (Z.pow_pos_nonneg 2 L). nia.
    - rewrite <-Z.pow_add_r by lia. apply Z.pow_lt_mono_r; lia. }
  assert (same n d (val l * 2 ^ L) R (- f * rs + L)) as Hsame.
  { unfold same, n, d. rewrite (Z.max_l (- f * rs + L)), (Z.max_r (- (- f * rs + L))) by nia. rewrite Z.pow_0_r, Z.mul_1_r.
    rewrite (num_down (val l) 0 radix1 rs f L (- f * rs + L)) by nia. unfold R. ring. }
  exists (- f * rs + L), l', post'. split_and!; [done..|lia|lia|nia|nia| |].
  - cbv zeta. rewrite Ev in Ha |- *. destruct (sticky_log (val l * 2 ^ L) R HR Hnn) as [Hlo Hhi]; [rewrite <-Ev; lia|].
    apply (same_binade _ _ (val l * 2 ^ L) R); try done. lia.
  - intros rnd u q Hu Hq. rewrite (Z.max_l (u + _)), (Z.max_r (- _)), Z.mul_1_r in Hq by lia. rewrite Ev in Hq.
    apply sticky_rounds in Hq; [|done|done|lia]. eapply (same_rounds _ _ _ (val l * 2 ^ L) R); [done|done|exact Hsame|].
    rewrite (Z.max_l (u + _)), (Z.max_r (- _)), Z.mul_1_r by lia. exact Hq.
Qed.

Lemma mul_pow_53_run :
  odd_part radix1 → room_d T (val l) (length l) radix1 f → leaves_53 (mul_pow radix1 rs f false 55) l post n d.
Proof using All.
  intros Hodd. unfold room_d. destruct ((radix1 =? 1) || (0 <=? f)) eqn:Ec.
  - apply mul_pow_53_up; [done|]. apply orb_true_iff in Ec as [?%Z.eqb_eq|?%Z.leb_le]; auto.
  - apply orb_false_iff in Ec as [H1%Z.eqb_neq Hfn%Z.leb_gt]. destruct Hodd as [|[Hr Hl2]]; [done|].
    intros (dl & Hdl & HT & HT2). by apply (mul_pow_53_down dl).
Qed.

End mul_pow_53.

(** What [round_to_d] makes of it. *)
Definition rounds_to_d (rnd : rnd_mode) (n d : Z) (me : Z * Z) : Prop :=
  ∃ E q, in_binade n d E ∧ scaled_rounds rnd n d (ulp E) q ∧ me = mantissa q E ∧
    0 ≤ q ≤ 2 ^ Z.max (E - ulp E) 0 ∧ (-1021 ≤ E → 2 ^ 52 ≤ q).

Lemma leaves_53_rounds `{BuildConfig} (m : M mpb_t Z) rnd l post n d :
  leaves_53 m l post n d → (length l + length post ≤ 1000)%nat → 0 < n → 0 < d → d ≤ n * 2 ^ 1081 →
  ∃ me l' post', (off ← m; round_to_d off rnd) (mk l post) = (Ok me, mk l' post') ∧ limbs_ok l' ∧ l' ≠ [] ∧ trimmed l' ∧
    (length l' + length post' = length l + length post)%nat ∧ rounds_to_d rnd n d me.
Proof.
  intros (off & l1 & post1 & E1 & Hl1 & Hne1 & Ht1 & Hlen1 & Hroom & Hv1 & Hoff & Hbin & Hscale) Hsz Hn Hd Hlow.
  cbv zeta in Hbin. set (E := Z.log2 (val l1) + 1 - off) in *.
  pose proof (binade_above n d E 1081 Hn Hd ltac:(lia) Hbin Hlow) as HE.
  assert (Z.log2 (val l1) < 32 * Z.of_nat (length l1)) as Hlg.
  { apply Z.log2_lt_pow2; [done|]. rewrite <-Bn_pow2. by apply val_range. }
  destruct (round_to_d_run off rnd l1 post1) as (q & l2 & post2 & E2 & Hl2 & Hne2 & Ht2 & Hlen2 & Hq & Hqr & Hqn);
    [done..|fold E; lia|fold E; unfold ulp; lia|]. fold E in E2, Hq, Hqr, Hqn.
  exists (mantissa q E), l2, post2. split_and!; [|done..|lia|].
  - erewrite bind_run by exact E1. exact E2.
  - exists E, q. split; [done|]. split; [|done]. eapply Hscale; [|exact Hq]. unfold ulp, E. lia.
Qed.

Lemma mul_pow_round_to_d_run `{BuildConfig} radix1 rs f rnd l post :
  odd_part radix1 → 0 ≤ rs ≤ 5 → - 2 ^ 20 ≤ f ≤ 2 ^ 20 → limbs_ok l → l ≠ [] → trimmed l → 0 < val l →
  (length l + length post ≤ 1000)%nat → room_d (length l + length post) (val l) (length l) radix1 f →
  let n := num (val l) 0 (radix1 * 2 ^ rs) f in
  let d := den 0 (radix1 * 2 ^ rs) f in
  d ≤ n * 2 ^ 1081 →
  ∃ me l' post', mul_pow_round_to_d radix1 rs f rnd (mk l post) = (Ok me, mk l' post') ∧ limbs_ok l' ∧ l' ≠ [] ∧ trimmed l' ∧
    (length l' + length post' = length l + length post)%nat ∧ rounds_to_d rnd n d me.
Proof.
  intros Hodd Hrs Hf Hl Hne Ht Hv Hsz Hroom n d Hlow. assert (0 < radix1) as Hr1 by (destruct Hodd; lia).
  assert (0 < radix1 * 2 ^ rs) by (pose proof (Z.pow_pos_nonneg 2 rs); nia).
  apply leaves_53_rounds; [by apply mul_pow_53_run|done| |by apply den_pos|done].
  unfold n, num. apply Z.mul_pos_pos; [apply Z.mul_pos_pos; [done|]|]; apply Z.pow_pos_nonneg; lia.
Qed.

(** The bits are the ones of the nearest double. *)
Lemma rounds_to_d_nearest n d me :
  0 < n → 0 < d → n < 2 ^ 1100 * d → rounds_to_d JS_RNDN n d me → nearest_bits n d (pack me.1 me.2).
Proof.
  intros Hn Hd Hhi (E & q & Hbin & Hq & -> & Hqr & Hqn). exists E, q. split_and!; [done..|].
  assert (E ≤ 1100) as HE.
  { apply Z.nlt_ge. intros Hlt. destruct Hbin as [Hlo _]. rewrite (Z.max_l (E - 1)), (Z.max_r (1 - E)), Z.pow_0_r in Hlo by lia.
    pose proof (Z.pow_le_mono_r 2 1100 (E - 1) ltac:(lia) ltac:(lia)). nia. }
  assert (E < -1074 → q = 0) as Hsmall.
  { intros Hlt. assert (ulp E = -1074) as Eu by (unfold ulp; lia). rewrite Eu in Hq, Hqr. unfold scaled_rounds in Hq.
    destruct Hbin as [_ Hb]. rewrite (Z.max_l (- E)), (Z.max_r E), Z.pow_0_r, Z.mul_1_l in Hb by lia.
    change (Z.max (- -1074) 0) with 1074 in Hq. change (Z.max (-1074) 0) with 0 in Hq. rewrite Z.pow_0_r, Z.mul_1_r in Hq.
    assert (2 * (n * 2 ^ 1074) < d) as Hlt2.
    { pose proof (Z.pow_le_mono_r 2 1075 (- E) ltac:(lia) ltac:(lia)) as Hp. change (2 ^ 1075) with (2 * 2 ^ 1074) in Hp. nia. }
    destruct Hq as [Hq _]. assert (q ≤ 0); [|lia]. apply Z.nlt_ge. intros Hq1.
    assert (0 ≤ n * 2 ^ 1074) by (apply Z.mul_nonneg_nonneg; lia). nia. }
  apply pack_mantissa; [|done..|done]. split; [lia|]. destruct (Z.le_gt_cases (-1074) E).
  - rewrite Z.max_l in Hqr by (unfold ulp; lia). lia.
  - rewrite Hsmall by lia. apply Z.pow_nonneg. lia.
Qed.
