(* ===== verification/AtodFacts.v ===== *)
(** * Text to floating point numbers: lemmas

    [js_atod]: the digits of a numeral, its value, and the whole numeral. *)
From S2P Require Import Prelude CStd Words CUtils BigIntMp BigIntMpFacts BigIntDiv BigInt BigIntFacts BigIntOps.
From S2P Require Import BigIntDivRem Digits DigitsFacts BigIntToText DtoaMp DtoaMpFacts Dtoa Atod.
From S2P Require Import DtoaRoundFacts.

(** * Text to floating point numbers: the digits

    The loops of [js_atod] over the digits of a numeral: where they stop, and
    the number they leave in [tmp0]. *)

Definition dot : Z := $".".

(** The digits [ds] with the point after [k] of them, if there are that many. *)
Definition body (ds : list Z) (k : nat) : list Z :=
  if (k <=? length ds)%nat then take k ds ++ dot :: drop k ds else ds.

(** One for a point that is passed. *)
Definition passed (k i : nat) : nat := if (k <=? i)%nat then 1 else 0.

Lemma body_digit ds k i v : ds !! i = Some v → body ds k !! (i + passed k i)%nat = Some v.
Proof.
  intros Hi. unfold body, passed. pose proof (lookup_lt_Some _ _ _ Hi).
  destruct (Nat.leb_spec k (length ds)), (Nat.leb_spec k i); try lia; rewrite ?Nat.add_0_r; try done.
  - rewrite lookup_app_r by (rewrite length_take; lia). rewrite length_take, Nat.min_l by lia.
    replace (i + 1 - k)%nat with (S (i - k)) by lia. transitivity (drop k ds !! (i - k)%nat); [done|].
    rewrite lookup_drop. by replace (k + (i - k))%nat with i by lia.
  - rewrite lookup_app_l by (rewrite length_take; lia). by rewrite lookup_take_lt by lia.
Qed.

Lemma body_dot ds k : (k ≤ length ds)%nat → body ds k !! k = Some dot.
Proof.
  intros Hk. unfold body. destruct (Nat.leb_spec k (length ds)); [|lia].
  rewrite lookup_app_r by (rewrite length_take; lia). by rewrite length_take, Nat.min_l, Nat.sub_diag by lia.
Qed.

Lemma body_length ds k : length (body ds k) = (length ds + passed k (length ds))%nat.
Proof.
  unfold body, passed. destruct (Nat.leb_spec k (length ds)); [|lia]. rewrite length_app. cbn [length].
  rewrite length_take, length_drop. lia.
Qed.

(** The zeros at the start. *)
Fixpoint leading_zeros (l : list Z) : nat :=
  match l with c :: l => if c =? $"0" then S (leading_zeros l) else 0 | [] => 0 end.

Lemma leading_zeros_lookup l i c : l !! i = Some c → (i < leading_zeros l)%nat → c = $"0".
Proof.
  revert i. induction l as [|x l IH]; intros i Hi Hlt; [done|]. cbn in Hlt. destruct (Z.eqb_spec x ($"0")) as [->|]; [|lia].
  destruct i as [|i]; [by injection Hi|]. apply (IH i); [done|lia].
Qed.

Lemma leading_zeros_end l c : l !! leading_zeros l = Some c → c ≠ $"0".
Proof.
  induction l as [|x l IH]; [done|]. cbn [leading_zeros]. destruct (Z.eqb_spec x ($"0")) as [->|Hx]; [exact IH|]. by intros [= <-].
Qed.

Lemma leading_zeros_length l : (leading_zeros l ≤ length l)%nat.
Proof. induction l as [|x l IH]; [done|]. cbn. destruct (x =? _); lia. Qed.

Lemma to_digit_nonneg c : 0 ≤ to_digit c.
Proof.
  unfold to_digit. destruct (Z.geb_spec c ($"0")), (Z.leb_spec c ($"9")); cbn [andb]; try lia;
    destruct (Z.geb_spec c ($"A")), (Z.leb_spec c ($"Z")); cbn [andb]; try lia;
    destruct (Z.geb_spec c ($"a")), (Z.leb_spec c ($"z")); cbn [andb]; lia.
Qed.

Lemma short_number l : limbs_ok l → l ≠ [] → trimmed l → val l < 2 ^ 150 → (length l ≤ 5)%nat.
Proof.
  intros Hl Hne Ht Hv. destruct (Z.eq_dec (val l) 0) as [E|E].
  - apply trimmed_value in Ht; [|done..]. destruct Ht as [->|Ht]; [lia|]. pose proof (Bn_pos (length l - 1)). lia.
  - pose proof (val_range l Hl). apply trimmed_length; [done..|lia|]. eapply Z.lt_trans; [exact Hv|]. apply Z.pow_lt_mono_r; lia.
Qed.

(** ** One limb of digits *)

(** The base [0] is [2^32]. *)
Definition base_value (radix_base : Z) : Z := if radix_base =? 0 then B else radix_base.

Lemma mpb_mul1_base_run radix_base a l post :
  limbs_ok l → l ≠ [] → trimmed l → fits 32 radix_base → fits 32 a → (2 ≤ length post)%nat →
  becomes (mpb_mul1_base radix_base a) l post (λ l' _, val l' = val l * base_value radix_base + a ∧ trimmed l').
Proof.
  intros Hl Hne Ht Hb Ha Hroom. unfold becomes, mpb_mul1_base.
  destruct (lookup_lt_is_Some_2 l 0) as [t Ht0]; [destruct l; [done|cbn; lia]|].
  setoid_rewrite bind_run; [|by apply (limb_of_run l post 0)]. setoid_rewrite bind_run; [|apply get_len_run].
  destruct ((t =? 0) && (Z.of_nat (length l) =? 1)) eqn:Ez.
  - apply andb_true_iff in Ez as [->%Z.eqb_eq H1%Z.eqb_eq]. destruct l as [|x [|]]; try done; [|cbn in H1; lia].
    injection Ht0 as ->. exists [a], post. split_and!; [by erewrite (zoom_run _ tt _ (a :: post))|by constructor|done|done| |by left].
    cbn [val]. lia.
  - assert (∃ l1 post1, (if radix_base =? 0 then zoom (move_up (S (Z.to_nat (Z.of_nat (length l)))) 1);; zoom (wr 0 a)
      else x ← zoom (limbs 0 (Z.of_nat (length l))); let '(res, h) := mp_mul1 x radix_base a in
        zoom (set_limbs 0 res);; zoom (wr (Z.of_nat (length l)) h)) (mk l post)
      = (Ok tt, {| DtoaMp.len := Z.of_nat (length l); tab := l1 ++ post1 |}) ∧ limbs_ok l1 ∧ length l1 = S (length l) ∧
      (length l1 + length post1 = length l + length post)%nat ∧ val l1 = val l * base_value radix_base + a) as
      (l1 & post1 & E1 & Hl1 & Hlen1 & Hlen & Ev1).
    { unfold base_value. destruct post as [|x [|y post]]; [cbn in Hroom; lia..|]. destruct (Z.eqb_spec radix_base 0) as [_|Hb0].
      - exists (a :: l), (x :: post). split_and!; [|by constructor|done|cbn; lia|cbn [val]; lia]. rewrite Nat2Z.id.
        pose proof (move_up_run (l ++ [x]) (y :: post) 1 ltac:(cbn; lia)) as E. rewrite length_app, Nat.add_1_r, <-!app_assoc in E.
        erewrite bind_run by by apply tab_run. destruct l as [|l0 l]; [done|].
        by erewrite (zoom_run _ tt _ (a :: (l0 :: l) ++ x :: post)).
      - destruct (js_mp_mul1_spec l radix_base a Hl Hb Ha) as (res & h & E & Hres & Hlen & Hh & Ev).
        exists (res ++ [h]), (y :: post). rewrite length_app. split_and!; [|by apply Forall_app_2; [|constructor]|cbn; lia|cbn; lia|rewrite val_snoc, Hlen; lia].
        erewrite bind_run by (apply tab_read, limbs_all_run). unfold mp_mul1. rewrite E. cbv beta iota.
        erewrite bind_run by by apply set_all_run. rewrite <-app_assoc.
        erewrite (tab_run _ tt res (x :: y :: post)); [by rewrite Hlen|]. rewrite <-Hlen. by apply wr_here. }
    assert (l1 ≠ []) as Hne1 by by destruct l1.
    destruct (mpb_renorm_run l1 post1 Hne1) as (l2 & zs & E2 & El & Ev2 & Hne2 & Ht2).
    exists l2, (zs ++ post1). split_and!; [|by rewrite El in Hl1; apply Forall_app in Hl1 as []|done| |congruence|done].
    + erewrite bind_run by exact E1. erewrite bind_run by done. rewrite <-E2. f_equal. unfold mk. f_equal. rewrite Hlen1. cbn. lia.
    + apply (f_equal length) in El. rewrite !length_app in *. lia.
Qed.

Section scan.
Context (pre ds rest : list Z) (k : nat) (stop radix flags : Z).
Let text : list Z := pre ++ body ds k ++ stop :: rest.
Let p0 : Z := Z.of_nat (length pre).
Context (Hds : Forall (λ c, to_digit c < radix) ds) (Hne : ds ≠ []).
Context (Hradix : 2 ≤ radix ≤ 36) (Hstop : radix ≤ to_digit stop) (Hdot : stop ≠ dot) (Hchar : stop ≠ 256).
Context (Hflags : has flags JS_ATOD_INT_ONLY = false).

(** The place of the digit [i], the point before it passed or not. *)
Definition place (i : nat) : Z := p0 + Z.of_nat i + Z.of_nat (passed k i).

Lemma at_lookup {S} p c (s : S) : 0 ≤ p → text !! Z.to_nat p = Some c → at_ text p s = (Ok c, s).
Proof using Type. intros. by apply rd_run. Qed.

Lemma at_body {S} j c (s : S) : body ds k !! j = Some c → at_ text (p0 + Z.of_nat j) s = (Ok c, s).
Proof using Type.
  intros Hj. apply at_lookup; [lia|]. unfold text, p0. replace (Z.to_nat _) with (length pre + j)%nat by lia.
  rewrite lookup_app_r by lia. replace (length pre + j - length pre)%nat with j by lia. by apply lookup_app_l_Some.
Qed.

Lemma at_digit {S} i c (s : S) : ds !! i = Some c → at_ text (place i) s = (Ok c, s).
Proof using Type.
  intros Hi. unfold place. replace (p0 + Z.of_nat i + Z.of_nat (passed k i)) with (p0 + Z.of_nat (i + passed k i)) by lia.
  by apply at_body, body_digit.
Qed.

Lemma at_stop {S} (s : S) : at_ text (place (length ds)) s = (Ok stop, s).
Proof using Type.
  unfold place. apply at_lookup; [lia|]. unfold text, p0.
  replace (Z.to_nat _) with (length pre + length (body ds k))%nat by (rewrite body_length; lia).
  rewrite lookup_app_r by lia. replace (length pre + _ - length pre)%nat with (length (body ds k)) by lia.
  by rewrite list_lookup_middle.
Qed.

(** The character at the place of [i], a digit or the one after them. *)
Definition char_at (i : nat) : Z := default stop (ds !! i).

Lemma at_place {S} i (s : S) : (i ≤ length ds)%nat → at_ text (place i) s = (Ok (char_at i), s).
Proof using Type.
  intros Hi. unfold char_at. destruct (ds !! i) as [c|] eqn:E; [by apply at_digit|].
  apply lookup_ge_None in E. replace i with (length ds) by lia. apply at_stop.
Qed.

Lemma char_at_dot i : char_at i ≠ dot.
Proof using All.
  unfold char_at. destruct (ds !! i) as [c|] eqn:E; [|done]. cbn. intros ->.
  eapply Forall_lookup_1 in E; [|exact Hds]. cbn in E. change (to_digit dot) with 36 in E. lia.
Qed.

(** Before the digit [i]: the point there is passed ([b]) or not. *)
Definition before (i : nat) (b : bool) (p dp : Z) : Prop :=
  let n := if b then passed k i else if (k <? i)%nat then 1%nat else 0%nat in
  p = p0 + Z.of_nat i + Z.of_nat n ∧ dp = if (n =? 1)%nat then Z.of_nat k else -1.

Lemma before_place i p dp : before i true p dp ↔ p = place i ∧ dp = if (k <=? i)%nat then Z.of_nat k else -1.
Proof using Type. clear. unfold before, place, passed. destruct (Nat.leb_spec k i); cbn; naive_solver. Qed.

Lemma scan_point_run {S} sep i b p dp (s : S) :
  (i ≤ length ds)%nat → sep ≠ dot → before i b p dp →
  ∃ dp', scan_point text flags radix sep p0 p (Z.of_nat i) dp s = (Ok (Some (inr (place i, dp'))), s) ∧ before i true (place i) dp'.
Proof using All.
  intros Hi Hsep Hb. unfold scan_point, is_point. destruct (decide (k = i ∧ b = false)) as [[Hk ->]|Hno].
  - unfold before in Hb. assert ((k <? i)%nat = false) as Hki by (apply Nat.ltb_ge; lia). rewrite Hki in Hb.
    cbn in Hb. rewrite Z.add_0_r in Hb. destruct Hb as [-> ->].
    assert (∀ {S} (s : S), at_ text (p0 + Z.of_nat i) s = (Ok dot, s)) as Hat by (intros; rewrite <-Hk; apply at_body, body_dot; lia).
    rewrite bind_bind. erewrite bind_run by apply Hat. change (dot =? $".") with true. cbv iota. rewrite bind_bind.
    assert ((if p0 + Z.of_nat i >? p0 then ret true else c1 ← at_ text (p0 + Z.of_nat i + 1); ret (to_digit c1 <? radix)) s = (Ok true, s)) as Hd.
    { rewrite Z.gtb_ltb. destruct (Z.ltb_spec p0 (p0 + Z.of_nat i)); [done|]. assert (i = 0%nat) as Hi0 by lia. rewrite Hi0 in *.
      assert (∃ c, ds !! 0%nat = Some c) as [c Hc] by (clear -Hne; destruct ds; [done|by eexists]).
      assert (place 0 = p0 + Z.of_nat 0 + 1) as Ep by (unfold place, passed; rewrite Hk; cbn; lia).
      rewrite <-Ep. erewrite bind_run by by apply at_digit.
      eapply Forall_lookup_1 in Hc; [|exact Hds]. cbn in Hc. unfold ret. do 2 f_equal. by apply Z.ltb_lt. }
    erewrite bind_run by exact Hd. rewrite Hflags. cbn [negb andb]. rewrite bind_ret. cbv iota.
    erewrite bind_run by apply Hat. destruct (Z.eqb_spec dot sep); [done|]. destruct (Z.geb_spec (-1) 0); [lia|].
    assert (passed k i = 1%nat) as Hp1 by (unfold passed; destruct (Nat.leb_spec k i); lia).
    exists (Z.of_nat i). split.
    + unfold ret, place. rewrite Hp1. done.
    + apply before_place. split; [done|]. destruct (Nat.leb_spec k i); [by rewrite Hk|lia].
  - assert (before i true p dp) as Hb'.
    { unfold before in *. destruct b; [done|]. unfold passed. assert (k ≠ i) by naive_solver.
      destruct (Nat.leb_spec k i), (Nat.ltb_spec k i); try lia; done. }
    apply before_place in Hb' as Hp. destruct Hp as [-> _]. exists dp. split; [|done].
    rewrite bind_bind. erewrite bind_run by by apply at_place. destruct (Z.eqb_spec (char_at i) ($".")) as [E|_]; [by destruct (char_at_dot i)|].
    done.
Qed.

Lemma skip_sep_run {S} i ok (s : S) :
  (i ≤ length ds)%nat → char_at i ≠ 256 → skip_sep text 256 p0 (place i) ok s = (Ok (place i), s).
Proof using Type.
  intros Hi Hc. unfold skip_sep. erewrite bind_run by by apply at_place. by destruct (Z.eqb_spec (char_at i) 256).
Qed.

(** ** The zeros *)

Lemma char_at_256 i : char_at i ≠ 256.
Proof using All.
  unfold char_at. destruct (ds !! i) as [c|] eqn:E; [|done]. cbn. intros ->.
  eapply Forall_lookup_1 in E; [|exact Hds]. cbn in E. change (to_digit 256) with 36 in E. lia.
Qed.

Lemma zeros_loop_run {S} fuel i b p dp (s : S) :
  (i ≤ leading_zeros ds)%nat → (leading_zeros ds < fuel + i)%nat → before i b p dp →
  ∃ dp', loop fuel (zeros_turn text flags radix 256 p0) (p, Z.of_nat i, dp) s
    = (Ok (Some (place (leading_zeros ds), Z.of_nat (leading_zeros ds), dp')), s) ∧
    before (leading_zeros ds) true (place (leading_zeros ds)) dp'.
Proof using All.
  pose proof (leading_zeros_length ds) as Hz. revert i b p dp.
  induction fuel as [|fuel IH]; intros i b p dp Hi Hfuel Hb; [lia|].
  destruct (scan_point_run 256 i b p dp s) as (dp' & E & Hb'); [lia|done|done|].
  cbn [loop]. unfold zeros_turn at 1. rewrite bind_bind. erewrite bind_run by exact E. cbv beta iota.
  rewrite bind_bind. erewrite bind_run by (apply skip_sep_run; [lia|apply char_at_256]).
  rewrite bind_bind. erewrite bind_run by (apply at_place; lia). rewrite bind_ret.
  destruct (decide (i = leading_zeros ds)) as [->|Hne'].
  - assert (char_at (leading_zeros ds) ≠ $"0") as Hc.
    { unfold char_at. destruct (ds !! leading_zeros ds) as [c|] eqn:Ec; [by eapply leading_zeros_end|]. cbn. intros ->.
      change (to_digit ($"0")) with 0 in Hstop. lia. }
    destruct (Z.eqb_spec (char_at (leading_zeros ds)) ($"0")); [done|]. by exists dp'.
  - destruct (lookup_lt_is_Some_2 ds i ltac:(lia)) as [c Hc].
    assert (char_at i = $"0") as -> by (unfold char_at; rewrite Hc; eapply leading_zeros_lookup; [exact Hc|lia]).
    change ($"0" =? $"0") with true. cbn [negb]. replace (Z.of_nat i + 1) with (Z.of_nat (Datatypes.S i)) by lia.
    apply (IH (Datatypes.S i) false); [lia|lia|]. apply before_place in Hb' as [_ ->]. unfold before, place, passed.
    destruct (Nat.leb_spec k i), (Nat.ltb_spec k (Datatypes.S i)); try lia; cbn; split; lia.
Qed.

(** ** The digits *)

Context (dpl max_digits : Z).
Context (Hdpl : 1 ≤ dpl) (Hbase : radix ^ dpl ≤ B) (Hmax : radix ^ max_digits < 2 ^ 150) (Hmax0 : 0 ≤ max_digits).

(** The number of the digits from [z] to [i]. *)
Definition number (z i : nat) : Z := value radix (to_digit <$> take (i - z) (drop z ds)).

Lemma number_start z : number z z = 0.
Proof using Type. unfold number. by rewrite Nat.sub_diag. Qed.

Lemma number_next z i c : (z ≤ i)%nat → ds !! i = Some c → number z (S i) = number z i * radix + to_digit c.
Proof using All.
  intros Hz Hc. unfold number. replace (S i - z)%nat with (S (i - z)) by lia.
  rewrite (take_S_r _ _ c); [|rewrite lookup_drop; by replace (z + (i - z))%nat with i by lia].
  rewrite fmap_app. cbn. by rewrite value_snoc.
Qed.

Lemma numeral_range z i : (z ≤ i ≤ length ds)%nat → 0 ≤ number z i < radix ^ Z.of_nat (i - z).
Proof using Hds Hradix.
  clear -Hds Hradix. intros Hi. unfold number.
  assert (length (to_digit <$> take (i - z) (drop z ds)) = (i - z)%nat) as Hl by (rewrite length_fmap, length_take, length_drop; lia).
  rewrite <-Hl at 3. apply value_range; [lia|]. apply Forall_fmap, Forall_take, Forall_drop.
  eapply Forall_impl; [exact Hds|]. intros c Hc. unfold compose, in_radix. cbv beta in Hc |- *. pose proof (to_digit_nonneg c). lia.
Qed.

(** What [tmp0] and the state hold before the digit [i], the first one being [z]. *)
Definition holds (z i : nat) (b : bool) (s : digits_state) (l : list Z) : Prop :=
  before i b (ds_p s) (ds_dot s) ∧ ds_pos s = Z.of_nat i ∧ digit_count s = Z.of_nat (i - z) ∧ extra_digits s = 0 ∧
  0 ≤ limb_digit_count s < dpl ∧ 0 ≤ cur_limb s < radix ^ limb_digit_count s ∧
  limb_digit_count s ≤ Z.of_nat (i - z) ∧
  val l * radix ^ limb_digit_count s + cur_limb s = number z i.

Lemma take_digit_run z i b s c l post :
  (z ≤ i)%nat → (S i - z ≤ Z.to_nat max_digits)%nat → ds !! i = Some c → holds z i b s l → ds_p s = place i →
  ds_dot s = (if (k <=? i)%nat then Z.of_nat k else -1) →
  limbs_ok l → l ≠ [] → trimmed l → (10 ≤ length l + length post)%nat →
  ∃ s' l' post', take_digit radix max_digits dpl ((radix ^ dpl) mod B) (to_digit c) s (mk l post) = (Ok s', mk l' post') ∧
    holds z (S i) false s' l' ∧ limbs_ok l' ∧ l' ≠ [] ∧ trimmed l' ∧ (length l' + length post' = length l + length post)%nat.
Proof using All.
  intros Hz Hi Hc (_ & Hpos & Hcount & Hex & Hn & Hcur & Hni & Hval) Hp Hdt Hl Hnl Ht Hroom.
  pose proof (number_next z i c Hz Hc) as Hnext. pose proof (lookup_lt_Some _ _ _ Hc) as Hlen.
  pose proof (numeral_range z (S i) ltac:(lia)) as Hrange. pose proof (to_digit_nonneg c) as Hc0.
  eapply Forall_lookup_1 in Hc as Hcr; [|exact Hds]. cbn in Hcr.
  assert (number z (S i) < 2 ^ 150) as Hbig.
  { eapply Z.lt_trans; [apply Hrange|]. eapply Z.le_lt_trans; [|exact Hmax]. apply Z.pow_le_mono_r; lia. }
  set (n := limb_digit_count s) in *. set (x := cur_limb s * radix + to_digit c).
  assert (radix ^ (n + 1) = radix ^ n * radix) as En by (rewrite Z.pow_add_r, Z.pow_1_r by lia; done).
  assert (radix ^ (n + 1) ≤ radix ^ dpl) as Hle by (apply Z.pow_le_mono_r; lia). pose proof (Z.pow_pos_nonneg radix n ltac:(lia) ltac:(lia)).
  assert (0 ≤ x < radix ^ (n + 1)) as Hx by (unfold x; nia). pose proof (val_range l Hl).
  assert (val l * radix ^ (n + 1) + x = number z (S i)) as Ex by (rewrite Hnext, <-Hval, En; unfold x; ring).
  assert (length l ≤ 5)%nat as Hl5 by (apply short_number; [done..|nia]).
  assert (u32 x = x) as Eu by (unfold u32; apply wrap_id; unfold fits, B in *; lia).
  unfold take_digit. cbn [ds_p ds_pos ds_dot cur_limb limb_digit_count digit_count extra_digits].
  destruct (Z.ltb_spec (digit_count s) max_digits) as [_|]; [|lia]. fold n. fold x. rewrite Eu.
  assert (∀ cur m l',
    0 ≤ m < dpl → 0 ≤ cur < radix ^ m → m ≤ Z.of_nat (S i - z) → val l' * radix ^ m + cur = number z (S i) →
    holds z (S i) false {| ds_p := ds_p s + 1; ds_pos := ds_pos s + 1; ds_dot := ds_dot s; cur_limb := cur;
      limb_digit_count := m; digit_count := digit_count s + 1; extra_digits := extra_digits s |} l') as Hholds.
  { intros cur m l' Hm Hcm Hmi Hv. unfold holds. cbn [ds_p ds_pos ds_dot cur_limb limb_digit_count digit_count extra_digits].
    split_and!; try done; try lia. unfold before. rewrite Hp, Hdt. unfold place, passed.
    destruct (Nat.leb_spec k i), (Nat.ltb_spec k (S i)); try lia; cbn; split; lia. }
  destruct (Z.eqb_spec (n + 1) dpl) as [Ed|Ed].
  - assert (base_value ((radix ^ dpl) mod B) = radix ^ dpl) as Eb.
    { unfold base_value. destruct (Z.eq_dec (radix ^ dpl) B) as [->|]; [by rewrite Z.mod_same by done|].
      assert (0 < radix ^ dpl) by (apply Z.pow_pos_nonneg; lia).
      rewrite Z.mod_small by lia. destruct (Z.eqb_spec (radix ^ dpl) 0); lia. }
    destruct (mpb_mul1_base_run ((radix ^ dpl) mod B) x l post) as (l' & post' & E & Hl' & Hnl' & Hlen' & Ev & Ht');
      [done..|unfold fits; apply (Z.mod_pos_bound _ B); done|unfold fits, B in *; lia|lia|].
    eexists _, l', post'. rewrite bind_bind. erewrite bind_run by exact E. split; [reflexivity|]. split_and!; [|done..].
    apply Hholds; [lia|rewrite Z.pow_0_r; lia|lia|]. rewrite Z.pow_0_r, Ev, Eb, <-Ed, <-Ex. lia.
  - eexists _, l, post. rewrite bind_ret. split; [reflexivity|]. split_and!; [|done..].
    apply Hholds; [lia|lia|lia|done].
Qed.

Lemma digits_loop_run z fuel i b s l post :
  (z ≤ i ≤ length ds)%nat → (length ds < fuel + i)%nat → (length ds - z ≤ Z.to_nat max_digits)%nat → holds z i b s l →
  limbs_ok l → l ≠ [] → trimmed l → (10 ≤ length l + length post)%nat →
  ∃ s' l' post', loop fuel (digits_turn text flags radix 256 p0 max_digits dpl ((radix ^ dpl) mod B)) s (mk l post)
      = (Ok (Some s'), mk l' post') ∧
    holds z (length ds) true s' l' ∧ limbs_ok l' ∧ l' ≠ [] ∧ trimmed l' ∧ (length l' + length post' = length l + length post)%nat.
Proof using All.
  revert i b s l post. induction fuel as [|fuel IH]; intros i b s l post Hi Hfuel Hmaxd Hh Hl Hne' Ht Hroom; [lia|].
  destruct Hh as (Hb & Hpos & Hrest). destruct (scan_point_run 256 i b (ds_p s) (ds_dot s) (mk l post)) as (dp' & E & Hb'); [lia|done|done|].
  cbn [loop]. unfold digits_turn at 1. rewrite Hpos. rewrite bind_bind. erewrite bind_run by exact E. cbv beta iota.
  rewrite bind_bind. erewrite bind_run by (apply skip_sep_run; [lia|apply char_at_256]).
  rewrite bind_bind. erewrite bind_run by (apply at_place; lia). cbv zeta. set (s1 := with_point (place i) dp' s).
  assert (holds z i true s1 l) as Hh1 by by (split; [exact Hb'|split]).
  apply before_place in Hb' as [_ Hdp]. destruct (decide (i = length ds)) as [->|Hlt].
  - assert (char_at (length ds) = stop) as -> by (unfold char_at; by rewrite lookup_ge_None_2 by lia).
    destruct (Z.geb_spec (to_digit stop) radix); [|lia]. by exists s1, l, post.
  - destruct (lookup_lt_is_Some_2 ds i ltac:(lia)) as [c Hc]. assert (char_at i = c) as -> by (unfold char_at; by rewrite Hc).
    eapply Forall_lookup_1 in Hc as Hcr; [|exact Hds]. cbn in Hcr. destruct (Z.geb_spec (to_digit c) radix); [lia|].
    destruct (take_digit_run z i true s1 c l post) as (s2 & l2 & post2 & E2 & Hh2 & Hl2 & Hnl2 & Ht2 & Hlen2);
      [lia|lia|done|done|done|done|done..|].
    rewrite bind_bind. erewrite bind_run by exact E2. rewrite bind_ret.
    destruct (IH (S i) false s2 l2 post2) as (s3 & l3 & post3 & E3 & HP); [lia|lia|done..|lia|].
    exists s3, l3, post3. rewrite Hlen2 in HP. by split.
Qed.

End scan.

(** * Text to floating point numbers: the value

    The exponent of a numeral, and the double [make_double] takes from its
    digits and its exponent: the nearest one, infinity and zero included. *)

(** ** Every positive fraction has a nearest double *)

Lemma binade_exists n d : 0 < n → 0 < d → ∃ E, in_binade n d E.
Proof.
  intros Hn Hd. set (K := Z.log2 d + 1). pose proof (Z.log2_nonneg d). pose proof (log2_bounds d Hd) as Hlog.
  assert (d < 2 ^ K) as HK by (unfold K; rewrite Z.pow_add_r by lia; lia).
  assert (1 ≤ n * 2 ^ K / d) as Hq by (apply Z.div_le_lower_bound; nia).
  pose proof (log2_bounds _ ltac:(exact (Z.lt_le_trans 0 1 _ eq_refl Hq))) as Hb. set (a := Z.log2 (n * 2 ^ K / d)) in *.
  assert (0 ≤ a) by apply Z.log2_nonneg.
  pose proof (Z.div_mod (n * 2 ^ K) d ltac:(lia)) as Ev. pose proof (Z.mod_pos_bound (n * 2 ^ K) d Hd).
  exists (a + 1 - K). apply (same_binade _ _ (n * 2 ^ K) d); [done|done| |done|nia|].
  - unfold same. rewrite (Z.max_l K), (Z.max_r (- K)), Z.pow_0_r by lia. ring.
  - rewrite Z.pow_add_r by lia. nia.
Qed.

Lemma rounding_exists v d : 0 < d → ∃ q, rounds JS_RNDN v d q.
Proof.
  intros Hd. pose proof (Z.div_mod v d ltac:(lia)) as E. pose proof (Z.mod_pos_bound v d Hd).
  destruct (Z.lt_trichotomy (2 * (v mod d)) d) as [Hlt|[Heq|Hgt]].
  - exists (v / d). cbn. split; lia.
  - destruct (Z.even (v / d)) eqn:He; [exists (v / d)|exists (v / d + 1)]; cbn; (split; [lia|intros _]); [done|].
    by rewrite Z.even_add, He.
  - exists (v / d + 1). cbn. split; lia.
Qed.

Lemma scaled_exists n d u : 0 < d → ∃ q, scaled_rounds JS_RNDN n d u q.
Proof. intros. apply rounding_exists, Z.mul_pos_pos; [done|]. apply Z.pow_pos_nonneg; lia. Qed.

Lemma nearest_infinity n d : 0 < d → 2 ^ 1024 * d ≤ n → nearest_bits n d float64_inf.
Proof.
  intros Hd Hn. assert (0 < n) as Hn0 by (eapply Z.lt_le_trans; [|exact Hn]; apply Z.mul_pos_pos; lia).
  destruct (binade_exists n d) as [E HE]; [done..|]. destruct (scaled_exists n d (ulp E) Hd) as [q Hq].
  assert (1025 ≤ E) as H1.
  { apply Z.nlt_ge. intros Hlt. destruct HE as [_ Hhi].
    assert (1 ≤ 2 ^ Z.max (- E) 0) by (pose proof (Z.pow_pos_nonneg 2 (Z.max (- E) 0)); lia).
    pose proof (Z.pow_le_mono_r 2 (Z.max E 0) 1024 ltac:(lia) ltac:(lia)). nia. }
  exists E, q. split_and!; [done..|]. assert (ulp E = E - 53) as Eu by (unfold ulp; lia). rewrite Eu in *.
  assert (2 ^ 52 ≤ q) as Hq52.
  { unfold scaled_rounds in Hq. rewrite (Z.max_r (- _)), (Z.max_l (E - 53)), Z.pow_0_r, Z.mul_1_r in Hq by lia.
    assert (0 < d * 2 ^ (E - 53)) as Hpos by (apply Z.mul_pos_pos; [done|]; apply Z.pow_pos_nonneg; lia).
    apply (rounds_between _ _ _ _ (2 ^ 52) (n) Hpos Hq). split; [|nia].
    destruct HE as [Hlo _]. rewrite (Z.max_l (E - 1)), (Z.max_r (1 - E)), Z.pow_0_r in Hlo by lia.
    replace (E - 1) with (52 + (E - 53)) in Hlo by lia. rewrite Z.pow_add_r in Hlo by lia. nia. }
  unfold bits, float64_inf. change (Z.shiftl 0x7ff 52) with (2047 * 2 ^ 52). lia.
Qed.

Lemma nearest_zero n d : 0 < n → 0 < d → n * 2 ^ 1075 < d → nearest_bits n d 0.
Proof.
  intros Hn Hd Hlt. destruct (binade_exists n d) as [E HE]; [done..|].
  assert (E ≤ -1074) as H1.
  { apply Z.nlt_ge. intros HE2. destruct HE as [Hlo _].
    pose proof (Z.pow_pos_nonneg 2 (Z.max (E - 1) 0) ltac:(lia) ltac:(lia)).
    pose proof (Z.pow_le_mono_r 2 (Z.max (1 - E) 0) 1075 ltac:(lia) ltac:(lia)). nia. }
  exists E, 0. assert (ulp E = -1074) as Eu by (unfold ulp; lia). rewrite Eu. split_and!; [done| |done].
  unfold scaled_rounds. change (Z.max (- -1074) 0) with 1074. change (Z.max (-1074) 0) with 0. rewrite Z.pow_0_r, Z.mul_1_r.
  change (2 ^ 1075) with (2 * 2 ^ 1074) in Hlt. assert (0 ≤ n * 2 ^ 1074) by (apply Z.mul_nonneg_nonneg; lia).
  cbn [rounds]. rewrite Z.mul_0_l, Z.sub_0_r. split; [lia|done].
Qed.

(** ** The size of a numeral *)

(** The numeral of [c] digits [M * radix^X], compared with the powers of the radix. *)
Section size.
Context (radix M c X : Z) (Hradix : 2 ≤ radix) (HM : radix ^ (c - 1) ≤ M < radix ^ c) (Hc : 1 ≤ c).

Lemma num_low a b : 0 ≤ a → 0 ≤ b → b ≤ c - 1 + X + a → radix ^ b * den 0 radix X ≤ num M 0 radix X * radix ^ a.
Proof using All.
  intros Ha Hb Hle. unfold num, den. rewrite Z.pow_0_r, Z.mul_1_r, Z.mul_1_l, <-Z.pow_add_r by lia.
  transitivity (radix ^ (c - 1) * radix ^ Z.max X 0 * radix ^ a).
  - rewrite <-!Z.pow_add_r by lia. apply Z.pow_le_mono_r; lia.
  - apply Z.mul_le_mono_nonneg_r; [apply Z.pow_nonneg; lia|]. apply Z.mul_le_mono_nonneg_r; [apply Z.pow_nonneg|]; lia.
Qed.

Lemma num_high a b : 0 ≤ a → 0 ≤ b → c + X + a ≤ b → num M 0 radix X * radix ^ a < radix ^ b * den 0 radix X.
Proof using All.
  intros Ha Hb Hle. unfold num, den. rewrite Z.pow_0_r, Z.mul_1_r, Z.mul_1_l, <-Z.pow_add_r by lia.
  apply Z.lt_le_trans with (radix ^ c * radix ^ Z.max X 0 * radix ^ a).
  - apply Z.mul_lt_mono_pos_r; [apply Z.pow_pos_nonneg; lia|]. apply Z.mul_lt_mono_pos_r; [apply Z.pow_pos_nonneg|]; lia.
  - rewrite <-!Z.pow_add_r by lia. apply Z.pow_le_mono_r; lia.
Qed.

Lemma num_pos : 0 < num M 0 radix X.
Proof using All.
  unfold num. rewrite Z.pow_0_r, Z.mul_1_r. pose proof (Z.pow_pos_nonneg radix (c - 1) ltac:(lia) ltac:(lia)).
  apply Z.mul_pos_pos; [lia|]. apply Z.pow_pos_nonneg; lia.
Qed.

(** Too large for a double, too small, or neither. *)
Lemma size_infinity b : 0 ≤ b ≤ c + X - 1 → 2 ^ 1024 ≤ radix ^ b → nearest_bits (num M 0 radix X) (den 0 radix X) float64_inf.
Proof using All.
  intros Hb Hp. pose proof (den_pos 0 radix X ltac:(lia)). apply nearest_infinity; [done|].
  pose proof (num_low 0 b) as Hlow. rewrite Z.pow_0_r, Z.mul_1_r in Hlow. etransitivity; [|apply Hlow; lia].
  apply Z.mul_le_mono_nonneg_r; lia.
Qed.

Lemma size_zero a : 0 ≤ a ≤ - (c + X) → 2 ^ 1075 ≤ radix ^ a → nearest_bits (num M 0 radix X) (den 0 radix X) 0.
Proof using All.
  intros Ha Hp. pose proof (den_pos 0 radix X ltac:(lia)). pose proof num_pos. apply nearest_zero; [done..|].
  pose proof (num_high a 0) as Hhi. rewrite Z.pow_0_r, Z.mul_1_l in Hhi. eapply Z.le_lt_trans; [|apply Hhi; lia].
  apply Z.mul_le_mono_nonneg_l; lia.
Qed.

Lemma size_normal a b :
  0 ≤ a → 1 - (c + X) ≤ a → radix ^ a ≤ 2 ^ 1081 → 0 ≤ b → c + X ≤ b → radix ^ b ≤ 2 ^ 1100 →
  den 0 radix X ≤ num M 0 radix X * 2 ^ 1081 ∧ num M 0 radix X < 2 ^ 1100 * den 0 radix X.
Proof using All.
  intros Ha Ha2 Hpa Hb Hb2 Hpb. pose proof (den_pos 0 radix X ltac:(lia)). pose proof num_pos. split.
  - pose proof (num_low a 0) as Hlow. rewrite Z.pow_0_r, Z.mul_1_l in Hlow. etransitivity; [apply Hlow; lia|].
    apply Z.mul_le_mono_nonneg_l; lia.
  - pose proof (num_high 0 b) as Hhi. rewrite Z.pow_0_r, Z.mul_1_r in Hhi. eapply Z.lt_le_trans; [apply Hhi; lia|].
    apply Z.mul_le_mono_nonneg_r; lia.
Qed.

End size.

(** ** The tables *)

Definition check_atod_radix (radix : Z) : bool :=
  let i := Z.to_nat (radix - 2) in
  match atod_max_digits_table !! i, max_exponent !! i, min_exponent !! i with
  | Some n, Some max, Some min =>
      (1 <=? n) && (n <=? 80) && (radix ^ n <? 2 ^ 150) && (0 <=? max) && (max <=? 1024) && (min <=? 0) && (-1075 <=? min) &&
      (2 ^ 1024 <=? radix ^ max) && (radix ^ max <=? 2 ^ 1030) && (2 ^ 1075 <=? radix ^ (- min)) && (radix ^ (- min) <=? 2 ^ 1081) &&
      ((Z.land radix (radix - 1) =? 0) || (radix ^ n <? 2 ^ 128))
  | _, _, _ => false
  end.

Lemma atod_tables_checked : forallb check_atod_radix (seqZ 2 35) = true.
Proof. vm_compute. reflexivity. Qed.

Lemma atod_tables radix :
  2 ≤ radix ≤ 36 →
  ∃ n max min, atod_max_digits_table !! Z.to_nat (radix - 2) = Some n ∧ max_exponent !! Z.to_nat (radix - 2) = Some max ∧
    min_exponent !! Z.to_nat (radix - 2) = Some min ∧ 1 ≤ n ≤ 80 ∧ radix ^ n < 2 ^ 150 ∧ 0 ≤ max ≤ 1024 ∧ -1075 ≤ min ≤ 0 ∧
    2 ^ 1024 ≤ radix ^ max ≤ 2 ^ 1030 ∧ 2 ^ 1075 ≤ radix ^ (- min) ≤ 2 ^ 1081 ∧
    (Z.land radix (radix - 1) ≠ 0 → radix ^ n < 2 ^ 128).
Proof.
  intros Hr. pose proof atod_tables_checked as Hc. rewrite forallb_forall in Hc. specialize (Hc radix).
  assert (check_atod_radix radix = true) as H by (apply Hc, list_elem_of_In, elem_of_seqZ; lia). clear Hc. unfold check_atod_radix in H.
  destruct (atod_max_digits_table !! _) as [n|]; [|done]. destruct (max_exponent !! _) as [max|]; [|done].
  destruct (min_exponent !! _) as [min|]; [|done]. rewrite !andb_true_iff, orb_true_iff, !Z.leb_le, !Z.ltb_lt, !Z.eqb_eq in H.
  destruct H as [[[[[[[[[[[? ?] ?] ?] ?] ?] ?] ?] ?] ?] ?] Hl]. exists n, max, min. split_and!; try done. intros. by destruct Hl.
Qed.

(** The limbs of the dividend of the smallest numbers. *)
Definition check_room (radix k : Z) : bool :=
  let i := Z.to_nat (radix - 2) in
  match atod_max_digits_table !! i, min_exponent !! i, digits_per_limb_table !! Z.to_nat (Z.shiftr radix k - 2) with
  | Some n, Some min, Some d => (n - min - 1 + d - 1) / d <=? 45
  | _, _, _ => true
  end.

Lemma room_checked : forallb (λ radix, forallb (check_room radix) (seqZ 0 6)) (seqZ 3 34) = true.
Proof. vm_compute. reflexivity. Qed.

Lemma atod_room radix k n min d :
  3 ≤ radix ≤ 36 → 0 ≤ k ≤ 5 → atod_max_digits_table !! Z.to_nat (radix - 2) = Some n →
  min_exponent !! Z.to_nat (radix - 2) = Some min → digits_per_limb_table !! Z.to_nat (Z.shiftr radix k - 2) = Some d →
  (n - min - 1 + d - 1) / d ≤ 45.
Proof.
  intros Hr Hk Hn Hm Hd. pose proof room_checked as Hc. rewrite forallb_forall in Hc. specialize (Hc radix).
  assert (forallb (check_room radix) (seqZ 0 6) = true) as H by (apply Hc, list_elem_of_In, elem_of_seqZ; lia). clear Hc.
  rewrite forallb_forall in H. specialize (H k). assert (check_room radix k = true) as Hck by (apply H, list_elem_of_In, elem_of_seqZ; lia).
  unfold check_room in Hck. rewrite Hn, Hm, Hd in Hck. by apply Z.leb_le.
Qed.

(** ** The double of a numeral *)

Lemma int_check_run {S} z (s : S) : INT_MIN ≤ z ≤ INT_MAX → int_check z s = (Ok z, s).
Proof. intros. unfold int_check. rewrite int_add_ok; rewrite Z.add_0_r; done. Qed.

Section make_double.
Context `{BuildConfig} (radix k : Z).
Context (Hradix : 2 ≤ radix ≤ 36) (Hk : 0 ≤ k ≤ 5) (Hparts : radix = Z.shiftr radix k * 2 ^ k)
  (Hodd : odd_part (Z.shiftr radix k)) (Hpow2 : Z.land radix (radix - 1) = 0 ↔ Z.shiftr radix k = 1).
Context (max_digits : Z) (Hmax : atod_max_digits_table !! Z.to_nat (radix - 2) = Some max_digits).
Context (l post : list Z) (c : Z).
Context (Hl : limbs_ok l) (Hne : l ≠ []) (Ht : trimmed l) (Hlen : (length l + length post = 52)%nat).
Context (Hc : 1 ≤ c ≤ max_digits) (HM : radix ^ (c - 1) ≤ val l < radix ^ c).

Lemma val_pos : 0 < val l.
Proof using All. pose proof (Z.pow_pos_nonneg radix (c - 1)). lia. Qed.

(** A number whose size is one of a double: the array is long enough. *)
Lemma normal_room X min :
  min_exponent !! Z.to_nat (radix - 2) = Some min → (Z.shiftr radix k ≠ 1 → min < c + X) →
  num (val l) 0 radix X < 2 ^ 1100 * den 0 radix X → room_d 52 (val l) (length l) (Z.shiftr radix k) X.
Proof using All.
  intros Hmin Hlow Hhigh. destruct (atod_tables radix Hradix) as (n & max & min' & Hn & _ & _ & Hn1 & Hn150 & _ & _ & _ & _ & Hn128).
  rewrite Hmax in Hn. injection Hn as <-. pose proof val_pos as Hv.
  assert (radix ^ c ≤ radix ^ max_digits) as Hcm by (apply Z.pow_le_mono_r; lia).
  unfold room_d. destruct ((Z.shiftr radix k =? 1) || (0 <=? X)) eqn:Ec.
  - change (32 * (Z.of_nat 52 - 4)) with 1536. apply orb_true_iff in Ec as [H1%Z.eqb_eq|H0%Z.leb_le].
    + rewrite H1, Z.pow_1_l, Z.mul_1_r by lia. eapply Z.lt_trans; [|apply (Z.pow_lt_mono_r 2 150); lia]. lia.
    + unfold num, den in Hhigh. rewrite (Z.max_l X), (Z.max_r (- X)), !Z.pow_0_r, !Z.mul_1_r in Hhigh by lia. rewrite Z.max_l by lia.
      apply Z.le_lt_trans with (val l * radix ^ X).
      * apply Z.mul_le_mono_nonneg_l; [lia|]. apply Z.pow_le_mono_l. pose proof (Z.pow_pos_nonneg 2 k).
        assert (0 < Z.shiftr radix k) by (destruct Hodd; lia). nia.
      * eapply Z.lt_trans; [exact Hhigh|]. apply Z.pow_lt_mono_r; lia.
  - apply orb_false_iff in Ec as [H1%Z.eqb_neq H0%Z.leb_gt]. destruct Hodd as [|[Hr Hl2]]; [done|].
    destruct (radix_tables (Z.shiftr radix k)) as (d & Hd & _ & Hd1 & _); [lia|]. exists d. split; [done|].
    assert (3 ≤ radix) as Hr3 by (pose proof (Z.pow_pos_nonneg 2 k); nia).
    pose proof (atod_room radix k max_digits min d ltac:(lia) Hk Hmax Hmin Hd) as Hroom.
    assert ((- X + d - 1) / d ≤ 45) as Hle.
    { etransitivity; [|exact Hroom]. apply Z.div_le_mono; [lia|]. specialize (Hlow H1). lia. }
    assert (length l ≤ 4)%nat; [|lia]. apply trimmed_length; [done..|]. change (32 * Z.of_nat 4) with 128.
    assert (Z.land radix (radix - 1) ≠ 0) as Hnp by (rewrite Hpow2; done). specialize (Hn128 Hnp). lia.
Qed.

Lemma normal_double X min a b :
  min_exponent !! Z.to_nat (radix - 2) = Some min → (Z.shiftr radix k ≠ 1 → min < c + X) → - 2 ^ 20 ≤ X ≤ 2 ^ 20 →
  0 ≤ a → 1 - (c + X) ≤ a → radix ^ a ≤ 2 ^ 1081 → 0 ≤ b → c + X ≤ b → radix ^ b ≤ 2 ^ 1100 →
  ∃ me s', mul_pow_round_to_d (Z.shiftr radix k) k X JS_RNDN (mk l post) = (Ok me, s') ∧
    nearest_bits (num (val l) 0 radix X) (den 0 radix X) (pack me.1 me.2).
Proof using All.
  intros Hmin Hlow HX Ha Ha2 Hpa Hb Hb2 Hpb.
  destruct (size_normal radix (val l) c X ltac:(lia) HM ltac:(lia) a b) as [H1 H2]; [done..|].
  destruct (mul_pow_round_to_d_run (Z.shiftr radix k) k X JS_RNDN l post) as (me & l' & post' & E & _ & _ & _ & _ & Hme);
    [done..|exact val_pos|lia|rewrite Hlen; by apply normal_room with min|rewrite <-Hparts; done|].
  rewrite <-Hparts in Hme. exists me, (mk l' post'). split; [done|]. apply rounds_to_d_nearest; [|apply den_pos; lia|done..].
  apply (num_pos radix (val l) c X); lia.
Qed.

Lemma make_double_run expn expn_offset :
  Z.abs expn ≤ 2 ^ 28 → Z.abs expn_offset ≤ 2 ^ 27 →
  let X := expn - expn_offset in
  ∃ a s', make_double radix (Z.shiftr radix k) k (if Z.shiftr radix k =? 1 then k else 0) expn expn_offset c false (mk l post) = (Ok a, s') ∧
    nearest_bits (num (val l) 0 radix X) (den 0 radix X) a.
Proof using All.
  intros Hexp Hoff X. destruct (atod_tables radix Hradix) as (n & max & min & Hn & Hmaxe & Hmine & Hn1 & _ & Hmax0 & Hmin0 & Hpmax & Hpmin & _).
  rewrite Hmax in Hn. injection Hn as <-.
  unfold make_double. destruct (Z.eqb_spec (Z.shiftr radix k) 1) as [H1|H1].
  - assert (1 ≤ k) as Hk1 by (destruct (Z.eq_dec k 0) as [E|]; [rewrite E in *; rewrite H1 in Hparts; lia|lia]).
    destruct (Z.eqb_spec k 0); [lia|]. cbn [negb].
    assert (∀ t, 0 ≤ t → radix ^ t = 2 ^ (k * t)) as Hpow by (intros; rewrite Hparts at 1; rewrite H1, Z.mul_1_l, Z.pow_mul_r by lia; done).
    assert (Z.abs (expn * k) ≤ 2 ^ 28 * 5) as B1 by (rewrite Z.abs_mul; apply Z.mul_le_mono_nonneg; lia).
    assert (Z.abs (expn_offset * k) ≤ 2 ^ 27 * 5) as B2 by (rewrite Z.abs_mul; apply Z.mul_le_mono_nonneg; lia).
    assert (0 ≤ c * k ≤ 80 * 5) as B3 by nia.
    do 5 (erewrite bind_run by (apply int_check_run; unfold INT_MIN, INT_MAX; lia)).
    replace (expn * k - expn_offset * k) with (X * k) by (unfold X; ring).
    rewrite Z.geb_leb. destruct (Z.leb_spec (1024 + k) (X * k + c * k)) as [Hi|Hi].
    { eexists _, _. split; [reflexivity|]. apply (size_infinity radix (val l) c X) with (c + X - 1); [lia|done|lia|nia|].
      rewrite Hpow by nia. apply Z.pow_le_mono_r; nia. }
    destruct (Z.leb_spec (X * k + c * k) (-1075)) as [Hz|Hz].
    { eexists _, _. split; [reflexivity|]. apply (size_zero radix (val l) c X) with (- (c + X)); [lia|done|lia|nia|].
      rewrite Hpow by nia. apply Z.pow_le_mono_r; nia. }
    destruct (normal_double X min (Z.max (1 - (c + X)) 0) (Z.max (c + X) 0)) as (me & s' & E & Hme);
      [done|lia|nia|lia|lia|rewrite Hpow by lia; apply Z.pow_le_mono_r; nia|lia|lia|rewrite Hpow by lia; apply Z.pow_le_mono_r; nia|].
    assert (round_to_d (- (X * k)) JS_RNDN (mk l post) = (Ok me, s')) as E2.
    { rewrite <-E, H1. unfold mul_pow_round_to_d, mul_pow. change (1 =? 1) with true. cbn [negb]. rewrite bind_ret. f_equal. ring. }
    exists (pack me.1 me.2), s'. erewrite bind_run by exact E2. by destruct me.
  - change (negb (0 =? 0)) with false. cbv iota. fold X.
    do 2 (erewrite bind_run by (apply int_check_run; unfold X, INT_MIN, INT_MAX; lia)). fold X.
    erewrite bind_run by (apply rd_run; [lia|exact Hmaxe]). erewrite bind_run by (apply rd_run; [lia|exact Hmine]).
    rewrite Z.geb_leb. destruct (Z.leb_spec (max + 1) (X + c)) as [Hi|Hi].
    { eexists _, _. split; [reflexivity|]. apply (size_infinity radix (val l) c X) with max; lia. }
    destruct (Z.leb_spec (X + c) min) as [Hz|Hz].
    { eexists _, _. split; [reflexivity|]. apply (size_zero radix (val l) c X) with (- min); lia. }
    destruct (normal_double X min (- min) max) as (me & s' & E & Hme);
      [done|lia|lia|lia|lia|lia|lia|lia|etransitivity; [apply Hpmax|apply Z.pow_le_mono_r; lia]|].
    exists (pack me.1 me.2), s'. erewrite bind_run by exact E. by destruct me.
Qed.

End make_double.

(** * Text to floating point numbers: the whole numeral

    What [js_atod] accepts: a sign, digits with a point, an exponent; and its
    run on such a text. *)

(** ** Numerals *)

(** [None] is no sign, [Some true] a minus. *)
Definition sign_text (sg : option bool) : list Z :=
  match sg with None => [] | Some false => [$"+"] | Some true => [$"-"] end.
Definition is_minus (sg : option bool) : bool := default false sg.

(** The mark of the exponent, its sign and its digits. *)
Definition exponent_part : Type := option (Z * option bool * list Z).
Definition exponent_text (e : exponent_part) : list Z :=
  match e with None => [] | Some (mark, sg, es) => mark :: sign_text sg ++ es end.
Definition exponent_value (e : exponent_part) : Z :=
  match e with
  | None => 0
  | Some (_, sg, es) => let v := value 10 (to_digit <$> es) in if is_minus sg then - v else v
  end.

(** The characters that start an exponent in a radix. *)
Definition is_mark (radix mark : Z) : Prop :=
  if radix =? 10 then mark = $"e" ∨ mark = $"E" else mark = $"@".

Definition exponent_ok (radix : Z) (e : exponent_part) : Prop :=
  match e with
  | None => True
  | Some (mark, _, es) => is_mark radix mark ∧ es ≠ [] ∧ Forall (λ c, to_digit c < 10) es ∧ value 10 (to_digit <$> es) ≤ 10 ^ 8
  end.

(** What may follow: nothing that goes on with the number. *)
Definition stops (radix : Z) (e : exponent_part) (stop : Z) : Prop :=
  stop < 128 ∧
  match e with
  | Some _ => 10 ≤ to_digit stop
  | None => radix ≤ to_digit stop ∧ stop ≠ dot ∧ ¬ is_mark radix stop ∧ (radix ≠ 10 → stop ≠ $"p" ∧ stop ≠ $"P") ∧
      (radix = 16 → stop ≠ $"x" ∧ stop ≠ $"X")
  end.

(** The digits after the point. *)
Definition fraction_digits (ds : list Z) (k : nat) : Z := Z.of_nat (length ds - k).

(** ** The exponent *)

Lemma at_middle {S} l1 c l2 (s : S) : at_ (l1 ++ c :: l2) (Z.of_nat (length l1)) s = (Ok c, s).
Proof. apply rd_run; [lia|]. by rewrite Nat2Z.id, list_lookup_middle. Qed.

Lemma expn_loop_run {S} fuel l1 es stop rest v (s : S) :
  Forall (λ c, to_digit c < 10) es → 10 ≤ to_digit stop → stop < 128 → (length es < fuel)%nat → 0 ≤ v →
  v * 10 ^ Z.of_nat (length es) + value 10 (to_digit <$> es) ≤ 10 ^ 8 →
  loop fuel (expn_turn (l1 ++ es ++ stop :: rest) 256) (Z.of_nat (length l1), v, false) s
  = (Ok (Z.of_nat (length l1 + length es), v * 10 ^ Z.of_nat (length es) + value 10 (to_digit <$> es), false), s).
Proof.
  revert fuel l1 v. induction es as [|c es IH]; intros fuel l1 v Hes Hstop Hchar Hfuel Hv0 Hv; (destruct fuel as [|fuel]; [cbn in Hfuel; lia|]);
    cbn [loop]; unfold expn_turn at 1; rewrite bind_bind.
  - cbn [app]. erewrite bind_run by apply at_middle. destruct (Z.eqb_spec stop 256); [lia|]. rewrite bind_bind, bind_ret.
    rewrite bind_bind. erewrite bind_run by apply at_middle. destruct (Z.geb_spec (to_digit stop) 10); [|lia].
    rewrite bind_ret. unfold ret. do 3 f_equal. rewrite Nat.add_0_r. f_equal. unfold value. cbn. lia.
  - apply Forall_cons in Hes as [Hc Hes]. cbn [app]. erewrite bind_run by apply at_middle.
    destruct (Z.eqb_spec c 256) as [->|_]; [by change (to_digit 256) with 36 in Hc|]. rewrite bind_bind, bind_ret.
    rewrite bind_bind. erewrite bind_run by apply at_middle. destruct (Z.geb_spec (to_digit c) 10); [lia|].
    pose proof (to_digit_nonneg c) as Hc0. rewrite fmap_cons, value_head, length_fmap in Hv |- * by lia. cbn [length] in Hv, Hfuel |- *.
    rewrite Nat2Z.inj_succ, Z.pow_succ_r in Hv |- * by lia. set (w := 10 ^ Z.of_nat (length es)) in *.
    assert (1 ≤ w) by (pose proof (Z.pow_pos_nonneg 10 (Z.of_nat (length es))); lia).
    assert (0 ≤ value 10 (to_digit <$> es)).
    { apply value_range; [lia|]. apply Forall_fmap. eapply Forall_impl; [exact Hes|]. intros x Hx. unfold compose, in_radix. cbv beta in Hx |- *.
      pose proof (to_digit_nonneg x). lia. }
    assert (v ≤ 10 ^ 8) by nia. rewrite Z.gtb_ltb. destruct (Z.ltb_spec ((INT_MAX - 2 - 9) / 10) v) as [Hbig|_].
    { change ((INT_MAX - 2 - 9) / 10) with 214748363 in Hbig. lia. }
    rewrite bind_ret. specialize (IH fuel (l1 ++ [c]) (v * 10 + to_digit c)). rewrite length_app, <-app_assoc in IH. cbn [length app] in IH.
    replace (Z.of_nat (length l1) + 1) with (Z.of_nat (length l1 + 1)) by lia. fold w in IH.
    rewrite IH; [|done|done|done|lia|lia|lia]. do 2 f_equal. apply (f_equal (λ x, (x, false))), (f_equal2 pair); [lia|ring].
Qed.

(** The sign of the exponent, and the first digit. *)
Lemma digit_not_sign c : to_digit c < 36 → c ≠ $"+" ∧ c ≠ $"-".
Proof. intros Hc. split; intros ->; [change (to_digit ($"+")) with 36 in Hc|change (to_digit ($"-")) with 36 in Hc]; lia. Qed.

Lemma at_after {S} l1 l2 c l3 (s : S) : at_ (l1 ++ l2 ++ c :: l3) (Z.of_nat (length l1) + Z.of_nat (length l2)) s = (Ok c, s).
Proof. rewrite <-Nat2Z.inj_add, <-length_app, app_assoc. apply at_middle. Qed.

Lemma is_exponent_mark {S} text flags radix radix_bits p_start p c (s : S) :
  has flags JS_ATOD_INT_ONLY = false → at_ text p s = (Ok c, s) → p_start < p → is_mark radix c →
  is_exponent text flags radix radix_bits p_start p s = (Ok true, s).
Proof.
  intros Hf Hat Hp Hm. unfold is_exponent. rewrite Hf. erewrite bind_run by exact Hat. unfold ret. do 2 f_equal.
  rewrite Z.gtb_ltb. destruct (Z.ltb_spec p_start p); [|lia]. rewrite andb_true_r. unfold is_mark in Hm.
  destruct (radix =? 10); cbn [negb andb orb].
  - rewrite orb_false_r. apply orb_true_iff. destruct Hm as [->| ->]; rewrite Z.eqb_refl; auto.
  - rewrite Hm. done.
Qed.

Lemma is_exponent_stop {S} text flags radix radix_bits p_start p c (s : S) :
  has flags JS_ATOD_INT_ONLY = false → at_ text p s = (Ok c, s) → stops radix None c →
  is_exponent text flags radix radix_bits p_start p s = (Ok false, s).
Proof.
  intros Hf Hat (_ & _ & _ & Hm & Hpp & _). unfold is_exponent. rewrite Hf. erewrite bind_run by exact Hat. unfold ret. do 2 f_equal.
  unfold is_mark in Hm. destruct (Z.eqb_spec radix 10) as [|Hr]; cbn [negb andb orb].
  - rewrite orb_false_r. destruct (Z.eqb_spec c ($"e")); [naive_solver|]. by destruct (Z.eqb_spec c ($"E")); [naive_solver|].
  - destruct (Hpp Hr). destruct (Z.eqb_spec c ($"@")); [naive_solver|]. destruct (Z.eqb_spec c ($"p")); [done|].
    destruct (Z.eqb_spec c ($"P")); [done|]. by rewrite !andb_false_r.
Qed.

Lemma scan_exponent_run {S} flags radix radix_bits p_start l1 e stop rest (s : S) :
  let text := l1 ++ exponent_text e ++ stop :: rest in
  has flags JS_ATOD_INT_ONLY = false → p_start < Z.of_nat (length l1) → exponent_ok radix e → stops radix e stop →
  ∃ neg, Atod.scan_exponent text flags radix radix_bits 256 p_start (Z.of_nat (length l1)) s
    = (Ok (Expn (Z.of_nat (length l1 + length (exponent_text e))) (exponent_value e) false neg false), s).
Proof.
  intros text Hf Hp He Hs. unfold Atod.scan_exponent. destruct e as [[[mark sg] es]|].
  - destruct He as (Hm & Hne & Hes & Hv). destruct Hs as [Hchar Hstop].
    assert (∀ {S} (s : S), at_ text (Z.of_nat (length l1)) s = (Ok mark, s)) as Hat by (intros; apply at_middle).
    assert (is_at text (Z.of_nat (length l1)) ($"p") ($"P") s = (Ok false, s)) as Hbin.
    { unfold is_at. erewrite bind_run by apply Hat. unfold ret. do 2 f_equal. unfold is_mark in Hm. destruct (radix =? 10); naive_solver. }
    erewrite bind_run by (eapply is_exponent_mark; [done|apply Hat|done|done]). cbv beta iota. exists (is_minus sg).
    erewrite bind_run by exact Hbin.
    destruct es as [|c es]; [done|]. apply Forall_cons in Hes as [Hc Hes]. destruct (digit_not_sign c ltac:(lia)) as [Hplus Hminus].
    assert (∀ {S} (s : S), at_ text (Z.of_nat (length l1) + 1 + Z.of_nat (length (sign_text sg))) s = (Ok c, s)) as Hat3.
    { intros. unfold text. cbn [exponent_text]. replace (Z.of_nat (length l1) + 1 + _) with (Z.of_nat (length l1) + Z.of_nat (length (mark :: sign_text sg)))
        by (cbn [length]; lia). rewrite app_comm_cons, <-(app_assoc (mark :: sign_text sg)). apply at_after. }
    assert (∃ c2, (∀ (T : Type) (s : T), at_ text (Z.of_nat (length l1) + 1) s = (Ok c2, s)) ∧
      (if c2 =? $"+" then (Z.of_nat (length l1) + 1 + 1, false) else if c2 =? $"-" then (Z.of_nat (length l1) + 1 + 1, true)
       else (Z.of_nat (length l1) + 1, false)) = (Z.of_nat (length l1) + 1 + Z.of_nat (length (sign_text sg)), is_minus sg)) as (c2 & Hat2 & E2).
    { destruct sg as [[|]|].
      - exists ($"-"). split; [|done]. intros. apply (at_after l1 [mark] ($"-")).
      - exists ($"+"). split; [|done]. intros. apply (at_after l1 [mark] ($"+")).
      - exists c. split; [intros T t; rewrite <-(Hat3 T t); f_equal; cbn; lia|].
        destruct (Z.eqb_spec c ($"+")); [done|]. destruct (Z.eqb_spec c ($"-")); [done|]. cbn. f_equal. lia. }
    cbv zeta. erewrite bind_run by apply Hat2. rewrite E2. cbv beta iota. erewrite bind_run by apply Hat3.
    destruct (Z.geb_spec (to_digit c) 10); [lia|].
    assert (text = (l1 ++ mark :: sign_text sg ++ [c]) ++ es ++ stop :: rest) as Et.
    { unfold text. cbn [exponent_text]. rewrite <-!app_assoc. cbn [app]. by rewrite <-!app_assoc. }
    pose proof (to_digit_nonneg c) as Hc0. rewrite fmap_cons, value_head, length_fmap in Hv by lia.
    assert (length (l1 ++ mark :: sign_text sg ++ [c]) = length l1 + 1 + length (sign_text sg) + 1)%nat as El
      by (rewrite length_app; cbn [length]; rewrite length_app; cbn; lia).
    pose proof (expn_loop_run (Datatypes.S (length text)) (l1 ++ mark :: sign_text sg ++ [c]) es stop rest (to_digit c) s
      Hes Hstop Hchar ltac:(rewrite Et, !length_app; lia) Hc0 Hv) as Eloop.
    rewrite <-Et in Eloop. rewrite El, !Nat2Z.inj_add in Eloop. change (Z.of_nat 1) with 1 in Eloop. erewrite bind_run by exact Eloop.
    cbv beta iota. unfold ret. do 2 f_equal. cbn [exponent_value exponent_text].
    rewrite fmap_cons, value_head, length_fmap by lia. f_equal. cbn [length]. rewrite length_app. cbn [length]. lia.
  - erewrite bind_run by (eapply is_exponent_stop; [done|apply at_middle|done]). exists false. unfold ret. do 2 f_equal. f_equal. cbn. lia.
Qed.

(** ** The prefix *)

Lemma body_chars ds k P : P dot → Forall P ds → Forall P (body ds k).
Proof.
  intros Hd Hds. unfold body. destruct (k <=? length ds)%nat; [|done].
  apply Forall_app_2; [by apply Forall_take|]. constructor; [done|]. by apply Forall_drop.
Qed.

Lemma strstart_differs {S} str v val c (s : S) : str !! 0%nat = Some c → v ≠ 0 → c ≠ v → js__strstart str (v :: val) s = (Ok None, s).
Proof.
  intros Hc Hv Hne. unfold js__strstart. cbn [loop length]. rewrite bind_bind. erewrite bind_run by by apply (rd_run (v :: val) 0 v).
  destruct (Z.eqb_spec v 0); [done|]. rewrite bind_bind. erewrite bind_run by by apply (rd_run str 0 c).
  by destruct (Z.eqb_spec c v).
Qed.

(** No prefix changes the radix, and the text is not [Infinity]. *)
Lemma scan_prefix_run {S} pre ds k stop rest radix flags (s : S) :
  Forall (λ c, to_digit c < radix) ds → ds ≠ [] → 2 ≤ radix ≤ 36 → (radix = 16 → stop ≠ $"x" ∧ stop ≠ $"X") →
  ds !! 0%nat ≠ Some ($"I") → has flags JS_ATOD_INT_ONLY = false →
  scan_prefix (pre ++ body ds k ++ stop :: rest) flags radix 256 (Z.of_nat (length pre)) s
  = (Ok (Prefix radix 256 (Z.of_nat (length pre))), s).
Proof.
  intros Hds Hne Hradix Hx HI Hflags. set (text := pre ++ body ds k ++ stop :: rest).
  assert (Forall (λ c, c = stop ∨ c = dot ∨ to_digit c < radix) (body ds k ++ [stop])) as Hchars.
  { apply Forall_app_2; [|by constructor; [left|]]. apply body_chars; [auto|]. eapply Forall_impl; [exact Hds|]. auto. }
  assert (∀ i c T (t : T), (body ds k ++ stop :: rest) !! i = Some c → at_ text (Z.of_nat (length pre) + Z.of_nat i) t = (Ok c, t)) as Hat.
  { intros i c T t Hi. apply rd_run; [lia|]. unfold text. replace (Z.to_nat _) with (length pre + i)%nat by lia.
    rewrite lookup_app_r by lia. by replace (length pre + i - length pre)%nat with i by lia. }
  pose proof (body_length ds k) as Hbl. assert (1 ≤ length ds)%nat by (destruct ds; [done|cbn; lia]).
  destruct (lookup_lt_is_Some_2 (body ds k ++ stop :: rest) 0) as [c0 H0]; [rewrite length_app; cbn; lia|].
  destruct (lookup_lt_is_Some_2 (body ds k ++ [stop]) 1) as [c1 H1]; [rewrite length_app; cbn; lia|].
  eapply Forall_lookup_1 in Hchars as Hc1; [|exact H1]. cbn in Hc1.
  assert ((body ds k ++ stop :: rest) !! 1%nat = Some c1) as H1'.
  { change (stop :: rest) with ([stop] ++ rest). rewrite app_assoc. by apply lookup_app_l_Some. }
  assert (c0 ≠ $"I") as HcI.
  { intros ->. destruct k as [|k]; [by destruct ds|]. apply HI. destruct ds as [|d ds]; [done|]. unfold body in H0.
    destruct (_ <=? _)%nat; by injection H0 as ->. }
  pose proof (Hat 0%nat c0 S s H0) as Hat0. rewrite Z.add_0_r in Hat0. unfold scan_prefix. erewrite bind_run by exact Hat0.
  destruct (Z.eqb_spec c0 ($"0")).
  - erewrite bind_run by apply (Hat 1%nat), H1'. destruct (Z.eqb_spec radix 0); [lia|]. rewrite !andb_false_r. cbn [orb].
    assert (((c1 =? $"x") || (c1 =? $"X")) && (radix =? 16) = false) as ->; [|by rewrite !andb_false_l].
    destruct (Z.eqb_spec radix 16) as [E|]; [|apply andb_false_r]. rewrite andb_true_r. destruct (Hx E).
    apply orb_false_iff. rewrite !Z.eqb_neq. destruct Hc1 as [->|[->|Hd]]; [done|done|].
    split; intros ->; [change (to_digit ($"x")) with 33 in Hd|change (to_digit ($"X")) with 33 in Hd]; lia.
  - rewrite Hflags. assert (drop (Z.to_nat (Z.of_nat (length pre))) text !! 0%nat = Some c0) as Hdrop
      by (unfold text; rewrite Nat2Z.id, drop_app_length; exact H0).
    by erewrite bind_run by (apply (strstart_differs _ ($"I") _ c0); [exact Hdrop|done|done]).
Qed.

(** ** The digits *)

Lemma number_all ds radix : 2 ≤ radix → number ds radix (leading_zeros ds) (length ds) = value radix (to_digit <$> ds).
Proof.
  intros Hr. unfold number. rewrite take_ge by (rewrite length_drop; lia).
  assert (∀ l, (∀ i c, l !! i = Some c → c = $"0") → value radix (to_digit <$> l) = 0) as Hz.
  { induction l as [|x l IH]; intros Hl; [done|]. rewrite fmap_cons, value_head, IH; [|intros i; by apply (Hl (S i))|lia].
    rewrite (Hl 0%nat x eq_refl). change (to_digit ($"0")) with 0. lia. }
  rewrite <-(take_drop (leading_zeros ds) ds) at 3. rewrite fmap_app, value_app by lia.
  rewrite (Hz (take (leading_zeros ds) ds)); [lia|]. intros i c [Hi Hlt]%lookup_take_Some. by eapply leading_zeros_lookup.
Qed.

Lemma to_digit_zero c : to_digit c = 0 → c = $"0".
Proof.
  unfold to_digit. destruct (Z.geb_spec c ($"0")), (Z.leb_spec c ($"9")); cbn [andb]; try lia;
    destruct (Z.geb_spec c ($"A")), (Z.leb_spec c ($"Z")); cbn [andb]; try lia;
    destruct (Z.geb_spec c ($"a")), (Z.leb_spec c ($"z")); cbn [andb]; lia.
Qed.

(** The first digit that counts is not 0. *)
Lemma number_size ds radix :
  2 ≤ radix ≤ 36 → Forall (λ c, to_digit c < radix) ds → (leading_zeros ds < length ds)%nat →
  let c := Z.of_nat (length ds - leading_zeros ds) in
  radix ^ (c - 1) ≤ number ds radix (leading_zeros ds) (length ds) < radix ^ c.
Proof.
  intros Hr Hds Hz c. split; [|apply (numeral_range ds radix Hds Hr); lia]. unfold number.
  rewrite take_ge by (rewrite length_drop; lia). destruct (drop (leading_zeros ds) ds) as [|x r] eqn:E.
  { apply (f_equal length) in E. rewrite length_drop in E. cbn in E. lia. }
  assert (ds !! leading_zeros ds = Some x) as Hx by (rewrite <-(Nat.add_0_r (leading_zeros ds)), <-lookup_drop, E; done).
  assert (length r = length ds - leading_zeros ds - 1)%nat as Hlr by (apply (f_equal length) in E; rewrite length_drop in E; cbn in E; lia).
  assert (Forall (λ c, to_digit c < radix) r) as Hr' by (apply (Forall_drop _ (leading_zeros ds)) in Hds; rewrite E in Hds; by apply Forall_cons in Hds as [_ ?]).
  rewrite fmap_cons, value_head, length_fmap by lia. replace (c - 1) with (Z.of_nat (length r)) by lia.
  assert (1 ≤ to_digit x).
  { pose proof (to_digit_nonneg x). destruct (Z.eq_dec (to_digit x) 0) as [H0|]; [|lia]. apply to_digit_zero in H0.
    by apply leading_zeros_end in Hx. }
  assert (0 ≤ value radix (to_digit <$> r)).
  { apply value_range; [lia|]. apply Forall_fmap. eapply Forall_impl; [exact Hr'|]. intros y Hy. unfold compose, in_radix. cbv beta in Hy |- *.
    pose proof (to_digit_nonneg y). lia. }
  pose proof (Z.pow_pos_nonneg radix (Z.of_nat (length r)) ltac:(lia) ltac:(lia)). nia.
Qed.

(** What is left of the last limb. *)
Lemma last_limb_run radix dpl cur n M l post :
  2 ≤ radix ≤ 36 → 0 ≤ n < dpl → radix ^ dpl ≤ B → 0 ≤ cur < radix ^ n → val l * radix ^ n + cur = M →
  limbs_ok l → l ≠ [] → trimmed l → M < 2 ^ 150 → (10 ≤ length l + length post)%nat →
  becomes (if negb (n =? 0) then b ← pow_ui radix n; mpb_mul1_base (u32 b) cur else ret tt) l post (λ l' _, val l' = M ∧ trimmed l').
Proof.
  intros Hr Hn Hb Hcur HM Hl Hne Ht Hbig Hroom. destruct (Z.eqb_spec n 0) as [->|Hn0]; cbn [negb].
  { apply becomes_done; [done..|]. rewrite Z.pow_0_r in *. split; [lia|done]. }
  assert (radix ^ n * 2 ≤ B).
  { etransitivity; [|exact Hb]. replace dpl with (n + (dpl - n)) by lia. rewrite Z.pow_add_r by lia.
    apply Z.mul_le_mono_nonneg_l; [apply Z.pow_nonneg; lia|]. transitivity (radix ^ 1); [lia|apply Z.pow_le_mono_r; lia]. }
  assert (1 ≤ radix ^ n) by (pose proof (Z.pow_pos_nonneg radix n); lia). unfold B in *.
  assert (dpl < 2 ^ 32).
  { apply Z.nle_gt. intros Hd. pose proof (Z.pow_gt_lin_r 2 dpl ltac:(lia) ltac:(lia)).
    pose proof (Z.pow_le_mono_l 2 radix dpl ltac:(lia)). lia. }
  pose proof (val_range l Hl). assert (val l ≤ M) by nia.
  assert (length l ≤ 5)%nat by (apply short_number; [done..|lia]).
  destruct (mpb_mul1_base_run (radix ^ n) cur l post) as (l' & post' & E & HP); [done..|unfold fits; lia|unfold fits; lia|lia|].
  exists l', post'. erewrite bind_run by (apply pow_ui_run; unfold fits; lia). rewrite Z.mod_small by lia.
  unfold u32. rewrite wrap_id by (unfold fits; lia). split; [exact E|]. unfold base_value in HP.
  destruct (Z.eqb_spec (radix ^ n) 0); [lia|]. rewrite HM in HP. exact HP.
Qed.

(** ** The run *)

(** The character after the digits: the mark of the exponent or what stops. *)
Lemma after_digits radix e stop rest :
  2 ≤ radix ≤ 36 → exponent_ok radix e → stops radix e stop →
  ∃ c r, exponent_text e ++ stop :: rest = c :: r ∧ radix ≤ to_digit c ∧ c ≠ dot ∧ c ≠ 256 ∧ (radix = 16 → c ≠ $"x" ∧ c ≠ $"X").
Proof.
  intros Hr He [Hchar Hs]. destruct e as [[[mark sg] es]|].
  - destruct He as [Hm _]. exists mark, ((sign_text sg ++ es) ++ stop :: rest). split; [done|]. unfold is_mark in Hm.
    destruct (Z.eqb_spec radix 10) as [->|].
    + destruct Hm as [->| ->]; by split_and!.
    + subst mark. split_and!; try done. change (to_digit ($"@")) with 36. lia.
  - destruct Hs as (H1 & H2 & _ & _ & H3). exists stop, rest. split_and!; try done; [lia|tauto..].
Qed.

Lemma first_char sg ds k radix tail :
  Forall (λ c, to_digit c < radix) ds → ds ≠ [] → radix ≤ 36 →
  ∃ c, (sign_text sg ++ body ds k ++ tail) !! 0%nat = Some c ∧
    (if c =? $"+" then (0, 1) else if c =? $"-" then (1, 1) else (0, 0)) = (b2l (is_minus sg), Z.of_nat (length (sign_text sg))).
Proof.
  intros Hds Hne Hr. destruct sg as [[|]|]; [by exists ($"-")|by exists ($"+")|]. cbn [sign_text app].
  assert (Forall (λ c, c ≠ $"+" ∧ c ≠ $"-") (body ds k)) as Hb.
  { apply body_chars; [done|]. eapply Forall_impl; [exact Hds|]. intros c Hc. cbv beta in Hc. apply digit_not_sign. lia. }
  destruct (body ds k) as [|c b] eqn:E.
  { pose proof (body_length ds k) as Hl. rewrite E in Hl. destruct ds; [done|]. cbn in Hl. lia. }
  apply Forall_cons in Hb as [[H1 H2] _]. exists c. split; [done|].
  destruct (Z.eqb_spec c ($"+")); [done|]. by destruct (Z.eqb_spec c ($"-")).
Qed.

Section run.
Context `{BuildConfig} (radix flags : Z) (sg : option bool) (ds : list Z) (k : nat) (e : exponent_part) (stop : Z) (rest : list Z).
Context (Hradix : 2 ≤ radix ≤ 36) (Hint : has flags JS_ATOD_INT_ONLY = false) (Hsep : has flags JS_ATOD_ACCEPT_UNDERSCORES = false).
Context (Hds : Forall (λ c, to_digit c < radix) ds) (Hne : ds ≠ []) (HI : ds !! 0%nat ≠ Some ($"I")).
Context (He : exponent_ok radix e) (Hs : stops radix e stop).
Context (max_digits : Z) (Hmax : atod_max_digits_table !! Z.to_nat (radix - 2) = Some max_digits).
Context (Hlen : Z.of_nat (length ds - leading_zeros ds) ≤ max_digits) (Hlen2 : Z.of_nat (length ds) ≤ 2 ^ 26).

Let text : list Z := sign_text sg ++ body ds k ++ exponent_text e ++ stop :: rest.
Let z : nat := leading_zeros ds.
Let M : Z := value radix (to_digit <$> ds).
Let X : Z := exponent_value e - fraction_digits ds k.

(** The digits, up to the place after them. *)
Lemma numeral_digits_run (dpl : Z) post :
  1 ≤ dpl → radix ^ dpl ≤ B → (length post = 51)%nat →
  let p0 := Z.of_nat (length (sign_text sg)) in
  ∃ dp s l post', loop (Datatypes.S (length text)) (zeros_turn text flags radix 256 p0) (p0, 0, -1) (mk [0] post)
      = (Ok (Some (place (sign_text sg) k z, Z.of_nat z, dp)), mk [0] post) ∧
    loop (Datatypes.S (length text)) (digits_turn text flags radix 256 p0 max_digits dpl ((radix ^ dpl) mod B))
      {| ds_p := place (sign_text sg) k z; ds_pos := Z.of_nat z; ds_dot := dp; cur_limb := 0; limb_digit_count := 0;
         digit_count := 0; extra_digits := 0 |} (mk [0] post) = (Ok (Some s), mk l post') ∧
    holds (sign_text sg) ds k radix dpl z (length ds) true s l ∧ limbs_ok l ∧ l ≠ [] ∧ trimmed l ∧ (length l + length post' = 52)%nat.
Proof using Hradix Hint Hds Hne He Hs Hmax Hlen.
  intros Hdpl Hb Hpost p0. destruct (after_digits radix e stop rest Hradix He Hs) as (c & r & Etail & Hc1 & Hc2 & Hc3 & _).
  destruct (atod_tables radix Hradix) as (n & _ & _ & Hn & _ & _ & Hn80 & Hn150 & _). rewrite Hmax in Hn. injection Hn as <-.
  assert (text = sign_text sg ++ body ds k ++ c :: r) as Et by (unfold text; by rewrite Etail). rewrite Et in *.
  set (text' := sign_text sg ++ body ds k ++ c :: r).
  assert (length ds < length text')%nat as Hfuel by (unfold text'; rewrite !length_app, body_length; cbn [length]; lia).
  pose proof (leading_zeros_length ds) as Hz.
  destruct (zeros_loop_run (sign_text sg) ds r k c radix flags Hds Hne Hradix Hc1 Hc2 Hc3 Hint (Datatypes.S (length text')) 0 false p0 (-1) (mk [0] post))
    as (dp & E1 & Hb1); [lia|lia|unfold before; cbn; unfold p0; split; [lia|done]|].
  set (s0 := {| ds_p := place (sign_text sg) k z; ds_pos := Z.of_nat z; ds_dot := dp; cur_limb := 0; limb_digit_count := 0;
         digit_count := 0; extra_digits := 0 |}).
  assert (holds (sign_text sg) ds k radix dpl z z true s0 [0]) as Hh.
  { unfold holds. cbn [s0 ds_p ds_pos ds_dot cur_limb limb_digit_count digit_count extra_digits]. rewrite number_start.
    split_and!; try done; try lia. all: rewrite ?Nat.sub_diag; cbn; lia. }
  destruct (digits_loop_run (sign_text sg) ds r k c radix flags Hds Hne Hradix Hc1 Hc2 Hc3 Hint dpl max_digits Hdpl Hb Hn150 ltac:(lia)
    z (Datatypes.S (length text')) z true s0 [0] post) as (s & l & post' & E2 & Hh2 & Hl & Hnl & Ht & Hll);
    [unfold z; lia|lia|unfold z; lia|exact Hh|by repeat constructor|done|by left|cbn; lia|].
  exists dp, s, l, post'. split_and!; try done. cbn in Hll. lia.
Qed.

(** The place after the digits, and the exponent. *)
Lemma exponent_run {S} radix_bits (s : S) :
  ∃ neg, Atod.scan_exponent text flags radix radix_bits 256 (Z.of_nat (length (sign_text sg))) (place (sign_text sg) k (length ds)) s
    = (Ok (Expn (Z.of_nat (length text) - Z.of_nat (length (stop :: rest))) (exponent_value e) false neg false), s).
Proof using All.
  assert (text = (sign_text sg ++ body ds k) ++ exponent_text e ++ stop :: rest) as Et by (unfold text; by rewrite <-app_assoc).
  assert (1 ≤ length ds)%nat by (clear -Hne; destruct ds; [done|cbn; lia]).
  assert (place (sign_text sg) k (length ds) = Z.of_nat (length (sign_text sg ++ body ds k))) as ->
    by (unfold place; rewrite length_app, body_length; lia).
  destruct (scan_exponent_run flags radix radix_bits (Z.of_nat (length (sign_text sg))) (sign_text sg ++ body ds k) e stop rest s)
    as (neg & E); [done| |done|done|]; [rewrite length_app, body_length; lia|].
  exists neg. rewrite Et, E. do 3 f_equal. rewrite !length_app. cbn [length]. lia.
Qed.

(** The value of the exponent is small. *)
Lemma exponent_small : Z.abs (exponent_value e) ≤ 10 ^ 8.
Proof using He.
  clear -He. destruct e as [[[mark sg'] es]|]; [|done]. destruct He as (_ & _ & Hes & Hv). cbn [exponent_value].
  assert (0 ≤ value 10 (to_digit <$> es)); [|destruct (is_minus sg'); lia].
  apply value_range; [lia|]. apply Forall_fmap. eapply Forall_impl; [exact Hes|]. intros x Hx. unfold compose, in_radix. cbv beta in Hx |- *.
  pose proof (to_digit_nonneg x). lia.
Qed.

(** The number once the digits are read. *)
Lemma finish_run kk dpl s l l2 post2 (sgn p : Z) :
  0 ≤ kk ≤ 5 → radix = Z.shiftr radix kk * 2 ^ kk → odd_part (Z.shiftr radix kk) → (Z.land radix (radix - 1) = 0 ↔ Z.shiftr radix kk = 1) →
  holds (sign_text sg) ds k radix dpl z (length ds) true s l →
  limbs_ok l2 → l2 ≠ [] → trimmed l2 → (length l2 + length post2 = 52)%nat → val l2 = M →
  ∃ a s', (if digit_count s =? 0 then ret (Z.lor 0 sgn, p)
    else a0 ← make_double radix (Z.shiftr radix kk) kk (if Z.shiftr radix kk =? 1 then kk else 0) (exponent_value e)
           (if digit_count s =? 0 then 0 else Z.of_nat z + digit_count s - (if ds_dot s <? 0 then ds_pos s else ds_dot s))
           (digit_count s) false;
         ret (Z.lor a0 sgn, p)) (mk l2 post2) = (Ok (Z.lor a sgn, p), s') ∧
    if M =? 0 then a = 0 else nearest_bits (num M 0 radix X) (den 0 radix X) a.
Proof using All.
  intros Hkk Hparts Hodd Hpow2 (Hb & Hpos & Hcount & _) Hl2 Hnl2 Ht2 Hll2 HM. apply before_place in Hb as [_ Hdot].
  pose proof (leading_zeros_length ds) as Hzl. unfold z in *. rewrite Hcount.
  assert (M = number ds radix (leading_zeros ds) (length ds)) as EM by (rewrite number_all by lia; done).
  destruct (Z.eqb_spec (Z.of_nat (length ds - leading_zeros ds)) 0) as [H0|H0].
  { exists 0, (mk l2 post2). split; [done|]. replace (leading_zeros ds) with (length ds) in EM by lia. rewrite number_start in EM. by rewrite EM. }
  pose proof (number_size ds radix Hradix Hds ltac:(lia)) as Hsize. cbv zeta in Hsize. rewrite <-EM, <-HM in Hsize.
  assert (Z.of_nat (leading_zeros ds) + Z.of_nat (length ds - leading_zeros ds) - (if ds_dot s <? 0 then ds_pos s else ds_dot s) = fraction_digits ds k) as ->.
  { rewrite Hdot, Hpos. unfold fraction_digits. destruct (Nat.leb_spec k (length ds)); [destruct (Z.ltb_spec (Z.of_nat k) 0); lia|].
    change (-1 <? 0) with true. cbv iota. lia. }
  pose proof exponent_small as Hexp.
  destruct (make_double_run radix kk Hradix Hkk Hparts Hodd Hpow2 max_digits Hmax l2 post2 (Z.of_nat (length ds - leading_zeros ds)) Hl2 Hnl2 Ht2
    ltac:(lia) ltac:(lia) Hsize (exponent_value e) (fraction_digits ds k)) as (a & s' & E5 & Ha); [lia|unfold fraction_digits; lia|].
  exists a, s'. erewrite bind_run by exact E5. split; [done|]. rewrite HM in Ha. destruct (Z.eqb_spec M 0) as [EM0|_]; [|exact Ha].
  pose proof (Z.pow_pos_nonneg radix (Z.of_nat (length ds - leading_zeros ds) - 1)). lia.
Qed.

Lemma js_atod_run tmp0 :
  length (tab tmp0) = 52%nat →
  ∃ a s', js_atod text flags radix tmp0
      = (Ok (Z.lor a (Z.shiftl (b2l (is_minus sg)) 63), Z.of_nat (length text) - Z.of_nat (length (stop :: rest))), s') ∧
    if M =? 0 then a = 0 else nearest_bits (num M 0 radix X) (den 0 radix X) a.
Proof using All.
  intros Htab. destruct tmp0 as [len0 tab0]. cbn [tab] in Htab. destruct tab0 as [|t0 post]; [done|]. cbn [length] in Htab.
  destruct (first_char sg ds k radix (exponent_text e ++ stop :: rest) Hds Hne ltac:(lia)) as (c0 & Hc0 & Esign).
  destruct (after_digits radix e stop rest Hradix He Hs) as (c & r & Etail & Hc1 & Hc2 & Hc3 & Hx).
  destruct (atod_tables radix Hradix) as (n & _ & _ & Hn & _ & _ & Hn80 & Hn150 & _). rewrite Hmax in Hn. injection Hn as <-.
  destruct (radix_tables radix Hradix) as (dpl & Hdpl & Hbase & Hdpl1 & HB & _).
  destruct (numeral_digits_run dpl post ltac:(lia) HB ltac:(lia)) as (dp & s & l & post' & E1 & E2 & Hh & Hl & Hnl & Ht & Hll).
  unfold js_atod. erewrite bind_run by apply MOE_ASSERT_true. rewrite Hsep. cbv zeta.
  erewrite bind_run by (apply (rd_run text 0 c0); [done|exact Hc0]). rewrite Esign. cbv beta iota.
  assert (∀ (S : Type) (t : S), scan_prefix text flags radix 256 (Z.of_nat (length (sign_text sg))) t
    = (Ok (Prefix radix 256 (Z.of_nat (length (sign_text sg)))), t)) as Epre.
  { intros. unfold text. rewrite Etail. by apply scan_prefix_run. }
  erewrite bind_run by apply Epre. cbv beta iota. destruct (Z.eqb_spec radix 0); [lia|].
  erewrite bind_run by (apply rd_run; [lia|exact Hmax]). erewrite bind_run by (apply rd_run; [lia|exact Hdpl]).
  erewrite bind_run by (apply rd_run; [lia|exact Hbase]).
  destruct (radix_parts radix {| DtoaMp.len := len0; tab := t0 :: post |} Hradix) as (kk & Ectz & Hkk & Hparts & Hodd & Hpow2).
  erewrite bind_run by exact Ectz. do 2 (erewrite bind_run by reflexivity).
  assert (M < 2 ^ 150) as HM150.
  { pose proof (numeral_range ds radix Hds Hradix z (length ds) ltac:(unfold z; pose proof (leading_zeros_length ds); lia)) as Hnr.
    unfold z in Hnr. rewrite number_all in Hnr by lia. eapply Z.lt_trans; [apply Hnr|]. eapply Z.le_lt_trans; [|exact Hn150].
    apply Z.pow_le_mono_r; lia. }
  erewrite bind_run by exact E1. cbv beta iota. erewrite bind_run by exact E2. cbv beta iota.
  pose proof Hh as (Hb & Hpos & Hcount & Hextra & Hn & Hcur & _ & Hval). unfold z in Hval. rewrite number_all in Hval by lia. fold M in Hval.
  apply before_place in Hb as [Hp Hdot].
  destruct (last_limb_run radix dpl (cur_limb s) (limb_digit_count s) M l post') as (l2 & post2 & E3 & Hl2 & Hnl2 & Hll2 & HM & Ht2); [done..|lia|].
  erewrite bind_run by exact E3. rewrite Hextra. cbn [negb Z.eqb]. rewrite andb_false_r. rewrite bind_ret.
  destruct (exponent_run (if Z.shiftr radix kk =? 1 then kk else 0) (mk l2 post2)) as (neg & E4).
  rewrite Hp. erewrite bind_run by exact E4. cbv beta iota. rewrite andb_false_r.
  destruct (Z.eqb_spec (Z.of_nat (length text) - Z.of_nat (length (stop :: rest))) (Z.of_nat (length (sign_text sg)))) as [Eq|_].
  { exfalso. unfold text in Eq. rewrite !length_app, body_length in Eq. destruct ds; [done|]. cbn [length] in Eq. lia. }
  rewrite Hll in Hll2. by apply (finish_run kk dpl s l l2 post2).
Qed.
End run.
