(* ===== verification/AtodProps.v ===== *)
(** * Text to floating point numbers: properties

    [js_atod] gives the double nearest to what a numeral says, in every radix. *)
From S2P Require Import Prelude CStd Words CUtils BigIntMp BigIntMpFacts DigitsFacts DtoaMp DtoaMpFacts Dtoa.
From S2P Require Import Atod DtoaRoundFacts AtodFacts.



#[local] Instance asserts : BuildConfig := with_assertions.

(** The rounding is the one expected: a tie goes to the even mantissa, the largest
    numbers round to infinity, the smallest to 0. *)
Example atod_tie_even : atod_of "9007199254740993" 10 0 = atod_of "9007199254740992" 10 0.
Proof. vm_compute. reflexivity. Qed.
Example atod_tie_up : atod_of "9007199254740995" 10 0 = Some (0x4340000000000002, 16).
Proof. vm_compute. reflexivity. Qed.
Example atod_largest : atod_of "1.7976931348623158e308" 10 0 = Some (0x7fefffffffffffff, 22).
Proof. vm_compute. reflexivity. Qed.
Example atod_above : atod_of "1.7976931348623159e308" 10 0 = Some (float64_inf, 22).
Proof. vm_compute. reflexivity. Qed.
Example atod_half_least : atod_of "2.4703282292062327e-324" 10 0 = Some (0, 23).
Proof. vm_compute. reflexivity. Qed.

(** The exponent is added to the number of digits as [int]s: the largest one that
    is not cut overflows with nine digits, when one less digit is fine. *)
Example atod_exponent_overflow :
  fst (js_atod (chars "123456789e2147483639" ++ [0]) 0 10 {| len := 5; tab := replicate 52 77 |}) = Err (Undefined SignedOverflow).
Proof. vm_compute. reflexivity. Qed.
Example atod_exponent_no_overflow : atod_of "12345678e2147483639" 10 0 = Some (float64_inf, 19).
Proof. vm_compute. reflexivity. Qed.
Example atod_radix_overflow :
  fst (js_atod (chars "1@2147483639" ++ [0]) 0 32 {| len := 5; tab := replicate 52 77 |}) = Err (Undefined SignedOverflow).
Proof. vm_compute. reflexivity. Qed.
