(* ===== verification/DtoaFree.v ===== *)
(** * The shortest numeral of a number: lemmas

    Numbers as multiples of a power of 2 and of the radix, and the loops of
    [js_dtoa] that look for the fewest digits. *)
From S2P Require Import Prelude CStd Words CUtils BigIntMp BigIntMpFacts BigIntDiv BigInt BigIntFacts BigIntOps.
From S2P Require Import BigIntDivRem Digits DigitsFacts BigIntToText DtoaMp DtoaMpFacts Dtoa Atod.
From S2P Require Import DtoaRoundFacts AtodFacts.

(** * Numbers as multiples of a power of 2 and of the radix

    The numbers [m * 2^a * radix^f] compared by the same multiple of each,
    [m * W a f]; the double nearest to a number is unique, and is the one a
    number close enough to it was taken from. *)

(** ** The nearest double *)

Lemma rounds_unique v d q q' : 0 < d → rounds JS_RNDN v d q → rounds JS_RNDN v d q' → q = q'.
Proof.
  intros Hd. cbn. intros [H1 H2] [H3 H4]. destruct (Z.eq_dec q q') as [|Hne]; [done|exfalso].
  assert (q' = q + 1 ∨ q = q' + 1) as Hs by nia.
  assert (2 * Z.abs (v - q * d) = d ∧ 2 * Z.abs (v - q' * d) = d) as [E1 E2] by (destruct Hs; nia).
  specialize (H2 E1). specialize (H4 E2). destruct Hs as [->| ->]; [rewrite Z.even_add, H2 in H4|rewrite Z.even_add, H4 in H2]; done.
Qed.

Lemma binade_unique n d E E' : 0 < n → 0 < d → in_binade n d E → in_binade n d E' → E = E'.
Proof.
  assert (∀ E E', 0 < n → 0 < d → in_binade n d E → in_binade n d E' → ¬ E < E') as Hlt.
  { clear E E'. intros E E' Hn Hd [_ Hhi] [Hlo _] Hlt.
    assert (2 ^ Z.max E 0 * 2 ^ Z.max (1 - E') 0 ≤ 2 ^ Z.max (E' - 1) 0 * 2 ^ Z.max (- E) 0) as Hp
      by (rewrite <-!Z.pow_add_r by lia; apply Z.pow_le_mono_r; lia).
    pose proof (Z.pow_pos_nonneg 2 (Z.max (1 - E') 0) ltac:(lia) ltac:(lia)) as Hp1.
    pose proof (Z.pow_pos_nonneg 2 (Z.max (- E) 0) ltac:(lia) ltac:(lia)) as Hp2.
    assert (n * 2 ^ Z.max (- E) 0 * 2 ^ Z.max (1 - E') 0 < 2 ^ Z.max E 0 * d * 2 ^ Z.max (1 - E') 0) as H1 by (apply Z.mul_lt_mono_pos_r; done).
    assert (2 ^ Z.max (E' - 1) 0 * d * 2 ^ Z.max (- E) 0 ≤ n * 2 ^ Z.max (1 - E') 0 * 2 ^ Z.max (- E) 0) as H2
      by (apply Z.mul_le_mono_nonneg_r; lia).
    assert (2 ^ Z.max E 0 * 2 ^ Z.max (1 - E') 0 * d ≤ 2 ^ Z.max (E' - 1) 0 * 2 ^ Z.max (- E) 0 * d) as H3 by (apply Z.mul_le_mono_nonneg_r; lia).
    lia. }
  intros Hn Hd H1 H2. pose proof (Hlt E E' Hn Hd H1 H2). pose proof (Hlt E' E Hn Hd H2 H1). lia.
Qed.

Lemma nearest_unique n d a a' : 0 < n → 0 < d → nearest_bits n d a → nearest_bits n d a' → a = a'.
Proof.
  intros Hn Hd (E & q & HE & Hq & ->) (E' & q' & HE' & Hq' & ->).
  assert (E = E') as -> by by apply (binade_unique n d). do 2 f_equal.
  eapply rounds_unique; [|exact Hq|exact Hq']. apply Z.mul_pos_pos; [done|]. apply Z.pow_pos_nonneg; lia.
Qed.

Lemma binade_ratio n d n' d' E : 0 < d → 0 < d' → n * d' = n' * d → in_binade n d E → in_binade n' d' E.
Proof.
  intros Hd Hd' Hr [Hlo Hhi].
  assert (∀ a, n' * a * d = n * a * d') as Ha by (intros; rewrite <-!Z.mul_assoc, (Z.mul_comm a), !Z.mul_assoc, <-Hr; ring). split.
  - apply (Z.mul_le_mono_pos_r _ _ d); [done|]. rewrite Ha.
    transitivity (2 ^ Z.max (E - 1) 0 * d * d'); [apply Z.eq_le_incl; ring|]. apply Z.mul_le_mono_nonneg_r; lia.
  - apply (Z.mul_lt_mono_pos_r d); [done|]. rewrite Ha.
    apply Z.lt_le_trans with (2 ^ Z.max E 0 * d * d'); [apply Z.mul_lt_mono_pos_r; done|]. apply Z.eq_le_incl. ring.
Qed.

Lemma nearest_ratio n d n' d' a : 0 < d → 0 < d' → n * d' = n' * d → nearest_bits n d a → nearest_bits n' d' a.
Proof.
  intros Hd Hd' Hr (E & q & HE & Hq & ->). exists E, q. split_and!; [by apply (binade_ratio n d)| |done].
  assert (∀ k, 0 < 2 ^ Z.max k 0) as Hp by (intros; apply Z.pow_pos_nonneg; lia).
  eapply rounds_ratio; [| | |exact Hq]; [by apply Z.mul_pos_pos|by apply Z.mul_pos_pos|].
  transitivity (n * d' * (2 ^ Z.max (- ulp E) 0 * 2 ^ Z.max (ulp E) 0)); [ring|]. rewrite Hr. ring.
Qed.

(** ** Multiples *)

Section scale.
Context (radix K : Z) (Hradix : 2 ≤ radix) (HK : 2000 ≤ K).

Definition W (a f : Z) : Z := 2 ^ (a + K) * radix ^ (f + K).

Lemma W_pos a f : - K ≤ a → - K ≤ f → 0 < W a f.
Proof using Hradix. intros. unfold W. apply Z.mul_pos_pos; apply Z.pow_pos_nonneg; lia. Qed.

Lemma W_two a f i : 0 ≤ i → - K ≤ a → W (a + i) f = W a f * 2 ^ i.
Proof using Type. intros. unfold W. replace (a + i + K) with (a + K + i) by lia. rewrite (Z.pow_add_r 2 (a + K)) by lia. ring. Qed.

Lemma W_radix a f j : 0 ≤ j → - K ≤ f → W a (f + j) = W a f * radix ^ j.
Proof using Type. intros. unfold W. replace (f + j + K) with (f + K + j) by lia. rewrite (Z.pow_add_r radix (f + K)) by lia. ring. Qed.

Lemma W_le a f a' f' : - K ≤ a ≤ a' → - K ≤ f ≤ f' → W a f ≤ W a' f'.
Proof using Hradix.
  intros. unfold W. apply Z.mul_le_mono_nonneg; [apply Z.pow_nonneg; lia|apply Z.pow_le_mono_r; lia|apply Z.pow_nonneg; lia|apply Z.pow_le_mono_r; lia].
Qed.

(** Both sides times a power of the radix. *)
Lemma W_shift a f a' f' j :
  - K ≤ f → - K ≤ f' → - K ≤ f + j → - K ≤ f' + j → W a f ≤ W a' f' ↔ W a (f + j) ≤ W a' (f' + j).
Proof using Hradix.
  intros. destruct (Z.le_gt_cases 0 j).
  - rewrite !(W_radix _ _ j) by lia. apply Z.mul_le_mono_pos_r, Z.pow_pos_nonneg; lia.
  - replace f with (f + j + - j) at 1 by lia. replace f' with (f' + j + - j) at 1 by lia. rewrite !(W_radix _ _ (- j)) by lia.
    symmetry. apply Z.mul_le_mono_pos_r, Z.pow_pos_nonneg; lia.
Qed.

Lemma num_scaled m a f : - K ≤ a → - K ≤ f → num m a radix f * W 0 0 = m * W a f * den a radix f.
Proof using HK.
  intros Ha Hf. unfold num, den, W.
  assert (2 ^ Z.max a 0 * 2 ^ (0 + K) = 2 ^ (a + K) * 2 ^ Z.max (- a) 0) as E1 by (rewrite <-!Z.pow_add_r by lia; f_equal; lia).
  assert (radix ^ Z.max f 0 * radix ^ (0 + K) = radix ^ (f + K) * radix ^ Z.max (- f) 0) as E2 by (rewrite <-!Z.pow_add_r by lia; f_equal; lia).
  transitivity (m * (2 ^ Z.max a 0 * 2 ^ (0 + K)) * (radix ^ Z.max f 0 * radix ^ (0 + K))); [ring|]. rewrite E1, E2. ring.
Qed.

Lemma rounds_scaled rnd m a f q : - K ≤ a → - K ≤ f → rounds rnd (num m a radix f) (den a radix f) q → rounds rnd (m * W a f) (W 0 0) q.
Proof using Hradix HK.
  intros Ha Hf. apply rounds_ratio; [apply den_pos; lia|apply W_pos; lia|]. by apply num_scaled.
Qed.

Lemma binade_scaled n d Y E : 0 < d → - K < E → n * W 0 0 = Y * d → W (E - 1) 0 ≤ Y < W E 0 → in_binade n d E.
Proof using Hradix HK.
  intros Hd HE Hn [Hlo Hhi]. pose proof (W_pos 0 0 ltac:(lia) ltac:(lia)) as H00.
  assert (∀ k, - K ≤ k → 2 ^ Z.max k 0 * W 0 0 = W k 0 * 2 ^ Z.max (- k) 0) as Hk.
  { intros k Hk. unfold W.
    assert (2 ^ Z.max k 0 * 2 ^ (0 + K) = 2 ^ (k + K) * 2 ^ Z.max (- k) 0) as E1 by (rewrite <-!Z.pow_add_r by lia; f_equal; lia).
    rewrite Z.mul_assoc, E1. ring. }
  pose proof (Z.pow_pos_nonneg 2 (Z.max (1 - E) 0) ltac:(lia) ltac:(lia)). pose proof (Z.pow_pos_nonneg 2 (Z.max (- E) 0) ltac:(lia) ltac:(lia)).
  split; [apply (Z.mul_le_mono_pos_r _ _ (W 0 0)); [done|]|apply (Z.mul_lt_mono_pos_r (W 0 0)); [done|]].
  - transitivity (2 ^ Z.max (E - 1) 0 * W 0 0 * d); [apply Z.eq_le_incl; ring|]. rewrite Hk by lia. replace (- (E - 1)) with (1 - E) by lia.
    transitivity (Y * d * 2 ^ Z.max (1 - E) 0); [|rewrite <-Hn; apply Z.eq_le_incl; ring].
    rewrite <-!Z.mul_assoc, (Z.mul_comm (2 ^ _)). apply Z.mul_le_mono_nonneg_r; [apply Z.mul_nonneg_nonneg; lia|done].
  - apply Z.lt_le_trans with (2 ^ Z.max E 0 * W 0 0 * d); [|apply Z.eq_le_incl; ring]. rewrite Hk by lia.
    apply Z.le_lt_trans with (Y * d * 2 ^ Z.max (- E) 0); [rewrite <-Hn; apply Z.eq_le_incl; ring|].
    rewrite <-!Z.mul_assoc, (Z.mul_comm (2 ^ _)). apply Z.mul_lt_mono_pos_r; [by apply Z.mul_pos_pos|done].
Qed.

Lemma rounding_scaled rnd n d Y u q : 0 < d → - K ≤ u → n * W 0 0 = Y * d → rounds rnd Y (W u 0) q → scaled_rounds rnd n d u q.
Proof using Hradix HK.
  intros Hd Hu Hn. unfold scaled_rounds.
  assert (∀ k, 0 < 2 ^ Z.max k 0) as Hp by (intros; apply Z.pow_pos_nonneg; lia).
  apply rounds_ratio; [apply W_pos; lia|by apply Z.mul_pos_pos|].
  assert (2 ^ Z.max u 0 * W 0 0 = W u 0 * 2 ^ Z.max (- u) 0) as Hk.
  { unfold W. assert (2 ^ Z.max u 0 * 2 ^ (0 + K) = 2 ^ (u + K) * 2 ^ Z.max (- u) 0) as E1 by (rewrite <-!Z.pow_add_r by lia; f_equal; lia).
    rewrite Z.mul_assoc, E1. ring. }
  apply (Z.mul_reg_r _ _ (W 0 0)); [pose proof (W_pos 0 0 ltac:(lia) ltac:(lia)); lia|].
  transitivity (Y * d * (2 ^ Z.max u 0 * W 0 0)); [ring|]. rewrite Hk, <-Hn. ring.
Qed.

(** ** The double a number was taken from *)

(** A number in the binade of [m * 2^(e - 53)], closer to it than half the last bit. *)
Lemma nearest_in_binade n d Y q E :
  - K < E → -1074 ≤ E ≤ 1024 → 0 < d → n * W 0 0 = Y * d → W (E - 1) 0 ≤ Y < W E 0 →
  2 * Z.abs (Y - q * W (ulp E) 0) < W (ulp E) 0 → 0 ≤ q ≤ 2 ^ (E - ulp E) → (-1021 ≤ E → 2 ^ 52 ≤ q) →
  nearest_bits n d (pack (mantissa q E).1 (mantissa q E).2).
Proof using Hradix HK.
  intros HE HE2 Hd Hn Hbin Hq Hqr Hqn. exists E, q. split_and!; [by apply (binade_scaled n d Y)| |apply pack_mantissa; [done|done|lia|lia]].
  apply (rounding_scaled JS_RNDN n d Y); [done|unfold ulp; lia|done|]. cbn [rounds]. split; lia.
Qed.

Lemma reads_back n d Y w m e :
  2 ^ 52 ≤ m < 2 ^ 53 → -1073 ≤ e ≤ 1024 → (e < -1021 → m mod 2 ^ (-1021 - e) = 0) →
  2 * Z.abs (m * W (e - 53) 0 - Y) ≤ w → 2 ^ 53 * w < m * W (e - 53) 0 → 0 < d → n * W 0 0 = Y * d →
  nearest_bits n d (pack m e).
Proof using Hradix HK.
  intros Hm He Hsub Herr Hw Hd Hn. set (v := W (e - 53) 0) in *. pose proof (W_pos (e - 53) 0 ltac:(lia) ltac:(lia)) as Hv. fold v in Hv.
  assert (∀ i, 0 ≤ i → W (e - 53 + i) 0 = v * 2 ^ i) as Wi by (intros; apply W_two; lia).
  destruct (Z.le_gt_cases (W (e - 1) 0) Y) as [Hge|Hlt].
  - set (k := ulp e - (e - 53)). assert (0 ≤ k ≤ 52) as Hk by (unfold k, ulp; lia).
    assert (W (ulp e) 0 = v * 2 ^ k) as Wu by (rewrite <-Wi by lia; f_equal; unfold k; lia).
    pose proof (Z.pow_pos_nonneg 2 k ltac:(lia) ltac:(lia)).
    assert (m = m / 2 ^ k * 2 ^ k) as Em.
    { pose proof (Z.div_mod m (2 ^ k) ltac:(lia)). destruct (Z.le_gt_cases (-1021) e) as [Hn1|Hs1].
      - replace k with 0 in * by (unfold k, ulp; lia). rewrite Z.mod_1_r in *. lia.
      - replace (-1021 - e) with k in Hsub by (unfold k, ulp; lia). specialize (Hsub Hs1). lia. }
    assert (mantissa (m / 2 ^ k) e = (m, e)) as Ema.
    { unfold mantissa. fold k. rewrite <-Em, Z.geb_leb. destruct (Z.leb_spec (2 ^ 53) m); [lia|done]. }
    replace (pack m e) with (pack (mantissa (m / 2 ^ k) e).1 (mantissa (m / 2 ^ k) e).2) by by rewrite Ema.
    assert (2 ^ 53 = 2 ^ (e - ulp e) * 2 ^ k) as E53 by (rewrite <-Z.pow_add_r by (unfold k, ulp; lia); f_equal; unfold k; lia).
    pose proof (Z.pow_pos_nonneg 2 (e - ulp e) ltac:(lia) ltac:(unfold ulp; lia)).
    apply nearest_in_binade with Y; try done; [lia|lia| | |nia|].
    + split; [done|]. replace e with (e - 53 + 53) by lia. rewrite Wi by lia. nia.
    + rewrite Wu. replace (m / 2 ^ k * (v * 2 ^ k)) with (m / 2 ^ k * 2 ^ k * v) by ring. rewrite <-Em. nia.
    + intros. replace k with 0 by (unfold k, ulp; lia). change (2 ^ 0) with 1. rewrite Z.div_1_r. lia.
  - replace (e - 1) with (e - 53 + 52) in Hlt by lia. rewrite Wi in Hlt by lia.
    assert (m = 2 ^ 52) as -> by nia. set (E := e - 1). set (k := ulp E - (E - 53)). assert (0 ≤ k ≤ 53) as Hk by (unfold k, ulp, E; lia).
    pose proof (W_two (e - 54) 0 1 ltac:(lia) ltac:(lia)) as W1. replace (e - 54 + 1) with (e - 53) in W1 by lia. fold v in W1. rewrite Z.pow_1_r in W1.
    set (v2 := W (e - 54) 0) in *. assert (W (ulp E) 0 = v2 * 2 ^ k) as Wu by (unfold v2; rewrite <-W_two by lia; f_equal; unfold k, E; lia).
    pose proof (Z.pow_pos_nonneg 2 k ltac:(lia) ltac:(lia)).
    assert (2 ^ 53 = 2 ^ (53 - k) * 2 ^ k) as E53 by (rewrite <-Z.pow_add_r by lia; f_equal; lia).
    assert (mantissa (2 ^ (53 - k)) E = (2 ^ 52, e)) as Ema.
    { unfold mantissa. fold k. rewrite <-E53. change (2 ^ 53 >=? 2 ^ 53) with true. cbv iota. f_equal. unfold E. lia. }
    replace (pack (2 ^ 52) e) with (pack (mantissa (2 ^ (53 - k)) E).1 (mantissa (2 ^ (53 - k)) E).2) by by rewrite Ema.
    apply nearest_in_binade with Y; try done; [unfold E; lia|unfold E; lia| | |split; [apply Z.pow_nonneg; lia|]|].
    + unfold E. replace (e - 1) with (e - 53 + 52) by lia. replace (e - 53 + 52 - 1) with (e - 53 + 51) by lia. rewrite !Wi by lia. nia.
    + rewrite Wu. replace (2 ^ (53 - k) * (v2 * 2 ^ k)) with (2 ^ (53 - k) * 2 ^ k * v2) by ring. rewrite <-E53. nia.
    + apply Z.pow_le_mono_r; [lia|]. unfold k. lia.
    + intros. replace k with 0 by (unfold k, ulp; lia). done.
Qed.

End scale.

(** * The shortest numeral of a number

    The loops of [js_dtoa] that look for the fewest digits: what they find is a
    numeral of that many digits, and the double nearest to it is the number. *)

(** ** The tables *)

Definition check_dtoa_radix (radix : Z) : bool :=
  match dtoa_max_digits_table !! Z.to_nat (radix - 2) with
  | Some p =>
      (Z.land radix (radix - 1) =? 0) ||
      ((1 <=? p) && (p <=? 54) && (2 ^ 53 <? radix ^ (p - 1)) && (2 * radix ^ p <? 2 ^ 64) &&
       forallb (λ k, match digits_per_limb_table !! Z.to_nat (Z.shiftr radix k - 2) with
                     | Some d => (Z.land (Z.shiftr radix k) (Z.shiftr radix k - 1) =? 0) ||
                         ((1 <=? d) && (1023 <? Z.log2 (radix ^ 7) * ((49 * d - 1) / 7)) && (p <=? 47 * d) && (1074 <? Z.log2 (radix ^ 7) * ((47 * d - p) / 7)))
                     | None => true
                     end) (seqZ 0 6))
  | None => false
  end.

Lemma dtoa_tables_checked : forallb check_dtoa_radix (seqZ 2 35) = true.
Proof. vm_compute. reflexivity. Qed.

(** Powers of the radix bounded below, without computing them. *)
Lemma seventh_power radix j : 2 ≤ radix → 0 ≤ j → 2 ^ (Z.log2 (radix ^ 7) * (j / 7)) ≤ radix ^ j.
Proof.
  intros Hr Hj. assert (0 < radix ^ 7) as H7 by (apply Z.pow_pos_nonneg; lia). pose proof (log2_bounds _ H7) as [Hlog _].
  pose proof (Z.log2_nonneg (radix ^ 7)). pose proof (Z.div_pos j 7 Hj ltac:(lia)).
  pose proof (Z.div_mod j 7 ltac:(lia)). pose proof (Z.mod_pos_bound j 7 ltac:(lia)).
  rewrite Z.pow_mul_r by lia. transitivity ((radix ^ 7) ^ (j / 7)).
  - apply Z.pow_le_mono_l. split; [apply Z.pow_nonneg; lia|done].
  - rewrite <-Z.pow_mul_r by lia. apply Z.pow_le_mono_r; lia.
Qed.

Lemma dtoa_tables radix k d :
  2 ≤ radix ≤ 36 → Z.land radix (radix - 1) ≠ 0 → 0 ≤ k ≤ 5 → Z.land (Z.shiftr radix k) (Z.shiftr radix k - 1) ≠ 0 →
  digits_per_limb_table !! Z.to_nat (Z.shiftr radix k - 2) = Some d →
  ∃ p, dtoa_max_digits_table !! Z.to_nat (radix - 2) = Some p ∧ 1 ≤ p ≤ 54 ∧ 2 ^ 53 < radix ^ (p - 1) ∧ 2 * radix ^ p < 2 ^ 64 ∧
    2 ^ 1023 < radix ^ (49 * d - 1) ∧ p ≤ 47 * d ∧ 2 ^ 1074 < radix ^ (47 * d - p).
Proof.
  intros Hr Hl Hk Hl1 Hd. pose proof dtoa_tables_checked as Hc. rewrite forallb_forall in Hc. specialize (Hc radix).
  assert (check_dtoa_radix radix = true) as H by (apply Hc, list_elem_of_In, elem_of_seqZ; lia). clear Hc. unfold check_dtoa_radix in H.
  destruct (dtoa_max_digits_table !! _) as [p|]; [|done]. apply orb_true_iff in H as [H%Z.eqb_eq|H]; [done|].
  rewrite !andb_true_iff, !Z.leb_le, !Z.ltb_lt in H. destruct H as [[[[H1 H2] H3] H4] Hf].
  rewrite forallb_forall in Hf. specialize (Hf k). rewrite Hd in Hf.
  apply orb_true_iff in Hf as [Hf%Z.eqb_eq|Hf']; [done| |apply list_elem_of_In, elem_of_seqZ; lia].
  rewrite !andb_true_iff, !Z.leb_le, !Z.ltb_lt in Hf'. destruct Hf' as [[[Hd1 Hf1] Hf2] Hf3]. exists p.
  split_and!; try done; (eapply Z.lt_le_trans; [|apply seventh_power; lia]); apply Z.pow_lt_mono_r; lia.
Qed.

(** ** The first exponent *)

Lemma floor_log_bounds radix e k :
  2 ≤ radix → - 1073 ≤ e ≤ 1024 → is_floor_log radix (e - 1) k →
  radix ^ Z.max (- (1 + k)) 0 ≤ 2 ^ 1074 ∧ radix ^ Z.max k 0 ≤ 2 ^ 1023 ∧ - 1100 ≤ k ≤ 1100.
Proof.
  intros Hr He Hk. unfold is_floor_log in Hk. destruct (Z.leb_spec 0 (e - 1)).
  - destruct Hk as (Hk0 & Hk1 & _). rewrite (Z.max_r (- _)), (Z.max_l k) by lia.
    assert (radix ^ k ≤ 2 ^ 1023) as Hp by (etransitivity; [exact Hk1|apply Z.pow_le_mono_r; lia]).
    split_and!; [rewrite Z.pow_0_r; apply (Z.pow_le_mono_r 2 0 1074); lia|exact Hp|lia|].
    assert (2 ^ k ≤ 2 ^ 1023) as Hp2 by (etransitivity; [apply Z.pow_le_mono_l; split; [lia|exact Hr]|exact Hp]).
    apply Z.pow_le_mono_r_iff in Hp2; lia.
  - destruct Hk as (Hk0 & Hk1 & _). rewrite (Z.max_l (- _)), (Z.max_r k) by lia. replace (- (1 + k)) with (- k - 1) by lia.
    assert (radix ^ (- k - 1) ≤ 2 ^ 1074) as Hp by (etransitivity; [apply Z.lt_le_incl, Hk1|apply Z.pow_le_mono_r; lia]).
    split_and!; [exact Hp|rewrite Z.pow_0_r; apply (Z.pow_le_mono_r 2 0 1023); lia| |lia].
    assert (2 ^ (- k - 1) ≤ 2 ^ 1074) as Hp2 by (etransitivity; [apply Z.pow_le_mono_l; split; [lia|exact Hr]|exact Hp]).
    apply Z.pow_le_mono_r_iff in Hp2; lia.
Qed.

Lemma floor_log_scaled radix K e k :
  2 ≤ radix → 2000 ≤ K → - 1073 ≤ e ≤ 1024 → is_floor_log radix (e - 1) k →
  W radix K 0 k ≤ W radix K (e - 1) 0 < W radix K 0 (k + 1).
Proof.
  intros Hr HK He Hk. destruct (floor_log_bounds radix e k Hr He Hk) as (_ & _ & Hk2). unfold is_floor_log in Hk. unfold W.
  assert (0 < 2 ^ K) by (apply Z.pow_pos_nonneg; lia). assert (0 < radix ^ (k + K)) by (apply Z.pow_pos_nonneg; lia).
  destruct (Z.leb_spec 0 (e - 1)).
  - destruct Hk as (Hk0 & Hlo & Hhi). rewrite !Z.add_0_l. assert (0 < radix ^ K) by (apply Z.pow_pos_nonneg; lia).
    rewrite !Z.pow_add_r by lia. rewrite Z.pow_add_r in Hhi by lia. nia.
  - destruct Hk as (Hk0 & Hlo & Hhi). rewrite !Z.add_0_l.
    replace (2 ^ K) with (2 ^ (e - 1 + K) * 2 ^ (- (e - 1))) by (rewrite <-Z.pow_add_r by lia; f_equal; lia).
    assert (radix ^ K = radix ^ (k + K) * radix ^ (- k)) as E1 by (rewrite <-Z.pow_add_r by lia; f_equal; lia).
    assert (radix ^ K = radix ^ (k + 1 + K) * radix ^ (- k - 1)) as E2 by (rewrite <-Z.pow_add_r by lia; f_equal; lia).
    assert (0 < 2 ^ (e - 1 + K)) by (apply Z.pow_pos_nonneg; lia). assert (0 < radix ^ (k + 1 + K)) by (apply Z.pow_pos_nonneg; lia).
    split; [rewrite E1; nia|rewrite E2; nia].
Qed.

(** When a mantissa has one digit more, the one of the next exponent has not. *)
Lemma second_mantissa B R u X v v2 :
  3 ≤ B → 1 ≤ R → 0 < u → 2 * Z.abs (X * B - v * u) ≤ u → B * R ≤ v → X * B < 2 * (B * R) * u → 2 * Z.abs (X - v2 * u) ≤ u →
  R ≤ v2 < B * R.
Proof.
  intros HB HR Hu Herr Hv Hhi Herr2. assert (X < 2 * R * u) as HX by (apply (Z.mul_lt_mono_pos_r B); [lia|]; lia). split.
  - apply Z.nlt_ge. intros Hlt. assert (2 * X ≤ (2 * R - 1) * u) as H1 by nia.
    assert (2 * X * B ≤ (2 * R - 1) * u * B) as H2 by (apply Z.mul_le_mono_nonneg_r; lia).
    assert (B * R * u ≤ v * u) as H3 by (apply Z.mul_le_mono_nonneg_r; lia). nia.
  - assert (v2 * 2 * u < (4 * R + 1) * u) as H1 by lia. apply Z.mul_lt_mono_pos_r in H1; [|done]. nia.
Qed.

Section free.
Context `{BuildConfig} (radix radix1 rs d p m e k : Z).
Context (Hradix : 3 ≤ radix ≤ 36) (Hparts : radix = radix1 * 2 ^ rs) (Hrs : 0 ≤ rs ≤ 5)
  (Hr1 : 3 ≤ radix1 ≤ 35) (Hodd : Z.land radix1 (radix1 - 1) ≠ 0)
  (Hd : digits_per_limb_table !! Z.to_nat (radix1 - 2) = Some d) (Hd1 : 1 ≤ d ≤ 32).
Context (Hp : 1 ≤ p ≤ 54) (Hp53 : 2 ^ 53 < radix ^ (p - 1)) (Hp64 : 2 * radix ^ p < 2 ^ 64)
  (Hbig : 2 ^ 1023 < radix ^ (49 * d - 1)) (Hpd : p ≤ 47 * d) (Hsmall : 2 ^ 1074 < radix ^ (47 * d - p)).
Context (Hm : 2 ^ 52 ≤ m < 2 ^ 53) (He : - 1073 ≤ e ≤ 1024) (Hsub : e < - 1021 → m mod 2 ^ (- 1021 - e) = 0).
Context (Hk : is_floor_log radix (e - 1) k).

Let E0 : Z := 1 + k.
Let K : Z := 3000.
Let x : Z := m * W radix K (e - 53) 0.

Lemma E0_bounds : radix ^ Z.max (- E0) 0 ≤ 2 ^ 1074 ∧ radix ^ Z.max (E0 - 1) 0 ≤ 2 ^ 1023 ∧ - 1099 ≤ E0 ≤ 1101.
Proof using All.
  destruct (floor_log_bounds radix e k ltac:(lia) He Hk) as (H1 & H2 & H3). unfold E0. replace (1 + k - 1) with k by lia.
  split_and!; [exact H1|exact H2|lia|lia].
Qed.

(** The exponents are in the reach of the tables. *)
Lemma E0_high : E0 < 49 * d.
Proof using All.
  destruct E0_bounds as (_ & H2 & _). destruct (Z.le_gt_cases (49 * d) E0) as [Hle|]; [exfalso|done].
  rewrite Z.max_l in H2 by lia. pose proof (Z.pow_le_mono_r radix (49 * d - 1) (E0 - 1) ltac:(lia) ltac:(lia)). lia.
Qed.

Lemma E0_low : p - E0 < 47 * d ∨ 0 ≤ E0.
Proof using All.
  destruct E0_bounds as (H1 & _ & _). destruct (Z.le_gt_cases 0 E0) as [|Hn]; [by right|left].
  destruct (Z.le_gt_cases (47 * d) (p - E0)) as [Hle|]; [exfalso|done]. rewrite Z.max_l in H1 by lia.
  pose proof (Z.pow_le_mono_r radix (47 * d - p) (- E0) ltac:(lia) ltac:(lia)). lia.
Qed.

Lemma radix1_le : 0 ≤ radix1 ≤ radix.
Proof using Hparts Hrs Hr1. clear -Hparts Hrs Hr1. pose proof (Z.pow_pos_nonneg 2 rs). nia. Qed.

Lemma odd_pow f : 0 ≤ f → radix1 ^ f * 2 ^ (f * rs) = radix ^ f.
Proof using All. intros. rewrite Hparts, Z.pow_mul_l, <-Z.pow_mul_r by lia. do 2 f_equal. lia. Qed.

(** ** The scaled mantissa *)

Lemma scaling_room P E : 1 ≤ P ≤ p → E = E0 ∨ E = E0 + 1 → room 52 m (e - 53) radix1 rs (P - E).
Proof using All.
  intros HP HE. destruct E0_bounds as (Hlow & Hhigh & HE0). unfold room. destruct (Z.eqb_spec radix1 1); [lia|]. cbn [orb].
  destruct (Z.leb_spec 0 (P - E)) as [Hf|Hf].
  - change (32 * Z.of_nat 52 - 64) with 1600. rewrite Z.max_l by lia. set (f := P - E) in *.
    assert (radix ^ f ≤ radix ^ p * 2 ^ 1074) as Hrf.
    { apply Z.le_trans with (radix ^ p * radix ^ Z.max (- E0) 0); [|apply Z.mul_le_mono_nonneg_l; [apply Z.pow_nonneg|]; lia].
      rewrite <-Z.pow_add_r by lia. apply Z.pow_le_mono_r; lia. }
    assert (0 < radix1 ^ f) by (apply Z.pow_pos_nonneg; lia). pose proof (odd_pow f Hf) as Ho.
    destruct (Z.le_gt_cases 1 e) as [He1|He1].
    + assert (0 ≤ k) as Hk0 by (unfold is_floor_log in Hk; destruct (Z.leb_spec 0 (e - 1)); lia).
      assert (radix ^ f ≤ radix ^ p) as Hrf2 by (apply Z.pow_le_mono_r; lia).
      apply Z.le_lt_trans with (m * (radix ^ f * 2 ^ 971)).
      * rewrite <-Z.mul_assoc. apply Z.mul_le_mono_nonneg_l; [lia|]. rewrite <-Ho, <-Z.mul_assoc. apply Z.mul_le_mono_nonneg_l; [lia|].
        rewrite <-Z.pow_add_r by nia. apply Z.pow_le_mono_r; nia.
      * apply Z.le_lt_trans with (m * (2 ^ 64 * 2 ^ 971)); [|rewrite <-Z.pow_add_r by lia; apply Z.lt_trans with (2 ^ 53 * 2 ^ (64 + 971)); [lia|rewrite <-Z.pow_add_r by lia; apply Z.pow_lt_mono_r; lia]].
        apply Z.mul_le_mono_nonneg_l; [lia|]. apply Z.mul_le_mono_nonneg_r; lia.
    + apply Z.le_lt_trans with (m * radix ^ f).
      * rewrite <-Z.mul_assoc. apply Z.mul_le_mono_nonneg_l; [lia|]. rewrite <-Ho. apply Z.mul_le_mono_nonneg_l; [lia|].
        apply Z.pow_le_mono_r; nia.
      * apply Z.le_lt_trans with (m * (2 ^ 64 * 2 ^ 1074)); [|rewrite <-Z.pow_add_r by lia; apply Z.lt_trans with (2 ^ 53 * 2 ^ (64 + 1074)); [lia|rewrite <-Z.pow_add_r by lia; apply Z.pow_lt_mono_r; lia]].
        apply Z.mul_le_mono_nonneg_l; [lia|]. etransitivity; [exact Hrf|]. apply Z.mul_le_mono_nonneg_r; lia.
  - exists d. split; [exact Hd|]. pose proof E0_high. split; [|nia].
    apply Z.lt_succ_r, Z.div_lt_upper_bound; lia.
Qed.

Lemma mantissa_run P E t :
  1 ≤ P ≤ p → E = E0 ∨ E = E0 + 1 → length (tab t) = 52%nat →
  ∃ l post, mul_pow_round m (e - 53) radix1 rs (P - E) JS_RNDN t = (Ok tt, mk l post) ∧
    limbs_ok l ∧ l ≠ [] ∧ trimmed l ∧ (length l + length post = 52)%nat ∧
    2 * Z.abs (m * W radix K (e - 53) (P - E) - val l * W radix K 0 0) ≤ W radix K 0 0.
Proof using All.
  intros HP HE Ht. destruct t as [len0 tab0]. cbn [tab] in Ht. destruct tab0 as [|x0 [|y0 post0]]; [done..|]. cbn [length] in Ht.
  assert (length post0 = 50)%nat as Hl0 by lia. pose proof (scaling_room P E HP HE) as Hroom. destruct E0_bounds as (_ & _ & HE0).
  destruct (mul_pow_round_run m (e - 53) radix1 rs (P - E) JS_RNDN x0 y0 post0 len0) as (l & post & Erun & Hl & Hne & Htr & Hlen & Hq);
    [lia|right; split; [lia|done]|lia|lia|by rewrite Hl0|].
  exists l, post. split_and!; [done..|lia|]. rewrite <-Hparts in Hq.
  apply (rounds_scaled radix K) in Hq; [|lia|unfold K; lia|unfold K; lia|unfold K; lia]. by destruct Hq.
Qed.

(** The error on the number itself. *)
Lemma error_scaled f v :
  - 2000 ≤ f ≤ 2000 → 2 * Z.abs (m * W radix K (e - 53) f - v * W radix K 0 0) ≤ W radix K 0 0 →
  2 * Z.abs (x - v * W radix K 0 (- f)) ≤ W radix K 0 (- f).
Proof using All.
  intros Hf. unfold x.
  assert (∀ u w c, 0 < c → 2 * Z.abs (m * (u * c) - v * (w * c)) ≤ w * c ↔ 2 * Z.abs (m * u - v * w) ≤ w) as Hscale.
  { intros u w c Hc. replace (m * (u * c) - v * (w * c)) with ((m * u - v * w) * c) by ring.
    rewrite Z.abs_mul, (Z.abs_eq c) by lia. split; nia. }
  destruct (Z.le_gt_cases 0 f) as [H0|H0].
  - pose proof (W_radix radix K (e - 53) 0 f H0 ltac:(unfold K; lia)) as E1. pose proof (W_radix radix K 0 (- f) f H0 ltac:(unfold K; lia)) as E2.
    rewrite Z.add_0_l in E1. replace (- f + f) with 0 in E2 by lia. rewrite E1, E2. apply Hscale, Z.pow_pos_nonneg; lia.
  - pose proof (W_radix radix K (e - 53) f (- f) ltac:(lia) ltac:(unfold K; lia)) as E1. pose proof (W_radix radix K 0 0 (- f) ltac:(lia) ltac:(unfold K; lia)) as E2.
    rewrite Z.add_0_l in E2. replace (f + - f) with 0 in E1 by lia. rewrite E1, E2. apply Hscale, Z.pow_pos_nonneg; lia.
Qed.

(** ** The mantissa of [P] digits *)

(** What [P] digits give at the first exponent. *)
Lemma first_size P : 1 ≤ P ≤ p →
  radix ^ (P - 1) * W radix K 0 0 ≤ m * W radix K (e - 53) (P - E0) < 2 * radix ^ P * W radix K 0 0.
Proof using All.
  intros HP. destruct E0_bounds as (_ & _ & HE0). destruct (floor_log_scaled radix K e k) as [Hlo Hhi]; [lia|unfold K; lia|done|done|].
  set (f := P - E0). assert (- K ≤ f ∧ - K ≤ k + f ∧ - K ≤ 1 + k + f) as (? & ? & ?) by (unfold f, K; lia). assert (- K ≤ 0 ∧ - K ≤ k) as [? ?] by (unfold K; lia).
  apply (W_shift radix K ltac:(lia) 0 k (e - 1) 0 f) in Hlo; [|lia..].
  assert (W radix K (e - 1) f < W radix K 0 (k + 1 + f)) as Hhi'.
  { apply Z.lt_nge. intros Hle. pose proof (proj2 (W_shift radix K ltac:(lia) 0 (k + 1) (e - 1) 0 f ltac:(lia) ltac:(lia) ltac:(lia) ltac:(lia)) Hle). lia. }
  rewrite Z.add_0_l in Hlo. replace (k + f) with (0 + (P - 1)) in Hlo by (unfold f, E0; lia). replace (k + 1 + f) with (0 + P) in Hhi' by (unfold f, E0; lia).
  rewrite W_radix in Hlo, Hhi' by (unfold K; lia).
  pose proof (W_two radix K (e - 53) f 52 ltac:(lia) ltac:(unfold K; lia)) as E1. replace (e - 53 + 52) with (e - 1) in E1 by lia. rewrite E1 in Hlo, Hhi'.
  pose proof (W_pos radix K ltac:(lia) (e - 53) f ltac:(unfold K; lia) ltac:(lia)). split; nia.
Qed.

Lemma mpb_get_u64_tmp l post s :
  limbs_ok l → l ≠ [] → trimmed l → val l < 2 ^ 64 →
  on_tmp1 mpb_get_u64 {| out := out s; tmp1 := mk l post; mant_max := mant_max s |}
  = (Ok (val l), {| out := out s; tmp1 := mk l post; mant_max := mant_max s |}).
Proof using Type. intros. unfold on_tmp1. by erewrite (zoom_run (H := tmp1_lens)) by by apply mpb_get_u64_run. Qed.

(** Either a mantissa of [P] digits is found with the exponent [E], or it is one more. *)
Lemma free_mantissa_run P s :
  1 ≤ P ≤ p → length (tab (tmp1 s)) = 52%nat →
  ∃ mant E t, free_mantissa m e radix radix1 rs P (radix ^ P) E0 s
      = (Ok (mant, E), {| out := out s; tmp1 := t; mant_max := mant_max s |}) ∧ length (tab t) = 52%nat ∧
    (E = E0 ∨ E = E0 + 1) ∧ radix ^ (P - 1) ≤ mant < radix ^ P ∧
    2 * Z.abs (x - mant * W radix K 0 (E - P)) ≤ W radix K 0 (E - P).
Proof using All.
  intros HP Hs. destruct E0_bounds as (_ & _ & HE0). pose proof (first_size P HP) as [Hlo Hhi].
  assert (radix ^ P = radix * radix ^ (P - 1)) as EP by (rewrite <-Z.pow_succ_r by lia; f_equal; lia).
  assert (1 ≤ radix ^ (P - 1)) as HR1 by (pose proof (Z.pow_pos_nonneg radix (P - 1)); lia).
  assert (radix ^ P ≤ radix ^ p) as HPp by (apply Z.pow_le_mono_r; lia).
  pose proof (W_pos radix K ltac:(lia) 0 0 ltac:(unfold K; lia) ltac:(unfold K; lia)) as Hu.
  destruct (mantissa_run P E0 (tmp1 s)) as (l & post & E1 & Hl & Hne & Htr & Hlen & Herr); [done|by left|done|].
  assert (radix ^ (P - 1) ≤ val l ≤ 2 * radix ^ P) as Hv by nia.
  unfold free_mantissa. cbn [loop]. rewrite bind_bind.
  erewrite bind_run by (unfold on_tmp1; erewrite (zoom_run (H := tmp1_lens)) by exact E1; reflexivity).
  rewrite bind_bind. erewrite bind_run by (apply mpb_get_u64_tmp; [done..|lia]). rewrite bind_ret.
  destruct (Z.ltb_spec (val l) (radix ^ P)) as [Hlt|Hge].
  { exists (val l), E0, (mk l post). split_and!; [done|cbn; rewrite length_app; lia|by left|lia|lia|].
    replace (E0 - P) with (- (P - E0)) by lia. apply error_scaled; [lia|done]. }
  destruct (mantissa_run P (E0 + 1) (mk l post)) as (l2 & post2 & E2 & Hl2 & Hne2 & Htr2 & Hlen2 & Herr2);
    [done|by right|cbn; rewrite length_app; lia|].
  pose proof (W_radix radix K (e - 53) (P - (E0 + 1)) 1 ltac:(lia) ltac:(unfold K; lia)) as EW.
  replace (P - (E0 + 1) + 1) with (P - E0) in EW by lia. rewrite Z.pow_1_r in EW. rewrite EW in *.
  set (X := m * W radix K (e - 53) (P - (E0 + 1))) in *. replace (m * (W radix K (e - 53) (P - (E0 + 1)) * radix)) with (X * radix) in * by (unfold X; ring).
  assert (radix ^ (P - 1) ≤ val l2 < radix ^ P) as Hv2 by (rewrite EP; apply (second_mantissa radix (radix ^ (P - 1)) (W radix K 0 0) X (val l)); rewrite <-?EP; lia).
  rewrite bind_bind. erewrite bind_run by (unfold on_tmp1; erewrite (zoom_run (H := tmp1_lens)) by exact E2; reflexivity).
  rewrite bind_bind. erewrite bind_run by (apply (mpb_get_u64_tmp l2 post2 s); [done..|lia]). rewrite bind_ret.
  destruct (Z.ltb_spec (val l2) (radix ^ P)); [|lia].
  exists (val l2), (E0 + 1), (mk l2 post2). split_and!; [done|cbn; rewrite length_app; lia|by right|lia|lia|].
  replace (E0 + 1 - P) with (- (P - (E0 + 1))) by lia. apply error_scaled; [lia|done].
Qed.

(** ** The tries *)

(** [mant * radix^(E - P)] has [P] digits and rounds to the number. *)
Definition numeral_of (P E mant : Z) : Prop :=
  1 ≤ P ≤ p ∧ (E = E0 ∨ E = E0 + 1) ∧ radix ^ (P - 1) ≤ mant < radix ^ P ∧
  nearest_bits (num mant 0 radix (E - P)) (den 0 radix (E - P)) (pack m e).

Lemma strip_run {S} fuel mant P (s : S) :
  1 ≤ P → (Z.to_nat P ≤ fuel)%nat → radix ^ (P - 1) ≤ mant < radix ^ P →
  ∃ mant' P', loop fuel (λ '(mant, P), if mant mod radix =? 0 then ret (inl (mant / radix, P - 1)) else ret (inr (mant, P))) (mant, P) s
      = (Ok (mant', P'), s) ∧ 1 ≤ P' ≤ P ∧ radix ^ (P' - 1) ≤ mant' < radix ^ P' ∧ mant = mant' * radix ^ (P - P').
Proof using Hradix.
  clear -Hradix. revert mant P. induction fuel as [|fuel IH]; intros mant P HP Hfuel Hm'; [lia|]. cbn [loop].
  destruct (Z.eqb_spec (mant mod radix) 0) as [E|E].
  - rewrite bind_ret. pose proof (Z.div_mod mant radix ltac:(lia)) as Ed. rewrite E, Z.add_0_r in Ed.
    assert (P ≠ 1) as HP1 by (intros ->; rewrite Z.sub_diag, Z.pow_0_r, Z.pow_1_r in Hm'; rewrite Z.mod_small in E; lia).
    assert (radix ^ (P - 1) = radix * radix ^ (P - 1 - 1)) as E1 by (rewrite <-Z.pow_succ_r by lia; f_equal; lia).
    assert (radix ^ P = radix * radix ^ (P - 1)) as E2 by (rewrite <-Z.pow_succ_r by lia; f_equal; lia).
    destruct (IH (mant / radix) (P - 1)) as (mant' & P' & Erun & HP' & Hm2 & Em); [lia|lia|nia|].
    exists mant', P'. split_and!; [done|lia|lia|lia|lia|]. rewrite Ed, Em. replace (P - P') with (Z.succ (P - 1 - P')) by lia.
    rewrite Z.pow_succ_r by lia. ring.
  - rewrite bind_ret. exists mant, P. split_and!; [done|lia|lia|lia|lia|]. rewrite Z.sub_diag, Z.pow_0_r. lia.
Qed.

(** The sizes of what a try reads back. *)
Lemma numeral_size P E mant :
  1 ≤ P ≤ p → E = E0 ∨ E = E0 + 1 → radix ^ (P - 1) ≤ mant < radix ^ P →
  den 0 radix (E - P) ≤ num mant 0 radix (E - P) * 2 ^ 1081 ∧ num mant 0 radix (E - P) < 2 ^ 1100 * den 0 radix (E - P) ∧
  0 < num mant 0 radix (E - P).
Proof using All.
  intros HP HE Hmant. destruct E0_bounds as (Hlow & Hhigh & HE0).
  assert (radix ^ (1 + Z.max (- E0) 0) ≤ 2 ^ 1081) as Ha.
  { rewrite Z.pow_add_r, Z.pow_1_r by lia. apply Z.le_trans with (36 * 2 ^ 1074); [apply Z.mul_le_mono_nonneg; [lia|lia|apply Z.pow_nonneg; lia|done]|].
    vm_compute. discriminate. }
  assert (radix ^ (2 + Z.max (E0 - 1) 0) ≤ 2 ^ 1100) as Hb.
  { rewrite Z.pow_add_r by lia. apply Z.le_trans with (36 ^ 2 * 2 ^ 1023); [|vm_compute; discriminate].
    apply Z.mul_le_mono_nonneg; [apply Z.pow_nonneg; lia|apply Z.pow_le_mono_l; lia|apply Z.pow_nonneg; lia|done]. }
  destruct (size_normal radix mant P (E - P) ltac:(lia) Hmant ltac:(lia) (1 + Z.max (- E0) 0) (2 + Z.max (E0 - 1) 0)) as [H1 H2];
    [lia|lia|exact Ha|lia|lia|exact Hb|]. split_and!; [exact H1|exact H2|]. apply (num_pos radix mant P (E - P)); lia.
Qed.

(** The array is long enough to read the numeral back. *)
Lemma numeral_room P E mant (l : list Z) :
  1 ≤ P ≤ p → E = E0 ∨ E = E0 + 1 → 0 ≤ mant < 2 ^ 64 → (length l ≤ 2)%nat → room_d 52 mant (length l) radix1 (E - P).
Proof using All.
  intros HP HE Hmant Hl. destruct E0_bounds as (_ & Hhigh & HE0). unfold room_d. destruct (Z.eqb_spec radix1 1); [lia|]. cbn [orb].
  destruct (Z.leb_spec 0 (E - P)) as [Hf|Hf].
  - change (32 * (Z.of_nat 52 - 4)) with 1536. rewrite Z.max_l by lia.
    assert (radix1 ^ (E - P) ≤ 36 * 2 ^ 1023) as Hpow.
    { apply Z.le_trans with (radix ^ (1 + Z.max (E0 - 1) 0)).
      - apply Z.le_trans with (radix ^ (E - P)); [|apply Z.pow_le_mono_r; lia]. apply Z.pow_le_mono_l, radix1_le.
      - rewrite Z.pow_add_r, Z.pow_1_r by lia. apply Z.mul_le_mono_nonneg; [lia|lia|apply Z.pow_nonneg; lia|done]. }
    apply Z.le_lt_trans with (2 ^ 64 * (36 * 2 ^ 1023)); [|vm_compute; reflexivity].
    apply Z.mul_le_mono_nonneg; [lia|lia|apply Z.pow_nonneg; lia|done].
  - exists d. split; [exact Hd|]. assert ((- (E - P) + d - 1) / d ≤ 47); [|lia].
    apply Z.lt_succ_r, Z.div_lt_upper_bound; [lia|]. destruct E0_low; lia.
Qed.

(** The most digits are enough. *)
Lemma most_digits E mant mant' P' :
  (E = E0 ∨ E = E0 + 1) → radix ^ (p - 1) ≤ mant → 2 * Z.abs (x - mant * W radix K 0 (E - p)) ≤ W radix K 0 (E - p) →
  1 ≤ P' ≤ p → radix ^ (P' - 1) ≤ mant' < radix ^ P' → mant = mant' * radix ^ (p - P') → numeral_of P' E mant'.
Proof using All.
  intros HE Hmant Herr HP' Hmant' Em. destruct E0_bounds as (_ & _ & HE0). split; [exact HP'|]. split; [exact HE|]. split; [exact Hmant'|].
  assert (mant' * W radix K 0 (E - P') = mant * W radix K 0 (E - p)) as EY.
  { replace (E - P') with (E - p + (p - P')) by lia. rewrite W_radix by (unfold K; lia). rewrite Em. ring. }
  pose proof (W_pos radix K ltac:(lia) 0 (E - p) ltac:(unfold K; lia) ltac:(unfold K; lia)) as Hw. set (w := W radix K 0 (E - p)) in *.
  apply (reads_back radix K ltac:(lia) ltac:(unfold K; lia) _ _ (mant * w) w); try assumption.
  - fold x. assert ((2 ^ 53 + 1) * w ≤ mant * w) as H1 by (apply Z.mul_le_mono_nonneg_r; lia). lia.
  - apply den_pos. lia.
  - rewrite <-EY. apply num_scaled; unfold K; lia.
Qed.

(** A try after the first one, with the numeral it makes read back. *)
Lemma try_run P E mant s :
  1 ≤ P ≤ p → (E = E0 ∨ E = E0 + 1) → radix ^ (P - 1) ≤ mant < radix ^ P → length (tab (tmp1 s)) = 52%nat →
  ∃ good t, (on_tmp1 (mpb_set_u64 mant);;
      '(m1, e1) ← on_tmp1 (mul_pow_round_to_d radix1 rs (E - P) JS_RNDN);
      ret ((m1 =? m) && (e1 =? e))) s = (Ok good, {| out := out s; tmp1 := t; mant_max := mant_max s |}) ∧
    length (tab t) = 52%nat ∧ (good = true → numeral_of P E mant).
Proof using All.
  intros HP HE Hmant Hs. destruct E0_bounds as (_ & _ & HE0). assert (radix ^ P ≤ radix ^ p) as HPp by (apply Z.pow_le_mono_r; lia).
  pose proof (Z.pow_pos_nonneg radix (P - 1) ltac:(lia) ltac:(lia)) as Hpos.
  destruct (tmp1 s) as [len0 tab0] eqn:Es. cbn [tab] in Hs. destruct tab0 as [|x0 [|y0 post0]]; [done..|]. cbn [length] in Hs.
  destruct (mpb_set_u64_run mant x0 y0 post0 len0) as (l & post & E1 & Hl & Hne & Htr & Hv & Hlen & _); [unfold fits; lia|].
  erewrite bind_run by (unfold on_tmp1; erewrite (zoom_run (H := tmp1_lens)) by (cbn; rewrite Es; exact E1); reflexivity).
  destruct (numeral_size P E mant HP HE Hmant) as (Hs1 & Hs2 & Hs3).
  assert (length l ≤ 2)%nat as Hl2 by (apply trimmed_length; [done..|lia|change (32 * Z.of_nat 2) with 64; lia]).
  destruct (mul_pow_round_to_d_run radix1 rs (E - P) JS_RNDN l post) as (me & l2 & post2 & E2 & _ & _ & _ & Hlen2 & Hme);
    [right; split; [lia|done]|done|lia|done|done|done|lia|lia| |rewrite <-Hparts, Hv; exact Hs1|].
  { rewrite Hv. replace (length l + length post)%nat with 52%nat by lia. apply numeral_room; [done|done|lia|done]. }
  erewrite bind_run by (unfold on_tmp1; erewrite (zoom_run (H := tmp1_lens)) by exact E2; reflexivity).
  destruct me as [m1 e1]. cbv beta iota. eexists _, (mk l2 post2). split; [reflexivity|]. split; [cbn; rewrite length_app; lia|].
  rewrite andb_true_iff, !Z.eqb_eq. intros [-> ->]. split; [exact HP|]. split; [exact HE|]. split; [exact Hmant|].
  rewrite <-Hparts, Hv in Hme. apply (rounds_to_d_nearest _ _ (m, e)); [exact Hs3|apply den_pos; lia|exact Hs2|exact Hme].
Qed.

(** One try: what it finds has fewer digits, or the last thing found is kept. *)
Lemma free_turn_run P found s :
  1 ≤ P ≤ p → (found = (0, 0, 0) ∧ P = p ∨ ∃ P0 E1 mant1, found = (P0, E1, mant1) ∧ numeral_of P0 E1 mant1 ∧ P < P0) →
  length (tab (tmp1 s)) = 52%nat →
  ∃ r t, free_turn m e radix radix1 rs E0 (P, found) s = (Ok r, {| out := out s; tmp1 := t; mant_max := mant_max s |}) ∧
    length (tab t) = 52%nat ∧
    match r with
    | inl (P', found') => ∃ P0 E1 mant1, found' = (P0, E1, mant1) ∧ numeral_of P0 E1 mant1 ∧ 1 ≤ P' < P0 ∧ P' < P
    | inr found' => ∃ P0 E1 mant1, found' = (P0, E1, mant1) ∧ numeral_of P0 E1 mant1
    end.
Proof using All.
  intros HP Hfound Hs. unfold free_turn. assert (radix ^ P ≤ radix ^ p) as HPp by (apply Z.pow_le_mono_r; lia).
  pose proof (Z.pow_pos_nonneg radix P ltac:(lia) ltac:(lia)) as HPpos.
  erewrite bind_run by (apply pow_ui_run; unfold fits; lia). rewrite Z.mod_small by lia.
  destruct (free_mantissa_run P s HP Hs) as (mant & E & t & Erun & Ht & HE & Hmant & Herr). erewrite bind_run by exact Erun. cbv beta iota.
  destruct (strip_run 65 mant P {| out := out s; tmp1 := t; mant_max := mant_max s |}) as (mant' & P' & Estrip & HP' & Hmant' & Em); [lia|lia|done|].
  unfold strip_zero_digits. erewrite bind_run by exact Estrip. cbv beta iota.
  destruct Hfound as [[-> ->]|(P0 & E1 & mant1 & -> & Hfound & HP0)].
  - cbn [fst Z.eqb]. rewrite bind_ret. pose proof (most_digits E mant mant' P' HE ltac:(lia) Herr HP' Hmant' Em) as Hnum.
    eexists _, t. split; [reflexivity|]. split; [done|]. destruct (Z.eqb_spec P' 1); exists P', E, mant'; split_and!; done || lia.
  - cbn [fst]. assert (1 ≤ P0) by (by destruct Hfound as [? _]; lia). destruct (Z.eqb_spec P0 0); [lia|].
    destruct (try_run P' E mant' {| out := out s; tmp1 := t; mant_max := mant_max s |}) as (good & t2 & Etry & Ht2 & Hgood); [lia|done..|].
    erewrite bind_run by exact Etry. eexists _, t2. split; [reflexivity|]. split; [done|]. destruct good; [|by exists P0, E1, mant1].
    destruct (Z.eqb_spec P' 1); exists P', E, mant'; split_and!; try done; try lia; by apply Hgood.
Qed.

(** The loop ends, on the numeral of the number. *)
Lemma free_format_run s :
  dtoa_max_digits_table !! Z.to_nat (radix - 2) = Some p → length (tab (tmp1 s)) = 52%nat →
  ∃ P E mant l post, free_format m e radix radix1 rs E0 s = (Ok (P, E), {| out := out s; tmp1 := mk l post; mant_max := mant_max s |}) ∧
    numeral_of P E mant ∧ limbs_ok l ∧ l ≠ [] ∧ trimmed l ∧ val l = mant ∧ (length l + length post = 52)%nat.
Proof using All.
  intros Htab Hs. unfold free_format. erewrite bind_run by (apply rd_run; [lia|exact Htab]).
  assert (∀ fuel P found s0, 1 ≤ P ≤ p → (Z.to_nat P ≤ fuel)%nat →
    (found = (0, 0, 0) ∧ P = p ∨ ∃ P0 E1 mant1, found = (P0, E1, mant1) ∧ numeral_of P0 E1 mant1 ∧ P < P0) → length (tab (tmp1 s0)) = 52%nat →
    ∃ P0 E1 mant1 t, loop fuel (free_turn m e radix radix1 rs E0) (P, found) s0
      = (Ok (P0, E1, mant1), {| out := out s0; tmp1 := t; mant_max := mant_max s0 |}) ∧ numeral_of P0 E1 mant1 ∧ length (tab t) = 52%nat) as Hloop.
  { induction fuel as [|fuel IH]; intros P found s0 HP Hfuel Hfound Hs0; [lia|]. cbn [loop].
    destruct (free_turn_run P found s0 HP Hfound Hs0) as (r & t & E & Ht & Hr). erewrite bind_run by exact E.
    destruct r as [[P' found']|found'].
    - destruct Hr as (P0 & E1 & mant1 & -> & Hnum & HP' & HPP).
      apply (IH P' (P0, E1, mant1) {| out := out s0; tmp1 := t; mant_max := mant_max s0 |}); [lia|lia| |done].
      right. exists P0, E1, mant1. split_and!; [done|done|lia].
    - destruct Hr as (P0 & E1 & mant1 & -> & Hnum). by exists P0, E1, mant1, t. }
  destruct (Hloop 55%nat p (0, 0, 0) s) as (P & E & mant & t & E1 & Hnum & Ht); [lia|lia|by left|done|].
  erewrite bind_run by exact E1. cbv beta iota. destruct t as [len0 tab0]. cbn [tab] in Ht. destruct tab0 as [|x0 [|y0 post0]]; [done..|].
  cbn [length] in Ht. destruct Hnum as (HP & HE & Hmant & Hn). assert (radix ^ P ≤ radix ^ p) by (apply Z.pow_le_mono_r; lia).
  pose proof (Z.pow_pos_nonneg radix (P - 1) ltac:(lia) ltac:(lia)) as Hpos.
  destruct (mpb_set_u64_run mant x0 y0 post0 len0) as (l & post & E2 & Hl & Hne & Htr & Hv & Hlen & _); [unfold fits; lia|].
  exists P, E, mant, l, post. split_and!; try done; [|lia].
  by erewrite bind_run by (unfold on_tmp1; erewrite (zoom_run (H := tmp1_lens)) by exact E2; reflexivity).
Qed.
End free.
