(* ===== verification/DtoaText.v ===== *)
(** * Doubles and their texts: lemmas

    What [js_dtoa] writes in its buffer for a double, and what [js_atod] reads back. *)
From S2P Require Import Prelude CStd Words CUtils BigIntMp BigIntMpFacts BigIntDiv BigInt BigIntFacts BigIntOps.
From S2P Require Import BigIntDivRem Digits DigitsFacts BigIntToText DtoaMp DtoaMpFacts Dtoa Atod.
From S2P Require Import DtoaRoundFacts AtodFacts DtoaFree.

(** * The text of a number: lemmas

    What [output_digits] and [output_number] write in the buffer: the digits of a
    number of [tmp1], with a point among them, zeros around them and an exponent
    after them. *)

(** ** The parts of the state *)

Definition mem (o : list Z) (t mm : mpb_t) : dtoa_mem := {| out := o; tmp1 := t; mant_max := mm |}.

Lemma on_out_run {A} (m : M (list Z) A) a o b t mm : m o = (Ok a, b) → on_out m (mem o t mm) = (Ok a, mem b t mm).
Proof. intros E. exact (zoom_run (H := out_lens) m a (mem o t mm) b E). Qed.

Lemma on_tmp1_run {A} (m : M mpb_t A) a o t t' mm : m t = (Ok a, t') → on_tmp1 m (mem o t mm) = (Ok a, mem o t' mm).
Proof. intros E. exact (zoom_run (H := tmp1_lens) m a (mem o t mm) t' E). Qed.

(** ** The digits *)

Lemma low_limb_mod l t k : limbs_ok l → l !! 0%nat = Some t → 0 ≤ k ≤ 32 → t mod 2 ^ k = val l mod 2 ^ k.
Proof.
  intros Hl Ht Hk. destruct l as [|t' l]; [done|]. injection Ht as ->. cbn [val].
  assert (B = 2 ^ k * 2 ^ (32 - k)) as -> by (unfold B; rewrite <-Z.pow_add_r by lia; f_equal; lia).
  replace (t + 2 ^ k * 2 ^ (32 - k) * val l) with (t + 2 ^ (32 - k) * val l * 2 ^ k) by ring. symmetry. apply Z.mod_add.
  apply Z.pow_nonzero; lia.
Qed.

Section digits.
Context `{BuildConfig} (radix dpl : Z) (pre : list Z) (mm : mpb_t).
Context (Hradix : 2 ≤ radix ≤ 36) (Hdpl : 1 ≤ dpl).

(** What a turn does to the last of [j] digits. *)
Definition turns (m : M dtoa_mem (Z + unit)) (done : Z → Z + unit) (j : nat) (l post win tail : list Z) : Prop :=
  let n := Nat.min j (Z.to_nat dpl) in
  ∃ ds l' post', m (mem (pre ++ win ++ tail) (mk l post) mm)
      = (Ok (done (Z.of_nat (j - n))), mem (pre ++ take (j - n) win ++ (digit_char <$> ds) ++ tail) (mk l' post') mm) ∧
    Forall (in_radix radix) ds ∧ length ds = n ∧ limbs_ok l' ∧ l' ≠ [] ∧ trimmed l' ∧
    (length l' + length post' = length l + length post)%nat ∧
    (j ≠ n → val l = val l' * radix ^ Z.of_nat n + value radix ds ∧ val l' < radix ^ Z.of_nat (j - n)) ∧
    (j = n → val l = value radix ds).

Lemma min_int_nat j : min_int (Z.of_nat j) dpl = Z.of_nat (Nat.min j (Z.to_nat dpl)).
Proof using Hdpl. clear -Hdpl. unfold min_int. destruct (Z.ltb_spec (Z.of_nat j) dpl); lia. Qed.

(** The quotient and the digits of the remainder. *)
Lemma split_digits j v q r n :
  n = Nat.min j (Z.to_nat dpl) → 0 ≤ v < radix ^ Z.of_nat j → 0 ≤ r < radix ^ dpl → v = q * radix ^ dpl + r →
  v = q * radix ^ Z.of_nat n + r mod radix ^ Z.of_nat n ∧ q < radix ^ Z.of_nat (j - n).
Proof using Hradix Hdpl.
  clear -Hradix Hdpl. intros Hn Hv Hr Ev. assert (0 < radix ^ dpl) by (apply Z.pow_pos_nonneg; lia).
  destruct (le_lt_dec j (Z.to_nat dpl)) as [Hle|Hlt].
  - assert (n = j) as -> by lia. rewrite Nat.sub_diag, Z.pow_0_r.
    assert (radix ^ Z.of_nat j ≤ radix ^ dpl) by (apply Z.pow_le_mono_r; lia). assert (q = 0) as -> by nia.
    rewrite Z.mod_small by lia. lia.
  - assert (Z.of_nat n = dpl) as -> by lia. rewrite Z.mod_small by lia. split; [done|].
    assert (radix ^ Z.of_nat j = radix ^ Z.of_nat (j - n) * radix ^ dpl) as Ej by (rewrite <-Z.pow_add_r by lia; f_equal; lia). nia.
Qed.

Lemma limb_turn_run base j l post win tail :
  Z.land radix (radix - 1) ≠ 0 → radix_base_table !! Z.to_nat (radix - 2) = Some base → base = radix ^ dpl → base < B →
  (1 ≤ j)%nat → limbs_ok l → l ≠ [] → val l < radix ^ Z.of_nat j → length win = j →
  turns (limb_digits_turn (Z.of_nat (length pre)) radix dpl (Z.of_nat j)) inl j l post win tail.
Proof using Hradix Hdpl.
  intros Hnp Hbase -> HB Hj Hl Hne Hv Hwin. unfold turns. set (n := Nat.min j (Z.to_nat dpl)). unfold limb_digits_turn.
  destruct (Z.eqb_spec (Z.of_nat j) 0); [lia|]. rewrite min_int_nat. fold n.
  erewrite bind_run by (apply rd_run; [lia|exact Hbase]). erewrite bind_run by (apply on_tmp1_run, get_len_run).
  erewrite bind_run by (apply on_tmp1_run, tab_read, limbs_all_run).
  assert (0 < radix ^ dpl) by (apply Z.pow_pos_nonneg; lia).
  destruct (js_mp_div1_spec l (radix ^ dpl) 0) as (res & r & E & Hres & Hlr & Hr & Ev); [done|lia|done|].
  assert (mp_div1 l (radix ^ dpl) 0 (mem (pre ++ win ++ tail) (mk l post) mm) = (Ok (res, r), mem (pre ++ win ++ tail) (mk l post) mm)) as E1.
  { unfold mp_div1. destruct (Z.eqb_spec (radix ^ dpl) 0); [lia|]. by rewrite E. }
  erewrite bind_run by exact E1. cbv beta iota. erewrite bind_run by (apply on_tmp1_run, set_all_run; done).
  assert (res ≠ []) as Hrne by (by destruct res, l).
  destruct (mpb_renorm_run res post Hrne) as (l2 & zs & E2 & El & Ev2 & Hne2 & Ht2). erewrite bind_run by (apply on_tmp1_run, E2).
  destruct (split_digits j (val l) (val res) r n) as [Es Hq]; [done|split; [by apply val_range|done]|done|lia|].
  assert (pre ++ win ++ tail = (pre ++ take (j - n) win) ++ drop (j - n) win ++ tail) as -> by by rewrite <-app_assoc, (app_assoc (take _ _)), take_drop.
  assert (Z.of_nat (length pre) + (Z.of_nat j - Z.of_nat n) = Z.of_nat (length (pre ++ take (j - n) win))) as ->
    by (rewrite length_app, length_take; lia).
  destruct (limb_to_a_run r radix n (pre ++ take (j - n) win) (drop (j - n) win) tail) as (ds & E3 & Hds & Hlds & Evds);
    [lia|lia|rewrite length_drop; lia|].
  rewrite Nat2Z.id. erewrite bind_run by (apply on_out_run, E3). exists ds, l2, (zs ++ post). rewrite <-!app_assoc.
  split_and!; try done; [unfold ret; do 3 f_equal; lia|by rewrite El in Hres; apply Forall_app in Hres as []| | |].
  - rewrite El in Hlr. rewrite length_app in *. lia.
  - intros _. rewrite Ev2, Evds. done.
  - intros En. rewrite Evds. replace (j - n)%nat with 0%nat in Hq by lia. rewrite Z.pow_0_r in Hq.
    pose proof (val_range res Hres). replace (val res) with 0 in Es by lia. lia.
Qed.

Lemma bin_turn_run b j l post win tail :
  radix = 2 ^ b → 1 ≤ b ≤ 5 → dpl * b ≤ 32 →
  (1 ≤ j)%nat → limbs_ok l → l ≠ [] → trimmed l → val l < radix ^ Z.of_nat j → length win = j →
  turns (bin_digits_turn (Z.of_nat (length pre)) b dpl (Z.of_nat j)) (λ n, if n =? 0 then inr tt else inl n) j l post win tail.
Proof using Hradix Hdpl.
  intros Eb Hb Hdb Hj Hl Hne Ht Hv Hwin. unfold turns. set (n := Nat.min j (Z.to_nat dpl)). unfold bin_digits_turn.
  rewrite min_int_nat. fold n.
  destruct (lookup_lt_is_Some_2 l 0) as [t Ht0]; [destruct l; [done|cbn; lia]|].
  erewrite bind_run by (by apply on_tmp1_run, (limb_of_run l post 0)).
  assert (pre ++ win ++ tail = (pre ++ take (j - n) win) ++ drop (j - n) win ++ tail) as -> by by rewrite <-app_assoc, (app_assoc (take _ _)), take_drop.
  assert (Z.of_nat (length pre) + (Z.of_nat j - Z.of_nat n) = Z.of_nat (length (pre ++ take (j - n) win))) as ->
    by (rewrite length_app, length_take; lia).
  assert (fits 32 t) as Hft by (by eapply Forall_lookup_1 in Ht0; [|exact Hl]). unfold fits in Hft.
  destruct (radix_len_run radix t n (pre ++ take (j - n) win) (drop (j - n) win) tail) as (ds & E & Hds & Hlds & Evds);
    [lia|lia|rewrite length_drop; lia|].
  assert (u64toa_bin_len (Z.of_nat (length (pre ++ take (j - n) win))) t b n ((pre ++ take (j - n) win) ++ drop (j - n) win ++ tail)
    = (Ok tt, (pre ++ take (j - n) win) ++ (digit_char <$> ds) ++ tail)) as E1.
  { unfold u64toa_bin_len. assert (u32 (Z.shiftl 1 b - 1) = 2 ^ b - 1) as ->.
    { rewrite Z.shiftl_1_l. apply wrap_id. unfold fits. pose proof (Z.pow_le_mono_r 2 b 5 ltac:(lia) ltac:(lia)). pose proof (Z.pow_pos_nonneg 2 b). lia. }
    rewrite bin_len_radix by lia. by rewrite <-Eb. }
  rewrite Nat2Z.id. erewrite bind_run by (apply on_out_run, E1).
  assert (radix ^ dpl = 2 ^ (dpl * b)) as Edpl by (rewrite Eb, <-Z.pow_mul_r by lia; f_equal; lia).
  pose proof (Z.pow_pos_nonneg 2 (dpl * b) ltac:(lia) ltac:(nia)). pose proof (Z.mod_pos_bound (val l) (radix ^ dpl) ltac:(lia)).
  destruct (split_digits j (val l) (val l / radix ^ dpl) (val l mod radix ^ dpl) n) as [Es Hq];
    [done|split; [by apply val_range|done]|done|rewrite Z.mul_comm; apply Z.div_mod; lia|].
  assert (Z.of_nat n ≤ dpl) as Hnd by lia.
  assert (value radix ds = (val l mod radix ^ dpl) mod radix ^ Z.of_nat n) as Evd.
  { rewrite Evds. rewrite Edpl. assert (radix ^ Z.of_nat n = 2 ^ (b * Z.of_nat n)) as -> by (rewrite Eb, <-Z.pow_mul_r by lia; done).
    rewrite (low_limb_mod l t) by (done || nia).
    assert (2 ^ (dpl * b) = 2 ^ (b * Z.of_nat n) * 2 ^ (dpl * b - b * Z.of_nat n)) as -> by (rewrite <-Z.pow_add_r by nia; f_equal; lia).
    rewrite Z.rem_mul_r by (try apply Z.pow_pos_nonneg; try apply Z.pow_nonzero; nia).
    rewrite (Z.mul_comm (2 ^ (b * Z.of_nat n))), Z.mod_add by (apply Z.pow_nonzero; nia). by rewrite Z.mod_mod by (apply Z.pow_nonzero; nia). }
  rewrite <-Evd in Es. destruct (Z.eqb_spec (Z.of_nat j - Z.of_nat n) 0) as [Ej|Ej].
  - exists ds, l, post. replace (j - n)%nat with 0%nat in * by lia. rewrite <-!app_assoc. split_and!; try done; [lia|].
    rewrite Z.pow_0_r in Hq. pose proof (Z.div_pos (val l) (radix ^ dpl) ltac:(apply val_range; done) ltac:(lia)).
    replace (val l / radix ^ dpl) with 0 in Es by lia. lia.
  - destruct (mpb_shr_round_run (dpl * b) JS_RNDZ l post) as (l2 & post2 & E2 & Hl2 & Hne2 & Hlen2 & HP & Ht2); [done..|unfold INT_MIN; nia|nia|].
    assert ((dpl * b <? 0) = false) as Hlt by (apply Z.ltb_ge; nia). rewrite Hlt in HP. cbn [rounds] in HP. rewrite <-Edpl in HP.
    erewrite bind_run by (apply on_tmp1_run, E2). exists ds, l2, post2. rewrite <-!app_assoc.
    split_and!; try done; [|apply Ht2; right; nia|intros _; rewrite HP; done|lia].
    assert ((Z.of_nat (j - n) =? 0) = false) as -> by (apply Z.eqb_neq; lia). unfold ret. do 3 f_equal. lia.
Qed.

(** The loop over such turns. *)
Lemma turns_loop_run (m : Z → M dtoa_mem (Z + unit)) fin fuel j l post win tail :
  (∀ n, n ≠ 0 → fin n = inl n) → (fin 0 = inr tt ∨ fin 0 = inl 0 ∧ ∀ s, m 0 s = (Ok (inr tt), s)) →
  (∀ j l post win tail, (1 ≤ j)%nat → limbs_ok l → l ≠ [] → trimmed l → val l < radix ^ Z.of_nat j → length win = j →
     turns (m (Z.of_nat j)) fin j l post win tail) →
  (1 ≤ j < fuel)%nat → limbs_ok l → l ≠ [] → trimmed l → val l < radix ^ Z.of_nat j → length win = j →
  ∃ ds l' post', loop fuel m (Z.of_nat j) (mem (pre ++ win ++ tail) (mk l post) mm)
      = (Ok tt, mem (pre ++ (digit_char <$> ds) ++ tail) (mk l' post') mm) ∧
    Forall (in_radix radix) ds ∧ length ds = j ∧ value radix ds = val l ∧ (length l' + length post' = length l + length post)%nat.
Proof using Hradix Hdpl.
  intros Hfin Hend Hturn. revert j l post win tail. induction fuel as [|fuel IH]; intros j l post win tail Hj Hl Hne Ht Hv Hwin; [lia|].
  cbn [loop]. destruct (Hturn j l post win tail) as (ds & l2 & post2 & E & Hds & Hlds & Hl2 & Hne2 & Ht2 & Hlen2 & Hgo & Hstop); [lia|done..|].
  set (n := Nat.min j (Z.to_nat dpl)) in *. erewrite bind_run by exact E. destruct (decide (j = n)) as [En|En].
  - replace (j - n)%nat with 0%nat by lia. exists ds, l2, post2. cbn [take app].
    split; [|split_and!; [done|lia|by rewrite Hstop|done]]. change (Z.of_nat 0) with 0.
    destruct Hend as [-> | [-> Hm]]; [done|]. destruct fuel as [|fuel]; [lia|]. cbn [loop]. by erewrite bind_run by apply Hm.
  - rewrite Hfin by lia. destruct (Hgo En) as [Ev Hv2].
    destruct (IH (j - n)%nat l2 post2 (take (j - n) win) ((digit_char <$> ds) ++ tail)) as (ds1 & l3 & post3 & E3 & Hds1 & Hlds1 & Ev1 & Hlen3);
      [lia|done|done|done|done|rewrite length_take; lia|].
    exists (ds1 ++ ds), l3, post3. rewrite fmap_app, <-app_assoc, length_app, value_app, Ev1, Hlds1, Hlds by lia. split_and!; try done.
    + by apply Forall_app_2.
    + lia.
    + lia.
Qed.

End digits.

(** The point among the digits: at the end, it is not displayed. *)
Definition pointed (cs : list Z) (dot : nat) : list Z :=
  if (dot =? length cs)%nat then cs else take dot cs ++ [ $"." ] ++ drop dot cs.

Lemma pointed_body cs k : (k ≤ length cs)%nat → pointed cs k = body cs (if (k =? length cs)%nat then S (length cs) else k).
Proof.
  intros Hk. unfold pointed, body. destruct (Nat.eqb_spec k (length cs)).
  - destruct (Nat.leb_spec (S (length cs)) (length cs)); [lia|done].
  - destruct (Nat.leb_spec k (length cs)); [done|lia].
Qed.

Lemma pointed_length cs dot : (dot ≤ length cs)%nat → length (pointed cs dot) = (length cs + if (dot =? length cs)%nat then 0 else 1)%nat.
Proof. intros. unfold pointed. destruct (Nat.eqb_spec dot (length cs)); [lia|]. rewrite !length_app, length_take, length_drop. cbn. lia. Qed.

Lemma put_point_run pre cs x tail dot :
  (dot < length cs)%nat →
  (memmove (Z.of_nat (length pre) + Z.of_nat dot + 1) (Z.of_nat (length pre) + Z.of_nat dot) (Z.of_nat (length cs) - Z.of_nat dot);;
   wr (Z.of_nat (length pre) + Z.of_nat dot) ($".")) (pre ++ cs ++ x :: tail) = (Ok tt, pre ++ pointed cs dot ++ tail).
Proof.
  intros Hd. destruct (lookup_lt_is_Some_2 cs dot Hd) as [c Hc].
  assert (cs = take dot cs ++ c :: drop (S dot) cs) as Ecs by by rewrite take_drop_middle.
  assert (drop dot cs = c :: drop (S dot) cs) as Edrop.
  { rewrite Ecs at 1. rewrite drop_app_ge by (rewrite length_take; lia). rewrite length_take. replace (dot - _ `min` _)%nat with 0%nat by lia. done. }
  unfold memmove.
  assert (pre ++ cs ++ x :: tail = (pre ++ take dot cs) ++ drop dot cs ++ x :: tail) as E1 by (rewrite <-app_assoc, (app_assoc (take _ _)), take_drop; done).
  assert (Z.of_nat (length pre) + Z.of_nat dot = Z.of_nat (length (pre ++ take dot cs))) as -> by (rewrite length_app, length_take; lia).
  assert (Z.of_nat (length cs) - Z.of_nat dot = Z.of_nat (length (drop dot cs))) as -> by (rewrite length_drop; lia).
  rewrite bind_bind, E1. erewrite bind_run by apply limbs_run.
  assert ((pre ++ take dot cs) ++ drop dot cs ++ x :: tail = ((pre ++ take dot cs) ++ [c]) ++ (drop (S dot) cs ++ [x]) ++ tail) as E2
    by (rewrite Edrop, <-!app_assoc; done).
  assert (Z.of_nat (length (pre ++ take dot cs)) + 1 = Z.of_nat (length ((pre ++ take dot cs) ++ [c]))) as -> by (rewrite (length_app _ [c]); cbn; lia).
  rewrite E2. erewrite bind_run by (apply set_limbs_run; rewrite length_app, !length_drop; cbn; lia).
  rewrite <-(app_assoc _ [c]). cbn [app]. rewrite wr_here by done.
  unfold pointed. destruct (Nat.eqb_spec dot (length cs)); [lia|]. by rewrite <-!app_assoc.
Qed.

Lemma output_digits_run `{BuildConfig} radix N D pre win tail l post mm :
  2 ≤ radix ≤ 36 → (1 ≤ N)%nat → (D ≤ N)%nat → limbs_ok l → l ≠ [] → trimmed l → val l < radix ^ Z.of_nat N →
  length win = (N + if (D =? N)%nat then 0 else 1)%nat →
  ∃ ds l' post', output_digits (Z.of_nat (length pre)) radix (Z.of_nat N) (Z.of_nat D) (mem (pre ++ win ++ tail) (mk l post) mm)
      = (Ok (Z.of_nat (length (pointed (digit_char <$> ds) D))), mem (pre ++ pointed (digit_char <$> ds) D ++ tail) (mk l' post') mm) ∧
    Forall (in_radix radix) ds ∧ length ds = N ∧ value radix ds = val l ∧ (length l' + length post' = length l + length post)%nat.
Proof.
  intros Hr HN HD Hl Hne Ht Hv Hwin. destruct (radix_tables radix Hr) as (dpl & Hdpl & Hbase & Hd1 & HB & HBnp).
  set (win1 := take N win). set (tail1 := drop N win ++ tail).
  assert (win ++ tail = win1 ++ tail1) as -> by (unfold win1, tail1; by rewrite app_assoc, take_drop).
  assert (length win1 = N) as Hw1 by (unfold win1; rewrite length_take; lia).
  assert (∃ rb, (∀ s : dtoa_mem, (if Z.land radix (radix - 1) =? 0 then clz ← clz32 radix; ret (31 - clz) else ret 0) s = (Ok rb, s)) ∧
    ∃ ds l' post', (if negb (rb =? 0) then loop (S (Z.to_nat (Z.of_nat N))) (bin_digits_turn (Z.of_nat (length pre)) rb dpl) (Z.of_nat N)
      else loop (S (Z.to_nat (Z.of_nat N))) (limb_digits_turn (Z.of_nat (length pre)) radix dpl) (Z.of_nat N)) (mem (pre ++ win1 ++ tail1) (mk l post) mm)
      = (Ok tt, mem (pre ++ (digit_char <$> ds) ++ tail1) (mk l' post') mm) ∧
    Forall (in_radix radix) ds ∧ length ds = N ∧ value radix ds = val l ∧ (length l' + length post' = length l + length post)%nat)
    as (rb & Erb & ds & l' & post' & E & Hds & Hlds & Ev & Hlen).
  { destruct (Z.eqb_spec (Z.land radix (radix - 1)) 0) as [Ep|Hnp].
    - destruct (radix_pow2 radix Hr Ep) as (b & Hb & Er & El). exists b. split.
      { intros s. unfold clz32. destruct (Z.eqb_spec radix 0); [lia|]. rewrite bind_ret, El. unfold ret. do 2 f_equal. lia. }
      destruct (Z.eqb_spec b 0); [lia|]. cbn [negb].
      assert (dpl * b ≤ 32).
      { unfold B in HB. rewrite Er, <-Z.pow_mul_r in HB by lia. apply Z.pow_le_mono_r_iff in HB; nia. }
      apply turns_loop_run with (dpl := dpl) (fin := λ n, if n =? 0 then inr tt else inl n); try done; try lia.
      + intros i Hi. cbv beta. by destruct (Z.eqb_spec i 0).
      + by left.
      + intros. apply bin_turn_run; try done; lia.
    - exists 0. split; [done|]. cbn [Z.eqb negb].
      specialize (HBnp Hnp). assert (0 < radix ^ dpl) by (apply Z.pow_pos_nonneg; lia). rewrite Z.mod_small in Hbase by lia.
      apply turns_loop_run with (dpl := dpl) (fin := inl); try done; try lia; [by right|].
      intros. apply limb_turn_run with (radix ^ dpl); try done; lia. }
  unfold output_digits. erewrite bind_run by apply Erb. erewrite bind_run by (apply rd_run; [lia|exact Hdpl]).
  erewrite bind_run by exact E. exists ds, l', post'. split; [|done].
  assert (length (digit_char <$> ds) = N) as Hlc by (rewrite length_fmap; done).
  rewrite pointed_length, Hlc by lia. unfold tail1. destruct (Nat.eqb_spec D N) as [->|Hne'].
  - rewrite Z.eqb_refl. cbn [negb]. rewrite Nat.add_0_r. unfold pointed. rewrite Hlc, Nat.eqb_refl.
    rewrite drop_ge by lia. done.
  - destruct (Z.eqb_spec (Z.of_nat D) (Z.of_nat N)); [lia|]. cbn [negb].
    destruct (drop N win) as [|x [|]] eqn:Ew; try (apply (f_equal length) in Ew; rewrite length_drop in Ew; cbn in Ew; lia).
    pose proof (put_point_run pre (digit_char <$> ds) x tail D ltac:(lia)) as Ept. rewrite Hlc in Ept.
    apply bind_Ok in Ept as ([] & o1 & Em & Ew1).
    erewrite bind_run by (apply on_out_run; exact Em). erewrite bind_run by (apply on_out_run; exact Ew1).
    unfold ret. do 3 f_equal. lia.
Qed.

(** ** Zeros *)

Lemma put_zeros_run pre win t mm (n : Z) :
  (Z.to_nat n ≤ length win)%nat →
  put_zeros (Z.of_nat (length pre)) n (mem (pre ++ win) t mm)
  = (Ok (Z.of_nat (length pre) + Z.max n 0), mem (pre ++ replicate (Z.to_nat n) ($"0") ++ drop (Z.to_nat n) win) t mm).
Proof.
  intros Hn. unfold put_zeros.
  assert (∀ m pre win, (m ≤ length win)%nat → for_up m (Z.of_nat (length pre)) (λ i, wr i ($"0")) (pre ++ win)
    = (Ok tt, pre ++ replicate m ($"0") ++ drop m win)) as Hfor.
  { clear. induction m as [|m IH]; intros pre win Hm; [done|]. destruct win as [|c win]; [cbn in Hm; lia|]. cbn [for_up].
    erewrite bind_run by by apply wr_here. specialize (IH (pre ++ [ $"0" ]) win ltac:(cbn in Hm; lia)).
    rewrite length_app, <-!app_assoc in IH. cbn [length app] in IH. replace (Z.of_nat (length pre + 1)) with (Z.of_nat (length pre) + 1) in IH by lia.
    exact IH. }
  erewrite bind_run by (apply on_out_run, Hfor; done). done.
Qed.

(** ** Numerals *)

Lemma to_digit_char d : 0 ≤ d < 36 → to_digit (digit_char d) = d.
Proof. exact (js_to_digit_char d). Qed.

Lemma digit_chars radix ds : radix ≤ 36 → Forall (in_radix radix) ds →
  to_digit <$> (digit_char <$> ds) = ds ∧ Forall (λ c, to_digit c < radix) (digit_char <$> ds) ∧ ¬ ($"I") ∈ (digit_char <$> ds).
Proof.
  intros Hr Hds. induction Hds as [|d ds Hd Hds (IH1 & IH2 & IH3)]; [split_and!; [done|constructor|apply not_elem_of_nil]|].
  unfold in_radix in Hd. cbn. rewrite to_digit_char by lia. split_and!.
  - f_equal. exact IH1.
  - constructor; [rewrite to_digit_char by lia; lia|exact IH2].
  - intros [E|H]%elem_of_cons; [|done]. unfold digit_char in E. destruct (Z.ltb_spec d 10); lia.
Qed.

(** The text is a numeral of [n / d] that [js_atod] takes whole. *)
Definition writes_numeral (radix max_digits n d : Z) (txt : list Z) : Prop :=
  ∃ ds k ep, txt = body ds k ++ exponent_text ep ∧
    Forall (λ c, to_digit c < radix) ds ∧ ds ≠ [] ∧ ds !! 0%nat ≠ Some ($"I") ∧ exponent_ok radix ep ∧
    Z.of_nat (length ds - leading_zeros ds) ≤ max_digits ∧ Z.of_nat (length ds) ≤ 2 ^ 26 ∧
    let x := exponent_value ep - fraction_digits ds k in
    num (value radix (to_digit <$> ds)) 0 radix x = n ∧ den 0 radix x = d.

Lemma leading_zeros_app n l : (n ≤ leading_zeros (replicate n ($"0") ++ l))%nat.
Proof. induction n as [|n IH]; [lia|]. cbn. lia. Qed.

Lemma value_zeros radix n ds : 2 ≤ radix → value radix (replicate n 0 ++ ds) = value radix ds.
Proof. intros Hr. induction n as [|n IH]; [done|]. cbn [replicate app]. rewrite value_head by done. rewrite IH. ring. Qed.

Lemma value_trailing radix n ds : 2 ≤ radix → value radix (ds ++ replicate n 0) = value radix ds * radix ^ Z.of_nat n.
Proof. intros Hr. rewrite value_app, length_replicate by lia. rewrite <-(app_nil_r (replicate n 0)), value_zeros by done. change (value radix []) with 0. ring. Qed.

Section texts.
Context (radix max_digits : Z) (ds : list Z).
Context (Hradix : 2 ≤ radix ≤ 36) (Hds : Forall (in_radix radix) ds) (Hne : ds ≠ []).
Let P : Z := Z.of_nat (length ds).
Let v : Z := value radix ds.
Context (HP : P ≤ max_digits) (HP2 : P ≤ 1000).

Let cs : list Z := digit_char <$> ds.

(** The digits with zeros around. *)
Lemma padded_digits a b : Z.of_nat a ≤ 2000 → Z.of_nat b ≤ 2000 → 
  let l := replicate a ($"0") ++ cs ++ replicate b ($"0") in
  Forall (λ c, to_digit c < radix) l ∧ l ≠ [] ∧ l !! 0%nat ≠ Some ($"I") ∧ length l = (a + length ds + b)%nat ∧
  value radix (to_digit <$> l) = v * radix ^ Z.of_nat b ∧ Z.of_nat (length l - leading_zeros l) ≤ P + Z.of_nat b.
Proof using Hradix Hds Hne.
  clear -Hradix Hds Hne. intros Ha Hb l. destruct (digit_chars radix ds) as (H1 & H2 & H3); [lia|done|]. fold cs in H1, H2, H3.
  assert (∀ n, Forall (λ c, to_digit c < radix) (replicate n ($"0"))) as Hz.
  { intros n. apply Forall_replicate. change (to_digit ($"0")) with 0. lia. }
  assert (length l = (a + length ds + b)%nat) as Hl by (unfold l, cs; rewrite !length_app, !length_replicate, length_fmap; lia).
  split_and!; [|destruct ds; [done|]; intros El; rewrite El in Hl; cbn in Hl; lia| |done| |].
  - apply Forall_app_2; [done|]. by apply Forall_app_2.
  - intros E. apply list_elem_of_lookup_2 in E. unfold l in E. rewrite !elem_of_app in E.
    destruct E as [[E _]%elem_of_replicate|[E|[E _]%elem_of_replicate]]; [by vm_compute in E|done|by vm_compute in E].
  - unfold l. rewrite !fmap_app, !fmap_replicate, H1. change (to_digit ($"0")) with 0. rewrite value_zeros, value_trailing by lia. done.
  - pose proof (leading_zeros_app a (cs ++ replicate b ($"0"))) as Hlz. fold l in Hlz. unfold P. lia.
Qed.

Lemma plain_num f : 0 ≤ f → num (v * radix ^ f) 0 radix 0 = num v 0 radix f ∧ den 0 radix 0 = den 0 radix f.
Proof using Type. intros. unfold num, den. rewrite (Z.max_l f), (Z.max_r (- f)) by lia. rewrite !Z.pow_0_r. lia. Qed.

(** Digits and an exponent: [d.ddde+x]. *)
Lemma exponent_numeral (E mark : Z) xs :
  is_mark radix mark → Forall (in_radix 10) xs → xs ≠ [] → value 10 xs = Z.abs E → Z.abs E ≤ 10 ^ 8 →
  writes_numeral radix max_digits (num v 0 radix (E + 1 - P)) (den 0 radix (E + 1 - P))
    (pointed cs 1 ++ mark :: (if E <? 0 then $"-" else $"+") :: (digit_char <$> xs)).
Proof using All.
  intros Hm Hxs Hxne Hxv HE. destruct (padded_digits 0 0) as (H1 & H2 & H3 & H4 & H5 & H6); [lia|lia|].
  cbn [replicate app] in *. rewrite app_nil_r in *. rewrite Z.pow_0_r, Z.mul_1_r in H5.
  assert (1 ≤ length cs)%nat as Hcs by (unfold cs; rewrite length_fmap; destruct ds; [done|cbn; lia]).
  destruct (digit_chars 10 xs) as (Hx1 & Hx2 & _); [lia|done|].
  exists cs, (if (1 =? length cs)%nat then S (length cs) else 1%nat), (Some (mark, Some (E <? 0), digit_char <$> xs)).
  rewrite pointed_body by lia. split_and!; try done; try lia.
  - cbn [exponent_text]. f_equal. by destruct (E <? 0).
  - split; [done|]. split; [by destruct xs|]. split; [done|]. rewrite Hx1. lia.
  - cbn [exponent_value]. rewrite Hx1, H5, Hxv. fold v.
    replace ((if is_minus (Some (E <? 0)) then - Z.abs E else Z.abs E) - _) with (E + 1 - P); [done|].
    assert (P = Z.of_nat (length cs)) as HPl by (unfold P, cs; by rewrite length_fmap).
    change (is_minus (Some (E <? 0))) with (E <? 0). unfold fraction_digits. destruct (Nat.eqb_spec 1 (length cs)), (Z.ltb_spec E 0); lia.
Qed.

(** A fraction: [0.000ddd]. *)
Lemma fraction_numeral E :
  E ≤ 0 → - 1000 ≤ E →
  writes_numeral radix max_digits (num v 0 radix (E - P)) (den 0 radix (E - P)) ($"0" :: $"." :: replicate (Z.to_nat (- E)) ($"0") ++ cs).
Proof using All.
  intros HE HE2. destruct (padded_digits (S (Z.to_nat (- E))) 0) as (H1 & H2 & H3 & H4 & H5 & H6); [lia|lia|].
  cbn [replicate] in *. rewrite app_nil_r in *. rewrite Z.pow_0_r, Z.mul_1_r in H5.
  cbn [app] in *. exists ($"0" :: replicate (Z.to_nat (- E)) ($"0") ++ cs), 1%nat, None. split_and!; try done; try lia.
  - cbn. by rewrite app_nil_r.
  - rewrite H5. unfold fraction_digits. rewrite H4. cbn [exponent_value].
    replace (0 - Z.of_nat (S (Z.to_nat (- E)) + length ds + 0 - 1)) with (E - P) by (unfold P; lia). done.
Qed.

(** Digits with a point among them, or zeros after them. *)
Lemma plain_numeral E :
  0 < E → E ≤ max_digits → E ≤ 1000 →
  writes_numeral radix max_digits (num v 0 radix (E - P)) (den 0 radix (E - P)) (pointed cs (Z.to_nat (Z.min P E)) ++ replicate (Z.to_nat (E - P)) ($"0")).
Proof using All.
  intros HE HE2 HE3. destruct (padded_digits 0 (Z.to_nat (E - P))) as (H1 & H2 & H3 & H4 & H5 & H6); [lia|lia|].
  cbn [replicate app] in *. assert (length cs = length ds) as Hcs by (unfold cs; by rewrite length_fmap).
  destruct (Z.le_gt_cases P E) as [Hle|Hlt].
  - exists (cs ++ replicate (Z.to_nat (E - P)) ($"0")), (S (length (cs ++ replicate (Z.to_nat (E - P)) ($"0")))), None.
    split_and!; try done; try lia.
    + unfold pointed, body. rewrite Hcs. replace (Z.to_nat (Z.min P E)) with (length ds) by (unfold P in *; lia). rewrite Nat.eqb_refl.
      destruct (Nat.leb_spec (S (length (cs ++ replicate (Z.to_nat (E - P)) ($"0")))) (length (cs ++ replicate (Z.to_nat (E - P)) ($"0")))); [lia|].
      cbn [exponent_text]. by rewrite app_nil_r.
    + rewrite H5. unfold fraction_digits. cbn [exponent_value]. rewrite Z2Nat.id by lia.
      replace (0 - Z.of_nat (length (cs ++ replicate (Z.to_nat (E - P)) ($"0")) - S (length (cs ++ replicate (Z.to_nat (E - P)) ($"0"))))) with 0 by lia.
      apply plain_num. lia.
  - replace (Z.to_nat (E - P)) with 0%nat in * by lia. cbn [replicate] in *. rewrite app_nil_r in *. rewrite Z.pow_0_r, Z.mul_1_r in H5.
    exists cs, (Z.to_nat E), None. replace (Z.min P E) with E by lia. split_and!; try done; try lia.
    + rewrite pointed_body by (unfold P in *; lia). destruct (Nat.eqb_spec (Z.to_nat E) (length cs)) as [Ee|]; [unfold P in *; lia|].
      cbn [exponent_text]. by rewrite app_nil_r.
    + rewrite H5. fold v. unfold fraction_digits. cbn [exponent_value].
      replace (0 - Z.of_nat (length cs - Z.to_nat E)) with (E - P) by (unfold P in *; lia). done.
Qed.

End texts.

(** ** The whole number *)

(** [m] writes [txt] at the end of [pre]. *)
Definition writes (m : M dtoa_mem Z) (pre win : list Z) (t mm : mpb_t) (txt : list Z) : Prop :=
  ∃ t', m (mem (pre ++ win) t mm) = (Ok (Z.of_nat (length pre) + Z.of_nat (length txt)), mem (pre ++ txt ++ drop (length txt) win) t' mm).

Section number.
Context `{BuildConfig} (radix radix1 rs p max_digits flags n_digits : Z).
Context (Hradix : 2 ≤ radix ≤ 36) (Hr1 : radix1 ≠ 1) (Hp : dtoa_max_digits_table !! Z.to_nat (radix - 2) = Some p)
  (Hp54 : 1 ≤ p ≤ 54) (Hmax : p + 4 ≤ max_digits) (Hfmt : Z.land flags JS_DTOA_FORMAT_MASK = JS_DTOA_FORMAT_FREE).

Lemma exponent_digits E : Z.abs E ≤ 2000 → ∃ xs, canonical 10 xs ∧ value 10 xs = Z.abs E ∧ (length xs ≤ 4)%nat ∧
  ∀ pre win, (4 ≤ length win)%nat → u32toa (Z.of_nat (length pre)) (u32 (Z.abs E)) (pre ++ win)
    = (Ok (Z.of_nat (length xs)), pre ++ (digit_char <$> xs) ++ drop (length xs) win).
Proof using Type.
  clear. intros HE. destruct (u32toa_prints (Z.abs E)) as (xs & Hc & Hv & Hrun); [lia|]. exists xs.
  assert (length xs ≤ 4)%nat as Hl by (apply (canonical_length 10); [lia|done|rewrite Hv; lia|lia]).
  split_and!; try done. intros pre win Hw. unfold u32 at 1. rewrite wrap_id by (unfold fits; lia). rewrite Hrun by (cbn; lia). done.
Qed.

Lemma exponent_form_run P E pre win l post mm :
  (1 ≤ P)%nat → Z.of_nat P ≤ p → Z.abs E ≤ 2000 → limbs_ok l → l ≠ [] → trimmed l → val l < radix ^ Z.of_nat P → p + 7 ≤ Z.of_nat (length win) →
  let q := Z.of_nat (length pre) in
  ∃ txt, writes (l ← output_digits q radix (Z.of_nat P) 1;
    let q := q + l in
    let '(E, c) := if radix =? 10 then (E, $"e")
                   else if (radix1 =? 1) && (rs <=? 4) then (E * rs, $"p")
                   else (E, $"@") in
    on_out (wr q c);;
    let '(E, c) := if E <? 0 then (- E, $"-") else (E, $"+") in
    on_out (wr (q + 1) c);;
    l ← on_out (u32toa (q + 2) (u32 E));
    ret (q + 2 + l)) pre win (mk l post) mm txt ∧
    writes_numeral radix max_digits (num (val l) 0 radix (E + 1 - Z.of_nat P)) (den 0 radix (E + 1 - Z.of_nat P)) txt ∧ Z.of_nat (length txt) ≤ p + 7.
Proof using All.
  intros HP HPp HE Hl Hne Ht Hv Hwin q. set (w := (P + if (1 =? P)%nat then 0 else 1)%nat).
  assert (w ≤ P + 1)%nat as Hw by (unfold w; destruct (1 =? P)%nat; lia).
  destruct (output_digits_run radix P 1 pre (take w win) (drop w win) l post mm) as (ds & l' & post' & E1 & Hds & Hlds & Evds & _);
    [done..|rewrite length_take; unfold w in *; lia|]. rewrite take_drop in E1.
  set (pt := pointed (digit_char <$> ds) 1) in *.
  assert (length pt = w) as Hpt by (unfold pt; rewrite pointed_length, length_fmap, Hlds by (rewrite length_fmap; lia); done).
  destruct (drop w win) as [|a [|b win2]] eqn:Ed; try (apply (f_equal length) in Ed; rewrite length_drop in Ed; cbn in Ed; lia).
  assert (length win = w + 2 + length win2)%nat as Hlw by (apply (f_equal length) in Ed; rewrite length_drop in Ed; cbn in Ed; lia).
  destruct (exponent_digits E HE) as (xs & Hcx & Hvx & Hlx & Hrun).
  set (mark := if radix =? 10 then $"e" else $"@"). set (sg := if E <? 0 then $"-" else $"+").
  assert (is_mark radix mark) as Hmark by (unfold is_mark, mark; destruct (radix =? 10); [by left|done]).
  exists (pt ++ mark :: sg :: (digit_char <$> xs)). split; [|split].
  - exists (mk l' post'). erewrite bind_run by exact E1. cbv zeta.
    assert ((if radix =? 10 then (E, $"e") else if (radix1 =? 1) && (rs <=? 4) then (E * rs, $"p") else (E, $"@")) = (E, mark)) as ->.
    { unfold mark. destruct (radix =? 10); [done|]. by destruct (Z.eqb_spec radix1 1). }
    cbv beta iota. assert (q + Z.of_nat (length pt) = Z.of_nat (length (pre ++ pt))) as -> by (rewrite length_app; unfold q; lia).
    rewrite app_assoc. erewrite bind_run by (apply on_out_run, wr_here; done).
    assert ((if E <? 0 then (- E, $"-") else (E, $"+")) = (Z.abs E, sg)) as -> by (unfold sg; destruct (Z.ltb_spec E 0); f_equal; lia).
    cbv beta iota. assert ((pre ++ pt) ++ mark :: b :: win2 = ((pre ++ pt) ++ [mark]) ++ b :: win2) as -> by by rewrite <-(app_assoc _ [mark]).
    erewrite bind_run by (apply on_out_run, wr_here; rewrite (length_app _ [mark]); cbn; lia).
    assert (((pre ++ pt) ++ [mark]) ++ sg :: win2 = (((pre ++ pt) ++ [mark]) ++ [sg]) ++ win2) as -> by by rewrite <-(app_assoc _ [sg]).
    assert (Z.of_nat (length (pre ++ pt)) + 2 = Z.of_nat (length (((pre ++ pt) ++ [mark]) ++ [sg]))) as -> by (rewrite !(length_app _ [_]); cbn; lia).
    erewrite bind_run by (apply on_out_run, Hrun; lia). unfold ret. f_equal.
    + f_equal. rewrite !length_app. cbn [length]. rewrite length_fmap. lia.
    + f_equal. rewrite <-!app_assoc. cbn [app]. do 4 f_equal. rewrite length_app, Hpt. cbn [length]. rewrite length_fmap.
      replace (w + S (S (length xs)))%nat with (w + 2 + length xs)%nat by lia. rewrite <-drop_drop. f_equal. rewrite <-drop_drop, Ed. done.
  - rewrite <-Evds, <-Hlds. apply exponent_numeral; try done; try lia; [destruct ds; [cbn in Hlds; lia|done]|apply Hcx|apply Hcx].
  - rewrite length_app, Hpt. cbn [length]. rewrite length_fmap. lia.
Qed.

Lemma fraction_form_run P E pre win l post mm :
  (1 ≤ P)%nat → Z.of_nat P ≤ p → -5 ≤ E ≤ 0 → limbs_ok l → l ≠ [] → trimmed l → val l < radix ^ Z.of_nat P → p + 7 ≤ Z.of_nat (length win) →
  let q := Z.of_nat (length pre) in
  ∃ txt, writes (on_out (wr q ($"0"));; on_out (wr (q + 1) ($"."));;
    q ← put_zeros (q + 2) (- E);
    l ← output_digits q radix (Z.of_nat P) (Z.of_nat P);
    ret (q + l)) pre win (mk l post) mm txt ∧
    writes_numeral radix max_digits (num (val l) 0 radix (E - Z.of_nat P)) (den 0 radix (E - Z.of_nat P)) txt ∧ Z.of_nat (length txt) ≤ p + 7.
Proof using All.
  intros HP HPp HE Hl Hne Ht Hv Hwin q. set (z := Z.to_nat (- E)).
  destruct win as [|a [|b win2]]; [cbn in Hwin; lia..|]. cbn [length] in Hwin.
  set (pre2 := (pre ++ [ $"0" ]) ++ [ $"." ]). set (pre3 := pre2 ++ replicate z ($"0")).
  destruct (output_digits_run radix P P pre3 (take P (drop z win2)) (drop P (drop z win2)) l post mm) as (ds & l' & post' & E1 & Hds & Hlds & Evds & _);
    [done..|rewrite length_take, length_drop, Nat.eqb_refl; unfold z; lia|]. rewrite take_drop in E1.
  assert (pointed (digit_char <$> ds) P = digit_char <$> ds) as Ept by (unfold pointed; by rewrite length_fmap, Hlds, Nat.eqb_refl).
  rewrite Ept in E1. rewrite length_fmap, Hlds in E1.
  exists ($"0" :: $"." :: replicate z ($"0") ++ (digit_char <$> ds)). split; [|split].
  - exists (mk l' post'). erewrite bind_run by (apply on_out_run, wr_here; done).
    assert (pre ++ $"0" :: b :: win2 = (pre ++ [ $"0" ]) ++ b :: win2) as -> by by rewrite <-app_assoc.
    erewrite bind_run by (apply on_out_run, wr_here; rewrite length_app; cbn; lia).
    assert ((pre ++ [ $"0" ]) ++ $"." :: win2 = pre2 ++ win2) as -> by (unfold pre2; by rewrite <-(app_assoc _ [ $"." ])).
    assert (q + 2 = Z.of_nat (length pre2)) as -> by (unfold pre2, q; rewrite !(length_app _ [_]); cbn; lia).
    erewrite bind_run by (apply put_zeros_run; fold z; lia). fold z. rewrite (app_assoc pre2). fold pre3.
    assert (Z.of_nat (length pre2) + Z.max (- E) 0 = Z.of_nat (length pre3)) as -> by (unfold pre3; rewrite length_app, length_replicate; unfold z; lia).
    erewrite bind_run by exact E1. unfold ret. f_equal.
    + f_equal. unfold pre3, pre2. rewrite !length_app. cbn [length]. rewrite length_app, length_replicate, length_fmap. cbn. lia.
    + f_equal. unfold pre3, pre2. rewrite <-!app_assoc. cbn [app]. rewrite <-!app_assoc. do 5 f_equal. cbn [length].
      rewrite length_app, length_replicate, length_fmap, Hlds. cbn [drop]. by rewrite drop_drop.
  - rewrite <-Evds, <-Hlds. apply fraction_numeral; try done; try lia. destruct ds; [cbn in Hlds; lia|done].
  - cbn [length]. rewrite length_app, length_replicate, length_fmap. unfold z. lia.
Qed.

Lemma plain_form_run P E pre win l post mm :
  (1 ≤ P)%nat → Z.of_nat P ≤ p → 0 < E ≤ p + 4 → limbs_ok l → l ≠ [] → trimmed l → val l < radix ^ Z.of_nat P → p + 7 ≤ Z.of_nat (length win) →
  let q := Z.of_nat (length pre) in
  ∃ txt, writes (l ← output_digits q radix (Z.of_nat P) (min_int (Z.of_nat P) E); put_zeros (q + l) (E - Z.of_nat P)) pre win (mk l post) mm txt ∧
    writes_numeral radix max_digits (num (val l) 0 radix (E - Z.of_nat P)) (den 0 radix (E - Z.of_nat P)) txt ∧ Z.of_nat (length txt) ≤ p + 7.
Proof using All.
  intros HP HPp HE Hl Hne Ht Hv Hwin q. set (D := Z.to_nat (Z.min (Z.of_nat P) E)). set (w := (P + if (D =? P)%nat then 0 else 1)%nat).
  assert (w ≤ P + 1)%nat as Hw by (unfold w; destruct (D =? P)%nat; lia).
  destruct (output_digits_run radix P D pre (take w win) (drop w win) l post mm) as (ds & l' & post' & E1 & Hds & Hlds & Evds & _);
    [done..|unfold D; lia|done|done|done|done|rewrite length_take; unfold w in *; lia|]. rewrite take_drop in E1.
  set (pt := pointed (digit_char <$> ds) D) in *.
  assert (length pt = w) as Hpt by (unfold pt; rewrite pointed_length, length_fmap, Hlds by (rewrite length_fmap; unfold D; lia); done).
  assert (min_int (Z.of_nat P) E = Z.of_nat D) as -> by (unfold min_int, D; destruct (Z.ltb_spec (Z.of_nat P) E); lia).
  set (z := Z.to_nat (E - Z.of_nat P)). exists (pt ++ replicate z ($"0")). split; [|split].
  - exists (mk l' post'). erewrite bind_run by exact E1.
    assert (q + Z.of_nat (length pt) = Z.of_nat (length (pre ++ pt))) as -> by (rewrite length_app; unfold q; lia).
    rewrite app_assoc. rewrite put_zeros_run; [fold z|rewrite length_drop; unfold w, z, D in *; destruct (Nat.eqb_spec (Z.to_nat (Z.min (Z.of_nat P) E)) P); lia].
    f_equal; [f_equal; rewrite !length_app, length_replicate; unfold z; lia|]. f_equal. rewrite <-!app_assoc. do 3 f_equal.
    rewrite length_app, Hpt, length_replicate, drop_drop. done.
  - rewrite <-Evds, <-Hlds. unfold pt, z, D. rewrite <-Hlds. apply plain_numeral; try done; try lia. destruct ds; [cbn in Hlds; lia|done].
  - rewrite length_app, Hpt, length_replicate. unfold w, z. destruct (D =? P)%nat; lia.
Qed.

(** The three forms together. *)
Lemma output_number_run P E pre win l post mm :
  Z.land flags JS_DTOA_EXP_MASK = JS_DTOA_EXP_AUTO ∨ Z.land flags JS_DTOA_EXP_MASK = JS_DTOA_EXP_ENABLED →
  1 ≤ P ≤ p → Z.abs E ≤ 1500 → limbs_ok l → l ≠ [] → trimmed l → val l < radix ^ P → p + 7 ≤ Z.of_nat (length win) →
  ∃ txt, writes (output_number (Z.of_nat (length pre)) radix radix1 rs n_digits flags P E) pre win (mk l post) mm txt ∧
    writes_numeral radix max_digits (num (val l) 0 radix (E - P)) (den 0 radix (E - P)) txt ∧ Z.of_nat (length txt) ≤ p + 7.
Proof using All.
  intros Hexp HP HE Hl Hne Ht Hv Hwin. replace P with (Z.of_nat (Z.to_nat P)) in * by lia. set (Pn := Z.to_nat P) in *.
  assert (∀ m txt, (∀ s, output_number (Z.of_nat (length pre)) radix radix1 rs n_digits flags (Z.of_nat Pn) E s = m s) →
    writes m pre win (mk l post) mm txt →
    writes (output_number (Z.of_nat (length pre)) radix radix1 rs n_digits flags (Z.of_nat Pn) E) pre win (mk l post) mm txt) as Hw.
  { intros m txt Hm (t' & Em). exists t'. by rewrite Hm. }
  assert (∀ s : dtoa_mem, (if JS_DTOA_FORMAT_FREE =? JS_DTOA_FORMAT_FIXED then ret n_digits
    else n ← rd dtoa_max_digits_table (radix - 2); ret (n + 4)) s = (Ok (p + 4), s)) as Emax.
  { intros s. change (JS_DTOA_FORMAT_FREE =? JS_DTOA_FORMAT_FIXED) with false. cbv iota. by erewrite bind_run by (apply rd_run; [lia|exact Hp]). }
  set (cond := (Z.land flags JS_DTOA_EXP_MASK =? JS_DTOA_EXP_ENABLED) || (Z.land flags JS_DTOA_EXP_MASK =? JS_DTOA_EXP_AUTO) && ((E <=? -6) || (E >? p + 4))).
  destruct cond eqn:Ec; unfold cond in Ec.
  - destruct (exponent_form_run Pn (E - 1) pre win l post mm) as (txt & Htxt & Hnum & Hlen); [lia|lia|lia|done..|].
    exists txt. replace (E - 1 + 1 - Z.of_nat Pn) with (E - Z.of_nat Pn) in Hnum by lia. split; [|done].
    eapply Hw; [|exact Htxt]. intros s. unfold output_number. rewrite Hfmt. erewrite bind_run by apply Emax. by rewrite Ec.
  - assert (-5 ≤ E ≤ p + 4) as HE2.
    { apply orb_false_iff in Ec as [E1%Z.eqb_neq E2]. destruct Hexp as [Ea|]; [|done]. rewrite Ea in E2. cbn [Z.eqb JS_DTOA_EXP_AUTO andb] in E2.
      apply orb_false_iff in E2 as [E3%Z.leb_gt E4]. rewrite Z.gtb_ltb, Z.ltb_ge in E4. lia. }
    destruct (Z.le_gt_cases E 0) as [Hle|Hgt].
    + destruct (fraction_form_run Pn E pre win l post mm) as (txt & Htxt & Hnum & Hlen); [lia|lia|lia|done..|].
      exists txt. split; [|done]. eapply Hw; [|exact Htxt]. intros s. unfold output_number. rewrite Hfmt. erewrite bind_run by apply Emax.
      rewrite Ec. by destruct (Z.leb_spec E 0); [|lia].
    + destruct (plain_form_run Pn E pre win l post mm) as (txt & Htxt & Hnum & Hlen); [lia|lia|lia|done..|].
      exists txt. split; [|done]. eapply Hw; [|exact Htxt]. intros s. unfold output_number. rewrite Hfmt. erewrite bind_run by apply Emax.
      rewrite Ec. by destruct (Z.leb_spec E 0); [lia|].
Qed.
End number.

(** * Doubles and their texts: lemmas

    The mantissa and the exponent of the bits of a double, what [js_dtoa] prints
    for them in the free format, and what [js_atod] reads back. *)

(** ** The bits *)

(** The exponent field is not the one of the infinities and of the NaNs. *)
Definition finite (d : Z) : Prop := 0 ≤ d < 2 ^ 64 ∧ Z.land (Z.shiftr d 52) 0x7ff ≠ 0x7ff.

Definition sign_of (d : Z) : bool := negb (Z.shiftr d 63 =? 0).
Definition magnitude (d : Z) : Z := d mod 2 ^ 63.
Definition exponent_field (d : Z) : Z := Z.land (Z.shiftr d 52) 0x7ff.
Definition fraction_field (d : Z) : Z := Z.land d (2 ^ 52 - 1).

Lemma fields d : 0 ≤ d < 2 ^ 64 →
  magnitude d = exponent_field d * 2 ^ 52 + fraction_field d ∧ 0 ≤ fraction_field d < 2 ^ 52 ∧ 0 ≤ exponent_field d ≤ 0x7ff ∧
  d = Z.lor (magnitude d) (Z.shiftl (b2l (sign_of d)) 63).
Proof.
  intros Hd. unfold magnitude, exponent_field, fraction_field, sign_of. rewrite (land_ones' d 52), (land_ones' _ 11) by lia.
  rewrite !Z.shiftr_div_pow2 by lia. pose proof (Z.div_mod d (2 ^ 52) ltac:(lia)) as E1. pose proof (Z.mod_pos_bound d (2 ^ 52) ltac:(lia)).
  pose proof (Z.div_mod (d / 2 ^ 52) (2 ^ 11) ltac:(lia)) as E2. pose proof (Z.mod_pos_bound (d / 2 ^ 52) (2 ^ 11) ltac:(lia)).
  rewrite Z.div_div in E2 by lia. change (2 ^ 52 * 2 ^ 11) with (2 ^ 63) in E2.
  pose proof (Z.div_mod d (2 ^ 63) ltac:(lia)) as E3. pose proof (Z.mod_pos_bound d (2 ^ 63) ltac:(lia)) as Hmod.
  assert (0 ≤ d / 2 ^ 63 < 2) as Hs by (split; [apply Z.div_pos|apply Z.div_lt_upper_bound]; lia).
  split_and!; [lia|lia|lia|lia|lia|].
  replace (Z.shiftl (b2l (negb (d / 2 ^ 63 =? 0))) 63) with (Z.shiftl (d / 2 ^ 63) 63).
  - rewrite Z.lor_comm, Z.shiftl_mul_pow2 by lia. rewrite lor_high_low; [lia|lia|unfold fits; lia].
  - f_equal. destruct (Z.eqb_spec (d / 2 ^ 63) 0) as [->|]; [done|]. cbn. lia.
Qed.

(** The mantissa of 53 bits, and its exponent. *)
Definition mantissa_run_ok (d m e : Z) : Prop :=
  2 ^ 52 ≤ m < 2 ^ 53 ∧ -1073 ≤ e ≤ 1024 ∧ (e < -1021 → m mod 2 ^ (-1021 - e) = 0) ∧ pack m e = magnitude d.

Lemma normalise_run {S} d (s : S) :
  finite d → magnitude d ≠ 0 →
  let e := exponent_field d in
  let m := fraction_field d in
  ∃ m' e', (if e =? 0 then clz ← clz64 m; let l := clz - 11 in m ← shl64 m l; ret (m, e - (l - 1)) else ret (Z.lor m (2 ^ 52), e)) s
    = (Ok (m', e'), s) ∧ mantissa_run_ok d m' (e' - 1022).
Proof.
  intros [Hd Hfin] Hnz e m. destruct (fields d Hd) as (Emag & Hm & He & _). fold e m in Emag, Hm, He. fold (exponent_field d) in Hfin. fold e in Hfin.
  destruct (Z.eqb_spec e 0) as [E0|E0].
  - assert (0 < m) as Hm0 by lia. unfold clz64. destruct (Z.eqb_spec m 0); [lia|]. rewrite bind_ret. cbv zeta.
    pose proof (log2_bounds m Hm0) as [Hlo Hhi]. pose proof (Z.log2_nonneg m).
    assert (Z.log2 m < 52) as Hl by (apply Z.log2_lt_pow2; lia). set (l := 63 - Z.log2 m - 11).
    assert (Z.shiftl m l = m * 2 ^ l) as Esh by (apply Z.shiftl_mul_pow2; unfold l; lia).
    pose proof (Z.pow_pos_nonneg 2 l ltac:(lia) ltac:(unfold l; lia)).
    assert (2 ^ Z.log2 m * 2 ^ l = 2 ^ 52) as E52 by (rewrite <-Z.pow_add_r by (unfold l; lia); f_equal; unfold l; lia).
    assert (2 ^ 52 ≤ m * 2 ^ l < 2 ^ 53) as Hm2 by (change (2 ^ 53) with (2 * 2 ^ 52); nia).
    unfold shl64. destruct (Z.leb_spec 0 l), (Z.ltb_spec l 64); try (unfold l in *; lia). cbn [andb]. rewrite bind_ret.
    rewrite Esh. unfold u64. rewrite wrap_id by (unfold fits; lia). exists (m * 2 ^ l), (e - (l - 1)). split; [done|].
    assert (e - (l - 1) - 1022 = -1021 - l) as -> by lia. split_and!; [lia|lia|unfold l; lia|unfold l; lia| |].
    + intros _. replace (-1021 - (-1021 - l)) with l by lia. apply Z.mod_mul. lia.
    + unfold pack. destruct (Z.eqb_spec (m * 2 ^ l) 0); [lia|]. rewrite Z.gtb_ltb.
      destruct (Z.ltb_spec 1024 (-1021 - l)); [unfold l in *; lia|]. destruct (Z.ltb_spec (-1021 - l) (-1073)); [unfold l in *; lia|].
      destruct (Z.ltb_spec (-1021 - l) (-1021)); [|unfold l in *; lia]. replace (- (-1021 - l) - 1021) with l by lia.
      rewrite Z.shiftr_div_pow2, Z.div_mul by (unfold l in *; lia). lia.
  - exists (Z.lor m (2 ^ 52)), e. split; [done|].
    assert (Z.lor m (2 ^ 52) = m + 2 ^ 52) as ->.
    { rewrite Z.lor_comm. change (2 ^ 52) with (1 * 2 ^ 52) at 1. rewrite lor_high_low by (unfold fits; lia). lia. }
    split_and!; [lia|lia|lia|lia|lia|]. unfold pack. destruct (Z.eqb_spec (m + 2 ^ 52) 0); [lia|]. rewrite Z.gtb_ltb.
    destruct (Z.ltb_spec 1024 (e - 1022)); [lia|]. destruct (Z.ltb_spec (e - 1022) (-1073)); [lia|].
    destruct (Z.ltb_spec (e - 1022) (-1021)); [lia|]. replace (e - 1022 + 1022) with e by lia. rewrite or_fraction by lia. lia.
Qed.

(** ** What is read back *)

(** The text is read as the number [a], which is not 0 unless [a] is. *)
Definition reads (radix max_digits a : Z) (txt : list Z) : Prop :=
  ∃ n d, writes_numeral radix max_digits n d txt ∧ 0 < d ∧ if n =? 0 then a = 0 else 0 < n ∧ nearest_bits n d a.

Lemma stops_nul radix ep : 2 ≤ radix ≤ 36 → stops radix ep 0.
Proof.
  intros Hr. split; [done|]. change (to_digit 0) with 36. destruct ep; [lia|].
  split_and!; [lia|done| |done|done]. unfold is_mark. destruct (radix =? 10); [by intros [|]|done].
Qed.

Lemma reads_run `{BuildConfig} radix max_digits a txt flags (sgn : bool) rest tmp0 :
  2 ≤ radix ≤ 36 → has flags JS_ATOD_INT_ONLY = false → has flags JS_ATOD_ACCEPT_UNDERSCORES = false →
  atod_max_digits_table !! Z.to_nat (radix - 2) = Some max_digits → length (tab tmp0) = 52%nat → reads radix max_digits a txt →
  let text := (if sgn then [ $"-" ] else []) ++ txt in
  ∃ s', js_atod (text ++ 0 :: rest) flags radix tmp0 = (Ok (Z.lor a (Z.shiftl (b2l sgn) 63), Z.of_nat (length text)), s').
Proof.
  intros Hr Hint Hsep Hmax Htab (n & d & (ds & k & ep & -> & Hds & Hne & HI & Hep & Hlen & Hlen2 & Hn & Hdd) & Hd & Ha) text.
  destruct (js_atod_run radix flags (if sgn then Some true else None) ds k ep 0 rest Hr Hint Hsep Hds Hne HI Hep (stops_nul radix ep Hr)
    max_digits Hmax Hlen Hlen2 tmp0 Htab) as (a' & s' & E & Ha').
  exists s'. assert (a' = a) as ->.
  { rewrite Hn, Hdd in Ha'. unfold num in Hn. rewrite Z.pow_0_r, Z.mul_1_r in Hn.
    set (x := exponent_value ep - fraction_digits ds k) in *.
    pose proof (Z.pow_pos_nonneg radix (Z.max x 0) ltac:(lia) ltac:(lia)) as Hp.
    destruct (Z.eqb_spec n 0) as [En|En]; destruct (Z.eqb_spec (value radix (to_digit <$> ds)) 0) as [Ev|Ev]; try nia.
    destruct Ha. by apply (nearest_unique n d). }
  assert (sign_text (if sgn then Some true else None) = if sgn then [ $"-" ] else []) as Esg by by destruct sgn. rewrite Esg in E.
  assert (is_minus (if sgn then Some true else None) = sgn) as Emi by by destruct sgn. rewrite Emi in E.
  unfold text. rewrite <-!app_assoc. etransitivity; [exact E|]. do 3 f_equal. rewrite !length_app. cbn [length]. lia.
Qed.

(** The digits of the free format, and some more, are in what [js_atod] keeps. *)
Definition check_digits (radix : Z) : bool :=
  match dtoa_max_digits_table !! Z.to_nat (radix - 2), atod_max_digits_table !! Z.to_nat (radix - 2) with
  | Some p, Some n => (Z.land radix (radix - 1) =? 0) || (p + 4 <=? n)
  | _, _ => false
  end.

Lemma digits_checked : forallb check_digits (seqZ 2 35) = true.
Proof. vm_compute. reflexivity. Qed.

Lemma free_digits radix :
  2 ≤ radix ≤ 36 → Z.land radix (radix - 1) ≠ 0 →
  ∃ p n, dtoa_max_digits_table !! Z.to_nat (radix - 2) = Some p ∧ atod_max_digits_table !! Z.to_nat (radix - 2) = Some n ∧ p + 4 ≤ n.
Proof.
  intros Hr Hl. pose proof digits_checked as Hc. rewrite forallb_forall in Hc. specialize (Hc radix).
  assert (check_digits radix = true) as H by (apply Hc, list_elem_of_In, elem_of_seqZ; lia). clear Hc. unfold check_digits in H.
  destruct (dtoa_max_digits_table !! _) as [p|]; [|done]. destruct (atod_max_digits_table !! _) as [n|]; [|done].
  apply orb_true_iff in H as [H%Z.eqb_eq|H%Z.leb_le]; [done|]. by exists p, n.
Qed.

(** An integer under [2^53] is the double it is the mantissa of. *)
Lemma integer_nearest radix m e :
  2 ≤ radix → 2 ^ 52 ≤ m < 2 ^ 53 → 1 ≤ e ≤ 53 → m mod 2 ^ (53 - e) = 0 →
  nearest_bits (num (m / 2 ^ (53 - e)) 0 radix 0) (den 0 radix 0) (pack m e).
Proof.
  intros Hr Hm He Hmod. set (K := 3000). pose proof (W_pos radix K Hr (e - 53) 0 ltac:(lia) ltac:(lia)) as HW.
  pose proof (Z.pow_pos_nonneg 2 (53 - e) ltac:(lia) ltac:(lia)) as Hp. pose proof (Z.div_mod m (2 ^ (53 - e)) ltac:(lia)) as Edm.
  apply (reads_back radix K Hr ltac:(lia) _ _ (m * W radix K (e - 53) 0) 0); try done; try lia.
  rewrite num_scaled by lia. f_equal. pose proof (W_two radix K (e - 53) 0 (53 - e) ltac:(lia) ltac:(lia)) as E.
  replace (e - 53 + (53 - e)) with 0 in E by lia. rewrite E. nia.
Qed.

Section print.
Context `{BuildConfig} (radix rs p max_digits n_digits flags : Z).
Context (Hradix : 3 ≤ radix ≤ 36) (Hnp : Z.land radix (radix - 1) ≠ 0) (Hrs : 0 ≤ rs ≤ 5)
  (Hparts : radix = Z.shiftr radix rs * 2 ^ rs) (Hodd : odd_part (Z.shiftr radix rs)) (Hr1 : Z.shiftr radix rs ≠ 1).
Context (Hp : dtoa_max_digits_table !! Z.to_nat (radix - 2) = Some p) (Hmax : p + 4 ≤ max_digits).
Context (Hfmt : Z.land flags JS_DTOA_FORMAT_MASK = JS_DTOA_FORMAT_FREE)
  (Hexp : Z.land flags JS_DTOA_EXP_MASK = JS_DTOA_EXP_AUTO ∨ Z.land flags JS_DTOA_EXP_MASK = JS_DTOA_EXP_ENABLED).

(** The facts on the tables, at this radix. *)
Lemma tables : ∃ d, digits_per_limb_table !! Z.to_nat (Z.shiftr radix rs - 2) = Some d ∧ 1 ≤ d ≤ 32 ∧ 3 ≤ Z.shiftr radix rs ≤ 35 ∧
  Z.land (Z.shiftr radix rs) (Z.shiftr radix rs - 1) ≠ 0 ∧ 1 ≤ p ≤ 54 ∧ 2 ^ 53 < radix ^ (p - 1) ∧ 2 * radix ^ p < 2 ^ 64 ∧
  2 ^ 1023 < radix ^ (49 * d - 1) ∧ p ≤ 47 * d ∧ 2 ^ 1074 < radix ^ (47 * d - p).
Proof using Hradix Hnp Hrs Hodd Hr1 Hp.
  clear -Hradix Hnp Hrs Hodd Hr1 Hp. destruct Hodd as [|[H1 H2]]; [done|]. destruct (radix_tables (Z.shiftr radix rs)) as (d & Hd & _ & Hd1 & _); [lia|].
  destruct (dtoa_tables radix rs d) as (p' & Hp' & Hrest); [lia|done..|]. rewrite Hp in Hp'. injection Hp' as <-. by exists d.
Qed.

(** A number that is an integer: its digits. *)
Lemma integer_text_run v pre win t mm :
  0 ≤ v < 2 ^ 53 → p + 7 ≤ Z.of_nat (length win) →
  ∃ txt, writes (l ← on_out (u64toa_radix (Z.of_nat (length pre)) v radix); ret (Z.of_nat (length pre) + l)) pre win t mm txt ∧
    writes_numeral radix max_digits (num v 0 radix 0) (den 0 radix 0) txt ∧ Z.of_nat (length txt) ≤ p + 7.
Proof using All.
  intros Hv Hwin. destruct tables as (d & _ & _ & _ & _ & Hp54 & Hp53 & _).
  destruct (u64toa_radix_prints v radix) as (ds & Hc & Hvd & Hrun); [lia|lia|].
  assert (length ds ≤ Z.to_nat p)%nat as Hl.
  { apply (canonical_length radix); [lia|done| |lia]. rewrite Hvd, Z2Nat.id by lia.
    eapply Z.lt_le_trans; [apply Hv|]. eapply Z.lt_le_incl, Z.lt_le_trans; [exact Hp53|]. apply Z.pow_le_mono_r; lia. }
  destruct Hc as (Hds & Hne & _).
  pose proof (plain_numeral radix max_digits ds ltac:(lia) Hds Hne ltac:(lia) ltac:(lia) (Z.of_nat (length ds))) as Hnum.
  assert (1 ≤ length ds)%nat by (destruct ds; [done|cbn; lia]).
  rewrite Z.sub_diag, Z.min_id, Nat2Z.id, Hvd in Hnum. cbn [Z.to_nat replicate] in Hnum. unfold pointed in Hnum.
  rewrite length_fmap, Nat.eqb_refl, app_nil_r in Hnum.
  exists (digit_char <$> ds). split_and!; [|apply Hnum; lia|rewrite length_fmap; lia].
  exists t. erewrite bind_run by (apply on_out_run, Hrun; cbn [length]; lia). unfold ret. rewrite length_fmap. done.
Qed.

(** The number [m * 2^(e - 53)]. *)
Lemma print_finite_run m e pre win t mm :
  2 ^ 52 ≤ m < 2 ^ 53 → -1073 ≤ e ≤ 1024 → (e < -1021 → m mod 2 ^ (-1021 - e) = 0) →
  length (tab t) = 52%nat → p + 7 ≤ Z.of_nat (length win) →
  ∃ txt, writes (print_finite (Z.of_nat (length pre)) m e radix (Z.shiftr radix rs) rs n_digits flags) pre win t mm txt ∧
    reads radix max_digits (pack m e) txt ∧ Z.of_nat (length txt) ≤ p + 7.
Proof using All.
  intros Hm He Hsub Ht Hwin. unfold print_finite. rewrite Hfmt. cbn [Z.eqb JS_DTOA_FORMAT_FREE andb].
  destruct ((e >=? 1) && (e <=? 53) && (Z.land m (u64 (Z.shiftl 1 (53 - e)) - 1) =? 0) && negb (Z.land flags JS_DTOA_EXP_MASK =? JS_DTOA_EXP_ENABLED)) eqn:Ef.
  - rewrite !andb_true_iff, Z.geb_leb, !Z.leb_le, Z.eqb_eq in Ef. destruct Ef as [[[He1 He2] Hmask] _].
    pose proof (Z.pow_pos_nonneg 2 (53 - e) ltac:(lia) ltac:(lia)) as Hpw. pose proof (Z.pow_le_mono_r 2 (53 - e) 52 ltac:(lia) ltac:(lia)).
    rewrite Z.shiftl_1_l in Hmask. unfold u64 in Hmask. rewrite wrap_id in Hmask by (unfold fits; lia). rewrite (land_ones' m (53 - e)) in Hmask by lia.
    assert (0 < m / 2 ^ (53 - e) ≤ m) as Hv by (split; [apply Z.div_str_pos; lia|apply Z.div_le_upper_bound; nia]).
    destruct (integer_text_run (m / 2 ^ (53 - e)) pre win t mm) as (txt & Hw & Hnum & Hl); [lia|done|].
    exists txt. rewrite Z.shiftr_div_pow2 by lia. split_and!; [done| |done]. eexists _, _. split; [exact Hnum|]. split; [apply den_pos; lia|].
    assert (0 < num (m / 2 ^ (53 - e)) 0 radix 0) as Hpos by (unfold num; cbn [Z.max Z.pow]; lia).
    destruct (Z.eqb_spec (num (m / 2 ^ (53 - e)) 0 radix 0) 0); [lia|]. split; [done|]. apply integer_nearest; done || lia.
  - clear Ef. destruct tables as (d & Hd & Hd1 & Hr1b & Hr1l & Hp54 & Hp53 & Hp64 & Hbig & Hpd & Hsmall).
    destruct (mul_log2_radix_run (e - 1) radix (mem (pre ++ win) t mm)) as (k & Ek & Hk); [lia|lia|].
    destruct (E0_bounds radix (Z.shiftr radix rs) rs d p m e k Hradix Hparts Hrs Hr1b Hr1l Hd Hd1 Hp54 Hp53 Hp64 Hbig Hpd Hsmall Hm He Hsub Hk) as (_ & _ & HE0).
    destruct (free_format_run radix (Z.shiftr radix rs) rs d p m e k Hradix Hparts Hrs Hr1b Hr1l Hd Hd1 Hp54 Hp53 Hp64 Hbig Hpd Hsmall Hm He Hsub Hk
      (mem (pre ++ win) t mm) Hp Ht) as (P & E & mant & l & post & Erun & (HP & HE & Hmant & Hnear) & Hl & Hne & Htr & Hv & Hlen).
    destruct (output_number_run radix (Z.shiftr radix rs) rs p max_digits flags n_digits ltac:(lia) Hr1 Hp Hp54 Hmax Hfmt
      P E pre win l post mm Hexp HP ltac:(lia) Hl Hne Htr ltac:(lia) Hwin) as (txt & (t' & Hw) & Hnum & Hlt).
    exists txt. split_and!; [|exists (num mant 0 radix (E - P)), (den 0 radix (E - P)); rewrite Hv in Hnum|done].
    + exists t'. erewrite bind_run by exact Ek. cbv zeta. erewrite bind_run by exact Erun. cbv beta iota. exact Hw.
    + pose proof (Z.pow_pos_nonneg radix (P - 1) ltac:(lia) ltac:(lia)). split; [done|]. split; [apply den_pos; lia|].
      assert (0 < num mant 0 radix (E - P)) as Hpos.
      { unfold num. rewrite Z.pow_0_r, Z.mul_1_r. apply Z.mul_pos_pos; [lia|]. apply Z.pow_pos_nonneg; lia. }
      destruct (Z.eqb_spec (num mant 0 radix (E - P)) 0); [lia|done].
Qed.

(** Zero. *)
Lemma print_zero_run pre win post mm :
  p + 7 ≤ Z.of_nat (length win) →
  ∃ txt, writes (output_number (Z.of_nat (length pre)) radix (Z.shiftr radix rs) rs n_digits flags 1 1) pre win (mk [0] post) mm txt ∧
    reads radix max_digits 0 txt ∧ Z.of_nat (length txt) ≤ p + 7.
Proof using All.
  intros Hwin. destruct tables as (d & _ & _ & _ & _ & Hp54 & _).
  destruct (output_number_run radix (Z.shiftr radix rs) rs p max_digits flags n_digits ltac:(lia) Hr1 Hp Hp54 Hmax Hfmt
    1 1 pre win [0] post mm Hexp ltac:(lia) ltac:(lia)) as (txt & Hw & Hnum & Hlt); [apply Forall_singleton; unfold fits; lia|done|by left|cbn; lia|done|].
  exists txt. split_and!; [done| |done]. eexists _, _. split; [exact Hnum|]. split; [apply den_pos; lia|done].
Qed.

End print.

(** ** The whole text *)

Definition sign_chars (sgn : bool) : list Z := if sgn then [ $"-" ] else [].

Lemma put_sign_run sgn o t mm :
  o ≠ [] → put_sign sgn 0 (mem o t mm) = (Ok (Z.of_nat (length (sign_chars sgn))), mem (sign_chars sgn ++ drop (length (sign_chars sgn)) o) t mm).
Proof. intros Ho. destruct o as [|x o]; [done|]. by destruct sgn. Qed.

(** [m] prints the whole of [text] at the start of the buffer. *)
Definition prints_text (m : M dtoa_mem Z) (s : dtoa_mem) (text : list Z) : Prop :=
  ∃ t', m s = (Ok (Z.of_nat (length text)), mem (text ++ drop (length text) (out s)) t' (mant_max s)).

Lemma signed_text sgn (f : Z → M dtoa_mem Z) o t mm txt :
  o ≠ [] → writes (f (Z.of_nat (length (sign_chars sgn)))) (sign_chars sgn) (drop (length (sign_chars sgn)) o) t mm txt →
  prints_text (q ← put_sign sgn 0; f q) (mem o t mm) (sign_chars sgn ++ txt).
Proof.
  intros Ho (t' & E). exists t'. erewrite bind_run by by apply put_sign_run.
  etransitivity; [exact E|]. rewrite length_app, drop_drop, <-app_assoc. cbn [mem out mant_max]. f_equal. f_equal. lia.
Qed.

(** The terminator. *)
Lemma end_text m s text :
  prints_text m s text → (length text < length (out s))%nat →
  ∃ s', (q ← m; on_out (wr q 0);; ret q) s = (Ok (Z.of_nat (length text)), s') ∧ out s' = text ++ 0 :: drop (Datatypes.S (length text)) (out s).
Proof.
  intros (t' & E) Hl. erewrite bind_run by exact E.
  destruct (lookup_lt_is_Some_2 (out s) (length text) Hl) as [x Hx]. rewrite (drop_S _ _ _ Hx).
  exists (mem (text ++ 0 :: drop (Datatypes.S (length text)) (out s)) t' (mant_max s)). split; [|done].
  by erewrite bind_run by (apply on_out_run, wr_here; done).
Qed.

Section whole.
Context `{BuildConfig} (radix p max_digits n_digits flags d : Z) (s : dtoa_mem).
Context (Hradix : 3 ≤ radix ≤ 36) (Hnp : Z.land radix (radix - 1) ≠ 0) (Hd : finite d).
Context (Hp : dtoa_max_digits_table !! Z.to_nat (radix - 2) = Some p) (Hmax : p + 4 ≤ max_digits).
Context (Hfmt : Z.land flags JS_DTOA_FORMAT_MASK = JS_DTOA_FORMAT_FREE)
  (Hexp : Z.land flags JS_DTOA_EXP_MASK = JS_DTOA_EXP_AUTO ∨ Z.land flags JS_DTOA_EXP_MASK = JS_DTOA_EXP_ENABLED).
Context (Hout : p + 9 ≤ Z.of_nat (length (out s))) (Htab : length (tab (tmp1 s)) = 52%nat).

(** The sign that is printed: the one of a zero is an option. *)
Definition shows_sign : bool :=
  sign_of d && (negb (magnitude d =? 0) || negb (Z.land flags JS_DTOA_MINUS_ZERO =? 0)).

Lemma js_dtoa_run :
  ∃ txt s', js_dtoa d radix n_digits flags s = (Ok (Z.of_nat (length (sign_chars shows_sign ++ txt))), s') ∧
    out s' = (sign_chars shows_sign ++ txt) ++ 0 :: drop (Datatypes.S (length (sign_chars shows_sign ++ txt))) (out s) ∧
    reads radix max_digits (magnitude d) txt ∧ Z.of_nat (length (sign_chars shows_sign ++ txt)) ≤ p + 8.
Proof using All.
  destruct s as [o t mm]. cbn [out tmp1] in *. change {| out := o; tmp1 := t; mant_max := mm |} with (mem o t mm).
  destruct (radix_parts radix (mem o t mm)) as (rs & Ectz & Hrs & Hparts & Hodd & Hpow2); [lia|].
  assert (Z.shiftr radix rs ≠ 1) as Hr1 by (rewrite <-Hpow2; done).
  destruct (tables radix rs p Hradix Hnp Hrs Hodd Hr1 Hp) as (_ & _ & _ & _ & _ & Hp54 & _).
  destruct Hd as [Hd0 Hfin]. destruct (fields d Hd0) as (Emag & Hm & He & _).
  assert (∀ sgn, p + 7 ≤ Z.of_nat (length (drop (length (sign_chars sgn)) o))) as Hwin by (intros []; cbn [sign_chars length]; rewrite length_drop; lia).
  assert (o ≠ []) as Hone by (by destruct o; [cbn in Hout; lia|]).
  assert (∃ txt, prints_text (print_double d radix (Z.shiftr radix rs) rs n_digits flags) (mem o t mm) (sign_chars shows_sign ++ txt) ∧
    reads radix max_digits (magnitude d) txt ∧ Z.of_nat (length txt) ≤ p + 7) as (txt & Hprint & Hreads & Hlen).
  2:{ assert (Z.of_nat (length (sign_chars shows_sign ++ txt)) ≤ p + 8) as Hl by (rewrite length_app; destruct shows_sign; cbn; lia).
      destruct (end_text _ _ _ Hprint) as (s' & E & Hout'); [cbn [mem out]; lia|]. exists txt, s'. split_and!; [|done..].
      unfold js_dtoa. erewrite bind_run by apply MOE_ASSERT_true. erewrite bind_run by exact Ectz. exact E. }
  unfold print_double. fold (exponent_field d) (fraction_field d) (sign_of d). fold (exponent_field d) in Hfin.
  destruct (Z.eqb_spec (exponent_field d) 0x7ff); [done|].
  destruct (Z.eqb_spec (magnitude d) 0) as [Ez|Ez].
  - assert (exponent_field d = 0 ∧ fraction_field d = 0) as [-> ->] by lia. rewrite Hfmt. cbn [Z.eqb andb JS_DTOA_FORMAT_FREE].
    unfold shows_sign. rewrite Ez. cbn [Z.eqb negb orb]. set (sgn := sign_of d && negb (Z.land flags JS_DTOA_MINUS_ZERO =? 0)).
    destruct t as [len0 tab0]. cbn [tab] in Htab. destruct tab0 as [|t0 post]; [done|].
    destruct (print_zero_run radix rs p max_digits n_digits flags Hradix Hnp Hrs Hparts Hodd Hr1 Hp Hmax Hfmt Hexp (sign_chars sgn)
      (drop (length (sign_chars sgn)) o) post mm (Hwin sgn)) as (txt & Hw & Hreads & Hlen).
    exists txt. split_and!; [|done..]. destruct (signed_text _ (λ q, output_number q radix (Z.shiftr radix rs) rs n_digits flags 1 1) _ _ _ _ Hone Hw) as (t' & E).
    exists t'. by erewrite bind_run by (apply (on_tmp1_run _ tt o _ (mk [0] post)); done).
  - assert ((exponent_field d =? 0) && (fraction_field d =? 0) = false) as -> by
      (apply andb_false_iff; rewrite !Z.eqb_neq; lia).
    assert (shows_sign = sign_of d) as -> by (unfold shows_sign; destruct (Z.eqb_spec (magnitude d) 0); [done|]; cbn [negb orb]; apply andb_true_r).
    destruct (normalise_run d (mem o t mm)) as (m & e & E & Hm1 & He1 & Hsub & Hpack); [done|done|].
    destruct (print_finite_run radix rs p max_digits n_digits flags Hradix Hnp Hrs Hparts Hodd Hr1 Hp Hmax Hfmt Hexp m (e - 1022) (sign_chars (sign_of d))
      (drop (length (sign_chars (sign_of d))) o) t mm Hm1 He1 Hsub Htab (Hwin _)) as (txt & Hw & Hreads & Hlen).
    exists txt. rewrite <-Hpack. split_and!; [|done..].
    destruct (signed_text _ (λ q, print_finite q m (e - 1022) radix (Z.shiftr radix rs) rs n_digits flags) _ _ _ _ Hone Hw) as (t' & E2).
    exists t'. erewrite bind_run by exact E. exact E2.
Qed.

End whole.
