(* ===== verification/DtoaFrac.v ===== *)
(** * The fractional format: lemmas

    What [js_dtoa] prints with a given number of digits after the point. *)
From S2P Require Import Prelude CStd Words CUtils BigIntMp BigIntMpFacts Digits DigitsFacts BigIntToText DtoaMp.
From S2P Require Import DtoaMpFacts Dtoa Atod DtoaRoundFacts AtodFacts DtoaText.

(** ** The text *)

(** The digits before and after the point; no point without digits after it. *)
Definition frac_text (ip fp : list Z) : list Z :=
  (digit_char <$> ip) ++ match fp with [] => [] | _ => $"." :: (digit_char <$> fp) end.

Lemma frac_text_length ip fp : length (frac_text ip fp) = (length ip + length fp + if (length fp =? 0)%nat then 0 else 1)%nat.
Proof. unfold frac_text. rewrite length_app, length_fmap. destruct fp; cbn [length Nat.eqb]; [lia|]. rewrite length_fmap. cbn [length]. lia. Qed.

Lemma pointed_frac ds D : (D ≤ length ds)%nat → pointed (digit_char <$> ds) D = frac_text (take D ds) (drop D ds).
Proof.
  intros HD. unfold pointed, frac_text. rewrite length_fmap, fmap_take, fmap_drop. destruct (Nat.eqb_spec D (length ds)) as [->|Hne].
  - rewrite drop_ge by lia. by rewrite <-(length_fmap digit_char ds), firstn_all, app_nil_r.
  - destruct (drop D ds) as [|x l] eqn:Ed; [apply (f_equal length) in Ed; rewrite length_drop in Ed; cbn in Ed; lia|].
    rewrite <-fmap_drop, Ed. done.
Qed.

(** A 0 before another digit is not printed. *)
Definition no_zero (ip : list Z) : list Z :=
  match ip with 0 :: d :: ds => d :: ds | _ => ip end.

(** [m] prints [txt] at the end of [pre]; the buffer keeps its length. *)
Definition leaves (m : M dtoa_mem Z) (o : list Z) (pre : list Z) (t mm : mpb_t) (txt : list Z) : Prop :=
  ∃ t' rest, m (mem o t mm) = (Ok (Z.of_nat (length pre) + Z.of_nat (length txt)), mem (pre ++ txt ++ rest) t' mm) ∧
    length (pre ++ txt ++ rest) = length o.

Lemma digit_char_zero d : 0 ≤ d < 36 → (digit_char d =? $"0") = (d =? 0).
Proof. intros Hd. unfold digit_char. destruct (Z.ltb_spec d 10), (Z.eqb_spec d 0); first [apply Z.eqb_eq; lia|apply Z.eqb_neq; lia]. Qed.

Lemma digit_char_point d : 0 ≤ d < 36 → (digit_char d =? $".") = false.
Proof. intros Hd. unfold digit_char. apply Z.eqb_neq. destruct (Z.ltb_spec d 10); lia. Qed.

Lemma leading_zero_run radix ip fp pre rest t mm :
  2 ≤ radix ≤ 36 → Forall (in_radix radix) ip → ip ≠ [] →
  let q := Z.of_nat (length pre) in
  let len := Z.of_nat (length (frac_text ip fp)) in
  leaves (c0 ← on_out (limb q);
    extra ← (if (c0 =? $"0") && (len >=? 2) then c1 ← on_out (limb (q + 1)); ret (negb (c1 =? $".")) else ret false);
    if (extra : bool) then
      on_out (memmove q (q + 1) (len - 1));;
      ret (q + (len - 1))
    else ret (q + len)) (pre ++ frac_text ip fp ++ rest) pre t mm (frac_text (no_zero ip) fp).
Proof.
  intros Hr Hds Hne q len. destruct ip as [|d ip]; [done|]. apply Forall_cons in Hds as [Hd Hds]. unfold in_radix in Hd.
  set (tl := (digit_char <$> ip) ++ match fp with [] => [] | _ => $"." :: (digit_char <$> fp) end).
  assert (frac_text (d :: ip) fp = digit_char d :: tl) as Et by done. unfold len. rewrite Et.
  assert (∀ b, leaves (ret b) (pre ++ (digit_char d :: tl) ++ rest) pre t mm (digit_char d :: tl) ↔ b = q + Z.of_nat (S (length tl))) as Hstay.
  { intros b. split; [intros (t' & rest' & [= ->] & _); done|]. intros ->. by exists t, rest. }
  cbn [length]. unfold leaves. erewrite bind_run by (apply on_out_run, limb_run; done). rewrite digit_char_zero by lia.
  assert (no_zero (d :: ip) = if (d =? 0) && negb (length ip =? 0)%nat then ip else d :: ip) as ->.
  { unfold no_zero. destruct (Z.eqb_spec d 0) as [->|Hd0]; destruct ip as [|d2 ip]; try done; by destruct d. }
  destruct (Z.eqb_spec d 0) as [E0|E0]; cbn [andb].
  2:{ rewrite bind_ret, Et. by apply Hstay. }
  assert (∀ c l, tl = c :: l → on_out (limb (q + 1)) (mem (pre ++ (digit_char d :: tl) ++ rest) t mm) = (Ok c, mem (pre ++ (digit_char d :: tl) ++ rest) t mm)) as Hc.
  { intros c l ->. apply on_out_run. cbn [app]. change (pre ++ digit_char d :: c :: l ++ rest) with (pre ++ [digit_char d] ++ c :: l ++ rest).
    rewrite app_assoc. apply limb_run. rewrite length_app. cbn. unfold q. lia. }
  destruct ip as [|d2 ip]; cbn [length Nat.eqb negb].
  - assert (∀ s, (if Z.of_nat (S (length tl)) >=? 2 then c1 ← on_out (limb (q + 1)); ret (negb (c1 =? $".")) else ret false)
      (mem (pre ++ (digit_char d :: tl) ++ rest) t mm) = s → s = (Ok false, mem (pre ++ (digit_char d :: tl) ++ rest) t mm)) as Hx.
    { intros s <-. destruct fp as [|f fp]; [done|]. rewrite Z.geb_leb. destruct (Z.leb_spec 2 (Z.of_nat (S (length tl)))); [|done].
      by erewrite bind_run by by eapply Hc. }
    erewrite bind_run by (by eapply Hx). rewrite Et. by apply Hstay.
  - apply Forall_cons in Hds as [Hd2 _]. unfold in_radix in Hd2. rewrite Z.geb_leb.
    destruct (Z.leb_spec 2 (Z.of_nat (S (length tl)))) as [Hl|Hl]; [|unfold tl in Hl; cbn [fmap list_fmap app length] in Hl; lia].
    rewrite bind_bind. erewrite bind_run by by eapply Hc. rewrite bind_ret, digit_char_point by lia. cbn [negb].
    set (post := drop (length tl) (digit_char d :: tl) ++ rest).
    assert (pre ++ (digit_char d :: tl) ++ rest = pre ++ take (length tl) (digit_char d :: tl) ++ post) as Eo
      by (unfold post; by rewrite (app_assoc (take _ _)), take_drop).
    exists t, post. unfold memmove. rewrite Z.sub_1_r, Nat2Z.inj_succ, Z.pred_succ.
    assert (limbs (q + 1) (Z.of_nat (length tl)) (pre ++ (digit_char d :: tl) ++ rest) = (Ok tl, pre ++ (digit_char d :: tl) ++ rest)) as E1.
    { change (pre ++ (digit_char d :: tl) ++ rest) with (pre ++ [digit_char d] ++ tl ++ rest). rewrite app_assoc.
      assert (q + 1 = Z.of_nat (length (pre ++ [digit_char d]))) as -> by (rewrite length_app; cbn; unfold q; lia). apply limbs_run. }
    erewrite bind_run by (apply on_out_run; erewrite bind_run by exact E1; rewrite Eo; apply set_limbs_run; rewrite length_take; cbn [length]; lia).
    split; [done|]. rewrite Eo, !length_app, length_take. cbn [length]. unfold frac_text, no_zero, tl. lia.
Qed.

(** ** The digits *)

(** The number is [N / radix^n], and the digits are the ones of [N]. *)
Definition frac_digits (radix : Z) (n : nat) (N : Z) (ip fp : list Z) : Prop :=
  canonical radix ip ∧ Forall (in_radix radix) fp ∧ length fp = n ∧ value radix ip * radix ^ Z.of_nat n + value radix fp = N.

(** One digit too much on the left, or none. *)
Lemma whole_canonical radix ip :
  2 ≤ radix → Forall (in_radix radix) ip → ip ≠ [] →
  ((1 < length ip)%nat → radix ^ (Z.of_nat (length ip) - 2) ≤ value radix ip) →
  canonical radix (no_zero ip) ∧ value radix (no_zero ip) = value radix ip.
Proof.
  intros Hr Hds Hne Hv. destruct ip as [|d [|d2 ip]]; [done| |].
  - replace (no_zero [d]) with [d] by by destruct d. split; [|done]. apply canonical_one; [lia|by inversion Hds].
  - destruct (Z.eq_dec d 0) as [->|Hd].
    + cbn [no_zero]. rewrite (value_head radix Hr 0), Z.mul_0_l, Z.add_0_l in *. split; [|done]. apply Forall_cons in Hds as [_ Hds].
      apply canonical_intro; [done..|]. etransitivity; [|apply Hv; cbn; lia]. apply Z.pow_le_mono_r; cbn [length]; lia.
    + replace (no_zero (d :: d2 :: ip)) with (d :: d2 :: ip) by by destruct d. split; [|done]. split; [done|]. split; [done|right]. by intros [= E].
Qed.

Section frac.
Context `{BuildConfig} (radix rs m e k : Z) (n : nat).
Context (Hradix : 2 ≤ radix ≤ 36) (Hrs : 0 ≤ rs ≤ 5) (Hparts : radix = Z.shiftr radix rs * 2 ^ rs) (Hodd : odd_part (Z.shiftr radix rs)).
Context (Hm : 2 ^ 52 ≤ m < 2 ^ 53) (He : -1073 ≤ e ≤ 1024) (Hn : (n ≤ 101)%nat) (Hk : is_floor_log radix (e - 1) k).

Let D : nat := Z.to_nat (Z.max (1 + k + 1) 1).

Lemma frac_room : room 52 m (e - 53) (Z.shiftr radix rs) rs (Z.of_nat n).
Proof using All.
  unfold room. assert ((0 <=? Z.of_nat n) = true) as -> by (apply Z.leb_le; lia). rewrite orb_true_r, Z.max_l by lia.
  assert (0 < Z.shiftr radix rs) as H0 by (clear -Hodd; destruct Hodd; lia).
  assert (Z.shiftr radix rs ^ Z.of_nat n * 2 ^ Z.max (e - 53 + Z.of_nat n * rs) 0 ≤ radix ^ Z.of_nat n * 2 ^ 971) as H1.
  { rewrite Hparts at 2. rewrite Z.pow_mul_l, <-Z.pow_mul_r, <-Z.mul_assoc, <-Z.pow_add_r by nia.
    apply Z.mul_le_mono_nonneg_l; [apply Z.pow_nonneg; lia|]. apply Z.pow_le_mono_r; nia. }
  assert (radix ^ Z.of_nat n ≤ 2 ^ 525) as H2.
  { transitivity (36 ^ 101); [|apply Z.leb_le; vm_compute; reflexivity].
    transitivity (36 ^ Z.of_nat n); [apply Z.pow_le_mono_l|apply Z.pow_le_mono_r]; lia. }
  rewrite <-Z.mul_assoc. apply Z.le_lt_trans with (m * (2 ^ 525 * 2 ^ 971)).
  - apply Z.mul_le_mono_nonneg_l; [lia|]. etransitivity; [exact H1|]. apply Z.mul_le_mono_nonneg_r; lia.
  - rewrite <-Z.pow_add_r by lia. apply Z.lt_le_trans with (2 ^ 53 * 2 ^ (525 + 971)); [lia|]. rewrite <-Z.pow_add_r by lia. apply Z.pow_le_mono_r; lia.
Qed.

(** The number is under [2^e]. *)
Lemma scaled_bounds :
  num m (e - 53) radix (Z.of_nat n) ≤ 2 ^ Z.max e 0 * radix ^ Z.of_nat n * den (e - 53) radix (Z.of_nat n) ∧
  (1 ≤ e → 2 ^ (e - 1) * radix ^ Z.of_nat n * den (e - 53) radix (Z.of_nat n) ≤ num m (e - 53) radix (Z.of_nat n)).
Proof using All.
  unfold num, den. rewrite (Z.max_l (Z.of_nat n)), (Z.max_r (- Z.of_nat n)), Z.pow_0_r, Z.mul_1_r by lia.
  pose proof (Z.pow_pos_nonneg radix (Z.of_nat n) ltac:(lia) ltac:(lia)) as Hp. set (w := radix ^ Z.of_nat n) in *.
  assert (∀ a, 0 ≤ a + 53 → 2 ^ 53 * 2 ^ Z.max a 0 ≤ 2 ^ Z.max (a + 53) 0 * 2 ^ Z.max (- a) 0) as Ha
    by (intros; rewrite <-!Z.pow_add_r by lia; apply Z.pow_le_mono_r; lia).
  split.
  - assert (m * 2 ^ Z.max (e - 53) 0 ≤ 2 ^ Z.max e 0 * 2 ^ Z.max (- (e - 53)) 0) as H1; [|nia].
    transitivity (2 ^ 53 * 2 ^ Z.max (e - 53) 0); [apply Z.mul_le_mono_nonneg_r; [apply Z.pow_nonneg|]; lia|].
    rewrite <-!Z.pow_add_r by lia. apply Z.pow_le_mono_r; lia.
  - intros He1. assert (2 ^ (e - 1) * 2 ^ Z.max (- (e - 53)) 0 ≤ m * 2 ^ Z.max (e - 53) 0) as H1; [|nia].
    transitivity (2 ^ 52 * 2 ^ Z.max (e - 53) 0); [|apply Z.mul_le_mono_nonneg_r; [apply Z.pow_nonneg|]; lia].
    rewrite <-!Z.pow_add_r by lia. apply Z.pow_le_mono_r; lia.
Qed.

Lemma frac_size N :
  rounds JS_RNDNA (num m (e - 53) radix (Z.of_nat n)) (den (e - 53) radix (Z.of_nat n)) N →
  0 ≤ N < radix ^ Z.of_nat (D + n) ∧ ((1 < D)%nat → radix ^ Z.of_nat (D - 2 + n) ≤ N).
Proof using All.
  intros HN. destruct scaled_bounds as [Hhi Hlo]. pose proof (den_pos (e - 53) radix (Z.of_nat n) ltac:(lia)) as Hd.
  pose proof (Z.pow_pos_nonneg radix (Z.of_nat n) ltac:(lia) ltac:(lia)) as Hpn.
  assert (0 ≤ N) as H0.
  { apply (rounds_between _ _ _ _ 0 (num m (e - 53) radix (Z.of_nat n)) Hd HN). assert (0 ≤ num m (e - 53) radix (Z.of_nat n)); [|nia].
    unfold num. repeat apply Z.mul_nonneg_nonneg; try apply Z.pow_nonneg; lia. }
  assert (N ≤ 2 ^ Z.max e 0 * radix ^ Z.of_nat n) as Hup.
  { destruct (Z.le_gt_cases N (2 ^ Z.max e 0 * radix ^ Z.of_nat n)) as [|Hgt]; [done|].
    eapply (rounds_between _ _ _ _ 0 _ Hd HN). split; [|exact Hhi]. assert (0 ≤ num m (e - 53) radix (Z.of_nat n)); [|lia].
    unfold num. repeat apply Z.mul_nonneg_nonneg; try apply Z.pow_nonneg; lia. }
  unfold is_floor_log in Hk. destruct (Z.leb_spec 0 (e - 1)) as [He1|He1].
  - destruct Hk as (Hk0 & Hk1 & Hk2). assert (Z.of_nat D = k + 2) as ED by (unfold D; lia).
    rewrite Z.max_l in Hup by lia. replace e with (e - 1 + 1) in Hup by lia. rewrite Z.pow_add_r in Hup by lia. change (2 ^ 1) with 2 in Hup. split.
    + split; [done|]. rewrite Nat2Z.inj_add, ED. replace (k + 2 + Z.of_nat n) with (k + 1 + 1 + Z.of_nat n) by lia.
      rewrite (Z.pow_add_r radix (k + 1 + 1)), (Z.pow_add_r radix (k + 1) 1), Z.pow_1_r by lia.
      eapply Z.le_lt_trans; [exact Hup|]. apply Z.mul_lt_mono_pos_r; [done|]. apply Z.lt_le_trans with (radix ^ (k + 1) * 2); [lia|].
      apply Z.mul_le_mono_nonneg_l; lia.
    + intros _. assert (Z.of_nat (D - 2 + n) = k + Z.of_nat n) as -> by lia. rewrite Z.pow_add_r by lia.
      assert (2 ^ (e - 1) * radix ^ Z.of_nat n ≤ N); [|nia].
      apply (rounds_between _ _ _ _ _ (num m (e - 53) radix (Z.of_nat n)) Hd HN). split; [apply Hlo; lia|].
      assert (0 ≤ num m (e - 53) radix (Z.of_nat n)); [|nia]. unfold num. repeat apply Z.mul_nonneg_nonneg; try apply Z.pow_nonneg; lia.
  - destruct Hk as (Hk0 & _). assert (D = 1)%nat as -> by (unfold D; lia). rewrite Z.max_r, Z.pow_0_r in Hup by lia. split; [|lia].
    split; [done|]. rewrite Nat2Z.inj_add. change (Z.of_nat 1) with 1. rewrite Z.pow_add_r, Z.pow_1_r by lia. nia.
Qed.

Lemma frac_format_run pre win t mm :
  length (tab t) = 52%nat → (D + n + 1 ≤ length win)%nat →
  ∃ N ip fp, leaves (frac_format (Z.of_nat (length pre)) m e radix (Z.shiftr radix rs) rs (Z.of_nat n) (1 + k)) (pre ++ win) pre t mm (frac_text ip fp) ∧
    rounds JS_RNDNA (num m (e - 53) radix (Z.of_nat n)) (den (e - 53) radix (Z.of_nat n)) N ∧
    frac_digits radix n N ip fp ∧ (length (frac_text ip fp) ≤ D + n + 1)%nat.
Proof using All.
  intros Ht Hwin. destruct t as [len0 tab0]. cbn [tab] in Ht. destruct tab0 as [|x [|y post0]]; [done..|]. cbn [length] in Ht.
  destruct (mul_pow_round_run m (e - 53) (Z.shiftr radix rs) rs (Z.of_nat n) JS_RNDNA x y post0 len0) as (l & post & E1 & Hl & Hne & Htr & _ & HN);
    [lia|done|lia|lia|replace (S (S (length post0))) with 52%nat by lia; exact frac_room|].
  rewrite <-Hparts in HN. destruct (frac_size _ HN) as [Hsize Hlow]. set (N := (D + n)%nat) in *.
  set (w := (N + if (D =? N)%nat then 0 else 1)%nat). assert (1 ≤ D)%nat as HD by (unfold D; lia).
  assert (w ≤ D + n + 1)%nat as Hw by (unfold w, N; destruct (D =? D + n)%nat; lia).
  destruct (output_digits_run radix N D pre (take w win) (drop w win) l post mm) as (ds & l' & post' & E2 & Hds & Hlds & Evds & _);
    [done|unfold N; lia|unfold N; lia|done|done|done|apply Hsize|rewrite length_take; unfold w; lia|]. rewrite take_drop in E2.
  rewrite pointed_frac in E2 by (unfold N in *; lia). set (ip := take D ds) in *. set (fp := drop D ds) in *.
  assert (length ip = D) as Hip by (unfold ip; rewrite length_take; unfold N in *; lia).
  assert (length fp = n) as Hfp by (unfold fp; rewrite length_drop; unfold N in *; lia).
  assert (Forall (in_radix radix) ip) as Hdip by (by apply Forall_take).
  assert (Forall (in_radix radix) fp) as Hdfp by (by apply Forall_drop).
  assert (value radix ip * radix ^ Z.of_nat n + value radix fp = val l) as Ev.
  { rewrite <-Evds. rewrite <-(take_drop D ds), value_app by lia. fold ip fp. by rewrite Hfp. }
  assert (ip ≠ []) as Hipne by (intros E; rewrite E in Hip; cbn in Hip; lia).
  destruct (whole_canonical radix ip) as [Hcan Hval]; [lia|done|done| |].
  { rewrite Hip. intros HD1. specialize (Hlow HD1). pose proof (value_range radix ltac:(lia) fp Hdfp) as Hrf. rewrite Hfp in Hrf.
    replace (Z.of_nat (D - 2 + n)) with (Z.of_nat D - 2 + Z.of_nat n) in Hlow by lia. rewrite Z.pow_add_r in Hlow by lia.
    pose proof (Z.pow_pos_nonneg radix (Z.of_nat n) ltac:(lia) ltac:(lia)). nia. }
  pose proof (frac_text_length ip fp) as Hfl. rewrite Hip, Hfp in Hfl.
  assert (length (no_zero ip) ≤ D)%nat as Hnz by (rewrite <-Hip; destruct ip as [|[] [|? ?]]; cbn; lia).
  exists (val l), (no_zero ip), fp. split_and!; [|done|split_and!; [done..|by rewrite Hval]|].
  2:{ rewrite frac_text_length, Hfp. destruct (n =? 0)%nat; lia. }
  destruct (leading_zero_run radix ip fp pre (drop w win) (mk l' post') mm Hradix Hdip Hipne) as (t' & rest & E3 & Hlen).
  exists t', rest. split; [|rewrite Hlen, !length_app, Hfl, length_drop; unfold w, N in *; destruct (Nat.eqb_spec D (D + n)), (Nat.eqb_spec n 0); lia].
  unfold frac_format. unfold JS_DTOA_MAX_DIGITS.
  assert ((Z.of_nat n >=? 0) && (Z.of_nat n <=? 101) = true) as -> by (apply andb_true_iff; rewrite Z.geb_leb, !Z.leb_le; lia).
  erewrite bind_run by apply MOE_ASSERT_true. erewrite bind_run by (apply on_tmp1_run; exact E1).
  assert (max_int (1 + k + 1) 1 = Z.of_nat D) as -> by (unfold max_int, D; rewrite Z.gtb_ltb; destruct (Z.ltb_spec 1 (1 + k + 1)); lia).
  rewrite <-Nat2Z.inj_add. fold N. erewrite bind_run by exact E2. exact E3.
Qed.

End frac.

(** Zero: a 0, the point, and [n] zeros. *)
Lemma frac_zero_run `{BuildConfig} radix radix1 rs (n : nat) flags pre win post mm :
  2 ≤ radix ≤ 36 → (length post ≤ 1000)%nat →
  Z.land flags JS_DTOA_FORMAT_MASK = JS_DTOA_FORMAT_FRAC → Z.land flags JS_DTOA_EXP_MASK ≠ JS_DTOA_EXP_ENABLED → (n + 2 ≤ length win)%nat →
  ∃ ip fp, leaves (output_number (Z.of_nat (length pre)) radix radix1 rs (Z.of_nat n) flags (Z.of_nat n + 1) 1) (pre ++ win) pre (mk [0] post) mm (frac_text ip fp) ∧
    frac_digits radix n 0 ip fp ∧ (length (frac_text ip fp) ≤ n + 2)%nat.
Proof.
  intros Hr Hpost Hfmt Hexp Hwin. set (w := (n + 1 + if (1 =? n + 1)%nat then 0 else 1)%nat).
  assert (w ≤ n + 2)%nat as Hw by (unfold w; destruct (1 =? n + 1)%nat; lia).
  destruct (output_digits_run radix (n + 1) 1 pre (take w win) (drop w win) [0] post mm) as (ds & l' & post' & E & Hds & Hlds & Ev & _);
    [done|lia|lia|apply Forall_singleton; unfold fits; lia|done|by left|cbn [val]; apply Z.pow_pos_nonneg; lia|rewrite length_take; unfold w; lia|].
  rewrite take_drop, pointed_frac in E by lia. destruct ds as [|x fp]; [cbn in Hlds; lia|]. apply Forall_cons in Hds as [Hx Hfp].
  cbn [take drop length] in *. exists [x], fp. pose proof (frac_text_length [x] fp) as Hfl. cbn [length] in Hfl.
  rewrite value_head in Ev by lia. cbn [val] in Ev. pose proof (value_range radix ltac:(lia) fp Hfp). unfold in_radix in Hx.
  assert (length fp = n) as Hn by lia. rewrite Hn in *. pose proof (Z.pow_pos_nonneg radix (Z.of_nat n) ltac:(lia) ltac:(lia)).
  split_and!; [|split_and!; [apply canonical_one; [lia|done]|done|done|unfold value at 1; cbn; lia]|rewrite Hfl; destruct (n =? 0)%nat; lia].
  exists (mk l' post'), (drop w win). split.
  2:{ rewrite !length_app, Hfl, length_drop. unfold w in *. destruct (Nat.eqb_spec n 0), (Nat.eqb_spec 1 (n + 1)); lia. }
  unfold output_number. rewrite Hfmt. change (JS_DTOA_FORMAT_FRAC =? JS_DTOA_FORMAT_FIXED) with false. cbv iota zeta.
  destruct (lookup_lt_is_Some_2 dtoa_max_digits_table (Z.to_nat (radix - 2))) as [p Hp]; [cbn; lia|].
  assert (0 < p) as Hp0 by (eapply Forall_lookup_1 in Hp; [exact Hp|]; by repeat (constructor; [done|])).
  rewrite bind_bind. erewrite bind_run by (apply rd_run; [lia|exact Hp]). rewrite bind_ret.
  destruct (Z.eqb_spec (Z.land flags JS_DTOA_EXP_MASK) JS_DTOA_EXP_ENABLED); [done|]. cbn [orb].
  assert ((1 <=? -6) || (1 >? p + 4) = false) as -> by (apply orb_false_iff; rewrite Z.gtb_ltb, Z.leb_gt, Z.ltb_ge; lia). rewrite andb_false_r.
  change (1 <=? 0) with false. cbv iota. assert (min_int (Z.of_nat n + 1) 1 = Z.of_nat 1) as -> by (unfold min_int; destruct (Z.ltb_spec (Z.of_nat n + 1) 1); lia).
  replace (Z.of_nat n + 1) with (Z.of_nat (n + 1)) by lia. erewrite bind_run by exact E.
  pose proof (put_zeros_run (pre ++ frac_text [x] fp) (drop w win) (mk l' post') mm (1 - Z.of_nat (n + 1)) ltac:(lia)) as Ez.
  replace (Z.to_nat (1 - Z.of_nat (n + 1))) with 0%nat in Ez by lia. cbn [replicate app] in Ez.
  rewrite drop_0, Z.max_r, Z.add_0_r, length_app, Nat2Z.inj_add, <-!app_assoc in Ez by lia. exact Ez.
Qed.

(** ** The room announced *)

Lemma floor_log_step radix a k k' : 2 ≤ radix → 0 ≤ a → is_floor_log radix a k → is_floor_log radix (a - 1) k' → k ≤ k' + 1.
Proof.
  intros Hr Ha Hk Hk'. unfold is_floor_log in *. destruct (Z.leb_spec 0 a); [|lia]. destruct (Z.leb_spec 0 (a - 1)) as [H1|H1].
  - destruct Hk as (H0 & Hlo & _), Hk' as (H0' & _ & Hhi). apply Z.lt_succ_r, (Z.pow_lt_mono_r_iff radix); [lia|lia|].
    replace a with (a - 1 + 1) in Hlo by lia. rewrite Z.pow_add_r, Z.pow_1_r in Hlo by lia.
    replace (Z.succ (k' + 1)) with (k' + 1 + 1) by lia. rewrite (Z.pow_add_r radix (k' + 1)), Z.pow_1_r by lia. nia.
  - assert (a = 0) as -> by lia. destruct Hk as (H0 & Hlo & _), Hk' as (H0' & Hlo' & _).
    assert (k = 0) as ->. { destruct (Z.eq_dec k 0); [done|]. pose proof (Z.pow_gt_1 radix k ltac:(lia)) as [Hg _]. specialize (Hg ltac:(lia)). cbn in Hlo. lia. }
    destruct (Z.eq_dec (- k' - 1) 0); [lia|]. pose proof (Z.pow_le_mono_r radix 1 (- k' - 1) ltac:(lia) ltac:(lia)). rewrite Z.pow_1_r in *. cbn in Hlo'. lia.
Qed.

Lemma frac_max_len {S} d radix (n : nat) flags len k (s : S) :
  finite d → 2 ≤ radix ≤ 36 → Z.land flags JS_DTOA_FORMAT_MASK = JS_DTOA_FORMAT_FRAC →
  js_dtoa_max_len d radix (Z.of_nat n) flags s = (Ok len, s) →
  Z.of_nat n + 4 ≤ len ∧ (1023 ≤ exponent_field d → is_floor_log radix (exponent_field d - 1023) k → Z.of_nat n + k + 4 ≤ len).
Proof.
  intros [Hd Hfin] Hr Hfmt. destruct (fields d Hd) as (_ & _ & He & _). unfold js_dtoa_max_len. rewrite Hfmt. fold (exponent_field d) in *.
  change (JS_DTOA_FORMAT_FRAC =? JS_DTOA_FORMAT_FRAC) with true. cbn [negb]. destruct (Z.eqb_spec (exponent_field d) 0x7ff); [done|]. cbv zeta.
  destruct (Z.ltb_spec (exponent_field d - 1023) 0) as [Hlt|Hge].
  - rewrite !bind_bind, !bind_ret. unfold ret, max_int. intros [= <-]. rewrite Z.gtb_ltb. destruct (Z.ltb_spec 9 (1 + (1 + 1 + 1 + Z.of_nat n))); split; lia.
  - destruct (mul_log2_radix_run (exponent_field d - 1023 - 1) radix s) as (k' & Ek & Hk'); [lia|done|].
    rewrite !bind_bind. erewrite bind_run by exact Ek. rewrite !bind_ret. unfold ret, max_int. intros [= <-]. rewrite Z.gtb_ltb.
    assert (- 1 ≤ k') as Hk1.
    { unfold is_floor_log in Hk'. destruct (Z.leb_spec 0 (exponent_field d - 1023 - 1)); [lia|].
      replace (exponent_field d - 1023 - 1) with (-1) in Hk' by lia. destruct Hk' as (H0 & Hlo & _).
      destruct (Z.eq_dec (- k' - 1) 0); [lia|]. pose proof (Z.pow_le_mono_r radix 1 (- k' - 1) ltac:(lia) ltac:(lia)). rewrite Z.pow_1_r in *. cbn in Hlo. lia. }
    assert (is_floor_log radix (exponent_field d - 1023) k → k ≤ k' + 1) as Hstep by (intros Hk; apply (floor_log_step radix (exponent_field d - 1023)); [lia|lia|exact Hk|exact Hk']).
    destruct (Z.ltb_spec 9 (2 + k' + (1 + 1 + 1 + Z.of_nat n))); (split; [lia|]); intros _ Hk; specialize (Hstep Hk); lia.
Qed.

(** ** The whole text *)

(** A finite double is [integer_part d * 2^(scale d)], without its sign. *)
Definition significand (d : Z) : Z := fraction_field d + (if exponent_field d =? 0 then 0 else 2 ^ 52).
Definition scale (d : Z) : Z := Z.max (exponent_field d) 1 - 1075.

(** [N] is the double times [radix^n], rounded to an integer, ties away from 0. *)
Definition rounded_scaled (d radix : Z) (n : nat) (N : Z) : Prop :=
  rounds JS_RNDNA (num (significand d) (scale d) radix (Z.of_nat n)) (den (scale d) radix (Z.of_nat n)) N.

Lemma normalised_scaled {S} d (s : S) :
  finite d → magnitude d ≠ 0 →
  ∃ m e, (if exponent_field d =? 0 then clz ← clz64 (fraction_field d); let l := clz - 11 in m ← shl64 (fraction_field d) l; ret (m, exponent_field d - (l - 1))
          else ret (Z.lor (fraction_field d) (2 ^ 52), exponent_field d)) s = (Ok (m, e), s) ∧
    2 ^ 52 ≤ m < 2 ^ 53 ∧ -1073 ≤ e - 1022 ≤ 1024 ∧ (exponent_field d = 0 → e ≤ 0) ∧ (exponent_field d ≠ 0 → e = exponent_field d) ∧
    ∀ radix (n : nat) N, 2 ≤ radix → rounds JS_RNDNA (num m (e - 1022 - 53) radix (Z.of_nat n)) (den (e - 1022 - 53) radix (Z.of_nat n)) N → rounded_scaled d radix n N.
Proof.
  intros Hd Hnz. destruct (normalise_run d s Hd Hnz) as (m & e & E & Hm & He & Hsub & Hpack). exists m, e. split; [exact E|].
  destruct Hd as [Hd Hfin]. destruct (fields d Hd) as (Emag & Hf & Hef & _). fold (exponent_field d) in Hfin.
  assert (∃ l, 0 ≤ l ∧ m = significand d * 2 ^ l ∧ e - 1022 - 53 = scale d - l ∧ (exponent_field d = 0 → 1 ≤ l) ∧ (exponent_field d ≠ 0 → l = 0))
    as (l & Hl & El & Es & Hl1 & Hl0).
  { unfold significand, scale. destruct (Z.eqb_spec (exponent_field d) 0) as [E0|E0].
    - assert (0 < fraction_field d) as Hf0 by lia. unfold clz64 in E. destruct (Z.eqb_spec (fraction_field d) 0); [lia|]. rewrite bind_ret in E. cbv zeta in E.
      pose proof (Z.log2_nonneg (fraction_field d)). assert (Z.log2 (fraction_field d) < 52) as Hlog by (apply Z.log2_lt_pow2; lia).
      pose proof (log2_bounds _ Hf0) as [_ Hhi]. exists (63 - Z.log2 (fraction_field d) - 11). unfold shl64 in E.
      destruct (Z.leb_spec 0 (63 - Z.log2 (fraction_field d) - 11)), (Z.ltb_spec (63 - Z.log2 (fraction_field d) - 11) 64); try lia. cbn [andb] in E. rewrite bind_ret in E.
      injection E as Em Ee. rewrite Z.shiftl_mul_pow2 in Em by lia. unfold u64 in Em. rewrite wrap_id in Em.
      { split_and!; lia. }
      assert (fraction_field d * 2 ^ (63 - Z.log2 (fraction_field d) - 11) ≤ 2 * 2 ^ Z.log2 (fraction_field d) * 2 ^ (63 - Z.log2 (fraction_field d) - 11)) as Hup
        by (apply Z.mul_le_mono_nonneg_r; [apply Z.pow_nonneg|]; lia).
      rewrite <-Z.mul_assoc, <-Z.pow_add_r in Hup by lia. replace (Z.log2 (fraction_field d) + _) with 52 in Hup by lia.
      unfold fits. split; [apply Z.mul_nonneg_nonneg; [lia|apply Z.pow_nonneg; lia]|lia].
    - injection E as Em Ee. exists 0. rewrite <-Em, Z.lor_comm. change (2 ^ 52) with (1 * 2 ^ 52) at 1. rewrite lor_high_low by (unfold fits; lia). split_and!; lia. }
  split_and!; try lia; [unfold scale in Es; intros; specialize (Hl1 ltac:(done)); lia|unfold scale in Es; intros; specialize (Hl0 ltac:(done)); lia|].
  intros radix n N Hr. unfold rounded_scaled. apply rounds_ratio; [apply den_pos; lia|apply den_pos; lia|].
  rewrite Es, El. unfold num, den.
  assert (2 ^ l * 2 ^ Z.max (scale d - l) 0 * 2 ^ Z.max (- scale d) 0 = 2 ^ Z.max (scale d) 0 * 2 ^ Z.max (- (scale d - l)) 0) as E2
    by (rewrite <-!Z.pow_add_r by lia; f_equal; lia).
  transitivity (significand d * radix ^ Z.max (Z.of_nat n) 0 * radix ^ Z.max (- Z.of_nat n) 0 * (2 ^ l * 2 ^ Z.max (scale d - l) 0 * 2 ^ Z.max (- scale d) 0)); [ring|].
  rewrite E2. ring.
Qed.

Lemma zero_rounds e radix f : 0 < radix → rounds JS_RNDNA (num 0 e radix f) (den e radix f) 0.
Proof. intros Hr. pose proof (den_pos e radix f Hr). cbn [rounds]. unfold num. rewrite !Z.mul_0_l. cbn. lia. Qed.

(** The sign and the end around a text left in the buffer. *)
Lemma signed_leaves sgn (f : Z → M dtoa_mem Z) o t mm txt :
  o ≠ [] → leaves (f (Z.of_nat (length (sign_chars sgn)))) (sign_chars sgn ++ drop (length (sign_chars sgn)) o) (sign_chars sgn) t mm txt →
  leaves (q ← put_sign sgn 0; f q) o [] t mm (sign_chars sgn ++ txt).
Proof.
  intros Ho (t' & rest & E & Hl). exists t', rest. erewrite bind_run by by apply put_sign_run.
  rewrite <-!app_assoc in *. cbn [app length]. split.
  - etransitivity; [exact E|]. f_equal. f_equal. rewrite length_app. lia.
  - etransitivity; [exact Hl|]. rewrite length_app, length_drop. destruct sgn, o; cbn; done || lia.
Qed.

Lemma end_leaves m o t mm text :
  leaves m o [] t mm text → (length text < length o)%nat →
  ∃ s' rest, (q ← m; on_out (wr q 0);; ret q) (mem o t mm) = (Ok (Z.of_nat (length text)), s') ∧ out s' = text ++ 0 :: rest ∧ length (out s') = length o.
Proof.
  intros (t' & rest & E & Hl) Hlt. cbn [app length] in *. erewrite bind_run by exact E. rewrite length_app in Hl.
  destruct rest as [|x rest]; [cbn in Hl; lia|]. exists (mem (text ++ 0 :: rest) t' mm), rest. cbn [Z.of_nat Z.add].
  split_and!; [by erewrite bind_run by (apply on_out_run, wr_here; done)|done|].
  cbn [mem out]. rewrite length_app. cbn [length] in *. lia.
Qed.

Lemma print_frac_run `{BuildConfig} d radix rs (n : nat) flags len o t mm :
  finite d → 2 ≤ radix ≤ 36 → 0 ≤ rs ≤ 5 → radix = Z.shiftr radix rs * 2 ^ rs → odd_part (Z.shiftr radix rs) →
  Z.land flags JS_DTOA_FORMAT_MASK = JS_DTOA_FORMAT_FRAC → Z.land flags JS_DTOA_EXP_MASK ≠ JS_DTOA_EXP_ENABLED → (n ≤ 101)%nat →
  js_dtoa_max_len d radix (Z.of_nat n) flags (mem o t mm) = (Ok len, mem o t mm) → len < Z.of_nat (length o) → length (tab t) = 52%nat →
  ∃ N ip fp, leaves (print_double d radix (Z.shiftr radix rs) rs (Z.of_nat n) flags) o [] t mm (sign_chars (shows_sign flags d) ++ frac_text ip fp) ∧
    rounded_scaled d radix n N ∧ frac_digits radix n N ip fp ∧ Z.of_nat (length (sign_chars (shows_sign flags d) ++ frac_text ip fp)) ≤ len.
Proof.
  intros Hd Hr Hrs Hparts Hodd Hfmt Hexp Hn Hlen Hout Ht. pose proof Hd as [Hd0 Hfin]. destruct (fields d Hd0) as (Emag & Hm & He & _).
  destruct (frac_max_len d radix n flags len 0 _ Hd Hr Hfmt Hlen) as [Hlen0 _]. assert (o ≠ []) as Ho by (destruct o; [cbn in Hout; lia|done]).
  assert (∀ sgn, (length (sign_chars sgn) ≤ 1)%nat) as Hsg by (intros []; cbn; lia).
  unfold print_double. fold (exponent_field d) (fraction_field d) (sign_of d). fold (exponent_field d) in Hfin.
  destruct (Z.eqb_spec (exponent_field d) 0x7ff); [done|]. destruct (Z.eqb_spec (magnitude d) 0) as [Ez|Ez].
  - assert (exponent_field d = 0 ∧ fraction_field d = 0) as [E1 E2] by lia. unfold rounded_scaled, significand. rewrite E1, E2, Hfmt.
    unfold shows_sign. rewrite Ez. cbn [Z.eqb andb negb orb JS_DTOA_FORMAT_FREE JS_DTOA_FORMAT_FRAC]. set (sgn := sign_of d && negb (Z.land flags JS_DTOA_MINUS_ZERO =? 0)).
    destruct t as [len0 tab0]. cbn [tab] in Ht. destruct tab0 as [|t0 post]; [done|]. cbn [length] in Ht. specialize (Hsg sgn).
    destruct (frac_zero_run radix (Z.shiftr radix rs) rs n flags (sign_chars sgn) (drop (length (sign_chars sgn)) o) post mm)
      as (ip & fp & Hw & Hdig & Hl); [done|lia|done|done|rewrite length_drop; lia|].
    exists 0, ip, fp. split_and!; [|apply zero_rounds; lia|done|rewrite length_app; lia].
    destruct (signed_leaves sgn (λ q, output_number q radix (Z.shiftr radix rs) rs (Z.of_nat n) flags (Z.of_nat n + 1) 1) _ _ _ _ Ho Hw) as (t' & rest & E & Hrest).
    exists t', rest. split; [|exact Hrest]. by erewrite bind_run by (apply (on_tmp1_run _ tt o _ (mk [0] post)); done).
  - assert ((exponent_field d =? 0) && (fraction_field d =? 0) = false) as -> by (apply andb_false_iff; rewrite !Z.eqb_neq; lia).
    assert (shows_sign flags d = sign_of d) as -> by (unfold shows_sign; destruct (Z.eqb_spec (magnitude d) 0); [done|]; cbn [negb orb]; apply andb_true_r).
    destruct (normalised_scaled d (mem o t mm) Hd Ez) as (m & e & E & Hm1 & He1 & Hs0 & Hs1 & HN).
    set (pre := sign_chars (sign_of d)). specialize (Hsg (sign_of d)). fold pre in Hsg.
    destruct (mul_log2_radix_run (e - 1022 - 1) radix (mem (pre ++ drop (length pre) o) t mm)) as (k & Ek & Hk); [lia|lia|].
    assert (Z.of_nat n + Z.max (1 + k + 1) 1 + 2 ≤ len) as Hroom.
    { destruct (Z.le_gt_cases 1023 (exponent_field d)) as [Hge|Hlt].
      - destruct (frac_max_len d radix n flags len k _ Hd Hr Hfmt Hlen) as [_ Hl]. rewrite Hs1 in Hk by lia.
        replace (exponent_field d - 1022 - 1) with (exponent_field d - 1023) in Hk by lia. specialize (Hl Hge Hk). lia.
      - unfold is_floor_log in Hk. destruct (Z.leb_spec 0 (e - 1022 - 1)); lia. }
    destruct (frac_format_run radix rs m (e - 1022) k n Hr Hrs Hparts Hodd Hm1 He1 Hn Hk pre (drop (length pre) o) t mm Ht)
      as (N & ip & fp & Hw & HN2 & Hdig & Hl); [rewrite length_drop; lia|].
    exists N, ip, fp. split_and!; [|apply HN; [lia|exact HN2]|done|rewrite length_app; fold pre; lia].
    destruct (signed_leaves (sign_of d) (λ q, print_finite q m (e - 1022) radix (Z.shiftr radix rs) rs (Z.of_nat n) flags) o t mm (frac_text ip fp) Ho) as (t' & rest & E2 & Hrest).
    { destruct Hw as (t' & rest & E2 & Hrest). exists t', rest. split; [|exact Hrest]. unfold print_finite. rewrite Hfmt.
      change (JS_DTOA_FORMAT_FRAC =? JS_DTOA_FORMAT_FREE) with false. cbn [andb]. fold pre. erewrite bind_run by exact Ek. exact E2. }
    exists t', rest. split; [|exact Hrest]. erewrite bind_run by exact E. exact E2.
Qed.
