(* ===== verification/DtoaProps.v ===== *)
(** * Floating point numbers to text: properties

    What [js_dtoa] prints in the free format reads back as the same number; the
    fractional format prints the rounded digits. *)
From S2P Require Import Prelude CStd Words CUtils BigIntMp DigitsFacts DtoaMp DtoaMpFacts Dtoa Atod.
From S2P Require Import DtoaRoundFacts AtodFacts DtoaText DtoaFrac.







