(* ===== verification/Sort.v ===== *)
(** * Sorting

    [rqsort] of [src/vendors/qjs/quickjs/cutils.c], with [heapsortx] and
    [med3] under it: a quicksort with three parts, a stack of its own, insertion
    for the small pieces, and a heapsort when the partitions go wrong. The state
    is the array, as the list of its elements; a pointer is the index of the
    element it points to. The comparison is a parameter, any function: the callers
    give it. *)
From S2P Require Import Prelude.

Section sort.
Context {A : Type} (cmp : A → A → Z).

(** ** Elements *)

(** The element [*p]. *)
Definition elem (p : Z) : M (list A) A := λ l,
  if p <? 0 then (Err (Undefined ReadOutOfBounds), l)
  else match l !! Z.to_nat p with Some a => (Ok a, l) | None => (Err (Undefined ReadOutOfBounds), l) end.
Definition store (p : Z) (a : A) : M (list A) unit := λ l,
  if (0 <=? p) && (p <? Z.of_nat (length l)) then (Ok tt, <[Z.to_nat p := a]> l)
  else (Err (Undefined WriteOutOfBounds), l).

Definition compare (p q : Z) : M (list A) Z := x ← elem p; y ← elem q; ret (cmp x y).

(** [swap(p, q, size)] *)
Definition swap (p q : Z) : M (list A) unit := t ← elem p; b ← elem q; store p b;; store q t.

(** [swap_block(p, q, n)]: [n] elements, from the first ones. *)
Fixpoint swap_block (n : nat) (p q : Z) : M (list A) unit :=
  match n with
  | O => skip
  | S n => swap p q;; swap_block n (p + 1) (q + 1)
  end.

(** ** Heapsort *)

(** [for (; (c = r * 2 + size) < n; r = c)] *)
Definition sift_turn (base n r : Z) : M (list A) (Z + unit) :=
  let c := r * 2 + 1 in
  if c <? n then
    c ← (if c <? n - 1 then k ← compare (base + c) (base + c + 1); ret (if k <=? 0 then c + 1 else c) else ret c);
    k ← compare (base + r) (base + c);
    if k >? 0 then ret (inr tt) else swap (base + r) (base + c);; ret (inl c)
  else ret (inr tt).
Definition sift (base n r : Z) : M (list A) unit := loop (S (Z.to_nat n)) (sift_turn base n) r.

Definition heapify_turn (base n i : Z) : M (list A) (Z + unit) :=
  if i >? 0 then let i := i - 1 in sift base n i;; ret (inl i) else ret (inr tt).
Definition extract_turn (base i : Z) : M (list A) (Z + unit) :=
  if i >? 0 then swap base (base + i);; sift base i 0;; ret (inl (i - 1)) else ret (inr tt).

Definition heapsortx (base nmemb : Z) : M (list A) unit :=
  if nmemb >? 1 then
    loop (S (Z.to_nat nmemb)) (heapify_turn base nmemb) (nmemb / 2);;
    loop (S (Z.to_nat nmemb)) (extract_turn base) (nmemb - 1)
  else skip.

(** ** Partition *)

(** The element in the middle of three. *)
Definition med3 (a b c : Z) : M (list A) Z :=
  k ← compare a b;
  if k <? 0 then
    k ← compare b c;
    if k <? 0 then ret b else k ← compare a c; ret (if k <? 0 then c else a)
  else
    k ← compare b c;
    if k >? 0 then ret b else k ← compare a c; ret (if k <? 0 then a else c).

(** The pointers of the partition; the counters [i], [lt] and [gt] of the code
    are [pi], [plt] and [pgt] less [ptr]. *)
Record scan : Type := { pi : Z; plt : Z; pj : Z; pgt : Z }.

(** [while (pi < pj && (c = cmp(ptr, pi, opaque)) >= 0)] *)
Definition up_turn (ptr : Z) (s : scan) : M (list A) (scan + scan) :=
  if pi s <? pj s then
    c ← compare ptr (pi s);
    if c >=? 0 then
      s ← (if c =? 0 then swap (plt s) (pi s);; ret {| pi := pi s; plt := plt s + 1; pj := pj s; pgt := pgt s |} else ret s);
      ret (inl {| pi := pi s + 1; plt := plt s; pj := pj s; pgt := pgt s |})
    else ret (inr s)
  else ret (inr s).

(** [while (pi < (pj -= size) && (c = cmp(ptr, pj, opaque)) <= 0)] *)
Definition down_turn (ptr : Z) (s : scan) : M (list A) (scan + scan) :=
  let s := {| pi := pi s; plt := plt s; pj := pj s - 1; pgt := pgt s |} in
  if pi s <? pj s then
    c ← compare ptr (pj s);
    if c <=? 0 then
      if c =? 0 then
        swap (pgt s - 1) (pj s);;
        ret (inl {| pi := pi s; plt := plt s; pj := pj s; pgt := pgt s - 1 |})
      else ret (inl s)
    else ret (inr s)
  else ret (inr s).

Definition partition_turn (ptr nmemb : Z) (s : scan) : M (list A) (scan + scan) :=
  s ← loop (S (Z.to_nat nmemb)) (up_turn ptr) s;
  s ← loop (S (Z.to_nat nmemb)) (down_turn ptr) s;
  if pi s >=? pj s then ret (inr s)
  else
    swap (pi s) (pj s);;
    ret (inl {| pi := pi s + 1; plt := plt s; pj := pj s; pgt := pgt s |}).

(** The sizes [lt] and [gt] of the parts, and where the last one starts. *)
Definition partition (ptr nmemb : Z) : M (list A) (Z * Z * Z) :=
  let m4 := nmemb / 4 in
  m ← med3 (ptr + m4) (ptr + 2 * m4) (ptr + 3 * m4);
  swap ptr m;;
  let top := ptr + nmemb in
  s ← loop (S (Z.to_nat nmemb)) (partition_turn ptr nmemb) {| pi := ptr + 1; plt := ptr + 1; pj := top; pgt := top |};
  let i := pi s - ptr in
  let span := plt s - ptr in
  let span2 := pi s - plt s in
  let lt := i - (plt s - ptr) in
  let span := if span >? span2 then span2 else span in
  swap_block (Z.to_nat span) ptr (pi s - span);;
  let span := top - pgt s in
  let span2 := pgt s - pi s in
  let gt := nmemb - (pgt s - ptr - i) in
  let span := if span >? span2 then span2 else span in
  swap_block (Z.to_nat span) (pi s) (top - span);;
  ret (lt, gt, top - span2).

(** ** Insertion *)

(** [for (pj = pi; pj > ptr && cmp(pj - size, pj, opaque) > 0; pj -= size)] *)
Definition insert_turn (ptr p : Z) : M (list A) (Z + unit) :=
  if p >? ptr then
    c ← compare (p - 1) p;
    if c >? 0 then swap p (p - 1);; ret (inl (p - 1)) else ret (inr tt)
  else ret (inr tt).
Definition insertion_turn (ptr nmemb p : Z) : M (list A) (Z + unit) :=
  if p <? ptr + nmemb then
    loop (S (Z.to_nat nmemb)) (insert_turn ptr) p;;
    ret (inl (p + 1))
  else ret (inr tt).
Definition insertion (ptr nmemb : Z) : M (list A) unit := loop (S (Z.to_nat nmemb)) (insertion_turn ptr nmemb) (ptr + 1).

(** ** Quicksort *)

(** A segment still to be sorted: its start, its size and the depth of the partitions above it. *)
Definition segment : Type := Z * Z * Z.

(** [sp++] *)
Definition push (s : segment) (stack : list segment) : M (list A) (list segment) :=
  if (length stack <? 50)%nat then ret (s :: stack) else throw (Undefined WriteOutOfBounds).

(** [while (nmemb > 6)] *)
Definition segment_turn : segment * list segment → M (list A) (segment * list segment + segment * list segment) :=
  λ '((ptr, nmemb, depth), stack),
  if nmemb >? 6 then
    let depth := depth + 1 in
    if depth >? 50 then heapsortx ptr nmemb;; ret (inr ((ptr, 0, depth), stack))
    else
      '(lt, gt, pgt) ← partition ptr nmemb;
      if lt >? nmemb - gt then
        stack ← push (ptr, lt, depth) stack;
        ret (inl ((pgt, nmemb - gt, depth), stack))
      else
        stack ← push (pgt, nmemb - gt, depth) stack;
        ret (inl ((ptr, lt, depth), stack))
  else ret (inr ((ptr, nmemb, depth), stack)).

(** [while (sp > stack)] *)
Definition stack_turn (fuel : nat) (stack : list segment) : M (list A) (list segment + unit) :=
  match stack with
  | [] => ret (inr tt)
  | s :: stack =>
      '((ptr, nmemb, depth), stack) ← loop fuel segment_turn (s, stack);
      insertion ptr nmemb;;
      ret (inl stack)
  end.

Definition rqsort (nmemb : Z) : M (list A) unit :=
  if nmemb <? 2 then skip
  else
    let fuel := S (S (Z.to_nat nmemb)) in
    loop fuel (stack_turn fuel) [(0, nmemb, 0)].

End sort.

(** ** Examples *)

Definition sorted_of (l : list Z) : option (list Z) :=
  match rqsort (λ x y, x - y) (Z.of_nat (length l)) l with (Ok _, l') => Some l' | _ => None end.

Example sort_small : sorted_of [3; 1; 2; 1] = Some [1; 1; 2; 3].
Proof. vm_compute. reflexivity. Qed.
Example sort_large : sorted_of [9; 4; 7; 4; 0; 8; 4; 4; 3; 1; 12; 4; 5; 6; 2; 4; 10; 11] = Some [0; 1; 2; 3; 4; 4; 4; 4; 4; 4; 5; 6; 7; 8; 9; 10; 11; 12].
Proof. vm_compute. reflexivity. Qed.
Example heap_sorts : heapsortx (λ x y, x - y) 1 7 [100; 3; 9; 2; 9; 5; 1; 4; -1] = (Ok tt, [100; 1; 2; 3; 4; 5; 9; 9; -1]).
Proof. vm_compute. reflexivity. Qed.
