(* ===== verification/SortFacts.v ===== *)
(** * Sorting: partition and heapsort, lemmas

    The partition of [rqsort] and its heapsort: they only move the elements. *)
From S2P Require Import Prelude Sort.
From Stdlib Require Import Sorted.

#[local] Open Scope Z_scope.

(** * Sorting: lemmas

    What the elementary operations do to the array, and the partition: whatever
    the comparison answers, the elements are only moved, and nothing is read or
    written outside the segment. *)

Section elements.
Context {A : Type} (cmp : A → A → Z).
Implicit Types l pre post : list A.

(** ** Elements *)

Lemma elem_run l p a : l !! p = Some a → elem (Z.of_nat p) l = (Ok a, l).
Proof. intros Hp. unfold elem. destruct (Z.ltb_spec (Z.of_nat p) 0); [lia|]. by rewrite Nat2Z.id, Hp. Qed.

Lemma elem_here pre x post p : p = Z.of_nat (length pre) → elem p (pre ++ x :: post) = (Ok x, pre ++ x :: post).
Proof. intros ->. apply elem_run. by apply list_lookup_middle. Qed.

Lemma cell_store_run l p a : (p < length l)%nat → store (Z.of_nat p) a l = (Ok tt, <[p := a]> l).
Proof.
  intros Hp. unfold store. rewrite (proj2 (Z.leb_le 0 _)), (proj2 (Z.ltb_lt _ _)) by lia. by rewrite Nat2Z.id.
Qed.

Lemma compare_run l p q x y : l !! p = Some x → l !! q = Some y → compare cmp (Z.of_nat p) (Z.of_nat q) l = (Ok (cmp x y), l).
Proof. intros Hx Hy. unfold compare. erewrite bind_run by by apply elem_run. by erewrite bind_run by by apply elem_run. Qed.

(** The array with two elements exchanged. *)
Definition exch (p q : nat) l : list A :=
  match l !! p, l !! q with Some x, Some y => <[q := x]> (<[p := y]> l) | _, _ => l end.

Lemma swap_run l p q : (p < length l)%nat → (q < length l)%nat → swap (Z.of_nat p) (Z.of_nat q) l = (Ok tt, exch p q l).
Proof.
  intros Hp Hq. destruct (lookup_lt_is_Some_2 l p Hp) as [x Hx]. destruct (lookup_lt_is_Some_2 l q Hq) as [y Hy].
  unfold swap, exch. rewrite Hx, Hy. erewrite bind_run by by apply elem_run. erewrite bind_run by by apply elem_run.
  erewrite bind_run by by apply cell_store_run. apply cell_store_run. by rewrite length_insert.
Qed.

Lemma exch_length p q l : length (exch p q l) = length l.
Proof. unfold exch. destruct (l !! p), (l !! q); by rewrite ?length_insert. Qed.

Lemma exch_same p l : exch p p l = l.
Proof. unfold exch. destruct (l !! p) eqn:E; [|done]. rewrite list_insert_insert_eq. by apply list_insert_id. Qed.

Lemma exch_split pre x mid y post :
  exch (length pre) (length pre + 1 + length mid) (pre ++ x :: mid ++ y :: post) = pre ++ y :: mid ++ x :: post.
Proof.
  assert (pre ++ x :: mid ++ y :: post = (pre ++ x :: mid) ++ y :: post) as E by (by rewrite <-app_assoc).
  assert (length (pre ++ x :: mid) = length pre + 1 + length mid)%nat as El by (rewrite length_app; cbn; lia).
  unfold exch. rewrite list_lookup_middle by done. rewrite E, <-El, list_lookup_middle by done.
  rewrite <-app_assoc. cbn [app]. rewrite insert_app_r_alt, Nat.sub_diag by lia. cbn [insert list_insert].
  assert (pre ++ y :: mid ++ y :: post = (pre ++ y :: mid) ++ y :: post) as E2 by (by rewrite <-app_assoc).
  assert (length (pre ++ x :: mid) = length (pre ++ y :: mid)) as El2 by (by rewrite !length_app).
  rewrite E2, El2, insert_app_r_alt, Nat.sub_diag by lia. cbn [insert list_insert]. by rewrite <-app_assoc.
Qed.

Lemma exch_sym p q l : exch p q l = exch q p l.
Proof.
  unfold exch. destruct (l !! p) as [x|] eqn:Hx, (l !! q) as [y|] eqn:Hy; try done.
  destruct (decide (p = q)) as [->|Hne]; [by rewrite Hx in Hy; injection Hy as ->|]. by rewrite list_insert_insert_ne.
Qed.

Lemma exch_perm p q l : exch p q l ≡ₚ l.
Proof.
  assert (∀ p q, (p < q)%nat → exch p q l ≡ₚ l) as Hlt.
  { clear p q. intros p q Hpq. unfold exch. destruct (l !! p) as [x|] eqn:Hx, (l !! q) as [y|] eqn:Hy; try done.
    assert (exch p q l ≡ₚ l) as H; [|by unfold exch in H; rewrite Hx, Hy in H].
    assert (∃ pre mid post, l = pre ++ x :: mid ++ y :: post ∧ p = length pre ∧ q = (length pre + 1 + length mid)%nat) as (pre & mid & post & -> & -> & ->).
    { exists (take p l), (take (q - S p) (drop (S p) l)), (drop (S q) l).
      pose proof (lookup_lt_Some _ _ _ Hx). pose proof (lookup_lt_Some _ _ _ Hy).
      split_and!; [|rewrite length_take; lia|rewrite !length_take, length_drop; lia].
      rewrite <-(take_drop_middle l p x Hx) at 1. do 2 f_equal.
      assert (drop (S p) l !! (q - S p)%nat = Some y) as Hy2 by (rewrite lookup_drop; by replace (S p + (q - S p))%nat with q by lia).
      rewrite <-(take_drop_middle _ _ _ Hy2) at 1. do 2 f_equal. rewrite drop_drop. f_equal. lia. }
    rewrite exch_split. apply Permutation_app_head. rewrite <-(Permutation_middle mid post x), <-(Permutation_middle mid post y). constructor. }
  destruct (lt_eq_lt_dec p q) as [[Hpq| ->]|Hpq]; [by apply Hlt|by rewrite exch_same|rewrite exch_sym; by apply Hlt].
Qed.

Lemma exch_app_r pre p q l : exch (length pre + p) (length pre + q) (pre ++ l) = pre ++ exch p q l.
Proof.
  unfold exch. rewrite !lookup_app_r by lia. replace (length pre + p - length pre)%nat with p by lia. replace (length pre + q - length pre)%nat with q by lia.
  destruct (l !! p), (l !! q); try done. by rewrite !insert_app_r.
Qed.

(** The first and the last elements of a part, exchanged block by block. *)
Lemma swap_block_run n pre X M Y post :
  length X = n → length Y = n →
  swap_block n (Z.of_nat (length pre)) (Z.of_nat (length pre + n + length M)) (pre ++ X ++ M ++ Y ++ post) = (Ok tt, pre ++ Y ++ M ++ X ++ post).
Proof.
  revert pre X M Y. induction n as [|n IH]; intros pre X M Y HX HY; [by destruct X, Y|].
  destruct X as [|x X], Y as [|y Y]; try done. cbn in HX, HY. cbn [swap_block].
  assert (pre ++ (x :: X) ++ M ++ (y :: Y) ++ post = pre ++ x :: (X ++ M) ++ y :: (Y ++ post)) as E by (by rewrite <-!app_assoc).
  assert (length pre + S n + length M = length pre + 1 + length (X ++ M))%nat as El by (rewrite length_app; lia).
  rewrite E, El. erewrite bind_run by (apply swap_run; repeat (rewrite length_app; cbn [length]); lia). rewrite exch_split.
  specialize (IH (pre ++ [y]) X (M ++ [x]) Y ltac:(lia) ltac:(lia)). rewrite !length_app in IH. cbn [length] in IH.
  replace (Z.of_nat (length pre) + 1) with (Z.of_nat (length pre + 1)) by lia.
  replace (Z.of_nat (length pre + 1 + length (X ++ M)) + 1) with (Z.of_nat (length pre + 1 + n + (length M + 1))) by (rewrite length_app; lia).
  rewrite <-!app_assoc in IH. cbn [app] in IH. rewrite <-app_assoc. etransitivity; [exact IH|]. done.
Qed.

(** ** The loops of the partition *)

(** The first element goes last, and the last one first. *)
Definition first_last (l : list A) : list A := match l with [] => [] | y :: l => l ++ [y] end.

Lemma first_last_perm l : first_last l ≡ₚ l.
Proof. destruct l; [done|]. cbn. by rewrite Permutation_app_comm. Qed.

Lemma move_first pre l x post : exch (length pre) (length pre + length l) (pre ++ l ++ x :: post) = pre ++ x :: first_last l ++ post.
Proof.
  destruct l as [|y l]; cbn [length app first_last].
  - by rewrite Nat.add_0_r, exch_same.
  - replace (length pre + S (length l))%nat with (length pre + 1 + length l)%nat by lia. rewrite exch_split. by rewrite <-app_assoc.
Qed.

Lemma move_last pre x l post : ∃ l', l' ≡ₚ l ∧ exch (length pre + length l) (length pre) (pre ++ x :: l ++ post) = pre ++ l' ++ x :: post.
Proof.
  destruct l as [|y l _] using rev_ind.
  - exists []. split; [done|]. by rewrite Nat.add_0_r, exch_same.
  - exists (y :: l). split; [by rewrite Permutation_app_comm|]. rewrite exch_sym, length_app. cbn [length].
    replace (length pre + (length l + 1))%nat with (length pre + 1 + length l)%nat by lia. rewrite <-app_assoc. cbn [app]. by rewrite exch_split.
Qed.

(** The segment of pivot [p]: equal, smaller, not looked at, greater, equal. *)
Definition lay pre p (E1 L U G E2 : list A) post : list A := pre ++ p :: E1 ++ L ++ U ++ G ++ E2 ++ post.
Definition ptrs pre (E1 L U G : list A) : scan :=
  let i := (length pre + 1 + length E1)%nat in
  {| plt := Z.of_nat i; pi := Z.of_nat (i + length L); pj := Z.of_nat (i + length L + length U); pgt := Z.of_nat (i + length L + length U + length G) |}.

Definition parts p (E1 L G E2 : list A) : Prop :=
  Forall (λ x, cmp p x = 0) E1 ∧ Forall (λ x, cmp p x > 0) L ∧ Forall (λ x, cmp p x < 0) G ∧ Forall (λ x, cmp p x = 0) E2.

Lemma lay_pivot pre p E1 L U G E2 post : lay pre p E1 L U G E2 post !! length pre = Some p.
Proof. unfold lay. by apply list_lookup_middle. Qed.

(** The array split at a part. *)
Ltac list_split := unfold lay; repeat (progress (cbn [app] in *) || rewrite <-!app_assoc); done.

Lemma lay_first pre p E1 L x U G E2 post : lay pre p E1 L (x :: U) G E2 post !! (length pre + 1 + length E1 + length L)%nat = Some x.
Proof.
  assert (lay pre p E1 L (x :: U) G E2 post = (pre ++ p :: E1 ++ L) ++ x :: U ++ G ++ E2 ++ post) as -> by list_split.
  apply list_lookup_middle. repeat (rewrite length_app; cbn [length]). lia.
Qed.

Lemma lay_last pre p E1 L U x G E2 post : lay pre p E1 L (U ++ [x]) G E2 post !! (length pre + 1 + length E1 + length L + length U)%nat = Some x.
Proof.
  assert (lay pre p E1 L (U ++ [x]) G E2 post = (pre ++ p :: E1 ++ L ++ U) ++ x :: G ++ E2 ++ post) as -> by list_split.
  apply list_lookup_middle. repeat (rewrite length_app; cbn [length]). lia.
Qed.

Lemma lay_length pre p E1 L U G E2 post :
  length (lay pre p E1 L U G E2 post) = (length pre + 1 + length E1 + length L + length U + length G + length E2 + length post)%nat.
Proof. unfold lay. repeat (rewrite length_app; cbn [length]). lia. Qed.

Lemma loop_more {S B C} n m (body : B → M S (B + C)) b c s s' : (n ≤ m)%nat → loop n body b s = (Ok c, s') → loop m body b s = (Ok c, s').
Proof.
  revert m b s. induction n as [|n IH]; intros m b s Hle E; [done|]. destruct m as [|m]; [lia|]. cbn [loop] in *.
  apply bind_Ok in E as (r & s0 & E1 & E2). erewrite bind_run by exact E1. destruct r as [b'|c']; [apply IH; [lia|done]|done].
Qed.

Lemma up_loop_run fuel pre p E1 L U G E2 post :
  parts p E1 L G E2 → (length U < fuel)%nat →
  ∃ E1' L' U', loop fuel (up_turn cmp (Z.of_nat (length pre))) (ptrs pre E1 L U G) (lay pre p E1 L U G E2 post)
      = (Ok (ptrs pre E1' L' U' G), lay pre p E1' L' U' G E2 post) ∧ parts p E1' L' G E2 ∧ E1 ++ L ++ U ≡ₚ E1' ++ L' ++ U' ∧
    (length U' ≤ length U)%nat ∧ match U' with [] => True | x :: _ => cmp p x < 0 end.
Proof.
  revert E1 L U. induction fuel as [|fuel IH]; intros E1 L U Hp Hf; [lia|]. cbn [loop]. unfold up_turn at 1. cbn [ptrs pi pj plt pgt].
  destruct U as [|x U].
  { exists E1, L, []. rewrite (proj2 (Z.ltb_ge _ _)) by (cbn; lia). by rewrite bind_ret. }
  rewrite (proj2 (Z.ltb_lt _ _)) by (cbn; lia). rewrite bind_bind.
  erewrite bind_run by (apply compare_run; [apply lay_pivot|apply lay_first]). rewrite Z.geb_leb.
  destruct (Z.leb_spec 0 (cmp p x)) as [Hge|Hlt].
  2:{ exists E1, L, (x :: U). by split_and!. }
  destruct Hp as (H1 & H2 & H3 & H4). cbn [length] in Hf. rewrite bind_bind. destruct (Z.eqb_spec (cmp p x) 0) as [E0|E0].
  - rewrite bind_bind. assert (exch (length pre + 1 + length E1) (length pre + 1 + length E1 + length L) (lay pre p E1 L (x :: U) G E2 post)
      = lay pre p (E1 ++ [x]) (first_last L) U G E2 post) as Ex.
    { assert (lay pre p E1 L (x :: U) G E2 post = (pre ++ p :: E1) ++ L ++ x :: U ++ G ++ E2 ++ post) as -> by list_split.
      assert (length pre + 1 + length E1 = length (pre ++ p :: E1))%nat as -> by (rewrite length_app; cbn; lia). rewrite move_first. list_split. }
    erewrite bind_run by (apply swap_run; rewrite lay_length; cbn; lia). rewrite bind_ret, bind_ret, Ex. cbn [pi plt pj pgt].
    assert (length (first_last L) = length L) as Hfl by (by rewrite first_last_perm).
    destruct (IH (E1 ++ [x]) (first_last L) U) as (E1' & L' & U' & Erun & Hp' & Hperm & Hlen & Hstop);
      [split_and!; [apply Forall_app_2; [done|by constructor]|by rewrite first_last_perm|done|done]|lia|].
    exists E1', L', U'. split_and!; try done.
    + etransitivity; [|exact Erun]. f_equal. unfold ptrs. rewrite length_app, Hfl. cbn [length]. f_equal; lia.
    + rewrite <-Hperm, first_last_perm. rewrite <-app_assoc. cbn. apply Permutation_app_head. by rewrite Permutation_middle.
    + cbn. lia.
  - rewrite !bind_ret. cbn [pi plt pj pgt].
    destruct (IH E1 (L ++ [x]) U) as (E1' & L' & U' & Erun & Hp' & Hperm & Hlen & Hstop);
      [split_and!; [done|apply Forall_app_2; [done|constructor; [lia|done]]|done|done]|lia|].
    exists E1', L', U'. split_and!; try done; [|by rewrite <-Hperm, <-app_assoc|cbn; lia].
    etransitivity; [|etransitivity; [exact Erun|done]]. f_equal; [|list_split]. f_equal. unfold ptrs. rewrite length_app. cbn [length]. f_equal; cbn [pi plt pj pgt]; lia.
Qed.

(** After the second loop, [pj] is one place lower. *)
Definition ptrs_down pre (E1 L U G : list A) : scan :=
  let s := ptrs pre E1 L U G in {| pi := pi s; plt := plt s; pj := pj s - 1; pgt := pgt s |}.

Lemma down_loop_run fuel pre p E1 L U G E2 post :
  parts p E1 L G E2 → (length U < fuel)%nat →
  ∃ U' G' E2' rest, loop fuel (down_turn cmp (Z.of_nat (length pre))) (ptrs pre E1 L U G) (lay pre p E1 L U G E2 post)
      = (Ok (ptrs_down pre E1 L U' G'), lay pre p E1 L U' G' E2' post) ∧ parts p E1 L G' E2' ∧ U ++ G ++ E2 ≡ₚ U' ++ G' ++ E2' ∧
    U = U' ++ rest ∧ ((length U' ≤ 1)%nat ∨ ∃ U0 x, U' = U0 ++ [x] ∧ cmp p x > 0).
Proof.
  revert U G E2. induction fuel as [|fuel IH]; intros U G E2 Hp Hf; [lia|]. cbn [loop]. unfold down_turn at 1. cbn [ptrs pi pj plt pgt]. cbv zeta.
  destruct (le_lt_dec (length U) 1) as [Hle|Hlt].
  { exists U, G, E2, []. rewrite app_nil_r. rewrite (proj2 (Z.ltb_ge _ _)) by (cbn; lia). rewrite bind_ret. split_and!; [|done..|by left].
    unfold ret, ptrs_down, ptrs. reflexivity. }
  rewrite (proj2 (Z.ltb_lt _ _)) by (cbn; lia). rewrite bind_bind.
  destruct U as [|x U _] using rev_ind; [cbn in Hlt; lia|]. rewrite length_app in *. cbn [length] in *.
  replace (Z.of_nat (length pre + 1 + length E1 + length L + (length U + 1)) - 1) with (Z.of_nat (length pre + 1 + length E1 + length L + length U)) by lia.
  erewrite bind_run by (apply compare_run; [apply lay_pivot|apply lay_last]).
  destruct (Z.leb_spec (cmp p x) 0) as [Hle|Hgt].
  2:{ exists (U ++ [x]), G, E2, []. rewrite app_nil_r. split_and!; [|done..|right; exists U, x; split; [done|lia]].
      rewrite bind_ret. unfold ret. do 2 f_equal. unfold ptrs_down, ptrs. cbn [pi plt pj pgt]. rewrite length_app. cbn [length]. f_equal. lia. }
  destruct Hp as (H1 & H2 & H3 & H4). destruct (Z.eqb_spec (cmp p x) 0) as [E0|E0].
  - rewrite bind_bind.
    assert (lay pre p E1 L (U ++ [x]) G E2 post = (pre ++ p :: E1 ++ L ++ U) ++ x :: G ++ E2 ++ post) as El by list_split.
    destruct (move_last (pre ++ p :: E1 ++ L ++ U) x G (E2 ++ post)) as (G' & HG & Ex). rewrite <-El in Ex.
    assert (length (pre ++ p :: E1 ++ L ++ U) = length pre + 1 + length E1 + length L + length U)%nat as Elen by (repeat (rewrite length_app; cbn [length]); lia).
    rewrite Elen in Ex.
    replace (Z.of_nat (length pre + 1 + length E1 + length L + (length U + 1) + length G) - 1)
      with (Z.of_nat (length pre + 1 + length E1 + length L + length U + length G)) by lia.
    erewrite bind_run by (apply swap_run; rewrite lay_length, length_app; cbn; lia). rewrite bind_ret, Ex.
    assert ((pre ++ p :: E1 ++ L ++ U) ++ G' ++ x :: E2 ++ post = lay pre p E1 L U G' (x :: E2) post) as -> by list_split.
    destruct (IH U G' (x :: E2)) as (U' & G2 & E2' & rest & Erun & Hp' & Hperm & EU & Hstop);
      [split_and!; [done|done|by rewrite HG|by constructor]|lia|].
    exists U', G2, E2', (rest ++ [x]). split_and!; [|done| |by rewrite app_assoc, <-EU|done].
    + etransitivity; [|exact Erun]. f_equal. apply Permutation_length in HG. unfold ptrs. rewrite HG. f_equal; cbn [pi plt pj pgt]; lia.
    + rewrite <-Hperm, HG, <-app_assoc. apply Permutation_app_head. cbn. by rewrite Permutation_middle.
  - rewrite bind_ret. destruct (IH U (x :: G) E2) as (U' & G2 & E2' & rest & Erun & Hp' & Hperm & EU & Hstop);
      [split_and!; [done|done|constructor; [lia|done]|done]|lia|].
    exists U', G2, E2', (rest ++ [x]). split_and!; [|done|by rewrite <-Hperm, <-app_assoc|by rewrite app_assoc, <-EU|done].
    etransitivity; [|etransitivity; [exact Erun|done]]. f_equal; [|list_split]. f_equal. unfold ptrs. cbn [length]. f_equal; cbn [pi plt pj pgt]; lia.
Qed.

(** Both loops, until the pointers meet. *)
Lemma partition_loop_run fuel pre p n E1 L U G E2 post :
  parts p E1 L G E2 → (length U < fuel)%nat → (length U < n)%nat →
  ∃ E1' L' G' E2' s, loop fuel (partition_turn cmp (Z.of_nat (length pre)) (Z.of_nat n)) (ptrs pre E1 L U G) (lay pre p E1 L U G E2 post)
      = (Ok s, lay pre p E1' L' [] G' E2' post) ∧ parts p E1' L' G' E2' ∧ E1 ++ L ++ U ++ G ++ E2 ≡ₚ E1' ++ L' ++ G' ++ E2' ∧
    pi s = pi (ptrs pre E1' L' [] G') ∧ plt s = plt (ptrs pre E1' L' [] G') ∧ pgt s = pgt (ptrs pre E1' L' [] G').
Proof.
  revert E1 L U G E2. induction fuel as [|fuel IH]; intros E1 L U G E2 Hp Hf Hn; [lia|]. cbn [loop]. unfold partition_turn at 1. rewrite bind_bind.
  destruct (up_loop_run (S (Z.to_nat (Z.of_nat n))) pre p E1 L U G E2 post Hp) as (E1' & L' & U1 & Eup & Hp1 & Hperm1 & Hlen1 & Hstop1); [lia|].
  erewrite bind_run by exact Eup. rewrite bind_bind.
  destruct (down_loop_run (S (Z.to_nat (Z.of_nat n))) pre p E1' L' U1 G E2 post Hp1) as (U2 & G' & E2' & rest & Edown & Hp2 & Hperm2 & EU & Hstop2); [lia|].
  erewrite bind_run by exact Edown. cbn [ptrs_down ptrs pi plt pj pgt].
  assert (E1 ++ L ++ U ++ G ++ E2 ≡ₚ E1' ++ L' ++ U2 ++ G' ++ E2') as Hperm.
  { transitivity ((E1 ++ L ++ U) ++ G ++ E2); [by rewrite <-!app_assoc|]. rewrite Hperm1, <-!app_assoc. by rewrite Hperm2. }
  destruct U2 as [|x [|y U2]].
  - exists E1', L', G', E2', (ptrs_down pre E1' L' [] G'). split_and!; try done.
    rewrite Z.geb_leb, (proj2 (Z.leb_le _ _)) by (cbn; lia). by rewrite bind_ret.
  - assert (cmp p x < 0) as Hx by (by subst U1).
    exists E1', L', (x :: G'), E2', (ptrs_down pre E1' L' [x] G'). split; [rewrite Z.geb_leb, (proj2 (Z.leb_le _ _)) by (cbn; lia); by rewrite bind_ret|].
    split_and!; [|done|cbn [ptrs_down ptrs pi length]; lia|done|cbn [ptrs_down ptrs pgt length]; lia]. destruct Hp2 as (H1 & H2 & H3 & H4). split_and!; [done|done|by constructor|done].
  - destruct Hstop2 as [Hbad|(U0 & z & EU2 & Hz)]; [cbn in Hbad; lia|].
    destruct U0 as [|x' U0]; [done|]. injection EU2 as <- EU2. rewrite EU2 in *. clear y U2 EU2.
    assert (cmp p x < 0) as Hx by (by subst U1).
    rewrite Z.geb_leb, (proj2 (Z.leb_gt _ _)) by (cbn [length]; rewrite length_app; cbn [length]; lia).
    assert (lay pre p E1' L' (x :: U0 ++ [z]) G' E2' post = (pre ++ p :: E1' ++ L') ++ x :: U0 ++ z :: G' ++ E2' ++ post) as El by list_split.
    assert (length (pre ++ p :: E1' ++ L') = length pre + 1 + length E1' + length L')%nat as Elen by (repeat (rewrite length_app; cbn [length]); lia).
    pose proof (exch_split (pre ++ p :: E1' ++ L') x U0 z (G' ++ E2' ++ post)) as Ex. rewrite <-El, Elen in Ex. rewrite bind_bind.
    replace (Z.of_nat (length pre + 1 + length E1' + length L' + length (x :: U0 ++ [z])) - 1)
      with (Z.of_nat (length pre + 1 + length E1' + length L' + 1 + length U0)) by (cbn [length]; rewrite length_app; cbn [length]; lia).
    erewrite bind_run by (apply swap_run; rewrite lay_length; cbn [length]; rewrite length_app; cbn [length]; lia). rewrite bind_ret, Ex.
    assert ((pre ++ p :: E1' ++ L') ++ z :: U0 ++ x :: G' ++ E2' ++ post = lay pre p E1' (L' ++ [z]) U0 (x :: G') E2' post) as -> by list_split.
    assert (length U1 = S (S (length U0)) + length rest)%nat as HlU by (rewrite EU; cbn [length app]; rewrite !length_app; cbn; lia).
    destruct (IH E1' (L' ++ [z]) U0 (x :: G') E2') as (E3 & L3 & G3 & E4 & s & Erun & Hp3 & Hperm3 & Hs);
      [destruct Hp2 as (H1 & H2 & H3 & H4); split_and!; [done|apply Forall_app_2; [done|by constructor]|by constructor|done]|lia|lia|].
    exists E3, L3, G3, E4, s. split_and!; [|done| |apply Hs..].
    + etransitivity; [|exact Erun]. f_equal. unfold ptrs. rewrite !length_app. cbn [length]. rewrite length_app. cbn [length]. f_equal; lia.
    + rewrite Hperm, <-Hperm3, <-!app_assoc. do 2 apply Permutation_app_head. cbn. rewrite <-!app_assoc. cbn.
      rewrite <-(Permutation_middle U0 (G' ++ E2') z), <-(Permutation_middle U0 (G' ++ E2') x). constructor.
Qed.

(** ** The whole partition *)

(** Two parts that follow one another change places: the shorter one is exchanged
    with as many elements of the other. *)
Lemma change_places pre X Y post :
  let n := Nat.min (length X) (length Y) in
  ∃ X' Y', swap_block n (Z.of_nat (length pre)) (Z.of_nat (length pre + length X + length Y - n)) (pre ++ X ++ Y ++ post)
      = (Ok tt, pre ++ Y' ++ X' ++ post) ∧ X' ≡ₚ X ∧ Y' ≡ₚ Y.
Proof.
  intros n. destruct (le_lt_dec (length X) (length Y)) as [Hle|Hlt].
  - exists X, (drop (length Y - n) Y ++ take (length Y - n) Y).
    pose proof (swap_block_run n pre X (take (length Y - n) Y) (drop (length Y - n) Y) post ltac:(lia) ltac:(rewrite length_drop; lia)) as E.
    rewrite length_take in E. rewrite (app_assoc (take _ _)), take_drop in E.
    replace (length pre + n + _ `min` _)%nat with (length pre + length X + length Y - n)%nat in E by lia.
    split_and!; [by rewrite <-!app_assoc|done|]. by rewrite Permutation_app_comm, take_drop.
  - exists (drop n X ++ take n X), Y.
    pose proof (swap_block_run n pre (take n X) (drop n X) Y post ltac:(rewrite length_take; lia) ltac:(lia)) as E.
    rewrite length_drop in E. rewrite (app_assoc (take _ _)), take_drop in E.
    replace (length pre + n + (length X - n))%nat with (length pre + length X + length Y - n)%nat in E by lia.
    split_and!; [by rewrite <-!app_assoc|by rewrite Permutation_app_comm, take_drop|done].
Qed.

Lemma med3_run l a b c :
  (a < length l)%nat → (b < length l)%nat → (c < length l)%nat →
  ∃ m, med3 cmp (Z.of_nat a) (Z.of_nat b) (Z.of_nat c) l = (Ok (Z.of_nat m), l) ∧ (m = a ∨ m = b ∨ m = c).
Proof.
  intros Ha Hb Hc. destruct (lookup_lt_is_Some_2 l a Ha) as [x Hx]. destruct (lookup_lt_is_Some_2 l b Hb) as [y Hy].
  destruct (lookup_lt_is_Some_2 l c Hc) as [z Hz].
  assert (∀ A' (k : Z → M (list A) A') p q u v, l !! p = Some u → l !! q = Some v →
    bind (compare cmp (Z.of_nat p) (Z.of_nat q)) k l = k (cmp u v) l) as Hcmp by (intros; by erewrite bind_run by by apply compare_run).
  unfold med3. rewrite (Hcmp _ _ a b x y) by done. destruct (cmp x y <? 0); rewrite (Hcmp _ _ b c y z) by done;
    [destruct (cmp y z <? 0)|destruct (cmp y z >? 0)]; try (exists b; by auto); rewrite (Hcmp _ _ a c x z) by done;
    destruct (cmp x z <? 0); (exists a; by auto) || (exists c; by auto).
Qed.

Lemma exch_app_l p q l post : (p < length l)%nat → (q < length l)%nat → exch p q (l ++ post) = exch p q l ++ post.
Proof.
  intros Hp Hq. unfold exch. rewrite !lookup_app_l by done. destruct (l !! p), (l !! q); try done. by rewrite !insert_app_l by (rewrite ?length_insert; done).
Qed.

Lemma min_Z a b : (if Z.of_nat a >? Z.of_nat b then Z.of_nat b else Z.of_nat a) = Z.of_nat (Nat.min a b).
Proof. rewrite Z.gtb_ltb. destruct (Z.ltb_spec (Z.of_nat b) (Z.of_nat a)); lia. Qed.

(** The three parts, in order: smaller than a pivot, equal to it, greater. *)
Lemma partition_run pre mid post :
  (4 ≤ length mid)%nat →
  ∃ p L E G, partition cmp (Z.of_nat (length pre)) (Z.of_nat (length mid)) (pre ++ mid ++ post)
      = (Ok (Z.of_nat (length L), Z.of_nat (length L + length E), Z.of_nat (length pre + length L + length E)), pre ++ L ++ E ++ G ++ post) ∧
    mid ≡ₚ L ++ E ++ G ∧ E ≠ [] ∧ Forall (λ x, cmp p x > 0) L ∧ Forall (λ x, x = p ∨ cmp p x = 0) E ∧ Forall (λ x, cmp p x < 0) G.
Proof.
  intros Hn. set (n := length mid) in *. set (b := length pre). set (l := pre ++ mid ++ post).
  assert (length l = b + n + length post)%nat as Hl by (unfold l; rewrite !length_app; unfold b, n; lia).
  unfold partition. cbv zeta. set (q := (n / 4)%nat).
  assert (1 ≤ q ∧ 3 * q < n)%nat as [Hq1 Hq3].
  { unfold q. split; [apply Nat.div_le_lower_bound; lia|]. pose proof (Nat.Div0.mul_div_le n 4). assert (n / 4 ≠ 0)%nat; [|lia].
    intros H0. apply Nat.div_small_iff in H0; lia. }
  assert (Z.of_nat n / 4 = Z.of_nat q) as -> by (unfold q; rewrite Nat2Z.inj_div; done).
  replace (Z.of_nat b + Z.of_nat q) with (Z.of_nat (b + q)) by lia. replace (Z.of_nat b + 2 * Z.of_nat q) with (Z.of_nat (b + 2 * q)) by lia.
  replace (Z.of_nat b + 3 * Z.of_nat q) with (Z.of_nat (b + 3 * q)) by lia.
  destruct (med3_run l (b + q) (b + 2 * q) (b + 3 * q)) as (m & Em & Hm); [lia..|]. erewrite bind_run by exact Em.
  erewrite bind_run by (apply swap_run; lia).
  assert (∃ k, m = b + k ∧ k < n)%nat as (k & -> & Hk) by (exists (m - b)%nat; lia).
  assert (∃ p U, exch b (b + k) l = pre ++ (p :: U) ++ post ∧ mid ≡ₚ p :: U) as (p & U & Ex & Hperm).
  { unfold l. assert (exch b (b + k) (pre ++ mid ++ post) = pre ++ exch 0 k mid ++ post) as ->.
    { rewrite <-(Nat.add_0_r b) at 1. unfold b. rewrite exch_app_r, exch_app_l by (fold n; lia). done. }
    pose proof (exch_length 0 k mid) as Hex. pose proof (exch_perm 0 k mid) as Hep. destruct (exch 0 k mid) as [|p U]; [cbn in Hex; fold n in Hex; lia|].
    exists p, U. done. }
  rewrite Ex. pose proof (Permutation_length Hperm) as HlU. fold n in HlU. cbn [length] in HlU.
  destruct (partition_loop_run (S (Z.to_nat (Z.of_nat n))) pre p n [] [] U [] [] post) as (E1 & L & G & E2 & s & Erun & (H1 & H2 & H3 & H4) & Hp2 & Hpi & Hplt & Hpgt);
    [by split_and!|lia|lia|].
  assert (ptrs pre [] [] U [] = {| pi := Z.of_nat b + 1; plt := Z.of_nat b + 1; pj := Z.of_nat b + Z.of_nat n; pgt := Z.of_nat b + Z.of_nat n |}) as Eptrs
    by (unfold ptrs; fold b; cbn [length]; f_equal; lia).
  rewrite Eptrs in Erun. erewrite bind_run by exact Erun. cbn [ptrs pi plt pgt length] in Hpi, Hplt, Hpgt. rewrite Hpi, Hplt, Hpgt. clear Hpi Hplt Hpgt Erun Eptrs Ex.
  pose proof (Permutation_length Hp2) as Hlp. cbn [app] in Hlp. rewrite app_nil_r, !length_app in Hlp. fold b.
  replace (Z.of_nat (b + 1 + length E1) - Z.of_nat b) with (Z.of_nat (length (p :: E1))) by (cbn; lia).
  replace (Z.of_nat (b + 1 + length E1 + length L) - Z.of_nat (b + 1 + length E1)) with (Z.of_nat (length L)) by lia. rewrite min_Z, Nat2Z.id.
  destruct (change_places pre (p :: E1) L (G ++ E2 ++ post)) as (EQ & L' & Erun1 & HEQ & HL').
  assert (lay pre p E1 L [] G E2 post = pre ++ (p :: E1) ++ L ++ G ++ E2 ++ post) as -> by list_split.
  replace (Z.of_nat (b + 1 + length E1 + length L) - Z.of_nat (length (p :: E1) `min` length L))
    with (Z.of_nat (length pre + length (p :: E1) + length L - length (p :: E1) `min` length L)) by (fold b; cbn [length]; lia).
  erewrite bind_run by exact Erun1.
  replace (Z.of_nat b + Z.of_nat n - Z.of_nat (b + 1 + length E1 + length L + 0 + length G)) with (Z.of_nat (length E2)) by lia.
  replace (Z.of_nat (b + 1 + length E1 + length L + 0 + length G) - Z.of_nat (b + 1 + length E1 + length L)) with (Z.of_nat (length G)) by lia.
  rewrite min_Z, Nat2Z.id. pose proof (Permutation_length HEQ) as HlEQ. pose proof (Permutation_length HL') as HlL'. cbn [length] in HlEQ.
  destruct (change_places (pre ++ L' ++ EQ) G E2 post) as (G' & E2' & Erun2 & HG' & HE2').
  assert (length (pre ++ L' ++ EQ) = b + 1 + length E1 + length L)%nat as Hl3 by (rewrite !length_app; unfold b; lia). rewrite Hl3 in Erun2.
  replace (Z.of_nat b + Z.of_nat n - Z.of_nat (length E2 `min` length G)) with (Z.of_nat (b + 1 + length E1 + length L + length G + length E2 - length G `min` length E2)) by lia.
  rewrite (Nat.min_comm (length E2)). assert (pre ++ L' ++ EQ ++ G ++ E2 ++ post = (pre ++ L' ++ EQ) ++ G ++ E2 ++ post) as -> by (by rewrite <-!app_assoc).
  erewrite bind_run by exact Erun2. pose proof (Permutation_length HG') as HlG'. pose proof (Permutation_length HE2') as HlE2'.
  exists p, L', (EQ ++ E2'), G'. split_and!.
  - unfold ret. rewrite length_app. f_equal; [|by rewrite <-!app_assoc]. apply (f_equal Ok), (f_equal2 pair); [apply (f_equal2 pair)|]; cbn [length]; lia.
  - rewrite Hperm. cbn [app] in Hp2. rewrite app_nil_r in Hp2. rewrite Hp2, HL', HEQ, HG', HE2'.
    rewrite <-app_assoc. cbn [app]. rewrite (Permutation_app_comm G E2), (app_assoc E1 L), (Permutation_app_comm E1 L), <-app_assoc. by rewrite Permutation_middle.
  - intros E0. apply (f_equal length) in E0. rewrite length_app in E0. cbn in E0. lia.
  - by rewrite HL'.
  - apply Forall_app_2; [rewrite HEQ; constructor; [by left|]|rewrite HE2']; eapply Forall_impl; eauto.
  - by rewrite HG'.
Qed.
End elements.

(** * Sorting: heapsort and insertion

    [heapsortx] and the insertion sort of the small segments: they only move
    elements, whatever the comparison answers, and sort them when it is an order. *)

Section order.
Context {A : Type} (cmp : A → A → Z).
Implicit Types l pre post h : list A.

(** A comparison function is consistent when it is the one of a total preorder. *)
Definition consistent : Prop :=
  (∀ x y, cmp x y < 0 ↔ cmp y x > 0) ∧ (∀ x y z, cmp x y ≤ 0 → cmp y z ≤ 0 → cmp x z ≤ 0).

Definition le (x y : A) : Prop := cmp x y ≤ 0.
Definition in_order : list A → Prop := StronglySorted le.

Lemma le_total x y : consistent → cmp x y > 0 → le y x.
Proof. intros [Hc _] H. unfold le. apply Hc in H. lia. Qed.

Lemma le_opp x y : consistent → le x y → 0 ≤ cmp y x.
Proof. intros [Hc _] H. unfold le in H. destruct (Z.lt_ge_cases (cmp y x) 0) as [Hlt|]; [|lia]. apply Hc in Hlt. lia. Qed.

Lemma le_refl x : consistent → le x x.
Proof. intros [Hc _]. unfold le. destruct (Z.le_gt_cases (cmp x x) 0) as [|H]; [done|]. assert (cmp x x > 0) as H' by lia. apply Hc in H'. lia. Qed.

Lemma le_trans x y z : consistent → le x y → le y z → le x z.
Proof. intros [_ Ht]. apply Ht. Qed.

(** ** A part of the array *)

Lemma compare_part pre h post p q x y :
  h !! p = Some x → h !! q = Some y →
  compare cmp (Z.of_nat (length pre) + Z.of_nat p) (Z.of_nat (length pre) + Z.of_nat q) (pre ++ h ++ post) = (Ok (cmp x y), pre ++ h ++ post).
Proof.
  intros Hx Hy. rewrite <-!Nat2Z.inj_add. apply compare_run; rewrite lookup_app_r by lia.
  - replace (length pre + p - length pre)%nat with p by lia. by apply lookup_app_l_Some.
  - replace (length pre + q - length pre)%nat with q by lia. by apply lookup_app_l_Some.
Qed.

Lemma swap_part pre h post p q :
  (p < length h)%nat → (q < length h)%nat →
  swap (Z.of_nat (length pre) + Z.of_nat p) (Z.of_nat (length pre) + Z.of_nat q) (pre ++ h ++ post) = (Ok tt, pre ++ exch p q h ++ post).
Proof.
  intros Hp Hq. rewrite <-!Nat2Z.inj_add, swap_run by (rewrite !length_app; lia). by rewrite exch_app_r, exch_app_l.
Qed.

Lemma exch_lookup p q l i x y : l !! p = Some x → l !! q = Some y →
  exch p q l !! i = if decide (i = p) then Some y else if decide (i = q) then Some x else l !! i.
Proof.
  intros Hp Hq. unfold exch. rewrite Hp, Hq. pose proof (lookup_lt_Some _ _ _ Hp). pose proof (lookup_lt_Some _ _ _ Hq).
  destruct (decide (i = q)) as [->|Hiq].
  - rewrite list_lookup_insert_eq by (rewrite length_insert; done). destruct (decide (q = p)) as [->|]; [|done]. by rewrite Hp in Hq.
  - rewrite list_lookup_insert_ne by done. destruct (decide (i = p)) as [->|]; [by rewrite list_lookup_insert_eq|by rewrite list_lookup_insert_ne].
Qed.

(** ** Heaps *)

Definition child (k c : nat) : Prop := c = (2 * k + 1)%nat ∨ c = (2 * k + 2)%nat.

(** From the place [s] on, no element is under one of its children. *)
Definition heap_from (s : nat) h : Prop :=
  ∀ k c x y, (s ≤ k)%nat → child k c → h !! k = Some x → h !! c = Some y → le y x.
(** The same but for the place [r]. *)
Definition heap_except (s r : nat) h : Prop :=
  (∀ k c x y, (s ≤ k)%nat → k ≠ r → child k c → h !! k = Some x → h !! c = Some y → le y x) ∧
  (∀ k c x y, (s ≤ k)%nat → child k r → child r c → h !! k = Some x → h !! c = Some y → le y x).

(** The greater child of [r] is over the other one and under the parent of [r]: it can go up. *)
Lemma sift_step s r c h x y :
  consistent → (s ≤ r)%nat → child r c → h !! r = Some x → h !! c = Some y → le x y →
  (∀ c' z, child r c' → h !! c' = Some z → le z y) → heap_except s r h → heap_except s c (exch r c h).
Proof.
  intros Hc Hsr Hrc Hr Hcc Hxy Hmax [H1 H2].
  assert (r ≠ c) as Hne by (destruct Hrc; lia).
  pose proof (exch_lookup r c h) as Hl. specialize (λ i, Hl i x y Hr Hcc). split.
  - intros k c' a b Hk Hkc Hch Ha Hb. rewrite Hl in Ha, Hb. destruct (decide (k = r)) as [->|Hkr].
    + injection Ha as <-. destruct (decide (c' = r)) as [->|]; [destruct Hch; lia|]. destruct (decide (c' = c)) as [->|]; [by injection Hb as <-|].
      by apply (Hmax c').
    + destruct (decide (k = c)); [done|]. destruct (decide (c' = r)) as [->|].
      * injection Hb as <-. by apply (H2 k c).
      * destruct (decide (c' = c)) as [->|]; [destruct Hch, Hrc; lia|]. by apply (H1 k c').
  - intros k c' a b Hk Hkc Hch Ha Hb. assert (k = r) as -> by (destruct Hkc, Hrc; lia). rewrite Hl in Ha, Hb. rewrite decide_True in Ha by done.
    injection Ha as <-. destruct (decide (c' = r)) as [->|]; [destruct Hch, Hrc; lia|]. destruct (decide (c' = c)) as [->|]; [destruct Hch; lia|].
    apply (H1 c c'); [destruct Hrc; lia|done|done|done|done].
Qed.

(** The hole closes where no child is greater. *)
Lemma heap_close s r h :
  (∀ c x y, child r c → h !! r = Some x → h !! c = Some y → le y x) → heap_except s r h → heap_from s h.
Proof.
  intros Hr [H1 _] k c x y Hk Hch Hx Hy. destruct (decide (k = r)) as [->|]; [by apply (Hr c)|by apply (H1 k c)].
Qed.

Lemma sift_run fuel pre h post r s :
  (r < length h)%nat → (length h - r < fuel)%nat →
  ∃ h', loop fuel (sift_turn cmp (Z.of_nat (length pre)) (Z.of_nat (length h))) (Z.of_nat r) (pre ++ h ++ post) = (Ok tt, pre ++ h' ++ post) ∧
    h' ≡ₚ h ∧ (consistent → (s ≤ r)%nat → heap_except s r h → heap_from s h').
Proof.
  revert h r. induction fuel as [|fuel IH]; intros h r Hr Hf; [lia|]. cbn [loop]. unfold sift_turn at 1. cbv zeta. 
  destruct (lookup_lt_is_Some_2 h r Hr) as [x Hx].
  destruct (Z.ltb_spec (Z.of_nat r * 2 + 1) (Z.of_nat (length h))) as [Hlt|Hge].
  2:{ rewrite bind_ret. exists h. split_and!; [done|done|]. intros Hcon Hs. apply heap_close. intros c a b [-> | ->] Ha Hb; apply lookup_lt_Some in Hb; lia. }
  assert (∃ c y, (2 * r + 1 = c ∨ 2 * r + 2 = c)%nat ∧ h !! c = Some y ∧
    (if Z.of_nat r * 2 + 1 <? Z.of_nat (length h) - 1 then
       k ← compare cmp (Z.of_nat (length pre) + (Z.of_nat r * 2 + 1)) (Z.of_nat (length pre) + (Z.of_nat r * 2 + 1) + 1);
       ret (if k <=? 0 then Z.of_nat r * 2 + 1 + 1 else Z.of_nat r * 2 + 1)
     else ret (Z.of_nat r * 2 + 1)) (pre ++ h ++ post) = (Ok (Z.of_nat c), pre ++ h ++ post) ∧
    (consistent → ∀ c' z, child r c' → h !! c' = Some z → le z y)) as (c & y & Hc & Hy & Ec & Hmax).
  { destruct (lookup_lt_is_Some_2 h (2 * r + 1)) as [y1 Hy1]; [lia|].
    destruct (Z.ltb_spec (Z.of_nat r * 2 + 1) (Z.of_nat (length h) - 1)) as [Hlt2|Hge2].
    - destruct (lookup_lt_is_Some_2 h (2 * r + 2)) as [y2 Hy2]; [lia|].
      replace (Z.of_nat r * 2 + 1) with (Z.of_nat (2 * r + 1)) by lia.
      replace (Z.of_nat (length pre) + Z.of_nat (2 * r + 1) + 1) with (Z.of_nat (length pre) + Z.of_nat (2 * r + 2)) by lia.
      destruct (Z.leb_spec (cmp y1 y2) 0) as [Hle|Hgt].
      + exists (2 * r + 2)%nat, y2. split_and!; [by right|done| |].
        * erewrite bind_run by by apply compare_part. rewrite (proj2 (Z.leb_le _ _)) by done. unfold ret. do 2 f_equal. lia.
        * intros Hcon c' z [-> | ->] Hz; [by rewrite Hy1 in Hz; injection Hz as <-|rewrite Hy2 in Hz; injection Hz as <-; by apply le_refl].
      + exists (2 * r + 1)%nat, y1. split_and!; [by left|done| |].
        * erewrite bind_run by by apply compare_part. by rewrite (proj2 (Z.leb_gt _ _)) by done.
        * intros Hcon c' z [-> | ->] Hz; [rewrite Hy1 in Hz; injection Hz as <-; by apply le_refl|rewrite Hy2 in Hz; injection Hz as <-; apply le_total; [done|lia]].
    - exists (2 * r + 1)%nat, y1. split_and!; [by left|done|unfold ret; do 2 f_equal; lia|].
      intros Hcon c' z [-> | ->] Hz; [rewrite Hy1 in Hz; injection Hz as <-; by apply le_refl|apply lookup_lt_Some in Hz; lia]. }
  rewrite bind_bind. erewrite bind_run by exact Ec. rewrite bind_bind. erewrite bind_run by by apply compare_part.
  assert (c < length h)%nat as Hcl by (by apply lookup_lt_Some in Hy). assert (child r c) as Hch by (destruct Hc; [left|right]; lia).
  rewrite Z.gtb_ltb. destruct (Z.ltb_spec 0 (cmp x y)) as [Hgt|Hle].
  - rewrite bind_ret. exists h. split_and!; [done|done|]. intros Hcon Hs. apply heap_close. intros c' a b Hc' Ha Hb.
    rewrite Hx in Ha. injection Ha as <-. apply (le_trans b y x Hcon); [by apply (Hmax Hcon c')|apply le_total; [done|lia]].
  - rewrite bind_bind. erewrite bind_run by by apply swap_part. rewrite bind_ret.
    destruct (IH (exch r c h) c) as (h' & E & Hp & Hheap); [by rewrite exch_length|rewrite exch_length; destruct Hc; lia|].
    rewrite exch_length in E. exists h'. split_and!; [exact E|by rewrite Hp, exch_perm|]. intros Hcon Hs Hex.
    apply Hheap; [done|destruct Hc; lia|]. by apply (sift_step s r c h x y); [| | | | | |apply Hmax|].
Qed.

(** ** [heapsortx] *)

Lemma heap_leaves h s : (length h ≤ 2 * s + 1)%nat → heap_from s h.
Proof. intros Hs k c x y Hk Hch _ Hy. apply lookup_lt_Some in Hy. destruct Hch; lia. Qed.

Lemma heap_root h x k y : consistent → heap_from 0 h → h !! 0%nat = Some x → h !! k = Some y → le y x.
Proof.
  intros Hcon Hh Hx. revert y. induction k as [k IH] using lt_wf_ind. intros y Hy. destruct k as [|k].
  - rewrite Hx in Hy. injection Hy as ->. by apply le_refl.
  - pose proof (Nat.div_mod_eq k 2) as Hd. pose proof (Nat.mod_upper_bound k 2) as Hm.
    destruct (lookup_lt_is_Some_2 h (k / 2)) as [z Hz]; [apply lookup_lt_Some in Hy; lia|].
    apply (le_trans y z x Hcon); [|apply (IH (k / 2)%nat); [lia|done]].
    apply (Hh (k / 2)%nat (S k)); [lia|unfold child; lia|done|done].
Qed.

Lemma heapify_run fuel pre h post i :
  (i < fuel)%nat → (2 * i ≤ length h)%nat →
  ∃ h', loop fuel (heapify_turn cmp (Z.of_nat (length pre)) (Z.of_nat (length h))) (Z.of_nat i) (pre ++ h ++ post) = (Ok tt, pre ++ h' ++ post) ∧
    h' ≡ₚ h ∧ (consistent → heap_from i h → heap_from 0 h').
Proof.
  revert h i. induction fuel as [|fuel IH]; intros h i Hf Hi; [lia|]. cbn [loop]. unfold heapify_turn at 1.
  rewrite Z.gtb_ltb. destruct (Z.ltb_spec 0 (Z.of_nat i)) as [Hpos|Hz].
  2:{ rewrite bind_ret. exists h. split_and!; [done|done|]. intros _ Hh. by replace 0%nat with i by lia. }
  cbv zeta. replace (Z.of_nat i - 1) with (Z.of_nat (i - 1)) by lia. unfold sift. rewrite bind_bind.
  destruct (sift_run (S (Z.to_nat (Z.of_nat (length h)))) pre h post (i - 1) (i - 1)) as (h1 & E1 & Hp1 & Hh1); [lia|lia|].
  erewrite bind_run by exact E1. rewrite bind_ret.
  destruct (IH h1 (i - 1)%nat) as (h2 & E2 & Hp2 & Hh2); [lia|rewrite Hp1; lia|]. rewrite (Permutation_length Hp1) in E2.
  exists h2. split_and!; [exact E2|by rewrite Hp2|]. intros Hcon Hh. apply Hh2, Hh1; [done..|]. split.
  - intros k c x y Hk Hne. apply Hh. lia.
  - intros k c x y Hk Hch. destruct Hch; lia.
Qed.

Lemma heap_cut x m y : heap_from 0 (x :: m ++ [y]) → heap_except 0 0 (y :: m).
Proof.
  intros Hh. split; [|intros k c a b _ Hch; destruct Hch; lia].
  intros k c a b _ Hk Hch Ha Hb. destruct k as [|k]; [done|]. destruct c as [|c]; [destruct Hch; lia|].
  apply (Hh (S k) (S c)); [lia|done|by apply (lookup_app_l_Some (x :: m))|by apply (lookup_app_l_Some (x :: m))].
Qed.

Lemma extract_run fuel pre h t post i :
  length h = S i → (i < fuel)%nat →
  ∃ l, loop fuel (extract_turn cmp (Z.of_nat (length pre))) (Z.of_nat i) (pre ++ h ++ t ++ post) = (Ok tt, pre ++ l ++ post) ∧
    l ≡ₚ h ++ t ∧
    (consistent → heap_from 0 h → (∀ x y, x ∈ h → y ∈ t → le x y) → in_order t → in_order l).
Proof.
  revert h t i. induction fuel as [|fuel IH]; intros h t i Hl Hf; [lia|]. cbn [loop]. unfold extract_turn at 1.
  rewrite Z.gtb_ltb. destruct (Z.ltb_spec 0 (Z.of_nat i)) as [Hpos|Hz].
  2:{ rewrite bind_ret. exists (h ++ t). split_and!; [by rewrite <-app_assoc|done|]. intros _ _ Hle Ht.
      destruct h as [|x [|? ?]]; cbn [length] in Hl; [lia| |lia]. constructor; [done|]. apply Forall_forall. intros y Hy. apply Hle; [by left|done]. }
  destruct h as [|x h]; [done|]. destruct h as [|y m _] using rev_ind; [cbn [length] in Hl; lia|].
  cbn [length] in Hl. rewrite length_app in Hl. cbn [length] in Hl. rewrite bind_bind.
  erewrite bind_run.
  2:{ rewrite <-(Z.add_0_r (Z.of_nat (length pre))) at 1. apply (swap_part pre (x :: m ++ [y]) (t ++ post) 0 i); cbn [length]; rewrite ?length_app; cbn [length]; lia. }
  assert (exch 0 i (x :: m ++ [y]) = y :: m ++ [x]) as Hx.
  { pose proof (exch_split [] x m y []) as Hx. cbn [length app] in Hx. by replace i with (0 + 1 + length m)%nat by lia. }
  rewrite Hx. clear Hx. unfold sift.
  destruct (sift_run (S (Z.to_nat (Z.of_nat i))) pre (y :: m) (x :: t ++ post) 0 0) as (h1 & E1 & Hp1 & Hh1); [cbn [length]; lia..|].
  replace (length (y :: m)) with i in E1 by (cbn [length]; lia).
  rewrite bind_bind. erewrite bind_run.
  2:{ replace (pre ++ (y :: m ++ [x]) ++ t ++ post) with (pre ++ (y :: m) ++ x :: t ++ post) by (by cbn [app]; rewrite <-app_assoc). exact E1. }
  rewrite bind_ret. replace (Z.of_nat i - 1) with (Z.of_nat (i - 1)) by lia.
  destruct (IH h1 (x :: t) (i - 1)%nat) as (l & E2 & Hp2 & Hs2); [rewrite Hp1; cbn [length]; lia|lia|].
  exists l. split_and!; [exact E2|rewrite Hp2, Hp1; cbn [app]; rewrite <-app_assoc; cbn [app]; rewrite <-!Permutation_middle; apply perm_swap|].
  intros Hcon Hheap Hle Ht. apply Hs2; [done|by apply Hh1, (heap_cut x)| |].
  - intros a b Ha Hb. rewrite Hp1 in Ha. assert (a ∈ x :: m ++ [y]) as Ha' by set_solver.
    apply list_elem_of_lookup in Ha' as [k Hk]. apply elem_of_cons in Hb as [->|Hb]; [by apply (heap_root (x :: m ++ [y]) x k)|].
    apply Hle; [by apply list_elem_of_lookup_2 in Hk|done].
  - constructor; [done|]. apply Forall_forall. intros b Hb. apply Hle; [by left|done].
Qed.

Lemma heapsortx_run pre h post :
  ∃ l, heapsortx cmp (Z.of_nat (length pre)) (Z.of_nat (length h)) (pre ++ h ++ post) = (Ok tt, pre ++ l ++ post) ∧
    l ≡ₚ h ∧ (consistent → in_order l).
Proof.
  unfold heapsortx. rewrite Z.gtb_ltb. destruct (Z.ltb_spec 1 (Z.of_nat (length h))) as [Hgt|Hle].
  2:{ exists h. split_and!; [done|done|]. intros _. destruct h as [|x [|? ?]]; [constructor|repeat constructor|cbn [length] in Hle; lia]. }
  rewrite <-(Nat2Z.inj_div _ 2). pose proof (Nat.div_mod_eq (length h) 2) as Hd. pose proof (Nat.mod_upper_bound (length h) 2) as Hm.
  destruct (heapify_run (S (Z.to_nat (Z.of_nat (length h)))) pre h post (length h / 2)) as (h1 & E1 & Hp1 & Hh1); [lia|lia|].
  erewrite bind_run by exact E1. replace (Z.of_nat (length h) - 1) with (Z.of_nat (length h - 1)) by lia.
  destruct (extract_run (S (Z.to_nat (Z.of_nat (length h)))) pre h1 [] post (length h - 1)) as (l & E2 & Hp2 & Hs2); [rewrite Hp1; lia|lia|].
  exists l. split_and!; [exact E2|by rewrite Hp2, Hp1, app_nil_r|]. intros Hcon.
  apply Hs2; [done|apply Hh1; [done|apply heap_leaves; lia]|set_solver|constructor].
Qed.
End order.
