(* ===== verification/SortStack.v ===== *)
(** * Sorting: insertion and the stack of segments

    The invariant of the stack of segments: the segments lie apart in the array,
    two elements out of order are in one segment of the stack, and the segments
    under an entry are no more than its depth, so that the 50 places are enough.
    With it the loop over the segments keeps the array rearranged, whatever the
    comparison answers. *)
From S2P Require Import Prelude Sort SortFacts.
From Stdlib Require Import Sorted.

#[local] Open Scope Z_scope.

Section stack.
Context {A : Type} (cmp : A → A → Z).
Implicit Types l pre mid post : list A.
Implicit Types segs : list segment.

Abbreviation le := (le cmp).
Abbreviation in_order := (in_order cmp).

(** ** Order by places *)

Lemma in_order_app l1 l2 : in_order (l1 ++ l2) ↔ in_order l1 ∧ in_order l2 ∧ ∀ x y, x ∈ l1 → y ∈ l2 → le x y.
Proof.
  unfold SortFacts.in_order. induction l1 as [|a l1 IH]; cbn [app].
  - split; [intros H; split_and!; [constructor|done|set_solver]|tauto].
  - split.
    + intros H. apply StronglySorted_inv in H as [H Ha]. apply IH in H as (H1 & H2 & H3). rewrite Forall_forall in Ha.
      split_and!; [constructor; [done|]; apply Forall_forall; set_solver|done|set_solver].
    + intros (H1 & H2 & H3). apply StronglySorted_inv in H1 as [H1 Ha]. constructor; [apply IH; split_and!; [done|done|set_solver]|].
      rewrite !Forall_forall in *. set_solver.
Qed.

Lemma in_order_lookup l :
  (∀ (i j : nat) x y, (i < j)%nat → l !! i = Some x → l !! j = Some y → le x y) ↔ in_order l.
Proof.
  induction l as [|a l IH]; [split; [constructor|set_solver]|]. split.
  - intros H. constructor; [apply IH; intros i j x y Hij Hx Hy; apply (H (S i) (S j)); [lia|done|done]|].
    apply Forall_forall. intros y Hy. apply list_elem_of_lookup in Hy as [j Hj]. apply (H 0%nat (S j)); [lia|done|done].
  - intros H. apply StronglySorted_inv in H as [H Ha]. rewrite Forall_forall in Ha. intros [|i] [|j] x y Hij Hx Hy; [lia| |lia|].
    + injection Hx as ->. apply Ha, (list_elem_of_lookup_2 _ j), Hy.
    + eapply IH; [done| |done|done]. lia.
Qed.

(** ** Insertion *)

Lemma insert_run fuel pre d x b post p :
  p = Z.of_nat (length pre + length d) → (length d < fuel)%nat →
  ∃ l, loop fuel (insert_turn cmp (Z.of_nat (length pre))) p (pre ++ d ++ x :: b ++ post) = (Ok tt, pre ++ l ++ post) ∧
    l ≡ₚ d ++ x :: b ∧ (consistent cmp → in_order (d ++ b) → (∀ y, y ∈ b → le x y) → in_order l).
Proof.
  revert d b p. induction fuel as [|fuel IH]; intros d b p -> Hf; [lia|]. cbn [loop]. unfold insert_turn at 1. rewrite Z.gtb_ltb.
  destruct d as [|y d _] using rev_ind.
  { rewrite (proj2 (Z.ltb_ge _ _)) by (cbn [length]; lia). rewrite bind_ret. exists (x :: b). split_and!; [done|done|].
    intros _ Hb Hle. constructor; [done|]. by apply Forall_forall. }
  rewrite length_app in *. cbn [length] in *. rewrite (proj2 (Z.ltb_lt _ _)) by lia. rewrite bind_bind.
  replace ((d ++ [y]) ++ x :: b ++ post) with ((d ++ y :: x :: b) ++ post) by (by rewrite <-!app_assoc).
  replace (Z.of_nat (length pre + (length d + 1)) - 1) with (Z.of_nat (length pre) + Z.of_nat (length d)) by lia.
  replace (Z.of_nat (length pre + (length d + 1))) with (Z.of_nat (length pre) + Z.of_nat (length d + 1)) by lia.
  erewrite bind_run.
  2:{ apply compare_part; [by apply list_lookup_middle|]. rewrite lookup_app_r by lia. by replace (length d + 1 - length d)%nat with 1%nat by lia. }
  rewrite Z.gtb_ltb. destruct (Z.ltb_spec 0 (cmp y x)) as [Hgt|Hle].
  - rewrite bind_bind. erewrite bind_run by (apply swap_part; rewrite length_app; cbn [length]; lia). rewrite bind_ret.
    replace (exch (length d + 1) (length d) (d ++ y :: x :: b)) with (d ++ x :: y :: b).
    2:{ rewrite exch_sym. pose proof (exch_split d y [] x b) as E. cbn [length app] in E. by rewrite Nat.add_0_r in E. }
    destruct (IH d (y :: b) (Z.of_nat (length pre) + Z.of_nat (length d))) as (l & E & Hp & Ho); [lia|lia|].
    exists l. split_and!; [by rewrite <-E, <-app_assoc|rewrite Hp, <-app_assoc; cbn [app]; by rewrite perm_swap|].
    intros Hc Hd Hb. apply Ho; [done|by rewrite <-app_assoc in Hd|]. intros z Hz. apply elem_of_cons in Hz as [->|Hz]; [|by apply Hb].
    apply le_total; [done|lia].
  - rewrite bind_ret. exists (d ++ y :: x :: b). split_and!; [done|by rewrite <-app_assoc|]. intros Hc Hd Hb.
    apply in_order_app in Hd as (H1 & H2 & H3). replace (d ++ y :: x :: b) with ((d ++ [y]) ++ x :: b) by (by rewrite <-app_assoc).
    apply in_order_app. split_and!; [done|constructor; [done|by apply Forall_forall]|].
    intros u v Hu Hv. apply elem_of_cons in Hv as [->|Hv]; [|by apply H3].
    apply elem_of_app in Hu as [Hu|Hu]; [|apply list_elem_of_singleton in Hu as ->; exact Hle].
    apply in_order_app in H1 as (_ & _ & H1). apply (le_trans cmp u y x Hc); [apply H1; set_solver|exact Hle].
Qed.

Lemma insertion_loop_run fuel pre d r post n p :
  n = Z.of_nat (length d + length r) → p = Z.of_nat (length pre + length d) → (length r < fuel)%nat →
  ∃ l, loop fuel (insertion_turn cmp (Z.of_nat (length pre)) n) p (pre ++ d ++ r ++ post) = (Ok tt, pre ++ l ++ post) ∧
    l ≡ₚ d ++ r ∧ (consistent cmp → in_order d → in_order l).
Proof.
  revert d r p. induction fuel as [|fuel IH]; intros d r p Hn -> Hf; [lia|]. cbn [loop]. unfold insertion_turn at 1.
  destruct r as [|x r].
  { cbn [length] in Hn. rewrite (proj2 (Z.ltb_ge _ _)) by lia. rewrite bind_ret. exists d. by rewrite app_nil_r. }
  cbn [length] in *. rewrite (proj2 (Z.ltb_lt _ _)) by lia. rewrite bind_bind.
  destruct (insert_run (S (Z.to_nat n)) pre d x [] (r ++ post) (Z.of_nat (length pre + length d))) as (d' & E & Hp & Ho); [done|lia|].
  erewrite bind_run by exact E. rewrite bind_ret. pose proof (Permutation_length Hp) as Hlen. rewrite length_app in Hlen. cbn [length] in Hlen.
  destruct (IH d' r (Z.of_nat (length pre + length d) + 1)) as (l & E2 & Hp2 & Ho2); [lia..|].
  exists l. split_and!; [exact E2|by rewrite Hp2, Hp, <-app_assoc|]. intros Hc Hd. apply Ho2, Ho; [done|done|by rewrite app_nil_r|set_solver].
Qed.

Lemma insertion_run pre mid post :
  ∃ l, insertion cmp (Z.of_nat (length pre)) (Z.of_nat (length mid)) (pre ++ mid ++ post) = (Ok tt, pre ++ l ++ post) ∧
    l ≡ₚ mid ∧ (consistent cmp → in_order l).
Proof.
  unfold insertion. destruct mid as [|x mid].
  { exists []. cbn [length loop]. unfold insertion_turn. rewrite (proj2 (Z.ltb_ge _ _)) by lia. split_and!; [done|done|]. intros _. constructor. }
  destruct (insertion_loop_run (S (Z.to_nat (Z.of_nat (length (x :: mid))))) pre [x] mid post (Z.of_nat (length (x :: mid))) (Z.of_nat (length pre) + 1))
    as (l & E & Hp & Ho); [done|cbn [length]; lia|cbn [length]; lia|].
  exists l. split_and!; [exact E|done|]. intros Hc. apply Ho; [done|]. repeat constructor.
Qed.

(** ** Segments *)

(** The place [i] is in the segment. *)
Definition holds (i : nat) (s : segment) : Prop := let '(p, n, _) := s in p ≤ Z.of_nat i < p + n.
Definition within (a b : Z) (s : segment) : Prop := let '(p, n, _) := s in a ≤ p ∧ 0 ≤ n ∧ p + n ≤ b.
Definition apart (s t : segment) : Prop := let '(p, n, _) := s in let '(q, m, _) := t in p + n ≤ q ∨ q + m ≤ p.
(** Two elements are in order, or still together in a segment. *)
Definition settled segs l : Prop :=
  ∀ (i j : nat) x y, (i < j)%nat → l !! i = Some x → l !! j = Some y → le x y ∨ Exists (λ s, holds i s ∧ holds j s) segs.

Record pending segs l : Prop := {
  pending_within : Forall (within 0 (Z.of_nat (length l))) segs;
  pending_apart : ForallOrdPairs apart segs;
  pending_order : consistent cmp → settled segs l }.

Lemma apart_holds s t i : apart s t → holds i s → holds i t → False.
Proof. destruct s as [[p n] d], t as [[q m] e]. cbn. lia. Qed.

Lemma within_apart a b s t d : within a b s → apart (a, b - a, d) t → apart s t.
Proof. destruct s as [[p n] e], t as [[q m] e']. cbn. lia. Qed.

Lemma pairs_app segs segs' :
  ForallOrdPairs apart segs → ForallOrdPairs apart segs' → (∀ s t, s ∈ segs → t ∈ segs' → apart s t) → ForallOrdPairs apart (segs ++ segs').
Proof.
  intros H H'. induction H as [|s segs Hs H IH]; cbn [app]; intros Hst; [done|]. constructor; [|apply IH; set_solver].
  apply Forall_app_2; [done|]. apply Forall_forall. set_solver.
Qed.

Lemma lookup_outside pre mid mid' post i :
  length mid' = length mid → ¬ (length pre ≤ i < length pre + length mid)%nat → (pre ++ mid' ++ post) !! i = (pre ++ mid ++ post) !! i.
Proof.
  intros Hl Hi. destruct (decide (i < length pre)%nat); [by rewrite !lookup_app_l by done|]. rewrite !(lookup_app_r pre) by lia.
  rewrite !lookup_app_r by lia. by rewrite Hl.
Qed.

Lemma lookup_inside pre mid post i x :
  (length pre ≤ i < length pre + length mid)%nat → (pre ++ mid ++ post) !! i = Some x → mid !! (i - length pre)%nat = Some x.
Proof. intros Hi. rewrite lookup_app_r, lookup_app_l by lia. done. Qed.

Lemma lookup_back pre mid post k x : mid !! k = Some x → (pre ++ mid ++ post) !! (length pre + k)%nat = Some x.
Proof. intros Hk. rewrite lookup_app_r by lia. replace (length pre + k - length pre)%nat with k by lia. by apply lookup_app_l_Some. Qed.

(** The first segment, in the array. *)
Lemma pending_split p n d segs l : pending ((p, n, d) :: segs) l →
  ∃ pre mid post, l = pre ++ mid ++ post ∧ p = Z.of_nat (length pre) ∧ n = Z.of_nat (length mid).
Proof.
  intros [Hw _ _]. apply Forall_inv in Hw as (Hp & Hn & He).
  exists (take (Z.to_nat p) l), (take (Z.to_nat n) (drop (Z.to_nat p) l)), (drop (Z.to_nat n) (drop (Z.to_nat p) l)).
  rewrite !take_drop, !length_take, length_drop. split_and!; [done|lia..].
Qed.

(** The elements outside a segment are in order with those inside. *)
Lemma settled_across pre mid post d segs (i : nat) z :
  consistent cmp → pending ((Z.of_nat (length pre), Z.of_nat (length mid), d) :: segs) (pre ++ mid ++ post) →
  ¬ (length pre ≤ i < length pre + length mid)%nat → (pre ++ mid ++ post) !! i = Some z →
  ∀ x, x ∈ mid → if decide (i < length pre)%nat then le z x else le x z.
Proof.
  intros Hc [_ Hap Ho] Hi Hz x Hx. specialize (Ho Hc). apply list_elem_of_lookup in Hx as [k Hk].
  pose proof (lookup_lt_Some _ _ _ Hk) as Hkl. pose proof (lookup_back pre mid post k x Hk) as Hk'.
  assert (¬ ∃ s, s ∈ (Z.of_nat (length pre), Z.of_nat (length mid), d) :: segs ∧ holds i s ∧ holds (length pre + k) s) as Hno.
  { intros (s & Hs & Hi' & Hk2). apply elem_of_cons in Hs as [->|Hs]; [cbn in Hi'; lia|]. inversion Hap as [|? ? Hs' _]; subst. rewrite Forall_forall in Hs'.
    apply (apart_holds _ s (length pre + k) (Hs' s Hs)); [cbn; lia|done]. }
  destruct (decide (i < length pre)%nat) as [Hlt|Hge].
  - destruct (Ho i (length pre + k)%nat z x) as [?|He]; [lia|done|done|done|]. destruct Hno. by apply Exists_exists in He.
  - destruct (Ho (length pre + k)%nat i x z) as [?|He]; [lia|done|done|done|]. destruct Hno. apply Exists_exists in He as (s & Hs & ? & ?). by exists s.
Qed.

Lemma holds_places pre mid d i (Hi : holds i (Z.of_nat (length pre), Z.of_nat (length mid), d)) : (length pre ≤ i < length pre + length mid)%nat.
Proof. cbn in Hi. lia. Qed.

(** A segment is rearranged, and what is not in order there is left to segments of it. *)
Lemma settled_replace pre mid mid' post d segs segs' :
  consistent cmp → pending ((Z.of_nat (length pre), Z.of_nat (length mid), d) :: segs) (pre ++ mid ++ post) → mid' ≡ₚ mid →
  (∀ (i j : nat) x y, (i < j)%nat → mid' !! i = Some x → mid' !! j = Some y → le x y ∨ Exists (λ s, holds (length pre + i) s ∧ holds (length pre + j) s) segs') →
  settled (segs' ++ segs) (pre ++ mid' ++ post).
Proof.
  intros Hc Hpend Hperm Hmid i j x y Hij Hx Hy. pose proof (Permutation_length Hperm) as Hl. rewrite Exists_app.
  pose proof (settled_across pre mid post d segs) as Hcross.
  destruct (decide (length pre ≤ i < length pre + length mid)%nat) as [Hi|Hi].
  - assert (x ∈ mid) as Hxm. { rewrite <-Hperm. apply list_elem_of_lookup. exists (i - length pre)%nat. apply (lookup_inside _ _ post); [lia|done]. }
    destruct (decide (length pre ≤ j < length pre + length mid)%nat) as [Hj|Hj].
    + destruct (Hmid (i - length pre)%nat (j - length pre)%nat x y) as [?|He];
        [lia|apply (lookup_inside _ _ post); [lia|done]|apply (lookup_inside _ _ post); [lia|done]|by left|].
      right. left. by replace (length pre + (i - length pre))%nat with i in He by lia; replace (length pre + (j - length pre))%nat with j in He by lia.
    + rewrite (lookup_outside pre mid) in Hy by done. left. specialize (Hcross j y Hc Hpend Hj Hy x Hxm). by rewrite decide_False in Hcross by lia.
  - rewrite (lookup_outside pre mid) in Hx by done. destruct (decide (length pre ≤ j < length pre + length mid)%nat) as [Hj|Hj].
    + assert (y ∈ mid) as Hym. { rewrite <-Hperm. apply list_elem_of_lookup. exists (j - length pre)%nat. apply (lookup_inside _ _ post); [lia|done]. }
      left. specialize (Hcross i x Hc Hpend Hi Hx y Hym). by rewrite decide_True in Hcross by lia.
    + rewrite (lookup_outside pre mid) in Hy by done. destruct Hpend as [_ _ Ho].
      destruct (Ho Hc i j x y Hij Hx Hy) as [?|He]; [by left|]. apply Exists_cons in He as [[Hhi _]|He]; [by apply holds_places in Hhi|]. right. by right.
Qed.

Lemma pending_replace pre mid mid' post d segs segs' :
  pending ((Z.of_nat (length pre), Z.of_nat (length mid), d) :: segs) (pre ++ mid ++ post) → mid' ≡ₚ mid →
  Forall (within (Z.of_nat (length pre)) (Z.of_nat (length pre + length mid))) segs' → ForallOrdPairs apart segs' →
  (consistent cmp → ∀ (i j : nat) x y, (i < j)%nat → mid' !! i = Some x → mid' !! j = Some y →
    le x y ∨ Exists (λ s, holds (length pre + i) s ∧ holds (length pre + j) s) segs') →
  pending (segs' ++ segs) (pre ++ mid' ++ post).
Proof.
  intros Hpend Hperm Hin Hap Hmid. pose proof (Permutation_length Hperm) as Hl. split.
  - destruct Hpend as [Hw _ _]. rewrite !length_app in *. rewrite Hl. apply Forall_app_2; [|by apply Forall_inv_tail in Hw].
    eapply Forall_impl; [exact Hin|]. intros [[p n] e]. cbn. lia.
  - destruct Hpend as [_ Ha _]. inversion Ha as [|? ? Ha1 Ha2]; subst. apply pairs_app; [done|done|]. intros s t Hs Ht. rewrite Forall_forall in Hin, Ha1.
    specialize (Hin s Hs). specialize (Ha1 t Ht). apply (within_apart _ _ _ _ d Hin). by replace (Z.of_nat (length pre + length mid) - Z.of_nat (length pre)) with (Z.of_nat (length mid)) by lia.
  - intros Hc. by apply (settled_replace pre mid mid' post d); [| | |apply Hmid].
Qed.

(** ** The loop on a segment *)

Definition deep (s : segment) (k : nat) : Prop := let '(_, _, d) := s in Z.of_nat k ≤ d.
(** Under an entry there are no more entries than its depth. *)
Fixpoint shallow segs : Prop := match segs with [] => True | s :: segs => deep s (length segs) ∧ shallow segs end.
Definition weight segs : Z := foldr (λ '(_, n, _) w, n + 1 + w) 0 segs.

(** The two ends of a partition are what is left of the segment. *)
Lemma parts_settled p L E G n0 d (i j : nat) x y :
  consistent cmp → Forall (λ x, cmp p x > 0) L → Forall (λ x, x = p ∨ cmp p x = 0) E → Forall (λ x, cmp p x < 0) G →
  (i < j)%nat → (L ++ E ++ G) !! i = Some x → (L ++ E ++ G) !! j = Some y →
  le x y ∨ Exists (λ s, holds (n0 + i) s ∧ holds (n0 + j) s) [(Z.of_nat n0, Z.of_nat (length L), d); (Z.of_nat (n0 + length L + length E), Z.of_nat (length G), d)].
Proof.
  rewrite !Forall_forall. intros Hc HL HE HG Hij Hx Hy.
  assert (∀ k z, (L ++ E ++ G) !! k = Some z → (length L ≤ k)%nat → le p z) as Hup.
  { intros k z Hz Hk. rewrite lookup_app_r in Hz by done. apply list_elem_of_lookup_2, elem_of_app in Hz as [Hz|Hz].
    - destruct (HE z Hz) as [->|H0]; [by apply le_refl|]. unfold SortFacts.le. lia.
    - specialize (HG z Hz). unfold SortFacts.le. lia. }
  assert (∀ k z, (L ++ E ++ G) !! k = Some z → (k < length L + length E)%nat → le z p) as Hdown.
  { intros k z Hz Hk. rewrite app_assoc, lookup_app_l in Hz by (rewrite length_app; lia). apply list_elem_of_lookup_2, elem_of_app in Hz as [Hz|Hz].
    - apply le_total; [done|]. by apply HL.
    - destruct (HE z Hz) as [->|H0]; [by apply le_refl|]. destruct Hc as [Hc _]. unfold SortFacts.le. destruct (Z.le_gt_cases (cmp z p) 0) as [|Hgt]; [done|].
      assert (cmp p z < 0) by (apply Hc; lia). lia. }
  pose proof (lookup_lt_Some _ _ _ Hy) as Hlen. rewrite !length_app in Hlen.
  destruct (decide (j < length L)%nat) as [HjL|HjL]; [right; left; cbn; lia|].
  destruct (decide (i < length L + length E)%nat) as [Hi|Hi]; [left; apply (le_trans cmp x p y Hc); [by apply (Hdown i)|apply (Hup j); [done|lia]]|].
  right. right. left. cbn. lia.
Qed.

Lemma pairs_two s t : apart s t → ForallOrdPairs apart [s; t].
Proof. intros H. repeat constructor. done. Qed.

Lemma apart_sym s t : apart s t → apart t s.
Proof. destruct s as [[p n] d], t as [[q m] e]. cbn. lia. Qed.

(** The order of the two parts on the stack does not matter. *)
Lemma pending_swap s t segs l : pending (s :: t :: segs) l → pending (t :: s :: segs) l.
Proof.
  intros [H1 H2 H3]. split.
  - apply Forall_cons in H1 as [? H1]. apply Forall_cons in H1 as [? H1]. by repeat constructor.
  - inversion H2 as [|? ? Ha H2']; subst. inversion H2' as [|? ? Hb H2'']; subst. apply Forall_cons in Ha as [Ha Ha']. constructor; [constructor; [by apply apart_sym|done]|by constructor].
  - intros Hc i j x y Hij Hx Hy. destruct (H3 Hc i j x y Hij Hx Hy) as [?|He]; [by left|right]. rewrite !Exists_cons in *. tauto.
Qed.

Lemma partition_pending p n d segs l :
  pending ((p, n, d) :: segs) l → 6 < n →
  ∃ lt gt q l', partition cmp p n l = (Ok (lt, gt, q), l') ∧ l' ≡ₚ l ∧ 0 ≤ lt < gt ∧ gt ≤ n ∧
    pending ((p, lt, d + 1) :: (q, n - gt, d + 1) :: segs) l'.
Proof.
  intros Hpend Hn. destruct (pending_split _ _ _ _ _ Hpend) as (pre & mid & post & -> & -> & ->).
  destruct (partition_run cmp pre mid post) as (x & L & E & G & Erun & Hperm & HE0 & HL & HE & HG); [lia|].
  pose proof (Permutation_length Hperm) as Hlen. rewrite !length_app in Hlen. assert (length E ≠ 0%nat) as HE1 by (by destruct E).
  eexists _, _, _, _. split_and!; [exact Erun| |lia|lia|lia|].
  - by rewrite Hperm, <-!app_assoc.
  - replace (pre ++ L ++ E ++ G ++ post) with (pre ++ (L ++ E ++ G) ++ post) by (by rewrite <-!app_assoc).
    replace (Z.of_nat (length mid) - Z.of_nat (length L + length E)) with (Z.of_nat (length G)) by lia.
    apply (pending_replace pre mid (L ++ E ++ G) post d segs [(_, _, _); (_, _, _)] Hpend).
    + by rewrite Hperm.
    + repeat constructor; lia.
    + apply pairs_two. cbn. lia.
    + intros Hc i j a b Hij Ha Hb. by apply (parts_settled x L E G).
Qed.

Lemma heap_pending p n d segs l :
  pending ((p, n, d) :: segs) l → ∃ l', heapsortx cmp p n l = (Ok tt, l') ∧ l' ≡ₚ l ∧ pending ((p, 0, d + 1) :: segs) l'.
Proof.
  intros Hpend. destruct (pending_split _ _ _ _ _ Hpend) as (pre & mid & post & -> & -> & ->).
  destruct (heapsortx_run cmp pre mid post) as (l & E & Hp & Ho). exists (pre ++ l ++ post). split_and!; [exact E|by rewrite Hp|].
  apply (pending_replace pre mid l post d segs [(_, _, _)] Hpend Hp).
  - repeat constructor; lia.
  - repeat constructor.
  - intros Hc i j x y Hij Hx Hy. left. by apply (proj2 (in_order_lookup l) (Ho Hc) i j).
Qed.

Lemma insertion_pending p n d segs l :
  pending ((p, n, d) :: segs) l → ∃ l', insertion cmp p n l = (Ok tt, l') ∧ l' ≡ₚ l ∧ pending segs l'.
Proof.
  intros Hpend. destruct (pending_split _ _ _ _ _ Hpend) as (pre & mid & post & -> & -> & ->).
  destruct (insertion_run pre mid post) as (l & E & Hp & Ho). exists (pre ++ l ++ post). split_and!; [exact E|by rewrite Hp|].
  apply (pending_replace pre mid l post d segs [] Hpend Hp); [constructor|constructor|].
  intros Hc i j x y Hij Hx Hy. left. by apply (proj2 (in_order_lookup l) (Ho Hc) i j).
Qed.

Lemma segment_loop_run fuel p n d stack l :
  pending ((p, n, d) :: stack) l → shallow ((p, n, d) :: stack) → n < Z.of_nat fuel →
  ∃ p' n' d' stack' l', loop fuel (segment_turn cmp) ((p, n, d), stack) l = (Ok ((p', n', d'), stack'), l') ∧ l' ≡ₚ l ∧
    pending ((p', n', d') :: stack') l' ∧ shallow stack' ∧ weight ((p', n', d') :: stack') ≤ weight ((p, n, d) :: stack).
Proof.
  revert p n d stack l. induction fuel as [|fuel IH]; intros p n d stack l Hpend Hsh Hf.
  { destruct Hpend as [Hw _ _]. apply Forall_inv in Hw as (_ & Hn & _). lia. }
  destruct Hsh as [Hd Hsh]. cbn [deep] in Hd. cbn [loop segment_turn]. rewrite !Z.gtb_ltb. destruct (Z.ltb_spec 6 n) as [Hn|Hn].
  2:{ rewrite bind_ret. exists p, n, d, stack, l. split_and!; try done. }
  cbv zeta. destruct (Z.ltb_spec 50 (d + 1)) as [Hdeep|Hok].
  { destruct (heap_pending p n d stack l Hpend) as (l' & E & Hp & Hpend'). rewrite bind_bind. erewrite bind_run by exact E. rewrite bind_ret.
    exists p, 0, (d + 1), stack, l'. split_and!; try done. cbn. lia. }
  destruct (partition_pending p n d stack l Hpend Hn) as (lt & gt & q & l' & E & Hp & Hlt & Hgt & Hpend').
  rewrite bind_bind. erewrite bind_run by exact E. cbn beta iota. rewrite Z.gtb_ltb.
  unfold push. rewrite (proj2 (Nat.ltb_lt _ _)) by lia.
  destruct (Z.ltb_spec (n - gt) lt) as [Hc|Hc]; rewrite bind_bind, !bind_ret.
  - destruct (IH q (n - gt) (d + 1) ((p, lt, d + 1) :: stack) l') as (p' & n' & d' & st & l2 & E2 & Hp2 & Hpend2 & Hsh2 & Hw2);
      [by apply pending_swap|cbn [shallow deep length]; split_and!; [lia|lia|done]|lia|].
    exists p', n', d', st, l2. split_and!; [exact E2|by rewrite Hp2|done|done|]. cbn [weight foldr] in *. lia.
  - destruct (IH p lt (d + 1) ((q, n - gt, d + 1) :: stack) l') as (p' & n' & d' & st & l2 & E2 & Hp2 & Hpend2 & Hsh2 & Hw2);
      [done|cbn [shallow deep length]; split_and!; [lia|lia|done]|lia|].
    exists p', n', d', st, l2. split_and!; [exact E2|by rewrite Hp2|done|done|]. cbn [weight foldr] in *. lia.
Qed.

Lemma weight_length segs l n d p : pending ((p, n, d) :: segs) l → n ≤ Z.of_nat (length l).
Proof. intros [Hw _ _]. apply Forall_inv in Hw. cbn in Hw. lia. Qed.

(** The stack empties. *)
Lemma stack_loop_run N fuel stack l :
  pending stack l → shallow stack → Z.of_nat (length l) < Z.of_nat N → weight stack < Z.of_nat fuel →
  ∃ l', loop fuel (stack_turn cmp N) stack l = (Ok tt, l') ∧ l' ≡ₚ l ∧ pending [] l'.
Proof.
  revert stack l. induction fuel as [|fuel IH]; intros stack l Hpend Hsh HN Hw.
  { exfalso. destruct Hpend as [Hf _ _]. assert (0 ≤ weight stack); [|lia]. clear Hsh Hw. induction Hf as [|[[p n] d] st Hs _ IHs]; [done|]. unfold weight in *. cbn in *. lia. }
  cbn [loop]. destruct stack as [|[[p n] d] stack]; cbn [stack_turn]; [rewrite bind_ret; by exists l|].
  pose proof (weight_length _ _ _ _ _ Hpend) as Hn.
  destruct (segment_loop_run N p n d stack l Hpend Hsh) as (p' & n' & d' & st & l1 & E1 & Hp1 & Hpend1 & Hsh1 & Hw1); [lia|].
  rewrite bind_bind. erewrite bind_run by exact E1. cbn beta iota.
  destruct (insertion_pending p' n' d' st l1 Hpend1) as (l2 & E2 & Hp2 & Hpend2). rewrite bind_bind. erewrite bind_run by exact E2. rewrite bind_ret.
  destruct (IH st l2 Hpend2 Hsh1) as (l3 & E3 & Hp3 & Hpend3).
  - by rewrite Hp2, Hp1.
  - destruct Hpend1 as [Hf _ _]. apply Forall_inv in Hf as (_ & Hn' & _). unfold weight in *. cbn [foldr] in *. lia.
  - exists l3. split_and!; [exact E3|by rewrite Hp3, Hp2|done].
Qed.

Lemma rqsort_run l : ∃ l', rqsort cmp (Z.of_nat (length l)) l = (Ok tt, l') ∧ l' ≡ₚ l ∧ (consistent cmp → in_order l').
Proof.
  unfold rqsort. destruct (Z.ltb_spec (Z.of_nat (length l)) 2) as [Hlt|Hge].
  { exists l. split_and!; [done|done|]. intros _. destruct l as [|x [|? ?]]; [constructor|repeat constructor|cbn [length] in Hlt; lia]. }
  cbv zeta. rewrite Nat2Z.id. destruct (stack_loop_run (S (S (length l))) (S (S (length l))) [(0, Z.of_nat (length l), 0)] l) as (l' & E & Hp & Hpend); [|cbn; lia..|].
  - split; [repeat constructor; lia|repeat constructor|]. intros _ i j x y Hij Hx Hy. right. left. apply lookup_lt_Some in Hx, Hy. cbn. lia.
  - exists l'. split_and!; [exact E|done|]. intros Hc. apply in_order_lookup. intros i j x y Hij Hx Hy. destruct Hpend as [_ _ Ho].
    destruct (Ho Hc i j x y Hij Hx Hy) as [?|He]; [done|by apply Exists_nil in He].
Qed.
End stack.
