(* ===== verification/SortProps.v ===== *)
(** * Sorting: properties

    [rqsort] against its contract. *)
From S2P Require Import Prelude Sort SortFacts SortStack.
From Stdlib Require Import Sorted.

#[local] Open Scope Z_scope.

(** By the hundreds: elements that compare equal are not the same. *)
Definition by_hundreds (x y : Z) : Z := x / 100 - y / 100.

(** An order of no kind. *)
Definition unreliable (x y : Z) : Z := 3 * (x mod 2) - 2 * (y mod 3).

Definition scores : list Z := [512; 107; 903; 101; 455; 309; 300; 408; 199; 777; 150; 32].

Lemma by_hundreds_consistent : consistent by_hundreds.
Proof. unfold by_hundreds. split; intros; lia. Qed.

(** C30: [rqsort] comes to an end on any array and with any comparison, inside the array and within the 50 places of its stack, and the array then holds the same elements; when the comparison is the one of a total preorder they are in order, equal ones included, whether the segments were partitioned, left to the insertion sort or to the heapsort. *)
Theorem rqsort_sorts {A} (cmp : A → A → Z) (l : list A) :
  ∃ l', rqsort cmp (Z.of_nat (length l)) l = (Ok tt, l') ∧ l' ≡ₚ l ∧
    (consistent cmp → StronglySorted (λ x y, cmp x y ≤ 0) l').
Proof.
  destruct (rqsort_run cmp l) as (l' & E & Hp & Ho). by exists l'.
Qed.

(** An order with equal elements, and a comparison that answers anything. *)
Lemma rqsort_sorts_witness :
  (∃ l', rqsort by_hundreds 12 scores = (Ok tt, l') ∧ l' ≡ₚ scores ∧ StronglySorted (λ x y, by_hundreds x y ≤ 0) l') ∧
  (∃ l', rqsort unreliable 12 scores = (Ok tt, l') ∧ l' ≡ₚ scores).
Proof.
  split.
  - destruct (rqsort_sorts by_hundreds scores) as (l' & E & Hp & Ho). exists l'. split_and!; [exact E|exact Hp|exact (Ho by_hundreds_consistent)].
  - destruct (rqsort_sorts unreliable scores) as (l' & E & Hp & _). exists l'. split; [exact E|exact Hp].
Defined.
