(* ===== verification/CharRange.v ===== *)
(** * Sets of code points

    The [CharRange] of [src/vendors/qjs/quickjs/libunicode.h] and
    [libunicode.c]: the structure, its growth, its operations and its sorting. *)
From S2P Require Import Prelude CStd Words CUtils BigIntMp Sort.

(** * Sets of code points

    The [CharRange] of [src/vendors/qjs/quickjs/libunicode.h] and
    [libunicode.c]: a set of code points is the increasing array of the points
    where membership changes. The state is one [CharRange], its block of points
    included, with what the allocator will answer; the other arrays an operation
    reads are lists. *)

(** ** The state *)

(** [points] is the block: [size] cells when the structure is consistent. *)
Record CharRange : Type := { len : Z; size : Z; points : list Z }.

(** What the next calls of [realloc_func] answer: no more answers are successes. *)
Record cr_mem : Type := { range : CharRange; grants : list bool }.

(** What a cell of a fresh block holds. *)
Class Realloc := { fresh_point : nat → Z }.

Definition get_len : M cr_mem Z := gets (λ s, len (range s)).
Definition get_size : M cr_mem Z := gets (λ s, size (range s)).
Definition set_range (r : CharRange) : M cr_mem unit := modify (λ s, {| range := r; grants := grants s |}).
Definition set_len (n : Z) : M cr_mem unit :=
  r ← gets range; set_range {| len := n; size := size r; points := points r |}.

Definition points_lens : Lens cr_mem (list Z).
Proof.
  refine {| view := λ s, points (range s);
            put := λ p s, {| range := {| len := len (range s); size := size (range s); points := p |}; grants := grants s |} |};
    [done|by intros [[]]|done].
Defined.
Definition on_points {A} (m : M (list Z) A) : M cr_mem A := zoom (H := points_lens) m.

(** [cr->points[i]] *)
Definition point (i : Z) : M cr_mem Z := on_points (limb i).
Definition set_point (i v : Z) : M cr_mem unit := on_points (wr i v).

Definition next_grant : M cr_mem bool := λ s,
  match grants s with
  | [] => (Ok true, s)
  | g :: gs => (Ok g, {| range := range s; grants := gs |})
  end.

(** The block grown or shrunk to [n] cells. *)
Definition resize `{Realloc} (n : nat) (p : list Z) : list Z :=
  take n p ++ ((λ i, u32 (fresh_point i)) <$> seq (length p) (n - length p)).

(** ** Growth *)

Definition cr_init : M cr_mem unit := set_range {| len := 0; size := 0; points := [] |}.

(** Nothing is left of the block. *)
Definition cr_free : M cr_mem unit := on_points (λ _, (Ok tt, [])).

Definition cr_realloc `{Realloc} (n : Z) : M cr_mem Z :=
  size ← get_size;
  if n >? size then
    t ← int_add (size * 3) 0;
    let new_size := max_int n (Z.quot t 2) in
    granted ← next_grant;
    if (granted : bool) then
      r ← gets range;
      set_range {| len := len r; size := new_size; points := resize (Z.to_nat new_size) (points r) |};;
      ret 0
    else ret (-1)
  else ret 0.

Definition cr_copy `{Realloc} (cr1 : CharRange) : M cr_mem Z :=
  r ← cr_realloc (len cr1);
  if negb (r =? 0) then ret (-1)
  else
    on_points (set_limbs 0 (take (Z.to_nat (len cr1)) (points cr1)));;
    set_len (len cr1);;
    ret 0.

(** [cr->points[cr->len++] = v;] *)
Definition push_point (v : Z) : M cr_mem unit := l ← get_len; set_point l v;; set_len (l + 1).

Definition cr_add_point `{Realloc} (v : Z) : M cr_mem Z :=
  l ← get_len;
  size ← get_size;
  r ← (if l >=? size then cr_realloc (l + 1) else ret 0);
  if negb (r =? 0) then ret (-1) else push_point v;; ret 0.

Definition cr_add_interval `{Realloc} (c1 c2 : Z) : M cr_mem Z :=
  l ← get_len;
  size ← get_size;
  r ← (if l + 2 >? size then cr_realloc (l + 2) else ret 0);
  if negb (r =? 0) then ret (-1) else push_point c1;; push_point c2;; ret 0.

(** ** Normal form *)

(** [while ((j + 3) < len && pt[j + 1] == pt[j + 2]) j += 2;] *)
Definition merge_turn (len j : Z) : M cr_mem (Z + Z) :=
  if j + 3 <? len then
    a ← point (j + 1);
    b ← point (j + 2);
    ret (if a =? b then inl (j + 2) else inr j)
  else ret (inr j).

Definition compress_turn (len : Z) : Z * Z → M cr_mem (Z * Z + Z) := λ '(i, k),
  if i + 1 <? len then
    a ← point i;
    b ← point (i + 1);
    if a =? b then ret (inl (i + 2, k))
    else
      j ← loop (Datatypes.S (Z.to_nat len)) (merge_turn len) i;
      a ← point i;
      set_point k a;;
      b ← point (j + 1);
      set_point (k + 1) b;;
      ret (inl (j + 2, k + 2))
  else ret (inr k).

Definition cr_compress : M cr_mem unit :=
  len ← get_len;
  k ← loop (Datatypes.S (Z.to_nat len)) (compress_turn len) (0, 0);
  set_len k.

(** ** Operations on sets *)

Inductive CharRangeOpEnum : Type := CR_OP_UNION | CR_OP_INTER | CR_OP_XOR.

#[global] Instance CharRangeOpEnum_eq_dec : EqDecision CharRangeOpEnum.
Proof. solve_decision. Defined.

(** One more point from [a] or [b] in increasing order, with the indexes after it. *)
Definition next_point (a : list Z) (a_len : Z) (b : list Z) (b_len : Z) : Z * Z → M cr_mem (option (Z * (Z * Z))) := λ '(a_idx, b_idx),
  let a_add := v ← rd a a_idx; ret (Some (v, (a_idx + 1, b_idx))) in
  let b_add := v ← rd b b_idx; ret (Some (v, (a_idx, b_idx + 1))) in
  if (a_idx <? a_len) && (b_idx <? b_len) then
    x ← rd a a_idx;
    y ← rd b b_idx;
    if x <? y then a_add
    else if x =? y then ret (Some (x, (a_idx + 1, b_idx + 1)))
    else b_add
  else if a_idx <? a_len then a_add
  else if b_idx <? b_len then b_add
  else ret None.

Definition is_in (op : CharRangeOpEnum) (a_idx b_idx : Z) : Z :=
  match op with
  | CR_OP_UNION => Z.lor (Z.land a_idx 1) (Z.land b_idx 1)
  | CR_OP_INTER => Z.land (Z.land a_idx 1) (Z.land b_idx 1)
  | CR_OP_XOR => Z.lxor (Z.land a_idx 1) (Z.land b_idx 1)
  end.

Definition op_turn `{Realloc} (a : list Z) (a_len : Z) (b : list Z) (b_len : Z) (op : CharRangeOpEnum) (idx : Z * Z) : M cr_mem (Z * Z + Z) :=
  o ← next_point a a_len b b_len idx;
  match o with
  | None => ret (inr 0)
  | Some (v, (a_idx, b_idx)) =>
      l ← get_len;
      if negb (is_in op a_idx b_idx =? Z.land l 1) then
        r ← cr_add_point v;
        ret (if negb (r =? 0) then inr (-1) else inl (a_idx, b_idx))
      else ret (inl (a_idx, b_idx))
  end.

Definition cr_op `{Realloc} (a : list Z) (a_len : Z) (b : list Z) (b_len : Z) (op : CharRangeOpEnum) : M cr_mem Z :=
  r ← loop (Datatypes.S (Z.to_nat (a_len + b_len))) (op_turn a a_len b b_len op) (0, 0);
  if r =? 0 then cr_compress;; ret 0 else ret r.

(** The old block, which nothing points to any more, is freed at the end. *)
Definition cr_union1 `{Realloc} (b : list Z) (b_len : Z) : M cr_mem Z :=
  a ← gets range;
  cr_init;;
  cr_op (points a) (len a) b b_len CR_OP_UNION.

Definition cr_union_interval `{Realloc} (c1 c2 : Z) : M cr_mem Z := cr_union1 [c1; u32 (c2 + 1)] 2.

Definition cr_invert `{Realloc} : M cr_mem Z :=
  l ← get_len;
  r ← cr_realloc (l + 2);
  if negb (r =? 0) then ret (-1)
  else
    p ← on_points (limbs 0 l);
    on_points (set_limbs 1 p);;
    set_point 0 0;;
    set_point (l + 1) UINT32_MAX;;
    set_len (l + 2);;
    cr_compress;;
    ret 0.

(** ** Local structures *)

(** A local [CharRange]: the operation runs on it, and what it left is given
    back with its result. *)
Definition on_range {A} (r : CharRange) (m : M cr_mem A) : M cr_mem (A * CharRange) := λ s,
  match m {| range := r; grants := grants s |} with
  | (Ok a, s') => (Ok (a, range s'), {| range := range s; grants := grants s' |})
  | (Err e, s') => (Err e, {| range := range s; grants := grants s' |})
  end.
Definition no_range : CharRange := {| len := 0; size := 0; points := [] |}.

(** ** Examples *)

#[local] Instance zeros : Realloc := {| fresh_point := λ _, 0 |}.
Definition empty_range : cr_mem := {| range := {| len := 0; size := 0; points := [] |}; grants := [] |}.
Definition range_of (m : M cr_mem Z) (s : cr_mem) : option (Z * list Z) :=
  match m s with
  | (Ok r, s') => Some (r, take (Z.to_nat (len (range s'))) (points (range s')))
  | _ => None
  end.

Example cr_op_union : range_of (cr_op [1; 5; 9; 12] 4 [3; 9; 20; 21] 4 CR_OP_UNION) empty_range = Some (0, [1; 12; 20; 21]).
Proof. vm_compute. reflexivity. Qed.
Example cr_op_inter : range_of (cr_op [1; 5; 9; 12] 4 [3; 10; 12; 21] 4 CR_OP_INTER) empty_range = Some (0, [3; 5; 9; 10]).
Proof. vm_compute. reflexivity. Qed.
Example cr_invert_middle : range_of (cr_union_interval 3 7;; cr_invert) empty_range = Some (0, [0; 3; 8; UINT32_MAX]).
Proof. vm_compute. reflexivity. Qed.
Example cr_no_memory : range_of (cr_union_interval 3 7) {| range := range empty_range; grants := [true; false] |} = Some (-1, [3]).
Proof. vm_compute. reflexivity. Qed.

(** * Sets of code points: sorting

    [cr_sort_and_remove_overlap] of [src/vendors/qjs/quickjs/libunicode.c]: the
    intervals of the array in any order, sorted by [rqsort] as pairs of points,
    then joined where they meet. *)

(** [(v1 > v2) - (v1 < v2)], on the first point of a pair. *)
Definition point_cmp (p1 p2 : Z * Z) : Z := Z.b2z (p1.1 >? p2.1) - Z.b2z (p1.1 <? p2.1).

(** The array as elements of two points. *)
Fixpoint pairs_of (l : list Z) : list (Z * Z) :=
  match l with a :: b :: l => (a, b) :: pairs_of l | _ => [] end.
Fixpoint points_of (ps : list (Z * Z)) : list Z :=
  match ps with [] => [] | (a, b) :: ps => a :: b :: points_of ps end.

(** [rqsort(cr->points, n, sizeof(cr->points[0]) * 2, point_cmp, NULL)] *)
Definition sort_points (n : Z) : M (list Z) unit := λ p,
  let k := (2 * Z.to_nat n)%nat in
  let '(r, ps) := rqsort point_cmp n (pairs_of (take k p)) in
  (r, points_of ps ++ drop k p).

(** [while (i < cr->len)], with [i] and [end] *)
Definition absorb_turn : Z * Z → M cr_mem (Z * Z + Z * Z) := λ '(i, e),
  l ← get_len;
  if i <? l then
    start1 ← point i;
    end1 ← point (i + 1);
    if start1 >? e then ret (inr (i, e))
    else if end1 <=? e then ret (inl (i + 2, e))
    else ret (inl (i + 2, end1))
  else ret (inr (i, e)).

(** [for(i = 0; i < cr->len; )], with [i] and [j] *)
Definition overlap_turn (fuel : nat) : Z * Z → M cr_mem (Z * Z + Z) := λ '(i, j),
  l ← get_len;
  if i <? l then
    start ← point i;
    e ← point (i + 1);
    '(i, e) ← loop fuel absorb_turn (i + 2, e);
    set_point j start;;
    set_point (j + 1) e;;
    ret (inl (i, j + 2))
  else ret (inr j).

Definition cr_sort_and_remove_overlap : M cr_mem unit :=
  l ← get_len;
  on_points (sort_points (l / 2));;
  let fuel := Datatypes.S (Z.to_nat l) in
  j ← loop fuel (overlap_turn fuel) (0, 0);
  set_len j.

Example overlap_removed :
  match cr_sort_and_remove_overlap {| range := {| len := 10; size := 11; points := [40; 50; 1; 3; 2; 9; 60; 61; 9; 12; 77] |}; grants := [] |} with
  | (Ok _, s) => take (Z.to_nat (len (range s))) (points (range s)) = [1; 12; 40; 50; 60; 61]
  | _ => False
  end.
Proof. vm_compute. reflexivity. Qed.
