(* ===== verification/CharRangeFacts.v ===== *)
(** * Sets of code points: lemmas

    Membership in the set of an array of points, the run of each operation, and
    the loops of [cr_compress] and [cr_op]. *)
From S2P Require Import Prelude CStd Words CUtils BigIntMp BigIntMpFacts CharRange.
From Stdlib Require Import Sorted.

(** ** Membership *)

(** A point is in the set when an odd number of the points of the array are not
    above it. *)
Fixpoint member (l : list Z) (x : Z) : bool :=
  match l with [] => false | p :: l => xorb (p <=? x) (member l x) end.

Definition increasing : list Z → Prop := StronglySorted Z.le.
Definition strictly_increasing : list Z → Prop := StronglySorted Z.lt.

Lemma member_app l1 l2 x : member (l1 ++ l2) x = xorb (member l1 x) (member l2 x).
Proof. induction l1 as [|p l1 IH]; cbn; [by destruct (member l2 x)|]. by rewrite IH, xorb_assoc_reverse. Qed.

Lemma member_all l x : Forall (λ p, p ≤ x) l → member l x = Nat.odd (length l).
Proof.
  induction 1 as [|p l Hp Hl IH]; [done|]. cbn [member length]. rewrite IH, (proj2 (Z.leb_le p x)) by done.
  rewrite Nat.odd_succ, <-Nat.negb_odd. by destruct (Nat.odd (length l)).
Qed.

Lemma member_none l x : Forall (λ p, x < p) l → member l x = false.
Proof. induction 1 as [|p l Hp Hl IH]; [done|]. cbn. rewrite IH. by rewrite (proj2 (Z.leb_gt p x)). Qed.

Lemma sorted_snoc (R : Z → Z → Prop) l v : StronglySorted R l → Forall (λ p, R p v) l → StronglySorted R (l ++ [v]).
Proof.
  intros Hl Hv. induction Hl as [|p l Hl IH Hp]; [by repeat constructor|]. apply Forall_cons in Hv as [Hpv Hv]. cbn. constructor; [by apply IH|].
  apply Forall_app_2; [done|by constructor].
Qed.

Lemma increasing_mono l : strictly_increasing l → increasing l.
Proof. induction 1 as [|p l Hl IH Hp]; constructor; [done|]. eapply Forall_impl; [exact Hp|]. intros; cbn in *; lia. Qed.

(** ** The state *)

(** The points are [l]; [post] are the cells left. *)
Definition st (l post : list Z) (gs : list bool) : cr_mem :=
  {| range := {| len := Z.of_nat (length l); size := Z.of_nat (length (l ++ post)); points := l ++ post |}; grants := gs |}.

Lemma on_points_run {A} (m : M (list Z) A) a n sz p p' gs :
  m p = (Ok a, p') →
  on_points m {| range := {| len := n; size := sz; points := p |}; grants := gs |}
  = (Ok a, {| range := {| len := n; size := sz; points := p' |}; grants := gs |}).
Proof. intros E. exact (zoom_run (H := points_lens) m a {| range := {| len := n; size := sz; points := p |}; grants := gs |} p' E). Qed.

Lemma point_run i v n sz p gs :
  p !! Z.to_nat i = Some v → 0 ≤ i →
  point i {| range := {| len := n; size := sz; points := p |}; grants := gs |}
  = (Ok v, {| range := {| len := n; size := sz; points := p |}; grants := gs |}).
Proof. intros Hv Hi. apply on_points_run. unfold limb. erewrite bind_run by reflexivity. by apply rd_run. Qed.

Lemma set_point_run i v n sz p gs :
  0 ≤ i < Z.of_nat (length p) →
  set_point i v {| range := {| len := n; size := sz; points := p |}; grants := gs |}
  = (Ok tt, {| range := {| len := n; size := sz; points := <[Z.to_nat i := v]> p |}; grants := gs |}).
Proof. intros Hi. by apply on_points_run, wr_run. Qed.

(** [m] succeeds, or an allocation was refused. *)
Definition grows (m : M cr_mem Z) (s : cr_mem) (Q : cr_mem → Prop) : Prop :=
  ∃ r s', m s = (Ok r, s') ∧ grants s' `suffix_of` grants s ∧ (r = 0 ∧ Q s' ∨ r = -1 ∧ false ∈ grants s).

Lemma grows_mono m s (Q Q' : cr_mem → Prop) : grows m s Q → (∀ s', Q s' → Q' s') → grows m s Q'.
Proof. intros (r & s' & E & Hs & H) HQ. exists r, s'. split_and!; [done..|]. destruct H as [[-> H]|H]; [left; split; [done|by apply HQ]|by right]. Qed.

(** [if (m) return -1; k] *)
Lemma grows_seq m s Q Q' (k : Z → M cr_mem Z) :
  grows m s Q → (∀ s', Q s' → grows (k 0) s' Q') → (∀ s', k (-1) s' = (Ok (-1), s')) → grows (r ← m; k r) s Q'.
Proof.
  intros (r & s' & E & Hs & H) Hk Hfail. destruct H as [[-> H]|[-> H]].
  - destruct (Hk s' H) as (r2 & s2 & E2 & Hs2 & H2). exists r2, s2. erewrite bind_run by exact E. split_and!; [done|by trans (grants s')|].
    destruct H2 as [H2|[-> H2]]; [by left|right]. split; [done|]. destruct Hs as [l ->]. apply elem_of_app. by right.
  - exists (-1), s'. erewrite bind_run by exact E. split_and!; [apply Hfail|done|by right].
Qed.

Lemma grows_run m s r s' Q : m s = (Ok r, s') → r = 0 → grants s' = grants s → Q s' → grows m s Q.
Proof. intros E -> Hg HQ. exists 0, s'. rewrite Hg. split_and!; [done|done|by left]. Qed.

(** The sizes at which the growth does not overflow. *)
Definition moderate (n : nat) : Prop := Z.of_nat n ≤ 2 ^ 28.

Lemma resize_app `{Realloc} n p : (length p ≤ n)%nat → ∃ post, resize n p = p ++ post ∧ length (resize n p) = n.
Proof.
  intros Hn. unfold resize. rewrite take_ge by done. eexists. split; [reflexivity|]. rewrite length_app, length_fmap, length_seq. lia.
Qed.

(** The block of at least [n] cells, when it has to grow. *)
Lemma cr_realloc_step `{Realloc} l post gs n :
  moderate n → Z.of_nat (length (l ++ post)) < Z.of_nat n →
  ∃ post', (n ≤ length (l ++ post'))%nat ∧
    cr_realloc (Z.of_nat n) (st l post gs) = if default true (head gs) then (Ok 0, st l post' (tail gs)) else (Ok (-1), st l post (tail gs)).
Proof.
  intros Hmod Hlt. unfold moderate in Hmod. set (new := Z.max (Z.of_nat n) (Z.of_nat (length (l ++ post)) * 3 ÷ 2)).
  assert (Z.of_nat n ≤ new) as Hnew by (unfold new; lia).
  destruct (resize_app (Z.to_nat new) (l ++ post)) as (p & Ep & El); [lia|].
  exists (post ++ p). split; [rewrite app_assoc, <-Ep; lia|].
  unfold cr_realloc. erewrite bind_run by reflexivity. cbn [st range size]. rewrite Z.gtb_ltb.
  destruct (Z.ltb_spec (Z.of_nat (length (l ++ post))) (Z.of_nat n)) as [_|Hge]; [|lia].
  erewrite bind_run by (apply int_add_ok; unfold INT_MIN, INT_MAX; lia). rewrite Z.add_0_r. cbv zeta.
  assert (max_int (Z.of_nat n) (Z.of_nat (length (l ++ post)) * 3 ÷ 2) = new) as ->
    by (unfold max_int, new; rewrite Z.gtb_ltb; destruct (Z.ltb_spec (Z.of_nat (length (l ++ post)) * 3 ÷ 2) (Z.of_nat n)); lia).
  assert ({| range := {| len := Z.of_nat (length l); size := new; points := resize (Z.to_nat new) (l ++ post) |}; grants := tail gs |}
    = st l (post ++ p) (tail gs)) as <- by (unfold st; rewrite app_assoc, <-Ep, El; do 2 f_equal; lia).
  by destruct gs as [|[] gs].
Qed.

Lemma cr_realloc_room `{Realloc} l post gs n :
  moderate n → grows (cr_realloc (Z.of_nat n)) (st l post gs) (λ s', ∃ post' gs', s' = st l post' gs' ∧ (n ≤ length (l ++ post'))%nat).
Proof.
  intros Hmod. destruct (Z.ltb_spec (Z.of_nat (length (l ++ post))) (Z.of_nat n)) as [Hlt|Hge].
  - destruct (cr_realloc_step l post gs n Hmod Hlt) as (post' & Hn & Hrun). destruct (default true (head gs)) eqn:Eg.
    + exists 0, (st l post' (tail gs)). split_and!; [exact Hrun|destruct gs as [|g gs]; [done|by exists [g]]|left; split; [done|by exists post', (tail gs)]].
    + destruct gs as [|g gs]; [done|]. cbn in Eg. subst g. exists (-1), (st l post gs). split_and!; [exact Hrun|by exists [false]|right; split; [done|left]].
  - apply (grows_run _ _ 0 (st l post gs)); [|done|done|exists post, gs; split; [done|lia]].
    unfold cr_realloc. erewrite bind_run by reflexivity. cbn [st range size]. rewrite Z.gtb_ltb.
    by destruct (Z.ltb_spec (Z.of_nat (length (l ++ post))) (Z.of_nat n)); [lia|].
Qed.

Lemma cr_realloc_grows `{Realloc} l post gs n :
  moderate (length l + n) →
  grows (cr_realloc (Z.of_nat (length l + n))) (st l post gs) (λ s', ∃ post' gs', s' = st l post' gs' ∧ (n ≤ length post')%nat).
Proof.
  intros Hmod. eapply grows_mono; [by apply cr_realloc_room|]. intros s' (post' & gs' & -> & Hn). exists post', gs'. rewrite length_app in Hn. split; [done|lia].
Qed.

(** ** Adding points *)

Lemma push_point_run l x post gs v : push_point v (st l (x :: post) gs) = (Ok tt, st (l ++ [v]) post gs).
Proof.
  unfold push_point. erewrite bind_run by reflexivity. cbn [st range len].
  erewrite bind_run by (apply set_point_run; rewrite length_app; cbn; lia).
  rewrite Nat2Z.id, insert_app_r_alt, Nat.sub_diag by lia. cbn [insert list_insert]. unfold set_len. erewrite bind_run by reflexivity.
  unfold set_range, modify. cbn [range grants size points]. unfold st. rewrite <-app_assoc. cbn [app]. do 4 f_equal; rewrite ?length_app; cbn; lia.
Qed.

Lemma grows_gets {A} (f : cr_mem → A) (k : A → M cr_mem Z) s Q : grows (k (f s)) s Q → grows (a ← gets f; k a) s Q.
Proof. done. Qed.

(** The room for [n] more points. *)
Lemma room_grows `{Realloc} l post gs n (b : bool) :
  moderate (length l + n) → (b = false → (n ≤ length post)%nat) →
  grows (if b then cr_realloc (Z.of_nat (length l) + Z.of_nat n) else ret 0) (st l post gs) (λ s', ∃ post' gs', s' = st l post' gs' ∧ (n ≤ length post')%nat).
Proof.
  intros Hmod Hb. destruct b.
  - rewrite <-Nat2Z.inj_add. by apply cr_realloc_grows.
  - apply (grows_run _ _ 0 (st l post gs)); [done..|]. exists post, gs. split; [done|by apply Hb].
Qed.

Lemma cr_add_point_grows `{Realloc} l post gs v :
  moderate (length l + 1) → grows (cr_add_point v) (st l post gs) (λ s', ∃ post' gs', s' = st (l ++ [v]) post' gs').
Proof.
  intros Hmod. apply grows_gets, grows_gets. cbn [st range len size].
  eapply (grows_seq _ _ _ _ (λ r, if negb (r =? 0) then ret (-1) else push_point v;; ret 0));
    [apply (room_grows l post gs 1 _ Hmod); rewrite length_app; intros Hb; rewrite Z.geb_leb in Hb; apply Z.leb_gt in Hb; lia| |done].
  intros s' (post' & gs' & -> & Hl). destruct post' as [|x post']; [cbn in Hl; lia|]. cbn [Z.eqb negb].
  eapply grows_run; [erewrite bind_run by apply push_point_run; reflexivity|done|done|by exists post', gs'].
Qed.

Lemma cr_add_interval_grows `{Realloc} l post gs c1 c2 :
  moderate (length l + 2) → grows (cr_add_interval c1 c2) (st l post gs) (λ s', ∃ post' gs', s' = st (l ++ [c1; c2]) post' gs').
Proof.
  intros Hmod. apply grows_gets, grows_gets. cbn [st range len size].
  eapply (grows_seq _ _ _ _ (λ r, if negb (r =? 0) then ret (-1) else push_point c1;; push_point c2;; ret 0));
    [apply (room_grows l post gs 2 _ Hmod); rewrite length_app; intros Hb; rewrite Z.gtb_ltb in Hb; apply Z.ltb_ge in Hb; lia| |done].
  intros s' (post' & gs' & -> & Hl). destruct post' as [|x [|y post']]; [cbn in Hl; lia..|]. cbn [Z.eqb negb].
  eapply grows_run; [erewrite bind_run by apply push_point_run; erewrite bind_run by apply push_point_run; reflexivity|done|done|].
  exists post', gs'. by rewrite <-app_assoc.
Qed.

(** ** Compression *)

Section compress.
Context (gs : list bool) (sz : Z).
Let state (n : nat) (p : list Z) : cr_mem := {| range := {| len := Z.of_nat n; size := sz; points := p |}; grants := gs |}.

(** The run of intervals that follow one another. *)
Lemma merge_loop_run fuel n pre c q L post :
  n = (length pre + 2 + length L)%nat → Nat.even (length L) = true → (length L < fuel)%nat →
  ∃ mids q' L', q :: L = mids ++ q' :: L' ∧ Nat.even (length mids) = true ∧ (∀ x, member mids x = false) ∧
    (match L' with [] => True | y :: _ => q' ≠ y end) ∧
    loop fuel (merge_turn (Z.of_nat n)) (Z.of_nat (length pre)) (state n (pre ++ c :: q :: L ++ post))
    = (Ok (Z.of_nat (length pre + length mids)), state n (pre ++ c :: q :: L ++ post)).
Proof.
  revert pre c q L. induction fuel as [|fuel IH]; intros pre c q L Hn Hev Hf; [lia|]. cbn [loop]. unfold merge_turn at 1.
  destruct L as [|q1 [|q2 L]]; [|done|].
  - exists [], q, []. split_and!; [done..|]. destruct (Z.ltb_spec (Z.of_nat (length pre) + 3) (Z.of_nat n)); [cbn in Hn; lia|].
    rewrite bind_ret. unfold ret. do 2 f_equal. cbn. lia.
  - cbn [length] in Hn, Hf. cbn [length Nat.even] in Hev.
    assert ((pre ++ c :: q :: (q1 :: q2 :: L) ++ post) !! Z.to_nat (Z.of_nat (length pre) + 1) = Some q) as Hq.
    { rewrite lookup_app_r by lia. by replace (Z.to_nat _ - length pre)%nat with 1%nat by lia. }
    assert ((pre ++ c :: q :: (q1 :: q2 :: L) ++ post) !! Z.to_nat (Z.of_nat (length pre) + 2) = Some q1) as Hq1.
    { rewrite lookup_app_r by lia. by replace (Z.to_nat _ - length pre)%nat with 2%nat by lia. }
    destruct (Z.ltb_spec (Z.of_nat (length pre) + 3) (Z.of_nat n)); [|lia]. rewrite bind_bind.
    erewrite bind_run by (apply point_run; [exact Hq|lia]). rewrite bind_bind. erewrite bind_run by (apply point_run; [exact Hq1|lia]).
    rewrite bind_ret. destruct (Z.eqb_spec q q1) as [->|Hne].
    + destruct (IH (pre ++ [c; q1]) q1 q2 L) as (mids & q' & L' & Emid & Hem & Hmem & Hstop & Erun); [rewrite length_app; cbn; lia|done|lia|].
      exists (q1 :: q1 :: mids), q', L'. split_and!; [by rewrite Emid|done| |done|].
      { intros x. cbn. rewrite Hmem. by destruct (q1 <=? x). }
      rewrite <-app_assoc in Erun. cbn [app] in Erun |- *. rewrite length_app in Erun. cbn [length] in Erun |- *.
      replace (Z.of_nat (length pre) + 2) with (Z.of_nat (length pre + 2)) by lia.
      etransitivity; [exact Erun|]. do 3 f_equal. lia.
    + exists [], q, (q1 :: q2 :: L). split_and!; [done..|]. unfold ret. do 2 f_equal. cbn. lia.
Qed.

(** The two points of an interval, written where the ones before it end. *)
Lemma two_points_run (R Y : list Z) p q : (2 ≤ length Y)%nat →
  <[(length R + 1)%nat := q]> (<[length R := p]> (R ++ Y)) = R ++ p :: q :: drop 2 Y.
Proof.
  intros HY. destruct Y as [|a [|b Y]]; [cbn in HY; lia..|].
  rewrite (insert_app_r_alt R), Nat.sub_diag by lia. rewrite insert_app_r_alt by lia.
  by replace (length R + 1 - length R)%nat with 1%nat by lia.
Qed.

(** [R] is done, [H] is a hole, [L] is left. *)
Lemma compress_loop_run fuel n R H L post :
  n = (length R + length H + length L)%nat → Nat.even (length L) = true → Nat.even (length R) = true → (length L < fuel)%nat →
  increasing L → strictly_increasing R → (∀ p q, p ∈ R → q ∈ L → p < q) →
  ∃ R' post', loop fuel (compress_turn (Z.of_nat n)) (Z.of_nat (length R + length H), Z.of_nat (length R)) (state n (R ++ H ++ L ++ post))
      = (Ok (Z.of_nat (length R')), state n (R' ++ post')) ∧
    length (R' ++ post') = length (R ++ H ++ L ++ post) ∧ (length R' ≤ length R + length L)%nat ∧ strictly_increasing R' ∧ Nat.even (length R') = true ∧
    (∀ x, member R' x = xorb (member R x) (member L x)) ∧ (∀ p, p ∈ R' → p ∈ R ∨ p ∈ L).
Proof.
  revert R H L. induction fuel as [|fuel IH]; intros R H L Hn HevL HevR Hf HL HR HRL; [lia|]. cbn [loop]. unfold compress_turn at 1.
  destruct L as [|p [|q L]]; [|done|].
  - cbn [length] in Hn. destruct (Z.ltb_spec (Z.of_nat (length R + length H) + 1) (Z.of_nat n)); [lia|]. rewrite bind_ret.
    exists R, (H ++ post). split_and!; [done|done|lia|done|done| |by left]. intros x. cbn. by destruct (member R x).
  - cbn [length] in Hn, Hf. cbn [length Nat.even] in HevL. set (i := (length R + length H)%nat) in *.
    set (pts := R ++ H ++ (p :: q :: L) ++ post).
    assert (pts = (R ++ H) ++ p :: q :: L ++ post) as Epts by (unfold pts; by rewrite <-app_assoc).
    assert (length (R ++ H) = i) as Hi by (unfold i; by rewrite length_app).
    apply StronglySorted_inv in HL as [HL Hp]. pose proof HL as HqL. apply StronglySorted_inv in HL as [HL Hq].
    apply Forall_cons in Hp as [Hpq Hp].
    assert (pts !! Z.to_nat (Z.of_nat i) = Some p) as Hlp.
    { rewrite Nat2Z.id, Epts, lookup_app_r, Hi, Nat.sub_diag by lia. done. }
    assert (pts !! Z.to_nat (Z.of_nat i + 1) = Some q) as Hlq.
    { rewrite Epts, lookup_app_r, Hi by lia. by replace (Z.to_nat (Z.of_nat i + 1) - i)%nat with 1%nat by lia. }
    destruct (Z.ltb_spec (Z.of_nat i + 1) (Z.of_nat n)); [|lia]. rewrite bind_bind.
    erewrite bind_run by (apply point_run; [exact Hlp|lia]). rewrite bind_bind. erewrite bind_run by (apply point_run; [exact Hlq|lia]).
    destruct (Z.eqb_spec p q) as [->|Hne].
    + rewrite bind_ret. destruct (IH R (H ++ [q; q]) L) as (R' & post' & Erun & Hlen & Hle & HsR & HeR & Hmem & Hin);
        [rewrite length_app; cbn; lia|done|done|lia|done|done|intros ? ? ? ?; apply HRL; [done|by do 2 right]|].
      rewrite <-app_assoc in Erun, Hlen. cbn [app] in Erun, Hlen. rewrite length_app in Erun. cbn [length] in Erun.
      exists R', post'. split_and!; [|exact Hlen|cbn [length]; lia|done|done| |].
      * replace (Z.of_nat i + 2) with (Z.of_nat (length R + (length H + 2))) by (unfold i; lia). exact Erun.
      * intros x. rewrite Hmem. cbn. by destruct (q <=? x), (member L x).
      * intros r Hr. destruct (Hin r Hr); [by left|right; by do 2 right].
    + destruct (merge_loop_run (Datatypes.S (Z.to_nat (Z.of_nat n))) n (R ++ H) p q L post)
        as (mids & q' & L' & Emid & Hem & Hmm & Hstop & Erun); [rewrite Hi; lia|done|lia|].
      rewrite Hi, <-Epts in Erun. rewrite bind_bind. erewrite bind_run by exact Erun. rewrite bind_bind.
      erewrite bind_run by (apply point_run; [exact Hlp|lia]). rewrite bind_bind.
      assert (length pts = i + 2 + length L + length post)%nat as Hlpts by (rewrite Epts, length_app, Hi; cbn; rewrite length_app; lia).
      erewrite bind_run by (apply set_point_run; lia). rewrite bind_bind. set (m := length mids) in *.
      assert (length L = m + length L')%nat as HlL by (apply (f_equal length) in Emid; rewrite length_app in Emid; cbn in Emid; unfold m; lia).
      assert (pts !! Z.to_nat (Z.of_nat (i + m) + 1) = Some q') as Hlq'.
      { rewrite Epts, (app_comm_cons L), Emid. replace (Z.to_nat _) with (i + 1 + m)%nat by lia. rewrite lookup_app_r, Hi by lia.
        replace (i + 1 + m - i)%nat with (S m) by lia. cbn. rewrite <-app_assoc. by apply list_lookup_middle. }
      rewrite Nat2Z.id.
      erewrite bind_run by (apply point_run; [rewrite list_lookup_insert_ne by lia; exact Hlq'|lia]). rewrite bind_bind.
      erewrite bind_run by (apply set_point_run; rewrite length_insert; lia). rewrite bind_ret.
      set (Y := H ++ (p :: mids ++ [q'])).
      assert (pts = R ++ Y ++ L' ++ post) as Epts2.
      { unfold pts, Y. rewrite <-!app_assoc. do 2 f_equal. cbn [app]. f_equal. rewrite (app_comm_cons L), Emid, <-!app_assoc. done. }
      assert (length Y = length H + m + 2)%nat as HlY by (unfold Y; rewrite length_app; cbn; rewrite length_app; cbn; unfold m; lia).
      replace (Z.to_nat (Z.of_nat (length R) + 1)) with (length R + 1)%nat by lia. rewrite Epts2.
      rewrite two_points_run by (rewrite length_app; lia). rewrite drop_app_le by lia.
      assert (q' ∈ q :: L) as Hq'in by (rewrite Emid; apply elem_of_app; right; left).
      assert (p < q') as Hpq' by (apply elem_of_cons in Hq'in as [->|Hin]; [lia|]; rewrite Forall_forall in Hq; specialize (Hq _ Hin); lia).
      assert (increasing (q' :: L') ∧ Forall (λ y, q' < y) L') as [HqL' Hlt'].
      { rewrite Emid in HqL. assert (StronglySorted Z.le (q' :: L')) as Hs by (clear -HqL; induction mids as [|a l IH]; [done|]; inversion HqL; auto).
        split; [done|]. apply StronglySorted_inv in Hs as [Hs Hall]. destruct L' as [|y L']; [done|]. apply StronglySorted_inv in Hs as [Hs Hy].
        apply Forall_cons in Hall as [Hqy _]. constructor; [lia|]. eapply Forall_impl; [exact Hy|]. intros z Hz. cbn in Hz |- *. lia. }
      destruct (IH (R ++ [p; q']) (drop 2 Y) L') as (R' & post' & Erun2 & Hlen & Hle & HsR & HeR & Hmem & Hin).
      * rewrite length_app, length_drop. cbn. lia.
      * rewrite HlL, Nat.even_add, Hem in HevL. by destruct (Nat.even (length L')).
      * rewrite length_app, Nat.even_add, HevR. done.
      * lia.
      * by apply StronglySorted_inv in HqL' as [? _].
      * change [p; q'] with ([p] ++ [q']). rewrite app_assoc. apply sorted_snoc; [apply sorted_snoc; [done|]|apply Forall_app_2; [|by constructor]];
          apply Forall_forall; intros r Hr; apply HRL; [done|left|done|by right].
      * intros a b [Ha|Ha]%elem_of_app Hb.
        { apply HRL; [done|]. right. rewrite Emid. apply elem_of_app. right. by right. }
        rewrite Forall_forall in Hlt'. specialize (Hlt' _ Hb). rewrite !elem_of_cons, elem_of_nil in Ha. naive_solver lia.
      * exists R', post'. split_and!; [| |rewrite length_app in Hle; cbn [length] in *; lia|done|done| |].
        { rewrite length_app, length_drop in Erun2. cbn [length] in Erun2. rewrite <-app_assoc in Erun2. cbn [app] in Erun2.
          replace (Z.of_nat (i + m) + 2) with (Z.of_nat (length R + 2 + (length Y - 2))) by (unfold i; lia).
          replace (Z.of_nat (length R) + 2) with (Z.of_nat (length R + 2)) by lia. exact Erun2. }
        { rewrite Hlen, !length_app, length_drop. cbn [length]. rewrite HlY. lia. }
        { intros x. rewrite Hmem, member_app. change (member (p :: q :: L) x) with (xorb (p <=? x) (member (q :: L) x)).
          rewrite Emid, member_app, Hmm. cbn. by destruct (member R x), (p <=? x), (q' <=? x), (member L' x). }
        { intros r Hr. destruct (Hin r Hr) as [[?|Hr2]%elem_of_app|Hr2]; [by left|right|right].
          - apply elem_of_cons in Hr2 as [->|Hr2]; [left|]. apply list_elem_of_singleton in Hr2 as ->. by right.
          - right. rewrite Emid. apply elem_of_app. right. by right. }
Qed.
End compress.

(** A set of points in normal form: what the comments of the structure say. *)
Definition normal_points (l : list Z) : Prop := strictly_increasing l ∧ Nat.even (length l) = true ∧ Forall (fits 32) l.

Lemma cr_compress_run l post gs :
  increasing l → Nat.even (length l) = true → Forall (fits 32) l →
  ∃ l' post', cr_compress (st l post gs) = (Ok tt, st l' post' gs) ∧ normal_points l' ∧ (length l' + length post' = length l + length post)%nat ∧
    (length l' ≤ length l)%nat ∧ ∀ x, member l' x = member l x.
Proof.
  intros Hl Hev Hf. unfold cr_compress. erewrite bind_run by reflexivity. cbn [st range len].
  destruct (compress_loop_run gs (Z.of_nat (length (l ++ post))) (Datatypes.S (Z.to_nat (Z.of_nat (length l)))) (length l) [] [] l post)
    as (l' & post' & E & Hlen & Hle & Hs & He & Hmem & Hin); [done|done|done|lia|done|constructor|by intros ? ? ?%elem_of_nil|].
  erewrite bind_run by exact E. exists l', post'. cbn [app] in Hlen. split_and!; [|split_and!; [done|done|]|rewrite !length_app in Hlen; lia|done|].
  - unfold set_len. erewrite bind_run by reflexivity. unfold set_range, modify, st. cbn [range grants size points]. by rewrite Hlen.
  - apply Forall_forall. intros p Hp. destruct (Hin p Hp) as [?%elem_of_nil|Hp2]; [done|]. by eapply Forall_forall in Hf.
  - intros x. rewrite Hmem. cbn. by destruct (member l x).
Qed.

(** ** The operations *)

Definition apply_op (op : CharRangeOpEnum) (a b : bool) : bool :=
  match op with CR_OP_UNION => a || b | CR_OP_INTER => a && b | CR_OP_XOR => xorb a b end.

Lemma land_1_odd n : Z.land (Z.of_nat n) 1 = Z.b2z (Nat.odd n).
Proof.
  change 1 with (Z.ones 1). rewrite Z.land_ones by lia. change (2 ^ 1) with 2. rewrite Zmod_odd.
  assert (Z.odd (Z.of_nat n) = Nat.odd n) as ->; [|by destruct (Nat.odd n)].
  induction n as [|n IH]; [done|]. rewrite Nat2Z.inj_succ, Z.odd_succ, <-Z.negb_odd, IH, Nat.odd_succ, <-Nat.negb_odd. done.
Qed.

Lemma is_in_op op m n : is_in op (Z.of_nat m) (Z.of_nat n) = Z.b2z (apply_op op (Nat.odd m) (Nat.odd n)).
Proof. unfold is_in. rewrite !land_1_odd. by destruct op, (Nat.odd m), (Nat.odd n). Qed.

Ltac next_goal :=
  first [done|by rewrite app_nil_r|rewrite length_app; cbn; lia|by repeat constructor|cbn; lia|by apply Forall_app_2|
    apply Forall_app_2; [done|constructor; [lia|eapply Forall_impl; [done|intros; cbn in *; lia]]]|
    apply Forall_app_2; [constructor; [lia|eapply Forall_impl; [done|intros; cbn in *; lia]]|done]].

(** The next point of two increasing arrays, [a1] and [b1] being read. *)
Lemma op_point_run a1 a2 aj b1 b2 bj s :
  increasing a2 → increasing b2 →
  ∃ o, next_point (a1 ++ a2 ++ aj) (Z.of_nat (length (a1 ++ a2))) (b1 ++ b2 ++ bj) (Z.of_nat (length (b1 ++ b2)))
      (Z.of_nat (length a1), Z.of_nat (length b1)) s = (Ok o, s) ∧
    match o with
    | None => a2 = [] ∧ b2 = []
    | Some (v, (i, j)) => ∃ da a3 db b3, a2 = da ++ a3 ∧ b2 = db ++ b3 ∧ (1 ≤ length (da ++ db))%nat ∧ Forall (λ p, p = v) (da ++ db) ∧
        Forall (λ p, v ≤ p) (a3 ++ b3) ∧ i = Z.of_nat (length (a1 ++ da)) ∧ j = Z.of_nat (length (b1 ++ db))
    end.
Proof.
  intros Ha Hb.
  assert (∀ (l1 l2 lj : list Z) v l3, l2 = v :: l3 → rd (l1 ++ l2 ++ lj) (Z.of_nat (length l1)) s = (Ok v, s)) as Hrd.
  { intros l1 l2 lj v l3 ->. by apply rd_app. }
  assert (∀ l : list Z, increasing l → match l with [] => True | v :: l3 => Forall (λ p, v ≤ p) l3 end) as Hhead.
  { intros l Hl. destruct l; [done|]. by apply StronglySorted_inv in Hl as [_ ?]. }
  pose proof (Hhead a2 Ha) as Hha. pose proof (Hhead b2 Hb) as Hhb. clear Hhead.
  unfold next_point. rewrite !length_app. destruct a2 as [|va a3], b2 as [|vb b3]; cbn [length].
  - exists None. rewrite !(proj2 (Z.ltb_ge _ _)) by lia. done.
  - exists (Some (vb, (Z.of_nat (length a1), Z.of_nat (length b1) + 1))). rewrite (proj2 (Z.ltb_ge (Z.of_nat (length a1)) _)) by lia.
    rewrite (proj2 (Z.ltb_lt (Z.of_nat (length b1)) _)) by lia. cbn [andb]. split; [by erewrite bind_run by by eapply Hrd|].
    exists [], [], [vb], b3. split_and!; next_goal.
  - exists (Some (va, (Z.of_nat (length a1) + 1, Z.of_nat (length b1)))). rewrite (proj2 (Z.ltb_ge (Z.of_nat (length b1)) _)) by lia.
    rewrite (proj2 (Z.ltb_lt (Z.of_nat (length a1)) _)) by lia. cbn [andb]. split; [by erewrite bind_run by by eapply Hrd|].
    exists [va], a3, [], []. split_and!; next_goal.
  - rewrite (proj2 (Z.ltb_lt (Z.of_nat (length a1)) _)), (proj2 (Z.ltb_lt (Z.of_nat (length b1)) _)) by lia. cbn [andb]. destruct (Z.ltb_spec va vb) as [Hlt|Hge]; [|destruct (Z.eqb_spec va vb) as [->|Hne]].
    + exists (Some (va, (Z.of_nat (length a1) + 1, Z.of_nat (length b1)))). split.
      { erewrite bind_run by by eapply Hrd. erewrite bind_run by by eapply Hrd. rewrite (proj2 (Z.ltb_lt va vb)) by done. by erewrite bind_run by by eapply Hrd. }
      exists [va], a3, [], (vb :: b3). split_and!; next_goal.
    + exists (Some (vb, (Z.of_nat (length a1) + 1, Z.of_nat (length b1) + 1))). split.
      { erewrite bind_run by by eapply Hrd. erewrite bind_run by by eapply Hrd. by rewrite Z.ltb_irrefl, Z.eqb_refl. }
      exists [vb], a3, [vb], b3. split_and!; next_goal.
    + exists (Some (vb, (Z.of_nat (length a1), Z.of_nat (length b1) + 1))). split.
      { erewrite bind_run by by eapply Hrd. erewrite bind_run by by eapply Hrd. rewrite (proj2 (Z.ltb_ge va vb)) by done.
        rewrite (proj2 (Z.eqb_neq va vb)) by done. by erewrite bind_run by by eapply Hrd. }
      exists [], (va :: a3), [vb], b3. split_and!; next_goal.
Qed.

(** What [cr_op] has made of the points it has read, [m] being under the others. *)
Definition op_done (op : CharRangeOpEnum) (m : Z) (a1 b1 o : list Z) : Prop :=
  Forall (λ p, p ≤ m) a1 ∧ Forall (λ p, p ≤ m) b1 ∧ Forall (λ p, p ≤ m) o ∧ increasing o ∧ Forall (fits 32) o ∧
  (length o ≤ length a1 + length b1)%nat ∧
  Nat.odd (length o) = apply_op op (Nat.odd (length a1)) (Nat.odd (length b1)) ∧
  ∀ x, x < m → member o x = apply_op op (member a1 x) (member b1 x).

Lemma other_bool (b c : bool) : b ≠ c → negb c = b.
Proof. destruct b, c; try done; by intros []. Qed.

(** One more point: [da] and [db] are copies of it. *)
Lemma op_done_step op m a1 b1 o v da db :
  op_done op m a1 b1 o → m ≤ v → fits 32 v → (1 ≤ length (da ++ db))%nat → Forall (λ p, p = v) (da ++ db) →
  let parity := apply_op op (Nat.odd (length (a1 ++ da))) (Nat.odd (length (b1 ++ db))) in
  op_done op v (a1 ++ da) (b1 ++ db) (if Bool.eqb parity (Nat.odd (length o)) then o else o ++ [v]).
Proof.
  intros (Ha & Hb & Ho & Hs & Hf & Hlen & Hodd & Hmem) Hmv Hfv Hd Hdv parity. apply Forall_app in Hdv as [Hda Hdb].
  assert (∀ l, Forall (λ p, p ≤ m) l → Forall (λ p, p ≤ v) l) as Hle by (intros l Hl; eapply Forall_impl; [exact Hl|]; intros; cbn in *; lia).
  assert (∀ l, Forall (λ p, p = v) l → Forall (λ p, p ≤ v) l) as Heq by (intros l Hl; eapply Forall_impl; [exact Hl|]; intros; cbn in *; lia).
  assert (∀ x, x < v → member o x = apply_op op (member a1 x) (member b1 x)) as Hmem2.
  { intros x Hx. destruct (Z.lt_ge_cases x m) as [|Hge]; [by apply Hmem|].
    assert (∀ l, Forall (λ p, p ≤ m) l → member l x = Nat.odd (length l)) as Hall.
    { intros l Hl. apply member_all. eapply Forall_impl; [exact Hl|]. intros; cbn in *; lia. }
    rewrite !Hall by done. done. }
  assert (∀ l d x, Forall (λ p, p = v) d → x < v → member (l ++ d) x = member l x) as Happ.
  { intros l d x Hdd Hx. rewrite member_app, (member_none d); [by destruct (member l x)|]. eapply Forall_impl; [exact Hdd|]. intros; cbn in *; lia. }
  rewrite length_app in Hd.
  split_and!; try (apply Forall_app_2; auto); unfold parity in *; clear parity; rewrite ?length_app.
  - destruct (Bool.eqb _ _); [by apply Hle|apply Forall_app_2; [by apply Hle|by constructor]].
  - destruct (Bool.eqb _ _); [done|]. apply sorted_snoc; [done|]. by apply Hle.
  - destruct (Bool.eqb _ _); [done|]. apply Forall_app_2; [done|by constructor].
  - destruct (Bool.eqb _ _); rewrite ?length_app; cbn; lia.
  - destruct (Bool.eqb _ _) eqn:E; [by apply Bool.eqb_prop in E as ->; rewrite ?length_app|]. apply Bool.eqb_false_iff in E. rewrite length_app, Nat.add_1_r, Nat.odd_succ, <-Nat.negb_odd.
    by apply other_bool.
  - intros x Hx. rewrite !Happ by done. rewrite <-Hmem2 by done. destruct (Bool.eqb _ _); [done|]. apply Happ; [by repeat constructor|done].
Qed.

(** All the points have been read. *)
Lemma op_done_end op m a b o x : op_done op m a b o → member o x = apply_op op (member a x) (member b x).
Proof.
  intros (Ha & Hb & Ho & _ & _ & _ & Hodd & Hmem). destruct (Z.lt_ge_cases x m) as [|Hge]; [by apply Hmem|].
  assert (∀ l, Forall (λ p, p ≤ m) l → member l x = Nat.odd (length l)) as Hall.
  { intros l Hl. apply member_all. eapply Forall_impl; [exact Hl|]. intros; cbn in *; lia. }
  by rewrite !Hall.
Qed.

(** One turn: nothing is left, or the points read are more, or there is no memory. *)
Lemma op_turn_run `{Realloc} op m a1 a2 aj b1 b2 bj o post gs :
  op_done op m a1 b1 o → Forall (λ p, m ≤ p) (a2 ++ b2) → Forall (fits 32) (a2 ++ b2) → increasing a2 → increasing b2 →
  moderate (length (a1 ++ a2) + length (b1 ++ b2)) →
  ∃ r s', op_turn (a1 ++ a2 ++ aj) (Z.of_nat (length (a1 ++ a2))) (b1 ++ b2 ++ bj) (Z.of_nat (length (b1 ++ b2))) op
      (Z.of_nat (length a1), Z.of_nat (length b1)) (st o post gs) = (Ok r, s') ∧ grants s' `suffix_of` gs ∧
    match r with
    | inr r => r = 0 ∧ s' = st o post gs ∧ a2 = [] ∧ b2 = [] ∨ r = -1 ∧ false ∈ gs
    | inl (i, j) => ∃ v da a3 db b3 o' post' gs', a2 = da ++ a3 ∧ b2 = db ++ b3 ∧ (1 ≤ length (da ++ db))%nat ∧
        i = Z.of_nat (length (a1 ++ da)) ∧ j = Z.of_nat (length (b1 ++ db)) ∧ s' = st o' post' gs' ∧
        op_done op v (a1 ++ da) (b1 ++ db) o' ∧ Forall (λ p, v ≤ p) (a3 ++ b3)
    end.
Proof.
  intros Hdone Hm Hf Ha Hb Hmod. destruct (op_point_run a1 a2 aj b1 b2 bj (st o post gs) Ha Hb) as (p & Enext & Hp).
  unfold op_turn. destruct p as [[v [i j]]|].
  2:{ exists (inr 0), (st o post gs). erewrite bind_run by exact Enext. split_and!; [done|done|by left]. }
  destruct Hp as (da & a3 & db & b3 & Ea & Eb & Hd & Hdv & Hv & Ei & Ej).
  assert (fits 32 v ∧ m ≤ v) as [Hfv Hmv].
  { assert (v ∈ a2 ++ b2) as Hin.
    { destruct (da ++ db) as [|w l] eqn:E; [cbn in Hd; lia|]. apply Forall_cons in Hdv as [-> _].
      assert (v ∈ da ++ db) as Hvd by (rewrite E; left). subst. rewrite !elem_of_app in *. tauto. }
    rewrite Forall_forall in Hf, Hm. split; [by apply Hf|by apply Hm]. }
  pose proof (op_done_step op m a1 b1 o v da db Hdone Hmv Hfv Hd Hdv) as Hstep. cbv zeta in Hstep.
  erewrite bind_run by exact Enext. cbv iota beta. erewrite bind_run by reflexivity. cbn [st range len]. subst i j.
  rewrite is_in_op, land_1_odd. set (parity := apply_op op (Nat.odd (length (a1 ++ da))) (Nat.odd (length (b1 ++ db)))) in *.
  assert ((Z.b2z parity =? Z.b2z (Nat.odd (length o))) = Bool.eqb parity (Nat.odd (length o))) as -> by by destruct parity, (Nat.odd (length o)).
  destruct (Bool.eqb parity (Nat.odd (length o))); cbn [negb].
  - eexists _, _. split; [reflexivity|]. split; [done|]. exists v, da, a3, db, b3, o, post, gs. by split_and!.
  - destruct Hdone as (_ & _ & _ & _ & _ & Hlen & _). destruct (cr_add_point_grows o post gs v) as (r & s' & E & Hs & Hr).
    { subst a2 b2. unfold moderate in *. rewrite !length_app in *. lia. }
    erewrite bind_run by exact E. destruct Hr as [[-> (post' & gs' & ->)]|[-> Hr]].
    + eexists _, _. split; [reflexivity|]. split; [exact Hs|]. exists v, da, a3, db, b3, (o ++ [v]), post', gs'. by split_and!.
    + eexists _, _. split; [reflexivity|]. split; [exact Hs|by right].
Qed.

Lemma increasing_app l1 l2 : increasing (l1 ++ l2) → increasing l2.
Proof. induction l1 as [|x l1 IH]; [done|]. intros Hl. apply StronglySorted_inv in Hl as [? _]. auto. Qed.

Lemma op_loop_grows `{Realloc} op fuel m a1 a2 aj b1 b2 bj o post gs :
  op_done op m a1 b1 o → Forall (λ p, m ≤ p) (a2 ++ b2) → Forall (fits 32) (a2 ++ b2) → increasing a2 → increasing b2 →
  moderate (length (a1 ++ a2) + length (b1 ++ b2)) → (length (a2 ++ b2) < fuel)%nat →
  grows (loop fuel (op_turn (a1 ++ a2 ++ aj) (Z.of_nat (length (a1 ++ a2))) (b1 ++ b2 ++ bj) (Z.of_nat (length (b1 ++ b2))) op)
      (Z.of_nat (length a1), Z.of_nat (length b1)))
    (st o post gs) (λ s', ∃ m' o' post' gs', s' = st o' post' gs' ∧ op_done op m' (a1 ++ a2) (b1 ++ b2) o').
Proof.
  revert m a1 a2 b1 b2 o post gs. induction fuel as [|fuel IH]; intros m a1 a2 b1 b2 o post gs Hdone Hm Hf Ha Hb Hmod Hfuel; [lia|].
  destruct (op_turn_run op m a1 a2 aj b1 b2 bj o post gs Hdone Hm Hf Ha Hb Hmod) as (r & s' & E & Hs & Hr). unfold grows. cbn [loop].
  erewrite bind_run by exact E. destruct r as [[i j]|r].
  - destruct Hr as (v & da & a3 & db & b3 & o' & post' & gs' & -> & -> & Hd & -> & -> & -> & Hdone' & Hv). cbn [st grants] in Hs.
    destruct (IH v (a1 ++ da) a3 (b1 ++ db) b3 o' post' gs') as (r & s' & E' & Hs' & Hr); try done.
    + rewrite !Forall_app in Hf. rewrite Forall_app. tauto.
    + by eapply increasing_app.
    + by eapply increasing_app.
    + by rewrite <-!app_assoc.
    + rewrite !length_app in *. lia.
    + rewrite <-!app_assoc in *. exists r, s'. split_and!; [exact E'|by trans gs'|]. destruct Hr as [Hr|[-> Hr]]; [by left|right].
      split; [done|]. destruct Hs as [l ->]. apply elem_of_app. by right.
  - eexists _, _. split; [reflexivity|]. split; [done|]. destruct Hr as [(-> & -> & -> & ->)|Hr]; [left|by right].
    split; [done|]. exists m, o, post, gs. by rewrite !app_nil_r.
Qed.

Lemma cr_op_grows `{Realloc} op a aj b bj post gs :
  increasing a → increasing b → Forall (fits 32) (a ++ b) → Nat.even (length a) = true → Nat.even (length b) = true →
  moderate (length a + length b) →
  grows (cr_op (a ++ aj) (Z.of_nat (length a)) (b ++ bj) (Z.of_nat (length b)) op) (st [] post gs)
    (λ s', ∃ o post' gs', s' = st o post' gs' ∧ normal_points o ∧ (length o ≤ length a + length b)%nat ∧
       ∀ x, member o x = apply_op op (member a x) (member b x)).
Proof.
  intros Ha Hb Hf Hea Heb Hmod. unfold cr_op.
  assert (op_done op 0 [] [] []) as Hdone.
  { split_and!; try constructor; [by destruct op|]. intros. by destruct op. }
  eapply (grows_seq _ _ _ _ (λ r, if r =? 0 then cr_compress;; ret 0 else ret r));
    [apply (op_loop_grows op _ 0 [] a aj [] b bj [] post gs Hdone); try done| |done].
  - eapply Forall_impl; [exact Hf|]. intros p Hp. cbn in Hp |- *. unfold fits in Hp. lia.
  - rewrite length_app. lia.
  - intros s' (m & o & post' & gs' & -> & Hdone'). clear Hdone.
    pose proof (op_done_end op m a b o) as Hend. destruct Hdone' as (Hda & Hdb & Hdo & Hs & Hfo & Hlen & Hodd & Hmem). cbn [app] in *.
    assert (Nat.even (length o) = true) as Hev.
    { rewrite <-Nat.negb_odd, Hodd. rewrite <-Nat.negb_odd, negb_true_iff in Hea, Heb. rewrite Hea, Heb. by destruct op. }
    destruct (cr_compress_run o post' gs' Hs Hev Hfo) as (o' & post'' & E & Hn & _ & Hl & Hmem').
    change (0 =? 0) with true. cbv iota. eapply grows_run; [erewrite bind_run by exact E; reflexivity|done|done|]. exists o', post'', gs'. split_and!; [done|done| |].
    + lia.
    + intros x. rewrite Hmem'. by apply Hend.
Qed.

Lemma cr_union1_grows `{Realloc} l post gs b bj :
  normal_points l → increasing b → Forall (fits 32) b → Nat.even (length b) = true → moderate (length l + length b) →
  grows (cr_union1 (b ++ bj) (Z.of_nat (length b))) (st l post gs)
    (λ s', ∃ o post' gs', s' = st o post' gs' ∧ normal_points o ∧ (length o ≤ length l + length b)%nat ∧ ∀ x, member o x = member l x || member b x).
Proof.
  intros (Hs & He & Hf) Hb Hfb Heb Hmod.
  destruct (cr_op_grows CR_OP_UNION l post b bj [] gs) as (r & s' & E & Hr); [by apply increasing_mono|done|by apply Forall_app_2|done..|].
  exists r, s'. split; [|exact Hr]. rewrite <-E. unfold cr_union1. by erewrite bind_run by reflexivity.
Qed.

Lemma cr_invert_sorted_grows `{Realloc} l post gs :
  increasing l → Nat.even (length l) = true → Forall (fits 32) l → moderate (length l + 2) →
  grows cr_invert (st l post gs) (λ s', ∃ o post' gs', s' = st o post' gs' ∧ normal_points o ∧ (length o ≤ length l + 2)%nat ∧
    ∀ x, 0 ≤ x < UINT32_MAX → member o x = negb (member l x)).
Proof.
  intros Hs He Hf Hmod. unfold cr_invert. apply grows_gets. cbn [st range len].
  eapply (grows_seq _ _ _ _ (λ r, if negb (r =? 0) then ret (-1) else
    p ← on_points (limbs 0 (Z.of_nat (length l))); on_points (set_limbs 1 p);; set_point 0 0;; set_point (Z.of_nat (length l) + 1) UINT32_MAX;;
    set_len (Z.of_nat (length l) + 2);; cr_compress;; ret 0)); [apply (room_grows l post gs 2 true Hmod); done| |done].
  intros s' (post' & gs' & -> & Hl). destruct post' as [|x [|y post']]; [cbn in Hl; lia..|]. change (negb (0 =? 0)) with false. cbv iota.
  set (l2 := 0 :: l ++ [UINT32_MAX]).
  assert (Forall (fits 32) l2) as Hf2.
  { unfold l2. constructor; [unfold fits; lia|]. apply Forall_app_2; [done|]. by repeat constructor. }
  assert (increasing l2) as Hs2.
  { unfold l2. constructor.
    - apply sorted_snoc; [done|]. eapply Forall_impl; [exact Hf|]. intros p Hp. cbn in Hp |- *. unfold fits in Hp. unfold UINT32_MAX. lia.
    - apply Forall_app_2; [|by repeat constructor]. eapply Forall_impl; [exact Hf|]. intros p Hp. cbn in Hp |- *. unfold fits in Hp. lia. }
  assert (Nat.even (length l2) = true) as He2 by (unfold l2; cbn; rewrite length_app, Nat.add_1_r; done).
  destruct (cr_compress_run l2 post' gs' Hs2 He2 Hf2) as (o & post2 & E & Hn & _ & Hlo & Hmem).
  assert (∃ w, set_limbs 1 l (l ++ x :: y :: post') = (Ok tt, w :: l ++ y :: post')) as (w & Emove).
  { unfold set_limbs. rewrite (proj2 (Z.leb_le 0 1)), (proj2 (Z.leb_le _ _)) by (rewrite ?length_app; cbn; lia). cbn [andb].
    replace (Z.to_nat 1 + length l)%nat with (length l + 1)%nat by lia. rewrite drop_app_add. destruct (l ++ x :: y :: post') as [|w p] eqn:Ep; [by destruct l|].
    exists w. done. }
  assert (<[Z.to_nat (Z.of_nat (length l) + 1) := UINT32_MAX]> (<[Z.to_nat 0 := 0]> (w :: l ++ y :: post')) = 0 :: l ++ UINT32_MAX :: post') as Ewr.
  { replace (Z.to_nat (Z.of_nat (length l) + 1)) with (S (length l)) by lia.
    change (0 :: <[length l := UINT32_MAX]> (l ++ y :: post') = 0 :: l ++ UINT32_MAX :: post'). f_equal. by rewrite insert_app_r_alt, Nat.sub_diag by lia. }
  assert (length (l ++ x :: y :: post') = length (l2 ++ post')) as Esz by (unfold l2; cbn; rewrite !length_app; cbn; lia).
  apply (grows_run _ _ 0 (st o post2 gs')); [|done|done|exists o, post2, gs'; split_and!; [done|done|unfold l2 in Hlo; cbn in Hlo; rewrite length_app in Hlo; cbn in Hlo; lia|]].
  - unfold st at 1. erewrite bind_run by (apply on_points_run; exact (limbs_run [] l (x :: y :: post'))).
    erewrite bind_run by (apply on_points_run; exact Emove).
    erewrite bind_run by (apply set_point_run; cbn; lia). erewrite bind_run by (apply set_point_run; rewrite length_insert; cbn [length]; rewrite length_app; cbn [length]; lia).
    rewrite Ewr.
    unfold set_len at 1. erewrite bind_run by (erewrite bind_run by reflexivity; reflexivity). cbn [range grants size points].
    assert (E2 : {| range := {| len := Z.of_nat (length l) + 2; size := Z.of_nat (length (l ++ x :: y :: post')); points := 0 :: l ++ UINT32_MAX :: post' |}; grants := gs' |}
      = st l2 post' gs').
    { unfold st. rewrite Esz. unfold l2. cbn [app length]. rewrite <-app_assoc. cbn [app]. do 2 f_equal. rewrite length_app. cbn. lia. }
    rewrite E2. erewrite bind_run by exact E. reflexivity.
  - intros z Hz. rewrite Hmem. unfold l2. cbn. rewrite member_app. cbn. rewrite (proj2 (Z.leb_le 0 z)), (proj2 (Z.leb_gt UINT32_MAX z)) by lia.
    by destruct (member l z).
Qed.

Lemma cr_invert_grows `{Realloc} l post gs :
  normal_points l → moderate (length l + 2) →
  grows cr_invert (st l post gs) (λ s', ∃ o post' gs', s' = st o post' gs' ∧ normal_points o ∧ (length o ≤ length l + 2)%nat ∧
    ∀ x, 0 ≤ x < UINT32_MAX → member o x = negb (member l x)).
Proof. intros (Hs & He & Hf). apply cr_invert_sorted_grows; [by apply increasing_mono|done|done]. Qed.

(** The block of the copy may be any. *)
Lemma cr_copy_grows `{Realloc} l post gs l1 post1 sz1 :
  moderate (length l1) →
  grows (cr_copy {| len := Z.of_nat (length l1); size := sz1; points := l1 ++ post1 |}) (st l post gs) (λ s', ∃ post' gs', s' = st l1 post' gs').
Proof.
  intros Hmod. unfold cr_copy. cbn [len points]. rewrite Nat2Z.id, take_app_length.
  eapply (grows_seq _ _ _ _ (λ r, if negb (r =? 0) then ret (-1) else on_points (set_limbs 0 l1);; set_len (Z.of_nat (length l1));; ret 0));
    [by apply cr_realloc_room| |done].
  intros s' (post' & gs' & -> & Hn). change (negb (0 =? 0)) with false. cbv iota.
  set (p := l ++ post') in *. assert (length (take (length l1) p) = length l1) as Hw by (rewrite length_take; lia).
  apply (grows_run _ _ 0 (st l1 (drop (length l1) p) gs')); [|done|done|by eexists _, _].
  unfold st at 1. fold p. erewrite bind_run.
  2:{ apply on_points_run. rewrite <-(take_drop (length l1) p) at 1. exact (set_limbs_run [] (take (length l1) p) l1 (drop (length l1) p) (eq_sym Hw)). }
  cbn [app]. unfold set_len. erewrite bind_run by (erewrite bind_run by reflexivity; reflexivity). unfold ret, st. cbn [range grants size points].
  do 4 f_equal. rewrite length_app, length_drop. lia.
Qed.
