(* ===== verification/CharRangeBuild.v ===== *)
(** * Sets of code points: sorting and building, lemmas

    The sorted pairs of [cr_sort_and_remove_overlap], and the routines that add
    intervals to a set. *)
From S2P Require Import Prelude CStd Words CUtils BigIntMp Sort SortFacts SortStack CharRange CharRangeFacts.
From Stdlib Require Import Sorted.

#[local] Open Scope Z_scope.

(** * Sets of code points: sorting, lemmas

    The two loops of [cr_sort_and_remove_overlap] on the sorted pairs. *)

(** ** Pairs *)

Lemma points_length ps : length (points_of ps) = (2 * length ps)%nat.
Proof. induction ps as [|[a b] ps IH]; [done|]. cbn [points_of length]. lia. Qed.

Lemma pairs_points ps : pairs_of (points_of ps) = ps.
Proof. induction ps as [|[a b] ps IH]; [done|]. cbn. by rewrite IH. Qed.

Lemma points_app ps qs : points_of (ps ++ qs) = points_of ps ++ points_of qs.
Proof. induction ps as [|[a b] ps IH]; [done|]. cbn. by rewrite IH. Qed.

Lemma points_Forall (P : Z → Prop) ps : Forall P (points_of ps) ↔ Forall (λ q, P q.1 ∧ P q.2) ps.
Proof. induction ps as [|[a b] ps IH]; [done|]. cbn. rewrite !Forall_cons. cbn. tauto. Qed.

(** The point is in one of the intervals. *)
Definition covers (ps : list (Z * Z)) (x : Z) : Prop := Exists (λ q, q.1 ≤ x < q.2) ps.

Lemma covers_perm ps qs x : ps ≡ₚ qs → covers ps x ↔ covers qs x.
Proof. intros H. unfold covers. by rewrite H. Qed.

Lemma point_cmp_le p q : point_cmp p q ≤ 0 ↔ p.1 ≤ q.1.
Proof. unfold point_cmp. rewrite Z.gtb_ltb. destruct (Z.ltb_spec q.1 p.1), (Z.ltb_spec p.1 q.1); cbn; lia. Qed.

Lemma point_cmp_consistent : consistent point_cmp.
Proof.
  split; [|intros p q r; rewrite !point_cmp_le; lia]. intros p q. unfold point_cmp. rewrite !Z.gtb_ltb.
  destruct (Z.ltb_spec q.1 p.1), (Z.ltb_spec p.1 q.1); cbn; lia.
Qed.

Lemma sort_points_run ps post :
  ∃ qs, sort_points (Z.of_nat (length (points_of ps)) / 2) (points_of ps ++ post) = (Ok tt, points_of qs ++ post) ∧
    qs ≡ₚ ps ∧ StronglySorted (λ p q, p.1 ≤ q.1) qs.
Proof.
  assert (Z.of_nat (length (points_of ps)) / 2 = Z.of_nat (length ps)) as ->.
  { rewrite points_length, Nat2Z.inj_mul, Z.mul_comm. by apply Z.div_mul. }
  destruct (rqsort_run point_cmp ps) as (qs & E & Hp & Ho). specialize (Ho point_cmp_consistent). exists qs. split_and!; [|done|].
  - unfold sort_points. rewrite Nat2Z.id, <-points_length, take_app_length, drop_app_length, pairs_points, E. done.
  - clear E Hp. induction Ho as [|q qs Hq IH Hall]; constructor; [done|]. eapply Forall_impl; [exact Hall|]. intros r. apply point_cmp_le.
Qed.

(** ** The loops *)

Section loops.
Context (gs : list bool) (sz : Z).
Let state (n : nat) (p : list Z) : cr_mem := {| range := {| len := Z.of_nat n; size := sz; points := p |}; grants := gs |}.

Lemma pair_lookup (pre l : list Z) a b : (pre ++ a :: b :: l) !! Z.to_nat (Z.of_nat (length pre)) = Some a ∧ (pre ++ a :: b :: l) !! Z.to_nat (Z.of_nat (length pre) + 1) = Some b.
Proof.
  split; [rewrite Nat2Z.id; by apply list_lookup_middle|]. rewrite lookup_app_r by lia. by replace (Z.to_nat _ - length pre)%nat with 1%nat by lia.
Qed.

(** The intervals that meet the one from [s] to [e] are joined to it. *)
Lemma absorb_loop_run fuel n pre ps post s e :
  n = (length pre + 2 * length ps)%nat → (length ps < fuel)%nat → s ≤ e → Forall (λ q, s ≤ q.1) ps →
  ∃ ms ps' e', ps = ms ++ ps' ∧ match ps' with [] => True | q :: _ => e' < q.1 end ∧ e ≤ e' ∧ (e' = e ∨ Exists (λ q, q.2 = e') ms) ∧
    (∀ x, s ≤ x < e' ↔ s ≤ x < e ∨ covers ms x) ∧
    loop fuel absorb_turn (Z.of_nat (length pre), e) (state n (pre ++ points_of ps ++ post))
    = (Ok (Z.of_nat (length pre + 2 * length ms), e'), state n (pre ++ points_of ps ++ post)).
Proof.
  revert pre ps e. induction fuel as [|fuel IH]; intros pre ps e Hn Hf He Hs; [lia|]. cbn [loop]. unfold absorb_turn at 1.
  rewrite bind_bind. erewrite bind_run by reflexivity. cbn [state range len]. destruct ps as [|[a b] ps].
  { cbn [length] in Hn. destruct (Z.ltb_spec (Z.of_nat (length pre)) (Z.of_nat n)); [lia|]. rewrite bind_ret. exists [], [], e.
    split_and!; [done|done|lia|by left|intros x; unfold covers; rewrite Exists_nil; tauto|unfold ret; do 3 f_equal; cbn; lia]. }
  cbn [length] in Hn, Hf. destruct (Z.ltb_spec (Z.of_nat (length pre)) (Z.of_nat n)); [|lia]. rewrite bind_bind. cbn [points_of app].
  destruct (pair_lookup pre (points_of ps ++ post) a b) as [Ha Hb].
  erewrite bind_run by (apply point_run; [exact Ha|lia]). rewrite bind_bind. erewrite bind_run by (apply point_run; [exact Hb|lia]).
  apply Forall_cons in Hs as [Hsa Hs]. cbn [fst] in Hsa. rewrite Z.gtb_ltb. destruct (Z.ltb_spec e a) as [Hgt|Hle].
  { rewrite bind_ret. exists [], ((a, b) :: ps), e.
    split_and!; [done|done|lia|by left|intros x; unfold covers; rewrite Exists_nil; tauto|unfold ret; do 3 f_equal; cbn; lia]. }
  assert (∃ e1, (if b <=? e then e else b) = e1 ∧ e ≤ e1 ∧ (e1 = e ∨ e1 = b) ∧ ∀ x, s ≤ x < e1 ↔ s ≤ x < e ∨ a ≤ x < b) as (e1 & Hturn & He1 & Hor & Hx1).
  { destruct (Z.leb_spec b e); eexists; (split; [reflexivity|]); split_and!; [lia|by left|intros; lia|lia|by right|intros; lia]. }
  destruct (IH (pre ++ [a; b]) ps e1) as (ms & ps' & e' & -> & Hstop & He' & Hsrc & Hx & Erun);
    [rewrite length_app; cbn [length]; lia|lia|lia|done|].
  exists ((a, b) :: ms), ps', e'. split_and!; [done|done|lia| | |].
  - destruct Hsrc as [->|Hsrc]; [|right; by right]. destruct Hor as [->| ->]; [by left|right; by left].
  - intros x. rewrite Hx, Hx1. unfold covers. rewrite Exists_cons. cbn. tauto.
  - rewrite length_app in Erun. cbn [length] in Erun |- *. rewrite <-app_assoc in Erun. cbn [app] in Erun.
    rewrite <-Hturn in Erun; destruct (b <=? e); rewrite bind_ret; replace (Z.of_nat (length pre) + 2) with (Z.of_nat (length pre + 2)) by lia;
      (etransitivity; [exact Erun|]); do 4 f_equal; lia.
Qed.

Lemma member_add R s e x :
  strictly_increasing R → Nat.even (length R) = true → Forall (λ r, r < s) R → s < e →
  member (R ++ [s; e]) x = true ↔ member R x = true ∨ s ≤ x < e.
Proof.
  intros HR He Hs Hse. rewrite member_app. cbn [member]. destruct (Z.leb_spec s x) as [Hle|Hgt].
  - assert (member R x = false) as ->.
    { rewrite member_all; [by rewrite <-Nat.negb_even, He|]. eapply Forall_impl; [exact Hs|]. intros r Hr. cbn in Hr |- *. lia. }
    destruct (Z.leb_spec e x); cbn; split; intros; try lia; try naive_solver lia; done.
  - rewrite (proj2 (Z.leb_gt e x)) by lia. cbn. rewrite xorb_false_r. split; [by left|]. intros [?|?]; [done|lia].
Qed.

(** [R] is done, [H] is a hole, [ps] is left. *)
Lemma overlap_loop_run fuel N n R H ps post :
  n = (length R + length H + 2 * length ps)%nat → (length ps < fuel)%nat → (length ps < N)%nat →
  StronglySorted (λ p q, p.1 ≤ q.1) ps → Forall (λ q, q.1 < q.2) ps → Forall (λ q, fits 32 q.1 ∧ fits 32 q.2) ps →
  strictly_increasing R → Nat.even (length R) = true → Forall (fits 32) R → Forall (λ q, Forall (λ r, r < q.1) R) ps →
  ∃ R' post', loop fuel (overlap_turn N) (Z.of_nat (length R + length H), Z.of_nat (length R)) (state n (R ++ H ++ points_of ps ++ post))
      = (Ok (Z.of_nat (length R')), state n (R' ++ post')) ∧
    length (R' ++ post') = length (R ++ H ++ points_of ps ++ post) ∧ (length R' ≤ length R + 2 * length ps)%nat ∧
    strictly_increasing R' ∧ Nat.even (length R') = true ∧ Forall (fits 32) R' ∧
    ∀ x, member R' x = true ↔ member R x = true ∨ covers ps x.
Proof.
  revert R H ps. induction fuel as [|fuel IH]; intros R H ps Hn Hf HN Hsort Hlt Hfit HR HeR HfR HRps; [lia|]. cbn [loop]. unfold overlap_turn at 1.
  rewrite bind_bind. erewrite bind_run by reflexivity. cbn [state range len]. destruct ps as [|[a b] ps].
  { cbn [length] in Hn. destruct (Z.ltb_spec (Z.of_nat (length R + length H)) (Z.of_nat n)); [lia|]. rewrite bind_ret. exists R, (H ++ post).
    split_and!; [done|done|lia|done|done|done|]. intros x. unfold covers. rewrite Exists_nil. tauto. }
  cbn [length] in Hn, Hf, HN. destruct (Z.ltb_spec (Z.of_nat (length R + length H)) (Z.of_nat n)); [|lia]. rewrite bind_bind.
  set (pts := R ++ H ++ points_of ((a, b) :: ps) ++ post).
  assert (pts = (R ++ H) ++ a :: b :: points_of ps ++ post) as Epts by (unfold pts; rewrite <-app_assoc; done).
  assert (length (R ++ H) = length R + length H)%nat as HlRH by apply length_app.
  destruct (pair_lookup (R ++ H) (points_of ps ++ post) a b) as [Ha Hb]. rewrite HlRH, <-Epts in Ha, Hb.
  erewrite bind_run by (apply point_run; [exact Ha|lia]). rewrite bind_bind. erewrite bind_run by (apply point_run; [exact Hb|lia]). rewrite bind_bind.
  apply StronglySorted_inv in Hsort as [Hsort Hfst]. apply Forall_cons in Hlt as [Hab Hlt]. apply Forall_cons in Hfit as [[Hfa Hfb] Hfit].
  apply Forall_cons in HRps as [HRa HRps]. cbn [fst snd] in *.
  destruct (absorb_loop_run N n (R ++ H ++ [a; b]) ps post a b) as (ms & ps' & e & -> & Hstop & Hbe & Hsrc & Hx & Erun);
    [rewrite !length_app; cbn [length]; lia|lia|lia|exact Hfst|].
  replace ((R ++ H ++ [a; b]) ++ points_of (ms ++ ps') ++ post) with pts in Erun by (rewrite Epts, <-!app_assoc; done).
  rewrite !length_app in Erun. cbn [length] in Erun.
  replace (Z.of_nat (length R + length H) + 2) with (Z.of_nat (length R + (length H + 2))) by lia.
  erewrite bind_run by exact Erun. cbn beta iota. rewrite bind_bind.
  rewrite length_app in Hn, Hf, HN. assert (length pts = length R + length H + 2 + 2 * length ms + 2 * length ps' + length post)%nat as Hlpts.
  { rewrite Epts, length_app, HlRH. cbn [length]. rewrite length_app, points_length, length_app. lia. }
  erewrite bind_run by (apply set_point_run; lia). rewrite bind_bind. erewrite bind_run by (apply set_point_run; rewrite length_insert; lia). rewrite bind_ret.
  rewrite Nat2Z.id. replace (Z.to_nat (Z.of_nat (length R) + 1)) with (length R + 1)%nat by lia.
  set (Y := H ++ a :: b :: points_of ms).
  assert (pts = R ++ Y ++ points_of ps' ++ post) as Epts2 by (rewrite Epts; unfold Y; by rewrite points_app, <-!app_assoc).
  assert (length Y = length H + 2 + 2 * length ms)%nat as HlY by (unfold Y; rewrite length_app; cbn [length]; rewrite points_length; lia).
  rewrite Epts2, two_points_run by (rewrite length_app; lia). rewrite drop_app_le by lia.
  assert (Forall (λ q, e < q.1) ps') as Hafter.
  { clear -Hstop Hsort. destruct ps' as [|q ps']; [done|]. assert (StronglySorted (λ p q, p.1 ≤ q.1) (q :: ps')) as Hs.
    { induction ms as [|m ms IH]; [done|]. apply StronglySorted_inv in Hsort as [? _]. auto. }
    apply StronglySorted_inv in Hs as [_ Hq]. constructor; [done|]. eapply Forall_impl; [exact Hq|]. intros r Hr. cbn in Hr |- *. lia. }
  assert (fits 32 e) as Hfe.
  { destruct Hsrc as [->|He]; [done|]. apply Exists_exists in He as (q & Hq & <-). apply Forall_app in Hfit as [Hfit _]. rewrite Forall_forall in Hfit. by apply Hfit. }
  apply Forall_app in Hfst as [_ Hfst], Hlt as [_ Hlt], Hfit as [_ Hfit], HRps as [_ HRps].
  destruct (IH (R ++ [a; e]) (drop 2 Y) ps') as (R' & post' & Erun2 & Hlen & Hle & HsR & HeR' & HfR' & Hmem).
  - rewrite length_app, length_drop. cbn [length]. lia.
  - lia.
  - lia.
  - clear -Hsort. induction ms as [|m ms IH]; [done|]. apply StronglySorted_inv in Hsort as [? _]. auto.
  - done.
  - done.
  - change [a; e] with ([a] ++ [e]). rewrite app_assoc. apply sorted_snoc; [apply sorted_snoc; [done|exact HRa]|].
    apply Forall_app_2; [eapply Forall_impl; [exact HRa|]; intros r Hr; cbn in Hr |- *; lia|repeat constructor; lia].
  - rewrite length_app, Nat.even_add, HeR. done.
  - apply Forall_app_2; [done|constructor; [done|by constructor]].
  - apply Forall_forall. intros q Hq. rewrite Forall_forall in HRps, Hafter. specialize (Hafter q Hq). apply Forall_app_2; [by apply HRps|]. repeat constructor; lia.
  - exists R', post'. split_and!; [| |rewrite length_app in Hle; cbn [length] in Hle |- *; rewrite length_app; lia|done|done|done|].
    + rewrite length_app, length_drop, <-app_assoc in Erun2. cbn [length app] in Erun2.
      replace (Z.of_nat (length R) + 2) with (Z.of_nat (length R + 2)) by lia.
      etransitivity; [|exact Erun2]. do 3 f_equal. lia.
    + rewrite Hlen, !length_app, length_drop, points_length. cbn [length]. lia.
    + intros x. rewrite Hmem, member_add by (done || lia). unfold covers at 2. rewrite Exists_cons, Exists_app. cbn [fst snd]. rewrite Hx. unfold covers. tauto.
Qed.
End loops.

(** ** The whole routine *)

Lemma cr_sort_and_remove_overlap_run ps post gs :
  Forall (λ q, q.1 < q.2) ps → Forall (λ q, fits 32 q.1 ∧ fits 32 q.2) ps →
  ∃ l post', cr_sort_and_remove_overlap (st (points_of ps) post gs) = (Ok tt, st l post' gs) ∧ normal_points l ∧
    (length l ≤ length (points_of ps))%nat ∧ ∀ x, member l x = true ↔ covers ps x.
Proof.
  intros Hlt Hfit. unfold cr_sort_and_remove_overlap. erewrite bind_run by reflexivity. cbn [st range len].
  destruct (sort_points_run ps post) as (qs & E & Hp & Hs). unfold st at 1. erewrite bind_run by (apply on_points_run; exact E).
  assert (length (points_of qs) = length (points_of ps)) as Hlen by (by rewrite !points_length, Hp). cbv zeta. rewrite Nat2Z.id.
  destruct (overlap_loop_run gs (Z.of_nat (length (points_of ps ++ post))) (S (length (points_of ps))) (S (length (points_of ps))) (length (points_of ps)) [] [] qs post)
    as (l & post' & Erun & Hl & Hle & Hsl & Hel & Hfl & Hm).
  - cbn [length]. by rewrite <-Hlen, points_length.
  - rewrite <-Hlen, points_length. lia.
  - rewrite <-Hlen, points_length. lia.
  - done.
  - by rewrite Hp.
  - by rewrite Hp.
  - constructor.
  - done.
  - constructor.
  - apply Forall_forall. intros; constructor.
  - erewrite bind_run by exact Erun. cbn [app] in Hl. exists l, post'. split_and!; [|by split_and!|rewrite points_length, <-(Permutation_length Hp); cbn [length] in Hle; lia|].
    + unfold set_len. erewrite bind_run by reflexivity. unfold set_range, modify, st. cbn [range grants size points]. rewrite Hl, !length_app, Hlen. done.
    + intros x. rewrite Hm, (covers_perm qs ps x Hp). cbn. split; [by intros [?|?]|by right].
Qed.

(** * Sets of code points: building

    Routines that add intervals at the end of a [CharRange] until an allocation
    is refused, and the intervals they add. *)

Section builds.
Context `{Realloc}.

(** [m] adds the intervals [ivs], or an allocation was refused. *)
Definition builds (m : M cr_mem Z) (ivs : list (Z * Z)) : Prop :=
  ∀ l post gs, moderate (length l + length (points_of ivs)) →
    grows m (st l post gs) (λ s', ∃ post' gs', s' = st (l ++ points_of ivs) post' gs').

Lemma builds_nil : builds (ret 0) [].
Proof. intros l post gs _. apply (grows_run _ _ 0 (st l post gs)); [done..|]. exists post, gs. by rewrite app_nil_r. Qed.

Lemma builds_one a b : builds (cr_add_interval a b) [(a, b)].
Proof. intros l post gs Hm. by apply cr_add_interval_grows. Qed.

(** [if (m) return -1; k] *)
Lemma builds_then m k ivs ivs' :
  builds m ivs → builds k ivs' → builds (r ← m; if negb (r =? 0) then ret (-1) else k) (ivs ++ ivs').
Proof.
  intros Hm Hk l post gs Hmod. rewrite points_app, length_app in Hmod. unfold moderate in Hmod.
  eapply (grows_seq _ _ _ _ (λ r, if negb (r =? 0) then ret (-1) else k)); [apply Hm; unfold moderate; lia| |done].
  intros s' (post' & gs' & ->). rewrite points_app, app_assoc. apply Hk. unfold moderate. rewrite length_app. lia.
Qed.

(** One turn of a loop, as far as the intervals go: a call that may fail, then the next turn. *)
Lemma builds_turn {A} fuel (body : A → M cr_mem (A + Z)) a m a' ivs ivs' :
  (∀ s, body a s = (r ← m; ret (if negb (r =? 0) then inr (-1) else inl a')) s) →
  builds m ivs → builds (loop fuel body a') ivs' → builds (loop (S fuel) body a) (ivs ++ ivs').
Proof.
  intros Hbody Hm Hrest l post gs Hmod. assert (∀ s, loop (S fuel) body a s = (r ← m; if negb (r =? 0) then ret (-1) else loop fuel body a') s) as Eq.
  { intros s. cbn [loop]. unfold bind at 1. rewrite Hbody. unfold bind. destruct (m s) as [[r|e] s']; [|done]. by destruct (negb (r =? 0)). }
  destruct (builds_then m (loop fuel body a') ivs ivs' Hm Hrest l post gs Hmod) as (r & s' & E & Hr). exists r, s'. by rewrite Eq.
Qed.

Lemma builds_stop {A} fuel (body : A → M cr_mem (A + Z)) a :
  (∀ s, body a s = (Ok (inr 0), s)) → builds (loop (S fuel) body a) [].
Proof.
  intros Hbody l post gs _. apply (grows_run _ _ 0 (st l post gs)); [|done|done|by exists post, gs; rewrite app_nil_r].
  cbn [loop]. erewrite bind_run by apply Hbody. done.
Qed.

(** Whether an addition succeeds or not, the structure is what it was up to its end. *)
Lemma cr_add_interval_tries l post gs a b :
  moderate (length l + 2) →
  ∃ r post' gs' l', cr_add_interval a b (st l post gs) = (Ok r, st l' post' gs') ∧ gs' `suffix_of` gs ∧
    (r = 0 ∧ l' = l ++ [a; b] ∨ r = -1 ∧ l' = l ∧ false ∈ gs).
Proof.
  intros Hmod. destruct (Z.ltb_spec (Z.of_nat (length (l ++ post))) (Z.of_nat (length l + 2))) as [Hlt|Hge].
  - destruct (cr_realloc_step l post gs (length l + 2) Hmod Hlt) as (post' & Hn & Hrun).
    assert (cr_add_interval a b (st l post gs) = (r ← cr_realloc (Z.of_nat (length l + 2)); if negb (r =? 0) then ret (-1) else push_point a;; push_point b;; ret 0) (st l post gs)) as ->.
    { unfold cr_add_interval. erewrite bind_run by reflexivity. cbn [st range len]. erewrite bind_run by reflexivity. cbn [st range size].
      rewrite Z.gtb_ltb, (proj2 (Z.ltb_lt _ _)) by lia. by rewrite Nat2Z.inj_add. }
    destruct (default true (head gs)) eqn:Eg.
    + erewrite bind_run by exact Hrun. cbn [Z.eqb negb]. rewrite length_app in Hn. destruct post' as [|x [|y post']]; [cbn in Hn; lia..|].
      exists 0, post', (tail gs), (l ++ [a; b]). erewrite bind_run by apply push_point_run. erewrite bind_run by apply push_point_run.
      rewrite <-app_assoc. split_and!; [done|destruct gs as [|g gs]; [done|by exists [g]]|by left].
    + destruct gs as [|g gs]; [done|]. cbn in Eg. subst g. exists (-1), post, gs, l. erewrite bind_run by exact Hrun.
      split_and!; [done|by exists [false]|right; split_and!; [done|done|left]].
  - exists 0. rewrite length_app in Hge. destruct post as [|x [|y post]]; [cbn in Hge; lia..|]. exists post, gs, (l ++ [a; b]).
    unfold cr_add_interval. erewrite bind_run by reflexivity. cbn [st range len]. erewrite bind_run by reflexivity. cbn [st range size].
    rewrite Z.gtb_ltb, (proj2 (Z.ltb_ge _ _)) by (rewrite length_app; lia). erewrite bind_run by reflexivity. cbn [Z.eqb negb].
    erewrite bind_run by apply push_point_run. erewrite bind_run by apply push_point_run. rewrite <-app_assoc. split_and!; [done|done|by left].
Qed.
End builds.

(** ** Membership *)

(** Intervals in order, none of them empty; they may touch. *)
Fixpoint ordered (from : Z) (ivs : list (Z * Z)) : Prop :=
  match ivs with [] => True | (a, b) :: ivs => from ≤ a ∧ a < b ∧ ordered b ivs end.
Fixpoint orderedb (from : Z) (ivs : list (Z * Z)) : bool :=
  match ivs with [] => true | (a, b) :: ivs => (from <=? a) && (a <? b) && orderedb b ivs end.

Lemma orderedb_spec from ivs : orderedb from ivs = true → ordered from ivs.
Proof.
  revert from. induction ivs as [|[a b] ivs IH]; intros from; [done|]. cbn. rewrite !andb_true_iff, Z.leb_le, Z.ltb_lt. intros [[? ?] ?]. auto.
Qed.

Lemma ordered_above from ivs : ordered from ivs → Forall (λ p, from ≤ p) (points_of ivs).
Proof.
  revert from. induction ivs as [|[a b] ivs IH]; intros from Hs; [constructor|]. destruct Hs as (H1 & H2 & H3). cbn. constructor; [done|]. constructor; [lia|].
  eapply Forall_impl; [by apply IH|]. intros p Hp. cbn in Hp. lia.
Qed.

Lemma ordered_increasing from ivs : ordered from ivs → increasing (points_of ivs).
Proof.
  revert from. induction ivs as [|[a b] ivs IH]; intros from Hs; [constructor|]. destruct Hs as (H1 & H2 & H3). cbn.
  pose proof (ordered_above b ivs H3) as Hb. constructor; [constructor; [by apply (IH b)|done]|]. constructor; [lia|].
  eapply Forall_impl; [exact Hb|]. intros p Hp. cbn in Hp |- *. lia.
Qed.

Lemma points_even ivs : Nat.even (length (points_of ivs)) = true.
Proof. rewrite points_length, Nat.even_mul. done. Qed.

Lemma member_points from ivs x : ordered from ivs → member (points_of ivs) x = true ↔ covers ivs x.
Proof.
  revert from. induction ivs as [|[a b] ivs IH]; intros from Hs; [unfold covers; rewrite Exists_nil; done|]. destruct Hs as (H1 & H2 & H3).
  unfold covers in *. rewrite Exists_cons, <-(IH b H3). cbn [points_of member fst snd].
  assert (x < b → member (points_of ivs) x = false) as Hlow.
  { intros Hx. apply member_none. eapply Forall_impl; [by apply (ordered_above b)|]. intros p Hp. cbn in Hp |- *. lia. }
  destruct (Z.leb_spec a x), (Z.leb_spec b x); [|rewrite Hlow by done|lia|rewrite Hlow by done]; cbn.
  - destruct (member (points_of ivs) x); cbn; (split; [try done; by right|intros [?|?]; [lia|done]]).
  - split; [by left|done].
  - split; [done|intros [?|?]; [lia|done]].
Qed.

Lemma ordered_lookup from ivs (i j : nat) p q : ordered from ivs → (i < j)%nat → ivs !! i = Some p → ivs !! j = Some q → p.2 ≤ q.1.
Proof.
  revert from i j. induction ivs as [|[a b] ivs IH]; intros from i j Hs Hij Hp Hq; [done|]. destruct Hs as (_ & _ & Hs).
  destruct j as [|j]; [lia|]. destruct i as [|i].
  - injection Hp as <-. pose proof (ordered_above b ivs Hs) as Hb. apply points_Forall in Hb. rewrite Forall_forall in Hb. by apply (Hb q), (list_elem_of_lookup_2 _ j).
  - apply (IH b i j); [done|lia|done|done].
Qed.

(** The points of a set in normal form, two by two. *)
Lemma normal_intervals l : normal_points l → ∃ ivs, l = points_of ivs ∧ ordered 0 ivs.
Proof.
  intros (Hs & He & Hf). assert (∀ from, Forall (λ p, from ≤ p) l → ∃ ivs, l = points_of ivs ∧ ordered from ivs) as Hgen.
  { clear Hf. remember (length l) as n eqn:Hn. revert l Hn Hs He. induction n as [n IH] using lt_wf_ind. intros l -> Hs He from Hfrom.
    destruct l as [|a [|b l]]; [by exists []|done|]. apply StronglySorted_inv in Hs as [Hs Ha]. pose proof Hs as Hs'. apply StronglySorted_inv in Hs as [Hs Hb].
    destruct (IH (length l) ltac:(cbn; lia) l eq_refl Hs He b) as (ivs & -> & Hivs); [eapply Forall_impl; [exact Hb|]; intros; cbn in *; lia|].
    exists ((a, b) :: ivs). split; [done|]. apply Forall_cons in Hfrom as [Hfa _]. apply Forall_cons in Ha as [Hab _]. done. }
  apply Hgen. eapply Forall_impl; [exact Hf|]. intros p Hp. cbn. unfold fits in Hp. lia.
Qed.

(** The members are code points under the greatest 32-bit value. *)
Lemma member_range l x : Nat.even (length l) = true → Forall (fits 32) l → member l x = true → 0 ≤ x < UINT32_MAX.
Proof.
  intros He Hf Hx. unfold UINT32_MAX. destruct (Z.lt_ge_cases x 0) as [Hneg|Hpos].
  - rewrite member_none in Hx; [done|]. eapply Forall_impl; [exact Hf|]. intros p Hp. cbn. unfold fits in Hp. lia.
  - destruct (Z.lt_ge_cases x (2 ^ 32 - 1)) as [|Hbig]; [lia|]. rewrite member_all, <-Nat.negb_even, He in Hx; [done|].
    eapply Forall_impl; [exact Hf|]. intros p Hp. cbn. unfold fits in Hp. lia.
Qed.

(** ** Local structures *)

Lemma on_range_run {A} r (m : M cr_mem A) s a s' :
  m {| range := r; grants := grants s |} = (Ok a, s') → on_range r m s = (Ok (a, range s'), {| range := range s; grants := grants s' |}).
Proof. intros E. unfold on_range. by rewrite E. Qed.
