(* ===== verification/CharRangeProps.v ===== *)
(** * Sets of code points: properties

    The operations of [CharRange.v] against sets of code points: what [cr_op]
    computes, and that the structure stays well formed, and keeps the set it
    stands for, through any calls. *)
From S2P Require Import Prelude CStd Words CUtils BigIntMp CharRange CharRangeFacts CharRangeBuild.
From Stdlib Require Import Sorted.

(** ** Well formed structures *)




(** ** Calls *)




Definition content (cr : CharRange) : list Z := take (Z.to_nat (len cr)) (points cr).







#[local] Instance junk : Realloc := {| fresh_point := λ i, Z.of_nat i |}.


Ltac small_points := split_and!; [repeat constructor; lia|reflexivity|repeat constructor; unfold fits; lia].

(** ** Properties *)

(** C32: [cr_op] is the operation on sets: from two arrays of increasing points in even number it makes the points of the union, of the intersection or of the symmetric difference, in normal form, no more than there were, and it returns -1 only when an allocation was refused. *)
Theorem cr_op_computes `{Realloc} op a aj b bj post gs :
  normal_points a → normal_points b → moderate (length a + length b) →
  ∃ r s', cr_op (a ++ aj) (Z.of_nat (length a)) (b ++ bj) (Z.of_nat (length b)) op (st [] post gs) = (Ok r, s') ∧
    (r = -1 ∧ false ∈ gs ∨
     r = 0 ∧ size (range s') = Z.of_nat (length (points (range s'))) ∧ normal_points (content (range s')) ∧
       (length (content (range s')) ≤ length a + length b)%nat ∧
       ∀ x, member (content (range s')) x = apply_op op (member a x) (member b x)).
Proof.
  intros (Ha & Hea & Hfa) (Hb & Heb & Hfb) Hmod.
  destruct (cr_op_grows op a aj b bj post gs) as (r & s' & E & _ & Hr); [by apply increasing_mono|by apply increasing_mono|by apply Forall_app_2|done..|].
  exists r, s'. split; [exact E|]. destruct Hr as [[-> (o & post' & gs' & -> & Hn & Hlen & Hm)]|[-> Hg]]; [right|by left].
  unfold content. cbn [st range len size points]. rewrite Nat2Z.id, take_app_length. by split_and!.
Qed.

(** The union of two sets with memory, and an intersection without. *)
Lemma cr_op_computes_witness :
  (∃ r s', cr_op ([65; 91; 97; 123] ++ [5]) 4 ([90; 98] ++ []) 2 CR_OP_UNION (st [] [] [true]) = (Ok r, s') ∧
    (r = -1 ∧ false ∈ [true] ∨
     r = 0 ∧ size (range s') = Z.of_nat (length (points (range s'))) ∧ normal_points (content (range s')) ∧
       (length (content (range s')) ≤ 6)%nat ∧
       ∀ x, member (content (range s')) x = member [65; 91; 97; 123] x || member [90; 98] x)) ∧
  cr_op [65; 91] 2 [90; 98] 2 CR_OP_INTER (st [] [] [false]) = (Ok (-1), st [] [] []).
Proof.
  split; [|vm_compute; reflexivity].
  refine (cr_op_computes CR_OP_UNION [65; 91; 97; 123] [5] [90; 98] [] [] [true] _ _ _); [small_points|small_points|unfold moderate; cbn; lia].
Defined.



(** C33: [cr_sort_and_remove_overlap] takes intervals in any order, which may overlap or meet, each not empty, and leaves the points of their union in normal form: sorted, apart, no more than there were, and a point is in the set when it was in one of the intervals. *)
Theorem cr_sort_and_remove_overlap_joins ps post gs :
  Forall (λ q, q.1 < q.2) ps → Forall (λ q, fits 32 q.1 ∧ fits 32 q.2) ps →
  ∃ s', cr_sort_and_remove_overlap (st (points_of ps) post gs) = (Ok tt, s') ∧ grants s' = gs ∧
    size (range s') = Z.of_nat (length (points (range s'))) ∧ normal_points (content (range s')) ∧
    (length (content (range s')) ≤ 2 * length ps)%nat ∧
    ∀ x, member (content (range s')) x = true ↔ Exists (λ q, q.1 ≤ x < q.2) ps.
Proof.
  intros Hlt Hfit. destruct (cr_sort_and_remove_overlap_run ps post gs Hlt Hfit) as (l & post' & E & Hn & Hlen & Hm).
  exists (st l post' gs). unfold content. cbn [st range len size points grants]. rewrite Nat2Z.id, take_app_length. rewrite points_length in Hlen. by split_and!.
Qed.

Definition folded : list (Z * Z) := [(40, 50); (1, 3); (2, 9); (60, 61); (9, 12); (45, 46)].

Lemma cr_sort_and_remove_overlap_joins_witness :
  (∃ s', cr_sort_and_remove_overlap (st (points_of folded) [77] []) = (Ok tt, s') ∧ grants s' = [] ∧
    size (range s') = Z.of_nat (length (points (range s'))) ∧ normal_points (content (range s')) ∧
    (length (content (range s')) ≤ 12)%nat ∧
    ∀ x, member (content (range s')) x = true ↔ Exists (λ q, q.1 ≤ x < q.2) folded) ∧
  content (range (cr_sort_and_remove_overlap (st (points_of folded) [77] [])).2) = [1; 12; 40; 50; 60; 61].
Proof.
  split; [|vm_compute; reflexivity].
  refine (cr_sort_and_remove_overlap_joins folded [77] [] _ _); unfold folded; repeat constructor; cbn; unfold fits; lia.
Defined.
