(* ===== verification/UniTable.v ===== *)
(** * Unicode tables

    The tables of [src/vendors/qjs/quickjs/libunicode-table.h] for the case
    conversion, the properties, the general categories and the scripts. *)
From S2P Require Import Prelude.

(** * Unicode tables: case conversion and properties

    The tables of [src/vendors/qjs/quickjs/libunicode-table.h] that the readers of
    [UniCase.v] and [UniProp.v] use, number for number: the runs of the case
    conversion, and the compressed sets of the binary properties with the indexes
    of those that are searched by code point. *)

(** A name table: entries separated by zeros, the names of an entry by commas. *)
Definition name_table (names : list string) : list Z := flat_map (λ s, chars s ++ [0]) names ++ [0].

(** ** Case conversion *)

Definition case_conv_table1 : list Z := [
  0x00209a30; 0x00309a00; 0x005a8173; 0x00601730; 0x006c0730; 0x006f81b3; 0x00701700; 0x007c0700; 0x007f8100; 0x00803040;
  0x009801c3; 0x00988190; 0x00990640; 0x009c9040; 0x00a481b4; 0x00a52e40; 0x00bc0130; 0x00bc8640; 0x00bf8170; 0x00c00100;
  0x00c08130; 0x00c10440; 0x00c30130; 0x00c38240; 0x00c48230; 0x00c58240; 0x00c70130; 0x00c78130; 0x00c80130; 0x00c88240;
  0x00c98130; 0x00ca0130; 0x00ca8100; 0x00cb0130; 0x00cb8130; 0x00cc0240; 0x00cd0100; 0x00cd8101; 0x00ce0130; 0x00ce8130;
  0x00cf0100; 0x00cf8130; 0x00d00640; 0x00d30130; 0x00d38240; 0x00d48130; 0x00d60240; 0x00d70130; 0x00d78240; 0x00d88230;
  0x00d98440; 0x00db8130; 0x00dc0240; 0x00de0240; 0x00df8100; 0x00e20350; 0x00e38350; 0x00e50350; 0x00e69040; 0x00ee8100;
  0x00ef1240; 0x00f801b4; 0x00f88350; 0x00fa0240; 0x00fb0130; 0x00fb8130; 0x00fc2840; 0x01100130; 0x01111240; 0x011d0131;
  0x011d8240; 0x011e8130; 0x011f0131; 0x011f8201; 0x01208240; 0x01218130; 0x01220130; 0x01228130; 0x01230a40; 0x01280101;
  0x01288101; 0x01290101; 0x01298100; 0x012a0100; 0x012b0200; 0x012c8100; 0x012d8100; 0x012e0101; 0x01300100; 0x01308101;
  0x01318100; 0x01320101; 0x01328101; 0x01330101; 0x01340100; 0x01348100; 0x01350101; 0x01358101; 0x01360101; 0x01378100;
  0x01388101; 0x01390100; 0x013a8100; 0x013e8101; 0x01400100; 0x01410101; 0x01418100; 0x01438101; 0x01440100; 0x01448100;
  0x01450200; 0x01460100; 0x01490100; 0x014e8101; 0x014f0101; 0x01a28173; 0x01b80440; 0x01bb0240; 0x01bd8300; 0x01bf8130;
  0x01c30130; 0x01c40330; 0x01c60130; 0x01c70230; 0x01c801d0; 0x01c89130; 0x01d18930; 0x01d60100; 0x01d68300; 0x01d801d3;
  0x01d89100; 0x01e10173; 0x01e18900; 0x01e60100; 0x01e68200; 0x01e78130; 0x01e80173; 0x01e88173; 0x01ea8173; 0x01eb0173;
  0x01eb8100; 0x01ec1840; 0x01f80173; 0x01f88173; 0x01f90100; 0x01f98100; 0x01fa01a0; 0x01fa8173; 0x01fb8240; 0x01fc8130;
  0x01fd0240; 0x01fe8330; 0x02001030; 0x02082030; 0x02182000; 0x02281000; 0x02302240; 0x02453640; 0x02600130; 0x02608e40;
  0x02678100; 0x02686040; 0x0298a630; 0x02b0a600; 0x02c381b5; 0x08502631; 0x08638131; 0x08668131; 0x08682b00; 0x087e8300;
  0x09d05011; 0x09f80610; 0x09fc0620; 0x0e400174; 0x0e408174; 0x0e410174; 0x0e418174; 0x0e420174; 0x0e428174; 0x0e430174;
  0x0e438180; 0x0e440180; 0x0e448240; 0x0e482b30; 0x0e5e8330; 0x0ebc8101; 0x0ebe8101; 0x0ec70101; 0x0f007e40; 0x0f3f1840;
  0x0f4b01b5; 0x0f4b81b6; 0x0f4c01b6; 0x0f4c81b6; 0x0f4d01b7; 0x0f4d8180; 0x0f4f0130; 0x0f506040; 0x0f800800; 0x0f840830;
  0x0f880600; 0x0f8c0630; 0x0f900800; 0x0f940830; 0x0f980800; 0x0f9c0830; 0x0fa00600; 0x0fa40630; 0x0fa801b0; 0x0fa88100;
  0x0fa901d3; 0x0fa98100; 0x0faa01d3; 0x0faa8100; 0x0fab01d3; 0x0fab8100; 0x0fac8130; 0x0fad8130; 0x0fae8130; 0x0faf8130;
  0x0fb00800; 0x0fb40830; 0x0fb80200; 0x0fb90400; 0x0fbb0201; 0x0fbc0201; 0x0fbd0201; 0x0fbe0201; 0x0fc008b7; 0x0fc40867;
  0x0fc808b8; 0x0fcc0868; 0x0fd008b8; 0x0fd40868; 0x0fd80200; 0x0fd901b9; 0x0fd981b1; 0x0fda01b9; 0x0fdb01b1; 0x0fdb81d7;
  0x0fdc0230; 0x0fdd0230; 0x0fde0161; 0x0fdf0173; 0x0fe101b9; 0x0fe181b2; 0x0fe201ba; 0x0fe301b2; 0x0fe381d8; 0x0fe40430;
  0x0fe60162; 0x0fe80201; 0x0fe901d0; 0x0fe981d0; 0x0feb01b0; 0x0feb81d0; 0x0fec0230; 0x0fed0230; 0x0ff00201; 0x0ff101d3;
  0x0ff181d3; 0x0ff201ba; 0x0ff28101; 0x0ff301b0; 0x0ff381d3; 0x0ff40231; 0x0ff50230; 0x0ff60131; 0x0ff901ba; 0x0ff981b2;
  0x0ffa01bb; 0x0ffb01b2; 0x0ffb81d9; 0x0ffc0230; 0x0ffd0230; 0x0ffe0162; 0x109301a0; 0x109501a0; 0x109581a0; 0x10990131;
  0x10a70101; 0x10b01031; 0x10b81001; 0x10c18240; 0x125b1a31; 0x12681a01; 0x16003031; 0x16183001; 0x16300240; 0x16310130;
  0x16318130; 0x16320130; 0x16328100; 0x16330100; 0x16338640; 0x16368130; 0x16370130; 0x16378130; 0x16380130; 0x16390240;
  0x163a8240; 0x163f0230; 0x16406440; 0x16758440; 0x16790240; 0x16802600; 0x16938100; 0x16968100; 0x53202e40; 0x53401c40;
  0x53910e40; 0x53993e40; 0x53bc8440; 0x53be8130; 0x53bf0a40; 0x53c58240; 0x53c68130; 0x53c80440; 0x53ca0101; 0x53cb1440;
  0x53d50130; 0x53d58130; 0x53d60130; 0x53d68130; 0x53d70130; 0x53d80130; 0x53d88130; 0x53d90130; 0x53d98131; 0x53da1040;
  0x53e20131; 0x53e28130; 0x53e30130; 0x53e38440; 0x53e58130; 0x53e60240; 0x53e80240; 0x53eb0640; 0x53ee0130; 0x53fa8240;
  0x55a98101; 0x55b85020; 0x7d8001b2; 0x7d8081b2; 0x7d8101b2; 0x7d8181da; 0x7d8201da; 0x7d8281b3; 0x7d8301b3; 0x7d8981bb;
  0x7d8a01bb; 0x7d8a81bb; 0x7d8b01bc; 0x7d8b81bb; 0x7f909a31; 0x7fa09a01; 0x82002831; 0x82142801; 0x82582431; 0x826c2401;
  0x82b80b31; 0x82be0f31; 0x82c60731; 0x82ca0231; 0x82cb8b01; 0x82d18f01; 0x82d98701; 0x82dd8201; 0x86403331; 0x86603301;
  0x86a81631; 0x86b81601; 0x8c502031; 0x8c602001; 0xb7202031; 0xb7302001; 0xf4802231; 0xf4912201].

Definition case_conv_table2 : list Z := [
  0x01; 0x00; 0x9c; 0x06; 0x07; 0x4d; 0x03; 0x04; 0x10; 0x00; 0x8f; 0x0b; 0x00; 0x00; 0x11; 0x00;
  0x08; 0x00; 0x53; 0x4b; 0x52; 0x00; 0x53; 0x00; 0x54; 0x00; 0x3b; 0x55; 0x56; 0x00; 0x58; 0x5a;
  0x40; 0x5f; 0x5e; 0x00; 0x47; 0x52; 0x63; 0x65; 0x43; 0x66; 0x00; 0x68; 0x00; 0x6a; 0x00; 0x6c;
  0x00; 0x6e; 0x00; 0x70; 0x00; 0x00; 0x41; 0x00; 0x00; 0x00; 0x00; 0x1a; 0x00; 0x93; 0x00; 0x00;
  0x20; 0x36; 0x00; 0x28; 0x00; 0x24; 0x00; 0x24; 0x25; 0x2d; 0x00; 0x13; 0x6d; 0x6f; 0x00; 0x29;
  0x27; 0x2a; 0x14; 0x16; 0x18; 0x1b; 0x1c; 0x41; 0x1e; 0x42; 0x1f; 0x4e; 0x3c; 0x40; 0x22; 0x21;
  0x44; 0x21; 0x43; 0x26; 0x28; 0x27; 0x29; 0x23; 0x2b; 0x4b; 0x2d; 0x46; 0x2f; 0x4c; 0x31; 0x4d;
  0x33; 0x47; 0x45; 0x99; 0x00; 0x00; 0x97; 0x91; 0x7f; 0x80; 0x85; 0x86; 0x12; 0x82; 0x84; 0x78;
  0x79; 0x12; 0x7d; 0xa3; 0x7e; 0x7a; 0x7b; 0x8c; 0x92; 0x98; 0xa6; 0xa0; 0x87; 0x00; 0x9a; 0xa1;
  0x95; 0x77; 0x33; 0x95; 0x00; 0x90; 0x00; 0x76; 0x9b; 0x9a; 0x99; 0x98; 0x00; 0x00; 0xa0; 0x00;
  0x9e; 0x00; 0xa3; 0xa2; 0x15; 0x31; 0x32; 0x33; 0xb7; 0xb8; 0x55; 0xac; 0xab; 0x12; 0x14; 0x1e;
  0x21; 0x22; 0x22; 0x2a; 0x34; 0x35; 0x00; 0xa8; 0xa9; 0x39; 0x22; 0x4c; 0x00; 0x00; 0x97; 0x01;
  0x5a; 0xda; 0x1d; 0x36; 0x05; 0x00; 0xc7; 0xc6; 0xc9; 0xc8; 0xcb; 0xca; 0xcd; 0xcc; 0xcf; 0xce;
  0xc4; 0xd8; 0x45; 0xd9; 0x42; 0xda; 0x46; 0xdb; 0xd1; 0xd3; 0xd5; 0xd7; 0xdd; 0xdc; 0xf1; 0xf9;
  0x01; 0x11; 0x0a; 0x12; 0x80; 0x9f; 0x00; 0x21; 0x80; 0xa3; 0xf0; 0x00; 0xc0; 0x40; 0xc6; 0x60;
  0xea; 0xde; 0xe6; 0x99; 0xc0; 0x00; 0x00; 0x06; 0x60; 0xdf; 0x29; 0x00; 0x15; 0x12; 0x06; 0x16;
  0xfb; 0xe0; 0x09; 0x15; 0x12; 0x84; 0x0b; 0xc6; 0x16; 0x02; 0xe2; 0x06; 0xc0; 0x40; 0x00; 0x46;
  0x60; 0xe1; 0xe3; 0x6d; 0x37; 0x38; 0x39; 0x18; 0x17; 0x1a; 0x19; 0x00; 0x1d; 0x1c; 0x1f; 0x1e;
  0x00; 0x61; 0xba; 0x67; 0x45; 0x48; 0x00; 0x50; 0x64; 0x4f; 0x51; 0x00; 0x00; 0x49; 0x00; 0x00;
  0x00; 0xa5; 0xa6; 0xa7; 0x00; 0x00; 0x00; 0x00; 0x00; 0xb9; 0x00; 0x00; 0x5c; 0x00; 0x4a; 0x00;
  0x5d; 0x57; 0x59; 0x62; 0x60; 0x72; 0x6b; 0x71; 0x54; 0x00; 0x3e; 0x69; 0xbb; 0x00; 0x5b; 0x00;
  0x00; 0x00; 0x25; 0x00; 0x48; 0xaa; 0x8a; 0x8b; 0x8c; 0xab; 0xac; 0x58; 0x58; 0xaf; 0x94; 0xb0;
  0x6f; 0xb2; 0x63; 0x62; 0x65; 0x64; 0x67; 0x66; 0x6c; 0x6d; 0x6e; 0x6f; 0x68; 0x69; 0x6a; 0x6b;
  0x71; 0x70; 0x73; 0x72; 0x75; 0x74; 0x77; 0x76; 0x79; 0x78].

Definition case_conv_ext : list Z := [
  0x0399; 0x0308; 0x0301; 0x03a5; 0x0313; 0x0300; 0x0342; 0x0391; 0x0397; 0x03a9;
  0x0046; 0x0049; 0x004c; 0x0053; 0x0069; 0x0307; 0x02bc; 0x004e; 0x004a; 0x030c;
  0x0535; 0x0552; 0x0048; 0x0331; 0x0054; 0x0057; 0x030a; 0x0059; 0x0041; 0x02be;
  0x1f08; 0x1f80; 0x1f28; 0x1f90; 0x1f68; 0x1fa0; 0x1fba; 0x0386; 0x1fb3; 0x1fca;
  0x0389; 0x1fc3; 0x03a1; 0x1ffa; 0x038f; 0x1ff3; 0x0544; 0x0546; 0x053b; 0x054e;
  0x053d; 0x03b8; 0x0462; 0xa64a; 0x1e60; 0x03c9; 0x006b; 0x00e5].

(** ** Properties searched by code point *)

Definition unicode_prop_Cased1_table : list Z := [
  0x40; 0xa9; 0x80; 0x8e; 0x80; 0xfc; 0x80; 0xd3; 0x80; 0x9b; 0x81; 0x8d; 0x02; 0x80; 0xe1; 0x80;
  0x91; 0x85; 0x9a; 0x01; 0x00; 0x01; 0x11; 0x03; 0x04; 0x08; 0x01; 0x08; 0x30; 0x08; 0x01; 0x15;
  0x20; 0x00; 0x39; 0x99; 0x31; 0x9d; 0x84; 0x40; 0x94; 0x80; 0xd6; 0x82; 0xa6; 0x80; 0x41; 0x62;
  0x80; 0xa6; 0x80; 0x4b; 0x72; 0x80; 0x4c; 0x02; 0xf8; 0x02; 0x80; 0x8f; 0x80; 0xb0; 0x40; 0xdb;
  0x08; 0x80; 0x41; 0xd0; 0x80; 0x8c; 0x80; 0x8f; 0x8c; 0xe4; 0x03; 0x01; 0x89; 0x00; 0x14; 0x28;
  0x10; 0x11; 0x02; 0x01; 0x18; 0x0b; 0x24; 0x4b; 0x26; 0x01; 0x01; 0x86; 0xe5; 0x80; 0x60; 0x79;
  0xb6; 0x81; 0x40; 0x91; 0x81; 0xbd; 0x88; 0x94; 0x05; 0x80; 0x98; 0x80; 0xa2; 0x00; 0x80; 0x9b;
  0x12; 0x82; 0x43; 0x34; 0xa2; 0x06; 0x80; 0x8d; 0x60; 0x5c; 0x15; 0x01; 0x10; 0xa9; 0x80; 0x88;
  0x60; 0xcc; 0x44; 0xd4; 0x80; 0xc6; 0x01; 0x08; 0x09; 0x0b; 0x80; 0x8b; 0x00; 0x06; 0x80; 0xc0;
  0x03; 0x0f; 0x06; 0x80; 0x9b; 0x03; 0x04; 0x00; 0x16; 0x80; 0x41; 0x53; 0x81; 0x98; 0x80; 0x98;
  0x80; 0x9e; 0x80; 0x98; 0x80; 0x9e; 0x80; 0x98; 0x80; 0x9e; 0x80; 0x98; 0x80; 0x9e; 0x80; 0x98;
  0x07; 0x47; 0x33; 0x89; 0x80; 0x93; 0x2d; 0x41; 0x04; 0xbd; 0x50; 0xc1; 0x99; 0x85; 0x99; 0x85;
  0x99].

Definition unicode_prop_Cased1_index : list Z := [
  0xb9; 0x02; 0x80; 0xa0; 0x1e; 0x40; 0x9e; 0xa6; 0x40; 0xbb; 0x07; 0x01; 0xdb; 0xd6; 0x01; 0x8a;
  0xf1; 0x01].

Definition unicode_prop_Case_Ignorable_table : list Z := [
  0xa6; 0x05; 0x80; 0x8a; 0x80; 0xa2; 0x00; 0x80; 0xc6; 0x03; 0x00; 0x03; 0x01; 0x81; 0x41; 0xf6;
  0x40; 0xbf; 0x19; 0x18; 0x88; 0x08; 0x80; 0x40; 0xfa; 0x86; 0x40; 0xce; 0x04; 0x80; 0xb0; 0xac;
  0x00; 0x01; 0x01; 0x00; 0xab; 0x80; 0x8a; 0x85; 0x89; 0x8a; 0x00; 0xa2; 0x80; 0x89; 0x94; 0x8f;
  0x80; 0xe4; 0x38; 0x89; 0x03; 0xa0; 0x00; 0x80; 0x9d; 0x9a; 0xda; 0x8a; 0xb9; 0x8a; 0x18; 0x08;
  0x97; 0x97; 0xaa; 0x82; 0xab; 0x06; 0x0c; 0x88; 0xa8; 0xb9; 0xb6; 0x00; 0x03; 0x3b; 0x02; 0x86;
  0x89; 0x81; 0x8c; 0x80; 0x8e; 0x80; 0xb9; 0x03; 0x1f; 0x80; 0x93; 0x81; 0x99; 0x01; 0x81; 0xb8;
  0x03; 0x0b; 0x09; 0x12; 0x80; 0x9d; 0x0a; 0x80; 0x8a; 0x81; 0xb8; 0x03; 0x20; 0x0b; 0x80; 0x93;
  0x81; 0x95; 0x28; 0x80; 0xb9; 0x01; 0x00; 0x1f; 0x06; 0x81; 0x8a; 0x81; 0x9d; 0x80; 0xbc; 0x80;
  0x8b; 0x80; 0xb1; 0x02; 0x80; 0xb6; 0x00; 0x14; 0x10; 0x1e; 0x81; 0x8a; 0x81; 0x9c; 0x80; 0xb9;
  0x01; 0x05; 0x04; 0x81; 0x93; 0x81; 0x9b; 0x81; 0xb8; 0x0b; 0x1f; 0x80; 0x93; 0x81; 0x9c; 0x80;
  0xc7; 0x06; 0x10; 0x80; 0xd9; 0x01; 0x86; 0x8a; 0x88; 0xe1; 0x01; 0x88; 0x88; 0x00; 0x86; 0xc8;
  0x81; 0x9a; 0x00; 0x00; 0x80; 0xb6; 0x8d; 0x04; 0x01; 0x84; 0x8a; 0x80; 0xa3; 0x88; 0x80; 0xe5;
  0x18; 0x28; 0x09; 0x81; 0x98; 0x0b; 0x82; 0x8f; 0x83; 0x8c; 0x01; 0x0d; 0x80; 0x8e; 0x80; 0xdd;
  0x80; 0x42; 0x5f; 0x82; 0x43; 0xb1; 0x82; 0x9c; 0x81; 0x9d; 0x81; 0x9d; 0x81; 0xbf; 0x08; 0x37;
  0x01; 0x8a; 0x10; 0x20; 0xac; 0x84; 0xb2; 0x80; 0xc0; 0x81; 0xa1; 0x80; 0xf5; 0x13; 0x81; 0x88;
  0x05; 0x82; 0x40; 0xda; 0x09; 0x80; 0xb9; 0x00; 0x30; 0x00; 0x01; 0x3d; 0x89; 0x08; 0xa6; 0x07;
  0x9e; 0xb0; 0x83; 0xaf; 0x00; 0x20; 0x04; 0x80; 0xa7; 0x88; 0x8b; 0x81; 0x9f; 0x19; 0x08; 0x82;
  0xb7; 0x00; 0x0a; 0x00; 0x82; 0xb9; 0x39; 0x81; 0xbf; 0x85; 0xd1; 0x10; 0x8c; 0x06; 0x18; 0x28;
  0x11; 0xb1; 0xbe; 0x8c; 0x80; 0xa1; 0xe4; 0x41; 0xbc; 0x00; 0x82; 0x8a; 0x82; 0x8c; 0x82; 0x8c;
  0x82; 0x8c; 0x81; 0x8b; 0x27; 0x81; 0x89; 0x01; 0x01; 0x84; 0xb0; 0x20; 0x89; 0x00; 0x8c; 0x80;
  0x8f; 0x8c; 0xb2; 0xa0; 0x4b; 0x8a; 0x81; 0xf0; 0x82; 0xfc; 0x80; 0x8e; 0x80; 0xdf; 0x9f; 0xae;
  0x80; 0x41; 0xd4; 0x80; 0xa3; 0x1a; 0x24; 0x80; 0xdc; 0x85; 0xdc; 0x82; 0x60; 0x6f; 0x15; 0x80;
  0x44; 0xe1; 0x85; 0x41; 0x0d; 0x80; 0xe1; 0x18; 0x89; 0x00; 0x9b; 0x83; 0xcf; 0x81; 0x8d; 0xa1;
  0xcd; 0x80; 0x96; 0x82; 0xe6; 0x12; 0x0f; 0x02; 0x03; 0x80; 0x98; 0x0c; 0x80; 0x40; 0x96; 0x81;
  0x99; 0x91; 0x8c; 0x80; 0xa5; 0x87; 0x98; 0x8a; 0xad; 0x82; 0xaf; 0x01; 0x19; 0x81; 0x90; 0x80;
  0x94; 0x81; 0xc1; 0x29; 0x09; 0x81; 0x8b; 0x07; 0x80; 0xa2; 0x80; 0x8a; 0x80; 0xb2; 0x00; 0x11;
  0x0c; 0x08; 0x80; 0x9a; 0x80; 0x8d; 0x0c; 0x08; 0x80; 0xe3; 0x84; 0x88; 0x82; 0xf8; 0x01; 0x03;
  0x80; 0x60; 0x4f; 0x2f; 0x80; 0x40; 0x92; 0x90; 0x42; 0x3c; 0x8f; 0x10; 0x8b; 0x8f; 0xa1; 0x01;
  0x80; 0x40; 0xa8; 0x06; 0x05; 0x80; 0x8a; 0x80; 0xa2; 0x00; 0x80; 0xae; 0x80; 0xac; 0x81; 0xc2;
  0x80; 0x94; 0x82; 0x42; 0x00; 0x80; 0x40; 0xe1; 0x80; 0x40; 0x94; 0x84; 0x44; 0x04; 0x28; 0xa9;
  0x80; 0x88; 0x42; 0x45; 0x10; 0x0c; 0x83; 0xa7; 0x13; 0x80; 0x40; 0xa4; 0x81; 0x42; 0x3c; 0x83;
  0xa5; 0x80; 0x99; 0x20; 0x80; 0x41; 0x3a; 0x81; 0xce; 0x83; 0xc5; 0x8a; 0xb0; 0x83; 0xfa; 0x80;
  0xb5; 0x8e; 0xa8; 0x01; 0x81; 0x89; 0x82; 0xb0; 0x19; 0x09; 0x03; 0x80; 0x89; 0x80; 0xb1; 0x82;
  0xa3; 0x20; 0x87; 0xbd; 0x80; 0x8b; 0x81; 0xb3; 0x88; 0x89; 0x19; 0x80; 0xde; 0x11; 0x00; 0x0d;
  0x01; 0x80; 0x40; 0x9c; 0x02; 0x87; 0x94; 0x81; 0xb8; 0x0a; 0x80; 0xa4; 0x32; 0x84; 0xc5; 0x85;
  0x8c; 0x00; 0x00; 0x80; 0x8d; 0x81; 0xd4; 0x39; 0x10; 0x80; 0x96; 0x80; 0xd3; 0x28; 0x03; 0x08;
  0x81; 0x40; 0xed; 0x1d; 0x08; 0x81; 0x9a; 0x81; 0xd4; 0x39; 0x00; 0x81; 0xe9; 0x00; 0x01; 0x28;
  0x80; 0xe4; 0x00; 0x01; 0x18; 0x84; 0x41; 0x02; 0x88; 0x01; 0x40; 0xff; 0x08; 0x03; 0x80; 0x40;
  0x8f; 0x19; 0x0b; 0x80; 0x9f; 0x89; 0xa7; 0x29; 0x1f; 0x80; 0x88; 0x29; 0x82; 0xad; 0x8c; 0x01;
  0x41; 0x95; 0x30; 0x28; 0x80; 0xd1; 0x95; 0x0e; 0x01; 0x01; 0xf9; 0x2a; 0x00; 0x08; 0x30; 0x80;
  0xc7; 0x0a; 0x00; 0x80; 0x41; 0x5a; 0x81; 0x8a; 0x81; 0xb3; 0x24; 0x00; 0x80; 0x96; 0x80; 0x54;
  0xd4; 0x90; 0x85; 0x8e; 0x60; 0x2c; 0xc7; 0x8b; 0x12; 0x49; 0xbf; 0x84; 0xba; 0x86; 0x88; 0x83;
  0x41; 0xfb; 0x82; 0xa7; 0x81; 0x41; 0xe1; 0x80; 0xbe; 0x90; 0xbf; 0x08; 0x81; 0x60; 0x40; 0x0a;
  0x18; 0x30; 0x81; 0x4c; 0x9d; 0x08; 0x83; 0x52; 0x5b; 0xad; 0x81; 0x96; 0x42; 0x1f; 0x82; 0x88;
  0x8f; 0x0e; 0x9d; 0x83; 0x40; 0x93; 0x82; 0x47; 0xba; 0xb6; 0x83; 0xb1; 0x38; 0x8d; 0x80; 0x95;
  0x20; 0x8e; 0x45; 0x4f; 0x30; 0x90; 0x0e; 0x01; 0x04; 0x84; 0xbd; 0xa0; 0x80; 0x40; 0x9f; 0x8d;
  0x41; 0x6f; 0x80; 0xbc; 0x83; 0x41; 0xfa; 0x84; 0x40; 0xfd; 0x81; 0x42; 0xdf; 0x86; 0xec; 0x87;
  0x4a; 0xae; 0x84; 0x6c; 0x0c; 0x00; 0x80; 0x9d; 0xdf; 0xff; 0x40; 0xef].

Definition unicode_prop_Case_Ignorable_index : list Z := [
  0xbe; 0x05; 0x00; 0xfe; 0x07; 0x00; 0x52; 0x0a; 0xa0; 0xc1; 0x0b; 0x00; 0x82; 0x0d; 0x00; 0x3f;
  0x10; 0x80; 0xd4; 0x17; 0x40; 0xcf; 0x1a; 0x20; 0xf5; 0x1c; 0x00; 0x80; 0x20; 0x00; 0x16; 0xa0;
  0x00; 0xc6; 0xa8; 0x00; 0xc2; 0xaa; 0x60; 0x56; 0xfe; 0x20; 0xb1; 0x07; 0x01; 0x02; 0x10; 0x01;
  0x42; 0x12; 0x41; 0xc4; 0x14; 0x21; 0xe1; 0x19; 0x81; 0x48; 0x1d; 0x01; 0x44; 0x6b; 0x01; 0x83;
  0xd1; 0x21; 0x3e; 0xe1; 0x01; 0xf0; 0x01; 0x0e].

Definition unicode_prop_ID_Start_table : list Z := [
  0xc0; 0x99; 0x85; 0x99; 0xae; 0x80; 0x89; 0x03; 0x04; 0x96; 0x80; 0x9e; 0x80; 0x41; 0xc9; 0x83;
  0x8b; 0x8d; 0x26; 0x00; 0x80; 0x40; 0x80; 0x20; 0x09; 0x18; 0x05; 0x00; 0x10; 0x00; 0x93; 0x80;
  0xd2; 0x80; 0x40; 0x8a; 0x87; 0x40; 0xa5; 0x80; 0xa5; 0x08; 0x85; 0xa8; 0xc6; 0x9a; 0x1b; 0xac;
  0xaa; 0xa2; 0x08; 0xe2; 0x00; 0x8e; 0x0e; 0x81; 0x89; 0x11; 0x80; 0x8f; 0x00; 0x9d; 0x9c; 0xd8;
  0x8a; 0x80; 0x97; 0xa0; 0x88; 0x0b; 0x04; 0x95; 0x18; 0x88; 0x02; 0x80; 0x96; 0x98; 0x86; 0x8a;
  0x84; 0x97; 0x05; 0x90; 0xa9; 0xb9; 0xb5; 0x10; 0x91; 0x06; 0x89; 0x8e; 0x8f; 0x1f; 0x09; 0x81;
  0x95; 0x06; 0x00; 0x13; 0x10; 0x8f; 0x80; 0x8c; 0x08; 0x82; 0x8d; 0x81; 0x89; 0x07; 0x2b; 0x09;
  0x95; 0x06; 0x01; 0x01; 0x01; 0x9e; 0x18; 0x80; 0x92; 0x82; 0x8f; 0x88; 0x02; 0x80; 0x95; 0x06;
  0x01; 0x04; 0x10; 0x91; 0x80; 0x8e; 0x81; 0x96; 0x80; 0x8a; 0x39; 0x09; 0x95; 0x06; 0x01; 0x04;
  0x10; 0x9d; 0x08; 0x82; 0x8e; 0x80; 0x90; 0x00; 0x2a; 0x10; 0x1a; 0x08; 0x00; 0x0a; 0x0a; 0x12;
  0x8b; 0x95; 0x80; 0xb3; 0x38; 0x10; 0x96; 0x80; 0x8f; 0x10; 0x99; 0x11; 0x01; 0x81; 0x9d; 0x03;
  0x38; 0x10; 0x96; 0x80; 0x89; 0x04; 0x10; 0x9e; 0x08; 0x81; 0x8e; 0x81; 0x90; 0x88; 0x02; 0x80;
  0xa8; 0x08; 0x8f; 0x04; 0x17; 0x82; 0x97; 0x2c; 0x91; 0x82; 0x97; 0x80; 0x88; 0x00; 0x0e; 0xb9;
  0xaf; 0x01; 0x8b; 0x86; 0xb9; 0x08; 0x00; 0x20; 0x97; 0x00; 0x80; 0x89; 0x01; 0x88; 0x01; 0x20;
  0x80; 0x94; 0x83; 0x9f; 0x80; 0xbe; 0x38; 0xa3; 0x9a; 0x84; 0xf2; 0xaa; 0x93; 0x80; 0x8f; 0x2b;
  0x1a; 0x02; 0x0e; 0x13; 0x8c; 0x8b; 0x80; 0x90; 0xa5; 0x00; 0x20; 0x81; 0xaa; 0x80; 0x41; 0x4c;
  0x03; 0x0e; 0x00; 0x03; 0x81; 0xa8; 0x03; 0x81; 0xa0; 0x03; 0x0e; 0x00; 0x03; 0x81; 0x8e; 0x80;
  0xb8; 0x03; 0x81; 0xc2; 0xa4; 0x8f; 0x8f; 0xd5; 0x0d; 0x82; 0x42; 0x6b; 0x81; 0x90; 0x80; 0x99;
  0x84; 0xca; 0x82; 0x8a; 0x86; 0x91; 0x8c; 0x92; 0x8d; 0x91; 0x8d; 0x8c; 0x02; 0x8e; 0xb3; 0xa2;
  0x03; 0x80; 0xc2; 0xd8; 0x86; 0xa8; 0x00; 0x84; 0xc5; 0x89; 0x9e; 0xb0; 0x9d; 0x0c; 0x8a; 0xab;
  0x83; 0x99; 0xb5; 0x96; 0x88; 0xb4; 0xd1; 0x80; 0xdc; 0xae; 0x90; 0x87; 0xb5; 0x9d; 0x8c; 0x81;
  0x89; 0xab; 0x99; 0xa3; 0xa8; 0x82; 0x89; 0xa3; 0x81; 0x8a; 0x84; 0xaa; 0x0a; 0xa8; 0x18; 0x28;
  0x0a; 0x04; 0x40; 0xbf; 0xbf; 0x41; 0x15; 0x0d; 0x81; 0xa5; 0x0d; 0x0f; 0x00; 0x00; 0x00; 0x80;
  0x9e; 0x81; 0xb4; 0x06; 0x00; 0x12; 0x06; 0x13; 0x0d; 0x83; 0x8c; 0x22; 0x06; 0xf3; 0x80; 0x8c;
  0x80; 0x8f; 0x8c; 0xe4; 0x03; 0x01; 0x89; 0x00; 0x0d; 0x28; 0x00; 0x00; 0x80; 0x8f; 0x0b; 0x24;
  0x18; 0x90; 0xa8; 0x4a; 0x76; 0x40; 0xe4; 0x2b; 0x11; 0x8b; 0xa5; 0x00; 0x20; 0x81; 0xb7; 0x30;
  0x8f; 0x96; 0x88; 0x30; 0x30; 0x30; 0x30; 0x30; 0x30; 0x30; 0x86; 0x42; 0x25; 0x82; 0x98; 0x88;
  0x34; 0x0c; 0x83; 0xd5; 0x1c; 0x80; 0xd9; 0x03; 0x84; 0xaa; 0x80; 0xdd; 0x90; 0x9f; 0xaf; 0x8f;
  0x41; 0xff; 0x59; 0xbf; 0xbf; 0x60; 0x56; 0x8c; 0xc2; 0xad; 0x81; 0x41; 0x0c; 0x82; 0x8f; 0x89;
  0x81; 0x93; 0xae; 0x8f; 0x9e; 0x81; 0xcf; 0xa6; 0x88; 0x81; 0xe6; 0x81; 0xc2; 0x09; 0x00; 0x07;
  0x94; 0x8f; 0x02; 0x03; 0x80; 0x96; 0x9c; 0xb3; 0x8d; 0xb1; 0xbd; 0x2a; 0x00; 0x81; 0x8a; 0x9b;
  0x89; 0x96; 0x98; 0x9c; 0x86; 0xae; 0x9b; 0x80; 0x8f; 0x20; 0x89; 0x89; 0x20; 0xa8; 0x96; 0x10;
  0x87; 0x93; 0x96; 0x10; 0x82; 0xb1; 0x00; 0x11; 0x0c; 0x08; 0x00; 0x97; 0x11; 0x8a; 0x32; 0x8b;
  0x29; 0x29; 0x85; 0x88; 0x30; 0x30; 0xaa; 0x80; 0x8d; 0x85; 0xf2; 0x9c; 0x60; 0x2b; 0xa3; 0x8b;
  0x96; 0x83; 0xb0; 0x60; 0x21; 0x03; 0x41; 0x6d; 0x81; 0xe9; 0xa5; 0x86; 0x8b; 0x24; 0x00; 0x89;
  0x80; 0x8c; 0x04; 0x00; 0x01; 0x01; 0x80; 0xeb; 0xa0; 0x41; 0x6a; 0x91; 0xbf; 0x81; 0xb5; 0xa7;
  0x8b; 0xf3; 0x20; 0x40; 0x86; 0xa3; 0x99; 0x85; 0x99; 0x8a; 0xd8; 0x15; 0x0d; 0x0d; 0x0a; 0xa2;
  0x8b; 0x80; 0x99; 0x80; 0x92; 0x01; 0x80; 0x8e; 0x81; 0x8d; 0xa1; 0xfa; 0xc4; 0xb4; 0x41; 0x0a;
  0x9c; 0x82; 0xb0; 0xae; 0x9f; 0x8c; 0x9d; 0x84; 0xa5; 0x89; 0x9d; 0x81; 0xa3; 0x1f; 0x04; 0xa9;
  0x40; 0x9d; 0x91; 0xa3; 0x83; 0xa3; 0x83; 0xa7; 0x87; 0xb3; 0x8b; 0x8a; 0x80; 0x8e; 0x06; 0x01;
  0x80; 0x8a; 0x80; 0x8e; 0x06; 0x01; 0x82; 0xb3; 0x8b; 0x41; 0x36; 0x88; 0x95; 0x89; 0x87; 0x97;
  0x28; 0xa9; 0x80; 0x88; 0xc4; 0x29; 0x00; 0xab; 0x01; 0x10; 0x81; 0x96; 0x89; 0x96; 0x88; 0x9e;
  0xc0; 0x92; 0x01; 0x89; 0x95; 0x89; 0x99; 0xc5; 0xb7; 0x29; 0xbf; 0x80; 0x8e; 0x18; 0x10; 0x9c;
  0xa9; 0x9c; 0x82; 0x9c; 0xa2; 0x38; 0x9b; 0x9a; 0xb5; 0x89; 0x95; 0x89; 0x92; 0x8c; 0x91; 0xed;
  0xc8; 0xb6; 0xb2; 0x8c; 0xb2; 0x8c; 0xa3; 0xa5; 0x9b; 0x88; 0x96; 0x40; 0xf9; 0xa9; 0x29; 0x8f;
  0x82; 0xba; 0x9c; 0x89; 0x07; 0x95; 0xa9; 0x91; 0xad; 0x94; 0x9a; 0x96; 0x8b; 0xb4; 0xb8; 0x09;
  0x80; 0x8c; 0xac; 0x9f; 0x98; 0x99; 0xa3; 0x9c; 0x01; 0x07; 0xa2; 0x10; 0x8b; 0xaf; 0x8d; 0x83;
  0x94; 0x00; 0x80; 0xa2; 0x91; 0x80; 0x98; 0x92; 0x81; 0xbe; 0x30; 0x00; 0x18; 0x8e; 0x80; 0x89;
  0x86; 0xae; 0xa5; 0x39; 0x09; 0x95; 0x06; 0x01; 0x04; 0x10; 0x91; 0x80; 0x8b; 0x84; 0x9d; 0x89;
  0x00; 0x08; 0x80; 0xa5; 0x00; 0x98; 0x00; 0x80; 0xab; 0xb4; 0x91; 0x83; 0x93; 0x82; 0x9d; 0xaf;
  0x93; 0x08; 0x80; 0x40; 0xb7; 0xae; 0xa8; 0x83; 0xa3; 0xaf; 0x93; 0x80; 0xba; 0xaa; 0x8c; 0x80;
  0xc6; 0x9a; 0xa4; 0x86; 0x40; 0xb8; 0xab; 0xf3; 0xbf; 0x9e; 0x39; 0x01; 0x38; 0x08; 0x97; 0x8e;
  0x00; 0x80; 0xdd; 0x39; 0xa6; 0x8f; 0x00; 0x80; 0x9b; 0x80; 0x89; 0xa7; 0x30; 0x94; 0x80; 0x8a;
  0xad; 0x92; 0x80; 0x91; 0xc8; 0x40; 0xc6; 0xa0; 0x9e; 0x88; 0x80; 0xa4; 0x90; 0x80; 0xb0; 0x9d;
  0xef; 0x30; 0x08; 0xa5; 0x94; 0x80; 0x98; 0x28; 0x08; 0x9f; 0x8d; 0x80; 0x41; 0x46; 0x92; 0x8e;
  0x00; 0x8c; 0x80; 0xa1; 0xfb; 0x80; 0xce; 0x43; 0x99; 0xe5; 0xee; 0x90; 0x40; 0xc3; 0x4a; 0x4b;
  0xe0; 0x8e; 0x44; 0x2f; 0x90; 0x85; 0x98; 0x4f; 0x9a; 0x84; 0x42; 0x46; 0x5a; 0xb8; 0x9d; 0x46;
  0xe1; 0x42; 0x38; 0x86; 0x9e; 0x90; 0xce; 0x90; 0x9d; 0x91; 0xaf; 0x8f; 0x83; 0x9e; 0x94; 0x84;
  0x92; 0x41; 0xaf; 0xac; 0x40; 0xd2; 0xbf; 0xff; 0xca; 0x20; 0xc1; 0x8c; 0xbf; 0x08; 0x80; 0x9b;
  0x57; 0xf7; 0x87; 0x44; 0xd5; 0xa8; 0x89; 0x60; 0x22; 0xe6; 0x18; 0x30; 0x08; 0x41; 0x22; 0x8e;
  0x80; 0x9c; 0x11; 0x80; 0x8d; 0x1f; 0x41; 0x8b; 0x49; 0x03; 0xea; 0x84; 0x8c; 0x82; 0x88; 0x86;
  0x89; 0x57; 0x65; 0xd4; 0x80; 0xc6; 0x01; 0x08; 0x09; 0x0b; 0x80; 0x8b; 0x00; 0x06; 0x80; 0xc0;
  0x03; 0x0f; 0x06; 0x80; 0x9b; 0x03; 0x04; 0x00; 0x16; 0x80; 0x41; 0x53; 0x81; 0x98; 0x80; 0x98;
  0x80; 0x9e; 0x80; 0x98; 0x80; 0x9e; 0x80; 0x98; 0x80; 0x9e; 0x80; 0x98; 0x80; 0x9e; 0x80; 0x98;
  0x07; 0x47; 0x33; 0x9e; 0x2d; 0x41; 0x04; 0xbd; 0x40; 0x91; 0xac; 0x89; 0x86; 0x8f; 0x80; 0x41;
  0x40; 0x9d; 0x91; 0xab; 0x41; 0xe3; 0x9b; 0x40; 0xe3; 0x9d; 0x08; 0x41; 0xee; 0x30; 0x18; 0x08;
  0x8e; 0x80; 0x40; 0xc4; 0xba; 0xc3; 0x30; 0x44; 0xb3; 0x18; 0x9a; 0x01; 0x00; 0x08; 0x80; 0x89;
  0x03; 0x00; 0x00; 0x28; 0x18; 0x00; 0x00; 0x02; 0x01; 0x00; 0x08; 0x00; 0x00; 0x00; 0x00; 0x01;
  0x00; 0x0b; 0x06; 0x03; 0x03; 0x00; 0x80; 0x89; 0x80; 0x90; 0x22; 0x04; 0x80; 0x90; 0x51; 0x43;
  0x60; 0xa6; 0xdf; 0x9f; 0x50; 0x39; 0x85; 0x40; 0xdd; 0x81; 0x56; 0x81; 0x8d; 0x5d; 0x30; 0x8e;
  0x42; 0x6d; 0x49; 0xa1; 0x42; 0x1d; 0x45; 0xe1; 0x53; 0x4a; 0x84; 0x50; 0x5f].

Definition unicode_prop_ID_Start_index : list Z := [
  0xf6; 0x03; 0x20; 0xa6; 0x07; 0x00; 0xa9; 0x09; 0x20; 0xb1; 0x0a; 0x00; 0xba; 0x0b; 0x20; 0x3b;
  0x0d; 0x20; 0xc7; 0x0e; 0x20; 0x49; 0x12; 0x00; 0x9b; 0x16; 0x00; 0xac; 0x19; 0x00; 0xc0; 0x1d;
  0x80; 0x80; 0x20; 0x20; 0x70; 0x2d; 0x00; 0x00; 0x32; 0x00; 0xdd; 0xa7; 0x00; 0x4c; 0xaa; 0x20;
  0xc7; 0xd7; 0x20; 0xfc; 0xfd; 0x20; 0x9d; 0x02; 0x21; 0x96; 0x05; 0x01; 0x9f; 0x08; 0x01; 0x49;
  0x0c; 0x21; 0x76; 0x10; 0x21; 0xa9; 0x12; 0x01; 0xb0; 0x14; 0x01; 0x42; 0x19; 0x41; 0x90; 0x1c;
  0x01; 0xf1; 0x2f; 0x21; 0x90; 0x6b; 0x21; 0x33; 0xb1; 0x21; 0x06; 0xd5; 0x01; 0xc3; 0xd7; 0x01;
  0xff; 0xe7; 0x21; 0x63; 0xee; 0x01; 0x5e; 0xee; 0x42; 0xb0; 0x23; 0x03].

Definition unicode_prop_ID_Continue1_table : list Z := [
  0xaf; 0x89; 0xa4; 0x80; 0xd6; 0x80; 0x42; 0x47; 0xef; 0x96; 0x80; 0x40; 0xfa; 0x84; 0x41; 0x08;
  0xac; 0x00; 0x01; 0x01; 0x00; 0xc7; 0x8a; 0xaf; 0x9e; 0x28; 0xe4; 0x31; 0x29; 0x08; 0x19; 0x89;
  0x96; 0x80; 0x9d; 0x9a; 0xda; 0x8a; 0x8e; 0x89; 0xa0; 0x88; 0x88; 0x80; 0x97; 0x18; 0x88; 0x02;
  0x04; 0xaa; 0x82; 0xba; 0x88; 0xa9; 0x97; 0x80; 0xa0; 0xb5; 0x10; 0x91; 0x06; 0x89; 0x09; 0x89;
  0x90; 0x82; 0xb7; 0x00; 0x31; 0x09; 0x82; 0x88; 0x80; 0x89; 0x09; 0x89; 0x8d; 0x01; 0x82; 0xb7;
  0x00; 0x23; 0x09; 0x12; 0x80; 0x93; 0x8b; 0x10; 0x8a; 0x82; 0xb7; 0x00; 0x38; 0x10; 0x82; 0x93;
  0x09; 0x89; 0x89; 0x28; 0x82; 0xb7; 0x00; 0x31; 0x09; 0x16; 0x82; 0x89; 0x09; 0x89; 0x91; 0x80;
  0xba; 0x22; 0x10; 0x83; 0x88; 0x80; 0x8d; 0x89; 0x8f; 0x84; 0xb6; 0x00; 0x30; 0x10; 0x1e; 0x81;
  0x8a; 0x09; 0x89; 0x90; 0x82; 0xb7; 0x00; 0x30; 0x10; 0x1e; 0x81; 0x8a; 0x09; 0x89; 0x10; 0x8b;
  0x83; 0xb6; 0x08; 0x30; 0x10; 0x83; 0x88; 0x80; 0x89; 0x09; 0x89; 0x90; 0x82; 0xc5; 0x03; 0x28;
  0x00; 0x3d; 0x89; 0x09; 0xbc; 0x01; 0x86; 0x8b; 0x38; 0x89; 0xd6; 0x01; 0x88; 0x8a; 0x30; 0x89;
  0xbd; 0x0d; 0x89; 0x8a; 0x00; 0x00; 0x03; 0x81; 0xb0; 0x93; 0x01; 0x84; 0x8a; 0x80; 0xa3; 0x88;
  0x80; 0xe3; 0x93; 0x80; 0x89; 0x8b; 0x1b; 0x10; 0x11; 0x32; 0x83; 0x8c; 0x8b; 0x80; 0x8e; 0x42;
  0xbe; 0x82; 0x88; 0x88; 0x43; 0x9f; 0x83; 0x9b; 0x82; 0x9c; 0x81; 0x9d; 0x81; 0xbf; 0x9f; 0x88;
  0x01; 0x89; 0xa0; 0x10; 0x8a; 0x40; 0x8e; 0x80; 0xf5; 0x8b; 0x83; 0x8b; 0x89; 0x89; 0xff; 0x8a;
  0xbb; 0x84; 0xb8; 0x89; 0x80; 0x9c; 0x81; 0x8a; 0x85; 0x89; 0x95; 0x8d; 0x80; 0x8f; 0xb0; 0x84;
  0xae; 0x90; 0x8a; 0x89; 0x90; 0x88; 0x8b; 0x82; 0x9d; 0x8c; 0x81; 0x89; 0xab; 0x8d; 0xaf; 0x93;
  0x87; 0x89; 0x85; 0x89; 0xf5; 0x10; 0x94; 0x18; 0x28; 0x0a; 0x40; 0xc5; 0xbf; 0x42; 0x0b; 0x81;
  0xb0; 0x81; 0x92; 0x80; 0xfa; 0x8c; 0x18; 0x82; 0x8b; 0x4b; 0xfd; 0x82; 0x40; 0x8c; 0x80; 0xdf;
  0x9f; 0x42; 0x29; 0x85; 0xe8; 0x81; 0xdf; 0x80; 0x60; 0x75; 0x23; 0x89; 0xc4; 0x03; 0x89; 0x9f;
  0x81; 0xcf; 0x81; 0x41; 0x0f; 0x02; 0x03; 0x80; 0x96; 0x23; 0x80; 0xd2; 0x81; 0xb1; 0x91; 0x89;
  0x89; 0x85; 0x91; 0x8c; 0x8a; 0x9b; 0x87; 0x98; 0x8c; 0xab; 0x83; 0xae; 0x8d; 0x8e; 0x89; 0x8a;
  0x80; 0x89; 0x89; 0xae; 0x8d; 0x8b; 0x07; 0x09; 0x89; 0xa0; 0x82; 0xb1; 0x00; 0x11; 0x0c; 0x08;
  0x80; 0xa8; 0x24; 0x81; 0x40; 0xeb; 0x38; 0x09; 0x89; 0x60; 0x4f; 0x23; 0x80; 0x42; 0xe0; 0x8f;
  0x8f; 0x8f; 0x11; 0x97; 0x82; 0x40; 0xbf; 0x89; 0xa4; 0x80; 0xa4; 0x80; 0x42; 0x96; 0x80; 0x40;
  0xe1; 0x80; 0x40; 0x94; 0x84; 0x41; 0x24; 0x89; 0x45; 0x56; 0x10; 0x0c; 0x83; 0xa7; 0x13; 0x80;
  0x40; 0xa4; 0x81; 0x42; 0x3c; 0x1f; 0x89; 0x85; 0x89; 0x9e; 0x84; 0x41; 0x3c; 0x81; 0xce; 0x83;
  0xc5; 0x8a; 0xb0; 0x83; 0xf9; 0x82; 0xb4; 0x8e; 0x9e; 0x8a; 0x09; 0x89; 0x83; 0xac; 0x8a; 0x30;
  0xac; 0x89; 0x2a; 0xa3; 0x8d; 0x80; 0x89; 0x21; 0xab; 0x80; 0x8b; 0x82; 0xaf; 0x8d; 0x3b; 0x80;
  0x8b; 0xd1; 0x8b; 0x28; 0x08; 0x40; 0x9c; 0x8b; 0x84; 0x89; 0x2b; 0xb6; 0x08; 0x31; 0x09; 0x82;
  0x88; 0x80; 0x89; 0x09; 0x32; 0x84; 0xc2; 0x88; 0x00; 0x08; 0x03; 0x04; 0x00; 0x8d; 0x81; 0xd1;
  0x91; 0x88; 0x89; 0x18; 0xd0; 0x93; 0x8b; 0x89; 0x40; 0xd4; 0x31; 0x88; 0x9a; 0x81; 0xd1; 0x90;
  0x8e; 0x89; 0xd0; 0x8c; 0x87; 0x89; 0x85; 0x93; 0xb8; 0x8e; 0x83; 0x89; 0x40; 0xf1; 0x8e; 0x40;
  0xa4; 0x89; 0xc5; 0x28; 0x09; 0x18; 0x00; 0x81; 0x8b; 0x89; 0xf6; 0x31; 0x32; 0x80; 0x9b; 0x89;
  0xa7; 0x30; 0x1f; 0x80; 0x88; 0x8a; 0xad; 0x8f; 0x41; 0x55; 0x89; 0xb4; 0x38; 0x87; 0x8f; 0x89;
  0xb7; 0x95; 0x80; 0x8d; 0xf9; 0x2a; 0x00; 0x08; 0x30; 0x07; 0x89; 0xaf; 0x20; 0x08; 0x27; 0x89;
  0x41; 0x48; 0x83; 0x88; 0x08; 0x80; 0xaf; 0x32; 0x84; 0x8c; 0x8a; 0x54; 0xe4; 0x05; 0x8e; 0x60;
  0x2c; 0xc7; 0x9b; 0x49; 0x25; 0x89; 0xd5; 0x89; 0xa5; 0x84; 0xba; 0x86; 0x98; 0x89; 0x42; 0x15;
  0x89; 0x41; 0xd4; 0x00; 0xb6; 0x33; 0xd0; 0x80; 0x8a; 0x81; 0x60; 0x4c; 0xaa; 0x81; 0x50; 0x50;
  0x89; 0x42; 0x05; 0xad; 0x81; 0x96; 0x42; 0x1d; 0x22; 0x2f; 0x39; 0x86; 0x9d; 0x83; 0x40; 0x93;
  0x82; 0x45; 0x88; 0xb1; 0x41; 0xff; 0xb6; 0x83; 0xb1; 0x38; 0x8d; 0x80; 0x95; 0x20; 0x8e; 0x45;
  0x4f; 0x30; 0x90; 0x0e; 0x01; 0x04; 0xe3; 0x80; 0x40; 0x9f; 0x86; 0x88; 0x89; 0x41; 0x63; 0x80;
  0xbc; 0x8d; 0x41; 0xf1; 0x8d; 0x40; 0xf3; 0x08; 0x89; 0x42; 0xd4; 0x86; 0xec; 0x34; 0x89; 0x52;
  0x95; 0x89; 0x6c; 0x05; 0x05; 0x40; 0xef].

Definition unicode_prop_ID_Continue1_index : list Z := [
  0xfa; 0x06; 0x00; 0x70; 0x09; 0x00; 0xf0; 0x0a; 0x40; 0x57; 0x0c; 0x00; 0xf0; 0x0d; 0x60; 0xc7;
  0x0f; 0x20; 0xea; 0x17; 0x40; 0x05; 0x1b; 0x00; 0x0e; 0x20; 0x00; 0xa0; 0xa6; 0x20; 0xe6; 0xa9;
  0x20; 0x10; 0xfe; 0x00; 0x40; 0x0a; 0x01; 0xc3; 0x10; 0x01; 0x4e; 0x13; 0x01; 0x41; 0x16; 0x01;
  0x0b; 0x1a; 0x01; 0xaa; 0x1d; 0x01; 0x7a; 0x6d; 0x21; 0x45; 0xd2; 0x21; 0xaf; 0xe2; 0x01; 0xf0;
  0x01; 0x0e].

Definition unicode_prop_White_Space_table : list Z := [
  0x88; 0x84; 0x91; 0x80; 0xe3; 0x80; 0x99; 0x80; 0x55; 0xde; 0x80; 0x49; 0x7e; 0x8a; 0x9c; 0x0c;
  0x80; 0xae; 0x80; 0x4f; 0x9f; 0x80].

Definition unicode_prop_White_Space_index : list Z := [
  0x01; 0x30; 0x00].

(** ** The other properties *)

Definition unicode_prop_Hyphen_table : list Z := [
  0xac; 0x80; 0xfe; 0x80; 0x44; 0xdb; 0x80; 0x52; 0x7a; 0x80; 0x48; 0x08; 0x81; 0x4e; 0x04; 0x80;
  0x42; 0xe2; 0x80; 0x60; 0xcd; 0x66; 0x80; 0x40; 0xa8; 0x80; 0xd6; 0x80].

Definition unicode_prop_Other_Math_table : list Z := [
  0xdd; 0x80; 0x43; 0x70; 0x11; 0x80; 0x99; 0x09; 0x81; 0x5c; 0x1f; 0x80; 0x9a; 0x82; 0x8a; 0x80;
  0x9f; 0x83; 0x97; 0x81; 0x8d; 0x81; 0xc0; 0x8c; 0x18; 0x11; 0x1c; 0x91; 0x03; 0x01; 0x89; 0x00;
  0x14; 0x28; 0x11; 0x09; 0x02; 0x05; 0x13; 0x24; 0xca; 0x21; 0x18; 0x08; 0x08; 0x00; 0x21; 0x0b;
  0x0b; 0x91; 0x09; 0x00; 0x06; 0x00; 0x29; 0x41; 0x21; 0x83; 0x40; 0xa7; 0x08; 0x80; 0x97; 0x80;
  0x90; 0x80; 0x41; 0xbc; 0x81; 0x8b; 0x88; 0x24; 0x21; 0x09; 0x14; 0x8d; 0x00; 0x01; 0x85; 0x97;
  0x81; 0xb8; 0x00; 0x80; 0x9c; 0x83; 0x88; 0x81; 0x41; 0x55; 0x81; 0x9e; 0x89; 0x41; 0x92; 0x95;
  0xbe; 0x83; 0x9f; 0x81; 0x60; 0xd4; 0x62; 0x00; 0x03; 0x80; 0x40; 0xd2; 0x00; 0x80; 0x60; 0xd4;
  0xc0; 0xd4; 0x80; 0xc6; 0x01; 0x08; 0x09; 0x0b; 0x80; 0x8b; 0x00; 0x06; 0x80; 0xc0; 0x03; 0x0f;
  0x06; 0x80; 0x9b; 0x03; 0x04; 0x00; 0x16; 0x80; 0x41; 0x53; 0x81; 0x98; 0x80; 0x98; 0x80; 0x9e;
  0x80; 0x98; 0x80; 0x9e; 0x80; 0x98; 0x80; 0x9e; 0x80; 0x98; 0x80; 0x9e; 0x80; 0x98; 0x07; 0x81;
  0xb1; 0x55; 0xff; 0x18; 0x9a; 0x01; 0x00; 0x08; 0x80; 0x89; 0x03; 0x00; 0x00; 0x28; 0x18; 0x00;
  0x00; 0x02; 0x01; 0x00; 0x08; 0x00; 0x00; 0x00; 0x00; 0x01; 0x00; 0x0b; 0x06; 0x03; 0x03; 0x00;
  0x80; 0x89; 0x80; 0x90; 0x22; 0x04; 0x80; 0x90].

Definition unicode_prop_Other_Alphabetic_table : list Z := [
  0x43; 0x44; 0x80; 0x9c; 0x8c; 0x42; 0x3f; 0x8d; 0x00; 0x01; 0x01; 0x00; 0xc7; 0x8a; 0xaf; 0x8c;
  0x06; 0x8f; 0x80; 0xe4; 0x33; 0x19; 0x0b; 0x80; 0xa2; 0x80; 0x9d; 0x8f; 0xe5; 0x8a; 0xe4; 0x0a;
  0x88; 0x02; 0x03; 0xe9; 0x80; 0xbb; 0x8b; 0x16; 0x85; 0x93; 0xb5; 0x09; 0x8e; 0x01; 0x22; 0x89;
  0x81; 0x9c; 0x82; 0xb9; 0x31; 0x09; 0x81; 0x89; 0x80; 0x89; 0x81; 0x9c; 0x82; 0xb9; 0x23; 0x09;
  0x0b; 0x80; 0x9d; 0x0a; 0x80; 0x8a; 0x82; 0xb9; 0x38; 0x10; 0x81; 0x94; 0x81; 0x95; 0x13; 0x82;
  0xb9; 0x31; 0x09; 0x81; 0x88; 0x81; 0x89; 0x81; 0x9d; 0x80; 0xba; 0x22; 0x10; 0x82; 0x89; 0x80;
  0xa7; 0x84; 0xb8; 0x30; 0x10; 0x17; 0x81; 0x8a; 0x81; 0x9c; 0x82; 0xb9; 0x30; 0x10; 0x17; 0x81;
  0x8a; 0x81; 0x8e; 0x80; 0x8b; 0x83; 0xb9; 0x30; 0x10; 0x82; 0x89; 0x80; 0x89; 0x81; 0x9c; 0x82;
  0xca; 0x28; 0x00; 0x87; 0x91; 0x81; 0xbc; 0x01; 0x86; 0x91; 0x80; 0xe2; 0x01; 0x28; 0x81; 0x8f;
  0x80; 0x40; 0xa2; 0x92; 0x88; 0x8a; 0x80; 0xa3; 0xed; 0x8b; 0x00; 0x0b; 0x96; 0x1b; 0x10; 0x11;
  0x32; 0x83; 0x8c; 0x8b; 0x00; 0x89; 0x83; 0x46; 0x73; 0x81; 0x9d; 0x81; 0x9d; 0x81; 0x9d; 0x81;
  0xc1; 0x92; 0x40; 0xbb; 0x81; 0xa1; 0x80; 0xf5; 0x8b; 0x83; 0x88; 0x40; 0xdd; 0x84; 0xb8; 0x89;
  0x81; 0x93; 0xc9; 0x81; 0x8a; 0x82; 0xb0; 0x84; 0xaf; 0x8e; 0xbb; 0x82; 0x9d; 0x88; 0x09; 0xb8;
  0x8a; 0xb1; 0x92; 0x41; 0x9b; 0xa1; 0x46; 0xc0; 0xb3; 0x48; 0xf5; 0x9f; 0x60; 0x78; 0x73; 0x87;
  0xa1; 0x81; 0x41; 0x61; 0x07; 0x80; 0x96; 0x84; 0xd7; 0x81; 0xb1; 0x8f; 0x00; 0xb8; 0x80; 0xa5;
  0x84; 0x9b; 0x8b; 0xac; 0x83; 0xaf; 0x8b; 0xa4; 0x80; 0xc2; 0x8d; 0x8b; 0x07; 0x81; 0xac; 0x82;
  0xb1; 0x00; 0x11; 0x0c; 0x80; 0xab; 0x24; 0x80; 0x40; 0xec; 0x87; 0x60; 0x4f; 0x32; 0x80; 0x48;
  0x56; 0x84; 0x46; 0x85; 0x10; 0x0c; 0x83; 0x43; 0x13; 0x83; 0xc0; 0x80; 0x41; 0x40; 0x81; 0xce;
  0x80; 0x41; 0x02; 0x82; 0xb4; 0x8d; 0xac; 0x81; 0x8a; 0x82; 0xac; 0x88; 0x88; 0x80; 0xbc; 0x82;
  0xa3; 0x8b; 0x91; 0x81; 0xb8; 0x82; 0xaf; 0x8c; 0x8d; 0x81; 0xdb; 0x88; 0x08; 0x28; 0x08; 0x40;
  0x9c; 0x89; 0x96; 0x83; 0xb9; 0x31; 0x09; 0x81; 0x89; 0x80; 0x89; 0x81; 0xd3; 0x88; 0x00; 0x08;
  0x03; 0x01; 0xe6; 0x8c; 0x02; 0xe9; 0x91; 0x40; 0xec; 0x31; 0x86; 0x9c; 0x81; 0xd1; 0x8e; 0x00;
  0xe9; 0x8a; 0xe6; 0x8d; 0x41; 0x00; 0x8c; 0x40; 0xf6; 0x28; 0x09; 0x0a; 0x00; 0x80; 0x40; 0x8d;
  0x31; 0x2b; 0x80; 0x9b; 0x89; 0xa9; 0x20; 0x83; 0x91; 0x8a; 0xad; 0x8d; 0x41; 0x96; 0x38; 0x86;
  0xd2; 0x95; 0x80; 0x8d; 0xf9; 0x2a; 0x00; 0x08; 0x10; 0x02; 0x80; 0xc1; 0x20; 0x08; 0x83; 0x41;
  0x5b; 0x83; 0x88; 0x08; 0x80; 0xaf; 0x32; 0x82; 0x60; 0x41; 0xdc; 0x90; 0x4e; 0x1f; 0x00; 0xb6;
  0x33; 0xdc; 0x81; 0x60; 0x4c; 0xab; 0x80; 0x60; 0x23; 0x60; 0x30; 0x90; 0x0e; 0x01; 0x04; 0xe3;
  0x80; 0x48; 0xb6; 0x80; 0x47; 0xe7; 0x99; 0x85; 0x99; 0x85; 0x99].

Definition unicode_prop_Other_Lowercase_table : list Z := [
  0x40; 0xa9; 0x80; 0x8e; 0x80; 0x41; 0xf4; 0x88; 0x31; 0x9d; 0x84; 0xdf; 0x80; 0xb3; 0x80; 0x4d;
  0x80; 0x80; 0x4c; 0x2e; 0xbe; 0x8c; 0x80; 0xa1; 0xa4; 0x42; 0xb0; 0x80; 0x8c; 0x80; 0x8f; 0x8c;
  0x40; 0xd2; 0x8f; 0x43; 0x4f; 0x99; 0x47; 0x91; 0x81; 0x60; 0x7a; 0x1d; 0x81; 0x40; 0xd1; 0x80;
  0x40; 0x80; 0x12; 0x81; 0x43; 0x61; 0x83; 0x88; 0x80; 0x60; 0x5c; 0x15; 0x01; 0x10; 0xa9; 0x80;
  0x88; 0x60; 0xd8; 0x74; 0xbd].

Definition unicode_prop_Other_Uppercase_table : list Z := [
  0x60; 0x21; 0x5f; 0x8f; 0x43; 0x45; 0x99; 0x61; 0xcc; 0x5f; 0x99; 0x85; 0x99; 0x85; 0x99].

Definition unicode_prop_Other_Grapheme_Extend_table : list Z := [
  0x49; 0xbd; 0x80; 0x97; 0x80; 0x41; 0x65; 0x80; 0x97; 0x80; 0xe5; 0x80; 0x97; 0x80; 0x40; 0xe7;
  0x00; 0x03; 0x08; 0x81; 0x88; 0x81; 0xe6; 0x80; 0x97; 0x80; 0xf6; 0x80; 0x8e; 0x80; 0x49; 0x34;
  0x80; 0x9d; 0x80; 0x43; 0xff; 0x04; 0x00; 0x04; 0x81; 0xe4; 0x80; 0xc6; 0x81; 0x44; 0x17; 0x80;
  0x50; 0x20; 0x81; 0x60; 0x79; 0x22; 0x80; 0xeb; 0x80; 0x60; 0x55; 0xdc; 0x81; 0x52; 0x1f; 0x80;
  0xf3; 0x80; 0x41; 0x07; 0x80; 0x8d; 0x80; 0x88; 0x80; 0xdf; 0x80; 0x88; 0x01; 0x00; 0x14; 0x80;
  0x40; 0xdf; 0x80; 0x8b; 0x80; 0x40; 0xf0; 0x80; 0x41; 0x05; 0x80; 0x42; 0x78; 0x80; 0x8b; 0x80;
  0x46; 0x02; 0x80; 0x60; 0x50; 0xad; 0x81; 0x60; 0x61; 0x72; 0x0d; 0x85; 0x6c; 0x2e; 0xac; 0xdf].

Definition unicode_prop_Other_Default_Ignorable_Code_Point_table : list Z := [
  0x43; 0x4e; 0x80; 0x4e; 0x0e; 0x81; 0x46; 0x52; 0x81; 0x48; 0xae; 0x80; 0x50; 0xfd; 0x80; 0x60;
  0xce; 0x3a; 0x80; 0xce; 0x88; 0x6d; 0x00; 0x06; 0x00; 0x9d; 0xdf; 0xff; 0x40; 0xef; 0x4e; 0x0f].

Definition unicode_prop_Other_ID_Start_table : list Z := [
  0x58; 0x84; 0x81; 0x48; 0x90; 0x80; 0x94; 0x80; 0x4f; 0x6b; 0x81].

Definition unicode_prop_Other_ID_Continue_table : list Z := [
  0x40; 0xb6; 0x80; 0x42; 0xce; 0x80; 0x4f; 0xe0; 0x88; 0x46; 0x67; 0x80; 0x46; 0x30; 0x81; 0x50;
  0xec; 0x80; 0x60; 0xce; 0x68; 0x80].

Definition unicode_prop_Prepended_Concatenation_Mark_table : list Z := [
  0x45; 0xff; 0x85; 0x40; 0xd6; 0x80; 0xb0; 0x80; 0x41; 0x7f; 0x81; 0xcf; 0x80; 0x61; 0x07; 0xd9;
  0x80; 0x8e; 0x80].

Definition unicode_prop_XID_Start1_table : list Z := [
  0x43; 0x79; 0x80; 0x4a; 0xb7; 0x80; 0xfe; 0x80; 0x60; 0x21; 0xe6; 0x81; 0x60; 0xcb; 0xc0; 0x85;
  0x41; 0x95; 0x81; 0xf3; 0x00; 0x00; 0x00; 0x00; 0x00; 0x00; 0x00; 0x80; 0x41; 0x1e; 0x81].

Definition unicode_prop_XID_Continue1_table : list Z := [
  0x43; 0x79; 0x80; 0x60; 0x2d; 0x1f; 0x81; 0x60; 0xcb; 0xc0; 0x85; 0x41; 0x95; 0x81; 0xf3; 0x00;
  0x00; 0x00; 0x00; 0x00; 0x00; 0x00; 0x80].

Definition unicode_prop_Changes_When_Titlecased1_table : list Z := [
  0x41; 0xc3; 0x08; 0x08; 0x81; 0xa4; 0x81; 0x4e; 0xdc; 0xaa; 0x0a; 0x4e; 0x87; 0x3f; 0x3f; 0x87;
  0x8b; 0x80; 0x8e; 0x80; 0xae; 0x80].

Definition unicode_prop_Changes_When_Casefolded1_table : list Z := [
  0x41; 0xef; 0x80; 0x41; 0x9e; 0x80; 0x9e; 0x80; 0x5a; 0xe4; 0x83; 0x40; 0xb5; 0x00; 0x00; 0x00;
  0x80; 0xde; 0x06; 0x06; 0x80; 0x8a; 0x09; 0x81; 0x89; 0x10; 0x81; 0x8d; 0x80].

Definition unicode_prop_Changes_When_NFKC_Casefolded1_table : list Z := [
  0x40; 0x9f; 0x06; 0x00; 0x01; 0x00; 0x01; 0x12; 0x10; 0x82; 0xf3; 0x80; 0x8b; 0x80; 0x40; 0x84;
  0x01; 0x01; 0x80; 0xa2; 0x01; 0x80; 0x40; 0xbb; 0x88; 0x9e; 0x29; 0x84; 0xda; 0x08; 0x81; 0x89;
  0x80; 0xa3; 0x04; 0x02; 0x04; 0x08; 0x07; 0x80; 0x9e; 0x80; 0xa0; 0x82; 0x9c; 0x80; 0x42; 0x28;
  0x80; 0xd7; 0x83; 0x42; 0xde; 0x87; 0xfb; 0x08; 0x80; 0xd2; 0x01; 0x80; 0xa1; 0x11; 0x80; 0x40;
  0xfc; 0x81; 0x42; 0xd4; 0x80; 0xfe; 0x80; 0xa7; 0x81; 0xad; 0x80; 0xb5; 0x80; 0x88; 0x03; 0x03;
  0x03; 0x80; 0x8b; 0x80; 0x88; 0x00; 0x26; 0x80; 0x90; 0x80; 0x88; 0x03; 0x03; 0x03; 0x80; 0x8b;
  0x80; 0x41; 0x41; 0x80; 0xe1; 0x81; 0x46; 0x52; 0x81; 0xd4; 0x84; 0x45; 0x1b; 0x10; 0x8a; 0x80;
  0x91; 0x80; 0x9b; 0x8c; 0x80; 0xa1; 0xa4; 0x40; 0xd5; 0x83; 0x40; 0xb5; 0x00; 0x00; 0x00; 0x80;
  0x99; 0x00; 0x00; 0x00; 0x00; 0x00; 0x00; 0x80; 0xb7; 0x05; 0x00; 0x13; 0x05; 0x11; 0x02; 0x0c;
  0x11; 0x00; 0x00; 0x0c; 0x15; 0x05; 0x08; 0x8f; 0x00; 0x20; 0x8b; 0x12; 0x2a; 0x08; 0x0b; 0x00;
  0x07; 0x82; 0x8c; 0x06; 0x92; 0x81; 0x9a; 0x80; 0x8c; 0x8a; 0x80; 0xd6; 0x18; 0x10; 0x8a; 0x01;
  0x0c; 0x0a; 0x00; 0x10; 0x11; 0x02; 0x06; 0x05; 0x1c; 0x85; 0x8f; 0x8f; 0x8f; 0x88; 0x80; 0x40;
  0xa1; 0x08; 0x81; 0x40; 0xf7; 0x81; 0x41; 0x34; 0xd5; 0x99; 0x9a; 0x45; 0x20; 0x80; 0xe6; 0x82;
  0xe4; 0x80; 0x41; 0x9e; 0x81; 0x40; 0xf0; 0x80; 0x41; 0x2e; 0x80; 0xd2; 0x80; 0x8b; 0x40; 0xd5;
  0xa9; 0x80; 0xb4; 0x00; 0x82; 0xdf; 0x09; 0x80; 0xde; 0x80; 0xb0; 0xdd; 0x82; 0x8d; 0xdf; 0x9e;
  0x80; 0xa7; 0x87; 0xae; 0x80; 0x41; 0x7f; 0x60; 0x72; 0x9b; 0x81; 0x40; 0xd1; 0x80; 0x40; 0x80;
  0x12; 0x81; 0x43; 0x61; 0x83; 0x88; 0x80; 0x60; 0x4d; 0x95; 0x41; 0x0d; 0x08; 0x00; 0x81; 0x89;
  0x00; 0x00; 0x09; 0x82; 0xc3; 0x81; 0xe9; 0xc2; 0x00; 0x97; 0x04; 0x00; 0x01; 0x01; 0x80; 0xeb;
  0xa0; 0x41; 0x6a; 0x91; 0xbf; 0x81; 0xb5; 0xa7; 0x8c; 0x82; 0x99; 0x95; 0x94; 0x81; 0x8b; 0x80;
  0x92; 0x03; 0x1a; 0x00; 0x80; 0x40; 0x86; 0x08; 0x80; 0x9f; 0x99; 0x40; 0x83; 0x15; 0x0d; 0x0d;
  0x0a; 0x16; 0x06; 0x80; 0x88; 0x47; 0x87; 0x20; 0xa9; 0x80; 0x88; 0x60; 0xb4; 0xe4; 0x83; 0x50;
  0x31; 0xa3; 0x44; 0x63; 0x86; 0x8d; 0x87; 0xbf; 0x85; 0x42; 0x3e; 0xd4; 0x80; 0xc6; 0x01; 0x08;
  0x09; 0x0b; 0x80; 0x8b; 0x00; 0x06; 0x80; 0xc0; 0x03; 0x0f; 0x06; 0x80; 0x9b; 0x03; 0x04; 0x00;
  0x16; 0x80; 0x41; 0x53; 0x81; 0x41; 0x23; 0x81; 0xb1; 0x48; 0x2f; 0xbd; 0x4d; 0x91; 0x18; 0x9a;
  0x01; 0x00; 0x08; 0x80; 0x89; 0x03; 0x00; 0x00; 0x28; 0x18; 0x00; 0x00; 0x02; 0x01; 0x00; 0x08;
  0x00; 0x00; 0x00; 0x00; 0x01; 0x00; 0x0b; 0x06; 0x03; 0x03; 0x00; 0x80; 0x89; 0x80; 0x90; 0x22;
  0x04; 0x80; 0x90; 0x42; 0x43; 0x8a; 0x84; 0x9e; 0x80; 0x9f; 0x99; 0x82; 0xa2; 0x80; 0xee; 0x82;
  0x8c; 0xab; 0x83; 0x88; 0x31; 0x49; 0x9d; 0x89; 0x60; 0xfc; 0x05; 0x42; 0x1d; 0x6b; 0x05; 0xe1;
  0x4f; 0xff].

Definition unicode_prop_ASCII_Hex_Digit_table : list Z := [
  0xaf; 0x89; 0x35; 0x99; 0x85].

Definition unicode_prop_Bidi_Control_table : list Z := [
  0x46; 0x1b; 0x80; 0x59; 0xf0; 0x81; 0x99; 0x84; 0xb6; 0x83].

Definition unicode_prop_Dash_table : list Z := [
  0xac; 0x80; 0x45; 0x5b; 0x80; 0xb2; 0x80; 0x4e; 0x40; 0x80; 0x44; 0x04; 0x80; 0x48; 0x08; 0x85;
  0xbc; 0x80; 0xa6; 0x80; 0x8e; 0x80; 0x41; 0x85; 0x80; 0x4c; 0x03; 0x01; 0x80; 0x9e; 0x0b; 0x80;
  0x9b; 0x80; 0x41; 0xbd; 0x80; 0x92; 0x80; 0xee; 0x80; 0x60; 0xcd; 0x8f; 0x81; 0xa4; 0x80; 0x89;
  0x80; 0x40; 0xa8; 0x80; 0x4e; 0x5f; 0x80; 0x41; 0x3d; 0x80].

Definition unicode_prop_Deprecated_table : list Z := [
  0x41; 0x48; 0x80; 0x45; 0x28; 0x80; 0x49; 0x02; 0x00; 0x80; 0x48; 0x28; 0x81; 0x48; 0xc4; 0x85;
  0x42; 0xb8; 0x81; 0x6d; 0xdc; 0xd5; 0x80].

Definition unicode_prop_Diacritic_table : list Z := [
  0xdd; 0x00; 0x80; 0xc6; 0x05; 0x03; 0x01; 0x81; 0x41; 0xf6; 0x40; 0x9e; 0x07; 0x25; 0x90; 0x0b;
  0x80; 0x88; 0x81; 0x40; 0xfc; 0x84; 0x40; 0xd0; 0x80; 0xb6; 0x90; 0x80; 0x9a; 0x00; 0x01; 0x00;
  0x40; 0x85; 0x3b; 0x81; 0x40; 0x85; 0x0b; 0x0a; 0x82; 0xc2; 0x9a; 0xda; 0x8a; 0xb9; 0x8a; 0xa1;
  0x81; 0xfd; 0x87; 0xa8; 0x89; 0x8f; 0x9b; 0xbc; 0x80; 0x8f; 0x02; 0x83; 0x9b; 0x80; 0xc9; 0x80;
  0x8f; 0x80; 0xed; 0x80; 0x8f; 0x80; 0xed; 0x80; 0x8f; 0x80; 0xae; 0x82; 0xbb; 0x80; 0x8f; 0x06;
  0x80; 0xf6; 0x80; 0xed; 0x80; 0x8f; 0x80; 0xed; 0x80; 0x8f; 0x80; 0xec; 0x81; 0x8f; 0x80; 0xfb;
  0x80; 0xee; 0x80; 0x8b; 0x28; 0x80; 0xea; 0x80; 0x8c; 0x84; 0xca; 0x81; 0x9a; 0x00; 0x00; 0x03;
  0x81; 0xc1; 0x10; 0x81; 0xbd; 0x80; 0xef; 0x00; 0x81; 0xa7; 0x0b; 0x84; 0x98; 0x30; 0x80; 0x89;
  0x81; 0x42; 0xc0; 0x82; 0x43; 0xb3; 0x81; 0x9d; 0x80; 0x40; 0x93; 0x8a; 0x88; 0x80; 0x41; 0x5a;
  0x82; 0x41; 0x23; 0x80; 0x93; 0x39; 0x80; 0xaf; 0x8e; 0x81; 0x8a; 0xe7; 0x80; 0x8e; 0x80; 0xa5;
  0x88; 0xb5; 0x81; 0xb9; 0x80; 0x8a; 0x81; 0xc1; 0x81; 0xbf; 0x85; 0xd1; 0x98; 0x18; 0x28; 0x0a;
  0xb1; 0xbe; 0xd8; 0x8b; 0xa4; 0x8a; 0x41; 0xbc; 0x00; 0x82; 0x8a; 0x82; 0x8c; 0x82; 0x8c; 0x82;
  0x8c; 0x81; 0x4c; 0xef; 0x82; 0x41; 0x3c; 0x80; 0x41; 0xf9; 0x85; 0xe8; 0x83; 0xde; 0x80; 0x60;
  0x75; 0x71; 0x80; 0x8b; 0x08; 0x80; 0x9b; 0x81; 0xd1; 0x81; 0x8d; 0xa1; 0xe5; 0x82; 0xec; 0x81;
  0x8b; 0x80; 0xa4; 0x80; 0x40; 0x96; 0x80; 0x9a; 0x91; 0xb8; 0x83; 0xa3; 0x80; 0xde; 0x80; 0x8b;
  0x80; 0xa3; 0x80; 0x40; 0x94; 0x82; 0xc0; 0x83; 0xb2; 0x80; 0xe3; 0x84; 0x88; 0x82; 0xff; 0x81;
  0x60; 0x4f; 0x2f; 0x80; 0x43; 0x00; 0x8f; 0x41; 0x0d; 0x00; 0x80; 0xae; 0x80; 0xac; 0x81; 0xc2;
  0x80; 0x42; 0xfb; 0x80; 0x44; 0x9e; 0x28; 0xa9; 0x80; 0x88; 0x42; 0x7c; 0x13; 0x80; 0x40; 0xa4;
  0x81; 0x42; 0x3a; 0x85; 0xa5; 0x80; 0x99; 0x84; 0x41; 0x8e; 0x82; 0xc5; 0x8a; 0xb0; 0x83; 0x40;
  0xbf; 0x80; 0xa8; 0x80; 0xc7; 0x81; 0xf7; 0x81; 0xbd; 0x80; 0xcb; 0x80; 0x88; 0x82; 0xe7; 0x81;
  0x40; 0xb1; 0x81; 0xcf; 0x81; 0x8f; 0x80; 0x97; 0x32; 0x84; 0xd8; 0x10; 0x81; 0x8c; 0x81; 0xde;
  0x02; 0x80; 0xfa; 0x81; 0x40; 0xfa; 0x81; 0xfd; 0x80; 0xf5; 0x81; 0xf2; 0x80; 0x41; 0x0c; 0x81;
  0x41; 0x01; 0x0b; 0x80; 0x40; 0x9b; 0x80; 0xd2; 0x80; 0x91; 0x80; 0xd0; 0x80; 0x41; 0xa4; 0x80;
  0x41; 0x01; 0x00; 0x81; 0xd0; 0x80; 0x41; 0xa8; 0x81; 0x96; 0x80; 0x54; 0xeb; 0x8e; 0x60; 0x2c;
  0xd8; 0x80; 0x49; 0xbf; 0x84; 0xba; 0x86; 0x42; 0x33; 0x81; 0x42; 0x21; 0x90; 0xcf; 0x81; 0x60;
  0x3f; 0xfd; 0x18; 0x30; 0x81; 0x5f; 0x00; 0xad; 0x81; 0x96; 0x42; 0x1f; 0x12; 0x2f; 0x39; 0x86;
  0x9d; 0x83; 0x4e; 0x81; 0xbd; 0x40; 0xc1; 0x86; 0x41; 0x76; 0x80; 0xbc; 0x83; 0x42; 0xfd; 0x81;
  0x42; 0xdf; 0x86; 0xec; 0x10; 0x82].

Definition unicode_prop_Extender_table : list Z := [
  0x40; 0xb6; 0x80; 0x42; 0x17; 0x81; 0x43; 0x6d; 0x80; 0x41; 0xb8; 0x80; 0x42; 0x75; 0x80; 0x40;
  0x88; 0x80; 0xd8; 0x80; 0x42; 0xef; 0x80; 0xfe; 0x80; 0x49; 0x42; 0x80; 0xb7; 0x80; 0x42; 0x62;
  0x80; 0x41; 0x8d; 0x80; 0xc3; 0x80; 0x53; 0x88; 0x80; 0xaa; 0x84; 0xe6; 0x81; 0xdc; 0x82; 0x60;
  0x6f; 0x15; 0x80; 0x45; 0xf5; 0x80; 0x43; 0xc1; 0x80; 0x95; 0x80; 0x40; 0x88; 0x80; 0xeb; 0x80;
  0x94; 0x81; 0x60; 0x54; 0x7a; 0x80; 0x48; 0x0f; 0x81; 0x45; 0xca; 0x80; 0x9a; 0x03; 0x80; 0x44;
  0xc6; 0x80; 0x41; 0x24; 0x80; 0xf3; 0x81; 0x41; 0xf1; 0x82; 0x44; 0xce; 0x80; 0x60; 0x50; 0xa8;
  0x81; 0x44; 0x9b; 0x08; 0x80; 0x60; 0x71; 0x57; 0x81; 0x44; 0xb0; 0x80; 0x43; 0x53; 0x82].

Definition unicode_prop_Hex_Digit_table : list Z := [
  0xaf; 0x89; 0x35; 0x99; 0x85; 0x60; 0xfe; 0xa8; 0x89; 0x35; 0x99; 0x85].

Definition unicode_prop_IDS_Unary_Operator_table : list Z := [
  0x60; 0x2f; 0xfd; 0x81].

Definition unicode_prop_IDS_Binary_Operator_table : list Z := [
  0x60; 0x2f; 0xef; 0x09; 0x89; 0x41; 0xf0; 0x80].

Definition unicode_prop_IDS_Trinary_Operator_table : list Z := [
  0x60; 0x2f; 0xf1; 0x81].

Definition unicode_prop_Ideographic_table : list Z := [
  0x60; 0x30; 0x05; 0x81; 0x98; 0x88; 0x8d; 0x82; 0x43; 0xc4; 0x59; 0xbf; 0xbf; 0x60; 0x51; 0xff;
  0x60; 0x58; 0xff; 0x41; 0x6d; 0x81; 0xe9; 0x60; 0x75; 0x09; 0x80; 0x9a; 0x57; 0xf7; 0x87; 0x44;
  0xd5; 0xa8; 0x89; 0x60; 0x24; 0x66; 0x41; 0x8b; 0x60; 0x4d; 0x03; 0x60; 0xa6; 0xdf; 0x9f; 0x50;
  0x39; 0x85; 0x40; 0xdd; 0x81; 0x56; 0x81; 0x8d; 0x5d; 0x30; 0x8e; 0x42; 0x6d; 0x49; 0xa1; 0x42;
  0x1d; 0x45; 0xe1; 0x53; 0x4a; 0x84; 0x50; 0x5f].

Definition unicode_prop_Join_Control_table : list Z := [
  0x60; 0x20; 0x0b; 0x81].

Definition unicode_prop_Logical_Order_Exception_table : list Z := [
  0x4e; 0x3f; 0x84; 0xfa; 0x84; 0x4a; 0xef; 0x11; 0x80; 0x60; 0x90; 0xf9; 0x09; 0x00; 0x81].

Definition unicode_prop_Modifier_Combining_Mark_table : list Z := [
  0x46; 0x53; 0x09; 0x80; 0x40; 0x82; 0x05; 0x02; 0x81; 0x41; 0xe0; 0x08; 0x12; 0x80; 0x9e; 0x80].

Definition unicode_prop_Noncharacter_Code_Point_table : list Z := [
  0x60; 0xfd; 0xcf; 0x9f; 0x42; 0x0d; 0x81; 0x60; 0xff; 0xfd; 0x81; 0x60; 0xff; 0xfd; 0x81; 0x60;
  0xff; 0xfd; 0x81; 0x60; 0xff; 0xfd; 0x81; 0x60; 0xff; 0xfd; 0x81; 0x60; 0xff; 0xfd; 0x81; 0x60;
  0xff; 0xfd; 0x81; 0x60; 0xff; 0xfd; 0x81; 0x60; 0xff; 0xfd; 0x81; 0x60; 0xff; 0xfd; 0x81; 0x60;
  0xff; 0xfd; 0x81; 0x60; 0xff; 0xfd; 0x81; 0x60; 0xff; 0xfd; 0x81; 0x60; 0xff; 0xfd; 0x81; 0x60;
  0xff; 0xfd; 0x81; 0x60; 0xff; 0xfd; 0x81].

Definition unicode_prop_Pattern_Syntax_table : list Z := [
  0xa0; 0x8e; 0x89; 0x86; 0x99; 0x18; 0x80; 0x99; 0x83; 0xa1; 0x30; 0x00; 0x08; 0x00; 0x0b; 0x03;
  0x02; 0x80; 0x96; 0x80; 0x9e; 0x80; 0x5f; 0x17; 0x97; 0x87; 0x8e; 0x81; 0x92; 0x80; 0x89; 0x41;
  0x30; 0x42; 0xcf; 0x40; 0x9f; 0x42; 0x75; 0x9d; 0x44; 0x6b; 0x41; 0xff; 0xff; 0x41; 0x80; 0x13;
  0x98; 0x8e; 0x80; 0x60; 0xcd; 0x0c; 0x81; 0x41; 0x04; 0x81].

Definition unicode_prop_Pattern_White_Space_table : list Z := [
  0x88; 0x84; 0x91; 0x80; 0xe3; 0x80; 0x5f; 0x87; 0x81; 0x97; 0x81].

Definition unicode_prop_Quotation_Mark_table : list Z := [
  0xa1; 0x03; 0x80; 0x40; 0x82; 0x80; 0x8e; 0x80; 0x5f; 0x5b; 0x87; 0x98; 0x81; 0x4e; 0x06; 0x80;
  0x41; 0xc8; 0x83; 0x8c; 0x82; 0x60; 0xce; 0x20; 0x83; 0x40; 0xbc; 0x03; 0x80; 0xd9; 0x81].

Definition unicode_prop_Radical_table : list Z := [
  0x60; 0x2e; 0x7f; 0x99; 0x80; 0xd8; 0x8b; 0x40; 0xd5].

Definition unicode_prop_Regional_Indicator_table : list Z := [
  0x61; 0xf1; 0xe5; 0x99].

Definition unicode_prop_Sentence_Terminal_table : list Z := [
  0xa0; 0x80; 0x8b; 0x80; 0x8f; 0x80; 0x45; 0x48; 0x80; 0x40; 0x92; 0x82; 0x40; 0xb3; 0x80; 0xaa;
  0x82; 0x40; 0xf5; 0x80; 0xbc; 0x00; 0x02; 0x81; 0x41; 0x24; 0x81; 0x46; 0xe3; 0x81; 0x43; 0x15;
  0x03; 0x81; 0x43; 0x04; 0x80; 0x40; 0xc5; 0x81; 0x40; 0x9c; 0x81; 0xac; 0x04; 0x80; 0x41; 0x39;
  0x81; 0x41; 0x61; 0x83; 0x40; 0xa1; 0x81; 0x89; 0x09; 0x81; 0x9c; 0x82; 0x40; 0xba; 0x81; 0xc0;
  0x81; 0x43; 0xa3; 0x80; 0x96; 0x81; 0x88; 0x82; 0x4c; 0xae; 0x82; 0x41; 0x31; 0x80; 0x8c; 0x80;
  0x95; 0x81; 0x41; 0xac; 0x80; 0x60; 0x74; 0xfb; 0x80; 0x41; 0x0d; 0x81; 0x40; 0xe2; 0x02; 0x80;
  0x41; 0x7d; 0x81; 0xd5; 0x81; 0xde; 0x80; 0x40; 0x97; 0x81; 0x40; 0x92; 0x82; 0x40; 0x8f; 0x81;
  0x40; 0xf8; 0x80; 0x60; 0x52; 0x25; 0x01; 0x81; 0xba; 0x02; 0x81; 0x40; 0xa8; 0x80; 0x8b; 0x80;
  0x8f; 0x80; 0xc0; 0x80; 0x4a; 0xf3; 0x81; 0x44; 0xfc; 0x84; 0xab; 0x83; 0x40; 0xbc; 0x81; 0xf4;
  0x83; 0xfe; 0x82; 0x40; 0x80; 0x0d; 0x80; 0x8f; 0x81; 0xd7; 0x08; 0x81; 0xeb; 0x80; 0x41; 0x29;
  0x81; 0xf4; 0x81; 0x41; 0x74; 0x0c; 0x8e; 0xe8; 0x81; 0x40; 0xf8; 0x82; 0x42; 0x04; 0x00; 0x80;
  0x40; 0xfa; 0x81; 0xd6; 0x81; 0x41; 0xa3; 0x81; 0x42; 0xb3; 0x81; 0xc9; 0x81; 0x60; 0x4b; 0x28;
  0x81; 0x40; 0x84; 0x80; 0xc0; 0x81; 0x8a; 0x80; 0x42; 0x28; 0x81; 0x41; 0x27; 0x80; 0x60; 0x4e;
  0x05; 0x80; 0x5d; 0xe7; 0x80].

Definition unicode_prop_Soft_Dotted_table : list Z := [
  0xe8; 0x81; 0x40; 0xc3; 0x80; 0x41; 0x18; 0x80; 0x9d; 0x80; 0xb3; 0x80; 0x93; 0x80; 0x41; 0x3f;
  0x80; 0xe1; 0x00; 0x80; 0x59; 0x08; 0x80; 0xb2; 0x80; 0x8c; 0x02; 0x80; 0x40; 0x83; 0x80; 0x40;
  0x9c; 0x80; 0x41; 0xa4; 0x80; 0x40; 0xd5; 0x81; 0x4b; 0x31; 0x80; 0x61; 0xa7; 0xa4; 0x81; 0xb1;
  0x81; 0xb1; 0x81; 0xb1; 0x81; 0xb1; 0x81; 0xb1; 0x81; 0xb1; 0x81; 0xb1; 0x81; 0xb1; 0x81; 0xb1;
  0x81; 0xb1; 0x81; 0xb1; 0x81; 0xb1; 0x81; 0x48; 0x85; 0x80; 0x41; 0x30; 0x81; 0x99; 0x80].

Definition unicode_prop_Terminal_Punctuation_table : list Z := [
  0xa0; 0x80; 0x89; 0x00; 0x80; 0x8a; 0x0a; 0x80; 0x43; 0x3d; 0x07; 0x80; 0x42; 0x00; 0x80; 0xb8;
  0x80; 0xc7; 0x80; 0x8d; 0x00; 0x82; 0x40; 0xb3; 0x80; 0xaa; 0x8a; 0x00; 0x40; 0xea; 0x81; 0xb5;
  0x28; 0x87; 0x9e; 0x80; 0x41; 0x04; 0x81; 0x44; 0xf3; 0x81; 0x40; 0xab; 0x03; 0x85; 0x41; 0x36;
  0x81; 0x43; 0x14; 0x87; 0x43; 0x04; 0x80; 0xfb; 0x82; 0xc6; 0x81; 0x40; 0x9c; 0x12; 0x80; 0xa6;
  0x19; 0x81; 0x41; 0x39; 0x81; 0x41; 0x61; 0x83; 0x40; 0xa1; 0x81; 0x89; 0x08; 0x82; 0x9c; 0x82;
  0x40; 0xba; 0x84; 0xbd; 0x81; 0x43; 0xa3; 0x80; 0x96; 0x81; 0x88; 0x82; 0x4c; 0xae; 0x82; 0x41;
  0x31; 0x80; 0x8c; 0x03; 0x80; 0x89; 0x00; 0x0a; 0x81; 0x41; 0xab; 0x81; 0x60; 0x74; 0xfa; 0x81;
  0x41; 0x0c; 0x82; 0x40; 0xe2; 0x84; 0x41; 0x7d; 0x81; 0xd5; 0x81; 0xde; 0x80; 0x40; 0x96; 0x82;
  0x40; 0x92; 0x82; 0xfe; 0x80; 0x8f; 0x81; 0x40; 0xf8; 0x80; 0x60; 0x52; 0x25; 0x01; 0x81; 0xb8;
  0x10; 0x83; 0x40; 0xa8; 0x80; 0x89; 0x00; 0x80; 0x8a; 0x0a; 0x80; 0xc0; 0x01; 0x80; 0x44; 0x39;
  0x80; 0xaf; 0x80; 0x44; 0x85; 0x80; 0x40; 0xc6; 0x80; 0x41; 0x35; 0x81; 0x40; 0x97; 0x85; 0xc3;
  0x85; 0xd8; 0x83; 0x43; 0xb7; 0x84; 0xab; 0x83; 0x40; 0xbc; 0x86; 0xef; 0x83; 0xfe; 0x82; 0x40;
  0x80; 0x0d; 0x80; 0x8f; 0x81; 0xd7; 0x84; 0xeb; 0x80; 0x41; 0x29; 0x81; 0xf4; 0x82; 0x8b; 0x81;
  0x41; 0x65; 0x1a; 0x8e; 0xe8; 0x81; 0x40; 0xf8; 0x82; 0x42; 0x04; 0x00; 0x80; 0x40; 0xfa; 0x81;
  0xd6; 0x0b; 0x81; 0x41; 0x9d; 0x82; 0xac; 0x80; 0x42; 0x84; 0x81; 0xc9; 0x81; 0x45; 0x2a; 0x84;
  0x60; 0x45; 0xf8; 0x81; 0x40; 0x84; 0x80; 0xc0; 0x82; 0x89; 0x80; 0x42; 0x28; 0x81; 0x41; 0x26;
  0x81; 0x60; 0x4e; 0x05; 0x80; 0x5d; 0xe6; 0x83].

Definition unicode_prop_Unified_Ideograph_table : list Z := [
  0x60; 0x33; 0xff; 0x59; 0xbf; 0xbf; 0x60; 0x51; 0xff; 0x60; 0x5a; 0x0d; 0x08; 0x00; 0x81; 0x89;
  0x00; 0x00; 0x09; 0x82; 0x61; 0x05; 0xd5; 0x60; 0xa6; 0xdf; 0x9f; 0x50; 0x39; 0x85; 0x40; 0xdd;
  0x81; 0x56; 0x81; 0x8d; 0x5d; 0x30; 0x8e; 0x42; 0x6d; 0x51; 0xa1; 0x53; 0x4a; 0x84; 0x50; 0x5f].

Definition unicode_prop_Variation_Selector_table : list Z := [
  0x58; 0x0a; 0x10; 0x80; 0x60; 0xe5; 0xef; 0x8f; 0x6d; 0x02; 0xef; 0x40; 0xef].

Definition unicode_prop_Bidi_Mirrored_table : list Z := [
  0xa7; 0x81; 0x91; 0x00; 0x80; 0x9b; 0x00; 0x80; 0x9c; 0x00; 0x80; 0xac; 0x80; 0x8e; 0x80; 0x4e;
  0x7d; 0x83; 0x47; 0x5c; 0x81; 0x49; 0x9b; 0x81; 0x89; 0x81; 0xb5; 0x81; 0x8d; 0x81; 0x40; 0xb0;
  0x80; 0x40; 0xbf; 0x1a; 0x2a; 0x02; 0x0a; 0x18; 0x18; 0x00; 0x03; 0x88; 0x20; 0x80; 0x91; 0x23;
  0x88; 0x08; 0x00; 0x38; 0x9f; 0x0b; 0x20; 0x88; 0x09; 0x92; 0x21; 0x88; 0x21; 0x0b; 0x97; 0x81;
  0x8f; 0x3b; 0x93; 0x0e; 0x81; 0x44; 0x3c; 0x8d; 0xc9; 0x01; 0x18; 0x08; 0x14; 0x1c; 0x12; 0x8d;
  0x41; 0x92; 0x95; 0x0d; 0x80; 0x8d; 0x38; 0x35; 0x10; 0x1c; 0x01; 0x0c; 0x18; 0x02; 0x09; 0x89;
  0x29; 0x81; 0x8b; 0x92; 0x03; 0x08; 0x00; 0x08; 0x03; 0x21; 0x2a; 0x97; 0x81; 0x8a; 0x0b; 0x18;
  0x09; 0x0b; 0xaa; 0x0f; 0x80; 0xa7; 0x20; 0x00; 0x14; 0x22; 0x18; 0x14; 0x00; 0x40; 0xff; 0x80;
  0x42; 0x02; 0x1a; 0x08; 0x81; 0x8d; 0x09; 0x89; 0xaa; 0x87; 0x41; 0xaa; 0x89; 0x0f; 0x60; 0xce;
  0x3c; 0x2c; 0x81; 0x40; 0xa1; 0x81; 0x91; 0x00; 0x80; 0x9b; 0x00; 0x80; 0x9c; 0x00; 0x00; 0x08;
  0x81; 0x60; 0xd7; 0x76; 0x80; 0xb8; 0x80; 0xb8; 0x80; 0xb8; 0x80; 0xb8; 0x80].

Definition unicode_prop_Emoji_table : list Z := [
  0xa2; 0x05; 0x04; 0x89; 0xee; 0x03; 0x80; 0x5f; 0x8c; 0x80; 0x8b; 0x80; 0x40; 0xd7; 0x80; 0x95;
  0x80; 0xd9; 0x85; 0x8e; 0x81; 0x41; 0x6e; 0x81; 0x8b; 0x80; 0x40; 0xa5; 0x80; 0x98; 0x8a; 0x1a;
  0x40; 0xc6; 0x80; 0x40; 0xe6; 0x81; 0x89; 0x80; 0x88; 0x80; 0xb9; 0x18; 0x84; 0x88; 0x01; 0x01;
  0x09; 0x03; 0x01; 0x00; 0x09; 0x02; 0x02; 0x0f; 0x14; 0x00; 0x04; 0x8b; 0x8a; 0x09; 0x00; 0x08;
  0x80; 0x91; 0x01; 0x81; 0x91; 0x28; 0x00; 0x0a; 0x0c; 0x01; 0x0b; 0x81; 0x8a; 0x0c; 0x09; 0x04;
  0x08; 0x00; 0x81; 0x93; 0x0c; 0x28; 0x19; 0x03; 0x01; 0x01; 0x28; 0x01; 0x00; 0x00; 0x05; 0x02;
  0x05; 0x80; 0x89; 0x81; 0x8e; 0x01; 0x03; 0x00; 0x03; 0x10; 0x80; 0x8a; 0x81; 0xaf; 0x82; 0x88;
  0x80; 0x8d; 0x80; 0x8d; 0x80; 0x41; 0x73; 0x81; 0x41; 0xce; 0x82; 0x92; 0x81; 0xb2; 0x03; 0x80;
  0x44; 0xd9; 0x80; 0x8b; 0x80; 0x42; 0x58; 0x00; 0x80; 0x61; 0xbd; 0x69; 0x80; 0x40; 0xc9; 0x80;
  0x40; 0x9f; 0x81; 0x8b; 0x81; 0x8d; 0x01; 0x89; 0xca; 0x99; 0x01; 0x96; 0x80; 0x93; 0x01; 0x88;
  0x94; 0x81; 0x40; 0xad; 0xa1; 0x81; 0xef; 0x09; 0x02; 0x81; 0xd2; 0x0a; 0x80; 0x41; 0x06; 0x80;
  0xbe; 0x8a; 0x28; 0x97; 0x31; 0x0f; 0x8b; 0x01; 0x19; 0x03; 0x81; 0x8c; 0x09; 0x07; 0x81; 0x88;
  0x04; 0x82; 0x8b; 0x17; 0x11; 0x00; 0x03; 0x05; 0x02; 0x05; 0xd5; 0xaf; 0xc5; 0x27; 0x0a; 0x83;
  0x89; 0x10; 0x01; 0x10; 0x81; 0x89; 0x40; 0xe2; 0x8b; 0x18; 0x41; 0x1a; 0xae; 0x80; 0x89; 0x80;
  0x40; 0xb8; 0xef; 0x8c; 0x82; 0x89; 0x84; 0xb7; 0x86; 0x8e; 0x81; 0x8a; 0x85; 0x88].

Definition unicode_prop_Emoji_Component_table : list Z := [
  0xa2; 0x05; 0x04; 0x89; 0x5f; 0xd2; 0x80; 0x40; 0xd4; 0x80; 0x60; 0xdd; 0x2a; 0x80; 0x60; 0xf3;
  0xd5; 0x99; 0x41; 0xfa; 0x84; 0x45; 0xaf; 0x83; 0x6c; 0x06; 0x6b; 0xdf].

Definition unicode_prop_Emoji_Modifier_table : list Z := [
  0x61; 0xf3; 0xfa; 0x84].

Definition unicode_prop_Emoji_Modifier_Base_table : list Z := [
  0x60; 0x26; 0x1c; 0x80; 0x40; 0xda; 0x80; 0x8f; 0x83; 0x61; 0xcc; 0x76; 0x80; 0xbb; 0x11; 0x01;
  0x82; 0xf4; 0x09; 0x8a; 0x94; 0x92; 0x10; 0x1a; 0x02; 0x30; 0x00; 0x97; 0x80; 0x40; 0xc8; 0x0b;
  0x80; 0x94; 0x03; 0x81; 0x40; 0xad; 0x12; 0x84; 0xd2; 0x80; 0x8f; 0x82; 0x88; 0x80; 0x8a; 0x80;
  0x42; 0x3e; 0x01; 0x07; 0x3d; 0x80; 0x88; 0x89; 0x0a; 0xb7; 0x80; 0xbc; 0x08; 0x08; 0x80; 0x90;
  0x10; 0x8c; 0x40; 0xe4; 0x82; 0xa9; 0x88].

Definition unicode_prop_Emoji_Presentation_table : list Z := [
  0x60; 0x23; 0x19; 0x81; 0x40; 0xcc; 0x1a; 0x01; 0x80; 0x42; 0x08; 0x81; 0x94; 0x81; 0xb1; 0x8b;
  0xaa; 0x80; 0x92; 0x80; 0x8c; 0x07; 0x81; 0x90; 0x0c; 0x0f; 0x04; 0x80; 0x94; 0x06; 0x08; 0x03;
  0x01; 0x06; 0x03; 0x81; 0x9b; 0x80; 0xa2; 0x00; 0x03; 0x10; 0x80; 0xbc; 0x82; 0x97; 0x80; 0x8d;
  0x80; 0x43; 0x5a; 0x81; 0xb2; 0x03; 0x80; 0x61; 0xc4; 0xad; 0x80; 0x40; 0xc9; 0x80; 0x40; 0xbd;
  0x01; 0x89; 0xca; 0x99; 0x00; 0x97; 0x80; 0x93; 0x01; 0x20; 0x82; 0x94; 0x81; 0x40; 0xad; 0xa0;
  0x8b; 0x88; 0x80; 0xc5; 0x80; 0x95; 0x8b; 0xaa; 0x1c; 0x8b; 0x90; 0x10; 0x82; 0xc6; 0x00; 0x80;
  0x40; 0xba; 0x81; 0xbe; 0x8c; 0x18; 0x97; 0x91; 0x80; 0x99; 0x81; 0x8c; 0x80; 0xd5; 0xd4; 0xaf;
  0xc5; 0x28; 0x12; 0x0a; 0x1b; 0x8a; 0x0e; 0x88; 0x40; 0xe2; 0x8b; 0x18; 0x41; 0x1a; 0xae; 0x80;
  0x89; 0x80; 0x40; 0xb8; 0xef; 0x8c; 0x82; 0x89; 0x84; 0xb7; 0x86; 0x8e; 0x81; 0x8a; 0x85; 0x88].

Definition unicode_prop_Extended_Pictographic_table : list Z := [
  0x40; 0xa8; 0x03; 0x80; 0x5f; 0x8c; 0x80; 0x8b; 0x80; 0x40; 0xd7; 0x80; 0x95; 0x80; 0xd9; 0x85;
  0x8e; 0x81; 0x41; 0x6e; 0x81; 0x8b; 0x80; 0xde; 0x80; 0xc5; 0x80; 0x98; 0x8a; 0x1a; 0x40; 0xc6;
  0x80; 0x40; 0xe6; 0x81; 0x89; 0x80; 0x88; 0x80; 0xb9; 0x18; 0x28; 0x8b; 0x80; 0xf1; 0x89; 0xf5;
  0x81; 0x8a; 0x00; 0x00; 0x28; 0x10; 0x28; 0x89; 0x81; 0x8e; 0x01; 0x03; 0x00; 0x03; 0x10; 0x80;
  0x8a; 0x84; 0xac; 0x82; 0x88; 0x80; 0x8d; 0x80; 0x8d; 0x80; 0x41; 0x73; 0x81; 0x41; 0xce; 0x82;
  0x92; 0x81; 0xb2; 0x03; 0x80; 0x44; 0xd9; 0x80; 0x8b; 0x80; 0x42; 0x58; 0x00; 0x80; 0x61; 0xbd;
  0x65; 0x40; 0xff; 0x8c; 0x82; 0x9e; 0x80; 0xbb; 0x85; 0x8b; 0x81; 0x8d; 0x01; 0x89; 0x91; 0xb8;
  0x9a; 0x8e; 0x89; 0x80; 0x93; 0x01; 0x88; 0x03; 0x88; 0x41; 0xb1; 0x84; 0x41; 0x3d; 0x87; 0x41;
  0x09; 0xaf; 0xff; 0xf3; 0x8b; 0xd4; 0xaa; 0x8b; 0x83; 0xb7; 0x87; 0x89; 0x85; 0xa7; 0x87; 0x9d;
  0xd1; 0x8b; 0xae; 0x80; 0x89; 0x80; 0x41; 0xb8; 0x40; 0xff; 0x43; 0xfd].

Definition unicode_prop_Default_Ignorable_Code_Point_table : list Z := [
  0x40; 0xac; 0x80; 0x42; 0xa0; 0x80; 0x42; 0xcb; 0x80; 0x4b; 0x41; 0x81; 0x46; 0x52; 0x81; 0xd4;
  0x84; 0x47; 0xfa; 0x84; 0x99; 0x84; 0xb0; 0x8f; 0x50; 0xf3; 0x80; 0x60; 0xcc; 0x9a; 0x8f; 0x40;
  0xee; 0x80; 0x40; 0x9f; 0x80; 0xce; 0x88; 0x60; 0xbc; 0xa6; 0x83; 0x54; 0xce; 0x87; 0x6c; 0x2e;
  0x84; 0x4f; 0xff].

(** ** The property numbers *)

Inductive UnicodePropertyEnum : Type :=
  | UNICODE_PROP_Hyphen
  | UNICODE_PROP_Other_Math
  | UNICODE_PROP_Other_Alphabetic
  | UNICODE_PROP_Other_Lowercase
  | UNICODE_PROP_Other_Uppercase
  | UNICODE_PROP_Other_Grapheme_Extend
  | UNICODE_PROP_Other_Default_Ignorable_Code_Point
  | UNICODE_PROP_Other_ID_Start
  | UNICODE_PROP_Other_ID_Continue
  | UNICODE_PROP_Prepended_Concatenation_Mark
  | UNICODE_PROP_ID_Continue1
  | UNICODE_PROP_XID_Start1
  | UNICODE_PROP_XID_Continue1
  | UNICODE_PROP_Changes_When_Titlecased1
  | UNICODE_PROP_Changes_When_Casefolded1
  | UNICODE_PROP_Changes_When_NFKC_Casefolded1
  | UNICODE_PROP_ASCII_Hex_Digit
  | UNICODE_PROP_Bidi_Control
  | UNICODE_PROP_Dash
  | UNICODE_PROP_Deprecated
  | UNICODE_PROP_Diacritic
  | UNICODE_PROP_Extender
  | UNICODE_PROP_Hex_Digit
  | UNICODE_PROP_IDS_Unary_Operator
  | UNICODE_PROP_IDS_Binary_Operator
  | UNICODE_PROP_IDS_Trinary_Operator
  | UNICODE_PROP_Ideographic
  | UNICODE_PROP_Join_Control
  | UNICODE_PROP_Logical_Order_Exception
  | UNICODE_PROP_Modifier_Combining_Mark
  | UNICODE_PROP_Noncharacter_Code_Point
  | UNICODE_PROP_Pattern_Syntax
  | UNICODE_PROP_Pattern_White_Space
  | UNICODE_PROP_Quotation_Mark
  | UNICODE_PROP_Radical
  | UNICODE_PROP_Regional_Indicator
  | UNICODE_PROP_Sentence_Terminal
  | UNICODE_PROP_Soft_Dotted
  | UNICODE_PROP_Terminal_Punctuation
  | UNICODE_PROP_Unified_Ideograph
  | UNICODE_PROP_Variation_Selector
  | UNICODE_PROP_White_Space
  | UNICODE_PROP_Bidi_Mirrored
  | UNICODE_PROP_Emoji
  | UNICODE_PROP_Emoji_Component
  | UNICODE_PROP_Emoji_Modifier
  | UNICODE_PROP_Emoji_Modifier_Base
  | UNICODE_PROP_Emoji_Presentation
  | UNICODE_PROP_Extended_Pictographic
  | UNICODE_PROP_Default_Ignorable_Code_Point
  | UNICODE_PROP_ID_Start
  | UNICODE_PROP_Case_Ignorable
  | UNICODE_PROP_ASCII
  | UNICODE_PROP_Alphabetic
  | UNICODE_PROP_Any
  | UNICODE_PROP_Assigned
  | UNICODE_PROP_Cased
  | UNICODE_PROP_Changes_When_Casefolded
  | UNICODE_PROP_Changes_When_Casemapped
  | UNICODE_PROP_Changes_When_Lowercased
  | UNICODE_PROP_Changes_When_NFKC_Casefolded
  | UNICODE_PROP_Changes_When_Titlecased
  | UNICODE_PROP_Changes_When_Uppercased
  | UNICODE_PROP_Grapheme_Base
  | UNICODE_PROP_Grapheme_Extend
  | UNICODE_PROP_ID_Continue
  | UNICODE_PROP_ID_Compat_Math_Start
  | UNICODE_PROP_ID_Compat_Math_Continue
  | UNICODE_PROP_Lowercase
  | UNICODE_PROP_Math
  | UNICODE_PROP_Uppercase
  | UNICODE_PROP_XID_Continue
  | UNICODE_PROP_XID_Start
  | UNICODE_PROP_Cased1
  | UNICODE_PROP_InCB.

(** The enumerators in order: the value of each is its place. *)
Definition unicode_properties : list UnicodePropertyEnum := [
  UNICODE_PROP_Hyphen;
  UNICODE_PROP_Other_Math;
  UNICODE_PROP_Other_Alphabetic;
  UNICODE_PROP_Other_Lowercase;
  UNICODE_PROP_Other_Uppercase;
  UNICODE_PROP_Other_Grapheme_Extend;
  UNICODE_PROP_Other_Default_Ignorable_Code_Point;
  UNICODE_PROP_Other_ID_Start;
  UNICODE_PROP_Other_ID_Continue;
  UNICODE_PROP_Prepended_Concatenation_Mark;
  UNICODE_PROP_ID_Continue1;
  UNICODE_PROP_XID_Start1;
  UNICODE_PROP_XID_Continue1;
  UNICODE_PROP_Changes_When_Titlecased1;
  UNICODE_PROP_Changes_When_Casefolded1;
  UNICODE_PROP_Changes_When_NFKC_Casefolded1;
  UNICODE_PROP_ASCII_Hex_Digit;
  UNICODE_PROP_Bidi_Control;
  UNICODE_PROP_Dash;
  UNICODE_PROP_Deprecated;
  UNICODE_PROP_Diacritic;
  UNICODE_PROP_Extender;
  UNICODE_PROP_Hex_Digit;
  UNICODE_PROP_IDS_Unary_Operator;
  UNICODE_PROP_IDS_Binary_Operator;
  UNICODE_PROP_IDS_Trinary_Operator;
  UNICODE_PROP_Ideographic;
  UNICODE_PROP_Join_Control;
  UNICODE_PROP_Logical_Order_Exception;
  UNICODE_PROP_Modifier_Combining_Mark;
  UNICODE_PROP_Noncharacter_Code_Point;
  UNICODE_PROP_Pattern_Syntax;
  UNICODE_PROP_Pattern_White_Space;
  UNICODE_PROP_Quotation_Mark;
  UNICODE_PROP_Radical;
  UNICODE_PROP_Regional_Indicator;
  UNICODE_PROP_Sentence_Terminal;
  UNICODE_PROP_Soft_Dotted;
  UNICODE_PROP_Terminal_Punctuation;
  UNICODE_PROP_Unified_Ideograph;
  UNICODE_PROP_Variation_Selector;
  UNICODE_PROP_White_Space;
  UNICODE_PROP_Bidi_Mirrored;
  UNICODE_PROP_Emoji;
  UNICODE_PROP_Emoji_Component;
  UNICODE_PROP_Emoji_Modifier;
  UNICODE_PROP_Emoji_Modifier_Base;
  UNICODE_PROP_Emoji_Presentation;
  UNICODE_PROP_Extended_Pictographic;
  UNICODE_PROP_Default_Ignorable_Code_Point;
  UNICODE_PROP_ID_Start;
  UNICODE_PROP_Case_Ignorable;
  UNICODE_PROP_ASCII;
  UNICODE_PROP_Alphabetic;
  UNICODE_PROP_Any;
  UNICODE_PROP_Assigned;
  UNICODE_PROP_Cased;
  UNICODE_PROP_Changes_When_Casefolded;
  UNICODE_PROP_Changes_When_Casemapped;
  UNICODE_PROP_Changes_When_Lowercased;
  UNICODE_PROP_Changes_When_NFKC_Casefolded;
  UNICODE_PROP_Changes_When_Titlecased;
  UNICODE_PROP_Changes_When_Uppercased;
  UNICODE_PROP_Grapheme_Base;
  UNICODE_PROP_Grapheme_Extend;
  UNICODE_PROP_ID_Continue;
  UNICODE_PROP_ID_Compat_Math_Start;
  UNICODE_PROP_ID_Compat_Math_Continue;
  UNICODE_PROP_Lowercase;
  UNICODE_PROP_Math;
  UNICODE_PROP_Uppercase;
  UNICODE_PROP_XID_Continue;
  UNICODE_PROP_XID_Start;
  UNICODE_PROP_Cased1;
  UNICODE_PROP_InCB].

Definition prop_code (p : UnicodePropertyEnum) : Z :=
  match p with
  | UNICODE_PROP_Hyphen => 0
  | UNICODE_PROP_Other_Math => 1
  | UNICODE_PROP_Other_Alphabetic => 2
  | UNICODE_PROP_Other_Lowercase => 3
  | UNICODE_PROP_Other_Uppercase => 4
  | UNICODE_PROP_Other_Grapheme_Extend => 5
  | UNICODE_PROP_Other_Default_Ignorable_Code_Point => 6
  | UNICODE_PROP_Other_ID_Start => 7
  | UNICODE_PROP_Other_ID_Continue => 8
  | UNICODE_PROP_Prepended_Concatenation_Mark => 9
  | UNICODE_PROP_ID_Continue1 => 10
  | UNICODE_PROP_XID_Start1 => 11
  | UNICODE_PROP_XID_Continue1 => 12
  | UNICODE_PROP_Changes_When_Titlecased1 => 13
  | UNICODE_PROP_Changes_When_Casefolded1 => 14
  | UNICODE_PROP_Changes_When_NFKC_Casefolded1 => 15
  | UNICODE_PROP_ASCII_Hex_Digit => 16
  | UNICODE_PROP_Bidi_Control => 17
  | UNICODE_PROP_Dash => 18
  | UNICODE_PROP_Deprecated => 19
  | UNICODE_PROP_Diacritic => 20
  | UNICODE_PROP_Extender => 21
  | UNICODE_PROP_Hex_Digit => 22
  | UNICODE_PROP_IDS_Unary_Operator => 23
  | UNICODE_PROP_IDS_Binary_Operator => 24
  | UNICODE_PROP_IDS_Trinary_Operator => 25
  | UNICODE_PROP_Ideographic => 26
  | UNICODE_PROP_Join_Control => 27
  | UNICODE_PROP_Logical_Order_Exception => 28
  | UNICODE_PROP_Modifier_Combining_Mark => 29
  | UNICODE_PROP_Noncharacter_Code_Point => 30
  | UNICODE_PROP_Pattern_Syntax => 31
  | UNICODE_PROP_Pattern_White_Space => 32
  | UNICODE_PROP_Quotation_Mark => 33
  | UNICODE_PROP_Radical => 34
  | UNICODE_PROP_Regional_Indicator => 35
  | UNICODE_PROP_Sentence_Terminal => 36
  | UNICODE_PROP_Soft_Dotted => 37
  | UNICODE_PROP_Terminal_Punctuation => 38
  | UNICODE_PROP_Unified_Ideograph => 39
  | UNICODE_PROP_Variation_Selector => 40
  | UNICODE_PROP_White_Space => 41
  | UNICODE_PROP_Bidi_Mirrored => 42
  | UNICODE_PROP_Emoji => 43
  | UNICODE_PROP_Emoji_Component => 44
  | UNICODE_PROP_Emoji_Modifier => 45
  | UNICODE_PROP_Emoji_Modifier_Base => 46
  | UNICODE_PROP_Emoji_Presentation => 47
  | UNICODE_PROP_Extended_Pictographic => 48
  | UNICODE_PROP_Default_Ignorable_Code_Point => 49
  | UNICODE_PROP_ID_Start => 50
  | UNICODE_PROP_Case_Ignorable => 51
  | UNICODE_PROP_ASCII => 52
  | UNICODE_PROP_Alphabetic => 53
  | UNICODE_PROP_Any => 54
  | UNICODE_PROP_Assigned => 55
  | UNICODE_PROP_Cased => 56
  | UNICODE_PROP_Changes_When_Casefolded => 57
  | UNICODE_PROP_Changes_When_Casemapped => 58
  | UNICODE_PROP_Changes_When_Lowercased => 59
  | UNICODE_PROP_Changes_When_NFKC_Casefolded => 60
  | UNICODE_PROP_Changes_When_Titlecased => 61
  | UNICODE_PROP_Changes_When_Uppercased => 62
  | UNICODE_PROP_Grapheme_Base => 63
  | UNICODE_PROP_Grapheme_Extend => 64
  | UNICODE_PROP_ID_Continue => 65
  | UNICODE_PROP_ID_Compat_Math_Start => 66
  | UNICODE_PROP_ID_Compat_Math_Continue => 67
  | UNICODE_PROP_Lowercase => 68
  | UNICODE_PROP_Math => 69
  | UNICODE_PROP_Uppercase => 70
  | UNICODE_PROP_XID_Continue => 71
  | UNICODE_PROP_XID_Start => 72
  | UNICODE_PROP_Cased1 => 73
  | UNICODE_PROP_InCB => 74
  end.

Lemma prop_code_place p : unicode_properties !! Z.to_nat (prop_code p) = Some p.
Proof. by destruct p. Qed.

(** [unicode_prop_table] with the lengths of [unicode_prop_len_table]. *)
Definition unicode_prop_table : list (list Z) := [
  unicode_prop_Hyphen_table;
  unicode_prop_Other_Math_table;
  unicode_prop_Other_Alphabetic_table;
  unicode_prop_Other_Lowercase_table;
  unicode_prop_Other_Uppercase_table;
  unicode_prop_Other_Grapheme_Extend_table;
  unicode_prop_Other_Default_Ignorable_Code_Point_table;
  unicode_prop_Other_ID_Start_table;
  unicode_prop_Other_ID_Continue_table;
  unicode_prop_Prepended_Concatenation_Mark_table;
  unicode_prop_ID_Continue1_table;
  unicode_prop_XID_Start1_table;
  unicode_prop_XID_Continue1_table;
  unicode_prop_Changes_When_Titlecased1_table;
  unicode_prop_Changes_When_Casefolded1_table;
  unicode_prop_Changes_When_NFKC_Casefolded1_table;
  unicode_prop_ASCII_Hex_Digit_table;
  unicode_prop_Bidi_Control_table;
  unicode_prop_Dash_table;
  unicode_prop_Deprecated_table;
  unicode_prop_Diacritic_table;
  unicode_prop_Extender_table;
  unicode_prop_Hex_Digit_table;
  unicode_prop_IDS_Unary_Operator_table;
  unicode_prop_IDS_Binary_Operator_table;
  unicode_prop_IDS_Trinary_Operator_table;
  unicode_prop_Ideographic_table;
  unicode_prop_Join_Control_table;
  unicode_prop_Logical_Order_Exception_table;
  unicode_prop_Modifier_Combining_Mark_table;
  unicode_prop_Noncharacter_Code_Point_table;
  unicode_prop_Pattern_Syntax_table;
  unicode_prop_Pattern_White_Space_table;
  unicode_prop_Quotation_Mark_table;
  unicode_prop_Radical_table;
  unicode_prop_Regional_Indicator_table;
  unicode_prop_Sentence_Terminal_table;
  unicode_prop_Soft_Dotted_table;
  unicode_prop_Terminal_Punctuation_table;
  unicode_prop_Unified_Ideograph_table;
  unicode_prop_Variation_Selector_table;
  unicode_prop_White_Space_table;
  unicode_prop_Bidi_Mirrored_table;
  unicode_prop_Emoji_table;
  unicode_prop_Emoji_Component_table;
  unicode_prop_Emoji_Modifier_table;
  unicode_prop_Emoji_Modifier_Base_table;
  unicode_prop_Emoji_Presentation_table;
  unicode_prop_Extended_Pictographic_table;
  unicode_prop_Default_Ignorable_Code_Point_table;
  unicode_prop_ID_Start_table;
  unicode_prop_Case_Ignorable_table].
Definition unicode_prop_len_table : list Z := (λ t, Z.of_nat (length t)) <$> unicode_prop_table.

Definition unicode_prop_name_table : list Z := name_table [
  "ASCII_Hex_Digit,AHex"; "Bidi_Control,Bidi_C"; "Dash"; "Deprecated,Dep"; "Diacritic,Dia"; "Extender,Ext";
  "Hex_Digit,Hex"; "IDS_Unary_Operator,IDSU"; "IDS_Binary_Operator,IDSB"; "IDS_Trinary_Operator,IDST";
  "Ideographic,Ideo"; "Join_Control,Join_C"; "Logical_Order_Exception,LOE"; "Modifier_Combining_Mark,MCM";
  "Noncharacter_Code_Point,NChar"; "Pattern_Syntax,Pat_Syn"; "Pattern_White_Space,Pat_WS";
  "Quotation_Mark,QMark"; "Radical"; "Regional_Indicator,RI"; "Sentence_Terminal,STerm"; "Soft_Dotted,SD";
  "Terminal_Punctuation,Term"; "Unified_Ideograph,UIdeo"; "Variation_Selector,VS"; "White_Space,space";
  "Bidi_Mirrored,Bidi_M"; "Emoji"; "Emoji_Component,EComp"; "Emoji_Modifier,EMod";
  "Emoji_Modifier_Base,EBase"; "Emoji_Presentation,EPres"; "Extended_Pictographic,ExtPict";
  "Default_Ignorable_Code_Point,DI"; "ID_Start,IDS"; "Case_Ignorable,CI"; "ASCII"; "Alphabetic,Alpha"; "Any";
  "Assigned"; "Cased"; "Changes_When_Casefolded,CWCF"; "Changes_When_Casemapped,CWCM";
  "Changes_When_Lowercased,CWL"; "Changes_When_NFKC_Casefolded,CWKCF"; "Changes_When_Titlecased,CWT";
  "Changes_When_Uppercased,CWU"; "Grapheme_Base,Gr_Base"; "Grapheme_Extend,Gr_Ext"; "ID_Continue,IDC";
  "ID_Compat_Math_Start"; "ID_Compat_Math_Continue"; "Lowercase,Lower"; "Math"; "Uppercase,Upper";
  "XID_Continue,XIDC"; "XID_Start,XIDS"].

(** * Unicode tables: general categories and scripts

    The tables of [src/vendors/qjs/quickjs/libunicode-table.h] for the general
    category and the script of every code point, number for number. *)

(** ** General categories *)

Inductive UnicodeGCEnum : Type :=
  | UNICODE_GC_Cn
  | UNICODE_GC_Lu
  | UNICODE_GC_Ll
  | UNICODE_GC_Lt
  | UNICODE_GC_Lm
  | UNICODE_GC_Lo
  | UNICODE_GC_Mn
  | UNICODE_GC_Mc
  | UNICODE_GC_Me
  | UNICODE_GC_Nd
  | UNICODE_GC_Nl
  | UNICODE_GC_No
  | UNICODE_GC_Sm
  | UNICODE_GC_Sc
  | UNICODE_GC_Sk
  | UNICODE_GC_So
  | UNICODE_GC_Pc
  | UNICODE_GC_Pd
  | UNICODE_GC_Ps
  | UNICODE_GC_Pe
  | UNICODE_GC_Pi
  | UNICODE_GC_Pf
  | UNICODE_GC_Po
  | UNICODE_GC_Zs
  | UNICODE_GC_Zl
  | UNICODE_GC_Zp
  | UNICODE_GC_Cc
  | UNICODE_GC_Cf
  | UNICODE_GC_Cs
  | UNICODE_GC_Co
  | UNICODE_GC_LC
  | UNICODE_GC_L
  | UNICODE_GC_M
  | UNICODE_GC_N
  | UNICODE_GC_S
  | UNICODE_GC_P
  | UNICODE_GC_Z
  | UNICODE_GC_C.

Definition gc_code (g : UnicodeGCEnum) : Z :=
  match g with
  | UNICODE_GC_Cn => 0
  | UNICODE_GC_Lu => 1
  | UNICODE_GC_Ll => 2
  | UNICODE_GC_Lt => 3
  | UNICODE_GC_Lm => 4
  | UNICODE_GC_Lo => 5
  | UNICODE_GC_Mn => 6
  | UNICODE_GC_Mc => 7
  | UNICODE_GC_Me => 8
  | UNICODE_GC_Nd => 9
  | UNICODE_GC_Nl => 10
  | UNICODE_GC_No => 11
  | UNICODE_GC_Sm => 12
  | UNICODE_GC_Sc => 13
  | UNICODE_GC_Sk => 14
  | UNICODE_GC_So => 15
  | UNICODE_GC_Pc => 16
  | UNICODE_GC_Pd => 17
  | UNICODE_GC_Ps => 18
  | UNICODE_GC_Pe => 19
  | UNICODE_GC_Pi => 20
  | UNICODE_GC_Pf => 21
  | UNICODE_GC_Po => 22
  | UNICODE_GC_Zs => 23
  | UNICODE_GC_Zl => 24
  | UNICODE_GC_Zp => 25
  | UNICODE_GC_Cc => 26
  | UNICODE_GC_Cf => 27
  | UNICODE_GC_Cs => 28
  | UNICODE_GC_Co => 29
  | UNICODE_GC_LC => 30
  | UNICODE_GC_L => 31
  | UNICODE_GC_M => 32
  | UNICODE_GC_N => 33
  | UNICODE_GC_S => 34
  | UNICODE_GC_P => 35
  | UNICODE_GC_Z => 36
  | UNICODE_GC_C => 37
  end.

Definition unicode_gc_name_table : list Z := name_table [
  "Cn,Unassigned"; "Lu,Uppercase_Letter"; "Ll,Lowercase_Letter"; "Lt,Titlecase_Letter"; "Lm,Modifier_Letter";
  "Lo,Other_Letter"; "Mn,Nonspacing_Mark"; "Mc,Spacing_Mark"; "Me,Enclosing_Mark"; "Nd,Decimal_Number,digit";
  "Nl,Letter_Number"; "No,Other_Number"; "Sm,Math_Symbol"; "Sc,Currency_Symbol"; "Sk,Modifier_Symbol";
  "So,Other_Symbol"; "Pc,Connector_Punctuation"; "Pd,Dash_Punctuation"; "Ps,Open_Punctuation";
  "Pe,Close_Punctuation"; "Pi,Initial_Punctuation"; "Pf,Final_Punctuation"; "Po,Other_Punctuation";
  "Zs,Space_Separator"; "Zl,Line_Separator"; "Zp,Paragraph_Separator"; "Cc,Control,cntrl"; "Cf,Format";
  "Cs,Surrogate"; "Co,Private_Use"; "LC,Cased_Letter"; "L,Letter"; "M,Mark,Combining_Mark"; "N,Number";
  "S,Symbol"; "P,Punctuation,punct"; "Z,Separator"; "C,Other"].

Definition unicode_gc_table : list Z := [
  0xfa; 0x18; 0x17; 0x56; 0x0d; 0x56; 0x12; 0x13; 0x16; 0x0c; 0x16; 0x11; 0x36; 0xe9; 0x02; 0x36;
  0x4c; 0x36; 0xe1; 0x12; 0x12; 0x16; 0x13; 0x0e; 0x10; 0x0e; 0xe2; 0x12; 0x12; 0x0c; 0x13; 0x0c;
  0xfa; 0x19; 0x17; 0x16; 0x6d; 0x0f; 0x16; 0x0e; 0x0f; 0x05; 0x14; 0x0c; 0x1b; 0x0f; 0x0e; 0x0f;
  0x0c; 0x2b; 0x0e; 0x02; 0x36; 0x0e; 0x0b; 0x05; 0x15; 0x4b; 0x16; 0xe1; 0x0f; 0x0c; 0xc1; 0xe2;
  0x10; 0x0c; 0xe2; 0x00; 0xff; 0x30; 0x02; 0xff; 0x08; 0x02; 0xff; 0x27; 0xbf; 0x22; 0x21; 0x02;
  0x5f; 0x5f; 0x21; 0x22; 0x61; 0x02; 0x21; 0x02; 0x41; 0x42; 0x21; 0x02; 0x21; 0x02; 0x9f; 0x7f;
  0x02; 0x5f; 0x5f; 0x21; 0x02; 0x5f; 0x3f; 0x02; 0x05; 0x3f; 0x22; 0x65; 0x01; 0x03; 0x02; 0x01;
  0x03; 0x02; 0x01; 0x03; 0x02; 0xff; 0x08; 0x02; 0xff; 0x0a; 0x02; 0x01; 0x03; 0x02; 0x5f; 0x21;
  0x02; 0xff; 0x32; 0xa2; 0x21; 0x02; 0x21; 0x22; 0x5f; 0x41; 0x02; 0xff; 0x00; 0xe2; 0x3c; 0x05;
  0xe2; 0x13; 0xe4; 0x0a; 0x6e; 0xe4; 0x04; 0xee; 0x06; 0x84; 0xce; 0x04; 0x0e; 0x04; 0xee; 0x09;
  0xe6; 0x68; 0x7f; 0x04; 0x0e; 0x3f; 0x20; 0x04; 0x42; 0x16; 0x01; 0x60; 0x2e; 0x01; 0x16; 0x41;
  0x00; 0x01; 0x00; 0x21; 0x02; 0xe1; 0x09; 0x00; 0xe1; 0x01; 0xe2; 0x1b; 0x3f; 0x02; 0x41; 0x42;
  0xff; 0x10; 0x62; 0x3f; 0x0c; 0x5f; 0x3f; 0x02; 0xe1; 0x2b; 0xe2; 0x28; 0xff; 0x1a; 0x0f; 0x86;
  0x28; 0xff; 0x2f; 0xff; 0x06; 0x02; 0xff; 0x58; 0x00; 0xe1; 0x1e; 0x20; 0x04; 0xb6; 0xe2; 0x21;
  0x16; 0x11; 0x20; 0x2f; 0x0d; 0x00; 0xe6; 0x25; 0x11; 0x06; 0x16; 0x26; 0x16; 0x26; 0x16; 0x06;
  0xe0; 0x00; 0xe5; 0x13; 0x60; 0x65; 0x36; 0xe0; 0x03; 0xbb; 0x4c; 0x36; 0x0d; 0x36; 0x2f; 0xe6;
  0x03; 0x16; 0x1b; 0x56; 0xe5; 0x18; 0x04; 0xe5; 0x02; 0xe6; 0x0d; 0xe9; 0x02; 0x76; 0x25; 0x06;
  0xe5; 0x5b; 0x16; 0x05; 0xc6; 0x1b; 0x0f; 0xa6; 0x24; 0x26; 0x0f; 0x66; 0x25; 0xe9; 0x02; 0x45;
  0x2f; 0x05; 0xf6; 0x06; 0x00; 0x1b; 0x05; 0x06; 0xe5; 0x16; 0xe6; 0x13; 0x20; 0xe5; 0x51; 0xe6;
  0x03; 0x05; 0xe0; 0x06; 0xe9; 0x02; 0xe5; 0x19; 0xe6; 0x01; 0x24; 0x0f; 0x56; 0x04; 0x20; 0x06;
  0x2d; 0xe5; 0x0e; 0x66; 0x04; 0xe6; 0x01; 0x04; 0x46; 0x04; 0x86; 0x20; 0xf6; 0x07; 0x00; 0xe5;
  0x11; 0x46; 0x20; 0x16; 0x00; 0xe5; 0x03; 0x80; 0xe5; 0x10; 0x0e; 0xa5; 0x00; 0x3b; 0x80; 0xe6;
  0x01; 0xe5; 0x21; 0x04; 0xe6; 0x10; 0x1b; 0xe6; 0x18; 0x07; 0xe5; 0x2e; 0x06; 0x07; 0x06; 0x05;
  0x47; 0xe6; 0x00; 0x67; 0x06; 0x27; 0x05; 0xc6; 0xe5; 0x02; 0x26; 0x36; 0xe9; 0x02; 0x16; 0x04;
  0xe5; 0x07; 0x06; 0x27; 0x00; 0xe5; 0x00; 0x20; 0x25; 0x20; 0xe5; 0x0e; 0x00; 0xc5; 0x00; 0x05;
  0x40; 0x65; 0x20; 0x06; 0x05; 0x47; 0x66; 0x20; 0x27; 0x20; 0x27; 0x06; 0x05; 0xe0; 0x00; 0x07;
  0x60; 0x25; 0x00; 0x45; 0x26; 0x20; 0xe9; 0x02; 0x25; 0x2d; 0xab; 0x0f; 0x0d; 0x05; 0x16; 0x06;
  0x20; 0x26; 0x07; 0x00; 0xa5; 0x60; 0x25; 0x20; 0xe5; 0x0e; 0x00; 0xc5; 0x00; 0x25; 0x00; 0x25;
  0x00; 0x25; 0x20; 0x06; 0x00; 0x47; 0x26; 0x60; 0x26; 0x20; 0x46; 0x40; 0x06; 0xc0; 0x65; 0x00;
  0x05; 0xc0; 0xe9; 0x02; 0x26; 0x45; 0x06; 0x16; 0xe0; 0x02; 0x26; 0x07; 0x00; 0xe5; 0x01; 0x00;
  0x45; 0x00; 0xe5; 0x0e; 0x00; 0xc5; 0x00; 0x25; 0x00; 0x85; 0x20; 0x06; 0x05; 0x47; 0x86; 0x00;
  0x26; 0x07; 0x00; 0x27; 0x06; 0x20; 0x05; 0xe0; 0x07; 0x25; 0x26; 0x20; 0xe9; 0x02; 0x16; 0x0d;
  0xc0; 0x05; 0xa6; 0x00; 0x06; 0x27; 0x00; 0xe5; 0x00; 0x20; 0x25; 0x20; 0xe5; 0x0e; 0x00; 0xc5;
  0x00; 0x25; 0x00; 0x85; 0x20; 0x06; 0x05; 0x07; 0x06; 0x07; 0x66; 0x20; 0x27; 0x20; 0x27; 0x06;
  0xc0; 0x26; 0x07; 0x60; 0x25; 0x00; 0x45; 0x26; 0x20; 0xe9; 0x02; 0x0f; 0x05; 0xab; 0xe0; 0x02;
  0x06; 0x05; 0x00; 0xa5; 0x40; 0x45; 0x00; 0x65; 0x40; 0x25; 0x00; 0x05; 0x00; 0x25; 0x40; 0x25;
  0x40; 0x45; 0x40; 0xe5; 0x04; 0x60; 0x27; 0x06; 0x27; 0x40; 0x47; 0x00; 0x47; 0x06; 0x20; 0x05;
  0xa0; 0x07; 0xe0; 0x06; 0xe9; 0x02; 0x4b; 0xaf; 0x0d; 0x0f; 0x80; 0x06; 0x47; 0x06; 0xe5; 0x00;
  0x00; 0x45; 0x00; 0xe5; 0x0f; 0x00; 0xe5; 0x08; 0x20; 0x06; 0x05; 0x46; 0x67; 0x00; 0x46; 0x00;
  0x66; 0xc0; 0x26; 0x00; 0x45; 0x20; 0x05; 0x20; 0x25; 0x26; 0x20; 0xe9; 0x02; 0xc0; 0x16; 0xcb;
  0x0f; 0x05; 0x06; 0x27; 0x16; 0xe5; 0x00; 0x00; 0x45; 0x00; 0xe5; 0x0f; 0x00; 0xe5; 0x02; 0x00;
  0x85; 0x20; 0x06; 0x05; 0x07; 0x06; 0x87; 0x00; 0x06; 0x27; 0x00; 0x27; 0x26; 0xc0; 0x27; 0xa0;
  0x25; 0x00; 0x25; 0x26; 0x20; 0xe9; 0x02; 0x00; 0x25; 0x07; 0xe0; 0x04; 0x26; 0x27; 0xe5; 0x01;
  0x00; 0x45; 0x00; 0xe5; 0x21; 0x26; 0x05; 0x47; 0x66; 0x00; 0x47; 0x00; 0x47; 0x06; 0x05; 0x0f;
  0x60; 0x45; 0x07; 0xcb; 0x45; 0x26; 0x20; 0xe9; 0x02; 0xeb; 0x01; 0x0f; 0xa5; 0x00; 0x06; 0x27;
  0x00; 0xe5; 0x0a; 0x40; 0xe5; 0x10; 0x00; 0xe5; 0x01; 0x00; 0x05; 0x20; 0xc5; 0x40; 0x06; 0x60;
  0x47; 0x46; 0x00; 0x06; 0x00; 0xe7; 0x00; 0xa0; 0xe9; 0x02; 0x20; 0x27; 0x16; 0xe0; 0x04; 0xe5;
  0x28; 0x06; 0x25; 0xc6; 0x60; 0x0d; 0xa5; 0x04; 0xe6; 0x00; 0x16; 0xe9; 0x02; 0x36; 0xe0; 0x1d;
  0x25; 0x00; 0x05; 0x00; 0x85; 0x00; 0xe5; 0x10; 0x00; 0x05; 0x00; 0xe5; 0x02; 0x06; 0x25; 0xe6;
  0x01; 0x05; 0x20; 0x85; 0x00; 0x04; 0x00; 0xc6; 0x00; 0xe9; 0x02; 0x20; 0x65; 0xe0; 0x18; 0x05;
  0x4f; 0xf6; 0x07; 0x0f; 0x16; 0x4f; 0x26; 0xaf; 0xe9; 0x02; 0xeb; 0x02; 0x0f; 0x06; 0x0f; 0x06;
  0x0f; 0x06; 0x12; 0x13; 0x12; 0x13; 0x27; 0xe5; 0x00; 0x00; 0xe5; 0x1c; 0x60; 0xe6; 0x06; 0x07;
  0x86; 0x16; 0x26; 0x85; 0xe6; 0x03; 0x00; 0xe6; 0x1c; 0x00; 0xef; 0x00; 0x06; 0xaf; 0x00; 0x2f;
  0x96; 0x6f; 0x36; 0xe0; 0x1d; 0xe5; 0x23; 0x27; 0x66; 0x07; 0xa6; 0x07; 0x26; 0x27; 0x26; 0x05;
  0xe9; 0x02; 0xb6; 0xa5; 0x27; 0x26; 0x65; 0x46; 0x05; 0x47; 0x25; 0xc7; 0x45; 0x66; 0xe5; 0x05;
  0x06; 0x27; 0x26; 0xa7; 0x06; 0x05; 0x07; 0xe9; 0x02; 0x47; 0x06; 0x2f; 0xe1; 0x1e; 0x00; 0x01;
  0x80; 0x01; 0x20; 0xe2; 0x23; 0x16; 0x04; 0x42; 0xe5; 0x80; 0xc1; 0x00; 0x65; 0x20; 0xc5; 0x00;
  0x05; 0x00; 0x65; 0x20; 0xe5; 0x21; 0x00; 0x65; 0x20; 0xe5; 0x19; 0x00; 0x65; 0x20; 0xc5; 0x00;
  0x05; 0x00; 0x65; 0x20; 0xe5; 0x07; 0x00; 0xe5; 0x31; 0x00; 0x65; 0x20; 0xe5; 0x3b; 0x20; 0x46;
  0xf6; 0x01; 0xeb; 0x0c; 0x40; 0xe5; 0x08; 0xef; 0x02; 0xa0; 0xe1; 0x4e; 0x20; 0xa2; 0x20; 0x11;
  0xe5; 0x81; 0xe4; 0x0f; 0x16; 0xe5; 0x09; 0x17; 0xe5; 0x12; 0x12; 0x13; 0x40; 0xe5; 0x43; 0x56;
  0x4a; 0xe5; 0x00; 0xc0; 0xe5; 0x0a; 0x46; 0x07; 0xe0; 0x01; 0xe5; 0x0b; 0x26; 0x07; 0x36; 0xe0;
  0x01; 0xe5; 0x0a; 0x26; 0xe0; 0x04; 0xe5; 0x05; 0x00; 0x45; 0x00; 0x26; 0xe0; 0x04; 0xe5; 0x2c;
  0x26; 0x07; 0xc6; 0xe7; 0x00; 0x06; 0x27; 0xe6; 0x03; 0x56; 0x04; 0x56; 0x0d; 0x05; 0x06; 0x20;
  0xe9; 0x02; 0xa0; 0xeb; 0x02; 0xa0; 0xb6; 0x11; 0x76; 0x46; 0x1b; 0x06; 0xe9; 0x02; 0xa0; 0xe5;
  0x1b; 0x04; 0xe5; 0x2d; 0xc0; 0x85; 0x26; 0xe5; 0x1a; 0x06; 0x05; 0x80; 0xe5; 0x3e; 0xe0; 0x02;
  0xe5; 0x17; 0x00; 0x46; 0x67; 0x26; 0x47; 0x60; 0x27; 0x06; 0xa7; 0x46; 0x60; 0x0f; 0x40; 0x36;
  0xe9; 0x02; 0xe5; 0x16; 0x20; 0x85; 0xe0; 0x03; 0xe5; 0x24; 0x60; 0xe5; 0x12; 0xa0; 0xe9; 0x02;
  0x0b; 0x40; 0xef; 0x1a; 0xe5; 0x0f; 0x26; 0x27; 0x06; 0x20; 0x36; 0xe5; 0x2d; 0x07; 0x06; 0x07;
  0xc6; 0x00; 0x06; 0x07; 0x06; 0x27; 0xe6; 0x00; 0xa7; 0xe6; 0x02; 0x20; 0x06; 0xe9; 0x02; 0xa0;
  0xe9; 0x02; 0xa0; 0xd6; 0x04; 0xb6; 0x20; 0xe6; 0x06; 0x08; 0xe6; 0x08; 0xe0; 0x29; 0x66; 0x07;
  0xe5; 0x27; 0x06; 0x07; 0x86; 0x07; 0x06; 0x87; 0x06; 0x27; 0xe5; 0x00; 0x00; 0x36; 0xe9; 0x02;
  0xd6; 0xef; 0x02; 0xe6; 0x01; 0xef; 0x01; 0x56; 0x26; 0x07; 0xe5; 0x16; 0x07; 0x66; 0x27; 0x26;
  0x07; 0x46; 0x25; 0xe9; 0x02; 0xe5; 0x24; 0x06; 0x07; 0x26; 0x47; 0x06; 0x07; 0x46; 0x27; 0xe0;
  0x00; 0x76; 0xe5; 0x1c; 0xe7; 0x00; 0xe6; 0x00; 0x27; 0x26; 0x40; 0x96; 0xe9; 0x02; 0x40; 0x45;
  0xe9; 0x02; 0xe5; 0x16; 0xa4; 0x36; 0xe2; 0x01; 0x3f; 0x80; 0xe1; 0x23; 0x20; 0x41; 0xf6; 0x00;
  0xe0; 0x00; 0x46; 0x16; 0xe6; 0x05; 0x07; 0xc6; 0x65; 0x06; 0xa5; 0x06; 0x25; 0x07; 0x26; 0x05;
  0x80; 0xe2; 0x24; 0xe4; 0x37; 0xe2; 0x05; 0x04; 0xe2; 0x1a; 0xe4; 0x1d; 0xe6; 0x38; 0xff; 0x80;
  0x0e; 0xe2; 0x00; 0xff; 0x5a; 0xe2; 0x00; 0xe1; 0x00; 0xa2; 0x20; 0xa1; 0x20; 0xe2; 0x00; 0xe1;
  0x00; 0xe2; 0x00; 0xe1; 0x00; 0xa2; 0x20; 0xa1; 0x20; 0xe2; 0x00; 0x00; 0x01; 0x00; 0x01; 0x00;
  0x01; 0x00; 0x3f; 0xc2; 0xe1; 0x00; 0xe2; 0x06; 0x20; 0xe2; 0x00; 0xe3; 0x00; 0xe2; 0x00; 0xe3;
  0x00; 0xe2; 0x00; 0xe3; 0x00; 0x82; 0x00; 0x22; 0x61; 0x03; 0x0e; 0x02; 0x4e; 0x42; 0x00; 0x22;
  0x61; 0x03; 0x4e; 0x62; 0x20; 0x22; 0x61; 0x00; 0x4e; 0xe2; 0x00; 0x81; 0x4e; 0x20; 0x42; 0x00;
  0x22; 0x61; 0x03; 0x2e; 0x00; 0xf7; 0x03; 0x9b; 0xb1; 0x36; 0x14; 0x15; 0x12; 0x34; 0x15; 0x12;
  0x14; 0xf6; 0x00; 0x18; 0x19; 0x9b; 0x17; 0xf6; 0x01; 0x14; 0x15; 0x76; 0x30; 0x56; 0x0c; 0x12;
  0x13; 0xf6; 0x03; 0x0c; 0x16; 0x10; 0xf6; 0x02; 0x17; 0x9b; 0x00; 0xfb; 0x02; 0x0b; 0x04; 0x20;
  0xab; 0x4c; 0x12; 0x13; 0x04; 0xeb; 0x02; 0x4c; 0x12; 0x13; 0x00; 0xe4; 0x05; 0x40; 0xed; 0x19;
  0xe0; 0x07; 0xe6; 0x05; 0x68; 0x06; 0x48; 0xe6; 0x04; 0xe0; 0x07; 0x2f; 0x01; 0x6f; 0x01; 0x2f;
  0x02; 0x41; 0x22; 0x41; 0x02; 0x0f; 0x01; 0x2f; 0x0c; 0x81; 0xaf; 0x01; 0x0f; 0x01; 0x0f; 0x01;
  0x0f; 0x61; 0x0f; 0x02; 0x61; 0x02; 0x65; 0x02; 0x2f; 0x22; 0x21; 0x8c; 0x3f; 0x42; 0x0f; 0x0c;
  0x2f; 0x02; 0x0f; 0xeb; 0x08; 0xea; 0x1b; 0x3f; 0x6a; 0x0b; 0x2f; 0x60; 0x8c; 0x8f; 0x2c; 0x6f;
  0x0c; 0x2f; 0x0c; 0x2f; 0x0c; 0xcf; 0x0c; 0xef; 0x17; 0x2c; 0x2f; 0x0c; 0x0f; 0x0c; 0xef; 0x17;
  0xec; 0x80; 0x84; 0xef; 0x00; 0x12; 0x13; 0x12; 0x13; 0xef; 0x0c; 0x2c; 0xcf; 0x12; 0x13; 0xef;
  0x49; 0x0c; 0xef; 0x16; 0xec; 0x11; 0xef; 0x20; 0xac; 0xef; 0x40; 0xe0; 0x0e; 0xef; 0x03; 0xe0;
  0x0d; 0xeb; 0x34; 0xef; 0x46; 0xeb; 0x0e; 0xef; 0x80; 0x2f; 0x0c; 0xef; 0x01; 0x0c; 0xef; 0x2e;
  0xec; 0x00; 0xef; 0x67; 0x0c; 0xef; 0x80; 0x70; 0x12; 0x13; 0x12; 0x13; 0x12; 0x13; 0x12; 0x13;
  0x12; 0x13; 0x12; 0x13; 0x12; 0x13; 0xeb; 0x16; 0xef; 0x24; 0x8c; 0x12; 0x13; 0xec; 0x17; 0x12;
  0x13; 0x12; 0x13; 0x12; 0x13; 0x12; 0x13; 0x12; 0x13; 0xec; 0x08; 0xef; 0x80; 0x78; 0xec; 0x7b;
  0x12; 0x13; 0x12; 0x13; 0x12; 0x13; 0x12; 0x13; 0x12; 0x13; 0x12; 0x13; 0x12; 0x13; 0x12; 0x13;
  0x12; 0x13; 0x12; 0x13; 0x12; 0x13; 0xec; 0x37; 0x12; 0x13; 0x12; 0x13; 0xec; 0x18; 0x12; 0x13;
  0xec; 0x80; 0x7a; 0xef; 0x28; 0xec; 0x0d; 0x2f; 0xac; 0xef; 0x1f; 0x20; 0xef; 0x18; 0x00; 0xef;
  0x61; 0xe1; 0x28; 0xe2; 0x28; 0x5f; 0x21; 0x22; 0xdf; 0x41; 0x02; 0x3f; 0x02; 0x3f; 0x82; 0x24;
  0x41; 0x02; 0xff; 0x5a; 0x02; 0xaf; 0x7f; 0x46; 0x3f; 0x80; 0x76; 0x0b; 0x36; 0xe2; 0x1e; 0x00;
  0x02; 0x80; 0x02; 0x20; 0xe5; 0x30; 0xc0; 0x04; 0x16; 0xe0; 0x06; 0x06; 0xe5; 0x0f; 0xe0; 0x01;
  0xc5; 0x00; 0xc5; 0x00; 0xc5; 0x00; 0xc5; 0x00; 0xc5; 0x00; 0xc5; 0x00; 0xc5; 0x00; 0xc5; 0x00;
  0xe6; 0x18; 0x36; 0x14; 0x15; 0x14; 0x15; 0x56; 0x14; 0x15; 0x16; 0x14; 0x15; 0xf6; 0x01; 0x11;
  0x36; 0x11; 0x16; 0x14; 0x15; 0x36; 0x14; 0x15; 0x12; 0x13; 0x12; 0x13; 0x12; 0x13; 0x12; 0x13;
  0x96; 0x04; 0xf6; 0x02; 0x31; 0x76; 0x11; 0x16; 0x12; 0xf6; 0x05; 0x2f; 0x56; 0x12; 0x13; 0x12;
  0x13; 0x12; 0x13; 0x12; 0x13; 0x11; 0xe0; 0x1a; 0xef; 0x12; 0x00; 0xef; 0x51; 0xe0; 0x04; 0xef;
  0x80; 0x4e; 0xe0; 0x12; 0xef; 0x08; 0x17; 0x56; 0x0f; 0x04; 0x05; 0x0a; 0x12; 0x13; 0x12; 0x13;
  0x12; 0x13; 0x12; 0x13; 0x12; 0x13; 0x2f; 0x12; 0x13; 0x12; 0x13; 0x12; 0x13; 0x12; 0x13; 0x11;
  0x12; 0x33; 0x0f; 0xea; 0x01; 0x66; 0x27; 0x11; 0x84; 0x2f; 0x4a; 0x04; 0x05; 0x16; 0x2f; 0x00;
  0xe5; 0x4e; 0x20; 0x26; 0x2e; 0x24; 0x05; 0x11; 0xe5; 0x52; 0x16; 0x44; 0x05; 0x80; 0xe5; 0x23;
  0x00; 0xe5; 0x56; 0x00; 0x2f; 0x6b; 0xef; 0x02; 0xe5; 0x18; 0xef; 0x1e; 0xe0; 0x01; 0x0f; 0xe5;
  0x08; 0xef; 0x17; 0x00; 0xeb; 0x02; 0xef; 0x16; 0xeb; 0x00; 0x0f; 0xeb; 0x07; 0xef; 0x18; 0xeb;
  0x02; 0xef; 0x1f; 0xeb; 0x07; 0xef; 0x80; 0xb8; 0xe5; 0x99; 0x38; 0xef; 0x38; 0xe5; 0xc0; 0x11;
  0x8d; 0x04; 0xe5; 0x83; 0xef; 0x40; 0xef; 0x2f; 0xe0; 0x01; 0xe5; 0x20; 0xa4; 0x36; 0xe5; 0x80;
  0x84; 0x04; 0x56; 0xe5; 0x08; 0xe9; 0x02; 0x25; 0xe0; 0x0c; 0xff; 0x26; 0x05; 0x06; 0x48; 0x16;
  0xe6; 0x02; 0x16; 0x04; 0xff; 0x14; 0x24; 0x26; 0xe5; 0x3e; 0xea; 0x02; 0x26; 0xb6; 0xe0; 0x00;
  0xee; 0x0f; 0xe4; 0x01; 0x2e; 0xff; 0x06; 0x22; 0xff; 0x36; 0x04; 0xe2; 0x00; 0x9f; 0xff; 0x02;
  0x04; 0x2e; 0x7f; 0x05; 0x7f; 0x22; 0xff; 0x0d; 0x61; 0x02; 0x81; 0x02; 0xff; 0x07; 0x41; 0x02;
  0x5f; 0x3f; 0x20; 0x3f; 0x00; 0x02; 0x00; 0x02; 0xdf; 0xe0; 0x0d; 0x44; 0x3f; 0x05; 0x24; 0x02;
  0xc5; 0x06; 0x45; 0x06; 0x65; 0x06; 0xe5; 0x0f; 0x27; 0x26; 0x07; 0x6f; 0x06; 0x40; 0xab; 0x2f;
  0x0d; 0x0f; 0xa0; 0xe5; 0x2c; 0x76; 0xe0; 0x00; 0x27; 0xe5; 0x2a; 0xe7; 0x08; 0x26; 0xe0; 0x00;
  0x36; 0xe9; 0x02; 0xa0; 0xe6; 0x0a; 0xa5; 0x56; 0x05; 0x16; 0x25; 0x06; 0xe9; 0x02; 0xe5; 0x14;
  0xe6; 0x00; 0x36; 0xe5; 0x0f; 0xe6; 0x03; 0x27; 0xe0; 0x03; 0x16; 0xe5; 0x15; 0x40; 0x46; 0x07;
  0xe5; 0x27; 0x06; 0x27; 0x66; 0x27; 0x26; 0x47; 0xf6; 0x05; 0x00; 0x04; 0xe9; 0x02; 0x60; 0x36;
  0x85; 0x06; 0x04; 0xe5; 0x01; 0xe9; 0x02; 0x85; 0x00; 0xe5; 0x21; 0xa6; 0x27; 0x26; 0x27; 0x26;
  0xe0; 0x01; 0x45; 0x06; 0xe5; 0x00; 0x06; 0x07; 0x20; 0xe9; 0x02; 0x20; 0x76; 0xe5; 0x08; 0x04;
  0xa5; 0x4f; 0x05; 0x07; 0x06; 0x07; 0xe5; 0x2a; 0x06; 0x05; 0x46; 0x25; 0x26; 0x85; 0x26; 0x05;
  0x06; 0x05; 0xe0; 0x10; 0x25; 0x04; 0x36; 0xe5; 0x03; 0x07; 0x26; 0x27; 0x36; 0x05; 0x24; 0x07;
  0x06; 0xe0; 0x02; 0xa5; 0x20; 0xa5; 0x20; 0xa5; 0xe0; 0x01; 0xc5; 0x00; 0xc5; 0x00; 0xe2; 0x23;
  0x0e; 0x64; 0xe2; 0x01; 0x04; 0x2e; 0x60; 0xe2; 0x48; 0xe5; 0x1b; 0x27; 0x06; 0x27; 0x06; 0x27;
  0x16; 0x07; 0x06; 0x20; 0xe9; 0x02; 0xa0; 0xe5; 0xab; 0x1c; 0xe0; 0x04; 0xe5; 0x0f; 0x60; 0xe5;
  0x29; 0x60; 0xfc; 0x87; 0x78; 0xfd; 0x98; 0x78; 0xe5; 0x80; 0xe6; 0x20; 0xe5; 0x62; 0xe0; 0x1e;
  0xc2; 0xe0; 0x04; 0x82; 0x80; 0x05; 0x06; 0xe5; 0x02; 0x0c; 0xe5; 0x05; 0x00; 0x85; 0x00; 0x05;
  0x00; 0x25; 0x00; 0x25; 0x00; 0xe5; 0x64; 0xee; 0x09; 0xe0; 0x08; 0xe5; 0x80; 0xe3; 0x13; 0x12;
  0xef; 0x08; 0xe5; 0x38; 0x20; 0xe5; 0x2e; 0xc0; 0x0f; 0xe0; 0x18; 0xe5; 0x04; 0x0d; 0x4f; 0xe6;
  0x08; 0xd6; 0x12; 0x13; 0x16; 0xa0; 0xe6; 0x08; 0x16; 0x31; 0x30; 0x12; 0x13; 0x12; 0x13; 0x12;
  0x13; 0x12; 0x13; 0x12; 0x13; 0x12; 0x13; 0x12; 0x13; 0x12; 0x13; 0x36; 0x12; 0x13; 0x76; 0x50;
  0x56; 0x00; 0x76; 0x11; 0x12; 0x13; 0x12; 0x13; 0x12; 0x13; 0x56; 0x0c; 0x11; 0x4c; 0x00; 0x16;
  0x0d; 0x36; 0x60; 0x85; 0x00; 0xe5; 0x7f; 0x20; 0x1b; 0x00; 0x56; 0x0d; 0x56; 0x12; 0x13; 0x16;
  0x0c; 0x16; 0x11; 0x36; 0xe9; 0x02; 0x36; 0x4c; 0x36; 0xe1; 0x12; 0x12; 0x16; 0x13; 0x0e; 0x10;
  0x0e; 0xe2; 0x12; 0x12; 0x0c; 0x13; 0x0c; 0x12; 0x13; 0x16; 0x12; 0x13; 0x36; 0xe5; 0x02; 0x04;
  0xe5; 0x25; 0x24; 0xe5; 0x17; 0x40; 0xa5; 0x20; 0xa5; 0x20; 0xa5; 0x20; 0x45; 0x40; 0x2d; 0x0c;
  0x0e; 0x0f; 0x2d; 0x00; 0x0f; 0x6c; 0x2f; 0xe0; 0x02; 0x5b; 0x2f; 0x20; 0xe5; 0x04; 0x00; 0xe5;
  0x12; 0x00; 0xe5; 0x0b; 0x00; 0x25; 0x00; 0xe5; 0x07; 0x20; 0xe5; 0x06; 0xe0; 0x1a; 0xe5; 0x73;
  0x80; 0x56; 0x60; 0xeb; 0x25; 0x40; 0xef; 0x01; 0xea; 0x2d; 0x6b; 0xef; 0x09; 0x2b; 0x4f; 0x00;
  0xef; 0x05; 0x40; 0x0f; 0xe0; 0x27; 0xef; 0x25; 0x06; 0xe0; 0x7a; 0xe5; 0x15; 0x40; 0xe5; 0x29;
  0xe0; 0x07; 0x06; 0xeb; 0x13; 0x60; 0xe5; 0x18; 0x6b; 0xe0; 0x01; 0xe5; 0x0c; 0x0a; 0xe5; 0x00;
  0x0a; 0x80; 0xe5; 0x1e; 0x86; 0x80; 0xe5; 0x16; 0x00; 0x16; 0xe5; 0x1c; 0x60; 0xe5; 0x00; 0x16;
  0x8a; 0xe0; 0x22; 0xe1; 0x20; 0xe2; 0x20; 0xe5; 0x46; 0x20; 0xe9; 0x02; 0xa0; 0xe1; 0x1c; 0x60;
  0xe2; 0x1c; 0x60; 0xe5; 0x20; 0xe0; 0x00; 0xe5; 0x2c; 0xe0; 0x03; 0x16; 0xe1; 0x03; 0x00; 0xe1;
  0x07; 0x00; 0xc1; 0x00; 0x21; 0x00; 0xe2; 0x03; 0x00; 0xe2; 0x07; 0x00; 0xc2; 0x00; 0x22; 0x40;
  0xe5; 0x2c; 0xe0; 0x04; 0xe5; 0x80; 0xaf; 0xe0; 0x01; 0xe5; 0x0e; 0xe0; 0x02; 0xe5; 0x00; 0xe0;
  0x10; 0xa4; 0x00; 0xe4; 0x22; 0x00; 0xe4; 0x01; 0xe0; 0x3d; 0xa5; 0x20; 0x05; 0x00; 0xe5; 0x24;
  0x00; 0x25; 0x40; 0x05; 0x20; 0xe5; 0x0f; 0x00; 0x16; 0xeb; 0x00; 0xe5; 0x0f; 0x2f; 0xcb; 0xe5;
  0x17; 0xe0; 0x00; 0xeb; 0x01; 0xe0; 0x28; 0xe5; 0x0b; 0x00; 0x25; 0x80; 0x8b; 0xe5; 0x0e; 0xab;
  0x40; 0x16; 0xe5; 0x12; 0x80; 0x16; 0xe0; 0x38; 0xe5; 0x30; 0x60; 0x2b; 0x25; 0xeb; 0x08; 0x20;
  0xeb; 0x26; 0x05; 0x46; 0x00; 0x26; 0x80; 0x66; 0x65; 0x00; 0x45; 0x00; 0xe5; 0x15; 0x20; 0x46;
  0x60; 0x06; 0xeb; 0x01; 0xc0; 0xf6; 0x01; 0xc0; 0xe5; 0x15; 0x2b; 0x16; 0xe5; 0x15; 0x4b; 0xe0;
  0x18; 0xe5; 0x00; 0x0f; 0xe5; 0x14; 0x26; 0x60; 0x8b; 0xd6; 0xe0; 0x01; 0xe5; 0x2e; 0x40; 0xd6;
  0xe5; 0x0e; 0x20; 0xeb; 0x00; 0xe5; 0x0b; 0x80; 0xeb; 0x00; 0xe5; 0x0a; 0xc0; 0x76; 0xe0; 0x04;
  0xcb; 0xe0; 0x48; 0xe5; 0x41; 0xe0; 0x2f; 0xe1; 0x2b; 0xe0; 0x05; 0xe2; 0x2b; 0xc0; 0xab; 0xe5;
  0x1c; 0x66; 0xe0; 0x00; 0xe9; 0x02; 0xa0; 0xe9; 0x02; 0x65; 0x04; 0x05; 0xe1; 0x0e; 0x40; 0x86;
  0x11; 0x04; 0xe2; 0x0e; 0xe0; 0x00; 0x2c; 0xe0; 0x80; 0x48; 0xeb; 0x17; 0x00; 0xe5; 0x22; 0x00;
  0x26; 0x11; 0x20; 0x25; 0xe0; 0x08; 0x45; 0xe0; 0x2f; 0x66; 0xe5; 0x15; 0xeb; 0x02; 0x05; 0xe0;
  0x00; 0xe5; 0x0e; 0xe6; 0x03; 0x6b; 0x96; 0xe0; 0x0e; 0xe5; 0x0a; 0x66; 0x76; 0xe0; 0x1e; 0xe5;
  0x0d; 0xcb; 0xe0; 0x0c; 0xe5; 0x0f; 0xe0; 0x01; 0x07; 0x06; 0x07; 0xe5; 0x2d; 0xe6; 0x07; 0xd6;
  0x60; 0xeb; 0x0c; 0xe9; 0x02; 0x06; 0x25; 0x26; 0x05; 0xe0; 0x01; 0x46; 0x07; 0xe5; 0x25; 0x47;
  0x66; 0x27; 0x26; 0x36; 0x1b; 0x76; 0x06; 0xe0; 0x02; 0x1b; 0x20; 0xe5; 0x11; 0xc0; 0xe9; 0x02;
  0xa0; 0x46; 0xe5; 0x1c; 0x86; 0x07; 0xe6; 0x00; 0x00; 0xe9; 0x02; 0x76; 0x05; 0x27; 0x05; 0xe0;
  0x00; 0xe5; 0x1b; 0x06; 0x36; 0x05; 0xe0; 0x01; 0x26; 0x07; 0xe5; 0x28; 0x47; 0xe6; 0x01; 0x27;
  0x65; 0x76; 0x66; 0x16; 0x07; 0x06; 0xe9; 0x02; 0x05; 0x16; 0x05; 0x56; 0x00; 0xeb; 0x0c; 0xe0;
  0x03; 0xe5; 0x0a; 0x00; 0xe5; 0x11; 0x47; 0x46; 0x27; 0x06; 0x07; 0x26; 0xb6; 0x06; 0x25; 0x06;
  0xe0; 0x36; 0xc5; 0x00; 0x05; 0x00; 0x65; 0x00; 0xe5; 0x07; 0x00; 0xe5; 0x02; 0x16; 0xa0; 0xe5;
  0x27; 0x06; 0x47; 0xe6; 0x00; 0x80; 0xe9; 0x02; 0xa0; 0x26; 0x27; 0x00; 0xe5; 0x00; 0x20; 0x25;
  0x20; 0xe5; 0x0e; 0x00; 0xc5; 0x00; 0x25; 0x00; 0x85; 0x00; 0x26; 0x05; 0x27; 0x06; 0x67; 0x20;
  0x27; 0x20; 0x47; 0x20; 0x05; 0xa0; 0x07; 0x80; 0x85; 0x27; 0x20; 0xc6; 0x40; 0x86; 0xe0; 0x03;
  0xe5; 0x02; 0x00; 0x05; 0x20; 0x05; 0x00; 0xe5; 0x1e; 0x00; 0x05; 0x47; 0xa6; 0x00; 0x07; 0x20;
  0x07; 0x00; 0x67; 0x00; 0x27; 0x06; 0x07; 0x06; 0x05; 0x06; 0x05; 0x36; 0x00; 0x36; 0xe0; 0x00;
  0x26; 0xe0; 0x15; 0xe5; 0x2d; 0x47; 0xe6; 0x00; 0x27; 0x46; 0x07; 0x06; 0x65; 0x96; 0xe9; 0x02;
  0x36; 0x00; 0x16; 0x06; 0x45; 0xe0; 0x16; 0xe5; 0x28; 0x47; 0xa6; 0x07; 0x06; 0x67; 0x26; 0x07;
  0x26; 0x25; 0x16; 0x05; 0xe0; 0x00; 0xe9; 0x02; 0xe0; 0x80; 0x1e; 0xe5; 0x27; 0x47; 0x66; 0x20;
  0x67; 0x26; 0x07; 0x26; 0xf6; 0x0f; 0x65; 0x26; 0xe0; 0x1a; 0xe5; 0x28; 0x47; 0xe6; 0x00; 0x27;
  0x06; 0x07; 0x26; 0x56; 0x05; 0xe0; 0x03; 0xe9; 0x02; 0xa0; 0xf6; 0x05; 0xe0; 0x0b; 0xe5; 0x23;
  0x06; 0x07; 0x06; 0x27; 0xa6; 0x07; 0x06; 0x05; 0x16; 0xa0; 0xe9; 0x02; 0xa0; 0xe9; 0x0c; 0xe0;
  0x14; 0xe5; 0x13; 0x20; 0x06; 0x07; 0x06; 0x27; 0x66; 0x07; 0x86; 0x60; 0xe9; 0x02; 0x2b; 0x56;
  0x0f; 0xc5; 0xe0; 0x80; 0x31; 0xe5; 0x24; 0x47; 0xe6; 0x01; 0x07; 0x26; 0x16; 0xe0; 0x5c; 0xe1;
  0x18; 0xe2; 0x18; 0xe9; 0x02; 0xeb; 0x01; 0xe0; 0x04; 0xe5; 0x00; 0x20; 0x05; 0x20; 0xe5; 0x00;
  0x00; 0x25; 0x00; 0xe5; 0x10; 0xa7; 0x00; 0x27; 0x20; 0x26; 0x07; 0x06; 0x05; 0x07; 0x05; 0x07;
  0x06; 0x56; 0xe0; 0x01; 0xe9; 0x02; 0xe0; 0x3e; 0xe5; 0x00; 0x20; 0xe5; 0x1f; 0x47; 0x66; 0x20;
  0x26; 0x67; 0x06; 0x05; 0x16; 0x05; 0x07; 0xe0; 0x13; 0x05; 0xe6; 0x02; 0xe5; 0x20; 0xa6; 0x07;
  0x05; 0x66; 0xf6; 0x00; 0x06; 0xe0; 0x00; 0x05; 0xa6; 0x27; 0x46; 0xe5; 0x26; 0xe6; 0x05; 0x07;
  0x26; 0x56; 0x05; 0x96; 0xe0; 0x05; 0xe5; 0x41; 0xc0; 0xf6; 0x02; 0xe0; 0x80; 0x2e; 0xe5; 0x19;
  0x16; 0xe0; 0x06; 0xe9; 0x02; 0xa0; 0xe5; 0x01; 0x00; 0xe5; 0x1d; 0x07; 0xc6; 0x00; 0xa6; 0x07;
  0x06; 0x05; 0x96; 0xe0; 0x02; 0xe9; 0x02; 0xeb; 0x0b; 0x40; 0x36; 0xe5; 0x16; 0x20; 0xe6; 0x0e;
  0x00; 0x07; 0xc6; 0x07; 0x26; 0x07; 0x26; 0xe0; 0x41; 0xc5; 0x00; 0x25; 0x00; 0xe5; 0x1e; 0xa6;
  0x40; 0x06; 0x00; 0x26; 0x00; 0xc6; 0x05; 0x06; 0xe0; 0x00; 0xe9; 0x02; 0xa0; 0xa5; 0x00; 0x25;
  0x00; 0xe5; 0x18; 0x87; 0x00; 0x26; 0x00; 0x27; 0x06; 0x07; 0x06; 0x05; 0xc0; 0xe9; 0x02; 0xe0;
  0x80; 0xae; 0xe5; 0x0b; 0x26; 0x27; 0x36; 0xc0; 0x26; 0x05; 0x07; 0xe5; 0x05; 0x00; 0xe5; 0x1a;
  0x27; 0x86; 0x40; 0x27; 0x06; 0x07; 0x06; 0xf6; 0x05; 0xe9; 0x02; 0x06; 0xe0; 0x4d; 0x05; 0xe0;
  0x07; 0xeb; 0x0d; 0xef; 0x00; 0x6d; 0xef; 0x09; 0xe0; 0x05; 0x16; 0xe5; 0x83; 0x12; 0xe0; 0x5e;
  0xea; 0x67; 0x00; 0x96; 0xe0; 0x03; 0xe5; 0x80; 0x3c; 0xe0; 0x89; 0xc4; 0xe5; 0x59; 0x36; 0xe0;
  0x05; 0xe5; 0x83; 0xa8; 0xfb; 0x08; 0x06; 0xa5; 0xe6; 0x07; 0xe0; 0x02; 0xe5; 0x8f; 0x13; 0x80;
  0xe5; 0x81; 0xbf; 0xe0; 0x9a; 0x31; 0xe5; 0x16; 0xe6; 0x04; 0x47; 0x46; 0xe9; 0x02; 0xe0; 0x86;
  0x3e; 0xe5; 0x81; 0xb1; 0xc0; 0xe5; 0x17; 0x00; 0xe9; 0x02; 0x60; 0x36; 0xe5; 0x47; 0x00; 0xe9;
  0x02; 0xa0; 0xe5; 0x16; 0x20; 0x86; 0x16; 0xe0; 0x02; 0xe5; 0x28; 0xc6; 0x96; 0x6f; 0x64; 0x16;
  0x0f; 0xe0; 0x02; 0xe9; 0x02; 0x00; 0xcb; 0x00; 0xe5; 0x0d; 0x80; 0xe5; 0x0b; 0xe0; 0x81; 0x28;
  0x44; 0xe5; 0x20; 0x24; 0x56; 0xe9; 0x02; 0xe0; 0x80; 0x3e; 0xe1; 0x18; 0xe2; 0x18; 0xeb; 0x0f;
  0x76; 0xe0; 0x5d; 0xe5; 0x43; 0x60; 0x06; 0x05; 0xe7; 0x2f; 0xc0; 0x66; 0xe4; 0x05; 0xe0; 0x38;
  0x24; 0x16; 0x04; 0x06; 0xe0; 0x03; 0x27; 0xe0; 0x06; 0xe5; 0x97; 0x70; 0xe0; 0x00; 0xe5; 0x84;
  0x4e; 0xe0; 0x21; 0xe5; 0x02; 0xe0; 0xa2; 0x5f; 0x64; 0x00; 0xc4; 0x00; 0x24; 0x00; 0xe5; 0x80;
  0x9b; 0xe0; 0x07; 0x05; 0xe0; 0x15; 0x45; 0x20; 0x05; 0xe0; 0x06; 0x65; 0xe0; 0x00; 0xe5; 0x81;
  0x04; 0xe0; 0x88; 0x7c; 0xe5; 0x63; 0x80; 0xe5; 0x05; 0x40; 0xe5; 0x01; 0xc0; 0xe5; 0x02; 0x20;
  0x0f; 0x26; 0x16; 0x7b; 0xe0; 0x8e; 0xd4; 0xef; 0x80; 0x68; 0xe9; 0x02; 0xa0; 0xef; 0x81; 0x2c;
  0xe0; 0x44; 0xe6; 0x26; 0x20; 0xe6; 0x0f; 0xe0; 0x01; 0xef; 0x6c; 0xe0; 0x34; 0xef; 0x80; 0x6e;
  0xe0; 0x02; 0xef; 0x1f; 0x20; 0xef; 0x34; 0x27; 0x46; 0x4f; 0xa7; 0xfb; 0x00; 0xe6; 0x00; 0x2f;
  0xc6; 0xef; 0x16; 0x66; 0xef; 0x35; 0xe0; 0x0d; 0xef; 0x3a; 0x46; 0x0f; 0xe0; 0x72; 0xeb; 0x0c;
  0xe0; 0x04; 0xeb; 0x0c; 0xe0; 0x04; 0xef; 0x4f; 0xe0; 0x01; 0xeb; 0x11; 0xe0; 0x7f; 0xe1; 0x12;
  0xe2; 0x12; 0xe1; 0x12; 0xc2; 0x00; 0xe2; 0x0a; 0xe1; 0x12; 0xe2; 0x12; 0x01; 0x00; 0x21; 0x20;
  0x01; 0x20; 0x21; 0x20; 0x61; 0x00; 0xe1; 0x00; 0x62; 0x00; 0x02; 0x00; 0xc2; 0x00; 0xe2; 0x03;
  0xe1; 0x12; 0xe2; 0x12; 0x21; 0x00; 0x61; 0x20; 0xe1; 0x00; 0x00; 0xc1; 0x00; 0xe2; 0x12; 0x21;
  0x00; 0x61; 0x00; 0x81; 0x00; 0x01; 0x40; 0xc1; 0x00; 0xe2; 0x12; 0xe1; 0x12; 0xe2; 0x12; 0xe1;
  0x12; 0xe2; 0x12; 0xe1; 0x12; 0xe2; 0x12; 0xe1; 0x12; 0xe2; 0x12; 0xe1; 0x12; 0xe2; 0x12; 0xe1;
  0x12; 0xe2; 0x14; 0x20; 0xe1; 0x11; 0x0c; 0xe2; 0x11; 0x0c; 0xa2; 0xe1; 0x11; 0x0c; 0xe2; 0x11;
  0x0c; 0xa2; 0xe1; 0x11; 0x0c; 0xe2; 0x11; 0x0c; 0xa2; 0xe1; 0x11; 0x0c; 0xe2; 0x11; 0x0c; 0xa2;
  0xe1; 0x11; 0x0c; 0xe2; 0x11; 0x0c; 0xa2; 0x3f; 0x20; 0xe9; 0x2a; 0xef; 0x81; 0x78; 0xe6; 0x2f;
  0x6f; 0xe6; 0x2a; 0xef; 0x00; 0x06; 0xef; 0x06; 0x06; 0x2f; 0x96; 0xe0; 0x07; 0x86; 0x00; 0xe6;
  0x07; 0xe0; 0x83; 0xc8; 0xe2; 0x02; 0x05; 0xe2; 0x0c; 0xa0; 0xa2; 0xe0; 0x80; 0x4d; 0xc6; 0x00;
  0xe6; 0x09; 0x20; 0xc6; 0x00; 0x26; 0x00; 0x86; 0x80; 0xe4; 0x36; 0xe0; 0x19; 0x06; 0xe0; 0x68;
  0xe5; 0x25; 0x40; 0xc6; 0xc4; 0x20; 0xe9; 0x02; 0x60; 0x05; 0x0f; 0xe0; 0x80; 0xb8; 0xe5; 0x16;
  0x06; 0xe0; 0x09; 0xe5; 0x24; 0x66; 0xe9; 0x02; 0x80; 0x0d; 0xe0; 0x81; 0x48; 0xe5; 0x13; 0x04;
  0x66; 0xe9; 0x02; 0xe0; 0x80; 0x4e; 0xe5; 0x16; 0x26; 0x05; 0xe9; 0x02; 0x60; 0x16; 0xe0; 0x81;
  0x58; 0xc5; 0x00; 0x65; 0x00; 0x25; 0x00; 0xe5; 0x07; 0x00; 0xe5; 0x80; 0x3d; 0x20; 0xeb; 0x01;
  0xc6; 0xe0; 0x21; 0xe1; 0x1a; 0xe2; 0x1a; 0xc6; 0x04; 0x60; 0xe9; 0x02; 0x60; 0x36; 0xe0; 0x82;
  0x89; 0xeb; 0x33; 0x0f; 0x4b; 0x0d; 0x6b; 0xe0; 0x44; 0xeb; 0x25; 0x0f; 0xeb; 0x07; 0xe0; 0x80;
  0x3a; 0x65; 0x00; 0xe5; 0x13; 0x00; 0x25; 0x00; 0x05; 0x20; 0x05; 0x00; 0xe5; 0x02; 0x00; 0x65;
  0x00; 0x05; 0x00; 0x05; 0xa0; 0x05; 0x60; 0x05; 0x00; 0x05; 0x00; 0x05; 0x00; 0x45; 0x00; 0x25;
  0x00; 0x05; 0x20; 0x05; 0x00; 0x05; 0x00; 0x05; 0x00; 0x05; 0x00; 0x05; 0x00; 0x25; 0x00; 0x05;
  0x20; 0x65; 0x00; 0xc5; 0x00; 0x65; 0x00; 0x65; 0x00; 0x05; 0x00; 0xe5; 0x02; 0x00; 0xe5; 0x09;
  0x80; 0x45; 0x00; 0x85; 0x00; 0xe5; 0x09; 0xe0; 0x2c; 0x2c; 0xe0; 0x80; 0x86; 0xef; 0x24; 0x60;
  0xef; 0x5c; 0xe0; 0x04; 0xef; 0x07; 0x20; 0xef; 0x07; 0x00; 0xef; 0x07; 0x00; 0xef; 0x1d; 0xe0;
  0x02; 0xeb; 0x05; 0xef; 0x80; 0x19; 0xe0; 0x30; 0xef; 0x15; 0xe0; 0x05; 0xef; 0x24; 0x60; 0xef;
  0x01; 0xc0; 0x2f; 0xe0; 0x06; 0xaf; 0xe0; 0x80; 0x12; 0xef; 0x80; 0x73; 0x8e; 0xef; 0x82; 0x50;
  0x60; 0xef; 0x09; 0x40; 0xef; 0x05; 0x40; 0xef; 0x6f; 0x60; 0xef; 0x57; 0xa0; 0xef; 0x04; 0x60;
  0x0f; 0xe0; 0x07; 0xef; 0x04; 0x60; 0xef; 0x30; 0xe0; 0x00; 0xef; 0x02; 0xa0; 0xef; 0x20; 0xe0;
  0x00; 0xef; 0x16; 0x20; 0xef; 0x04; 0x60; 0x2f; 0xe0; 0x36; 0xef; 0x80; 0xcc; 0xe0; 0x04; 0xef;
  0x06; 0x20; 0xef; 0x05; 0x40; 0xef; 0x02; 0x80; 0xef; 0x30; 0xc0; 0xef; 0x07; 0x20; 0xef; 0x03;
  0xa0; 0xef; 0x01; 0xc0; 0xef; 0x80; 0x0b; 0x00; 0xef; 0x54; 0xe9; 0x02; 0xe0; 0x83; 0x7e; 0xe5;
  0xc0; 0x66; 0x58; 0xe0; 0x18; 0xe5; 0x8f; 0xb2; 0xa0; 0xe5; 0x80; 0x56; 0x20; 0xe5; 0x95; 0xfa;
  0xe0; 0x06; 0xe5; 0x9c; 0xa9; 0xe0; 0x07; 0xe5; 0x81; 0xe6; 0xe0; 0x89; 0x1a; 0xe5; 0x81; 0x96;
  0xe0; 0x85; 0x5a; 0xe5; 0x92; 0xc3; 0x80; 0xe5; 0x8f; 0xd8; 0xe0; 0xca; 0x9b; 0xc9; 0x1b; 0xe0;
  0x16; 0xfb; 0x58; 0xe0; 0x78; 0xe6; 0x80; 0x68; 0xe0; 0xc0; 0xbd; 0x88; 0xfd; 0xc0; 0xbf; 0x76;
  0x20; 0xfd; 0xc0; 0xbf; 0x76; 0x20].

(** ** Scripts *)

Definition UNICODE_SCRIPT_Unknown : Z := 0.
Definition UNICODE_SCRIPT_Common : Z := 25.
Definition UNICODE_SCRIPT_Inherited : Z := 58.

Definition unicode_script_name_table : list Z := name_table [
  "Adlam,Adlm"; "Ahom,Ahom"; "Anatolian_Hieroglyphs,Hluw"; "Arabic,Arab"; "Armenian,Armn"; "Avestan,Avst";
  "Balinese,Bali"; "Bamum,Bamu"; "Bassa_Vah,Bass"; "Batak,Batk"; "Bengali,Beng"; "Bhaiksuki,Bhks";
  "Bopomofo,Bopo"; "Brahmi,Brah"; "Braille,Brai"; "Buginese,Bugi"; "Buhid,Buhd"; "Canadian_Aboriginal,Cans";
  "Carian,Cari"; "Caucasian_Albanian,Aghb"; "Chakma,Cakm"; "Cham,Cham"; "Cherokee,Cher"; "Chorasmian,Chrs";
  "Common,Zyyy"; "Coptic,Copt,Qaac"; "Cuneiform,Xsux"; "Cypriot,Cprt"; "Cyrillic,Cyrl"; "Cypro_Minoan,Cpmn";
  "Deseret,Dsrt"; "Devanagari,Deva"; "Dives_Akuru,Diak"; "Dogra,Dogr"; "Duployan,Dupl";
  "Egyptian_Hieroglyphs,Egyp"; "Elbasan,Elba"; "Elymaic,Elym"; "Ethiopic,Ethi"; "Georgian,Geor";
  "Glagolitic,Glag"; "Gothic,Goth"; "Garay,Gara"; "Grantha,Gran"; "Greek,Grek"; "Gujarati,Gujr";
  "Gunjala_Gondi,Gong"; "Gurmukhi,Guru"; "Gurung_Khema,Gukh"; "Han,Hani"; "Hangul,Hang";
  "Hanifi_Rohingya,Rohg"; "Hanunoo,Hano"; "Hatran,Hatr"; "Hebrew,Hebr"; "Hiragana,Hira";
  "Imperial_Aramaic,Armi"; "Inherited,Zinh,Qaai"; "Inscriptional_Pahlavi,Phli";
  "Inscriptional_Parthian,Prti"; "Javanese,Java"; "Kaithi,Kthi"; "Kannada,Knda"; "Katakana,Kana";
  "Kawi,Kawi"; "Kayah_Li,Kali"; "Kharoshthi,Khar"; "Khmer,Khmr"; "Khojki,Khoj"; "Khitan_Small_Script,Kits";
  "Khudawadi,Sind"; "Kirat_Rai,Krai"; "Lao,Laoo"; "Latin,Latn"; "Lepcha,Lepc"; "Limbu,Limb"; "Linear_A,Lina";
  "Linear_B,Linb"; "Lisu,Lisu"; "Lycian,Lyci"; "Lydian,Lydi"; "Makasar,Maka"; "Mahajani,Mahj";
  "Malayalam,Mlym"; "Mandaic,Mand"; "Manichaean,Mani"; "Marchen,Marc"; "Masaram_Gondi,Gonm";
  "Medefaidrin,Medf"; "Meetei_Mayek,Mtei"; "Mende_Kikakui,Mend"; "Meroitic_Cursive,Merc";
  "Meroitic_Hieroglyphs,Mero"; "Miao,Plrd"; "Modi,Modi"; "Mongolian,Mong"; "Mro,Mroo"; "Multani,Mult";
  "Myanmar,Mymr"; "Nabataean,Nbat"; "Nag_Mundari,Nagm"; "Nandinagari,Nand"; "New_Tai_Lue,Talu"; "Newa,Newa";
  "Nko,Nkoo"; "Nushu,Nshu"; "Nyiakeng_Puachue_Hmong,Hmnp"; "Ogham,Ogam"; "Ol_Chiki,Olck"; "Ol_Onal,Onao";
  "Old_Hungarian,Hung"; "Old_Italic,Ital"; "Old_North_Arabian,Narb"; "Old_Permic,Perm"; "Old_Persian,Xpeo";
  "Old_Sogdian,Sogo"; "Old_South_Arabian,Sarb"; "Old_Turkic,Orkh"; "Old_Uyghur,Ougr"; "Oriya,Orya";
  "Osage,Osge"; "Osmanya,Osma"; "Pahawh_Hmong,Hmng"; "Palmyrene,Palm"; "Pau_Cin_Hau,Pauc"; "Phags_Pa,Phag";
  "Phoenician,Phnx"; "Psalter_Pahlavi,Phlp"; "Rejang,Rjng"; "Runic,Runr"; "Samaritan,Samr";
  "Saurashtra,Saur"; "Sharada,Shrd"; "Shavian,Shaw"; "Siddham,Sidd"; "SignWriting,Sgnw"; "Sinhala,Sinh";
  "Sogdian,Sogd"; "Sora_Sompeng,Sora"; "Soyombo,Soyo"; "Sundanese,Sund"; "Sunuwar,Sunu"; "Syloti_Nagri,Sylo";
  "Syriac,Syrc"; "Tagalog,Tglg"; "Tagbanwa,Tagb"; "Tai_Le,Tale"; "Tai_Tham,Lana"; "Tai_Viet,Tavt";
  "Takri,Takr"; "Tamil,Taml"; "Tangut,Tang"; "Telugu,Telu"; "Thaana,Thaa"; "Thai,Thai"; "Tibetan,Tibt";
  "Tifinagh,Tfng"; "Tirhuta,Tirh"; "Tangsa,Tnsa"; "Todhri,Todr"; "Toto,Toto"; "Tulu_Tigalari,Tutg";
  "Ugaritic,Ugar"; "Vai,Vaii"; "Vithkuqi,Vith"; "Wancho,Wcho"; "Warang_Citi,Wara"; "Yezidi,Yezi"; "Yi,Yiii";
  "Zanabazar_Square,Zanb"].

Definition unicode_script_table : list Z := [
  0xc0; 0x19; 0x99; 0x4a; 0x85; 0x19; 0x99; 0x4a; 0xae; 0x19; 0x80; 0x4a; 0x8e; 0x19; 0x80; 0x4a;
  0x84; 0x19; 0x96; 0x4a; 0x80; 0x19; 0x9e; 0x4a; 0x80; 0x19; 0xe1; 0x60; 0x4a; 0xa6; 0x19; 0x84;
  0x4a; 0x84; 0x19; 0x81; 0x0d; 0x93; 0x19; 0xe0; 0x0f; 0x3a; 0x83; 0x2d; 0x80; 0x19; 0x82; 0x2d;
  0x01; 0x83; 0x2d; 0x80; 0x19; 0x80; 0x2d; 0x03; 0x80; 0x2d; 0x80; 0x19; 0x80; 0x2d; 0x80; 0x19;
  0x82; 0x2d; 0x00; 0x80; 0x2d; 0x00; 0x93; 0x2d; 0x00; 0xbe; 0x2d; 0x8d; 0x1a; 0x8f; 0x2d; 0xe0;
  0x24; 0x1d; 0x81; 0x3a; 0xe0; 0x48; 0x1d; 0x00; 0xa5; 0x05; 0x01; 0xb1; 0x05; 0x01; 0x82; 0x05;
  0x00; 0xb6; 0x37; 0x07; 0x9a; 0x37; 0x03; 0x85; 0x37; 0x0a; 0x84; 0x04; 0x80; 0x19; 0x85; 0x04;
  0x80; 0x19; 0x8d; 0x04; 0x80; 0x19; 0x82; 0x04; 0x80; 0x19; 0x9f; 0x04; 0x80; 0x19; 0x89; 0x04;
  0x8a; 0x3a; 0x99; 0x04; 0x80; 0x3a; 0xe0; 0x0b; 0x04; 0x80; 0x19; 0xa1; 0x04; 0x8d; 0x90; 0x00;
  0xbb; 0x90; 0x01; 0x82; 0x90; 0xaf; 0x04; 0xb1; 0x9a; 0x0d; 0xba; 0x69; 0x01; 0x82; 0x69; 0xad;
  0x83; 0x01; 0x8e; 0x83; 0x00; 0x9b; 0x55; 0x01; 0x80; 0x55; 0x00; 0x8a; 0x90; 0x04; 0x9e; 0x04;
  0x00; 0x81; 0x04; 0x04; 0xca; 0x04; 0x80; 0x19; 0x9c; 0x04; 0xd0; 0x20; 0x83; 0x3a; 0x8e; 0x20;
  0x81; 0x19; 0x99; 0x20; 0x83; 0x0b; 0x00; 0x87; 0x0b; 0x01; 0x81; 0x0b; 0x01; 0x95; 0x0b; 0x00;
  0x86; 0x0b; 0x00; 0x80; 0x0b; 0x02; 0x83; 0x0b; 0x01; 0x88; 0x0b; 0x01; 0x81; 0x0b; 0x01; 0x83;
  0x0b; 0x07; 0x80; 0x0b; 0x03; 0x81; 0x0b; 0x00; 0x84; 0x0b; 0x01; 0x98; 0x0b; 0x01; 0x82; 0x30;
  0x00; 0x85; 0x30; 0x03; 0x81; 0x30; 0x01; 0x95; 0x30; 0x00; 0x86; 0x30; 0x00; 0x81; 0x30; 0x00;
  0x81; 0x30; 0x00; 0x81; 0x30; 0x01; 0x80; 0x30; 0x00; 0x84; 0x30; 0x03; 0x81; 0x30; 0x01; 0x82;
  0x30; 0x02; 0x80; 0x30; 0x06; 0x83; 0x30; 0x00; 0x80; 0x30; 0x06; 0x90; 0x30; 0x09; 0x82; 0x2e;
  0x00; 0x88; 0x2e; 0x00; 0x82; 0x2e; 0x00; 0x95; 0x2e; 0x00; 0x86; 0x2e; 0x00; 0x81; 0x2e; 0x00;
  0x84; 0x2e; 0x01; 0x89; 0x2e; 0x00; 0x82; 0x2e; 0x00; 0x82; 0x2e; 0x01; 0x80; 0x2e; 0x0e; 0x83;
  0x2e; 0x01; 0x8b; 0x2e; 0x06; 0x86; 0x2e; 0x00; 0x82; 0x78; 0x00; 0x87; 0x78; 0x01; 0x81; 0x78;
  0x01; 0x95; 0x78; 0x00; 0x86; 0x78; 0x00; 0x81; 0x78; 0x00; 0x84; 0x78; 0x01; 0x88; 0x78; 0x01;
  0x81; 0x78; 0x01; 0x82; 0x78; 0x06; 0x82; 0x78; 0x03; 0x81; 0x78; 0x00; 0x84; 0x78; 0x01; 0x91;
  0x78; 0x09; 0x81; 0x97; 0x00; 0x85; 0x97; 0x02; 0x82; 0x97; 0x00; 0x83; 0x97; 0x02; 0x81; 0x97;
  0x00; 0x80; 0x97; 0x00; 0x81; 0x97; 0x02; 0x81; 0x97; 0x02; 0x82; 0x97; 0x02; 0x8b; 0x97; 0x03;
  0x84; 0x97; 0x02; 0x82; 0x97; 0x00; 0x83; 0x97; 0x01; 0x80; 0x97; 0x05; 0x80; 0x97; 0x0d; 0x94;
  0x97; 0x04; 0x8c; 0x99; 0x00; 0x82; 0x99; 0x00; 0x96; 0x99; 0x00; 0x8f; 0x99; 0x01; 0x88; 0x99;
  0x00; 0x82; 0x99; 0x00; 0x83; 0x99; 0x06; 0x81; 0x99; 0x00; 0x82; 0x99; 0x01; 0x80; 0x99; 0x01;
  0x83; 0x99; 0x01; 0x89; 0x99; 0x06; 0x88; 0x99; 0x8c; 0x3f; 0x00; 0x82; 0x3f; 0x00; 0x96; 0x3f;
  0x00; 0x89; 0x3f; 0x00; 0x84; 0x3f; 0x01; 0x88; 0x3f; 0x00; 0x82; 0x3f; 0x00; 0x83; 0x3f; 0x06;
  0x81; 0x3f; 0x05; 0x81; 0x3f; 0x00; 0x83; 0x3f; 0x01; 0x89; 0x3f; 0x00; 0x82; 0x3f; 0x0b; 0x8c;
  0x54; 0x00; 0x82; 0x54; 0x00; 0xb2; 0x54; 0x00; 0x82; 0x54; 0x00; 0x85; 0x54; 0x03; 0x8f; 0x54;
  0x01; 0x99; 0x54; 0x00; 0x82; 0x89; 0x00; 0x91; 0x89; 0x02; 0x97; 0x89; 0x00; 0x88; 0x89; 0x00;
  0x80; 0x89; 0x01; 0x86; 0x89; 0x02; 0x80; 0x89; 0x03; 0x85; 0x89; 0x00; 0x80; 0x89; 0x00; 0x87;
  0x89; 0x05; 0x89; 0x89; 0x01; 0x82; 0x89; 0x0b; 0xb9; 0x9b; 0x03; 0x80; 0x19; 0x9b; 0x9b; 0x24;
  0x81; 0x49; 0x00; 0x80; 0x49; 0x00; 0x84; 0x49; 0x00; 0x97; 0x49; 0x00; 0x80; 0x49; 0x00; 0x96;
  0x49; 0x01; 0x84; 0x49; 0x00; 0x80; 0x49; 0x00; 0x86; 0x49; 0x00; 0x89; 0x49; 0x01; 0x83; 0x49;
  0x1f; 0xc7; 0x9c; 0x00; 0xa3; 0x9c; 0x03; 0xa6; 0x9c; 0x00; 0xa3; 0x9c; 0x00; 0x8e; 0x9c; 0x00;
  0x86; 0x9c; 0x83; 0x19; 0x81; 0x9c; 0x24; 0xe0; 0x3f; 0x63; 0xa5; 0x28; 0x00; 0x80; 0x28; 0x04;
  0x80; 0x28; 0x01; 0xaa; 0x28; 0x80; 0x19; 0x83; 0x28; 0xe0; 0x9f; 0x33; 0xc8; 0x27; 0x00; 0x83;
  0x27; 0x01; 0x86; 0x27; 0x00; 0x80; 0x27; 0x00; 0x83; 0x27; 0x01; 0xa8; 0x27; 0x00; 0x83; 0x27;
  0x01; 0xa0; 0x27; 0x00; 0x83; 0x27; 0x01; 0x86; 0x27; 0x00; 0x80; 0x27; 0x00; 0x83; 0x27; 0x01;
  0x8e; 0x27; 0x00; 0xb8; 0x27; 0x00; 0x83; 0x27; 0x01; 0xc2; 0x27; 0x01; 0x9f; 0x27; 0x02; 0x99;
  0x27; 0x05; 0xd5; 0x17; 0x01; 0x85; 0x17; 0x01; 0xe2; 0x1f; 0x12; 0x9c; 0x6c; 0x02; 0xca; 0x82;
  0x82; 0x19; 0x8a; 0x82; 0x06; 0x95; 0x91; 0x08; 0x80; 0x91; 0x94; 0x35; 0x81; 0x19; 0x08; 0x93;
  0x11; 0x0b; 0x8c; 0x92; 0x00; 0x82; 0x92; 0x00; 0x81; 0x92; 0x0b; 0xdd; 0x44; 0x01; 0x89; 0x44;
  0x05; 0x89; 0x44; 0x05; 0x81; 0x60; 0x81; 0x19; 0x80; 0x60; 0x80; 0x19; 0x93; 0x60; 0x05; 0xd8;
  0x60; 0x06; 0xaa; 0x60; 0x04; 0xc5; 0x12; 0x09; 0x9e; 0x4c; 0x00; 0x8b; 0x4c; 0x03; 0x8b; 0x4c;
  0x03; 0x80; 0x4c; 0x02; 0x8b; 0x4c; 0x9d; 0x93; 0x01; 0x84; 0x93; 0x0a; 0xab; 0x67; 0x03; 0x99;
  0x67; 0x05; 0x8a; 0x67; 0x02; 0x81; 0x67; 0x9f; 0x44; 0x9b; 0x10; 0x01; 0x81; 0x10; 0xbe; 0x94;
  0x00; 0x9c; 0x94; 0x01; 0x8a; 0x94; 0x05; 0x89; 0x94; 0x05; 0x8d; 0x94; 0x01; 0x9e; 0x3a; 0x30;
  0xcc; 0x07; 0x00; 0xb1; 0x07; 0xbf; 0x8d; 0xb3; 0x0a; 0x07; 0x83; 0x0a; 0xb7; 0x4b; 0x02; 0x8e;
  0x4b; 0x02; 0x82; 0x4b; 0xaf; 0x6d; 0x8a; 0x1d; 0x04; 0xaa; 0x28; 0x01; 0x82; 0x28; 0x87; 0x8d;
  0x07; 0x82; 0x3a; 0x80; 0x19; 0x8c; 0x3a; 0x80; 0x19; 0x86; 0x3a; 0x83; 0x19; 0x80; 0x3a; 0x85;
  0x19; 0x80; 0x3a; 0x82; 0x19; 0x81; 0x3a; 0x80; 0x19; 0x04; 0xa5; 0x4a; 0x84; 0x2d; 0x80; 0x1d;
  0xb0; 0x4a; 0x84; 0x2d; 0x83; 0x4a; 0x84; 0x2d; 0x8c; 0x4a; 0x80; 0x1d; 0xc5; 0x4a; 0x80; 0x2d;
  0xbf; 0x3a; 0xe0; 0x9f; 0x4a; 0x95; 0x2d; 0x01; 0x85; 0x2d; 0x01; 0xa5; 0x2d; 0x01; 0x85; 0x2d;
  0x01; 0x87; 0x2d; 0x00; 0x80; 0x2d; 0x00; 0x80; 0x2d; 0x00; 0x80; 0x2d; 0x00; 0x9e; 0x2d; 0x01;
  0xb4; 0x2d; 0x00; 0x8e; 0x2d; 0x00; 0x8d; 0x2d; 0x01; 0x85; 0x2d; 0x00; 0x92; 0x2d; 0x01; 0x82;
  0x2d; 0x00; 0x88; 0x2d; 0x00; 0x8b; 0x19; 0x81; 0x3a; 0xd6; 0x19; 0x00; 0x8a; 0x19; 0x80; 0x4a;
  0x01; 0x8a; 0x19; 0x80; 0x4a; 0x8e; 0x19; 0x00; 0x8c; 0x4a; 0x02; 0xa0; 0x19; 0x0e; 0xa0; 0x3a;
  0x0e; 0xa5; 0x19; 0x80; 0x2d; 0x82; 0x19; 0x81; 0x4a; 0x85; 0x19; 0x80; 0x4a; 0x9a; 0x19; 0x80;
  0x4a; 0x90; 0x19; 0xa8; 0x4a; 0x82; 0x19; 0x03; 0xe2; 0x39; 0x19; 0x15; 0x8a; 0x19; 0x14; 0xe3;
  0x3f; 0x19; 0xe0; 0x9f; 0x0f; 0xe2; 0x13; 0x19; 0x01; 0x9f; 0x19; 0x00; 0xe0; 0x08; 0x19; 0xdf;
  0x29; 0x9f; 0x4a; 0xe0; 0x13; 0x1a; 0x04; 0x86; 0x1a; 0xa5; 0x28; 0x00; 0x80; 0x28; 0x04; 0x80;
  0x28; 0x01; 0xb7; 0x9d; 0x06; 0x81; 0x9d; 0x0d; 0x80; 0x9d; 0x96; 0x27; 0x08; 0x86; 0x27; 0x00;
  0x86; 0x27; 0x00; 0x86; 0x27; 0x00; 0x86; 0x27; 0x00; 0x86; 0x27; 0x00; 0x86; 0x27; 0x00; 0x86;
  0x27; 0x00; 0x86; 0x27; 0x00; 0x9f; 0x1d; 0xdd; 0x19; 0x21; 0x99; 0x32; 0x00; 0xd8; 0x32; 0x0b;
  0xe0; 0x75; 0x32; 0x19; 0x94; 0x19; 0x80; 0x32; 0x80; 0x19; 0x80; 0x32; 0x98; 0x19; 0x88; 0x32;
  0x83; 0x3a; 0x81; 0x33; 0x87; 0x19; 0x83; 0x32; 0x83; 0x19; 0x00; 0xd5; 0x38; 0x01; 0x81; 0x3a;
  0x81; 0x19; 0x82; 0x38; 0x80; 0x19; 0xd9; 0x40; 0x81; 0x19; 0x82; 0x40; 0x04; 0xaa; 0x0d; 0x00;
  0xdd; 0x33; 0x00; 0x8f; 0x19; 0x9f; 0x0d; 0xa5; 0x19; 0x08; 0x80; 0x19; 0x8f; 0x40; 0x9e; 0x33;
  0x00; 0xbf; 0x19; 0x9e; 0x33; 0xd0; 0x19; 0xae; 0x40; 0x80; 0x19; 0xd7; 0x40; 0xe0; 0x47; 0x19;
  0xf0; 0x09; 0x5f; 0x32; 0xbf; 0x19; 0xf0; 0x41; 0x9f; 0x32; 0xe4; 0x2c; 0xa9; 0x02; 0xb6; 0xa9;
  0x08; 0xaf; 0x4f; 0xe0; 0xcb; 0xa4; 0x13; 0xdf; 0x1d; 0xd7; 0x08; 0x07; 0xa1; 0x19; 0xe0; 0x05;
  0x4a; 0x82; 0x19; 0xc2; 0x4a; 0x01; 0x81; 0x4a; 0x00; 0x80; 0x4a; 0x00; 0x87; 0x4a; 0x14; 0x8d;
  0x4a; 0xac; 0x8f; 0x02; 0x89; 0x19; 0x05; 0xb7; 0x7e; 0x07; 0xc5; 0x84; 0x07; 0x8b; 0x84; 0x05;
  0x9f; 0x20; 0xad; 0x42; 0x80; 0x19; 0x80; 0x42; 0xa3; 0x81; 0x0a; 0x80; 0x81; 0x9c; 0x33; 0x02;
  0xcd; 0x3d; 0x00; 0x80; 0x19; 0x89; 0x3d; 0x03; 0x81; 0x3d; 0x9e; 0x63; 0x00; 0xb6; 0x16; 0x08;
  0x8d; 0x16; 0x01; 0x89; 0x16; 0x01; 0x83; 0x16; 0x9f; 0x63; 0xc2; 0x95; 0x17; 0x84; 0x95; 0x96;
  0x5a; 0x09; 0x85; 0x27; 0x01; 0x85; 0x27; 0x01; 0x85; 0x27; 0x08; 0x86; 0x27; 0x00; 0x86; 0x27;
  0x00; 0xaa; 0x4a; 0x80; 0x19; 0x88; 0x4a; 0x80; 0x2d; 0x83; 0x4a; 0x81; 0x19; 0x03; 0xcf; 0x17;
  0xad; 0x5a; 0x01; 0x89; 0x5a; 0x05; 0xf0; 0x1b; 0x43; 0x33; 0x0b; 0x96; 0x33; 0x03; 0xb0; 0x33;
  0x70; 0x10; 0xa3; 0xe1; 0x0d; 0x32; 0x01; 0xe0; 0x09; 0x32; 0x25; 0x86; 0x4a; 0x0b; 0x84; 0x05;
  0x04; 0x99; 0x37; 0x00; 0x84; 0x37; 0x00; 0x80; 0x37; 0x00; 0x81; 0x37; 0x00; 0x81; 0x37; 0x00;
  0x89; 0x37; 0xe0; 0x12; 0x04; 0x0f; 0xe1; 0x0a; 0x04; 0x81; 0x19; 0xcf; 0x04; 0x01; 0xb5; 0x04;
  0x06; 0x80; 0x04; 0x1f; 0x8f; 0x04; 0x8f; 0x3a; 0x89; 0x19; 0x05; 0x8d; 0x3a; 0x81; 0x1d; 0xa2;
  0x19; 0x00; 0x92; 0x19; 0x00; 0x83; 0x19; 0x03; 0x84; 0x04; 0x00; 0xe0; 0x26; 0x04; 0x01; 0x80;
  0x19; 0x00; 0x9f; 0x19; 0x99; 0x4a; 0x85; 0x19; 0x99; 0x4a; 0x8a; 0x19; 0x89; 0x40; 0x80; 0x19;
  0xac; 0x40; 0x81; 0x19; 0x9e; 0x33; 0x02; 0x85; 0x33; 0x01; 0x85; 0x33; 0x01; 0x85; 0x33; 0x01;
  0x82; 0x33; 0x02; 0x86; 0x19; 0x00; 0x86; 0x19; 0x09; 0x84; 0x19; 0x01; 0x8b; 0x4e; 0x00; 0x99;
  0x4e; 0x00; 0x92; 0x4e; 0x00; 0x81; 0x4e; 0x00; 0x8e; 0x4e; 0x01; 0x8d; 0x4e; 0x21; 0xe0; 0x1a;
  0x4e; 0x04; 0x82; 0x19; 0x03; 0xac; 0x19; 0x02; 0x88; 0x19; 0xce; 0x2d; 0x00; 0x8c; 0x19; 0x02;
  0x80; 0x2d; 0x2e; 0xac; 0x19; 0x80; 0x3a; 0x60; 0x21; 0x9c; 0x50; 0x02; 0xb0; 0x13; 0x0e; 0x80;
  0x3a; 0x9a; 0x19; 0x03; 0xa3; 0x70; 0x08; 0x82; 0x70; 0x9a; 0x2a; 0x04; 0xaa; 0x72; 0x04; 0x9d;
  0xa3; 0x00; 0x80; 0xa3; 0xa3; 0x73; 0x03; 0x8d; 0x73; 0x29; 0xcf; 0x1f; 0xaf; 0x86; 0x9d; 0x7a;
  0x01; 0x89; 0x7a; 0x05; 0xa3; 0x79; 0x03; 0xa3; 0x79; 0x03; 0xa7; 0x25; 0x07; 0xb3; 0x14; 0x0a;
  0x80; 0x14; 0x8a; 0xa5; 0x00; 0x8e; 0xa5; 0x00; 0x86; 0xa5; 0x00; 0x81; 0xa5; 0x00; 0x8a; 0xa5;
  0x00; 0x8e; 0xa5; 0x00; 0x86; 0xa5; 0x00; 0x81; 0xa5; 0x02; 0xb3; 0xa0; 0x0b; 0xe0; 0xd6; 0x4d;
  0x08; 0x95; 0x4d; 0x09; 0x87; 0x4d; 0x17; 0x85; 0x4a; 0x00; 0xa9; 0x4a; 0x00; 0x88; 0x4a; 0x44;
  0x85; 0x1c; 0x01; 0x80; 0x1c; 0x00; 0xab; 0x1c; 0x00; 0x81; 0x1c; 0x02; 0x80; 0x1c; 0x01; 0x80;
  0x1c; 0x95; 0x39; 0x00; 0x88; 0x39; 0x9f; 0x7c; 0x9e; 0x64; 0x07; 0x88; 0x64; 0x2f; 0x92; 0x36;
  0x00; 0x81; 0x36; 0x04; 0x84; 0x36; 0x9b; 0x7f; 0x02; 0x80; 0x7f; 0x99; 0x51; 0x04; 0x80; 0x51;
  0x3f; 0x9f; 0x5d; 0x97; 0x5c; 0x03; 0x93; 0x5c; 0x01; 0xad; 0x5c; 0x83; 0x43; 0x00; 0x81; 0x43;
  0x04; 0x87; 0x43; 0x00; 0x82; 0x43; 0x00; 0x9c; 0x43; 0x01; 0x82; 0x43; 0x03; 0x89; 0x43; 0x06;
  0x88; 0x43; 0x06; 0x9f; 0x75; 0x9f; 0x71; 0x1f; 0xa6; 0x56; 0x03; 0x8b; 0x56; 0x08; 0xb5; 0x06;
  0x02; 0x86; 0x06; 0x95; 0x3c; 0x01; 0x87; 0x3c; 0x92; 0x3b; 0x04; 0x87; 0x3b; 0x91; 0x80; 0x06;
  0x83; 0x80; 0x0b; 0x86; 0x80; 0x4f; 0xc8; 0x76; 0x36; 0xb2; 0x6f; 0x0c; 0xb2; 0x6f; 0x06; 0x85;
  0x6f; 0xa7; 0x34; 0x07; 0x89; 0x34; 0x05; 0xa5; 0x2b; 0x02; 0x9c; 0x2b; 0x07; 0x81; 0x2b; 0x60;
  0x6f; 0x9e; 0x04; 0x00; 0xa9; 0xa8; 0x00; 0x82; 0xa8; 0x01; 0x81; 0xa8; 0x0f; 0x82; 0x04; 0x36;
  0x83; 0x04; 0xa7; 0x74; 0x07; 0xa9; 0x8a; 0x15; 0x99; 0x77; 0x25; 0x9b; 0x18; 0x13; 0x96; 0x26;
  0x08; 0xcd; 0x0e; 0x03; 0xa3; 0x0e; 0x08; 0x80; 0x0e; 0xc2; 0x3e; 0x09; 0x80; 0x3e; 0x01; 0x98;
  0x8b; 0x06; 0x89; 0x8b; 0x05; 0xb4; 0x15; 0x00; 0x91; 0x15; 0x07; 0xa6; 0x53; 0x08; 0xdf; 0x85;
  0x00; 0x93; 0x89; 0x0a; 0x91; 0x45; 0x00; 0xae; 0x45; 0x3d; 0x86; 0x62; 0x00; 0x80; 0x62; 0x00;
  0x83; 0x62; 0x00; 0x8e; 0x62; 0x00; 0x8a; 0x62; 0x05; 0xba; 0x47; 0x04; 0x89; 0x47; 0x05; 0x83;
  0x2c; 0x00; 0x87; 0x2c; 0x01; 0x81; 0x2c; 0x01; 0x95; 0x2c; 0x00; 0x86; 0x2c; 0x00; 0x81; 0x2c;
  0x00; 0x84; 0x2c; 0x00; 0x80; 0x3a; 0x88; 0x2c; 0x01; 0x81; 0x2c; 0x01; 0x82; 0x2c; 0x01; 0x80;
  0x2c; 0x05; 0x80; 0x2c; 0x04; 0x86; 0x2c; 0x01; 0x86; 0x2c; 0x02; 0x84; 0x2c; 0x0a; 0x89; 0xa2;
  0x00; 0x80; 0xa2; 0x01; 0x80; 0xa2; 0x00; 0xa5; 0xa2; 0x00; 0x89; 0xa2; 0x00; 0x80; 0xa2; 0x01;
  0x80; 0xa2; 0x00; 0x83; 0xa2; 0x00; 0x89; 0xa2; 0x00; 0x81; 0xa2; 0x07; 0x81; 0xa2; 0x1c; 0xdb;
  0x68; 0x00; 0x84; 0x68; 0x1d; 0xc7; 0x9e; 0x07; 0x89; 0x9e; 0x60; 0x45; 0xb5; 0x87; 0x01; 0xa5;
  0x87; 0x21; 0xc4; 0x5f; 0x0a; 0x89; 0x5f; 0x05; 0x8c; 0x60; 0x12; 0xb9; 0x96; 0x05; 0x89; 0x96;
  0x05; 0x93; 0x63; 0x1b; 0x9a; 0x02; 0x01; 0x8e; 0x02; 0x03; 0x96; 0x02; 0x60; 0x58; 0xbb; 0x22;
  0x60; 0x03; 0xd2; 0xa7; 0x0b; 0x80; 0xa7; 0x86; 0x21; 0x01; 0x80; 0x21; 0x01; 0x87; 0x21; 0x00;
  0x81; 0x21; 0x00; 0x9d; 0x21; 0x00; 0x81; 0x21; 0x01; 0x8b; 0x21; 0x08; 0x89; 0x21; 0x45; 0x87;
  0x66; 0x01; 0xad; 0x66; 0x01; 0x8a; 0x66; 0x1a; 0xc7; 0xaa; 0x07; 0xd2; 0x8c; 0x0c; 0x8f; 0x12;
  0xb8; 0x7d; 0x06; 0x89; 0x20; 0x60; 0x55; 0xa1; 0x8e; 0x0d; 0x89; 0x8e; 0x05; 0x88; 0x0c; 0x00;
  0xac; 0x0c; 0x00; 0x8d; 0x0c; 0x09; 0x9c; 0x0c; 0x02; 0x9f; 0x57; 0x01; 0x95; 0x57; 0x00; 0x8d;
  0x57; 0x48; 0x86; 0x58; 0x00; 0x81; 0x58; 0x00; 0xab; 0x58; 0x02; 0x80; 0x58; 0x00; 0x81; 0x58;
  0x00; 0x88; 0x58; 0x07; 0x89; 0x58; 0x05; 0x85; 0x2f; 0x00; 0x81; 0x2f; 0x00; 0xa4; 0x2f; 0x00;
  0x81; 0x2f; 0x00; 0x85; 0x2f; 0x06; 0x89; 0x2f; 0x60; 0xd5; 0x98; 0x52; 0x06; 0x90; 0x41; 0x00;
  0xa8; 0x41; 0x02; 0x9c; 0x41; 0x54; 0x80; 0x4f; 0x0e; 0xb1; 0x97; 0x0c; 0x80; 0x97; 0xe3; 0x39;
  0x1b; 0x60; 0x05; 0xe0; 0x0e; 0x1b; 0x00; 0x84; 0x1b; 0x0a; 0xe0; 0x63; 0x1b; 0x69; 0xeb; 0xe0;
  0x02; 0x1e; 0x0c; 0xe3; 0xf5; 0x24; 0x09; 0xef; 0x3a; 0x24; 0x04; 0xe1; 0xe6; 0x03; 0x70; 0x0a;
  0x58; 0xb9; 0x31; 0x66; 0x65; 0xe1; 0xd8; 0x08; 0x06; 0x9e; 0x61; 0x00; 0x89; 0x61; 0x03; 0x81;
  0x61; 0xce; 0x9f; 0x00; 0x89; 0x9f; 0x05; 0x9d; 0x09; 0x01; 0x85; 0x09; 0x09; 0xc5; 0x7b; 0x09;
  0x89; 0x7b; 0x00; 0x86; 0x7b; 0x00; 0x94; 0x7b; 0x04; 0x92; 0x7b; 0x61; 0x4f; 0xb9; 0x48; 0x60;
  0x65; 0xda; 0x59; 0x60; 0x04; 0xca; 0x5e; 0x03; 0xb8; 0x5e; 0x06; 0x90; 0x5e; 0x3f; 0x80; 0x98;
  0x80; 0x6a; 0x81; 0x32; 0x80; 0x46; 0x0a; 0x81; 0x32; 0x0d; 0xf0; 0x07; 0x97; 0x98; 0x07; 0xe2;
  0x9f; 0x98; 0xe1; 0x75; 0x46; 0x28; 0x80; 0x46; 0x88; 0x98; 0x70; 0x12; 0x86; 0x83; 0x40; 0x00;
  0x86; 0x40; 0x00; 0x81; 0x40; 0x00; 0x80; 0x40; 0xe0; 0xbe; 0x38; 0x82; 0x40; 0x0e; 0x80; 0x38;
  0x1c; 0x82; 0x38; 0x01; 0x80; 0x40; 0x0d; 0x83; 0x40; 0x07; 0xe1; 0x2b; 0x6a; 0x68; 0xa3; 0xe0;
  0x0a; 0x23; 0x04; 0x8c; 0x23; 0x02; 0x88; 0x23; 0x06; 0x89; 0x23; 0x01; 0x83; 0x23; 0x83; 0x19;
  0x6e; 0xfb; 0xe0; 0x99; 0x19; 0x05; 0xe1; 0x53; 0x19; 0x4b; 0xad; 0x3a; 0x01; 0x96; 0x3a; 0x08;
  0xe0; 0x13; 0x19; 0x3b; 0xe0; 0x95; 0x19; 0x09; 0xa6; 0x19; 0x01; 0xbd; 0x19; 0x82; 0x3a; 0x90;
  0x19; 0x87; 0x3a; 0x81; 0x19; 0x86; 0x3a; 0x9d; 0x19; 0x83; 0x3a; 0xbc; 0x19; 0x14; 0xc5; 0x2d;
  0x60; 0x19; 0x93; 0x19; 0x0b; 0x93; 0x19; 0x0b; 0xd6; 0x19; 0x08; 0x98; 0x19; 0x60; 0x26; 0xd4;
  0x19; 0x00; 0xc6; 0x19; 0x00; 0x81; 0x19; 0x01; 0x80; 0x19; 0x01; 0x81; 0x19; 0x01; 0x83; 0x19;
  0x00; 0x8b; 0x19; 0x00; 0x80; 0x19; 0x00; 0x86; 0x19; 0x00; 0xc0; 0x19; 0x00; 0x83; 0x19; 0x01;
  0x87; 0x19; 0x00; 0x86; 0x19; 0x00; 0x9b; 0x19; 0x00; 0x83; 0x19; 0x00; 0x84; 0x19; 0x00; 0x80;
  0x19; 0x02; 0x86; 0x19; 0x00; 0xe0; 0xf3; 0x19; 0x01; 0xe0; 0xc3; 0x19; 0x01; 0xb1; 0x19; 0xe2;
  0x2b; 0x88; 0x0e; 0x84; 0x88; 0x00; 0x8e; 0x88; 0x63; 0xef; 0x9e; 0x4a; 0x05; 0x85; 0x4a; 0x60;
  0x74; 0x86; 0x29; 0x00; 0x90; 0x29; 0x01; 0x86; 0x29; 0x00; 0x81; 0x29; 0x00; 0x84; 0x29; 0x04;
  0xbd; 0x1d; 0x20; 0x80; 0x1d; 0x60; 0x0f; 0xac; 0x6b; 0x02; 0x8d; 0x6b; 0x01; 0x89; 0x6b; 0x03;
  0x81; 0x6b; 0x60; 0xdf; 0x9e; 0xa1; 0x10; 0xb9; 0xa6; 0x04; 0x80; 0xa6; 0x61; 0x6f; 0xa9; 0x65;
  0x60; 0x75; 0xaa; 0x6e; 0x03; 0x80; 0x6e; 0x61; 0x7f; 0x86; 0x27; 0x00; 0x83; 0x27; 0x00; 0x81;
  0x27; 0x00; 0x8e; 0x27; 0x00; 0xe0; 0x64; 0x5b; 0x01; 0x8f; 0x5b; 0x28; 0xcb; 0x01; 0x03; 0x89;
  0x01; 0x03; 0x81; 0x01; 0x62; 0xb0; 0xc3; 0x19; 0x4b; 0xbc; 0x19; 0x60; 0x61; 0x83; 0x04; 0x00;
  0x9a; 0x04; 0x00; 0x81; 0x04; 0x00; 0x80; 0x04; 0x01; 0x80; 0x04; 0x00; 0x89; 0x04; 0x00; 0x83;
  0x04; 0x00; 0x80; 0x04; 0x00; 0x80; 0x04; 0x05; 0x80; 0x04; 0x03; 0x80; 0x04; 0x00; 0x80; 0x04;
  0x00; 0x80; 0x04; 0x00; 0x82; 0x04; 0x00; 0x81; 0x04; 0x00; 0x80; 0x04; 0x01; 0x80; 0x04; 0x00;
  0x80; 0x04; 0x00; 0x80; 0x04; 0x00; 0x80; 0x04; 0x00; 0x80; 0x04; 0x00; 0x81; 0x04; 0x00; 0x80;
  0x04; 0x01; 0x83; 0x04; 0x00; 0x86; 0x04; 0x00; 0x83; 0x04; 0x00; 0x83; 0x04; 0x00; 0x80; 0x04;
  0x00; 0x89; 0x04; 0x00; 0x90; 0x04; 0x04; 0x82; 0x04; 0x00; 0x84; 0x04; 0x00; 0x90; 0x04; 0x33;
  0x81; 0x04; 0x60; 0xad; 0xab; 0x19; 0x03; 0xe0; 0x03; 0x19; 0x0b; 0x8e; 0x19; 0x01; 0x8e; 0x19;
  0x00; 0x8e; 0x19; 0x00; 0xa4; 0x19; 0x09; 0xe0; 0x4d; 0x19; 0x37; 0x99; 0x19; 0x80; 0x38; 0x81;
  0x19; 0x0c; 0xab; 0x19; 0x03; 0x88; 0x19; 0x06; 0x81; 0x19; 0x0d; 0x85; 0x19; 0x60; 0x39; 0xe3;
  0x77; 0x19; 0x03; 0x90; 0x19; 0x02; 0x8c; 0x19; 0x02; 0xe0; 0x16; 0x19; 0x03; 0xde; 0x19; 0x05;
  0x8b; 0x19; 0x03; 0x80; 0x19; 0x0e; 0x8b; 0x19; 0x03; 0xb7; 0x19; 0x07; 0x89; 0x19; 0x05; 0xa7;
  0x19; 0x07; 0x9d; 0x19; 0x01; 0x8b; 0x19; 0x03; 0x81; 0x19; 0x3d; 0xe0; 0xf3; 0x19; 0x0b; 0x8d;
  0x19; 0x01; 0x8c; 0x19; 0x02; 0x89; 0x19; 0x04; 0xb7; 0x19; 0x06; 0x8e; 0x19; 0x01; 0x8a; 0x19;
  0x05; 0x88; 0x19; 0x06; 0xe0; 0x32; 0x19; 0x00; 0xe0; 0x05; 0x19; 0x63; 0xa5; 0xf0; 0x96; 0x7f;
  0x32; 0x1f; 0xef; 0xd9; 0x32; 0x05; 0xe0; 0x7d; 0x32; 0x01; 0xf0; 0x06; 0x21; 0x32; 0x0d; 0xf0;
  0x0c; 0xd0; 0x32; 0x0e; 0xe2; 0x0d; 0x32; 0x69; 0x41; 0xe1; 0xbd; 0x32; 0x65; 0x81; 0xf0; 0x02;
  0xea; 0x32; 0x04; 0xef; 0xff; 0x32; 0x7a; 0xcb; 0xf0; 0x80; 0x19; 0x1d; 0xdf; 0x19; 0x60; 0x1f;
  0xe0; 0x8f; 0x3a].

Definition unicode_script_ext_table : list Z := [
  0x80; 0x36; 0x00; 0x00; 0x10; 0x06; 0x13; 0x1a; 0x23; 0x25; 0x28; 0x29; 0x2f; 0x2a; 0x2d; 0x32;
  0x4a; 0x51; 0x53; 0x72; 0x86; 0x81; 0x83; 0x00; 0x00; 0x07; 0x0b; 0x1d; 0x20; 0x4a; 0x4f; 0x9b;
  0xa1; 0x09; 0x00; 0x00; 0x02; 0x0d; 0x4a; 0x00; 0x00; 0x02; 0x02; 0x0d; 0x4a; 0x00; 0x00; 0x00;
  0x02; 0x4a; 0x4f; 0x08; 0x00; 0x00; 0x02; 0x4a; 0x9b; 0x00; 0x00; 0x00; 0x02; 0x0d; 0x4a; 0x25;
  0x00; 0x00; 0x08; 0x17; 0x1a; 0x1d; 0x2d; 0x4a; 0x72; 0x8e; 0x93; 0x00; 0x08; 0x17; 0x1d; 0x2d;
  0x4a; 0x79; 0x8e; 0x93; 0xa0; 0x00; 0x04; 0x17; 0x1d; 0x4a; 0x9d; 0x00; 0x05; 0x29; 0x4a; 0x8e;
  0x90; 0x9b; 0x00; 0x0b; 0x14; 0x17; 0x1a; 0x1d; 0x2a; 0x2d; 0x4a; 0x79; 0x90; 0x9d; 0xa0; 0x00;
  0x06; 0x1a; 0x25; 0x29; 0x2a; 0x40; 0x4a; 0x00; 0x04; 0x1d; 0x2d; 0x4a; 0x72; 0x00; 0x09; 0x1a;
  0x23; 0x37; 0x4a; 0x72; 0x90; 0x93; 0x9d; 0xa0; 0x00; 0x0a; 0x05; 0x1d; 0x23; 0x2a; 0x2d; 0x37;
  0x4a; 0x72; 0x90; 0x93; 0x00; 0x02; 0x4a; 0x9d; 0x00; 0x03; 0x23; 0x4a; 0x90; 0x00; 0x04; 0x17;
  0x1d; 0x4a; 0x79; 0x00; 0x03; 0x17; 0x4a; 0x93; 0x00; 0x02; 0x4a; 0x8e; 0x00; 0x02; 0x27; 0x4a;
  0x00; 0x00; 0x00; 0x02; 0x4a; 0x8e; 0x00; 0x03; 0x1d; 0x4a; 0xa0; 0x00; 0x00; 0x00; 0x04; 0x2d;
  0x4a; 0x72; 0xa0; 0x0b; 0x00; 0x00; 0x02; 0x4a; 0x90; 0x01; 0x00; 0x00; 0x05; 0x17; 0x23; 0x40;
  0x4a; 0x90; 0x00; 0x04; 0x17; 0x23; 0x4a; 0x90; 0x00; 0x02; 0x4a; 0x90; 0x06; 0x00; 0x00; 0x03;
  0x4a; 0x8e; 0x90; 0x00; 0x02; 0x4a; 0x90; 0x00; 0x00; 0x00; 0x03; 0x17; 0x4a; 0x90; 0x00; 0x06;
  0x14; 0x17; 0x2a; 0x4a; 0x8e; 0x9b; 0x0f; 0x00; 0x00; 0x01; 0x2d; 0x01; 0x00; 0x00; 0x01; 0x2d;
  0x11; 0x00; 0x00; 0x02; 0x4a; 0x79; 0x04; 0x00; 0x00; 0x03; 0x14; 0x4a; 0xa0; 0x03; 0x00; 0x0c;
  0x01; 0x4a; 0x03; 0x00; 0x01; 0x02; 0x1a; 0x2d; 0x80; 0x8c; 0x00; 0x00; 0x02; 0x1d; 0x72; 0x00;
  0x02; 0x1d; 0x29; 0x01; 0x02; 0x1d; 0x4a; 0x00; 0x02; 0x1d; 0x29; 0x80; 0x80; 0x00; 0x00; 0x03;
  0x05; 0x28; 0x29; 0x80; 0x01; 0x00; 0x00; 0x07; 0x04; 0x2b; 0x69; 0x34; 0x90; 0x9a; 0xa8; 0x0d;
  0x00; 0x00; 0x07; 0x04; 0x2b; 0x69; 0x34; 0x90; 0x9a; 0xa8; 0x00; 0x03; 0x04; 0x90; 0x9a; 0x01;
  0x00; 0x00; 0x08; 0x01; 0x04; 0x2b; 0x69; 0x34; 0x90; 0x9a; 0xa8; 0x1f; 0x00; 0x00; 0x09; 0x01;
  0x04; 0x55; 0x56; 0x77; 0x80; 0x34; 0x8a; 0x90; 0x09; 0x00; 0x0a; 0x02; 0x04; 0x90; 0x09; 0x00;
  0x09; 0x03; 0x04; 0x9a; 0xa8; 0x05; 0x00; 0x00; 0x02; 0x04; 0x90; 0x62; 0x00; 0x00; 0x02; 0x04;
  0x34; 0x81; 0xfb; 0x00; 0x00; 0x0d; 0x0b; 0x20; 0x2c; 0x2e; 0x30; 0x3f; 0x4a; 0x54; 0x78; 0x85;
  0x97; 0x99; 0x9e; 0x00; 0x0c; 0x0b; 0x20; 0x2c; 0x2e; 0x30; 0x3f; 0x4a; 0x54; 0x78; 0x97; 0x99;
  0x9e; 0x10; 0x00; 0x00; 0x15; 0x0b; 0x20; 0x22; 0x2f; 0x58; 0x2c; 0x2e; 0x30; 0x3f; 0x53; 0x54;
  0x66; 0x6e; 0x78; 0x47; 0x89; 0x8f; 0x96; 0x97; 0x99; 0x9e; 0x00; 0x17; 0x0b; 0x20; 0x22; 0x2f;
  0x58; 0x2c; 0x2e; 0x31; 0x30; 0x3f; 0x4c; 0x53; 0x54; 0x66; 0x6e; 0x78; 0x47; 0x89; 0x8f; 0x96;
  0x97; 0x99; 0x9e; 0x09; 0x04; 0x20; 0x22; 0x3e; 0x53; 0x75; 0x00; 0x09; 0x03; 0x0b; 0x15; 0x8f;
  0x75; 0x00; 0x09; 0x02; 0x30; 0x62; 0x75; 0x00; 0x09; 0x02; 0x2e; 0x45; 0x80; 0x75; 0x00; 0x0d;
  0x02; 0x2c; 0x97; 0x80; 0x71; 0x00; 0x09; 0x03; 0x3f; 0x66; 0xa2; 0x82; 0xcf; 0x00; 0x09; 0x03;
  0x15; 0x63; 0x93; 0x80; 0x30; 0x00; 0x00; 0x03; 0x28; 0x29; 0x4a; 0x85; 0x6e; 0x00; 0x02; 0x01;
  0x82; 0x46; 0x00; 0x01; 0x04; 0x11; 0x35; 0x92; 0x91; 0x80; 0x4a; 0x00; 0x01; 0x02; 0x60; 0x7e;
  0x00; 0x00; 0x00; 0x02; 0x60; 0x7e; 0x84; 0x49; 0x00; 0x00; 0x04; 0x0b; 0x20; 0x2c; 0x3f; 0x00;
  0x01; 0x20; 0x00; 0x04; 0x0b; 0x20; 0x2c; 0x3f; 0x00; 0x03; 0x20; 0x2c; 0x3f; 0x00; 0x01; 0x20;
  0x01; 0x02; 0x0b; 0x20; 0x00; 0x02; 0x20; 0x85; 0x00; 0x02; 0x0b; 0x20; 0x00; 0x02; 0x20; 0x85;
  0x00; 0x06; 0x20; 0x3f; 0x54; 0x78; 0x97; 0x99; 0x00; 0x01; 0x20; 0x01; 0x02; 0x20; 0x85; 0x01;
  0x01; 0x20; 0x00; 0x02; 0x20; 0x85; 0x00; 0x02; 0x0b; 0x20; 0x06; 0x01; 0x20; 0x00; 0x02; 0x20;
  0x66; 0x00; 0x02; 0x0b; 0x20; 0x01; 0x01; 0x20; 0x00; 0x02; 0x0b; 0x20; 0x03; 0x01; 0x20; 0x00;
  0x0b; 0x0b; 0x20; 0x2c; 0x3f; 0x54; 0x66; 0x78; 0x89; 0x99; 0x9e; 0xa2; 0x00; 0x02; 0x20; 0x2c;
  0x00; 0x04; 0x20; 0x2c; 0x3f; 0xa2; 0x01; 0x02; 0x0b; 0x20; 0x00; 0x01; 0x0b; 0x01; 0x02; 0x20;
  0x2c; 0x00; 0x01; 0x66; 0x80; 0x44; 0x00; 0x01; 0x01; 0x2d; 0x35; 0x00; 0x00; 0x03; 0x1d; 0x4a;
  0x90; 0x00; 0x00; 0x00; 0x01; 0x90; 0x81; 0xb3; 0x00; 0x00; 0x03; 0x4a; 0x60; 0x7e; 0x1e; 0x00;
  0x00; 0x02; 0x01; 0x04; 0x09; 0x00; 0x00; 0x06; 0x13; 0x28; 0x29; 0x6f; 0x50; 0x76; 0x01; 0x00;
  0x00; 0x04; 0x13; 0x2d; 0x6f; 0x5d; 0x80; 0x11; 0x00; 0x00; 0x03; 0x20; 0x2c; 0x4a; 0x8c; 0xa5;
  0x00; 0x00; 0x02; 0x1a; 0x4a; 0x17; 0x00; 0x00; 0x02; 0x06; 0x76; 0x00; 0x07; 0x06; 0x13; 0x28;
  0x6f; 0x3e; 0x51; 0x83; 0x09; 0x00; 0x00; 0x01; 0x23; 0x03; 0x00; 0x00; 0x03; 0x01; 0x04; 0x6f;
  0x00; 0x00; 0x00; 0x02; 0x1d; 0x29; 0x81; 0x2b; 0x00; 0x0f; 0x02; 0x32; 0x98; 0x00; 0x00; 0x00;
  0x07; 0x0d; 0x33; 0x32; 0x38; 0x40; 0x60; 0xa9; 0x00; 0x08; 0x0d; 0x33; 0x32; 0x38; 0x40; 0x60;
  0x7e; 0xa9; 0x00; 0x05; 0x0d; 0x33; 0x32; 0x38; 0x40; 0x01; 0x00; 0x00; 0x01; 0x32; 0x00; 0x00;
  0x01; 0x08; 0x0d; 0x33; 0x32; 0x38; 0x40; 0x60; 0x9c; 0xa9; 0x01; 0x09; 0x0d; 0x33; 0x32; 0x38;
  0x40; 0x4f; 0x60; 0x9c; 0xa9; 0x05; 0x06; 0x0d; 0x33; 0x32; 0x38; 0x40; 0xa9; 0x00; 0x00; 0x00;
  0x05; 0x0d; 0x33; 0x32; 0x38; 0x40; 0x07; 0x06; 0x0d; 0x33; 0x32; 0x38; 0x40; 0xa9; 0x03; 0x05;
  0x0d; 0x33; 0x32; 0x38; 0x40; 0x09; 0x00; 0x03; 0x02; 0x0d; 0x32; 0x01; 0x00; 0x00; 0x05; 0x0d;
  0x33; 0x32; 0x38; 0x40; 0x04; 0x02; 0x38; 0x40; 0x00; 0x00; 0x00; 0x05; 0x0d; 0x33; 0x32; 0x38;
  0x40; 0x03; 0x00; 0x01; 0x03; 0x32; 0x38; 0x40; 0x01; 0x01; 0x32; 0x58; 0x00; 0x03; 0x02; 0x38;
  0x40; 0x02; 0x00; 0x00; 0x02; 0x38; 0x40; 0x59; 0x00; 0x00; 0x06; 0x0d; 0x33; 0x32; 0x38; 0x40;
  0xa9; 0x00; 0x02; 0x38; 0x40; 0x80; 0x12; 0x00; 0x0f; 0x01; 0x32; 0x1f; 0x00; 0x25; 0x01; 0x32;
  0x08; 0x00; 0x00; 0x02; 0x32; 0x98; 0x2f; 0x00; 0x27; 0x01; 0x32; 0x37; 0x00; 0x30; 0x01; 0x32;
  0x0e; 0x00; 0x0b; 0x01; 0x32; 0x32; 0x00; 0x00; 0x01; 0x32; 0x57; 0x00; 0x18; 0x01; 0x32; 0x09;
  0x00; 0x04; 0x01; 0x32; 0x5f; 0x00; 0x1e; 0x01; 0x32; 0xc0; 0x31; 0xef; 0x00; 0x00; 0x02; 0x1d;
  0x29; 0x80; 0x0f; 0x00; 0x07; 0x02; 0x32; 0x4a; 0x80; 0xa7; 0x00; 0x02; 0x10; 0x20; 0x22; 0x2e;
  0x30; 0x45; 0x3f; 0x3e; 0x53; 0x54; 0x5f; 0x66; 0x85; 0x47; 0x96; 0x9e; 0xa2; 0x02; 0x0f; 0x20;
  0x22; 0x2e; 0x30; 0x45; 0x3f; 0x3e; 0x53; 0x5f; 0x66; 0x85; 0x47; 0x96; 0x9e; 0xa2; 0x01; 0x0b;
  0x20; 0x22; 0x2e; 0x30; 0x45; 0x3e; 0x53; 0x5f; 0x47; 0x96; 0x9e; 0x00; 0x0c; 0x20; 0x22; 0x2e;
  0x30; 0x45; 0x3e; 0x53; 0x5f; 0x85; 0x47; 0x96; 0x9e; 0x00; 0x0b; 0x20; 0x22; 0x2e; 0x30; 0x45;
  0x3e; 0x53; 0x5f; 0x47; 0x96; 0x9e; 0x80; 0x36; 0x00; 0x00; 0x03; 0x0b; 0x20; 0xa2; 0x00; 0x00;
  0x00; 0x02; 0x20; 0x97; 0x39; 0x00; 0x00; 0x03; 0x42; 0x4a; 0x63; 0x80; 0x1f; 0x00; 0x00; 0x02;
  0x10; 0x3d; 0xc0; 0x12; 0xed; 0x00; 0x01; 0x02; 0x04; 0x69; 0x80; 0x31; 0x00; 0x00; 0x02; 0x04;
  0x9a; 0x09; 0x00; 0x00; 0x02; 0x04; 0x9a; 0x46; 0x00; 0x01; 0x05; 0x0d; 0x33; 0x32; 0x38; 0x40;
  0x80; 0x99; 0x00; 0x04; 0x06; 0x0d; 0x33; 0x32; 0x38; 0x40; 0xa9; 0x09; 0x00; 0x00; 0x02; 0x38;
  0x40; 0x2c; 0x00; 0x01; 0x02; 0x38; 0x40; 0x80; 0xdf; 0x00; 0x01; 0x03; 0x1e; 0x1c; 0x4e; 0x00;
  0x02; 0x1c; 0x4e; 0x03; 0x00; 0x2c; 0x03; 0x1c; 0x4d; 0x4e; 0x02; 0x00; 0x08; 0x02; 0x1c; 0x4e;
  0x81; 0x1f; 0x00; 0x1b; 0x02; 0x04; 0x1a; 0x87; 0x75; 0x00; 0x00; 0x02; 0x56; 0x77; 0x87; 0x8d;
  0x00; 0x00; 0x02; 0x2c; 0x97; 0x00; 0x00; 0x00; 0x02; 0x2c; 0x97; 0x36; 0x00; 0x01; 0x02; 0x2c;
  0x97; 0x8c; 0x12; 0x00; 0x01; 0x02; 0x2c; 0x97; 0x00; 0x00; 0x00; 0x02; 0x2c; 0x97; 0xc0; 0x5c;
  0x4b; 0x00; 0x03; 0x01; 0x23; 0x96; 0x3b; 0x00; 0x11; 0x01; 0x32; 0x9e; 0x5d; 0x00; 0x01; 0x01;
  0x32; 0xce; 0xcd; 0x2d; 0x00].
