(* ===== verification/UniCase.v ===== *)
(** * Case conversion of code points

    The readers of the case conversion table of
    [src/vendors/qjs/quickjs/libunicode.c]: conversion to upper case, to lower
    case and case folding ([lre_case_conv]), the folding of regular expressions
    ([lre_canonicalize]), and both for sets ([unicode_case1],
    [cr_regexp_canonicalize]). *)
From S2P Require Import Prelude CStd Words CUtils BigIntMp CharRange UniTable.

(** ** The runs of the table *)

Inductive RunType : Type :=
  | RUN_TYPE_U | RUN_TYPE_L | RUN_TYPE_UF | RUN_TYPE_LF | RUN_TYPE_UL | RUN_TYPE_LSU
  | RUN_TYPE_U2L_399_EXT2 | RUN_TYPE_UF_D20 | RUN_TYPE_UF_D1_EXT | RUN_TYPE_U_EXT | RUN_TYPE_LF_EXT
  | RUN_TYPE_UF_EXT2 | RUN_TYPE_LF_EXT2 | RUN_TYPE_UF_EXT3.

Definition run_code (t : RunType) : Z :=
  match t with
  | RUN_TYPE_U => 0 | RUN_TYPE_L => 1 | RUN_TYPE_UF => 2 | RUN_TYPE_LF => 3 | RUN_TYPE_UL => 4 | RUN_TYPE_LSU => 5
  | RUN_TYPE_U2L_399_EXT2 => 6 | RUN_TYPE_UF_D20 => 7 | RUN_TYPE_UF_D1_EXT => 8 | RUN_TYPE_U_EXT => 9 | RUN_TYPE_LF_EXT => 10
  | RUN_TYPE_UF_EXT2 => 11 | RUN_TYPE_LF_EXT2 => 12 | RUN_TYPE_UF_EXT3 => 13
  end.

(** The case of the [switch]: the values that are no type go with [default], the last one. *)
Definition run_type (type : Z) : RunType :=
  nth (Z.to_nat type)
    [RUN_TYPE_U; RUN_TYPE_L; RUN_TYPE_UF; RUN_TYPE_LF; RUN_TYPE_UL; RUN_TYPE_LSU; RUN_TYPE_U2L_399_EXT2; RUN_TYPE_UF_D20;
     RUN_TYPE_UF_D1_EXT; RUN_TYPE_U_EXT; RUN_TYPE_LF_EXT; RUN_TYPE_UF_EXT2; RUN_TYPE_LF_EXT2] RUN_TYPE_UF_EXT3.

(** [v >> (32 - 17)], [(v >> (32 - 17 - 7)) & 0x7f] and [(v >> (32 - 17 - 7 - 4)) & 0xf] *)
Definition entry_code (v : Z) : Z := Z.shiftr v 15.
Definition entry_len (v : Z) : Z := Z.land (Z.shiftr v 8) 0x7f.
Definition entry_type (v : Z) : Z := Z.land (Z.shiftr v 4) 0xf.

Definition CASE_COUNT : Z := 378.

Section readers.
Context {S : Type}.

(** The search of the entry of [c], the same in every reader: its index and its value. *)
Definition case_turn (c : Z) : Z * Z → M S (Z * Z + option (Z * Z)) := λ '(idx_min, idx_max),
  if idx_min <=? idx_max then
    let idx := u32 (idx_max + idx_min) / 2 in
    v ← rd case_conv_table1 idx;
    let code := entry_code v in
    let len := entry_len v in
    if c <? code then ret (inl (idx_min, idx - 1))
    else if c >=? code + len then ret (inl (idx + 1, idx_max))
    else ret (inr (Some (idx, v)))
  else ret (inr None).
Definition case_search (c : Z) : M S (option (Z * Z)) := loop 379 (case_turn c) (0, CASE_COUNT - 1).

(** [c - code + x] on 32 bits *)
Definition shifted (c code x : Z) : Z := u32 (c - code + x).

(** The characters [res], as many as the result; [lre_case_conv1] is given. *)
Definition lre_case_conv_entry (lre_case_conv1 : Z → Z → M S Z) (c conv_type idx v : Z) : M S (list Z) :=
  let is_lower := Z.b2z (negb (conv_type =? 0)) in
  let type := entry_type v in
  low ← rd case_conv_table2 idx;
  let data := Z.lor (Z.shiftl (Z.land v 0xf) 8) low in
  let code := entry_code v in
  match run_type type with
  | RUN_TYPE_U | RUN_TYPE_L | RUN_TYPE_UF | RUN_TYPE_LF =>
      if (conv_type =? Z.land type 1) || ((type >=? run_code RUN_TYPE_UF) && (conv_type =? 2)) then
        w ← rd case_conv_table1 data; ret [shifted c code (entry_code w)]
      else ret [c]
  | RUN_TYPE_UL =>
      let a := u32 (c - code) in
      if negb (Z.land a 1 =? 1 - is_lower) then ret [c] else ret [u32 (Z.lxor a 1 + code)]
  | RUN_TYPE_LSU =>
      let a := u32 (c - code) in
      if a =? 1 then ret [u32 (c + (2 * is_lower - 1))]
      else if a =? (1 - is_lower) * 2 then ret [u32 (c + (2 * is_lower - 1) * 2)]
      else ret [c]
  | RUN_TYPE_U2L_399_EXT2 =>
      if is_lower =? 0 then x ← rd case_conv_ext (Z.shiftr data 6); ret [shifted c code x; 0x399]
      else x ← rd case_conv_ext (Z.land data 0x3f); ret [shifted c code x]
  | RUN_TYPE_UF_D20 => if conv_type =? 1 then ret [c] else ret [u32 (data + Z.b2z (conv_type =? 2) * 0x20)]
  | RUN_TYPE_UF_D1_EXT =>
      if conv_type =? 1 then ret [c] else x ← rd case_conv_ext data; ret [u32 (x + Z.b2z (conv_type =? 2))]
  | RUN_TYPE_U_EXT | RUN_TYPE_LF_EXT =>
      if negb (is_lower =? type - run_code RUN_TYPE_U_EXT) then ret [c] else x ← rd case_conv_ext data; ret [x]
  | RUN_TYPE_LF_EXT2 =>
      if is_lower =? 0 then ret [c]
      else x ← rd case_conv_ext (Z.shiftr data 6); y ← rd case_conv_ext (Z.land data 0x3f); ret [shifted c code x; y]
  | RUN_TYPE_UF_EXT2 =>
      if conv_type =? 1 then ret [c]
      else
        x ← rd case_conv_ext (Z.shiftr data 6);
        y ← rd case_conv_ext (Z.land data 0x3f);
        if conv_type =? 2 then a ← lre_case_conv1 (shifted c code x) 1; b ← lre_case_conv1 y 1; ret [a; b]
        else ret [shifted c code x; y]
  | RUN_TYPE_UF_EXT3 =>
      if conv_type =? 1 then ret [c]
      else
        x ← rd case_conv_ext (Z.shiftr data 8);
        y ← rd case_conv_ext (Z.land (Z.shiftr data 4) 0xf);
        z ← rd case_conv_ext (Z.land data 0xf);
        if conv_type =? 2 then a ← lre_case_conv1 x 1; b ← lre_case_conv1 y 1; d ← lre_case_conv1 z 1; ret [a; b; d]
        else ret [x; y; z]
  end.

(** ASCII letters *)
Definition ascii_lower (c : Z) : Z := if (c >=? $"A") && (c <=? $"Z") then c - $"A" + $"a" else c.
Definition ascii_upper (c : Z) : Z := if (c >=? $"a") && (c <=? $"z") then c - $"a" + $"A" else c.

(** [depth] bounds the calls of one another of the functions: the conversion of
    an entry asks for the lower case of the characters it finds, no more. *)
Fixpoint lre_case_conv_at (depth : nat) (c conv_type : Z) : M S (list Z) :=
  match depth with
  | O => throw OutOfFuel
  | Datatypes.S depth =>
      if c <? 128 then ret [if negb (conv_type =? 0) then ascii_lower c else ascii_upper c]
      else
        o ← case_search c;
        match o with
        | Some (idx, v) => lre_case_conv_entry (λ c t, res ← lre_case_conv_at depth c t; rd res 0) c conv_type idx v
        | None => ret [c]
        end
  end.

Definition lre_case_conv (c conv_type : Z) : M S (list Z) := lre_case_conv_at 2 c conv_type.
Definition lre_case_conv1 (c conv_type : Z) : M S Z := res ← lre_case_conv_at 1 c conv_type; rd res 0.

Definition lre_case_folding_entry (c idx v : Z) (is_unicode : bool) : M S Z :=
  if is_unicode then
    res ← lre_case_conv_entry lre_case_conv1 c 2 idx v;
    if (length res =? 1)%nat then rd res 0
    else ret (if c =? 0xfb06 then 0xfb05 else if c =? 0x01fd3 then 0x390 else if c =? 0x01fe3 then 0x3b0 else c)
  else if c <? 128 then ret (ascii_upper c)
  else
    res ← lre_case_conv_entry lre_case_conv1 c 0 idx v;
    r ← rd res 0;
    ret (if (length res =? 1)%nat && (r >=? 128) then r else c).

Definition lre_canonicalize (c : Z) (is_unicode : bool) : M S Z :=
  if c <? 128 then ret (if is_unicode then ascii_lower c else ascii_upper c)
  else
    o ← case_search c;
    match o with
    | Some (idx, v) => lre_case_folding_entry c idx v is_unicode
    | None => ret c
    end.

End readers.

(** ** Sets *)

Definition CASE_U : Z := 1.
Definition CASE_L : Z := 2.
Definition CASE_F : Z := 4.

(** [MR(x)] for each of a list, together. *)
Definition run_mask (l : list RunType) : Z := foldr (λ t m, Z.lor (Z.shiftl 1 (run_code t)) m) 0 l.
Definition tab_run_mask : list Z := [
  run_mask [RUN_TYPE_U; RUN_TYPE_UF; RUN_TYPE_UL; RUN_TYPE_LSU; RUN_TYPE_U2L_399_EXT2; RUN_TYPE_UF_D20;
            RUN_TYPE_UF_D1_EXT; RUN_TYPE_U_EXT; RUN_TYPE_UF_EXT2; RUN_TYPE_UF_EXT3];
  run_mask [RUN_TYPE_L; RUN_TYPE_LF; RUN_TYPE_UL; RUN_TYPE_LSU; RUN_TYPE_U2L_399_EXT2; RUN_TYPE_LF_EXT; RUN_TYPE_LF_EXT2];
  run_mask [RUN_TYPE_UF; RUN_TYPE_LF; RUN_TYPE_UL; RUN_TYPE_LSU; RUN_TYPE_U2L_399_EXT2; RUN_TYPE_LF_EXT; RUN_TYPE_LF_EXT2;
            RUN_TYPE_UF_D20; RUN_TYPE_UF_D1_EXT; RUN_TYPE_LF_EXT; RUN_TYPE_UF_EXT2; RUN_TYPE_UF_EXT3]].

(** [for(i = 0; i < 3; i++) if ((case_mask >> i) & 1) mask |= tab_run_mask[i];] *)
Definition case_run_mask (case_mask : Z) : Z :=
  foldl Z.lor 0 (imap (λ i m, if Z.testbit case_mask (Z.of_nat i) then m else 0) tab_run_mask).

Section sets.
Context `{Realloc}.


(** [for(i = 0; i < len; i += 2)] *)
Definition alternate_turn (code len i : Z) : M cr_mem (Z + Z) :=
  if i <? len then
    r ← cr_add_interval (u32 (code + i)) (u32 (code + i + 1));
    ret (if negb (r =? 0) then inr (-1) else inl (i + 2))
  else ret (inr 0).

Definition case_bit (case_mask m : Z) : bool := negb (Z.land case_mask m =? 0).

(** The intervals of an entry whose type is in the mask. *)
Definition case_entry (case_mask : Z) (t : RunType) (code len : Z) : M cr_mem Z :=
  let def_case := cr_add_interval code (u32 (code + len)) in
  match t with
  | RUN_TYPE_UL =>
      if case_bit case_mask CASE_U && case_bit case_mask (Z.lor CASE_L CASE_F) then def_case
      else loop 65 (alternate_turn (code + Z.b2z (case_bit case_mask CASE_U)) len) 0
  | RUN_TYPE_LSU =>
      if case_bit case_mask CASE_U && case_bit case_mask (Z.lor CASE_L CASE_F) then def_case
      else
        r ← (if negb (case_bit case_mask CASE_U) then cr_add_interval code (u32 (code + 1)) else ret 0);
        if negb (r =? 0) then ret (-1)
        else
          r ← cr_add_interval (u32 (code + 1)) (u32 (code + 2));
          if negb (r =? 0) then ret (-1)
          else if case_bit case_mask CASE_U then cr_add_interval (u32 (code + 2)) (u32 (code + 3))
          else ret 0
  | _ => def_case
  end.

Definition case1_turn (case_mask mask idx : Z) : M cr_mem (Z + Z) :=
  if idx <? CASE_COUNT then
    v ← rd case_conv_table1 idx;
    let type := entry_type v in
    r ← (if Z.testbit mask type then case_entry case_mask (run_type type) (entry_code v) (entry_len v) else ret 0);
    ret (if negb (r =? 0) then inr (-1) else inl (idx + 1))
  else ret (inr 0).

Definition unicode_case1 (case_mask : Z) : M cr_mem Z :=
  if case_mask =? 0 then ret 0
  else loop 379 (case1_turn case_mask (case_run_mask case_mask)) 0.
End sets.

(** ** A set through the folding *)

(** The entry the loop is at, and the interval being made. *)
Record folding : Type := { f_idx : Z; f_code : Z; f_len : Z; f_v : Z; d_start : Z; d_end : Z }.

Section canonicalize.
Context `{Realloc, BuildConfig}.

Definition at_entry (idx v ds de : Z) : folding :=
  {| f_idx := idx; f_code := entry_code v; f_len := entry_len v; f_v := v; d_start := ds; d_end := de |}.

(** [for(;;)], to the entry of [c] *)
Definition entry_turn (c : Z) (f : folding) : M cr_mem (folding + folding) :=
  if (c >=? f_code f) && (c <? f_code f + f_len f) then ret (inr f)
  else
    let idx := f_idx f + 1 in
    MOE_ASSERT_MSG (idx <? CASE_COUNT);;
    v ← rd case_conv_table1 idx;
    ret (inl (at_entry idx v (d_start f) (d_end f))).

(** The code point [c]: its folding goes to the interval, or the interval goes to
    the result and a new one begins. The result of [cr_add_interval] is not looked at. *)
Definition fold_point (is_unicode : bool) (c : Z) (f : folding) : M cr_mem folding :=
  f ← loop 379 (entry_turn c) f;
  d ← lre_case_folding_entry c (f_idx f) (f_v f) is_unicode;
  let next := at_entry (f_idx f) (f_v f) in
  if d_start f =? UINT32_MAX then ret (next d (u32 (d + 1)))
  else if d_end f =? d then ret (next (d_start f) (u32 (d_end f + 1)))
  else
    cr_add_interval (d_start f) (d_end f);;
    ret (next d (u32 (d + 1))).

(** [for(c = start; c < end; c++)] *)
Definition points_turn (is_unicode : bool) (last : Z) : Z * folding → M cr_mem (Z * folding + folding) := λ '(c, f),
  if c <? last then f ← fold_point is_unicode c f; ret (inl (u32 (c + 1), f)) else ret (inr f).

(** [for(i = 0; i < cr_inter.len; i += 2)] *)
Definition inter_turn (is_unicode : bool) (cr_inter : CharRange) : Z * folding → M cr_mem (Z * folding + folding) := λ '(i, f),
  if i <? len cr_inter then
    start ← rd (points cr_inter) i;
    last ← rd (points cr_inter) (i + 1);
    f ← loop (Datatypes.S (Z.to_nat (last - start))) (points_turn is_unicode last) (start, f);
    ret (inl (i + 2, f))
  else ret (inr f).

(** The intervals of the foldings of the points of [cr_inter]. *)
Definition fold_all (is_unicode : bool) (cr_inter : CharRange) : M cr_mem Z :=
  v ← rd case_conv_table1 0;
  f ← loop (Datatypes.S (Z.to_nat (len cr_inter))) (inter_turn is_unicode cr_inter) (0, at_entry 0 v UINT32_MAX UINT32_MAX);
  if negb (d_start f =? UINT32_MAX) then cr_add_interval (d_start f) (d_end f) else ret 0.

Definition cr_regexp_canonicalize (is_unicode : bool) : M cr_mem Z :=
  '(r, cr_mask) ← on_range no_range (unicode_case1 (if is_unicode then CASE_F else CASE_U));
  if negb (r =? 0) then ret (-1) else
  cr ← gets range;
  '(r, cr_inter) ← on_range no_range (cr_op (points cr_mask) (len cr_mask) (points cr) (len cr) CR_OP_INTER);
  if negb (r =? 0) then ret (-1) else
  '(r, cr_mask) ← on_range cr_mask cr_invert;
  if negb (r =? 0) then ret (-1) else
  '(r, cr_sub) ← on_range no_range (cr_op (points cr_mask) (len cr_mask) (points cr) (len cr) CR_OP_INTER);
  if negb (r =? 0) then ret (-1) else
  '(r, cr_result) ← on_range no_range (fold_all is_unicode cr_inter);
  if negb (r =? 0) then ret (-1) else
  '(_, cr_result) ← on_range cr_result cr_sort_and_remove_overlap;
  set_len 0;;
  r ← cr_op (points cr_result) (len cr_result) (points cr_sub) (len cr_sub) CR_OP_UNION;
  if negb (r =? 0) then ret (-1) else ret 0.

End canonicalize.

(** ** Examples *)

Definition conv (c t : Z) : option (list Z) := match lre_case_conv (S := unit) c t tt with (Ok l, _) => Some l | _ => None end.
Definition canon (c : Z) (u : bool) : option Z := match lre_canonicalize (S := unit) c u tt with (Ok d, _) => Some d | _ => None end.

Example conv_sharp_s : conv 0xdf 0 = Some [$"S"; $"S"].
Proof. vm_compute. reflexivity. Qed.
Example conv_sigma : (conv 0x3a3 1, conv 0x3c2 2) = (Some [0x3c3], Some [0x3c3]).
Proof. vm_compute. reflexivity. Qed.
Example canon_long_s : (canon 0x17f true, canon 0x17f false) = (Some ($"s"), Some 0x17f).
Proof. vm_compute. reflexivity. Qed.

#[local] Instance zeros : Realloc := {| fresh_point := λ _, 0 |}.
#[local] Existing Instance with_assertions.
Definition canonical_of (u : bool) (l : list Z) (gs : list bool) : option (Z * list Z) :=
  range_of (cr_regexp_canonicalize u) {| range := {| len := Z.of_nat (length l); size := Z.of_nat (length l); points := l |}; grants := gs |}.

Example canonical_letters : canonical_of true [64; 70; 97; 99; 0x17f; 0x181] [] = Some (0, [64; 65; 97; 102; 115; 116; 384; 385]).
Proof. vm_compute. reflexivity. Qed.
(** An allocation fails while the intervals are added: the call succeeds and two letters are lost. *)
Example canonical_loses_interval :
  canonical_of true [65; 67; 75; 77; 85; 87] (replicate 22 true ++ [false]) = Some (0, [107; 109; 117; 119]).
Proof. vm_compute. reflexivity. Qed.
