(* ===== verification/UniCaseFacts.v ===== *)
(** * Case conversion of code points: lemmas

    The table of the case conversion, checked code point by code point, and the
    folding of a set, [cr_regexp_canonicalize]. *)
From S2P Require Import Prelude CStd Words CUtils BigIntMp CharRange CharRangeFacts CharRangeBuild UniTable.
From S2P Require Import UniCase.
From Stdlib Require Import Sorted.

#[local] Open Scope Z_scope.

(** * Case conversion of code points: lemmas

    The binary search of the table, and what holds of every code point of its
    entries, checked one by one. *)

(** ** The entries *)

Definition entry_span (v : Z) : Z * Z := (entry_code v, entry_code v + entry_len v).
(** Every code point of an entry, with the entry. *)
Definition case_points : list (Z * Z * Z) :=
  concat (imap (λ i v, (λ k, (Z.of_nat i, v, entry_code v + Z.of_nat k)) <$> seq 0 (Z.to_nat (entry_len v))) case_conv_table1).

Definition in_table (c : Z) : Prop := Exists (λ v, entry_code v ≤ c < entry_code v + entry_len v) case_conv_table1.

Lemma case_count : Z.of_nat (length case_conv_table1) = CASE_COUNT.
Proof. reflexivity. Qed.

Lemma table_ordered : ordered 0 (entry_span <$> case_conv_table1).
Proof. apply orderedb_spec. vm_compute. reflexivity. Qed.

Lemma table_sorted (i j : nat) v w :
  (i < j)%nat → case_conv_table1 !! i = Some v → case_conv_table1 !! j = Some w → entry_code v + entry_len v ≤ entry_code w.
Proof.
  intros Hij Hv Hw. apply (ordered_lookup 0 (entry_span <$> case_conv_table1) i j (entry_span v) (entry_span w) table_ordered Hij);
    by rewrite list_lookup_fmap, ?Hv, ?Hw.
Qed.

Lemma entry_len_pos v : 0 ≤ entry_len v.
Proof. unfold entry_len. apply Z.land_nonneg. by right. Qed.

Lemma case_points_in (i : nat) v c :
  case_conv_table1 !! i = Some v → entry_code v ≤ c < entry_code v + entry_len v → (Z.of_nat i, v, c) ∈ case_points.
Proof.
  intros Hv Hc. apply list_elem_of_In, in_concat. eexists. split; [apply list_elem_of_In, list_elem_of_lookup; exists i; rewrite list_lookup_imap, Hv; reflexivity|].
  apply list_elem_of_In, list_elem_of_fmap. exists (Z.to_nat (c - entry_code v)). split; [f_equal; lia|]. apply elem_of_seq. lia.
Qed.

(** ** The search *)

Definition span_of (c : Z) (o : option (Z * Z)) : Prop :=
  match o with
  | Some (idx, v) => ∃ i : nat, idx = Z.of_nat i ∧ case_conv_table1 !! i = Some v ∧ entry_code v ≤ c < entry_code v + entry_len v
  | None => ¬ in_table c
  end.

Lemma case_loop_run {S} fuel (s : S) c lo hi :
  0 ≤ lo → -1 ≤ hi < CASE_COUNT → (Z.to_nat (hi - lo + 1) < fuel)%nat →
  (∀ (i : nat) v, Z.of_nat i < lo → case_conv_table1 !! i = Some v → entry_code v + entry_len v ≤ c) →
  (∀ (i : nat) v, hi < Z.of_nat i → case_conv_table1 !! i = Some v → c < entry_code v) →
  ∃ o, loop fuel (case_turn c) (lo, hi) s = (Ok o, s) ∧ span_of c o.
Proof.
  revert lo hi. induction fuel as [|fuel IH]; intros lo hi Hlo Hhi Hf Hbelow Habove; [lia|]. cbn [loop]. unfold case_turn at 1.
  destruct (Z.leb_spec lo hi) as [Hle|Hgt].
  - assert (u32 (hi + lo) = hi + lo) as -> by (apply wrap_id; unfold fits, CASE_COUNT in *; lia).
    set (idx := (hi + lo) / 2). assert (lo ≤ idx ≤ hi) as Hidx by (unfold idx; pose proof (Z.div_mod (hi + lo) 2); pose proof (Z.mod_pos_bound (hi + lo) 2); lia). clearbody idx.
    destruct (lookup_lt_is_Some_2 case_conv_table1 (Z.to_nat idx)) as [v Hv]; [pose proof case_count; lia|]. cbv zeta.
    rewrite bind_bind. erewrite bind_run by (apply rd_run; [lia|exact Hv]). cbv zeta.
    destruct (Z.ltb_spec c (entry_code v)) as [Hlt|Hge].
    + rewrite bind_ret. apply IH; [lia..|done|]. intros i w Hi Hw. destruct (decide (i = Z.to_nat idx)) as [->|Hne]; [congruence|].
      pose proof (table_sorted (Z.to_nat idx) i v w) as Hs. pose proof (entry_len_pos v). specialize (Hs ltac:(lia) Hv Hw). lia.
    + rewrite Z.geb_leb. destruct (Z.leb_spec (entry_code v + entry_len v) c) as [Hle2|Hlt2].
      * rewrite bind_ret. apply IH; [lia..| |done]. intros i w Hi Hw. destruct (decide (i = Z.to_nat idx)) as [->|Hne]; [congruence|].
        pose proof (table_sorted i (Z.to_nat idx) w v) as Hs. pose proof (entry_len_pos v). specialize (Hs ltac:(lia) Hw Hv). lia.
      * rewrite bind_ret. exists (Some (idx, v)). split; [done|]. exists (Z.to_nat idx). split_and!; [lia|done|lia|lia].
  - rewrite bind_ret. exists None. split; [done|]. intros Hin. apply Exists_exists in Hin as (v & Hv & Hc). apply list_elem_of_lookup in Hv as [i Hi].
    destruct (Z.lt_ge_cases (Z.of_nat i) lo) as [Hi2|Hi2]; [specialize (Hbelow i v Hi2 Hi)|specialize (Habove i v ltac:(lia) Hi)]; lia.
Qed.

Lemma case_search_run {S} (s : S) c : ∃ o, case_search c s = (Ok o, s) ∧ span_of c o.
Proof.
  apply case_loop_run; [done|done|unfold CASE_COUNT; lia|lia|]. intros i v Hi Hv. apply lookup_lt_Some in Hv. pose proof case_count. lia.
Qed.

(** The two answers of the search are one. *)
Lemma span_of_unique c o o' : span_of c o → span_of c o' → o = o'.
Proof.
  assert (∀ i v, case_conv_table1 !! i = Some v → entry_code v ≤ c < entry_code v + entry_len v → in_table c) as Hin.
  { intros i v Hv Hc. apply Exists_exists. exists v. split; [by apply (list_elem_of_lookup_2 _ i)|done]. }
  destruct o as [[i v]|], o' as [[j w]|]; cbn; [|naive_solver..].
  intros (a & -> & Ha & Hca) (b & -> & Hb & Hcb). destruct (Nat.lt_total a b) as [Hlt|[->|Hlt]].
  - pose proof (table_sorted a b v w Hlt Ha Hb). lia.
  - congruence.
  - pose proof (table_sorted b a w v Hlt Hb Ha). lia.
Qed.

(** ** The foldings *)

(** The value of [lre_canonicalize], which reads no state. *)
Definition canonical (is_unicode : bool) (c : Z) : Z :=
  match lre_canonicalize c is_unicode tt with (Ok d, _) => d | (Err _, _) => c end.
(** The value of [lre_case_folding_entry]. *)
Definition folded_at (is_unicode : bool) (p : Z * Z * Z) : Z :=
  let '(i, v, c) := p in match lre_case_folding_entry c i v is_unicode tt with (Ok d, _) => d | (Err _, _) => c end.

Lemma folding_entries {S} (s : S) u :
  (λ '(i, v, c), lre_case_folding_entry c i v u s) <$> case_points = (λ p, (Ok (folded_at u p), s)) <$> case_points.
Proof. destruct u; vm_compute; reflexivity. Qed.

(** A property of the code points of the entries, by evaluation. *)
Lemma case_points_check (f : Z * Z * Z → bool) : forallb f case_points = true → ∀ p, p ∈ case_points → f p = true.
Proof. intros Hf p Hp. rewrite forallb_forall in Hf. by apply Hf, list_elem_of_In. Qed.

Lemma folding_entry {S} (s : S) u i v c : (i, v, c) ∈ case_points → lre_case_folding_entry c i v u s = (Ok (folded_at u (i, v, c)), s).
Proof.
  intros Hin. apply list_elem_of_lookup in Hin as [k Hk].
  pose proof (f_equal (lookup k) (folding_entries s u)) as E. rewrite !list_lookup_fmap, Hk in E. by injection E.
Qed.

(** Under 128 the entries say what the fast case does. *)
Lemma folded_ascii u p : p ∈ case_points → p.2 < 128 → canonical u p.2 = folded_at u p.
Proof.
  intros Hp Hlt. assert (negb (p.2 <? 128) || (canonical u p.2 =? folded_at u p) = true) as Hb.
  { revert p Hp Hlt. intros p Hp _. apply (case_points_check (λ p, negb (p.2 <? 128) || (canonical u p.2 =? folded_at u p))); [destruct u; vm_compute; reflexivity|done]. }
  rewrite (proj2 (Z.ltb_lt _ _)) in Hb by done. by apply Z.eqb_eq in Hb.
Qed.

Lemma canonical_entry u i v c : (i, v, c) ∈ case_points → span_of c (Some (i, v)) → canonical u c = folded_at u (i, v, c).
Proof.
  intros Hp Hspan. destruct (Z.ltb_spec c 128) as [Hlt|Hge]; [by apply (folded_ascii u (i, v, c))|].
  unfold canonical, lre_canonicalize. rewrite (proj2 (Z.ltb_ge c 128)) by done. destruct (case_search_run tt c) as (o & E & Ho). erewrite bind_run by done.
  by rewrite (span_of_unique c o (Some (i, v)) Ho Hspan).
Qed.

Lemma in_table_points c : in_table c ↔ ∃ i v, (i, v, c) ∈ case_points ∧ span_of c (Some (i, v)).
Proof.
  split.
  - intros Hin. apply Exists_exists in Hin as (v & Hv & Hc). apply list_elem_of_lookup in Hv as [i Hi].
    exists (Z.of_nat i), v. split; [by apply case_points_in|by exists i].
  - intros (i & v & _ & k & -> & Hk & Hc). apply Exists_exists. exists v. split; [by apply (list_elem_of_lookup_2 _ k)|done].
Qed.

Lemma canonical_run {S} (s : S) u c : lre_canonicalize c u s = (Ok (canonical u c), s).
Proof.
  destruct (Z.ltb_spec c 128) as [Hlt|Hge]; [unfold canonical, lre_canonicalize; by rewrite (proj2 (Z.ltb_lt c 128))|].
  destruct (case_search_run s c) as (o & E & Ho). unfold lre_canonicalize. rewrite (proj2 (Z.ltb_ge c 128)) by done. erewrite bind_run by done.
  destruct o as [[idx v]|].
  - assert ((idx, v, c) ∈ case_points) as Hp by (destruct Ho as (i & -> & Hv & Hc); by apply case_points_in).
    by rewrite (canonical_entry u idx v c Hp Ho), folding_entry.
  - unfold canonical, lre_canonicalize. rewrite (proj2 (Z.ltb_ge c 128)) by done. destruct (case_search_run tt c) as (o & E' & Ho').
    erewrite bind_run by done. by rewrite (span_of_unique c o None Ho' Ho).
Qed.

Lemma canonical_ascii u : forallb (λ c, existsb (λ v, (entry_code v <=? c) && (c <? entry_code v + entry_len v)) case_conv_table1 || (canonical u c =? c)) (seqZ 0 128) = true.
Proof. destruct u; vm_compute; reflexivity. Qed.

Lemma canonical_outside u c : 0 ≤ c → ¬ in_table c → canonical u c = c.
Proof.
  intros Hc Hin. destruct (Z.ltb_spec c 128) as [Hlt|Hge].
  - pose proof (canonical_ascii u) as Hall. rewrite forallb_forall in Hall. specialize (Hall c). rewrite orb_true_iff, existsb_exists, Z.eqb_eq in Hall.
    destruct Hall as [(v & Hv & Hcv)|?]; [apply list_elem_of_In, elem_of_seqZ; lia| |done]. destruct Hin. apply Exists_exists. exists v.
    split; [by apply list_elem_of_In|]. rewrite andb_true_iff, Z.leb_le, Z.ltb_lt in Hcv. lia.
  - unfold canonical, lre_canonicalize. rewrite (proj2 (Z.ltb_ge c 128)) by lia. destruct (case_search_run tt c) as (o & E & Ho). erewrite bind_run by done.
    destruct o as [[idx v]|]; [|done]. destruct Hin. apply in_table_points. exists idx, v. split; [|done]. destruct Ho as (i & -> & Hv & Hcv). by apply case_points_in.
Qed.

Lemma folded_facts u p : p ∈ case_points → 0 ≤ folded_at u p < 2 ^ 21 ∧ folded_at u p < 0x110000 ∧ canonical u (folded_at u p) = folded_at u p.
Proof.
  intros Hp. assert (let d := folded_at u p in (0 <=? d) && (d <? 0x110000) && (canonical u d =? d) = true) as Hb.
  { apply (case_points_check (λ p, let d := folded_at u p in (0 <=? d) && (d <? 0x110000) && (canonical u d =? d))); [destruct u; vm_compute; reflexivity|done]. }
  cbv zeta in Hb. rewrite !andb_true_iff, Z.leb_le, Z.ltb_lt, Z.eqb_eq in Hb. change (2 ^ 21) with 2097152. lia.
Qed.

Lemma canonical_bound u c : in_table c → 0 ≤ canonical u c < 2 ^ 21.
Proof. intros (i & v & Hp & Hs)%in_table_points. rewrite (canonical_entry u i v c Hp Hs). by apply folded_facts. Qed.

Lemma canonical_small u c : in_table c → 0 ≤ canonical u c < 0x110000.
Proof. intros (i & v & Hp & Hs)%in_table_points. rewrite (canonical_entry u i v c Hp Hs). pose proof (folded_facts u (i, v, c) Hp). lia. Qed.

Lemma in_table_dec c : {in_table c} + {¬ in_table c}.
Proof. unfold in_table. apply Exists_dec. intros v. apply (decide (entry_code v ≤ c < entry_code v + entry_len v)). Defined.

Lemma canonical_twice u c : 0 ≤ c → canonical u (canonical u c) = canonical u c.
Proof.
  intros Hc. destruct (in_table_dec c) as [(i & v & Hp & Hs)%in_table_points|Hin]; [|by rewrite !(canonical_outside u c) by done].
  rewrite (canonical_entry u i v c Hp Hs). by apply folded_facts.
Qed.

(** ** The set of the characters that change *)

(** [for(i = 0; i < len; i += 2)] *)
Fixpoint alternate (fuel : nat) (code len i : Z) : list (Z * Z) :=
  match fuel with
  | O => []
  | S fuel => if i <? len then (u32 (code + i), u32 (code + i + 1)) :: alternate fuel code len (i + 2) else []
  end.

Definition entry_intervals (case_mask v : Z) : list (Z * Z) :=
  let code := entry_code v in
  let both := case_bit case_mask CASE_U && case_bit case_mask (Z.lor CASE_L CASE_F) in
  let def_case := [(code, u32 (code + entry_len v))] in
  match run_type (entry_type v) with
  | RUN_TYPE_UL => if both then def_case else alternate 64 (code + Z.b2z (case_bit case_mask CASE_U)) (entry_len v) 0
  | RUN_TYPE_LSU =>
      if both then def_case
      else
        (if negb (case_bit case_mask CASE_U) then [(code, u32 (code + 1))] else []) ++ [(u32 (code + 1), u32 (code + 2))] ++
        (if case_bit case_mask CASE_U then [(u32 (code + 2), u32 (code + 3))] else [])
  | _ => def_case
  end.
Definition case_intervals (case_mask : Z) : list (Z * Z) :=
  flat_map (λ v, if Z.testbit (case_run_mask case_mask) (entry_type v) then entry_intervals case_mask v else []) case_conv_table1.

Section sets.
Context `{Realloc}.

Lemma alternate_builds fuel code len i :
  len - i ≤ 2 * Z.of_nat fuel → builds (loop (S fuel) (alternate_turn code len) i) (alternate fuel code len i).
Proof.
  revert i. induction fuel as [|fuel IH]; intros i Hf.
  - apply builds_stop. intros s. unfold alternate_turn. by rewrite (proj2 (Z.ltb_ge _ _)) by lia.
  - cbn [alternate]. destruct (Z.ltb_spec i len) as [Hlt|Hge].
    + apply (builds_turn (S fuel) _ i (cr_add_interval (u32 (code + i)) (u32 (code + i + 1))) (i + 2) [_]); [|apply builds_one|apply IH; lia].
      intros s. unfold alternate_turn. by rewrite (proj2 (Z.ltb_lt _ _)) by lia.
    + apply builds_stop. intros s. unfold alternate_turn. by rewrite (proj2 (Z.ltb_ge _ _)) by lia.
Qed.

Lemma entry_len_small v : entry_len v ≤ 127.
Proof. unfold entry_len. rewrite (land_ones' _ 7 0x7f) by done. pose proof (Z.mod_pos_bound (Z.shiftr v 8) (2 ^ 7)). lia. Qed.

Lemma case_entry_builds case_mask v :
  builds (case_entry case_mask (run_type (entry_type v)) (entry_code v) (entry_len v)) (entry_intervals case_mask v).
Proof.
  unfold case_entry, entry_intervals. cbv zeta. destruct (run_type (entry_type v)); try apply builds_one.
  - destruct (_ && _); [apply builds_one|]. apply (alternate_builds 64). pose proof (entry_len_small v). lia.
  - destruct (_ && _); [apply builds_one|]. apply builds_then; [destruct (negb _); [apply builds_one|apply builds_nil]|].
    apply builds_then; [apply builds_one|]. destruct (case_bit case_mask CASE_U); [apply builds_one|apply builds_nil].
Qed.

Lemma case1_loop_builds case_mask done todo :
  case_conv_table1 = done ++ todo →
  builds (loop (S (length todo)) (case1_turn case_mask (case_run_mask case_mask)) (Z.of_nat (length done)))
    (flat_map (λ v, if Z.testbit (case_run_mask case_mask) (entry_type v) then entry_intervals case_mask v else []) todo).
Proof.
  revert done. induction todo as [|v todo IH]; intros done E; cbn [length flat_map]; pose proof case_count as Hcount; rewrite E, length_app in Hcount.
  - apply builds_stop. intros s. unfold case1_turn. cbn [length] in Hcount. by rewrite (proj2 (Z.ltb_ge _ _)) by lia.
  - cbn [length] in Hcount. apply (builds_turn (S (length todo)) _ (Z.of_nat (length done))
      (if Z.testbit (case_run_mask case_mask) (entry_type v) then case_entry case_mask (run_type (entry_type v)) (entry_code v) (entry_len v) else ret 0)
      (Z.of_nat (length (done ++ [v])))).
    + intros s. unfold case1_turn. rewrite (proj2 (Z.ltb_lt _ _)) by lia. erewrite bind_run by (apply rd_run; [lia|rewrite E, Nat2Z.id; by apply list_lookup_middle]).
      cbv zeta. rewrite length_app. cbn [length]. by rewrite Nat2Z.inj_add.
    + destruct (Z.testbit _ _); [apply case_entry_builds|apply builds_nil].
    + apply IH. by rewrite <-app_assoc.
Qed.

Lemma unicode_case1_builds case_mask : case_mask ≠ 0 → builds (unicode_case1 case_mask) (case_intervals case_mask).
Proof.
  intros Hm. unfold unicode_case1. rewrite (proj2 (Z.eqb_neq _ _)) by done. apply (case1_loop_builds case_mask [] case_conv_table1 eq_refl).
Qed.
End sets.

(** *** The masks of the two foldings *)

Definition mask_of (is_unicode : bool) : Z := if is_unicode then CASE_F else CASE_U.
Definition mask_intervals (is_unicode : bool) : list (Z * Z) := case_intervals (mask_of is_unicode).

Lemma mask_ordered u : ordered 0 (mask_intervals u).
Proof. apply orderedb_spec. destruct u; vm_compute; reflexivity. Qed.

(** The intervals of an entry are in it. *)
Lemma entry_intervals_check u :
  forallb (λ v, negb (Z.testbit (case_run_mask (mask_of u)) (entry_type v)) ||
    forallb (λ q, (entry_code v <=? q.1) && (q.2 <=? entry_code v + entry_len v)) (entry_intervals (mask_of u) v)) case_conv_table1 = true.
Proof. destruct u; vm_compute; reflexivity. Qed.

Lemma mask_in_table u c : covers (mask_intervals u) c → in_table c.
Proof.
  intros Hc. apply Exists_exists in Hc as (q & Hq & Hcq). apply list_elem_of_In, in_flat_map in Hq as (v & Hv & Hq).
  pose proof (entry_intervals_check u) as Hall. rewrite forallb_forall in Hall. specialize (Hall v Hv). destruct (Z.testbit _ _); [|done]. cbn [negb orb] in Hall.
  rewrite forallb_forall in Hall. specialize (Hall q Hq). rewrite andb_true_iff, !Z.leb_le in Hall. apply Exists_exists. exists v. split; [by apply list_elem_of_In|lia].
Qed.

(** Every character that changes is in an interval of its own entry. *)
Lemma mask_check u :
  forallb (λ '(i, v, c), (folded_at u (i, v, c) =? c) ||
    Z.testbit (case_run_mask (mask_of u)) (entry_type v) && existsb (λ q, (q.1 <=? c) && (c <? q.2)) (entry_intervals (mask_of u) v)) case_points = true.
Proof. destruct u; vm_compute; reflexivity. Qed.

Lemma mask_changes u c : 0 ≤ c → canonical u c ≠ c → covers (mask_intervals u) c.
Proof.
  intros Hc Hne. destruct (in_table_dec c) as [(i & v & Hp & Hs)%in_table_points|Hin]; [|by rewrite canonical_outside in Hne].
  rewrite (canonical_entry u i v c Hp Hs) in Hne. pose proof (case_points_check _ (mask_check u) (i, v, c) Hp) as Hb. cbv beta iota in Hb.
  rewrite (proj2 (Z.eqb_neq _ _)) in Hb by done. cbn [orb] in Hb. apply andb_true_iff in Hb as [Ht Hb].
  apply existsb_exists in Hb as (q & Hq & Hcq). rewrite andb_true_iff, Z.leb_le, Z.ltb_lt in Hcq.
  apply Exists_exists. exists q. split; [|done]. apply list_elem_of_In, in_flat_map. exists v. split; [|by rewrite Ht].
  destruct Hs as (k & -> & Hk & _). by apply list_elem_of_In, (list_elem_of_lookup_2 _ k).
Qed.

Lemma mask_small u : Forall (fits 32) (points_of (mask_intervals u)) ∧ Z.of_nat (length (points_of (mask_intervals u))) ≤ 10000.
Proof.
  split; [|apply Z.leb_le; destruct u; vm_compute; reflexivity]. assert (forallb (λ p, (0 <=? p) && (p <? 2 ^ 32)) (points_of (mask_intervals u)) = true) as Hall by (destruct u; vm_compute; reflexivity).
  apply Forall_forall. intros p Hp. rewrite forallb_forall in Hall. apply list_elem_of_In in Hp. specialize (Hall p Hp).
  rewrite andb_true_iff, Z.leb_le, Z.ltb_lt in Hall. done.
Qed.

(** * Sets of code points through the case folding: lemmas

    The loops of [cr_regexp_canonicalize], to the image of a set. *)

Section folding.
Context `{Realloc, BuildConfig} (u : bool).

(** ** The entry of a code point *)

Lemma entry_loop_run fuel (i j : nat) v w ds de c s :
  case_conv_table1 !! i = Some v → case_conv_table1 !! j = Some w → (i ≤ j)%nat → (j - i < fuel)%nat →
  entry_code w ≤ c < entry_code w + entry_len w →
  loop fuel (entry_turn c) (at_entry (Z.of_nat i) v ds de) s = (Ok (at_entry (Z.of_nat j) w ds de), s).
Proof.
  revert i v. induction fuel as [|fuel IH]; intros i v Hv Hw Hij Hf Hc; [lia|]. cbn [loop]. unfold entry_turn at 1. cbn [at_entry f_code f_len f_idx d_start d_end].
  rewrite Z.geb_leb. destruct (decide (i = j)) as [->|Hne].
  - assert (v = w) as -> by congruence. rewrite (proj2 (Z.leb_le _ _)), (proj2 (Z.ltb_lt _ _)) by lia. cbn [andb]. by rewrite bind_ret.
  - pose proof (table_sorted i j v w ltac:(lia) Hv Hw) as Hlt. rewrite (proj2 (Z.ltb_ge _ _)) by lia. rewrite andb_false_r, bind_bind. cbv zeta.
    destruct (lookup_lt_is_Some_2 case_conv_table1 (i + 1)) as [v1 Hv1]; [apply lookup_lt_Some in Hw; lia|].
    erewrite bind_run.
    2:{ rewrite (proj2 (Z.ltb_lt _ _)); [unfold MOE_ASSERT_MSG, MOE_ASSERT; by destruct NDEBUG|]. apply lookup_lt_Some in Hw. pose proof case_count. lia. }
    replace (Z.of_nat i + 1) with (Z.of_nat (i + 1)) by lia. rewrite bind_bind.
    erewrite bind_run by (apply rd_run; [lia|by rewrite Nat2Z.id]). rewrite bind_ret. apply IH; [done|done|lia|lia|done].
Qed.

(** ** The invariant of the folding *)

(** [done_] are the points before [cur] that were folded; the intervals made and
    the one being made are their foldings, unless an allocation was refused. *)
Record fold_inv (gs0 : list bool) (done_ : Z → Prop) (cur : Z) (f : folding) (s : cr_mem) : Prop := {
  inv_entry : ∃ (i : nat) v, case_conv_table1 !! i = Some v ∧ f = at_entry (Z.of_nat i) v (d_start f) (d_end f) ∧ (i = 0%nat ∨ entry_code v ≤ cur);
  inv_state : ∃ ivs post gs, s = st (points_of ivs) post gs ∧ gs `suffix_of` gs0 ∧ Forall (λ q, q.1 < q.2) ivs ∧
    Forall (λ q, fits 32 q.1 ∧ fits 32 q.2) ivs ∧ Z.of_nat (length ivs) ≤ cur ∧
    (false ∉ gs0 → ∀ d, covers ivs d ∨ d_start f ≠ UINT32_MAX ∧ d_start f ≤ d < d_end f ↔ ∃ c, done_ c ∧ canonical u c = d) ∧
    (d_start f = UINT32_MAX → ivs = []);
  inv_interval : d_start f = UINT32_MAX ∨ 0 ≤ d_start f < d_end f ∧ d_end f ≤ 2 ^ 22 }.

Lemma fold_inv_more gs0 (P Q : Z → Prop) cur f s : fold_inv gs0 P cur f s → (∀ c, P c ↔ Q c) → fold_inv gs0 Q cur f s.
Proof.
  intros [He (ivs & post & gs & Hs & Hg & Hlt & Hfit & Hlen & Hcov & Hnil) Hi] HPQ. split; [done| |done]. exists ivs, post, gs. split_and!; try done.
  intros Hno d. rewrite (Hcov Hno d). by setoid_rewrite HPQ.
Qed.

Lemma fold_inv_later gs0 P cur cur' f s : cur ≤ cur' → fold_inv gs0 P cur f s → fold_inv gs0 P cur' f s.
Proof.
  intros Hle [(i & v & Hv & Hf & Hcur) (ivs & post & gs & Hs & Hg & Hlt & Hfit & Hlen & Hcov & Hnil) Hi]. split; [exists i, v; split_and!; [done|done|destruct Hcur; [by left|right; lia]]| |done].
  exists ivs, post, gs. split_and!; try done; lia.
Qed.

Lemma table_bound c : in_table c → 0 ≤ c < 2 ^ 20.
Proof.
  intros Hc. apply Exists_exists in Hc as (v & Hv & Hc). assert (forallb (λ v, (0 <=? entry_code v) && (entry_code v + entry_len v <=? 2 ^ 20)) case_conv_table1 = true) as Hall
    by (vm_compute; reflexivity).
  rewrite forallb_forall in Hall. apply list_elem_of_In in Hv. specialize (Hall v Hv). rewrite andb_true_iff, !Z.leb_le in Hall. lia.
Qed.

Lemma image_add (P : Z → Prop) c d : (∃ x, (P x ∨ x = c) ∧ canonical u x = d) ↔ (∃ x, P x ∧ canonical u x = d) ∨ canonical u c = d.
Proof.
  split.
  - intros (x & [Hx| ->] & Hd); [left; by exists x|by right].
  - intros [(x & Hx & Hd)|Hd]; [exists x; split; [by left|done]|exists c; split; [by right|done]].
Qed.

Lemma fold_point_run gs0 done_ cur c f s :
  fold_inv gs0 done_ cur f s → cur ≤ c → in_table c →
  ∃ f' s', fold_point u c f s = (Ok f', s') ∧ fold_inv gs0 (λ x, done_ x ∨ x = c) (c + 1) f' s'.
Proof.
  intros Hinv Hcur Hin. pose proof (table_bound c Hin) as Hbc. pose proof (canonical_bound u c Hin) as Hbd.
  destruct Hinv as [(i & v & Hv & Hf & Hic) (ivs & post & gs & -> & Hg & Hlt & Hfit & Hlen & Hcov & Hnil) Hi].
  apply in_table_points in Hin as (idx & w & Hp & Hspan). pose proof Hspan as (j & -> & Hw & Hcw).
  assert (i ≤ j)%nat as Hij.
  { destruct (le_lt_dec i j) as [|Hji]; [done|]. pose proof (table_sorted j i w v Hji Hw Hv). destruct Hic as [->|?]; lia. }
  set (d := canonical u c) in *. assert (u32 (d + 1) = d + 1) as Ed by (apply wrap_id; unfold fits; lia).
  assert (∃ i' v', case_conv_table1 !! i' = Some v' ∧ at_entry (Z.of_nat j) w d (d + 1) = at_entry (Z.of_nat i') v' d (d + 1) ∧ (i' = 0%nat ∨ entry_code v' ≤ c + 1)) as Hnext
    by (exists j, w; split_and!; [done|done|right; lia]).
  unfold fold_point. rewrite Hf. erewrite bind_run by (apply (entry_loop_run 379 i j v w); [done|done|done| |done]; apply lookup_lt_Some in Hw; pose proof case_count; unfold CASE_COUNT in *; lia).
  cbn [at_entry f_idx f_v]. erewrite bind_run by (apply folding_entry; exact Hp). rewrite <-(canonical_entry u _ w c Hp Hspan). fold d. cbv zeta.
  cbn [at_entry d_start d_end]. destruct (Z.eqb_spec (d_start f) UINT32_MAX) as [Hnone|Hsome].
  - rewrite Ed. eexists _, _. split; [reflexivity|]. split; [by cbn [d_start d_end at_entry]| |cbn [d_start d_end at_entry]; right; lia].
    exists ivs, post, gs. cbn [d_start d_end at_entry]. split_and!; try done; [lia| |unfold UINT32_MAX; lia].
    intros Hno d'. rewrite image_add, <-(Hcov Hno d'), (Hnil Hnone). fold d. unfold covers. rewrite Exists_nil, Hnone. unfold UINT32_MAX. intuition lia.
  - destruct Hi as [?|Hi]; [done|]. destruct (Z.eqb_spec (d_end f) d) as [Hd|Hd].
    + assert (u32 (d_end f + 1) = d_end f + 1) as Ee by (apply wrap_id; unfold fits; lia). rewrite Ee.
      eexists _, _. split; [reflexivity|]. split; [exists j, w; cbn [d_start d_end at_entry]; split_and!; [done|done|right; lia]| |cbn [d_start d_end at_entry]; right; lia].
      exists ivs, post, gs. cbn [d_start d_end at_entry]. split_and!; try done; [lia|].
      intros Hno d'. rewrite image_add, <-(Hcov Hno d'). fold d. clear -Hsome Hd Hi. intuition lia.
    + destruct (cr_add_interval_tries (points_of ivs) post gs (d_start f) (d_end f)) as (r & post' & gs' & l' & E & Hg' & Hr).
      { unfold moderate. rewrite points_length. lia. }
      erewrite bind_run by exact E. rewrite Ed. eexists _, _. split; [reflexivity|].
      split; [by cbn [d_start d_end at_entry]| |cbn [d_start d_end at_entry]; right; lia]. cbn [d_start d_end at_entry].
      destruct Hr as [[-> ->]|(-> & -> & Hrefused)].
      * exists (ivs ++ [(d_start f, d_end f)]), post', gs'. split_and!; [by rewrite points_app|by trans gs|apply Forall_app_2; [done|constructor; [cbn; lia|done]]| | | |unfold UINT32_MAX; lia].
        { apply Forall_app_2; [done|]. constructor; [|done]. cbn. unfold fits. lia. }
        { rewrite length_app. cbn [length]. lia. }
        intros Hno d'. rewrite image_add, <-(Hcov Hno d'). fold d. unfold covers. rewrite Exists_app, Exists_cons, Exists_nil. cbn [fst snd].
        assert (d ≠ UINT32_MAX) as Hdm by (unfold UINT32_MAX; lia). clear -Hsome Hdm. intuition lia.
      * exists ivs, post', gs'. split_and!; [done|by trans gs|done|done|lia| |unfold UINT32_MAX; lia].
        intros Hno. destruct Hno. destruct Hg as [k ->]. apply elem_of_app. by right.
Qed.

(** ** The loops *)

Lemma points_loop_run fuel gs0 done_ start c last f s :
  fold_inv gs0 (λ x, done_ x ∨ start ≤ x < c) c f s → start ≤ c ≤ last → (∀ x, start ≤ x < last → in_table x) → (Z.to_nat (last - c) < fuel)%nat →
  ∃ f' s', loop fuel (points_turn u last) (c, f) s = (Ok f', s') ∧ fold_inv gs0 (λ x, done_ x ∨ start ≤ x < last) last f' s'.
Proof.
  revert c f s. induction fuel as [|fuel IH]; intros c f s Hinv Hc Hin Hf; [lia|]. cbn [loop]. unfold points_turn at 1.
  destruct (Z.ltb_spec c last) as [Hlt|Hge].
  - pose proof (table_bound c (Hin c ltac:(lia))) as Hbc. destruct (fold_point_run gs0 _ c c f s Hinv) as (f1 & s1 & E & Hinv1); [lia|apply Hin; lia|].
    rewrite bind_bind. erewrite bind_run by exact E. rewrite bind_ret. assert (u32 (c + 1) = c + 1) as -> by (apply wrap_id; unfold fits; lia).
    apply IH; [|lia|done|lia]. eapply fold_inv_more; [exact Hinv1|]. intros x. cbn. clear -Hc. intuition lia.
  - rewrite bind_ret. exists f, s. split; [done|]. assert (c = last) as -> by lia. done.
Qed.

Lemma inter_loop_run fuel gs0 qs1 qs2 post sz cur f s :
  let cr := {| len := Z.of_nat (length (points_of (qs1 ++ qs2))); size := sz; points := points_of (qs1 ++ qs2) ++ post |} in
  fold_inv gs0 (covers qs1) cur f s → ordered cur qs2 → (∀ x, covers qs2 x → in_table x) → (length qs2 < fuel)%nat →
  ∃ cur' f' s', loop fuel (inter_turn u cr) (Z.of_nat (length (points_of qs1)), f) s = (Ok f', s') ∧ fold_inv gs0 (covers (qs1 ++ qs2)) cur' f' s'
    ∧ (qs2 = [] ∧ cur' = cur ∨ cur' ≤ 2 ^ 20).
Proof.
  intros cr. revert qs1 cur f s cr. induction fuel as [|fuel IH] in qs2 |- *; intros qs1 cur f s cr Hinv Hord Hin Hf; [lia|]. cbn [loop]. unfold inter_turn at 1.
  unfold cr. cbn [len points]. destruct qs2 as [|[a b] qs2].
  { rewrite (proj2 (Z.ltb_ge _ _)) by (rewrite app_nil_r; lia). rewrite bind_ret. exists cur, f, s. rewrite app_nil_r. split_and!; [done|done|by left]. }
  destruct Hord as (Hcur & Hab & Hord). rewrite points_app. cbn [points_of]. rewrite length_app. cbn [length].
  rewrite (proj2 (Z.ltb_lt _ _)) by lia. rewrite <-app_assoc. cbn [app]. destruct (pair_lookup (points_of qs1) (points_of qs2 ++ post) a b) as [Ha Hb].
  rewrite bind_bind. erewrite bind_run by (apply rd_run; [lia|exact Ha]). rewrite bind_bind. erewrite bind_run by (apply rd_run; [lia|exact Hb]). rewrite bind_bind.
  assert (∀ x, a ≤ x < b → in_table x) as Hab_in by (intros x Hx; apply Hin; unfold covers; rewrite Exists_cons; by left).
  destruct (points_loop_run (S (Z.to_nat (b - a))) gs0 (covers qs1) a a b f s) as (f1 & s1 & E & Hinv1); [|lia|done|lia|].
  { eapply fold_inv_more; [by apply (fold_inv_later gs0 _ cur a)|]. intros x. clear. intuition lia. }
  erewrite bind_run by exact E. rewrite bind_ret.
  assert (∀ x, covers (qs1 ++ [(a, b)]) x ↔ covers qs1 x ∨ a ≤ x < b) as Hone.
  { intros x. unfold covers. rewrite Exists_app, Exists_cons, Exists_nil. cbn. tauto. }
  destruct (IH qs2 (qs1 ++ [(a, b)]) b f1 s1) as (cur' & f2 & s2 & E2 & Hinv2 & Hcur2);
    [by eapply fold_inv_more; [exact Hinv1|]; intros x; rewrite Hone|done|intros x Hx; apply Hin; unfold covers in *; rewrite Exists_cons; by right|cbn [length] in Hf; lia|].
  exists cur', f2, s2. rewrite <-app_assoc in E2, Hinv2. cbn [app] in E2, Hinv2. split_and!; [|done|].
  - rewrite !points_app, !length_app in E2. cbn [points_of length] in E2. rewrite <-app_assoc in E2. cbn [app] in E2.
    replace (Z.of_nat (length (points_of qs1)) + 2) with (Z.of_nat (length (points_of qs1) + 2)) by lia. exact E2.
  - right. pose proof (table_bound (b - 1) (Hab_in (b - 1) ltac:(lia))). destruct Hcur2 as [[_ ->]|?]; lia.
Qed.

(** The intervals of the foldings, unless an allocation was refused. *)
Lemma fold_all_run qs junk sz post gs :
  ordered 0 qs → (∀ x, covers qs x → in_table x) →
  ∃ r ivs post' gs', fold_all u {| len := Z.of_nat (length (points_of qs)); size := sz; points := points_of qs ++ junk |} (st [] post gs)
      = (Ok r, st (points_of ivs) post' gs') ∧ gs' `suffix_of` gs ∧
    Forall (λ q, q.1 < q.2) ivs ∧ Forall (λ q, fits 32 q.1 ∧ fits 32 q.2) ivs ∧ (length ivs ≤ Z.to_nat (2 ^ 20 + 1))%nat ∧
    (r = 0 ∨ r = -1 ∧ false ∈ gs) ∧ (false ∉ gs → ∀ d, covers ivs d ↔ ∃ c, covers qs c ∧ canonical u c = d).
Proof.
  intros Hord Hin. unfold fold_all. destruct (lookup_lt_is_Some_2 case_conv_table1 0) as [v0 Hv0]; [pose proof case_count; unfold CASE_COUNT in *; lia|].
  erewrite bind_run by (apply rd_run; [done|exact Hv0]). cbn [len].
  destruct (inter_loop_run (S (Z.to_nat (Z.of_nat (length (points_of qs))))) gs [] qs junk sz 0 (at_entry 0 v0 UINT32_MAX UINT32_MAX) (st [] post gs))
    as (cur & f & s & E & [_ (ivs & post1 & gs1 & -> & Hg & Hlt & Hfit & Hlen & Hcov & Hnil) Hi] & Hcur).
  - split; [exists 0%nat, v0; split_and!; [done|done|by left]| |by left]. exists [], post, gs. split_and!; try done. intros _ d. unfold covers. rewrite Exists_nil. cbn.
    split; [intros [[]|[[] _]]; done|intros (c & Hc & _); by apply Exists_nil in Hc].
  - done.
  - done.
  - rewrite Nat2Z.id, points_length. lia.
  - cbn [app] in *. erewrite bind_run by exact E. assert (cur ≤ 2 ^ 20) as Hcur' by (destruct Hcur as [[_ ->]|?]; lia).
    destruct (Z.eqb_spec (d_start f) UINT32_MAX) as [Hnone|Hsome]; cbn [negb].
    + exists 0, ivs, post1, gs1. split_and!; try done; [lia|by left|]. intros Hno d. rewrite <-(Hcov Hno d). clear -Hnone. intuition lia.
    + destruct Hi as [?|Hi]; [done|]. destruct (cr_add_interval_tries (points_of ivs) post1 gs1 (d_start f) (d_end f)) as (r & post' & gs' & l' & E2 & Hg' & Hr).
      { unfold moderate. rewrite points_length. lia. }
      destruct Hr as [[-> ->]|(-> & -> & Hrefused)].
      * exists 0, (ivs ++ [(d_start f, d_end f)]), post', gs'. split_and!; [by rewrite points_app|by trans gs1| | |rewrite length_app; cbn [length]; lia|by left|].
        { apply Forall_app_2; [done|constructor; [cbn; lia|done]]. }
        { apply Forall_app_2; [done|]. constructor; [|done]. cbn. unfold fits. lia. }
        intros Hno d. rewrite <-(Hcov Hno d). unfold covers. rewrite Exists_app, Exists_cons, Exists_nil. cbn [fst snd]. clear -Hsome. intuition lia.
      * assert (false ∈ gs) as Hgs by (destruct Hg as [k ->]; apply elem_of_app; by right).
        exists (-1), ivs, post', gs'. split_and!; [done|by trans gs1|done|done|lia|by right|done].
Qed.
End folding.

(** * Sets of code points through the case folding: the whole routine *)

Section canonicalize.
Context `{Realloc, BuildConfig} (u : bool).

(** A structure, and the points it holds. *)
Definition holding (l post : list Z) : CharRange := {| len := Z.of_nat (length l); size := Z.of_nat (length (l ++ post)); points := l ++ post |}.

Lemma st_holding l post gs : st l post gs = {| range := holding l post; grants := gs |}.
Proof. done. Qed.

(** A step of the routine on a local structure: it succeeds, or the routine returns -1. *)
Lemma on_range_step {l0 post0 s} (m : M cr_mem Z) (P : list Z → Prop) (k : Z * CharRange → M cr_mem Z) (R : outcome Z * cr_mem → Prop) :
  grows m (st l0 post0 (grants s)) (λ s', ∃ o post' gs', s' = st o post' gs' ∧ P o) →
  (∀ o post' gs', P o → gs' `suffix_of` grants s → R (k (0, holding o post') {| range := range s; grants := gs' |})) →
  (∀ r' s', false ∈ grants s → R (k (-1, r') s')) →
  R ((x ← on_range (holding l0 post0) m; k x) s).
Proof.
  intros (r & s' & E & Hg & Hr) Hk Hfail. unfold bind. rewrite (on_range_run (holding l0 post0) m s r s' E).
  destruct Hr as [[-> (o & post' & gs' & -> & HP)]|[-> Hgs]]; [by apply Hk|by apply Hfail].
Qed.

Lemma suffix_false (gs gs' : list bool) : gs' `suffix_of` gs → false ∈ gs' → false ∈ gs.
Proof. intros [k ->] Hin. apply elem_of_app. by right. Qed.

(** What the routine leaves in the structure, the points [l] being in it before. *)
Definition canonicalized (l : list Z) (gs : list bool) (res : outcome Z * cr_mem) : Prop :=
  ∃ r s', res = (Ok r, s') ∧
    (r = -1 ∧ false ∈ gs ∨
     r = 0 ∧ ∃ o post' gs', s' = st o post' gs' ∧ normal_points o ∧
       (false ∉ gs → ∀ d, member o d = true ↔ ∃ c, member l c = true ∧ canonical u c = d)).

Lemma canonicalized_fail l gs r s : r = -1 → false ∈ gs → canonicalized l gs (Ok r, s).
Proof. intros -> Hgs. exists (-1), s. split; [done|]. by left. Qed.

(** The image of a set: the points that change, through the folding, and the others. *)
Lemma image_split l mask inter sub folded :
  (∀ x, member l x = true → 0 ≤ x < UINT32_MAX) →
  (∀ x, 0 ≤ x → canonical u x ≠ x → mask x = true) →
  (∀ x, member inter x = mask x && member l x) →
  (∀ x, member l x = true → member sub x = negb (mask x)) → (∀ x, member l x = false → member sub x = false) →
  (∀ d, folded d ↔ ∃ c, member inter c = true ∧ canonical u c = d) →
  ∀ d, folded d ∨ member sub d = true ↔ ∃ c, member l c = true ∧ canonical u c = d.
Proof.
  intros Hrange Hmask Hinter Hsub Hsub0 Hfolded d. rewrite Hfolded. setoid_rewrite Hinter. setoid_rewrite andb_true_iff. split.
  - intros [(c & [_ Hc] & Hd)|Hd]; [by exists c|]. exists d. destruct (member l d) eqn:Hl; [|by rewrite Hsub0 in Hd]. split; [done|].
    rewrite Hsub in Hd by done. destruct (decide (canonical u d = d)) as [|Hne]; [done|]. rewrite Hmask in Hd; [done|apply Hrange; done|done].
  - intros (c & Hc & Hd). destruct (mask c) eqn:Hm; [left; by exists c|right]. assert (canonical u c = c) as Hsame.
    { destruct (decide (canonical u c = c)) as [|Hne]; [done|]. rewrite Hmask in Hm; [done|apply Hrange; done|done]. }
    rewrite <-Hd, Hsame, Hsub, Hm by done. done.
Qed.

Lemma cr_regexp_canonicalize_run l post gs :
  normal_points l → Z.of_nat (length l) ≤ 2 ^ 20 → canonicalized l gs (cr_regexp_canonicalize u (st l post gs)).
Proof.
  intros Hl Hlen. pose proof Hl as (Hs & He & Hf). pose proof (increasing_mono l Hs) as Hinc. set (mask := points_of (mask_intervals u)).
  destruct (mask_small u) as [Hmf Hml]. fold mask in Hmf, Hml. pose proof (ordered_increasing 0 _ (mask_ordered u)) as Hmi. fold mask in Hmi.
  pose proof (points_even (mask_intervals u)) as Hme. fold mask in Hme.
  unfold cr_regexp_canonicalize. change no_range with (holding [] []).
  apply (on_range_step (s := st l post gs) _ (λ o, o = mask)); [|intros o1 pm gs1 -> Hg1|intros; by apply canonicalized_fail].
  { eapply grows_mono; [apply (unicode_case1_builds (mask_of u)); [by destruct u|change (moderate (0 + length mask)); unfold moderate; lia]|].
    intros s' (post' & gs' & ->). by exists mask, post', gs'. }
  cbn [grants range] in *. change (negb (0 =? 0)) with false. cbv iota. erewrite bind_run by reflexivity. cbn [range st len points holding] in *.
  (* the points of the set that change *)
  apply (on_range_step (s := {| range := holding l post; grants := gs1 |}) _
    (λ o, normal_points o ∧ (length o ≤ length mask + length l)%nat ∧ ∀ x, member o x = member mask x && member l x));
    [|intros inter pi gs2 (Hin & Hil & Him) Hg2|intros; apply canonicalized_fail; [done|by apply (suffix_false gs gs1)]].
  { apply (cr_op_grows CR_OP_INTER mask pm l post [] gs1); [done|done|by apply Forall_app_2|done|done|unfold moderate; lia]. }
  cbn [grants range] in *. change (negb (0 =? 0)) with false. cbv iota.
  assert (gs2 `suffix_of` gs) as Hgs2 by (by trans gs1).
  apply (on_range_step (s := {| range := holding l post; grants := gs2 |}) _
    (λ o, normal_points o ∧ (length o ≤ length mask + 2)%nat ∧ ∀ x, 0 ≤ x < UINT32_MAX → member o x = negb (member mask x)));
    [|intros rest pr gs3 (Hrn & Hrl & Hrm) Hg3|intros; apply canonicalized_fail; [done|by apply (suffix_false gs gs2)]].
  { apply cr_invert_sorted_grows; [done..|unfold moderate; lia]. }
  cbn [grants range] in *. change (negb (0 =? 0)) with false. cbv iota. cbn [len points holding] in *.
  assert (gs3 `suffix_of` gs) as Hgs3 by (by trans gs2).
  pose proof Hrn as (Hrs & Hre & Hrf). pose proof (increasing_mono rest Hrs) as Hri.
  apply (on_range_step (s := {| range := holding l post; grants := gs3 |}) _
    (λ o, normal_points o ∧ (length o ≤ length rest + length l)%nat ∧ ∀ x, member o x = member rest x && member l x));
    [|intros sub ps gs4 (Hsn & Hsl & Hsm) Hg4|intros; apply canonicalized_fail; [done|by apply (suffix_false gs gs3)]].
  { apply (cr_op_grows CR_OP_INTER rest pr l post [] gs3); [done|done|by apply Forall_app_2|done|done|unfold moderate; lia]. }
  cbn [grants range] in *. change (negb (0 =? 0)) with false. cbv iota. cbn [len points holding] in *.
  assert (gs4 `suffix_of` gs) as Hgs4 by (by trans gs3).
  (* their foldings *)
  destruct (normal_intervals inter Hin) as (qs & -> & Hqs).
  destruct (fold_all_run u qs pi (Z.of_nat (length (points_of qs ++ pi))) [] gs4 Hqs) as (r & ivs & p5 & gs5 & E5 & Hg5 & Hlt & Hfit & Hivs & Hr & Hcov).
  { intros x Hx. apply (mask_in_table u). apply (member_points 0 qs x Hqs) in Hx. rewrite Him, andb_true_iff in Hx. apply (member_points 0 _ x (mask_ordered u)), Hx. }
  erewrite bind_run by (apply (on_range_run (holding [] [])); exact E5). cbn [grants range st] in *.
  destruct Hr as [->|[-> Hr]]; [|apply canonicalized_fail; [done|by apply (suffix_false gs gs4)]]. change (negb (0 =? 0)) with false. cbv iota.
  destruct (cr_sort_and_remove_overlap_run ivs p5 gs5 Hlt Hfit) as (res & p6 & E6 & Hresn & Hresl & Hresm).
  erewrite bind_run by (apply (on_range_run (holding (points_of ivs) p5)); exact E6). cbn [grants range st] in *.
  unfold set_len at 1. erewrite bind_run by (erewrite bind_run by reflexivity; reflexivity). cbn [range grants len size points holding].
  (* with the points that do not change *)
  pose proof Hresn as (Hrsi & Hrse & Hrsf). pose proof Hsn as (Hsi & Hse & Hsf).
  destruct (cr_op_grows CR_OP_UNION res p6 sub ps (l ++ post) gs5) as (r & s' & E7 & Hg7 & Hr7);
    [by apply increasing_mono|by apply increasing_mono|by apply Forall_app_2|done|done|unfold moderate; rewrite points_length in Hresl; lia|].
  erewrite bind_run by exact E7. assert (gs5 `suffix_of` gs) as Hgs5 by (by trans gs4).
  destruct Hr7 as [[-> (o & p8 & g8 & -> & Hon & Hol & Hom)]|[-> Hr7]]; [|apply canonicalized_fail; [done|by apply (suffix_false gs gs5)]].
  exists 0, (st o p8 g8). split; [done|]. right. split; [done|]. exists o, p8, g8. split_and!; [done|done|].
  intros Hno d. rewrite Hom. cbn [apply_op]. rewrite orb_true_iff.
  apply (image_split l (member mask) (points_of qs) sub (λ d, member res d = true)).
  - intros x. by apply member_range.
  - intros x Hx Hne. apply (member_points 0 _ x (mask_ordered u)). by apply mask_changes.
  - done.
  - intros x Hx. rewrite Hsm, Hx, andb_true_r. apply Hrm. by apply (member_range l).
  - intros x Hx. by rewrite Hsm, Hx, andb_false_r.
  - intros d'. rewrite Hresm, (Hcov ltac:(intros Hbad; by apply Hno, (suffix_false gs gs4))). by setoid_rewrite (member_points 0 qs _ Hqs).
Qed.
End canonicalize.
