(* ===== verification/UniCaseProps.v ===== *)
(** * Case conversion of code points: properties

    The conversions on every code point, and the folding of a set. *)
From S2P Require Import Prelude CStd Words CUtils BigIntMp CharRange CharRangeFacts CharRangeBuild UniTable.
From S2P Require Import UniCase UniCaseFacts.
From Stdlib Require Import Sorted.

#[local] Open Scope Z_scope.

(** ** The conversions *)

Definition small_text (res : list Z) : bool :=
  (1 <=? length res)%nat && (length res <=? 3)%nat && forallb (λ d, (0 <=? d) && (d <? 0x110000)) res.

(** The value of the conversion of a code point of an entry. *)
Definition converted_at (conv_type : Z) (p : Z * Z * Z) : list Z :=
  let '(i, v, c) := p in
  match lre_case_conv_entry (λ c t, res ← lre_case_conv_at 1 c t; rd res 0) c conv_type i v tt with (Ok l, _) => l | (Err _, _) => [] end.

Definition conv_types : list Z := [0; 1; 2].

Lemma converted_entries {S} (s : S) t : t ∈ conv_types →
  (λ '(i, v, c), lre_case_conv_entry (λ c t, res ← lre_case_conv_at 1 c t; rd res 0) c t i v s) <$> case_points = (λ p, (Ok (converted_at t p), s)) <$> case_points.
Proof. unfold conv_types. rewrite !elem_of_cons. intros [->|[->|[->|Hn]]]; [vm_compute; reflexivity..|by apply elem_of_nil in Hn]. Qed.

Lemma converted_small t p : t ∈ conv_types → p ∈ case_points → small_text (converted_at t p) = true.
Proof.
  intros Ht. revert p. apply (case_points_check (λ p, small_text (converted_at t p))). unfold conv_types in Ht. rewrite !elem_of_cons in Ht.
  destruct Ht as [->|[->|[->|Hn]]]; [vm_compute; reflexivity..|by apply elem_of_nil in Hn].
Qed.

Lemma ascii_small c : 0 ≤ c < 128 → 0 ≤ ascii_lower c < 128 ∧ 0 ≤ ascii_upper c < 128.
Proof.
  intros Hc. unfold ascii_lower, ascii_upper. rewrite !Z.geb_leb.
  destruct (Z.leb_spec 65 c), (Z.leb_spec c 90), (Z.leb_spec 97 c), (Z.leb_spec c 122); cbn [andb]; lia.
Qed.

Lemma case_conv_run {S} (s : S) c t :
  0 ≤ c < 0x110000 → t ∈ conv_types → ∃ res, lre_case_conv c t s = (Ok res, s) ∧ small_text res = true.
Proof.
  intros Hc Ht. unfold lre_case_conv. cbn [lre_case_conv_at]. destruct (Z.ltb_spec c 128) as [Hlt|Hge].
  - destruct (ascii_small c ltac:(lia)) as [Hl Hu]. eexists. split; [reflexivity|]. unfold small_text. cbn [length forallb].
    destruct (negb (t =? 0)); rewrite (proj2 (Z.leb_le _ _)), (proj2 (Z.ltb_lt _ _)) by lia; done.
  - destruct (case_search_run s c) as (o & E & Ho). erewrite bind_run by exact E. destruct o as [[idx v]|].
    + assert ((idx, v, c) ∈ case_points) as Hp by (destruct Ho as (i & -> & Hv & Hcv); by apply case_points_in).
      exists (converted_at t (idx, v, c)). split; [|by apply converted_small]. pose proof Hp as Hk. apply list_elem_of_lookup in Hk as [k Hk].
      pose proof (f_equal (lookup k) (converted_entries s t Ht)) as Ek. rewrite !list_lookup_fmap, Hk in Ek. by injection Ek.
    + exists [c]. split; [done|]. unfold small_text. cbn [length forallb]. rewrite (proj2 (Z.leb_le _ _)), (proj2 (Z.ltb_lt _ _)) by lia. done.
Qed.

(** C29: on every code point, the three conversions of [lre_case_conv] come to an end inside their tables, with one to three code points; and [lre_canonicalize], the folding of regular expressions in its two modes, comes to an end with one code point that folds to itself. *)
Theorem case_conversions_total {S} (s : S) c (t : Z) (u : bool) :
  0 ≤ c < 0x110000 → t ∈ [0; 1; 2] →
  (∃ res, lre_case_conv c t s = (Ok res, s) ∧ (1 ≤ length res ≤ 3)%nat ∧ Forall (λ d, 0 ≤ d < 0x110000) res) ∧
  (∃ d, lre_canonicalize c u s = (Ok d, s) ∧ lre_canonicalize d u s = (Ok d, s) ∧ 0 ≤ d < 0x110000).
Proof.
  intros Hc Ht. split.
  - destruct (case_conv_run s c t Hc Ht) as (res & E & Hsm). unfold small_text in Hsm. rewrite !andb_true_iff, !Nat.leb_le, forallb_forall in Hsm.
    destruct Hsm as [Hlen Hall]. exists res. split_and!; [done|lia|lia|]. apply Forall_forall. intros d Hd. apply list_elem_of_In in Hd. specialize (Hall d Hd). rewrite andb_true_iff, Z.leb_le, Z.ltb_lt in Hall. lia.
  - exists (canonical u c). rewrite !canonical_run, (canonical_twice u c) by lia. split_and!; [done|done|..];
      (destruct (in_table_dec c) as [Hin|Hin]; [pose proof (canonical_small u c Hin)|rewrite canonical_outside by (done || lia)]; lia).
Qed.

(** The last code point with a conversion of its own, and the ligature of s and t. *)
Lemma case_conversions_total_witness :
  (∃ res, lre_case_conv 0xfb05 0 tt = (Ok res, tt) ∧ (1 ≤ length res ≤ 3)%nat ∧ Forall (λ d, 0 ≤ d < 0x110000) res) ∧
  (∃ d, lre_canonicalize 0xfb06 true tt = (Ok d, tt) ∧ lre_canonicalize d true tt = (Ok d, tt) ∧ 0 ≤ d < 0x110000).
Proof.
  split.
  - refine (proj1 (case_conversions_total tt 0xfb05 0 true _ _)); [lia|left].
  - refine (proj2 (case_conversions_total tt 0xfb06 2 true _ _)); [lia|right; right; left].
Defined.

(** ** The folding of a set *)

(** C28: [cr_regexp_canonicalize] comes to an end on every set of code points, its assertion never fails, and it leaves a structure in normal form; when no allocation is refused it succeeds and the set is the image of the one it was given: a code point is in it when it is the [lre_canonicalize] of one that was in the set. *)
Theorem regexp_canonicalize_image `{Realloc, BuildConfig} u l post gs :
  normal_points l → Z.of_nat (length l) ≤ 2 ^ 20 →
  ∃ r s', cr_regexp_canonicalize u (st l post gs) = (Ok r, s') ∧
    (r = -1 ∧ false ∈ gs ∨
     r = 0 ∧ ∃ o post' gs', s' = st o post' gs' ∧ normal_points o ∧
       (false ∉ gs → ∀ d, member o d = true ↔ ∃ c, member l c = true ∧ lre_canonicalize c u tt = (Ok d, tt))).
Proof.
  intros Hl Hlen. destruct (cr_regexp_canonicalize_run u l post gs Hl Hlen) as (r & s' & E & Hr). exists r, s'. split; [exact E|].
  destruct Hr as [?|(-> & o & post' & gs' & -> & Hn & Hm)]; [by left|right]. split; [done|]. exists o, post', gs'. split_and!; [done|done|].
  intros Hno d. rewrite (Hm Hno d). split; intros (c & Hc & Hd); exists c; (split; [done|]).
  - by rewrite canonical_run, Hd.
  - rewrite canonical_run in Hd. by injection Hd.
Qed.

#[local] Instance blank : Realloc := {| fresh_point := λ _, 0 |}.

(** The letters from [A] to [C], with the long s. *)
Lemma regexp_canonicalize_image_witness :
  ∃ r s', @cr_regexp_canonicalize blank with_assertions true (st [65; 68; 0x17f; 0x180] [] []) = (Ok r, s') ∧
    (r = -1 ∧ false ∈ [] ∨
     r = 0 ∧ ∃ o post' gs', s' = st o post' gs' ∧ normal_points o ∧
       (false ∉ [] → ∀ d, member o d = true ↔ ∃ c, member [65; 68; 0x17f; 0x180] c = true ∧ lre_canonicalize c true tt = (Ok d, tt))).
Proof.
  refine (@regexp_canonicalize_image blank with_assertions true [65; 68; 0x17f; 0x180] [] [] _ _); [|cbn; lia].
  split_and!; [repeat constructor; lia|reflexivity|repeat constructor; unfold fits; lia].
Defined.
