(* ===== verification/UniProp.v ===== *)
(** * Unicode properties and scripts

    The lookups of one code point and the sets by name of
    [src/vendors/qjs/quickjs/libunicode.c]. *)
From S2P Require Import Prelude CStd Words CUtils BigIntMp CharRange UniTable UniCase.

(** * Unicode properties

    The readers of the compressed property tables of
    [src/vendors/qjs/quickjs/libunicode.c]: the lookup of one code point
    ([lre_is_in_table] and its callers) and the sets of the general categories, of
    the binary properties and of the scripts, by name. *)

(** ** One code point *)

Section lookup.
Context {S : Type}.

Definition get_le24 (tab : list Z) (i : Z) : M S Z :=
  b0 ← rd tab i; b1 ← rd tab (i + 1); b2 ← rd tab (i + 2); ret (Z.lor (Z.lor b0 (Z.shiftl b1 8)) (Z.shiftl b2 16)).

Definition UNICODE_INDEX_BLOCK_LEN : Z := 32.

(** [v & ((1 << 21) - 1)] *)
Definition index_code (v : Z) : Z := Z.land v (Z.shiftl 1 21 - 1).

(** [while ((idx_max - idx_min) > 1)] *)
Definition index_turn (c : Z) (index_table : list Z) : Z * Z → M S (Z * Z + Z) := λ '(idx_min, idx_max),
  if idx_max - idx_min >? 1 then
    let idx := (idx_max + idx_min) / 2 in
    v ← get_le24 index_table (idx * 3);
    ret (inl (if c <? index_code v then (idx_min, idx) else (idx, idx_max)))
  else ret (inr idx_min).

(** The code and the position, or nothing for -1. *)
Definition get_index_pos (c : Z) (index_table : list Z) (index_table_len : Z) : M S (option (Z * Z)) :=
  v ← get_le24 index_table 0;
  if c <? index_code v then ret (Some (0, 0))
  else
    let idx_max := index_table_len - 1 in
    code ← get_le24 index_table (idx_max * 3);
    if c >=? code then ret None
    else
      idx_min ← loop (Datatypes.S (Z.to_nat index_table_len)) (index_turn c index_table) (0, idx_max);
      v ← get_le24 index_table (idx_min * 3);
      ret (Some (index_code v, (idx_min + 1) * UNICODE_INDEX_BLOCK_LEN + Z.shiftr v 21)).

(** The run that the byte [b], 64 or more, begins: the place after it and the
    code after it. [p] is the place after [b]. *)
Definition long_run (table : list Z) (p b code : Z) : M S (Z * Z) :=
  if b >=? 0x80 then ret (p, u32 (code + (b - 0x80 + 1)))
  else if b <? 0x60 then
    p0 ← rd table p; ret (p + 1, u32 (code + (Z.lor (Z.shiftl (b - 0x40) 8) p0 + 1)))
  else
    p0 ← rd table p;
    p1 ← rd table (p + 1);
    ret (p + 2, u32 (code + (Z.lor (Z.lor (Z.shiftl (b - 0x60) 16) (Z.shiftl p0 8)) p1 + 1))).

Definition table_turn (c : Z) (table : list Z) : Z * Z * Z → M S (Z * Z * Z + bool) := λ '(p, code, bit),
  b ← rd table p;
  let p := p + 1 in
  let done (p code bit : Z) := if c <? code then ret (inr (negb (bit =? 0))) else ret (inl (p, code, Z.lxor bit 1)) in
  if b <? 64 then
    let code := u32 (code + (Z.shiftr b 3 + 1)) in
    if c <? code then ret (inr (negb (bit =? 0)))
    else done p (u32 (code + (Z.land b 7 + 1))) (Z.lxor bit 1)
  else
    '(p, code) ← long_run table p b code;
    done p code bit.

Definition lre_is_in_table (c : Z) (table index_table : list Z) (index_table_len : Z) : M S bool :=
  o ← get_index_pos c index_table index_table_len;
  match o with
  | None => ret false
  | Some (code, pos) => loop (Datatypes.S (length table)) (table_turn c table) (pos, code, 0)
  end.

(** [sizeof(index) / 3] *)
Definition index_len (index_table : list Z) : Z := Z.of_nat (length index_table) / 3.

Definition lre_is_cased (c : Z) : M S bool :=
  o ← case_search c;
  match o with
  | Some _ => ret true
  | None => lre_is_in_table c unicode_prop_Cased1_table unicode_prop_Cased1_index (index_len unicode_prop_Cased1_index)
  end.
Definition lre_is_case_ignorable (c : Z) : M S bool :=
  lre_is_in_table c unicode_prop_Case_Ignorable_table unicode_prop_Case_Ignorable_index (index_len unicode_prop_Case_Ignorable_index).
Definition lre_is_id_start (c : Z) : M S bool :=
  lre_is_in_table c unicode_prop_ID_Start_table unicode_prop_ID_Start_index (index_len unicode_prop_ID_Start_index).
Definition lre_is_id_continue (c : Z) : M S bool :=
  b ← lre_is_id_start c;
  if (b : bool) then ret true
  else lre_is_in_table c unicode_prop_ID_Continue1_table unicode_prop_ID_Continue1_index (index_len unicode_prop_ID_Continue1_index).
Definition lre_is_white_space (c : Z) : M S bool :=
  lre_is_in_table c unicode_prop_White_Space_table unicode_prop_White_Space_index (index_len unicode_prop_White_Space_index).

(** ** Names *)

(** [len], up to the comma or the end, and whether there is a comma. *)
Fixpoint name_end (s : list Z) : option (nat * bool) :=
  match s with
  | [] => None
  | c :: s =>
      if c =? 0 then Some (O, false) else if c =? $"," then Some (O, true)
      else match name_end s with Some (n, r) => Some (Datatypes.S n, r) | None => None end
  end.

(** One name of the table: [p] is the place of it, [pos] the number of its entry. *)
Definition name_turn (table name : list Z) : Z * Z * bool → M S (Z * Z * bool + Z) := λ '(p, pos, inside),
  c ← rd table p;
  if negb inside && (c =? 0) then ret (inr (-1))
  else
    '(n, comma) ← of_option ReadOutOfBounds (name_end (drop (Z.to_nat p) table));
    if bool_decide (take n (drop (Z.to_nat p) table) = name) then ret (inr pos)
    else
      let p := p + Z.of_nat n + 1 in
      ret (inl (if (comma : bool) then (p, pos, true) else (p, pos + 1, false))).
Definition unicode_find_name (table name : list Z) : M S Z :=
  loop (Datatypes.S (length table)) (name_turn table name) (0, 0, false).

End lookup.

(** ** Sets *)

Section sets.
Context `{Realloc}.

(** [if (cond) { if (cr_add_interval(cr, a, b)) return -1; }] *)
Definition add_if (cond : bool) (a b : Z) : M cr_mem Z := if cond then cr_add_interval a b else ret 0.

(** [while (p < p_end)] *)
Definition prop_turn (table : list Z) (p_end : Z) : Z * Z * Z → M cr_mem (Z * Z * Z + Z) := λ '(p, c, bit),
  if p <? p_end then
    b ← rd table p;
    let p := p + 1 in
    let done (p c0 c bit : Z) := r ← add_if (negb (bit =? 0)) c0 c; ret (if negb (r =? 0) then inr (-1) else inl (p, c, Z.lxor bit 1)) in
    if b <? 64 then
      let c1 := u32 (c + (Z.shiftr b 3 + 1)) in
      r ← add_if (negb (bit =? 0)) c c1;
      if negb (r =? 0) then ret (inr (-1))
      else done p c1 (u32 (c1 + (Z.land b 7 + 1))) (Z.lxor bit 1)
    else
      '(p, c1) ← long_run table p b c;
      done p c c1 bit
  else ret (inr 0).

Definition unicode_prop1 (prop_idx : Z) : M cr_mem Z :=
  table ← of_option ReadOutOfBounds (unicode_prop_table !! Z.to_nat prop_idx);
  p_end ← rd unicode_prop_len_table prop_idx;
  loop (Datatypes.S (Z.to_nat p_end)) (prop_turn table p_end) (0, 0, 0).

(** [M(id)], for several *)
Definition gc_mask_of (l : list UnicodeGCEnum) : Z := foldr (λ g m, Z.lor (Z.shiftl 1 (gc_code g)) m) 0 l.

(** The length of a run less one, [n], and the place after it. *)
Definition gc_run (p b : Z) : M cr_mem (Z * Z) :=
  let n := Z.shiftr b 5 in
  if n =? 7 then
    n ← rd unicode_gc_table p;
    if n <? 128 then ret (p + 1, n + 7)
    else if n <? 128 + 64 then
      p0 ← rd unicode_gc_table (p + 1);
      ret (p + 2, Z.lor (Z.shiftl (n - 128) 8) p0 + (7 + 128))
    else
      p0 ← rd unicode_gc_table (p + 1);
      p1 ← rd unicode_gc_table (p + 2);
      ret (p + 3, Z.lor (Z.lor (Z.shiftl (n - 128 - 64) 16) (Z.shiftl p0 8)) p1 + (7 + 128 + Z.shiftl 1 14))
  else ret (p, n).

(** [for(; c0 < c; c0 += 2)] *)
Definition by_two_turn (c c0 : Z) : M cr_mem (Z + Z) :=
  if c0 <? c then
    r ← cr_add_interval c0 (u32 (c0 + 1));
    ret (if negb (r =? 0) then inr (-1) else inl (u32 (c0 + 2)))
  else ret (inr 0).

(** The run from [c0] to [c] of the value [v]. *)
Definition gc_intervals (gc_mask v c0 c : Z) : M cr_mem Z :=
  let both := gc_mask_of [UNICODE_GC_Lu; UNICODE_GC_Ll] in
  if v =? 31 then
    let b := Z.land gc_mask both in
    if b =? 0 then ret 0
    else if b =? both then cr_add_interval c0 c
    else loop (Datatypes.S (Z.to_nat (c - c0))) (by_two_turn c) (c0 + Z.b2z (negb (Z.land gc_mask (gc_mask_of [UNICODE_GC_Ll]) =? 0)))
  else add_if (Z.testbit gc_mask v) c0 c.

Definition gc_turn (gc_mask : Z) : Z * Z → M cr_mem (Z * Z + Z) := λ '(p, c0),
  if p <? Z.of_nat (length unicode_gc_table) then
    b ← rd unicode_gc_table p;
    '(p, n) ← gc_run (p + 1) b;
    let c := u32 (c0 + n + 1) in
    r ← gc_intervals gc_mask (Z.land b 0x1f) c0 c;
    ret (if negb (r =? 0) then inr (-1) else inl (p, c))
  else ret (inr 0).
Definition unicode_general_category1 (gc_mask : Z) : M cr_mem Z :=
  loop (Datatypes.S (length unicode_gc_table)) (gc_turn gc_mask) (0, 0).

Definition unicode_gc_mask_table : list Z := [
  gc_mask_of [UNICODE_GC_Lu; UNICODE_GC_Ll; UNICODE_GC_Lt];
  gc_mask_of [UNICODE_GC_Lu; UNICODE_GC_Ll; UNICODE_GC_Lt; UNICODE_GC_Lm; UNICODE_GC_Lo];
  gc_mask_of [UNICODE_GC_Mn; UNICODE_GC_Mc; UNICODE_GC_Me];
  gc_mask_of [UNICODE_GC_Nd; UNICODE_GC_Nl; UNICODE_GC_No];
  gc_mask_of [UNICODE_GC_Sm; UNICODE_GC_Sc; UNICODE_GC_Sk; UNICODE_GC_So];
  gc_mask_of [UNICODE_GC_Pc; UNICODE_GC_Pd; UNICODE_GC_Ps; UNICODE_GC_Pe; UNICODE_GC_Pi; UNICODE_GC_Pf; UNICODE_GC_Po];
  gc_mask_of [UNICODE_GC_Zs; UNICODE_GC_Zl; UNICODE_GC_Zp];
  gc_mask_of [UNICODE_GC_Cc; UNICODE_GC_Cf; UNICODE_GC_Cs; UNICODE_GC_Co; UNICODE_GC_Cn]].

Definition unicode_general_category (gc_name : list Z) : M cr_mem Z :=
  gc_idx ← unicode_find_name unicode_gc_name_table gc_name;
  if gc_idx <? 0 then ret (-2)
  else
    gc_mask ← (if gc_idx <=? gc_code UNICODE_GC_Co then ret (u32 (Z.shiftl 1 gc_idx)) else rd unicode_gc_mask_table (gc_idx - gc_code UNICODE_GC_LC));
    unicode_general_category1 gc_mask.

(** ** Sets by operations *)

Inductive PropOP : Type :=
  | POP_GC (mask : Z) | POP_PROP (p : UnicodePropertyEnum) | POP_CASE (mask : Z)
  | POP_UNION | POP_INTER | POP_XOR | POP_INVERT.

Definition POP_STACK_LEN_MAX : nat := 4.

Definition prop_op (o : PropOP) : CharRangeOpEnum :=
  match o with POP_INTER => CR_OP_INTER | POP_XOR => CR_OP_XOR | _ => CR_OP_UNION end.

Context `{BuildConfig}.

(** One operation, the top of the stack first; the result is 0, or -1 for [fail]. *)
Definition prop_op_turn (o : PropOP) (stack : list CharRange) : M cr_mem (Z * list CharRange) :=
  let push (m : M cr_mem Z) :=
    MOE_ASSERT_MSG (length stack <? POP_STACK_LEN_MAX)%nat;;
    '(r, cr) ← on_range no_range m; ret (r, cr :: stack) in
  match o with
  | POP_GC a => push (unicode_general_category1 a)
  | POP_PROP a => push (unicode_prop1 (prop_code a))
  | POP_CASE a => push (unicode_case1 a)
  | POP_UNION | POP_INTER | POP_XOR =>
      MOE_ASSERT_MSG (2 <=? length stack)%nat;;
      MOE_ASSERT_MSG (length stack <? POP_STACK_LEN_MAX)%nat;;
      match stack with
      | cr2 :: cr1 :: stack =>
          '(r, cr3) ← on_range no_range (cr_op (points cr1) (len cr1) (points cr2) (len cr2) (prop_op o));
          ret (r, cr3 :: stack)
      | _ => throw (Undefined ReadOutOfBounds)
      end
  | POP_INVERT =>
      MOE_ASSERT_MSG (1 <=? length stack)%nat;;
      match stack with
      | cr1 :: stack => '(r, cr1) ← on_range cr1 cr_invert; ret (r, cr1 :: stack)
      | [] => throw (Undefined ReadOutOfBounds)
      end
  end.

(** The operations up to [POP_END]. *)
Fixpoint prop_ops_from (ops : list PropOP) (stack : list CharRange) : M cr_mem Z :=
  match ops with
  | [] =>
      MOE_ASSERT_MSG (length stack =? 1)%nat;;
      match stack with cr1 :: _ => cr_copy cr1 | [] => throw (Undefined ReadOutOfBounds) end
  | o :: ops =>
      '(r, stack) ← prop_op_turn o stack;
      if negb (r =? 0) then ret (-1) else prop_ops_from ops stack
  end.
Definition unicode_prop_ops (ops : list PropOP) : M cr_mem Z := prop_ops_from ops [].

Definition letters : list UnicodeGCEnum := [UNICODE_GC_Lu; UNICODE_GC_Ll; UNICODE_GC_Lt; UNICODE_GC_Lm; UNICODE_GC_Lo; UNICODE_GC_Nl].

(** The operations of the derived properties. *)
Definition derived_prop (p : UnicodePropertyEnum) : option (list PropOP) :=
  match p with
  | UNICODE_PROP_Assigned => Some [POP_GC (gc_mask_of [UNICODE_GC_Cn]); POP_INVERT]
  | UNICODE_PROP_Math => Some [POP_GC (gc_mask_of [UNICODE_GC_Sm]); POP_PROP UNICODE_PROP_Other_Math; POP_UNION]
  | UNICODE_PROP_Lowercase => Some [POP_GC (gc_mask_of [UNICODE_GC_Ll]); POP_PROP UNICODE_PROP_Other_Lowercase; POP_UNION]
  | UNICODE_PROP_Uppercase => Some [POP_GC (gc_mask_of [UNICODE_GC_Lu]); POP_PROP UNICODE_PROP_Other_Uppercase; POP_UNION]
  | UNICODE_PROP_Cased =>
      Some [POP_GC (gc_mask_of [UNICODE_GC_Lu; UNICODE_GC_Ll; UNICODE_GC_Lt]); POP_PROP UNICODE_PROP_Other_Uppercase; POP_UNION;
            POP_PROP UNICODE_PROP_Other_Lowercase; POP_UNION]
  | UNICODE_PROP_Alphabetic =>
      Some [POP_GC (gc_mask_of letters); POP_PROP UNICODE_PROP_Other_Uppercase; POP_UNION; POP_PROP UNICODE_PROP_Other_Lowercase; POP_UNION;
            POP_PROP UNICODE_PROP_Other_Alphabetic; POP_UNION]
  | UNICODE_PROP_Grapheme_Base =>
      Some [POP_GC (gc_mask_of [UNICODE_GC_Cc; UNICODE_GC_Cf; UNICODE_GC_Cs; UNICODE_GC_Co; UNICODE_GC_Cn; UNICODE_GC_Zl; UNICODE_GC_Zp; UNICODE_GC_Me; UNICODE_GC_Mn]);
            POP_PROP UNICODE_PROP_Other_Grapheme_Extend; POP_UNION; POP_INVERT]
  | UNICODE_PROP_Grapheme_Extend =>
      Some [POP_GC (gc_mask_of [UNICODE_GC_Me; UNICODE_GC_Mn]); POP_PROP UNICODE_PROP_Other_Grapheme_Extend; POP_UNION]
  | UNICODE_PROP_XID_Start =>
      Some [POP_GC (gc_mask_of letters); POP_PROP UNICODE_PROP_Other_ID_Start; POP_UNION; POP_PROP UNICODE_PROP_Pattern_Syntax;
            POP_PROP UNICODE_PROP_Pattern_White_Space; POP_UNION; POP_PROP UNICODE_PROP_XID_Start1; POP_UNION; POP_INVERT; POP_INTER]
  | UNICODE_PROP_XID_Continue =>
      Some [POP_GC (gc_mask_of (letters ++ [UNICODE_GC_Mn; UNICODE_GC_Mc; UNICODE_GC_Nd; UNICODE_GC_Pc])); POP_PROP UNICODE_PROP_Other_ID_Start; POP_UNION;
            POP_PROP UNICODE_PROP_Other_ID_Continue; POP_UNION; POP_PROP UNICODE_PROP_Pattern_Syntax; POP_PROP UNICODE_PROP_Pattern_White_Space; POP_UNION;
            POP_PROP UNICODE_PROP_XID_Continue1; POP_UNION; POP_INVERT; POP_INTER]
  | UNICODE_PROP_Changes_When_Titlecased => Some [POP_CASE CASE_U; POP_PROP UNICODE_PROP_Changes_When_Titlecased1; POP_XOR]
  | UNICODE_PROP_Changes_When_Casefolded => Some [POP_CASE CASE_F; POP_PROP UNICODE_PROP_Changes_When_Casefolded1; POP_XOR]
  | UNICODE_PROP_Changes_When_NFKC_Casefolded => Some [POP_CASE CASE_F; POP_PROP UNICODE_PROP_Changes_When_NFKC_Casefolded1; POP_XOR]
  | UNICODE_PROP_ID_Continue => Some [POP_PROP UNICODE_PROP_ID_Start; POP_PROP UNICODE_PROP_ID_Continue1; POP_XOR]
  | _ => None
  end.

(** The [switch] of [unicode_prop]. *)
Definition unicode_prop_case (prop_idx : Z) (p : UnicodePropertyEnum) : M cr_mem Z :=
  match p with
  | UNICODE_PROP_ASCII => cr_add_interval 0x00 (0x7f + 1)
  | UNICODE_PROP_Any => cr_add_interval 0x00000 (0x10ffff + 1)
  | UNICODE_PROP_Changes_When_Uppercased => unicode_case1 CASE_U
  | UNICODE_PROP_Changes_When_Lowercased => unicode_case1 CASE_L
  | UNICODE_PROP_Changes_When_Casemapped => unicode_case1 (Z.lor CASE_U (Z.lor CASE_L CASE_F))
  | _ =>
      match derived_prop p with
      | Some ops => unicode_prop_ops ops
      | None => if prop_idx >=? Z.of_nat (length unicode_prop_table) then ret (-2) else unicode_prop1 prop_idx
      end
  end.

Definition unicode_prop (prop_name : list Z) : M cr_mem Z :=
  prop_idx ← unicode_find_name unicode_prop_name_table prop_name;
  if prop_idx <? 0 then ret (-2)
  else
    let prop_idx := prop_idx + prop_code UNICODE_PROP_ASCII_Hex_Digit in
    match unicode_properties !! Z.to_nat prop_idx with
    | Some p => unicode_prop_case prop_idx p
    | None => if prop_idx >=? Z.of_nat (length unicode_prop_table) then ret (-2) else unicode_prop1 prop_idx
    end.

End sets.

(** * Unicode scripts

    [unicode_script] of [src/vendors/qjs/quickjs/libunicode.c]: the code points of a
    script, or of a script with the extensions. On a failure the function jumps to
    [fail], whose last statement jumps to [fail] again. *)

Section script.
Context `{Realloc}.

(** The length of a run less one, [n] being the low bits of its first byte, and the place after it. *)
Definition script_run (p n : Z) : M cr_mem (Z * Z) :=
  if n <? 96 then ret (p, n)
  else if n <? 112 then
    p0 ← rd unicode_script_table p; ret (p + 1, Z.lor (Z.shiftl (n - 96) 8) p0 + 96)
  else
    p0 ← rd unicode_script_table p;
    p1 ← rd unicode_script_table (p + 1);
    ret (p + 2, Z.lor (Z.lor (Z.shiftl (n - 112) 16) (Z.shiftl p0 8)) p1 + (96 + Z.shiftl 1 12)).

(** [while (p < p_end)], in the table of the scripts *)
Definition script_turn (script_idx : Z) : Z * Z → M cr_mem (Z * Z + Z) := λ '(p, c),
  if p <? Z.of_nat (length unicode_script_table) then
    b ← rd unicode_script_table p;
    '(p, n) ← script_run (p + 1) (Z.land b 0x7f);
    '(p, v) ← (if Z.shiftr b 7 =? 0 then ret (p, 0) else v ← rd unicode_script_table p; ret (p + 1, v));
    let c1 := u32 (c + n + 1) in
    r ← add_if (v =? script_idx) c c1;
    ret (if negb (r =? 0) then inr (-1) else inl (p, c1))
  else ret (inr 0).
Definition script_set (script_idx : Z) : M cr_mem Z :=
  loop (Datatypes.S (length unicode_script_table)) (script_turn script_idx) (0, 0).

(** The same of the table of the extensions. *)
Definition ext_run (p b : Z) : M cr_mem (Z * Z) :=
  if b <? 128 then ret (p, b)
  else if b <? 128 + 64 then
    p0 ← rd unicode_script_ext_table p; ret (p + 1, Z.lor (Z.shiftl (b - 128) 8) p0 + 128)
  else
    p0 ← rd unicode_script_ext_table p;
    p1 ← rd unicode_script_ext_table (p + 1);
    ret (p + 2, Z.lor (Z.lor (Z.shiftl (b - 128 - 64) 16) (Z.shiftl p0 8)) p1 + (128 + Z.shiftl 1 14)).

(** [for(i = 0; i < v_len; i++) if (p[i] == script_idx)] *)
Fixpoint has_script (v_len : nat) (p script_idx : Z) : M cr_mem bool :=
  match v_len with
  | O => ret false
  | Datatypes.S v_len => v ← rd unicode_script_ext_table p; if v =? script_idx then ret true else has_script v_len (p + 1) script_idx
  end.

Definition ext_turn (script_idx : Z) (is_common : bool) : Z * Z → M cr_mem (Z * Z + Z) := λ '(p, c),
  if p <? Z.of_nat (length unicode_script_ext_table) then
    b ← rd unicode_script_ext_table p;
    '(p, n) ← ext_run (p + 1) b;
    let c1 := u32 (c + n + 1) in
    v_len ← rd unicode_script_ext_table p;
    let p := p + 1 in
    found ← (if is_common then ret (negb (v_len =? 0)) else has_script (Z.to_nat v_len) p script_idx);
    r ← add_if found c c1;
    ret (if negb (r =? 0) then inr (-1) else inl (p + v_len, c1))
  else ret (inr 0).
Definition ext_set (script_idx : Z) (is_common : bool) : M cr_mem Z :=
  loop (Datatypes.S (length unicode_script_ext_table)) (ext_turn script_idx is_common) (0, 0).

(** [fail]: with the extensions the two blocks are freed, each time round. *)
Definition script_fail (fuel : nat) (is_ext : bool) (cr1 cr2 : CharRange) : M cr_mem Z :=
  let blocks := negb (bool_decide (points cr1 = [] ∧ points cr2 = [])) in
  loop fuel (λ freed : bool, if is_ext && blocks && freed then throw (Undefined InvalidPtr) else ret (inl true)) false.

Definition unicode_script (fuel : nat) (script_name : list Z) (is_ext : bool) : M cr_mem Z :=
  script_idx ← unicode_find_name unicode_script_name_table script_name;
  if script_idx <? 0 then ret (-2)
  else
    let script_idx := script_idx + UNICODE_SCRIPT_Unknown + 1 in
    let is_common := (script_idx =? UNICODE_SCRIPT_Common) || (script_idx =? UNICODE_SCRIPT_Inherited) in
    if is_ext then
      '(r, cr1) ← on_range no_range (script_set script_idx);
      if negb (r =? 0) then script_fail fuel is_ext cr1 no_range else
      '(r, cr2) ← on_range no_range (ext_set script_idx is_common);
      if negb (r =? 0) then script_fail fuel is_ext cr1 cr2 else
      if is_common then
        '(r, cr2) ← on_range cr2 cr_invert;
        if negb (r =? 0) then script_fail fuel is_ext cr1 cr2 else
        r ← cr_op (points cr1) (len cr1) (points cr2) (len cr2) CR_OP_INTER;
        if negb (r =? 0) then script_fail fuel is_ext cr1 cr2 else ret 0
      else
        r ← cr_op (points cr1) (len cr1) (points cr2) (len cr2) CR_OP_UNION;
        if negb (r =? 0) then script_fail fuel is_ext cr1 cr2 else ret 0
    else
      r ← script_set script_idx;
      if negb (r =? 0) then script_fail fuel is_ext no_range no_range else ret 0.
End script.
