(* ===== verification/UniPropFacts.v ===== *)
(** * Unicode properties: the tables, lemmas

    Compressed tables as lists of runs, and the readers of the binary properties,
    of the general categories and of the scripts on them. *)
From S2P Require Import Prelude CStd Words CUtils BigIntMp CharRange CharRangeFacts CharRangeBuild UniTable.
From S2P Require Import UniCase UniProp.

#[local] Open Scope Z_scope.

(** * Run-length tables

    What a compressed table of [libunicode.c] says: consecutive runs of code points
    with a value each. The readers decode the bytes as they go; here the runs are a
    list, with the value a code point has and the intervals a set takes from them. *)

(** ** Runs *)

Section runs.
Context {V : Type}.
Implicit Types rs : list (Z * V).

Definition total rs : Z := foldr (λ r n, r.1 + n) 0 rs.
Definition positive_runs rs : bool := forallb (λ r, 0 <? r.1) rs.

(** The run of [x]: where it begins, where it ends and its value. *)
Fixpoint at_run (c : Z) rs (x : Z) : option (Z * Z * V) :=
  match rs with
  | [] => None
  | (n, v) :: rs => if x <? c + n then Some (c, c + n, v) else at_run (c + n) rs x
  end.

(** The intervals of each run in turn. *)
Fixpoint spread (f : Z → Z → V → list (Z * Z)) (c : Z) rs : list (Z * Z) :=
  match rs with [] => [] | (n, v) :: rs => f c (c + n) v ++ spread f (c + n) rs end.

Lemma total_app rs rs' : total (rs ++ rs') = total rs + total rs'.
Proof. induction rs as [|[n v] rs IH]; [done|]. unfold total in *. cbn. lia. Qed.

Lemma total_nonneg rs : positive_runs rs = true → 0 ≤ total rs.
Proof.
  induction rs as [|[n v] rs IH]; [done|]. unfold positive_runs, total in *. cbn. rewrite andb_true_iff, Z.ltb_lt. intros [Hn Hrs]. specialize (IH Hrs). lia.
Qed.

Lemma spread_app f c rs rs' : spread f c (rs ++ rs') = spread f c rs ++ spread f (c + total rs) rs'.
Proof.
  revert c. induction rs as [|[n v] rs IH]; intros c; cbn [app spread]; [by rewrite Z.add_0_r|]. rewrite IH, <-app_assoc. unfold total. cbn. by rewrite Z.add_assoc.
Qed.

Lemma at_run_app c rs rs' x : positive_runs rs = true → c + total rs ≤ x → at_run c (rs ++ rs') x = at_run (c + total rs) rs' x.
Proof.
  revert c. induction rs as [|[n v] rs IH]; intros c Hp Hx; cbn [app at_run]; [by rewrite Z.add_0_r|].
  unfold positive_runs, total in *. cbn in *. rewrite andb_true_iff, Z.ltb_lt in Hp. destruct Hp as [Hn Hp]. pose proof (total_nonneg rs Hp). unfold total in *.
  rewrite (proj2 (Z.ltb_ge _ _)) by lia. rewrite IH by (done || lia). by rewrite Z.add_assoc.
Qed.

Lemma at_run_none c rs x : positive_runs rs = true → c + total rs ≤ x → at_run c rs x = None.
Proof. intros Hp Hx. rewrite <-(app_nil_r rs). by rewrite at_run_app. Qed.

Lemma at_run_some c rs x : c ≤ x < c + total rs → ∃ r, at_run c rs x = Some r.
Proof.
  revert c. induction rs as [|[n v] rs IH]; intros c Hx; unfold total in *; cbn in *; [lia|]. destruct (Z.ltb_spec x (c + n)); [by eexists|]. apply IH. lia.
Qed.

(** Each run gives intervals that are in order inside it. *)
Definition inside (f : Z → Z → V → list (Z * Z)) : Prop :=
  ∀ c c' v, 0 ≤ c → c < c' → ordered c (f c c' v) ∧ Forall (λ q, q.2 ≤ c') (f c c' v).

Lemma ordered_app from to ivs ivs' : ordered from ivs → Forall (λ q, q.2 ≤ to) ivs → from ≤ to → ordered to ivs' → ordered from (ivs ++ ivs').
Proof.
  revert from. induction ivs as [|[a b] ivs IH]; intros from Hs Hto Hle Hs'; cbn [app].
  - destruct ivs' as [|[a b] ivs']; [done|]. destruct Hs' as (? & ? & ?). split_and!; [lia|done|done].
  - destruct Hs as (H1 & H2 & H3). apply Forall_cons in Hto as [Hb Hto]. split_and!; [done|done|]. by apply IH.
Qed.

Lemma spread_ordered f c rs : inside f → 0 ≤ c → positive_runs rs = true → ordered c (spread f c rs).
Proof.
  intros Hf. revert c. induction rs as [|[n v] rs IH]; intros c Hc Hp; [done|]. cbn [spread]. unfold positive_runs in Hp. cbn in Hp. rewrite andb_true_iff, Z.ltb_lt in Hp.
  destruct Hp as [Hn Hp]. destruct (Hf c (c + n) v Hc ltac:(lia)) as [H1 H2]. apply (ordered_app c (c + n)); [done|done|lia|]. apply IH; [lia|done].
Qed.

(** A code point is in the intervals when it is in those of its run. *)
Lemma spread_covers f c rs x :
  inside f → 0 ≤ c ≤ x → positive_runs rs = true →
  covers (spread f c rs) x ↔ ∃ a b v, at_run c rs x = Some (a, b, v) ∧ covers (f a b v) x.
Proof.
  intros Hf. revert c. induction rs as [|[n v] rs IH]; intros c Hc Hp; cbn [spread at_run].
  - unfold covers. rewrite Exists_nil. split; [done|]. intros (? & ? & ? & ? & _). done.
  - unfold positive_runs in Hp. cbn in Hp. rewrite andb_true_iff, Z.ltb_lt in Hp. destruct Hp as [Hn Hp].
    destruct (Hf c (c + n) v ltac:(lia) ltac:(lia)) as [H1 H2]. unfold covers. rewrite Exists_app. destruct (Z.ltb_spec x (c + n)) as [Hlt|Hge].
    + split.
      * intros [Hin|Hin]; [by exists c, (c + n), v|]. exfalso. pose proof (spread_ordered f (c + n) rs Hf ltac:(lia) Hp) as Hord.
        apply ordered_above, points_Forall in Hord. apply Exists_exists in Hin as (q & Hq & Hx). rewrite Forall_forall in Hord. specialize (Hord q Hq). lia.
      * intros (a & b & w & E & Hin). injection E as <- <- <-. by left.
    + rewrite <-(IH (c + n)) by (done || lia). split; [|by right]. intros [Hin|Hin]; [|done]. exfalso.
      apply Exists_exists in Hin as (q & Hq & Hx). rewrite Forall_forall in H2. specialize (H2 q Hq). cbn in H2. lia.
Qed.

(** A set of values: whole runs. *)
Definition whole (p : V → bool) (c c' : Z) (v : V) : list (Z * Z) := if p v then [(c, c')] else [].

Lemma whole_inside p : inside (whole p).
Proof. intros c c' v _ Hlt. unfold whole. destruct (p v); cbn; [|done]. split; [lia|]. constructor; [cbn; lia|done]. Qed.

(** The value of the run of [x] is in the set. *)
Definition has_value (p : V → bool) (rs : list (Z * V)) (x : Z) : bool :=
  match at_run 0 rs x with Some (_, _, v) => p v | None => false end.

Lemma whole_covers p rs x : 0 ≤ x → positive_runs rs = true → covers (spread (whole p) 0 rs) x ↔ has_value p rs x = true.
Proof.
  intros Hx Hp. rewrite spread_covers by (done || apply whole_inside). unfold has_value, covers, whole. split.
  - intros (a & b & v & -> & Hin). destruct (p v); [done|]. by apply Exists_nil in Hin.
  - destruct (at_run 0 rs x) as [[[a b] v]|] eqn:E; [|done]. intros Hv. exists a, b, v. split; [done|]. rewrite Hv. apply Exists_cons. left. cbn.
    clear -E Hx. revert E Hx. generalize 0 at 1 2. induction rs as [|[n w] rs IH]; intros c; cbn [at_run]; [done|].
    destruct (Z.ltb_spec x (c + n)); [intros [= -> <- _]; lia|]. intros E ?. by apply (IH (c + n)).
Qed.

Lemma spread_bound f c rs : (∀ c c' v, Forall (λ q, q.1 ≤ c' ∧ q.2 ≤ c') (f c c' v)) → positive_runs rs = true → Forall (λ q, q.1 ≤ c + total rs ∧ q.2 ≤ c + total rs) (spread f c rs).
Proof.
  intros Hf. revert c. induction rs as [|[n v] rs IH]; intros c Hp; [constructor|]. cbn [spread]. unfold positive_runs, total in *. cbn in *. rewrite andb_true_iff, Z.ltb_lt in Hp.
  destruct Hp as [Hn Hp]. pose proof (total_nonneg rs Hp) as Ht. unfold total in Ht. apply Forall_app_2.
  - eapply Forall_impl; [apply Hf|]. intros q Hq. cbn in *. lia.
  - eapply Forall_impl; [by apply IH|]. intros q Hq. cbn in *. lia.
Qed.
End runs.

(** * Unicode properties: the binary properties, lemmas

    The runs of a property table, and the two readers on them: the lookup of a code
    point and the intervals of the set. *)

(** ** The runs *)

(** The length of the run that a byte of 64 or more begins, with the bytes after it. *)
Definition long_length (b : Z) (l : list Z) : option (Z * list Z) :=
  if b >=? 0x80 then Some (b - 0x80 + 1, l)
  else if b <? 0x60 then
    match l with p0 :: l => Some (Z.lor (Z.shiftl (b - 0x40) 8) p0 + 1, l) | [] => None end
  else
    match l with p0 :: p1 :: l => Some (Z.lor (Z.lor (Z.shiftl (b - 0x60) 16) (Z.shiftl p0 8)) p1 + 1, l) | _ => None end.

(** The runs of a table are out of the set and in it in turn; [bit] is the first one's. *)
Fixpoint prop_runs (fuel : nat) (bit : bool) (l : list Z) : option (list (Z * bool)) :=
  match fuel, l with
  | _, [] => Some []
  | S fuel, b :: l =>
      if b <? 64 then rs ← prop_runs fuel bit l; Some ((Z.shiftr b 3 + 1, bit) :: (Z.land b 7 + 1, negb bit) :: rs)
      else match long_length b l with
           | Some (n, l) => rs ← prop_runs fuel (negb bit) l; Some ((n, bit) :: rs)
           | None => None
           end
  | O, _ => None
  end%stdpp.

Definition bit_of (b : bool) : Z := if b then 1 else 0.

Lemma bit_negb b : Z.lxor (bit_of b) 1 = bit_of (negb b).
Proof. by destruct b. Qed.

Lemma bit_test b : negb (bit_of b =? 0) = b.
Proof. by destruct b. Qed.

Lemma long_run_run {S} (s : S) pre b l code n l' :
  long_length b l = Some (n, l') → 0 ≤ code + n < 2 ^ 32 →
  ∃ ext, l = ext ++ l' ∧ long_run (pre ++ l) (Z.of_nat (length pre)) b code s = (Ok (Z.of_nat (length (pre ++ ext)), code + n), s).
Proof.
  unfold long_length, long_run. intros Hl Hn. destruct (b >=? 128).
  - injection Hl as <- <-. exists []. split; [done|]. unfold ret. rewrite app_nil_r. by rewrite (wrap_id 32).
  - destruct (b <? 96).
    + destruct l as [|p0 l]; [done|]. injection Hl as <- <-. exists [p0]. split; [done|].
      erewrite bind_run by (apply rd_run; [lia|rewrite Nat2Z.id; by apply list_lookup_middle]). unfold ret. rewrite (wrap_id 32) by done.
      rewrite length_app. cbn [length]. do 3 f_equal. lia.
    + destruct l as [|p0 [|p1 l]]; [done..|]. injection Hl as <- <-. exists [p0; p1]. split; [done|].
      erewrite bind_run by (apply rd_run; [lia|rewrite Nat2Z.id; by apply list_lookup_middle]).
      erewrite bind_run by (apply rd_run; [lia|rewrite lookup_app_r by lia; by replace (Z.to_nat (Z.of_nat (length pre) + 1) - length pre)%nat with 1%nat by lia]).
      unfold ret. rewrite (wrap_id 32) by done. rewrite length_app. cbn [length]. do 3 f_equal. lia.
Qed.

(** ** The lookup in the table *)

Lemma table_loop_run {S} (s : S) fuel fuel' x pre bit l rs code :
  prop_runs fuel' bit l = Some rs → (length l < fuel)%nat → positive_runs rs = true → 0 ≤ code ≤ x → code + total rs < 2 ^ 32 → x < code + total rs →
  loop fuel (table_turn x (pre ++ l)) (Z.of_nat (length pre), code, bit_of bit) s
  = (Ok (match at_run code rs x with Some (_, _, b) => b | None => false end), s).
Proof.
  revert fuel' pre bit l rs code. induction fuel as [|fuel IH]; intros fuel' pre bit l rs code Hrs Hf Hpos Hcode Hlim Hx; [lia|].
  destruct l as [|b l]; [destruct fuel'; cbn in Hrs; injection Hrs as <-; unfold total in Hx; cbn in Hx; lia|].
  destruct fuel' as [|fuel']; [done|]. cbn [prop_runs] in Hrs. cbn [loop]. unfold table_turn at 1. cbv zeta. rewrite bind_bind.
  erewrite bind_run by (apply rd_run; [lia|rewrite Nat2Z.id; by apply list_lookup_middle]). cbn [length] in Hf.
  assert (pre ++ b :: l = (pre ++ [b]) ++ l) as Epre by (by rewrite <-app_assoc). assert (Z.of_nat (length pre) + 1 = Z.of_nat (length (pre ++ [b]))) as Elen by (rewrite length_app; cbn [length]; lia).
  destruct (b <? 64).
  - destruct (prop_runs fuel' bit l) as [rs'|] eqn:Hrs'; [|done]. injection Hrs as <-. unfold positive_runs, total in Hpos, Hlim, Hx. cbn in Hpos, Hlim, Hx.
    rewrite !andb_true_iff, !Z.ltb_lt in Hpos. destruct Hpos as (Hn1 & Hn2 & Hpos). pose proof (total_nonneg rs' Hpos) as Ht. unfold total in Ht. cbn [at_run].
    rewrite !bit_test. assert (u32 (code + (Z.shiftr b 3 + 1)) = code + (Z.shiftr b 3 + 1)) as -> by (apply wrap_id; unfold fits; lia).
    destruct (Z.ltb_spec x (code + (Z.shiftr b 3 + 1))) as [Hlt|Hge]; [by rewrite bind_ret|]. rewrite bit_negb, bit_test.
    assert (u32 (code + (Z.shiftr b 3 + 1) + (Z.land b 7 + 1)) = code + (Z.shiftr b 3 + 1) + (Z.land b 7 + 1)) as -> by (apply wrap_id; unfold fits; lia).
    destruct (Z.ltb_spec x (code + (Z.shiftr b 3 + 1) + (Z.land b 7 + 1))) as [Hlt2|Hge2]; [by rewrite bind_ret|]. rewrite bind_ret, bit_negb, negb_involutive, Epre, Elen.
    apply (IH fuel'); [done|lia|done|lia|unfold total; lia|unfold total; lia].
  - destruct (long_length b l) as [[n l']|] eqn:Hl; [|done]. destruct (prop_runs fuel' (negb bit) l') as [rs'|] eqn:Hrs'; [|done]. injection Hrs as <-.
    unfold positive_runs, total in Hpos, Hlim, Hx. cbn in Hpos, Hlim, Hx. rewrite andb_true_iff, Z.ltb_lt in Hpos. destruct Hpos as [Hn Hpos].
    pose proof (total_nonneg rs' Hpos) as Ht. unfold total in Ht. cbn [at_run].
    destruct (long_run_run s (pre ++ [b]) b l code n l' Hl) as (ext & -> & Erun); [lia|]. rewrite <-Epre, <-Elen in Erun.
    rewrite bind_bind. erewrite bind_run by exact Erun. cbv beta iota zeta. rewrite bit_test. destruct (Z.ltb_spec x (code + n)) as [Hlt|Hge]; [by rewrite bind_ret|].
    rewrite bind_ret, bit_negb, Epre, app_assoc. apply (IH fuel'); [done|rewrite length_app in Hf; lia|done|lia|unfold total; lia|unfold total; lia].
Qed.

(** ** The intervals of the set *)

Section set.
Context `{Realloc}.

Lemma add_if_builds (cond : bool) a b : builds (add_if cond a b) (if cond then [(a, b)] else []).
Proof. destruct cond; [apply builds_one|apply builds_nil]. Qed.

Lemma prop_loop_builds fuel fuel' pre bit l rs c :
  prop_runs fuel' bit l = Some rs → (length l < fuel)%nat → positive_runs rs = true → 0 ≤ c → c + total rs < 2 ^ 32 →
  builds (loop fuel (prop_turn (pre ++ l) (Z.of_nat (length (pre ++ l)))) (Z.of_nat (length pre), c, bit_of bit)) (spread (whole (λ b, b)) c rs).
Proof.
  revert fuel' pre bit l rs c. induction fuel as [|fuel IH]; intros fuel' pre bit l rs c Hrs Hf Hpos Hc Hlim; [lia|].
  destruct l as [|b l].
  { destruct fuel'; cbn in Hrs; injection Hrs as <-; (apply builds_stop; intros s; unfold prop_turn; by rewrite (proj2 (Z.ltb_ge _ _)) by (rewrite app_nil_r; lia)). }
  destruct fuel' as [|fuel']; [done|]. cbn [prop_runs] in Hrs. cbn [length] in Hf.
  assert (pre ++ b :: l = (pre ++ [b]) ++ l) as Epre by (by rewrite <-app_assoc). assert (Z.of_nat (length pre) + 1 = Z.of_nat (length (pre ++ [b]))) as Elen by (rewrite length_app; cbn [length]; lia).
  assert (Z.of_nat (length pre) < Z.of_nat (length (pre ++ b :: l))) as Hend by (rewrite length_app; cbn [length]; lia).
  assert (∀ {B} (k : Z → M cr_mem B) s, (x ← rd (pre ++ b :: l) (Z.of_nat (length pre)); k x) s = k b s) as Hread.
  { intros B k s. by erewrite bind_run by (apply rd_run; [lia|rewrite Nat2Z.id; by apply list_lookup_middle]). }
  destruct (b <? 64) eqn:Hb.
  - destruct (prop_runs fuel' bit l) as [rs'|] eqn:Hrs'; [|done]. injection Hrs as <-. unfold positive_runs, total in Hpos, Hlim. cbn in Hpos, Hlim.
    rewrite !andb_true_iff, !Z.ltb_lt in Hpos. destruct Hpos as (Hn1 & Hn2 & Hpos). pose proof (total_nonneg rs' Hpos) as Ht. unfold total in Ht. cbn [spread].
    assert (u32 (c + (Z.shiftr b 3 + 1)) = c + (Z.shiftr b 3 + 1)) as E1 by (apply wrap_id; unfold fits; lia).
    assert (u32 (c + (Z.shiftr b 3 + 1) + (Z.land b 7 + 1)) = c + (Z.shiftr b 3 + 1) + (Z.land b 7 + 1)) as E2 by (apply wrap_id; unfold fits; lia).
    rewrite app_assoc. eapply (builds_turn fuel _ _
      (r ← add_if bit c (c + (Z.shiftr b 3 + 1)); if negb (r =? 0) then ret (-1) else add_if (negb bit) (c + (Z.shiftr b 3 + 1)) (c + (Z.shiftr b 3 + 1) + (Z.land b 7 + 1)))).
    + intros s. unfold prop_turn. rewrite (proj2 (Z.ltb_lt _ _)) by done. rewrite Hread, Hb. cbv zeta. rewrite E1, E2, !bit_negb, !bit_test, negb_involutive. unfold bind.
      destruct (add_if bit c _ s) as [[r|e] s1]; [|done]. destruct (negb (r =? 0)); [done|]. destruct (add_if (negb bit) _ _ s1) as [[r2|e] s2]; done.
    + apply builds_then; apply add_if_builds.
    + rewrite Epre, Elen. apply (IH fuel'); [done|lia|done|lia|unfold total; lia].
  - destruct (long_length b l) as [[n l']|] eqn:Hl; [|done]. destruct (prop_runs fuel' (negb bit) l') as [rs'|] eqn:Hrs'; [|done]. injection Hrs as <-.
    unfold positive_runs, total in Hpos, Hlim. cbn in Hpos, Hlim. rewrite andb_true_iff, Z.ltb_lt in Hpos. destruct Hpos as [Hn Hpos].
    pose proof (total_nonneg rs' Hpos) as Ht. unfold total in Ht. cbn [spread].
    destruct (long_run_run (S := unit) tt (pre ++ [b]) b l c n l' Hl) as (ext & -> & _); [lia|].
    eapply (builds_turn fuel _ _ (add_if bit c (c + n)) (Z.of_nat (length ((pre ++ [b]) ++ ext)), c + n, bit_of (negb bit))).
    + intros s. unfold prop_turn. rewrite (proj2 (Z.ltb_lt _ _)) by done. rewrite Hread, Hb. cbv zeta.
      destruct (long_run_run s (pre ++ [b]) b (ext ++ l') c n l' Hl) as (ext2 & Eext & Erun); [lia|]. apply app_inv_tail in Eext as <-. rewrite <-Epre, <-Elen in Erun.
      erewrite bind_run by exact Erun. cbv beta iota zeta. by rewrite bit_negb, bit_test.
    + apply add_if_builds.
    + rewrite Epre, app_assoc. apply (IH fuel'); [done|rewrite length_app in Hf; lia|done|lia|unfold total; lia].
Qed.
End set.

(** ** The index *)

Definition le24 (tab : list Z) (i : Z) : Z :=
  let at_ k := nth (Z.to_nat (3 * i) + k) tab 0 in Z.lor (Z.lor (at_ 0%nat) (Z.shiftl (at_ 1%nat) 8)) (Z.shiftl (at_ 2%nat) 16).

Lemma get_le24_run {S} (s : S) tab i : 0 ≤ i → 3 * (i + 1) ≤ Z.of_nat (length tab) → get_le24 tab (i * 3) s = (Ok (le24 tab i), s).
Proof.
  intros Hi Hl. unfold get_le24, le24.
  assert (∀ k : nat, (k < 3)%nat → rd tab (i * 3 + Z.of_nat k) s = (Ok (nth (Z.to_nat (3 * i) + k) tab 0), s)) as Hrd.
  { intros k Hk. apply rd_run; [lia|]. replace (Z.to_nat (i * 3 + Z.of_nat k)) with (Z.to_nat (3 * i) + k)%nat by lia.
    rewrite nth_lookup. destruct (lookup_lt_is_Some_2 tab (Z.to_nat (3 * i) + k)) as [v Hv]; [lia|]. by rewrite Hv. }
  pose proof (Hrd 0%nat ltac:(lia)) as H0. rewrite Z.add_0_r in H0. erewrite bind_run by exact H0.
  erewrite bind_run by exact (Hrd 1%nat ltac:(lia)). by erewrite bind_run by exact (Hrd 2%nat ltac:(lia)).
Qed.

(** The places of a table where a turn of the lookup begins: the byte, the code and the bit. *)
Fixpoint prop_places (fuel : nat) (p c : Z) (bit : bool) (l : list Z) : list (Z * Z * bool) :=
  (p, c, bit) ::
  match fuel, l with
  | S fuel, b :: l =>
      if b <? 64 then prop_places fuel (p + 1) (c + (Z.shiftr b 3 + 1) + (Z.land b 7 + 1)) bit l
      else match long_length b l with
           | Some (n, l') => prop_places fuel (p + 1 + Z.of_nat (length l - length l')) (c + n) (negb bit) l'
           | None => []
           end
  | _, _ => []
  end.

Lemma long_length_suffix b l n l' : long_length b l = Some (n, l') → ∃ ext, l = ext ++ l'.
Proof.
  unfold long_length. destruct (b >=? 128); [intros [= <- <-]; by exists []|]. destruct (b <? 96).
  - destruct l as [|p0 l]; [done|]. intros [= <- <-]. by exists [p0].
  - destruct l as [|p0 [|p1 l]]; [done..|]. intros [= <- <-]. by exists [p0; p1].
Qed.

Lemma place_split fuel p c bit l rs q d b' :
  prop_runs fuel bit l = Some rs → (q, d, b') ∈ prop_places fuel p c bit l →
  ∃ pre l' rs1 rs2 fuel', l = pre ++ l' ∧ q = p + Z.of_nat (length pre) ∧ rs = rs1 ++ rs2 ∧ d = c + total rs1 ∧ prop_runs fuel' b' l' = Some rs2.
Proof.
  revert p c bit l rs. induction fuel as [|fuel IH]; intros p c bit l rs Hrs Hin; cbn [prop_places] in Hin.
  - apply elem_of_cons in Hin as [[= -> -> ->]|Hin]; [|by apply elem_of_nil in Hin]. exists [], l, [], rs, 0%nat. unfold total. cbn. split_and!; [done|lia|done|lia|done].
  - apply elem_of_cons in Hin as [[= -> -> ->]|Hin]; [exists [], l, [], rs, (S fuel); unfold total; cbn; split_and!; [done|lia|done|lia|done]|].
    destruct l as [|b l]; [by apply elem_of_nil in Hin|]. cbn [prop_runs] in Hrs. destruct (b <? 64).
    + destruct (prop_runs fuel bit l) as [rs'|] eqn:Hrs'; [|done]. injection Hrs as <-.
      destruct (IH _ _ _ _ _ Hrs' Hin) as (pre & l' & rs1 & rs2 & fuel' & -> & -> & -> & -> & Hr).
      exists (b :: pre), l', ((Z.shiftr b 3 + 1, bit) :: (Z.land b 7 + 1, negb bit) :: rs1), rs2, fuel'. unfold total. cbn. split_and!; [done|lia|done|lia|done].
    + destruct (long_length b l) as [[n l1]|] eqn:Hl; [|by apply elem_of_nil in Hin]. destruct (prop_runs fuel (negb bit) l1) as [rs'|] eqn:Hrs'; [|done]. injection Hrs as <-.
      destruct (long_length_suffix b l n l1 Hl) as (ext & ->).
      destruct (IH _ _ _ _ _ Hrs' Hin) as (pre & l' & rs1 & rs2 & fuel' & -> & -> & -> & -> & Hr).
      exists (b :: ext ++ pre), l', ((n, bit) :: rs1), rs2, fuel'. unfold total. cbn. rewrite !length_app. split_and!; [by rewrite <-app_assoc|lia|done|lia|done].
Qed.

Definition prop_table_runs (table : list Z) : list (Z * bool) := default [] (prop_runs (S (length table)) false table).
Definition table_places (table : list Z) : list (Z * Z * bool) := prop_places (S (length table)) 0 0 false table.

(** A table that can be read to its end. *)
Definition table_ok (table : list Z) : bool :=
  match prop_runs (S (length table)) false table with
  | Some rs => positive_runs rs && (total rs <? 2 ^ 32)
  | None => false
  end.

(** An index agrees with its table: each entry but the last is a place outside
    the set, and the last one is the end of the set. *)
Definition index_ok (table index : list Z) : bool :=
  let n := index_len index in
  let places := table_places table in
  let last := le24 index (n - 1) in
  table_ok table && (1 <=? n) && (3 * n =? Z.of_nat (length index)) && (index_code last =? last) && (index_code (le24 index 0) <=? last) &&
  forallb (λ i, existsb (λ '(p, c, b), (p =? (i + 1) * UNICODE_INDEX_BLOCK_LEN + Z.shiftr (le24 index i) 21) && (c =? index_code (le24 index i)) && negb b) places) (seqZ 0 (n - 1)) &&
  (last <=? total (prop_table_runs table)) && forallb (λ q, q.2 <=? last) (spread (whole (λ b, b)) 0 (prop_table_runs table)).

(** The code point is in the set of the table. *)
Definition prop_has (table : list Z) (x : Z) : bool := has_value (λ b, b) (prop_table_runs table) x.

Lemma table_ok_runs table : table_ok table = true →
  prop_runs (S (length table)) false table = Some (prop_table_runs table) ∧ positive_runs (prop_table_runs table) = true ∧ total (prop_table_runs table) < 2 ^ 32.
Proof.
  unfold table_ok, prop_table_runs. destruct (prop_runs (S (length table)) false table) as [rs|]; [|done]. rewrite andb_true_iff, Z.ltb_lt. cbn. done.
Qed.

Lemma index_loop_run {S} (s : S) fuel x index lo hi :
  0 ≤ lo < hi → 3 * (hi + 1) ≤ Z.of_nat (length index) → index_code (le24 index lo) ≤ x → (Z.to_nat (hi - lo) < fuel)%nat →
  ∃ i, loop fuel (index_turn x index) (lo, hi) s = (Ok i, s) ∧ 0 ≤ i < hi ∧ index_code (le24 index i) ≤ x.
Proof.
  revert lo hi. induction fuel as [|fuel IH]; intros lo hi Hlo Hhi Hx Hf; [lia|]. cbn [loop]. unfold index_turn at 1. rewrite Z.gtb_ltb.
  destruct (Z.ltb_spec 1 (hi - lo)) as [Hlt|Hge]; [|rewrite bind_ret; exists lo; split_and!; [done|lia|lia|done]].
  set (mid := (hi + lo) / 2). assert (lo < mid < hi) as Hmid by (unfold mid; pose proof (Z.div_mod (hi + lo) 2); pose proof (Z.mod_pos_bound (hi + lo) 2); lia). clearbody mid.
  cbv zeta. rewrite bind_bind. erewrite bind_run by (apply get_le24_run; lia). rewrite bind_ret. destruct (Z.ltb_spec x (index_code (le24 index mid))) as [Hlt2|Hge2].
  - destruct (IH lo mid) as (i & E & Hi & Hc); [lia|lia|done|lia|]. exists i. split_and!; [exact E|lia|lia|done].
  - destruct (IH mid hi) as (i & E & Hi & Hc); [lia|lia|done|lia|]. exists i. split_and!; [exact E|lia|lia|done].
Qed.

Lemma lre_is_in_table_run {S} (s : S) table index x :
  index_ok table index = true → 0 ≤ x → lre_is_in_table x table index (index_len index) s = (Ok (prop_has table x), s).
Proof.
  unfold index_ok. cbv zeta. rewrite !andb_true_iff, !Z.leb_le, !Z.eqb_eq, !forallb_forall. intros (((((((Hok & Hn) & Hlen) & Hlast) & Hfirst) & Hplaces) & Htotal) & Hend) Hx.
  destruct (table_ok_runs table Hok) as (Hruns & Hpos & Hlim). set (n := index_len index) in *. set (last := le24 index (n - 1)) in *.
  assert (∃ o, get_index_pos x index n s = (Ok o, s) ∧
    match o with None => last ≤ x | Some (code, pos) => x < last ∧ code ≤ x ∧ (pos, code, false) ∈ table_places table end) as (o & Eo & Ho).
  { unfold get_index_pos. erewrite bind_run by (apply (get_le24_run s index 0); lia). destruct (Z.ltb_spec x (index_code (le24 index 0))) as [Hlt|Hge].
    - exists (Some (0, 0)). split; [done|]. split_and!; [lia|done|left].
    - erewrite bind_run by (apply get_le24_run; lia). fold last. rewrite Z.geb_leb. destruct (Z.leb_spec last x) as [Hout|Hin]; [by exists None|].
      destruct (index_loop_run s (Datatypes.S (Z.to_nat n)) x index 0 (n - 1)) as (i & E & Hi & Hc); [|lia|done|lia|].
      { split; [lia|]. destruct (decide (n = 1)) as [Hn1|]; [|lia]. exfalso. unfold last in *. rewrite Hn1 in Hin, Hlast. change (1 - 1) with 0 in *. lia. }
      erewrite bind_run by exact E. erewrite bind_run by (apply get_le24_run; lia). eexists. split; [reflexivity|]. cbv iota. split_and!; [done|done|].
      specialize (Hplaces i ltac:(apply list_elem_of_In, elem_of_seqZ; lia)). apply existsb_exists in Hplaces as ([[p c] b] & Hin2 & Hb).
      rewrite !andb_true_iff, !Z.eqb_eq in Hb. destruct Hb as [[-> ->] Hb]. apply list_elem_of_In in Hin2. by destruct b. }
  unfold lre_is_in_table. erewrite bind_run by exact Eo. destruct o as [[code pos]|].
  - destruct Ho as (Hlt & Hcode & Hplace). destruct (place_split _ _ _ _ _ _ _ _ _ Hruns Hplace) as (pre & l' & rs1 & rs2 & fuel' & Etab & -> & Ers & Ec & Hrs2).
    rewrite Ers in Hpos, Hlim, Htotal. unfold positive_runs in Hpos. rewrite forallb_app, andb_true_iff in Hpos. destruct Hpos as [Hpos1 Hpos2].
    rewrite total_app in Hlim, Htotal. pose proof (total_nonneg rs1 Hpos1). pose proof (total_nonneg rs2 Hpos2).
    unfold prop_has, has_value. rewrite Ers, at_run_app by (done || lia). rewrite <-Ec, Etab.
    apply (table_loop_run s _ fuel' x pre false l' rs2); [done|rewrite length_app; lia|done|lia|lia|lia].
  - unfold ret. f_equal. f_equal. destruct (prop_has table x) eqn:Hhas; [|done]. exfalso. apply (whole_covers _ _ x Hx Hpos) in Hhas.
    apply Exists_exists in Hhas as (q & Hq & Hxq). apply list_elem_of_In in Hq. specialize (Hend q Hq). apply Z.leb_le in Hend. lia.
Qed.

(** ** The tables of the library *)

Lemma indexes_agree :
  index_ok unicode_prop_Cased1_table unicode_prop_Cased1_index = true ∧
  index_ok unicode_prop_Case_Ignorable_table unicode_prop_Case_Ignorable_index = true ∧
  index_ok unicode_prop_ID_Start_table unicode_prop_ID_Start_index = true ∧
  index_ok unicode_prop_ID_Continue1_table unicode_prop_ID_Continue1_index = true ∧
  index_ok unicode_prop_White_Space_table unicode_prop_White_Space_index = true.
Proof. split_and!; vm_compute; reflexivity. Qed.

Lemma prop_tables_ok : forallb table_ok unicode_prop_table = true.
Proof. vm_compute. reflexivity. Qed.

(** * Unicode general categories and scripts: lemmas

    The runs of the three tables that give each run a value, and the intervals
    their readers take from them. *)

(** ** Decoders *)

(** How many code points a run has less one, its first byte giving [n]: the byte
    itself under [lim], or with the next byte under [lim2], or with the next two. *)
Definition run_length (n lim lim2 big : Z) (l : list Z) : option (Z * list Z) :=
  if n <? lim then Some (n, l)
  else if n <? lim2 then
    match l with p0 :: l => Some (Z.lor (Z.shiftl (n - lim) 8) p0 + lim, l) | [] => None end
  else
    match l with p0 :: p1 :: l => Some (Z.lor (Z.lor (Z.shiftl (n - lim2) 16) (Z.shiftl p0 8)) p1 + big, l) | _ => None end.

Lemma run_length_suffix n lim lim2 big l m l' : run_length n lim lim2 big l = Some (m, l') → ∃ ext, l = ext ++ l'.
Proof.
  unfold run_length. destruct (n <? lim); [intros [= <- <-]; by exists []|]. destruct (n <? lim2).
  - destruct l as [|p0 l]; [done|]. intros [= <- <-]. by exists [p0].
  - destruct l as [|p0 [|p1 l]]; [done..|]. intros [= <- <-]. by exists [p0; p1].
Qed.

(** The runs of a table, each one decoded from the bytes that are left. *)
Fixpoint decode_runs {V} (decode : list Z → option (Z * V * list Z)) (fuel : nat) (l : list Z) : option (list (Z * V)) :=
  match l, fuel with
  | [], _ => Some []
  | _, S fuel =>
      match decode l with
      | Some (n, v, l') => match decode_runs decode fuel l' with Some rs => Some ((n, v) :: rs) | None => None end
      | None => None
      end
  | _, O => None
  end.

(** A reader that takes the runs of [table] one by one and adds the intervals [f] of each. *)
Lemma runs_loop_builds `{Realloc} {V} (decode : list Z → option (Z * V * list Z)) f table (turn : Z * Z → M cr_mem (Z * Z + Z)) fuel fuel' pre l rs c lim :
  (∀ pre l n v l' c, table = pre ++ l → l ≠ [] → decode l = Some (n, v, l') → 0 ≤ c → 0 < n → c + n ≤ lim →
    ∃ m ext, l = ext ++ l' ∧ ext ≠ [] ∧ builds m (f c (c + n) v) ∧
      ∀ s, turn (Z.of_nat (length pre), c) s = (r ← m; ret (if negb (r =? 0) then inr (-1) else inl (Z.of_nat (length (pre ++ ext)), c + n))) s) →
  (∀ c s, turn (Z.of_nat (length table), c) s = (Ok (inr 0), s)) →
  table = pre ++ l → decode_runs decode fuel' l = Some rs → (length l < fuel)%nat → positive_runs rs = true → 0 ≤ c → c + total rs ≤ lim →
  builds (loop fuel turn (Z.of_nat (length pre), c)) (spread f c rs).
Proof.
  intros Hturn Hstop. revert fuel' pre l rs c. induction fuel as [|fuel IH]; intros fuel' pre l rs c Htab Hrs Hf Hpos Hc Hlim; [lia|].
  destruct (decide (l = [])) as [->|Hne].
  { destruct fuel'; cbn in Hrs; injection Hrs as <-; (apply builds_stop; intros s; rewrite app_nil_r in Htab; subst pre; apply Hstop). }
  destruct fuel' as [|fuel']; [by destruct l|]. assert (match decode l with
      | Some (n, v, l') => match decode_runs decode fuel' l' with Some rs => Some ((n, v) :: rs) | None => None end
      | None => None end = Some rs) as Hrs' by (by destruct l). clear Hrs.
  destruct (decode l) as [[[n v] l']|] eqn:Hd; [|done]. destruct (decode_runs decode fuel' l') as [rs'|] eqn:Hr; [|done]. injection Hrs' as <-.
  unfold positive_runs, total in Hpos, Hlim. cbn in Hpos, Hlim. rewrite andb_true_iff, Z.ltb_lt in Hpos. destruct Hpos as [Hn Hpos].
  pose proof (total_nonneg rs' Hpos) as Ht. unfold total in Ht.
  destruct (Hturn pre l n v l' c Htab Hne Hd Hc Hn ltac:(lia)) as (m & ext & -> & Hext & Hm & Eturn). cbn [spread].
  eapply (builds_turn fuel _ _ m (Z.of_nat (length (pre ++ ext)), c + n)); [exact Eturn|exact Hm|].
  apply (IH fuel' (pre ++ ext) l' rs' (c + n)); [by rewrite <-app_assoc|done| |done|lia|unfold total; lia].
  rewrite length_app in Hf. destruct ext; [done|]. cbn in Hf. lia.
Qed.

(** Reads of the bytes that are left. *)
Lemma rd_here {S} (s : S) pre b l : rd (pre ++ b :: l) (Z.of_nat (length pre)) s = (Ok b, s).
Proof. apply rd_run; [lia|]. rewrite Nat2Z.id. by apply list_lookup_middle. Qed.

Lemma rd_next {S} (s : S) pre b b' l i : i = Z.of_nat (length pre) + 1 → rd (pre ++ b :: b' :: l) i s = (Ok b', s).
Proof.
  intros ->. replace (Z.of_nat (length pre) + 1) with (Z.of_nat (length (pre ++ [b]))) by (rewrite length_app; cbn; lia).
  replace (pre ++ b :: b' :: l) with ((pre ++ [b]) ++ b' :: l) by (by rewrite <-app_assoc). apply rd_here.
Qed.

(** ** General categories *)

Definition gc_decode (l : list Z) : option (Z * Z * list Z) :=
  match l with
  | [] => None
  | b :: l =>
      let v := Z.land b 0x1f in
      if Z.shiftr b 5 =? 7 then
        match l with
        | n :: l => match run_length n 128 (128 + 64) (128 + Z.shiftl 1 14) l with Some (m, l') => Some (m + 7 + 1, v, l') | None => None end
        | [] => None
        end
      else Some (Z.shiftr b 5 + 1, v, l)
  end.

(** [for(; c0 < c; c0 += 2)] *)
Fixpoint by_two (fuel : nat) (c0 c : Z) : list (Z * Z) :=
  match fuel with O => [] | S fuel => if c0 <? c then (c0, c0 + 1) :: by_two fuel (c0 + 2) c else [] end.

Definition gc_spread (gc_mask c0 c v : Z) : list (Z * Z) :=
  if v =? 31 then
    let b := Z.land gc_mask 6 in
    if b =? 0 then [] else if b =? 6 then [(c0, c)]
    else by_two (Z.to_nat (c - c0)) (c0 + Z.b2z (negb (Z.land gc_mask 4 =? 0))) c
  else if Z.testbit gc_mask v then [(c0, c)] else [].

(** The category of a code point: the runs of value 31 are upper and lower case letters in turn. *)
Definition category_in (a v x : Z) : Z := if v =? 31 then (if Z.even (x - a) then gc_code UNICODE_GC_Lu else gc_code UNICODE_GC_Ll) else v.

Lemma by_two_inside fuel c0 c : ordered c0 (by_two fuel c0 c) ∧ Forall (λ q, q.2 ≤ c) (by_two fuel c0 c).
Proof.
  revert c0. induction fuel as [|fuel IH]; intros c0; cbn [by_two]; [done|]. destruct (Z.ltb_spec c0 c) as [Hlt|]; [|done].
  destruct (IH (c0 + 2)) as [H1 H2]. split.
  - cbn. split_and!; [lia|lia|]. destruct (by_two fuel (c0 + 2) c) as [|[a b] ivs]; [done|]. destruct H1 as (? & ? & ?). cbn. split_and!; [lia|done|done].
  - constructor; [cbn; lia|done].
Qed.

Lemma by_two_covers fuel c0 c x : (Z.to_nat (c - c0) ≤ fuel)%nat → covers (by_two fuel c0 c) x ↔ c0 ≤ x < c ∧ Z.even (x - c0) = true.
Proof.
  unfold covers. revert c0. induction fuel as [|fuel IH]; intros c0 Hf; cbn [by_two]; [rewrite Exists_nil; split; [done|lia]|].
  destruct (Z.ltb_spec c0 c) as [Hlt|Hge]; [|rewrite Exists_nil; split; [done|lia]]. rewrite Exists_cons, IH by lia. cbn [fst snd].
  replace (x - c0) with (x - (c0 + 2) + 2 * 1) by lia. rewrite Z.even_add_mul_2. split.
  - intros [Hx|[Hx He]]; [split; [lia|]|split; [lia|done]]. assert (x = c0) as -> by lia. by replace (c0 - (c0 + 2)) with (-2) by lia.
  - intros [Hx He]. destruct (decide (x = c0)) as [->|]; [left; lia|]. destruct (decide (x = c0 + 1)) as [->|]; [|right; split; [lia|done]].
    replace (c0 + 1 - (c0 + 2)) with (-1) in He by lia. done.
Qed.

Lemma gc_spread_inside m : inside (gc_spread m).
Proof.
  intros c c' v Hc Hlt. unfold gc_spread. assert (ordered c [(c, c')] ∧ Forall (λ q, q.2 ≤ c') [(c, c')]) as Hone by (split; [cbn; lia|constructor; [cbn; lia|done]]).
  destruct (v =? 31); [|by destruct (Z.testbit m v)]. cbv zeta. destruct (_ =? 0); [done|]. destruct (_ =? 6); [done|].
  destruct (by_two_inside (Z.to_nat (c' - c)) (c + Z.b2z (negb (Z.land m 4 =? 0))) c') as [H1 H2]. split; [|done].
  destruct (by_two _ _ _) as [|[a b] ivs]; [done|]. destruct H1 as (? & ? & ?). cbn. split_and!; [|done|done]. destruct (negb _); cbn in *; lia.
Qed.

Lemma land_6 m : Z.land m 6 = 2 * Z.b2z (Z.testbit m 1) + 4 * Z.b2z (Z.testbit m 2) ∧ Z.land m 4 = 4 * Z.b2z (Z.testbit m 2).
Proof.
  assert (Z.land m 6 = Z.land (Z.land m 7) 6) as -> by (by rewrite <-Z.land_assoc). assert (Z.land m 4 = Z.land (Z.land m 7) 4) as -> by (by rewrite <-Z.land_assoc).
  assert (Z.testbit m 1 = Z.testbit (Z.land m 7) 1) as -> by (rewrite Z.land_spec; cbn; by rewrite andb_true_r).
  assert (Z.testbit m 2 = Z.testbit (Z.land m 7) 2) as -> by (rewrite Z.land_spec; cbn; by rewrite andb_true_r).
  rewrite (land_ones' m 3 7) by done. pose proof (Z.mod_pos_bound m (2 ^ 3) ltac:(lia)) as Hm. change (2 ^ 3) with 8 in *. set (r := m mod 8) in *. clearbody r.
  assert (r = 0 ∨ r = 1 ∨ r = 2 ∨ r = 3 ∨ r = 4 ∨ r = 5 ∨ r = 6 ∨ r = 7) as Hr by lia.
  destruct Hr as [->|[->|[->|[->|[->|[->|[->| ->]]]]]]]; done.
Qed.

Lemma gc_spread_covers m a b v x : a ≤ x < b → covers (gc_spread m a b v) x ↔ Z.testbit m (category_in a v x) = true.
Proof.
  intros Hx. unfold gc_spread, category_in, covers. assert (∀ ivs : list (Z * Z), ivs = [(a, b)] → Exists (λ q, q.1 ≤ x < q.2) ivs) as Hone by (intros ? ->; left; cbn; lia).
  destruct (Z.eqb_spec v 31) as [->|Hv].
  - cbv zeta. destruct (land_6 m) as [E6 E4]. rewrite E6, E4. change (gc_code UNICODE_GC_Lu) with 1. change (gc_code UNICODE_GC_Ll) with 2.
    assert (∀ c0, a ≤ c0 → Exists (λ q : Z * Z, q.1 ≤ x < q.2) (by_two (Z.to_nat (b - a)) c0 b) ↔ c0 ≤ x < b ∧ Z.even (x - c0) = true) as Htwo by (intros; apply by_two_covers; lia).
    destruct (Z.testbit m 1) eqn:T1, (Z.testbit m 2) eqn:T2; cbn [Z.b2z].
    + change (2 * 1 + 4 * 1 =? 0) with false. change (2 * 1 + 4 * 1 =? 6) with true. cbv iota. split; [|by intros; apply Hone]. by destruct (Z.even (x - a)).
    + change (2 * 1 + 4 * 0 =? 0) with false. change (2 * 1 + 4 * 0 =? 6) with false. change (negb (4 * 0 =? 0)) with false. cbn [Z.b2z].
      rewrite Z.add_0_r, Htwo by lia. destruct (Z.even (x - a)); split; [done|intros; split; [lia|done]|by intros [_ ?]|congruence].
    + change (2 * 0 + 4 * 1 =? 0) with false. change (2 * 0 + 4 * 1 =? 6) with false. change (negb (4 * 1 =? 0)) with true. cbn [Z.b2z].
      rewrite Htwo by lia. replace (x - (a + 1)) with (Z.pred (x - a)) by lia. rewrite Z.even_pred, <-Z.negb_even.
      destruct (Z.even (x - a)) eqn:He; cbn [negb]; split; [by intros [_ ?]|congruence|done|]. intros _. split; [|done].
      destruct (decide (x = a)) as [->|]; [by rewrite Z.sub_diag in He|lia].
    + change (2 * 0 + 4 * 0 =? 0) with true. cbv iota. rewrite Exists_nil. split; [done|]. destruct (Z.even (x - a)); congruence.
  - destruct (Z.testbit m v); [split; [done|by intros; apply Hone]|]. rewrite Exists_nil. done.
Qed.

Section gc.
Context `{Realloc}.

Lemma by_two_builds fuel c0 c :
  0 ≤ c0 → c + 2 < 2 ^ 32 → (Z.to_nat (c - c0) ≤ fuel)%nat → builds (loop (S fuel) (by_two_turn c) c0) (by_two fuel c0 c).
Proof.
  revert c0. induction fuel as [|fuel IH]; intros c0 Hc0 Hc Hf.
  - apply builds_stop. intros s. unfold by_two_turn. by rewrite (proj2 (Z.ltb_ge _ _)) by lia.
  - cbn [by_two]. destruct (Z.ltb_spec c0 c) as [Hlt|Hge].
    + apply (builds_turn (S fuel) _ c0 (cr_add_interval c0 (c0 + 1)) (c0 + 2) [_]); [|apply builds_one|apply IH; lia].
      intros s. unfold by_two_turn. rewrite (proj2 (Z.ltb_lt _ _)) by lia.
      assert (u32 (c0 + 1) = c0 + 1) as -> by (apply wrap_id; unfold fits; lia). by assert (u32 (c0 + 2) = c0 + 2) as -> by (apply wrap_id; unfold fits; lia).
    + apply builds_stop. intros s. unfold by_two_turn. by rewrite (proj2 (Z.ltb_ge _ _)) by lia.
Qed.

Lemma gc_intervals_builds m v c c' : 0 ≤ c < c' → c' + 2 < 2 ^ 32 → builds (gc_intervals m v c c') (gc_spread m c c' v).
Proof.
  intros Hc Hlim. unfold gc_intervals, gc_spread. change (gc_mask_of [UNICODE_GC_Lu; UNICODE_GC_Ll]) with 6. change (gc_mask_of [UNICODE_GC_Ll]) with 4. cbv zeta.
  destruct (v =? 31); [|apply add_if_builds]. destruct (_ =? 0); [apply builds_nil|]. destruct (_ =? 6); [apply builds_one|].
  apply by_two_builds; destruct (negb (Z.land m 4 =? 0)); cbn [Z.b2z]; lia.
Qed.

Lemma gc_turn_step pre l n v l' c m :
  unicode_gc_table = pre ++ l → l ≠ [] → gc_decode l = Some (n, v, l') → 0 ≤ c → 0 < n → c + n ≤ 2 ^ 31 →
  ∃ k ext, l = ext ++ l' ∧ ext ≠ [] ∧ builds k (gc_spread m c (c + n) v) ∧
    ∀ s, gc_turn m (Z.of_nat (length pre), c) s = (r ← k; ret (if negb (r =? 0) then inr (-1) else inl (Z.of_nat (length (pre ++ ext)), c + n))) s.
Proof.
  intros Htab Hne Hd Hc Hn Hlim. destruct l as [|b l]; [done|]. cbn [gc_decode] in Hd.
  assert (∃ ext, l = ext ++ l' ∧ v = Z.land b 31 ∧ ∀ s, gc_run (Z.of_nat (length pre) + 1) b s = (Ok (Z.of_nat (length (pre ++ b :: ext)), n - 1), s)) as (ext & -> & -> & Erun).
  { unfold gc_run. rewrite Htab. assert (Z.of_nat (length pre) + 1 = Z.of_nat (length (pre ++ [b]))) as -> by (rewrite length_app; cbn; lia).
    replace (pre ++ b :: l) with ((pre ++ [b]) ++ l) by (by rewrite <-app_assoc). destruct (Z.shiftr b 5 =? 7).
    - destruct l as [|n0 l]; [done|]. unfold run_length in Hd. change (128 + 64) with 192 in *. destruct (n0 <? 128) eqn:L1; [|destruct (n0 <? 192) eqn:L2; [|]].
      + injection Hd as <- <- <-. exists [n0]. split_and!; [done|done|]. intros s. erewrite bind_run by apply rd_here. rewrite L1. unfold ret. do 3 f_equal; [rewrite !length_app; cbn; lia|lia].
      + destruct l as [|p0 l]; [done|]. injection Hd as <- <- <-. exists [n0; p0]. split_and!; [done|done|]. intros s. erewrite bind_run by apply rd_here. rewrite L1, L2.
        erewrite bind_run by (by apply rd_next). unfold ret. do 3 f_equal; [rewrite !length_app; cbn; lia|lia].
      + destruct l as [|p0 [|p1 l]]; [done..|]. injection Hd as <- <- <-. exists [n0; p0; p1]. split_and!; [done|done|]. intros s. erewrite bind_run by apply rd_here. rewrite L1, L2.
        erewrite bind_run by (by apply rd_next). erewrite bind_run.
        2:{ replace ((pre ++ [b]) ++ n0 :: p0 :: p1 :: l) with (((pre ++ [b]) ++ [n0]) ++ p0 :: p1 :: l) by (by rewrite <-!app_assoc). apply rd_next. rewrite !length_app. cbn. lia. }
        replace (n0 - 128 - 64) with (n0 - 192) by lia. unfold ret. do 3 f_equal; [rewrite !length_app; cbn; lia|lia].
    - injection Hd as <- <- <-. exists []. split_and!; [done|done|]. intros s. by replace (Z.shiftr b 5 + 1 - 1) with (Z.shiftr b 5) by lia. }
  exists (gc_intervals m (Z.land b 31) c (c + n)), (b :: ext). split_and!; [done|done|apply gc_intervals_builds; lia|].
  intros s. unfold gc_turn. rewrite (proj2 (Z.ltb_lt _ _)) by (rewrite Htab, length_app; cbn; lia). erewrite bind_run by (rewrite Htab; apply rd_here).
  erewrite bind_run by apply Erun. cbv beta iota zeta. replace (c + (n - 1) + 1) with (c + n) by lia.
  by assert (u32 (c + n) = c + n) as -> by (apply wrap_id; unfold fits; lia).
Qed.
End gc.

Definition gc_runs : list (Z * Z) := default [] (decode_runs gc_decode (S (length unicode_gc_table)) unicode_gc_table).

Lemma gc_runs_ok :
  decode_runs gc_decode (S (length unicode_gc_table)) unicode_gc_table = Some gc_runs ∧ positive_runs gc_runs = true ∧ total gc_runs = 0x110000.
Proof. split_and!; vm_compute; reflexivity. Qed.

Lemma general_category1_builds `{Realloc} m : builds (unicode_general_category1 m) (spread (gc_spread m) 0 gc_runs).
Proof.
  destruct gc_runs_ok as (Hd & Hp & Ht). apply (runs_loop_builds gc_decode (gc_spread m) unicode_gc_table (gc_turn m) _ (S (length unicode_gc_table)) [] unicode_gc_table gc_runs 0 (2 ^ 31)); [| |done|done|lia|done|lia|].
  - intros. by apply gc_turn_step.
  - intros c s. unfold gc_turn. by rewrite (proj2 (Z.ltb_ge _ _)) by lia.
  - rewrite Ht. lia.
Qed.

(** The general category of a code point, as its number. *)
Definition category (x : Z) : option Z := match at_run 0 gc_runs x with Some (a, _, v) => Some (category_in a v x) | None => None end.
Definition gc_has (m x : Z) : bool := match category x with Some g => Z.testbit m g | None => false end.

Lemma at_run_range {V} c (rs : list (Z * V)) x a b v : positive_runs rs = true → c ≤ x → at_run c rs x = Some (a, b, v) → a ≤ x < b.
Proof.
  revert c. induction rs as [|[n w] rs IH]; intros c Hp Hx E; cbn [at_run] in E; [done|]. unfold positive_runs in Hp. cbn in Hp. rewrite andb_true_iff in Hp.
  destruct (Z.ltb_spec x (c + n)); [injection E as <- <- _; lia|]. apply (IH (c + n)); [apply Hp|lia|done].
Qed.

Lemma gc_covers m x : 0 ≤ x → covers (spread (gc_spread m) 0 gc_runs) x ↔ gc_has m x = true.
Proof.
  intros Hx. destruct gc_runs_ok as (_ & Hp & _). rewrite (spread_covers _ 0 gc_runs x (gc_spread_inside m) (conj (Z.le_refl 0) Hx) Hp). unfold gc_has, category. split.
  - intros (a & b & v & E & Hc). rewrite E. pose proof (at_run_range 0 gc_runs x a b v Hp Hx E). by apply gc_spread_covers in Hc.
  - destruct (at_run 0 gc_runs x) as [[[a b] v]|] eqn:E; [|done]. intros Hm. exists a, b, v. split; [done|].
    pose proof (at_run_range 0 gc_runs x a b v Hp Hx E). by apply gc_spread_covers.
Qed.

(** ** Scripts *)

Definition script_decode (l : list Z) : option (Z * Z * list Z) :=
  match l with
  | [] => None
  | b :: l =>
      match run_length (Z.land b 0x7f) 96 112 (96 + Z.shiftl 1 12) l with
      | Some (n, l) =>
          if Z.shiftr b 7 =? 0 then Some (n + 1, 0, l) else match l with v :: l => Some (n + 1, v, l) | [] => None end
      | None => None
      end
  end.

(** The value of a run of the extensions is the list of the scripts. *)
Definition ext_decode (l : list Z) : option (Z * list Z * list Z) :=
  match l with
  | [] => None
  | b :: l =>
      match run_length b 128 (128 + 64) (128 + Z.shiftl 1 14) l with
      | Some (n, v_len :: l) =>
          if (0 <=? v_len) && (Z.to_nat v_len <=? length l)%nat then Some (n + 1, take (Z.to_nat v_len) l, drop (Z.to_nat v_len) l) else None
      | _ => None
      end
  end.

Section scripts.
Context `{Realloc}.

Lemma script_run_run {S} (run : Z → Z → M S (Z * Z)) pre n lim lim2 big l m l' s :
  run_length n lim lim2 big l = Some (m, l') →
  (∀ p s, run p n s = (if n <? lim then ret (p, n)
     else if n <? lim2 then p0 ← rd (pre ++ l) p; ret (p + 1, Z.lor (Z.shiftl (n - lim) 8) p0 + lim)
     else p0 ← rd (pre ++ l) p; p1 ← rd (pre ++ l) (p + 1); ret (p + 2, Z.lor (Z.lor (Z.shiftl (n - lim2) 16) (Z.shiftl p0 8)) p1 + big)) s) →
  ∃ ext, l = ext ++ l' ∧ run (Z.of_nat (length pre)) n s = (Ok (Z.of_nat (length (pre ++ ext)), m), s).
Proof.
  intros Hl Hrun. unfold run_length in Hl. rewrite Hrun. destruct (n <? lim); [|destruct (n <? lim2)].
  - injection Hl as <- <-. exists []. by rewrite app_nil_r.
  - destruct l as [|p0 l]; [done|]. injection Hl as <- <-. exists [p0]. split; [done|]. erewrite bind_run by apply rd_here. unfold ret. do 3 f_equal. rewrite length_app. cbn. lia.
  - destruct l as [|p0 [|p1 l]]; [done..|]. injection Hl as <- <-. exists [p0; p1]. split; [done|]. erewrite bind_run by apply rd_here. erewrite bind_run by (by apply rd_next).
    unfold ret. do 3 f_equal. rewrite length_app. cbn. lia.
Qed.

Lemma script_turn_step pre l n v l' c idx :
  unicode_script_table = pre ++ l → l ≠ [] → script_decode l = Some (n, v, l') → 0 ≤ c → 0 < n → c + n ≤ 2 ^ 31 →
  ∃ k ext, l = ext ++ l' ∧ ext ≠ [] ∧ builds k (whole (λ v, v =? idx) c (c + n) v) ∧
    ∀ s, script_turn idx (Z.of_nat (length pre), c) s = (r ← k; ret (if negb (r =? 0) then inr (-1) else inl (Z.of_nat (length (pre ++ ext)), c + n))) s.
Proof.
  intros Htab Hne Hd Hc Hn Hlim. destruct l as [|b l]; [done|]. cbn [script_decode] in Hd.
  destruct (run_length (Z.land b 127) 96 112 (96 + Z.shiftl 1 12) l) as [[m l1]|] eqn:Hl; [|done].
  assert (pre ++ b :: l = (pre ++ [b]) ++ l) as Epre by (by rewrite <-app_assoc).
  assert (Z.of_nat (length pre) + 1 = Z.of_nat (length (pre ++ [b]))) as Elen by (rewrite length_app; cbn; lia).
  assert (∃ ext, l = ext ++ l1) as [ext Eext] by by apply run_length_suffix in Hl.
  assert (∀ s, script_run (Z.of_nat (length pre) + 1) (Z.land b 127) s = (Ok (Z.of_nat (length ((pre ++ [b]) ++ ext)), m), s)) as Erun.
  { intros s. rewrite Elen. destruct (script_run_run script_run (pre ++ [b]) (Z.land b 127) 96 112 (96 + Z.shiftl 1 12) l m l1 s Hl) as (ext2 & E2 & Erun).
    - intros p s'. unfold script_run. by rewrite Htab, Epre.
    - rewrite Eext in E2. apply app_inv_tail in E2 as <-. exact Erun. }
  assert (∃ ext2, l1 = ext2 ++ l' ∧ n = m + 1 ∧ ∀ s : cr_mem,
    (if Z.shiftr b 7 =? 0 then ret (Z.of_nat (length ((pre ++ [b]) ++ ext)), 0)
     else v ← rd unicode_script_table (Z.of_nat (length ((pre ++ [b]) ++ ext))); ret (Z.of_nat (length ((pre ++ [b]) ++ ext)) + 1, v)) s
    = (Ok (Z.of_nat (length (pre ++ (b :: ext) ++ ext2)), v), s)) as (ext2 & Eext2 & -> & Ev).
  { assert (pre ++ (b :: ext) = (pre ++ [b]) ++ ext) as Eall by (by rewrite <-app_assoc). destruct (Z.shiftr b 7 =? 0).
    - injection Hd as <- <- <-. exists []. split_and!; [done|done|]. intros s. rewrite app_nil_r, Eall. done.
    - destruct l1 as [|v1 l1]; [done|]. injection Hd as <- <- <-. exists [v1]. split_and!; [done|done|]. intros s.
      rewrite Htab, Epre, Eext. rewrite (app_assoc (pre ++ [b])). erewrite bind_run by apply rd_here. unfold ret. do 3 f_equal.
      rewrite <-Eall, !length_app. cbn. lia. }
  exists (add_if (v =? idx) c (c + (m + 1))), (b :: ext ++ ext2). split_and!; [rewrite Eext, Eext2; cbn [app]; by rewrite <-app_assoc|done|apply add_if_builds|].
  intros s. unfold script_turn. rewrite (proj2 (Z.ltb_lt _ _)) by (rewrite Htab, length_app; cbn; lia). erewrite bind_run by (rewrite Htab; apply rd_here).
  erewrite bind_run by apply Erun. cbv beta iota zeta. erewrite bind_run by apply Ev. cbv beta iota zeta. rewrite Z.add_assoc.
  by assert (u32 (c + m + 1) = c + m + 1) as -> by (apply wrap_id; unfold fits; lia).
Qed.

Lemma has_script_run pre vs l idx (s : cr_mem) :
  unicode_script_ext_table = pre ++ vs ++ l → has_script (length vs) (Z.of_nat (length pre)) idx s = (Ok (bool_decide (idx ∈ vs)), s).
Proof.
  revert pre. induction vs as [|v vs IH]; intros pre Htab; cbn [length has_script]; [done|]. erewrite bind_run by (rewrite Htab; apply rd_here).
  destruct (Z.eqb_spec v idx) as [->|Hne]; [rewrite bool_decide_true by left; done|].
  replace (Z.of_nat (length pre) + 1) with (Z.of_nat (length (pre ++ [v]))) by (rewrite length_app; cbn; lia).
  rewrite (IH (pre ++ [v])) by (by rewrite Htab, <-app_assoc). do 2 f_equal. apply bool_decide_ext. rewrite elem_of_cons. intuition congruence.
Qed.

(** The run takes part in the set of the extensions of a script. *)
Definition ext_value (idx : Z) (is_common : bool) (vs : list Z) : bool := if is_common then negb (length vs =? 0)%nat else bool_decide (idx ∈ vs).

Lemma ext_turn_step pre l n v l' c idx is_common :
  unicode_script_ext_table = pre ++ l → l ≠ [] → ext_decode l = Some (n, v, l') → 0 ≤ c → 0 < n → c + n ≤ 2 ^ 31 →
  ∃ k ext, l = ext ++ l' ∧ ext ≠ [] ∧ builds k (whole (ext_value idx is_common) c (c + n) v) ∧
    ∀ s, ext_turn idx is_common (Z.of_nat (length pre), c) s = (r ← k; ret (if negb (r =? 0) then inr (-1) else inl (Z.of_nat (length (pre ++ ext)), c + n))) s.
Proof.
  intros Htab Hne Hd Hc Hn Hlim. destruct l as [|b l]; [done|]. cbn [ext_decode] in Hd.
  destruct (run_length b 128 (128 + 64) (128 + Z.shiftl 1 14) l) as [[m [|v_len l1]]|] eqn:Hl; [done| |done].
  destruct ((0 <=? v_len) && (Z.to_nat v_len <=? length l1)%nat) eqn:Hv; [|done]. injection Hd as <- <- <-.
  rewrite andb_true_iff, Z.leb_le, Nat.leb_le in Hv. destruct Hv as [Hv0 Hv1].
  assert (pre ++ b :: l = (pre ++ [b]) ++ l) as Epre by (by rewrite <-app_assoc).
  assert (Z.of_nat (length pre) + 1 = Z.of_nat (length (pre ++ [b]))) as Elen by (rewrite length_app; cbn; lia).
  assert (∃ ext, l = ext ++ v_len :: l1) as [ext Eext] by by apply run_length_suffix in Hl.
  set (here := (pre ++ [b]) ++ ext).
  assert (∀ s, ext_run (Z.of_nat (length pre) + 1) b s = (Ok (Z.of_nat (length here), m), s)) as Erun.
  { intros s. rewrite Elen. destruct (script_run_run ext_run (pre ++ [b]) b 128 (128 + 64) (128 + Z.shiftl 1 14) l m (v_len :: l1) s Hl) as (ext2 & E2 & Erun).
    - intros p s'. unfold ext_run. rewrite Htab, Epre. by replace (b - 128 - 64) with (b - (128 + 64)) by lia.
    - rewrite Eext in E2. apply app_inv_tail in E2 as <-. exact Erun. }
  assert (unicode_script_ext_table = here ++ v_len :: l1) as Ehere by (unfold here; by rewrite Htab, Epre, Eext, app_assoc).
  set (vs := take (Z.to_nat v_len) l1). assert (length vs = Z.to_nat v_len) as Hvs by (unfold vs; rewrite length_take; lia).
  exists (add_if (ext_value idx is_common vs) c (c + (m + 1))), (b :: ext ++ v_len :: vs).
  split_and!; [rewrite Eext; cbn [app]; rewrite <-app_assoc; cbn [app]; unfold vs; by rewrite take_drop|done|apply add_if_builds|].
  intros s. unfold ext_turn. rewrite (proj2 (Z.ltb_lt _ _)) by (rewrite Htab, length_app; cbn; lia). erewrite bind_run by (rewrite Htab; apply rd_here).
  erewrite bind_run by apply Erun. cbv beta iota zeta. rewrite Z.add_assoc.
  assert (u32 (c + m + 1) = c + m + 1) as -> by (apply wrap_id; unfold fits; lia). erewrite bind_run by (rewrite Ehere; apply rd_here).
  assert (Z.of_nat (length here) + 1 = Z.of_nat (length (here ++ [v_len]))) as Enext by (rewrite (length_app here [v_len]); cbn; lia).
  assert ((if is_common then ret (negb (v_len =? 0)) else has_script (Z.to_nat v_len) (Z.of_nat (length here) + 1) idx) s = (Ok (ext_value idx is_common vs), s)) as Efound.
  { unfold ext_value. destruct is_common.
    - unfold ret. do 2 f_equal. f_equal. rewrite Hvs. destruct (Z.eqb_spec v_len 0) as [->|]; [done|]. symmetry. apply Nat.eqb_neq. lia.
    - rewrite Enext, <-Hvs. apply (has_script_run _ vs (drop (Z.to_nat v_len) l1)). unfold vs. rewrite take_drop, Ehere, <-app_assoc. done. }
  erewrite bind_run by exact Efound.
  rewrite Enext. replace (Z.of_nat (length (here ++ [v_len])) + v_len) with (Z.of_nat (length (pre ++ b :: ext ++ v_len :: vs))); [done|].
  unfold here. rewrite !length_app. cbn [length]. rewrite !length_app. cbn [length]. lia.
Qed.
End scripts.

Definition script_runs : list (Z * Z) := default [] (decode_runs script_decode (S (length unicode_script_table)) unicode_script_table).
Definition ext_runs : list (Z * list Z) := default [] (decode_runs ext_decode (S (length unicode_script_ext_table)) unicode_script_ext_table).

Lemma script_runs_ok :
  decode_runs script_decode (S (length unicode_script_table)) unicode_script_table = Some script_runs ∧ positive_runs script_runs = true ∧ total script_runs ≤ 0x110000.
Proof. split_and!; [vm_compute; reflexivity..|apply Z.leb_le; vm_compute; reflexivity]. Qed.

Lemma ext_runs_ok :
  decode_runs ext_decode (S (length unicode_script_ext_table)) unicode_script_ext_table = Some ext_runs ∧ positive_runs ext_runs = true ∧ total ext_runs ≤ 0x110000.
Proof. split_and!; [vm_compute; reflexivity..|apply Z.leb_le; vm_compute; reflexivity]. Qed.

Lemma script_set_builds `{Realloc} idx : builds (script_set idx) (spread (whole (λ v, v =? idx)) 0 script_runs).
Proof.
  destruct script_runs_ok as (Hd & Hp & Ht). apply (runs_loop_builds script_decode (whole (λ v, v =? idx)) unicode_script_table (script_turn idx) _ (S (length unicode_script_table)) [] unicode_script_table script_runs 0 (2 ^ 31));
    [| |done|exact Hd|lia|exact Hp|lia|lia].
  - intros. by apply script_turn_step.
  - intros c s. unfold script_turn. by rewrite (proj2 (Z.ltb_ge _ _)) by lia.
Qed.

Lemma ext_set_builds `{Realloc} idx is_common : builds (ext_set idx is_common) (spread (whole (ext_value idx is_common)) 0 ext_runs).
Proof.
  destruct ext_runs_ok as (Hd & Hp & Ht).
  apply (runs_loop_builds ext_decode (whole (ext_value idx is_common)) unicode_script_ext_table (ext_turn idx is_common) _ (S (length unicode_script_ext_table)) [] unicode_script_ext_table ext_runs 0 (2 ^ 31));
    [| |done|exact Hd|lia|exact Hp|lia|lia].
  - intros. by apply ext_turn_step.
  - intros c s. unfold ext_turn. by rewrite (proj2 (Z.ltb_ge _ _)) by lia.
Qed.
