(* ===== verification/UniSets.v ===== *)
(** * Unicode properties: sets and names, lemmas

    The operations of [unicode_prop_ops] on a stack of sets, the search of a name,
    and the lookups against the sets. *)
From S2P Require Import Prelude CStd Words CUtils BigIntMp CharRange CharRangeFacts CharRangeBuild UniTable.
From S2P Require Import UniCase UniCaseFacts UniProp UniPropFacts.

#[local] Open Scope Z_scope.

(** * Unicode sets by operations: lemmas

    What the operations of [unicode_prop_ops] mean on sets, and that the stack of
    structures follows the stack of sets. *)

(** ** Leaves *)

Definition prop_table_of (p : UnicodePropertyEnum) : list Z := default [] (unicode_prop_table !! Z.to_nat (prop_code p)).

(** The set of code points a leaf stands for. *)
Definition case_set (case_mask x : Z) : bool := existsb (λ q, (q.1 <=? x) && (x <? q.2)) (case_intervals case_mask).
Definition leaf_set (o : PropOP) : Z → bool :=
  match o with
  | POP_GC m => gc_has m
  | POP_PROP p => prop_has (prop_table_of p)
  | POP_CASE m => case_set m
  | _ => λ _, false
  end.
Definition leaf_intervals (o : PropOP) : list (Z * Z) :=
  match o with
  | POP_GC m => spread (gc_spread m) 0 gc_runs
  | POP_PROP p => spread (whole (λ b, b)) 0 (prop_table_runs (prop_table_of p))
  | POP_CASE m => case_intervals m
  | _ => []
  end.

(** The leaves that the properties use. *)
Definition leaf_ok (o : PropOP) : bool :=
  match o with
  | POP_PROP p => prop_code p <? Z.of_nat (length unicode_prop_table)
  | POP_CASE m => (m =? 1) || (m =? 2) || (m =? 4) || (m =? 7)
  | _ => true
  end.

(** Intervals that a set may be made of. *)
Definition good_intervals (ivs : list (Z * Z)) : Prop :=
  ordered 0 ivs ∧ Forall (fits 32) (points_of ivs) ∧ Z.of_nat (length (points_of ivs)) ≤ 20000.

Lemma fits_from_bound ivs lim : ordered 0 ivs → 0 ≤ lim < 2 ^ 32 → Forall (λ q, q.1 ≤ lim ∧ q.2 ≤ lim) ivs → Forall (fits 32) (points_of ivs).
Proof.
  intros Ho Hlim Hb. apply ordered_above, points_Forall in Ho. apply points_Forall. rewrite Forall_forall in *. intros q Hq. specialize (Ho q Hq). specialize (Hb q Hq).
  cbn in *. unfold fits. lia.
Qed.

Lemma case_masks m : leaf_ok (POP_CASE m) = true → m = 1 ∨ m = 2 ∨ m = 4 ∨ m = 7.
Proof. cbn. rewrite !orb_true_iff, !Z.eqb_eq. tauto. Qed.

Lemma case_good m : leaf_ok (POP_CASE m) = true → good_intervals (case_intervals m).
Proof.
  intros Hm. apply case_masks in Hm. assert (ordered 0 (case_intervals m)) as Ho by (apply orderedb_spec; destruct Hm as [->|[->|[->| ->]]]; vm_compute; reflexivity).
  split_and!; [done| |].
  - apply (fits_from_bound _ 1000000); [done|done|]. assert (forallb (λ q, (q.1 <=? 1000000) && (q.2 <=? 1000000)) (case_intervals m) = true) as Hall
      by (destruct Hm as [->|[->|[->| ->]]]; vm_compute; reflexivity).
    apply Forall_forall. intros q Hq. rewrite forallb_forall in Hall. apply list_elem_of_In in Hq. specialize (Hall q Hq). rewrite andb_true_iff, !Z.leb_le in Hall. done.
  - apply Z.leb_le. destruct Hm as [->|[->|[->| ->]]]; vm_compute; reflexivity.
Qed.

Lemma case_covers m x : covers (case_intervals m) x ↔ case_set m x = true.
Proof.
  unfold case_set, covers. rewrite existsb_exists, Exists_exists. split; intros (q & Hq & Hx); exists q; (split; [by apply list_elem_of_In|]).
  - rewrite andb_true_iff, Z.leb_le, Z.ltb_lt. done.
  - rewrite andb_true_iff, Z.leb_le, Z.ltb_lt in Hx. done.
Qed.

Lemma whole_bound {V} (p : V → bool) c c' v : Forall (λ q, q.1 ≤ Z.max c c' ∧ q.2 ≤ Z.max c c') (whole p c c' v).
Proof. unfold whole. destruct (p v); [|done]. constructor; [cbn; lia|done]. Qed.

Lemma spread_end {V} (f : Z → Z → V → list (Z * Z)) c (rs : list (Z * V)) lim :
  inside f → 0 ≤ c → positive_runs rs = true → c + total rs ≤ lim → Forall (λ q, q.1 ≤ lim ∧ q.2 ≤ lim) (spread f c rs).
Proof.
  intros Hf. revert c. induction rs as [|[n v] rs IH]; intros c Hc Hp Hl; [constructor|]. cbn [spread]. unfold positive_runs, total in *. cbn in *. rewrite andb_true_iff, Z.ltb_lt in Hp.
  destruct Hp as [Hn Hp]. pose proof (total_nonneg rs Hp) as Ht. unfold total in Ht. destruct (Hf c (c + n) v Hc ltac:(lia)) as [H1 H2].
  apply Forall_app_2; [|apply IH; [lia|done|lia]]. clear -H1 H2 Hl Ht. revert H1 H2. generalize c at 1. intros c0. generalize (f c (c + n) v). intros ivs. revert c0.
  induction ivs as [|[a b] ivs IH]; intros c0 H1 H2; [constructor|]. destruct H1 as (? & ? & H1). apply Forall_cons in H2 as [Hb H2]. cbn in Hb. constructor; [cbn; lia|]. by apply (IH b).
Qed.

(** How many intervals at most. *)
Lemma spread_length {V} (f : Z → Z → V → list (Z * Z)) (w : Z → V → Z) c (rs : list (Z * V)) :
  (∀ c n v, Z.of_nat (length (f c (c + n) v)) ≤ w n v) → Z.of_nat (length (spread f c rs)) ≤ foldr (λ r k, w r.1 r.2 + k) 0 rs.
Proof.
  intros Hw. revert c. induction rs as [|[n v] rs IH]; intros c; [done|]. cbn [spread foldr fst snd]. rewrite length_app. specialize (IH (c + n)). specialize (Hw c n v). lia.
Qed.

Lemma by_two_length fuel c0 c : (length (by_two fuel c0 c) ≤ fuel)%nat.
Proof. revert c0. induction fuel as [|fuel IH]; intros c0; cbn; [lia|]. destruct (c0 <? c); cbn; [|lia]. specialize (IH (c0 + 2)). lia. Qed.

Definition gc_weight (n v : Z) : Z := if v =? 31 then Z.max 1 n else 1.

Lemma gc_good m : good_intervals (spread (gc_spread m) 0 gc_runs).
Proof.
  destruct gc_runs_ok as (_ & Hp & Ht). pose proof (spread_ordered (gc_spread m) 0 gc_runs (gc_spread_inside m) ltac:(lia) Hp) as Ho. split_and!; [exact Ho| |].
  - apply (fits_from_bound _ 0x110000); [exact Ho|lia|]. apply spread_end; [apply gc_spread_inside|lia|exact Hp|lia].
  - rewrite points_length. assert (Z.of_nat (length (spread (gc_spread m) 0 gc_runs)) ≤ foldr (λ r k, gc_weight r.1 r.2 + k) 0 gc_runs) as Hw.
    { apply spread_length. intros c n v. unfold gc_spread, gc_weight. destruct (v =? 31); [|destruct (Z.testbit m v); cbn; lia].
      cbv zeta. destruct (_ =? 0); [cbn [length]; lia|]. destruct (_ =? 6); [cbn [length]; lia|]. match goal with |- context [by_two ?f ?a ?b] => pose proof (by_two_length f a b) end. lia. }
    assert (foldr (λ r k, gc_weight r.1 r.2 + k) 0 gc_runs ≤ 10000) as Hb by (apply Z.leb_le; vm_compute; reflexivity). lia.
Qed.

Lemma whole_good {V} (p : V → bool) (rs : list (Z * V)) :
  positive_runs rs = true → total rs < 2 ^ 32 → Z.of_nat (length rs) ≤ 10000 → good_intervals (spread (whole p) 0 rs).
Proof.
  intros Hpos Hlim Hlen. pose proof (total_nonneg _ Hpos) as Ht. pose proof (spread_ordered (whole p) 0 rs (whole_inside _) ltac:(lia) Hpos) as Ho. split_and!; [exact Ho| |].
  - apply (fits_from_bound _ (total rs)); [exact Ho|lia|]. apply spread_end; [apply whole_inside|lia|exact Hpos|lia].
  - rewrite points_length. assert (Z.of_nat (length (spread (whole p) 0 rs)) ≤ foldr (λ r k, (λ _ _, 1) r.1 r.2 + k) 0 rs) as Hw.
    { apply (spread_length _ (λ _ _, 1)). intros c n v. unfold whole. destruct (p v); cbn; lia. }
    assert (foldr (λ r k, (λ _ _, 1) r.1 r.2 + k) 0 rs = Z.of_nat (length rs)) as Hsum by (clear; induction rs as [|r rs IH]; [done|cbn [foldr length] in *; lia]). lia.
Qed.

Lemma prop_code_nonneg p : 0 ≤ prop_code p.
Proof. by destruct p. Qed.

Lemma prop_table_ok p : leaf_ok (POP_PROP p) = true → unicode_prop_table !! Z.to_nat (prop_code p) = Some (prop_table_of p) ∧ table_ok (prop_table_of p) = true.
Proof.
  cbn [leaf_ok]. rewrite Z.ltb_lt. intros Hp. pose proof (prop_code_nonneg p). destruct (lookup_lt_is_Some_2 unicode_prop_table (Z.to_nat (prop_code p))) as [t Ht]; [lia|].
  unfold prop_table_of. rewrite Ht. cbn. split; [done|]. pose proof prop_tables_ok as Hall. rewrite forallb_forall in Hall. apply Hall, list_elem_of_In. by apply (list_elem_of_lookup_2 _ (Z.to_nat (prop_code p))).
Qed.

Lemma prop_lengths : forallb (λ t, Z.of_nat (length (prop_table_runs t)) <=? 10000) unicode_prop_table = true.
Proof. vm_compute. reflexivity. Qed.

Lemma prop_good p : leaf_ok (POP_PROP p) = true → good_intervals (leaf_intervals (POP_PROP p)).
Proof.
  intros Hp. destruct (prop_table_ok p Hp) as [Hl Hok]. destruct (table_ok_runs _ Hok) as (_ & Hpos & Hlim). cbn [leaf_intervals]. pose proof (total_nonneg _ Hpos) as Ht.
  apply whole_good; [done|done|]. pose proof prop_lengths as Hall. rewrite forallb_forall in Hall. specialize (Hall (prop_table_of p)). rewrite Z.leb_le in Hall.
  apply Hall, list_elem_of_In. by apply (list_elem_of_lookup_2 _ (Z.to_nat (prop_code p))).
Qed.

Section leaves.
Context `{Realloc}.

Lemma unicode_prop1_builds p : leaf_ok (POP_PROP p) = true → builds (unicode_prop1 (prop_code p)) (leaf_intervals (POP_PROP p)).
Proof.
  intros Hp l post gs Hmod. destruct (prop_table_ok p Hp) as [Hl Hok]. pose proof (prop_code_nonneg p) as Hc. destruct (table_ok_runs _ Hok) as (Hruns & Hpos & Hlim).
  assert (unicode_prop1 (prop_code p) (st l post gs)
    = loop (S (length (prop_table_of p))) (prop_turn ([] ++ prop_table_of p) (Z.of_nat (length ([] ++ prop_table_of p)))) (Z.of_nat (@length Z []), 0, bit_of false) (st l post gs)) as E.
  { unfold unicode_prop1. rewrite Hl. erewrite bind_run by reflexivity. erewrite bind_run by (apply rd_run; [exact Hc|unfold unicode_prop_len_table; by rewrite list_lookup_fmap, Hl]).
    by rewrite Nat2Z.id. }
  unfold grows. rewrite E. by apply (prop_loop_builds (S (length (prop_table_of p))) (S (length (prop_table_of p)))); [|lia| |lia|lia|].
Qed.

(** The call of a leaf, and the set it makes. *)
Definition leaf_call (o : PropOP) : M cr_mem Z :=
  match o with
  | POP_GC m => unicode_general_category1 m
  | POP_PROP p => unicode_prop1 (prop_code p)
  | POP_CASE m => unicode_case1 m
  | _ => ret 0
  end.

Lemma leaf_good o : leaf_ok o = true → good_intervals (leaf_intervals o).
Proof. destruct o; intros Ho; [apply gc_good|by apply prop_good|by apply case_good|..]; by split_and!. Qed.

Lemma leaf_covers o x : leaf_ok o = true → 0 ≤ x → covers (leaf_intervals o) x ↔ leaf_set o x = true.
Proof.
  intros Ho Hx. destruct o as [m|p|m| | | |]; cbn [leaf_intervals leaf_set]; [by apply gc_covers| |apply case_covers|by unfold covers; rewrite Exists_nil..].
  destruct (prop_table_ok p Ho) as [_ Hok]. destruct (table_ok_runs _ Hok) as (_ & Hpos & _). by apply whole_covers.
Qed.

Lemma leaf_builds o : leaf_ok o = true → builds (leaf_call o) (leaf_intervals o).
Proof.
  destruct o as [m|p|m| | | |]; intros Ho; [apply general_category1_builds|by apply unicode_prop1_builds| |apply builds_nil..].
  apply unicode_case1_builds. apply case_masks in Ho. lia.
Qed.

(** The points of a leaf. *)
Definition sorted_points (l : list Z) : Prop := increasing l ∧ Nat.even (length l) = true ∧ Forall (fits 32) l.

Lemma normal_sorted l : normal_points l → sorted_points l.
Proof. intros (Hs & He & Hf). split_and!; [by apply increasing_mono|done|done]. Qed.

(** A routine that builds good intervals leaves the set of them. *)
Lemma builds_set m ivs post gs : builds m ivs → good_intervals ivs →
  grows m (st [] post gs) (λ s', ∃ l post' gs', s' = st l post' gs' ∧ sorted_points l ∧ Z.of_nat (length l) ≤ 20000 ∧ ∀ x, member l x = true ↔ covers ivs x).
Proof.
  intros Hm (Hord & Hfit & Hlen). eapply grows_mono; [apply Hm; unfold moderate; cbn [length]; lia|].
  intros s' (post' & gs' & ->). cbn [app]. exists (points_of ivs), post', gs'. split_and!; [done|split_and!|done|].
  - by apply (ordered_increasing 0).
  - apply points_even.
  - done.
  - intros x. by apply (member_points 0).
Qed.

Lemma leaf_grows o post gs : leaf_ok o = true →
  grows (leaf_call o) (st [] post gs) (λ s', ∃ l post' gs', s' = st l post' gs' ∧ sorted_points l ∧ Z.of_nat (length l) ≤ 20000 ∧ ∀ x, 0 ≤ x → member l x = leaf_set o x).
Proof.
  intros Ho. eapply grows_mono; [apply builds_set; [by apply leaf_builds|by apply leaf_good]|]. intros s' (l & post' & gs' & -> & Hl & Hlen & Hm).
  exists l, post', gs'. split; [done|]. split; [exact Hl|]. split; [done|]. intros x Hx. apply eq_true_iff_eq. rewrite Hm. by apply leaf_covers.
Qed.
End leaves.

(** ** The stack *)

(** The structure stands for the set, with at most [n] points. *)
Definition stands (cr : CharRange) (f : Z → bool) (n : Z) : Prop :=
  ∃ l post, cr = holding l post ∧ sorted_points l ∧ Z.of_nat (length l) ≤ n ∧ ∀ x, 0 ≤ x < UINT32_MAX → member l x = f x.

Fixpoint stack_stands (stack : list CharRange) (fs : list (Z → bool)) (budget : Z) : Prop :=
  match stack, fs with
  | [], [] => 0 ≤ budget
  | cr :: stack, f :: fs => ∃ n, 0 ≤ n ∧ stands cr f n ∧ stack_stands stack fs (budget - n)
  | _, _ => False
  end.

(** The operations on sets. *)
Definition eval_op (o : PropOP) (fs : list (Z → bool)) : option (list (Z → bool)) :=
  match o, fs with
  | POP_GC _, _ | POP_PROP _, _ | POP_CASE _, _ =>
      if (length fs <? POP_STACK_LEN_MAX)%nat && leaf_ok o then Some (leaf_set o :: fs) else None
  | POP_INVERT, f :: fs => Some ((λ x, negb (f x)) :: fs)
  | POP_INVERT, [] => None
  | _, f2 :: f1 :: fs' =>
      if (length fs <? POP_STACK_LEN_MAX)%nat then Some ((λ x, apply_op (prop_op o) (f1 x) (f2 x)) :: fs') else None
  | _, _ => None
  end.
Fixpoint eval_ops (ops : list PropOP) (fs : list (Z → bool)) : option (Z → bool) :=
  match ops with
  | [] => match fs with [f] => Some f | _ => None end
  | o :: ops => match eval_op o fs with Some fs => eval_ops ops fs | None => None end
  end.

Lemma stack_length stack fs budget : stack_stands stack fs budget → length stack = length fs ∧ 0 ≤ budget.
Proof.
  revert fs budget. induction stack as [|cr stack IH]; intros [|f fs] budget Hs; try done.
  destruct Hs as (n & Hn & _ & Hs). destruct (IH _ _ Hs) as [Hl Hb]. cbn. split; [by rewrite Hl|lia].
Qed.

Section ops.
Context `{Realloc, BuildConfig}.

Lemma assert_run {S} (s : S) b : b = true → MOE_ASSERT_MSG b s = (Ok tt, s).
Proof. intros ->. unfold MOE_ASSERT_MSG, MOE_ASSERT. by destruct NDEBUG. Qed.

(** One operation: the new stack stands for the new sets, or an allocation was refused. *)
Definition op_result (s : cr_mem) (fs : list (Z → bool)) (budget : Z) (res : outcome (Z * list CharRange) * cr_mem) : Prop :=
  ∃ r stack' gs', res = (Ok (r, stack'), {| range := range s; grants := gs' |}) ∧ gs' `suffix_of` grants s ∧
    (r = 0 ∧ stack_stands stack' fs budget ∨ r = -1 ∧ false ∈ grants s).

Lemma op_local s l0 post0 (m : M cr_mem Z) (P : list Z → Prop) stack fs f n budget :
  grows m (st l0 post0 (grants s)) (λ s', ∃ o post' gs', s' = st o post' gs' ∧ P o) →
  (∀ o, P o → sorted_points o ∧ Z.of_nat (length o) ≤ n ∧ ∀ x, 0 ≤ x < UINT32_MAX → member o x = f x) → 0 ≤ n →
  stack_stands stack fs (budget - n) →
  op_result s (f :: fs) budget ((x ← on_range (holding l0 post0) m; let '(r, cr) := x in ret (r, cr :: stack)) s).
Proof.
  intros (r & s' & E & Hg & Hr) HP Hn Hst. unfold bind. rewrite (on_range_run (holding l0 post0) m s r s' E).
  exists r, (range s' :: stack), (grants s'). split_and!; [done|done|]. destruct Hr as [[-> (o & post' & gs' & -> & Ho)]|[-> Hgs]]; [left|by right].
  split; [done|]. exists n. split_and!; [done| |done]. exists o, post'. split; [done|]. by apply HP.
Qed.

Lemma leaf_turn_run o stack fs fs' budget s :
  stack_stands stack fs budget → (length fs <? POP_STACK_LEN_MAX)%nat && leaf_ok o = true → fs' = leaf_set o :: fs →
  op_result s fs' (budget + 20000) ((MOE_ASSERT_MSG (length stack <? POP_STACK_LEN_MAX)%nat;; '(r, cr) ← on_range no_range (leaf_call o); ret (r, cr :: stack)) s).
Proof.
  intros Hst Hok ->. destruct (stack_length _ _ _ Hst) as [Hlen Hb0]. rewrite andb_true_iff in Hok. destruct Hok as [Hlt Hok].
  erewrite bind_run by (apply assert_run; by rewrite Hlen). change no_range with (holding [] []).
  apply (op_local s [] [] _ (λ l, sorted_points l ∧ Z.of_nat (length l) ≤ 20000 ∧ ∀ x, 0 ≤ x → member l x = leaf_set o x) stack fs (leaf_set o) 20000);
    [by apply leaf_grows| |lia|by replace (budget + 20000 - 20000) with budget by lia].
  intros l (Hl & Hn & Hm). split_and!; [apply Hl..|done|]. intros x Hx. apply Hm. lia.
Qed.

Lemma stack_more stack fs budget k : 0 ≤ k → stack_stands stack fs budget → stack_stands stack fs (budget + k).
Proof.
  intros Hk. revert fs budget. induction stack as [|cr stack IH]; intros [|f fs] budget Hs; cbn in *; try done; [lia|].
  destruct Hs as (n & Hn & Hf & Hs). exists n. split_and!; [done|done|]. replace (budget + k - n) with (budget - n + k) by lia. by apply IH.
Qed.

Definition binary (o : PropOP) : Prop := match o with POP_UNION | POP_INTER | POP_XOR => True | _ => False end.

Lemma binary_turn_run o stack fs fs' budget s :
  binary o → stack_stands stack fs budget → eval_op o fs = Some fs' → budget ≤ 2 ^ 27 → op_result s fs' (budget + 20000) (prop_op_turn o stack s).
Proof.
  intros Hkind Hst Hev Hb. destruct (stack_length _ _ _ Hst) as [Hlen Hb0].
  assert (∃ f2 f1 fs2, fs = f2 :: f1 :: fs2 ∧ (length fs <? POP_STACK_LEN_MAX)%nat = true ∧ fs' = (λ x, apply_op (prop_op o) (f1 x) (f2 x)) :: fs2) as (f2 & f1 & fs2 & -> & Hlt & ->).
  { destruct o; try done; cbn [eval_op] in Hev; destruct fs as [|f2 [|f1 fs2]]; try done; destruct (_ <? _)%nat eqn:Hlt; try done; injection Hev as <-; by exists f2, f1, fs2. }
  destruct stack as [|cr2 [|cr1 stack]]; [done|by destruct Hst as (? & ? & ? & [])|].
  destruct Hst as (n2 & Hn2 & (l2 & post2 & -> & (Hi2 & He2 & Hf2) & Hl2 & Hm2) & n1 & Hn1 & (l1 & post1 & -> & (Hi1 & He1 & Hf1) & Hl1 & Hm1) & Hst).
  destruct (stack_length _ _ _ Hst) as [_ Hb2].
  assert (prop_op_turn o (holding l2 post2 :: holding l1 post1 :: stack) s
    = (x ← on_range (holding [] []) (cr_op (l1 ++ post1) (Z.of_nat (length l1)) (l2 ++ post2) (Z.of_nat (length l2)) (prop_op o)); let '(r, cr3) := x in ret (r, cr3 :: stack)) s) as ->.
  { destruct o; try done; unfold prop_op_turn; cbv zeta; (erewrite bind_run by by apply assert_run); (erewrite bind_run by (apply assert_run; by rewrite Hlen)); done. }
  apply (op_local s [] [] _ (λ o', normal_points o' ∧ (length o' ≤ length l1 + length l2)%nat ∧ ∀ x, member o' x = apply_op (prop_op o) (member l1 x) (member l2 x)) stack fs2 _ (n1 + n2)).
  - apply cr_op_grows; [done|done|by apply Forall_app_2|done|done|unfold moderate; lia].
  - intros o' (Hn & Hl & Hm). split_and!; [apply normal_sorted, Hn..|lia|]. intros x Hx. by rewrite Hm, Hm1, Hm2.
  - lia.
  - replace (budget + 20000 - (n1 + n2)) with (budget - n2 - n1 + 20000) by lia. by apply stack_more.
Qed.

Lemma prop_op_turn_run o stack fs fs' budget s :
  stack_stands stack fs budget → eval_op o fs = Some fs' → budget ≤ 2 ^ 27 → op_result s fs' (budget + 20000) (prop_op_turn o stack s).
Proof.
  intros Hst Hev Hb. destruct (stack_length _ _ _ Hst) as [Hlen Hb0].
  destruct o as [m|p|m| | | |]; [| | |by apply (binary_turn_run _ _ fs)..|].
  - cbn [eval_op] in Hev. destruct (_ && _) eqn:E in Hev; [|done]. apply Some_inj in Hev. exact (leaf_turn_run (POP_GC m) stack fs fs' budget s Hst E (eq_sym Hev)).
  - cbn [eval_op] in Hev. destruct (_ && _) eqn:E in Hev; [|done]. apply Some_inj in Hev. exact (leaf_turn_run (POP_PROP p) stack fs fs' budget s Hst E (eq_sym Hev)).
  - cbn [eval_op] in Hev. destruct (_ && _) eqn:E in Hev; [|done]. apply Some_inj in Hev. exact (leaf_turn_run (POP_CASE m) stack fs fs' budget s Hst E (eq_sym Hev)).
  - destruct fs as [|f fs]; [done|]. injection Hev as <-. destruct stack as [|cr stack]; [done|].
    destruct Hst as (n & Hn & (l & post & -> & (Hi & He & Hf) & Hl & Hm) & Hst). unfold prop_op_turn. cbv zeta. erewrite bind_run by by apply assert_run.
    apply (op_local s l post _ (λ o', normal_points o' ∧ (length o' ≤ length l + 2)%nat ∧ ∀ x, 0 ≤ x < UINT32_MAX → member o' x = negb (member l x)) stack fs _ (n + 20000)).
    + destruct (stack_length _ _ _ Hst). apply cr_invert_sorted_grows; [done..|unfold moderate; lia].
    + intros o' (Hn' & Hl' & Hm'). split_and!; [apply normal_sorted, Hn'..|lia|]. intros x Hx. by rewrite Hm', Hm.
    + lia.
    + by replace (budget + 20000 - (n + 20000)) with (budget - n) by lia.
Qed.

(** The operations, to the structure the caller gave. *)
Lemma prop_ops_run ops stack fs budget f l0 post0 gs :
  stack_stands stack fs budget → eval_ops ops fs = Some f → budget + 20000 * Z.of_nat (length ops) ≤ 2 ^ 27 →
  grows (prop_ops_from ops stack) (st l0 post0 gs)
    (λ s', ∃ l post' gs', s' = st l post' gs' ∧ sorted_points l ∧ ∀ x, 0 ≤ x < UINT32_MAX → member l x = f x).
Proof.
  revert stack fs budget gs. induction ops as [|o ops IH]; intros stack fs budget gs Hst Hev Hb; cbn [prop_ops_from eval_ops length] in *.
  - destruct (stack_length _ _ _ Hst) as [Hlen Hb0]. destruct fs as [|f1 [|f2 fs]]; [done| |done]. injection Hev as ->.
    destruct stack as [|cr1 [|cr2 stack]]; [done| |done]. destruct Hst as (n & Hn & (l & post & -> & Hsl & Hl & Hm) & Hst). cbn in Hst.
    destruct (cr_copy_grows l0 post0 gs l post (Z.of_nat (length (l ++ post)))) as (r & s' & E & Hr); [unfold moderate; lia|].
    exists r, s'. split; [|destruct Hr as [Hg [[-> (post' & gs' & ->)]|?]]; (split; [done|]); [left; split; [done|]; by exists l, post', gs'|by right]].
    erewrite bind_run by by apply assert_run. exact E.
  - destruct (eval_op o fs) as [fs'|] eqn:Ho; [|done].
    destruct (prop_op_turn_run o stack fs fs' budget (st l0 post0 gs) Hst Ho) as (r & stack' & gs' & E & Hg & Hr); [lia|].
    cbn [st range grants] in E, Hg, Hr. destruct Hr as [[-> Hst']|[-> Hgs]].
    + destruct (IH stack' fs' (budget + 20000) gs' Hst' Hev ltac:(lia)) as (r & s' & E2 & Hg2 & Hr). exists r, s'. split_and!; [by erewrite bind_run by exact E|by trans gs'|].
      destruct Hr as [Hr|[-> Hgs]]; [by left|right]. split; [done|]. by apply (suffix_false gs gs').
    + exists (-1). eexists. split_and!; [by erewrite bind_run by exact E|done|by right].
Qed.

Lemma unicode_prop_ops_run ops f l0 post0 gs :
  eval_ops ops [] = Some f → Z.of_nat (length ops) ≤ 1000 →
  grows (unicode_prop_ops ops) (st l0 post0 gs)
    (λ s', ∃ l post' gs', s' = st l post' gs' ∧ sorted_points l ∧ ∀ x, 0 ≤ x < UINT32_MAX → member l x = f x).
Proof. intros Hev Hl. apply (prop_ops_run ops [] [] 0); [done|done|lia]. Qed.
End ops.

(** * Unicode names

    The search of a name in a table of names: the number of the first entry that has
    it among its names. *)

(** ** Tables of names *)

(** The names of an entry with commas between them. *)
Fixpoint join (names : list (list Z)) : list Z :=
  match names with [] => [] | [n] => n | n :: names => n ++ [$","] ++ join names end.
Definition flatten (entries : list (list (list Z))) : list Z := flat_map (λ names, join names ++ [0]) entries ++ [0].

(** A name holds no zero and no comma, and the first one of an entry is not empty. *)
Definition plain (n : list Z) : bool := forallb (λ c, negb (c =? 0) && negb (c =? $",")) n.
Definition entry_ok (names : list (list Z)) : bool := match names with (_ :: _) :: _ => forallb plain names | _ => false end.

(** The entries of a table: the reference reading of its bytes. *)
Fixpoint split_at (stop : Z) (l cur : list Z) : list (list Z) :=
  match l with [] => [cur] | c :: l => if c =? stop then cur :: split_at stop l [] else split_at stop l (cur ++ [c]) end.
Definition entries_of (table : list Z) : list (list (list Z)) :=
  (λ e, split_at ($",") e []) <$> List.filter (λ e, negb (length e =? 0)%nat) (split_at 0 table []).

(** The number of the first entry with the name, from [pos] on. *)
Fixpoint entry_index (pos : Z) (entries : list (list (list Z))) (name : list Z) : option Z :=
  match entries with
  | [] => None
  | names :: entries => if bool_decide (name ∈ names) then Some pos else entry_index (pos + 1) entries name
  end.
Definition named (table name : list Z) : option Z := entry_index 0 (entries_of table) name.

(** ** The search *)

Lemma name_end_comma n l : plain n = true → name_end (n ++ $"," :: l) = Some (length n, true).
Proof.
  induction n as [|c n IH]; [done|]. cbn [plain forallb]. rewrite !andb_true_iff, !negb_true_iff. intros [[H0 Hc] Hn]. cbn [app name_end length].
  rewrite H0, Hc. by rewrite IH.
Qed.

Lemma name_end_zero n l : plain n = true → name_end (n ++ 0 :: l) = Some (length n, false).
Proof.
  induction n as [|c n IH]; [done|]. cbn [plain forallb]. rewrite !andb_true_iff, !negb_true_iff. intros [[H0 Hc] Hn]. cbn [app name_end length].
  rewrite H0, Hc. by rewrite IH.
Qed.

Section search.
Context {St : Type} (s : St) (name : list Z).

(** One name of the table, at the place [pre]. *)
Lemma name_turn_run pre n (comma : bool) l pos inside :
  plain n = true → (inside = false → n ≠ []) →
  name_turn (pre ++ n ++ (if comma then $"," else 0) :: l) name (Z.of_nat (length pre), pos, inside) s
  = (Ok (if bool_decide (n = name) then inr pos
         else inl (Z.of_nat (length (pre ++ n ++ [if comma then $"," else 0])), if comma then pos else pos + 1, comma)), s).
Proof.
  intros Hn Hne. unfold name_turn. destruct (lookup_lt_is_Some_2 (pre ++ n ++ (if comma then $"," else 0) :: l) (length pre)) as [c Hc]; [rewrite !length_app; cbn; lia|].
  erewrite bind_run by (apply rd_run; [lia|rewrite Nat2Z.id; exact Hc]).
  assert (negb inside && (c =? 0) = false) as ->.
  { destruct inside; [done|]. destruct n as [|c0 n]; [by destruct Hne|]. cbn [negb andb]. cbn [app] in Hc. rewrite list_lookup_middle in Hc by done. injection Hc as <-.
    cbn [plain forallb] in Hn. rewrite !andb_true_iff, !negb_true_iff in Hn. apply Hn. }
  rewrite Nat2Z.id, drop_app_length. erewrite bind_run.
  2:{ destruct comma; [rewrite name_end_comma by done|rewrite name_end_zero by done]; reflexivity. }
  cbv beta iota zeta. rewrite take_app_length.
  assert (Z.of_nat (length pre) + Z.of_nat (length n) + 1 = Z.of_nat (length (pre ++ n ++ [if comma then $"," else 0]))) as Hp by (rewrite !length_app; cbn; lia).
  destruct comma; cbn beta iota in *; unfold ret; rewrite ?Hp; by destruct (bool_decide (n = name)).
Qed.

Lemma join_length n names : (length names ≤ length (join (n :: names)))%nat.
Proof.
  revert n. induction names as [|n2 names IH]; intros n; [cbn; lia|]. change (join (n :: n2 :: names)) with (n ++ [$","] ++ join (n2 :: names)).
  rewrite !length_app. cbn [length]. specialize (IH n2). lia.
Qed.

(** The names of an entry. *)
Lemma names_run fuel pre n names l pos inside :
  forallb plain (n :: names) = true → (inside = false → n ≠ []) → (length names < fuel)%nat →
  ∃ k, (k ≤ S (length names))%nat ∧
    loop fuel (name_turn (pre ++ join (n :: names) ++ 0 :: l) name) (Z.of_nat (length pre), pos, inside) s
    = if bool_decide (name ∈ n :: names) then (Ok pos, s)
      else loop (fuel - k) (name_turn (pre ++ join (n :: names) ++ 0 :: l) name) (Z.of_nat (length (pre ++ join (n :: names) ++ [0])), pos + 1, false) s.
Proof.
  revert fuel pre n inside. induction names as [|n2 names IH]; intros fuel pre n inside Hp Hne Hf; cbn [forallb] in Hp; rewrite andb_true_iff in Hp; destruct Hp as [Hn Hp].
  - destruct fuel as [|fuel]; [lia|]. exists 1%nat. split; [lia|]. cbn [loop join]. erewrite bind_run by apply (name_turn_run pre n false l pos inside Hn Hne).
    destruct (decide (n = name)) as [->|Hneq]; [rewrite bool_decide_true, bool_decide_true by (done || left); done|].
    rewrite bool_decide_false, bool_decide_false by (rewrite ?list_elem_of_singleton; congruence). cbn beta iota. by replace (S fuel - 1)%nat with fuel by lia.
  - destruct fuel as [|fuel]; [lia|]. cbn [length] in Hf.
    assert (pre ++ join (n :: n2 :: names) ++ 0 :: l = pre ++ n ++ $"," :: join (n2 :: names) ++ 0 :: l) as E by (cbn [join]; by rewrite <-!app_assoc).
    assert (pre ++ n ++ $"," :: join (n2 :: names) ++ 0 :: l = (pre ++ n ++ [$","]) ++ join (n2 :: names) ++ 0 :: l) as E2 by (by rewrite <-!app_assoc).
    destruct (IH fuel (pre ++ n ++ [$","]) n2 true Hp ltac:(done) ltac:(lia)) as (k & Hk & Erun).
    exists (S k). split; [cbn; lia|]. rewrite E. cbn [loop]. erewrite bind_run by apply (name_turn_run pre n true (join (n2 :: names) ++ 0 :: l) pos inside Hn Hne).
    destruct (decide (n = name)) as [->|Hneq]; [rewrite bool_decide_true, bool_decide_true by (done || left); done|].
    rewrite (bool_decide_false (n = name)) by done. cbn beta iota. rewrite E2, Erun.
    assert (bool_decide (name ∈ n :: n2 :: names) = bool_decide (name ∈ n2 :: names)) as -> by (apply bool_decide_ext; rewrite (elem_of_cons _ _ n); intuition congruence).
    destruct (bool_decide (name ∈ n2 :: names)); [done|]. do 4 f_equal. change (join (n :: n2 :: names)) with (n ++ [$","] ++ join (n2 :: names)). rewrite !length_app. cbn [length]. lia.
Qed.

Lemma entries_run fuel pre entries pos :
  forallb entry_ok entries = true → (length (flatten entries) ≤ fuel)%nat →
  loop fuel (name_turn (pre ++ flatten entries) name) (Z.of_nat (length pre), pos, false) s
  = (Ok (match entry_index pos entries name with Some i => i | None => -1 end), s).
Proof.
  revert fuel pre pos. induction entries as [|names entries IH]; intros fuel pre pos Hok Hf.
  - destruct fuel as [|fuel]; [cbn in Hf; lia|]. cbn [loop flatten flat_map app entry_index]. unfold name_turn at 1.
    rewrite bind_bind. erewrite bind_run by (apply rd_run; [lia|rewrite Nat2Z.id; by apply list_lookup_middle]). cbn [negb andb Z.eqb]. by rewrite bind_ret.
  - cbn [forallb] in Hok. rewrite andb_true_iff in Hok. destruct Hok as [Hnames Hok]. destruct names as [|[|c n] names]; [done..|]. cbn [entry_ok] in Hnames.
    assert (flatten (((c :: n) :: names) :: entries) = join ((c :: n) :: names) ++ 0 :: flatten entries) as E by (unfold flatten; cbn [flat_map]; by rewrite <-!app_assoc).
    pose proof (join_length (c :: n) names) as Hlen.
    rewrite E in *. rewrite length_app in Hf. cbn [length] in Hf.
    destruct (names_run fuel pre (c :: n) names (flatten entries) pos false Hnames ltac:(done) ltac:(lia)) as (k & Hk & Erun). rewrite Erun. cbn [entry_index].
    destruct (bool_decide (name ∈ (c :: n) :: names)); [done|].
    replace (pre ++ join ((c :: n) :: names) ++ 0 :: flatten entries) with ((pre ++ join ((c :: n) :: names) ++ [0]) ++ flatten entries) by (by rewrite <-!app_assoc).
    apply IH; [done|lia].
Qed.
End search.

(** A table of names as its readers expect it. *)
Definition names_ok (table : list Z) : bool := forallb entry_ok (entries_of table) && bool_decide (flatten (entries_of table) = table).

Lemma unicode_find_name_run {S} (s : S) table name :
  names_ok table = true → unicode_find_name table name s = (Ok (match named table name with Some i => i | None => -1 end), s).
Proof.
  unfold names_ok. rewrite andb_true_iff, bool_decide_eq_true. intros [Hok E]. unfold unicode_find_name, named.
  pose proof (entries_run s name (Datatypes.S (length table)) [] (entries_of table) 0 Hok) as Hrun. rewrite E in Hrun. apply Hrun. lia.
Qed.

Lemma name_tables_ok : names_ok unicode_prop_name_table = true ∧ names_ok unicode_gc_name_table = true ∧ names_ok unicode_script_name_table = true.
Proof. split_and!; vm_compute; reflexivity. Qed.

(** * Unicode properties: lookups and sets, lemmas

    Why the lookup of one code point answers for the whole set: the tables with an
    index against the sets the operations make. *)

(** ** Intervals apart *)

Fixpoint apart (fuel : nat) (a b : list (Z * Z)) : bool :=
  match fuel, a, b with
  | _, [], _ | _, _, [] => true
  | S fuel, (p, q) :: a', (r, s) :: b' => if q <=? r then apart fuel a' b else if s <=? p then apart fuel a b' else false
  | O, _, _ => false
  end.

Lemma ordered_from from ivs x : ordered from ivs → covers ivs x → from ≤ x.
Proof.
  intros Ho Hx. apply ordered_above, points_Forall in Ho. apply Exists_exists in Hx as (q & Hq & Hx). rewrite Forall_forall in Ho. specialize (Ho q Hq). lia.
Qed.

Lemma apart_spec fuel from from' a b x : ordered from a → ordered from' b → apart fuel a b = true → covers a x → covers b x → False.
Proof.
  revert from from' a b. induction fuel as [|fuel IH]; intros from from' [|[p q] a] [|[r s] b] Ha Hb Hap Hxa Hxb; cbn [apart] in Hap; try done;
    try (by apply Exists_nil in Hxa); try (by apply Exists_nil in Hxb).
  pose proof Ha as (_ & Hpq & Ha'). pose proof Hb as (_ & Hrs & Hb'). destruct (Z.leb_spec q r).
  - apply (IH q from' a ((r, s) :: b)); [done..| |done]. apply Exists_cons in Hxa as [Hxa|Hxa]; [|done]. cbn in Hxa.
    assert (r ≤ x) by (apply (ordered_from r ((r, s) :: b)); [cbn; split_and!; [lia|lia|done]|done]). lia.
  - destruct (Z.leb_spec s p); [|done]. apply (IH from s ((p, q) :: a) b); [done..|]. apply Exists_cons in Hxb as [Hxb|Hxb]; [|done]. cbn in Hxb.
    assert (p ≤ x) by (apply (ordered_from p ((p, q) :: a)); [cbn; split_and!; [lia|lia|done]|done]). lia.
Qed.

(** ** Sets by the program *)

#[local] Instance blank : Realloc := {| fresh_point := λ _, 0 |}.

(** The points that [cr_op] leaves when no allocation is refused. *)
Definition op_points (op : CharRangeOpEnum) (a b : list Z) : list Z :=
  match cr_op a (Z.of_nat (length a)) b (Z.of_nat (length b)) op (st [] [] []) with
  | (Ok _, s') => take (Z.to_nat (len (range s'))) (points (range s'))
  | (Err _, _) => []
  end.

Lemma op_points_run op a b :
  sorted_points a → sorted_points b → moderate (length a + length b) →
  sorted_points (op_points op a b) ∧ (length (op_points op a b) ≤ length a + length b)%nat ∧
  ∀ x, member (op_points op a b) x = apply_op op (member a x) (member b x).
Proof.
  intros (Ha & Hea & Hfa) (Hb & Heb & Hfb) Hm.
  destruct (cr_op_grows op a [] b [] [] []) as (r & s' & E & _ & Hr); [done|done|by apply Forall_app_2|done..|]. rewrite !app_nil_r in E.
  destruct Hr as [[-> (o & post' & gs' & -> & Hn & Hl & Hmem)]|[_ Hf]]; [|by apply elem_of_nil in Hf].
  unfold op_points. rewrite E. cbn [st range len points]. rewrite Nat2Z.id, take_app_length. split_and!; [by apply normal_sorted|done|done].
Qed.

(** ** Cased *)

Definition cased_gc : Z := gc_mask_of [UNICODE_GC_Lu; UNICODE_GC_Ll; UNICODE_GC_Lt].
Definition cased_points : list Z :=
  op_points CR_OP_UNION (op_points CR_OP_UNION (points_of (leaf_intervals (POP_GC cased_gc))) (points_of (leaf_intervals (POP_PROP UNICODE_PROP_Other_Uppercase))))
    (points_of (leaf_intervals (POP_PROP UNICODE_PROP_Other_Lowercase))).

Definition spans : list (Z * Z) := entry_span <$> case_conv_table1.
Definition cased1_intervals : list (Z * Z) := spread (whole (λ b, b)) 0 (prop_table_runs unicode_prop_Cased1_table).

Lemma cased_points_agree : cased_points = op_points CR_OP_UNION (points_of spans) (points_of cased1_intervals).
Proof. vm_compute. reflexivity. Qed.

Lemma leaf_points o : leaf_ok o = true →
  sorted_points (points_of (leaf_intervals o)) ∧ (length (points_of (leaf_intervals o)) ≤ Z.to_nat 20000)%nat ∧
  ∀ x, 0 ≤ x → member (points_of (leaf_intervals o)) x = leaf_set o x.
Proof.
  intros Ho. destruct (leaf_good o Ho) as (Hord & Hfit & Hlen). split_and!; [split_and!; [by apply (ordered_increasing 0)|apply points_even|done]|lia|].
  intros x Hx. apply eq_true_iff_eq. rewrite (member_points 0) by done. by apply leaf_covers.
Qed.

Lemma cased_points_member x : 0 ≤ x →
  member cased_points x = leaf_set (POP_GC cased_gc) x || leaf_set (POP_PROP UNICODE_PROP_Other_Uppercase) x || leaf_set (POP_PROP UNICODE_PROP_Other_Lowercase) x.
Proof.
  intros Hx. destruct (leaf_points (POP_GC cased_gc) eq_refl) as (S1 & L1 & M1). destruct (leaf_points (POP_PROP UNICODE_PROP_Other_Uppercase) eq_refl) as (S2 & L2 & M2).
  destruct (leaf_points (POP_PROP UNICODE_PROP_Other_Lowercase) eq_refl) as (S3 & L3 & M3).
  destruct (op_points_run CR_OP_UNION _ _ S1 S2) as (S12 & L12 & M12); [unfold moderate; lia|].
  destruct (op_points_run CR_OP_UNION _ _ S12 S3) as (_ & _ & M123); [unfold moderate; lia|].
  unfold cased_points. rewrite M123, M12, M1, M2, M3 by done. done.
Qed.

Lemma intervals_good ivs : orderedb 0 ivs && forallb (λ q, (q.1 <=? 1000000) && (q.2 <=? 1000000)) ivs && (length ivs <=? 5000)%nat = true →
  sorted_points (points_of ivs) ∧ (length (points_of ivs) ≤ Z.to_nat 10000)%nat ∧ ordered 0 ivs.
Proof.
  rewrite !andb_true_iff, forallb_forall, Nat.leb_le. intros [[Ho Hb] Hl]. apply orderedb_spec in Ho. rewrite points_length.
  split_and!; [|lia|done]. split_and!; [by apply (ordered_increasing 0)|apply points_even|]. apply (fits_from_bound _ 1000000); [done|done|].
  apply Forall_forall. intros q Hq. apply list_elem_of_In in Hq. specialize (Hb q Hq). rewrite andb_true_iff, !Z.leb_le in Hb. done.
Qed.

Lemma cased_tables_member x : 0 ≤ x → member cased_points x = true ↔ in_table x ∨ prop_has unicode_prop_Cased1_table x = true.
Proof.
  intros Hx. rewrite cased_points_agree.
  destruct (intervals_good spans) as (S1 & L1 & O1); [vm_compute; reflexivity|]. destruct (intervals_good cased1_intervals) as (S2 & L2 & O2); [vm_compute; reflexivity|].
  destruct (op_points_run CR_OP_UNION _ _ S1 S2) as (_ & _ & M12); [unfold moderate; lia|]. rewrite M12. cbn [apply_op].
  rewrite orb_true_iff, !(member_points 0) by done.
  assert (covers spans x ↔ in_table x) as -> by (unfold covers, spans, in_table; by rewrite Exists_fmap).
  assert (table_ok unicode_prop_Cased1_table = true) as Hok by (vm_compute; reflexivity). destruct (table_ok_runs _ Hok) as (_ & Hpos & _).
  unfold cased1_intervals. rewrite (whole_covers (λ b : bool, b) (prop_table_runs unicode_prop_Cased1_table) x Hx Hpos). done.
Qed.

(** The code points with a conversion are cased, and [Cased1] has the others. *)
Lemma lre_is_cased_run {S} (s : S) x :
  0 ≤ x → lre_is_cased x s = (Ok (member cased_points x), s).
Proof.
  intros Hx. unfold lre_is_cased. destruct (case_search_run s x) as (o & E & Ho). erewrite bind_run by exact E. destruct o as [[i v]|].
  - destruct Ho as (k & -> & Hk & Hc). refine (f_equal (λ b, (Ok b, s)) (eq_sym _)). apply (cased_tables_member x Hx). left.
    apply Exists_exists. exists v. split; [by apply (list_elem_of_lookup_2 _ k)|done].
  - rewrite (lre_is_in_table_run s unicode_prop_Cased1_table unicode_prop_Cased1_index x (proj1 indexes_agree) Hx). refine (f_equal (λ b, (Ok b, s)) _). apply eq_true_iff_eq. rewrite (cased_tables_member x Hx). unfold span_of in Ho. tauto.
Qed.

(** ** Identifiers *)

Lemma id_tables_apart :
  apart 2000 (leaf_intervals (POP_PROP UNICODE_PROP_ID_Start)) (leaf_intervals (POP_PROP UNICODE_PROP_ID_Continue1)) = true.
Proof. vm_compute. reflexivity. Qed.

Lemma id_sets_apart x : 0 ≤ x → leaf_set (POP_PROP UNICODE_PROP_ID_Start) x = true → leaf_set (POP_PROP UNICODE_PROP_ID_Continue1) x = true → False.
Proof.
  intros Hx H1 H2. destruct (leaf_good (POP_PROP UNICODE_PROP_ID_Start) eq_refl) as [O1 _]. destruct (leaf_good (POP_PROP UNICODE_PROP_ID_Continue1) eq_refl) as [O2 _].
  exact (apart_spec 2000 0 0 _ _ x O1 O2 id_tables_apart (proj2 (leaf_covers (POP_PROP UNICODE_PROP_ID_Start) x eq_refl Hx) H1)
    (proj2 (leaf_covers (POP_PROP UNICODE_PROP_ID_Continue1) x eq_refl Hx) H2)).
Qed.
