(* ===== verification/UniProps.v ===== *)
(** * Unicode properties and scripts: properties

    The sets by name, the lookups of single code points on the same tables, and the
    scripts. *)
From S2P Require Import Prelude CStd Words CUtils BigIntMp CharRange CharRangeFacts CharRangeBuild UniTable.
From S2P Require Import UniCase UniCaseFacts UniProp UniPropFacts UniSets.

#[local] Open Scope Z_scope.

(** * Unicode properties: properties

    The sets that the names stand for, the lookups of single code points on the
    same tables, and the scripts. *)

(** ** The sets of the properties *)

(** The properties that are sets of their own. *)
Definition special_set (p : UnicodePropertyEnum) : option (Z → bool) :=
  match p with
  | UNICODE_PROP_ASCII => Some (λ x, x <=? 0x7f)
  | UNICODE_PROP_Any => Some (λ x, x <=? 0x10ffff)
  | UNICODE_PROP_Changes_When_Uppercased => Some (case_set CASE_U)
  | UNICODE_PROP_Changes_When_Lowercased => Some (case_set CASE_L)
  | UNICODE_PROP_Changes_When_Casemapped => Some (case_set 7)
  | _ => None
  end.

(** The others: by operations, or with a table. *)
Definition table_set (p : UnicodePropertyEnum) : option (Z → bool) :=
  match derived_prop p with
  | Some ops => eval_ops ops []
  | None => if prop_code p <? Z.of_nat (length unicode_prop_table) then Some (prop_has (prop_table_of p)) else None
  end.

(** The specification: the set of each property, from the runs of the tables. *)
Definition prop_set (p : UnicodePropertyEnum) : option (Z → bool) := match special_set p with Some f => Some f | None => table_set p end.

(** The property with a name. *)
Definition prop_named (name : list Z) : option UnicodePropertyEnum :=
  match named unicode_prop_name_table name with
  | Some i => unicode_properties !! Z.to_nat (i + prop_code UNICODE_PROP_ASCII_Hex_Digit)
  | None => None
  end.

(** The structure holds the set. *)
Definition represents (s : cr_mem) (f : Z → bool) : Prop :=
  ∃ l post gs, s = st l post gs ∧ sorted_points l ∧ ∀ x, 0 ≤ x < UINT32_MAX → member l x = f x.

Definition gives (m : M cr_mem Z) (s : cr_mem) (f : Z → bool) : Prop :=
  ∃ r s', m s = (Ok r, s') ∧ (r = 0 ∧ represents s' f ∨ r = -1 ∧ false ∈ grants s).

Section gives.
Context `{Realloc, BuildConfig}.

Lemma grows_gives m s f :
  grows m s (λ s', ∃ l post gs, s' = st l post gs ∧ sorted_points l ∧ ∀ x, 0 ≤ x < UINT32_MAX → member l x = f x) → gives m s f.
Proof. intros (r & s' & E & _ & Hr). exists r, s'. split; [exact E|]. destruct Hr as [[-> Hs]|Hr]; [by left|by right]. Qed.

Lemma set_gives m ivs f post gs : builds m ivs → good_intervals ivs → (∀ x, 0 ≤ x → covers ivs x ↔ f x = true) → gives m (st [] post gs) f.
Proof.
  intros Hm Hg Hf. apply grows_gives. eapply grows_mono; [by apply builds_set|]. intros s' (l & post' & gs' & -> & Hl & _ & Hc). exists l, post', gs'. split; [done|]. split; [exact Hl|].
  intros x Hx. apply eq_true_iff_eq. rewrite Hc. apply Hf. lia.
Qed.

Lemma leaf_gives o post gs : leaf_ok o = true → gives (leaf_call o) (st [] post gs) (leaf_set o).
Proof. intros Ho. apply (set_gives _ (leaf_intervals o)); [by apply leaf_builds|by apply leaf_good|]. intros x Hx. by apply leaf_covers. Qed.

Lemma gc_gives m post gs : gives (unicode_general_category1 m) (st [] post gs) (gc_has m).
Proof. exact (set_gives _ _ _ post gs (general_category1_builds m) (gc_good m) (gc_covers m)). Qed.

Lemma ops_gives ops f post gs : eval_ops ops [] = Some f → Z.of_nat (length ops) ≤ 1000 → gives (unicode_prop_ops ops) (st [] post gs) f.
Proof. intros Hev Hl. by apply grows_gives, unicode_prop_ops_run. Qed.

Lemma interval_gives a b post gs : 0 ≤ a < b → b < 2 ^ 32 → gives (cr_add_interval a b) (st [] post gs) (λ x, (a <=? x) && (x <=? b - 1)).
Proof.
  intros Ha Hb. apply grows_gives. eapply grows_mono; [apply (builds_one a b [] post gs); unfold moderate; cbn; lia|].
  intros s' (post' & gs' & ->). exists [a; b], post', gs'. split; [done|]. split.
  - split_and!; [repeat constructor; lia|done|repeat constructor; unfold fits; lia].
  - intros x Hx. cbn. destruct (Z.leb_spec a x), (Z.leb_spec b x), (Z.leb_spec x (b - 1)); try done; lia.
Qed.

Lemma gives_ext m s f g : (∀ x, 0 ≤ x → f x = g x) → gives m s f → gives m s g.
Proof.
  intros Hfg (r & s' & E & Hr). exists r, s'. split; [done|]. destruct Hr as [[-> (l & post & gs & -> & Hl & Hm)]|Hr]; [left|by right].
  split; [done|]. exists l, post, gs. split; [done|]. split; [exact Hl|]. intros x Hx. rewrite <-Hfg by lia. by apply Hm.
Qed.

(** The derived properties keep to the stack of four. *)
Lemma derived_evaluate p ops : derived_prop p = Some ops → (∃ f, eval_ops ops [] = Some f) ∧ Z.of_nat (length ops) ≤ 1000.
Proof. intros Hd. destruct p; cbn [derived_prop] in Hd; try discriminate Hd; apply Some_inj in Hd; subst ops; (split; [eexists; reflexivity|cbn; lia]). Qed.

Lemma prop_case_simple p : special_set p = None →
  unicode_prop_case (prop_code p) p = match derived_prop p with
      | Some ops => unicode_prop_ops ops
      | None => if prop_code p >=? Z.of_nat (length unicode_prop_table) then ret (-2) else unicode_prop1 (prop_code p)
      end.
Proof. destruct p; intros Hp; try discriminate Hp; reflexivity. Qed.

Lemma prop_case_gives p post gs :
  match prop_set p with
  | Some f => gives (unicode_prop_case (prop_code p) p) (st [] post gs) f
  | None => unicode_prop_case (prop_code p) p (st [] post gs) = (Ok (-2), st [] post gs)
  end.
Proof.
  unfold prop_set. destruct (special_set p) as [f|] eqn:Hs.
  - destruct p; try discriminate Hs; apply Some_inj in Hs; subst f; cbn [unicode_prop_case].
    + apply (gives_ext _ _ (λ x, (0 <=? x) && (x <=? 127 + 1 - 1))); [|apply interval_gives; lia]. intros x Hx. by rewrite (proj2 (Z.leb_le _ _)).
    + apply (gives_ext _ _ (λ x, (0 <=? x) && (x <=? 0x10ffff + 1 - 1))); [|apply interval_gives; lia]. intros x Hx. by rewrite (proj2 (Z.leb_le _ _)).
    + by apply (leaf_gives (POP_CASE 7)).
    + by apply (leaf_gives (POP_CASE 2)).
    + by apply (leaf_gives (POP_CASE 1)).
  - rewrite (prop_case_simple p Hs). unfold table_set. destruct (derived_prop p) as [ops|] eqn:Hd.
    + destruct (derived_evaluate p ops Hd) as [[f Hf] Hlen]. rewrite Hf. by apply ops_gives.
    + rewrite Z.geb_leb. destruct (Z.ltb_spec (prop_code p) (Z.of_nat (length unicode_prop_table))) as [Hlt|Hge].
      * rewrite (proj2 (Z.leb_gt _ _)) by exact Hlt. apply (leaf_gives (POP_PROP p)). cbn [leaf_ok]. by apply Z.ltb_lt.
      * by rewrite (proj2 (Z.leb_le _ _)) by exact Hge.
Qed.
End gives.

(** ** Names *)

Lemma entry_index_range pos entries name i : entry_index pos entries name = Some i → pos ≤ i < pos + Z.of_nat (length entries).
Proof.
  revert pos. induction entries as [|names entries IH]; intros pos E; cbn [entry_index length] in *; [done|]. destruct (bool_decide _).
  - apply Some_inj in E as <-. lia.
  - apply IH in E. lia.
Qed.

(** The entries of the table are the properties from [ASCII_Hex_Digit] on. *)
Lemma prop_entry name i : named unicode_prop_name_table name = Some i →
  ∃ p, unicode_properties !! Z.to_nat (i + prop_code UNICODE_PROP_ASCII_Hex_Digit) = Some p ∧ prop_code p = i + prop_code UNICODE_PROP_ASCII_Hex_Digit.
Proof.
  intros E. apply entry_index_range in E. assert (length (entries_of unicode_prop_name_table) = 57%nat) as Hl by (vm_compute; reflexivity). rewrite Hl in E.
  change (prop_code UNICODE_PROP_ASCII_Hex_Digit) with 16. assert (forallb (λ k, match unicode_properties !! k with Some p => prop_code p =? Z.of_nat k | None => false end) (seq 0 75) = true) as Hall by (vm_compute; reflexivity).
  rewrite forallb_forall in Hall. specialize (Hall (Z.to_nat (i + 16)) ltac:(apply in_seq; lia)). destruct (unicode_properties !! Z.to_nat (i + 16)) as [p|]; [|discriminate Hall].
  exists p. split; [done|]. apply Z.eqb_eq in Hall. lia.
Qed.

(** The specification of the names: the set of the property, if there is one. *)
Definition prop_spec (name : list Z) : option (Z → bool) := match prop_named name with Some p => prop_set p | None => None end.

Lemma gives_eq m m' s f : m s = m' s → gives m' s f → gives m s f.
Proof. unfold gives. by intros ->. Qed.

Section names.
Context `{Realloc, BuildConfig}.

Lemma unicode_prop_run name post gs :
  match prop_spec name with
  | Some f => gives (unicode_prop name) (st [] post gs) f
  | None => unicode_prop name (st [] post gs) = (Ok (-2), st [] post gs)
  end.
Proof.
  unfold prop_spec, prop_named. pose proof (unicode_find_name_run (st [] post gs) unicode_prop_name_table name (proj1 name_tables_ok)) as Efind.
  destruct (named unicode_prop_name_table name) as [i|] eqn:Hn.
  - destruct (prop_entry name i Hn) as (p & Hp & Hc). pose proof (prop_code_nonneg p) as Hpos. apply entry_index_range in Hn. rewrite Hp.
    assert (unicode_prop name (st [] post gs) = unicode_prop_case (prop_code p) p (st [] post gs)) as E.
    { unfold unicode_prop. erewrite bind_run by exact Efind. rewrite (proj2 (Z.ltb_ge i 0)) by lia. cbv zeta. by rewrite Hp, Hc. }
    pose proof (prop_case_gives p post gs) as Hcase. destruct (prop_set p) as [f|]; [exact (gives_eq _ _ _ _ E Hcase)|exact (eq_trans E Hcase)].
  - unfold unicode_prop. by erewrite bind_run by exact Efind.
Qed.

(** ** General categories by name *)

(** The groups of categories, after the categories themselves. *)
Definition gc_groups : list (list UnicodeGCEnum) := [
  [UNICODE_GC_Lu; UNICODE_GC_Ll; UNICODE_GC_Lt];
  [UNICODE_GC_Lu; UNICODE_GC_Ll; UNICODE_GC_Lt; UNICODE_GC_Lm; UNICODE_GC_Lo];
  [UNICODE_GC_Mn; UNICODE_GC_Mc; UNICODE_GC_Me];
  [UNICODE_GC_Nd; UNICODE_GC_Nl; UNICODE_GC_No];
  [UNICODE_GC_Sm; UNICODE_GC_Sc; UNICODE_GC_Sk; UNICODE_GC_So];
  [UNICODE_GC_Pc; UNICODE_GC_Pd; UNICODE_GC_Ps; UNICODE_GC_Pe; UNICODE_GC_Pi; UNICODE_GC_Pf; UNICODE_GC_Po];
  [UNICODE_GC_Zs; UNICODE_GC_Zl; UNICODE_GC_Zp];
  [UNICODE_GC_Cc; UNICODE_GC_Cf; UNICODE_GC_Cs; UNICODE_GC_Co; UNICODE_GC_Cn]].

(** The categories of the entry [i] of the table of names. *)
Definition categories (i : Z) : list Z :=
  if i <=? gc_code UNICODE_GC_Co then [i] else gc_code <$> default [] (gc_groups !! Z.to_nat (i - gc_code UNICODE_GC_LC)).
Definition category_in_list (l : list Z) (x : Z) : bool := existsb (λ g, bool_decide (category x = Some g)) l.
Definition category_spec (name : list Z) : option (Z → bool) := (λ i, category_in_list (categories i)) <$> named unicode_gc_name_table name.

Lemma gc_code_nonneg g : 0 ≤ gc_code g.
Proof. by destruct g. Qed.

Lemma mask_bit n v : 0 ≤ n → Z.testbit (Z.shiftl 1 n) v = bool_decide (v = n).
Proof. intros Hn. rewrite Z.shiftl_1_l, Z.pow2_bits_eqb by done. destruct (Z.eqb_spec n v) as [->|Hne]; [by rewrite bool_decide_true|by rewrite bool_decide_false by congruence]. Qed.

Lemma mask_categories l x : gc_has (gc_mask_of l) x = category_in_list (gc_code <$> l) x.
Proof.
  unfold gc_has, category_in_list. destruct (category x) as [v|]; [|by induction l].
  induction l as [|g l IH]; [apply Z.bits_0|]. unfold gc_mask_of in *. cbn [foldr existsb fmap list_fmap]. rewrite Z.lor_spec, mask_bit, IH by apply gc_code_nonneg.
  f_equal. apply bool_decide_ext. split; congruence.
Qed.

Lemma category_mask i (s : cr_mem) : 0 ≤ i < 38 →
  ∃ m, (if i <=? gc_code UNICODE_GC_Co then ret (u32 (Z.shiftl 1 i)) else rd unicode_gc_mask_table (i - gc_code UNICODE_GC_LC)) s = (Ok m, s) ∧
    ∀ x, gc_has m x = category_in_list (categories i) x.
Proof.
  intros Hi. unfold categories. change (gc_code UNICODE_GC_Co) with 29. change (gc_code UNICODE_GC_LC) with 30. destruct (Z.leb_spec i 29) as [Hle|Hgt].
  - exists (Z.shiftl 1 i). split.
    + unfold ret. rewrite (wrap_id 32); [done|]. unfold fits. rewrite Z.shiftl_1_l. split; [by apply Z.pow_nonneg|apply Z.pow_lt_mono_r; lia].
    + intros x. unfold gc_has, category_in_list. cbn [existsb]. rewrite orb_false_r. destruct (category x) as [v|]; [|done]. rewrite mask_bit by lia. apply bool_decide_ext. split; congruence.
  - destruct (lookup_lt_is_Some_2 gc_groups (Z.to_nat (i - 30))) as [l Hl]; [cbn; lia|]. exists (gc_mask_of l). rewrite Hl. split.
    + apply rd_run; [lia|]. change unicode_gc_mask_table with (gc_mask_of <$> gc_groups). by rewrite list_lookup_fmap, Hl.
    + intros x. apply mask_categories.
Qed.

Lemma unicode_general_category_run name post gs :
  match category_spec name with
  | Some f => gives (unicode_general_category name) (st [] post gs) f
  | None => unicode_general_category name (st [] post gs) = (Ok (-2), st [] post gs)
  end.
Proof.
  unfold category_spec. pose proof (unicode_find_name_run (st [] post gs) unicode_gc_name_table name (proj1 (proj2 name_tables_ok))) as Efind.
  destruct (named unicode_gc_name_table name) as [i|] eqn:Hn; cbn [fmap option_fmap option_map].
  - apply entry_index_range in Hn. assert (length (entries_of unicode_gc_name_table) = 38%nat) as Hl by (vm_compute; reflexivity). rewrite Hl in Hn.
    destruct (category_mask i (st [] post gs)) as (m & Em & Hm); [lia|]. apply (gives_eq _ (unicode_general_category1 m)).
    + unfold unicode_general_category. erewrite bind_run by exact Efind. rewrite (proj2 (Z.ltb_ge i 0)) by lia. by erewrite bind_run by exact Em.
    + apply (gives_ext _ _ (gc_has m)); [intros x _; apply Hm|]. apply gc_gives.
  - unfold unicode_general_category. by erewrite bind_run by exact Efind.
Qed.

(** C25: [unicode_prop] and [unicode_general_category] implement the maps from names to sets of code points. A name of a property leaves in the structure the set of that property, the derived ones included; a name of a category, or of a group of them, leaves the code points whose category is one of them: the sets are those of the tables read as runs with values. The result is then 0, or -1 and an allocation was refused. Any other name gives -2 and leaves the structure as it was. *)
Theorem unicode_sets_exact name post gs :
  match prop_spec name with
  | Some f => gives (unicode_prop name) (st [] post gs) f
  | None => unicode_prop name (st [] post gs) = (Ok (-2), st [] post gs)
  end ∧
  match category_spec name with
  | Some f => gives (unicode_general_category name) (st [] post gs) f
  | None => unicode_general_category name (st [] post gs) = (Ok (-2), st [] post gs)
  end.
Proof. split; [apply unicode_prop_run|apply unicode_general_category_run]. Qed.
End names.

(** ** Lookups *)

(** The set of a property, none for the properties that have no set. *)
Definition set_of (p : UnicodePropertyEnum) (x : Z) : bool := match prop_set p with Some f => f x | None => false end.

Lemma set_of_table p table x :
  special_set p = None → derived_prop p = None → (prop_code p <? Z.of_nat (length unicode_prop_table)) = true → prop_table_of p = table →
  set_of p x = prop_has table x.
Proof. intros Hs Hd Hlt Ht. unfold set_of, prop_set, table_set. by rewrite Hs, Hd, Hlt, Ht. Qed.

Lemma set_of_ops p ops f x : special_set p = None → derived_prop p = Some ops → eval_ops ops [] = Some f → set_of p x = f x.
Proof. intros Hs Hd Hf. unfold set_of, prop_set, table_set. by rewrite Hs, Hd, Hf. Qed.

Lemma cased_set x : 0 ≤ x → set_of UNICODE_PROP_Cased x = member cased_points x.
Proof.
  intros Hx. rewrite (cased_points_member x Hx). erewrite (set_of_ops UNICODE_PROP_Cased); [|reflexivity|reflexivity|].
  2:{ cbn [eval_ops eval_op]. reflexivity. }
  cbn [apply_op prop_op]. reflexivity.
Qed.

Lemma id_continue_set x : set_of UNICODE_PROP_ID_Continue x = xorb (leaf_set (POP_PROP UNICODE_PROP_ID_Start) x) (leaf_set (POP_PROP UNICODE_PROP_ID_Continue1) x).
Proof.
  erewrite (set_of_ops UNICODE_PROP_ID_Continue); [|reflexivity|reflexivity|].
  2:{ cbn [eval_ops eval_op]. reflexivity. }
  cbn [apply_op prop_op]. reflexivity.
Qed.

(** C26: the lookups of one code point, each a binary search of an index of its compressed table (and of the case conversions for [lre_is_cased]), agree on every code point with the sets that [unicode_prop] builds for the properties of the same names from the same tables, general categories and operations. *)
Theorem lookups_agree {S} (s : S) x :
  0 ≤ x →
  lre_is_cased x s = (Ok (set_of UNICODE_PROP_Cased x), s) ∧
  lre_is_case_ignorable x s = (Ok (set_of UNICODE_PROP_Case_Ignorable x), s) ∧
  lre_is_id_start x s = (Ok (set_of UNICODE_PROP_ID_Start x), s) ∧
  lre_is_id_continue x s = (Ok (set_of UNICODE_PROP_ID_Continue x), s) ∧
  lre_is_white_space x s = (Ok (set_of UNICODE_PROP_White_Space x), s).
Proof.
  intros Hx. destruct indexes_agree as (_ & Hci & Hst & Hco & Hws). rewrite (cased_set x Hx).
  rewrite (set_of_table UNICODE_PROP_Case_Ignorable unicode_prop_Case_Ignorable_table x eq_refl eq_refl eq_refl eq_refl).
  rewrite (set_of_table UNICODE_PROP_ID_Start unicode_prop_ID_Start_table x eq_refl eq_refl eq_refl eq_refl).
  rewrite (set_of_table UNICODE_PROP_White_Space unicode_prop_White_Space_table x eq_refl eq_refl eq_refl eq_refl). rewrite (id_continue_set x).
  pose proof (lre_is_in_table_run s _ _ x Hst Hx) as Estart.
  split; [exact (lre_is_cased_run s x Hx)|split; [exact (lre_is_in_table_run s _ _ x Hci Hx)|split; [exact Estart|split; [|exact (lre_is_in_table_run s _ _ x Hws Hx)]]]].
  unfold lre_is_id_continue. erewrite bind_run by exact Estart. pose proof (id_sets_apart x Hx) as Hap. revert Hap. cbn [leaf_set].
  change (prop_table_of UNICODE_PROP_ID_Start) with unicode_prop_ID_Start_table. change (prop_table_of UNICODE_PROP_ID_Continue1) with unicode_prop_ID_Continue1_table.
  pose proof (lre_is_in_table_run s _ _ x Hco Hx) as Econt. revert Econt.
  destruct (prop_has unicode_prop_ID_Start_table x), (prop_has unicode_prop_ID_Continue1_table x); intros Econt Hap;
    [destruct (Hap eq_refl eq_refl)|reflexivity|exact Econt|exact Econt].
Qed.

(** A combining mark, in the second block of the index. *)
Lemma lookups_agree_witness :
  lre_is_cased 0x345 tt = (Ok (set_of UNICODE_PROP_Cased 0x345), tt) ∧
  lre_is_case_ignorable 0x345 tt = (Ok (set_of UNICODE_PROP_Case_Ignorable 0x345), tt) ∧
  lre_is_id_start 0x345 tt = (Ok (set_of UNICODE_PROP_ID_Start 0x345), tt) ∧
  lre_is_id_continue 0x345 tt = (Ok (set_of UNICODE_PROP_ID_Continue 0x345), tt) ∧
  lre_is_white_space 0x345 tt = (Ok (set_of UNICODE_PROP_White_Space 0x345), tt).
Proof. refine (lookups_agree tt 0x345 _). lia. Defined.

(** * Unicode scripts: properties

    The set of a script by its name, with or without the extensions, and what a
    refused allocation does. *)

(** ** The sets *)

Definition script_has (idx x : Z) : bool := has_value (λ v, v =? idx) script_runs x.
Definition ext_has (idx : Z) (is_common : bool) (x : Z) : bool := has_value (ext_value idx is_common) ext_runs x.
Definition common_script (idx : Z) : bool := (idx =? UNICODE_SCRIPT_Common) || (idx =? UNICODE_SCRIPT_Inherited).

(** A code point with extensions is in the scripts of the extensions, and no longer in Common or Inherited. *)
Definition script_of (idx : Z) (is_ext : bool) (x : Z) : bool :=
  if is_ext then
    if common_script idx then script_has idx x && negb (ext_has idx true x) else script_has idx x || ext_has idx false x
  else script_has idx x.

(** The specification of the names, the first entry being the script 1. *)
Definition script_spec (name : list Z) (is_ext : bool) : option (Z → bool) :=
  (λ i, script_of (i + UNICODE_SCRIPT_Unknown + 1) is_ext) <$> named unicode_script_name_table name.

Lemma script_lengths : Z.of_nat (length script_runs) ≤ 10000 ∧ Z.of_nat (length ext_runs) ≤ 10000.
Proof. split; apply Z.leb_le; vm_compute; reflexivity. Qed.

Lemma script_good idx : good_intervals (spread (whole (λ v, v =? idx)) 0 script_runs).
Proof. destruct script_runs_ok as (_ & Hp & Ht). apply whole_good; [exact Hp|lia|apply script_lengths]. Qed.

Lemma ext_good idx is_common : good_intervals (spread (whole (ext_value idx is_common)) 0 ext_runs).
Proof. destruct ext_runs_ok as (_ & Hp & Ht). apply whole_good; [exact Hp|lia|apply script_lengths]. Qed.

(** What the function leaves: the set, or a run that does not come to a [return]. *)
Definition script_result (gs : list bool) (f : Z → bool) (res : outcome Z * cr_mem) : Prop :=
  (∃ s', res = (Ok 0, s') ∧ represents s' f) ∨
  (false ∈ gs ∧ ∃ e s', res = (Err e, s') ∧ (e = OutOfFuel ∨ e = Undefined InvalidPtr)).

Section scripts.
Context `{Realloc}.

(** The points of a set of runs, with their number. *)
Definition run_points {V} (p : V → bool) (rs : list (Z * V)) (l : list Z) : Prop :=
  sorted_points l ∧ Z.of_nat (length l) ≤ 20000 ∧ ∀ x, 0 ≤ x → member l x = has_value p rs x.

Lemma run_points_grows {V} (p : V → bool) (rs : list (Z * V)) m post gs :
  positive_runs rs = true → builds m (spread (whole p) 0 rs) → good_intervals (spread (whole p) 0 rs) →
  grows m (st [] post gs) (λ s', ∃ l post' gs', s' = st l post' gs' ∧ run_points p rs l).
Proof.
  intros Hp Hm Hg. eapply grows_mono; [by apply builds_set|]. intros s' (l & post' & gs' & -> & Hl & Hlen & Hc). exists l, post', gs'. split; [done|]. split; [exact Hl|]. split; [exact Hlen|].
  intros x Hx. apply eq_true_iff_eq. rewrite Hc. by apply whole_covers.
Qed.

Lemma script_set_grows idx post gs :
  grows (script_set idx) (st [] post gs) (λ s', ∃ l post' gs', s' = st l post' gs' ∧ run_points (λ v, v =? idx) script_runs l).
Proof. exact (run_points_grows _ _ _ post gs (proj1 (proj2 script_runs_ok)) (script_set_builds idx) (script_good idx)). Qed.

Lemma ext_set_grows idx is_common post gs :
  grows (ext_set idx is_common) (st [] post gs) (λ s', ∃ l post' gs', s' = st l post' gs' ∧ run_points (ext_value idx is_common) ext_runs l).
Proof. exact (run_points_grows _ _ _ post gs (proj1 (proj2 ext_runs_ok)) (ext_set_builds idx is_common) (ext_good idx is_common)). Qed.

(** [fail:] never reaches a [return]. *)
Lemma script_fail_run fuel is_ext cr1 cr2 s :
  ∃ e, script_fail fuel is_ext cr1 cr2 s = (Err e, s) ∧ (e = OutOfFuel ∨ e = Undefined InvalidPtr).
Proof.
  unfold script_fail. cbv zeta. generalize (is_ext && negb (bool_decide (points cr1 = [] ∧ points cr2 = []))). intros blocks. generalize false.
  induction fuel as [|fuel IH]; intros freed; cbn [loop]; [exists OutOfFuel; by split; [|left]|].
  destruct (blocks && freed); [exists (Undefined InvalidPtr); by split; [|right]|]. rewrite bind_ret. apply IH.
Qed.

Lemma script_failed gs f fuel is_ext cr1 cr2 s : false ∈ gs → script_result gs f (script_fail fuel is_ext cr1 cr2 s).
Proof. intros Hgs. destruct (script_fail_run fuel is_ext cr1 cr2 s) as (e & E & He). right. split; [done|]. by exists e, s. Qed.

(** The last step, on the structure of the caller. *)
Lemma script_last m fuel is_ext cr1 cr2 f gs0 s :
  grows m s (λ s', represents s' f) → (false ∈ grants s → false ∈ gs0) →
  script_result gs0 f ((r ← m; if negb (r =? 0) then script_fail fuel is_ext cr1 cr2 else ret 0) s).
Proof.
  intros (r & s' & E & _ & Hr) Hgs. unfold bind. rewrite E. destruct Hr as [[-> Hs]|[-> Hf]]; [left; by exists s'|apply script_failed; auto].
Qed.

Lemma script_op_grows op l1 post1 l2 post2 post gs f :
  sorted_points l1 → sorted_points l2 → moderate (length l1 + length l2) →
  (∀ x, 0 ≤ x < UINT32_MAX → apply_op op (member l1 x) (member l2 x) = f x) →
  grows (cr_op (points (holding l1 post1)) (len (holding l1 post1)) (points (holding l2 post2)) (len (holding l2 post2)) op) (st [] post gs) (λ s', represents s' f).
Proof.
  intros (Hi1 & He1 & Hf1) (Hi2 & He2 & Hf2) Hm Hf. eapply grows_mono; [apply cr_op_grows; [done|done|by apply Forall_app_2|done|done|done]|].
  intros s' (o & post' & gs' & -> & Hn & _ & Hmem). exists o, post', gs'. split; [done|]. split; [by apply normal_sorted|]. intros x Hx. rewrite Hmem. by apply Hf.
Qed.

(** With the extensions: the set of the script, the set of the extensions, and the two together. *)
Lemma script_ext_run fuel idx post gs :
  script_result gs (script_of idx true)
    (('(r, cr1) ← on_range no_range (script_set idx);
      if negb (r =? 0) then script_fail fuel true cr1 no_range else
      '(r, cr2) ← on_range no_range (ext_set idx (common_script idx));
      if negb (r =? 0) then script_fail fuel true cr1 cr2 else
      if common_script idx then
        '(r, cr2) ← on_range cr2 cr_invert;
        if negb (r =? 0) then script_fail fuel true cr1 cr2 else
        r ← cr_op (points cr1) (len cr1) (points cr2) (len cr2) CR_OP_INTER;
        if negb (r =? 0) then script_fail fuel true cr1 cr2 else ret 0
      else
        r ← cr_op (points cr1) (len cr1) (points cr2) (len cr2) CR_OP_UNION;
        if negb (r =? 0) then script_fail fuel true cr1 cr2 else ret 0) (st [] post gs)).
Proof.
  change no_range with (holding [] []) at 1 3. eapply (on_range_step _ (run_points (λ v, v =? idx) script_runs)); [apply script_set_grows| |intros r' s'; apply script_failed].
  intros l1 post1 gs1 (Hl1 & Hn1 & Hm1) Hg1. change (negb (0 =? 0)) with false. cbv iota. cbn [st range grants] in *.
  eapply (on_range_step _ (run_points (ext_value idx (common_script idx)) ext_runs)); [apply ext_set_grows| |intros r' s' Hf; by apply script_failed, (suffix_false gs gs1)].
  intros l2 post2 gs2 (Hl2 & Hn2 & Hm2) Hg2. change (negb (0 =? 0)) with false. cbv iota. cbn [range grants] in *. assert (gs2 `suffix_of` gs) as Hg by by trans gs1.
  unfold script_of. destruct (common_script idx).
  - eapply (on_range_step _ (λ o, normal_points o ∧ (length o ≤ length l2 + 2)%nat ∧ ∀ x, 0 ≤ x < UINT32_MAX → member o x = negb (member l2 x)));
      [destruct Hl2 as (? & ? & ?); by apply cr_invert_sorted_grows; [..|unfold moderate; lia]| |intros r' s' Hf; by apply script_failed, (suffix_false gs gs2)].
    intros l3 post3 gs3 (Hl3 & Hn3 & Hm3) Hg3. change (negb (0 =? 0)) with false. cbv iota. cbn [range grants] in *. assert (gs3 `suffix_of` gs) as Hg' by by trans gs2.
    apply script_last; [|cbn; by apply suffix_false]. apply (script_op_grows CR_OP_INTER l1 post1 l3 post3 post gs3); [done|by apply normal_sorted|unfold moderate; lia|].
    intros x Hx. unfold script_has, ext_has. rewrite <-Hm1, <-Hm2, (Hm3 x Hx) by lia. cbn [apply_op]. reflexivity.
  - apply script_last; [|cbn; by apply suffix_false]. apply (script_op_grows CR_OP_UNION l1 post1 l2 post2 post gs2); [done|done|unfold moderate; lia|].
    intros x Hx. unfold script_has, ext_has. rewrite <-Hm1, <-Hm2 by lia. cbn [apply_op]. reflexivity.
Qed.

(** C27: [unicode_script] on every name: the name of a script leaves in the structure the set of code points of the script in the table - with the extensions, those of the script or with the script among their extensions, and for Common and Inherited those without extensions - and gives 0; any other name gives -2 and leaves the structure as it was. It never gives -1: after a refused allocation the run does not come to a [return], whatever the bound, because the jump at the end of [fail] goes back to it, and with extensions the second round frees the blocks again. *)
Theorem unicode_script_exact fuel name is_ext post gs :
  match script_spec name is_ext with
  | Some f =>
      (∃ s', unicode_script fuel name is_ext (st [] post gs) = (Ok 0, s') ∧ represents s' f) ∨
      (false ∈ gs ∧ ∃ e s', unicode_script fuel name is_ext (st [] post gs) = (Err e, s') ∧ (e = OutOfFuel ∨ e = Undefined InvalidPtr))
  | None => unicode_script fuel name is_ext (st [] post gs) = (Ok (-2), st [] post gs)
  end.
Proof.
  unfold script_spec. pose proof (unicode_find_name_run (st [] post gs) unicode_script_name_table name (proj2 (proj2 name_tables_ok))) as Efind.
  destruct (named unicode_script_name_table name) as [i|] eqn:Hn; cbn [fmap option_fmap option_map]; [|unfold unicode_script; by erewrite bind_run by exact Efind].
  apply entry_index_range in Hn. set (idx := i + UNICODE_SCRIPT_Unknown + 1).
  assert (script_result gs (script_of idx is_ext) (unicode_script fuel name is_ext (st [] post gs))) as Hres; [|exact Hres].
  unfold unicode_script. erewrite bind_run by exact Efind. rewrite (proj2 (Z.ltb_ge i 0)) by lia. cbv zeta. fold idx. fold (common_script idx).
  destruct is_ext; [apply script_ext_run|]. apply script_last; [|done]. eapply grows_mono; [apply script_set_grows|].
  intros s' (l & post' & gs' & -> & Hl & _ & Hm). exists l, post', gs'. split; [done|]. split; [exact Hl|]. intros x Hx. apply Hm. lia.
Qed.
End scripts.
