(* ===== verification/Lexer.v ===== *)
(** * The lexer: vendors/stb/stb_c_lexer.h

    The lexer in the configuration the program builds it with (the defaults of
    the header, lines 60 to 100). The input buffer and the string storage are two
    arrays owned by the caller; pointers into the input are offsets from
    [input_stream], pointers into the storage offsets from [string_storage], and a
    read or a write outside the array is undefined behaviour ([ReadOutOfBounds], [WriteOutOfBounds]).

    [stb_c_lexer_get_token] is the function of that name with the return value [1]
    for a token and [0] at the end of the input. Its loops get the fuel
    [lex_fuel]: one more than the length of the input buffer, which is enough
    because every turn reads the input at a larger offset than the one before. *)
From S2P Require Import Prelude CStd.
From Stdlib Require Import SpecFloat.

(** ** Token codes (the enum, lines 177 to 211) *)

Definition CLEX_eof : Z := 256.
Definition CLEX_parse_error : Z := 257.
Definition CLEX_intlit : Z := 258.
Definition CLEX_floatlit : Z := 259.
Definition CLEX_id : Z := 260.
Definition CLEX_dqstring : Z := 261.
Definition CLEX_sqstring : Z := 262.
Definition CLEX_charlit : Z := 263.
Definition CLEX_eq : Z := 264.
Definition CLEX_noteq : Z := 265.
Definition CLEX_lesseq : Z := 266.
Definition CLEX_greatereq : Z := 267.
Definition CLEX_andand : Z := 268.
Definition CLEX_oror : Z := 269.
Definition CLEX_shl : Z := 270.
Definition CLEX_shr : Z := 271.
Definition CLEX_plusplus : Z := 272.
Definition CLEX_minusminus : Z := 273.
Definition CLEX_pluseq : Z := 274.
Definition CLEX_minuseq : Z := 275.
Definition CLEX_muleq : Z := 276.
Definition CLEX_diveq : Z := 277.
Definition CLEX_modeq : Z := 278.
Definition CLEX_andeq : Z := 279.
Definition CLEX_oreq : Z := 280.
Definition CLEX_xoreq : Z := 281.
Definition CLEX_arrow : Z := 282.
Definition CLEX_eqarrow : Z := 283.
Definition CLEX_shleq : Z := 284.
Definition CLEX_shreq : Z := 285.

(** ** The lexer state *)

Record stb_lexer : Type := StbLexer {
  lex_input : list Z;              (** the array [input_stream] points to *)
  lex_eof : Z;
  lex_parse_point : Z;
  lex_string_storage : list Z;     (** the array [string_storage] points to *)
  lex_string_storage_len : Z;
  lex_where_firstchar : Z;
  lex_where_lastchar : Z;
  lex_token : Z;
  lex_real_number : spec_float;
  lex_int_number : Z;
  lex_string : option Z;           (** [None] while the field is uninitialised *)
  lex_string_len : Z;
}.

Definition set_location (tok first last pp : Z) (lx : stb_lexer) : stb_lexer :=
  StbLexer (lex_input lx) (lex_eof lx) pp (lex_string_storage lx)
    (lex_string_storage_len lx) first last tok (lex_real_number lx)
    (lex_int_number lx) (lex_string lx) (lex_string_len lx).
Definition set_token (tok : Z) (lx : stb_lexer) : stb_lexer :=
  StbLexer (lex_input lx) (lex_eof lx) (lex_parse_point lx) (lex_string_storage lx)
    (lex_string_storage_len lx) (lex_where_firstchar lx) (lex_where_lastchar lx) tok
    (lex_real_number lx) (lex_int_number lx) (lex_string lx) (lex_string_len lx).
Definition set_storage (st : list Z) (lx : stb_lexer) : stb_lexer :=
  StbLexer (lex_input lx) (lex_eof lx) (lex_parse_point lx) st
    (lex_string_storage_len lx) (lex_where_firstchar lx) (lex_where_lastchar lx)
    (lex_token lx) (lex_real_number lx) (lex_int_number lx) (lex_string lx)
    (lex_string_len lx).
Definition set_string (s : option Z) (lx : stb_lexer) : stb_lexer :=
  StbLexer (lex_input lx) (lex_eof lx) (lex_parse_point lx) (lex_string_storage lx)
    (lex_string_storage_len lx) (lex_where_firstchar lx) (lex_where_lastchar lx)
    (lex_token lx) (lex_real_number lx) (lex_int_number lx) s (lex_string_len lx).
Definition set_string_len (n : Z) (lx : stb_lexer) : stb_lexer :=
  StbLexer (lex_input lx) (lex_eof lx) (lex_parse_point lx) (lex_string_storage lx)
    (lex_string_storage_len lx) (lex_where_firstchar lx) (lex_where_lastchar lx)
    (lex_token lx) (lex_real_number lx) (lex_int_number lx) (lex_string lx) n.
Definition set_real_number (r : spec_float) (lx : stb_lexer) : stb_lexer :=
  StbLexer (lex_input lx) (lex_eof lx) (lex_parse_point lx) (lex_string_storage lx)
    (lex_string_storage_len lx) (lex_where_firstchar lx) (lex_where_lastchar lx)
    (lex_token lx) r (lex_int_number lx) (lex_string lx) (lex_string_len lx).
Definition set_int_number (n : Z) (lx : stb_lexer) : stb_lexer :=
  StbLexer (lex_input lx) (lex_eof lx) (lex_parse_point lx) (lex_string_storage lx)
    (lex_string_storage_len lx) (lex_where_firstchar lx) (lex_where_lastchar lx)
    (lex_token lx) (lex_real_number lx) n (lex_string lx) (lex_string_len lx).

(** [stb_c_lexer_init] leaves the token fields of the structure as they are. *)
Definition stb_c_lexer_init (lexer : stb_lexer) (input_stream : list Z)
    (input_stream_end : Z) (string_store : list Z) (store_length : Z) : stb_lexer :=
  StbLexer input_stream input_stream_end 0 string_store store_length
    (lex_where_firstchar lexer) (lex_where_lastchar lexer) (lex_token lexer)
    (lex_real_number lexer) (lex_int_number lexer) (lex_string lexer)
    (lex_string_len lexer).

(** ** Memory accesses *)

Definition char_at (s : list Z) (p : Z) : option Z :=
  if 0 <=? p then s !! Z.to_nat p else None.

(** [*p] for a pointer into the input. *)
Definition peek (p : Z) : M stb_lexer Z :=
  o ← gets (λ lx, char_at (lex_input lx) p); of_option ReadOutOfBounds o.

(** [string_storage[i] = c]. *)
Definition store_char (i c : Z) : M stb_lexer unit :=
  st ← gets lex_string_storage;
  if (0 <=? i) && (i <? Z.of_nat (length st))
  then modify (set_storage (<[Z.to_nat i := c]> st))
  else throw (Undefined WriteOutOfBounds).

Definition lex_fuel (lx : stb_lexer) : nat := Datatypes.S (length (lex_input lx)).

(** ** Helpers of the lexer *)

Definition stb__clex_token (token start end_ : Z) : M stb_lexer Z :=
  modify (set_location token start end_ (end_ + 1));; ret 1.

Definition stb__clex_eof : M stb_lexer Z :=
  modify (set_token CLEX_eof);; ret 0.

Definition stb__clex_iswhite (x : Z) : bool :=
  (x =? $" ") || (x =? $"009") || (x =? $"013") || (x =? $"010") || (x =? $"012").

(** Without [STB__clex_parse_suffixes], a suffix is not looked at. *)
Definition stb__clex_parse_suffixes (tokenid start cur : Z) : M stb_lexer Z :=
  stb__clex_token tokenid start (cur - 1).

(** The character and the pointer [*q]. *)
Definition stb__clex_parse_char (p : Z) : M stb_lexer (Z * Z) :=
  c ← peek p;
  if c =? $"\" then
    c1 ← peek (p + 1);
    if c1 =? $"\" then ret ($"\", p + 2)
    else if c1 =? $"'" then ret ($"'", p + 2)
    else if c1 =? $"034" then ret ($"034", p + 2)
    else if c1 =? $"t" then ret ($"009", p + 2)
    else if c1 =? $"f" then ret ($"012", p + 2)
    else if c1 =? $"n" then ret ($"010", p + 2)
    else if c1 =? $"r" then ret ($"013", p + 2)
    else if c1 =? $"0" then ret (0, p + 2)
    else if (c1 =? $"x") || (c1 =? $"X") then ret (-1, p + 2)
    else if c1 =? $"u" then ret (-1, p + 2)
    else ret (to_uchar c, p + 1)
  else ret (to_uchar c, p + 1).

(** One turn of the [while] of [stb__clex_parse_string], at the pointers [p] and
    [out]. It stops with [inl r] on a [return r], with [inr (p, out)] at the
    delimiter. *)
Definition parse_string_turn (start delim outend : Z) (po : Z * Z) :
    M stb_lexer ((Z * Z) + (Z + Z * Z)) :=
  let '(p, out) := po in
  c ← peek p;
  if c =? delim then ret (inr (inr (p, out))) else
  '(n, p') ← (if c =? $"\" then stb__clex_parse_char p else ret (to_uchar c, p + 1));
  if n <? 0 then
    r ← stb__clex_token CLEX_parse_error start p'; ret (inr (inl r))
  else if out + 1 >? outend then
    r ← stb__clex_token CLEX_parse_error start p'; ret (inr (inl r))
  else
    store_char out (to_char n);; ret (inl (p', out + 1)).

Definition stb__clex_parse_string (p type : Z) : M stb_lexer Z :=
  delim ← peek p;
  outend ← gets lex_string_storage_len;
  fuel ← gets lex_fuel;
  r ← loop fuel (parse_string_turn p delim outend) (p + 1, 0);
  match r with
  | inl r => ret r
  | inr (q, out) =>
      store_char out 0;;
      modify (set_string (Some 0));;
      modify (set_string_len out);;
      stb__clex_token type p q
  end.

(** ** Whitespace, comments and preprocessor lines *)

(** [while (p != eof && cond( *p)) ++p;] *)
Definition scan_while (cond : Z → bool) (p : Z) : M stb_lexer Z :=
  e ← gets lex_eof;
  fuel ← gets lex_fuel;
  loop fuel (λ p,
    if p =? e then ret (inr p)
    else c ← peek p; if cond c then ret (inl (p + 1)) else ret (inr p)) p.

(** [while (p != eof && (p[0] != '*' || p[1] != '/')) ++p;] *)
Definition scan_comment (p : Z) : M stb_lexer Z :=
  e ← gets lex_eof;
  fuel ← gets lex_fuel;
  loop fuel (λ p,
    if p =? e then ret (inr p)
    else c0 ← peek p;
         if negb (c0 =? $"*") then ret (inl (p + 1))
         else c1 ← peek (p + 1);
              if negb (c1 =? $"/") then ret (inl (p + 1)) else ret (inr p)) p.

(** [p != eof && p[0] == a && p[1] == b] *)
Definition looking_at (a b p : Z) : M stb_lexer bool :=
  e ← gets lex_eof;
  if p =? e then ret false
  else c0 ← peek p;
       if c0 =? a then c1 ← peek (p + 1); ret (c1 =? b) else ret false.

Definition not_eol (c : Z) : bool := negb (c =? $"013") && negb (c =? $"010").

(** One turn of the [for (;;)]: [inl p] is [continue] at [p], [inr (Some p)] the
    [break], [inr None] the return of a parse error. *)
Definition skip_turn (p : Z) : M stb_lexer (Z + option Z) :=
  p ← scan_while stb__clex_iswhite p;
  b ← looking_at ($"/") ($"/") p;
  if b then p' ← scan_while not_eol p; ret (inl p') else
  b ← looking_at ($"/") ($"*") p;
  if b then
    p' ← scan_comment (p + 2);
    e ← gets lex_eof;
    if p' =? e then stb__clex_token CLEX_parse_error p (p' - 1);; ret (inr None)
    else ret (inl (p' + 2))
  else
  e ← gets lex_eof;
  b ← (if p =? e then ret false else c ← peek p; ret (c =? $"#"));
  if b then p' ← scan_while not_eol p; ret (inl p')
  else ret (inr (Some p)).

Definition skip_blanks (p : Z) : M stb_lexer (option Z) :=
  fuel ← gets lex_fuel; loop fuel skip_turn p.

(** ** Tokens *)

Definition is_alpha (c : Z) : bool :=
  (($"a" <=? c) && (c <=? $"z")) || (($"A" <=? c) && (c <=? $"Z")).

Definition id_start (c : Z) : bool :=
  is_alpha c || (c =? $"_") || (128 <=? to_uchar c) || (c =? $"$").

Definition id_char (c : Z) : bool :=
  is_alpha c || is_digit c || (c =? $"_") || (128 <=? to_uchar c) || (c =? $"$").

Definition single_char (c p : Z) : M stb_lexer Z := stb__clex_token c p p.

(** One turn of the [do ... while]: [inr (inl r)] is a [return r]. *)
Definition identifier_turn (p n : Z) : M stb_lexer (Z + (Z + Z)) :=
  len ← gets lex_string_storage_len;
  if n + 1 >=? len then
    r ← stb__clex_token CLEX_parse_error p (p + n); ret (inr (inl r))
  else
    c ← peek (p + n);
    store_char n c;;
    c' ← peek (p + (n + 1));
    if id_char c' then ret (inl (n + 1)) else ret (inr (inr (n + 1))).

Definition lex_identifier (p : Z) : M stb_lexer Z :=
  modify (set_string (Some 0));;
  fuel ← gets lex_fuel;
  r ← loop fuel (identifier_turn p) 0;
  match r with
  | inl r => ret r
  | inr n =>
      store_char n 0;;
      modify (set_string_len n);;
      stb__clex_token CLEX_id p (p + n - 1)
  end.

(** [p+1 != eof && p[1] == c1] *)
Definition next_is (c1 p : Z) : M stb_lexer bool :=
  e ← gets lex_eof;
  if p + 1 =? e then ret false else c ← peek (p + 1); ret (c =? c1).

Definition lex_plus (c p : Z) : M stb_lexer Z :=
  b ← next_is ($"+") p; if b then stb__clex_token CLEX_plusplus p (p + 1) else
  b ← next_is ($"=") p; if b then stb__clex_token CLEX_pluseq p (p + 1) else
  single_char c p.

Definition lex_minus (c p : Z) : M stb_lexer Z :=
  b ← next_is ($"-") p; if b then stb__clex_token CLEX_minusminus p (p + 1) else
  b ← next_is ($"=") p; if b then stb__clex_token CLEX_minuseq p (p + 1) else
  b ← next_is ($">") p; if b then stb__clex_token CLEX_arrow p (p + 1) else
  single_char c p.

Definition lex_and (c p : Z) : M stb_lexer Z :=
  b ← next_is ($"&") p; if b then stb__clex_token CLEX_andand p (p + 1) else
  b ← next_is ($"=") p; if b then stb__clex_token CLEX_andeq p (p + 1) else
  single_char c p.

Definition lex_or (c p : Z) : M stb_lexer Z :=
  b ← next_is ($"|") p; if b then stb__clex_token CLEX_oror p (p + 1) else
  b ← next_is ($"=") p; if b then stb__clex_token CLEX_oreq p (p + 1) else
  single_char c p.

(** The cases that only know the operator [c=]: '=', '!', '^', '%', '*', '/'. *)
Definition lex_with_eq (tok c p : Z) : M stb_lexer Z :=
  b ← next_is ($"=") p; if b then stb__clex_token tok p (p + 1) else single_char c p.

(** '<' and '>', with their shifts. *)
Definition lex_angle (tok_eq tok_sh tok_sheq c p : Z) : M stb_lexer Z :=
  b ← next_is ($"=") p; if b then stb__clex_token tok_eq p (p + 1) else
  b ← next_is c p;
  if b then
    b ← next_is ($"=") (p + 1);
    if b then stb__clex_token tok_sheq p (p + 2) else stb__clex_token tok_sh p (p + 1)
  else single_char c p.

Definition lex_charlit (p : Z) : M stb_lexer Z :=
  '(n, q) ← stb__clex_parse_char (p + 1);
  modify (set_int_number n);;
  if n <? 0 then stb__clex_token CLEX_parse_error p p else
  e ← gets lex_eof;
  if q =? e then stb__clex_token CLEX_parse_error p q else
  c ← peek q;
  if negb (c =? $"'") then stb__clex_token CLEX_parse_error p q
  else stb__clex_token CLEX_charlit p (q + 1).

(** [strtol(p, &q, base)] on the input: the value and [q]. *)
Definition input_strtol (p base : Z) : M stb_lexer (Z * Z) :=
  o ← gets (λ lx, strtol (drop (Z.to_nat p) (lex_input lx)) base);
  '(v, n) ← of_option ReadOutOfBounds o; ret (v, p + n).

Definition input_strtod (p : Z) : M stb_lexer (spec_float * Z) :=
  o ← gets (λ lx, strtod (drop (Z.to_nat p) (lex_input lx)));
  '(v, n) ← of_option ReadOutOfBounds o; ret (v, p + n).

Definition lex_integer (base p : Z) : M stb_lexer Z :=
  '(n, q) ← input_strtol p base;
  modify (set_int_number n);;
  stb__clex_parse_suffixes CLEX_intlit p q.

(** The case '1' to '9', into which the case '0' falls through. *)
Definition lex_number (c p : Z) : M stb_lexer Z :=
  q ← scan_while is_digit p;
  e ← gets lex_eof;
  is_float ← (if q =? e then ret false
              else c ← peek q; ret ((c =? $".") || (c =? $"e") || (c =? $"E")));
  if is_float then
    '(r, q) ← input_strtod p;
    modify (set_real_number r);;
    stb__clex_parse_suffixes CLEX_floatlit p q
  else if c =? $"0" then lex_integer 8 p
  else lex_integer 10 p.

Definition lex_zero (c p : Z) : M stb_lexer Z :=
  e ← gets lex_eof;
  is_hex ← (if p + 1 =? e then ret false
            else c1 ← peek (p + 1); ret ((c1 =? $"x") || (c1 =? $"X")));
  if is_hex then
    '(n, q) ← input_strtol p 16;
    modify (set_int_number n);;
    if q =? p + 2 then stb__clex_token CLEX_parse_error (p - 2) (p - 1)
    else stb__clex_parse_suffixes CLEX_intlit p q
  else lex_number c p.

(** The [switch ( *p)]. *)
Definition lex_switch (c p : Z) : M stb_lexer Z :=
  if id_start c then lex_identifier p
  else if c =? $"+" then lex_plus c p
  else if c =? $"-" then lex_minus c p
  else if c =? $"&" then lex_and c p
  else if c =? $"|" then lex_or c p
  else if c =? $"=" then lex_with_eq CLEX_eq c p
  else if c =? $"!" then lex_with_eq CLEX_noteq c p
  else if c =? $"^" then lex_with_eq CLEX_xoreq c p
  else if c =? $"%" then lex_with_eq CLEX_modeq c p
  else if c =? $"*" then lex_with_eq CLEX_muleq c p
  else if c =? $"/" then lex_with_eq CLEX_diveq c p
  else if c =? $"<" then lex_angle CLEX_lesseq CLEX_shl CLEX_shleq c p
  else if c =? $">" then lex_angle CLEX_greatereq CLEX_shr CLEX_shreq c p
  else if c =? $"034" then stb__clex_parse_string p CLEX_dqstring
  else if c =? $"'" then lex_charlit p
  else if c =? $"0" then lex_zero c p
  else if is_digit c then lex_number c p
  else single_char c p.

Definition stb_c_lexer_get_token : M stb_lexer Z :=
  p0 ← gets lex_parse_point;
  r ← skip_blanks p0;
  match r with
  | None => ret 1
  | Some p =>
      e ← gets lex_eof;
      if p =? e then stb__clex_eof
      else c ← peek p; lex_switch c p
  end.
