(* ===== verification/LexerFacts.v ===== *)
(** * Facts about the lexer: termination, progress, memory accesses

    For each function of the lexer, a weakest-precondition lemma that says what
    it returns, what it leaves of the state, and which errors it can end in. *)
From S2P Require Import Prelude CStd Lexer.

(** ** Vocabulary *)

(** What no lexer function changes. *)
Record lex_frame (lx lx' : stb_lexer) : Prop := LexFrame {
  frame_input : lex_input lx' = lex_input lx;
  frame_eof : lex_eof lx' = lex_eof lx;
  frame_storage_len : lex_string_storage_len lx' = lex_string_storage_len lx;
  frame_storage : length (lex_string_storage lx') = length (lex_string_storage lx);
}.

(** [p] is a place of the input, and the input is terminated at [eof]. *)
Definition inside (lx : stb_lexer) (p : Z) : Prop :=
  p ≤ lex_eof lx ∧ char_at (lex_input lx) (lex_eof lx) = Some 0.

Definition read_error (e : error) : Prop := e = Undefined ReadOutOfBounds.

(** A write outside the storage can only happen when the storage has no room for
    the terminator beyond [string_storage_len]. *)
Definition write_error (lx : stb_lexer) (e : error) : Prop :=
  e = Undefined WriteOutOfBounds ∧
  Z.of_nat (length (lex_string_storage lx)) ≤ lex_string_storage_len lx.

(** [p] is inside, and the input holds no string or character literal. *)
Definition safe (lx : stb_lexer) (p : Z) : Prop :=
  inside lx p ∧ ($"034" ∉ lex_input lx) ∧ ($"'" ∉ lex_input lx).

(** The errors of a function started at [p]. *)
Definition lex_errors (lx : stb_lexer) (p : Z) (e : error) : Prop :=
  (read_error e ∧ ¬ safe lx p) ∨ write_error lx e.

(** What a function that returns a token found at [p] guarantees. *)
Definition token_at (lx : stb_lexer) (p : Z) (r : Z) (lx' : stb_lexer) : Prop :=
  lex_frame lx lx' ∧ r = 1 ∧ p < lex_parse_point lx' ∧
  (safe lx p → lex_parse_point lx' ≤ lex_eof lx).

(** ** The frame *)

#[export] Instance lex_frame_preorder : PreOrder lex_frame.
Proof. split; [by split|]. intros ??? [] []; split; congruence. Qed.

Lemma frame_set_location t f l p lx : lex_frame lx (set_location t f l p lx).
Proof. by split. Qed.
Lemma frame_set_string s lx : lex_frame lx (set_string s lx).
Proof. by split. Qed.
Lemma frame_set_string_len s lx : lex_frame lx (set_string_len s lx).
Proof. by split. Qed.
Lemma frame_set_int_number n lx : lex_frame lx (set_int_number n lx).
Proof. by split. Qed.
Lemma frame_set_real_number n lx : lex_frame lx (set_real_number n lx).
Proof. by split. Qed.
Lemma frame_set_storage i c lx :
  lex_frame lx (set_storage (<[i := c]> (lex_string_storage lx)) lx).
Proof. split; [done..|]. cbn. by rewrite length_insert. Qed.

Create HintDb lexer.
#[export] Hint Resolve frame_set_location frame_set_string frame_set_string_len
  frame_set_int_number frame_set_real_number frame_set_storage : lexer.
#[export] Hint Extern 1 (lex_frame _ _) => reflexivity : lexer.

Lemma char_at_Some s p c : char_at s p = Some c → 0 ≤ p < Z.of_nat (length s).
Proof.
  unfold char_at. destruct (Z.leb_spec 0 p); [|done].
  intros H1%lookup_lt_Some. lia.
Qed.

Lemma char_at_None s p : char_at s p = None → p < 0 ∨ Z.of_nat (length s) ≤ p.
Proof.
  unfold char_at. destruct (Z.leb_spec 0 p); [|lia].
  intros H1%lookup_ge_None. lia.
Qed.

Lemma inside_length lx p : inside lx p → 0 ≤ lex_eof lx < Z.of_nat (length (lex_input lx)).
Proof. intros [_ H]. by apply char_at_Some in H. Qed.

Lemma inside_le lx p q : inside lx p → q ≤ lex_eof lx → inside lx q.
Proof. intros [??]; by split. Qed.

(** A character other than the terminator is before the end. *)
Lemma inside_lt lx p c :
  inside lx p → char_at (lex_input lx) p = Some c → c ≠ 0 → p < lex_eof lx.
Proof. intros [??] ??. destruct (decide (p = lex_eof lx)) as [->|]; [congruence|lia]. Qed.

(** The turn of a scanning loop is bounded by what is left of the input. *)
Definition room (lx : stb_lexer) (p : Z) : nat := Z.to_nat (Z.of_nat (length (lex_input lx)) - p).

Lemma room_lt lx p q c : char_at (lex_input lx) p = Some c → p < q → (room lx q < room lx p)%nat.
Proof. intros H%char_at_Some ?. unfold room. lia. Qed.

Lemma room_fuel lx p : 0 ≤ p → (room lx p < lex_fuel lx)%nat.
Proof. intros. unfold room, lex_fuel. lia. Qed.

#[export] Hint Resolve room_lt room_fuel : lexer.

(** ** Memory accesses *)

Lemma peek_wp p (Q : Z → stb_lexer → Prop) (E : error → stb_lexer → Prop) lx :
  (∀ c, char_at (lex_input lx) p = Some c → Q c lx) →
  (char_at (lex_input lx) p = None → E (Undefined ReadOutOfBounds) lx) →
  wp (peek p) Q E lx.
Proof. intros. unfold peek. wp_steps. by apply wp_of_option. Qed.

(** A read error at a place between [p] and [eof] shows that [p] is not inside. *)
Lemma read_outside lx p q :
  0 ≤ q → (inside lx p → q ≤ lex_eof lx) → char_at (lex_input lx) q = None →
  ¬ inside lx p.
Proof.
  intros Hq Hle H%char_at_None Hin. pose proof (inside_length _ _ Hin).
  specialize (Hle Hin). lia.
Qed.

Lemma lex_read_error lx p q :
  0 ≤ q → (safe lx p → q ≤ lex_eof lx) → char_at (lex_input lx) q = None →
  lex_errors lx p (Undefined ReadOutOfBounds).
Proof.
  intros ?? Hn. left. split; [done|]. intros Hs. pose proof Hs as [? _].
  eapply (read_outside lx p q); eauto.
Qed.

Lemma store_char_wp i c (Q : unit → stb_lexer → Prop) (E : error → stb_lexer → Prop) lx :
  0 ≤ i →
  (i < Z.of_nat (length (lex_string_storage lx)) →
   Q tt (set_storage (<[Z.to_nat i := c]> (lex_string_storage lx)) lx)) →
  (Z.of_nat (length (lex_string_storage lx)) ≤ i → E (Undefined WriteOutOfBounds) lx) →
  wp (store_char i c) Q E lx.
Proof.
  intros Hi HQ HE. unfold store_char. wp_steps.
  - apply HQ. lia.
  - apply HE. apply andb_false_iff in Hb. lia.
Qed.

Lemma next_is_wp c1 p (Q : bool → stb_lexer → Prop) (E : error → stb_lexer → Prop) lx :
  (lex_eof lx ≠ p + 1 → char_at (lex_input lx) (p + 1) = Some c1 → Q true lx) →
  Q false lx →
  (lex_eof lx ≠ p + 1 → char_at (lex_input lx) (p + 1) = None → E (Undefined ReadOutOfBounds) lx) →
  wp (next_is c1 p) Q E lx.
Proof.
  intros HQ1 HQ2 HE. unfold next_is. wp_steps; [done|].
  apply peek_wp; [|intros; apply HE; [lia|done]].
  intros c Hc. wp_steps. destruct (Z.eqb_spec c c1) as [->|]; [|done]. apply HQ1; [lia|done].
Qed.

(** ** Scanning loops *)

Lemma scan_while_wp cond p lx :
  0 ≤ p →
  wp (scan_while cond p)
    (λ q lx', lx' = lx ∧ p ≤ q ∧ (inside lx p → q ≤ lex_eof lx) ∧
       (∀ i, p ≤ i < q → ∃ c, char_at (lex_input lx) i = Some c ∧ cond c = true) ∧
       (q = lex_eof lx ∨ ∃ c, char_at (lex_input lx) q = Some c ∧ cond c = false))
    (λ e _, read_error e ∧ ¬ inside lx p) lx.
Proof.
  intros Hp. unfold scan_while. wp_steps.
  apply (wp_loop (λ q lx', lx' = lx ∧ p ≤ q ∧ (inside lx p → q ≤ lex_eof lx) ∧
    ∀ i, p ≤ i < q → ∃ c, char_at (lex_input lx) i = Some c ∧ cond c = true)
    (λ q _, room lx q)); [|split_and!; [done|lia|by intros []|lia]|by apply room_fuel].
  intros q ? (-> & Hq & Hle & Hall). wp_steps.
  { apply Z.eqb_eq in Hb as ->. eauto 6. }
  apply Z.eqb_neq in Hb. apply peek_wp.
  - intros c Hc. wp_steps.
    + split_and!; [done|lia|intros Hin; specialize (Hle Hin); lia| |eauto with lexer lia].
      intros i Hi. destruct (decide (i = q)) as [->|]; [eauto|]. apply Hall. lia.
    + split_and!; eauto.
  - intros. split; [done|]. apply (read_outside _ _ q); [lia|done|done].
Qed.

Lemma looking_at_wp a b p lx :
  0 ≤ p → a ≠ 0 →
  wp (looking_at a b p)
    (λ r lx', lx' = lx ∧
       if (r : bool) then p ≠ lex_eof lx ∧ char_at (lex_input lx) p = Some a ∧
                          char_at (lex_input lx) (p + 1) = Some b
       else p = lex_eof lx ∨
            ∃ c, char_at (lex_input lx) p = Some c ∧
                 (c = a → char_at (lex_input lx) (p + 1) ≠ Some b))
    (λ e _, read_error e ∧ ¬ inside lx p) lx.
Proof.
  intros Hp Ha. unfold looking_at. wp_steps.
  { apply Z.eqb_eq in Hb as ->. eauto. }
  apply Z.eqb_neq in Hb. apply peek_wp.
  - intros c Hc. wp_steps; [|split; [done|right; exists c; split; [done|]]; lia].
    apply Z.eqb_eq in Hb0 as ->. apply peek_wp.
    + intros c1 Hc1. wp_steps. split; [done|].
      destruct (Z.eqb_spec c1 b) as [->|]; [done|]. right. exists a. split; [done|]. congruence.
    + intros. split; [done|]. apply (read_outside _ _ (p + 1)); [lia| |done].
      intros Hin. pose proof (inside_lt _ _ _ Hin Hc Ha). lia.
  - intros. split; [done|]. apply (read_outside _ _ p); [lia|by intros []|done].
Qed.

Lemma scan_comment_wp p lx :
  0 ≤ p →
  wp (scan_comment p)
    (λ q lx', lx' = lx ∧ p ≤ q ∧ (inside lx p → q ≤ lex_eof lx) ∧
       (q = lex_eof lx ∨ char_at (lex_input lx) q = Some $"*" ∧
                         char_at (lex_input lx) (q + 1) = Some $"/"))
    (λ e _, read_error e ∧ ¬ inside lx p) lx.
Proof.
  intros Hp. unfold scan_comment. wp_steps.
  apply (wp_loop (λ q lx', lx' = lx ∧ p ≤ q ∧ (inside lx p → q ≤ lex_eof lx))
    (λ q _, room lx q)); [|split_and!; [done|lia|by intros []]|by apply room_fuel].
  intros q ? (-> & Hq & Hle). wp_steps.
  { apply Z.eqb_eq in Hb as ->. eauto 6. }
  apply Z.eqb_neq in Hb. apply peek_wp.
  2:{ intros. split; [done|]. apply (read_outside _ _ q); [lia|done|done]. }
  intros c Hc. assert (inside lx p → q + 1 ≤ lex_eof lx).
  { intros Hin. specialize (Hle Hin). lia. }
  wp_steps; [split_and!; [done|lia|done|eauto with lexer lia]|].
  apply negb_false_iff, Z.eqb_eq in Hb0 as ->. apply peek_wp.
  - intros c1 Hc1. wp_steps; [split_and!; [done|lia|done|eauto with lexer lia]|].
    apply negb_false_iff, Z.eqb_eq in Hb0 as ->. eauto 7.
  - intros. split; [done|]. apply (read_outside _ _ (q + 1)); [lia|done|done].
Qed.

(** A scan that starts on a character it accepts makes progress. *)
Lemma scan_line_wp cond p c lx :
  char_at (lex_input lx) p = Some c → cond c = true → p ≠ lex_eof lx →
  wp (scan_while cond p)
    (λ q lx', lx' = lx ∧ p < q ∧ (inside lx p → q ≤ lex_eof lx))
    (λ e _, read_error e ∧ ¬ inside lx p) lx.
Proof.
  intros Hc Hcond Hne. pose proof (char_at_Some _ _ _ Hc).
  eapply wp_mono; [apply scan_while_wp; lia| |done].
  intros q ? (-> & Hq & Hle & _ & Hend). split_and!; [done| |done].
  destruct (decide (q = p)) as [->|]; [|lia].
  destruct Hend as [|(c' & Hc' & ?)]; congruence.
Qed.

(** Blanks stop at the end, at a character that starts no blank, or at a
    comment without end. *)
Definition skipped (lx : stb_lexer) (p : Z) (r : option Z) (lx' : stb_lexer) : Prop :=
  match r with
  | None => lex_frame lx lx' ∧ lex_token lx' = CLEX_parse_error ∧
            lex_parse_point lx' = lex_eof lx ∧ p < lex_eof lx ∧
            p < Z.of_nat (length (lex_input lx))
  | Some q => lx' = lx ∧ p ≤ q ∧ (inside lx p → q ≤ lex_eof lx)
  end.

Lemma skip_turn_wp p lx :
  0 ≤ p →
  wp (skip_turn p)
    (λ r lx', match r with
              | inl q => lx' = lx ∧ p < q ∧ (inside lx p → q ≤ lex_eof lx) ∧
                         ∃ i c, p ≤ i < q ∧ char_at (lex_input lx) i = Some c
              | inr r => skipped lx p r lx'
              end)
    (λ e _, read_error e ∧ ¬ inside lx p) lx.
Proof.
  intros Hp. unfold skip_turn. wp_steps.
  eapply wp_mono; [by apply scan_while_wp| |done].
  intros q ? (-> & Hq & Hle & Hws & _). wp_steps.
  assert (inside lx p → inside lx q) as Hin by (intros Hi; eapply inside_le; eauto).
  assert (∀ e, read_error e ∧ ¬ inside lx q → read_error e ∧ ¬ inside lx p) as HE by (intros e []; auto).
  eapply wp_mono; [apply looking_at_wp; lia| |by eauto].
  intros [] ? [-> Hl1]; wp_steps.
  { destruct Hl1 as (Hne & Hc & _).
    eapply wp_mono; [by eapply scan_line_wp| |by eauto].
    intros q' ? (-> & Hq' & Hle'). wp_steps. split_and!; [done|lia|by auto|].
    exists q. eexists. by split; [lia|]. }
  eapply wp_mono; [apply looking_at_wp; lia| |by eauto].
  intros [] ? [-> Hl2]; wp_steps.
  { destruct Hl2 as (Hne & Hc & Hc1).
    assert (inside lx p → q + 2 ≤ lex_eof lx) as Hle2.
    { intros Hi%Hin. pose proof (inside_lt _ _ _ Hi Hc).
      destruct (decide (q + 1 = lex_eof lx)) as [He|]; [|lia].
      destruct Hi as [_ Ht]. rewrite <-He in Ht. congruence. }
    eapply wp_mono; [apply scan_comment_wp; lia| |].
    2:{ intros e s' [? Hn]. split; [done|]. intros Hi. apply Hn. eapply inside_le; eauto. }
    intros q' ? (-> & Hq' & Hle' & Hend). wp_steps.
    - apply Z.eqb_eq in Hb as ->. unfold stb__clex_token. wp_steps.
      apply char_at_Some in Hc. cbn. split_and!; eauto with lexer; lia.
    - apply Z.eqb_neq in Hb. destruct Hend as [|[Hs Hs1]]; [done|].
      split_and!; [done|lia| |exists q; eexists; by split; [lia|]].
      intros Hi. assert (inside lx (q' + 1)) as Hi'.
      { eapply inside_le; [done|]. assert (q' ≤ lex_eof lx); [|lia].
        apply Hle'. eapply inside_le; eauto. }
      pose proof (inside_lt _ _ _ Hi' Hs1). lia. }
  1: done.
  apply Z.eqb_neq in Hb. apply peek_wp.
  2:{ intros. apply HE. split; [done|]. apply (read_outside _ _ q); [lia|by intros []|done]. }
  intros c Hc. wp_steps; [|done]. apply Z.eqb_eq in Hb0 as ->.
  eapply wp_mono; [by eapply scan_line_wp| |by eauto].
  intros q' ? (-> & Hq' & Hle'). wp_steps. split_and!; [done|lia|by auto|].
  exists q. eexists. by split; [lia|].
Qed.

Lemma skip_blanks_wp p lx :
  0 ≤ p →
  wp (skip_blanks p) (λ r lx', skipped lx p r lx') (λ e _, read_error e ∧ ¬ inside lx p) lx.
Proof.
  intros Hp. unfold skip_blanks. wp_steps.
  apply (wp_loop (λ q lx', lx' = lx ∧ p ≤ q ∧ (inside lx p → q ≤ lex_eof lx))
    (λ q _, room lx q)); [|split_and!; [done|lia|by intros []]|by apply room_fuel].
  intros q ? (-> & Hq & Hle).
  assert (inside lx p → inside lx q) as Hin by (intros Hi; eapply inside_le; eauto).
  eapply wp_mono; [apply skip_turn_wp; lia| |by intros e s' []; auto].
  intros [q'|[q'|]] lx'; cbn.
  - intros (-> & Hlt & Hle' & i & c & Hi & Hc). split_and!; [done|lia|auto|].
    apply char_at_Some in Hc. unfold room. lia.
  - intros (-> & Hlt & Hle'). split_and!; [done|lia|auto].
  - intros (? & ? & ? & ? & ?). split_and!; [done..|lia|lia].
Qed.


(** ** Tokens *)

Lemma clex_token_wp tok first last p lx lx1 (E : error → stb_lexer → Prop) :
  lex_frame lx lx1 → p ≤ last → (safe lx p → last < lex_eof lx) →
  wp (stb__clex_token tok first last) (λ r lx', token_at lx p r lx' ∧ lex_token lx' = tok) E lx1.
Proof.
  intros Hf Hp Hs. unfold stb__clex_token. wp_steps.
  split; [|done]. split_and!; [|done|cbn; lia|intros H%Hs; cbn; lia].
  etrans; [done|]. apply frame_set_location.
Qed.

(** The token found at [p], where [c] is. *)
Definition char_here (lx : stb_lexer) (p c : Z) : Prop :=
  0 ≤ p ∧ p ≠ lex_eof lx ∧ char_at (lex_input lx) p = Some c.

Lemma char_here_lt lx p c : char_here lx p c → safe lx p → p < lex_eof lx.
Proof. intros (_ & Hne & _) [[Hle _] _]. lia. Qed.

(** The postcondition of every token function. *)
Definition lex_wp (m : M stb_lexer Z) (lx : stb_lexer) (p : Z) : Prop :=
  wp m (token_at lx p) (λ e _, lex_errors lx p e) lx.

Lemma clex_token_frame_wp tok first last p lx lx1 :
  lex_frame lx lx1 → p ≤ last → (safe lx p → last < lex_eof lx) →
  wp (stb__clex_token tok first last) (token_at lx p) (λ e _, lex_errors lx p e) lx1.
Proof.
  intros. eapply wp_mono; [by apply (clex_token_wp _ _ _ p lx lx1 (λ e _, lex_errors lx p e))| |done].
  by intros ?? [].
Qed.

Lemma single_char_wp c p lx : char_here lx p c → lex_wp (single_char c p) lx p.
Proof.
  intros Hc. apply clex_token_frame_wp; [done|lia|]. intros. by eapply char_here_lt.
Qed.

(** Testing the next character of an operator. *)
Lemma next_is_here c1 p q c m1 m2 lx :
  char_here lx p c → p ≤ q → (safe lx p → q < lex_eof lx) →
  (char_here lx (q + 1) c1 → lex_wp m1 lx p) →
  lex_wp m2 lx p →
  lex_wp (b ← next_is c1 q; if b then m1 else m2) lx p.
Proof.
  intros (Hp & Hne & Hc) Hq Hlt H1 H2. unfold lex_wp in *. wp_steps. apply next_is_wp.
  - intros He Hc1. apply H1. split_and!; [lia|lia|done].
  - done.
  - intros He Hn. apply (lex_read_error _ _ (q + 1)); [lia| |done].
    intros Hs%Hlt. lia.
Qed.

(** An operator: the tests of the next characters, then the token. *)
Ltac lex_lt := intros [[? _] _]; unfold char_here in *; destruct_and?; lia.
Ltac lex_op :=
  repeat first
    [ apply single_char_wp; eassumption
    | apply clex_token_frame_wp; [done|lia|lex_lt]
    | eapply next_is_here; [eassumption|lia|lex_lt|intros ?|] ].

Lemma lex_plus_wp c p lx : char_here lx p c → lex_wp (lex_plus c p) lx p.
Proof. intros Hc. unfold lex_plus. lex_op. Qed.
Lemma lex_minus_wp c p lx : char_here lx p c → lex_wp (lex_minus c p) lx p.
Proof. intros Hc. unfold lex_minus. lex_op. Qed.
Lemma lex_and_wp c p lx : char_here lx p c → lex_wp (lex_and c p) lx p.
Proof. intros Hc. unfold lex_and. lex_op. Qed.
Lemma lex_or_wp c p lx : char_here lx p c → lex_wp (lex_or c p) lx p.
Proof. intros Hc. unfold lex_or. lex_op. Qed.
Lemma lex_with_eq_wp tok c p lx : char_here lx p c → lex_wp (lex_with_eq tok c p) lx p.
Proof. intros Hc. unfold lex_with_eq. lex_op. Qed.
Lemma lex_angle_wp t1 t2 t3 c p lx : char_here lx p c → lex_wp (lex_angle t1 t2 t3 c p) lx p.
Proof. intros Hc. unfold lex_angle. lex_op. Qed.

(** ** Strings, characters, identifiers *)

Lemma parse_char_wp p lx (Q : Z * Z → stb_lexer → Prop) (E : error → stb_lexer → Prop) :
  (∀ n q c, char_at (lex_input lx) p = Some c → (n = -1 ∨ 0 ≤ n < 256) →
     (q = p + 1 ∨ q = p + 2) → Q (n, q) lx) →
  E (Undefined ReadOutOfBounds) lx →
  wp (stb__clex_parse_char p) Q E lx.
Proof.
  intros HQ HE. unfold stb__clex_parse_char. wp_steps.
  apply peek_wp; [|done]. intros c Hc.
  assert (∀ c, 0 ≤ to_uchar c < 256) as Hu by (intros; apply Z.mod_pos_bound; lia).
  wp_steps; [|by eapply HQ; eauto]. apply peek_wp; [|done]. intros c1 Hc1.
  wp_steps; eapply HQ; eauto; try (right; lia); by left.
Qed.

(** The escape step: one character of the string, at least one of the input. *)
Lemma string_char_wp c q lx (Q : Z * Z → stb_lexer → Prop) (E : error → stb_lexer → Prop) :
  (∀ n q', q < q' → Q (n, q') lx) → E (Undefined ReadOutOfBounds) lx →
  wp (if c =? $"\" then stb__clex_parse_char q else ret (to_uchar c, q + 1)) Q E lx.
Proof.
  intros HQ HE. wp_steps; [|apply HQ; lia].
  apply parse_char_wp; [|done]. intros n q' c' _ _ ?. apply HQ. lia.
Qed.

(** The state of the scan of a string that starts at [p]. *)
Definition string_inv (lx : stb_lexer) (p : Z) (po : Z * Z) (lx' : stb_lexer) : Prop :=
  lex_frame lx lx' ∧ p < po.1 ∧ 0 ≤ po.2 ≤ lex_string_storage_len lx.

Definition token_from (lx : stb_lexer) (p r : Z) (lx' : stb_lexer) : Prop :=
  lex_frame lx lx' ∧ r = 1 ∧ p < lex_parse_point lx'.

Lemma parse_string_turn_wp p delim q out lx lx1 :
  0 ≤ p → string_inv lx p (q, out) lx1 →
  wp (parse_string_turn p delim (lex_string_storage_len lx) (q, out))
    (λ r lx', match r with
              | inl po => string_inv lx p po lx' ∧ (room lx po.1 < room lx q)%nat
              | inr (inl r) => token_from lx p r lx'
              | inr (inr po) => po = (q, out) ∧ lx' = lx1
              end)
    (λ e _, read_error e ∨ write_error lx e) lx1.
Proof.
  intros Hp (Hf & Hq & Ho). cbn in Hq, Ho. unfold parse_string_turn. wp_steps.
  apply peek_wp; [|by left]. intros c Hc. rewrite (frame_input _ _ Hf) in Hc.
  wp_step; [by wp_steps|]. apply wp_bind, string_char_wp; [|by left]. intros n q' Hq'.
  unfold stb__clex_token. cbn beta iota. wp_steps.
  1,2: split_and!; [by etrans; [|apply frame_set_location]|done|cbn; lia].
  apply store_char_wp; [lia| |].
  - intros. wp_steps. split; [|by eapply room_lt].
    split_and!; [by etrans; [|apply frame_set_storage]|cbn; lia..].
  - intros. right. split; [done|]. rewrite (frame_storage _ _ Hf) in *. lia.
Qed.

(** Inside a literal nothing is promised about reads: it may have no end. *)
Lemma parse_string_wp p tok lx :
  0 ≤ p → 0 ≤ lex_string_storage_len lx →
  wp (stb__clex_parse_string p tok) (token_from lx p) (λ e _, read_error e ∨ write_error lx e) lx.
Proof.
  intros Hp Hl. unfold stb__clex_parse_string. wp_steps.
  apply peek_wp; [|by left]. intros delim Hd. wp_steps.
  apply (wp_loop (string_inv lx p) (λ po _, room lx po.1)).
  2: split_and!; cbn; [done|lia..].
  2: cbn; apply room_fuel; lia.
  intros [q out] lx1 Hinv. eapply wp_mono; [by apply parse_string_turn_wp| |done].
  destruct Hinv as (Hf & Hq & Ho). cbn in Hq, Ho.
  intros [po|[r|po]] lx'; [done|intros; by wp_steps|intros [-> ->]]. wp_steps.
  apply store_char_wp; [lia| |].
  - intros. unfold stb__clex_token. wp_steps. split_and!; [|done|cbn; lia].
    etrans; [done|]. etrans; [apply (frame_set_storage (Z.to_nat out) 0)|]. by split.
  - intros. right. split; [done|]. rewrite (frame_storage _ _ Hf) in *. lia.
Qed.

Lemma lex_charlit_wp p lx :
  0 ≤ p →
  wp (lex_charlit p) (token_from lx p) (λ e _, read_error e ∨ write_error lx e) lx.
Proof.
  intros Hp. unfold lex_charlit, stb__clex_token. wp_steps.
  apply parse_char_wp; [|by left]. intros n q c _ _ Hq.
  wp_steps; [by split_and!; [|done|cbn; lia]..|].
  apply peek_wp; [|by left]. intros c1 _.
  wp_steps; by split_and!; [|done|cbn; lia].
Qed.

Lemma id_char_not_0 c : id_char c = true → c ≠ 0.
Proof. by intros H ->. Qed.

(** The state of the scan of an identifier that starts at [p]. *)
Definition ident_inv (lx : stb_lexer) (p n : Z) (lx' : stb_lexer) : Prop :=
  lex_frame lx lx' ∧ 0 ≤ n ∧ (safe lx p → p + n < lex_eof lx).

Lemma identifier_turn_wp p n lx lx1 :
  0 ≤ p → ident_inv lx p n lx1 →
  wp (identifier_turn p n)
    (λ r lx', match r with
              | inl n' => ident_inv lx p n' lx' ∧ (room lx (p + n') < room lx (p + n))%nat
              | inr (inl r) => token_at lx p r lx'
              | inr (inr n') => lex_frame lx lx' ∧ 0 < n' < lex_string_storage_len lx ∧
                                (safe lx p → p + n' ≤ lex_eof lx)
              end)
    (λ e _, lex_errors lx p e) lx1.
Proof.
  intros Hp (Hf & Hn & Hlt). unfold identifier_turn. wp_steps.
  - eapply wp_mono; [by apply (clex_token_frame_wp _ _ _ p lx); [|lia|]| |done].
    intros r lx' ?. by wp_steps.
  - rewrite (frame_storage_len _ _ Hf) in *. apply peek_wp.
    2:{ rewrite (frame_input _ _ Hf). apply lex_read_error; [lia|]. intros Hs%Hlt. lia. }
    intros c Hc. rewrite (frame_input _ _ Hf) in Hc. wp_steps.
    apply store_char_wp; [lia| |].
    2:{ intros. right. split; [done|]. rewrite (frame_storage _ _ Hf) in *. lia. }
    intros _. wp_steps. apply peek_wp.
    2:{ cbn. rewrite (frame_input _ _ Hf). apply lex_read_error; [lia|]. intros Hs%Hlt. lia. }
    cbn. rewrite (frame_input _ _ Hf). intros c' Hc'.
    assert (lex_frame lx (set_storage (<[Z.to_nat n := c]> (lex_string_storage lx1)) lx1)).
    { etrans; [done|]. apply frame_set_storage. }
    wp_steps.
    + split; [|eapply room_lt; [done|lia]]. split_and!; [done|lia|].
      intros Hs. pose proof (Hlt Hs). destruct Hs as [Hi _].
      assert (inside lx (p + (n + 1))) as Hi' by (eapply inside_le; [done|lia]).
      eapply inside_lt; [done..|]. by apply id_char_not_0.
    + split_and!; [done|lia|lia|]. intros Hs%Hlt. lia.
Qed.

Lemma lex_identifier_wp c p lx : char_here lx p c → lex_wp (lex_identifier p) lx p.
Proof.
  intros Hc. pose proof (char_here_lt _ _ _ Hc) as Hlt. destruct Hc as (Hp & _).
  unfold lex_wp, lex_identifier. wp_steps.
  apply (wp_loop (ident_inv lx p) (λ n _, room lx (p + n))).
  2:{ split_and!; [apply frame_set_string|done|]. intros. rewrite Z.add_0_r. auto. }
  2:{ apply (room_fuel lx). lia. }
  intros n lx1 Hinv. eapply wp_mono; [by apply identifier_turn_wp| |done].
  intros [n'|[r|n']] lx'; [done|intros; by wp_steps|].
  intros (Hf & Hn & Hle). wp_steps. apply store_char_wp; [lia| |].
  - intros _. wp_steps. apply clex_token_frame_wp; [|lia|intros Hs%Hle; lia].
    etrans; [done|]. etrans; [apply (frame_set_storage (Z.to_nat n') 0)|]. by split.
  - intros. right. split; [done|]. rewrite (frame_storage _ _ Hf) in *. lia.
Qed.

(** ** Numbers *)

Lemma input_from lx p c :
  char_at (lex_input lx) p = Some c →
  drop (Z.to_nat p) (lex_input lx) = c :: drop (Z.to_nat (p + 1)) (lex_input lx).
Proof.
  intros H. pose proof (char_at_Some _ _ _ H). unfold char_at in H.
  destruct (Z.leb_spec 0 p); [|lia]. rewrite (drop_S _ c) by done.
  do 2 f_equal. lia.
Qed.

Lemma inside_stops lx p n :
  0 ≤ p → inside lx p → stops (drop (Z.to_nat p) (lex_input lx)) n → p + n ≤ lex_eof lx.
Proof.
  intros Hp Hi [_ Hs]. pose proof (inside_length _ _ Hi). destruct Hi as [Hle Ht].
  specialize (Hs (Z.to_nat (lex_eof lx - p))). rewrite lookup_drop in Hs.
  replace (Z.to_nat p + Z.to_nat (lex_eof lx - p))%nat with (Z.to_nat (lex_eof lx)) in Hs by lia.
  unfold char_at in Ht. destruct (0 <=? lex_eof lx); [|done]. specialize (Hs Ht). lia.
Qed.

Lemma inside_terminated lx p :
  0 ≤ p → inside lx p → terminated (drop (Z.to_nat p) (lex_input lx)).
Proof.
  intros Hp Hi. pose proof (inside_length _ _ Hi). destruct Hi as [Hle Ht].
  unfold char_at in Ht. destruct (0 <=? lex_eof lx); [|done].
  apply list_elem_of_lookup. exists (Z.to_nat (lex_eof lx - p)).
  rewrite lookup_drop, <-Ht. f_equal. lia.
Qed.

Lemma input_strtol_wp base p c lx (Q : Z * Z → stb_lexer → Prop) (E : error → stb_lexer → Prop) :
  0 ≤ p → char_at (lex_input lx) p = Some c → is_digit c = true → digit_val c < base →
  0 < base ≤ 16 →
  (∀ v n, strtol (drop (Z.to_nat p) (lex_input lx)) base = Some (v, n) →
     0 ≤ v ≤ LONG_MAX → 1 ≤ n → (inside lx p → p + n ≤ lex_eof lx) → Q (v, p + n) lx) →
  (¬ inside lx p → E (Undefined ReadOutOfBounds) lx) →
  wp (input_strtol p base) Q E lx.
Proof.
  intros Hp Hc Hd Hv Hb HQ HE. unfold input_strtol. wp_steps. apply wp_of_option.
  - intros [v n] Hs. wp_steps. apply HQ; [done|..].
    all: pose proof Hs as Hs'; rewrite (input_from _ _ _ Hc) in Hs';
      apply strtol_digit in Hs' as (? & ? & Hst & _); try done.
    intros Hi. apply inside_stops; [done..|]. by rewrite (input_from _ _ _ Hc).
  - intros Hn. apply HE. intros Hi. pose proof (inside_terminated _ _ Hp Hi) as Ht.
    rewrite (input_from _ _ _ Hc) in Ht, Hn.
    destruct (strtol_total base c _ Hd Hv Hb Ht) as [? Hs]. congruence.
Qed.

Lemma input_strtod_wp p c lx (Q : _ * Z → stb_lexer → Prop) (E : error → stb_lexer → Prop) :
  0 ≤ p → char_at (lex_input lx) p = Some c → is_digit c = true →
  (∀ v n, strtod (drop (Z.to_nat p) (lex_input lx)) = Some (v, n) →
     1 ≤ n → (inside lx p → p + n ≤ lex_eof lx) → Q (v, p + n) lx) →
  (¬ inside lx p → E (Undefined ReadOutOfBounds) lx) →
  wp (input_strtod p) Q E lx.
Proof.
  intros Hp Hc Hd HQ HE. unfold input_strtod. wp_steps. apply wp_of_option.
  - intros [v n] Hs. wp_steps. apply HQ; [done|..].
    all: pose proof Hs as Hs'; rewrite (input_from _ _ _ Hc) in Hs';
      apply strtod_digit in Hs' as (? & Hst); try done.
    intros Hi. apply inside_stops; [done..|]. by rewrite (input_from _ _ _ Hc).
  - intros Hn. apply HE. intros Hi. pose proof (inside_terminated _ _ Hp Hi) as Ht.
    rewrite (input_from _ _ _ Hc) in Ht, Hn.
    destruct (strtod_total c _ Hd Ht) as [? Hs]. congruence.
Qed.

Lemma not_inside_error lx p : ¬ inside lx p → lex_errors lx p (Undefined ReadOutOfBounds).
Proof. intros Hn. left. split; [done|]. by intros []. Qed.
#[export] Hint Resolve not_inside_error : lexer.

Lemma lex_integer_wp base c p lx :
  char_here lx p c → is_digit c = true → digit_val c < base → 0 < base ≤ 16 →
  lex_wp (lex_integer base p) lx p.
Proof.
  intros Hh Hd Hv Hb. pose proof Hh as (Hp & _ & Hc). unfold lex_wp, lex_integer. wp_steps.
  eapply input_strtol_wp; eauto with lexer. intros v n _ _ Hn Hle.
  unfold stb__clex_parse_suffixes. wp_steps.
  apply clex_token_frame_wp; [apply frame_set_int_number|lia|].
  intros [Hi _]. specialize (Hle Hi). lia.
Qed.

Lemma lex_number_wp c p lx :
  char_here lx p c → is_digit c = true → lex_wp (lex_number c p) lx p.
Proof.
  intros Hh Hd. pose proof Hh as (Hp & Hne & Hc). unfold lex_wp, lex_number. wp_steps.
  eapply wp_mono; [by apply scan_while_wp| |intros e s' [-> ?]; eauto with lexer].
  intros q ? (-> & Hq & Hle & _). wp_steps.
  - by apply Z.eqb_eq in Hb0 as ->; eapply lex_integer_wp.
  - eapply lex_integer_wp; [done..| |lia]. pose proof (is_digit_val c Hd). lia.
  - apply Z.eqb_neq in Hb. apply peek_wp.
    2: apply lex_read_error; [lia|by intros [??]; auto].
    intros c1 Hc1. wp_steps.
    + eapply input_strtod_wp; eauto with lexer. intros v n _ Hn Hle'.
      unfold stb__clex_parse_suffixes. wp_steps.
      apply clex_token_frame_wp; [apply frame_set_real_number|lia|].
      intros [Hi _]. specialize (Hle' Hi). lia.
    + by apply Z.eqb_eq in Hb1 as ->; eapply lex_integer_wp.
    + eapply lex_integer_wp; [done..| |lia]. pose proof (is_digit_val c Hd). lia.
Qed.

Lemma lex_zero_wp p lx : char_here lx p $"0" → lex_wp (lex_zero $"0" p) lx p.
Proof.
  intros Hh. pose proof Hh as (Hp & Hne & Hc). unfold lex_wp, lex_zero. wp_steps.
  { by apply lex_number_wp. }
  apply Z.eqb_neq in Hb. apply peek_wp.
  2: apply lex_read_error; [lia|intros [[??] ?]; lia].
  intros c1 Hc1. wp_steps; [|by apply lex_number_wp].
  eapply input_strtol_wp; [done..|lia| |by eauto with lexer]. intros v n Hs _ Hn Hle. wp_steps.
  - apply Z.eqb_eq in Hb1. assert (n = 2) as -> by lia.
    rewrite (input_from _ _ _ Hc), (input_from _ _ _ Hc1) in Hs.
    apply strtol_0x in Hs; [done|]. apply orb_true_iff in Hb0. lia.
  - unfold stb__clex_parse_suffixes.
    apply clex_token_frame_wp; [apply frame_set_int_number|lia|].
    intros [Hi _]. specialize (Hle Hi). lia.
Qed.

(** A literal is never safe. *)
Lemma literal_not_safe c p lx :
  char_here lx p c → c = $"034" ∨ c = $"'" → ¬ safe lx p.
Proof.
  intros (_ & _ & Hc) Hq (_ & H1 & H2). unfold char_at in Hc.
  destruct (0 <=? p); [|done]. apply list_elem_of_lookup_2 in Hc.
  by destruct Hq as [-> | ->].
Qed.

Lemma literal_wp c p m lx :
  char_here lx p c → c = $"034" ∨ c = $"'" →
  wp m (token_from lx p) (λ e _, read_error e ∨ write_error lx e) lx → lex_wp m lx p.
Proof.
  intros Hh Hq Hwp. pose proof (literal_not_safe _ _ _ Hh Hq) as Hn.
  eapply wp_mono; [exact Hwp| |].
  - intros r lx' (? & ? & ?). by split_and!.
  - intros e _ [?|?]; [left|right]; done.
Qed.

Lemma lex_switch_wp c p lx :
  0 ≤ lex_string_storage_len lx → char_here lx p c → lex_wp (lex_switch c p) lx p.
Proof.
  intros Hl Hh. pose proof Hh as (Hp & _). unfold lex_switch.
  repeat lazymatch goal with
  | |- lex_wp (if ?b then _ else _) _ _ => destruct b eqn:?
  end.
  all: try first [ by eapply lex_identifier_wp | by apply lex_plus_wp | by apply lex_minus_wp
    | by apply lex_and_wp | by apply lex_or_wp | by apply lex_with_eq_wp
    | by apply lex_angle_wp | by apply lex_number_wp | by apply single_char_wp ].
  - eapply literal_wp; [done| |by apply parse_string_wp]. left. lia.
  - eapply literal_wp; [done| |by apply lex_charlit_wp]. right. lia.
  - assert (c = $"0") as -> by lia. by apply lex_zero_wp.
Qed.

(** ** [stb_c_lexer_get_token] *)

(** What a call guarantees: at the end of the input nothing moves, otherwise the
    parse point advances. *)
Definition get_token_post (lx : stb_lexer) (r : Z) (lx' : stb_lexer) : Prop :=
  lex_frame lx lx' ∧
  (r = 0 ∧ lex_token lx' = CLEX_eof ∧ lex_parse_point lx' = lex_parse_point lx ∨
   r = 1 ∧ lex_parse_point lx < lex_parse_point lx' ∧
   lex_parse_point lx < Z.of_nat (length (lex_input lx))) ∧
  (safe lx (lex_parse_point lx) → lex_parse_point lx' ≤ lex_eof lx).

Lemma get_token_wp lx :
  0 ≤ lex_parse_point lx → 0 ≤ lex_string_storage_len lx →
  wp stb_c_lexer_get_token (get_token_post lx)
    (λ e _, lex_errors lx (lex_parse_point lx) e) lx.
Proof.
  intros Hp Hl. unfold stb_c_lexer_get_token. wp_steps.
  eapply wp_mono; [by apply skip_blanks_wp| |].
  2:{ intros e _ [-> ?]. by apply not_inside_error. }
  intros [q|] lx'; cbn.
  - intros (-> & Hq & Hle). wp_steps.
    + unfold stb__clex_eof. wp_steps. split; [done|]. split; [by left|]. by intros [[]].
    + apply Z.eqb_neq in Hb. apply peek_wp.
      2: apply lex_read_error; [lia|by intros [? _]; auto].
      assert (safe lx (lex_parse_point lx) → safe lx q) as Hs.
      { intros [Hi ?]. split; [|done]. eapply inside_le; eauto. }
      intros c Hc. eapply wp_mono; [apply lex_switch_wp; [done|]|..].
      { by split_and!; [lia|..]. }
      * intros r lx' (Hf & -> & Hlt & Hsafe). apply char_at_Some in Hc.
        split; [done|]. split; [right; lia|auto].
      * intros e _ [[? Hn]|?]; [left|right; done]. split; [done|]. auto.
  - intros (Hf & Ht & Hpp & ? & ?). wp_steps. split; [done|]. split; [right; lia|lia].
Qed.
