(* ===== verification/LexerInv.v ===== *)
(** * The string storage of the lexer

    The invariant between two calls of the lexer: the storage stays terminated one
    place after the length the lexer is told, and a token that has a text points
    to the start of the storage. *)
From S2P Require Import Prelude CStd Lexer LexerFacts.

(** The part every statement of the lexer keeps. *)
Record storage_ok (lx : stb_lexer) : Prop := StorageOk {
  storage_room : Z.of_nat (length (lex_string_storage lx)) = lex_string_storage_len lx + 1;
  storage_small : 0 < lex_string_storage_len lx < INT_MAX;
  storage_last : last (lex_string_storage lx) = Some 0;
  storage_string : lex_string lx = None ∨ lex_string lx = Some 0;
  storage_chars : ∀ c, c ∈ lex_input lx → -128 ≤ c ≤ 127;
}.

(** The current token has its text where [lex_string] points. *)
Definition token_ok (lx : stb_lexer) : Prop :=
  lex_token lx ≠ CLEX_sqstring ∧
  (lex_token lx = CLEX_id ∨ lex_token lx = CLEX_dqstring →
   lex_string lx = Some 0 ∧ 0 ≤ lex_string_len lx ≤ lex_string_storage_len lx).

(** What a statement keeps: the invariant, and a string that is set. *)
Definition keeps (lx lx' : stb_lexer) : Prop :=
  storage_ok lx → storage_ok lx' ∧ (lex_string lx = Some 0 → lex_string lx' = Some 0) ∧
    lex_string_storage_len lx' = lex_string_storage_len lx.

#[export] Instance keeps_preorder : PreOrder keeps.
Proof.
  split; [intros x Hx; by split_and!|]. intros x y z H1 H2 Hx. destruct (H1 Hx) as (Hy & ? & ?).
  destruct (H2 Hy) as (? & ? & ?). split_and!; [done|auto|congruence].
Qed.

Definition anyhow (e : error) (lx : stb_lexer) : Prop := True.

Definition Keeps {A} (m : M stb_lexer A) : Prop :=
  ∀ lx, wp m (λ _ lx', keeps lx lx') anyhow lx.

(** A computation that ends with a token. *)
Definition Tokens {A} (P : A → Prop) (m : M stb_lexer A) : Prop :=
  ∀ lx, storage_ok lx →
    wp m (λ a lx', keeps lx lx' ∧ (P a → token_ok lx')) anyhow lx.
Definition Token {A} (m : M stb_lexer A) : Prop := Tokens (λ _, True) m.

Lemma keeps_bind {A B} (m : M stb_lexer A) (k : A → M stb_lexer B) :
  Keeps m → (∀ a, Keeps (k a)) → Keeps (bind m k).
Proof.
  intros Hm Hk lx. apply wp_bind. eapply wp_mono; [apply Hm| |done]. intros a lx' H1.
  eapply wp_mono; [apply Hk| |done]. intros b lx2 H2. exact (transitivity H1 H2).
Qed.
Lemma keeps_ret {A} (a : A) : Keeps (ret a).
Proof. intros lx. by apply wp_ret. Qed.
Lemma keeps_gets {A} (f : stb_lexer → A) : Keeps (gets f).
Proof. intros lx. by apply wp_gets. Qed.
Lemma keeps_throw {A} e : Keeps (A := A) (throw e).
Proof. by intros lx. Qed.
Lemma keeps_option {A} u (o : option A) : Keeps (of_option u o).
Proof. destruct o; [apply keeps_ret|apply keeps_throw]. Qed.
Lemma keeps_modify f : (∀ lx, keeps lx (f lx)) → Keeps (modify f).
Proof. intros Hf lx. apply wp_modify, Hf. Qed.
Lemma keeps_if {A} (b : bool) (m m' : M stb_lexer A) : Keeps m → Keeps m' → Keeps (if b then m else m').
Proof. by destruct b. Qed.
Lemma keeps_loop {A B} fuel (body : A → M stb_lexer (A + B)) a :
  (∀ a, Keeps (body a)) → Keeps (loop fuel body a).
Proof.
  intros Hb. revert a. induction fuel as [|fuel IH]; intros a; cbn; [apply keeps_throw|].
  apply keeps_bind; [apply Hb|]. intros [a'|b]; [apply IH|apply keeps_ret].
Qed.
Lemma keeps_location t f l p lx : keeps lx (set_location t f l p lx).
Proof. intros []. split_and!; [by split|done..]. Qed.
Lemma keeps_token t lx : keeps lx (set_token t lx).
Proof. intros []. split_and!; [by split|done..]. Qed.
Lemma keeps_int n lx : keeps lx (set_int_number n lx).
Proof. intros []. split_and!; [by split|done..]. Qed.
Lemma keeps_real n lx : keeps lx (set_real_number n lx).
Proof. intros []. split_and!; [by split|done..]. Qed.
Lemma keeps_string lx : keeps lx (set_string (Some 0) lx).
Proof. intros []. split_and!; [split; auto|done..]. Qed.
Lemma keeps_string_len n lx : keeps lx (set_string_len n lx).
Proof. intros []. split_and!; [by split|done..]. Qed.

Lemma keeps_set_text t f l p n lx : keeps lx (set_location t f l p (set_string_len n lx)).
Proof. exact (transitivity (keeps_string_len _ _) (keeps_location _ _ _ _ _)). Qed.

Create HintDb keeps.
#[export] Hint Resolve keeps_bind keeps_ret keeps_gets keeps_throw keeps_option keeps_if
  keeps_loop keeps_modify keeps_location keeps_token keeps_int keeps_real keeps_string
  keeps_string_len : keeps.
Ltac keeps := repeat first
  [ apply keeps_bind; [|intros ?] | apply keeps_ret | apply keeps_gets | apply keeps_throw
  | apply keeps_option | apply keeps_if | apply keeps_loop; intros ?
  | apply keeps_modify; intros ?; auto with keeps | case_match | progress auto with keeps ].

(** A write below the length, or of the terminator at it. *)
Lemma keeps_store i c lx :
  0 ≤ i → (i < lex_string_storage_len lx ∨ c = 0) →
  keeps lx (set_storage (<[Z.to_nat i := c]> (lex_string_storage lx)) lx).
Proof.
  intros Hi Hc [Hr Hs Hl Hst Hch]. split_and!; [|done..].
  split; cbn; [by rewrite length_insert|done| |done..].
  rewrite last_lookup, length_insert in *. destruct (decide (Z.to_nat i = pred (length (lex_string_storage lx)))) as [E|].
  - rewrite E, list_lookup_insert_eq by lia. destruct Hc as [| ->]; [lia|done].
  - by rewrite list_lookup_insert_ne by done.
Qed.

Lemma store_char_keeps i c lx (Q : unit → stb_lexer → Prop) :
  0 ≤ i → (i < lex_string_storage_len lx ∨ c = 0) →
  (keeps lx (set_storage (<[Z.to_nat i := c]> (lex_string_storage lx)) lx) →
   Q tt (set_storage (<[Z.to_nat i := c]> (lex_string_storage lx)) lx)) →
  wp (store_char i c) Q anyhow lx.
Proof. intros Hi Hc HQ. apply store_char_wp; [done| |done]. intros _. by apply HQ, keeps_store. Qed.

Lemma tokens_bind {A B} P (m : M stb_lexer A) (k : A → M stb_lexer B) :
  Keeps m → (∀ a, Tokens P (k a)) → Tokens P (bind m k).
Proof.
  intros Hm Hk lx Hlx. apply wp_bind. eapply wp_mono; [apply Hm| |done]. intros a lx' H1.
  destruct (H1 Hlx) as (Hlx' & _). eapply wp_mono; [by apply Hk| |done].
  intros b lx2 [H2 ?]. split; [exact (transitivity H1 H2)|done].
Qed.
Lemma tokens_if {A} P (b : bool) (m m' : M stb_lexer A) :
  (b = true → Tokens P m) → (b = false → Tokens P m') → Tokens P (if b then m else m').
Proof. destruct b; auto. Qed.

(** A token without a text. *)
Definition plain (t : Z) : Prop := t ≠ CLEX_sqstring ∧ t ≠ CLEX_id ∧ t ≠ CLEX_dqstring.

Lemma plain_char c : -128 ≤ c ≤ 127 → plain c.
Proof. unfold plain, CLEX_sqstring, CLEX_id, CLEX_dqstring. lia. Qed.

Lemma token_plain t f l p lx : plain t → token_ok (set_location t f l p lx).
Proof. intros (? & ? & ?). split; [done|]. cbn. by intros [?|?]. Qed.

Lemma clex_token_plain t f l : plain t → Token (stb__clex_token t f l).
Proof. intros Ht lx _. unfold stb__clex_token. wp_steps. split; [apply keeps_location|]. intros _. by apply token_plain. Qed.

Lemma clex_token_keeps t f l : Keeps (stb__clex_token t f l).
Proof. unfold stb__clex_token. keeps. Qed.
Lemma peek_keeps p : Keeps (peek p).
Proof. unfold peek. keeps. Qed.
Lemma next_is_keeps c p : Keeps (next_is c p).
Proof. unfold next_is. keeps. Qed.
#[export] Hint Resolve clex_token_keeps peek_keeps next_is_keeps : keeps.
Lemma scan_while_keeps cond p : Keeps (scan_while cond p).
Proof. unfold scan_while. keeps. Qed.
Lemma scan_comment_keeps p : Keeps (scan_comment p).
Proof. unfold scan_comment. keeps. Qed.
Lemma looking_at_keeps a b p : Keeps (looking_at a b p).
Proof. unfold looking_at. keeps. Qed.
#[export] Hint Resolve scan_while_keeps scan_comment_keeps looking_at_keeps : keeps.
Lemma parse_char_keeps p : Keeps (stb__clex_parse_char p).
Proof. unfold stb__clex_parse_char. keeps. Qed.
Lemma strtol_keeps p b : Keeps (input_strtol p b).
Proof. unfold input_strtol. keeps. Qed.
Lemma strtod_keeps p : Keeps (input_strtod p).
Proof. unfold input_strtod. keeps. Qed.
#[export] Hint Resolve parse_char_keeps strtol_keeps strtod_keeps : keeps.

(** ** Tokens without a text *)

Lemma next_is_token c p (m1 m2 : M stb_lexer Z) :
  Token m1 → Token m2 → Token (b ← next_is c p; if b then m1 else m2).
Proof. intros. apply tokens_bind; [apply next_is_keeps|]. by intros []. Qed.

Ltac plain := first [assumption | by vm_compute].
Ltac token_op := repeat first
  [ apply next_is_token | apply tokens_if; intros | apply clex_token_plain; plain
  | apply tokens_bind; [by keeps|intros ?] | case_match ].

Lemma single_char_token c p : plain c → Token (single_char c p).
Proof. intros. unfold single_char. token_op. Qed.
Lemma lex_plus_token c p : plain c → Token (lex_plus c p).
Proof. intros. unfold lex_plus, single_char. token_op. Qed.
Lemma lex_minus_token c p : plain c → Token (lex_minus c p).
Proof. intros. unfold lex_minus, single_char. token_op. Qed.
Lemma lex_and_token c p : plain c → Token (lex_and c p).
Proof. intros. unfold lex_and, single_char. token_op. Qed.
Lemma lex_or_token c p : plain c → Token (lex_or c p).
Proof. intros. unfold lex_or, single_char. token_op. Qed.
Lemma lex_with_eq_token t c p : plain t → plain c → Token (lex_with_eq t c p).
Proof. intros. unfold lex_with_eq, single_char. token_op. Qed.
Lemma lex_angle_token t1 t2 t3 c p :
  plain t1 → plain t2 → plain t3 → plain c → Token (lex_angle t1 t2 t3 c p).
Proof. intros. unfold lex_angle, single_char. token_op. Qed.
Lemma lex_charlit_token p : Token (lex_charlit p).
Proof. unfold lex_charlit. token_op. Qed.
Lemma lex_number_token c p : Token (lex_number c p).
Proof. unfold lex_number, lex_integer, stb__clex_parse_suffixes. token_op. Qed.
Lemma lex_zero_token c p : Token (lex_zero c p).
Proof.
  unfold lex_zero, stb__clex_parse_suffixes. token_op. all: apply lex_number_token.
Qed.

(** ** Identifiers and strings *)

Lemma token_text lx t f l p :
  t ≠ CLEX_sqstring → lex_string lx = Some 0 → 0 ≤ lex_string_len lx ≤ lex_string_storage_len lx →
  token_ok (set_location t f l p lx).
Proof. intros. split; [done|]. intros _. by cbn. Qed.

(** Partial correctness of a loop. *)
Lemma loop_anyhow {A B} (I : A → stb_lexer → Prop) (body : A → M stb_lexer (A + B)) Q :
  (∀ a s, I a s →
     wp (body a) (λ r s', match r with inl a' => I a' s' | inr b => Q b s' end) anyhow s) →
  ∀ fuel a s, I a s → wp (loop fuel body a) Q anyhow s.
Proof.
  intros Hb fuel. induction fuel as [|fuel IH]; intros a s HI; [done|].
  apply wp_bind. eapply wp_mono; [by apply Hb| |done].
  intros [a'|b] s' Hr; [by apply IH|done].
Qed.

(** After the string is set: what the turns of the two loops keep. *)
Definition text_inv (lx lx' : stb_lexer) : Prop :=
  keeps lx lx' ∧ storage_ok lx' ∧ lex_string lx' = Some 0 ∧
  lex_string_storage_len lx' = lex_string_storage_len lx.

Lemma text_inv_step lx lx1 lx2 : text_inv lx lx1 → keeps lx1 lx2 → text_inv lx lx2.
Proof.
  intros (Hk & Hok & Hs & Hl) Hk'. destruct (Hk' Hok) as (? & ? & ?).
  split_and!; [exact (transitivity Hk Hk')|done|auto|congruence].
Qed.

Lemma identifier_turn_keeps p n lx :
  storage_ok lx → 0 ≤ n → lex_string lx = Some 0 →
  wp (identifier_turn p n) (λ r lx', keeps lx lx' ∧
    match r with
    | inl n' => 0 ≤ n'
    | inr (inl _) => token_ok lx'
    | inr (inr n') => 0 ≤ n' < lex_string_storage_len lx
    end) anyhow lx.
Proof.
  intros Hlx Hn Hs. unfold identifier_turn. wp_steps.
  - unfold stb__clex_token. wp_steps. split; [apply keeps_location|]. by apply token_plain.
  - apply peek_wp; [|done]. intros c _. wp_steps. apply store_char_keeps; [lia..|]. intros Hk.
    wp_steps. apply peek_wp; [|done]. intros c' _. wp_steps; split; [done|lia|done|lia].
Qed.

Lemma lex_identifier_token p : Token (lex_identifier p).
Proof.
  intros lx Hlx. unfold lex_identifier. wp_steps.
  destruct (keeps_string lx Hlx) as (Hlx1 & _ & Hl1).
  assert (text_inv lx (set_string (Some 0) lx)) as Hinv by by split_and!; [apply keeps_string|..].
  apply (loop_anyhow (λ n lx', text_inv lx lx' ∧ 0 ≤ n)); [|by split].
  intros n lx1 [Hi Hn]. pose proof Hi as (_ & Hok & Hs & Hl).
  eapply wp_mono; [by apply identifier_turn_keeps| |done].
  intros [n'|[r|n']] lx2 [Hk Hr]; pose proof (text_inv_step _ _ _ Hi Hk) as Hi2;
    pose proof Hi2 as (Hk2 & Hok2 & Hs2 & Hl2); [done|by wp_steps|]. wp_steps.
  apply store_char_keeps; [lia|by right|]. intros Hk3. unfold stb__clex_token. wp_steps.
  pose proof (text_inv_step _ _ _ Hi2 Hk3) as (Hk4 & Hok4 & Hs4 & Hl4).
  split; [|intros _; apply token_text; [done|done|cbn in *; lia]].
  exact (transitivity Hk4 (keeps_set_text _ _ _ _ _ _)).
Qed.

Lemma parse_string_turn_keeps p delim outend q out lx :
  storage_ok lx → 0 ≤ out → outend = lex_string_storage_len lx →
  wp (parse_string_turn p delim outend (q, out)) (λ r lx', keeps lx lx' ∧
    match r with
    | inl (_, out') => 0 ≤ out' ≤ outend
    | inr (inl _) => token_ok lx'
    | inr (inr po) => po = (q, out) ∧ lx' = lx
    end) anyhow lx.
Proof.
  intros Hlx Hn ->. unfold parse_string_turn. wp_steps.
  apply peek_wp; [|done]. intros c _. wp_step; [by wp_steps|].
  apply wp_bind, string_char_wp; [|done]. intros n q' _. cbn beta iota. unfold stb__clex_token.
  wp_steps; [split; [apply keeps_location|by apply token_plain]..|].
  apply store_char_keeps; [lia|lia|]. intros Hk. wp_steps. split; [done|lia].
Qed.

Lemma parse_string_token p t : t = CLEX_dqstring → Token (stb__clex_parse_string p t).
Proof.
  intros -> lx Hlx. unfold stb__clex_parse_string. wp_steps.
  apply peek_wp; [|done]. intros delim _. wp_steps.
  apply (loop_anyhow (λ po lx', keeps lx lx' ∧ 0 ≤ po.2 ≤ lex_string_storage_len lx)).
  2:{ split; [done|]. destruct Hlx. cbn. lia. }
  intros [q out] lx1 [Hk Hn]. cbn in Hn. destruct (Hk Hlx) as (Hok & _ & Hl).
  eapply wp_mono; [apply parse_string_turn_keeps; [done|lia|congruence]| |done].
  intros [[q' out']|[r|po]] lx2 [Hk2 Hr].
  - split; [exact (transitivity Hk Hk2)|done].
  - wp_steps. split; [exact (transitivity Hk Hk2)|done].
  - destruct Hr as [-> ->]. wp_steps. apply store_char_keeps; [lia|by right|]. intros Hk3.
    unfold stb__clex_token. wp_steps.
    pose proof (transitivity Hk Hk3) as Hk4. destruct (Hk4 Hlx) as (Hok4 & _ & Hl4).
    split; [|intros _; apply token_text; [done|done|cbn in *; lia]].
    exact (transitivity Hk4 (transitivity (keeps_string _) (keeps_set_text _ _ _ _ _ _))).
Qed.

(** ** [stb_c_lexer_get_token] *)

Lemma tokens_ret {A} (P : A → Prop) a : ¬ P a → Tokens P (ret a).
Proof. intros Ha lx _. wp_steps. done. Qed.
Lemma tokens_then {A B} (P : B → Prop) (m : M stb_lexer A) b : Token m → Tokens P (m;; ret b).
Proof.
  intros Hm lx Hlx. wp_steps. eapply wp_mono; [by apply Hm| |done]. intros a lx' [? HT].
  wp_steps. split; [done|]. intros _. by apply HT.
Qed.

Lemma skip_turn_token p : Tokens (λ r, r = inr None) (skip_turn p).
Proof.
  unfold skip_turn. repeat first
    [ apply tokens_if; intros | by apply tokens_ret | apply tokens_then, clex_token_plain; plain
    | apply tokens_bind; [by keeps|intros ?] ].
Qed.

Lemma skip_blanks_token p : Tokens (λ r, r = None) (skip_blanks p).
Proof.
  intros lx Hlx. unfold skip_blanks. wp_steps. generalize (lex_fuel lx). intros fuel.
  apply (loop_anyhow (λ _ lx', keeps lx lx')); [|done].
  intros q lx1 Hk. destruct (Hk Hlx) as (Hok & _).
  eapply wp_mono; [by apply skip_turn_token| |done].
  intros [q'|r] lx2 [Hk2 Hr]; [exact (transitivity Hk Hk2)|].
  split; [exact (transitivity Hk Hk2)|]. intros ->. by apply Hr.
Qed.

Lemma lex_switch_token c p : plain c → Token (lex_switch c p).
Proof.
  intros Hc. unfold lex_switch. repeat (apply tokens_if; intros _).
  all: first [ apply lex_identifier_token | by apply lex_plus_token | by apply lex_minus_token
    | by apply lex_and_token | by apply lex_or_token | by apply lex_with_eq_token
    | by apply lex_angle_token | by apply parse_string_token | apply lex_charlit_token
    | apply lex_zero_token | apply lex_number_token | by apply single_char_token ].
Qed.

Lemma get_token_token : Token stb_c_lexer_get_token.
Proof.
  intros lx Hlx. unfold stb_c_lexer_get_token. wp_steps.
  eapply wp_mono; [by apply skip_blanks_token| |done]. intros [p|] lx1 [Hk Hr].
  - destruct (Hk Hlx) as (Hok & _). wp_steps.
    + unfold stb__clex_eof. wp_steps. split; [exact (transitivity Hk (keeps_token _ _))|].
      intros _. split; cbn; [done|]. by intros [?|?].
    + apply peek_wp; [|done]. intros c Hc.
      eapply wp_mono; [apply lex_switch_token; [|done]| |done].
      { apply plain_char. apply (storage_chars _ Hok). unfold char_at in Hc.
        destruct (0 <=? p); [|done]. by apply list_elem_of_lookup_2 in Hc. }
      intros r lx2 [Hk2 Ht]. split; [exact (transitivity Hk Hk2)|done].
  - wp_steps. split; [done|]. intros _. by apply Hr.
Qed.

(** ** The lexer between two calls *)

(** Ready for a call. *)
Record ready (lx : stb_lexer) : Prop := Ready {
  ready_point : 0 ≤ lex_parse_point lx;
  ready_storage : storage_ok lx;
}.

(** What is left to read. *)
Definition left_over (lx : stb_lexer) : nat := room lx (lex_parse_point lx).

(** [main] starts with a ready lexer. *)
Lemma init_ready lx0 input :
  lex_string lx0 = None → (∀ c, c ∈ input → -128 ≤ c ≤ 127) →
  ready (stb_c_lexer_init lx0 input (Z.of_nat (length input) - 1) (replicate 1025 0) 1024).
Proof. intros Hs Hc. split; [cbn; lia|]. split; [done..|by left|done]. Qed.

(** A call keeps the lexer ready, leaves less to read, and says where the text of
    the token is. *)
Lemma get_token_ready lx :
  ready lx →
  wp stb_c_lexer_get_token
    (λ r lx', ready lx' ∧ lex_frame lx lx' ∧ token_ok lx' ∧
       (lex_string lx = Some 0 → lex_string lx' = Some 0) ∧
       (r = 0 ∧ lex_token lx' = CLEX_eof ∧ left_over lx' = left_over lx ∨
        r = 1 ∧ (left_over lx' < left_over lx)%nat ∧ lex_parse_point lx < lex_parse_point lx') ∧
       (safe lx (lex_parse_point lx) → safe lx' (lex_parse_point lx')))
    (λ e _, read_error e ∧ ¬ safe lx (lex_parse_point lx)) lx.
Proof.
  intros [Hp Hs]. pose proof (storage_small _ Hs). pose proof (storage_room _ Hs).
  eapply wp_mono; [apply wp_conj; [apply get_token_wp; lia|by apply get_token_token]|..].
  - intros r lx' ((Hf & Hr & Hle) & Hk & Ht). destruct (Hk Hs) as (Hs' & Hst & _).
    pose proof (frame_input _ _ Hf) as Hin. pose proof (frame_eof _ _ Hf) as He.
    assert (0 ≤ lex_parse_point lx') by (destruct Hr as [(_ & _ & ->)|(_ & ? & _)]; lia).
    split_and!; [by split|done|by apply Ht|done| |].
    + unfold left_over, room. rewrite Hin.
      destruct Hr as [(-> & ? & ->)|(-> & ? & ?)]; [by left|right; split_and!; [done|lia|done]].
    + intros Hsafe. pose proof (Hle Hsafe). destruct Hsafe as ([_ Hend] & ? & ?).
      unfold safe, inside. rewrite Hin, He. by split_and!.
  - intros e s [[[??]|[_ ?]] _]; [done|lia].
Qed.
