(* ===== verification/LexerProps.v ===== *)
(** * Properties of vendors/stb/stb_c_lexer.h *)
From S2P Require Import Prelude CStd Lexer LexerFacts.
From Stdlib Require Import SpecFloat.

(** A lexer at the start of a text, with the storage [main] gives it. *)
Definition lexer_on (text : list Z) : stb_lexer :=
  StbLexer (text ++ [0]) (Z.of_nat (length text)) 0 (replicate 1025 0) 1024
    0 0 0 S754_nan 0 None 0.

(** C10: a call of the lexer terminates, and either is at the end of the input,
    where nothing moves, or finds a token and advances the parse point; the input,
    its end and the storage size never change. *)
Theorem get_token_progress lx :
  0 ≤ lex_parse_point lx → 0 ≤ lex_string_storage_len lx →
  wp stb_c_lexer_get_token
    (λ r lx', lex_frame lx lx' ∧
      (r = 0 ∧ lex_token lx' = CLEX_eof ∧ lex_parse_point lx' = lex_parse_point lx ∨
       r = 1 ∧ lex_parse_point lx < lex_parse_point lx'))
    terminates lx.
Proof.
  intros. eapply wp_mono; [by apply get_token_wp| |].
  - intros r lx' (? & Hr & _). split; [done|]. destruct Hr as [?|(? & ? & _)]; auto.
  - intros e s [[-> _]|[-> _]]; by unfold terminates.
Qed.

Lemma get_token_progress_witness :
  wp stb_c_lexer_get_token
    (λ r lx', lex_frame (lexer_on (chars "int x;")) lx' ∧
      (r = 0 ∧ lex_token lx' = CLEX_eof ∧ lex_parse_point lx' = 0 ∨
       r = 1 ∧ 0 < lex_parse_point lx'))
    terminates (lexer_on (chars "int x;")).
Proof. apply (get_token_progress (lexer_on (chars "int x;"))); cbn; lia. Defined.

(** C11: with a storage array one byte longer than the length the lexer is told,
    no call writes outside the array, whatever the input. *)
Theorem get_token_writes_in_bounds lx :
  0 ≤ lex_parse_point lx → 0 ≤ lex_string_storage_len lx →
  lex_string_storage_len lx < Z.of_nat (length (lex_string_storage lx)) →
  wp stb_c_lexer_get_token (λ _ _, True) (λ e _, e ≠ Undefined WriteOutOfBounds) lx.
Proof.
  intros. eapply wp_mono; [by apply get_token_wp|done|].
  intros e s [[-> _]|[-> ?]]; [done|lia].
Qed.

Lemma get_token_writes_in_bounds_witness :
  wp stb_c_lexer_get_token (λ _ _, True) (λ e _, e ≠ Undefined WriteOutOfBounds)
    (lexer_on (replicate 2000 ($"a"))).
Proof.
  apply (get_token_writes_in_bounds (lexer_on (replicate 2000 ($"a")))); vm_compute; congruence.
Defined.


