(* ===== verification/LexerText.v ===== *)
(** * The lexer on a text

    What the functions of the lexer compute when the text ahead is known: blanks,
    identifiers, operators, numbers and strings, each by a lemma that gives the
    state they end in. *)
From S2P Require Import Prelude CStd Lexer LexerFacts.
From Stdlib Require Import SpecFloat.

(** ** The text ahead *)

(** [s] is what the input holds from [p] to its end. *)
Record text_at (lx : stb_lexer) (p : Z) (s : list Z) : Prop := TextAt {
  text_pos : 0 ≤ p;
  text_input : drop (Z.to_nat p) (lex_input lx) = s ++ [0];
  text_eof : lex_eof lx = p + Z.of_nat (length s);
}.

Lemma text_frame lx lx' p s :
  lex_input lx' = lex_input lx → lex_eof lx' = lex_eof lx → text_at lx p s → text_at lx' p s.
Proof. intros Hi He []. split; congruence. Qed.

Lemma text_at_app lx p a s : text_at lx p (a ++ s) → text_at lx (p + Z.of_nat (length a)) s.
Proof.
  intros [Hp Hi He]. rewrite length_app in He. split; [lia| |lia].
  replace (Z.to_nat (p + Z.of_nat (length a))) with (Z.to_nat p + length a)%nat by lia.
  by rewrite <-drop_drop, Hi, <-app_assoc, drop_app_length.
Qed.

Lemma text_at_cons lx p c s : text_at lx p (c :: s) → text_at lx (p + 1) s.
Proof. exact (text_at_app lx p [c] s). Qed.

Lemma text_at_nth lx p s k c :
  text_at lx p s → (s ++ [0]) !! k = Some c → char_at (lex_input lx) (p + Z.of_nat k) = Some c.
Proof.
  intros [Hp Hi He] Hk. unfold char_at. rewrite (proj2 (Z.leb_le _ _)) by lia.
  rewrite <-Hk, <-Hi, lookup_drop. f_equal. lia.
Qed.

Lemma peek_nth lx p s k c :
  text_at lx p s → (s ++ [0]) !! k = Some c → peek (p + Z.of_nat k) lx = (Ok c, lx).
Proof. intros Ht Hk. unfold peek, bind, gets. by rewrite (text_at_nth _ _ _ _ _ Ht Hk). Qed.

(** The character at the current place, the terminator at the end. *)
Lemma peek_here lx p s : text_at lx p s → peek p lx = (Ok (hd 0 s), lx).
Proof.
  intros Ht. rewrite <-(Z.add_0_r p). apply (peek_nth lx p s 0 (hd 0 s) Ht). by destruct s.
Qed.

Lemma text_end lx p s : text_at lx p s → (p =? lex_eof lx) = bool_decide (s = []).
Proof.
  intros [_ _ ->]. destruct s as [|c s]; cbn [length].
  - rewrite bool_decide_true by done. apply Z.eqb_eq. lia.
  - rewrite bool_decide_false by done. apply Z.eqb_neq. lia.
Qed.

Lemma text_fuel lx p s : text_at lx p s → (length s < lex_fuel lx)%nat.
Proof.
  intros [_ Hi _]. unfold lex_fuel. apply (f_equal length) in Hi.
  rewrite length_drop, length_app in Hi. cbn in Hi. lia.
Qed.

(** ** Scanning *)

(** How many characters satisfy [cond] before the first that does not. *)
Fixpoint span (cond : Z → bool) (s : list Z) : nat :=
  match s with
  | c :: s => if cond c then S (span cond s) else O
  | [] => O
  end.

Lemma span_le cond s : (span cond s ≤ length s)%nat.
Proof. induction s as [|c s IH]; cbn; [lia|]. destruct (cond c); lia. Qed.

Lemma span_app cond a s :
  Forall (λ c, cond c = true) a → span cond (a ++ s) = (length a + span cond s)%nat.
Proof. induction 1 as [|c a Hc _ IH]; cbn; [done|]. rewrite Hc. by f_equal. Qed.

Lemma span_stop cond s : cond (hd 0 s) = false → span cond s = 0%nat.
Proof. destruct s; cbn; [done|]. by intros ->. Qed.

Lemma scan_while_run cond lx p s :
  text_at lx p s → scan_while cond p lx = (Ok (p + Z.of_nat (span cond s)), lx).
Proof.
  intros Ht. pose proof (text_fuel _ _ _ Ht) as Hf. unfold scan_while.
  erewrite bind_run by done. erewrite bind_run by done. revert p s Ht Hf.
  generalize (lex_fuel lx). intros fuel. induction fuel as [|fuel IH]; intros p s Ht Hf; [lia|].
  cbn [loop]. rewrite (text_end _ _ _ Ht). destruct s as [|c s].
  - cbn. by rewrite Z.add_0_r.
  - rewrite bool_decide_false by done. unfold bind at 1 2. rewrite (peek_here _ _ _ Ht). cbn [hd span].
    destruct (cond c); cbn; [|by rewrite Z.add_0_r].
    rewrite (IH (p + 1) s); [|by eapply text_at_cons|cbn in Hf; lia]. do 2 f_equal. lia.
Qed.

(** ** Tokens *)

(** The state after a token of [n] characters at [p]. *)
Definition emit (tok p n : Z) (lx : stb_lexer) : stb_lexer := set_location tok p (p + n - 1) (p + n) lx.

Lemma clex_token_run tok p n lx :
  stb__clex_token tok p (p + n - 1) lx = (Ok 1, emit tok p n lx).
Proof. unfold stb__clex_token, emit, bind, modify, ret. do 2 f_equal. lia. Qed.

Lemma next_is_run c1 p c s lx :
  c1 ≠ 0 → text_at lx p (c :: s) → next_is c1 p lx = (Ok (hd 0 s =? c1), lx).
Proof.
  intros Hc Ht. apply text_at_cons in Ht. unfold next_is. erewrite bind_run by done.
  rewrite (text_end _ _ _ Ht). destruct s as [|c' s].
  - rewrite bool_decide_true by done. cbn. by destruct c1.
  - rewrite bool_decide_false by done. erewrite bind_run by by apply (peek_here _ _ (c' :: s)). done.
Qed.

(** ** Operators *)

(** The operators of more than one character, the longest first. *)
Definition operators : list (list Z * Z) := Eval vm_compute in
  [(chars "<<=", CLEX_shleq); (chars ">>=", CLEX_shreq);
   (chars "++", CLEX_plusplus); (chars "+=", CLEX_pluseq);
   (chars "--", CLEX_minusminus); (chars "-=", CLEX_minuseq); (chars "->", CLEX_arrow);
   (chars "&&", CLEX_andand); (chars "&=", CLEX_andeq);
   (chars "||", CLEX_oror); (chars "|=", CLEX_oreq);
   (chars "==", CLEX_eq); (chars "!=", CLEX_noteq); (chars "^=", CLEX_xoreq);
   (chars "%=", CLEX_modeq); (chars "*=", CLEX_muleq); (chars "/=", CLEX_diveq);
   (chars "<=", CLEX_lesseq); (chars "<<", CLEX_shl);
   (chars ">=", CLEX_greatereq); (chars ">>", CLEX_shr)].

Fixpoint is_prefix (t s : list Z) : bool :=
  match t, s with
  | [], _ => true
  | x :: t, y :: s => (y =? x) && is_prefix t s
  | _ :: _, [] => false
  end.

(** The code and the length of the longest operator at the start of [s]. *)
Definition longest_op (s : list Z) : Z * Z :=
  match find (λ o, is_prefix (fst o) s) operators with
  | Some (t, code) => (code, Z.of_nat (length t))
  | None => (hd 0 s, 1)
  end.

(** The characters an operator starts with. *)
Definition op_start (c : Z) : bool :=
  (c =? $"+") || (c =? $"-") || (c =? $"&") || (c =? $"|") || (c =? $"=") || (c =? $"!") ||
  (c =? $"^") || (c =? $"%") || (c =? $"*") || (c =? $"/") || (c =? $"<") || (c =? $">").

Lemma emit_token tok p n q lx r :
  q = p + n - 1 → r = emit tok p n lx → stb__clex_token tok p q lx = (Ok 1, r).
Proof. intros -> ->. apply clex_token_run. Qed.

Lemma op_test {A} lx p c s d (m1 m2 : M stb_lexer A) r :
  d ≠ 0 → text_at lx p (c :: s) →
  (hd 0 s = d → m1 lx = r) → (hd 0 s ≠ d → m2 lx = r) →
  (b ← next_is d p; if b then m1 else m2) lx = r.
Proof.
  intros Hd Ht H1 H2. erewrite bind_run by by eapply next_is_run.
  destruct (Z.eqb_spec (hd 0 s) d); auto.
Qed.

(** At the end of the tests: the operator of the table. *)
Ltac op_end s :=
  destruct s as [|x [|y s]]; cbn [hd] in *; try congruence; subst; try done;
  unfold longest_op, operators; cbn [find is_prefix fst snd hd Z.eqb Pos.eqb andb];
  repeat match goal with
  | H : ?x ≠ ?k |- context [?x =? ?k] => rewrite (proj2 (Z.eqb_neq x k) H)
  end; cbn [find is_prefix fst snd hd Z.eqb Pos.eqb andb length Z.of_nat];
  (eapply emit_token; [|reflexivity]; lia).
Ltac op_tests Ht := repeat (eapply op_test; [done|exact Ht|intros ?|intros ?]).

Lemma operator_run lx p c s :
  op_start c = true → text_at lx p (c :: s) →
  lex_switch c p lx = (Ok 1, emit (fst (longest_op (c :: s))) p (snd (longest_op (c :: s))) lx).
Proof.
  intros Hc Ht. pose proof (text_at_cons _ _ _ _ Ht) as Ht1.
  unfold op_start in Hc. rewrite !orb_true_iff, !Z.eqb_eq in Hc. destruct_or! Hc; subst c.
  1: change (lex_switch 43 p) with (lex_plus 43 p); unfold lex_plus, single_char.
  2: change (lex_switch 45 p) with (lex_minus 45 p); unfold lex_minus, single_char.
  3: change (lex_switch 38 p) with (lex_and 38 p); unfold lex_and, single_char.
  4: change (lex_switch 124 p) with (lex_or 124 p); unfold lex_or, single_char.
  5: change (lex_switch 61 p) with (lex_with_eq CLEX_eq 61 p).
  6: change (lex_switch 33 p) with (lex_with_eq CLEX_noteq 33 p).
  7: change (lex_switch 94 p) with (lex_with_eq CLEX_xoreq 94 p).
  8: change (lex_switch 37 p) with (lex_with_eq CLEX_modeq 37 p).
  9: change (lex_switch 42 p) with (lex_with_eq CLEX_muleq 42 p).
  10: change (lex_switch 47 p) with (lex_with_eq CLEX_diveq 47 p).
  11: change (lex_switch 60 p) with (lex_angle CLEX_lesseq CLEX_shl CLEX_shleq 60 p).
  12: change (lex_switch 62 p) with (lex_angle CLEX_greatereq CLEX_shr CLEX_shreq 62 p).
  5-10: unfold lex_with_eq, single_char.
  11-12: unfold lex_angle, single_char.
  all: op_tests Ht.
  27,30: destruct s as [|d s]; cbn [hd] in *; [congruence|]; subst d; op_tests Ht1.
  all: op_end s.
Qed.

(** ** The storage *)

Lemma store_char_run i c st lx :
  0 ≤ i < Z.of_nat (length st) →
  store_char i c (set_storage st lx) = (Ok tt, set_storage (<[Z.to_nat i := c]> st) lx).
Proof.
  intros Hi. unfold store_char. erewrite bind_run by done. cbn [set_storage lex_string_storage].
  rewrite (proj2 (Z.leb_le _ _)), (proj2 (Z.ltb_lt _ _)) by lia. done.
Qed.

(** The storage [st0] with [w] written at its start. *)
Definition written (w st0 : list Z) : list Z := w ++ drop (length w) st0.

Lemma written_nil st0 : written [] st0 = st0.
Proof. done. Qed.

Lemma written_length w st0 : (length w ≤ length st0)%nat → length (written w st0) = length st0.
Proof. intros. unfold written. rewrite length_app, length_drop. lia. Qed.

Lemma written_snoc w st0 c :
  (length w < length st0)%nat → <[length w := c]> (written w st0) = written (w ++ [c]) st0.
Proof.
  intros Hl. unfold written. rewrite <-(Nat.add_0_r (length w)) at 1. rewrite insert_app_r.
  destruct (drop (length w) st0) as [|x r] eqn:E.
  { apply (f_equal length) in E. rewrite length_drop in E. cbn in E. lia. }
  cbn. rewrite <-app_assoc, length_app. cbn. do 2 f_equal.
  rewrite <-drop_drop, E. done.
Qed.

Lemma store_next w c st0 lx :
  (length w < length st0)%nat →
  store_char (Z.of_nat (length w)) c (set_storage (written w st0) lx) =
  (Ok tt, set_storage (written (w ++ [c]) st0) lx).
Proof.
  intros Hl. rewrite store_char_run by (rewrite written_length; lia).
  by rewrite Nat2Z.id, written_snoc.
Qed.

(** ** Identifiers *)

Lemma identifier_turn_run lx p a c b s st0 :
  text_at lx p ((a ++ c :: b) ++ s) → (length a < length st0)%nat →
  Z.of_nat (length a) + 1 < lex_string_storage_len lx →
  identifier_turn p (Z.of_nat (length a)) (set_storage (written a st0) lx) =
  (Ok (if id_char (hd 0 (b ++ s)) then inl (Z.of_nat (length a) + 1) else inr (inr (Z.of_nat (length a) + 1))),
   set_storage (written (a ++ [c]) st0) lx).
Proof.
  intros Ht Hl Hlen. unfold identifier_turn. erewrite bind_run by done. cbn [lex_string_storage_len set_storage].
  rewrite Z.geb_leb, (proj2 (Z.leb_gt _ _)) by lia.
  erewrite bind_run by (apply (peek_nth _ p ((a ++ c :: b) ++ s) (length a) c);
    [by eapply text_frame; [..|exact Ht]|rewrite <-!app_assoc; exact (list_lookup_middle a (b ++ s ++ [0]) c _ eq_refl)]).
  erewrite bind_run by by apply store_next.
  replace (p + (Z.of_nat (length a) + 1)) with (p + Z.of_nat (length (a ++ [c]))) by (rewrite length_app; cbn; lia).
  erewrite bind_run.
  2:{ apply (peek_nth _ p ((a ++ c :: b) ++ s) _ (hd 0 (b ++ s))); [by eapply text_frame; [..|exact Ht]|].
      replace (((a ++ c :: b) ++ s) ++ [0]) with ((a ++ [c]) ++ (b ++ s) ++ [0]) by (by rewrite <-!app_assoc).
      rewrite lookup_app_r, Nat.sub_diag by done. by destruct (b ++ s). }
  by destruct (id_char _).
Qed.

Lemma identifier_loop_run lx p st0 s b a c fuel :
  text_at lx p ((a ++ c :: b) ++ s) → (length (a ++ c :: b) ≤ length st0)%nat →
  Z.of_nat (length (a ++ c :: b)) < lex_string_storage_len lx →
  Forall (λ x, id_char x = true) b → id_char (hd 0 s) = false → (length b < fuel)%nat →
  loop fuel (identifier_turn p) (Z.of_nat (length a)) (set_storage (written a st0) lx) =
  (Ok (inr (Z.of_nat (length (a ++ c :: b)))), set_storage (written (a ++ c :: b) st0) lx).
Proof.
  revert a c fuel. induction b as [|d b IH]; intros a c [|fuel] Ht Hl Hlen Hb Hs Hf; cbn [length] in Hf; try lia.
  - assert (length (a ++ [c]) = length a + 1)%nat as El by by rewrite length_app.
    cbn [loop]. erewrite bind_run by (eapply identifier_turn_run; [exact Ht|lia|lia]).
    cbn [app]. rewrite Hs. unfold ret. do 3 f_equal. lia.
  - assert (length (a ++ c :: d :: b) = length a + 2 + length b)%nat as El by (rewrite length_app; cbn; lia).
    inversion Hb as [|? ? Hd Hb']; subst.
    cbn [loop]. erewrite bind_run by (eapply identifier_turn_run; [exact Ht|lia|lia]).
    cbn [app hd]. rewrite Hd.
    replace (Z.of_nat (length a) + 1) with (Z.of_nat (length (a ++ [c]))) by (rewrite length_app; cbn; lia).
    assert (a ++ c :: d :: b = (a ++ [c]) ++ d :: b) as E by (by rewrite <-app_assoc).
    rewrite E in *. apply IH; done || lia.
Qed.

(** The state after the identifier [w] at [p]. *)
Definition after_identifier (w : list Z) (p : Z) (lx : stb_lexer) : stb_lexer :=
  emit CLEX_id p (Z.of_nat (length w))
    (set_string_len (Z.of_nat (length w))
      (set_storage (written (w ++ [0]) (lex_string_storage lx)) (set_string (Some 0) lx))).

Lemma identifier_run lx p c w s :
  text_at lx p ((c :: w) ++ s) →
  Z.of_nat (length (c :: w)) < lex_string_storage_len lx < Z.of_nat (length (lex_string_storage lx)) →
  Forall (λ x, id_char x = true) w → id_char (hd 0 s) = false →
  lex_identifier p lx = (Ok 1, after_identifier (c :: w) p lx).
Proof.
  intros Ht Hl Hw Hs. pose proof (text_fuel _ _ _ Ht) as Hf. rewrite length_app in Hf. cbn [length] in *.
  unfold lex_identifier. erewrite bind_run by done. erewrite bind_run by done.
  assert (set_string (Some 0) lx = set_storage (written [] (lex_string_storage lx)) (set_string (Some 0) lx))
    as E by by destruct lx.
  pose proof (identifier_loop_run (set_string (Some 0) lx) p (lex_string_storage lx) s w [] c
    (lex_fuel (set_string (Some 0) lx))) as Hloop. rewrite <-E in Hloop. cbn [app length] in Hloop.
  erewrite bind_run by (apply Hloop; [by eapply text_frame; [..|exact Ht]|lia|cbn; lia|done|done|
    unfold lex_fuel in *; cbn; lia]).
  cbn beta iota. erewrite bind_run by (apply (store_next (c :: w)); cbn [length]; lia).
  erewrite bind_run by done. eapply emit_token; [|reflexivity]. cbn [length]. lia.
Qed.

(** ** Integers *)

(** The value of digits in [base], after [acc]. *)
Definition value_from (base acc : Z) (ds : list Z) : Z := foldl (λ v d, v * base + digit_val d) acc ds.

Lemma scan_digits_run base ds s acc n :
  Forall (λ d, digit_val d < base) ds → base ≤ digit_val (hd 0 s) →
  scan_digits base (ds ++ s ++ [0]) acc n = Some (value_from base acc ds, n + Z.of_nat (length ds)).
Proof.
  intros Hds Hs. revert acc n. induction Hds as [|d ds Hd _ IH]; intros acc n; cbn [app].
  - assert (∃ c r, s ++ [0] = c :: r ∧ base ≤ digit_val c) as (c & r & -> & Hc).
    { destruct s as [|c s]; [by exists 0, []|by exists c, (s ++ [0])]. }
    cbn. rewrite (proj2 (Z.ltb_ge _ _)) by done. do 2 f_equal. lia.
  - cbn [scan_digits]. rewrite (proj2 (Z.ltb_lt _ _)) by done. rewrite IH. cbn [value_from foldl length].
    do 2 f_equal. lia.
Qed.

Lemma strtol_run base c w s :
  is_digit c = true → digit_val c < base → base = 8 ∨ base = 10 →
  Forall (λ d, digit_val d < base) w → base ≤ digit_val (hd 0 s) →
  strtol ((c :: w) ++ s ++ [0]) base =
  Some (clamp_long (value_from base 0 (c :: w)), Z.of_nat (length (c :: w))).
Proof.
  intros Hc Hb Hbase Hw Hs. unfold strtol. cbn [app].
  rewrite skip_space_digit, scan_sign_digit by done.
  assert (scan_0x base (c :: w ++ s ++ [0]) = (c :: w ++ s ++ [0], 0)) as ->.
  { unfold scan_0x. rewrite (proj2 (Z.eqb_neq base 16)) by lia. by repeat case_match. }
  pose proof (scan_digits_run base (c :: w) s 0 0) as Hr. cbn [app] in Hr.
  rewrite Hr by (done || by constructor). cbn [mbind option_bind].
  rewrite (proj2 (Z.eqb_neq _ _)) by (cbn; lia). done.
Qed.

Lemma drop_text lx p s : text_at lx p s → drop (Z.to_nat p) (lex_input lx) = s ++ [0].
Proof. by intros []. Qed.

(** No digit, point or exponent follows. *)
Definition integer_ends (s : list Z) : Prop :=
  is_digit (hd 0 s) = false ∧ hd 0 s ≠ $"." ∧ hd 0 s ≠ $"e" ∧ hd 0 s ≠ $"E".

(** The base of an integer literal from its first digit. *)
Definition literal_base (c : Z) : Z := if c =? $"0" then 8 else 10.

Definition after_integer (c : Z) (w : list Z) (p : Z) (lx : stb_lexer) : stb_lexer :=
  emit CLEX_intlit p (Z.of_nat (length (c :: w)))
    (set_int_number (clamp_long (value_from (literal_base c) 0 (c :: w))) lx).

Lemma lex_integer_run base lx p c w s :
  text_at lx p ((c :: w) ++ s) → is_digit c = true → base = literal_base c →
  Forall (λ d, is_digit d = true ∧ digit_val d < base) w → is_digit (hd 0 s) = false →
  base ≤ digit_val (hd 0 s) →
  lex_integer base p lx = (Ok 1, after_integer c w p lx).
Proof.
  intros Ht Hc -> Hw Hs Hv. unfold lex_integer, input_strtol.
  assert (digit_val c < literal_base c).
  { pose proof (is_digit_val c Hc). unfold literal_base. destruct (Z.eqb_spec c $"0") as [->|]; [done|lia]. }
  erewrite bind_run.
  2:{ erewrite bind_run by done. rewrite (drop_text _ _ _ Ht), <-app_assoc, strtol_run; [reflexivity|done..| | |done].
      - unfold literal_base. case_match; auto.
      - eapply Forall_impl; [exact Hw|]. by intros d []. }
  cbn beta iota. erewrite bind_run by done. unfold stb__clex_parse_suffixes. eapply emit_token; [|reflexivity].
  cbn [length]. lia.
Qed.

Lemma integer_run lx p c w s :
  text_at lx p ((c :: w) ++ s) → is_digit c = true →
  Forall (λ d, is_digit d = true ∧ digit_val d < literal_base c) w → integer_ends s →
  literal_base c ≤ digit_val (hd 0 s) →
  lex_number c p lx = (Ok 1, after_integer c w p lx).
Proof.
  intros Ht Hc Hw (Hd & Hdot & He & HE) Hv. unfold lex_number.
  erewrite bind_run by (apply (scan_while_run is_digit _ _ _ Ht)).
  assert (span is_digit ((c :: w) ++ s) = length (c :: w)) as ->.
  { rewrite span_app by (constructor; [done|eapply Forall_impl; [exact Hw|by intros d []]]).
    rewrite span_stop by done. lia. }
  pose proof (text_at_app _ _ _ _ Ht) as Hq. erewrite bind_run by done.
  rewrite (text_end _ _ _ Hq).
  assert ((if bool_decide (s = []) then ret false
    else c0 ← peek (p + Z.of_nat (length (c :: w)));
         ret ((c0 =? $".") || (c0 =? $"e") || (c0 =? $"E"))) lx = (Ok false, lx)) as Hfl.
  { destruct (bool_decide _); [done|]. (erewrite bind_run by (by apply peek_here)).
    by rewrite !(proj2 (Z.eqb_neq _ _)) by done. }
  erewrite bind_run by exact Hfl. cbn beta iota.
  unfold literal_base in *. destruct (Z.eqb_spec c $"0") as [->|Hne].
  - eapply lex_integer_run; done.
  - eapply lex_integer_run; unfold literal_base; rewrite ?(proj2 (Z.eqb_neq _ _)) by done; done.
Qed.

(** ** String literals *)

(** A character as it is written between double quotes. *)
Definition escape (x : Z) : list Z :=
  if x =? $"\" then [$"\"; $"\"]
  else if x =? $"034" then [$"\"; $"034"]
  else if x =? $"009" then [$"\"; $"t"]
  else if x =? $"012" then [$"\"; $"f"]
  else if x =? $"010" then [$"\"; $"n"]
  else if x =? $"013" then [$"\"; $"r"]
  else if x =? 0 then [$"\"; $"0"]
  else [x].

Lemma to_char_uchar x : -128 ≤ x ≤ 127 → to_char (to_uchar x) = x.
Proof.
  intros Hx. unfold to_char, to_uchar, to_signed. rewrite Zplus_mod_idemp_l.
  rewrite Z.mod_small by lia. lia.
Qed.

Lemma to_uchar_range x : 0 ≤ to_uchar x < 256.
Proof. unfold to_uchar. apply Z.mod_pos_bound. lia. Qed.

(** The letters of the escapes, with the characters they stand for. *)
Definition escapes : list (Z * Z) :=
  [($"\", $"\"); ($"034", $"034"); ($"t", $"009"); ($"f", $"012"); ($"n", $"010"); ($"r", $"013"); ($"0", 0)].

Lemma parse_char_run lx q c1 n s :
  text_at lx q ($"\" :: c1 :: s) → In (c1, n) escapes →
  stb__clex_parse_char q lx = (Ok (n, q + 2), lx).
Proof.
  intros Ht Hin. pose proof (peek_here _ _ _ Ht) as H0. apply text_at_cons in Ht.
  pose proof (peek_here _ _ _ Ht) as H1. cbn [hd] in *. unfold stb__clex_parse_char.
  erewrite bind_run by exact H0. cbn [Z.eqb Pos.eqb]. erewrite bind_run by exact H1.
  cbn in Hin. by repeat destruct Hin as [[= <- <-]|Hin].
Qed.

Lemma escape_cases x : (∃ c1, escape x = [$"\"; c1] ∧ In (c1, x) escapes) ∨
  (escape x = [x] ∧ x ≠ $"\" ∧ x ≠ $"034").
Proof.
  unfold escape, escapes. cbn [In].
  repeat match goal with |- context [if ?a =? ?b then _ else _] =>
    destruct (Z.eqb_spec a b) as [->|]; [left; eexists; split; [reflexivity|]; tauto|] end.
  by right.
Qed.

(** The escape step, with the character it yields. *)
Lemma escape_step lx q x s :
  text_at lx q (escape x ++ s) → -128 ≤ x ≤ 127 →
  hd 0 (escape x ++ s) ≠ $"034" ∧ ∃ n,
  (if hd 0 (escape x ++ s) =? $"\" then stb__clex_parse_char q else ret (to_uchar (hd 0 (escape x ++ s)), q + 1)) lx =
    (Ok (n, q + Z.of_nat (length (escape x))), lx) ∧ 0 ≤ n ∧ to_char n = x.
Proof.
  intros Ht Hx. destruct (escape_cases x) as [(c1 & E & Hin)|(E & H1 & H2)]; rewrite E in *; cbn [hd app] in *.
  - split; [done|]. exists x. split; [by apply (parse_char_run _ _ c1 _ s)|].
    split; [|by apply to_char_id]. cbn in Hin. by repeat destruct Hin as [[= <- <-]|Hin].
  - split; [done|]. exists (to_uchar x). pose proof (to_uchar_range x).
    rewrite (proj2 (Z.eqb_neq _ _)) by done. split; [done|]. split; [lia|by apply to_char_uchar].
Qed.

Lemma string_turn_run start lx q x s a st0 outend :
  text_at lx q (escape x ++ s) → -128 ≤ x ≤ 127 → (length a < length st0)%nat → Z.of_nat (length a) < outend →
  parse_string_turn start ($"034") outend (q, Z.of_nat (length a)) (set_storage (written a st0) lx) =
  (Ok (inl (q + Z.of_nat (length (escape x)), Z.of_nat (length (a ++ [x])))), set_storage (written (a ++ [x]) st0) lx).
Proof.
  intros Ht Hx Hl Ho. unfold parse_string_turn.
  assert (text_at (set_storage (written a st0) lx) q (escape x ++ s)) as Ht' by by eapply text_frame; [..|exact Ht].
  (erewrite bind_run by (by apply peek_here)).
  destruct (escape_step _ q x s Ht' Hx) as (Hne & n & Hstep & Hn & Hc).
  rewrite (proj2 (Z.eqb_neq _ _)) by done. erewrite bind_run by exact Hstep. cbn beta iota.
  rewrite (proj2 (Z.ltb_ge n 0)) by done. rewrite Z.gtb_ltb, (proj2 (Z.ltb_ge _ _)) by lia.
  erewrite bind_run by (rewrite Hc; by apply store_next). unfold ret. rewrite length_app. cbn. do 4 f_equal. lia.
Qed.

Lemma string_turn_end start outend out q s lx :
  text_at lx q ($"034" :: s) →
  parse_string_turn start ($"034") outend (q, out) lx = (Ok (inr (inr (q, out))), lx).
Proof. intros Ht. unfold parse_string_turn. by (erewrite bind_run by (by apply peek_here)). Qed.

Lemma string_loop_run start lx st0 s outend l a q fuel :
  text_at lx q ((l ≫= escape) ++ $"034" :: s) → Forall (λ x, -128 ≤ x ≤ 127) l →
  (length (a ++ l) ≤ length st0)%nat → Z.of_nat (length (a ++ l)) ≤ outend → (length l < fuel)%nat →
  loop fuel (parse_string_turn start ($"034") outend) (q, Z.of_nat (length a)) (set_storage (written a st0) lx) =
  (Ok (inr (q + Z.of_nat (length (l ≫= escape)), Z.of_nat (length (a ++ l)))), set_storage (written (a ++ l) st0) lx).
Proof.
  revert a q fuel. induction l as [|x l IH]; intros a q [|fuel] Ht Hx Hl Ho Hf; cbn [length] in Hf; try lia.
  - cbn [mbind list_bind app length] in *. rewrite !app_nil_r. cbn [loop].
    erewrite bind_run by (eapply string_turn_end; by eapply text_frame; [..|exact Ht]).
    cbn. by rewrite Z.add_0_r.
  - inversion Hx; subst. cbn [mbind list_bind] in *. rewrite <-app_assoc in Ht.
    assert (length (a ++ x :: l) = length a + S (length l))%nat as El by by rewrite length_app.
    cbn [loop]. erewrite bind_run by (eapply string_turn_run; [exact Ht|done|lia|lia]).
    cbn beta iota. assert (a ++ x :: l = (a ++ [x]) ++ l) as E by (by rewrite <-app_assoc).
    rewrite E in *. rewrite IH; [|by apply text_at_app|done..|lia].
    rewrite (length_app (escape x)). do 4 f_equal. lia.
Qed.

(** The state after the literal of [l] at [p]. *)
Definition after_string (l : list Z) (p : Z) (lx : stb_lexer) : stb_lexer :=
  emit CLEX_dqstring p (Z.of_nat (length (l ≫= escape)) + 2)
    (set_string_len (Z.of_nat (length l)) (set_string (Some 0)
      (set_storage (written (l ++ [0]) (lex_string_storage lx)) lx))).

Lemma escape_length l : (length l ≤ length (l ≫= escape))%nat.
Proof.
  induction l as [|x l IH]; cbn; [lia|]. rewrite length_app.
  destruct (escape_cases x) as [(c1 & -> & _)|(-> & _)]; cbn; lia.
Qed.

Lemma string_run lx p l s :
  text_at lx p ($"034" :: (l ≫= escape) ++ $"034" :: s) → Forall (λ x, -128 ≤ x ≤ 127) l →
  Z.of_nat (length l) ≤ lex_string_storage_len lx < Z.of_nat (length (lex_string_storage lx)) →
  stb__clex_parse_string p CLEX_dqstring lx = (Ok 1, after_string l p lx).
Proof.
  intros Ht Hx Hl. pose proof (text_fuel _ _ _ Ht) as Hf. cbn [length] in Hf. rewrite length_app in Hf.
  pose proof (escape_length l) as Hle.
  unfold stb__clex_parse_string. (erewrite bind_run by (by apply peek_here)). cbn [hd].
  erewrite bind_run by done. erewrite bind_run by done. apply text_at_cons in Ht.
  assert (lx = set_storage (written [] (lex_string_storage lx)) lx) as E by by destruct lx.
  pose proof (string_loop_run p lx (lex_string_storage lx) s (lex_string_storage_len lx) l []
    (p + 1) (lex_fuel lx) Ht Hx) as Hloop. rewrite <-E in Hloop. cbn [app length] in Hloop.
  erewrite bind_run by (apply Hloop; lia). cbn beta iota.
  erewrite bind_run by (apply store_next; lia). erewrite bind_run by done. erewrite bind_run by done.
  eapply emit_token; [|reflexivity]. lia.
Qed.

(** ** Blanks *)

(** A text that does not start with a blank. *)
Definition starts_token (s : list Z) : Prop :=
  stb__clex_iswhite (hd 0 s) = false ∧ hd 0 s ≠ $"#" ∧
  (hd 0 s = $"/" → hd 0 (tl s) ≠ $"/" ∧ hd 0 (tl s) ≠ $"*").

(** A comment is closed in [l]. *)
Fixpoint closes (l : list Z) : bool :=
  match l with
  | x :: l => ((x =? $"*") && (hd 0 l =? $"/")) || closes l
  | [] => false
  end.

(** White space, comments and preprocessor lines. *)
Inductive blanks : list Z → Prop :=
  | blank_none : blanks []
  | blank_white c b : stb__clex_iswhite c = true → blanks b → blanks (c :: b)
  | blank_line l e b :
      Forall (λ c, not_eol c = true) l → not_eol e = false → blanks (e :: b) →
      blanks ($"/" :: $"/" :: l ++ e :: b)
  | blank_block l b :
      closes l = false → blanks b → blanks ($"/" :: $"*" :: l ++ $"*" :: $"/" :: b)
  | blank_preprocessor l e b :
      Forall (λ c, not_eol c = true) l → not_eol e = false → blanks (e :: b) →
      blanks ($"#" :: l ++ e :: b).

Lemma looking_at_run lx a b p s :
  a ≠ 0 → b ≠ 0 → text_at lx p s →
  looking_at a b p lx = (Ok ((hd 0 s =? a) && (hd 0 (tl s) =? b)), lx).
Proof.
  intros Ha Hb Ht. unfold looking_at. erewrite bind_run by done. rewrite (text_end _ _ _ Ht).
  destruct s as [|c s].
  { rewrite bool_decide_true by done. cbn [hd tl]. by rewrite (proj2 (Z.eqb_neq 0 a)). }
  rewrite bool_decide_false by done. (erewrite bind_run by (by apply peek_here)). cbn [hd tl].
  destruct (c =? a); [|done]. apply text_at_cons in Ht. by (erewrite bind_run by (by apply peek_here)).
Qed.

Lemma skip_turn_end lx p s :
  text_at lx p s → starts_token s → skip_turn p lx = (Ok (inr (Some p)), lx).
Proof.
  intros Ht (Hw & Hh & Hc). unfold skip_turn. erewrite bind_run by by apply scan_while_run.
  rewrite (span_stop _ _ Hw), Z.add_0_r. erewrite bind_run by by eapply looking_at_run.
  assert ((hd 0 s =? $"/") && (hd 0 (tl s) =? $"/") = false) as ->.
  { destruct (Z.eqb_spec (hd 0 s) $"/"); [|done]. apply Z.eqb_neq, Hc. done. }
  erewrite bind_run by by eapply looking_at_run.
  assert ((hd 0 s =? $"/") && (hd 0 (tl s) =? $"*") = false) as ->.
  { destruct (Z.eqb_spec (hd 0 s) $"/"); [|done]. apply Z.eqb_neq, Hc. done. }
  erewrite bind_run by done. rewrite (text_end _ _ _ Ht). destruct (bool_decide _); [done|].
  erewrite bind_run by (erewrite bind_run by (by apply peek_here); done).
  by rewrite (proj2 (Z.eqb_neq _ _)) by done.
Qed.

Lemma skip_turn_white lx p c s :
  text_at lx p (c :: s) → stb__clex_iswhite c = true → skip_turn p lx = skip_turn (p + 1) lx.
Proof.
  intros Ht Hc. pose proof (text_at_cons _ _ _ _ Ht) as Ht1. unfold skip_turn.
  erewrite (bind_run (scan_while _ p)) by by apply scan_while_run.
  erewrite (bind_run (scan_while _ (p + 1))) by by apply scan_while_run.
  cbn [span]. rewrite Hc.
  by replace (p + Z.of_nat (S (span stb__clex_iswhite s))) with (p + 1 + Z.of_nat (span stb__clex_iswhite s)) by lia.
Qed.

(** A line that is skipped, up to its end. *)
Lemma skip_turn_line lx p a l e s :
  text_at lx p (a ++ l ++ e :: s) → a = [$"/"; $"/"] ∨ a = [$"#"] →
  Forall (λ c, not_eol c = true) l → not_eol e = false →
  skip_turn p lx = (Ok (inl (p + Z.of_nat (length (a ++ l)))), lx).
Proof.
  intros Ht Ha Hl He. unfold skip_turn. erewrite bind_run by by apply scan_while_run.
  rewrite span_stop by by destruct Ha as [->| ->]. rewrite Z.add_0_r.
  assert (scan_while not_eol p lx = (Ok (p + Z.of_nat (length (a ++ l))), lx)) as Hs.
  { erewrite scan_while_run by exact Ht. rewrite app_assoc, span_app.
    - rewrite span_stop by done. by rewrite Nat.add_0_r.
    - apply Forall_app. split; [|done]. destruct Ha as [->| ->]; repeat constructor. }
  erewrite bind_run by by eapply looking_at_run. destruct Ha as [->| ->]; cbn [app hd tl Z.eqb Pos.eqb andb].
  { by erewrite bind_run by exact Hs. }
  erewrite bind_run by by eapply looking_at_run. cbn [app hd tl Z.eqb Pos.eqb andb].
  erewrite bind_run by done. rewrite (text_end _ _ _ Ht). rewrite bool_decide_false by done.
  erewrite bind_run by (erewrite bind_run by (by apply peek_here); done). cbn [app hd Z.eqb Pos.eqb].
  by erewrite bind_run by exact Hs.
Qed.

Lemma scan_comment_run lx p l s :
  text_at lx p (l ++ $"*" :: $"/" :: s) → closes l = false →
  scan_comment p lx = (Ok (p + Z.of_nat (length l)), lx).
Proof.
  intros Ht Hl. pose proof (text_fuel _ _ _ Ht) as Hf. rewrite length_app in Hf.
  unfold scan_comment. erewrite bind_run by done. erewrite bind_run by done. revert p Ht Hf.
  generalize (lex_fuel lx). induction l as [|x l IH]; intros [|fuel] p Ht Hf; cbn [length] in Hf; try lia;
    cbn [loop]; rewrite (text_end _ _ _ Ht), bool_decide_false by done; cbn [app] in *;
    rewrite !bind_bind; (erewrite bind_run by (by apply peek_here)); cbn [hd].
  - apply text_at_cons in Ht. cbn. rewrite bind_bind. (erewrite bind_run by (by apply peek_here)).
    cbn. by rewrite Z.add_0_r.
  - cbn [closes] in Hl. apply orb_false_iff in Hl as [Hx Hl]. apply text_at_cons in Ht.
    specialize (IH Hl fuel (p + 1) Ht ltac:(cbn [length]; lia)).
    replace (p + Z.of_nat (length (x :: l))) with (p + 1 + Z.of_nat (length l)) by (cbn [length]; lia).
    destruct (Z.eqb_spec x $"*") as [->|]; cbn [negb]; [|exact IH].
    rewrite bind_bind. (erewrite bind_run by (by apply peek_here)). cbn in Hx.
    assert ((hd 0 (l ++ $"*" :: $"/" :: s) =? $"/") = false) as -> by (by destruct l).
    exact IH.
Qed.

Lemma skip_turn_block lx p l s :
  text_at lx p ($"/" :: $"*" :: l ++ $"*" :: $"/" :: s) → closes l = false →
  skip_turn p lx = (Ok (inl (p + 2 + Z.of_nat (length l) + 2)), lx).
Proof.
  intros Ht Hl. unfold skip_turn. erewrite bind_run by by apply scan_while_run.
  rewrite span_stop by done. rewrite Z.add_0_r.
  erewrite bind_run by by eapply looking_at_run. cbn [hd tl Z.eqb Pos.eqb andb].
  erewrite bind_run by by eapply looking_at_run. cbn [hd tl Z.eqb Pos.eqb andb].
  pose proof (text_at_app lx p [$"/"; $"*"] _ Ht) as Ht2. cbn [length] in Ht2.
  erewrite bind_run by (eapply scan_comment_run; [exact Ht2|done]). erewrite bind_run by done.
  apply text_at_app in Ht2. change (Z.of_nat 2) with 2 in *. rewrite (text_end _ _ _ Ht2).
  by rewrite bool_decide_false by done.
Qed.
