(* ===== verification/MoeList.v ===== *)
(** * moe/common/moe_list.c: intrusive circular doubly linked lists

    The functions are written over any memory that holds list nodes, the class
    [NodeStore]; [Heap.v] gives the instance for the memory of the program, where
    the nodes are members of larger structures. A list is a ring of nodes through
    its head node; [dll s head ns] says that the nodes of the list [head] are [ns],
    in the order of the [next] pointers. *)
From S2P Require Import Prelude.

Record moe_list_node_t : Type := ListNode { next : ptr; prev : ptr }.

(** A memory of list nodes: what the functions of this file need of it. *)
Class NodeStore (S : Type) := {
  get_node : ptr → S → option moe_list_node_t;
  put_node : ptr → moe_list_node_t → S → S;
  get_put_eq : ∀ p n s, is_Some (get_node p s) → get_node p (put_node p n s) = Some n;
  get_put_ne : ∀ p q n s, p ≠ q → get_node q (put_node p n s) = get_node q s;
  get_node_addr : ∀ p n s, get_node p s = Some n → ∃ b o, p = Addr b o;
}.

Record moe_list_iterator_t : Type := ListIterator { current : ptr; it_head : ptr }.

Section operations.
Context {S : Type} `{!NodeStore S} `{!BuildConfig}.

(** ** Field accesses [p->next], [p->prev] *)

Definition bad_pointer (p : ptr) : error :=
  match p with
  | NULL => Undefined NullDeref
  | Pundef => Undefined Indeterminate
  | Addr _ _ => Undefined InvalidPtr
  end.

Definition load_node (p : ptr) : M S moe_list_node_t := λ s,
  match get_node p s with
  | Some n => (Ok n, s)
  | None => (Err (bad_pointer p), s)
  end.

Definition load_next (p : ptr) : M S ptr := n ← load_node p; ret (next n).
Definition load_prev (p : ptr) : M S ptr := n ← load_node p; ret (prev n).
Definition store_next (p v : ptr) : M S unit :=
  n ← load_node p; modify (put_node p (ListNode v (prev n))).
Definition store_prev (p v : ptr) : M S unit :=
  n ← load_node p; modify (put_node p (ListNode (next n) v)).

(** ** Construction *)

Definition moe_list_node_init (node : ptr) : M S unit :=
  store_next node node;; store_prev node node.

Definition not_null (p : ptr) : bool := negb (bool_decide (p = NULL)).

Definition moe_list_add_head (list node : ptr) : M S unit :=
  MOE_ASSERT_MSG (not_null list && not_null node);;
  orig_next ← load_next list;
  store_next list node;;
  store_prev node list;;
  store_next node orig_next;;
  store_prev orig_next node.

Definition moe_list_add_tail (list node : ptr) : M S unit :=
  MOE_ASSERT_MSG (not_null list && not_null node);;
  orig_prev ← load_prev list;
  store_prev list node;;
  store_prev node orig_prev;;
  store_next node list;;
  store_next orig_prev node.

(** ** Access *)

Definition moe_list_empty (list : ptr) : M S bool :=
  n ← load_next list;
  if bool_decide (n = list) then p ← load_prev list; ret (bool_decide (p = list))
  else ret false.

Definition moe_list_head (list : ptr) : M S ptr := load_next list.
Definition moe_list_tail (list : ptr) : M S ptr := load_prev list.

(** ** Replacement and removal *)

Definition moe_list_replace (list node : ptr) : M S ptr :=
  MOE_ASSERT_MSG (not_null list && not_null node);;
  p ← load_prev list;
  store_next p node;;
  p ← load_prev list;
  store_prev node p;;
  n ← load_next list;
  store_prev n node;;
  n ← load_next list;
  store_next node n;;
  store_next list NULL;;
  store_prev list NULL;;
  ret list.

Definition moe_list_remove (node : ptr) : M S unit :=
  MOE_ASSERT_MSG (not_null node);;
  p ← load_prev node;
  n ← load_next node;
  store_next p n;;
  n ← load_next node;
  p ← load_prev node;
  store_prev n p;;
  store_next node NULL;;
  store_prev node NULL.

(** ** Iteration. [fuel] bounds the number of nodes visited. *)

Section iterate.
Context {C : Type}.
Implicit Types ctx : C.

Definition moe_list_iterate (fuel : nat) (head : ptr) (iterator : ptr → C → M S unit)
    ctx : M S unit :=
  node ← load_next head;
  loop fuel (λ node,
    if bool_decide (node = head) then ret (inr tt) else
    iterator node ctx;;
    n ← load_next node; ret (inl n)) node.

Definition moe_list_iterate_predicated (fuel : nat) (head : ptr)
    (iterator : ptr → C → M S bool) ctx : M S unit :=
  node ← load_next head;
  loop fuel (λ node,
    if bool_decide (node = head) then ret (inr tt) else
    result ← iterator node ctx;
    if negb result then ret (inr tt) else
    n ← load_next node; ret (inl n)) node.

Definition moe_list_iterate_safe (fuel : nat) (head : ptr) (iterator : ptr → C → M S unit)
    ctx : M S unit :=
  node ← load_next head;
  loop fuel (λ node,
    if bool_decide (node = head) then ret (inr tt) else
    n ← load_next node;
    iterator node ctx;;
    ret (inl n)) node.

Definition moe_list_reverse_iterate (fuel : nat) (head : ptr) (iterator : ptr → C → M S unit)
    ctx : M S unit :=
  node ← load_prev head;
  loop fuel (λ node,
    if bool_decide (node = head) then ret (inr tt) else
    iterator node ctx;;
    n ← load_prev node; ret (inl n)) node.

Definition moe_list_reverse_iterate_predicated (fuel : nat) (head : ptr)
    (iterator : ptr → C → M S bool) ctx : M S unit :=
  node ← load_prev head;
  loop fuel (λ node,
    if bool_decide (node = head) then ret (inr tt) else
    result ← iterator node ctx;
    if negb result then ret (inr tt) else
    n ← load_prev node; ret (inl n)) node.
End iterate.

(** ** Iterators *)

Definition moe_list_iterator_init (head : ptr) : moe_list_iterator_t :=
  ListIterator head head.

Definition moe_list_iterator_next (it : moe_list_iterator_t) : M S (bool * moe_list_iterator_t) :=
  n ← load_next (current it);
  ret (negb (bool_decide (n = it_head it)), ListIterator n (it_head it)).

Definition moe_list_iterator_get (it : moe_list_iterator_t) : ptr := current it.

(** [while (moe_list_iterator_next(&it)) body(moe_list_iterator_get(&it));] with
    the variables [a] the body updates. *)
Definition iterator_loop {A} (fuel : nat) (body : ptr → A → M S A)
    (it : moe_list_iterator_t) (a : A) : M S A :=
  loop fuel (λ '(it, a),
    '(more, it) ← moe_list_iterator_next it;
    if negb more then ret (inr a) else
    a ← body (moe_list_iterator_get it) a; ret (inl (it, a))) (it, a).
End operations.

(** ** Rings *)

Section rings.
Context {S : Type} `{!NodeStore S}.
Implicit Types s : S.

Definition next_of s (p : ptr) : option ptr := next <$> get_node p s.
Definition prev_of s (p : ptr) : option ptr := prev <$> get_node p s.

Definition linked s (a b : ptr) : Prop := next_of s a = Some b ∧ prev_of s b = Some a.

(** Consecutive nodes are linked both ways. *)
Fixpoint chain s (l : list ptr) : Prop :=
  match l with
  | a :: (b :: _) as l' => linked s a b ∧ chain s l'
  | _ => True
  end.

(** The nodes of [l], distinct, form a cycle. *)
Definition ring s (l : list ptr) : Prop :=
  NoDup l ∧ match l with [] => False | a :: _ => chain s (l ++ [a]) end.

(** The list with head node [head] holds the nodes [ns]. *)
Definition dll s (head : ptr) (ns : list ptr) : Prop := ring s (head :: ns).

(** Consecutive nodes are linked by the field [fld], [next_of] or [prev_of]. *)
Fixpoint path (fld : S → ptr → option ptr) s (l : list ptr) : Prop :=
  match l with
  | a :: (b :: _) as l' => fld s a = Some b ∧ path fld s l'
  | _ => True
  end.

(** [s'] is [s] with some of the nodes [ps] rewritten. *)
Inductive rewired (ps : list ptr) : S → S → Prop :=
  | rewired_refl s : rewired ps s s
  | rewired_put p n s s' :
      p ∈ ps → is_Some (get_node p s') → rewired ps s s' → rewired ps s (put_node p n s').

(** The effect of a field assignment. *)
Definition set_next (p v : ptr) s : S :=
  match get_node p s with Some n => put_node p (ListNode v (prev n)) s | None => s end.
Definition set_prev (p v : ptr) s : S :=
  match get_node p s with Some n => put_node p (ListNode (next n) v) s | None => s end.
End rings.

(** ** What the iterations compute *)

(** [f] on the elements of a list in order, until it says to stop. *)
Fixpoint for_each_while {S A} (f : A → M S bool) (l : list A) : M S unit :=
  match l with
  | [] => ret tt
  | x :: l => b ← f x; if (b : bool) then for_each_while f l else ret tt
  end.

(** [f] on the elements of a list in order, threading a value. *)
Fixpoint fold_each {S A B} (f : A → B → M S B) (l : list A) (b : B) : M S B :=
  match l with
  | [] => ret b
  | x :: l => b ← f x b; fold_each f l b
  end.
