(* ===== verification/MoeListFacts.v ===== *)
(** * Facts about the lists of moe_list.c

    Field assignments as functions on the store, the algebra of rings (rotation,
    insertion, removal, replacement), and for every function of the file the
    effect it has on a well-formed list. *)
From S2P Require Import Prelude MoeList.

Section facts.
Context {S : Type} `{!NodeStore S}.
Implicit Types s : S.

Definition is_node s (p : ptr) : Prop := is_Some (get_node p s).

(** ** Field assignments *)

Lemma next_of_node s p q : next_of s p = Some q → is_node s p.
Proof. unfold next_of, is_node. destruct (get_node p s); [eauto|done]. Qed.
Lemma prev_of_node s p q : prev_of s p = Some q → is_node s p.
Proof. unfold prev_of, is_node. destruct (get_node p s); [eauto|done]. Qed.

Lemma next_of_set_next p v s q :
  is_node s p → next_of (set_next p v s) q = if decide (q = p) then Some v else next_of s q.
Proof.
  intros [n Hn]. unfold next_of, set_next. rewrite Hn. case_decide as Hq; [subst q|].
  - rewrite get_put_eq by eauto. done.
  - by rewrite get_put_ne.
Qed.

Lemma prev_of_set_next p v s q : prev_of (set_next p v s) q = prev_of s q.
Proof.
  unfold prev_of, set_next. destruct (get_node p s) as [n|] eqn:Hn; [|done].
  destruct (decide (p = q)) as [<-|].
  - rewrite get_put_eq by eauto. by rewrite Hn.
  - by rewrite get_put_ne.
Qed.

Lemma prev_of_set_prev p v s q :
  is_node s p → prev_of (set_prev p v s) q = if decide (q = p) then Some v else prev_of s q.
Proof.
  intros [n Hn]. unfold prev_of, set_prev. rewrite Hn. case_decide as Hq; [subst q|].
  - rewrite get_put_eq by eauto. done.
  - by rewrite get_put_ne.
Qed.

Lemma next_of_set_prev p v s q : next_of (set_prev p v s) q = next_of s q.
Proof.
  unfold next_of, set_prev. destruct (get_node p s) as [n|] eqn:Hn; [|done].
  destruct (decide (p = q)) as [<-|].
  - rewrite get_put_eq by eauto. by rewrite Hn.
  - by rewrite get_put_ne.
Qed.

Lemma is_node_put p n s q : is_node s p → is_node (put_node p n s) q ↔ is_node s q.
Proof.
  unfold is_node. intros Hp. destruct (decide (p = q)) as [<-|].
  - rewrite get_put_eq by done. split; eauto.
  - by rewrite get_put_ne.
Qed.

Lemma is_node_set_next p v s q : is_node (set_next p v s) q ↔ is_node s q.
Proof.
  unfold set_next. destruct (get_node p s) eqn:E; [|done].
  apply is_node_put. unfold is_node. eauto.
Qed.

Lemma is_node_set_prev p v s q : is_node (set_prev p v s) q ↔ is_node s q.
Proof.
  unfold set_prev. destruct (get_node p s) eqn:E; [|done].
  apply is_node_put. unfold is_node. eauto.
Qed.

Lemma is_node_not_null s p : is_node s p → not_null p = true.
Proof. intros [n Hn]. apply get_node_addr in Hn as (b & o & ->). done. Qed.

(** ** Runs of the field accesses *)

Lemma load_next_run s p v : next_of s p = Some v → load_next p s = (Ok v, s).
Proof.
  unfold next_of, load_next, load_node, bind. destruct (get_node p s); [|done]. by intros [= <-].
Qed.

Lemma load_prev_run s p v : prev_of s p = Some v → load_prev p s = (Ok v, s).
Proof.
  unfold prev_of, load_prev, load_node, bind. destruct (get_node p s); [|done]. by intros [= <-].
Qed.

Lemma store_next_run s p v : is_node s p → store_next p v s = (Ok tt, set_next p v s).
Proof. intros [n Hn]. unfold store_next, load_node, bind, set_next. by rewrite Hn. Qed.

Lemma store_prev_run s p v : is_node s p → store_prev p v s = (Ok tt, set_prev p v s).
Proof. intros [n Hn]. unfold store_prev, load_node, bind, set_prev. by rewrite Hn. Qed.

(** ** Rewired stores *)

Lemma rewired_set_next ps p v s s' :
  p ∈ ps → rewired ps s s' → rewired ps s (set_next p v s').
Proof.
  intros Hp Hr. unfold set_next. destruct (get_node p s') eqn:E; [|done]. by constructor.
Qed.

Lemma rewired_set_prev ps p v s s' :
  p ∈ ps → rewired ps s s' → rewired ps s (set_prev p v s').
Proof.
  intros Hp Hr. unfold set_prev. destruct (get_node p s') eqn:E; [|done]. by constructor.
Qed.

Lemma rewired_get ps s s' p : rewired ps s s' → p ∉ ps → get_node p s' = get_node p s.
Proof.
  induction 1 as [|q n s s' Hq Hs Hr IH]; [done|]. intros Hp.
  rewrite get_put_ne; [by apply IH|]. by intros ->.
Qed.

Lemma rewired_is_node ps s s' p : rewired ps s s' → is_node s' p ↔ is_node s p.
Proof.
  induction 1 as [|q n s s' Hq Hs Hr IH]; [done|]. by rewrite is_node_put.
Qed.

Lemma rewired_mono ps ps' s s' : ps ⊆ ps' → rewired ps s s' → rewired ps' s s'.
Proof. intros Hps. induction 1; constructor; auto. Qed.

(** ** Chains *)

Lemma chain_app s l1 a l2 : chain s (l1 ++ a :: l2) ↔ chain s (l1 ++ [a]) ∧ chain s (a :: l2).
Proof.
  induction l1 as [|b l1 IH]; [cbn; tauto|].
  destruct l1 as [|c l1]; [cbn; tauto|].
  change (linked s b c ∧ chain s ((c :: l1) ++ a :: l2) ↔
    (linked s b c ∧ chain s ((c :: l1) ++ [a])) ∧ chain s (a :: l2)).
  rewrite IH. tauto.
Qed.

(** A chain only reads the [next] of its nodes but the last, and the [prev] of
    its nodes but the first. *)
Lemma chain_frame s s' l a :
  (∀ p, p ∈ l → next_of s' p = next_of s p) →
  (∀ p, p ∈ tail (l ++ [a]) → prev_of s' p = prev_of s p) →
  chain s (l ++ [a]) → chain s' (l ++ [a]).
Proof.
  induction l as [|b l IH]; intros Hn Hp; [done|].
  assert (∀ c, head (l ++ [a]) = Some c → linked s b c → linked s' b c) as Hl.
  { intros c Hc [H1 H2]. split.
    - by rewrite Hn by left.
    - rewrite Hp; [done|]. cbn. apply head_Some_elem_of in Hc. done. }
  assert (chain s (l ++ [a]) → chain s' (l ++ [a])) as IH'.
  { apply IH; [by intros; apply Hn; right|]. intros p H. apply Hp. cbn.
    destruct l; cbn in *; [by apply not_elem_of_nil in H|by right]. }
  destruct l as [|c l]; cbn in *; intros [? ?]; (split; [by apply Hl|by apply IH']).
Qed.

Lemma chain_is_node s l a p : chain s (l ++ [a]) → p ∈ l → is_node s p.
Proof.
  intros Hc (l1 & l2 & ->)%list_elem_of_split. rewrite <-app_assoc in Hc.
  apply chain_app in Hc as [_ Hc]. destruct l2 as [|b l2]; cbn in Hc;
    destruct Hc as [[H _] _]; by eapply next_of_node.
Qed.

(** ** Rings *)

Lemma ring_is_node s l p : ring s l → p ∈ l → is_node s p.
Proof. intros [_ Hc]. destruct l as [|a l]; [done|]. by eapply chain_is_node. Qed.

Lemma ring_rotate s l1 l2 : ring s (l1 ++ l2) → ring s (l2 ++ l1).
Proof.
  intros [Hnd Hc]. split; [by rewrite Permutation_app_comm|].
  destruct l1 as [|a l1]; [by rewrite app_nil_r|].
  destruct l2 as [|b l2]; [by rewrite app_nil_r in Hc|].
  cbn in Hc |- *. rewrite <-app_assoc in Hc. cbn in Hc.
  apply (chain_app s (a :: l1)) in Hc as [H1 H2].
  change (chain s (b :: (l2 ++ a :: l1) ++ [b])). rewrite <-app_assoc. cbn.
  by apply (chain_app s (b :: l2)).
Qed.

(** The neighbours of a node of a ring. *)
Lemma ring_next s a l : ring s (a :: l) → next_of s a = head (l ++ [a]).
Proof. intros [_ Hc]. cbn in Hc. destruct l; cbn in *; by destruct Hc as [[] _]. Qed.

Lemma ring_prev s a l z : ring s (a :: l) → last (a :: l) = Some z → prev_of s a = Some z.
Proof.
  intros [_ Hc] Hz. apply last_Some in Hz as [l' Hl].
  assert (chain s (l' ++ z :: [a])) as Hc'.
  { change (chain s ((a :: l) ++ [a])) in Hc. rewrite Hl, <-app_assoc in Hc. done. }
  apply chain_app in Hc' as [_ [[_ H] _]]. done.
Qed.

Lemma ring_prev_rcons s a l z : ring s (a :: l ++ [z]) → prev_of s a = Some z.
Proof. intros. eapply ring_prev; [done|]. rewrite app_comm_cons. apply last_snoc. Qed.

Lemma ring_frame s s' l :
  (∀ p, p ∈ l → next_of s' p = next_of s p) →
  (∀ p, p ∈ l → prev_of s' p = prev_of s p) →
  ring s l → ring s' l.
Proof.
  intros Hn Hp [Hnd Hc]. split; [done|]. destruct l as [|a l]; [done|].
  change (chain s' ((a :: l) ++ [a])). eapply chain_frame; [by eauto| |done].
  cbn. intros p H. apply Hp. set_solver.
Qed.

Lemma ring_singleton s a : next_of s a = Some a → prev_of s a = Some a → ring s [a].
Proof. intros. split; [apply NoDup_singleton|]. by cbn. Qed.

(** Linking [x] between [a] and the node after it. *)
Lemma ring_insert s s' a b x l :
  ring s (a :: l) → x ∉ a :: l → head (l ++ [a]) = Some b →
  next_of s' a = Some x → prev_of s' x = Some a →
  next_of s' x = Some b → prev_of s' b = Some x →
  (∀ p, p ≠ a → p ≠ x → next_of s' p = next_of s p) →
  (∀ p, p ≠ b → p ≠ x → prev_of s' p = prev_of s p) →
  ring s' (a :: x :: l).
Proof.
  intros [Hnd Hc] Hx Hb Hna Hpx Hnx Hpb Hn Hp.
  apply NoDup_cons in Hnd as [Ha Hnd]. apply not_elem_of_cons in Hx as [Hxa Hxl].
  split.
  { apply NoDup_cons. split; [set_solver|]. by apply NoDup_cons. }
  assert (chain s (l ++ [a])) as Hl by (destruct l; cbn in *; tauto).
  assert (chain s' (l ++ [a])) as Hl'.
  { eapply chain_frame; [..|done].
    - intros p Hpl. apply Hn; intros ->; done.
    - intros p Hpl. apply Hp.
      + intros ->. assert (NoDup (l ++ [a])) as Hnd2.
        { apply NoDup_app. split_and!; [done|set_solver|apply NoDup_singleton]. }
        destruct (l ++ [a]) as [|c l']; cbn in *; [done|]. simplify_eq.
        by apply NoDup_cons in Hnd2 as [? _].
      + intros ->. destruct l; set_solver. }
  destruct l as [|c l]; cbn in Hb |- *; simplify_eq; by repeat split.
Qed.

(** The nodes of a list other than its first, and other than its last. *)
Lemma NoDup_ends (b : ptr) l m a :
  NoDup (b :: l) → b :: l = m ++ [a] →
  (∀ p, p ∈ tail (m ++ [a]) → p ∈ l ∧ p ≠ b) ∧ (∀ p, p ∈ m → p ∈ b :: l ∧ p ≠ a).
Proof.
  intros Hnd Hm. split; intros p Hpm.
  - rewrite <-Hm in Hpm. split; [done|]. intros ->. by apply NoDup_cons in Hnd as [? _].
  - rewrite Hm in Hnd |- *. apply NoDup_app in Hnd as (_ & Hdis & _).
    split; [set_solver|]. intros ->. apply (Hdis a); set_solver.
Qed.

(** Linking past the first node. *)
Lemma ring_delete s s' a b x l :
  ring s (x :: l) → head l = Some b → last l = Some a →
  next_of s' a = Some b → prev_of s' b = Some a →
  (∀ p, p ≠ a → p ≠ x → next_of s' p = next_of s p) →
  (∀ p, p ≠ b → p ≠ x → prev_of s' p = prev_of s p) →
  ring s' l.
Proof.
  intros [Hnd Hc] Hb Ha Hna Hpb Hn Hp.
  apply NoDup_cons in Hnd as [Hx Hnd]. split; [done|].
  destruct l as [|c l]; [done|]. cbn in Hb. simplify_eq.
  apply last_Some in Ha as [m Hm]. cbn in Hc. destruct Hc as [_ Hc].
  change (chain s ((b :: l) ++ [x])) in Hc. change (chain s' ((b :: l) ++ [b])).
  destruct (NoDup_ends b l m a Hnd Hm) as [Ht Hi].
  rewrite Hm in Hc |- *. rewrite <-app_assoc in Hc |- *. cbn in Hc |- *.
  apply chain_app in Hc as [Hc _]. apply chain_app. split; [|by repeat split].
  eapply chain_frame; [..|done].
  - intros p [Hpl Hpa]%Hi. apply Hn; [done|]. intros ->. done.
  - intros p [Hpl Hpb']%Ht. apply Hp; [done|]. intros ->. apply Hx. by right.
Qed.

(** Putting [y] in the place of [x]. *)
Lemma ring_substitute s s' a b x y l :
  ring s (x :: l) → y ∉ x :: l → head l = Some b → last l = Some a →
  next_of s' a = Some y → prev_of s' y = Some a →
  next_of s' y = Some b → prev_of s' b = Some y →
  (∀ p, p ≠ a → p ≠ x → p ≠ y → next_of s' p = next_of s p) →
  (∀ p, p ≠ b → p ≠ x → p ≠ y → prev_of s' p = prev_of s p) →
  ring s' (y :: l).
Proof.
  intros [Hnd Hc] Hy Hb Ha Hna Hpy Hny Hpb Hn Hp.
  apply NoDup_cons in Hnd as [Hx Hnd]. apply not_elem_of_cons in Hy as [Hyx Hyl].
  split; [by apply NoDup_cons|].
  destruct l as [|c l]; [done|]. cbn in Hb. simplify_eq.
  apply last_Some in Ha as [m Hm]. cbn in Hc. destruct Hc as [_ Hc].
  change (chain s ((b :: l) ++ [x])) in Hc.
  change (linked s' y b ∧ chain s' ((b :: l) ++ [y])). split; [done|].
  destruct (NoDup_ends b l m a Hnd Hm) as [Ht Hi].
  rewrite Hm in Hc |- *. rewrite <-app_assoc in Hc |- *. cbn in Hc |- *.
  apply chain_app in Hc as [Hc _]. apply chain_app. split; [|by repeat split].
  eapply chain_frame; [..|done].
  - intros p [Hpl Hpa]%Hi. apply Hn; [done|..]; by intros ->.
  - intros p [Hpl Hpb']%Ht. apply Hp; [done|..]; intros ->; [apply Hx|apply Hyl]; by right.
Qed.
End facts.

(** ** Automation *)

Ltac solve_node :=
  repeat first [rewrite is_node_set_next | rewrite is_node_set_prev]; first [assumption | eauto using ring_is_node].

(** The fields of a store after assignments. *)
Ltac fields :=
  intros;
  repeat first
    [ rewrite next_of_set_prev | rewrite prev_of_set_next
    | rewrite next_of_set_next by solve_node | rewrite prev_of_set_prev by solve_node ];
  repeat case_decide; try congruence.

(** One field access of a run. *)
Ltac run_field :=
  first
    [ erewrite bind_run by (apply store_next_run; solve_node)
    | erewrite bind_run by (apply store_prev_run; solve_node)
    | erewrite bind_run by (apply load_next_run; fields; first [eassumption | reflexivity])
    | erewrite bind_run by (apply load_prev_run; fields; first [eassumption | reflexivity])
    | apply store_next_run; solve_node | apply store_prev_run; solve_node
    | reflexivity ].

Section operations.
Context {S : Type} `{!NodeStore S} `{!BuildConfig}.
Implicit Types s : S.

Lemma moe_list_node_init_run p s :
  is_node s p → ∃ s', moe_list_node_init p s = (Ok tt, s') ∧ dll s' p [] ∧ rewired [p] s s'.
Proof.
  intros Hp. unfold moe_list_node_init. eexists. split; [by repeat run_field|]. split.
  - apply ring_singleton; fields.
  - apply rewired_set_prev, rewired_set_next; [set_solver..|constructor].
Qed.

(** [node] is put after [list]. *)
Lemma moe_list_add_head_run list node ns s :
  dll s list ns → is_node s node → node ∉ list :: ns →
  ∃ s', moe_list_add_head list node s = (Ok tt, s') ∧ dll s' list (node :: ns) ∧
        rewired (node :: list :: ns) s s'.
Proof.
  intros Hd Hn Hin. pose proof (ring_is_node _ _ list Hd ltac:(by left)) as Hl.
  pose proof (ring_next _ _ _ Hd) as Hnext.
  destruct (head (ns ++ [list])) as [f|] eqn:Hf; [|by destruct ns].
  assert (f ∈ list :: ns) as Hfin by (apply head_Some_elem_of in Hf; set_solver).
  assert (is_node s f) as Hfn by eauto using ring_is_node.
  assert (f ≠ node ∧ list ≠ node) as [??] by (split; intros ->; set_solver).
  unfold moe_list_add_head.
  rewrite (is_node_not_null _ _ Hl), (is_node_not_null _ _ Hn).
  erewrite bind_run by apply MOE_ASSERT_true.
  eexists. split; [by repeat run_field|]. split.
  - eapply (ring_insert s); [done|done|done|fields..].
  - repeat first [apply rewired_set_next | apply rewired_set_prev]; [set_solver..|constructor].
Qed.

(** [node] is put before [list], that is, after the last node. *)
Lemma moe_list_add_tail_run list node ns s :
  dll s list ns → is_node s node → node ∉ list :: ns →
  ∃ s', moe_list_add_tail list node s = (Ok tt, s') ∧ dll s' list (ns ++ [node]) ∧
        rewired (node :: list :: ns) s s'.
Proof.
  intros Hd Hn Hin. pose proof (ring_is_node _ _ list Hd ltac:(by left)) as Hl.
  destruct (last (list :: ns)) as [z|] eqn:Hz; [|by apply last_None in Hz].
  pose proof (ring_prev _ _ _ _ Hd Hz) as Hprev.
  apply last_Some in Hz as [m Hm].
  assert (z ∈ list :: ns) as Hzin by (rewrite Hm; set_solver).
  assert (is_node s z) as Hzn by eauto using ring_is_node.
  assert (z ≠ node ∧ list ≠ node) as [??] by (split; intros ->; set_solver).
  unfold moe_list_add_tail.
  rewrite (is_node_not_null _ _ Hl), (is_node_not_null _ _ Hn).
  erewrite bind_run by apply MOE_ASSERT_true.
  eexists. split; [by repeat run_field|]. split.
  - unfold dll in *. rewrite app_comm_cons, Hm, <-app_assoc. apply (ring_rotate _ [z; node] m).
    assert (head (m ++ [z]) = Some list) as Hhd by (by rewrite <-Hm).
    eapply (ring_insert s); [|rewrite Hm in Hin; set_solver|done|fields..].
    apply (ring_rotate _ m [z]). by rewrite <-Hm.
  - repeat first [apply rewired_set_next | apply rewired_set_prev]; [set_solver..|constructor].
Qed.

(** [node] leaves the ring of the other nodes. *)
Lemma moe_list_remove_run node b l s :
  ring s (node :: b :: l) →
  ∃ s', moe_list_remove node s = (Ok tt, s') ∧ ring s' (b :: l) ∧
        next_of s' node = Some NULL ∧ prev_of s' node = Some NULL ∧
        rewired (node :: b :: l) s s'.
Proof.
  intros Hd. pose proof (ring_is_node _ _ node Hd ltac:(by left)) as Hn.
  pose proof (ring_next _ _ _ Hd) as Hnext. cbn in Hnext.
  destruct (last (b :: l)) as [a|] eqn:Ha; [|by apply last_None in Ha].
  pose proof (ring_prev _ _ _ a Hd Ha) as Hprev.
  assert (a ∈ b :: l) as Hain by (apply last_Some in Ha as [m Hm]; rewrite Hm; set_solver).
  assert (is_node s a) as Han by (eapply ring_is_node; [done|by right]).
  assert (is_node s b) as Hbn by (eapply ring_is_node; [done|set_solver]).
  assert (a ≠ node ∧ b ≠ node) as [??].
  { destruct Hd as [[Hnin _]%NoDup_cons _]. set_solver. }
  unfold moe_list_remove. rewrite (is_node_not_null _ _ Hn).
  erewrite bind_run by apply MOE_ASSERT_true.
  eexists. split; [by repeat run_field|]. split_and!; [|fields..|].
  - eapply (ring_delete s); [done|done|done|fields..].
  - repeat first [apply rewired_set_next | apply rewired_set_prev]; [set_solver..|constructor].
Qed.

(** [node] takes the place of [list] in its ring. *)
Lemma moe_list_replace_run list node l s :
  ring s (list :: l) → is_node s node → node ∉ list :: l →
  ∃ s', moe_list_replace list node s = (Ok list, s') ∧ ring s' (node :: l) ∧
        next_of s' list = Some NULL ∧ prev_of s' list = Some NULL ∧
        rewired (node :: list :: l) s s'.
Proof.
  intros Hd Hnn Hin. pose proof (ring_is_node _ _ list Hd ltac:(by left)) as Hl.
  assert (node ≠ list) by (intros ->; set_solver).
  unfold moe_list_replace. rewrite (is_node_not_null _ _ Hl), (is_node_not_null _ _ Hnn).
  erewrite bind_run by apply MOE_ASSERT_true.
  pose proof (ring_next _ _ _ Hd) as Hnext.
  destruct (last (list :: l)) as [a|] eqn:Ha; [|by apply last_None in Ha].
  pose proof (ring_prev _ _ _ a Hd Ha) as Hprev.
  destruct l as [|b l]; cbn in Hnext.
  { cbn in Ha. simplify_eq.
    eexists. split; [by repeat run_field|]. split_and!; [|fields..|].
    - apply ring_singleton; fields.
    - repeat first [apply rewired_set_next | apply rewired_set_prev]; [set_solver..|constructor]. }
  change (last (b :: l) = Some a) in Ha.
  assert (a ∈ b :: l) as Hain by (apply last_Some in Ha as [m Hm]; rewrite Hm; set_solver).
  assert (is_node s a) as Han by (eapply ring_is_node; [done|by right]).
  assert (is_node s b) as Hbn by (eapply ring_is_node; [done|set_solver]).
  assert (a ≠ list ∧ b ≠ list ∧ a ≠ node ∧ b ≠ node) as (? & ? & ? & ?).
  { destruct Hd as [[Hnin _]%NoDup_cons _]. set_solver. }
  eexists. split; [by repeat run_field|]. split_and!; [|fields..|].
  - eapply (ring_substitute s); [done|done|done|done|fields..].
  - repeat first [apply rewired_set_next | apply rewired_set_prev]; [set_solver..|constructor].
Qed.
End operations.

(** ** Iteration *)

Section iteration.
Context {S : Type} `{!NodeStore S} `{!BuildConfig}.
Implicit Types s : S.

Lemma path_app fld s l1 a l2 :
  path fld s (l1 ++ a :: l2) ↔ path fld s (l1 ++ [a]) ∧ path fld s (a :: l2).
Proof.
  induction l1 as [|b l1 IH]; [cbn; tauto|].
  destruct l1 as [|c l1]; [cbn; tauto|].
  change (fld s b = Some c ∧ path fld s ((c :: l1) ++ a :: l2) ↔
    (fld s b = Some c ∧ path fld s ((c :: l1) ++ [a])) ∧ path fld s (a :: l2)).
  rewrite IH. tauto.
Qed.

Lemma chain_next_path s l : chain s l → path next_of s l.
Proof. induction l as [|a [|b l] IH]; [done..|]. intros [[? _] ?]. split; [done|by apply IH]. Qed.

Lemma chain_prev_path s l : chain s l → path prev_of s (rev l).
Proof.
  induction l as [|a [|b l] IH]; [done..|]. intros [[_ ?] ?].
  change (path prev_of s (rev (b :: l) ++ [a])). cbn in *. rewrite <-app_assoc. cbn.
  apply path_app. split; [by apply IH|done].
Qed.

Lemma dll_next_path s h ns : dll s h ns → path next_of s (h :: ns ++ [h]).
Proof. intros [_ Hc]. by apply chain_next_path in Hc. Qed.

Lemma dll_prev_path s h ns : dll s h ns → path prev_of s (h :: rev ns ++ [h]).
Proof.
  intros [_ Hc]. apply chain_prev_path in Hc. cbn in Hc. rewrite rev_app_distr in Hc. done.
Qed.

Lemma dll_head_not_in s h ns : dll s h ns → h ∉ ns.
Proof. by intros [[? _]%NoDup_cons _]. Qed.

(** The iterator keeps the links from the nodes still to be visited. The
    iterations that read a node after the call also need its own link. *)
Definition keeps_rest {A} fld (f : ptr → M S A) (h : ptr) (ns : list ptr) : Prop :=
  ∀ n rest s s' a, suffix (n :: rest) ns → path fld s (rest ++ [h]) →
    f n s = (Ok a, s') → path fld s' (rest ++ [h]).
Definition keeps_links {A} fld (f : ptr → M S A) (h : ptr) (ns : list ptr) : Prop :=
  ∀ n rest s s' a, suffix (n :: rest) ns → path fld s (n :: rest ++ [h]) →
    f n s = (Ok a, s') → path fld s' (n :: rest ++ [h]).

Lemma suffix_tail (n : ptr) rest ns : suffix (n :: rest) ns → suffix rest ns.
Proof. intros. etrans; [|done]. by exists [n]. Qed.

(** Both directions at once: [ld] loads the field [fld]. *)
Lemma predicated_loop_run (ld : ptr → M S ptr) fld (f : ptr → M S bool) h all ns fuel s a :
  (∀ s p v, fld s p = Some v → ld p s = (Ok v, s)) →
  keeps_links fld f h all → suffix ns all → h ∉ ns →
  path fld s (ns ++ [h]) → head (ns ++ [h]) = Some a → (length ns < fuel)%nat →
  loop fuel (λ node,
    if bool_decide (node = h) then ret (inr tt) else
    result ← f node;
    if negb result then ret (inr tt) else
    n ← ld node; ret (inl n)) a s = for_each_while f ns s.
Proof.
  intros Hld Hk. revert fuel s a. induction ns as [|n ns IH]; intros fuel s a Hsuf Hh Hp Ha Hfuel.
  { destruct fuel; [lia|]. cbn in *. simplify_eq. unfold bind. by rewrite bool_decide_true. }
  destruct fuel as [|fuel]; cbn in Hfuel; [lia|]. cbn in Ha. simplify_eq.
  apply not_elem_of_cons in Hh as [Hne Hh].
  cbn [loop for_each_while]. rewrite bool_decide_false by congruence. rewrite bind_bind.
  destruct (f a s) as [[r|e] s'] eqn:Hf; [|by rewrite !(bind_err _ _ _ _ _ Hf)].
  rewrite !(bind_run _ _ _ _ _ Hf). destruct r; [|done]. cbn [negb].
  pose proof (Hk _ _ _ _ _ Hsuf Hp Hf) as Hp'.
  destruct (head (ns ++ [h])) as [b|] eqn:Hb; [|by destruct ns].
  assert (fld s' a = Some b ∧ path fld s' (ns ++ [h])) as [Hb' Hp''].
  { destruct ns; cbn in *; simplify_eq; naive_solver. }
  rewrite bind_bind, (bind_run _ _ _ _ _ (Hld _ _ _ Hb')).
  apply IH; [by eapply suffix_tail|done..|lia].
Qed.

Lemma for_each_while_true {A} (f : A → M S unit) l s :
  for_each_while (λ x, f x;; ret true) l s = for_each f l s.
Proof.
  revert s. induction l as [|x l IH]; intros s; [done|]. cbn. unfold bind in *.
  destruct (f x s) as [[[]|e] s']; [|done]. cbn. apply IH.
Qed.

Section visits.
Context {C : Type}.
Implicit Types ctx : C.

Lemma moe_list_iterate_predicated_run fuel h (f : ptr → C → M S bool) ctx ns s :
  dll s h ns → keeps_links next_of (λ n, f n ctx) h ns → (length ns < fuel)%nat →
  moe_list_iterate_predicated fuel h f ctx s = for_each_while (λ n, f n ctx) ns s.
Proof.
  intros Hd Hk Hfuel. pose proof (dll_next_path _ _ _ Hd) as Hp.
  destruct (head (ns ++ [h])) as [a|] eqn:Ha; [|by destruct ns].
  assert (next_of s h = Some a ∧ path next_of s (ns ++ [h])) as [Hn Hp'].
  { destruct ns; cbn in *; simplify_eq; naive_solver. }
  unfold moe_list_iterate_predicated. erewrite bind_run by by apply load_next_run.
  eapply (predicated_loop_run load_next next_of); eauto using load_next_run, dll_head_not_in.
Qed.

Lemma moe_list_reverse_iterate_predicated_run fuel h (f : ptr → C → M S bool) ctx ns s :
  dll s h ns → keeps_links prev_of (λ n, f n ctx) h (rev ns) → (length ns < fuel)%nat →
  moe_list_reverse_iterate_predicated fuel h f ctx s = for_each_while (λ n, f n ctx) (rev ns) s.
Proof.
  intros Hd Hk Hfuel. pose proof (dll_prev_path _ _ _ Hd) as Hp.
  destruct (head (rev ns ++ [h])) as [a|] eqn:Ha; [|by destruct (rev ns)].
  assert (prev_of s h = Some a ∧ path prev_of s (rev ns ++ [h])) as [Hn Hp'].
  { destruct (rev ns); cbn in *; simplify_eq; naive_solver. }
  unfold moe_list_reverse_iterate_predicated. erewrite bind_run by by apply load_prev_run.
  eapply (predicated_loop_run load_prev prev_of); eauto using load_prev_run.
  - rewrite list_elem_of_In, <-in_rev, <-list_elem_of_In. by eapply dll_head_not_in.
  - by rewrite length_rev.
Qed.

(** The plain iterations are the predicated ones with an iterator that never
    stops. *)
Lemma never_stops_loop (ld : ptr → M S ptr) (f : ptr → M S unit) h fuel a s :
  loop fuel (λ node,
    if bool_decide (node = h) then ret (inr tt) else
    result ← (f node;; ret true);
    if negb result then ret (inr tt) else
    n ← ld node; ret (inl n)) a s =
  loop fuel (λ node,
    if bool_decide (node = h) then ret (inr tt) else
    f node;; n ← ld node; ret (inl n)) a s.
Proof.
  revert a s. induction fuel as [|fuel IH]; intros a s; [done|]. cbn [loop].
  case_bool_decide; [done|]. rewrite !bind_bind.
  destruct (f a s) as [[[]|e] s'] eqn:Hf; [|by rewrite !(bind_err _ _ _ _ _ Hf)].
  rewrite !(bind_run _ _ _ _ _ Hf), !bind_bind. unfold bind at 1. cbn.
  unfold bind. destruct (ld a s') as [[n|e] s'']; [|done]. cbn. apply IH.
Qed.

Lemma moe_list_iterate_run fuel h (f : ptr → C → M S unit) ctx ns s :
  dll s h ns → keeps_links next_of (λ n, f n ctx) h ns → (length ns < fuel)%nat →
  moe_list_iterate fuel h f ctx s = for_each (λ n, f n ctx) ns s.
Proof.
  intros Hd Hk Hfuel. rewrite <-for_each_while_true.
  rewrite <-(moe_list_iterate_predicated_run fuel h (λ n ctx, f n ctx;; ret true)); [|done| |done].
  - unfold moe_list_iterate, moe_list_iterate_predicated.
    destruct (load_next h s) as [[a|e] s'] eqn:E; [|by rewrite !(bind_err _ _ _ _ _ E)].
    rewrite !(bind_run _ _ _ _ _ E).
    symmetry. apply (never_stops_loop load_next (λ n, f n ctx)).
  - intros n rest s1 s2 b Hsuf Hp Hf. unfold bind in Hf.
    destruct (f n ctx s1) as [[[]|e] s3] eqn:E; [|done].
    injection Hf as _ <-. by eapply Hk.
Qed.

Lemma moe_list_reverse_iterate_run fuel h (f : ptr → C → M S unit) ctx ns s :
  dll s h ns → keeps_links prev_of (λ n, f n ctx) h (rev ns) → (length ns < fuel)%nat →
  moe_list_reverse_iterate fuel h f ctx s = for_each (λ n, f n ctx) (rev ns) s.
Proof.
  intros Hd Hk Hfuel. rewrite <-for_each_while_true.
  rewrite <-(moe_list_reverse_iterate_predicated_run fuel h (λ n ctx, f n ctx;; ret true)); [|done| |done].
  - unfold moe_list_reverse_iterate, moe_list_reverse_iterate_predicated.
    destruct (load_prev h s) as [[a|e] s'] eqn:E; [|by rewrite !(bind_err _ _ _ _ _ E)].
    rewrite !(bind_run _ _ _ _ _ E).
    symmetry. apply (never_stops_loop load_prev (λ n, f n ctx)).
  - intros n rest s1 s2 b Hsuf Hp Hf. unfold bind in Hf.
    destruct (f n ctx s1) as [[[]|e] s3] eqn:E; [|done].
    injection Hf as _ <-. by eapply Hk.
Qed.

(** The safe iteration reads the link of a node before the call, so that the
    iterator may destroy the node. *)
Lemma safe_loop_run (f : ptr → M S unit) h all ns fuel s a :
  keeps_rest next_of f h all → suffix ns all → h ∉ ns →
  path next_of s (ns ++ [h]) → head (ns ++ [h]) = Some a → (length ns < fuel)%nat →
  loop fuel (λ node,
    if bool_decide (node = h) then ret (inr tt) else
    n ← load_next node;
    f node;;
    ret (inl n)) a s = for_each f ns s.
Proof.
  intros Hk. revert fuel s a. induction ns as [|n ns IH]; intros fuel s a Hsuf Hh Hp Ha Hfuel.
  { destruct fuel; [lia|]. cbn in *. simplify_eq. unfold bind. by rewrite bool_decide_true. }
  destruct fuel as [|fuel]; cbn in Hfuel; [lia|]. cbn in Ha. simplify_eq.
  apply not_elem_of_cons in Hh as [Hne Hh].
  destruct (head (ns ++ [h])) as [b|] eqn:Hb; [|by destruct ns].
  assert (next_of s a = Some b ∧ path next_of s (ns ++ [h])) as [Hb' Hp'].
  { destruct ns; cbn in *; simplify_eq; naive_solver. }
  cbn [loop for_each]. rewrite bool_decide_false by congruence.
  rewrite bind_bind, (bind_run _ _ _ _ _ (load_next_run _ _ _ Hb')), bind_bind.
  destruct (f a s) as [[[]|e] s'] eqn:Hf; [|by rewrite !(bind_err _ _ _ _ _ Hf)].
  rewrite !(bind_run _ _ _ _ _ Hf).
  apply IH; [by eapply suffix_tail|done| |done|lia]. eapply Hk; [done..|exact Hf].
Qed.

Lemma moe_list_iterate_safe_run fuel h (f : ptr → C → M S unit) ctx ns s :
  dll s h ns → keeps_rest next_of (λ n, f n ctx) h ns → (length ns < fuel)%nat →
  moe_list_iterate_safe fuel h f ctx s = for_each (λ n, f n ctx) ns s.
Proof.
  intros Hd Hk Hfuel. pose proof (dll_next_path _ _ _ Hd) as Hp.
  destruct (head (ns ++ [h])) as [a|] eqn:Ha; [|by destruct ns].
  assert (next_of s h = Some a ∧ path next_of s (ns ++ [h])) as [Hn Hp'].
  { destruct ns; cbn in *; simplify_eq; naive_solver. }
  unfold moe_list_iterate_safe. erewrite bind_run by by apply load_next_run.
  eapply (safe_loop_run (λ n, f n ctx)); eauto using dll_head_not_in.
Qed.
End visits.

(** The iterator visits the nodes in order. *)
Lemma iterator_loop_from {A} (body : ptr → A → M S A) h all ns fuel s p a :
  (∀ n rest s s' a b, suffix (n :: rest) all → path next_of s (n :: rest ++ [h]) →
     body n a s = (Ok b, s') → path next_of s' (n :: rest ++ [h])) →
  suffix ns all → h ∉ ns →
  path next_of s (p :: ns ++ [h]) → (length ns < fuel)%nat →
  iterator_loop fuel body (ListIterator p h) a s = fold_each body ns a s.
Proof.
  intros Hk. revert fuel s p a. induction ns as [|n ns IH]; intros fuel s p a Hsuf Hh Hp Hfuel.
  { destruct fuel; [lia|]. cbn in Hp. destruct Hp as [Hp _].
    unfold iterator_loop. cbn [loop]. unfold moe_list_iterator_next. cbn [current it_head].
    rewrite !bind_bind, (bind_run _ _ _ _ _ (load_next_run _ _ _ Hp)).
    unfold bind. cbn. by rewrite bool_decide_true. }
  destruct fuel as [|fuel]; cbn in Hfuel; [lia|].
  apply not_elem_of_cons in Hh as [Hne Hh].
  change (next_of s p = Some n ∧ path next_of s (n :: ns ++ [h])) in Hp. destruct Hp as [Hp Hp'].
  unfold iterator_loop. cbn [loop fold_each]. unfold moe_list_iterator_next at 1. cbn [current it_head].
  rewrite !bind_bind, (bind_run _ _ _ _ _ (load_next_run _ _ _ Hp)).
  rewrite bind_ret, bool_decide_false by congruence. cbn [negb moe_list_iterator_get current].
  rewrite bind_bind. destruct (body n a s) as [[b|e] s'] eqn:Hf; [|by rewrite !(bind_err _ _ _ _ _ Hf)].
  rewrite !(bind_run _ _ _ _ _ Hf).
  apply (IH fuel s' n b); [by eapply suffix_tail|done| |lia]. eapply Hk; [done..|exact Hf].
Qed.

Lemma iterator_loop_run {A} (body : ptr → A → M S A) h ns fuel s a :
  dll s h ns →
  (∀ n rest s s' a b, suffix (n :: rest) ns → path next_of s (n :: rest ++ [h]) →
     body n a s = (Ok b, s') → path next_of s' (n :: rest ++ [h])) →
  (length ns < fuel)%nat →
  iterator_loop fuel body (moe_list_iterator_init h) a s = fold_each body ns a s.
Proof.
  intros Hd Hk Hfuel.
  eapply iterator_loop_from; eauto using dll_next_path, dll_head_not_in.
Qed.
End iteration.
