(* ===== verification/Heap.v ===== *)
(** * The memory of the program: its structures, and moe/common/moe_alloc.c

    The heap maps the block numbers of the allocated objects to the objects, the
    structures and arrays of the program. A block leaves the map when it is freed
    and its number is never used again, so every use of a dangling pointer is
    [Undefined InvalidPtr]. Pointer members that were not assigned since [malloc]
    are [Pundef], integer members [None].

    [malloc] and [calloc] are the ones of an environment that does not run out of
    memory. Sizes are those of the LP64 ABI; they only appear in the messages
    [MOE_ALLOC] prints and in the offsets of members. *)
From S2P Require Import Prelude CStd MoeList.
From Stdlib Require Import SpecFloat.

(** ** Structures *)

(** struct _moe_string_internal_s *)
Record moe_string_internal_s : Type := StringInternal {
  data : ptr;
  ref_count : option Z;
}.

Record moe_string_t : Type := MoeString {
  _internal : ptr;
  length_ : option Z;
  capacity : option Z;
}.

Record moe_derive_arg_t : Type := DeriveArg {
  arg_type : ptr;
  arg_name : ptr;
}.

Record moe_derive_item_t : Type := DeriveItem {
  derive_handler_name : ptr;
  arg_num : Z;
  args : ptr;
}.

Inductive moe_token_type_t : Type :=
  | MOE_TOKEN_UNKNOWN
  | MOE_TOKEN_IDENTIFIER
  | MOE_TOKEN_PUNCTUATION
  | MOE_TOKEN_STRING_LITERAL
  | MOE_TOKEN_INT_LITERAL
  | MOE_TOKEN_FLOAT_LITERAL.

(** The anonymous union of [moe_token_s]: the member last stored. *)
Inductive moe_token_value : Type :=
  | value_undef
  | int_value (n : Z)
  | float_value (f : spec_float)
  | str_value (p : ptr).

Record moe_token_t : Type := MoeToken {
  token_value : moe_token_value;
  type : option moe_token_type_t;
}.

Record moe__struct_metadata_token_stream_node_t : Type := TokenStreamNode {
  list_node : moe_list_node_t;
  token : ptr;
}.

(** The member [metadata] is its only field, the head of the token stream. *)
Record moe_derived_struct_t : Type := DerivedStruct {
  struct_name : ptr;
  derive_item_num : option Z;
  derive_items : ptr;
  token_stream_node : moe_list_node_t;
}.

(** The values the C library leaves in fresh memory. *)
Definition node_undef : moe_list_node_t := ListNode Pundef Pundef.
Definition derive_item_zero : moe_derive_item_t := DeriveItem NULL 0 NULL.
Definition derive_arg_zero : moe_derive_arg_t := DeriveArg NULL NULL.

(** ** Objects *)

Inductive obj : Type :=
  | OChars (l : list Z)
  | OString (s : moe_string_t)
  | OStringInternal (i : moe_string_internal_s)
  | OListNode (n : moe_list_node_t)
  | OToken (t : moe_token_t)
  | OTokenStreamNode (n : moe__struct_metadata_token_stream_node_t)
  | ODeriveItems (l : list moe_derive_item_t)
  | ODeriveArgs (l : list moe_derive_arg_t)
  | ODerivedStruct (d : moe_derived_struct_t)
  | OJsRuntime.

(** [T] is the type of a whole object. *)
Class ObjType (T : Type) := {
  to_obj : T → obj;
  of_obj : obj → option T;
  of_to_obj : ∀ t, of_obj (to_obj t) = Some t;
  of_obj_Some : ∀ o t, of_obj o = Some t → o = to_obj t;
}.

Ltac obj_type := by intros [] ?; first [discriminate | intros [= ->]].
#[export] Instance chars_obj : ObjType (list Z) :=
  {| to_obj := OChars; of_obj o := match o with OChars x => Some x | _ => None end;
     of_to_obj _ := eq_refl; of_obj_Some := ltac:(obj_type) |}.
#[export] Instance string_obj : ObjType (moe_string_t) :=
  {| to_obj := OString; of_obj o := match o with OString x => Some x | _ => None end;
     of_to_obj _ := eq_refl; of_obj_Some := ltac:(obj_type) |}.
#[export] Instance string_internal_obj : ObjType (moe_string_internal_s) :=
  {| to_obj := OStringInternal; of_obj o := match o with OStringInternal x => Some x | _ => None end;
     of_to_obj _ := eq_refl; of_obj_Some := ltac:(obj_type) |}.
#[export] Instance list_node_obj : ObjType (moe_list_node_t) :=
  {| to_obj := OListNode; of_obj o := match o with OListNode x => Some x | _ => None end;
     of_to_obj _ := eq_refl; of_obj_Some := ltac:(obj_type) |}.
#[export] Instance token_obj : ObjType (moe_token_t) :=
  {| to_obj := OToken; of_obj o := match o with OToken x => Some x | _ => None end;
     of_to_obj _ := eq_refl; of_obj_Some := ltac:(obj_type) |}.
#[export] Instance token_stream_node_obj : ObjType (moe__struct_metadata_token_stream_node_t) :=
  {| to_obj := OTokenStreamNode; of_obj o := match o with OTokenStreamNode x => Some x | _ => None end;
     of_to_obj _ := eq_refl; of_obj_Some := ltac:(obj_type) |}.
#[export] Instance derived_struct_obj : ObjType (moe_derived_struct_t) :=
  {| to_obj := ODerivedStruct; of_obj o := match o with ODerivedStruct x => Some x | _ => None end;
     of_to_obj _ := eq_refl; of_obj_Some := ltac:(obj_type) |}.

(** ** Output *)

(** A call of [printf]: its format, with its escapes as in the source, and the
    values of its arguments. *)
Inductive printf_arg : Type :=
  | PInt (n : Z)
  | PChar (c : Z)
  | PDouble (f : spec_float)
  | PStr (s : list Z).

(** What is written to [stdout]; the messages of the allocation macros are kept
    apart. *)
Inductive out_event : Type :=
  | OutAlloc (type : string) (size : Z) (addr : ptr)
  | OutCalloc (type : string) (size count : Z) (addr : ptr)
  | OutFree (addr : ptr)
  | OutPrintf (fmt : string) (args : list printf_arg).

(** ** The memory *)

Record moe__alloc_stats_t : Type := AllocStats {
  total_allocated : Z;
  total_freed : Z;
}.

Record mem : Type := Mem {
  m_objs : gmap positive obj;
  m_next : positive;             (** the next block number *)
  m_stats : moe__alloc_stats_t;  (** the static variable of [moe_get_alloc_stats] *)
  m_out : list out_event;        (** [stdout], the last event first *)
}.

Definition mem_init : mem := Mem ∅ 1 (AllocStats 0 0) [].

Definition set_objs (f : gmap positive obj → gmap positive obj) (m : mem) : mem :=
  Mem (f (m_objs m)) (m_next m) (m_stats m) (m_out m).
Definition set_stats (f : moe__alloc_stats_t → moe__alloc_stats_t) (m : mem) : mem :=
  Mem (m_objs m) (m_next m) (f (m_stats m)) (m_out m).
Definition emit (e : out_event) (m : mem) : mem :=
  Mem (m_objs m) (m_next m) (m_stats m) (e :: m_out m).

Definition printf (fmt : string) (args : list printf_arg) : M mem unit :=
  modify (emit (OutPrintf fmt args)).

(** ** moe_alloc.c *)

Definition count_allocated (st : moe__alloc_stats_t) : moe__alloc_stats_t :=
  AllocStats (to_size_t (total_allocated st + 1)) (total_freed st).
Definition count_freed (st : moe__alloc_stats_t) : moe__alloc_stats_t :=
  AllocStats (total_allocated st) (to_size_t (total_freed st + 1)).

(** A new block, whose initial contents are given. *)
Definition new_block (o : obj) : M mem ptr := λ m,
  (Ok (Addr (m_next m) 0),
   Mem (<[m_next m := o]> (m_objs m)) (Pos.succ (m_next m)) (m_stats m) (m_out m)).

Definition moe_malloc (o : obj) : M mem ptr :=
  modify (set_stats count_allocated);; new_block o.

(** [calloc] fails on a negative count, which it is given as a huge [size_t]. *)
Definition moe_calloc (count : Z) (zeros : nat → obj) : M mem ptr :=
  modify (set_stats count_allocated);;
  if count <? 0 then ret NULL else new_block (zeros (Z.to_nat count)).

Definition free (p : ptr) : M mem unit := λ m,
  match p with
  | NULL => (Ok tt, m)
  | Pundef => (Err (Undefined Indeterminate), m)
  | Addr b o =>
      match m_objs m !! b with
      | Some _ => if o =? 0 then (Ok tt, set_objs (delete b) m) else (Err (Undefined InvalidPtr), m)
      | None => (Err (Undefined InvalidPtr), m)
      end
  end.

Definition moe_free (p : ptr) : M mem unit :=
  modify (set_stats count_freed);; free p.

(** The macros [MOE_ALLOC], [MOE_ALLOC_RANGE] and [MOE_FREE] of moe_alloc.h. *)
Definition MOE_ALLOC (ty : string) (size : Z) (o : obj) : M mem ptr :=
  p ← moe_malloc o;
  modify (emit (OutAlloc ty size p));;
  ret p.

Definition MOE_ALLOC_RANGE (ty : string) (size count : Z) (zeros : nat → obj) : M mem ptr :=
  p ← moe_calloc count zeros;
  modify (emit (OutCalloc ty size (to_size_t count) p));;
  ret p.

Definition MOE_FREE (p : ptr) : M mem unit :=
  modify (emit (OutFree p));; moe_free p.

Definition moe_check_memory_leak `{BuildConfig} : M mem unit :=
  MOE_ASSERT (st ← gets m_stats; ret (total_allocated st =? total_freed st)).

(** ** Accesses *)

(** [*p] for a pointer to the start of an object of type [T]. *)
Definition load {T} `{ObjType T} (p : ptr) : M mem T := λ m,
  match p with
  | Addr b 0 =>
      match m_objs m !! b ≫= of_obj with
      | Some t => (Ok t, m)
      | None => (Err (Undefined InvalidPtr), m)
      end
  | _ => (Err (bad_pointer p), m)
  end.

Definition store {T} `{ObjType T} (p : ptr) (t : T) : M mem unit := λ m,
  match p with
  | Addr b 0 =>
      match m_objs m !! b ≫= of_obj (T := T) with
      | Some _ => (Ok tt, set_objs <[b := to_obj t]> m)
      | None => (Err (Undefined InvalidPtr), m)
      end
  | _ => (Err (bad_pointer p), m)
  end.

(** [p->field = v] for a member of such an object. *)
Definition update {T} `{ObjType T} (p : ptr) (f : T → T) : M mem unit :=
  t ← load p; store p (f t).

(** Pointer arithmetic, in bytes. *)
Definition ptr_add (p : ptr) (d : Z) : ptr :=
  match p with Addr b o => Addr b (o + d) | _ => Pundef end.

(** [T] is the type of the elements of an array object. *)
Class ElemType (T : Type) := {
  elem_size : Z;
  of_elems : list T → obj;
  elems : obj → option (list T);
  elems_of : ∀ l, elems (of_elems l) = Some l;
  elems_Some : ∀ o l, elems o = Some l → o = of_elems l;
}.

#[export] Instance derive_item_elem : ElemType moe_derive_item_t :=
  {| elem_size := 24; of_elems := ODeriveItems;
     elems o := match o with ODeriveItems x => Some x | _ => None end;
     elems_of _ := eq_refl; elems_Some := ltac:(obj_type) |}.
#[export] Instance derive_arg_elem : ElemType moe_derive_arg_t :=
  {| elem_size := 16; of_elems := ODeriveArgs;
     elems o := match o with ODeriveArgs x => Some x | _ => None end;
     elems_of _ := eq_refl; elems_Some := ltac:(obj_type) |}.

(** The array [p] points into, and the index of the element it points to. *)
Definition load_array {T} `{ElemType T} (p : ptr) : M mem (positive * list T * nat) := λ m,
  match p with
  | Addr b o =>
      match m_objs m !! b ≫= elems with
      | Some l =>
          if (0 <=? o) && (o mod elem_size =? 0) then (Ok (b, l, Z.to_nat (o / elem_size)), m)
          else (Err (Undefined InvalidPtr), m)
      | None => (Err (Undefined InvalidPtr), m)
      end
  | _ => (Err (bad_pointer p), m)
  end.

Definition load_elem {T} `{ElemType T} (p : ptr) : M mem T :=
  '(_, l, i) ← load_array p; of_option ReadOutOfBounds (l !! i).

Definition store_elem {T} `{ElemType T} (p : ptr) (t : T) : M mem unit :=
  '(b, l, i) ← load_array p;
  if (i <? length l)%nat then modify (set_objs <[b := of_elems (<[i := t]> l)]>)
  else throw (Undefined WriteOutOfBounds).

(** [p[i] = c] on an array of characters. *)
Definition store_char_at (p : ptr) (i c : Z) : M mem unit :=
  l ← load p;
  if (0 <=? i) && (i <? Z.of_nat (length l)) then store p (<[Z.to_nat i := c]> l)
  else throw (Undefined WriteOutOfBounds).

(** The characters [printf] writes for a [%s] argument. *)
Definition cstring {S} (l : list Z) : M S (list Z) :=
  n ← of_option ReadOutOfBounds (strlen l); ret (take (Z.to_nat n) l).

(** [for (int i = 0; i < n; i++) body(i);] *)
Definition for_range (n : Z) (body : Z → M mem unit) : M mem unit :=
  for_each body (seqZ 0 n).

(** The value of an integer member. *)
Definition defined {S A} (o : option A) : M S A := of_option Indeterminate o.

(** ** List nodes in the heap

    A node is an object of its own, the first member of a node of a token stream,
    or the member at offset 24 of a [moe_derived_struct_t]. *)
Definition metadata_offset : Z := 24.

Definition obj_node (o : obj) (ofs : Z) : option moe_list_node_t :=
  match o with
  | OListNode n => if ofs =? 0 then Some n else None
  | OTokenStreamNode n => if ofs =? 0 then Some (list_node n) else None
  | ODerivedStruct d => if ofs =? metadata_offset then Some (token_stream_node d) else None
  | _ => None
  end.

Definition obj_set_node (ofs : Z) (n : moe_list_node_t) (o : obj) : obj :=
  match o with
  | OListNode _ => if ofs =? 0 then OListNode n else o
  | OTokenStreamNode t => if ofs =? 0 then OTokenStreamNode (TokenStreamNode n (token t)) else o
  | ODerivedStruct d =>
      if ofs =? metadata_offset
      then ODerivedStruct (DerivedStruct (struct_name d) (derive_item_num d) (derive_items d) n)
      else o
  | _ => o
  end.

Definition heap_get_node (p : ptr) (m : mem) : option moe_list_node_t :=
  match p with
  | Addr b ofs => m_objs m !! b ≫= λ o, obj_node o ofs
  | _ => None
  end.

Definition heap_put_node (p : ptr) (n : moe_list_node_t) (m : mem) : mem :=
  match p with
  | Addr b ofs => set_objs (alter (obj_set_node ofs n) b) m
  | _ => m
  end.

(** A bound on the number of nodes of any list: the blocks ever allocated. *)
Definition list_fuel (m : mem) : nat := Datatypes.S (Pos.to_nat (m_next m)).

Lemma obj_node_set n o ofs :
  is_Some (obj_node o ofs) → obj_node (obj_set_node ofs n o) ofs = Some n.
Proof.
  destruct o; cbn; try by intros []. all: case_match eqn:E; [|by intros []]; cbn; by rewrite E.
Qed.

Lemma obj_node_set_ne n o ofs ofs' :
  ofs ≠ ofs' → obj_node (obj_set_node ofs n o) ofs' = obj_node o ofs'.
Proof.
  intros. destruct o; cbn; try done.
  all: case_match eqn:E; [|done]; cbn; apply Z.eqb_eq in E as ->.
  all: case_match eqn:E; [apply Z.eqb_eq in E|]; congruence.
Qed.

#[export] Program Instance heap_nodes : NodeStore mem :=
  {| get_node := heap_get_node; put_node := heap_put_node |}.
Next Obligation.
  intros [| |b ofs] n m; [by intros []..|]. cbn. rewrite lookup_alter_eq.
  destruct (m_objs m !! b) as [o|]; [|by intros []]. cbn. apply obj_node_set.
Qed.
Next Obligation.
  intros [| |b ofs] [| |b' ofs'] n m Hne; [done..|]. cbn.
  destruct (decide (b = b')) as [<-|Hb]; [|by rewrite lookup_alter_ne].
  rewrite lookup_alter_eq. destruct (m_objs m !! b) as [o|] eqn:E; [|done]. cbn.
  apply obj_node_set_ne. congruence.
Qed.
Next Obligation. intros [| |b ofs] n m; cbn; [done..|eauto]. Qed.

(** ** Nodes of their own (moe_list.c) *)

Definition moe_list_node_alloc : M mem ptr :=
  node ← MOE_ALLOC "moe_list_node_t" 16 (OListNode node_undef);
  moe_list_node_init node;;
  ret node.

Definition moe_list_node_free (node : ptr) : M mem unit := MOE_FREE node.
