(* ===== verification/ListProps.v ===== *)
(** * Properties of moe/common/moe_list.c

    The mutating operations refine operations on the list of the nodes, and the
    iterations visit the nodes of that list. *)
From S2P Require Import Prelude MoeList MoeListFacts Heap.

(** ** The abstract list: what a caller sees of a ring *)

Inductive list_op : Type :=
  | OpAddHead (node : ptr)
  | OpAddTail (node : ptr)
  | OpRemove (node : ptr)
  | OpReplace (old node : ptr).

(** The nodes an operation puts into the list. *)
Definition op_new (op : list_op) : list ptr :=
  match op with
  | OpAddHead n | OpAddTail n | OpReplace _ n => [n]
  | OpRemove _ => []
  end.

(** An operation on the list of nodes, [None] outside its precondition. *)
Definition spec_op (h : ptr) (op : list_op) (ns : list ptr) : option (list ptr) :=
  match op with
  | OpAddHead n => if decide (n ∈ h :: ns) then None else Some (n :: ns)
  | OpAddTail n => if decide (n ∈ h :: ns) then None else Some (ns ++ [n])
  | OpRemove n => if decide (n ∈ ns) then Some (filter (.≠ n) ns) else None
  | OpReplace o n =>
      if decide (o ∈ ns ∧ n ∉ h :: ns) then Some ((λ x, if decide (x = o) then n else x) <$> ns)
      else None
  end.

Fixpoint spec_ops (h : ptr) (ops : list list_op) (ns : list ptr) : option (list ptr) :=
  match ops with
  | [] => Some ns
  | op :: ops => spec_op h op ns ≫= spec_ops h ops
  end.

Definition run_op {S} `{!NodeStore S, !BuildConfig} (h : ptr) (op : list_op) : M S unit :=
  match op with
  | OpAddHead n => moe_list_add_head h n
  | OpAddTail n => moe_list_add_tail h n
  | OpRemove n => moe_list_remove n
  | OpReplace o n => moe_list_replace o n;; skip
  end.

(** ** One operation *)

Lemma filter_ne_middle (n : ptr) l1 l2 :
  NoDup (l1 ++ n :: l2) → filter (.≠ n) (l1 ++ n :: l2) = l1 ++ l2.
Proof.
  intros (_ & H1 & [H2 _]%NoDup_cons)%NoDup_app.
  rewrite filter_app, filter_cons_False by naive_solver.
  f_equal; apply filter_all; intros x Hx ->; [|done]. apply (H1 n); [done|left].
Qed.

Lemma fmap_subst_middle (o n : ptr) l1 l2 :
  NoDup (l1 ++ o :: l2) →
  (λ x, if decide (x = o) then n else x) <$> (l1 ++ o :: l2) = l1 ++ n :: l2.
Proof.
  intros (_ & H1 & [H2 _]%NoDup_cons)%NoDup_app.
  rewrite fmap_app, fmap_cons, decide_True by done.
  f_equal; [|f_equal]; apply fmap_all_id; intros x Hx; rewrite decide_False; try done;
    intros ->; [|done]. apply (H1 o); [done|left].
Qed.

Section ops.
Context {S : Type} `{!NodeStore S} `{!BuildConfig}.
Implicit Types s : S.

Lemma run_op_refines h op ns ns' s :
  dll s h ns → spec_op h op ns = Some ns' → (∀ n, n ∈ op_new op → is_node s n) →
  ∃ s', run_op h op s = (Ok tt, s') ∧ dll s' h ns' ∧ ns' ⊆ ns ++ op_new op ∧
        rewired (h :: ns ++ op_new op) s s'.
Proof.
  intros Hd Hs Hn. assert (NoDup (h :: ns)) as [_ Hnd]%NoDup_cons by apply Hd.
  destruct op as [n|n|n|o n]; cbn in *; case_decide as Hc; simplify_eq.
  - destruct (moe_list_add_head_run h n ns s) as (s' & ? & ? & ?); [set_solver..|].
    exists s'. split_and!; [done..|set_solver|]. eapply rewired_mono; [|done]. set_solver.
  - destruct (moe_list_add_tail_run h n ns s) as (s' & ? & ? & ?); [set_solver..|].
    exists s'. split_and!; [done..|set_solver|]. eapply rewired_mono; [|done]. set_solver.
  - apply list_elem_of_split in Hc as (l1 & l2 & ->). rewrite filter_ne_middle by done.
    apply (ring_rotate s (h :: l1)) in Hd. cbn in Hd.
    destruct (l2 ++ h :: l1) as [|b l] eqn:Hl; [by destruct l2|].
    destruct (moe_list_remove_run n b l s Hd) as (s' & ? & Hr & _ & _ & ?).
    exists s'. rewrite <-Hl in *. split_and!; [done|by apply (ring_rotate s' l2 (h :: l1))|set_solver|].
    eapply rewired_mono; [|done]. set_solver.
  - destruct Hc as [Ho Hnin]. apply list_elem_of_split in Ho as (l1 & l2 & ->).
    rewrite fmap_subst_middle by done.
    apply (ring_rotate s (h :: l1)) in Hd.
    destruct (moe_list_replace_run o n (l2 ++ h :: l1) s Hd) as (s' & Hrun & Hr & _ & _ & ?);
      [set_solver..|].
    exists s'. split_and!; [|by apply (ring_rotate s' (n :: l2) (h :: l1))|set_solver|].
    + by rewrite (bind_run _ _ _ _ _ Hrun).
    + eapply rewired_mono; [|done]. set_solver.
Qed.

Lemma run_ops_refine h ops ns ns' s :
  dll s h ns → spec_ops h ops ns = Some ns' → (∀ n, n ∈ ops ≫= op_new → is_node s n) →
  ∃ s', for_each (run_op h) ops s = (Ok tt, s') ∧ dll s' h ns' ∧
        ∀ p, p ∉ h :: ns ++ (ops ≫= op_new) → get_node p s' = get_node p s.
Proof.
  revert ns s. induction ops as [|op ops IH]; intros ns s Hd Hs Hn; cbn in *; simplify_eq.
  { by exists s. }
  apply bind_Some in Hs as (ns1 & Hop & Hs).
  destruct (run_op_refines h op ns ns1 s) as (s1 & Hr & Hd1 & Hsub & Hw); [done..|set_solver|].
  destruct (IH ns1 s1) as (s2 & Hr2 & Hd2 & Hf2); [done..| |].
  { intros n ?. rewrite (rewired_is_node _ _ _ _ Hw). set_solver. }
  exists s2. rewrite (bind_run _ _ _ _ _ Hr). split_and!; [done..|].
  intros p Hp. rewrite Hf2 by set_solver. eapply rewired_get; [done|]. set_solver.
Qed.
End ops.

(** Nodes of their own, as [moe_list_node_alloc] makes them. *)
Definition own_node (p : ptr) : Prop := ∃ b, p = Addr b 0.

(** A node of its own can be freed without touching the path of the others. *)
Lemma node_free_keeps_rest h ns :
  NoDup (h :: ns) → Forall own_node (h :: ns) →
  keeps_rest (S := mem) next_of moe_list_node_free h ns.
Proof.
  intros Hnd Hown n rest s s' [] [l Hl] Hp Hf.
  assert ((n ∉ rest ++ [h]) ∧ own_node n ∧ Forall own_node (rest ++ [h])) as (Hn & [b ->] & Hr).
  { rewrite Hl in Hnd, Hown. apply NoDup_cons in Hnd as [Hh (_ & _ & [? _]%NoDup_cons)%NoDup_app].
    rewrite Forall_cons, Forall_app, Forall_cons in Hown.
    rewrite Forall_app, Forall_singleton. split_and!; [set_solver|tauto..]. }
  assert (∀ b', b' ≠ b → m_objs s' !! b' = m_objs s !! b') as Hsame.
  { intros b' ?. unfold moe_list_node_free, MOE_FREE, moe_free, bind, free in Hf. cbn in Hf.
    destruct (m_objs s !! b); simplify_eq. cbn. by rewrite lookup_delete_ne. }
  revert Hp Hn Hr. generalize (rest ++ [h]). clear -Hsame. intros l.
  induction l as [|a [|c l] IH]; [done..|]. intros [Ha Hp] Hn Hr.
  apply Forall_cons in Hr as [[ba ->] Hr].
  change (next_of s' (Addr ba 0) = Some c ∧ path next_of s' (c :: l)). split; [|apply IH; set_solver].
  rewrite <-Ha. unfold next_of. cbn. rewrite Hsame; [done|]. set_solver.
Qed.

(** ** A list of three nodes in the heap *)

Definition demo_build : M mem (list ptr) :=
  h ← moe_list_node_alloc;
  a ← moe_list_node_alloc;
  b ← moe_list_node_alloc;
  c ← moe_list_node_alloc;
  moe_list_add_tail (H := {| NDEBUG := false |}) h a;;
  moe_list_add_tail (H := {| NDEBUG := false |}) h b;;
  ret [h; a; b; c].
Definition demo : mem := Eval vm_compute in snd (demo_build mem_init).

Ltac demo_dll :=
  split; [apply (bool_decide_unpack (NoDup _)); vm_compute; exact I | vm_compute; repeat split].

(** ** The properties *)

(** C9: any sequence of [moe_list_add_head], [moe_list_add_tail],
    [moe_list_remove] and [moe_list_replace] used within its preconditions runs
    without an error and refines the same sequence on the list of the nodes, and
    no node but those of the list and of the operations is written. *)
Theorem list_operations_refine {S} `{!NodeStore S, !BuildConfig} h ops ns ns' (s : S) :
  dll s h ns → spec_ops h ops ns = Some ns' → (∀ n, n ∈ ops ≫= op_new → is_node s n) →
  ∃ s', for_each (run_op h) ops s = (Ok tt, s') ∧ dll s' h ns' ∧
        ∀ p, p ∉ h :: ns ++ (ops ≫= op_new) → get_node p s' = get_node p s.
Proof. apply run_ops_refine. Qed.

Lemma list_operations_refine_witness :
  ∃ s', for_each (run_op (H := {| NDEBUG := false |}) (Addr 1 0))
          [OpAddHead (Addr 4 0); OpRemove (Addr 2 0); OpReplace (Addr 3 0) (Addr 2 0)] demo
        = (Ok tt, s') ∧ dll s' (Addr 1 0) [Addr 4 0; Addr 2 0] ∧
        ∀ p, p ∉ [Addr 1 0; Addr 2 0; Addr 3 0; Addr 4 0; Addr 2 0] →
          get_node p s' = get_node p demo.
Proof.
  apply (list_operations_refine (Addr 1 0) [OpAddHead (Addr 4 0); OpRemove (Addr 2 0);
    OpReplace (Addr 3 0) (Addr 2 0)] [Addr 2 0; Addr 3 0]).
  - demo_dll.
  - vm_compute. reflexivity.
  - intros n Hn. cbn in Hn. rewrite !elem_of_cons, elem_of_nil in Hn.
    destruct Hn as [-> | [-> | []]]; vm_compute; eauto.
Defined.

(** C13: [moe_list_iterate_safe] calls the iterator on the nodes in order, each once,
    and comes to an end, also when the iterator destroys the node it is given, as
    long as it keeps the links of the nodes still to come. *)
Theorem iterate_safe_visits {S} `{!NodeStore S} {C} fuel h (f : ptr → C → M S unit) ctx ns (s : S) :
  dll s h ns → keeps_rest next_of (λ n, f n ctx) h ns → (length ns < fuel)%nat →
  moe_list_iterate_safe fuel h f ctx s = for_each (λ n, f n ctx) ns s.
Proof. apply moe_list_iterate_safe_run. Qed.

Lemma iterate_safe_visits_witness :
  moe_list_iterate_safe 3 (Addr 1 0) (λ n _, moe_list_node_free n) tt demo =
  for_each moe_list_node_free [Addr 2 0; Addr 3 0] demo ∧
  m_objs (snd (for_each moe_list_node_free [Addr 2 0; Addr 3 0] demo)) !! 2%positive = None.
Proof.
  split; [|reflexivity].
  apply (iterate_safe_visits 3 (Addr 1 0) (λ n (_ : unit), moe_list_node_free n) tt).
  - demo_dll.
  - apply node_free_keeps_rest; [apply (bool_decide_unpack (NoDup _)); vm_compute; exact I|].
    repeat constructor; by eexists.
  - cbn. lia.
Defined.

(** [moe_list_reverse_iterate_predicated] calls the iterator on the nodes from
    the last to the first until it answers false, and comes to an end. *)
Theorem reverse_iterate_predicated_visits {S} `{!NodeStore S} {C} fuel h
    (f : ptr → C → M S bool) ctx ns (s : S) :
  dll s h ns → keeps_links prev_of (λ n, f n ctx) h (rev ns) → (length ns < fuel)%nat →
  moe_list_reverse_iterate_predicated fuel h f ctx s = for_each_while (λ n, f n ctx) (rev ns) s.
Proof. apply moe_list_reverse_iterate_predicated_run. Qed.

Lemma reverse_iterate_predicated_visits_witness :
  let f n (stop : ptr) : M mem bool := ret (negb (bool_decide (n = stop))) in
  moe_list_reverse_iterate_predicated 3 (Addr 1 0) f (Addr 2 0) demo =
  for_each_while (λ n, f n (Addr 2 0)) [Addr 3 0; Addr 2 0] demo.
Proof.
  intros f.
  apply (reverse_iterate_predicated_visits 3 (Addr 1 0) f (Addr 2 0) [Addr 2 0; Addr 3 0]).
  - demo_dll.
  - intros n rest s s' a _ Hp [= _ <-]. done.
  - cbn. lia.
Defined.

(** The loop over an iterator runs its body on the nodes in order and stops
    after the last one. *)
Theorem iterator_visits {S} `{!NodeStore S} {A} (body : ptr → A → M S A) h ns fuel (s : S) a :
  dll s h ns →
  (∀ n rest s s' a b, suffix (n :: rest) ns → path next_of s (n :: rest ++ [h]) →
     body n a s = (Ok b, s') → path next_of s' (n :: rest ++ [h])) →
  (length ns < fuel)%nat →
  iterator_loop fuel body (moe_list_iterator_init h) a s = fold_each body ns a s.
Proof. apply iterator_loop_run. Qed.

Lemma iterator_visits_witness :
  let body n (l : list ptr) : M mem (list ptr) := ret (l ++ [n]) in
  iterator_loop 3 body (moe_list_iterator_init (Addr 1 0)) [] demo =
  (Ok [Addr 2 0; Addr 3 0], demo).
Proof.
  intros body. change (Ok [Addr 2 0; Addr 3 0], demo) with (fold_each body [Addr 2 0; Addr 3 0] [] demo).
  apply (iterator_visits body).
  - demo_dll.
  - intros n rest s s' a b _ Hp [= _ <-]. done.
  - cbn. lia.
Defined.
