(* ===== verification/MoeString.v ===== *)
(** * moe/common/moe_string.c: strings with a shared buffer

    A [moe_string_t] points to an internal record with a reference count, which
    points to the characters. A [const char*] argument is [None] when null, and
    otherwise the array of characters from the pointer on. *)
From S2P Require Import Prelude CStd MoeList Heap.

Section string.
Context `{!BuildConfig}.

Definition moe_string_alloc (data : option (list Z)) (length : Z) : M mem ptr :=
  str ← MOE_ALLOC "moe_string_t" 16 (OString (MoeString Pundef None None));
  length ← (if length =? 0 then
              src ← of_option NullDeref data;
              n ← of_option ReadOutOfBounds (strlen src);
              ret (to_int n)
            else ret length);
  capacity ← int_add length 1;
  internal ← MOE_ALLOC "struct _moe_string_internal_s" 16
               (OStringInternal (StringInternal Pundef None));
  update str (λ s, MoeString internal (length_ s) (Heap.capacity s));;
  chars ← MOE_ALLOC_RANGE "char" 1 capacity (λ n, OChars (replicate n 0));
  update internal (λ i, StringInternal chars (ref_count i));;
  match data with
  | None => skip
  | Some src =>
      dst ← load chars;
      l ← of_option ReadOutOfBounds (memcpy dst src (to_size_t capacity));
      store chars l;;
      store_char_at chars (capacity - 1) 0
  end;;
  update str (λ s, MoeString (_internal s) (Some length) (Heap.capacity s));;
  update str (λ s, MoeString (_internal s) (length_ s) (Some capacity));;
  update internal (λ i, StringInternal (Heap.data i) (Some 1));;
  ret str.

(** The new string shares the buffer; the reference count is not touched. *)
Definition moe_string_clone (str : ptr) : M mem ptr :=
  MOE_ASSERT (ret (not_null str));;
  dup ← MOE_ALLOC "moe_string_t" 16 (OString (MoeString Pundef None None));
  s ← load str;
  update dup (λ d, MoeString (_internal s) (length_ d) (capacity d));;
  n ← defined (length_ s);
  update dup (λ d, MoeString (_internal d) (Some n) (capacity d));;
  c ← defined (capacity s);
  update dup (λ d, MoeString (_internal d) (length_ d) (Some c));;
  ret dup.

Definition moe_string_get (str : ptr) : M mem ptr :=
  MOE_ASSERT (ret (not_null str));;
  s ← load str;
  i ← load (_internal s);
  ret (data i).

Definition moe_string_get_const (str : ptr) : M mem ptr := moe_string_get str.

Definition moe_string_free (str : ptr) : M mem unit :=
  if bool_decide (str = NULL) then skip else
  s ← load str;
  i ← load (_internal s);
  n ← defined (ref_count i);
  n ← int_add n (-1);
  store (_internal s) (StringInternal (data i) (Some n));;
  (if n <=? 0 then
     s ← load str;
     i ← load (_internal s);
     MOE_FREE (data i);;
     MOE_FREE (_internal s)
   else skip);;
  MOE_FREE str.

Definition moe_string_equal (a b : ptr) : M mem bool :=
  if bool_decide (a = NULL) || bool_decide (b = NULL) then ret false else
  sa ← load a;
  sb ← load b;
  la ← defined (length_ sa);
  lb ← defined (length_ sb);
  if negb (la =? lb) then ret false else
  ia ← load (_internal sa);
  ib ← load (_internal sb);
  ca ← load (data ia);
  cb ← load (data ib);
  r ← of_option ReadOutOfBounds (strcmp ca cb);
  ret (r =? 0).

(** The array [moe_string_get] points to. *)
Definition string_chars (str : ptr) : M mem (list Z) :=
  p ← moe_string_get str; load p.

(** [printf("%s", moe_string_get(str))] prints this. *)
Definition string_text (str : ptr) : M mem (list Z) :=
  l ← string_chars str; cstring l.
End string.
