(* ===== verification/ProcMacro.v ===== *)
(** * moe/proc_macro/proc_macro.c, lines 12 to 274: the data of the tool

    Derive arguments and items, tokens, the token stream of a structure and the
    derived structure: how they are built, printed and destroyed. *)
From S2P Require Import Prelude CStd MoeList Heap MoeString.
From Stdlib Require Import SpecFloat.

Definition MOE_PROC_MACRO_DERIVES_MACRO_NAME : list Z := chars "MOE_PROC_MACRO_DERIVES" ++ [0].
Definition MOE_PROC_MACRO_DERIVES_ENUM_MACRO_NAME : list Z :=
  chars "MOE_PROC_MACRO_DERIVES_ENUM" ++ [0].
Definition MOE_PROC_MACRO_MAX_ARG_NUM : Z := 8.
Definition MOE_PROC_MACRO_MAX_DERIVE_ITEM_NUM : Z := 8.

(** The strings of the table MOE_TOKEN_XXX. *)
Definition moe_token_type_to_string (ty : moe_token_type_t) : list Z :=
  chars match ty with
        | MOE_TOKEN_UNKNOWN => "moe_token_type_unknown"
        | MOE_TOKEN_IDENTIFIER => "moe_token_type_identifier"
        | MOE_TOKEN_PUNCTUATION => "moe_token_type_punctuation"
        | MOE_TOKEN_STRING_LITERAL => "moe_token_type_string_literal"
        | MOE_TOKEN_INT_LITERAL => "moe_token_type_int_literal"
        | MOE_TOKEN_FLOAT_LITERAL => "moe_token_type_float_literal"
        end.

#[export] Instance moe_token_type_eq_dec : EqDecision moe_token_type_t.
Proof. solve_decision. Defined.

Section data.
Context `{!BuildConfig}.

(** ** Derive arguments and items *)

Definition moe_derive_arg_create (arg_type : option (list Z)) (type_capacity : Z)
    (arg_name : option (list Z)) (name_capacity : Z) : M mem moe_derive_arg_t :=
  ty ← moe_string_alloc arg_type type_capacity;
  name ← moe_string_alloc arg_name name_capacity;
  ret (DeriveArg ty name).

Definition moe_derive_arg_destroy (arg : ptr) : M mem unit :=
  if bool_decide (arg = NULL) then skip else
  a ← load_elem (T := moe_derive_arg_t) arg;
  moe_string_free (arg_type a);;
  a ← load_elem (T := moe_derive_arg_t) arg;
  moe_string_free (arg_name a).

Definition moe_derive_item_create (item : ptr) (handler_name : option (list Z)) (num : Z) :
    M mem unit :=
  if bool_decide (item = NULL) then skip else
  name ← moe_string_alloc handler_name 0;
  it ← load_elem item;
  store_elem item (DeriveItem name (arg_num it) (args it));;
  it ← load_elem item;
  store_elem item (DeriveItem (derive_handler_name it) num (args it));;
  a ← MOE_ALLOC_RANGE "moe_derive_arg_t" 16 num (λ n, ODeriveArgs (replicate n derive_arg_zero));
  it ← load_elem item;
  store_elem item (DeriveItem (derive_handler_name it) (arg_num it) a).

Definition moe_derive_item_destroy (item : ptr) : M mem unit :=
  if bool_decide (item = NULL) then skip else
  it ← load_elem item;
  moe_string_free (derive_handler_name it);;
  it ← load_elem item;
  for_range (arg_num it) (λ i,
    it ← load_elem item;
    moe_derive_arg_destroy (ptr_add (args it) (i * 16)));;
  it ← load_elem item;
  MOE_FREE (args it).

(** ** Tokens *)

Definition new_token (ty : moe_token_type_t) (v : M mem moe_token_value) : M mem ptr :=
  token ← MOE_ALLOC "moe_token_t" 16 (OToken (MoeToken value_undef None));
  update token (λ t, MoeToken (token_value t) (Some ty));;
  v ← v;
  update token (λ t, MoeToken v (type t));;
  ret token.

Definition moe_token_create_identifier (identifier : option (list Z)) (len : Z) : M mem ptr :=
  new_token MOE_TOKEN_IDENTIFIER (s ← moe_string_alloc identifier len; ret (str_value s)).

Definition moe_token_create_string_literal (str : option (list Z)) (len : Z) : M mem ptr :=
  new_token MOE_TOKEN_STRING_LITERAL (s ← moe_string_alloc str len; ret (str_value s)).

Definition moe_token_create_punctuation (punctuation : Z) : M mem ptr :=
  new_token MOE_TOKEN_PUNCTUATION (ret (int_value punctuation)).

Definition moe_token_create_int_literal (value : Z) : M mem ptr :=
  new_token MOE_TOKEN_INT_LITERAL (ret (int_value value)).

Definition moe_token_create_float_literal (value : spec_float) : M mem ptr :=
  new_token MOE_TOKEN_FLOAT_LITERAL (ret (float_value value)).

(** Reading a member of the union: the one that was stored. *)
Definition get_str_value (t : moe_token_t) : M mem ptr :=
  match token_value t with
  | str_value p => ret p
  | value_undef => throw (Undefined Indeterminate)
  | _ => throw (Undefined InvalidPtr)
  end.
Definition get_int_value (t : moe_token_t) : M mem Z :=
  match token_value t with int_value n => ret n | _ => throw (Undefined Indeterminate) end.
Definition get_float_value (t : moe_token_t) : M mem spec_float :=
  match token_value t with float_value f => ret f | _ => throw (Undefined Indeterminate) end.

Definition moe_token_print (token : ptr) : M mem unit :=
  if bool_decide (token = NULL) then printf "NULL token\n" [] else
  t ← load token;
  ty ← defined (type t);
  let type_str := PStr (moe_token_type_to_string ty) in
  match ty with
  | MOE_TOKEN_IDENTIFIER | MOE_TOKEN_STRING_LITERAL =>
      p ← get_str_value t;
      s ← string_text p;
      printf ("Token(type=%s, value=\" +:+ dquote +:+ "%s\" +:+ dquote +:+ ")\n") [type_str; PStr s]
  | MOE_TOKEN_PUNCTUATION =>
      n ← get_int_value t;
      printf "Token(type=%s, value='%c')\n" [type_str; PChar (to_char n)]
  | MOE_TOKEN_INT_LITERAL =>
      n ← get_int_value t;
      printf "Token(type=%s, value=%d)\n" [type_str; PInt n]
  | MOE_TOKEN_FLOAT_LITERAL =>
      f ← get_float_value t;
      printf "Token(type=%s, value=%f)\n" [type_str; PDouble (to_double f)]
  | MOE_TOKEN_UNKNOWN => MOE_UNREACHABLE
  end.

Definition moe_token_free (token : ptr) : M mem unit :=
  if bool_decide (token = NULL) then skip else
  t ← load token;
  ty ← defined (type t);
  (if bool_decide (ty = MOE_TOKEN_IDENTIFIER) || bool_decide (ty = MOE_TOKEN_STRING_LITERAL)
   then p ← get_str_value t; moe_string_free p
   else skip);;
  MOE_FREE token.

(** ** The token stream *)

Definition moe_struct_metadata_token_stream_node_alloc (token : ptr) : M mem ptr :=
  node ← MOE_ALLOC "moe__struct_metadata_token_stream_node_t" 24
           (OTokenStreamNode (TokenStreamNode node_undef Pundef));
  update node (λ n, TokenStreamNode (list_node n) token);;
  moe_list_node_init node;;
  ret node.

Definition moe_struct_metadata_token_stream_node_free (node : ptr) : M mem unit :=
  if bool_decide (node = NULL) then skip else
  n ← load node;
  moe_token_free (token n);;
  MOE_FREE node.

(** A [moe_struct_metadata_t] is its head node. *)
Definition moe_struct_metadata_init (metadata : ptr) : M mem unit := moe_list_node_init metadata.

Definition moe_derive_struct_metadata_add_token (metadata token : ptr) : M mem unit :=
  if bool_decide (metadata = NULL) then skip else
  node ← moe_struct_metadata_token_stream_node_alloc token;
  moe_list_add_tail metadata node.

(** [moe_list_entry]: the structure whose member [list_node] is at [node]. *)
Definition token_stream_entry (node : ptr) : ptr := ptr_add node (-0).

Definition moe_derive_struct_metadata_clear_iterator (node : ptr) (ctx : unit) : M mem unit :=
  moe_struct_metadata_token_stream_node_free (token_stream_entry node).

(** The token of the node an iterator is at. *)
Definition entry_token (node : ptr) : M mem ptr :=
  n ← load (token_stream_entry node); ret (token n).

Definition moe_derive_struct_metadata_print (metadata : ptr) : M mem unit :=
  if bool_decide (metadata = NULL) then skip else
  fuel ← gets list_fuel;
  iterator_loop fuel (λ node _, t ← entry_token node; moe_token_print t)
    (moe_list_iterator_init metadata) tt.

Definition moe_struct_metadata_destroy (metadata : ptr) : M mem unit :=
  if bool_decide (metadata = NULL) then skip else
  fuel ← gets list_fuel;
  moe_list_iterate_safe fuel metadata moe_derive_struct_metadata_clear_iterator tt.

(** ** The derived structure *)

Definition metadata_of (derived_struct : ptr) : ptr := ptr_add derived_struct metadata_offset.

Definition moe_derived_struct_alloc (name : option (list Z)) (num : Z) : M mem ptr :=
  derived_struct ← MOE_ALLOC "moe_derived_struct_t" 40
                     (ODerivedStruct (DerivedStruct Pundef None Pundef node_undef));
  s ← moe_string_alloc name 0;
  update derived_struct (λ d,
    DerivedStruct s (derive_item_num d) (derive_items d) (token_stream_node d));;
  update derived_struct (λ d,
    DerivedStruct (struct_name d) (Some num) (derive_items d) (token_stream_node d));;
  items ← MOE_ALLOC_RANGE "moe_derive_item_t" 24 num
            (λ n, ODeriveItems (replicate n derive_item_zero));
  update derived_struct (λ d,
    DerivedStruct (struct_name d) (derive_item_num d) items (token_stream_node d));;
  moe_struct_metadata_init (metadata_of derived_struct);;
  ret derived_struct.

Definition moe_derived_struct_free (derived_struct : ptr) : M mem unit :=
  if bool_decide (derived_struct = NULL) then skip else
  d ← load derived_struct;
  moe_string_free (struct_name d);;
  d ← load derived_struct;
  num ← defined (derive_item_num d);
  for_range num (λ i,
    d ← load derived_struct;
    moe_derive_item_destroy (ptr_add (derive_items d) (i * 24)));;
  d ← load derived_struct;
  MOE_FREE (derive_items d);;
  moe_struct_metadata_destroy (metadata_of derived_struct);;
  MOE_FREE derived_struct.
End data.
