(* ===== verification/Parser.v ===== *)
(** * moe/proc_macro/proc_macro.c, lines 276 to 440: the parser

    The parser drives the lexer and builds the derived structure in the heap; its
    state is the two of them. [MOE_ASSERT] evaluates its condition for its effect,
    so that [moe_next_token] reads a token only in a build with assertions. *)
From S2P Require Import Prelude CStd Lexer MoeList Heap MoeString ProcMacro.
From Stdlib Require Import SpecFloat.

Record parser : Type := Parser { p_lex : stb_lexer; p_mem : mem }.

#[export] Instance parser_lex_lens : Lens parser stb_lexer :=
  {| view := p_lex; put l s := Parser l (p_mem s);
     view_put _ _ := eq_refl; put_view s := match s with Parser _ _ => eq_refl end;
     put_put _ _ _ := eq_refl |}.
#[export] Instance parser_mem_lens : Lens parser mem :=
  {| view := p_mem; put m s := Parser (p_lex s) m;
     view_put _ _ := eq_refl; put_view s := match s with Parser _ _ => eq_refl end;
     put_put _ _ _ := eq_refl |}.

Definition on_lex {A} (m : M stb_lexer A) : M parser A := zoom m.
Definition on_mem {A} (m : M mem A) : M parser A := zoom m.

Section parser.
Context `{!BuildConfig}.

Definition moe_next_token : M parser unit :=
  MOE_ASSERT (r ← on_lex stb_c_lexer_get_token; ret (negb (r =? 0))).

Definition moe_expect_token (expected_token : Z) : M parser unit :=
  MOE_ASSERT (t ← on_lex (gets lex_token); ret (t =? expected_token)).

Definition moe_expect_next_token (expected_token : Z) : M parser unit :=
  moe_next_token;; moe_expect_token expected_token.

(** The array [lex->string] points to. *)
Definition lex_string_arg : M stb_lexer (list Z) :=
  o ← gets lex_string; o ← defined o;
  gets (λ lx, drop (Z.to_nat o) (lex_string_storage lx)).

(** [strcmp(a, lex->string) == 0] *)
Definition string_is (a : list Z) : M parser bool :=
  s ← on_lex lex_string_arg;
  r ← of_option ReadOutOfBounds (strcmp s a);
  ret (r =? 0).

Definition lex_cstring : M parser (list Z) := s ← on_lex lex_string_arg; cstring s.

Definition token_is (t : Z) : M parser bool := x ← on_lex (gets lex_token); ret (x =? t).

Definition parse_fuel : M parser nat := gets (λ s, lex_fuel (p_lex s)).

Definition parse_args : M parser unit :=
  moe_expect_next_token CLEX_id;;
  moe_expect_next_token ($"(");;
  moe_expect_next_token CLEX_id;;
  moe_expect_next_token ($",");;
  moe_expect_next_token CLEX_id;;
  moe_expect_next_token ($")").

Definition parse_derive_item (item : ptr) : M parser unit :=
  moe_expect_next_token CLEX_id;;
  s ← on_lex lex_string_arg;
  on_mem (moe_derive_item_create item (Some s) 0);;
  fuel ← parse_fuel;
  loop fuel (λ _,
    moe_next_token;;
    comma ← token_is ($",");
    if comma then parse_args;; ret (inl tt) else ret (inr tt)) tt.

(** [1], [0] or [-1]. *)
Definition try_parse_derive (struct_name item : ptr) : M parser Z :=
  id ← token_is CLEX_id;
  derives ← (if id then string_is MOE_PROC_MACRO_DERIVES_MACRO_NAME else ret false);
  if negb derives then ret 0 else
  moe_expect_next_token ($"(");;
  moe_expect_next_token CLEX_id;;
  name ← on_mem (string_chars struct_name);
  same ← string_is name;
  if negb same then
    expected ← cstring name;
    got ← lex_cstring;
    on_mem (printf "Warning: Struct name mismatch: expected %s, got %s\n" [PStr expected; PStr got]);;
    ret (-1)
  else
  moe_expect_next_token ($",");;
  parse_derive_item item;;
  moe_next_token;;
  semicolon ← token_is ($";");
  (if semicolon then moe_next_token else skip);;
  ret 1.

(** The token the body loop makes of the current token of the lexer. *)
Definition create_body_token : M parser ptr :=
  t ← on_lex (gets lex_token);
  if t =? CLEX_id then
    s ← on_lex lex_string_arg; n ← on_lex (gets lex_string_len);
    on_mem (moe_token_create_identifier (Some s) n)
  else if (t =? CLEX_sqstring) || (t =? CLEX_dqstring) then
    s ← on_lex lex_string_arg; n ← on_lex (gets lex_string_len);
    on_mem (moe_token_create_string_literal (Some s) n)
  else if t =? CLEX_intlit then
    n ← on_lex (gets lex_int_number);
    on_mem (moe_token_create_int_literal (to_int n))
  else if t =? CLEX_floatlit then
    r ← on_lex (gets lex_real_number);
    on_mem (moe_token_create_float_literal (to_float r))
  else on_mem (moe_token_create_punctuation (to_char t)).

Definition body_turn (derived_struct : ptr) : M parser (unit + unit) :=
  moe_next_token;;
  close ← token_is ($"}");
  if close then ret (inr tt) else
  token ← create_body_token;
  on_mem (moe_derive_struct_metadata_add_token (metadata_of derived_struct) token);;
  ret (inl tt).

Definition try_parse_derived_struct_body (struct_name derived_struct : ptr) : M parser Z :=
  is_typedef ← string_is (chars "typedef" ++ [0]);
  (if is_typedef then moe_next_token else skip);;
  id ← token_is CLEX_id;
  is_struct ← (if id then
                 s ← string_is (chars "struct" ++ [0]);
                 if s then ret true else string_is (chars "enum" ++ [0])
               else ret false);
  if negb is_struct then ret 0 else
  moe_expect_next_token CLEX_id;;
  name ← on_mem (string_chars struct_name);
  same ← string_is name;
  if negb same then
    expected ← cstring name;
    got ← lex_cstring;
    on_mem (printf "Warning: Struct name mismatch: expected %s, got %s\n" [PStr expected; PStr got]);;
    ret (-1)
  else
  moe_expect_next_token ($"{");;
  fuel ← parse_fuel;
  loop fuel (λ _, body_turn derived_struct) tt;;
  (if is_typedef then moe_expect_next_token CLEX_id else skip);;
  moe_expect_next_token ($";");;
  ret 1.

(** [&derived_struct->derive_items[i]] *)
Definition derive_item_ptr (derived_struct : ptr) (i : Z) : M mem ptr :=
  d ← load derived_struct; ret (ptr_add (derive_items d) (i * 24)).

(** [while (derive_count < MOE_PROC_MACRO_MAX_DERIVE_ITEM_NUM) ...]: the final
    [derive_count]. *)
Definition parse_derives (derived_struct struct_name : ptr) (derive_count : Z) : M parser Z :=
  fuel ← parse_fuel;
  loop (fuel + 8) (λ derive_count,
    if negb (derive_count <? MOE_PROC_MACRO_MAX_DERIVE_ITEM_NUM) then ret (inr derive_count) else
    item ← on_mem (derive_item_ptr derived_struct derive_count);
    r ← try_parse_derive struct_name item;
    if r =? 1 then ret (inl (derive_count + 1))
    else if r =? 0 then ret (inr derive_count)
    else ret (inl derive_count)) derive_count.

(** The returned pointer, [NULL] when there is no derived structure here. *)
Definition parse_derived_struct : M parser ptr :=
  id ← token_is CLEX_id;
  if negb id then ret NULL else
  derives ← string_is MOE_PROC_MACRO_DERIVES_MACRO_NAME;
  derives ← (if derives then ret true else string_is MOE_PROC_MACRO_DERIVES_ENUM_MACRO_NAME);
  if negb derives then ret NULL else
  moe_expect_next_token ($"(");;
  moe_expect_next_token CLEX_id;;
  s ← on_lex lex_string_arg;
  derived_struct ← on_mem (moe_derived_struct_alloc (Some s) MOE_PROC_MACRO_MAX_DERIVE_ITEM_NUM);
  d ← on_mem (load derived_struct);
  let struct_name := struct_name d in
  moe_expect_next_token ($",");;
  item ← on_mem (derive_item_ptr derived_struct 0);
  parse_derive_item item;;
  moe_next_token;;
  semicolon ← token_is ($";");
  (if semicolon then moe_next_token else skip);;
  derive_count ← parse_derives derived_struct struct_name 1;
  on_mem (update derived_struct (λ d,
    DerivedStruct (Heap.struct_name d) (Some derive_count) (derive_items d) (token_stream_node d)));;
  result ← try_parse_derived_struct_body struct_name derived_struct;
  if result =? 0 then
    name ← on_mem (string_text struct_name);
    on_mem (printf "Error: Failed to parse struct body for struct %s\n" [PStr name]);;
    on_mem (moe_derived_struct_free derived_struct);;
    ret NULL
  else if result =? -1 then
    name ← on_mem (string_text struct_name);
    on_mem (printf "Error: Struct name mismatch when parsing struct body for struct %s\n" [PStr name]);;
    on_mem (moe_derived_struct_free derived_struct);;
    ret NULL
  else ret derived_struct.
End parser.
