(* ===== verification/JsBridge.v ===== *)
(** * moe/proc_macro/proc_macro.c, lines 442 to 621: scripts

    The JavaScript engine is QuickJS, which the program only calls: the class
    [JSEngine] lists the functions it calls, over a state and values of the
    engine's own. The tokens of a structure become an array of objects, and each
    derive handler is called with the name of the structure and that array. *)
From S2P Require Import Prelude CStd MoeList Heap MoeString ProcMacro.
From Stdlib Require Import SpecFloat.

(** ** The engine *)

(** A string argument is given by its characters without the terminator. The
    names of properties are C strings too. *)
Class JSEngine := {
  JSState : Type;
  JSValue : Type;
  (** [JS_NewContext(JS_NewRuntime())] *)
  JS_NewContext : JSState;
  JS_GetGlobalObject : JSState → JSValue * JSState;
  JS_NewObject : JSState → JSValue * JSState;
  JS_NewArray : JSState → JSValue * JSState;
  JS_NewString : list Z → JSState → JSValue * JSState;
  JS_NewInt32 : Z → JSState → JSValue * JSState;
  JS_NewFloat64 : spec_float → JSState → JSValue * JSState;
  JS_SetPropertyStr : JSValue → list Z → JSValue → JSState → JSState;
  JS_SetPropertyUint32 : JSValue → Z → JSValue → JSState → JSState;
  JS_GetPropertyStr : JSValue → list Z → JSState → JSValue * JSState;
  JS_IsFunction : JSValue → JSState → bool;
  JS_Call : JSValue → JSValue → list JSValue → JSState → JSValue * JSState;
  JS_IsException : JSValue → bool;
  JS_GetException : JSState → JSValue * JSState;
  (** [None] is the null pointer *)
  JS_ToCString : JSValue → JSState → option (list Z) * JSState;
  JS_FreeCString : list Z → JSState → JSState;
  JS_FreeValue : JSValue → JSState → JSState;
  (** source, length, file name *)
  JS_Eval : list Z → Z → list Z → JSState → JSValue * JSState;
  JS_FreeContext : JSState → JSState;
}.

(** ** Files *)

(** The files by path, and the paths that can be opened for writing. *)
Record fs : Type := Fs {
  contents : gmap (list Z) (list Z);
  writable : list Z → bool;
}.

Definition set_file (path content : list Z) (f : fs) : fs :=
  Fs (<[path := content]> (contents f)) (writable f).

(** ** The state of the tool: its memory, the engine, the files, and the lexer
    variable of [main] *)

Record world `{JSEngine} : Type := World {
  w_mem : mem;
  w_js : JSState;
  w_fs : fs;
}.

Section lenses.
Context `{!JSEngine}.

#[export] Instance world_mem_lens : Lens world mem :=
  {| view := w_mem; put m w := World _ m (w_js w) (w_fs w);
     view_put _ _ := eq_refl; put_view w := match w with World _ _ _ _ => eq_refl end;
     put_put _ _ _ := eq_refl |}.
#[export] Instance world_js_lens : Lens world JSState :=
  {| view := w_js; put j w := World _ (w_mem w) j (w_fs w);
     view_put _ _ := eq_refl; put_view w := match w with World _ _ _ _ => eq_refl end;
     put_put _ _ _ := eq_refl |}.
#[export] Instance world_fs_lens : Lens world fs :=
  {| view := w_fs; put f w := World _ (w_mem w) (w_js w) f;
     view_put _ _ := eq_refl; put_view w := match w with World _ _ _ _ => eq_refl end;
     put_put _ _ _ := eq_refl |}.
End lenses.

Section bridge.
Context `{!BuildConfig} `{!JSEngine}.

Definition in_mem {A} (m : M mem A) : M world A := zoom m.
(** A call of the engine, with and without a result. *)
Definition js_call {A} (f : JSState → A * JSState) : M world A :=
  zoom (λ j, let '(a, j') := f j in (Ok a, j')).
Definition js_do (f : JSState → JSState) : M world unit := zoom (modify f).

(** ** The runtime *)

(** The block of the structure, and its member [global_obj]. *)
Record moe_js_runtime_t : Type := JsRuntime { js_block : ptr; global_obj : JSValue }.

Definition moe_js_runtime_alloc : M world moe_js_runtime_t :=
  p ← in_mem (MOE_ALLOC "moe_js_runtime_t" 32 OJsRuntime);
  js_do (λ _, JS_NewContext);;
  g ← js_call JS_GetGlobalObject;
  ret (JsRuntime p g).

Definition moe_js_runtime_free (js_runtime : moe_js_runtime_t) : M world unit :=
  if bool_decide (js_block js_runtime = NULL) then skip else
  js_do (JS_FreeValue (global_obj js_runtime));;
  js_do JS_FreeContext;;
  in_mem (MOE_FREE (js_block js_runtime)).

(** ** Tokens *)

Definition prop_type : list Z := chars "type".
Definition prop_value : list Z := chars "value".

Definition from_token_to_js_token_object (token : ptr) : M world JSValue :=
  js_token ← js_call JS_NewObject;
  t ← in_mem (load token);
  ty ← defined (type t);
  s ← js_call (JS_NewString (moe_token_type_to_string ty));
  js_do (JS_SetPropertyStr js_token prop_type s);;
  match ty with
  | MOE_TOKEN_IDENTIFIER | MOE_TOKEN_STRING_LITERAL =>
      p ← in_mem (get_str_value t);
      text ← in_mem (string_text p);
      v ← js_call (JS_NewString text);
      js_do (JS_SetPropertyStr js_token prop_value v)
  | MOE_TOKEN_PUNCTUATION =>
      n ← in_mem (get_int_value t);
      text ← cstring [to_char n; 0];
      v ← js_call (JS_NewString text);
      js_do (JS_SetPropertyStr js_token prop_value v)
  | MOE_TOKEN_INT_LITERAL =>
      n ← in_mem (get_int_value t);
      v ← js_call (JS_NewInt32 n);
      js_do (JS_SetPropertyStr js_token prop_value v)
  | MOE_TOKEN_FLOAT_LITERAL =>
      f ← in_mem (get_float_value t);
      v ← js_call (JS_NewFloat64 (to_double f));
      js_do (JS_SetPropertyStr js_token prop_value v)
  | MOE_TOKEN_UNKNOWN => MOE_UNREACHABLE
  end;;
  ret js_token.

#[export] Program Instance world_nodes : NodeStore world :=
  {| get_node p w := get_node p (w_mem w);
     put_node p n w := World _ (put_node p n (w_mem w)) (w_js w) (w_fs w) |}.
Next Obligation. intros p n w ?. by apply get_put_eq. Qed.
Next Obligation. intros p q n w ?. by apply get_put_ne. Qed.
Next Obligation. intros p n w ?. by apply (get_node_addr (S := mem) p n (w_mem w)). Qed.

Definition from_token_stream_to_js_array (token_stream_head : ptr) : M world JSValue :=
  arr ← js_call JS_NewArray;
  fuel ← in_mem (gets list_fuel);
  iterator_loop fuel (λ node index,
    token ← in_mem (entry_token node);
    js_token ← from_token_to_js_token_object token;
    js_do (JS_SetPropertyUint32 arr index js_token);;
    int_add index 1) (moe_list_iterator_init token_stream_head) 0;;
  ret arr.

(** ** Derive handlers *)

(** The text a C string returned by the engine prints; it may be null. *)
Definition js_text (s : option (list Z)) : M world (list Z) := of_option NullDeref s.

(** The calls of the handler [callfunc] of an item: the new value of [output]. *)
Definition call_derive_handler (js_runtime : moe_js_runtime_t) (js_token_array callfunc : JSValue)
    (handler_name struct_name output : ptr) : M world ptr :=
  name ← in_mem (string_text struct_name);
  argv0 ← js_call (JS_NewString name);
  r ← js_call (JS_Call callfunc (global_obj js_runtime) [argv0; js_token_array]);
  js_do (JS_FreeValue argv0);;
  if JS_IsException r then
    exception ← js_call JS_GetException;
    error_message ← js_call (JS_ToCString exception);
    h ← in_mem (string_text handler_name);
    text ← js_text error_message;
    in_mem (printf "Error: Exception when calling derive handler %s: %s\n" [PStr h; PStr text]);;
    js_do (JS_FreeCString text);;
    js_do (JS_FreeValue exception);;
    ret output
  else
    generated_code ← js_call (JS_ToCString r);
    h ← in_mem (string_text handler_name);
    text ← js_text generated_code;
    in_mem (printf "Generated code from derive handler %s:\n%s\n" [PStr h; PStr text]);;
    output ← in_mem (moe_string_alloc (Some (text ++ [0])) 0);
    js_do (JS_FreeCString text);;
    js_do (JS_FreeValue r);;
    ret output.

(** [printf] of the arguments of an item. *)
Definition print_derive_args (item : moe_derive_item_t) : M mem unit :=
  for_range (arg_num item) (λ j,
    a ← load_elem (T := moe_derive_arg_t) (ptr_add (args item) (j * 16));
    ty ← string_text (arg_type a);
    name ← string_text (arg_name a);
    printf "    Arg: %s %s\n" [PStr ty; PStr name]).

(** One turn of the loop over the derive items. *)
Definition generate_turn (js_runtime : moe_js_runtime_t) (js_token_array : JSValue)
    (derived_struct : ptr) (i : Z) (output : ptr) : M world ptr :=
  d ← in_mem (load derived_struct);
  item ← in_mem (load_elem (T := moe_derive_item_t) (ptr_add (derive_items d) (i * 24)));
  h ← in_mem (string_text (derive_handler_name item));
  in_mem (printf "  Derive item: %s\n" [PStr h]);;
  in_mem (print_derive_args item);;
  callfunc ← js_call (JS_GetPropertyStr (global_obj js_runtime) h);
  is_function ← js_call (λ j, (JS_IsFunction callfunc j, j));
  if is_function then
    output ← call_derive_handler js_runtime js_token_array callfunc
               (derive_handler_name item) (struct_name d) output;
    js_do (JS_FreeValue callfunc);;
    ret output
  else
    h ← in_mem (string_text (derive_handler_name item));
    in_mem (printf "Warning: Derive handler %s is not a function\n" [PStr h]);;
    js_do (JS_FreeValue callfunc);;
    ret output.

Definition generate_code_for_derived_struct (js_runtime : moe_js_runtime_t)
    (js_token_array : JSValue) (derived_struct : ptr) : M world ptr :=
  d ← in_mem (load derived_struct);
  num ← defined (derive_item_num d);
  fold_each (generate_turn js_runtime js_token_array derived_struct) (seqZ 0 num) NULL.

(** ** Files and scripts *)

Definition read_file (filename : list Z) : M world ptr :=
  o ← gets (λ w, contents (w_fs w) !! filename);
  match o with
  | None => ret NULL
  | Some content =>
      let size := to_int (Z.of_nat (length content)) in
      str ← in_mem (moe_string_alloc None size);
      p ← in_mem (moe_string_get str);
      dst ← in_mem (load (T := list Z) p);
      let n := Z.min (to_size_t size) (Z.of_nat (length content)) in
      if n <=? Z.of_nat (length dst) then
        in_mem (store p (take (Z.to_nat n) content ++ drop (Z.to_nat n) dst));;
        ret str
      else throw (Undefined WriteOutOfBounds)
  end.

(** [1] when the script cannot be read. *)
Definition load_proc_macro_scripts (js_runtime : moe_js_runtime_t) (script_path : list Z) : M world Z :=
  script ← read_file script_path;
  if bool_decide (script = NULL) then
    in_mem (printf "Error: Failed to read proc macro script file: %s\n" [PStr script_path]);;
    ret 1
  else
    text ← in_mem (string_text script);
    in_mem (printf "%s\n" [PStr text]);;
    src ← in_mem (string_chars script);
    s ← in_mem (load (T := moe_string_t) script);
    n ← defined (length_ s);
    r ← js_call (JS_Eval src n script_path);
    in_mem (moe_string_free script);;
    (if JS_IsException r then
       exception ← js_call JS_GetException;
       error_message ← js_call (JS_ToCString exception);
       text ← js_text error_message;
       in_mem (printf "Error: Exception when evaluating proc macro script %s: %s\n"
                 [PStr script_path; PStr text]);;
       js_do (JS_FreeCString text);;
       js_do (JS_FreeValue exception)
     else skip);;
    js_do (JS_FreeValue r);;
    ret 0.
End bridge.
