(* ===== verification/Main.v ===== *)
(** * moe/proc_macro/proc_macro.c, lines 623 to 742: files and [main] *)
From S2P Require Import Prelude CStd Lexer MoeList Heap MoeString ProcMacro Parser JsBridge.
From Stdlib Require Import SpecFloat.

Definition EXIT_SUCCESS : Z := 0.
Definition EXIT_FAILURE : Z := 1.

Section main.
Context `{!BuildConfig} `{!JSEngine}.

Definition is_writable (path : list Z) : M world bool := gets (λ w, writable (w_fs w) path).

(** [fopen(path, "w")] truncates the file. *)
Definition clear_file (output_file : list Z) : M world Z :=
  ok ← is_writable output_file;
  if ok then zoom (modify (set_file output_file []));; ret 0 else ret 1.

(** What is in a file that is opened to append: nothing when it is created. *)
Definition file_content (path : list Z) : M world (list Z) :=
  gets (λ w, default [] (contents (w_fs w) !! path)).

Definition append_to_output (output_file content : list Z) : M world Z :=
  ok ← is_writable output_file;
  if ok then
    old ← file_content output_file;
    text ← cstring content;
    zoom (modify (set_file output_file (old ++ text)));; ret 0
  else ret 1.

(** The offset of the base name: after the last [/], without one after the
    last backslash, without one at the start. *)
Definition base_offset {S} (path : list Z) : M S Z :=
  base ← of_option ReadOutOfBounds (strrchr path ($"/"));
  base ← (match base with
          | None => of_option ReadOutOfBounds (strrchr path ($"\"))
          | Some i => ret (Some i)
          end);
  ret (match base with None => 0 | Some i => i + 1 end).

Definition extract_base_filename (path : list Z) : M world ptr :=
  base ← base_offset path;
  in_mem (moe_string_alloc (Some (drop (Z.to_nat base) path)) 0).

Definition include_line (header_file : list Z) : list Z :=
  chars "#include " ++ [$"034"] ++ header_file ++ [$"034"; $"010"].

Definition append_include_directive (output_file header_file : list Z) : M world unit :=
  ok ← is_writable output_file;
  if ok then
    old ← file_content output_file;
    zoom (modify (set_file output_file (old ++ include_line header_file)))
  else skip.

(** The parser works on the lexer variable of [main] and the memory. *)
Definition run_parser {A} (m : M parser A) (lex : stb_lexer) : M world (A * stb_lexer) := λ w,
  match m (Parser lex (w_mem w)) with
  | (Ok a, Parser lex' mm) => (Ok (a, lex'), World _ mm (w_js w) (w_fs w))
  | (Err e, Parser _ mm) => (Err e, World _ mm (w_js w) (w_fs w))
  end.

(** What [main] does with a derived structure. *)
Definition process_derived_struct (js_runtime : moe_js_runtime_t) (output_file : list Z)
    (derived_struct : ptr) : M world unit :=
  d ← in_mem (load derived_struct);
  name ← in_mem (string_text (struct_name d));
  in_mem (printf "Found derived struct: %s\n" [PStr name]);;
  in_mem (printf "Metadata:\n" []);;
  in_mem (moe_derive_struct_metadata_print (metadata_of derived_struct));;
  js_token_array ← from_token_stream_to_js_array (metadata_of derived_struct);
  generated ← generate_code_for_derived_struct js_runtime js_token_array derived_struct;
  (if negb (bool_decide (generated = NULL)) then
     content ← in_mem (string_chars generated);
     r ← append_to_output output_file content;
     (if negb (r =? 0)
      then in_mem (printf "Error: Failed to append generated code to output file: %s\n" [PStr output_file])
      else skip);;
     in_mem (moe_string_free generated)
   else skip);;
  js_do (JS_FreeValue js_token_array);;
  in_mem (moe_derived_struct_free derived_struct).

(** One turn of the [while] of [main], with the lexer variable. *)
Definition main_turn (js_runtime : moe_js_runtime_t) (output_file : list Z) (lex : stb_lexer) :
    M world (stb_lexer + stb_lexer) :=
  '(r, lex) ← run_parser (on_lex stb_c_lexer_get_token) lex;
  if r =? 0 then ret (inr lex) else
  if lex_token lex =? CLEX_parse_error then
    in_mem (printf "\n<<<PARSE ERROR>>>\n" []);; ret (inr lex)
  else
  '(derived_struct, lex) ← run_parser parse_derived_struct lex;
  (if negb (bool_decide (derived_struct = NULL))
   then process_derived_struct js_runtime output_file derived_struct
   else skip);;
  ret (inl lex).

(** The lexing and the code generation, from the text of the input file. *)
Definition main_loop (js_runtime : moe_js_runtime_t) (output_file : list Z) (lex : stb_lexer) :
    M world stb_lexer :=
  loop (lex_fuel lex) (main_turn js_runtime output_file) lex.

(** [argv] holds C strings; [lex0] is the lexer variable as the stack leaves it. *)
Definition main (argv : list (list Z)) (lex0 : stb_lexer) : M world Z :=
  match argv with
  | argv0 :: input_file :: output_file :: script_file :: _ =>
      failed ← clear_file output_file;
      if negb (failed =? 0) then
        in_mem (printf "Error: Failed to clear output file: %s\n" [PStr output_file]);;
        ret EXIT_FAILURE
      else
      input_base ← extract_base_filename (input_file ++ [0]);
      base ← in_mem (string_text input_base);
      in_mem (printf "Input file: %s\n" [PStr base]);;
      base ← in_mem (string_text input_base);
      append_include_directive output_file base;;
      in_mem (moe_string_free input_base);;
      input_str ← read_file input_file;
      js_runtime ← moe_js_runtime_alloc;
      failed ← load_proc_macro_scripts js_runtime script_file;
      if negb (failed =? 0) then ret EXIT_FAILURE else
      string_store ← in_mem (moe_string_alloc None 1024);
      input ← in_mem (string_chars input_str);
      s ← in_mem (load (T := moe_string_t) input_str);
      n ← defined (length_ s);
      store ← in_mem (string_chars string_store);
      lex ← main_loop js_runtime output_file (stb_c_lexer_init lex0 input n store 1024);
      in_mem (moe_string_free string_store);;
      moe_js_runtime_free js_runtime;;
      in_mem (moe_string_free input_str);;
      in_mem moe_check_memory_leak;;
      ret EXIT_SUCCESS
  | argv0 :: _ =>
      in_mem (printf "Usage: %s <input_file> <output_file> <script_file>\n" [PStr argv0]);;
      ret EXIT_FAILURE
  | [] => throw (Undefined ReadOutOfBounds)
  end.
End main.
