(* ===== verification/DebugScript.v ===== *)
(** * moe/proc_macro/scripts/debug.js, and an engine that runs it

    The two handlers of the script as functions on the name and the tokens they
    are called with, and an instance of [JSEngine] whose global object has them
    once a script was evaluated. The instance shows that the interface of
    [JsBridge.v] can be met, and lets the whole tool be run on the fixture of
    tests/proc_macro. *)
From S2P Require Import Prelude CStd Lexer MoeList Heap MoeString ProcMacro Parser JsBridge Main.
From Stdlib Require Import SpecFloat.

(** ** The script *)















(** ** An engine *)













(** ** The fixture of tests/proc_macro *)









