(* ===== verification/HeapLogic.v ===== *)
(** * Assertions and program logic on the heap

    Assertions on the footprint of a function, as a [bi] of Iris, and the weakest
    preconditions and refinements over them. *)
From S2P Require Import Prelude CStd MoeList Heap.
From iris.proofmode Require Export proofmode.

(** * Assertions on the heap

    An assertion is a predicate on the part of the heap a function works on, its
    footprint, and [P ∗ Q] splits the footprint in two. The assertions form a
    [bi], so that the proof mode of Iris works on them. The logic is linear: a
    footprint is never forgotten, and a block that is not given back was leaked. *)

#[export] Unset SsrRewrite.
#[global] Open Scope Z_scope.
#[global] Open Scope moe_scope.

Abbreviation heap := (gmap positive obj).

Record heapProp : Type := HeapProp { holds : heap → Prop }.
Add Printing Constructor heapProp.

(** ** The connectives *)

Record hequiv (P Q : heapProp) : Prop := HEquiv { equiv_holds : ∀ h, holds P h ↔ holds Q h }.
#[export] Instance heapProp_equiv : Equiv heapProp := hequiv.
#[export] Instance heapProp_equivalence : Equivalence (≡@{heapProp}).
Proof.
  split; [by split|intros P Q [H]|intros P Q R [H1] [H2]]; split; intros h; [by rewrite H|].
  by rewrite H1.
Qed.

#[warnings="-redundant-canonical-projection"]
Canonical Structure heapPropO : ofe := discreteO heapProp.

Record hentails (P Q : heapProp) : Prop := HEntails { entails_holds : ∀ h, holds P h → holds Q h }.
Definition hemp : heapProp := HeapProp (λ h, h = ∅).
Definition hpure (φ : Prop) : heapProp := HeapProp (λ _, φ).
Definition hand (P Q : heapProp) : heapProp := HeapProp (λ h, holds P h ∧ holds Q h).
Definition hor (P Q : heapProp) : heapProp := HeapProp (λ h, holds P h ∨ holds Q h).
Definition himpl (P Q : heapProp) : heapProp := HeapProp (λ h, holds P h → holds Q h).
Definition hforall {A} (Φ : A → heapProp) : heapProp := HeapProp (λ h, ∀ a, holds (Φ a) h).
Definition hexist {A} (Φ : A → heapProp) : heapProp := HeapProp (λ h, ∃ a, holds (Φ a) h).
Definition hsep (P Q : heapProp) : heapProp :=
  HeapProp (λ h, ∃ h1 h2, h = h1 ∪ h2 ∧ h1 ##ₘ h2 ∧ holds P h1 ∧ holds Q h2).
Definition hwand (P Q : heapProp) : heapProp :=
  HeapProp (λ h, ∀ h', h ##ₘ h' → holds P h' → holds Q (h ∪ h')).
(** An assertion holds persistently when it needs no footprint. *)
Definition hpers (P : heapProp) : heapProp := hpure (hentails hemp P).

(** [b] is a block that holds [o]. *)
Definition hpointsto (b : positive) (o : obj) : heapProp := HeapProp (λ h, h = {[b := o]}).

Ltac unfold_heapProp :=
  repeat match goal with
  | H : hentails _ _ |- _ => pose proof (entails_holds _ _ H); clear H
  | |- hentails _ _ => split
  end;
  unfold hemp, hpure, hand, hor, himpl, hforall, hexist, hsep, hwand, hpointsto in *; cbn in *.

Lemma heapProp_bi_mixin :
  BiMixin (PROP := heapProp) hentails hemp hpure hand hor himpl (@hforall) (@hexist) hsep hwand.
Proof.
  split.
  { split; [by intros P|]. intros P Q R [HPQ] [HQR]. split. eauto. }
  { intros P Q. split.
    - intros [HPQ]. split; split; intros h; apply HPQ.
    - intros [[HPQ] [HQP]]. split. intros h. split; [apply HPQ|apply HQP]. }
  { intros n φ ψ Hφ. split. intros h. exact Hφ. }
  { intros n P P' [HP] Q Q' [HQ]. split. intros h. specialize (HP h). specialize (HQ h). unfold_heapProp. tauto. }
  { intros n P P' [HP] Q Q' [HQ]. split. intros h. specialize (HP h). specialize (HQ h). unfold_heapProp. tauto. }
  { intros n P P' [HP] Q Q' [HQ]. split. intros h. specialize (HP h). specialize (HQ h). unfold_heapProp. tauto. }
  { intros A n Φ Ψ HΦ. split. intros h. split; intros H a; apply (HΦ a), H. }
  { intros A n Φ Ψ HΦ. split. intros h. split; intros [a H]; exists a; apply (HΦ a), H. }
  { intros n P P' [HP] Q Q' [HQ]. split. intros h.
    split; intros (h1 & h2 & ? & ? & ? & ?); exists h1, h2;
      (split_and!; [done|done|by apply HP|by apply HQ]). }
  { intros n P P' [HP] Q Q' [HQ]. split. intros h.
    split; intros H h' ? ?; apply HQ, H; [done|by apply HP|done|by apply HP]. }
  { intros φ P Hφ. unfold_heapProp. auto. }
  { intros φ P Hφ. split. intros h H. exact (entails_holds _ _ (Hφ H) h I). }
  1-6: intros; unfold_heapProp; naive_solver.
  { intros P Q R [HR]. split. intros h HP HQ. by apply HR. }
  { intros P Q R [HR]. split. intros h [HP HQ]. by apply HR. }
  { intros A P Ψ HΨ. split. intros h HP a. by apply HΨ. }
  { intros A Ψ a. split. intros h H. apply H. }
  { intros A Ψ a. split. intros h H. by exists a. }
  { intros A Φ Q HΦ. split. intros h [a H]. by apply (HΦ a). }
  - intros P P' Q Q' HP HQ. unfold_heapProp. intros h (h1 & h2 & -> & Hd & ? & ?). exists h1, h2. auto.
  - intros P. unfold_heapProp. intros h HP. exists ∅, h.
    split_and!; [symmetry; apply map_empty_union|apply map_disjoint_empty_l|done|done].
  - intros P. unfold_heapProp. intros h (h1 & h2 & -> & Hd & -> & ?). by rewrite map_empty_union.
  - intros P Q. unfold_heapProp. intros h (h1 & h2 & -> & Hd & ? & ?). exists h2, h1.
    rewrite map_union_comm by done. auto.
  - intros P Q R. unfold_heapProp.
    intros h (h12 & h3 & -> & Hd & (h1 & h2 & -> & Hd' & ? & ?) & ?).
    apply map_disjoint_union_l in Hd as [??].
    exists h1, (h2 ∪ h3). rewrite <-map_union_assoc.
    split_and!; [done|by apply map_disjoint_union_r|done|]. by exists h2, h3.
  - intros P Q R [HPQ]. split. intros h HP h' Hd HQ. apply HPQ. by exists h, h'.
  - intros P Q R [HPQ]. split. intros h (h1 & h2 & -> & Hd & ? & ?). by apply HPQ.
Qed.

Lemma heapProp_persistently_mixin :
  BiPersistentlyMixin (PROP := heapProp) hentails hemp hand (@hexist) hsep hpers.
Proof.
  eapply bi_persistently_mixin_discrete, heapProp_bi_mixin; [done| |done].
  intros A Φ [H]. destruct (H ∅ eq_refl) as [x Hx]. exists x. split. by intros h ->.
Qed.

Lemma heapProp_later_mixin :
  BiLaterMixin (PROP := heapProp) hentails hpure hor himpl (@hforall) (@hexist) hsep hpers (λ P, P).
Proof. eapply bi_later_mixin_id, heapProp_bi_mixin. done. Qed.

Bind Scope bi_scope with heapProp.
Canonical Structure heapPropI : bi :=
  {| bi_ofe_mixin := ofe_mixin_of heapProp; bi_bi_mixin := heapProp_bi_mixin;
     bi_bi_persistently_mixin := heapProp_persistently_mixin;
     bi_bi_later_mixin := heapProp_later_mixin |}.

#[export] Instance heapProp_pure_forall : BiPureForall heapPropI.
Proof. intros A φ. split. intros h H. exact H. Qed.

Notation "b ↦ o" := (hpointsto b o) (at level 20, format "b  ↦  o") : bi_scope.

(** * A program logic for the functions on the heap

    [hwp m r E Φ] is the weakest precondition of [m], as an assertion on the
    footprint: from a memory that holds the footprint and any frame, [m] either
    ends on an error in [E] or returns, with the frame untouched and a new
    footprint in [Φ]. The state of [m] is a memory and the rest [r]; the rest is
    the lexer for the parser, the engine and the files for the whole tool.

    [href m sp r Q]: [m] refines [sp], a computation on the rest alone. They end
    on the same error, or both return, in the same rest, with results and a
    footprint in [Q]. *)

(** A fact that needs no footprint. *)
Notation "'⌜⌜' φ '⌝⌝'" := (bi_affinely (bi_pure φ%type%stdpp)) (at level 0, φ at level 200) : bi_scope.

(** ** Well-formed memories *)

(** Live blocks are older than [m_next], and the counters differ by the number of
    live blocks. *)
Definition wf_mem (m : mem) : Prop :=
  (∀ b, is_Some (m_objs m !! b) → (b < m_next m)%positive) ∧
  0 ≤ total_allocated (m_stats m) < 2 ^ 64 ∧ 0 ≤ total_freed (m_stats m) < 2 ^ 64 ∧
  to_size_t (total_allocated (m_stats m) - total_freed (m_stats m)) =
  to_size_t (Z.of_nat (size (m_objs m))).

(** The memory is the footprint [h] and the frame [hf]. *)
Definition heap_is (m : mem) (h hf : heap) : Prop :=
  m_objs m = h ∪ hf ∧ h ##ₘ hf ∧ wf_mem m.

(** ** States with a memory *)

Class MemState (S R : Type) `{!Lens S mem} := {
  mem_of : S → mem;
  rest_of : S → R;
  state_of : mem → R → S;
  mem_state_of : ∀ m r, mem_of (state_of m r) = m;
  rest_state_of : ∀ m r, rest_of (state_of m r) = r;
  state_of_parts : ∀ s, state_of (mem_of s) (rest_of s) = s;
  view_state_of : ∀ m r, view (state_of m r) = m;
  put_state_of : ∀ m m' r, put m' (state_of m r) = state_of m' r;
}.

#[export] Instance mem_mem_lens : Lens mem mem :=
  {| view m := m; put m _ := m; view_put _ _ := eq_refl; put_view _ := eq_refl;
     put_put _ _ _ := eq_refl |}.
#[export] Instance mem_mem_state : MemState mem unit :=
  {| mem_of m := m; rest_of _ := tt; state_of m _ := m;
     mem_state_of _ _ := eq_refl; rest_state_of _ r := match r with tt => eq_refl end;
     state_of_parts _ := eq_refl; view_state_of _ _ := eq_refl; put_state_of _ _ _ := eq_refl |}.

Section hwp.
Context {S R : Type} `{!Lens S mem} `{!MemState S R}.
Implicit Types (r : R) (P : heapProp).

Definition hwp {A} (m : M S A) (r : R) (E : error → R → Prop) (Φ : A → R → heapProp) : heapProp :=
  HeapProp (λ h, ∀ mm hf, heap_is mm h hf →
    match m (state_of mm r) with
    | (Ok a, s') => ∃ h', holds (Φ a (rest_of s')) h' ∧ heap_is (mem_of s') h' hf
    | (Err e, s') => E e (rest_of s')
    end).

Definition href {A B} (m : M S A) (sp : M R B) (r : R) (Q : A → B → heapProp) : heapProp :=
  hwp m r (λ e r', sp r = (Err e, r')) (λ a r', ∃ b, ⌜⌜ sp r = (Ok b, r') ⌝⌝ ∗ Q a b)%I.

Lemma hwp_ret {A} (a : A) r E Φ : Φ a r ⊢ hwp (ret a) r E Φ.
Proof. split. intros h HΦ mm hf Hh. exists h. by rewrite rest_state_of, mem_state_of. Qed.

Lemma hwp_throw {A} e r (E : error → R → Prop) (Φ : A → R → heapProp) P :
  E e r → P ⊢ hwp (throw e) r E Φ.
Proof. intros HE. split. intros h _ mm hf Hh. cbn. by rewrite rest_state_of. Qed.

Lemma hwp_bind {A B} (m : M S A) (k : A → M S B) r E Φ :
  hwp m r E (λ a r', hwp (k a) r' E Φ) ⊢ hwp (bind m k) r E Φ.
Proof.
  split. intros h Hm mm hf Hh. specialize (Hm mm hf Hh). unfold bind.
  destruct (m (state_of mm r)) as [[a|e] s']; [|done].
  destruct Hm as (h' & Hk & Hh'). specialize (Hk _ _ Hh'). by rewrite state_of_parts in Hk.
Qed.

Lemma hwp_wand {A} (m : M S A) r (E E' : error → R → Prop) Φ Ψ :
  (∀ e r', E e r' → E' e r') →
  hwp m r E Φ ⊢ (∀ a r', Φ a r' -∗ Ψ a r') -∗ hwp m r E' Ψ.
Proof.
  intros HE. split. intros h Hm hw Hd Hw mm hf (Hobj & Hdj & Hwf).
  apply map_disjoint_union_l in Hdj as [Hdj1 Hdj2].
  specialize (Hm mm (hw ∪ hf)). destruct (m (state_of mm r)) as [[a|e] s'].
  - destruct Hm as (h' & HΦ & Hobj' & Hdj' & Hwf').
    { split_and!; [|by apply map_disjoint_union_r|done]. by rewrite map_union_assoc. }
    apply map_disjoint_union_r in Hdj' as [Hdj3 Hdj4].
    exists (hw ∪ h'). split; [by apply (Hw a _ h')|].
    split_and!; [|by apply map_disjoint_union_l|done].
    rewrite Hobj', map_union_assoc. f_equal. by apply map_union_comm.
  - apply HE, Hm. split_and!; [|by apply map_disjoint_union_r|done]. by rewrite map_union_assoc.
Qed.
End hwp.

#[global] Arguments hwp : simpl never.
#[global] Arguments href : simpl never.

(** ** Well-formedness of the operations *)

Lemma to_size_t_range z : 0 ≤ to_size_t z < 2 ^ 64.
Proof. unfold to_size_t. apply Z.mod_pos_bound. lia. Qed.

Lemma to_size_t_add a b : to_size_t (to_size_t a + b) = to_size_t (a + b).
Proof. unfold to_size_t. apply Zplus_mod_idemp_l. Qed.

Lemma to_size_t_sub_l a b : to_size_t (to_size_t a - b) = to_size_t (a - b).
Proof. unfold to_size_t. apply Zminus_mod_idemp_l. Qed.

Lemma to_size_t_sub_r a b : to_size_t (a - to_size_t b) = to_size_t (a - b).
Proof. unfold to_size_t. apply Zminus_mod_idemp_r. Qed.

Lemma wf_mem_init : wf_mem mem_init.
Proof. split_and!; cbn; try done. intros b [? H]. by rewrite lookup_empty in H. Qed.

Lemma wf_fresh m : wf_mem m → m_objs m !! m_next m = None.
Proof. intros (Hlt & _). apply eq_None_not_Some. intros H%Hlt. lia. Qed.

(** What a call that returns a new block does. *)
Definition with_block (o : obj) (m : mem) : mem :=
  Mem (<[m_next m := o]> (m_objs m)) (Pos.succ (m_next m)) (count_allocated (m_stats m)) (m_out m).

Lemma wf_with_block o m : wf_mem m → wf_mem (with_block o m).
Proof.
  intros Hwf. pose proof (wf_fresh m Hwf) as Hf. destruct Hwf as (Hlt & Ha & Hr & Hsz).
  split_and!; cbn [m_stats with_block total_allocated total_freed count_allocated m_objs m_next];
    [|apply to_size_t_range..|apply Hr|apply Hr|].
  - intros b. destruct (decide (b = m_next m)) as [->|]; [lia|].
    rewrite lookup_insert_ne by done. intros H%Hlt. lia.
  - rewrite map_size_insert_None by done. rewrite to_size_t_sub_l.
    replace (total_allocated (m_stats m) + 1 - total_freed (m_stats m))
      with (total_allocated (m_stats m) - total_freed (m_stats m) + 1) by lia.
    rewrite <-to_size_t_add, Hsz, to_size_t_add. f_equal. lia.
Qed.

(** Freeing block [b]. *)
Definition without_block (b : positive) (m : mem) : mem :=
  Mem (delete b (m_objs m)) (m_next m) (count_freed (m_stats m)) (m_out m).

Lemma wf_without_block b m :
  wf_mem m → is_Some (m_objs m !! b) → wf_mem (without_block b m).
Proof.
  intros (Hlt & Ha & Hr & Hsz) Hb.
  split_and!; cbn [m_stats without_block total_allocated total_freed count_freed m_objs m_next];
    [|apply Ha|apply Ha|apply to_size_t_range..|].
  - intros b' Hb'. apply Hlt. eapply lookup_weaken_is_Some; [done|apply delete_subseteq].
  - destruct Hb as [o Hb]. rewrite map_size_delete_Some by done.
    assert (size (m_objs m) ≠ 0%nat) by (intros H%map_size_empty_inv; by rewrite H in Hb).
    rewrite to_size_t_sub_r.
    replace (total_allocated (m_stats m) - (total_freed (m_stats m) + 1))
      with (total_allocated (m_stats m) - total_freed (m_stats m) + -1) by lia.
    rewrite <-to_size_t_add, Hsz, to_size_t_add. f_equal. lia.
Qed.

Lemma wf_same m m' :
  m_objs m' = m_objs m → m_next m' = m_next m → m_stats m' = m_stats m → wf_mem m → wf_mem m'.
Proof. unfold wf_mem. by intros -> -> ->. Qed.

Lemma wf_set b o m : wf_mem m → is_Some (m_objs m !! b) → wf_mem (set_objs <[b := o]> m).
Proof.
  intros (Hlt & Ha & Hr & Hsz) [o' Hb]. split_and!; cbn; try lia.
  - intros b' Hb'. apply Hlt. destruct (decide (b = b')) as [<-|]; [by eexists|].
    by rewrite lookup_insert_ne in Hb'.
  - by rewrite map_size_insert_Some.
Qed.


(** ** Rules of the memory *)

Section mem_rules.
Implicit Types (E : error → unit → Prop) (b : positive) (o : obj).

Lemma heap_is_lookup m b o h hf :
  heap_is m ({[b := o]} ∪ h) hf → m_objs m !! b = Some o.
Proof.
  intros (-> & _ & _). apply lookup_union_Some_l, lookup_union_Some_l, lookup_singleton_eq.
Qed.

Lemma singleton_disjoint b o o' (h : heap) : {[b := o]} ##ₘ h → {[b := o']} ##ₘ h.
Proof. rewrite !map_disjoint_singleton_l. done. Qed.

(** A function that only rewrites the block [b]. *)
Lemma hwp_block {A} (m : M mem A) b o o' a E (Φ : A → unit → heapProp) :
  (∀ mm, m_objs mm !! b = Some o →
     ∃ mm', m mm = (Ok a, mm') ∧ m_objs mm' = <[b := o']> (m_objs mm) ∧
            m_next mm' = m_next mm ∧ m_stats mm' = m_stats mm) →
  b ↦ o ⊢ (b ↦ o' -∗ Φ a tt) -∗ hwp m tt E Φ.
Proof.
  intros Hm. split. intros h -> hw Hd Hw mm hf Hh.
  pose proof (heap_is_lookup _ _ _ _ _ Hh) as Hl. cbn.
  destruct (Hm mm Hl) as (mm' & -> & Ho & Hn & Hs). destruct Hh as (Hobj & Hdj & Hwf).
  apply map_disjoint_union_l in Hdj as [Hdj1 Hdj2].
  exists ({[b := o']} ∪ hw). cbn [mem_of mem_mem_state]. unfold heap_is. split_and!.
  - rewrite map_union_comm by by eapply singleton_disjoint.
    apply Hw; [|done]. symmetry. by eapply singleton_disjoint.
  - rewrite Ho, Hobj. rewrite <-!insert_union_singleton_l, <-!insert_union_l, insert_insert_eq. done.
  - apply map_disjoint_union_l. split; [by eapply singleton_disjoint|done].
  - eapply (wf_same (set_objs <[b := o']> mm)); [done..|]. apply wf_set; [done|]. by eexists.
Qed.

(** A function that only adds a block. *)
Lemma hwp_new {A} (m : M mem A) o (f : ptr → A) E (Φ : A → unit → heapProp) :
  (∀ mm, ∃ mm', m mm = (Ok (f (Addr (m_next mm) 0)), mm') ∧
     m_objs mm' = m_objs (with_block o mm) ∧ m_next mm' = m_next (with_block o mm) ∧
     m_stats mm' = m_stats (with_block o mm)) →
  (∀ b, b ↦ o -∗ Φ (f (Addr b 0)) tt) ⊢ hwp m tt E Φ.
Proof.
  intros Hm. split. intros h Hw mm hf (Hobj & Hdj & Hwf). cbn.
  destruct (Hm mm) as (mm' & -> & Ho & Hn & Hs).
  pose proof (wf_fresh mm Hwf) as Hf. rewrite Hobj in Hf.
  apply lookup_union_None in Hf as [Hf1 Hf2].
  assert (h ##ₘ {[m_next mm := o]}) as Hd by by apply map_disjoint_singleton_r.
  exists (h ∪ {[m_next mm := o]}). cbn [mem_of mem_mem_state]. unfold heap_is. split_and!.
  - by apply (Hw (m_next mm)).
  - rewrite Ho. cbn. rewrite Hobj, (map_union_comm h {[_ := _]}) by done.
    by rewrite insert_union_l, insert_union_singleton_l.
  - apply map_disjoint_union_l. split; [done|]. by apply map_disjoint_singleton_l.
  - by eapply (wf_same (with_block o mm)), wf_with_block.
Qed.

(** A function that only removes the block [b]. *)
Lemma hwp_delete {A} (m : M mem A) b o a E (Φ : A → unit → heapProp) :
  (∀ mm, m_objs mm !! b = Some o →
     ∃ mm', m mm = (Ok a, mm') ∧ m_objs mm' = m_objs (without_block b mm) ∧
            m_next mm' = m_next mm ∧ m_stats mm' = m_stats (without_block b mm)) →
  b ↦ o ⊢ Φ a tt -∗ hwp m tt E Φ.
Proof.
  intros Hm. split. intros h -> hw Hd Hw mm hf Hh.
  pose proof (heap_is_lookup _ _ _ _ _ Hh) as Hl. cbn.
  destruct (Hm mm Hl) as (mm' & -> & Ho & Hn & Hs). destruct Hh as (Hobj & Hdj & Hwf).
  apply map_disjoint_union_l in Hdj as [Hdj1 Hdj2].
  exists hw. cbn [mem_of mem_mem_state]. unfold heap_is. split_and!; [done| |done|].
  - rewrite Ho. cbn. rewrite Hobj, <-insert_union_singleton_l, <-insert_union_l.
    rewrite delete_insert_id; [done|]. apply lookup_union_None.
    by rewrite map_disjoint_singleton_l in Hd, Hdj1.
  - eapply (wf_same (without_block b mm)); [done..|]. apply wf_without_block; [done|]. by eexists.
Qed.

(** A function that does not touch the blocks. *)
Lemma hwp_output {A} (m : M mem A) a E (Φ : A → unit → heapProp) :
  (∀ mm, ∃ mm', m mm = (Ok a, mm') ∧ m_objs mm' = m_objs mm ∧ m_next mm' = m_next mm ∧
                m_stats mm' = m_stats mm) →
  Φ a tt ⊢ hwp m tt E Φ.
Proof.
  intros Hm. split. intros h HΦ mm hf (Hobj & Hdj & Hwf). cbn.
  destruct (Hm mm) as (mm' & -> & Ho & Hn & Hs). exists h. cbn [mem_of mem_mem_state]. unfold heap_is. split; [done|].
  split_and!; [congruence|done|]. by eapply (wf_same mm).
Qed.

(** A function that fails on a block it reads. *)
Lemma hwp_fail {A} (m : M mem A) b o e E (Φ : A → unit → heapProp) :
  (∀ mm, m_objs mm !! b = Some o → ∃ mm', m mm = (Err e, mm')) → E e tt →
  b ↦ o ⊢ True -∗ hwp m tt E Φ.
Proof.
  intros Hm HE. split. intros h -> hw Hd _ mm hf Hh.
  pose proof (heap_is_lookup _ _ _ _ _ Hh) as Hl. cbn. by destruct (Hm mm Hl) as (mm' & ->).
Qed.

Lemma hwp_printf fmt args E (Φ : unit → unit → heapProp) :
  Φ tt tt ⊢ hwp (printf fmt args) tt E Φ.
Proof. apply hwp_output. intros mm. by eexists. Qed.

Lemma hwp_MOE_ALLOC ty sz o E (Φ : ptr → unit → heapProp) :
  (∀ b, b ↦ o -∗ Φ (Addr b 0) tt) ⊢ hwp (MOE_ALLOC ty sz o) tt E Φ.
Proof. apply (hwp_new _ o id). intros mm. by eexists. Qed.

Lemma hwp_MOE_ALLOC_RANGE ty sz n zeros E (Φ : ptr → unit → heapProp) :
  0 ≤ n →
  (∀ b, b ↦ zeros (Z.to_nat n) -∗ Φ (Addr b 0) tt) ⊢ hwp (MOE_ALLOC_RANGE ty sz n zeros) tt E Φ.
Proof.
  intros Hn. apply (hwp_new _ _ id). intros mm.
  unfold MOE_ALLOC_RANGE, moe_calloc. rewrite (proj2 (Z.ltb_ge n 0)) by done. by eexists.
Qed.

Lemma hwp_MOE_FREE b o E (Φ : unit → unit → heapProp) :
  b ↦ o ⊢ Φ tt tt -∗ hwp (MOE_FREE (Addr b 0)) tt E Φ.
Proof.
  apply hwp_delete. intros mm Hb. unfold MOE_FREE, moe_free, bind, free. cbn. rewrite Hb.
  by eexists.
Qed.

Lemma update_run {T} `{!ObjType T} b o (t : T) f mm :
  m_objs mm !! b = Some o → of_obj o = Some t →
  update (Addr b 0) f mm = (Ok tt, set_objs <[b := to_obj (f t)]> mm).
Proof.
  intros Hb Ht. unfold update, bind, load, store. rewrite Hb. cbn. rewrite Ht, Hb. cbn. by rewrite Ht.
Qed.

Lemma hwp_load {T} `{!ObjType T} b o (t : T) E (Φ : T → unit → heapProp) :
  of_obj o = Some t →
  b ↦ o ⊢ (b ↦ o -∗ Φ t tt) -∗ hwp (load (Addr b 0)) tt E Φ.
Proof.
  intros ->%of_obj_Some. apply hwp_block. intros mm Hb. exists mm. unfold load. rewrite Hb. cbn. rewrite of_to_obj.
  split_and!; [done|by rewrite insert_id|done..].
Qed.

Lemma hwp_store {T} `{!ObjType T} b o (t t' : T) E (Φ : unit → unit → heapProp) :
  of_obj o = Some t →
  b ↦ o ⊢ (b ↦ to_obj t' -∗ Φ tt tt) -∗ hwp (store (Addr b 0) t') tt E Φ.
Proof.
  intros ->%of_obj_Some. apply hwp_block. intros mm Hb. eexists. unfold store. rewrite Hb. cbn. by rewrite of_to_obj.
Qed.

Lemma hwp_update {T} `{!ObjType T} b o (t : T) f E (Φ : unit → unit → heapProp) :
  of_obj o = Some t →
  b ↦ o ⊢ (b ↦ to_obj (f t) -∗ Φ tt tt) -∗ hwp (update (Addr b 0) f) tt E Φ.
Proof.
  intros Ht. apply hwp_block. intros mm Hb. eexists. by erewrite update_run by done.
Qed.

Lemma load_array_run {T} `{!ElemType T} b (l : list T) i p mm :
  0 < elem_size → p = Addr b (i * elem_size) → 0 ≤ i → m_objs mm !! b = Some (of_elems l) →
  load_array p mm = (Ok (b, l, Z.to_nat i), mm).
Proof.
  intros Hs -> Hi Hb. unfold load_array. rewrite Hb. cbn. rewrite elems_of.
  rewrite (proj2 (Z.leb_le 0 _)), Z_mod_mult, Z_div_mult by lia. done.
Qed.

Lemma hwp_load_elem {T} `{!ElemType T} b o (l : list T) i x p E (Φ : T → unit → heapProp) :
  elems o = Some l → 0 < elem_size → p = Addr b (i * elem_size) → 0 ≤ i → l !! Z.to_nat i = Some x →
  b ↦ o ⊢ (b ↦ o -∗ Φ x tt) -∗ hwp (load_elem p) tt E Φ.
Proof.
  intros ->%elems_Some Hs -> Hi Hx. apply hwp_block. intros mm Hb. exists mm.
  unfold load_elem. erewrite bind_run by by eapply load_array_run. cbn. rewrite Hx.
  split_and!; [done|by rewrite insert_id|done..].
Qed.

Lemma hwp_store_elem {T} `{!ElemType T} b o (l : list T) i x p E (Φ : unit → unit → heapProp) :
  elems o = Some l → 0 < elem_size → p = Addr b (i * elem_size) → 0 ≤ i < length l →
  b ↦ o ⊢ (b ↦ of_elems (<[Z.to_nat i := x]> l) -∗ Φ tt tt) -∗
  hwp (store_elem p x) tt E Φ.
Proof.
  intros ->%elems_Some Hs -> Hi. apply hwp_block. intros mm Hb. eexists.
  unfold store_elem. erewrite bind_run by (eapply load_array_run; [done..|lia|done]). cbn -[Nat.ltb].
  rewrite (proj2 (Nat.ltb_lt _ _)) by lia. done.
Qed.

(** The link fields of a node inside the object [o] of the block [b]. *)
Lemma hwp_load_next b ofs o n E (Φ : ptr → unit → heapProp) :
  obj_node o ofs = Some n →
  b ↦ o ⊢ (b ↦ o -∗ Φ (next n) tt) -∗ hwp (load_next (Addr b ofs)) tt E Φ.
Proof.
  intros Hn. apply hwp_block. intros mm Hb. exists mm.
  unfold load_next, bind, load_node. cbn. rewrite Hb. cbn. rewrite Hn.
  split_and!; [done|by rewrite insert_id|done..].
Qed.

Lemma hwp_load_prev b ofs o n E (Φ : ptr → unit → heapProp) :
  obj_node o ofs = Some n →
  b ↦ o ⊢ (b ↦ o -∗ Φ (prev n) tt) -∗ hwp (load_prev (Addr b ofs)) tt E Φ.
Proof.
  intros Hn. apply hwp_block. intros mm Hb. exists mm.
  unfold load_prev, bind, load_node. cbn. rewrite Hb. cbn. rewrite Hn.
  split_and!; [done|by rewrite insert_id|done..].
Qed.

Lemma heap_put_objs b ofs n o (mm : mem) :
  m_objs mm !! b = Some o →
  m_objs (heap_put_node (Addr b ofs) n mm) = <[b := obj_set_node ofs n o]> (m_objs mm).
Proof.
  intros Hb. cbn. apply map_eq. intros b'. destruct (decide (b' = b)) as [->|].
  - by rewrite lookup_alter_eq, Hb, lookup_insert_eq.
  - by rewrite lookup_alter_ne, lookup_insert_ne.
Qed.

Lemma hwp_store_next b ofs o n v E (Φ : unit → unit → heapProp) :
  obj_node o ofs = Some n →
  b ↦ o ⊢ (b ↦ obj_set_node ofs (ListNode v (prev n)) o -∗ Φ tt tt) -∗
  hwp (store_next (Addr b ofs) v) tt E Φ.
Proof.
  intros Hn. apply hwp_block. intros mm Hb. eexists.
  unfold store_next, bind, load_node. cbn. rewrite Hb. cbn. rewrite Hn.
  split_and!; [done|by apply heap_put_objs|done..].
Qed.

Lemma hwp_store_prev b ofs o n v E (Φ : unit → unit → heapProp) :
  obj_node o ofs = Some n →
  b ↦ o ⊢ (b ↦ obj_set_node ofs (ListNode (next n) v) o -∗ Φ tt tt) -∗
  hwp (store_prev (Addr b ofs) v) tt E Φ.
Proof.
  intros Hn. apply hwp_block. intros mm Hb. eexists.
  unfold store_prev, bind, load_node. cbn. rewrite Hb. cbn. rewrite Hn.
  split_and!; [done|by apply heap_put_objs|done..].
Qed.
End mem_rules.

(** ** A bound on the number of blocks of a footprint *)

Lemma size_below {A} (h : gmap positive A) n :
  (∀ b, is_Some (h !! b) → (b < n)%positive) → (size h < Pos.to_nat n)%nat.
Proof.
  intros Hlt. assert (length (Pos.to_nat ∘ fst <$> map_to_list h) ≤ length (seq 1 (Pos.to_nat n - 1)))%nat as Hle.
  { apply submseteq_length, NoDup_submseteq.
    - rewrite list_fmap_compose. apply NoDup_fmap_2; [apply _|]. apply NoDup_fst_map_to_list.
    - intros k [[b x] [-> Hb]]%list_elem_of_fmap. apply elem_of_map_to_list in Hb.
      specialize (Hlt b ltac:(by eexists)). apply elem_of_seq. cbn. lia. }
  rewrite length_fmap, length_seq, length_map_to_list in Hle. lia.
Qed.

Lemma hwp_list_fuel P n (E : error → unit → Prop) (Φ : nat → unit → heapProp) :
  (∀ h, holds P h → (n ≤ size h)%nat) →
  P ⊢ (∀ fuel, ⌜(n < fuel)%nat⌝ → P -∗ Φ fuel tt) -∗ hwp (gets list_fuel) tt E Φ.
Proof.
  intros Hn. split. intros h HP hw Hd Hw mm hf Hh.
  assert (n < list_fuel mm)%nat as Hlt.
  { destruct Hh as (Hobj & Hdj & Hlt & _). unfold list_fuel.
    pose proof (size_below _ _ Hlt) as Hsz. cbn in Hobj.
    rewrite Hobj, !map_size_disj_union in Hsz by done. specialize (Hn _ HP). lia. }
  exists (hw ∪ h). cbn [mem_of mem_mem_state]. rewrite (map_union_comm hw h) by done.
  split; [|done]. rewrite (map_union_comm h hw) by done. by apply (Hw _ Hlt h).
Qed.

(** ** Rules for the other parts of the state *)

Section lift_rules.
Context {S R : Type} `{!Lens S mem} `{!MemState S R}.
Implicit Types (r : R) (P : heapProp).

(** A function on the memory. *)
Lemma hwp_zoom {A} (m : M mem A) r E (Φ : A → R → heapProp) :
  hwp m tt (λ e _, E e r) (λ a _, Φ a r) ⊢ hwp (zoom m) r E Φ.
Proof.
  split. intros h Hm mm hf Hh. specialize (Hm mm hf Hh). unfold zoom. rewrite view_state_of.
  cbn in Hm. destruct (m mm) as [[a|e] mm']; rewrite put_state_of.
  - destruct Hm as (h' & ? & ?). exists h'. by rewrite rest_state_of, mem_state_of.
  - by rewrite rest_state_of.
Qed.

(** A computation that only uses the rest. *)
Definition lift {A} (sp : M R A) : M S A := λ s,
  let '(a, r) := sp (rest_of s) in (a, state_of (mem_of s) r).

Class Lifted {A} (m : M S A) (sp : M R A) := lifted s : m s = lift sp s.

Lemma hwp_lifted {A} (m : M S A) sp r E (Φ : A → R → heapProp) :
  Lifted m sp →
  match sp r with (Ok a, r') => Φ a r' | (Err e, r') => ⌜ E e r' ⌝ end ⊢ hwp m r E Φ.
Proof.
  intros Hm. split. intros h HΦ mm hf Hh. rewrite Hm. unfold lift. rewrite rest_state_of, mem_state_of.
  destruct (sp r) as [[a|e] r']; rewrite rest_state_of; [|done].
  exists h. by rewrite mem_state_of.
Qed.

#[export] Instance lifted_ret {A} (a : A) : Lifted (ret a) (ret a).
Proof. intros s. unfold lift, ret. by rewrite state_of_parts. Qed.

#[export] Instance lifted_throw {A} e : Lifted (A := A) (throw e) (throw e).
Proof. intros s. unfold lift, throw. by rewrite state_of_parts. Qed.

#[export] Instance lifted_of_option {A} u (o : option A) : Lifted (of_option u o) (of_option u o).
Proof. destruct o; apply _. Qed.

#[export] Instance lifted_bind {A B} (m : M S A) sp (k : A → M S B) ks :
  Lifted m sp → (∀ a, Lifted (k a) (ks a)) → Lifted (bind m k) (bind sp ks) | 2.
Proof.
  intros Hm Hk s. unfold bind. rewrite Hm. unfold lift at 1 2.
  destruct (sp (rest_of s)) as [[a|e] r']; [|done].
  rewrite Hk. unfold lift. by rewrite rest_state_of, mem_state_of.
Qed.

#[export] Instance lifted_some {A B} u a (k : A → M S B) sp :
  Lifted (k a) sp → Lifted (bind (of_option u (Some a)) k) sp | 1.
Proof. done. Qed.

#[export] Instance lifted_if {A} (b : bool) (m m' : M S A) sp sp' :
  Lifted m sp → Lifted m' sp' → Lifted (if b then m else m') (if b then sp else sp').
Proof. by destruct b. Qed.

#[export] Instance lifted_assert `{BuildConfig} (m : M S bool) sp :
  Lifted m sp → Lifted (MOE_ASSERT m) (MOE_ASSERT sp).
Proof. intros. unfold MOE_ASSERT. apply _. Qed.

Lemma lifted_loop {A B} fuel (body : A → M S (A + B)) body' a :
  (∀ a, Lifted (body a) (body' a)) → Lifted (loop fuel body a) (loop fuel body' a).
Proof.
  intros Hb. revert a. induction fuel as [|fuel IH]; intros a; cbn; [apply _|].
  apply lifted_bind; [apply Hb|]. intros [a'|b]; [apply IH|apply _].
Qed.
End lift_rules.

#[export] Hint Extern 1 (Lifted (loop _ _ _) _) => apply lifted_loop; intros : typeclass_instances.

(** ** Rules for refinement *)

Section href_rules.
Context {S R : Type} `{!Lens S mem} `{!MemState S R}.
Implicit Types (r : R) (P : heapProp).

Lemma href_ret {A B} (a : A) (b : B) r Q : Q a b ⊢ href (ret a) (ret b) r Q.
Proof. iIntros "HQ". iApply hwp_ret. iExists b. by iFrame. Qed.

Lemma href_error {A B} (m : M S A) (sp : M R B) e r Q P :
  (∀ mm, ∃ mm', m (state_of mm r) = (Err e, state_of mm' r)) → sp r = (Err e, r) → P ⊢ href m sp r Q.
Proof.
  intros Hm Hs. split. intros h _ mm hf _. destruct (Hm mm) as [mm' ->]. by rewrite rest_state_of.
Qed.

Lemma href_throw {A B} e r (Q : A → B → heapProp) P : P ⊢ href (throw e) (throw e) r Q.
Proof. by apply hwp_throw. Qed.

Lemma href_wand {A B} (m : M S A) (sp : M R B) r Q Q' :
  href m sp r Q ⊢ (∀ a b, Q a b -∗ Q' a b) -∗ href m sp r Q'.
Proof.
  iIntros "Hm HQ". iApply (hwp_wand with "Hm"); [done|].
  iIntros (a r') "(%b & % & HQ')". iExists b. iSplit; [done|]. by iApply "HQ".
Qed.

Lemma href_bind {A B C D} (m : M S A) (sp : M R B) (k : A → M S C) (ks : B → M R D) r Q Q' :
  href m sp r Q ⊢ (∀ a b r', Q a b -∗ href (k a) (ks b) r' Q') -∗
  href (bind m k) (bind sp ks) r Q'.
Proof.
  iIntros "Hm Hk". iApply hwp_bind. iApply (hwp_wand with "Hm").
  { intros e r' He. unfold bind. by rewrite He. }
  iIntros (a r') "(%b & %Hb & HQ)". iSpecialize ("Hk" with "HQ"). unfold href, bind. by rewrite Hb.
Qed.

Lemma href_ext {A B} (m m' : M S A) (sp : M R B) r Q :
  (∀ s, m s = m' s) → href m' sp r Q ⊢ href m sp r Q.
Proof.
  intros Hm. split. intros h H mm hf Hh. rewrite Hm. by apply H.
Qed.

Lemma hwp_ext {A} (m m' : M S A) r E (Φ : A → R → heapProp) :
  (∀ s, m s = m' s) → hwp m' r E Φ ⊢ hwp m r E Φ.
Proof. intros Hm. split. intros h H mm hf Hh. rewrite Hm. by apply H. Qed.

Lemma href_assoc {A B C D} (m : M S A) (k : A → M S B) (k' : B → M S C) (sp : M R D) r Q :
  href (bind m (λ a, bind (k a) k')) sp r Q ⊢ href (bind (bind m k) k') sp r Q.
Proof. apply href_ext. apply bind_bind. Qed.

Lemma hwp_assoc {A B C} (m : M S A) (k : A → M S B) (k' : B → M S C) r E Φ :
  hwp (bind m (λ a, bind (k a) k')) r E Φ ⊢ hwp (bind (bind m k) k') r E Φ.
Proof. split. intros h H mm hf Hh. rewrite bind_bind. by apply H. Qed.

(** A step on the rest. *)
Lemma href_lifted_bind {A C D} (m : M S A) sp (k : A → M S C) (ks : A → M R D) r Q :
  Lifted m sp →
  (∀ a r', ⌜ sp r = (Ok a, r') ⌝ → href (k a) (ks a) r' Q) ⊢ href (bind m k) (bind sp ks) r Q.
Proof.
  iIntros (Hm) "Hk". iApply hwp_bind. iApply hwp_lifted.
  unfold href, bind. destruct (sp r) as [[a|e] r']; [|done].
  by iApply ("Hk" $! a r').
Qed.

Lemma href_lifted_last {A B} (m : M S A) sp (f : A → B) r Q :
  Lifted m sp →
  (∀ a, Q a (f a)) ⊢ href m (bind sp (λ a, ret (f a))) r Q.
Proof.
  iIntros (Hm) "HQ". iApply hwp_lifted. unfold bind.
  destruct (sp r) as [[a|e] r']; [|by iPureIntro]. iExists (f a). by iSplit.
Qed.

Lemma href_lifted {A} (m : M S A) sp r : Lifted m sp → ⊢ href m sp r (λ a b, ⌜⌜ a = b ⌝⌝)%I.
Proof.
  intros Hm. iApply hwp_lifted. destruct (sp r) as [[a|e] r']; [|by iPureIntro].
  iExists a. by iSplit.
Qed.

(** A step on the memory that the refined computation does not show. *)
Lemma href_mem_bind {A C D} (m : M mem A) (k : A → M S C) (sp : M R D) r Q :
  hwp m tt never (λ a _, href (k a) sp r Q) ⊢ href (bind (zoom m) k) sp r Q.
Proof.
  iIntros "Hm". iApply hwp_bind. iApply hwp_zoom. iApply (hwp_wand with "Hm"); [done|].
  iIntros (a r') "Hk". iExact "Hk".
Qed.

Lemma href_mem_last {A B} (m : M mem A) (b : B) r Q :
  hwp m tt never (λ a _, Q a b) ⊢ href (zoom m) (ret b) r Q.
Proof.
  iIntros "Hm". iApply hwp_zoom. iApply (hwp_wand with "Hm"); [done|].
  iIntros (a r') "HQ". iExists b. by iFrame.
Qed.

Lemma href_ret_bind {A C D} (a : A) (k : A → M S C) (sp : M R D) r Q :
  href (k a) sp r Q ⊢ href (bind (ret a) k) sp r Q.
Proof. done. Qed.

Lemma href_run_bind {A C D} (m : M S A) a (k : A → M S C) (sp : M R D) r Q :
  (∀ s, m s = (Ok a, s)) → href (k a) sp r Q ⊢ href (bind m k) sp r Q.
Proof. intros Hm. apply href_ext. intros s. by erewrite bind_run. Qed.

(** A step that leaves the rest as it is. *)
Lemma href_silent {A C D} (m : M S A) (k : A → M S C) (sp : M R D) r Q :
  hwp m r never (λ a r', ⌜⌜ r' = r ⌝⌝ ∗ href (k a) sp r Q) ⊢ href (bind m k) sp r Q.
Proof.
  iIntros "Hm". iApply hwp_bind. iApply (hwp_wand with "Hm"); [done|].
  iIntros (a r') "[-> Hk]". iExact "Hk".
Qed.

(** A step of the refined computation that does nothing. *)
Lemma href_spec_bind {A B D} (m : M S A) b (sp : M R B) (ks : B → M R D) r r' Q :
  sp r = (Ok b, r') → r' = r → href m (ks b) r Q ⊢ href m (bind sp ks) r Q.
Proof. intros Hb ->. unfold href, bind. by rewrite Hb. Qed.

Lemma href_loop {A B C D} (I : A → B → heapProp) (Q : C → D → heapProp)
    (body : A → M S (A + C)) (sbody : B → M R (B + D)) fuel a b r :
  (∀ a b r, I a b ⊢ href (body a) (sbody b) r (λ x y,
     match x, y with
     | inl a, inl b => I a b
     | inr c, inr d => Q c d
     | _, _ => False
     end)) →
  I a b ⊢ href (loop fuel body a) (loop fuel sbody b) r Q.
Proof.
  intros Hbody. revert a b r. induction fuel as [|fuel IH]; intros a b r; [apply href_throw|].
  iIntros "HI". iApply (href_bind with "[HI]"); [by iApply Hbody|].
  iIntros ([a'|c] [b'|d] r') "H"; [by iApply IH|done..|by iApply href_ret].
Qed.
End href_rules.

(** ** Refinements on the memory alone *)

(** A computation with no state, run inside one with a state. *)
#[export] Instance unit_lens {R} : Lens R unit :=
  {| view _ := tt; put _ r := r; view_put t _ := match t with tt => eq_refl end;
     put_view _ := eq_refl; put_put _ _ _ := eq_refl |}.

Section href_mem.
Implicit Types (P : heapProp).

Lemma href_step {A C D} (m : M mem A) (k : A → M mem C) (sp : M unit D) Q :
  hwp m tt never (λ a _, href (k a) sp tt Q) ⊢ href (bind m k) sp tt Q.
Proof.
  iIntros "Hm". iApply hwp_bind. iApply (hwp_wand with "Hm"); [done|].
  iIntros (a []) "Hk". iExact "Hk".
Qed.

Lemma href_zoom {S R} `{!Lens S mem, !MemState S R} {A B} (m : M mem A) (sp : M unit B) (r : R) Q :
  href m sp tt Q ⊢ href (zoom m) (zoom sp) r Q.
Proof.
  iIntros "Hm". iApply hwp_zoom. iApply (hwp_wand with "Hm").
  - intros e [] He. unfold zoom. cbn. by rewrite He.
  - iIntros (a []) "(%b & %Hb & HQ)". iExists b. iFrame. iPureIntro. unfold zoom. cbn. by rewrite Hb.
Qed.

(** A function on the memory that does not fail is one that refines [ret]. *)
Lemma href_of_hwp {A B} (m : M mem A) (b : B) Q :
  hwp m tt never (λ a _, Q a b) ⊢ href m (ret b) tt Q.
Proof.
  iIntros "Hm". iApply (hwp_wand with "Hm"); [done|]. iIntros (a []) "HQ". iExists b. by iFrame.
Qed.
End href_mem.

(** ** What a proof in the logic says of a run *)

Lemma hwp_run {S R} `{!Lens S mem, !MemState S R} {A} (m : M S A) r E (Φ : A → R → heapProp) P h mm :
  (P ⊢ hwp m r E Φ) → holds P h → m_objs mm = h → wf_mem mm →
  match m (state_of mm r) with
  | (Ok a, s') => holds (Φ a (rest_of s')) (m_objs (mem_of s')) ∧ wf_mem (mem_of s')
  | (Err e, s') => E e (rest_of s')
  end.
Proof.
  intros [Hm] HP Hh Hwf. specialize (Hm h HP mm ∅).
  destruct (m (state_of mm r)) as [[a|e] s'].
  - destruct Hm as (h' & HΦ & -> & _ & ?); [|by rewrite map_union_empty].
    split_and!; [by rewrite map_union_empty|apply map_disjoint_empty_r|done].
  - apply Hm. split_and!; [by rewrite map_union_empty|apply map_disjoint_empty_r|done].
Qed.

(** The postcondition of a refinement, out of the logic. *)
Lemma href_post {B R} (f : outcome B * R) (r' : R) (Q : B → heapProp) h :
  holds (∃ b, ⌜⌜ f = (Ok b, r') ⌝⌝ ∗ Q b)%I h → ∃ b, f = (Ok b, r') ∧ holds (Q b) h.
Proof.
  assert ((∃ b, ⌜⌜ f = (Ok b, r') ⌝⌝ ∗ Q b) ⊢ ∃ b, ⌜ f = (Ok b, r') ⌝ ∧ Q b) as [E].
  { iIntros "(%b & %Hb & HQ)". iExists b. by iSplit. }
  intros Hh. destruct (E h Hh) as (b & Hb & HQ). by exists b.
Qed.

(** ** Tactics: one memory step of the program, and of a [hwp] or [href] goal *)

Ltac h_assoc :=
  lazymatch goal with
  | |- context [href (bind (bind _ _) _) _ _ _] => iApply href_assoc; h_assoc
  | |- context [hwp (bind (bind _ _) _) _ _ _] => iApply hwp_assoc; h_assoc
  | _ => idtac
  end.
Tactic Notation "h_bind" :=
  h_assoc; first [iApply href_step | iApply href_mem_bind | iApply hwp_bind].
(** [tac] on the next step, or on the whole computation when it is the last. *)
Tactic Notation "h_step" tactic3(tac) := first [h_bind; tac | tac].
Tactic Notation "h_load" constr(H) :=
  h_step (iApply (hwp_load with H); [reflexivity|]; iIntros H); cbn.
Tactic Notation "h_store" constr(H) :=
  h_step (iApply (hwp_store with H); [reflexivity|]; iIntros H); cbn.
Tactic Notation "h_update" constr(H) :=
  h_step (iApply (hwp_update with H); [reflexivity|]; iIntros H); cbn.
Tactic Notation "h_alloc" "(" simple_intropattern(b) ")" constr(H) :=
  h_step (iApply hwp_MOE_ALLOC; iIntros (b) H).
Tactic Notation "h_free" constr(H) := h_step (iApply (hwp_MOE_FREE with H)).
Tactic Notation "h_printf" := h_step (iApply hwp_printf).
Tactic Notation "h_ret" := h_step (iApply hwp_ret).

(** The next step ends on the same error on both sides. *)
Ltac h_error := iStopProof; eapply href_error; [intros mm; by eexists | done].
