(* ===== verification/StringFacts.v ===== *)
(** * Strings on the heap: what moe_string.c promises

    [is_string p l]: [p] is a string that owns its buffer, an array with the
    characters [l], the last one the terminator. *)
From S2P Require Import Prelude CStd MoeList Heap MoeString HeapLogic.

Definition is_string (p : ptr) (l : list Z) : heapProp :=
  ∃ b bi bc, ⌜⌜ p = Addr b 0 ∧ last l = Some 0 ⌝⌝ ∗
    b ↦ OString (MoeString (Addr bi 0) (Some (length l - 1)) (Some (length l : Z))) ∗
    bi ↦ OStringInternal (StringInternal (Addr bc 0) (Some 1)) ∗ bc ↦ OChars l.

(** The array a string made from [src] with the length argument [n] holds. *)
Definition string_of (src : list Z) (n : Z) : M unit (list Z) :=
  k ← (if n =? 0 then m ← of_option ReadOutOfBounds (strlen src); ret (to_int m) else ret n);
  capacity ← int_add k 1;
  if capacity <? 0 then throw (Undefined NullDeref)
  else if Z.of_nat (length src) <? capacity then throw (Undefined ReadOutOfBounds)
  else if capacity =? 0 then throw (Undefined WriteOutOfBounds)
  else ret (take (Z.to_nat k) src ++ [0]).

Section string_facts.
Context `{!BuildConfig}.

Lemma int_add_range a b c : int_add a b tt = (Ok c, tt) → c = a + b ∧ INT_MIN ≤ a + b ≤ INT_MAX.
Proof.
  unfold int_add. destruct (_ && _) eqn:E; [|done]. intros [= <-].
  apply andb_true_iff in E. lia.
Qed.

Lemma insert_take_last (l : list Z) i c :
  (i < length l)%nat → <[i := c]> (take (Datatypes.S i) l) = take i l ++ [c].
Proof.
  intros [x Hx]%lookup_lt_is_Some. rewrite (take_S_r _ _ x) by done.
  apply lookup_lt_Some in Hx.
  rewrite <-(Nat.add_0_r i) at 1. replace i with (length (take i l)) at 1 by (rewrite length_take; lia).
  by rewrite insert_app_r.
Qed.

Lemma moe_string_alloc_refines src n :
  ⊢ href (moe_string_alloc (Some src) n) (string_of src n) tt is_string.
Proof.
  unfold moe_string_alloc, string_of.
  h_alloc (b) "Hb".
  iApply href_lifted_bind. iIntros (k [] Hk).
  iApply href_lifted_bind. iIntros (c [] Hc). apply int_add_range in Hc as [-> Hc].
  h_alloc (bi) "Hbi". h_update "Hb".
  destruct (Z.ltb_spec (k + 1) 0) as [Hneg|Hneg].
  { iApply (hwp_fail with "Hbi"); [|done|done]. intros mm Hbi. eexists.
    erewrite bind_run; [|unfold MOE_ALLOC_RANGE, moe_calloc, bind;
      by rewrite (proj2 (Z.ltb_lt _ _)) by done].
    by erewrite bind_run by by eapply update_run. }
  h_bind. iApply hwp_MOE_ALLOC_RANGE; [done|]. iIntros (bc) "Hbc". h_update "Hbi".
  h_load "Hbc".
  unfold memcpy. rewrite !length_replicate.
  assert (to_size_t (k + 1) = k + 1) as ->.
  { unfold to_size_t. apply Z.mod_small. unfold INT_MAX in Hc. lia. }
  destruct (Z.ltb_spec (length src) (k + 1)) as [Hlen|Hlen].
  { rewrite (proj2 (Z.leb_gt _ (length src))) by done. rewrite andb_false_r.
    h_error. }
  rewrite !(proj2 (Z.leb_le _ _)) by lia. cbn [andb of_option].
  h_ret. h_store "Hbc". unfold store_char_at. h_load "Hbc".
  destruct (Z.eqb_spec (k + 1) 0) as [Hz|Hz].
  { rewrite (proj2 (Z.leb_gt 0 _)) by lia. h_error. }
  rewrite !length_app, !length_take, !length_drop, !length_replicate.
  rewrite (proj2 (Z.leb_le _ _)), (proj2 (Z.ltb_lt _ _)) by lia. cbn [andb].
  h_store "Hbc". h_update "Hb". h_update "Hb". h_update "Hbi".
  iApply href_ret. iExists b, bi, bc.
  assert (Z.to_nat (k + 1) = Datatypes.S (Z.to_nat k)) as -> by lia.
  replace (k + 1 - 1) with k by lia.
  rewrite (drop_ge (replicate _ _)), app_nil_r, insert_take_last by (rewrite ?length_replicate; lia).
  rewrite length_app, length_take. cbn [length].
  replace (_ + 1)%nat with (Datatypes.S (Z.to_nat k)) by lia.
  replace (Z.of_nat (Datatypes.S (Z.to_nat k)) - 1) with k by lia.
  replace (Z.of_nat (Datatypes.S (Z.to_nat k))) with (k + 1) by lia.
  iFrame. iPureIntro. split; [done|]. by rewrite last_snoc.
Qed.

(** Without text, the buffer is zeroed. *)
Lemma alloc_zeros_spec n E (Φ : ptr → unit → heapProp) :
  -1 ≤ n < INT_MAX → n ≠ 0 →
  (∀ b bi bc, b ↦ OString (MoeString (Addr bi 0) (Some n) (Some (n + 1))) -∗
     bi ↦ OStringInternal (StringInternal (Addr bc 0) (Some 1)) -∗
     bc ↦ OChars (replicate (Z.to_nat (n + 1)) 0) -∗ Φ (Addr b 0) tt) ⊢
  hwp (moe_string_alloc None n) tt E Φ.
Proof.
  iIntros (Hn Hz) "HΦ". unfold moe_string_alloc. rewrite (proj2 (Z.eqb_neq n 0)) by done.
  h_alloc (b) "Hb". h_ret. h_bind.
  iApply (hwp_output _ (n + 1)).
  { intros mm. exists mm. by rewrite int_add_ok by (unfold INT_MIN, INT_MAX in *; lia). }
  h_alloc (bi) "Hbi". h_update "Hb".
  h_bind. iApply hwp_MOE_ALLOC_RANGE; [lia|]. iIntros (bc) "Hbc".
  h_update "Hbi". h_ret. h_update "Hb". h_update "Hb". h_update "Hbi".
  iApply hwp_ret. iApply ("HΦ" with "Hb Hbi Hbc").
Qed.

Lemma moe_string_alloc_none n E (Φ : ptr → unit → heapProp) :
  0 < n < INT_MAX →
  (∀ p, is_string p (replicate (Z.to_nat (n + 1)) 0) -∗ Φ p tt) ⊢
  hwp (moe_string_alloc None n) tt E Φ.
Proof.
  iIntros (Hn) "HΦ". iApply alloc_zeros_spec; [lia..|]. iIntros (b bi bc) "Hb Hbi Hbc".
  iApply "HΦ". iExists b, bi, bc.
  rewrite length_replicate, Z2Nat.id by lia. replace (n + 1 - 1) with n by lia.
  iFrame. iPureIntro. split; [done|].
  replace (Z.to_nat (n + 1)) with (Z.to_nat n + 1)%nat by lia.
  rewrite replicate_add. apply last_snoc.
Qed.

(** With a negative capacity there is no buffer. *)
Lemma alloc_negative_run n mm :
  INT_MIN ≤ n < -1 → ∃ mm' i,
    moe_string_alloc None n mm = (Ok (Addr (m_next mm) 0), mm') ∧
    m_objs mm' !! m_next mm = Some (OString (MoeString (Addr i 0) (Some n) (Some (n + 1)))) ∧
    m_objs mm' !! i = Some (OStringInternal (StringInternal NULL (Some 1))).
Proof.
  intros Hn. eexists _, (Pos.succ (m_next mm)).
  assert (Pos.succ (m_next mm) ≠ m_next mm) by lia.
  split; [|split].
  - unfold moe_string_alloc. rewrite (proj2 (Z.eqb_neq n 0)) by lia.
    erewrite bind_run by reflexivity. erewrite bind_run by reflexivity.
    erewrite bind_run by (apply int_add_ok; unfold INT_MIN, INT_MAX in *; lia).
    erewrite bind_run by reflexivity.
    erewrite bind_run by (eapply update_run; [by simplify_map_eq|done]).
    erewrite bind_run.
    2:{ unfold MOE_ALLOC_RANGE, moe_calloc. rewrite (proj2 (Z.ltb_lt (n + 1) 0)) by lia. reflexivity. }
    erewrite bind_run by (eapply update_run; [by simplify_map_eq|done]).
    erewrite bind_run by reflexivity.
    do 3 erewrite bind_run by (eapply update_run; [by simplify_map_eq|done]). reflexivity.
  - by simplify_map_eq.
  - by simplify_map_eq.
Qed.

(** Freeing the string frees all of it. *)
Lemma moe_string_free_spec p l E (Φ : unit → unit → heapProp) :
  is_string p l ⊢ Φ tt tt -∗ hwp (moe_string_free p) tt E Φ.
Proof.
  iIntros "(%b & %bi & %bc & %Hp & Hb & Hbi & Hbc) HΦ".
  destruct Hp as [-> Hl]. unfold moe_string_free.
  rewrite bool_decide_false by done.
  h_load "Hb". h_load "Hbi". h_ret. h_ret. h_store "Hbi".
  change (1 + -1 <=? 0) with true. cbn.
  h_load "Hb". h_load "Hbi". h_free "Hbc". h_free "Hbi". iApply (hwp_MOE_FREE with "Hb HΦ").
Qed.

Lemma string_chars_spec p l E (Φ : list Z → unit → heapProp) :
  is_string p l ⊢ (is_string p l -∗ Φ l tt) -∗ hwp (string_chars p) tt E Φ.
Proof.
  iIntros "(%b & %bi & %bc & %Hp & Hb & Hbi & Hbc) HΦ".
  destruct Hp as [-> Hl]. unfold string_chars, moe_string_get.
  h_bind. iApply (hwp_output _ tt). { intros mm. exists mm. split; [apply MOE_ASSERT_true|done]. }
  h_load "Hb". h_load "Hbi". h_ret. h_load "Hbc".
  iApply "HΦ". iExists b, bi, bc. by iFrame.
Qed.

(** Access to the buffer: the array, to be given back with the same length and a
    terminator. *)
Lemma moe_string_get_spec p l E (Φ : ptr → unit → heapProp) :
  is_string p l ⊢
  (∀ bc, bc ↦ OChars l -∗
    (∀ l', ⌜ length l' = length l ∧ last l' = Some 0 ⌝ → bc ↦ OChars l' -∗ is_string p l') -∗
    Φ (Addr bc 0) tt) -∗
  hwp (moe_string_get p) tt E Φ.
Proof.
  iIntros "(%b & %bi & %bc & %Hp & Hb & Hbi & Hbc) HΦ".
  destruct Hp as [-> Hl]. unfold moe_string_get.
  h_bind. iApply (hwp_output _ tt). { intros mm. exists mm. split; [apply MOE_ASSERT_true|done]. }
  h_load "Hb". h_load "Hbi". iApply hwp_ret. iApply ("HΦ" with "Hbc").
  iIntros (l' Hl') "Hbc". destruct Hl' as [<- ?]. iExists b, bi, bc. by iFrame.
Qed.

(** The length member. *)
Lemma string_length_spec p l E (Φ : moe_string_t → unit → heapProp) :
  is_string p l ⊢
  (∀ s, ⌜ length_ s = Some (Z.of_nat (length l) - 1) ⌝ → is_string p l -∗ Φ s tt) -∗
  hwp (load p) tt E Φ.
Proof.
  iIntros "(%b & %bi & %bc & %Hp & Hb & H) HΦ". destruct Hp as [-> Hl].
  iApply (hwp_load with "Hb"); [done|]. iIntros "Hb". iApply "HΦ"; [done|].
  iExists b, bi, bc. by iFrame.
Qed.

(** A C string argument made of a string of the heap. *)
Lemma terminated_last l : last l = Some 0 → terminated l.
Proof. intros Hl. unfold terminated. apply last_Some in Hl as [l' ->]. set_solver. Qed.

Lemma cstring_run {S} l (s : S) : terminated l → cstring l s = (Ok (c_str l), s).
Proof.
  intros Hl. unfold cstring. pose proof (strlen_spec l Hl) as Hs. rewrite Hs. cbn.
  by rewrite <-(c_str_strlen _ _ Hs).
Qed.

Lemma is_string_last p l : is_string p l ⊢ ⌜ last l = Some 0 ⌝.
Proof. iIntros "(%b & %bi & %bc & %Hp & H)". iPureIntro. apply Hp. Qed.

Lemma is_string_not_null p l : is_string p l ⊢ ⌜ p ≠ NULL ⌝.
Proof. iIntros "(%b & %bi & %bc & %Hp & H)". iPureIntro. by destruct Hp as [-> _]. Qed.

Lemma string_text_spec p l E (Φ : list Z → unit → heapProp) :
  is_string p l ⊢ (is_string p l -∗ Φ (c_str l) tt) -∗ hwp (string_text p) tt E Φ.
Proof.
  iIntros "Hp HΦ". iDestruct (is_string_last with "Hp") as %Hl. unfold string_text.
  h_bind. iApply (string_chars_spec with "Hp"). iIntros "Hp".
  iApply (hwp_output _ (c_str l)).
  { intros mm. exists mm. by rewrite cstring_run by by apply terminated_last. }
  by iApply "HΦ".
Qed.
End string_facts.
