(* ===== verification/ToolFacts.v ===== *)
(** * The data of the tool on the heap: what proc_macro.c, lines 12 to 274, promises

    Tokens, token streams and derived structures own their parts: each has an
    abstract value, and an assertion that says that a pointer represents it. *)
From S2P Require Import Prelude CStd MoeList Heap MoeString ProcMacro HeapLogic StringFacts.
From Stdlib Require Import SpecFloat.

(** ** Tokens *)

(** The texts are the arrays of the strings, with their terminator. *)
Inductive tok : Type :=
  | TIdent (l : list Z)
  | TString (l : list Z)
  | TPunct (c : Z)
  | TInt (n : Z)
  | TFloat (f : spec_float).

Definition tok_type (t : tok) : moe_token_type_t :=
  match t with
  | TIdent _ => MOE_TOKEN_IDENTIFIER
  | TString _ => MOE_TOKEN_STRING_LITERAL
  | TPunct _ => MOE_TOKEN_PUNCTUATION
  | TInt _ => MOE_TOKEN_INT_LITERAL
  | TFloat _ => MOE_TOKEN_FLOAT_LITERAL
  end.

(** The member of the union a token stores. *)
Definition is_value (v : moe_token_value) (t : tok) : heapProp :=
  match t with
  | TIdent l | TString l => ∃ p, ⌜⌜ v = str_value p ⌝⌝ ∗ is_string p l
  | TPunct n | TInt n => ⌜⌜ v = int_value n ⌝⌝
  | TFloat f => ⌜⌜ v = float_value f ⌝⌝
  end.

Definition is_token (p : ptr) (t : tok) : heapProp :=
  ∃ b v, ⌜⌜ p = Addr b 0 ⌝⌝ ∗ b ↦ OToken (MoeToken v (Some (tok_type t))) ∗ is_value v t.

Section token_facts.
Context `{!BuildConfig}.

Lemma new_token_refines ty v (sp : M unit tok) :
  (∀ t, sp tt = (Ok t, tt) → tok_type t = ty) →
  href v sp tt is_value ⊢ href (new_token ty v) sp tt is_token.
Proof.
  iIntros (Hty) "Hv". unfold new_token. h_alloc (b) "Hb". h_update "Hb".
  iApply hwp_bind. iApply (hwp_wand with "Hv"); [done|].
  iIntros (w []) "(%t & %Ht & Hw)". h_update "Hb". iApply hwp_ret. iExists t.
  iSplit; [done|]. iExists b, w. rewrite (Hty t Ht). by iFrame.
Qed.

Lemma create_identifier_refines s n :
  ⊢ href (moe_token_create_identifier (Some s) n) (l ← string_of s n; ret (TIdent l)) tt is_token.
Proof.
  unfold moe_token_create_identifier. iApply new_token_refines.
  { by intros t (l & [] & _ & [= <-])%bind_Ok. }
  iApply href_bind. { iApply moe_string_alloc_refines. }
  iIntros (p l []) "Hp". iApply href_ret. iExists p. by iFrame.
Qed.

Lemma create_string_literal_refines s n :
  ⊢ href (moe_token_create_string_literal (Some s) n) (l ← string_of s n; ret (TString l)) tt is_token.
Proof.
  unfold moe_token_create_string_literal. iApply new_token_refines.
  { by intros t (l & [] & _ & [= <-])%bind_Ok. }
  iApply href_bind. { iApply moe_string_alloc_refines. }
  iIntros (p l []) "Hp". iApply href_ret. iExists p. by iFrame.
Qed.

Lemma create_punctuation_refines n :
  ⊢ href (moe_token_create_punctuation n) (ret (TPunct n)) tt is_token.
Proof. iApply new_token_refines; [by intros t [= <-]|]. by iApply href_ret. Qed.

Lemma create_int_literal_refines n :
  ⊢ href (moe_token_create_int_literal n) (ret (TInt n)) tt is_token.
Proof. iApply new_token_refines; [by intros t [= <-]|]. by iApply href_ret. Qed.

Lemma create_float_literal_refines f :
  ⊢ href (moe_token_create_float_literal f) (ret (TFloat f)) tt is_token.
Proof. iApply new_token_refines; [by intros t [= <-]|]. by iApply href_ret. Qed.

(** The tokens whose value is a string. *)
Definition has_text (ty : moe_token_type_t) : bool :=
  match ty with MOE_TOKEN_IDENTIFIER | MOE_TOKEN_STRING_LITERAL => true | _ => false end.

Lemma has_text_spec ty :
  bool_decide (ty = MOE_TOKEN_IDENTIFIER) || bool_decide (ty = MOE_TOKEN_STRING_LITERAL) = has_text ty.
Proof. by destruct ty. Qed.

Lemma moe_token_free_spec p t E (Φ : unit → unit → heapProp) :
  is_token p t ⊢ Φ tt tt -∗ hwp (moe_token_free p) tt E Φ.
Proof.
  iIntros "(%b & %v & -> & Hb & Hv) HΦ". unfold moe_token_free.
  rewrite bool_decide_false by done. h_load "Hb". h_ret. rewrite has_text_spec.
  destruct t as [l|l|c|n|f]; cbn.
  1-2: iDestruct "Hv" as "(%p & -> & Hp)"; h_ret; h_bind;
    iApply (moe_string_free_spec with "Hp"); iApply (hwp_MOE_FREE with "Hb HΦ").
  all: iDestruct "Hv" as "->"; h_ret; iApply (hwp_MOE_FREE with "Hb HΦ").
Qed.

Lemma moe_token_print_spec p t E (Φ : unit → unit → heapProp) :
  is_token p t ⊢ (is_token p t -∗ Φ tt tt) -∗ hwp (moe_token_print p) tt E Φ.
Proof.
  iIntros "(%b & %v & -> & Hb & Hv) HΦ". unfold moe_token_print.
  rewrite bool_decide_false by done. h_load "Hb". h_ret.
  destruct t as [l|l|c|n|f]; cbn.
  1-2: iDestruct "Hv" as "(%p & -> & Hp)"; h_ret; h_bind;
    iApply (string_text_spec with "Hp"); iIntros "Hp"; h_printf; iApply "HΦ";
    iExists b, (str_value p); iFrame; by iSplit.
  all: iDestruct "Hv" as "->"; h_ret; h_printf; iApply "HΦ"; iExists b, _; by iFrame.
Qed.
End token_facts.

(** ** Token streams *)

(** The first and the last node of a stream, or the head [q] when it is empty. *)
Definition first_of (bs : list positive) (q : ptr) : ptr :=
  match bs with [] => q | b :: _ => Addr b 0 end.
Definition last_of (bs : list positive) (q : ptr) : ptr :=
  match last bs with None => q | Some b => Addr b 0 end.

(** The node [b] of the token [t], with its links. *)
Definition stream_node (b : positive) (nx pv : ptr) (t : tok) : heapProp :=
  ∃ p, b ↦ OTokenStreamNode (TokenStreamNode (ListNode nx pv) p) ∗ is_token p t.

(** The nodes [bs] of the tokens [ts], between [p] and [q]. *)
Fixpoint stream_seg (p : ptr) (bs : list positive) (ts : list tok) (q : ptr) : heapProp :=
  match bs, ts with
  | [], [] => emp
  | b :: bs, t :: ts => stream_node b (first_of bs q) p t ∗ stream_seg (Addr b 0) bs ts q
  | _, _ => False
  end.

Lemma stream_seg_snoc p bs b ts t q :
  stream_seg p (bs ++ [b]) (ts ++ [t]) q ⊣⊢
  stream_seg p bs ts (Addr b 0) ∗ stream_node b q (last_of bs p) t.
Proof.
  revert p ts. induction bs as [|b' bs IH]; intros p ts.
  - destruct ts as [|t' ts]; cbn; [by iSplit; iIntros "[H1 H2]"; iFrame|].
    iSplit; [|by iIntros "[[] _]"]. iIntros "[H1 H]". destruct ts; iDestruct "H" as "[]".
  - destruct ts as [|t' ts]; cbn.
    { iSplit; [|by iIntros "[[] _]"]. iIntros "[H1 H]". destruct bs; iDestruct "H" as "[]". }
    rewrite IH, assoc by apply _.
    replace (first_of (bs ++ [b]) q) with (first_of bs (Addr b 0)) by by destruct bs.
    replace (last_of (b' :: bs) p) with (last_of bs (Addr b' 0)); [done|].
    unfold last_of. destruct bs as [|c bs]; [done|]. rewrite last_cons_cons.
    by destruct (last_is_Some (c :: bs)) as [_ [? ->]].
Qed.

Lemma stream_seg_length p bs ts q : stream_seg p bs ts q ⊢ ⌜ length bs = length ts ⌝.
Proof.
  revert p ts. induction bs as [|b bs IH]; intros p [|t ts]; cbn; [by iIntros "_"|by iIntros "[]"..|].
  iIntros "[_ H]". iDestruct (IH with "H") as %->. done.
Qed.

(** A derived structure's record, with the links of its stream. *)
Definition derived_obj (nm : ptr) (num : Z) (bi : positive) (nx pv : ptr) : obj :=
  ODerivedStruct (DerivedStruct nm (Some num) (Addr bi 0) (ListNode nx pv)).

(** The record [b], and the stream of the tokens [ts] it is the head of. *)
Definition is_stream (b : positive) (nm : ptr) (num : Z) (bi : positive) (ts : list tok) : heapProp :=
  ∃ bs, b ↦ derived_obj nm num bi (first_of bs (Addr b 24)) (last_of bs (Addr b 24)) ∗
    stream_seg (Addr b 24) bs ts (Addr b 24).

Section stream_facts.
Context `{!BuildConfig}.

Lemma last_of_snoc bs b q : last_of (bs ++ [b]) q = Addr b 0.
Proof. unfold last_of. by rewrite last_snoc. Qed.

Lemma first_of_snoc bs b q : first_of (bs ++ [b]) q = first_of bs (Addr b 0).
Proof. by destruct bs. Qed.

(** One field access of a node. *)
Ltac h_node lem H := h_step (iApply (lem with H); [reflexivity|]; iIntros H); cbn.

Lemma add_token_spec b nm num bi ts p t E (Φ : unit → unit → heapProp) :
  is_stream b nm num bi ts ∗ is_token p t ⊢
  (is_stream b nm num bi (ts ++ [t]) -∗ Φ tt tt) -∗
  hwp (moe_derive_struct_metadata_add_token (metadata_of (Addr b 0)) p) tt E Φ.
Proof.
  iIntros "[(%bs & Hb & Hs) Ht] HΦ".
  unfold moe_derive_struct_metadata_add_token, metadata_of, ptr_add, metadata_offset.
  change (0 + 24) with 24. rewrite bool_decide_false by done.
  unfold moe_struct_metadata_token_stream_node_alloc. h_alloc (n) "Hn". h_update "Hn".
  unfold moe_list_node_init. h_node hwp_store_next "Hn". h_node hwp_store_prev "Hn". h_ret.
  unfold moe_list_add_tail. h_bind. iApply (hwp_output _ tt).
  { intros mm. exists mm. split; [apply MOE_ASSERT_true|done]. }
  h_node hwp_load_prev "Hb". h_node hwp_store_prev "Hb". h_node hwp_store_prev "Hn".
  h_node hwp_store_next "Hn".
  iDestruct (stream_seg_length with "Hs") as %Hlen.
  destruct bs as [|b' bs _] using rev_ind.
  - destruct ts; [|done]. cbn. h_node hwp_store_next "Hb". iApply "HΦ".
    iExists [n]. cbn. iFrame.
  - rewrite last_of_snoc, first_of_snoc. destruct ts as [|t' ts _] using rev_ind; [by destruct bs|].
    iDestruct (stream_seg_snoc with "Hs") as "[Hs (%p' & Hb' & Ht')]".
    h_node hwp_store_next "Hb'". iApply "HΦ". iExists ((bs ++ [b']) ++ [n]).
    rewrite last_of_snoc, !first_of_snoc. iFrame "Hb".
    rewrite !stream_seg_snoc, last_of_snoc. iFrame.
Qed.

(** A stream of [n] tokens needs [n] blocks. *)
Lemma stream_seg_size p bs ts q h : holds (stream_seg p bs ts q) h → (length bs ≤ size h)%nat.
Proof.
  revert p ts h. induction bs as [|b bs IH]; intros p [|t ts] h; cbn; [lia|intros []..|].
  intros (h1 & h2 & -> & Hd & (tp & h3 & h4 & -> & Hd' & H3 & _) & Hs%IH).
  change (h3 = {[b := OTokenStreamNode (TokenStreamNode (ListNode (first_of bs q) p) tp)]}) in H3.
  rewrite !map_size_disj_union, H3, map_size_singleton by done. cbn in *. lia.
Qed.

Lemma is_stream_fuel b nm num bi ts E (Φ : nat → unit → heapProp) :
  is_stream b nm num bi ts ⊢
  (∀ fuel, ⌜(length ts < fuel)%nat⌝ → is_stream b nm num bi ts -∗ Φ fuel tt) -∗
  hwp (gets list_fuel) tt E Φ.
Proof.
  apply hwp_list_fuel. intros h [bs Hs].
  assert (length bs = length ts) as <-.
  { destruct Hs as (h1 & h2 & -> & Hd & _ & Hs). destruct (stream_seg_length (Addr b 24) bs ts (Addr b 24)) as [Hl].
    exact (Hl _ Hs). }
  destruct Hs as (h1 & h2 & -> & Hd & _ & Hs%stream_seg_size).
  rewrite map_size_disj_union by done. lia.
Qed.

Lemma clear_iterator_spec n nx pv t E (Φ : unit → unit → heapProp) :
  stream_node n nx pv t ⊢ Φ tt tt -∗
  hwp (moe_derive_struct_metadata_clear_iterator (Addr n 0) tt) tt E Φ.
Proof.
  iIntros "(%p & Hn & Ht) HΦ". unfold moe_derive_struct_metadata_clear_iterator,
    moe_struct_metadata_token_stream_node_free, token_stream_entry, ptr_add.
  change (0 + -0) with 0. rewrite bool_decide_false by done. h_load "Hn".
  h_bind. iApply (moe_token_free_spec with "Ht"). iApply (hwp_MOE_FREE with "Hn HΦ").
Qed.

Lemma destroy_loop_spec fuel b p bs ts E (Φ : unit → unit → heapProp) :
  (length ts < fuel)%nat →
  stream_seg p bs ts (Addr b 24) ⊢ Φ tt tt -∗
  hwp (loop fuel (λ node,
    if bool_decide (node = Addr b 24) then ret (inr tt) else
    n ← load_next node;
    moe_derive_struct_metadata_clear_iterator node tt;;
    ret (inl n)) (first_of bs (Addr b 24))) tt E Φ.
Proof.
  revert p bs ts. induction fuel as [|fuel IH]; [lia|]. intros p bs ts Hf.
  destruct bs as [|n bs], ts as [|t ts]; cbn in *; try (by iIntros "[]").
  { iIntros "_ HΦ". rewrite bool_decide_true by done. h_ret. by iApply hwp_ret. }
  iIntros "[(%tp & Hn & Ht) Hs] HΦ". rewrite bool_decide_false by done.
  h_node hwp_load_next "Hn". h_bind. iApply (clear_iterator_spec with "[Hn Ht]").
  { iExists tp. iFrame. }
  h_ret. iApply (IH with "Hs HΦ"). lia.
Qed.

Lemma metadata_destroy_spec b nm num bi ts E (Φ : unit → unit → heapProp) :
  is_stream b nm num bi ts ⊢
  (∀ nx pv, b ↦ derived_obj nm num bi nx pv -∗ Φ tt tt) -∗
  hwp (moe_struct_metadata_destroy (metadata_of (Addr b 0))) tt E Φ.
Proof.
  iIntros "Hs HΦ". unfold moe_struct_metadata_destroy, metadata_of, ptr_add, metadata_offset.
  change (0 + 24) with 24. rewrite bool_decide_false by done.
  h_bind. iApply (is_stream_fuel with "Hs"). iIntros (fuel Hf) "(%bs & Hb & Hs)".
  unfold moe_list_iterate_safe. h_node hwp_load_next "Hb".
  iApply (destroy_loop_spec with "Hs"); [done|]. by iApply "HΦ".
Qed.
End stream_facts.

(** ** Iterating over a stream *)

(** A state whose nodes are the nodes of its memory. *)
Class NodeMem (S R : Type) `{!Lens S mem, !MemState S R, !NodeStore S} :=
  load_next_zoom p (s : S) : load_next p s = zoom (load_next (S := mem) p) s.

#[export] Instance mem_node_mem : NodeMem mem unit.
Proof. intros p s. unfold zoom. cbn. by destruct (load_next p s). Qed.

(** One node of a segment, to be given back. *)
Lemma stream_seg_lookup p bs ts q i n t :
  bs !! i = Some n → ts !! i = Some t →
  stream_seg p bs ts q ⊢ ∃ pv,
    stream_node n (first_of (drop (Datatypes.S i) bs) q) pv t ∗
    (stream_node n (first_of (drop (Datatypes.S i) bs) q) pv t -∗ stream_seg p bs ts q).
Proof.
  revert p bs ts. induction i as [|i IH]; intros p [|b bs] [|t' ts]; cbn; try done.
  - intros [= <-] [= <-]. iIntros "[Hn Hs]". iExists p. iFrame. rewrite drop_0. iFrame.
    by iIntros "$".
  - intros Hb Ht. iIntros "[Hn Hs]". iDestruct (IH with "Hs") as "(%pv & Hi & Hs)"; [done..|].
    iExists pv. iFrame. by iIntros "Hi"; iApply "Hs".
Qed.

Section iterate.
Context {S R : Type} `{!Lens S mem, !MemState S R, !NodeStore S, !NodeMem S R}.
Context (b : positive) (nm : ptr) (num : Z) (bi : positive) (bs : list positive) (ts : list tok).
#[local] Abbreviation hd := (Addr b 24).

(** The head and the nodes. *)
Definition stream_at : heapProp :=
  b ↦ derived_obj nm num bi (first_of bs hd) (last_of bs hd) ∗ stream_seg hd bs ts hd.

Lemma load_next_at i r E (Φ : ptr → R → heapProp) :
  (i ≤ length bs)%nat →
  stream_at ⊢ (stream_at -∗ Φ (first_of (drop i bs) hd) r) -∗
  hwp (load_next (S := S) (last_of (take i bs) hd)) r E Φ.
Proof using NodeMem0.
  iIntros (Hi) "[Hb Hs] HΦ".
  iApply hwp_ext; [apply load_next_zoom|]. iApply hwp_zoom.
  destruct i as [|i].
  - rewrite take_0, drop_0. iApply (hwp_load_next with "Hb"); [reflexivity|]. iIntros "Hb".
    iApply "HΦ". iFrame.
  - iDestruct (stream_seg_length with "Hs") as %Hl.
    destruct (lookup_lt_is_Some_2 bs i) as [n Hn]; [lia|].
    destruct (lookup_lt_is_Some_2 ts i) as [t Ht]; [lia|].
    rewrite (take_S_r _ _ n) by done. unfold last_of at 2. rewrite last_snoc.
    iDestruct (stream_seg_lookup with "Hs") as "(%pv & (%p & Hn & Ht) & Hs)"; [done..|].
    iApply (hwp_load_next with "Hn"); [reflexivity|]. iIntros "Hn". iApply "HΦ". iFrame "Hb".
    iApply "Hs". iExists p. iFrame.
Qed.

Lemma iterator_loop_at {A B} fuel i (body : ptr → A → M S A) (sbody : tok → B → M R B)
    (I : A → B → heapProp) a c r :
  (∀ n nx pv t a c r, stream_node n nx pv t ∗ I a c ⊢
     href (body (Addr n 0) a) (sbody t c) r (λ a' c', stream_node n nx pv t ∗ I a' c')) →
  (i ≤ length bs)%nat → (length bs - i < fuel)%nat → length bs = length ts →
  stream_at ∗ I a c ⊢
  href (iterator_loop fuel body (ListIterator (last_of (take i bs) hd) hd) a)
    (fold_each sbody (drop i ts) c) r (λ a' c', stream_at ∗ I a' c').
Proof using NodeMem0.
  intros Hbody. revert i a c r. induction fuel as [|fuel IH]; [lia|]. intros i a c r Hi Hf Hlen.
  iIntros "[Hs HI]". unfold iterator_loop. cbn [loop]. unfold moe_list_iterator_next at 1.
  cbn [current it_head]. h_assoc. iApply href_silent.
  iApply (load_next_at with "Hs"); [done|]. iIntros "Hs". iSplit; [done|].
  iApply href_ret_bind. cbn.
  destruct (drop i bs) as [|n bs'] eqn:Hd; cbn [first_of].
  - rewrite bool_decide_true by done. cbn.
    assert (drop i ts = []) as ->.
    { apply drop_ge. apply (f_equal length) in Hd. rewrite length_drop in Hd. cbn in Hd. lia. }
    iApply href_ret_bind. iApply href_ret. iFrame.
  - rewrite bool_decide_false by done. cbn.
    assert (bs !! i = Some n) as Hn by by rewrite <-(Nat.add_0_r i), <-lookup_drop, Hd.
    pose proof (lookup_lt_Some _ _ _ Hn).
    destruct (lookup_lt_is_Some_2 ts i) as [t Ht]; [lia|].
    rewrite (drop_S _ _ _ Ht). cbn. h_assoc. unfold moe_list_iterator_get. cbn.
    iDestruct "Hs" as "[Hb Hs]".
    iDestruct (stream_seg_lookup with "Hs") as "(%pv & Hn & Hs)"; [done..|].
    iApply (href_bind with "[Hn HI]"). { iApply Hbody. iFrame. }
    iIntros (a' c' r') "[Hn HI]". iDestruct ("Hs" with "Hn") as "Hs".
    replace (Addr n 0) with (last_of (take (Datatypes.S i) bs) hd).
    2:{ rewrite (take_S_r _ _ n) by done. apply last_of_snoc. }
    iApply (IH with "[Hb Hs HI]"); [lia..|iFrame].
Qed.
End iterate.

(** A loop over the tokens of a stream refines the fold over the tokens. *)
Lemma iterator_loop_refines {S R} `{!Lens S mem, !MemState S R, !NodeStore S, !NodeMem S R} {A B}
    fuel (body : ptr → A → M S A) (sbody : tok → B → M R B) I b nm num bi ts a c (r : R) :
  (∀ n nx pv t a c r, stream_node n nx pv t ∗ I a c ⊢
     href (body (Addr n 0) a) (sbody t c) r (λ a' c', stream_node n nx pv t ∗ I a' c')) →
  (length ts < fuel)%nat →
  is_stream b nm num bi ts ∗ I a c ⊢
  href (iterator_loop fuel body (moe_list_iterator_init (Addr b 24)) a)
    (fold_each sbody ts c) r (λ a' c', is_stream b nm num bi ts ∗ I a' c').
Proof.
  iIntros (Hbody Hf) "[(%bs & Hb & Hs) HI]".
  iDestruct (stream_seg_length with "Hs") as %Hl.
  iApply (href_wand with "[Hb Hs HI]").
  { iApply (iterator_loop_at b nm num bi bs ts fuel 0 body sbody I); [done|lia..|]. iFrame. }
  iIntros (a' c') "[[Hb Hs] HI]". iFrame.
Qed.

(** ** Derive items *)

(** An item with the handler [x] and, as the parser makes them, no arguments. *)
Definition is_item (it : moe_derive_item_t) (x : list Z) : heapProp :=
  ∃ ba, ⌜⌜ args it = Addr ba 0 ∧ arg_num it = 0 ⌝⌝ ∗
    is_string (derive_handler_name it) x ∗ ba ↦ ODeriveArgs [].

(** The array [bi] of the items, whose first ones have the handlers [xs]. *)
Definition is_items (bi : positive) (xs : list (list Z)) : heapProp :=
  ∃ its, ⌜⌜ length its = length xs ∧ (length xs ≤ 8)%nat ⌝⌝ ∗
    bi ↦ ODeriveItems (its ++ replicate (8 - length xs) derive_item_zero) ∗
    [∗ list] it;x ∈ its;xs, is_item it x.

(** One access of an element of an array. *)
Ltac elem_side Hlook :=
  lazymatch goal with
  | |- elems _ = Some _ => reflexivity
  | |- 0 < elem_size => reflexivity
  | |- Addr _ _ = Addr _ _ => reflexivity
  | |- _ !! _ = Some _ => apply Hlook
  | |- _ ≤ _ => lia
  | |- _ ≤ _ < _ => rewrite length_app; cbn; lia
  end.
Tactic Notation "h_load_elem" constr(H) constr(Hlook) :=
  h_bind; iApply (hwp_load_elem with H); [elem_side Hlook..|iIntros H]; cbn.
Tactic Notation "h_store_elem" constr(H) constr(Hins) :=
  h_step (iApply (hwp_store_elem with H); [elem_side Hins..|iIntros H]); cbn; rewrite Hins.

Section item_facts.
Context `{!BuildConfig}.

Lemma item_create_refines bi xs s p :
  (length xs < 8)%nat → p = Addr bi (Z.of_nat (length xs) * 24) →
  is_items bi xs ⊢
  href (moe_derive_item_create p (Some s) 0) (string_of s 0) tt (λ _ l, is_items bi (xs ++ [l])).
Proof.
  iIntros (Hl ->) "(%its & %Hi & Hbi & His)". destruct Hi as [Hi _].
  unfold moe_derive_item_create. rewrite bool_decide_false by done.
  iApply hwp_bind. iApply (hwp_wand with "[]"); [|iApply moe_string_alloc_refines|]; [done|].
  iIntros (nm []) "(%l & %Hs & Hnm)".
  replace (8 - length xs)%nat with (Datatypes.S (7 - length xs)) by lia. cbn [replicate].
  assert (∀ x, (its ++ x :: replicate (7 - length xs) derive_item_zero) !! Z.to_nat (length xs) = Some x)
    as Hlook by (intros; apply lookup_Z_middle; lia).
  assert (∀ x y, <[Z.to_nat (length xs) := y]> (its ++ x :: replicate (7 - length xs) derive_item_zero)
    = its ++ y :: replicate (7 - length xs) derive_item_zero) as Hins.
  { intros x y. rewrite Nat2Z.id, <-Hi, <-(Nat.add_0_r (length its)). by rewrite insert_app_r. }
  h_load_elem "Hbi" Hlook. h_store_elem "Hbi" Hins.
  h_load_elem "Hbi" Hlook. h_store_elem "Hbi" Hins.
  h_bind. iApply hwp_MOE_ALLOC_RANGE; [done|]. iIntros (ba) "Hba".
  h_load_elem "Hbi" Hlook. h_store_elem "Hbi" Hins.
  iExists l. iSplit; [done|]. iExists (its ++ [DeriveItem nm 0 (Addr ba 0)]).
  rewrite !length_app. cbn [length].
  replace (8 - (length xs + 1))%nat with (7 - length xs)%nat by lia.
  rewrite <-app_assoc. iFrame "Hbi". iSplit; [iPureIntro; lia|].
  iApply (big_sepL2_app with "His"). cbn. iSplit; [|done]. iExists ba. by iFrame.
Qed.

Lemma item_destroy_spec bi l i it x p E (Φ : unit → unit → heapProp) :
  0 ≤ i → l !! Z.to_nat i = Some it → p = Addr bi (i * 24) →
  bi ↦ ODeriveItems l ∗ is_item it x ⊢ (bi ↦ ODeriveItems l -∗ Φ tt tt) -∗
  hwp (moe_derive_item_destroy p) tt E Φ.
Proof.
  iIntros (Hi Hl ->) "[Hbi (%ba & %Ha & Hx & Hba)] HΦ". destruct Ha as [Ha Hn].
  unfold moe_derive_item_destroy. rewrite bool_decide_false by done.
  h_load_elem "Hbi" Hl. h_bind. iApply (moe_string_free_spec with "Hx").
  h_load_elem "Hbi" Hl. rewrite Hn. h_ret. h_load_elem "Hbi" Hl. rewrite Ha.
  iApply (hwp_MOE_FREE with "Hba"). by iApply "HΦ".
Qed.
End item_facts.

(** ** Derived structures *)

(** The record [b] and all it owns: its name, its handlers and its tokens. *)
Definition is_derived (b : positive) (nm : ptr) (num : Z) (bi : positive)
    (name : list Z) (xs : list (list Z)) (ts : list tok) : heapProp :=
  is_stream b nm num bi ts ∗ is_string nm name ∗ is_items bi xs.

Section derived_facts.
Context `{!BuildConfig}.

Lemma derived_alloc_refines s :
  ⊢ href (moe_derived_struct_alloc (Some s) 8) (string_of s 0) tt
      (λ p l, ∃ b nm bi, ⌜⌜ p = Addr b 0 ⌝⌝ ∗ is_derived b nm 8 bi l [] []).
Proof.
  unfold moe_derived_struct_alloc. h_alloc (b) "Hb".
  iApply hwp_bind. iApply (hwp_wand with "[]"); [|iApply moe_string_alloc_refines|]; [done|].
  iIntros (nm []) "(%l & %Hs & Hnm)". h_update "Hb". h_update "Hb".
  h_bind. iApply hwp_MOE_ALLOC_RANGE; [done|]. iIntros (bi) "Hbi". h_update "Hb".
  unfold moe_struct_metadata_init, metadata_of, ptr_add, metadata_offset, moe_list_node_init.
  change (0 + 24) with 24.
  h_step (iApply (hwp_store_next with "Hb"); [reflexivity|]; iIntros "Hb"); cbn.
  h_step (iApply (hwp_store_prev with "Hb"); [reflexivity|]; iIntros "Hb"); cbn.
  iApply hwp_ret. iExists l. iSplit; [done|]. iExists b, nm, bi. iSplit; [done|].
  iFrame "Hnm". iSplitL "Hb"; [by iExists []; iFrame|].
  iExists []. cbn. iFrame. iPureIntro. lia.
Qed.

Lemma free_items_loop b nm num bi (its : list moe_derive_item_t) xs l nx pv i E
    (Φ : unit → unit → heapProp) :
  (∀ j it, its !! j = Some it → l !! (i + j)%nat = Some it) →
  b ↦ derived_obj nm num bi nx pv ∗ bi ↦ ODeriveItems l ∗ ([∗ list] it;x ∈ its;xs, is_item it x) ⊢
  (b ↦ derived_obj nm num bi nx pv ∗ bi ↦ ODeriveItems l -∗ Φ tt tt) -∗
  hwp (for_each (λ i,
    d ← load (Addr b 0);
    moe_derive_item_destroy (ptr_add (derive_items d) (i * 24))) (seqZ i (length xs))) tt E Φ.
Proof.
  revert i xs. induction its as [|it its IH]; intros i xs Hl; iIntros "(Hb & Hbi & His) HΦ".
  { iDestruct (big_sepL2_nil_inv_l with "His") as %->. iApply hwp_ret. iApply "HΦ". iFrame. }
  iDestruct (big_sepL2_cons_inv_l with "His") as (x xs' ->) "[Hi His]".
  cbn [length]. rewrite seqZ_cons by lia. cbn [for_each]. h_assoc. h_load "Hb".
  h_bind. iApply (item_destroy_spec bi l i it with "[$Hbi $Hi]"); [lia| |f_equal; lia|].
  { rewrite Nat2Z.id. rewrite <-(Nat.add_0_r i). by apply Hl. }
  iIntros "Hbi". replace (Z.succ i) with (Z.of_nat (Datatypes.S i)) by lia.
  replace (Z.pred (Z.of_nat (Datatypes.S (length xs')))) with (Z.of_nat (length xs')) by lia.
  iApply (IH with "[$Hb $Hbi $His] HΦ").
  intros j it' Hj. rewrite Nat.add_succ_l, <-Nat.add_succ_r. by apply Hl.
Qed.

Lemma derived_free_spec b nm bi name xs ts E (Φ : unit → unit → heapProp) :
  is_derived b nm (Z.of_nat (length xs)) bi name xs ts ⊢
  Φ tt tt -∗ hwp (moe_derived_struct_free (Addr b 0)) tt E Φ.
Proof.
  iIntros "((%bs & Hb & Hs) & Hnm & (%its & %Hi & Hbi & His)) HΦ". destruct Hi as [Hi _].
  unfold moe_derived_struct_free. rewrite bool_decide_false by done.
  h_load "Hb". h_bind. iApply (moe_string_free_spec with "Hnm"). h_load "Hb". h_ret.
  h_bind. iApply (free_items_loop _ _ _ _ its _ _ _ _ 0 with "[$Hb $Hbi $His]").
  { intros j it Hj. by apply lookup_app_l_Some. }
  iIntros "[Hb Hbi]". h_load "Hb". h_free "Hbi".
  h_bind. iApply (metadata_destroy_spec with "[Hb Hs]"). { iExists bs. iFrame. }
  iIntros (nx pv) "Hb". iApply (hwp_MOE_FREE with "Hb HΦ").
Qed.

Lemma fold_each_tt (l : list tok) (u : unit) :
  fold_each (λ (_ : tok) (_ : unit), ret tt) l tt u = (Ok tt, u).
Proof. revert u. induction l as [|x l IH]; intros u; [done|exact (IH u)]. Qed.

Lemma metadata_print_spec b nm num bi ts E (Φ : unit → unit → heapProp) :
  is_stream b nm num bi ts ⊢ (is_stream b nm num bi ts -∗ Φ tt tt) -∗
  hwp (moe_derive_struct_metadata_print (metadata_of (Addr b 0))) tt E Φ.
Proof.
  iIntros "Hs HΦ". unfold moe_derive_struct_metadata_print, metadata_of, ptr_add, metadata_offset.
  change (0 + 24) with 24. rewrite bool_decide_false by done.
  h_bind. iApply (is_stream_fuel with "Hs"). iIntros (fuel Hf) "Hs".
  iApply (hwp_wand with "[Hs]").
  2:{ iApply (iterator_loop_refines fuel _ (λ _ _, ret tt) (λ _ _, emp%I) _ _ _ _ ts tt tt tt);
        [|done|by iFrame].
      intros n nx pv t [] [] []. iIntros "[(%p & Hn & Ht) _]". iApply href_of_hwp.
      unfold entry_token, token_stream_entry, ptr_add. change (0 + -0) with 0.
      h_load "Hn". h_ret. iApply (moe_token_print_spec with "Ht"). iIntros "Ht". iSplit; [|done].
      iExists p. iFrame. }
  - intros e [] He. by rewrite fold_each_tt in He.
  - iIntros ([] []) "(%u & _ & [Hs _])". by iApply "HΦ".
Qed.
End derived_facts.
