(* ===== verification/ParserSpec.v ===== *)
(** * The parser without the heap, and the refinement

    [spec_struct] parses a derived structure into an [ast], with the lexer as its
    only state: no pointers, no ownership, no freeing. The parser of [Parser.v]
    refines it: it ends on the same error or returns a structure that represents
    the same [ast], and leaves nothing behind on the heap when it returns [NULL]. *)
From S2P Require Import Prelude CStd Lexer MoeList Heap MoeString ProcMacro Parser HeapLogic StringFacts.
From S2P Require Import ToolFacts.
From Stdlib Require Import SpecFloat.

(** ** The abstract parser *)

Record ast : Type := Ast {
  a_name : list Z;
  a_handlers : list (list Z);
  a_tokens : list tok;
}.

Section spec.
Context `{!BuildConfig}.

Definition spec_next : M stb_lexer unit :=
  MOE_ASSERT (r ← stb_c_lexer_get_token; ret (negb (r =? 0))).
Definition spec_expect_token (t : Z) : M stb_lexer unit :=
  MOE_ASSERT (x ← gets lex_token; ret (x =? t)).
Definition spec_expect (t : Z) : M stb_lexer unit := spec_next;; spec_expect_token t.
Definition spec_token_is (t : Z) : M stb_lexer bool := x ← gets lex_token; ret (x =? t).
Definition spec_string_is (a : list Z) : M stb_lexer bool :=
  s ← lex_string_arg; r ← of_option ReadOutOfBounds (strcmp s a); ret (r =? 0).
Definition spec_cstring : M stb_lexer (list Z) := s ← lex_string_arg; cstring s.

Definition spec_args : M stb_lexer unit :=
  spec_expect CLEX_id;; spec_expect ($"(");; spec_expect CLEX_id;; spec_expect ($",");;
  spec_expect CLEX_id;; spec_expect ($")").

(** A handler and the argument lists after it: the handler. *)
Definition spec_item : M stb_lexer (list Z) :=
  spec_expect CLEX_id;;
  s ← lex_string_arg;
  l ← zoom (string_of s 0);
  fuel ← gets lex_fuel;
  loop fuel (λ _,
    spec_next;;
    comma ← spec_token_is ($",");
    if comma then spec_args;; ret (inl tt) else ret (inr tt)) tt;;
  ret l.

(** The result code and the handlers found: one with the code [1]. *)
Definition spec_try_derive (name : list Z) : M stb_lexer (Z * list (list Z)) :=
  id ← spec_token_is CLEX_id;
  derives ← (if id then spec_string_is MOE_PROC_MACRO_DERIVES_MACRO_NAME else ret false);
  if negb derives then ret (0, []) else
  spec_expect ($"(");;
  spec_expect CLEX_id;;
  same ← spec_string_is name;
  if negb same then spec_cstring;; ret (-1, []) else
  spec_expect ($",");;
  l ← spec_item;
  spec_next;;
  semicolon ← spec_token_is ($";");
  (if semicolon then spec_next else skip);;
  ret (1, [l]).

Definition spec_derives (name : list Z) (xs : list (list Z)) : M stb_lexer (list (list Z)) :=
  fuel ← gets lex_fuel;
  loop (fuel + 8) (λ xs,
    if negb (Z.of_nat (length xs) <? MOE_PROC_MACRO_MAX_DERIVE_ITEM_NUM) then ret (inr xs) else
    r ← spec_try_derive name;
    if fst r =? 1 then ret (inl (xs ++ snd r))
    else if fst r =? 0 then ret (inr xs)
    else ret (inl xs)) xs.

Definition spec_token : M stb_lexer tok :=
  t ← gets lex_token;
  if t =? CLEX_id then
    s ← lex_string_arg; n ← gets lex_string_len; zoom (l ← string_of s n; ret (TIdent l))
  else if (t =? CLEX_sqstring) || (t =? CLEX_dqstring) then
    s ← lex_string_arg; n ← gets lex_string_len; zoom (l ← string_of s n; ret (TString l))
  else if t =? CLEX_intlit then n ← gets lex_int_number; zoom (ret (TInt (to_int n)))
  else if t =? CLEX_floatlit then r ← gets lex_real_number; zoom (ret (TFloat (to_float r)))
  else zoom (ret (TPunct (to_char t))).

(** The tokens up to the closing brace, after [ts]. *)
Definition spec_body_tokens (fuel : nat) (ts : list tok) : M stb_lexer (list tok) :=
  loop fuel (λ ts,
    spec_next;;
    close ← spec_token_is ($"}");
    if close then ret (inr ts) else
    t ← spec_token; ret (inl (ts ++ [t]))) ts.

Definition spec_body (name : list Z) : M stb_lexer (Z * list tok) :=
  is_typedef ← spec_string_is (chars "typedef" ++ [0]);
  (if is_typedef then spec_next else skip);;
  id ← spec_token_is CLEX_id;
  is_struct ← (if id then
                 s ← spec_string_is (chars "struct" ++ [0]);
                 if s then ret true else spec_string_is (chars "enum" ++ [0])
               else ret false);
  if negb is_struct then ret (0, []) else
  spec_expect CLEX_id;;
  same ← spec_string_is name;
  if negb same then spec_cstring;; ret (-1, []) else
  spec_expect ($"{");;
  fuel ← gets lex_fuel;
  ts ← spec_body_tokens fuel [];
  (if is_typedef then spec_expect CLEX_id else skip);;
  spec_expect ($";");;
  ret (1, ts).

Definition spec_struct : M stb_lexer (option ast) :=
  id ← spec_token_is CLEX_id;
  if negb id then ret None else
  derives ← spec_string_is MOE_PROC_MACRO_DERIVES_MACRO_NAME;
  derives ← (if derives then ret true else spec_string_is MOE_PROC_MACRO_DERIVES_ENUM_MACRO_NAME);
  if negb derives then ret None else
  spec_expect ($"(");;
  spec_expect CLEX_id;;
  s ← lex_string_arg;
  name ← zoom (string_of s 0);
  spec_expect ($",");;
  x ← spec_item;
  spec_next;;
  semicolon ← spec_token_is ($";");
  (if semicolon then spec_next else skip);;
  xs ← spec_derives name [x];
  result ← spec_body name;
  if fst result =? 0 then ret None
  else if fst result =? -1 then ret None
  else ret (Some (Ast name xs (snd result))).
End spec.

(** ** The parser works on a lexer and a memory *)

#[export] Instance parser_mem_state : MemState parser stb_lexer :=
  {| mem_of := p_mem; rest_of := p_lex; state_of m l := Parser l m;
     mem_state_of _ _ := eq_refl; rest_state_of _ _ := eq_refl;
     state_of_parts s := match s with Parser _ _ => eq_refl end;
     view_state_of _ _ := eq_refl; put_state_of _ _ _ := eq_refl |}.

#[export] Instance lifted_on_lex {A} (m : M stb_lexer A) : Lifted (on_lex m) m.
Proof. intros s. unfold on_lex, zoom, lift. cbn. by destruct (m (p_lex s)) as [[a|e] l]. Qed.

#[export] Instance lifted_parse_fuel : Lifted parse_fuel (gets lex_fuel).
Proof. by intros []. Qed.

Section lifted.
Context `{!BuildConfig}.

#[export] Instance lifted_next : Lifted moe_next_token spec_next.
Proof. unfold moe_next_token, spec_next. apply _. Qed.
#[export] Instance lifted_expect_token t : Lifted (moe_expect_token t) (spec_expect_token t).
Proof. unfold moe_expect_token, spec_expect_token. apply _. Qed.
#[export] Instance lifted_expect t : Lifted (moe_expect_next_token t) (spec_expect t).
Proof. unfold moe_expect_next_token, spec_expect. apply _. Qed.
#[export] Instance lifted_token_is t : Lifted (token_is t) (spec_token_is t).
Proof. unfold token_is, spec_token_is. apply _. Qed.
#[export] Instance lifted_string_is a : Lifted (string_is a) (spec_string_is a).
Proof. unfold string_is, spec_string_is. apply _. Qed.
#[export] Instance lifted_lex_cstring : Lifted lex_cstring spec_cstring.
Proof. unfold lex_cstring, spec_cstring, cstring. apply _. Qed.
#[export] Instance lifted_args : Lifted parse_args spec_args.
Proof. unfold parse_args, spec_args. apply _. Qed.
#[export] Instance lifted_skip : Lifted (S := parser) skip skip.
Proof. apply lifted_ret. Qed.
End lifted.

(** ** The refinement *)

(** The next step of both sides is the same one, on the lexer. *)
Ltac p_step := iApply href_lifted_bind; iIntros (? ? _).

Section refinement.
Context `{!BuildConfig}.

Lemma parse_derive_item_refines bi xs p lx :
  (length xs < 8)%nat → p = Addr bi (Z.of_nat (length xs) * 24) →
  is_items bi xs ⊢ href (parse_derive_item p) spec_item lx (λ _ l, is_items bi (xs ++ [l])).
Proof.
  iIntros (Hl Hp) "Hxs". unfold parse_derive_item, spec_item. p_step. p_step.
  iApply (href_bind with "[Hxs]"). { iApply href_zoom. by iApply item_create_refines. }
  iIntros (_ l lx') "Hxs". p_step. iApply href_lifted_last. by iIntros.
Qed.

Lemma try_parse_derive_refines nm name bi xs p lx :
  (length xs < 8)%nat → p = Addr bi (Z.of_nat (length xs) * 24) →
  is_string nm name ∗ is_items bi xs ⊢
  href (try_parse_derive nm p) (spec_try_derive name) lx
    (λ r r', ⌜⌜ r = fst r' ∧ (r = 1 ∧ (∃ l, snd r' = [l]) ∨ r ≠ 1 ∧ snd r' = []) ⌝⌝ ∗
             is_string nm name ∗ is_items bi (xs ++ snd r')).
Proof.
  iIntros (Hl Hp) "[Hnm Hxs]". unfold try_parse_derive, spec_try_derive. p_step. p_step.
  destruct (negb _). { iApply href_ret. cbn. rewrite app_nil_r. iFrame. iPureIntro. auto. }
  p_step. p_step. h_bind. iApply (string_chars_spec with "Hnm"). iIntros "Hnm". p_step.
  destruct (negb _).
  { iDestruct (is_string_last with "Hnm") as %Hlast.
    iApply href_run_bind. { intros s. by apply cstring_run, terminated_last. }
    p_step. h_printf. iApply href_ret. cbn. rewrite app_nil_r. iFrame. iPureIntro. auto. }
  p_step. iApply (href_bind with "[Hxs]"). { by iApply parse_derive_item_refines. }
  iIntros (_ l lx') "Hxs". p_step. p_step. p_step. iApply href_ret. iFrame. iPureIntro. eauto.
Qed.

Lemma create_body_token_refines lx : ⊢ href create_body_token spec_token lx is_token.
Proof.
  unfold create_body_token, spec_token. p_step.
  destruct (_ =? CLEX_id).
  { p_step. p_step. iApply href_zoom. iApply create_identifier_refines. }
  destruct (_ || _).
  { p_step. p_step. iApply href_zoom. iApply create_string_literal_refines. }
  destruct (_ =? CLEX_intlit).
  { p_step. iApply href_zoom. iApply create_int_literal_refines. }
  destruct (_ =? CLEX_floatlit).
  { p_step. iApply href_zoom. iApply create_float_literal_refines. }
  iApply href_zoom. iApply create_punctuation_refines.
Qed.

Lemma body_tokens_refines fuel b nm num bi ts lx :
  is_stream b nm num bi ts ⊢
  href (loop fuel (λ _, body_turn (Addr b 0)) tt) (spec_body_tokens fuel ts) lx
    (λ _ ts', is_stream b nm num bi ts').
Proof.
  apply (href_loop (λ _ ts, is_stream b nm num bi ts)). clear ts lx. intros [] ts lx.
  iIntros "Hs". unfold body_turn. p_step. iApply href_lifted_bind. iIntros (close lx1 _).
  destruct close. { by iApply href_ret. }
  iApply href_bind. { iApply create_body_token_refines. }
  iIntros (p t lx') "Ht". h_bind. iApply (add_token_spec with "[$Hs $Ht]"). iIntros "Hs".
  by iApply href_ret.
Qed.

Lemma parse_body_refines b nm num bi name xs lx :
  is_derived b nm num bi name xs [] ⊢
  href (try_parse_derived_struct_body nm (Addr b 0)) (spec_body name) lx
    (λ r r', ⌜⌜ r = fst r' ⌝⌝ ∗ is_derived b nm num bi name xs (snd r')).
Proof.
  iIntros "(Hs & Hnm & Hxs)". unfold try_parse_derived_struct_body, spec_body.
  p_step. p_step. p_step. p_step.
  destruct (negb _). { iApply href_ret. by iFrame. }
  p_step. h_bind. iApply (string_chars_spec with "Hnm"). iIntros "Hnm". p_step.
  destruct (negb _).
  { iDestruct (is_string_last with "Hnm") as %Hlast.
    iApply href_run_bind. { intros s. by apply cstring_run, terminated_last. }
    p_step. h_printf. iApply href_ret. by iFrame. }
  p_step. p_step. iApply (href_bind with "[Hs]"). { by iApply body_tokens_refines. }
  iIntros (_ ts lx') "Hs". p_step. p_step. iApply href_ret. by iFrame.
Qed.

(** The pointer to the item after those of [xs]. *)
Lemma derive_item_ptr_spec b nm num bi name xs ts i E (Φ : ptr → unit → heapProp) :
  is_derived b nm num bi name xs ts ⊢
  (is_derived b nm num bi name xs ts -∗ Φ (Addr bi (0 + i * 24)) tt) -∗
  hwp (derive_item_ptr (Addr b 0) i) tt E Φ.
Proof.
  iIntros "((%bs & Hb & Hs) & Hnm & Hxs) HΦ". unfold derive_item_ptr. h_load "Hb".
  iApply hwp_ret. iApply "HΦ". iFrame.
Qed.

Lemma parse_derives_refines b nm num bi name xs ts lx :
  is_derived b nm num bi name xs ts ⊢
  href (parse_derives (Addr b 0) nm (Z.of_nat (length xs))) (spec_derives name xs) lx
    (λ n xs', ⌜⌜ n = Z.of_nat (length xs') ⌝⌝ ∗ is_derived b nm num bi name xs' ts).
Proof.
  iIntros "Hd". unfold parse_derives, spec_derives. p_step.
  iApply (href_loop (λ n xs, ⌜⌜ n = Z.of_nat (length xs) ⌝⌝ ∗ is_derived b nm num bi name xs ts)%I
    with "[$Hd]"); [|done].
  clear xs lx. intros n xs lx. iIntros "[-> Hd]".
  destruct (negb _) eqn:Hn. { iApply href_ret. by iFrame. }
  apply negb_false_iff, Z.ltb_lt in Hn. unfold MOE_PROC_MACRO_MAX_DERIVE_ITEM_NUM in Hn.
  h_bind. iApply (derive_item_ptr_spec with "Hd"). iIntros "(Hs & Hnm & Hxs)".
  iApply (href_bind with "[Hnm Hxs]").
  { iApply (try_parse_derive_refines with "[$Hnm $Hxs]"); [lia|done]. }
  iIntros (r [c l] lx') "(%Hr & Hnm & Hxs)". destruct Hr as [-> Hr]. cbn [fst snd] in *.
  destruct Hr as [[-> [x ->]]|[Hne ->]].
  - cbn. iApply href_ret. iSplit; [|iFrame]. iPureIntro. rewrite length_app. cbn. lia.
  - rewrite (proj2 (Z.eqb_neq c 1)) by done. rewrite app_nil_r.
    destruct (c =? 0); iApply href_ret; by iFrame.
Qed.

(** A pointer that represents a derived structure, or its absence. *)
Definition is_ast (p : ptr) (r : option ast) : heapProp :=
  match r with
  | None => ⌜⌜ p = NULL ⌝⌝
  | Some t => ∃ b nm bi, ⌜⌜ p = Addr b 0 ⌝⌝ ∗
      is_derived b nm (Z.of_nat (length (a_handlers t))) bi (a_name t) (a_handlers t) (a_tokens t)
  end.

Lemma parse_derived_struct_refines lx : ⊢ href parse_derived_struct spec_struct lx is_ast.
Proof.
  unfold parse_derived_struct, spec_struct. p_step.
  destruct (negb _). { by iApply href_ret. }
  p_step. p_step. destruct (negb _). { by iApply href_ret. }
  p_step. p_step. p_step.
  iApply href_bind. { iApply href_zoom. iApply derived_alloc_refines. }
  iIntros (p name lx') "(%b & %nm & %bi & -> & (%bs & Hb & Hs) & Hnm & Hxs)". h_load "Hb". p_step.
  iAssert (is_derived b nm 8 bi name [] []) with "[$Hb $Hs $Hnm $Hxs]" as "Hd".
  h_bind. iApply (derive_item_ptr_spec with "Hd"). iIntros "(Hs & Hnm & Hxs)".
  iApply (href_bind with "[Hxs]"). { by iApply (parse_derive_item_refines with "Hxs"); [cbn; lia|]. }
  iIntros (_ x lx2) "Hxs". p_step. p_step. p_step.
  iApply (href_bind with "[Hs Hnm Hxs]").
  { iApply (parse_derives_refines _ _ _ _ _ [x]). iFrame. }
  iIntros (n xs lx3) "(-> & (%bs' & Hb & Hs) & Hnm & Hxs)". h_update "Hb".
  iApply (href_bind with "[Hb Hs Hnm Hxs]"). { iApply parse_body_refines. iFrame. }
  iIntros (r [c ts] lx4) "[-> Hd]". cbn [fst snd].
  destruct (c =? 0).
  { iDestruct "Hd" as "(Hs & Hnm & Hxs)".
    h_bind. iApply (string_text_spec with "Hnm"). iIntros "Hnm". h_printf.
    h_bind. iApply (derived_free_spec with "[$Hs $Hnm $Hxs]"). by iApply href_ret. }
  destruct (c =? -1).
  { iDestruct "Hd" as "(Hs & Hnm & Hxs)".
    h_bind. iApply (string_text_spec with "Hnm"). iIntros "Hnm". h_printf.
    h_bind. iApply (derived_free_spec with "[$Hs $Hnm $Hxs]"). by iApply href_ret. }
  iApply href_ret. iExists b, nm, bi. by iFrame.
Qed.
End refinement.
