(* ===== verification/BridgeSpec.v ===== *)
(** * The script bridge without the heap, and the refinement

    What the tool asks of the JavaScript engine and writes to the files for an
    [ast], with the engine and the files as the only state. The functions of
    [JsBridge.v] refine it, for any engine. *)
From S2P Require Import Prelude CStd MoeList Heap MoeString ProcMacro JsBridge HeapLogic StringFacts ToolFacts.
From Stdlib Require Import SpecFloat.

Section spec.
Context `{!BuildConfig} `{!JSEngine}.

(** The engine and the files. *)
Definition outer : Type := JSState * fs.

#[export] Instance outer_js_lens : Lens outer JSState :=
  {| view := fst; put j w := (j, snd w);
     view_put _ _ := eq_refl; put_view w := match w with (_, _) => eq_refl end;
     put_put _ _ _ := eq_refl |}.
#[export] Instance outer_fs_lens : Lens outer fs :=
  {| view := snd; put f w := (fst w, f);
     view_put _ _ := eq_refl; put_view w := match w with (_, _) => eq_refl end;
     put_put _ _ _ := eq_refl |}.

Definition spec_js {A} (f : JSState → A * JSState) : M outer A :=
  zoom (λ j, let '(a, j') := f j in (Ok a, j')).
Definition spec_do (f : JSState → JSState) : M outer unit := zoom (modify f).

(** The JavaScript value of a token. *)
Definition spec_token_value (t : tok) : M outer JSValue :=
  match t with
  | TIdent l | TString l => spec_js (JS_NewString (c_str l))
  | TPunct n => spec_js (JS_NewString (c_str [to_char n; 0]))
  | TInt n => spec_js (JS_NewInt32 n)
  | TFloat f => spec_js (JS_NewFloat64 (to_double f))
  end.

Definition spec_token_object (t : tok) : M outer JSValue :=
  js_token ← spec_js JS_NewObject;
  s ← spec_js (JS_NewString (moe_token_type_to_string (tok_type t)));
  spec_do (JS_SetPropertyStr js_token prop_type s);;
  v ← spec_token_value t;
  spec_do (JS_SetPropertyStr js_token prop_value v);;
  ret js_token.

Definition spec_js_array (ts : list tok) : M outer JSValue :=
  arr ← spec_js JS_NewArray;
  fold_each (λ t index,
    js_token ← spec_token_object t;
    spec_do (JS_SetPropertyUint32 arr index js_token);;
    int_add index 1) ts 0;;
  ret arr.

Definition spec_text (s : option (list Z)) : M outer (list Z) := of_option NullDeref s.

(** The call of a handler: the array of its output, or [None] after an exception. *)
Definition spec_call (global array callfunc : JSValue) (name : list Z) : M outer (option (list Z)) :=
  argv0 ← spec_js (JS_NewString (c_str name));
  r ← spec_js (JS_Call callfunc global [argv0; array]);
  spec_do (JS_FreeValue argv0);;
  if JS_IsException r then
    exception ← spec_js JS_GetException;
    error_message ← spec_js (JS_ToCString exception);
    text ← spec_text error_message;
    spec_do (JS_FreeCString text);;
    spec_do (JS_FreeValue exception);;
    ret None
  else
    generated_code ← spec_js (JS_ToCString r);
    text ← spec_text generated_code;
    l ← zoom (string_of (text ++ [0]) 0);
    spec_do (JS_FreeCString text);;
    spec_do (JS_FreeValue r);;
    ret (Some l).

(** The output so far, and the outputs that were overwritten before. *)
Definition outputs : Type := option (list Z) * list (list Z).

Definition add_output (new : option (list Z)) (o : outputs) : outputs :=
  match new, o with
  | None, _ => o
  | Some l, (None, lost) => (Some l, lost)
  | Some l, (Some l', lost) => (Some l, l' :: lost)
  end.

Definition spec_turn (global array : JSValue) (name handler : list Z) (o : outputs) : M outer outputs :=
  callfunc ← spec_js (JS_GetPropertyStr global (c_str handler));
  is_function ← spec_js (λ j, (JS_IsFunction callfunc j, j));
  if is_function then
    new ← spec_call global array callfunc name;
    spec_do (JS_FreeValue callfunc);;
    ret (add_output new o)
  else
    spec_do (JS_FreeValue callfunc);;
    ret o.

Definition spec_generate (global array : JSValue) (name : list Z) (handlers : list (list Z)) : M outer outputs :=
  fold_each (spec_turn global array name) handlers (None, []).

(** The array of the string a file is read into, [None] when there is no file. *)
Definition spec_read_file (filename : list Z) : M outer (option (list Z)) :=
  o ← gets (λ w : outer, contents (snd w) !! filename);
  match o with
  | None => ret None
  | Some content =>
      let size := to_int (Z.of_nat (length content)) in
      if size =? 0 then throw (Undefined NullDeref)
      else if size =? INT_MAX then throw (Undefined SignedOverflow)
      else if size =? -1 then throw (Undefined WriteOutOfBounds)
      else if size <? 0 then throw (Undefined NullDeref)
      else ret (Some (take (Z.to_nat size) content ++ [0]))
  end.

Definition spec_load_scripts (script_path : list Z) : M outer Z :=
  script ← spec_read_file script_path;
  match script with
  | None => ret 1
  | Some l =>
      r ← spec_js (JS_Eval l (Z.of_nat (length l) - 1) script_path);
      (if JS_IsException r then
         exception ← spec_js JS_GetException;
         error_message ← spec_js (JS_ToCString exception);
         text ← spec_text error_message;
         spec_do (JS_FreeCString text);;
         spec_do (JS_FreeValue exception)
       else skip);;
      spec_do (JS_FreeValue r);;
      ret 0
  end.
End spec.

(** ** The tool works on a memory, the engine and the files *)

Section instances.
Context `{!BuildConfig} `{!JSEngine}.

#[export] Instance world_mem_state : MemState world outer :=
  {| mem_of := w_mem; rest_of w := (w_js w, w_fs w); state_of m o := World _ m (fst o) (snd o);
     mem_state_of _ _ := eq_refl; rest_state_of _ o := match o with (_, _) => eq_refl end;
     state_of_parts w := match w with World _ _ _ _ => eq_refl end;
     view_state_of _ _ := eq_refl; put_state_of _ _ _ := eq_refl |}.

#[export] Instance world_node_mem : NodeMem world outer.
Proof.
  intros p [m j f]. unfold load_next, load_node, bind, zoom. cbn.
  by destruct (heap_get_node p m).
Qed.

#[export] Instance lifted_js_call {A} (f : JSState → A * JSState) : Lifted (js_call f) (spec_js f).
Proof. intros [m j fl]. unfold js_call, spec_js, zoom, lift. cbn. by destruct (f j). Qed.

#[export] Instance lifted_js_do f : Lifted (js_do f) (spec_do f).
Proof. by intros [m j fl]. Qed.

#[export] Instance lifted_js_text s : Lifted (js_text s) (spec_text s).
Proof. unfold js_text, spec_text. apply _. Qed.

#[export] Instance lifted_world_skip : Lifted (S := world) skip skip.
Proof. apply lifted_ret. Qed.

#[export] Instance lifted_int_add a b : Lifted (S := world) (int_add a b) (int_add a b).
Proof. unfold int_add. apply _. Qed.

#[export] Instance lifted_cstring l : Lifted (S := world) (cstring l) (cstring l).
Proof. unfold cstring. apply _. Qed.
End instances.

Ltac w_step := h_assoc; iApply href_lifted_bind; iIntros (? ? _).

(** Two folds in step with each other. *)
Lemma href_fold_each {S R} `{!Lens S mem, !MemState S R} {A B C D}
    (P : A → C → Prop) (f : A → B → M S B) (g : C → D → M R D) (I : B → D → heapProp) l l' b d r :
  Forall2 P l l' →
  (∀ x y b d r, P x y → I b d ⊢ href (f x b) (g y d) r I) →
  I b d ⊢ href (fold_each f l b) (fold_each g l' d) r I.
Proof.
  intros Hl Hf. revert b d r. induction Hl as [|x y l l' Hxy Hl IH]; intros b d r; cbn.
  - apply href_ret.
  - iIntros "HI". iApply (href_bind with "[HI]"); [by iApply Hf|]. iIntros (b' d' r') "HI".
    by iApply IH.
Qed.

Section refinement.
Context `{!BuildConfig} `{!JSEngine}.

Lemma token_object_refines p t r :
  is_token p t ⊢
  href (from_token_to_js_token_object p) (spec_token_object t) r (λ v v', ⌜⌜ v = v' ⌝⌝ ∗ is_token p t).
Proof.
  iIntros "(%b & %v & -> & Hb & Hv)". unfold from_token_to_js_token_object, spec_token_object.
  w_step. h_load "Hb". iApply href_ret_bind. w_step. w_step.
  destruct t as [l|l|c|n|f]; cbn [tok_type spec_token_value].
  1-2: iDestruct "Hv" as "(%p & -> & Hp)"; h_ret; h_bind; iApply (string_text_spec with "Hp");
    iIntros "Hp"; w_step; w_step; iApply href_ret; iSplit; [done|];
    iExists b, (str_value p); iFrame; by iSplit.
  all: iDestruct "Hv" as "->"; h_ret; h_assoc.
  { iApply href_run_bind. { intros s. apply cstring_run. unfold terminated. set_solver. }
    w_step. w_step. iApply href_ret. iSplit; [done|]. iExists b, _. by iFrame. }
  all: w_step; w_step; iApply href_ret; iSplit; [done|]; iExists b, _; by iFrame.
Qed.

Lemma js_array_refines b nm num bi ts r :
  is_stream b nm num bi ts ⊢
  href (from_token_stream_to_js_array (metadata_of (Addr b 0))) (spec_js_array ts) r
    (λ v v', ⌜⌜ v = v' ⌝⌝ ∗ is_stream b nm num bi ts).
Proof.
  iIntros "Hs". unfold from_token_stream_to_js_array, spec_js_array, metadata_of, ptr_add, metadata_offset.
  change (0 + 24) with 24. iApply href_lifted_bind. iIntros (arr r1 _).
  h_bind. iApply (is_stream_fuel with "Hs"). iIntros (fuel Hf) "Hs".
  iApply (href_bind with "[Hs]").
  { iApply (iterator_loop_refines _ _ _ (λ i j, ⌜⌜ i = j ⌝⌝)%I); [|done|by iFrame].
    intros n nx pv t i j r'. iIntros "[(%p & Hn & Ht) ->]".
    unfold entry_token, token_stream_entry, ptr_add. change (0 + -0) with 0.
    h_bind. h_load "Hn". iApply hwp_ret.
    iApply (href_bind with "[Ht]"). { by iApply token_object_refines. }
    iIntros (v v' r2) "[-> Ht]". w_step. iApply (href_wand with "[]"). { by iApply href_lifted. }
    iIntros (? ?) "->". iSplit; [|done]. iExists p. iFrame. }
  iIntros (i j r2) "[Hs _]". iApply href_ret. by iFrame.
Qed.

(** The result of a handler: the old output, or a new string. *)
Definition is_call_result (old p : ptr) (o : option (list Z)) : heapProp :=
  match o with None => ⌜⌜ p = old ⌝⌝ | Some l => is_string p l end.

Lemma call_handler_refines rt arr cf hn h nm name old r :
  is_string nm name ∗ is_string hn h ⊢
  href (call_derive_handler rt arr cf hn nm old) (spec_call (global_obj rt) arr cf name) r
    (λ p o, is_call_result old p o ∗ is_string nm name ∗ is_string hn h).
Proof.
  iIntros "[Hnm Hh]". unfold call_derive_handler, spec_call.
  h_bind. iApply (string_text_spec with "Hnm"). iIntros "Hnm". w_step.
  iApply href_lifted_bind. iIntros (v r1 _). w_step.
  destruct (JS_IsException v).
  - w_step. w_step. h_bind. iApply (string_text_spec with "Hh"). iIntros "Hh".
    w_step. h_printf. w_step. w_step. iApply href_ret. by iFrame.
  - w_step. h_bind. iApply (string_text_spec with "Hh"). iIntros "Hh". w_step. h_printf.
    iApply href_bind. { iApply href_zoom. iApply moe_string_alloc_refines. }
    iIntros (p l r2) "Hp". w_step. w_step. iApply href_ret. iFrame.
Qed.

(** The output so far, and the overwritten ones, which nothing points to. *)
Definition is_output (p : ptr) (o : option (list Z)) : heapProp :=
  match o with None => ⌜⌜ p = NULL ⌝⌝ | Some l => is_string p l end.
Definition leaked (lost : list (list Z)) : heapProp := [∗ list] l ∈ lost, ∃ p, is_string p l.
Definition is_outputs (p : ptr) (o : outputs) : heapProp := is_output p (fst o) ∗ leaked (snd o).

Lemma leaked_nil : ⊢ leaked [].
Proof. done. Qed.
Lemma leaked_app l l' : leaked l ∗ leaked l' ⊢ leaked (l ++ l').
Proof. unfold leaked. by rewrite big_sepL_app. Qed.

Lemma add_output_spec old p new o :
  is_call_result old p new ∗ is_outputs old o ⊢ is_outputs p (add_output new o).
Proof.
  destruct o as [[l'|] lost], new as [l|]; cbn; iIntros "[Hp [Ho Hl]]"; cbn.
  - iFrame.
  - iDestruct "Hp" as "->". iFrame.
  - iDestruct "Ho" as "_". iFrame.
  - iDestruct "Hp" as "->". iFrame.
Qed.

(** One item of the array. *)
Lemma items_lookup bi xs i x :
  xs !! i = Some x →
  is_items bi xs ⊢ ∃ it l, ⌜⌜ l !! i = Some it ∧ arg_num it = 0 ⌝⌝ ∗ bi ↦ ODeriveItems l ∗
    is_string (derive_handler_name it) x ∗
    (bi ↦ ODeriveItems l ∗ is_string (derive_handler_name it) x -∗ is_items bi xs).
Proof.
  iIntros (Hx) "(%its & %Hl & Hbi & His)". pose proof Hl as [Hlen _].
  destruct (lookup_lt_is_Some_2 its i) as [it Hit].
  { apply lookup_lt_Some in Hx. lia. }
  iDestruct (big_sepL2_lookup_acc with "His") as "[(%ba & %Ha & Hs & Hba) Hclose]"; [done..|].
  iExists it, _. iFrame "Hbi Hs". iSplit.
  { iPureIntro. split; [by apply lookup_app_l_Some|apply Ha]. }
  iIntros "[Hbi Hs]". iExists its. iFrame "Hbi". iSplit; [done|]. iApply "Hclose".
  iExists ba. by iFrame.
Qed.

Lemma generate_turn_refines rt arr b nm num bi name xs ts i x p o r :
  xs !! Z.to_nat i = Some x → 0 ≤ i →
  is_derived b nm num bi name xs ts ∗ is_outputs p o ⊢
  href (generate_turn rt arr (Addr b 0) i p) (spec_turn (global_obj rt) arr name x o) r
    (λ p o, is_derived b nm num bi name xs ts ∗ is_outputs p o).
Proof.
  iIntros (Hx Hi) "[((%bs & Hb & Hs) & Hnm & Hxs) Ho]". unfold generate_turn, spec_turn.
  h_load "Hb". iDestruct (items_lookup with "Hxs") as "(%it & %l & %Hl & Hbi & Hx & Hxs)"; [done|].
  destruct Hl as [Hl Hn].
  h_load_elem "Hbi" Hl.
  h_bind. iApply (string_text_spec with "Hx"). iIntros "Hx". h_printf.
  unfold print_derive_args. rewrite Hn. h_ret.
  iApply href_lifted_bind. iIntros (cf r1 _). iApply href_lifted_bind. iIntros (isf r2 _).
  destruct isf.
  - iApply (href_bind with "[Hnm Hx]"). { iApply call_handler_refines. iFrame. }
    iIntros (p' o' r3) "(Hp & Hnm & Hx)". w_step. iApply href_ret.
    iSplitR "Hp Ho"; [|iApply add_output_spec; iFrame].
    iFrame. iApply "Hxs". iFrame.
  - h_bind. iApply (string_text_spec with "Hx"). iIntros "Hx". h_printf. w_step. iApply href_ret.
    iFrame. iApply "Hxs". iFrame.
Qed.

Lemma generate_refines rt arr b nm bi name xs ts r :
  is_derived b nm (Z.of_nat (length xs)) bi name xs ts ⊢
  href (generate_code_for_derived_struct rt arr (Addr b 0))
    (spec_generate (global_obj rt) arr name xs) r
    (λ p o, is_derived b nm (Z.of_nat (length xs)) bi name xs ts ∗ is_outputs p o).
Proof.
  iIntros "((%bs & Hb & Hs) & Hnm & Hxs)". unfold generate_code_for_derived_struct, spec_generate.
  h_load "Hb". iApply href_ret_bind.
  iApply (href_fold_each (λ i x, 0 ≤ i ∧ xs !! Z.to_nat i = Some x)
    _ _ (λ p o, is_derived b nm (Z.of_nat (length xs)) bi name xs ts ∗ is_outputs p o)%I).
  - apply Forall2_same_length_lookup. split; [by rewrite length_seqZ, Nat2Z.id|].
    intros i z x Hz Hx. apply lookup_seqZ in Hz as [-> ?]. split; [lia|].
    by replace (Z.to_nat (0 + i)) with i by lia.
  - intros i x p o r' [Hi Hx]. by apply generate_turn_refines.
  - iFrame "Hnm Hxs". iSplitL "Hb Hs"; [by iExists bs; iFrame|]. unfold is_outputs, leaked. cbn. by iSplit.
Qed.

#[local] Instance lifted_lookup filename :
  Lifted (S := world) (gets (λ w, contents (w_fs w) !! filename))
    (gets (λ w : outer, contents (snd w) !! filename)).
Proof. by intros [m j f]. Qed.

(** The errors of files too large for an [int]. *)
Lemma read_negative size content r P Q :
  INT_MIN ≤ size < -1 →
  P ⊢ href (
    str ← in_mem (moe_string_alloc None size);
    p ← in_mem (moe_string_get str);
    dst ← in_mem (load (T := list Z) p);
    let n := Z.min (to_size_t size) (Z.of_nat (length content)) in
    if n <=? Z.of_nat (length dst) then
      in_mem (store p (take (Z.to_nat n) content ++ drop (Z.to_nat n) dst));; ret str
    else throw (Undefined WriteOutOfBounds))
    (throw (Undefined NullDeref) : M outer (option (list Z))) r Q.
Proof.
  intros Hs. apply (href_error _ _ (Undefined NullDeref)); [|done]. intros mm.
  destruct (alloc_negative_run size mm Hs) as (mm' & i & Hr & Hb & Hi). exists mm'.
  erewrite bind_run by (apply zoom_run; exact Hr).
  assert (moe_string_get (Addr (m_next mm) 0) mm' = (Ok NULL, mm')) as Hg.
  { unfold moe_string_get. erewrite bind_run by apply MOE_ASSERT_true.
    unfold bind, load. rewrite Hb. cbn. by rewrite Hi. }
  erewrite bind_run by (apply zoom_run; exact Hg).
  by destruct r.
Qed.

Lemma read_file_refines filename r :
  ⊢ href (read_file filename) (spec_read_file filename) r is_output.
Proof.
  unfold read_file, spec_read_file. iApply href_lifted_bind. iIntros ([content|] r1 _).
  2:{ by iApply href_ret. }
  pose proof (to_int_range (Z.of_nat (length content))) as Hr.
  assert (to_int (length content) ≤ length content ∧
          (to_int (length content) = -1 → content ≠ [])) as [Hle Hne].
  { split; [|by destruct content]. unfold to_int, to_signed.
    pose proof (Z.mod_le (Z.of_nat (length content) + 2 ^ (32 - 1)) (2 ^ 32)). lia. }
  revert Hr Hle Hne. generalize (to_int (length content)). intros size Hr Hle Hne.
  destruct (Z.eqb_spec size 0) as [->|Hz]; [h_error|].
  destruct (Z.eqb_spec size INT_MAX) as [->|Hmax]; [h_error|].
  destruct (Z.eqb_spec size (-1)) as [->|Hneg].
  { h_bind. iApply alloc_zeros_spec; [done..|]. iIntros (b bi bc) "Hb Hbi Hbc".
    h_bind. unfold moe_string_get. h_bind. iApply (hwp_output _ tt).
    { intros mm. exists mm. split; [apply MOE_ASSERT_true|done]. }
    h_load "Hb". h_load "Hbi". iApply hwp_ret. h_bind. h_load "Hbc".
    assert (1 ≤ Z.of_nat (length content)) as Hc.
    { destruct content; [by destruct Hne|]. rewrite length_cons. lia. }
    rewrite (proj2 (Z.leb_gt _ _)); [h_error|].
    change (Z.of_nat (length (replicate _ _))) with 0.
    change (to_size_t (-1)) with (2 ^ 64 - 1). clear -Hc. lia. }
  destruct (Z.ltb_spec size 0).
  { iStopProof. apply read_negative. lia. }
  h_bind. iApply moe_string_alloc_none; [lia|]. iIntros (p) "Hp".
  h_bind. iApply (moe_string_get_spec with "Hp"). iIntros (bc) "Hbc Hp". h_bind. h_load "Hbc".
  rewrite length_replicate.
  assert (to_size_t size = size) as ->.
  { unfold to_size_t. apply Z.mod_small. unfold INT_MAX in *. lia. }
  rewrite Z.min_l, (proj2 (Z.leb_le _ _)) by lia. h_bind. h_store "Hbc".
  iApply href_ret.
  assert (drop (Z.to_nat size) (replicate (Z.to_nat (size + 1)) 0) = [0]) as ->.
  { rewrite drop_replicate. by replace (Z.to_nat (size + 1) - Z.to_nat size)%nat with 1%nat by lia. }
  iApply ("Hp" with "[] Hbc"). iPureIntro.
  rewrite last_snoc, length_app, length_take. cbn. split; [lia|done].
Qed.

Lemma load_scripts_refines rt path r :
  ⊢ href (load_proc_macro_scripts rt path) (spec_load_scripts path) r (λ v v', ⌜⌜ v = v' ⌝⌝)%I.
Proof.
  unfold load_proc_macro_scripts, spec_load_scripts.
  iApply href_bind. { iApply read_file_refines. }
  iIntros (p [l|] r1) "Hp"; cbn [is_output].
  2:{ iDestruct "Hp" as "->". rewrite bool_decide_true by done. h_printf. by iApply href_ret. }
  iAssert (⌜ p ≠ NULL ⌝)%I as %Hp. { by iApply is_string_not_null. }
  rewrite bool_decide_false by done.
  h_bind. iApply (string_text_spec with "Hp"). iIntros "Hp". h_printf.
  h_bind. iApply (string_chars_spec with "Hp"). iIntros "Hp".
  h_bind. iApply (string_length_spec with "Hp"). iIntros (s) "%Hs Hp".
  rewrite Hs. iApply href_ret_bind. w_step.
  h_bind. iApply (moe_string_free_spec with "Hp").
  iApply (href_bind _ _ _ _ _ (λ _ _, emp%I)).
  { destruct (JS_IsException _); [|by iApply href_ret].
    w_step. w_step. w_step. h_printf. w_step. iApply (href_wand with "[]"); [by iApply href_lifted|].
    by iIntros (? ?) "_". }
  iIntros (? ? r3) "_". w_step. by iApply href_ret.
Qed.
End refinement.
