(* ===== verification/MainSpec.v ===== *)
(** * The whole tool without the heap, and the refinement

    [spec_main] is [main] as a computation on the engine and the files: the input
    is parsed into [ast]s, each one is handed to the engine, and the text its
    handlers return is appended to the output file. [main] refines it, from an
    empty heap; what [main] leaves on the heap at its end is what the second
    component of the result of [spec_main] says. *)
From S2P Require Import Prelude CStd Lexer MoeList Heap MoeString ProcMacro Parser JsBridge Main HeapLogic.
From S2P Require Import StringFacts ToolFacts ParserSpec BridgeSpec.
From Stdlib Require Import SpecFloat.

(** What is live on the heap when [main] returns. *)
Inductive residue : Type :=
  | NothingLive
  | Outputs (lost : list (list Z))            (** outputs that were overwritten *)
  | RuntimeAndInput (input : option (list Z)) (** the early return after the scripts *).

Section spec.
Context `{!BuildConfig} `{!JSEngine}.

Definition spec_writable (path : list Z) : M outer bool := gets (λ w, writable (snd w) path).
Definition spec_content (path : list Z) : M outer (list Z) :=
  gets (λ w, default [] (contents (snd w) !! path)).
Definition spec_write (path text : list Z) : M outer unit := zoom (modify (set_file path text)).

Definition spec_clear_file (output_file : list Z) : M outer Z :=
  ok ← spec_writable output_file;
  if ok then spec_write output_file [];; ret 0 else ret 1.

Definition spec_append (output_file content : list Z) : M outer Z :=
  ok ← spec_writable output_file;
  if ok then
    old ← spec_content output_file;
    text ← cstring content;
    spec_write output_file (old ++ text);; ret 0
  else ret 1.

Definition spec_include (output_file header_file : list Z) : M outer unit :=
  ok ← spec_writable output_file;
  if ok then
    old ← spec_content output_file;
    spec_write output_file (old ++ include_line header_file)
  else skip.

(** The array of the base name of a path. *)
Definition spec_base (path : list Z) : M outer (list Z) :=
  i ← base_offset path; zoom (string_of (drop (Z.to_nat i) path) 0).

(** A derived structure: the outputs that were overwritten. *)
Definition spec_process (global : JSValue) (output_file : list Z) (t : ast) : M outer (list (list Z)) :=
  arr ← spec_js_array (a_tokens t);
  o ← spec_generate global arr (a_name t) (a_handlers t);
  (match fst o with
   | Some content => spec_append output_file content;; skip
   | None => skip
   end);;
  spec_do (JS_FreeValue arr);;
  ret (snd o).

(** A computation on the lexer alone. *)
Definition spec_run {A} (m : M stb_lexer A) (lex : stb_lexer) : M outer (A * stb_lexer) := λ o,
  match m lex with
  | (Ok a, lex') => (Ok (a, lex'), o)
  | (Err e, _) => (Err e, o)
  end.

(** A turn, with the outputs that were overwritten so far. *)
Definition spec_turn_main (global : JSValue) (output_file : list Z) (s : stb_lexer * list (list Z)) :
    M outer ((stb_lexer * list (list Z)) + list (list Z)) :=
  let '(lex, lost) := s in
  '(r, lex) ← spec_run stb_c_lexer_get_token lex;
  if r =? 0 then ret (inr lost) else
  if lex_token lex =? CLEX_parse_error then ret (inr lost) else
  '(o, lex) ← spec_run spec_struct lex;
  lost' ← (match o with
           | Some t => spec_process global output_file t
           | None => ret []
           end);
  ret (inl (lex, lost' ++ lost)).

Definition spec_loop (global : JSValue) (output_file : list Z) (lex : stb_lexer) : M outer (list (list Z)) :=
  loop (lex_fuel lex) (spec_turn_main global output_file) (lex, []).

(** The leak check counts three blocks for each overwritten output. *)
Definition spec_leak_check (lost : list (list Z)) : M outer unit :=
  MOE_ASSERT_MSG (to_size_t (3 * Z.of_nat (length lost)) =? 0).

(** The string of the input file; it is used without a check that there is one. *)
Definition spec_input (input : option (list Z)) : M outer (list Z) :=
  MOE_ASSERT_MSG (bool_decide (is_Some input));; of_option NullDeref input.

(** [main] up to the leak check, with what is live there. *)
Definition spec_prefix (input_file output_file script_file : list Z) (lex0 : stb_lexer) : M outer residue :=
  failed ← spec_clear_file output_file;
  if negb (failed =? 0) then ret NothingLive else
  base ← spec_base (input_file ++ [0]);
  spec_include output_file (c_str base);;
  input_str ← spec_read_file input_file;
  spec_do (λ _, JS_NewContext);;
  global ← spec_js JS_GetGlobalObject;
  failed ← spec_load_scripts script_file;
  if negb (failed =? 0) then ret (RuntimeAndInput input_str) else
  input ← spec_input input_str;
  lost ← spec_loop global output_file
    (stb_c_lexer_init lex0 input (Z.of_nat (length input) - 1) (replicate 1025 0) 1024);
  spec_do (JS_FreeValue global);;
  spec_do JS_FreeContext;;
  ret (Outputs lost).

Definition spec_main (argv : list (list Z)) (lex0 : stb_lexer) : M outer (Z * residue) :=
  match argv with
  | argv0 :: input_file :: output_file :: script_file :: _ =>
      live ← spec_prefix input_file output_file script_file lex0;
      match live with
      | Outputs lost => spec_leak_check lost;; ret (EXIT_SUCCESS, live)
      | _ => ret (EXIT_FAILURE, live)
      end
  | argv0 :: _ => ret (EXIT_FAILURE, NothingLive)
  | [] => throw (Undefined ReadOutOfBounds)
  end.
End spec.

Section refinement.
Context `{!BuildConfig} `{!JSEngine}.

#[local] Instance lifted_writable path : Lifted (S := world) (is_writable path) (spec_writable path).
Proof. by intros [m j f]. Qed.
#[local] Instance lifted_content path : Lifted (S := world) (file_content path) (spec_content path).
Proof. by intros [m j f]. Qed.
#[local] Instance lifted_write path text :
  Lifted (S := world) (zoom (modify (set_file path text))) (spec_write path text).
Proof. by intros [m j f]. Qed.
#[local] Instance lifted_clear path : Lifted (S := world) (clear_file path) (spec_clear_file path).
Proof. unfold clear_file, spec_clear_file. apply _. Qed.
#[local] Instance lifted_append path l :
  Lifted (S := world) (append_to_output path l) (spec_append path l).
Proof. unfold append_to_output, spec_append. apply _. Qed.
#[local] Instance lifted_include path l :
  Lifted (S := world) (append_include_directive path l) (spec_include path l).
Proof. unfold append_include_directive, spec_include. apply _. Qed.
#[local] Instance lifted_base_offset path : Lifted (S := world) (base_offset path) (base_offset path).
Proof.
  unfold base_offset. apply lifted_bind; [apply _|]. intros [i|]; apply lifted_bind; apply _ || intros [k|]; apply _.
Qed.

(** ** The lexer variable *)

(** The frame of a derivation on the parser state is that of the whole state. *)
Lemma run_parser_refines {A B} (m : M parser A) (sp : M stb_lexer B) lex r Q :
  href m sp lex Q ⊢
  href (run_parser m lex) (spec_run sp lex) r (λ x y, ⌜⌜ snd x = snd y ⌝⌝ ∗ Q (fst x) (fst y)).
Proof.
  split. intros h Hm mm hf Hh. specialize (Hm mm hf Hh). cbn in Hm.
  unfold run_parser, spec_run. cbn. destruct (m (Parser lex mm)) as [[a|e] [lex' mm']]; cbn in Hm |- *.
  - destruct Hm as (h' & Hb & Hh'). exists h'. split; [|done]. clear Hh'. revert h' Hb.
    apply entails_holds. iIntros "(%b & %Hb & HQ)". rewrite Hb. iExists (b, lex').
    iFrame. iPureIntro. by destruct r.
  - rewrite Hm. by destruct r.
Qed.

Lemma run_lexer_refines {A} (m : M stb_lexer A) lex r :
  ⊢ href (run_parser (on_lex m) lex) (spec_run m lex) r (λ x y, ⌜⌜ x = y ⌝⌝)%I.
Proof.
  iApply (href_wand with "[]").
  { iApply run_parser_refines. iApply href_lifted. }
  iIntros ([a l] [b l']) "[%Hl %Ha]". cbn in *. iPureIntro. congruence.
Qed.

(** ** [main] *)

Lemma process_refines rt out p t r :
  is_ast p (Some t) ⊢
  href (process_derived_struct rt out p) (spec_process (global_obj rt) out t) r (λ _ lost, leaked lost).
Proof.
  iIntros "(%b & %nm & %bi & -> & (%bs & Hb & Hs) & Hnm & Hxs)". unfold process_derived_struct, spec_process.
  h_load "Hb". h_bind. iApply (string_text_spec with "Hnm"). iIntros "Hnm". h_printf. h_printf.
  iAssert (is_stream b nm _ bi (a_tokens t)) with "[$Hb $Hs]" as "Hs".
  h_bind. iApply (metadata_print_spec with "Hs"). iIntros "Hs".
  iApply (href_bind with "[Hs]"). { by iApply js_array_refines. }
  iIntros (arr arr' r1) "[-> Hs]".
  iApply (href_bind with "[Hs Hnm Hxs]"). { iApply generate_refines. iFrame. }
  iIntros (p [o lost] r2) "(Hd & Ho & Hlost)". cbn [fst snd].
  iApply (href_bind _ _ _ _ _ (λ _ _, emp%I) with "[Ho]").
  { destruct o as [l|]; cbn [is_output].
    - iAssert (⌜ p ≠ NULL ⌝)%I as %Hp. { by iApply is_string_not_null. }
      rewrite bool_decide_false by done. cbn [negb].
      h_bind. iApply (string_chars_spec with "Ho"). iIntros "Ho". w_step.
      destruct (negb _); [h_printf|iApply href_ret_bind];
        iApply href_mem_last; iApply (moe_string_free_spec with "Ho"); done.
    - iDestruct "Ho" as "->". rewrite bool_decide_true by done. by iApply href_ret. }
  iIntros (? ? r3) "_". w_step. iApply href_mem_last.
  iApply (derived_free_spec with "Hd"). iFrame.
Qed.

Lemma main_turn_refines rt out lex s r :
  ⌜⌜ lex = fst s ⌝⌝ ∗ leaked (snd s) ⊢
  href (main_turn rt out lex) (spec_turn_main (global_obj rt) out s) r (λ x y,
    match x, y with
    | inl lex, inl s => ⌜⌜ lex = fst s ⌝⌝ ∗ leaked (snd s)
    | inr _, inr lost => leaked lost
    | _, _ => False
    end)%I.
Proof.
  destruct s as [lx lost]. cbn [fst snd]. iIntros "[-> Hl]". unfold main_turn, spec_turn_main.
  iApply href_bind. { iApply run_lexer_refines. }
  iIntros ([t lx1] b r1) "<-". cbn [fst snd].
  destruct (t =? 0). { by iApply href_ret. }
  destruct (_ =? CLEX_parse_error). { h_printf. by iApply href_ret. }
  iApply href_bind. { iApply run_parser_refines. iApply parse_derived_struct_refines. }
  iIntros ([p lx2] [o lx2'] r2) "[%Hl Ha]". cbn in Hl. subst lx2'. cbn [fst snd].
  iApply (href_bind _ _ _ _ _ (λ _ l, leaked l) with "[Ha]").
  { destruct o as [t'|].
    - iAssert (⌜ p ≠ NULL ⌝)%I as %Hp. { by iDestruct "Ha" as "(%b & %nm & %bi & -> & H)". }
      rewrite bool_decide_false by done. by iApply process_refines.
    - iDestruct "Ha" as "->". rewrite bool_decide_true by done.
      iApply href_ret. by iApply leaked_nil. }
  iIntros (? l r3) "Hl'". iApply href_ret. iSplit; [done|]. iApply leaked_app. iFrame.
Qed.

Lemma main_loop_refines rt out lex r :
  ⊢ href (main_loop rt out lex) (spec_loop (global_obj rt) out lex) r (λ _ lost, leaked lost).
Proof.
  unfold main_loop, spec_loop.
  iApply (href_loop (λ lex s, ⌜⌜ lex = fst s ⌝⌝ ∗ leaked (snd s))%I).
  - intros a b r'. apply main_turn_refines.
  - iSplit; [done|]. by iApply leaked_nil.
Qed.

(** [main] up to the leak check: the code it returned with, if it did. *)
Definition main_prefix (input_file output_file script_file : list Z) (lex0 : stb_lexer) :
    M world (option Z) :=
  failed ← clear_file output_file;
  if negb (failed =? 0) then
    in_mem (printf "Error: Failed to clear output file: %s\n" [PStr output_file]);;
    ret (Some EXIT_FAILURE)
  else
  input_base ← extract_base_filename (input_file ++ [0]);
  base ← in_mem (string_text input_base);
  in_mem (printf "Input file: %s\n" [PStr base]);;
  base ← in_mem (string_text input_base);
  append_include_directive output_file base;;
  in_mem (moe_string_free input_base);;
  input_str ← read_file input_file;
  js_runtime ← moe_js_runtime_alloc;
  failed ← load_proc_macro_scripts js_runtime script_file;
  if negb (failed =? 0) then ret (Some EXIT_FAILURE) else
  string_store ← in_mem (moe_string_alloc None 1024);
  input ← in_mem (string_chars input_str);
  s ← in_mem (load (T := moe_string_t) input_str);
  n ← defined (length_ s);
  store ← in_mem (string_chars string_store);
  lex ← main_loop js_runtime output_file (stb_c_lexer_init lex0 input n store 1024);
  in_mem (moe_string_free string_store);;
  moe_js_runtime_free js_runtime;;
  in_mem (moe_string_free input_str);;
  ret None.

(** Two computations with equal runs. *)
Lemma bind_ext {S A B} (m m' : M S A) (k k' : A → M S B) s :
  (∀ s, m s = m' s) → (∀ a s, k a s = k' a s) → bind m k s = bind m' k' s.
Proof. intros Hm Hk. unfold bind. rewrite Hm. destruct (m' s) as [[a|e] s']; [apply Hk|done]. Qed.

Lemma main_split a0 i o sc rest lex0 w :
  main (a0 :: i :: o :: sc :: rest) lex0 w =
  bind (main_prefix i o sc lex0) (λ r,
    match r with
    | Some code => ret code
    | None => in_mem moe_check_memory_leak;; ret EXIT_SUCCESS
    end) w.
Proof.
  unfold main, main_prefix. rewrite bind_bind. apply bind_ext; [done|]. intros failed s.
  destruct (negb _); [by rewrite bind_bind|].
  repeat (rewrite bind_bind; apply bind_ext; [done|]; intros ? ?).
  destruct (negb _); [done|].
  repeat (rewrite bind_bind; apply bind_ext; [done|]; intros ? ?).
  done.
Qed.

(** The block of the runtime, and the string of the input. *)
Definition is_residue (live : residue) : heapProp :=
  match live with
  | NothingLive => emp
  | Outputs lost => leaked lost
  | RuntimeAndInput input => (∃ b, b ↦ OJsRuntime) ∗ (∃ p, is_output p input)
  end.

Lemma input_refines {A B} p input (k : list Z → M world A) (ks : list Z → M outer B) r Q :
  is_output p input ⊢ (∀ l, is_string p l -∗ href (k l) (ks l) r Q) -∗
  href (l ← in_mem (string_chars p); k l) (l ← spec_input input; ks l) r Q.
Proof.
  iIntros "Hp Hk". destruct input as [l|]; cbn [is_output].
  - iAssert (href (l ← in_mem (string_chars p); k l) (ks l) r Q) with "[Hp Hk]" as "H".
    { h_bind. iApply (string_chars_spec with "Hp"). iIntros "Hp". by iApply "Hk". }
    iApply (href_spec_bind _ l with "H"); [|done]. unfold spec_input.
    erewrite bind_run; [done|]. unfold MOE_ASSERT_MSG, MOE_ASSERT. by destruct NDEBUG.
  - iDestruct "Hp" as "->". unfold spec_input, string_chars, moe_string_get, MOE_ASSERT_MSG, MOE_ASSERT.
    destruct NDEBUG; h_error.
Qed.

Lemma prefix_refines i o sc lex0 r :
  ⊢ href (main_prefix i o sc lex0) (spec_prefix i o sc lex0) r (λ c live,
      ⌜⌜ c = match live with Outputs _ => None | _ => Some EXIT_FAILURE end ⌝⌝ ∗ is_residue live).
Proof.
  unfold main_prefix, spec_prefix. w_step.
  destruct (negb _). { h_printf. by iApply href_ret. }
  iApply (href_bind (B := list Z) (D := residue)).
  { unfold extract_base_filename, spec_base. w_step. iApply href_zoom. iApply moe_string_alloc_refines. }
  iIntros (p base r1) "Hp". h_bind. iApply (string_text_spec with "Hp"). iIntros "Hp". h_printf.
  h_bind. iApply (string_text_spec with "Hp"). iIntros "Hp". w_step.
  h_bind. iApply (moe_string_free_spec with "Hp").
  iApply href_bind. { iApply read_file_refines. } iIntros (p_in input r2) "Hin".
  unfold moe_js_runtime_alloc. h_assoc. h_alloc (b) "Hrt". w_step. h_assoc. iApply href_lifted_bind. iIntros (g r3 _). iApply href_ret_bind.
  iApply href_bind. { iApply load_scripts_refines. } iIntros (c ? r4) "<-".
  destruct (negb _). { iApply href_ret. cbn. iSplit; [done|]. iSplitL "Hrt"; iExists _; iFrame. }
  h_bind. iApply moe_string_alloc_none; [done|]. iIntros (p_st) "Hst".
  iApply (input_refines with "Hin"). iIntros (l) "Hin".
  h_bind. iApply (string_length_spec with "Hin"). iIntros (s) "%Hs Hin".
  rewrite Hs. iApply href_ret_bind.
  h_bind. iApply (string_chars_spec with "Hst"). iIntros "Hst".
  iApply href_bind. { iApply main_loop_refines. } iIntros (lex lost r5) "Hlost".
  h_bind. iApply (moe_string_free_spec with "Hst").
  unfold moe_js_runtime_free. rewrite bool_decide_false by done. w_step. w_step.
  h_free "Hrt". h_bind. iApply (moe_string_free_spec with "Hin"). iApply href_ret. by iFrame.
Qed.

(** ** The whole run *)

(** The blocks of what is live. *)
Definition live_blocks (live : residue) : Z :=
  match live with
  | NothingLive => 0
  | Outputs lost => 3 * Z.of_nat (length lost)
  | RuntimeAndInput input => 1 + match input with Some _ => 3 | None => 0 end
  end.


(** The number of blocks of a footprint. *)
Definition blocks (P : heapProp) (n : Z) : Prop := ∀ h, holds P h → Z.of_nat (size h) = n.

Lemma blocks_sep P Q n m : blocks P n → blocks Q m → blocks (P ∗ Q) (n + m).
Proof.
  intros HP HQ h (h1 & h2 & -> & Hd & H1 & H2). rewrite map_size_disj_union by done.
  specialize (HP _ H1). specialize (HQ _ H2). lia.
Qed.
Lemma blocks_exist {A} (Φ : A → heapProp) n : (∀ a, blocks (Φ a) n) → blocks (∃ a, Φ a) n.
Proof. intros HΦ h [a Ha]. by apply (HΦ a). Qed.
Lemma blocks_pure φ P n : (φ → blocks P n) → blocks (⌜⌜ φ ⌝⌝ ∗ P) n.
Proof.
  intros HP h Hh. assert (⌜⌜ φ ⌝⌝ ∗ P ⊢ ⌜ φ ⌝ ∧ P) as [E] by (iIntros "[%Hφ P]"; by iSplit).
  destruct (E h Hh) as [Hφ HP']. by apply HP.
Qed.
Lemma blocks_pointsto b o : blocks (b ↦ o) 1.
Proof. intros h ->. by rewrite map_size_singleton. Qed.
Lemma blocks_emp : blocks emp 0.
Proof. intros h ->. done. Qed.
Lemma blocks_null φ : blocks ⌜⌜ φ ⌝⌝ 0.
Proof. intros h Hh. assert (⌜⌜ φ ⌝⌝ ⊢@{heapPropI} emp) as [E] by (by iIntros "_"). by rewrite (E h Hh). Qed.

Lemma blocks_string p l : blocks (is_string p l) 3.
Proof.
  do 3 (apply blocks_exist; intros ?). apply blocks_pure. intros _.
  apply (blocks_sep _ _ 1 2); [apply blocks_pointsto|]. apply (blocks_sep _ _ 1 1); apply blocks_pointsto.
Qed.

Lemma blocks_leaked lost : blocks (leaked lost) (3 * Z.of_nat (length lost)).
Proof.
  induction lost as [|l lost IH]; [apply blocks_emp|]. rewrite length_cons.
  replace (3 * _) with (3 + 3 * Z.of_nat (length lost)) by lia.
  apply blocks_sep; [|done]. apply blocks_exist. intros p. apply blocks_string.
Qed.

Lemma blocks_residue live : blocks (is_residue live) (live_blocks live).
Proof.
  destruct live as [|lost|input]; cbn; [apply blocks_emp|apply blocks_leaked|].
  apply blocks_sep; apply blocks_exist; intros ?; [apply blocks_pointsto|].
  destruct input; [apply blocks_string|apply blocks_null].
Qed.

(** The leak check, on a whole memory. *)
Lemma leak_check_run mm :
  wf_mem mm →
  moe_check_memory_leak mm = MOE_ASSERT_MSG (to_size_t (Z.of_nat (size (m_objs mm))) =? 0) mm.
Proof.
  intros (_ & Ha & Hf & Hsz). unfold moe_check_memory_leak, MOE_ASSERT_MSG, MOE_ASSERT.
  destruct NDEBUG; [done|]. unfold bind, gets, ret. rewrite <-Hsz.
  replace (total_allocated (m_stats mm) =? total_freed (m_stats mm))
    with (to_size_t (total_allocated (m_stats mm) - total_freed (m_stats mm)) =? 0); [done|].
  apply Bool.eq_iff_eq_true. rewrite !Z.eqb_eq. unfold to_size_t.
  split; intros Hz; [|rewrite Hz; by rewrite Z.sub_diag].
  pose proof (Z.div_mod (total_allocated (m_stats mm) - total_freed (m_stats mm)) (2 ^ 64) ltac:(lia)). nia.
Qed.

(** The outcome of a run on a world and of one on the engine and the files. *)
Definition agree {A B} (Q : A → B → heap → Prop) (x : outcome A * world) (y : outcome B * outer) : Prop :=
  rest_of (snd x) = snd y ∧
  match fst x, fst y with
  | Ok a, Ok b => Q a b (m_objs (w_mem (snd x)))
  | Err e, Err e' => e = e'
  | _, _ => False
  end.

Lemma prefix_run i o sc lex0 r :
  match main_prefix i o sc lex0 (state_of mem_init r), spec_prefix i o sc lex0 r with
  | (Ok c, w), (Ok live, r') =>
      rest_of w = r' ∧ c = match live with Outputs _ => None | _ => Some EXIT_FAILURE end ∧
      holds (is_residue live) (m_objs (w_mem w)) ∧ wf_mem (w_mem w)
  | (Err e, w), (Err e', r') => rest_of w = r' ∧ e = e'
  | _, _ => False
  end.
Proof.
  pose proof (hwp_run _ r _ _ emp%I ∅ mem_init (prefix_refines i o sc lex0 r) eq_refl eq_refl wf_mem_init) as H1.
  destruct (main_prefix i o sc lex0 _) as [[c|e] w].
  - destruct H1 as [H1 Hwf].
    assert ((∃ live, ⌜⌜ spec_prefix i o sc lex0 r = (Ok live, rest_of w) ⌝⌝ ∗
      ⌜⌜ c = match live with Outputs _ => None | _ => Some EXIT_FAILURE end ⌝⌝ ∗ is_residue live) ⊢
      ∃ live, ⌜ spec_prefix i o sc lex0 r = (Ok live, rest_of w) ⌝ ∧
      ⌜ c = match live with Outputs _ => None | _ => Some EXIT_FAILURE end ⌝ ∧ is_residue live) as [E].
    { iIntros "(%live & %Hl & %Hc & Hr)". iExists live. by repeat iSplit. }
    destruct (E _ H1) as (live & Hl & Hc & Hr). rewrite Hl. by split_and!.
  - rewrite H1. done.
Qed.

(** The run of [main] and of [spec_main] agree. *)
Lemma main_agree argv lex0 r :
  agree (λ code x h, code = fst x ∧ holds (is_residue (snd x)) h)
    (main argv lex0 (state_of mem_init r)) (spec_main argv lex0 r).
Proof.
  destruct argv as [|a0 [|i [|o [|sc rest]]]].
  1-4: by destruct r; repeat split.
  rewrite main_split. unfold agree, spec_main, bind. pose proof (prefix_run i o sc lex0 r) as Hr.
  destruct (main_prefix i o sc lex0 _) as [[c|e] w], (spec_prefix i o sc lex0 _) as [[live|e'] r'];
    try done.
  destruct Hr as (<- & -> & Hh & Hwf).
  destruct live as [|lost|input]; [by split_and!| |by split_and!].
  pose proof (blocks_residue _ _ Hh) as Hsz.
  unfold in_mem, zoom. cbn [view world_mem_lens]. rewrite leak_check_run, Hsz by done.
  unfold spec_leak_check, MOE_ASSERT_MSG, MOE_ASSERT. cbn [live_blocks].
  destruct NDEBUG; [by split_and!|]. cbn. destruct (_ =? 0); by split_and!.
Qed.

(** The leak check leaves the files alone. *)
Lemma main_files a0 i o sc rest lex0 r :
  snd (snd (spec_main (a0 :: i :: o :: sc :: rest) lex0 r)) = snd (snd (spec_prefix i o sc lex0 r)).
Proof.
  unfold spec_main, bind. destruct (spec_prefix i o sc lex0 r) as [[[|lost|input]|e] r']; try done.
  unfold spec_leak_check, MOE_ASSERT_MSG, MOE_ASSERT. destruct NDEBUG; [done|]. cbn. by destruct (_ =? 0).
Qed.
End refinement.
