(* ===== verification/ParserFacts.v ===== *)
(** * Termination and safety of the parser

    [spec_struct] over any invariant of the lexer that a call keeps: its loops have
    the fuel they need in a build with assertions, and its only errors are those of
    the lexer, of a text that cannot be read, and of an assertion. *)
From S2P Require Import Prelude CStd Lexer LexerFacts LexerInv MoeList Heap MoeString ProcMacro Parser.
From S2P Require Import HeapLogic StringFacts ToolFacts ParserSpec.
From Stdlib Require Import SpecFloat.

Lemma macro_names_terminated :
  terminated MOE_PROC_MACRO_DERIVES_MACRO_NAME ∧ terminated MOE_PROC_MACRO_DERIVES_ENUM_MACRO_NAME ∧
  terminated (chars "typedef" ++ [0]) ∧ terminated (chars "struct" ++ [0]) ∧ terminated (chars "enum" ++ [0]).
Proof. split_and!; apply (bool_decide_unpack (_ ∈ _)); done. Qed.

(** What the parser asks of the lexer. *)
Class LexerContract `{!BuildConfig} (I : stb_lexer → Prop) (Er : error → Prop) (Bound : nat → Prop) := {
  contract_token lx : I lx → wp stb_c_lexer_get_token
    (λ r lx', I lx' ∧ (r ≠ 0 → (left_over lx' < left_over lx)%nat)) (λ e _, Er e) lx;
  contract_fuel lx : I lx → (left_over lx < lex_fuel lx)%nat;
  contract_bound lx : I lx → Bound (lex_fuel lx);
  contract_assert : Er AssertFailed;
  contract_compare lx a : I lx → terminated a →
    wp (spec_string_is a) (λ _ lx', lx' = lx) (λ e _, Er e) lx;
  contract_name lx : I lx →
    wp (s ← lex_string_arg; zoom (string_of s 0)) (λ l lx', lx' = lx ∧ last l = Some 0) (λ e _, Er e) lx;
  contract_cstring lx : I lx → wp spec_cstring (λ _ lx', lx' = lx) (λ e _, Er e) lx;
  contract_body_token lx : I lx → wp spec_token (λ _ lx', lx' = lx) (λ e _, Er e) lx;
}.

Section contract.
Context `{!BuildConfig} (I : stb_lexer → Prop) (Er : error → Prop) (Bound : nat → Prop)
  `{!LexerContract I Er Bound}.
Context (Hassert : NDEBUG = false).
Implicit Types lx : stb_lexer.
#[local] Set Default Proof Using "All".

Definition fails (e : error) (_ : stb_lexer) : Prop := Er e.

(** The lexer later on, and strictly later. *)
Definition later lx lx' : Prop := I lx' ∧ (left_over lx' ≤ left_over lx)%nat.
Definition advanced lx lx' : Prop := I lx' ∧ (left_over lx' < left_over lx)%nat.

Definition Advances {A} (m : M stb_lexer A) (P : A → Prop) : Prop :=
  ∀ lx, I lx → wp m (λ a lx', advanced lx lx' ∧ P a) fails lx.
Definition Stays {A} (m : M stb_lexer A) (P : A → Prop) : Prop :=
  ∀ lx, I lx → wp m (λ a lx', later lx lx' ∧ P a) fails lx.

Lemma advances_stays {A} (m : M stb_lexer A) P : Advances m P → Stays m P.
Proof.
  intros Hm lx Hlx. eapply wp_mono; [by apply Hm| |done].
  intros a lx' [[??]?]. split; [|done]. split; [done|lia].
Qed.
Lemma stays_ret {A} (a : A) (P : A → Prop) : P a → Stays (ret a) P.
Proof. intros HP lx Hlx. apply wp_ret. by split. Qed.
Lemma stays_gets {A} (f : stb_lexer → A) : Stays (gets f) (λ _, True).
Proof. intros lx Hlx. apply wp_gets. by split. Qed.
Lemma stays_same {A} (m : M stb_lexer A) (P : A → Prop) :
  (∀ lx, I lx → wp m (λ a lx', lx' = lx ∧ P a) fails lx) → Stays m P.
Proof. intros Hm lx Hlx. eapply wp_mono; [by apply Hm| |done]. intros a ? [-> ?]. by split. Qed.
Lemma stays_bind {A B} (m : M stb_lexer A) (k : A → M stb_lexer B) P Q :
  Stays m P → (∀ a, P a → Stays (k a) Q) → Stays (bind m k) Q.
Proof.
  intros Hm Hk lx Hlx. apply wp_bind. eapply wp_mono; [by apply Hm| |done].
  intros a lx1 [[??]?]. eapply wp_mono; [by eapply Hk| |done].
  intros b lx2 [[??]?]. split; [|done]. split; [done|lia].
Qed.
Lemma advances_bind {A B} (m : M stb_lexer A) (k : A → M stb_lexer B) P Q :
  Advances m P → (∀ a, P a → Stays (k a) Q) → Advances (bind m k) Q.
Proof.
  intros Hm Hk lx Hlx. apply wp_bind. eapply wp_mono; [by apply Hm| |done].
  intros a lx1 [[??]?]. eapply wp_mono; [by eapply Hk| |done].
  intros b lx2 [[??]?]. split; [|done]. split; [done|lia].
Qed.
Lemma bind_advances {A B} (m : M stb_lexer A) (k : A → M stb_lexer B) P Q :
  Stays m P → (∀ a, P a → Advances (k a) Q) → Advances (bind m k) Q.
Proof.
  intros Hm Hk lx Hlx. apply wp_bind. eapply wp_mono; [by apply Hm| |done].
  intros a lx1 [[??]?]. eapply wp_mono; [by eapply Hk| |done].
  intros b lx2 [[??]?]. split; [|done]. split; [done|lia].
Qed.
Lemma stays_weaken {A} (m : M stb_lexer A) (P Q : A → Prop) :
  Stays m P → (∀ a, P a → Q a) → Stays m Q.
Proof. intros Hm HPQ lx Hlx. eapply wp_mono; [by apply Hm| |done]. intros a lx' []; auto. Qed.

(** A loop whose turns read a token, or stop. *)
Definition Turns {A B} (J : A → Prop) (P : B → Prop) (m : M stb_lexer (A + B)) : Prop :=
  ∀ lx, I lx → wp m (λ r lx', match r with
    | inl a' => J a' ∧ advanced lx lx'
    | inr b => P b ∧ later lx lx'
    end) fails lx.

Lemma turns_advance {A B} (J : A → Prop) (P : B → Prop) (m : M stb_lexer (A + B)) :
  Advances m (λ r, match r with inl a => J a | inr b => P b end) → Turns J P m.
Proof.
  intros Hm lx Hlx. eapply wp_mono; [by apply Hm| |done].
  intros [a|b] lx' [[??]?]; [by split|]. split; [done|]. split; [done|lia].
Qed.
Lemma turns_stop {A B} (J : A → Prop) (P : B → Prop) (b : B) : P b → Turns J P (ret (inr b)).
Proof. intros Hb lx Hlx. by apply wp_ret. Qed.

Lemma stays_loop {A B C} (J : A → Prop) (P : B → Prop) g (body : A → M stb_lexer (A + B)) a
    (k : B → M stb_lexer C) Q :
  (∀ n, (n ≤ g n)%nat) →
  (∀ a, J a → Turns J P (body a)) → J a → (∀ b, P b → Stays (k b) Q) →
  Stays (fuel ← gets lex_fuel; r ← loop (g fuel) body a; k r) Q.
Proof.
  intros Hg Hb HJ Hk lx Hlx. apply wp_bind, wp_gets, wp_bind.
  apply (wp_loop (λ a lx', J a ∧ later lx lx') (λ _, left_over)).
  - intros a1 lx1 (HJ1 & HI1 & Hle). eapply wp_mono; [by apply Hb| |done].
    intros [a'|b] lx2; intros (? & HI2 & ?).
    { split; [|done]. split; [done|]. split; [done|lia]. }
    eapply wp_mono; [by apply Hk| |done]. intros c lx3 [[??]?]. split; [|done]. split; [done|lia].
  - by split.
  - pose proof (contract_fuel lx Hlx). specialize (Hg (lex_fuel lx)). lia.
Qed.

Lemma spec_next_advances : Advances spec_next (λ _, True).
Proof.
  intros lx Hlx. unfold spec_next, MOE_ASSERT. rewrite Hassert. wp_steps.
  eapply wp_mono; [by apply contract_token| |done]. intros r lx' [HI Hr]. wp_steps.
  - split; [|done]. split; [done|]. apply Hr. by apply negb_true_iff, Z.eqb_neq in Hb.
  - apply contract_assert.
Qed.

Lemma spec_token_is_stays t : Stays (spec_token_is t) (λ _, True).
Proof. eapply stays_bind; [apply stays_gets|]. intros. by apply stays_ret. Qed.

Lemma spec_expect_advances t : Advances (spec_expect t) (λ _, True).
Proof.
  eapply advances_bind; [apply spec_next_advances|]. intros _ _. unfold spec_expect_token, MOE_ASSERT.
  rewrite Hassert. intros lx Hlx. wp_steps; [by split|apply contract_assert].
Qed.

Lemma spec_string_is_stays a : terminated a → Stays (spec_string_is a) (λ _, True).
Proof.
  intros Ha. apply stays_same. intros lx Hlx. eapply wp_mono; [by apply contract_compare| |done]. done.
Qed.

Lemma spec_cstring_stays : Stays spec_cstring (λ _, True).
Proof. apply stays_same. intros lx Hlx. eapply wp_mono; [by apply contract_cstring| |done]. done. Qed.

Lemma spec_body_token_stays : Stays spec_token (λ _, True).
Proof. apply stays_same. intros lx Hlx. eapply wp_mono; [by apply contract_body_token| |done]. done. Qed.

Lemma stays_assoc {A B C} (m : M stb_lexer A) (k : A → M stb_lexer B) (k' : B → M stb_lexer C) P :
  Stays (bind (bind m k) k') P → Stays (bind m (λ a, bind (k a) k')) P.
Proof. intros Hm lx Hlx. unfold wp. rewrite <-bind_bind. by apply Hm. Qed.

(** A step of a computation that stays or advances. *)
Ltac next_one := first [apply spec_next_advances | apply spec_expect_advances].
Ltac same_one := first [apply spec_token_is_stays | apply stays_gets | apply spec_cstring_stays
  | apply spec_body_token_stays | by apply spec_string_is_stays ].
Ltac next := lazymatch goal with
  | |- Advances (bind _ _) _ => first
      [ eapply advances_bind; [next_one|intros ? _] | eapply bind_advances; [same_one|intros ? _] ]
  | |- Stays (bind _ _) _ => first
      [ eapply stays_bind; [apply advances_stays; next_one|intros ? _]
      | eapply stays_bind; [same_one|intros ? _] ]
  end.

Lemma spec_args_advances : Advances spec_args (λ _, True).
Proof. unfold spec_args. repeat next. apply advances_stays, spec_expect_advances. Qed.

(** A semicolon that is skipped. *)
Lemma optional_next_stays (b : bool) : Stays (if b then spec_next else skip) (λ _, True).
Proof. destruct b; [apply advances_stays, spec_next_advances|by apply stays_ret]. Qed.

Lemma spec_name_stays : Stays (s ← lex_string_arg; zoom (string_of s 0)) (λ l, last l = Some 0).
Proof. apply stays_same. intros lx Hlx. eapply wp_mono; [by apply contract_name|done|done]. Qed.

Lemma spec_item_advances : Advances spec_item (λ l, last l = Some 0).
Proof.
  unfold spec_item. next. apply stays_assoc. eapply stays_bind; [apply spec_name_stays|]. intros l Hl.
  apply (stays_loop (λ _, True) (λ _, True) (λ n, n)); [lia| |done|intros; by apply stays_ret].
  intros _ _. apply turns_advance. next. next. destruct a1.
  - eapply stays_bind; [apply advances_stays, spec_args_advances|intros ? _]. by apply stays_ret.
  - by apply stays_ret.
Qed.

(** What the parser knows of a handler list. *)
Definition handlers_ok (xs : list (list Z)) : Prop := Forall (λ l, last l = Some 0) xs.

(** Once the macro is recognised, at least one token is read. *)
Definition tried (r : Z * list (list Z)) : Prop := handlers_ok (snd r) ∧ (fst r = 1 ∨ fst r = -1).

Lemma try_derive_advances name :
  last name = Some 0 →
  Advances (
    spec_expect ($"(");;
    spec_expect CLEX_id;;
    same ← spec_string_is name;
    if negb same then spec_cstring;; ret (-1, []) else
    spec_expect ($",");;
    l ← spec_item;
    spec_next;;
    semicolon ← spec_token_is ($";");
    (if (semicolon : bool) then spec_next else skip);;
    ret (1, [l])) tried.
Proof.
  intros Hn. assert (terminated name) by by apply terminated_last. next. next. next.
  destruct (negb _). { next. apply stays_ret. split; [constructor|by right]. }
  next. eapply stays_bind; [apply advances_stays, spec_item_advances|]. intros l Hl.
  next. next. eapply stays_bind; [apply optional_next_stays|intros ? _]. apply stays_ret.
  split; [by constructor|by left].
Qed.

(** A step that stays, inside a larger run. *)
Lemma wp_stays {A B} (m : M stb_lexer A) (k : A → M stb_lexer B) P Q lx lx0 :
  Stays m P → later lx0 lx → (∀ a lx', later lx0 lx' → P a → wp (k a) Q fails lx') →
  wp (bind m k) Q fails lx.
Proof.
  intros Hm [Hlx Hle] Hk. apply wp_bind. eapply wp_mono; [by apply Hm| |done].
  intros a lx' [[??]?]. apply Hk; [|done]. split; [done|lia].
Qed.

Lemma try_derive_turns name xs :
  last name = Some 0 → handlers_ok xs →
  Turns handlers_ok handlers_ok
    (r ← spec_try_derive name;
     if fst r =? 1 then ret (inl (xs ++ snd r))
     else if fst r =? 0 then ret (inr xs)
     else ret (inl xs)).
Proof.
  intros Hn Hxs lx Hlx. destruct macro_names_terminated as (Hm & _).
  assert (later lx lx) as Hl by by split.
  unfold spec_try_derive. apply wp_bind. eapply wp_stays; [apply spec_token_is_stays|done|].
  intros id lx1 Hl1 _. eapply (wp_stays _ _ (λ _, True)); [|done|].
  { destruct id; [by apply spec_string_is_stays|by apply stays_ret]. }
  intros derives lx2 [Hlx2 Hle2] _. destruct derives; cbn [negb].
  - eapply wp_mono; [by apply try_derive_advances| |done]. intros [c l] lx3 [[??] [Hok Hc]].
    cbn [fst snd] in *. destruct Hc as [-> | ->]; cbn; (split; [|split; [done|lia]]); [|done].
    by apply Forall_app.
  - apply wp_ret. cbn. split; [done|]. by split.
Qed.

Lemma spec_derives_stays {B} name xs (k : list (list Z) → M stb_lexer B) Q :
  last name = Some 0 → handlers_ok xs → (∀ xs, handlers_ok xs → Stays (k xs) Q) →
  Stays (xs ← spec_derives name xs; k xs) Q.
Proof.
  intros Hn Hxs Hk. unfold spec_derives.
  assert (Stays (fuel ← gets lex_fuel; xs' ← loop (fuel + 8) (λ xs,
    if negb (Z.of_nat (length xs) <? MOE_PROC_MACRO_MAX_DERIVE_ITEM_NUM) then ret (inr xs) else
    r ← spec_try_derive name;
    if fst r =? 1 then ret (inl (xs ++ snd r))
    else if fst r =? 0 then ret (inr xs)
    else ret (inl xs)) xs; k xs') Q) as Hs.
  { apply (stays_loop handlers_ok handlers_ok (λ n, n + 8)%nat); [lia| |done|done].
    intros xs' Hxs'. destruct (negb _); [by apply turns_stop|by apply try_derive_turns]. }
  intros lx Hlx. unfold wp. rewrite bind_bind. by apply Hs.
Qed.

(** A turn adds at most one token. *)
Lemma body_tokens_length fuel ts lx :
  wp (spec_body_tokens fuel ts) (λ ts' _, (length ts' ≤ length ts + fuel)%nat) (λ _ _, True) lx.
Proof.
  unfold spec_body_tokens. revert ts lx. induction fuel as [|fuel IH]; intros ts lx; [done|].
  apply wp_bind. apply (wp_mono _ (λ r _, match r with
    | inl ts' => (length ts' ≤ length ts + 1)%nat | inr ts' => ts' = ts end) _ (λ _ _, True)); [| |done].
  - apply wp_bind. unfold wp. destruct (spec_next lx) as [[a|e] lx1]; [|done].
    apply wp_bind, wp_bind, wp_gets, wp_ret. destruct (_ =? _); [by apply wp_ret|].
    apply wp_bind. unfold wp. destruct (spec_token lx1) as [[t|e] lx2]; [|done].
    cbn. rewrite length_app. cbn. lia.
  - intros [ts'|ts'] lx' Hr; [|subst; apply wp_ret; lia].
    eapply wp_mono; [apply IH| |done]. cbn. intros. lia.
Qed.

Definition tokens_ok (ts : list tok) : Prop := ∃ n, Bound n ∧ (length ts ≤ n)%nat.

Lemma spec_body_tokens_stays {B} (k : list tok → M stb_lexer B) Q :
  (∀ ts, tokens_ok ts → Stays (k ts) Q) →
  Stays (fuel ← gets lex_fuel; ts ← spec_body_tokens fuel []; k ts) Q.
Proof.
  intros Hk. assert (Stays (fuel ← gets lex_fuel; ts ← spec_body_tokens fuel []; ret ts) tokens_ok) as Hs.
  { intros lx Hlx. assert (Stays (fuel ← gets lex_fuel; ts ← spec_body_tokens fuel []; ret ts) (λ _, True)) as Hs.
    { unfold spec_body_tokens.
      apply (stays_loop (λ _, True) (λ _, True) (λ n, n)); [lia| |done|intros; by apply stays_ret].
      intros ts _. apply turns_advance. next. next. destruct a0; [by apply stays_ret|].
      next. by apply stays_ret. }
    assert (wp (fuel ← gets lex_fuel; ts ← spec_body_tokens fuel []; ret ts) (λ ts _, tokens_ok ts) (λ _ _, True) lx).
    { apply wp_bind, wp_gets, wp_bind. eapply wp_mono; [apply body_tokens_length| |done].
      intros ts lx' Hl. apply wp_ret. exists (lex_fuel lx). split; [by apply contract_bound|exact Hl]. }
    eapply wp_mono; [apply wp_conj; [by apply Hs|done]| |by intros e s []]. by intros ts lx' [[??]?]. }
  intros lx Hlx. assert (Stays (ts ← (fuel ← gets lex_fuel; ts ← spec_body_tokens fuel []; ret ts); k ts) Q) as Hb.
  { eapply stays_bind; [exact Hs|exact Hk]. }
  specialize (Hb lx Hlx). unfold wp in *. rewrite bind_bind in Hb. unfold bind, gets in *.
  destruct (spec_body_tokens _ _ _) as [[ts|e] lx']; exact Hb.
Qed.

Lemma spec_body_stays name : last name = Some 0 → Stays (spec_body name) (λ r, fst r = 0 ∨ fst r = -1 ∨ tokens_ok (snd r)).
Proof.
  intros Hn. assert (terminated name) by by apply terminated_last.
  destruct macro_names_terminated as (_ & _ & Ht & Hs & He). unfold spec_body. next.
  eapply stays_bind; [apply optional_next_stays|intros ? _]. next.
  eapply (stays_bind _ _ (λ _, True)).
  { destruct a1; [|by apply stays_ret]. next. destruct a1; [by apply stays_ret|by apply spec_string_is_stays]. }
  intros is_struct _. destruct (negb is_struct); [apply stays_ret; by left|]. next. next.
  destruct (negb _). { next. apply stays_ret. auto. }
  next. apply spec_body_tokens_stays. intros ts Hts.
  eapply (stays_bind _ _ (λ _, True)).
  { destruct a; [apply advances_stays, spec_expect_advances|by apply stays_ret]. }
  intros _ _. next. apply stays_ret. auto.
Qed.

Definition ast_ok (r : option ast) : Prop :=
  match r with Some t => tokens_ok (a_tokens t) | None => True end.

Lemma spec_struct_stays : Stays spec_struct ast_ok.
Proof.
  destruct macro_names_terminated as (Hm & He & _). unfold spec_struct. next.
  destruct (negb _); [by apply stays_ret|]. next.
  eapply (stays_bind _ _ (λ _, True)).
  { destruct a0; [by apply stays_ret|by apply spec_string_is_stays]. }
  intros derives _. destruct (negb _); [by apply stays_ret|]. next. next.
  apply stays_assoc. eapply stays_bind; [apply spec_name_stays|]. intros name Hn. next.
  eapply stays_bind; [apply advances_stays, spec_item_advances|]. intros x Hx. next. next.
  eapply stays_bind; [apply optional_next_stays|intros ? _].
  apply spec_derives_stays; [done|by constructor|]. intros xs _.
  eapply stays_bind; [by apply spec_body_stays|intros r Hr].
  destruct (Z.eqb_spec (fst r) 0), (Z.eqb_spec (fst r) (-1)); try by apply stays_ret.
  apply stays_ret. by destruct Hr as [?|[?|?]].
Qed.
End contract.

(** ** Texts of the lexer *)

Lemma string_of_total src n :
  last src = Some 0 → 0 ≤ n < Z.of_nat (length src) → Z.of_nat (length src) ≤ INT_MAX →
  wp (string_of src n) (λ l _, last l = Some 0) never tt.
Proof.
  intros Hl Hn Hs. pose proof (strlen_spec src (terminated_last _ Hl)) as Hlen.
  pose proof (strlen_range _ _ Hlen).
  assert (∃ k, 0 ≤ k < Z.of_nat (length src) ∧
    (if n =? 0 then m ← of_option ReadOutOfBounds (strlen src); ret (to_int m) else ret n) tt = (Ok k, tt))
    as (k & Hk & Hr).
  { destruct (n =? 0); [|by exists n]. rewrite Hlen. eexists. split; [|done].
    rewrite to_int_id; [lia|unfold INT_MIN; lia]. }
  unfold string_of, wp. erewrite bind_run by done. erewrite bind_run by (apply int_add_ok; unfold INT_MIN; lia).
  rewrite (proj2 (Z.ltb_ge _ _)), (proj2 (Z.ltb_ge _ _)), (proj2 (Z.eqb_neq _ _)) by lia. cbn.
  apply last_snoc.
Qed.

(** Whatever the text, [string_of] terminates. *)
Lemma string_of_terminates src n : wp (string_of src n) (λ l _, last l = Some 0) (λ e _, e ≠ OutOfFuel) tt.
Proof.
  unfold string_of. apply wp_bind. apply (wp_mono _ (λ _ _, True) _ (λ e _, e ≠ OutOfFuel)); [|intros k [] _|done].
  - destruct (n =? 0); [|done]. destruct (strlen src); [done|by apply wp_throw].
  - unfold int_add. apply wp_bind. wp_steps; try done. apply last_snoc.
Qed.

(** ** The two contracts *)

Section contracts.
Context `{!BuildConfig}.

(** Termination: any lexer. *)
Definition well_placed (lx : stb_lexer) : Prop :=
  0 ≤ lex_parse_point lx ∧ 0 ≤ lex_string_storage_len lx.
Definition not_fuel (e : error) : Prop := e ≠ OutOfFuel.

Lemma string_arg_terminates lx :
  wp lex_string_arg (λ _ lx', lx' = lx) (λ e _, not_fuel e) lx.
Proof. unfold lex_string_arg, defined. wp_steps. by apply wp_of_option. Qed.

Lemma left_over_fuel lx : 0 ≤ lex_parse_point lx → (left_over lx < lex_fuel lx)%nat.
Proof. apply room_fuel. Qed.

Lemma zoom_unit {A} (m : M unit A) (lx : stb_lexer) (P : A → Prop) (E : error → Prop) :
  wp m (λ a _, P a) (λ e _, E e) tt → wp (zoom m) (λ a lx', lx' = lx ∧ P a) (λ e _, E e) lx.
Proof. intros Hm. apply wp_zoom. eapply wp_mono; [exact Hm|done|done]. Qed.

Lemma spec_token_wp lx (E : error → Prop) :
  (lex_token lx = CLEX_id ∨ lex_token lx = CLEX_sqstring ∨ lex_token lx = CLEX_dqstring →
   wp lex_string_arg (λ s lx', lx' = lx ∧ wp (string_of s (lex_string_len lx)) (λ _ _, True) (λ e _, E e) tt)
     (λ e _, E e) lx) →
  wp spec_token (λ _ lx', lx' = lx) (λ e _, E e) lx.
Proof.
  intros Harg. assert (∀ f : list Z → tok,
    lex_token lx = CLEX_id ∨ lex_token lx = CLEX_sqstring ∨ lex_token lx = CLEX_dqstring →
    wp (s ← lex_string_arg; n ← gets lex_string_len; zoom (l ← string_of s n; ret (f l)))
      (λ _ lx', lx' = lx) (λ e _, E e) lx) as Htext.
  { intros f Ht. apply wp_bind. eapply wp_mono; [by apply Harg| |done]. intros s ? [-> Hs]. wp_steps.
    apply wp_zoom, wp_bind. eapply wp_mono; [exact Hs| |done]. intros l [] _. by apply wp_ret. }
  unfold spec_token. apply wp_bind, wp_gets. repeat (wp_step; [|]); try (wp_steps; by apply wp_zoom).
  - apply Htext. left. lia.
  - apply Htext. right. lia.
Qed.

#[export] Instance termination_contract : LexerContract well_placed not_fuel (λ _, True).
Proof.
  split.
  - intros lx [Hp Hl]. eapply wp_mono; [by apply get_token_wp| |].
    + intros r lx' (Hf & Hr & _). split.
      * destruct Hr as [(_ & _ & Hpp)|(_ & ? & _)]; split; rewrite ?Hpp; try lia; by rewrite (frame_storage_len _ _ Hf).
      * intros Hne. destruct Hr as [(-> & _)|(_ & ? & ?)]; [done|]. unfold left_over, room.
        rewrite (frame_input _ _ Hf). lia.
    + intros e s [[-> _]|[-> _]]; done.
  - intros lx [Hp _]. by apply left_over_fuel.
  - done.
  - done.
  - intros lx a _ _. unfold spec_string_is. apply wp_bind.
    eapply wp_mono; [apply string_arg_terminates| |done]. intros s ? ->. wp_steps.
    by apply wp_of_option.
  - intros lx _. apply wp_bind. eapply wp_mono; [apply string_arg_terminates| |done]. intros s ? ->.
    apply zoom_unit, string_of_terminates.
  - intros lx _. unfold spec_cstring, cstring. apply wp_bind.
    eapply wp_mono; [apply string_arg_terminates| |done]. intros s ? ->. apply wp_bind.
    by apply wp_of_option.
  - intros lx _. apply spec_token_wp. intros _. eapply wp_mono; [apply string_arg_terminates| |done].
    intros s ? ->. split; [done|]. eapply wp_mono; [apply string_of_terminates|done|done].
Qed.

(** Safety: a lexer whose last identifier or string is in the storage, on an input
    of less than [n] characters. When [P] holds, the input is one without literals,
    and no read leaves it. *)
Definition settled (P : Prop) (n : nat) (lx : stb_lexer) : Prop :=
  ready lx ∧ token_ok lx ∧ lex_string lx = Some 0 ∧ (P → safe lx (lex_parse_point lx)) ∧
  (lex_fuel lx ≤ n)%nat.
Definition only_assert (P : Prop) (e : error) : Prop := e = AssertFailed ∨ read_error e ∧ ¬ P.

Lemma settled_arg P n lx :
  settled P n lx → lex_string_arg lx = (Ok (lex_string_storage lx), lx).
Proof. intros (_ & _ & Hs & _). unfold lex_string_arg, bind, gets. by rewrite Hs. Qed.

Lemma settled_storage P n lx :
  settled P n lx → last (lex_string_storage lx) = Some 0 ∧
    Z.of_nat (length (lex_string_storage lx)) = lex_string_storage_len lx + 1 ∧
    0 < lex_string_storage_len lx < INT_MAX.
Proof. intros ([_ [? ? ? _ _]] & _). done. Qed.

#[export] Instance safety_contract P n : LexerContract (settled P n) (only_assert P) (λ k, k ≤ n)%nat.
Proof.
  split.
  - intros lx (Hr & Ht & Hs & HP & Hn). eapply wp_mono; [by apply get_token_ready| |].
    + intros r lx' (Hr' & Hf & Ht' & Hs' & Hlo & Hsafe). split.
      { split_and!; auto. unfold lex_fuel in *. by rewrite (frame_input _ _ Hf). }
      intros Hne. by destruct Hlo as [[-> _]|(_ & ? & _)].
    + intros e s [? Hsz]. right. split; [done|]. auto.
  - intros lx ([Hp _] & _). by apply left_over_fuel.
  - by intros lx (_ & _ & _ & _ & Hn).
  - by left.
  - intros lx a Hlx Ha. destruct (settled_storage _ _ _ Hlx) as (Hlast & _).
    destruct (strcmp_total _ _ (terminated_last _ Hlast) Ha) as [r Hr].
    unfold spec_string_is. eapply wp_of_run; [erewrite bind_run by (by eapply settled_arg)|done].
    rewrite Hr. reflexivity.
  - intros lx Hlx. destruct (settled_storage _ _ _ Hlx) as (Hlast & Hlen & Hsm).
    apply wp_bind. eapply wp_of_run; [by eapply settled_arg|]. apply zoom_unit.
    eapply wp_mono; [apply string_of_total; [done|lia|lia]|done|done].
  - intros lx Hlx. destruct (settled_storage _ _ _ Hlx) as (Hlast & _). unfold spec_cstring.
    eapply wp_of_run; [erewrite bind_run by (by eapply settled_arg)|done].
    by apply cstring_run, terminated_last.
  - intros lx Hlx. apply spec_token_wp. intros Htok.
    eapply wp_of_run; [by eapply settled_arg|]. split; [done|].
    destruct (settled_storage _ _ _ Hlx) as (Hlast & Hlen & Hsm).
    destruct Hlx as (_ & [Hne Htxt] & _). destruct Htxt as [_ Hn].
    { destruct Htok as [?|[?|?]]; [by left|done|by right]. }
    eapply wp_mono; [apply string_of_total; [done|lia|lia]|done|done].
Qed.

(** The parser as [main] calls it: after any token. *)
Lemma spec_struct_entry P n lx :
  NDEBUG = false → ready lx → token_ok lx → (P → safe lx (lex_parse_point lx)) → (lex_fuel lx ≤ n)%nat →
  wp spec_struct (λ r lx', ready lx' ∧ (P → safe lx' (lex_parse_point lx')) ∧
      (left_over lx' ≤ left_over lx)%nat ∧ (lex_fuel lx' ≤ n)%nat ∧
      match r with Some t => (length (a_tokens t) ≤ n)%nat | None => True end)
    (λ e _, only_assert P e) lx.
Proof.
  intros Hnd Hr Ht HP Hn. destruct (decide (lex_token lx = CLEX_id)) as [Hid|Hid].
  - assert (settled P n lx) as Hlx by (split_and!; [done..| |done|done]; apply Ht; by left).
    eapply wp_mono; [by apply (spec_struct_stays (settled P n) (only_assert P) (λ k, k ≤ n)%nat)| |done].
    intros r lx' [[(? & ? & ? & ? & ?) ?] Hast]. split_and!; [done..|].
    destruct r as [t|]; [|done]. destruct Hast as (k & Hk & Hl). cbn in Hk. lia.
  - unfold spec_struct, spec_token_is. wp_steps; [by split_and!|].
    by apply negb_false_iff, Z.eqb_eq in Hb.
Qed.
End contracts.

(** ** A build without assertions *)

Section ndebug.
Context `{!BuildConfig}.

Lemma spec_string_is_run a s lx :
  lex_string_arg lx = (Ok s, lx) → terminated s → terminated a →
  spec_string_is a lx = (Ok (bool_decide (c_str s = c_str a)), lx).
Proof.
  intros Hs Ht Ha. unfold spec_string_is. erewrite bind_run by done.
  destruct (strcmp_total _ _ Ht Ha) as [r Hr]. rewrite Hr. cbn. by rewrite (strcmp_spec _ _ _ Hr).
Qed.

(** A string found equal has been read to its end. *)
Lemma strcmp_terminated s a : strcmp s a = Some 0 → terminated s.
Proof.
  unfold terminated. revert a. induction s as [|x s IH]; intros [|y a]; cbn; [done..|].
  destruct (Z.eqb_spec x y) as [->|]; [|by destruct (_ <? _)].
  destruct (Z.eqb_spec y 0) as [->|]; [by left|]. intros ?%IH. by right.
Qed.

Lemma spec_string_is_true a lx :
  wp (spec_string_is a)
    (λ b lx', lx' = lx ∧ (b = true → ∃ s, lex_string_arg lx = (Ok s, lx) ∧ terminated s ∧ c_str s = c_str a))
    (λ e _, not_fuel e) lx.
Proof.
  unfold spec_string_is. apply wp_bind. unfold wp at 1.
  pose proof (string_arg_terminates lx) as Hw. unfold wp in Hw.
  destruct (lex_string_arg lx) as [[s|e] lx'] eqn:Hs; [|done]. subst lx'.
  apply wp_bind, wp_of_option; [|done]. intros r Hr. apply wp_ret. split; [done|].
  intros ->%Z.eqb_eq. exists s. split; [done|]. split; [by eapply strcmp_terminated|].
  pose proof (strcmp_spec _ _ _ Hr) as Hb. symmetry in Hb. by apply bool_decide_eq_true in Hb.
Qed.

Lemma string_of_text s :
  terminated s → Z.of_nat (length (c_str s)) < INT_MAX → string_of s 0 tt = (Ok (c_str s ++ [0]), tt).
Proof.
  intros Ht Hl. pose proof (strlen_spec s Ht) as Hlen. pose proof (strlen_range _ _ Hlen) as Hr.
  unfold string_of. rewrite Z.eqb_refl, Hlen. cbn [of_option].
  erewrite bind_run by (erewrite bind_run by done; done).
  rewrite to_int_id by (unfold INT_MIN; lia).
  erewrite bind_run by (apply int_add_ok; unfold INT_MIN; lia).
  rewrite (proj2 (Z.ltb_ge _ _)), (proj2 (Z.ltb_ge _ _)), (proj2 (Z.eqb_neq _ _)) by lia.
  unfold ret. by rewrite <-(c_str_strlen _ _ Hlen).
Qed.

Lemma zoom_pure {A} (m : M unit A) a (lx : stb_lexer) : m tt = (Ok a, tt) → zoom m lx = (Ok a, lx).
Proof. intros Hm. unfold zoom. cbn. by rewrite Hm. Qed.

Context (Hnd : NDEBUG = true).
#[local] Set Default Proof Using "All".

Lemma nd_next lx : spec_next lx = (Ok tt, lx).
Proof. unfold spec_next, MOE_ASSERT. by rewrite Hnd. Qed.
Lemma nd_expect t lx : spec_expect t lx = (Ok tt, lx).
Proof. unfold spec_expect, spec_expect_token, MOE_ASSERT. erewrite bind_run by apply nd_next. by rewrite Hnd. Qed.
Lemma token_is_run t lx : spec_token_is t lx = (Ok (lex_token lx =? t), lx).
Proof. done. Qed.

(** The lexer stays on the name [n] of a macro, and takes it for every other name. *)
Section stuck.
Context (lx : stb_lexer) (s : list Z).
Context (Hid : lex_token lx = CLEX_id) (Hs : lex_string_arg lx = (Ok s, lx)) (Ht : terminated s).
Context (Hmacro : c_str s = c_str MOE_PROC_MACRO_DERIVES_MACRO_NAME ∨
                  c_str s = c_str MOE_PROC_MACRO_DERIVES_ENUM_MACRO_NAME).

Lemma nd_name : string_of s 0 tt = (Ok (c_str s ++ [0]), tt).
Proof. apply string_of_text; [done|]. by destruct Hmacro as [-> | ->]. Qed.

Lemma nd_is a : terminated a → spec_string_is a lx = (Ok (bool_decide (c_str s = c_str a)), lx).
Proof. by apply spec_string_is_run. Qed.

Lemma nd_is_name : spec_string_is (c_str s ++ [0]) lx = (Ok true, lx).
Proof.
  rewrite nd_is by (unfold terminated; set_solver).
  rewrite c_str_app_0 by apply c_str_no_0. by rewrite bool_decide_true.
Qed.

Lemma nd_item_turn :
  (spec_next;; comma ← spec_token_is ($",");
   if comma then spec_args;; ret (inl tt) else ret (inr tt)) lx = (Ok (inr tt : unit + unit), lx).
Proof.
  erewrite bind_run by apply nd_next. erewrite bind_run by apply token_is_run. by rewrite Hid.
Qed.

Lemma nd_item : spec_item lx = (Ok (c_str s ++ [0]), lx).
Proof.
  unfold spec_item. erewrite bind_run by apply nd_expect. erewrite bind_run by done.
  erewrite bind_run by by apply zoom_pure, nd_name. erewrite bind_run by done.
  unfold lex_fuel. cbn [loop]. erewrite bind_run; [reflexivity|].
  erewrite bind_run by apply nd_item_turn. reflexivity.
Qed.

Lemma nd_try_derive :
  ∃ xs, spec_try_derive (c_str s ++ [0]) lx = (Ok (Z.of_nat (length xs), xs), lx) ∧ (length xs ≤ 1)%nat.
Proof.
  destruct macro_names_terminated as (Hm & _).
  destruct (bool_decide (c_str s = c_str MOE_PROC_MACRO_DERIVES_MACRO_NAME)) eqn:Hd;
    [exists [c_str s ++ [0]]|exists []]; (split; [|cbn; lia]); unfold spec_try_derive;
    (erewrite bind_run by apply token_is_run); rewrite Hid; cbn [Z.eqb Pos.eqb CLEX_id];
    (erewrite bind_run by by apply nd_is); rewrite Hd; [|done]. cbn [negb].
  do 2 erewrite bind_run by apply nd_expect.
  erewrite bind_run by apply nd_is_name. cbn [negb]. erewrite bind_run by apply nd_expect.
  erewrite bind_run by apply nd_item. erewrite bind_run by apply nd_next.
  erewrite bind_run by apply token_is_run. by rewrite Hid.
Qed.

Lemma nd_derives x : wp (spec_derives (c_str s ++ [0]) [x]) (λ _ lx', lx' = lx) (λ e _, not_fuel e) lx.
Proof.
  unfold spec_derives. apply wp_bind, wp_gets.
  apply (wp_loop (λ xs lx', lx' = lx) (λ xs _, 8 - length xs)%nat); [|done|unfold lex_fuel; cbn; lia].
  intros xs ? ->. unfold MOE_PROC_MACRO_MAX_DERIVE_ITEM_NUM.
  destruct (Z.ltb_spec (Z.of_nat (length xs)) 8); cbn [negb]; [|by apply wp_ret].
  apply wp_bind. destruct nd_try_derive as (ys & Hy & Hl). eapply wp_of_run; [exact Hy|]. cbn [fst snd].
  destruct ys as [|y [|]]; cbn in *; [done| |lia]. split; [done|]. rewrite length_app. cbn. lia.
Qed.

Lemma nd_body : spec_body (c_str s ++ [0]) lx = (Ok (0, []), lx).
Proof.
  destruct macro_names_terminated as (_ & _ & H1 & H2 & H3). unfold spec_body.
  erewrite bind_run by by apply nd_is.
  assert (∀ a, a = chars "typedef" ++ [0] ∨ a = chars "struct" ++ [0] ∨ a = chars "enum" ++ [0] →
    bool_decide (c_str s = c_str a) = false) as Hne.
  { intros a Ha. apply bool_decide_eq_false.
    by destruct Hmacro as [-> | ->], Ha as [->|[->| ->]]. }
  assert ((x ← spec_string_is (chars "struct" ++ [0]);
           if x then ret true else spec_string_is (chars "enum" ++ [0])) lx = (Ok false, lx)) as Hkind.
  { erewrite bind_run by by apply nd_is. rewrite (Hne (chars "struct" ++ [0])) by auto.
    rewrite nd_is by done. by rewrite (Hne (chars "enum" ++ [0])) by auto. }
  rewrite (Hne (chars "typedef" ++ [0])) by auto. erewrite bind_run by done.
  erewrite bind_run by apply token_is_run. rewrite Hid. cbn [Z.eqb Pos.eqb CLEX_id].
  by erewrite bind_run by exact Hkind.
Qed.
End stuck.

(** No structure is ever found, and the lexer does not move. *)
Lemma nd_struct lx : wp spec_struct (λ r lx', r = None ∧ lx' = lx) (λ e _, not_fuel e) lx.
Proof.
  unfold spec_struct, spec_token_is. apply wp_bind, wp_bind, wp_gets, wp_ret.
  destruct (Z.eqb_spec (lex_token lx) CLEX_id) as [Hid|]; [|by apply wp_ret]. cbn [negb].
  apply wp_bind. eapply wp_mono; [apply spec_string_is_true| |done]. intros d1 lx1 [-> Hd1].
  apply wp_bind. apply (wp_mono _ (λ b lx', lx' = lx ∧ (b = true → ∃ s, lex_string_arg lx = (Ok s, lx) ∧
    terminated s ∧ (c_str s = c_str MOE_PROC_MACRO_DERIVES_MACRO_NAME ∨
                    c_str s = c_str MOE_PROC_MACRO_DERIVES_ENUM_MACRO_NAME))) _ (λ e _, not_fuel e)); [| |done].
  { destruct d1.
    - apply wp_ret. split; [done|]. destruct Hd1 as (s & ? & ? & ?); [done|]. eauto 6.
    - eapply wp_mono; [apply spec_string_is_true| |done]. intros b lx1 [-> Hb]. split; [done|].
      intros Htrue. destruct (Hb Htrue) as (s & ? & ? & ?). eauto 6. }
  intros d lx1 [-> Hd]. destruct d; [|by apply wp_ret]. destruct Hd as (s & Hs & Ht & Hc); [done|]. cbn [negb].
  do 2 (apply wp_bind; eapply wp_of_run; [apply nd_expect|]).
  apply wp_bind. eapply wp_of_run; [exact Hs|].
  apply wp_bind. eapply wp_of_run; [by apply zoom_pure, (nd_name lx)|].
  apply wp_bind. eapply wp_of_run; [apply nd_expect|].
  apply wp_bind. eapply wp_of_run; [by apply nd_item|].
  apply wp_bind. eapply wp_of_run; [apply nd_next|]. apply wp_bind, wp_bind, wp_gets, wp_ret.
  rewrite Hid. apply wp_bind, wp_ret.
  apply wp_bind. eapply wp_mono; [by apply nd_derives| |done]. intros xs ? ->.
  apply wp_bind. eapply wp_of_run; [by apply nd_body|]. by apply wp_ret.
Qed.
End ndebug.

(** ** Every build *)

Lemma spec_struct_terminates `{!BuildConfig} lx :
  well_placed lx →
  wp spec_struct (λ _ lx', well_placed lx' ∧ (left_over lx' ≤ left_over lx)%nat) (λ e _, not_fuel e) lx.
Proof.
  intros Hlx. destruct NDEBUG eqn:Hnd.
  - eapply wp_mono; [by apply nd_struct| |done]. by intros r lx' [_ ->].
  - eapply wp_mono; [by apply (spec_struct_stays well_placed not_fuel (λ _, True))| |done].
    by intros r lx' [? _].
Qed.
