(* ===== verification/MainFacts.v ===== *)
(** * The whole tool: lemmas

    The names of files, and the termination and safety of [main]. *)
From S2P Require Import Prelude CStd Lexer LexerFacts LexerInv MoeList Heap MoeString ProcMacro Parser JsBridge.
From S2P Require Import Main HeapLogic StringFacts ToolFacts ParserSpec BridgeSpec MainSpec ParserFacts.
From Stdlib Require Import SpecFloat.

(** * File names: what [extract_base_filename] computes *)

(** The text after the last [c]. *)
Fixpoint after_last (c : Z) (l : list Z) : option (list Z) :=
  match l with
  | [] => None
  | x :: l =>
      match after_last c l with
      | Some r => Some r
      | None => if x =? c then Some l else None
      end
  end.

(** The last component of a path, with [/] as the separator, or a backslash when
    there is no [/]. *)
Definition base_name (path : list Z) : list Z :=
  match after_last ($"/") path with
  | Some r => r
  | None => default path (after_last ($"\") path)
  end.

Lemma after_last_suffix c l r :
  after_last c l = Some r → ∃ a, l = a ++ c :: r ∧ c ∉ r.
Proof.
  revert r. induction l as [|x l IH]; intros r; cbn; [done|].
  destruct (after_last c l) as [r'|] eqn:E.
  - intros [= <-]. destruct (IH _ eq_refl) as (a & -> & ?). by exists (x :: a).
  - destruct (Z.eqb_spec x c) as [->|]; [|done]. intros [= <-]. exists []. split; [done|].
    clear IH. induction l as [|y l IH]; [apply not_elem_of_nil|]. cbn in E.
    destruct (after_last c l); [done|]. destruct (Z.eqb_spec y c); [done|].
    apply not_elem_of_cons. split; [done|]. by apply IH.
Qed.

Lemma after_last_None c l : after_last c l = None → c ∉ l.
Proof.
  induction l as [|x l IH]; cbn; [intros _; apply not_elem_of_nil|].
  destruct (after_last c l); [done|]. destruct (Z.eqb_spec x c); [done|]. intros _.
  apply not_elem_of_cons. split; [done|]. by apply IH.
Qed.

Lemma strrchr_from_spec i l c d :
  0 ∉ l → c ≠ 0 →
  strrchr_from i (l ++ [0]) c d =
  Some (match after_last c l with
        | Some r => Some (i + Z.of_nat (length l) - Z.of_nat (length r) - 1)
        | None => d
        end).
Proof.
  intros Hl Hc. revert i d. induction l as [|x l IH]; intros i d; cbn -[Z.of_nat Z.eqb].
  { by rewrite (proj2 (Z.eqb_neq 0 c)) by done. }
  apply not_elem_of_cons in Hl as [Hx Hl]. rewrite (proj2 (Z.eqb_neq x 0)) by done.
  rewrite IH by done. f_equal. destruct (after_last c l) as [r|].
  - f_equal. lia.
  - destruct (x =? c); [|done]. f_equal. lia.
Qed.

Lemma drop_suffix (a r : list Z) c k :
  k = Z.of_nat (length (a ++ c :: r)) - Z.of_nat (length r) - 1 →
  drop (Z.to_nat (k + 1)) ((a ++ c :: r) ++ [0]) = r ++ [0].
Proof.
  rewrite length_app, length_cons. intros ->.
  replace (Z.to_nat _) with (length (a ++ [c])) by (rewrite length_app; cbn; lia).
  replace ((a ++ c :: r) ++ [0]) with ((a ++ [c]) ++ (r ++ [0])) by (by rewrite <-!app_assoc).
  apply drop_app_length.
Qed.

Lemma base_offset_spec {S} l (s : S) :
  0 ∉ l → ∃ k, base_offset (l ++ [0]) s = (Ok k, s) ∧ 0 ≤ k ∧ drop (Z.to_nat k) (l ++ [0]) = base_name l ++ [0].
Proof.
  intros Hl. unfold base_offset, strrchr, base_name. rewrite !strrchr_from_spec by done. cbn [of_option].
  destruct (after_last ($"/") l) as [r|] eqn:E1.
  - eexists. split; [reflexivity|]. apply after_last_suffix in E1 as (a & -> & _).
    split; [rewrite length_app, length_cons; lia|]. by apply drop_suffix.
  - destruct (after_last ($"\") l) as [r|] eqn:E2.
    + eexists. split; [reflexivity|]. apply after_last_suffix in E2 as (a & -> & _).
      split; [rewrite length_app, length_cons; lia|]. by apply drop_suffix.
    + exists 0. done.
Qed.

Lemma base_name_ok l : 0 ∉ l → (0 ∉ base_name l) ∧ (length (base_name l) ≤ length l)%nat.
Proof.
  intros Hl. unfold base_name. destruct (after_last ($"/") l) as [r|] eqn:E.
  - apply after_last_suffix in E as (a & -> & _). rewrite length_app, length_cons. split; [set_solver|lia].
  - destruct (after_last ($"\") l) as [r|] eqn:E2; [|done].
    apply after_last_suffix in E2 as (a & -> & _). cbn. rewrite length_app, length_cons.
    split; [set_solver|lia].
Qed.

(** * Termination and safety of the whole tool *)

Section facts.
Context `{!BuildConfig} `{!JSEngine}.

(** What stays true of the engine and the files: the engine may do anything, and
    the output file [out] may be written. *)
Class Stable (out : list Z) (J : outer → Prop) := {
  stable_js j j' f : J (j, f) → J (j', f);
  stable_write j f text : J (j, f) → J (j, set_file out text f);
}.

(** What the engine and the files may make the tool do. *)
Class Friendly (E : error → Prop) (Small : nat → Prop) := {
  friendly_text v j : fst (JS_ToCString v j) = None → E (Undefined NullDeref);
  friendly_size v j l : fst (JS_ToCString v j) = Some l →
    wp (string_of (l ++ [0]) 0) (λ s _, last s = Some 0) (λ e _, E e) tt;
  friendly_count n : Small n → Z.of_nat n > INT_MAX → E (Undefined SignedOverflow);
}.

Section friendly.
Context (out : list Z) (J : outer → Prop) `{!Stable out J}.
#[local] Set Default Proof Using "All".


(** The errors a computation on the engine and the files may end in. *)
Definition only {A} (E : error → Prop) (P : A → Prop) (m : M outer A) : Prop :=
  ∀ o, J o → wp m (λ a o', J o' ∧ P a) (λ e _, E e) o.

Lemma only_bind {A B} E (P : A → Prop) (Q : B → Prop) (m : M outer A) (k : A → M outer B) :
  only E P m → (∀ a, P a → only E Q (k a)) → only E Q (bind m k).
Proof.
  intros Hm Hk o Ho. apply wp_bind. eapply wp_mono; [by apply Hm| |done]. intros a o' [Ho' Ha]. by apply (Hk a).
Qed.
Lemma only_ret {A} E (P : A → Prop) a : P a → only E P (ret a).
Proof. intros HP o Ho. by apply wp_ret. Qed.
Lemma only_js {A} E (f : JSState → A * JSState) : only E (λ _, True) (spec_js f).
Proof.
  intros [j fl] Ho. apply wp_zoom. unfold wp. cbn. destruct (f j) as [a j']. split; [|done].
  by apply (stable_js j).
Qed.
Lemma only_do E f : only E (λ _, True) (spec_do f).
Proof. intros [j fl] Ho. split; [|done]. by apply (stable_js j). Qed.
Lemma only_write E text : only E (λ _, True) (spec_write out text).
Proof. intros [j fl] Ho. split; [|done]. by apply stable_write. Qed.
Lemma only_gets {A} E (f : outer → A) : only E (λ _, True) (gets f).
Proof. by intros o. Qed.
Lemma only_const {A} (E : error → Prop) (P : A → Prop) (m : M unit A) :
  wp m (λ a _, P a) (λ e _, E e) tt → only E P (zoom m).
Proof. intros Hm o Ho. apply wp_zoom. unfold wp in *. cbn.
  destruct (m tt) as [[a|e] []]; [by split|done].
Qed.
Lemma only_weaken {A} (E : error → Prop) (P Q : A → Prop) m : only E P m → (∀ a, P a → Q a) → only E Q m.
Proof. intros Hm HPQ o Ho. eapply wp_mono; [by apply Hm| |done]. intros a o' []; auto. Qed.
Lemma only_fold {A B} E (I : nat → B → Prop) (f : A → B → M outer B) l b :
  (∀ i x b, l !! i = Some x → I i b → only E (I (S i)) (f x b)) → I 0%nat b →
  only E (I (length l)) (fold_each f l b).
Proof.
  revert I b. induction l as [|x l IH]; intros I b Hf Hb; cbn; [by apply only_ret|].
  eapply only_bind; [by apply (Hf 0%nat)|]. intros b' Hb'.
  apply (IH (λ i, I (S i))); [|done]. intros i y b2 Hy. by apply (Hf (S i)).
Qed.

Ltac only_one := first [by apply only_js | by apply only_do | by apply only_gets | by apply only_write].
Ltac onlys := repeat first
  [ lazymatch goal with |- only _ _ (bind _ _) => eapply only_bind; [only_one|intros ? _] end
  | only_one | by apply only_ret ].

Context (E : error → Prop) (Small : nat → Prop) `{!Friendly E Small}.

Lemma token_object_only t : only E (λ _, True) (spec_token_object t).
Proof.
  unfold spec_token_object. onlys. destruct t; cbn [spec_token_value]; onlys.
Qed.

Lemma js_array_only ts : Small (length ts) → only E (λ _, True) (spec_js_array ts).
Proof.
  intros Hts. unfold spec_js_array. onlys.
  eapply only_bind; [|intros ? _; by apply only_ret].
  eapply only_weaken; [apply (only_fold E (λ i n, n = Z.of_nat i))|done]; [|done].
  intros i t n Ht ->. eapply only_bind; [apply token_object_only|intros ? _]. onlys.
  apply lookup_lt_Some in Ht. intros o Ho. unfold int_add. wp_steps; [split; [done|lia]|].
  apply (friendly_count (length ts)); [done|]. unfold INT_MIN, INT_MAX in *. lia.
Qed.

Lemma text_only v {B} (k : list Z → M outer B) Q :
  (∀ l, wp (string_of (l ++ [0]) 0) (λ s _, last s = Some 0) (λ e _, E e) tt → only E Q (k l)) →
  only E Q (s ← spec_js (JS_ToCString v); l ← spec_text s; k l).
Proof.
  intros Hk [j f] Ho. apply wp_bind, wp_zoom. unfold wp at 1. cbn.
  destruct (JS_ToCString v j) as [s j'] eqn:Hs.
  apply wp_bind, wp_of_option.
  - intros l ->. apply Hk; [|by apply (stable_js j)]. apply (friendly_size v j). by rewrite Hs.
  - intros ->. apply (friendly_text v j). by rewrite Hs.
Qed.

Definition ends_0 (o : option (list Z)) : Prop := match o with Some l => last l = Some 0 | None => True end.

Lemma call_only g arr cf name : only E ends_0 (spec_call g arr cf name).
Proof.
  unfold spec_call. do 3 (eapply only_bind; [only_one|intros ? _]). destruct (JS_IsException _).
  - eapply only_bind; [only_one|intros exc _]. apply text_only. intros l _. onlys.
  - apply text_only. intros l Hl. eapply only_bind; [by apply (only_const _ (λ s, last s = Some 0))|].
    intros s Hs. onlys.
Qed.

Definition outputs_end_0 (o : outputs) : Prop := ends_0 (fst o).

Lemma generate_only g arr name hs : only E outputs_end_0 (spec_generate g arr name hs).
Proof.
  unfold spec_generate. apply (only_fold E (λ _, outputs_end_0)); [|done].
  intros i h o _ Ho. unfold spec_turn. onlys. destruct a0; [|by onlys].
  eapply only_bind; [apply call_only|]. intros new Hnew. onlys.
  apply only_ret. by destruct new, o as [[] ?].
Qed.

Lemma append_only l : last l = Some 0 → only E (λ _, True) (spec_append out l).
Proof.
  intros Hl. unfold spec_append, spec_writable, spec_content. onlys. destruct a; [|by onlys]. onlys.
  eapply (only_bind _ (λ _, True)).
  { intros o Ho. eapply wp_of_run; [by apply cstring_run, terminated_last|done]. }
  intros t _. by onlys.
Qed.

Lemma process_only g t : Small (length (a_tokens t)) → only E (λ _, True) (spec_process g out t).
Proof.
  intros Ht. unfold spec_process. eapply only_bind; [by apply js_array_only|intros arr _].
  eapply only_bind; [apply generate_only|]. intros [o lost] Ho. cbn in Ho |- *.
  eapply (only_bind _ (λ _, True)); [|intros ? _; by onlys].
  destruct o as [l|]; [|by onlys]. eapply only_bind; [by apply append_only|intros ? _; by onlys].
Qed.

(** The lexer of [main], between two turns. *)
Context (I : stb_lexer → Prop).
Context (Hturn : ∀ lx, I lx → wp stb_c_lexer_get_token (λ r lx1, (left_over lx1 ≤ left_over lx)%nat ∧
  (r ≠ 0 → lex_token lx1 ≠ CLEX_parse_error → (left_over lx1 < left_over lx)%nat ∧
    wp spec_struct (λ t lx2, I lx2 ∧ (left_over lx2 ≤ left_over lx1)%nat ∧
      match t with Some t => Small (length (a_tokens t)) | None => True end) (λ e _, E e) lx1))
  (λ e _, E e) lx).
Context (Hfuel : ∀ lx, I lx → (left_over lx < lex_fuel lx)%nat).

Lemma loop_only g lex : I lex → only E (λ _, True) (spec_loop g out lex).
Proof.
  intros Hlex o Ho. unfold spec_loop.
  apply (wp_loop (λ s o, I (fst s) ∧ J o) (λ s _, left_over (fst s))); [|done|by apply Hfuel].
  clear lex Hlex o Ho. intros [lex lost] o [Hlex Ho]. cbn in Hlex. unfold spec_turn_main.
  pose proof (Hturn lex Hlex) as Hw. unfold wp in Hw. apply wp_bind. unfold spec_run, wp at 1.
  destruct (stb_c_lexer_get_token lex) as [[r|e] lx1]; [|done]. destruct Hw as [_ Hw].
  wp_steps; [done..|]. destruct Hw as [Hlt Hs]; [lia|lia|].
  unfold wp at 1. destruct (spec_struct lx1) as [[t|e] lx2]; [|done]. destruct Hs as (HI2 & Hle & Ht).
  apply wp_bind. apply (wp_mono _ (λ _ o', J o' ∧ True) _ (λ e _, E e)); [| |done].
  - destruct t as [t|]; [by apply process_only|by apply wp_ret].
  - intros l o' [Ho' _]. apply wp_ret. cbn. split; [done|lia].
Qed.

(** ** [main] *)

Context (i sc : list Z) (lex0 : stb_lexer).
Context (Hassert : E AssertFailed) (Hnull : NDEBUG = true → E (Undefined NullDeref)).
Context (Hpath : only E (λ _, True) (spec_base (i ++ [0]))).

(** What is read of a file. *)
Definition lexable (s : option (list Z)) : Prop :=
  match s with
  | Some l => I (stb_c_lexer_init lex0 l (Z.of_nat (length l) - 1) (replicate 1025 0) 1024)
  | None => True
  end.
Context (Hinput : only E lexable (spec_read_file i)).
Context (Hscript : only E (λ _, True) (spec_read_file sc)).

Lemma scripts_only : only E (λ _, True) (spec_load_scripts sc).
Proof.
  unfold spec_load_scripts. eapply only_bind; [exact Hscript|].
  intros [l|] _; [|by onlys]. eapply only_bind; [only_one|intros r _].
  eapply (only_bind _ (λ _, True)); [|intros ? _; by onlys].
  destruct (JS_IsException r); [|by onlys]. eapply only_bind; [only_one|intros exc _].
  apply text_only. intros t _. by onlys.
Qed.

Lemma prefix_only : only E (λ _, True) (spec_prefix i out sc lex0).
Proof.
  unfold spec_prefix, spec_clear_file, spec_writable, spec_include.
  eapply (only_bind _ (λ _, True)). { onlys. destruct a; by onlys. }
  intros failed _. destruct (negb _); [by onlys|].
  eapply only_bind; [exact Hpath|intros base _].
  eapply (only_bind _ (λ _, True)). { onlys. destruct a; [|by onlys]. unfold spec_content. by onlys. }
  intros _ _. eapply only_bind; [exact Hinput|]. intros input Hin.
  onlys. eapply only_bind; [apply scripts_only|intros c _]. destruct (negb _); [by onlys|].
  eapply (only_bind _ (λ l, input = Some l)).
  - unfold spec_input, MOE_ASSERT_MSG, MOE_ASSERT. intros o Ho. destruct NDEBUG eqn:Hnd.
    + destruct input; [done|]. by apply Hnull.
    + by destruct input.
  - intros l ->. eapply only_bind; [by apply loop_only|intros lost _]. by onlys.
Qed.

Lemma main_only a0 rest : only E (λ _, True) (spec_main (a0 :: i :: out :: sc :: rest) lex0).
Proof.
  unfold spec_main. eapply only_bind; [apply prefix_only|]. intros [|lost|input] _; try by onlys.
  eapply (only_bind _ (λ _, True)); [|intros ? _; by onlys].
  unfold spec_leak_check, MOE_ASSERT_MSG, MOE_ASSERT. intros o Ho.
  destruct NDEBUG; [done|]. cbn. by destruct (_ =? 0).
Qed.
End friendly.

(** ** Termination *)

#[export] Instance friendly_terminates : Friendly not_fuel (λ _, True).
Proof. split; [done|intros; apply string_of_terminates|done]. Qed.

Lemma turn_terminates lx :
  well_placed lx → wp stb_c_lexer_get_token (λ r lx1, (left_over lx1 ≤ left_over lx)%nat ∧
  (r ≠ 0 → lex_token lx1 ≠ CLEX_parse_error → (left_over lx1 < left_over lx)%nat ∧
    wp spec_struct (λ t lx2, well_placed lx2 ∧ (left_over lx2 ≤ left_over lx1)%nat ∧
      match t with Some t => True | None => True end) (λ e _, not_fuel e) lx1))
  (λ e _, not_fuel e) lx.
Proof.
  intros [Hp Hl]. eapply wp_mono; [by apply get_token_wp| |].
  - intros r lx1 (Hf & Hr & _).
    assert ((left_over lx1 ≤ left_over lx)%nat ∧ well_placed lx1 ∧ (r ≠ 0 → (left_over lx1 < left_over lx)%nat))
      as (Hle & Hw & Hlt).
    { unfold well_placed, left_over, room. rewrite (frame_input _ _ Hf), (frame_storage_len _ _ Hf).
      destruct Hr as [(-> & _ & ->)|(-> & ? & ?)]; split_and!; done || lia. }
    split; [done|]. intros Hne _. split; [auto|].
    eapply wp_mono; [by apply spec_struct_terminates| |done].
    intros t lx2 [??]. split_and!; [done|done|by destruct t].
  - by intros e s [[-> _]|[-> _]].
Qed.

Definition anything (o : outer) : Prop := True.
#[export] Instance stable_anything out : Stable out anything.
Proof. done. Qed.

Lemma main_terminates argv lex0 : only anything not_fuel (λ _, True) (spec_main argv lex0).
Proof.
  destruct argv as [|a0 [|i [|out [|sc rest]]]]; try done.
  assert (∀ path, only anything not_fuel (lexable well_placed lex0) (spec_read_file path)) as Hfile.
  { intros path o _. unfold spec_read_file. wp_steps. destruct (_ !! path) as [content|]; [|by apply wp_ret].
    wp_steps; done. }
  apply (main_only out anything not_fuel (λ _, True) well_placed turn_terminates); [|done|done| |done|].
  - intros lx [Hp _]. by apply left_over_fuel.
  - unfold spec_base. intros o _. apply wp_bind.
    apply (wp_mono _ (λ _ _, True) _ (λ e _, not_fuel e)); [| |done].
    + unfold base_offset. apply wp_bind, wp_of_option; [|done]. intros b _. apply wp_bind.
      destruct b; [done|]. by apply wp_of_option.
    + intros k o' _. apply wp_zoom. eapply wp_mono; [apply string_of_terminates|done|done].
  - eapply (only_weaken out anything); [apply Hfile|done].
Qed.

(** A success with assertions has passed the leak check. *)
Lemma main_success argv lex0 r live o :
  NDEBUG = false → spec_main argv lex0 r = (Ok (EXIT_SUCCESS, live), o) → to_size_t (live_blocks live) = 0.
Proof.
  intros Hnd. destruct argv as [|a0 [|i [|out [|sc rest]]]]; try done. unfold spec_main.
  intros (l & r1 & Hp & Hk)%bind_Ok. destruct l as [|lost|input]; [done| |done].
  apply bind_Ok in Hk as ([] & r2 & Hc & [= <- <-]).
  unfold spec_leak_check, MOE_ASSERT_MSG, MOE_ASSERT in Hc. rewrite Hnd in Hc. cbn [live_blocks].
  unfold bind, ret in Hc. destruct (Z.eqb_spec (to_size_t (3 * Z.of_nat (length lost))) 0); [done|].
  done.
Qed.

(** ** Safety *)

(** A run in which the files are there and small, and the engine gives texts. *)
Record good_run (i out sc text script : list Z) (lex0 : stb_lexer) : Prop := GoodRun {
  good_paths : out ≠ i ∧ out ≠ sc;
  good_path : (0 ∉ i) ∧ Z.of_nat (length i) < INT_MAX;
  good_text : 0 < Z.of_nat (length text) < INT_MAX - 2;
  good_chars : ∀ c, c ∈ text → -128 ≤ c ≤ 127;
  good_script : 0 < Z.of_nat (length script) < INT_MAX;
  good_engine v j : ∃ l, fst (JS_ToCString v j) = Some l ∧ Z.of_nat (length l) < INT_MAX;
  good_lexer : lex_string lex0 = None;
}.

(** No string and no character literal. *)
Definition no_literal (text : list Z) : Prop := (($"034") ∉ text) ∧ (($"'") ∉ text).

Definition files_are (i sc text script : list Z) (o : outer) : Prop :=
  contents (snd o) !! i = Some text ∧ contents (snd o) !! sc = Some script.

Section safety.
Context (i out sc text script : list Z) (lex0 : stb_lexer).
Context (Hgood : good_run i out sc text script lex0) (Hassert : NDEBUG = false).
#[local] Set Default Proof Using "All".

Let n : nat := length text + 2.
Let J := files_are i sc text script.
Let E := only_assert (no_literal text).

Instance stable_files : Stable out J.
Proof.
  destruct (good_paths _ _ _ _ _ _ Hgood). split; [done|].
  intros j f t [??]. by split; cbn; rewrite lookup_insert_ne.
Qed.

Instance friendly_good : Friendly E (λ k, k ≤ n)%nat.
Proof.
  split.
  - intros v j Hn. destruct (good_engine _ _ _ _ _ _ Hgood v j) as (l & Hl & _). congruence.
  - intros v j l Hl. destruct (good_engine _ _ _ _ _ _ Hgood v j) as (l' & Hl' & Hlen).
    assert (l' = l) as -> by congruence.
    eapply wp_mono; [apply string_of_total; [by rewrite last_snoc|rewrite length_app; cbn; lia..]|done|done].
  - intros k Hk Hbig. pose proof (good_text _ _ _ _ _ _ Hgood). unfold n in Hk. lia.
Qed.

Definition between (lx : stb_lexer) : Prop :=
  ready lx ∧ (no_literal text → safe lx (lex_parse_point lx)) ∧ (lex_fuel lx ≤ n)%nat.

Lemma turn_good lx :
  between lx → wp stb_c_lexer_get_token (λ r lx1, (left_over lx1 ≤ left_over lx)%nat ∧
  (r ≠ 0 → lex_token lx1 ≠ CLEX_parse_error → (left_over lx1 < left_over lx)%nat ∧
    wp spec_struct (λ t lx2, between lx2 ∧ (left_over lx2 ≤ left_over lx1)%nat ∧
      match t with Some t => (length (a_tokens t) ≤ n)%nat | None => True end) (λ e _, E e) lx1))
  (λ e _, E e) lx.
Proof.
  intros (Hr & Hs & Hn). eapply wp_mono; [by apply get_token_ready| |].
  - intros r lx1 (Hr1 & Hf & Ht & _ & Hlo & Hsafe).
    assert (lex_fuel lx1 ≤ n)%nat by (unfold lex_fuel in *; by rewrite (frame_input _ _ Hf)).
    split; [destruct Hlo as [(_ & _ & ->)|(_ & ? & _)]; lia|]. intros Hne _.
    split; [by destruct Hlo as [[-> _]|(_ & ? & _)]|].
    eapply wp_mono; [apply (spec_struct_entry (no_literal text) n); auto| |done].
    intros t lx2 (? & ? & ? & ? & ?). by split_and!.
  - intros e s [? Hns]. right. split; [done|]. auto.
Qed.

Lemma read_good path content o :
  contents (snd o) !! path = Some content → 0 < Z.of_nat (length content) < INT_MAX →
  spec_read_file path o = (Ok (Some (content ++ [0])), o).
Proof.
  intros Hc Hl. unfold spec_read_file. erewrite bind_run by done. cbn. rewrite Hc.
  rewrite to_int_id by (unfold INT_MIN; lia).
  rewrite !(proj2 (Z.eqb_neq _ _)), (proj2 (Z.ltb_ge _ _)) by lia.
  by rewrite Nat2Z.id, take_ge by done.
Qed.

Lemma main_good a0 rest : only J E (λ _, True) (spec_main (a0 :: i :: out :: sc :: rest) lex0).
Proof.
  destruct Hgood as [_ Hp Ht Hc Hsc _ Hlex].
  apply (main_only out J E (λ k, k ≤ n)%nat between turn_good).
  - intros lx ([Hpp _] & _). by apply left_over_fuel.
  - by left.
  - by rewrite Hassert.
  - intros o Ho. destruct (base_offset_spec i o) as (k & Hk & Hk0 & Hd); [apply Hp|].
    unfold spec_base. apply wp_bind. eapply wp_of_run; [exact Hk|]. rewrite Hd.
    apply (only_const out J _ (λ _, True)); [|done].
    assert (Z.of_nat (length (base_name i ++ [0])) ≤ INT_MAX).
    { rewrite <-Hd, length_drop, length_app. cbn. lia. }
    eapply wp_mono; [apply string_of_total; [by rewrite last_snoc|rewrite length_app; cbn; lia|done]|done|done].
  - intros o Ho. eapply wp_of_run; [apply read_good; [apply Ho|lia]|]. split; [done|].
    cbn. split_and!.
    + apply init_ready; [done|]. intros c [Hin|?%list_elem_of_singleton]%elem_of_app; [by apply Hc|lia].
    + intros [H1 H2]. unfold safe, inside, char_at. cbn. rewrite length_app. cbn.
      rewrite (proj2 (Z.leb_le _ _)) by lia. split_and!; [lia| |set_solver..].
      replace (Z.to_nat _) with (length text) by lia. by rewrite lookup_app_r, Nat.sub_diag by done.
    + unfold lex_fuel. cbn. rewrite length_app. cbn. unfold n. lia.
  - intros o Ho. eapply wp_of_run; [apply read_good; [apply Ho|lia]|]. by split.
Qed.
End safety.
End facts.
