(* ===== verification/FileFacts.v ===== *)
(** * What the tool does to the files

    A computation moves the files along a relation, whatever it returns and also
    when it stops on an error: nothing changes, or only the output file grows. *)
From S2P Require Import Prelude CStd Lexer LexerFacts LexerInv MoeList Heap MoeString ProcMacro Parser JsBridge.
From S2P Require Import Main HeapLogic StringFacts ToolFacts ParserSpec BridgeSpec MainSpec ParserFacts.
From S2P Require Import MainFacts.
From Stdlib Require Import SpecFloat.

(** Only [out] changes, and only at its end. *)
Definition grows (out : list Z) (f f' : fs) : Prop :=
  writable f' = writable f ∧
  (∀ p, p ≠ out → contents f' !! p = contents f !! p) ∧
  ∃ s, default [] (contents f' !! out) = default [] (contents f !! out) ++ s.

#[export] Instance grows_preorder out : PreOrder (grows out).
Proof.
  split.
  - intros f. split_and!; [done..|]. exists []. by rewrite app_nil_r.
  - intros f1 f2 f3 (Hw1 & H1 & s1 & E1) (Hw2 & H2 & s2 & E2). split_and!; [congruence| |].
    + intros p Hp. by rewrite H2, H1.
    + exists (s1 ++ s2). by rewrite E2, E1, app_assoc.
Qed.

Section moves.
Context `{!BuildConfig} `{!JSEngine} (R : fs → fs → Prop) `{!PreOrder R}.
#[local] Set Default Proof Using "All".

Definition moves {A} (m : M outer A) : Prop := ∀ o, R (snd o) (snd (snd (m o))).

Lemma moves_bind {A B} (m : M outer A) (k : A → M outer B) :
  moves m → (∀ a, moves (k a)) → moves (bind m k).
Proof.
  intros Hm Hk o. unfold bind. specialize (Hm o). destruct (m o) as [[a|e] o']; [|done].
  etrans; [exact Hm|apply Hk].
Qed.
Lemma moves_still {A} (m : M outer A) : (∀ o, snd (snd (m o)) = snd o) → moves m.
Proof. intros Hm o. by rewrite Hm. Qed.
Lemma moves_ret {A} (a : A) : moves (ret a).
Proof. by apply moves_still. Qed.
Lemma moves_throw {A} e : moves (A := A) (throw e).
Proof. by apply moves_still. Qed.
Lemma moves_gets {A} (f : outer → A) : moves (gets f).
Proof. by apply moves_still. Qed.
Lemma moves_js {A} (f : JSState → A * JSState) : moves (spec_js f).
Proof. apply moves_still. intros [j fl]. unfold spec_js, zoom. cbn. by destruct (f j). Qed.
Lemma moves_do f : moves (spec_do f).
Proof. by apply moves_still. Qed.
Lemma moves_unit {A} (m : M unit A) : moves (zoom m).
Proof. apply moves_still. intros o. unfold zoom. cbn. by destruct (m tt) as [r []]. Qed.
Lemma moves_option {A} u (a : option A) : moves (of_option u a).
Proof. by destruct a; apply moves_still. Qed.
Lemma moves_if {A} (b : bool) (m m' : M outer A) : moves m → moves m' → moves (if b then m else m').
Proof. by destruct b. Qed.
Lemma moves_run {A} (m : M stb_lexer A) lex : moves (spec_run m lex).
Proof. apply moves_still. intros o. unfold spec_run. by destruct (m lex) as [[a|e] l]. Qed.
Lemma moves_loop {A B} fuel (body : A → M outer (A + B)) a : (∀ a, moves (body a)) → moves (loop fuel body a).
Proof.
  intros Hb. revert a. induction fuel as [|fuel IH]; intros a; cbn; [apply moves_throw|].
  apply moves_bind; [apply Hb|]. intros [a'|b]; [apply IH|apply moves_ret].
Qed.
Lemma moves_fold {A B} (f : A → B → M outer B) l b : (∀ x b, moves (f x b)) → moves (fold_each f l b).
Proof.
  intros Hf. revert b. induction l as [|x l IH]; intros b; cbn; [apply moves_ret|].
  by apply moves_bind; [apply Hf|].
Qed.
Lemma moves_assert b : moves (MOE_ASSERT_MSG b).
Proof. unfold MOE_ASSERT_MSG, MOE_ASSERT. destruct NDEBUG, b; by apply moves_still. Qed.

Ltac moving := repeat first
  [ apply moves_bind; [|intros ?] | apply moves_ret | apply moves_throw | apply moves_gets | apply moves_js
  | apply moves_do | apply moves_unit | apply moves_option | apply moves_run | apply moves_assert
  | apply moves_fold; intros ?? | apply moves_if | case_match ].

Lemma array_moves ts : moves (spec_js_array ts).
Proof. unfold spec_js_array, spec_token_object, spec_token_value, int_add. moving. Qed.
Lemma generate_moves g arr name hs : moves (spec_generate g arr name hs).
Proof. unfold spec_generate, spec_turn, spec_call, spec_text. moving. Qed.
Lemma read_moves path : moves (spec_read_file path).
Proof. unfold spec_read_file. moving. Qed.
Lemma scripts_moves path : moves (spec_load_scripts path).
Proof. unfold spec_load_scripts, spec_text, skip. moving; apply read_moves. Qed.
Lemma base_moves path : moves (spec_base path).
Proof. unfold spec_base, base_offset. moving. Qed.
Lemma input_moves s : moves (spec_input s).
Proof. unfold spec_input. moving. Qed.
End moves.

Ltac moving := repeat first
  [ apply (moves_bind _); [|intros ?] | apply (moves_ret _) | apply (moves_throw _) | apply (moves_gets _)
  | apply (moves_js _) | apply (moves_do _) | apply (moves_unit _) | apply (moves_option _)
  | apply (moves_run _) | apply (moves_assert _) | apply (moves_fold _); intros ?? | apply (moves_if _)
  | case_match ].

Section output.
Context `{!BuildConfig} `{!JSEngine}.
#[local] Set Default Proof Using "All".

Lemma grows_write out f s :
  grows out f (set_file out (default [] (contents f !! out) ++ s) f).
Proof.
  split_and!; [done|intros p Hp; cbn; by rewrite lookup_insert_ne|].
  exists s. cbn. by rewrite lookup_insert_eq.
Qed.

Lemma append_grows out l : moves (grows out) (spec_append out l).
Proof.
  intros [j f]. unfold spec_append, bind, spec_writable, spec_content, gets. cbn.
  destruct (writable f out); [|done]. unfold cstring. destruct (strlen l); [|done].
  apply grows_write.
Qed.

Lemma include_grows out h : moves (grows out) (spec_include out h).
Proof.
  intros [j f]. unfold spec_include, bind, spec_writable, spec_content, gets. cbn.
  destruct (writable f out); [|done]. apply grows_write.
Qed.

Lemma process_grows g out t : moves (grows out) (spec_process g out t).
Proof.
  unfold spec_process. apply (moves_bind _); [apply array_moves, _|intros arr].
  apply (moves_bind _); [apply generate_moves, _|intros o].
  apply (moves_bind _); [|intros ?; moving].
  destruct (fst o); [|apply (moves_ret _)]. apply (moves_bind _); [apply append_grows|intros; apply (moves_ret _)].
Qed.

Lemma loop_grows g out lex : moves (grows out) (spec_loop g out lex).
Proof.
  unfold spec_loop. apply (moves_loop _). intros [lx lost]. unfold spec_turn_main.
  apply (moves_bind _); [apply (moves_run _)|]. intros [r lx1].
  apply (moves_if _); [moving|]. apply (moves_if _); [moving|].
  apply (moves_bind _); [apply (moves_run _)|]. intros [t lx2].
  apply (moves_bind _); [|intros; moving]. destruct t; [apply process_grows|apply (moves_ret _)].
Qed.

(** After the output file is cleared, it only grows, and no other file changes. *)
Definition spec_rest (i out sc : list Z) (lex0 : stb_lexer) : M outer residue :=
  input_str ← spec_read_file i;
  spec_do (λ _, JS_NewContext);;
  global ← spec_js JS_GetGlobalObject;
  failed ← spec_load_scripts sc;
  if negb (failed =? 0) then ret (RuntimeAndInput input_str) else
  input ← spec_input input_str;
  lost ← spec_loop global out
    (stb_c_lexer_init lex0 input (Z.of_nat (length input) - 1) (replicate 1025 0) 1024);
  spec_do (JS_FreeValue global);;
  spec_do JS_FreeContext;;
  ret (Outputs lost).

Lemma rest_grows i out sc lex0 : moves (grows out) (spec_rest i out sc lex0).
Proof.
  unfold spec_rest. apply (moves_bind _); [apply read_moves, _|intros s].
  apply (moves_bind _); [apply (moves_do _)|intros _]. apply (moves_bind _); [apply (moves_js _)|intros g].
  apply (moves_bind _); [apply scripts_moves, _|intros c]. apply (moves_if _); [moving|].
  apply (moves_bind _); [apply input_moves, _|intros l].
  apply (moves_bind _); [apply loop_grows|intros lost]. moving.
Qed.

(** Without assertions no structure is found, and nothing is written. *)
Lemma loop_still g out lex : NDEBUG = true → moves eq (spec_loop g out lex).
Proof.
  intros Hnd. unfold spec_loop. apply (moves_loop _). intros [lx lost] o. unfold spec_turn_main, bind, spec_run.
  destruct (stb_c_lexer_get_token lx) as [[r|e] lx1]; [|done].
  destruct (r =? 0); [done|]. destruct (_ =? CLEX_parse_error); [done|].
  pose proof (nd_struct Hnd lx1) as Hs. unfold wp in Hs.
  destruct (spec_struct lx1) as [[t|e] lx2]; [|done]. by destruct Hs as [-> _].
Qed.

Lemma rest_still i out sc lex0 : NDEBUG = true → moves eq (spec_rest i out sc lex0).
Proof.
  intros Hnd. unfold spec_rest. apply (moves_bind _); [apply read_moves, _|intros s].
  apply (moves_bind _); [apply (moves_do _)|intros _]. apply (moves_bind _); [apply (moves_js _)|intros g].
  apply (moves_bind _); [apply scripts_moves, _|intros c]. apply (moves_if _); [moving|].
  apply (moves_bind _); [apply input_moves, _|intros l].
  apply (moves_bind _); [by apply loop_still|intros lost]. moving.
Qed.

(** The start of [main]: the output file holds the include directive. *)
Lemma prefix_split i out sc lex0 j f :
  0 ∉ i → Z.of_nat (length i) < INT_MAX →
  spec_prefix i out sc lex0 (j, f) =
  if writable f out
  then spec_rest i out sc lex0 (j, set_file out (include_line (base_name i)) (set_file out [] f))
  else (Ok NothingLive, (j, f)).
Proof.
  intros Hi Hl. unfold spec_prefix, spec_clear_file, spec_writable.
  destruct (writable f out) eqn:Hw; [|unfold bind, gets; cbn; by rewrite Hw].
  erewrite bind_run by (erewrite bind_run by done; cbn; rewrite Hw; done). cbn [negb Z.eqb].
  destruct (base_offset_spec i (j, set_file out [] f)) as (k & Hk & _ & Hd); [done|].
  assert (spec_base (i ++ [0]) (j, set_file out [] f) = (Ok (base_name i ++ [0]), (j, set_file out [] f))) as Hb.
  { unfold spec_base. erewrite bind_run by exact Hk. rewrite Hd.
    destruct (base_name_ok i) as [Hn Hle]; [done|].
    pose proof (string_of_text (base_name i ++ [0])) as Hs. rewrite c_str_app_0 in Hs by done.
    unfold zoom. cbn. rewrite Hs; [done|unfold terminated; set_solver|lia]. }
  change (put _ _) with (j, set_file out [] f). erewrite bind_run by exact Hb.
  rewrite c_str_app_0 by by apply base_name_ok.
  erewrite bind_run; [reflexivity|]. unfold spec_include, spec_writable, spec_content.
  erewrite bind_run by done. cbn [snd writable set_file]. rewrite Hw.
  erewrite bind_run by done. cbn [snd contents set_file]. by rewrite lookup_insert_eq.
Qed.
End output.
