(* ===== verification/ToolProps.v ===== *)
(** * Properties of moe/proc_macro/proc_macro.c

    The theorems about the tool, and the concrete inputs of their witnesses. *)
From S2P Require Import Prelude CStd Lexer LexerFacts LexerInv MoeList Heap MoeString ProcMacro Parser JsBridge.
From S2P Require Import Main HeapLogic StringFacts ToolFacts ParserSpec BridgeSpec MainSpec ParserFacts.
From S2P Require Import MainFacts FileFacts.
From Stdlib Require Import SpecFloat.

(** * Concrete engines, files and lexers, to run the definitions on *)

(** An engine in which every name is a function that returns the text [t]. *)
Definition constant_engine (t : list Z) : JSEngine := {|
  JSState := unit; JSValue := unit; JS_NewContext := tt;
  JS_GetGlobalObject s := (tt, s); JS_NewObject s := (tt, s); JS_NewArray s := (tt, s);
  JS_NewString _ s := (tt, s); JS_NewInt32 _ s := (tt, s); JS_NewFloat64 _ s := (tt, s);
  JS_SetPropertyStr _ _ _ s := s; JS_SetPropertyUint32 _ _ _ s := s;
  JS_GetPropertyStr _ _ s := (tt, s); JS_IsFunction _ _ := true;
  JS_Call _ _ _ s := (tt, s); JS_IsException _ := false; JS_GetException s := (tt, s);
  JS_ToCString _ s := (Some t, s); JS_FreeCString _ s := s; JS_FreeValue _ s := s;
  JS_Eval _ _ _ s := (tt, s); JS_FreeContext s := s;
|}.

Definition in_h : list Z := chars "src/in.h".
Definition out_c : list Z := chars "out.c".
Definition script_js : list Z := chars "script.js".

(** A header with one structure and the handlers [hs]. *)
Definition header (hs : string) : list Z :=
  chars "MOE_PROC_MACRO_DERIVES(point, " ++ chars hs ++ chars ") struct point { int x; int y; };".

Definition files (text : list Z) : fs :=
  Fs (<[in_h := text]> {[script_js := chars "// none"]}) (λ _, true).

Definition some_argv : list (list Z) := [chars "moe"; in_h; out_c; script_js].

Definition garbage : stb_lexer := StbLexer [] 0 0 [] 0 0 0 0 S754_nan 0 None 0.

(** The lexer on the first token of a text. *)
Definition first_token (text : list Z) : stb_lexer :=
  snd (stb_c_lexer_get_token (stb_c_lexer_init garbage (text ++ [0]) (Z.of_nat (length text)) (replicate 1025 0) 1024)).

Definition demo_engine : JSEngine := constant_engine (chars "int generated;").


(** * Properties of moe/proc_macro/proc_macro.c *)

Section props.
Context `{!BuildConfig} `{!JSEngine}.

(** C1: for every build, engine, file system and command line, [main] from an empty
    heap ends as [spec_main], the tool as a computation on the engine and the files
    alone, with the same error or the same exit code, and with the engine and the
    files in the same state. The heap then holds exactly what [spec_main] says is
    live: nothing, the three blocks of each output of a handler that a later handler
    overwrote, or the runtime and the input after a script that cannot be read. *)
Theorem main_refines argv lex0 j f :
  agree (λ code r h, code = fst r ∧ holds (is_residue (snd r)) h ∧
                     Z.of_nat (size h) = live_blocks (snd r))
    (main argv lex0 (World _ mem_init j f)) (spec_main argv lex0 (j, f)).
Proof.
  pose proof (main_agree argv lex0 (j, f)) as [Hw Hr]. split; [exact Hw|].
  destruct (fst _), (fst _); try done. destruct Hr as [-> Hh]. split_and!; [done..|].
  by apply blocks_residue.
Qed.

(** C2: from any memory whose blocks are in use elsewhere, [parse_derived_struct]
    ends as [spec_struct], the parser on the lexer alone: with the same error, or
    with a structure that represents the same abstract syntax tree. When it returns
    [NULL] it has given back every block it allocated, and in every case the blocks
    it did not allocate are as before. *)
Theorem parse_derived_struct_refines_spec lx mm :
  wf_mem mm →
  match parse_derived_struct (Parser lx mm), spec_struct lx with
  | (Ok p, s), (Ok t, lx') =>
      p_lex s = lx' ∧ wf_mem (p_mem s) ∧
      ∃ h, holds (is_ast p t) h ∧ m_objs (p_mem s) = h ∪ m_objs mm ∧ h ##ₘ m_objs mm
  | (Err e, s), (Err e', lx') => p_lex s = lx' ∧ e = e'
  | _, _ => False
  end.
Proof.
  intros Hwf.
  pose proof (entails_holds _ _ (parse_derived_struct_refines lx) ∅ eq_refl mm (m_objs mm)) as Hr.
  cbn [state_of parser_mem_state] in Hr.
  destruct (parse_derived_struct (Parser lx mm)) as [[p|e] s].
  - destruct Hr as (h & Hh & Hobj & Hd & Hwf').
    { split_and!; [by rewrite map_empty_union|apply map_disjoint_empty_l|done]. }
    apply (href_post _ _ _) in Hh as (t & -> & Hh). split_and!; [done..|]. by exists h.
  - rewrite Hr; [done|]. split_and!; [by rewrite map_empty_union|apply map_disjoint_empty_l|done].
Qed.

(** C4: the tool terminates: whatever the build, the engine, the files and the
    command line, no loop of [main] needs more turns than its bound. *)
Theorem main_terminates_always argv lex0 j f :
  fst (main argv lex0 (World _ mem_init j f)) ≠ Err OutOfFuel.
Proof.
  pose proof (main_agree argv lex0 (j, f)) as [_ Hr].
  cbn [state_of world_mem_state fst snd] in Hr.
  pose proof (main_terminates argv lex0 (j, f) I) as Ht. unfold wp in Ht.
  destruct (spec_main argv lex0 (j, f)) as [[r|e] o], (fst (main _ _ _)); try done.
  cbn in Hr. subst. by intros [= ->].
Qed.



(** C6: in a build with assertions the exit code [EXIT_SUCCESS] means that every
    block was freed, unless a multiple of 2^64 blocks were left. *)
Theorem success_frees argv lex0 j f :
  NDEBUG = false →
  let r := main argv lex0 (World _ mem_init j f) in
  fst r = Ok EXIT_SUCCESS → Z.of_nat (size (m_objs (w_mem (snd r)))) < 2 ^ 64 →
  m_objs (w_mem (snd r)) = ∅.
Proof.
  intros Hnd r Hr Hsz. pose proof (main_agree argv lex0 (j, f)) as [_ Ha].
  cbn [state_of world_mem_state fst snd] in Ha. change (main _ _ _) with r in Ha. rewrite Hr in Ha.
  destruct (spec_main argv lex0 (j, f)) as [[[c live]|e] o] eqn:Hs; [|done]. cbn in Ha.
  destruct Ha as [<- Hh]. apply (main_success _ _ _ _ _ Hnd) in Hs. apply blocks_residue in Hh.
  rewrite <-Hh in Hs. unfold to_size_t in Hs. rewrite Z.mod_small in Hs by lia.
  apply map_size_empty_iff. lia.
Qed.

End props.

(** ** Witnesses *)

Lemma parse_derived_struct_refines_spec_witness :
  match @parse_derived_struct with_assertions (Parser (first_token (header "debug")) mem_init),
        @spec_struct with_assertions (first_token (header "debug")) with
  | (Ok p, s), (Ok t, lx') =>
      p_lex s = lx' ∧ wf_mem (p_mem s) ∧
      ∃ h, holds (is_ast p t) h ∧ m_objs (p_mem s) = h ∪ m_objs mem_init ∧ h ##ₘ m_objs mem_init
  | (Err e, s), (Err e', lx') => p_lex s = lx' ∧ e = e'
  | _, _ => False
  end.
Proof. apply (@parse_derived_struct_refines_spec with_assertions). apply wf_mem_init. Defined.




Lemma success_frees_witness :
  m_objs (w_mem (snd (@main with_assertions demo_engine some_argv garbage
               (@World demo_engine mem_init tt (files (header "debug")))))) = ∅.
Proof.
  apply (@success_frees with_assertions demo_engine some_argv garbage tt (files (header "debug")) eq_refl);
    by vm_compute.
Defined.

